(* ===== verification/_CoqProject ===== *)
-Q . S2P
Prelude.v
RbTree.v
RbTreeSpec.v
RbTreeProof.v
RbTreeInsert.v
RbTreeDelete.v
RbTreeRemove.v
OrderedTree.v
RbTreeMain.v
Timer.v
TimerProof.v
Queue.v
CString.v
Event.v
EventProof.v
EventBus.v
EventBusProof.v
EventFast.v
Json.v
JsonProof.v
JsonMain.v
EventJson.v
Swar.v
Utils.v
UtilsProof.v
Api.v
ApiProof.v
Mprintf.v
MprintfProof.v
SqlPool.v
SqlPoolProof.v
SqlScript.v
EventSocket.v
EventSocketProof.v
EventSocketMain.v
Yaml.v
Redis.v
RedisProof.v
Loader.v
LoaderProof.v
Log.v
LogProof.v
LogFile.v
LogFileProof.v
Connection.v
Epoll.v
EpollProof.v
Rabbit.v
RabbitProof.v
EslBuffer.v
EslBufferProof.v
EslText.v
EslTextProof.v
EslEvent.v
EslWire.v
EslClient.v
EslEventProof.v
EslClientProof.v
EslSession.v
EslEventType.v
EslConfig.v
AgcCli.v
EslConfigProof.v
AgcCliProof.v
AgcCliSession.v
Odbc.v
OdbcProof.v
Db.v
Memory.v
Runtime.v
Core.v
EventServer.v
EventServerProof.v
EventServerMain.v
Hash.v
HashProof.v
AprPools.v
AprPoolsProof.v
EventPool.v
Sctp.v
