(* ===== verification/Prelude.v ===== *)
(** * The agc framework: a verification library

    agc is the core library of a 5G network function: a daemon with an event
    bus, timers, commands, JSON, formatted text, a pool of database handles,
    logging, connections and loadable modules, in C on top of the Apache
    portable runtime.  This library models
    the parts of it that carry logic of their own, statement by statement, and
    proves what makes them correct.

    ** The program and how its parts interact

    - [src/src/agc_rbtree.c] is an intrusive red-black tree.  Its only client
      in the framework is [src/src/agc_timer.c], which keeps the timer events
      in it by deadline, with keys that wrap around.  The timer thread takes
      due events out of the tree and fires them.
    - [src/src/agc_event.c] is the event bus.  [agc_event_fire] routes an event
      by its source to one of several dispatch queues, each a ring buffer of
      [src/libs/apr-util/misc/apr_queue.c]; a dispatch thread pops an event and
      delivers it to the subscribers of its id.  Events carry linked headers
      and a body, and can be written to and read from JSON
      ([src/src/agc_json.c]).  Pre-built ("fast") events live in one buffer and
      are reused.
    - [src/src/agc_api.c] is the command table: a line is split by the
      tokenizer of [src/src/agc_utils.c], each command is looked up and run,
      and writes its answer to a growing buffer.
    - [src/src/agc_mprintf.c] is the formatter behind SQL text
      ([%q], [%Q]); [src/src/agc_sql.c] is the pool of database handles and the
      execution of scripts.
      The statements go to [src/src/agc_odbc.c], a connection to an ODBC
      driver that is made again when it breaks; [src/src/agc_db.c] does the
      same for sqlite, with transactions.
    - [src/src/agc.c] and [src/src/agc_core.c] read the command line and the
      configuration and start and stop the parts;
      [src/src/agc_core_memory.c] hands memory pools that are given up to a
      thread that destroys them; [src/src/agc_apr.c] wraps the portable
      runtime, of which [src/libs/apr/tables/apr_hash.c] keeps the table of the
      modules; [src/src/agc_sctp.c] makes SCTP sockets.
    - [src/src/include/agc_utils.h] offers case folding on machine words.
    - [src/src/agc_log.c] formats messages, queues them and hands them to the
      loggers that are bound; the log file of
      [src/src/mod/loggers/mod_logfile/mod_logfile.c] is one, with files that
      are rotated.
    - [src/src/agc_module.c] reads the list of modules and loads them; a cache
      module registers with [src/src/agc_cache.c]
      ([src/src/mod/caches/mod_redis/mod_redis.c] is the one for redis), a
      driver with [src/src/agc_driver.c], which serves the connections of
      [src/src/agc_connection.c]
      ([src/src/mod/drivers/mod_epoll/mod_epoll.c] is the one for epoll).
    - [src/src/mod/eventhandlers/mod_eventsocket] serves consoles: a text
      protocol over sockets that runs the commands and sends the events a
      connection has subscribed to, as JSON.  One thread accepts connections
      and each connection has a thread and two memory pools of its own.
    - [src/src/mod/mqs/mod_rabbitmq] connects the bus with a message broker:
      producers publish the events they subscribed to as JSON, consumers run
      the commands and fire the events they receive.
    - [src/libs/esl] is the other end of the event socket: a client library
      ([esl.c], [esl_event.c], [esl_buffer.c], [esl_config.c]) and the console
      program [agc_cli.c], which sends what is typed to the server, shows the
      answers, and shows in a thread of its own the events and log lines that
      arrive in between.

    ** Files

    Common ground:
    - [Prelude]: outcomes of C code ([Ok], [Fault], [OutOfFuel]) and their
      monad, machine integers ([wrap], [sext]).
    - [CString]: bytes, C strings, decimal numbers, [strcasecmp], [atoi].

    The tree and the timers:
    - [RbTree]: [agc_rbtree.c] and [agc_rbtree.h] on a heap of nodes
      ([gmap] from address to [rbnode]); one definition per C function, loops
      as fixpoints on fuel.
    - [RbTreeSpec]: trees as mathematical objects, one-hole contexts, the
      colour and black-height invariants.
    - [RbTreeProof] (what a heap represents, rotations), [RbTreeInsert],
      [RbTreeDelete] (fix-up, minimum, successor), [RbTreeRemove] (unlinking,
      the whole deletion): the operations against the invariants.
    - [OrderedTree]: the class that states what the tree promises, and its
      instance.
    - [RbTreeMain]: the theorems on whole trees and on sequences of operations.
    - [Timer], [TimerProof]: [agc_timer.c], verified against the class
      [OrderedTree] and then for the linked tree.

    The event bus:
    - [Queue]: the ring buffer; a blocking operation is cut where it waits.
      Also the blocks of memory that a queue of pointers stands for.
    - [Event], [EventProof]: one event and its headers, on a store of header
      cells and events; [free] removes a cell.
    - [EventBus], [EventBusProof]: ids, sources, subscriptions, dispatch queues
      and delivery.
    - [EventFast]: the buffer of a fast event, byte by byte; [EventPool]: the
      pools of fast events, and the end of the event system.
    - [Json], [JsonProof], [JsonMain]: parser, printer and editing of cJSON
      trees; [EventJson]: events as JSON.

    Commands, text and the database:
    - [Swar]: case folding eight and four bytes at a time.
    - [Utils], [UtilsProof]: the tokenizer and the other string functions.
    - [Api], [ApiProof]: the command table, command lines, the answer buffer.
    - [Mprintf], [MprintfProof]: the formatter; the loop is proved against the
      class [Collects] of sinks, with the heap buffer and the fixed buffer as
      instances.
    - [SqlPool], [SqlPoolProof], [SqlScript]: the handle pool as a step
      relation over interleaved threads, and long scripts.
    - [Odbc], [OdbcProof]: connections to a driver that is the class
      [OdbcDriver], with the handles it has given out; [Db]:
      statements and transactions on the class [Sqlite].

    Logging, modules and connections:
    - [Log], [LogProof]: bindings, the formatted line, the queue of messages
      and the log thread, against a bounded list of pending messages.
    - [LogFile], [LogFileProof]: writing and rotating files on a file system
      that is a map, and the way of a message from the caller to the file.
    - [Yaml] (the scanner of configuration files, as a list of tokens),
      [Loader], [LoaderProof]: the module list; opening a library is the class
      [Dso].
    - [Redis], [RedisProof]: the pool of connections, the cache commands and
      the front end of the cache; the client library is the class [Hiredis],
      with the laws of [HiredisLaws] where values matter.
    - [Connection]: connections, identifiers and the driver interface;
      [Epoll], [EpollProof]: the driver on epoll instances that are maps.
    - [EventSocket], [EventSocketProof], [EventSocketMain]: packets, commands
      and connections of the console; what arrives is a list of pieces.
    - [EventServer], [EventServerProof], [EventServerMain]: the threads of the
      event socket, their pools, descriptors and shutdown, as steps that
      interleave.
    - [Rabbit], [RabbitProof]: profiles, producers and consumers of the message
      queue module, on a client library that is the class [Amqp].

    The console and its client library:
    - [EslBuffer], [EslBufferProof]: the growing buffer, with its block of
      memory, against a list of bytes.
    - [EslText], [EslTextProof]: searching without case and percent encoding.
    - [EslEvent] (headers, arrays, copies), [EslWire] (the text and the JSON
      form), [EslEventProof], [EslEventType]: the client's events.
    - [EslClient], [EslClientProof]: connecting, receiving, sending and waiting
      for replies; what [poll] and [recv] return is a list of wake-ups.
    - [EslConfig], [EslConfigProof]: configuration files; [AgcCli],
      [AgcCliProof]: profiles, options, commands and the two loops.
    - [EslSession]: client and server together, the bytes of one being the
      input of the other; [AgcCliSession]: the console on top of them.

    The ground the parts stand on:
    - [Hash], [HashProof]: hash tables as arrays of chains, against
      finite maps.
    - [AprPools], [AprPoolsProof]: the pools of [apr_pools.c], their allocators,
      nodes and cleanups, on blocks given out by the class [Malloc]; against a
      tree of regions, each a list of blocks and of cleanups.
    - [Memory]: the thread that destroys memory pools, and its clients.
    - [Runtime]: the functions of [agc_apr.c] that do more than call the
      portable runtime; sockets are the class [Socket].
    - [Core]: the command line, directories, configuration, start and stop.
    - [Sctp]: SCTP sockets; the calls made are a list.

    ** What the theorems show

    - Tree: insertion and deletion keep a valid red-black tree and add or
      remove exactly the node, in the right place; minimum and successor visit
      every node once and in order; any sequence of operations refines an
      ordered list; paths are at most [2 log2 (n+1)] long.
    - Timers: arming puts the event at its deadline; the dispatcher fires
      exactly the due timers in order.  Two faults are shown: the flag that
      [agc_timer_del_timer] leaves, and the root read outside the mutex.
    - Queue: any sequence of pushes and pops refines a bounded list.
    - Events: adding, looking up, deleting, copying and destroying headers on
      the list they represent, with what is freed; adding a header under a
      name that is there makes the list cyclic.  The bus: source ids, the
      order of events of a source, delivery to subscribers, subscribing and
      unsubscribing, and the id that passes the guard but not the table.
    - Fast events: writes stay in their place, and the type reads back; an
      event of a pool is in the pool or held by one client.  The wait of the
      shutdown ends.
    - JSON: printing then parsing gives a value whose numbers are 32-bit integers
      back, inside of the buffers; parsing ends on every text; the faults of large
      numbers, of escapes at the end of a text and of surrogate pairs.  Events with
      distinct header names that are not reserved survive a trip through JSON, by
      which they get two more.
    - Strings and commands: word-wise case folding is byte-wise case folding;
      the tokenizer stays inside its text and agrees with a reference splitter;
      the answer buffer holds what was written; commands run in order.
    - Formatter: the text is what the format says; a [%Q] string reads back as
      one SQL literal; the bounded version cuts.
    - Database: no handle is held by two threads under any interleaving, the
      counters are exact, acquisitions one after the other respect the limit,
      and a long script of terminated statements is executed completely.  Whatever
      the driver refuses, a connection gives every handle back once, or uses one
      it gave back after an environment was refused; a query reaches the caller
      row by row; a transaction is committed even if its script failed.
    - Logging: under every interleaving, wake-ups without a message included,
      messages go, oldest first, to exactly the loggers bound at their level, and
      each is freed once; shutdown hands out what is pending; the lines of a level reach the file in order, and
      the files keep a suffix of everything written, of bounded size.  Faults:
      a wake-up without a message ends the log thread, and a log that cannot be
      renamed loses what follows and the numbered files.
    - Event socket: packets read back as written whatever the pieces in which
      they arrive; sessions end; events are copied to the subscribed
      connections and sent in order; a repeated ["command"] header is fatal.
      Under every interleaving of its threads that stays out of the windows
      [EventServer.still_used] and [EventServer.about_to_accept] nothing is used
      after it was freed and no descriptor is closed twice; a shutdown ends every
      thread and leaves nothing open; what happens in the windows, and when the
      address cannot be bound, is shown to be fatal.
    - Redis: connections are never shared or lost; a pipeline of writes and one
      of reads agree; lost connections are not made again.
    - Modules: the list is loaded in order and each module once; a library that
      cannot be opened is tried without end.
    - Connections and epoll: identifiers do not repeat in a window; registered
      events are those of a table (which is not always what was asked for), also
      when the system refuses, and no dispatcher knows a freed connection,
      unless it was registered without [agc_diver_add_connection]; a handler
      that frees its connection makes the dispatcher read freed memory.
    - Message queue: profiles are read as written; with a broker that accepts
      what is published, every event taken up is published once and in order
      under any interleaving; a routing key of 255 bytes or more, a refused
      login and a refused message each bring the process down.
    - Client: the buffer refines a list; percent encoding and events with
      arrays read back; headers keep the shape of an array and its text; a
      packet is received as it was sent whatever the pieces; events that
      arrive before a reply are kept for later and none is lost.  The faults
      of a buffer with a limit, of the stale byte behind the content, of bytes
      above 127 and of the place of a new value are shown.
    - Client and server: every command of a conversation gets its own answer,
      in order; an event fired at the server (with values that are not empty and a
      body without a percent sign) is the event the client receives; to some
      commands the server sends no reply, and the client waits for the end.  The
      console shows the answer of the command that was typed.
    - Configuration of the console: a file that was written reads back, profiles are
      those of its categories, and reading ends on every text; a setting before
      the first category, the end of the input and ports above 32767 go wrong.

    - Hash tables: every sequence of operations gives the answers of a finite
      map, iteration visits every key once, merging two tables merges the maps.
    - Pools: whatever [malloc] returns, and up to a cleanup that is registered
      without memory (which is fatal), blocks in use never overlap and lie in
      memory that was not freed, an allocation fails only for want of memory,
      cleanups run once and latest first, terminating gives everything back,
      and an allocator keeps no more than its limit, if that is not lowered.
    - Memory pools: none is destroyed twice or while it is held, and all that
      are given up are destroyed.  Sending on a socket sends what it reports.
    - Start-up: the directories follow from the command line; what was started
      before a part refuses is what comes before it; all parts are stopped.
    - SCTP: a socket is handed out exactly when it listens, and otherwise
      closed; messages keep their stream and payload identifier; an accepted
      association is always lost.

    ** Bounds and fuel

    Loops whose recursion is not structural take fuel, and running out of it is
    the outcome [OutOfFuel], distinct from every result, so every theorem that
    gives a result also says that the loop ends.  Tree operations give their
    loops one unit per node of the heap plus one; header loops take the fuel as
    an argument and the theorems ask for more than the length of the list; the
    client's search for a reply takes one unit per packet; the JSON parser, the tokenizer and the script loop get one unit per character
    and more.  Unsigned machine integers are [Z] with the wrap-around written
    out where it matters (deadlines, source ids, the [uint32_t] counters of the
    pool, the words of case folding, the integers of the formatter); sizes and
    indices of buffers are natural numbers, assumed to stay below their range.
    What a client receives is stated for the first [BUF_START] bytes of a
    connection: behind them its buffer moves the content, and the byte it then
    reads behind the content may be a stale one.

    ** What is not modelled

    Floating point (the conversions of the formatter and the numbers of JSON
    that are not integers are parameters: [real_text], [FloatOps] with the laws
    of [FloatLaws]); the memory allocator, which succeeds unless a theorem says
    otherwise (the parts do not allocate from the pools of [AprPools]); the text of messages the parts themselves log; what a
    registered command or a subscriber does ([run_func], callbacks as
    addresses); the
    libraries behind a class ([Dso], [Hiredis], [Amqp], [OdbcDriver], [Sqlite],
    [Socket]) or a parameter ([vasprintf] of
    the C library, the file system's refusals, the handlers of a driver).
    Threads appear as interleavings of the critical sections of their code,
    not as threads of the operating system.  Outside of the library are the
    functions that make one call of the portable runtime ([agc_apr.c],
    [agc_dso.c], most of [agc_db.c]), signals and the launching of threads
    ([agc_core.c]; [agc_config.c] is commented out), the
    delivery properties of a message published to the broker, the module
    for tests, and the portable runtime itself but for the queue, the hash
    tables and a few functions.  Of the console the line editor, completion,
    function keys, signals and the Windows build are left out, of its library
    the functions that listen, log and wrap threads. *)

From stdpp Require Import base gmap list fin_maps.
From Stdlib Require Import ZArith Lia.

(** ** Outcomes of C code

    A modelled operation either returns, performs an access the C code must
    not perform (a null or wild pointer, a byte outside its object, a failed
    assertion), or runs
    out of the fuel its loops were given.  Keeping the last two apart lets a
    theorem state that a loop ends, and not only that it is right if it ends. *)

Inductive fault :=
  | BadPointer
  | OutOfBounds
  | BadFree
  | Assertion.

Inductive result (A : Type) :=
  | Ok (a : A)
  | Fault (f : fault)
  | OutOfFuel.
Arguments Ok {A} _.
Arguments Fault {A} _.
Arguments OutOfFuel {A}.

Definition rbind {A B} (m : result A) (k : A -> result B) : result B :=
  match m with
  | Ok a => k a
  | Fault f => Fault f
  | OutOfFuel => OutOfFuel
  end.

Declare Scope agc_scope.
Delimit Scope agc_scope with agc.
Notation "'let!' x ':=' m 'in' k" := (rbind m (fun x => k))
  (at level 10, x pattern, m at level 100, k at level 200) : agc_scope.
Notation "m ';;;' k" := (rbind m (fun _ => k))
  (at level 199, right associativity) : agc_scope.
Open Scope agc_scope.
Open Scope Z_scope.

Lemma rbind_Ok {A B} (a : A) (k : A -> result B) : rbind (Ok a) k = k a.
Proof. reflexivity. Qed.

Lemma rbind_assoc {A B C} (m : result A) (f : A -> result B) (g : B -> result C) :
  rbind (rbind m f) g = rbind m (fun a => rbind (f a) g).
Proof. by destruct m. Qed.

Lemma rbind_inv {A B} (m : result A) (k : A -> result B) b :
  rbind m k = Ok b -> exists a, m = Ok a /\ k a = Ok b.
Proof. destruct m; simpl; intros; try discriminate; eauto. Qed.

(** Continuations may be rewritten pointwise. *)
#[global] Instance rbind_proper {A B} :
  Proper ((=) ==> pointwise_relation A (=) ==> (=)) (@rbind A B).
Proof. intros m ? <- f g Hfg. destruct m; simpl; auto. Qed.

#[global] Instance fault_eq_dec : EqDecision fault.
Proof. solve_decision. Defined.

#[global] Instance result_eq_dec {A} `{EqDecision A} : EqDecision (result A).
Proof. solve_decision. Defined.

(** ** Machine integers

    A [w]-bit unsigned value is a [Z] in [0, 2^w); [wrap] brings a result back
    into that range and [sext] reads the low [w] bits as a signed number. *)

Definition wrap (w z : Z) : Z := z mod 2 ^ w.
Definition sext (w z : Z) : Z :=
  let u := wrap w z in if u <? 2 ^ (w - 1) then u else u - 2 ^ w.

Lemma wrap_small w z : 0 <= z < 2 ^ w -> wrap w z = z.
Proof. apply Z.mod_small. Qed.

Lemma wrap_add w z d : wrap w (wrap w z + d) = wrap w (z + d).
Proof. apply Zplus_mod_idemp_l. Qed.

(** ** Lists *)

Lemma list_filter_all {A} (P : A -> Prop) `{forall x, Decision (P x)} (l : list A) :
  Forall P l -> filter P l = l.
Proof. induction 1; [done|]. rewrite filter_cons_True by done. by f_equal. Qed.
