(* ===== verification/RbTree.v ===== *)
(** * Red-black tree: the operations on linked nodes

    [src/src/agc_rbtree.c] and [src/src/include/agc_rbtree.h], statement by
    statement.  Nodes live in a heap indexed by address; the tree header holds
    the root and sentinel addresses and the insertion function it was
    initialised with.  The null pointer is address 0, which no heap maps, so
    dereferencing it is a [Fault].  Loops run on [S (size heap)] units of fuel,
    which [RbTreeProof] shows to be enough. *)

From stdpp Require Import base gmap list fin_maps.
From Stdlib Require Import ZArith Lia.
From S2P Require Import Prelude.

Definition NULL : Z := 0.

(** [struct agc_rbtree_node_s] *)
Record rbnode := RbNode {
  key : Z;       (* uintptr_t *)
  left : Z;
  right : Z;
  parent : Z;
  color : Z;     (* char *)
  data : Z }.

#[global] Instance rbnode_eq_dec : EqDecision rbnode.
Proof. solve_decision. Defined.

Definition set_key v n := RbNode v (left n) (right n) (parent n) (color n) (data n).
Definition set_left v n := RbNode (key n) v (right n) (parent n) (color n) (data n).
Definition set_right v n := RbNode (key n) (left n) v (parent n) (color n) (data n).
Definition set_parent v n := RbNode (key n) (left n) (right n) v (color n) (data n).
Definition set_color v n := RbNode (key n) (left n) (right n) (parent n) v (data n).

(** The two functions stored in [tree->insert]. *)
Inductive insert_func := InsertValue | InsertTimerValue.

(** [struct agc_rbtree_s], with the heap its pointers refer to. *)
Record rbtree := RbTree {
  mem : gmap Z rbnode;
  root : Z;
  sentinel : Z;
  insert : insert_func }.

Definition with_mem m s := RbTree m (root s) (sentinel s) (insert s).
Definition with_root r s := RbTree (mem s) r (sentinel s) (insert s).

(** Dereference, and assignment through a pointer. *)
Definition deref (s : rbtree) (p : Z) : result rbnode :=
  match mem s !! p with
  | Some n => Ok n
  | None => Fault BadPointer
  end.

Definition modify (s : rbtree) (p : Z) (f : rbnode -> rbnode) : result rbtree :=
  let! n := deref s p in Ok (with_mem (<[p := f n]> (mem s)) s).

Definition agc_rbt_red (s : rbtree) (p : Z) := modify s p (set_color 1).
Definition agc_rbt_black (s : rbtree) (p : Z) := modify s p (set_color 0).
Definition agc_rbt_is_red (n : rbnode) : bool := negb (color n =? 0).
Definition agc_rbt_is_black (n : rbnode) : bool := negb (agc_rbt_is_red n).
Definition agc_rbt_copy_color (s : rbtree) (n1 n2 : Z) : result rbtree :=
  let! m := deref s n2 in modify s n1 (set_color (color m)).

(** [agc_rbtree_init(tree, s, i)]: the sentinel is blackened and is the root. *)
Definition agc_rbtree_init (m : gmap Z rbnode) (s : Z) (i : insert_func) : result rbtree :=
  agc_rbt_black (RbTree m s s i) s.

(** Fuel for every pointer loop: one more than the number of nodes. *)
Definition loop_fuel (s : rbtree) : nat := S (size (mem s)).

Fixpoint agc_rbtree_min_loop (fuel : nat) (s : rbtree) (node sent : Z) : result Z :=
  match fuel with
  | O => OutOfFuel
  | S fuel' =>
      let! n := deref s node in
      if left n =? sent then Ok node
      else agc_rbtree_min_loop fuel' s (left n) sent
  end.
Definition agc_rbtree_min (s : rbtree) (node sent : Z) : result Z :=
  agc_rbtree_min_loop (loop_fuel s) s node sent.

Definition agc_rbtree_left_rotate (s : rbtree) (node : Z) : result rbtree :=
  let! n := deref s node in
  let temp := right n in
  let! t := deref s temp in
  let! s := modify s node (set_right (left t)) in
  let! t := deref s temp in
  let! s := (if left t =? sentinel s then Ok s
             else modify s (left t) (set_parent node)) in
  let! n := deref s node in
  let! s := modify s temp (set_parent (parent n)) in
  let! s :=
    (if node =? root s then Ok (with_root temp s)
     else
       let! n := deref s node in
       let! p := deref s (parent n) in
       if node =? left p then modify s (parent n) (set_left temp)
       else modify s (parent n) (set_right temp)) in
  let! s := modify s temp (set_left node) in
  modify s node (set_parent temp).

Definition agc_rbtree_right_rotate (s : rbtree) (node : Z) : result rbtree :=
  let! n := deref s node in
  let temp := left n in
  let! t := deref s temp in
  let! s := modify s node (set_left (right t)) in
  let! t := deref s temp in
  let! s := (if right t =? sentinel s then Ok s
             else modify s (right t) (set_parent node)) in
  let! n := deref s node in
  let! s := modify s temp (set_parent (parent n)) in
  let! s :=
    (if node =? root s then Ok (with_root temp s)
     else
       let! n := deref s node in
       let! p := deref s (parent n) in
       if node =? right p then modify s (parent n) (set_right temp)
       else modify s (parent n) (set_left temp)) in
  let! s := modify s temp (set_right node) in
  modify s node (set_parent temp).

(** The common tail of the two insertion functions: link [node] below [temp]. *)
Definition link_leaf (s : rbtree) (go_left : bool) (temp node : Z) : result rbtree :=
  let! s := modify s temp (if go_left then set_left node else set_right node) in
  let! s := modify s node (set_parent temp) in
  let! s := modify s node (set_left (sentinel s)) in
  let! s := modify s node (set_right (sentinel s)) in
  agc_rbt_red s node.

Fixpoint agc_rbtree_insert_value (fuel : nat) (s : rbtree) (temp node : Z) : result rbtree :=
  match fuel with
  | O => OutOfFuel
  | S fuel' =>
      let! n := deref s node in
      let! t := deref s temp in
      let go_left := key n <? key t in
      let p := if go_left then left t else right t in
      if p =? sentinel s then link_leaf s go_left temp node
      else agc_rbtree_insert_value fuel' s p node
  end.

(** 64-bit unsigned difference read as a signed number. *)
Definition key_diff (a b : Z) : Z := sext 64 (a - b).

Fixpoint agc_rbtree_insert_timer_value (fuel : nat) (s : rbtree) (temp node : Z) : result rbtree :=
  match fuel with
  | O => OutOfFuel
  | S fuel' =>
      let! n := deref s node in
      let! t := deref s temp in
      let go_left := key_diff (key n) (key t) <? 0 in
      let p := if go_left then left t else right t in
      if p =? sentinel s then link_leaf s go_left temp node
      else agc_rbtree_insert_timer_value fuel' s p node
  end.

Definition tree_insert (s : rbtree) (temp node : Z) : result rbtree :=
  match insert s with
  | InsertValue => agc_rbtree_insert_value (loop_fuel s) s temp node
  | InsertTimerValue => agc_rbtree_insert_timer_value (loop_fuel s) s temp node
  end.

(** The re-balancing loop of [agc_rbtree_insert], lines 32-75. *)
Fixpoint insert_rebalance (fuel : nat) (s : rbtree) (node : Z) : result rbtree :=
  match fuel with
  | O => OutOfFuel
  | S fuel' =>
      if node =? root s then agc_rbt_black s (root s) else
      let! n := deref s node in
      let! p := deref s (parent n) in
      if negb (agc_rbt_is_red p) then agc_rbt_black s (root s) else
      let! g := deref s (parent p) in
      if parent n =? left g then
        let temp := right g in
        let! t := deref s temp in
        if agc_rbt_is_red t then
          let! s := agc_rbt_black s (parent n) in
          let! s := agc_rbt_black s temp in
          let! s := agc_rbt_red s (parent p) in
          insert_rebalance fuel' s (parent p)
        else
          let! (s, node) :=
            (if node =? right p then
               let! s := agc_rbtree_left_rotate s (parent n) in Ok (s, parent n)
             else Ok (s, node)) in
          let! n := deref s node in
          let! s := agc_rbt_black s (parent n) in
          let! p := deref s (parent n) in
          let! s := agc_rbt_red s (parent p) in
          let! s := agc_rbtree_right_rotate s (parent p) in
          insert_rebalance fuel' s node
      else
        let temp := left g in
        let! t := deref s temp in
        if agc_rbt_is_red t then
          let! s := agc_rbt_black s (parent n) in
          let! s := agc_rbt_black s temp in
          let! s := agc_rbt_red s (parent p) in
          insert_rebalance fuel' s (parent p)
        else
          let! (s, node) :=
            (if node =? left p then
               let! s := agc_rbtree_right_rotate s (parent n) in Ok (s, parent n)
             else Ok (s, node)) in
          let! n := deref s node in
          let! s := agc_rbt_black s (parent n) in
          let! p := deref s (parent n) in
          let! s := agc_rbt_red s (parent p) in
          let! s := agc_rbtree_left_rotate s (parent p) in
          insert_rebalance fuel' s node
  end.

Definition agc_rbtree_insert (s : rbtree) (node : Z) : result rbtree :=
  if root s =? sentinel s then
    let! s := modify s node (set_parent NULL) in
    let! s := modify s node (set_left (sentinel s)) in
    let! s := modify s node (set_right (sentinel s)) in
    let! s := agc_rbt_black s node in
    Ok (with_root node s)
  else
    let! s := tree_insert s (root s) node in
    insert_rebalance (loop_fuel s) s node.

(** "DEBUG stuff" at the end of the unlinking part of the deletion. *)
Definition clear_node (s : rbtree) (node : Z) : result rbtree :=
  let! s := modify s node (set_left NULL) in
  let! s := modify s node (set_right NULL) in
  let! s := modify s node (set_parent NULL) in
  modify s node (set_key 0).

(** [agc_rbt_is_black(w->left) && agc_rbt_is_black(w->right)] *)
Definition children_black (s : rbtree) (w : Z) : result bool :=
  let! wn := deref s w in
  let! wl := deref s (left wn) in
  if agc_rbt_is_black wl then
    let! wr := deref s (right wn) in Ok (agc_rbt_is_black wr)
  else Ok false.

(** The fix-up loop of [agc_rbtree_delete], lines 231-290. *)
Fixpoint delete_fixup (fuel : nat) (s : rbtree) (temp : Z) : result rbtree :=
  match fuel with
  | O => OutOfFuel
  | S fuel' =>
      if temp =? root s then agc_rbt_black s temp else
      let! t := deref s temp in
      if negb (agc_rbt_is_black t) then agc_rbt_black s temp else
      let! p := deref s (parent t) in
      if temp =? left p then
        let! (s, w) :=
          (let w := right p in
           let! wn := deref s w in
           if agc_rbt_is_red wn then
             let! s := agc_rbt_black s w in
             let! s := agc_rbt_red s (parent t) in
             let! s := agc_rbtree_left_rotate s (parent t) in
             let! t := deref s temp in
             let! p := deref s (parent t) in
             Ok (s, right p)
           else Ok (s, w)) in
        let! both := children_black s w in
        if both then
          let! s := agc_rbt_red s w in
          let! t := deref s temp in
          delete_fixup fuel' s (parent t)
        else
          let! wn := deref s w in
          let! wr := deref s (right wn) in
          let! (s, w) :=
            (if agc_rbt_is_black wr then
               let! s := agc_rbt_black s (left wn) in
               let! s := agc_rbt_red s w in
               let! s := agc_rbtree_right_rotate s w in
               let! t := deref s temp in
               let! p := deref s (parent t) in
               Ok (s, right p)
             else Ok (s, w)) in
          let! t := deref s temp in
          let! s := agc_rbt_copy_color s w (parent t) in
          let! s := agc_rbt_black s (parent t) in
          let! wn := deref s w in
          let! s := agc_rbt_black s (right wn) in
          let! s := agc_rbtree_left_rotate s (parent t) in
          delete_fixup fuel' s (root s)
      else
        let! (s, w) :=
          (let w := left p in
           let! wn := deref s w in
           if agc_rbt_is_red wn then
             let! s := agc_rbt_black s w in
             let! s := agc_rbt_red s (parent t) in
             let! s := agc_rbtree_right_rotate s (parent t) in
             let! t := deref s temp in
             let! p := deref s (parent t) in
             Ok (s, left p)
           else Ok (s, w)) in
        let! both := children_black s w in
        if both then
          let! s := agc_rbt_red s w in
          let! t := deref s temp in
          delete_fixup fuel' s (parent t)
        else
          let! wn := deref s w in
          let! wl := deref s (left wn) in
          let! (s, w) :=
            (if agc_rbt_is_black wl then
               let! s := agc_rbt_black s (right wn) in
               let! s := agc_rbt_red s w in
               let! s := agc_rbtree_left_rotate s w in
               let! t := deref s temp in
               let! p := deref s (parent t) in
               Ok (s, left p)
             else Ok (s, w)) in
          let! t := deref s temp in
          let! s := agc_rbt_copy_color s w (parent t) in
          let! s := agc_rbt_black s (parent t) in
          let! wn := deref s w in
          let! s := agc_rbt_black s (left wn) in
          let! s := agc_rbtree_right_rotate s (parent t) in
          delete_fixup fuel' s (root s)
  end.

(** [agc_rbtree_delete], lines 147-163: which node is unlinked ([subst]) and
    which one takes its place ([temp]). *)
Definition delete_select (s : rbtree) (node : Z) : result (Z * Z) :=
  let! n := deref s node in
  if left n =? sentinel s then Ok (right n, node)
  else if right n =? sentinel s then Ok (left n, node)
  else
    let! subst := agc_rbtree_min s (right n) (sentinel s) in
    let! sn := deref s subst in
    Ok (if left sn =? sentinel s then right sn else left sn, subst).

(** Lines 180-217: unlink [subst], and put it in the place of [node] when they
    differ. *)
Definition delete_unlink (s : rbtree) (node subst temp : Z) : result rbtree :=
  let! sn := deref s subst in
  let! sp := deref s (parent sn) in
  let! s :=
    (if subst =? left sp then modify s (parent sn) (set_left temp)
     else modify s (parent sn) (set_right temp)) in
  let! sn := deref s subst in
  if subst =? node then
    modify s temp (set_parent (parent sn))
  else
    let! s :=
      (if parent sn =? node then modify s temp (set_parent subst)
       else modify s temp (set_parent (parent sn))) in
    let! n := deref s node in
    let! s := modify s subst (set_left (left n)) in
    let! s := modify s subst (set_right (right n)) in
    let! s := modify s subst (set_parent (parent n)) in
    let! s := agc_rbt_copy_color s subst node in
    let! s :=
      (if node =? root s then Ok (with_root subst s)
       else
         let! np := deref s (parent n) in
         if node =? left np then modify s (parent n) (set_left subst)
         else modify s (parent n) (set_right subst)) in
    let! sn := deref s subst in
    let! s := (if left sn =? sentinel s then Ok s
               else modify s (left sn) (set_parent subst)) in
    let! sn := deref s subst in
    if right sn =? sentinel s then Ok s
    else modify s (right sn) (set_parent subst).

Definition agc_rbtree_delete (s : rbtree) (node : Z) : result rbtree :=
  let! (temp, subst) := delete_select s node in
  if subst =? root s then
    let! s := agc_rbt_black (with_root temp s) temp in
    clear_node s node
  else
    let! sn := deref s subst in
    let red := agc_rbt_is_red sn in
    let! s := delete_unlink s node subst temp in
    let! s := clear_node s node in
    if red then Ok s
    else delete_fixup (loop_fuel s) s temp.

(** The climbing loop of [agc_rbtree_next]. *)
Fixpoint agc_rbtree_next_loop (fuel : nat) (s : rbtree) (node : Z) : result Z :=
  match fuel with
  | O => OutOfFuel
  | S fuel' =>
      let! n := deref s node in
      if node =? root s then Ok NULL
      else
        let! p := deref s (parent n) in
        if node =? left p then Ok (parent n)
        else agc_rbtree_next_loop fuel' s (parent n)
  end.

Definition agc_rbtree_next (s : rbtree) (node : Z) : result Z :=
  let! n := deref s node in
  if right n =? sentinel s then agc_rbtree_next_loop (loop_fuel s) s node
  else agc_rbtree_min s (right n) (sentinel s).
