(* ===== verification/RbTreeSpec.v ===== *)
(** * Red-black trees as mathematical objects

    The abstract counterpart of the linked nodes of [RbTree]: trees whose
    nodes carry the address they live at, one-hole contexts (the path from a
    node to the root), and the colour and black-height invariants of both.
    Nothing here mentions the heap. *)

From stdpp Require Import base gmap list fin_maps sorting.
From Stdlib Require Import ZArith Lia.
From S2P Require Import Prelude.

(** What a node is, apart from its links and colour. *)
Record item := Item { iloc : Z; ikey : Z; idata : Z }.

#[global] Instance item_eq_dec : EqDecision item.
Proof. solve_decision. Defined.

(** [T true] is a red node, [T false] a black one; [E] is the sentinel. *)
Inductive tree :=
  | E
  | T (c : bool) (l : tree) (x : item) (r : tree).

(** One step of a path: the hole is the left or the right child. *)
Inductive frame :=
  | FL (c : bool) (x : item) (r : tree)
  | FR (c : bool) (l : tree) (x : item).

Abbreviation ctx := (list frame).

Definition fill (f : frame) (t : tree) : tree :=
  match f with
  | FL c x r => T c t x r
  | FR c l x => T c l x t
  end.
Definition fitem (f : frame) : item := match f with FL _ x _ => x | FR _ _ x => x end.
Definition fcolor (f : frame) : bool := match f with FL c _ _ => c | FR c _ _ => c end.

Fixpoint plug (c : ctx) (t : tree) : tree :=
  match c with
  | [] => t
  | f :: c' => plug c' (fill f t)
  end.

Fixpoint inorder (t : tree) : list item :=
  match t with
  | E => []
  | T _ l x r => inorder l ++ x :: inorder r
  end.
Abbreviation locs t := (iloc <$> inorder t).

Fixpoint before (c : ctx) : list item :=
  match c with
  | [] => []
  | FL _ _ _ :: c' => before c'
  | FR _ l x :: c' => before c' ++ inorder l ++ [x]
  end.
Fixpoint after (c : ctx) : list item :=
  match c with
  | [] => []
  | FL _ x r :: c' => x :: inorder r ++ after c'
  | FR _ _ _ :: c' => after c'
  end.

Lemma inorder_plug c t : inorder (plug c t) = before c ++ inorder t ++ after c.
Proof.
  revert t; induction c as [|[] c IH]; intros t; simpl.
  - by rewrite app_nil_r.
  - rewrite IH. simpl. by rewrite <- app_assoc.
  - rewrite IH. simpl. by rewrite <- !app_assoc.
Qed.

Lemma plug_app c1 c2 t : plug (c1 ++ c2) t = plug c2 (plug c1 t).
Proof. revert t; induction c1; intros; simpl; auto. Qed.

Lemma before_app c1 c2 : before (c1 ++ c2) = before c2 ++ before c1.
Proof.
  induction c1 as [|[] c1 IH]; simpl; [by rewrite app_nil_r|done|].
  by rewrite IH, <- app_assoc.
Qed.
Lemma after_app c1 c2 : after (c1 ++ c2) = after c1 ++ after c2.
Proof.
  induction c1 as [|[] c1 IH]; simpl; [done| |done]. by rewrite IH, <- app_assoc.
Qed.

Lemma plug_ne c t : t <> E -> plug c t <> E.
Proof. revert t; induction c as [|[] c IH]; simpl; auto; intros; by apply IH. Qed.

Definition is_red (t : tree) : bool := match t with T true _ _ _ => true | _ => false end.
Definition blacken (t : tree) : tree := match t with E => E | T _ l x r => T false l x r end.

Lemma inorder_blacken t : inorder (blacken t) = inorder t.
Proof. by destruct t. Qed.

Fixpoint height (t : tree) : nat :=
  match t with E => 0 | T _ l _ r => S (height l `max` height r) end.

(** ** The colour invariant

    [rb t c n]: [t] has root colour [c] (red when true), no red node has a red
    child, and every path from the root to a leaf meets [n] black nodes. *)
Inductive rb : tree -> bool -> nat -> Prop :=
  | rb_E : rb E false 0
  | rb_red l x r n : rb l false n -> rb r false n -> rb (T true l x r) true n
  | rb_black l x r cl cr n : rb l cl n -> rb r cr n -> rb (T false l x r) false (S n).

(** [rbctx c b n]: plugging a tree of black-height [n] into [c] gives a valid
    tree with a black root; [b] tells whether the hole accepts a red tree. *)
Inductive rbctx : ctx -> bool -> nat -> Prop :=
  | rbctx_root n : rbctx [] false n
  | rbctx_redL x r c n : rb r false n -> rbctx c true n -> rbctx (FL true x r :: c) false n
  | rbctx_redR l x c n : rb l false n -> rbctx c true n -> rbctx (FR true l x :: c) false n
  | rbctx_blackL x r c cr b n :
      rb r cr n -> rbctx c b (S n) -> rbctx (FL false x r :: c) true n
  | rbctx_blackR l x c cl b n :
      rb l cl n -> rbctx c b (S n) -> rbctx (FR false l x :: c) true n.

(** A valid red-black tree: black root, some black-height. *)
Definition valid (t : tree) : Prop := exists n, rb t false n.

Create HintDb rbdb.
#[export] Hint Constructors rb rbctx : rbdb.

Lemma plug_valid c t b b' n :
  rbctx c b n -> rb t b' n -> (b' = true -> b = true) -> valid (plug c t).
Proof.
  intros Hc; revert t b'.
  induction Hc; intros t b' Ht Hb; simpl.
  - destruct b'; [naive_solver|]. by exists n.
  - destruct b'; [naive_solver|]. eapply IHHc; [by constructor|done].
  - destruct b'; [naive_solver|]. eapply IHHc; [by constructor|done].
  - eapply IHHc; [by econstructor|done].
  - eapply IHHc; [by econstructor|done].
Qed.

Lemma valid_plug_inv c t :
  valid (plug c t) -> exists b b' n, rbctx c b n /\ rb t b' n /\ (b' = true -> b = true).
Proof.
  revert t; induction c as [|[fc x r|fc l x] c IH]; intros t; simpl.
  - intros [n H]. exists false, false, n. split_and!; [constructor|done|done].
  - intros (b & b' & n & Hc & Ht & Hb)%IH. simpl in Ht.
    inversion Ht; subst.
    + rewrite (Hb eq_refl) in Hc. exists false, false, n. eauto with rbdb.
    + exists true, cl, n0. eauto with rbdb.
  - intros (b & b' & n & Hc & Ht & Hb)%IH. simpl in Ht.
    inversion Ht; subst.
    + rewrite (Hb eq_refl) in Hc. exists false, false, n. eauto with rbdb.
    + exists true, cr, n0. eauto with rbdb.
Qed.

Lemma valid_blacken t : valid t -> blacken t = t.
Proof. intros [n H]. by inversion H. Qed.

Lemma rb_is_red t b n : rb t b n -> is_red t = b.
Proof. by destruct 1. Qed.

(** The height of a valid tree is at most twice its black-height, which is at
    most the logarithm of its size: the balance the code is there for. *)
Lemma rb_height t b n : rb t b n -> (height t <= 2 * n + Nat.b2n b)%nat.
Proof. induction 1; simpl in *; try destruct cl, cr; simpl in *; lia. Qed.

Lemma rb_size t b n : rb t b n -> (2 ^ n <= S (length (inorder t)))%nat.
Proof.
  induction 1; simpl; rewrite ?length_app; simpl in *; try lia.
Qed.

Lemma rb_balanced t n :
  rb t false n -> (2 ^ height t <= S (length (inorder t)) * S (length (inorder t)))%nat.
Proof.
  intros H. pose proof (rb_height _ _ _ H). pose proof (rb_size _ _ _ H). simpl in H0.
  transitivity (2 ^ (n + n))%nat.
  - apply Nat.pow_le_mono_r; lia.
  - rewrite Nat.pow_add_r. by apply Nat.mul_le_mono.
Qed.

(** ** The contract: a list of items sorted by rank

    Clients of the tree see the in-order list of its nodes.  [rank] orders the
    keys: the key itself for [agc_rbtree_insert_value], the distance from a
    reference instant for the timer keys, which may wrap around. *)

Definition ranked (rank : Z -> Z) : list item -> Prop :=
  StronglySorted (fun x y => rank (ikey x) <= rank (ikey y)).

(** A new item goes after every item of the same rank. *)
Fixpoint insert_ranked (rank : Z -> Z) (x : item) (L : list item) : list item :=
  match L with
  | [] => [x]
  | y :: L' =>
      if rank (ikey x) <? rank (ikey y) then x :: L else y :: insert_ranked rank x L'
  end.

Section insert_ranked.
Context (rank : Z -> Z) (x : item).

Lemma insert_ranked_perm L : insert_ranked rank x L ≡ₚ x :: L.
Proof.
  induction L as [|y L IH]; simpl; [done|]. case_match; [done|].
  rewrite IH. apply Permutation_swap.
Qed.

Lemma insert_ranked_sorted L : ranked rank L -> ranked rank (insert_ranked rank x L).
Proof.
  unfold ranked. induction 1 as [|y L HL IH Hy]; simpl; [repeat constructor|].
  case_match; constructor.
  - by constructor.
  - constructor; [lia|]. eapply Forall_impl; [done|]. simpl; intros; lia.
  - done.
  - rewrite insert_ranked_perm. constructor; [lia|done].
Qed.

Lemma insert_ranked_lt l y r :
  rank (ikey x) < rank (ikey y) ->
  insert_ranked rank x (l ++ y :: r) = insert_ranked rank x l ++ y :: r.
Proof.
  intros Hy. induction l as [|z l IH]; simpl.
  - by rewrite (proj2 (Z.ltb_lt _ _)).
  - case_match; [done|]. by rewrite IH.
Qed.

Lemma insert_ranked_ge l y r :
  Forall (fun z => rank (ikey z) <= rank (ikey y)) l -> rank (ikey y) <= rank (ikey x) ->
  insert_ranked rank x (l ++ y :: r) = l ++ y :: insert_ranked rank x r.
Proof.
  intros Hl Hy. induction Hl as [|z l Hz Hl IH]; simpl.
  - by rewrite (proj2 (Z.ltb_ge _ _)).
  - rewrite (proj2 (Z.ltb_ge _ _)) by lia. by rewrite IH.
Qed.
End insert_ranked.

Lemma ranked_app_inv rank l y r :
  ranked rank (l ++ y :: r) ->
  ranked rank l /\ ranked rank r /\
  Forall (fun z => rank (ikey z) <= rank (ikey y)) l /\
  Forall (fun z => rank (ikey y) <= rank (ikey z)) r.
Proof.
  unfold ranked. induction l as [|z l IH]; simpl.
  - inversion 1; subst. split_and!; [constructor|done|constructor|done].
  - inversion 1 as [|?? Hs Hf]; subst. destruct (IH Hs) as (? & ? & ? & ?).
    apply Forall_app in Hf as [? Hf]. inversion Hf; subst.
    split_and!; by try constructor.
Qed.

Lemma ranked_delete rank l y r : ranked rank (l ++ y :: r) -> ranked rank (l ++ r).
Proof.
  unfold ranked. induction l as [|z l IH]; simpl; inversion 1 as [|?? Hs Hf]; subst; [done|].
  constructor; [by apply IH|]. apply Forall_app in Hf as [? Hf]. inversion Hf; subst.
  by apply Forall_app.
Qed.
