(* ===== verification/RbTreeProof.v ===== *)
(** * The linked red-black tree implements the abstract one

    What it means that a heap holds a tree or a context, how a write changes
    that, and the two rotations. *)

From stdpp Require Import base gmap list fin_maps sorting.
From Stdlib Require Import ZArith Lia.
From S2P Require Import Prelude RbTree RbTreeSpec.

(** ** Representation *)

Definition rootp (sent : Z) (t : tree) : Z :=
  match t with E => sent | T _ _ x _ => iloc x end.
Definition up (p0 : Z) (c : ctx) : Z :=
  match c with [] => p0 | f :: _ => iloc (fitem f) end.
Definition node_of (sent par : Z) (c : bool) (l : tree) (x : item) (r : tree) : rbnode :=
  RbNode (ikey x) (rootp sent l) (rootp sent r) par (Z.b2z c) (idata x).

Fixpoint sub (m : gmap Z rbnode) (sent par : Z) (t : tree) : Prop :=
  match t with
  | E => True
  | T c l x r =>
      m !! iloc x = Some (node_of sent par c l x r) /\
      sub m sent (iloc x) l /\ sub m sent (iloc x) r
  end.

Fixpoint ctxrep (m : gmap Z rbnode) (sent p0 hole : Z) (c : ctx) : Prop :=
  match c with
  | [] => True
  | FL fc x r :: c' =>
      m !! iloc x = Some (RbNode (ikey x) hole (rootp sent r) (up p0 c') (Z.b2z fc) (idata x)) /\
      sub m sent (iloc x) r /\ ctxrep m sent p0 (iloc x) c'
  | FR fc l x :: c' =>
      m !! iloc x = Some (RbNode (ikey x) (rootp sent l) hole (up p0 c') (Z.b2z fc) (idata x)) /\
      sub m sent (iloc x) l /\ ctxrep m sent p0 (iloc x) c'
  end.

(** The addresses of the nodes of a context. *)
Abbreviation outside c := (iloc <$> (before c ++ after c)).

(** The root pointer as seen from a path: the hole itself when it is empty. *)
Fixpoint rootc (hole : Z) (c : ctx) : Z :=
  match c with [] => hole | f :: c' => rootc (iloc (fitem f)) c' end.

Record rep (p0 : Z) (s : rbtree) (t : tree) : Prop := Rep {
  rep_sub : sub (mem s) (sentinel s) p0 t;
  rep_root : root s = rootp (sentinel s) t;
  rep_nodup : NoDup (locs t);
  rep_sent : sentinel s ∉ locs t;
  rep_null : mem s !! NULL = None;
  rep_black : exists sn, mem s !! sentinel s = Some sn /\ color sn = 0 }.

(** Outside [L] nothing is written, and the header keeps its constant fields. *)
Record unch (L : list Z) (s s' : rbtree) : Prop := Unch {
  unch_mem : forall l, l ∉ L -> mem s' !! l = mem s !! l;
  unch_sent : sentinel s' = sentinel s;
  unch_insert : insert s' = insert s }.

Lemma unch_refl L s : unch L s s.
Proof. by constructor. Qed.
Lemma unch_trans L s1 s2 s3 : unch L s1 s2 -> unch L s2 s3 -> unch L s1 s3.
Proof.
  intros [A B C] [A' B' C']. split; try congruence.
  intros l Hl. rewrite A', A; done.
Qed.
#[export] Hint Resolve unch_refl : rbdb.

Lemma sub_plug m sent p0 c t :
  sub m sent p0 (plug c t) <->
  ctxrep m sent p0 (rootp sent t) c /\ sub m sent (up p0 c) t.
Proof.
  revert t; induction c as [|[fc x r|fc l x] c IH]; intros t; simpl; [tauto| |];
    rewrite IH; simpl; unfold node_of; tauto.
Qed.

Lemma rootp_plug sent c t : rootp sent (plug c t) = rootc (rootp sent t) c.
Proof. revert t; induction c as [|[] c IH]; intros; simpl; auto; by rewrite IH. Qed.

Lemma sub_ext m m' sent p t :
  (forall l, l ∈ locs t -> m' !! l = m !! l) -> sub m sent p t -> sub m' sent p t.
Proof.
  revert p; induction t as [|c l IHl x r IHr]; simpl; intros p Hm; [done|].
  intros (Hx & Hl & Hr). split_and!.
  - rewrite Hm; [done|]. set_solver.
  - apply IHl; [|done]. intros; apply Hm. set_solver.
  - apply IHr; [|done]. intros; apply Hm. set_solver.
Qed.

Lemma ctxrep_ext m m' sent p0 h c :
  (forall l, l ∈ outside c -> m' !! l = m !! l) ->
  ctxrep m sent p0 h c -> ctxrep m' sent p0 h c.
Proof.
  revert h; induction c as [|[fc x r|fc l x] c IH]; simpl; intros h Hm; [done| |].
  - intros (Hx & Hr & Hc). split_and!.
    + rewrite Hm; [done|set_solver].
    + eapply sub_ext; [|done]. intros; apply Hm. set_solver.
    + apply IH; [|done]. intros; apply Hm. set_solver.
  - intros (Hx & Hl & Hc). split_and!.
    + rewrite Hm; [done|set_solver].
    + eapply sub_ext; [|done]. intros; apply Hm. set_solver.
    + apply IH; [|done]. intros; apply Hm. set_solver.
Qed.

(** ** Disjoint addresses

    All separation facts are kept in atomic form: [k ∉ A], [k <> k'] and
    [disj A B] for the address lists [A], [B] of subtrees and contexts. *)

Definition disj (A B : list Z) : Prop := forall k, k ∈ A -> k ∉ B.

#[export] Instance disj_proper : Proper ((≡ₚ) ==> (≡ₚ) ==> iff) disj.
Proof. intros A A' HA B B' HB. unfold disj. by setoid_rewrite HA; setoid_rewrite HB. Qed.

Lemma disj_sym A B : disj A B -> disj B A.
Proof. intros H k Hb Ha. by apply (H k). Qed.

Definition fsib (f : frame) : tree := match f with FL _ _ r => r | FR _ l _ => l end.

Lemma elem_T k c l x r : k ∉ locs (T c l x r) <-> k <> iloc x /\ k ∉ locs l /\ k ∉ locs r.
Proof. simpl. rewrite fmap_app, fmap_cons, not_elem_of_app, not_elem_of_cons. tauto. Qed.

Lemma outside_cons f c :
  outside (f :: c) ≡ₚ iloc (fitem f) :: locs (fsib f) ++ outside c.
Proof. destruct f; simpl; rewrite ?fmap_app; simpl; rewrite ?fmap_app; simpl; solve_Permutation. Qed.

Lemma elem_outside k f c :
  k ∉ outside (f :: c) <-> k <> iloc (fitem f) /\ k ∉ locs (fsib f) /\ k ∉ outside c.
Proof. rewrite outside_cons, not_elem_of_cons, not_elem_of_app. tauto. Qed.

Lemma locs_plug c t : locs (plug c t) ≡ₚ locs t ++ outside c.
Proof. rewrite inorder_plug, !fmap_app. solve_Permutation. Qed.

Lemma elem_plug k c t : k ∉ locs (plug c t) <-> k ∉ locs t /\ k ∉ outside c.
Proof. by rewrite locs_plug, not_elem_of_app. Qed.

Lemma disj_T A c l x r :
  disj A (locs (T c l x r)) <-> iloc x ∉ A /\ disj A (locs l) /\ disj A (locs r).
Proof.
  split.
  - intros H. split_and!.
    + intros Hx. apply H in Hx. apply elem_T in Hx. tauto.
    + intros k Hk. apply H in Hk. apply elem_T in Hk. tauto.
    + intros k Hk. apply H in Hk. apply elem_T in Hk. tauto.
  - intros (Hx & Hl & Hr) k Hk. apply elem_T. split_and!; auto. by intros ->.
Qed.

Lemma disj_outside A f c :
  disj A (outside (f :: c)) <-> iloc (fitem f) ∉ A /\ disj A (locs (fsib f)) /\ disj A (outside c).
Proof.
  split.
  - intros H. split_and!.
    + intros Hx. apply H in Hx. apply elem_outside in Hx. tauto.
    + intros k Hk. apply H in Hk. apply elem_outside in Hk. tauto.
    + intros k Hk. apply H in Hk. apply elem_outside in Hk. tauto.
  - intros (Hx & Hl & Hr) k Hk. apply elem_outside. split_and!; auto. by intros ->.
Qed.

Lemma nodup_plug c t :
  NoDup (locs (plug c t)) <->
  NoDup (locs t) /\ NoDup (outside c) /\ disj (outside c) (locs t).
Proof.
  rewrite locs_plug, NoDup_app. unfold disj. naive_solver.
Qed.

Lemma nodup_T c l x r :
  NoDup (locs (T c l x r)) <->
  NoDup (locs l) /\ NoDup (locs r) /\ iloc x ∉ locs l /\ iloc x ∉ locs r /\
  disj (locs l) (locs r).
Proof.
  simpl. rewrite fmap_app, NoDup_app, fmap_cons, NoDup_cons. unfold disj.
  setoid_rewrite not_elem_of_cons. naive_solver.
Qed.

Lemma nodup_outside f c :
  NoDup (outside (f :: c)) <->
  NoDup (locs (fsib f)) /\ NoDup (outside c) /\ iloc (fitem f) ∉ locs (fsib f) /\
  iloc (fitem f) ∉ outside c /\ disj (locs (fsib f)) (outside c).
Proof.
  rewrite outside_cons, NoDup_cons, NoDup_app, not_elem_of_app. unfold disj. naive_solver.
Qed.

Lemma locs_E : locs E = [].
Proof. done. Qed.
Lemma outside_nil : outside [] = [].
Proof. done. Qed.

Lemma disj_nil_r A : disj A [].
Proof. intros k _. apply not_elem_of_nil. Qed.
Lemma disj_nil_l A : disj [] A.
Proof. intros k Hk. by apply elem_of_nil in Hk. Qed.

#[export] Hint Resolve disj_nil_l disj_nil_r not_elem_of_nil NoDup_nil_2 not_eq_sym : rbdb.

Lemma disj_elem A B (k : Z) : disj A B -> k ∈ A -> k ∉ B.
Proof. auto. Qed.
Lemma disj_elem' A B (k : Z) : disj B A -> k ∈ A -> k ∉ B.
Proof. intros H Ha Hb. by apply (H k). Qed.
Lemma elem_ne (k k' : Z) (A : list Z) : k ∈ A -> k' ∉ A -> k <> k'.
Proof. by intros ?? ->. Qed.
#[export] Hint Resolve disj_elem disj_elem' elem_ne : rbdb.

(** Break every separation fact of the context into atomic ones. *)
Ltac spread :=
  simpl plug in *; simpl fill in *;
  repeat match goal with
  | H : NoDup (iloc <$> inorder (plug _ _)) |- _ => apply nodup_plug in H as (? & ? & ?)
  | H : NoDup (iloc <$> inorder (T _ _ _ _)) |- _ => apply nodup_T in H as (? & ? & ? & ? & ?)
  | H : NoDup (iloc <$> (before (_ :: _) ++ after (_ :: _))) |- _ =>
      apply nodup_outside in H as (? & ? & ? & ? & ?); cbn [fitem fsib] in *
  | H : _ ∉ iloc <$> inorder (plug _ _) |- _ => apply elem_plug in H as (? & ?)
  | H : _ ∉ iloc <$> inorder (T _ _ _ _) |- _ => apply elem_T in H as (? & ? & ?)
  | H : _ ∉ iloc <$> (before (_ :: _) ++ after (_ :: _)) |- _ =>
      apply elem_outside in H as (? & ? & ?); cbn [fitem fsib] in *
  | H : disj _ (iloc <$> inorder (T _ _ _ _)) |- _ => apply disj_T in H as (? & ? & ?)
  | H : disj _ (iloc <$> (before (_ :: _) ++ after (_ :: _))) |- _ =>
      apply disj_outside in H as (? & ? & ?); cbn [fitem fsib] in *
  | H : disj (iloc <$> inorder (T _ _ _ _)) _ |- _ => apply disj_sym in H
  | H : disj (iloc <$> (before (_ :: _) ++ after (_ :: _))) _ |- _ => apply disj_sym in H
  end.

(** ** Symbolic execution *)

Lemma deref_bind {B} s p n (k : rbnode -> result B) :
  mem s !! p = Some n -> rbind (deref s p) k = k n.
Proof. unfold deref. by intros ->. Qed.

Lemma modify_bind {B} s p f n (k : rbtree -> result B) :
  mem s !! p = Some n ->
  rbind (modify s p f) k = k (with_mem (<[p := f n]> (mem s)) s).
Proof. unfold modify, deref. by intros ->. Qed.

Lemma modify_ok s p f n :
  mem s !! p = Some n -> modify s p f = Ok (with_mem (<[p := f n]> (mem s)) s).
Proof. unfold modify, deref. by intros ->. Qed.

Lemma eqb_ne a b : a <> b -> (a =? b) = false.
Proof. by intros ?%Z.eqb_neq. Qed.

Ltac ne_solve :=
  first [ assumption | apply not_eq_sym; assumption | solve [eauto 4 with rbdb] ].

Lemma sub_insert m se p t k v :
  k ∉ locs t -> sub m se p t -> sub (<[k := v]> m) se p t.
Proof. intros Hk. apply sub_ext. intros l Hl. rewrite lookup_insert_ne; [done|by intros ->]. Qed.

Lemma ctxrep_insert m se p0 h c k v :
  k ∉ outside c -> ctxrep m se p0 h c -> ctxrep (<[k := v]> m) se p0 h c.
Proof. intros Hk. apply ctxrep_ext. intros l Hl. rewrite lookup_insert_ne; [done|by intros ->]. Qed.


(** Evaluate a lookup in a heap built by insertions. *)
Ltac lookup_solve :=
  cbn;
  repeat first
    [ rewrite lookup_insert_eq | rewrite lookup_insert_ne by ne_solve ];
  first [ eassumption | reflexivity ].

(** Normalise the states of the goal to records and run the next step. *)
Ltac xcbn :=
  rewrite ?rbind_Ok;
  cbn -[Z.b2z rbind modify deref agc_rbtree_left_rotate agc_rbtree_right_rotate];
  unfold with_mem, with_root;
  cbn [mem root sentinel insert].
Ltac xstep tac :=
  first
  [ erewrite deref_bind by tac
  | erewrite modify_bind by tac
  | erewrite modify_ok by tac ]; xcbn.

(** Changing the parent pointer of a subtree, unless it is the sentinel. *)
Lemma reparent_spec m rt se ins p q t :
  sub m se p t -> NoDup (locs t) -> se ∉ locs t ->
  exists m',
    (if rootp se t =? se then Ok (RbTree m rt se ins)
     else modify (RbTree m rt se ins) (rootp se t) (set_parent q)) = Ok (RbTree m' rt se ins) /\
    sub m' se q t /\ (forall l, l ∉ locs t -> m' !! l = m !! l).
Proof.
  destruct t as [|c l x r]; intros Hs Hn Hse.
  - exists m. simpl. by rewrite Z.eqb_refl.
  - spread. destruct Hs as (Hx & Hl & Hr). cbn [rootp]. rewrite eqb_ne by ne_solve.
    eexists. split; [by apply modify_ok|]. cbn [mem with_mem sub]. split_and!.
    + by rewrite lookup_insert_eq.
    + by apply sub_insert.
    + by apply sub_insert.
    + intros k Hk. spread. rewrite lookup_insert_ne by ne_solve. done.
Qed.

(** Making the parent of [h] (or the root pointer) point to [h'] instead; the
    side is found by comparing with the left or with the right child. *)
Definition relink (byl : bool) (s : rbtree) (h h' : Z) : result rbtree :=
  if h =? root s then Ok (with_root h' s)
  else
    let! n := deref s h in
    let! p := deref s (parent n) in
    if byl then
      if h =? left p then modify s (parent n) (set_left h')
      else modify s (parent n) (set_right h')
    else
      if h =? right p then modify s (parent n) (set_right h')
      else modify s (parent n) (set_left h').

Lemma rootc_in h c : c <> [] -> rootc h c ∈ outside c.
Proof.
  revert h; induction c as [|f c IH]; intros h Hc; [done|].
  rewrite outside_cons, elem_of_cons, elem_of_app.
  destruct c as [|g c']; [by left|]. right; right. by apply (IH (iloc (fitem f))).
Qed.

Lemma rootp_ne k se t : k <> se -> k ∉ locs t -> k <> rootp se t.
Proof. destruct t; intros; spread; done. Qed.
#[export] Hint Resolve rootp_ne : rbdb.

Lemma relink_spec byl m se ins p0 h h' c n :
  ctxrep m se p0 h c -> m !! h = Some n -> parent n = up p0 c ->
  h ∉ outside c -> h <> se -> NoDup (outside c) ->
  exists m',
    relink byl (RbTree m (rootc h c) se ins) h h' = Ok (RbTree m' (rootc h' c) se ins) /\
    ctxrep m' se p0 h' c /\ (forall l, l ∉ outside c -> m' !! l = m !! l).
Proof.
  intros Hc Hh Hp Hho Hse Hnd. unfold relink; cbn [root].
  destruct c as [|f c].
  - exists m. cbn. by rewrite Z.eqb_refl.
  - rewrite eqb_ne by (eapply not_eq_sym, elem_ne; [by apply rootc_in|done]).
    erewrite deref_bind by done. rewrite Hp. spread.
    destruct f as [fc x r|fc l x]; cbn [fitem fsib ctxrep] in *; destruct Hc as (Hx & Hr & Hc);
      (erewrite deref_bind by done); cbn [left right]; rewrite Z.eqb_refl;
      rewrite (eqb_ne h) by ne_solve;
      (eexists; split; [destruct byl; by erewrite modify_ok by done|]);
      cbn [mem with_mem ctxrep];
      (split_and!; [by rewrite lookup_insert_eq|by apply sub_insert|by apply ctxrep_insert|]);
      intros k Hk; spread; cbn; rewrite lookup_insert_ne by ne_solve; done.
Qed.

Lemma sub_lookup m se p t k : sub m se p t -> k ∈ locs t -> is_Some (m !! k).
Proof.
  revert p; induction t as [|c l IHl x r IHr]; simpl; intros p; [by intros _ ?%elem_of_nil|].
  rewrite fmap_app, fmap_cons, elem_of_app, elem_of_cons.
  intros (Hx & Hl & Hr) [?|[->|?]]; eauto.
Qed.

Lemma rep_not_null p0 s t : rep p0 s t -> NULL ∉ locs t.
Proof. intros [Hs _ _ _ Hnu _] [? Hk]%(sub_lookup _ _ _ _ _ Hs). congruence. Qed.

(** An operation that only writes inside the tree and rearranges its nodes. *)
Lemma rep_change p0 p0' s s' t t' :
  rep p0 s t -> unch (locs t) s s' -> inorder t' = inorder t ->
  sub (mem s') (sentinel s) p0' t' -> root s' = rootp (sentinel s) t' -> rep p0' s' t'.
Proof.
  intros HR [Hm Hse Hi] Hl Hs' Hr. pose proof (rep_not_null _ _ _ HR).
  destruct HR as [Hs _ Hn Hse' Hnu (sn & Hsn & Hb)].
  split; rewrite ?Hse, ?Hl; try done.
  - by rewrite Hm.
  - exists sn. by rewrite Hm.
Qed.

Lemma inorder_rotate cx l x cy m y r :
  inorder (T cy (T cx l x m) y r) = inorder (T cx l x (T cy m y r)).
Proof. simpl. by rewrite <- app_assoc. Qed.

Lemma left_rotate_spec p0 s c cx l x cy m y r :
  let t := plug c (T cx l x (T cy m y r)) in
  rep p0 s t ->
  exists s', agc_rbtree_left_rotate s (iloc x) = Ok s' /\
    rep p0 s' (plug c (T cy (T cx l x m) y r)) /\ unch (locs t) s s'.
Proof.
  intros t HR. subst t. pose proof HR as [Hs Hr Hn Hse Hnu _].
  destruct s as [m0 rs se ins]; simpl in *.
  rewrite rootp_plug in Hr. subst rs. spread.
  apply sub_plug in Hs as [Hc (Hx & Hl & Hy & Hm & Hrr)].
  unfold agc_rbtree_left_rotate.
  do 3 xstep ltac:(done). xstep lookup_solve.
  match goal with |- context [modify (RbTree ?M _ _ _) _ _] => set (m1 := M) end.
  destruct (reparent_spec m1 (rootc (iloc x) c) se ins (iloc y) (iloc x) m)
    as (m2 & -> & Hm2 & F2); [by apply sub_insert|done|done|]. xcbn.
  assert (m1 !! iloc x = Some (node_of se (up p0 c) cx l x m)) as Hx1 by (subst m1; lookup_solve).
  assert (m1 !! iloc y = m0 !! iloc y) as Hy1 by (subst m1; by rewrite lookup_insert_ne).
  xstep ltac:(cbn; rewrite F2 by ne_solve; eassumption).
  xstep ltac:(cbn; rewrite F2, Hy1 by ne_solve; eassumption).
  match goal with |- context [rbind (if _ =? _ then Ok (RbTree ?M _ _ _) else _)] => set (m3 := M) end.
  destruct (relink_spec true m3 se ins p0 (iloc x) (iloc y) c (node_of se (up p0 c) cx l x m))
    as (m4 & Hre & Hc4 & F4); try done.
  { subst m3. apply ctxrep_insert; [done|]. eapply ctxrep_ext; [|done]. intros k Hk.
    rewrite F2 by eauto with rbdb. subst m1. rewrite lookup_insert_ne; [done|]. by intros <-. }
  { subst m3. rewrite lookup_insert_ne by done. by rewrite F2. }
  match goal with |- context [rbind ?blk _] =>
    change blk with (relink true (RbTree m3 (rootc (iloc x) c) se ins) (iloc x) (iloc y)) end.
  rewrite Hre. xcbn.
  assert (m4 !! iloc y = Some (node_of se (up p0 c) cy m y r)) as Hy4
    by (rewrite F4 by done; subst m3; lookup_solve).
  assert (m4 !! iloc x = Some (node_of se (up p0 c) cx l x m)) as Hx4
    by (rewrite F4 by done; subst m3; rewrite lookup_insert_ne by done; by rewrite F2).
  xstep ltac:(exact Hy4). xstep lookup_solve.
  eexists; split; [reflexivity|].
  match goal with |- rep _ (RbTree ?M _ _ _) _ /\ _ => set (m6 := M) end.
  assert (forall k, k ∉ outside c -> k <> iloc x -> k <> iloc y -> m6 !! k = m2 !! k) as G.
  { intros k ???. subst m6. rewrite !lookup_insert_ne by done. rewrite F4 by done.
    subst m3. by rewrite lookup_insert_ne. }
  assert (forall k, k ∉ locs m -> k <> iloc x -> m2 !! k = m0 !! k) as G2.
  { intros k ??. rewrite F2 by done. subst m1. by rewrite lookup_insert_ne. }
  assert (unch (locs (plug c (T cx l x (T cy m y r))))
    (RbTree m0 (rootc (iloc x) c) se ins) (RbTree m6 (rootc (iloc y) c) se ins)) as Hun.
  { split; cbn [mem sentinel insert]; try done. intros k Hk. spread. rewrite G, G2; done. }
  split; [|exact Hun]. eapply rep_change; [exact HR|exact Hun| | |by rewrite rootp_plug].
  - by rewrite !inorder_plug, inorder_rotate.
  - apply sub_plug. cbn [sub rootp sentinel mem]. split_and!.
    + subst m6. by repeat apply ctxrep_insert.
    + subst m6. lookup_solve.
    + subst m6. lookup_solve.
    + eapply sub_ext; [|exact Hl]. intros k Hk. rewrite G, G2 by eauto with rbdb. done.
    + eapply sub_ext; [|exact Hm2]. intros k Hk. rewrite G by eauto with rbdb. done.
    + eapply sub_ext; [|exact Hrr]. intros k Hk. rewrite G, G2 by eauto with rbdb. done.
Qed.

Lemma right_rotate_spec p0 s c cx l x cy m y r :
  let t := plug c (T cx (T cy l y m) x r) in
  rep p0 s t ->
  exists s', agc_rbtree_right_rotate s (iloc x) = Ok s' /\
    rep p0 s' (plug c (T cy l y (T cx m x r))) /\ unch (locs t) s s'.
Proof.
  intros t HR. subst t. pose proof HR as [Hs Hr Hn Hse Hnu _].
  destruct s as [m0 rs se ins]; simpl in *.
  rewrite rootp_plug in Hr. subst rs. spread.
  apply sub_plug in Hs as [Hc (Hx & (Hy & Hl & Hm) & Hrr)].
  unfold agc_rbtree_right_rotate.
  do 3 xstep ltac:(done). xstep lookup_solve.
  match goal with |- context [modify (RbTree ?M _ _ _) _ _] => set (m1 := M) end.
  destruct (reparent_spec m1 (rootc (iloc x) c) se ins (iloc y) (iloc x) m)
    as (m2 & -> & Hm2 & F2); [by apply sub_insert|done|done|]. xcbn.
  assert (m1 !! iloc x = Some (node_of se (up p0 c) cx m x r)) as Hx1 by (subst m1; lookup_solve).
  assert (m1 !! iloc y = m0 !! iloc y) as Hy1 by (subst m1; by rewrite lookup_insert_ne).
  xstep ltac:(cbn; rewrite F2 by ne_solve; eassumption).
  xstep ltac:(cbn; rewrite F2, Hy1 by ne_solve; eassumption).
  match goal with |- context [rbind (if _ =? _ then Ok (RbTree ?M _ _ _) else _)] => set (m3 := M) end.
  destruct (relink_spec false m3 se ins p0 (iloc x) (iloc y) c (node_of se (up p0 c) cx m x r))
    as (m4 & Hre & Hc4 & F4); try done.
  { subst m3. apply ctxrep_insert; [done|]. eapply ctxrep_ext; [|done]. intros k Hk.
    rewrite F2 by eauto with rbdb. subst m1. rewrite lookup_insert_ne; [done|]. by intros <-. }
  { subst m3. rewrite lookup_insert_ne by done. by rewrite F2. }
  match goal with |- context [rbind ?blk _] =>
    change blk with (relink false (RbTree m3 (rootc (iloc x) c) se ins) (iloc x) (iloc y)) end.
  rewrite Hre. xcbn.
  assert (m4 !! iloc y = Some (node_of se (up p0 c) cy l y m)) as Hy4
    by (rewrite F4 by done; subst m3; lookup_solve).
  assert (m4 !! iloc x = Some (node_of se (up p0 c) cx m x r)) as Hx4
    by (rewrite F4 by done; subst m3; rewrite lookup_insert_ne by done; by rewrite F2).
  xstep ltac:(exact Hy4). xstep lookup_solve.
  eexists; split; [reflexivity|].
  match goal with |- rep _ (RbTree ?M _ _ _) _ /\ _ => set (m6 := M) end.
  assert (forall k, k ∉ outside c -> k <> iloc x -> k <> iloc y -> m6 !! k = m2 !! k) as G.
  { intros k ???. subst m6. rewrite !lookup_insert_ne by done. rewrite F4 by done.
    subst m3. by rewrite lookup_insert_ne. }
  assert (forall k, k ∉ locs m -> k <> iloc x -> m2 !! k = m0 !! k) as G2.
  { intros k ??. rewrite F2 by done. subst m1. by rewrite lookup_insert_ne. }
  assert (unch (locs (plug c (T cx (T cy l y m) x r)))
    (RbTree m0 (rootc (iloc x) c) se ins) (RbTree m6 (rootc (iloc y) c) se ins)) as Hun.
  { split; cbn [mem sentinel insert]; try done. intros k Hk. spread. rewrite G, G2; done. }
  split; [|exact Hun]. eapply rep_change; [exact HR|exact Hun| | |by rewrite rootp_plug].
  - by rewrite !inorder_plug, <- inorder_rotate.
  - apply sub_plug. cbn [sub rootp sentinel mem]. split_and!.
    + subst m6. by repeat apply ctxrep_insert.
    + subst m6. lookup_solve.
    + eapply sub_ext; [|exact Hl]. intros k Hk. rewrite G, G2 by eauto with rbdb. done.
    + subst m6. lookup_solve.
    + eapply sub_ext; [|exact Hm2]. intros k Hk. rewrite G by eauto with rbdb. done.
    + eapply sub_ext; [|exact Hrr]. intros k Hk. rewrite G, G2 by eauto with rbdb. done.
Qed.

(** ** Focused views of a represented tree *)

(** [s'] holds [t'], a rearrangement of the nodes of [t], and nothing outside
    the tree was written. *)
Record moved (p0 : Z) (s : rbtree) (t : tree) (s' : rbtree) (t' : tree) : Prop := Moved {
  moved_rep : rep p0 s' t';
  moved_inorder : inorder t' = inorder t;
  moved_unch : unch (locs t) s s' }.

Lemma moved_refl p0 s t : rep p0 s t -> moved p0 s t s t.
Proof. by constructor. Qed.
Lemma moved_trans p0 s1 t1 s2 t2 s3 t3 :
  moved p0 s1 t1 s2 t2 -> moved p0 s2 t2 s3 t3 -> moved p0 s1 t1 s3 t3.
Proof.
  intros [_ I1 U1] [R2 I2 U2]. split; [done|congruence|].
  rewrite I1 in U2. by eapply unch_trans.
Qed.

Lemma rep_deref p0 s t c cx l x r :
  rep p0 s t -> t = plug c (T cx l x r) ->
  mem s !! iloc x = Some (node_of (sentinel s) (up p0 c) cx l x r).
Proof. intros [Hs _ _ _ _ _] ->. apply sub_plug in Hs as [_ [? _]]. done. Qed.

Lemma b2z_red b : negb (Z.b2z b =? 0) = b.
Proof. by destruct b. Qed.

(** The colour of any subtree is read off its root, the sentinel being black. *)
Lemma rep_color p0 s t c u :
  rep p0 s t -> t = plug c u ->
  exists n, mem s !! rootp (sentinel s) u = Some n /\ agc_rbt_is_red n = is_red u.
Proof.
  intros HR ->. destruct u as [|cx l x r]; simpl.
  - destruct (rep_black _ _ _ HR) as (sn & ? & Hc). exists sn.
    split; [done|]. unfold agc_rbt_is_red. by rewrite Hc.
  - eexists. split; [by eapply rep_deref|]. unfold agc_rbt_is_red; simpl.
    rewrite b2z_red. by destruct cx.
Qed.

Lemma rep_is_root p0 s t c cx l x r :
  rep p0 s t -> t = plug c (T cx l x r) ->
  (iloc x =? root s) = match c with [] => true | _ => false end.
Proof.
  intros [_ Hr Hn _ _ _] ->. rewrite Hr, rootp_plug. simpl.
  destruct c as [|f c]; [apply Z.eqb_refl|]. apply eqb_ne.
  apply nodup_plug in Hn as (_ & _ & Hd).
  pose proof (rootc_in (iloc x) (f :: c)) as Hi. specialize (Hi ltac:(done)).
  apply Hd in Hi. apply elem_T in Hi. apply not_eq_sym. tauto.
Qed.

Lemma color_spec c' p0 s t c cx l x r :
  rep p0 s t -> t = plug c (T cx l x r) ->
  exists s', modify s (iloc x) (set_color (Z.b2z c')) = Ok s' /\
    moved p0 s t s' (plug c (T c' l x r)).
Proof.
  intros HR ->. pose proof HR as [Hs Hr Hn Hse Hnu _]. spread.
  apply sub_plug in Hs as (Hc & Hx & Hl & Hrr).
  eexists; split; [by apply modify_ok|].
  assert (unch (locs (plug c (T cx l x r))) s
    (with_mem (<[iloc x := set_color (Z.b2z c') (node_of (sentinel s) (up p0 c) cx l x r)]> (mem s)) s))
    as Hun.
  { split; cbn [with_mem mem sentinel insert]; try done. intros k Hk. spread.
    by rewrite lookup_insert_ne by done. }
  assert (inorder (plug c (T c' l x r)) = inorder (plug c (T cx l x r))) as Hi
    by by rewrite !inorder_plug.
  split; [|done|done].
  eapply rep_change; [exact HR|exact Hun|exact Hi| |].
  - apply sub_plug. cbn [sub rootp sentinel mem with_mem]. split_and!.
    + by apply ctxrep_insert.
    + by rewrite lookup_insert_eq.
    + by apply sub_insert.
    + by apply sub_insert.
  - simpl. rewrite Hr. by rewrite !rootp_plug.
Qed.

Lemma red_spec p0 s t c cx l x r :
  rep p0 s t -> t = plug c (T cx l x r) ->
  exists s', agc_rbt_red s (iloc x) = Ok s' /\ moved p0 s t s' (plug c (T true l x r)).
Proof. apply (color_spec true). Qed.

Lemma black_spec p0 s t c cx l x r :
  rep p0 s t -> t = plug c (T cx l x r) ->
  exists s', agc_rbt_black s (iloc x) = Ok s' /\ moved p0 s t s' (plug c (T false l x r)).
Proof. apply (color_spec false). Qed.

Lemma left_rotate_moved p0 s t c cx l x cy m y r :
  rep p0 s t -> t = plug c (T cx l x (T cy m y r)) ->
  exists s', agc_rbtree_left_rotate s (iloc x) = Ok s' /\
    moved p0 s t s' (plug c (T cy (T cx l x m) y r)).
Proof.
  intros HR ->. destruct (left_rotate_spec _ _ _ _ _ _ _ _ _ _ HR) as (s' & -> & ? & ?).
  exists s'. split; [done|]. split; try done. by rewrite !inorder_plug, inorder_rotate.
Qed.

Lemma right_rotate_moved p0 s t c cx l x cy m y r :
  rep p0 s t -> t = plug c (T cx (T cy l y m) x r) ->
  exists s', agc_rbtree_right_rotate s (iloc x) = Ok s' /\
    moved p0 s t s' (plug c (T cy l y (T cx m x r))).
Proof.
  intros HR ->. destruct (right_rotate_spec _ _ _ _ _ _ _ _ _ _ HR) as (s' & -> & ? & ?).
  exists s'. split; [done|]. split; try done. by rewrite !inorder_plug, <- inorder_rotate.
Qed.

(** Blackening the root, which is what both loops do last. *)
Lemma black_root_spec p0 s t :
  rep p0 s t -> t <> E ->
  exists s', agc_rbt_black s (root s) = Ok s' /\ moved p0 s t s' (blacken t).
Proof.
  intros HR Ht. destruct t as [|c l x r]; [done|].
  rewrite (rep_root _ _ _ HR). by apply (black_spec _ _ _ []  c l x r).
Qed.

(** Two different positions of a tree are different addresses: the test
    [node == parent->left] finds the side. *)
Lemma rep_sides p0 s t c cx l x r :
  rep p0 s t -> t = plug c (T cx l x r) ->
  l <> E \/ r <> E -> rootp (sentinel s) l <> rootp (sentinel s) r.
Proof.
  intros [_ _ Hn Hse _ _] -> Hlr. spread.
  destruct l as [|lc ll lx lr], r as [|rc rl rx rr]; spread; simpl; intuition congruence.
Qed.

(** ** The contract

    [holds s L]: the linked nodes of [s] form a valid red-black tree whose
    nodes, from the first to the last, are [L]. *)
Definition holds (s : rbtree) (L : list item) : Prop :=
  exists p0 t, rep p0 s t /\ valid t /\ inorder t = L.
