(* ===== verification/RbTreeInsert.v ===== *)
(** * Red-black tree insertion

    The re-balancing loop restores the colour invariant, the descent finds the
    place of the key, and [agc_rbtree_insert] as a whole adds one node. *)

From stdpp Require Import base gmap list fin_maps sorting.
From Stdlib Require Import ZArith Lia.
From S2P Require Import Prelude RbTree RbTreeSpec RbTreeProof.

(** ** Re-balancing *)

(** Run one statement whose specification is [spec]. *)
Tactic Notation "xapply" constr(spec) "as" ident(s) ident(M) :=
  let E := fresh "E" in
  destruct spec as (s & E & M); [eassumption || (eapply moved_rep; eassumption)|reflexivity|];
  rewrite E; clear E; rewrite ?rbind_Ok.

(** What the loop establishes from a focused red node whose children are
    black: some valid tree with the same nodes in the same order. *)
Definition rebalanced p0 s t (m : result rbtree) : Prop :=
  exists s' t', m = Ok s' /\ moved p0 s t s' t' /\ valid t'.

Lemma rebalanced_after p0 s t s1 t1 m :
  moved p0 s t s1 t1 -> rebalanced p0 s1 t1 m -> rebalanced p0 s t m.
Proof. intros M (s' & t' & ? & M' & ?). exists s', t'. eauto using moved_trans. Qed.

(** The loop stops at a node with a black parent. *)
Lemma insert_rebalance_done p0 s t c f cx l x r fuel :
  rep p0 s t -> t = plug (f :: c) (T cx l x r) -> fcolor f = false -> valid t ->
  rebalanced p0 s t (insert_rebalance (S fuel) s (iloc x)).
Proof.
  intros HR -> Hf Hv.
  destruct (black_root_spec _ _ _ HR) as (s' & Hs' & M); [by apply plug_ne|].
  rewrite valid_blacken in M by done.
  exists s', (plug (f :: c) (T cx l x r)). split_and!; [|done|done]. simpl.
  rewrite (rep_is_root _ _ _ _ _ _ _ _ HR eq_refl).
  erewrite deref_bind by (by eapply rep_deref); cbn [parent node_of up].
  destruct f as [fc y yr|fc yl y]; simpl in Hf; subst fc;
    by erewrite deref_bind by (eapply (rep_deref _ _ _ c); [exact HR|reflexivity]).
Qed.

(** Red uncle: parent and uncle become black, the grandparent red. *)
Lemma flip_spec {A} (k : rbtree -> result A) p0 s t c cz cp pl y pr z cu ul w ur :
  rep p0 s t -> t = plug c (T cz (T cp pl y pr) z (T cu ul w ur)) ->
  exists s', moved p0 s t s' (plug c (T true (T false pl y pr) z (T false ul w ur))) /\
    rbind (agc_rbt_black s (iloc y)) (fun s =>
    rbind (agc_rbt_black s (iloc w)) (fun s =>
    rbind (agc_rbt_red s (iloc z)) k)) = k s'.
Proof.
  intros HR Ht.
  destruct (black_spec _ _ _ (FL cz z (T cu ul w ur) :: c) cp pl y pr HR Ht) as (s1 & -> & M1).
  destruct (black_spec _ _ _ (FR cz (T false pl y pr) z :: c) cu ul w ur
    (moved_rep _ _ _ _ _ M1) eq_refl) as (s2 & E2 & M2).
  destruct (red_spec _ _ _ c cz (T false pl y pr) z (T false ul w ur)
    (moved_rep _ _ _ _ _ M2) eq_refl) as (s3 & E3 & M3).
  exists s3. split; [eauto using moved_trans|]. by rewrite rbind_Ok, E2, rbind_Ok, E3.
Qed.

Lemma flip_spec' {A} (k : rbtree -> result A) p0 s t c cz cp pl y pr z cu ul w ur :
  rep p0 s t -> t = plug c (T cz (T cu ul w ur) z (T cp pl y pr)) ->
  exists s', moved p0 s t s' (plug c (T true (T false ul w ur) z (T false pl y pr))) /\
    rbind (agc_rbt_black s (iloc y)) (fun s =>
    rbind (agc_rbt_black s (iloc w)) (fun s =>
    rbind (agc_rbt_red s (iloc z)) k)) = k s'.
Proof.
  intros HR Ht.
  destruct (black_spec _ _ _ (FR cz (T cu ul w ur) z :: c) cp pl y pr HR Ht) as (s1 & -> & M1).
  destruct (black_spec _ _ _ (FL cz z (T false pl y pr) :: c) cu ul w ur
    (moved_rep _ _ _ _ _ M1) eq_refl) as (s2 & E2 & M2).
  destruct (red_spec _ _ _ c cz (T false ul w ur) z (T false pl y pr)
    (moved_rep _ _ _ _ _ M2) eq_refl) as (s3 & E3 & M3).
  exists s3. split; [eauto using moved_trans|]. by rewrite rbind_Ok, E2, rbind_Ok, E3.
Qed.

(** Black uncle: the parent is blackened and rotated over the grandparent. *)
Lemma lift_right_spec {A} (k : rbtree -> result A) p0 s t c cz cy a y b z u :
  rep p0 s t -> t = plug c (T cz (T cy a y b) z u) ->
  exists s', moved p0 s t s' (plug c (T false a y (T true b z u))) /\
    rbind (agc_rbt_black s (iloc y)) (fun s =>
    rbind (deref s (iloc y)) (fun p =>
    rbind (agc_rbt_red s (parent p)) (fun s =>
    rbind (agc_rbtree_right_rotate s (parent p)) k))) = k s'.
Proof.
  intros HR Ht.
  destruct (black_spec _ _ _ (FL cz z u :: c) cy a y b HR Ht) as (s1 & -> & M1).
  destruct (red_spec _ _ _ c cz (T false a y b) z u (moved_rep _ _ _ _ _ M1) eq_refl)
    as (s2 & E2 & M2).
  destruct (right_rotate_moved _ _ _ c true a z false b y u (moved_rep _ _ _ _ _ M2) eq_refl)
    as (s3 & E3 & M3).
  exists s3. split; [eauto using moved_trans|]. rewrite rbind_Ok.
  erewrite deref_bind by (eapply (rep_deref _ _ _ (FL cz z u :: c));
    [exact (moved_rep _ _ _ _ _ M1)|reflexivity]).
  cbn [parent node_of up fitem]. by rewrite E2, rbind_Ok, E3.
Qed.

Lemma lift_left_spec {A} (k : rbtree -> result A) p0 s t c cz cy a y b z u :
  rep p0 s t -> t = plug c (T cz u z (T cy a y b)) ->
  exists s', moved p0 s t s' (plug c (T false (T true u z a) y b)) /\
    rbind (agc_rbt_black s (iloc y)) (fun s =>
    rbind (deref s (iloc y)) (fun p =>
    rbind (agc_rbt_red s (parent p)) (fun s =>
    rbind (agc_rbtree_left_rotate s (parent p)) k))) = k s'.
Proof.
  intros HR Ht.
  destruct (black_spec _ _ _ (FR cz u z :: c) cy a y b HR Ht) as (s1 & -> & M1).
  destruct (red_spec _ _ _ c cz u z (T false a y b) (moved_rep _ _ _ _ _ M1) eq_refl)
    as (s2 & E2 & M2).
  destruct (left_rotate_moved _ _ _ c true u z false a y b (moved_rep _ _ _ _ _ M2) eq_refl)
    as (s3 & E3 & M3).
  exists s3. split; [eauto using moved_trans|]. rewrite rbind_Ok.
  erewrite deref_bind by (eapply (rep_deref _ _ _ (FR cz u z :: c));
    [exact (moved_rep _ _ _ _ _ M1)|reflexivity]).
  cbn [parent node_of up fitem]. by rewrite E2, rbind_Ok, E3.
Qed.

(** One turn of the loop below a red parent: the three nodes it looks at. *)
Ltac xlook HR :=
  simpl; rewrite (rep_is_root _ _ _ _ _ _ _ _ HR eq_refl);
  erewrite deref_bind by (by eapply rep_deref); cbn [parent node_of up fitem];
  match type of HR with rep _ _ (plug (?f :: ?g :: ?c) ?u) =>
    erewrite deref_bind by (eapply (rep_deref _ _ _ (g :: c)); [exact HR|reflexivity]);
    cbn [parent node_of up fitem agc_rbt_is_red color negb Z.b2z Z.eqb left right];
    erewrite deref_bind by (eapply (rep_deref _ _ _ c); [exact HR|reflexivity]);
    cbn [parent node_of up fitem left right rootp];
    change (negb (agc_rbt_is_red _)) with false; cbv iota
  end.

(** Outer grandchild with a black uncle: one rotation ends the loop. *)
Lemma finish_right fuel p0 s t c a x b' y e z u b n :
  rep p0 s t -> t = plug c (T false (T true (T true a x b') y e) z u) ->
  rb a false n -> rb b' false n -> rb e false n -> rb u false n -> rbctx c b (S n) ->
  (0 < fuel)%nat ->
  rebalanced p0 s t
    (let! n0 := deref s (iloc x) in
     let! s1 := agc_rbt_black s (parent n0) in
     let! p := deref s1 (parent n0) in
     let! s2 := agc_rbt_red s1 (parent p) in
     let! s3 := agc_rbtree_right_rotate s2 (parent p) in
     insert_rebalance fuel s3 (iloc x)).
Proof.
  intros HR Ht ??????. destruct fuel as [|fuel']; [lia|].
  erewrite deref_bind by (eapply (rep_deref _ _ _ (FL true y e :: FL false z u :: c));
    [exact HR|exact Ht]). cbn [parent node_of up fitem].
  edestruct (lift_right_spec (fun s => insert_rebalance (S fuel') s (iloc x)) p0 s)
    as (s1 & M & E1); [exact HR|exact Ht|].
  rewrite E1. eapply rebalanced_after; [exact M|].
  eapply (insert_rebalance_done _ _ _ c (FL false y (T true e z u)));
    [by eapply moved_rep|done|done|].
  eapply (plug_valid c); eauto with rbdb. done.
Qed.

Lemma finish_left fuel p0 s t c a x b' y e z u b n :
  rep p0 s t -> t = plug c (T false u z (T true e y (T true a x b'))) ->
  rb a false n -> rb b' false n -> rb e false n -> rb u false n -> rbctx c b (S n) ->
  (0 < fuel)%nat ->
  rebalanced p0 s t
    (let! n0 := deref s (iloc x) in
     let! s1 := agc_rbt_black s (parent n0) in
     let! p := deref s1 (parent n0) in
     let! s2 := agc_rbt_red s1 (parent p) in
     let! s3 := agc_rbtree_left_rotate s2 (parent p) in
     insert_rebalance fuel s3 (iloc x)).
Proof.
  intros HR Ht ??????. destruct fuel as [|fuel']; [lia|].
  erewrite deref_bind by (eapply (rep_deref _ _ _ (FR true e y :: FR false u z :: c));
    [exact HR|exact Ht]). cbn [parent node_of up fitem].
  edestruct (lift_left_spec (fun s => insert_rebalance (S fuel') s (iloc x)) p0 s)
    as (s1 & M & E1); [exact HR|exact Ht|].
  rewrite E1. eapply rebalanced_after; [exact M|].
  eapply (insert_rebalance_done _ _ _ c (FR false (T true u z e) y));
    [by eapply moved_rep|done|done|].
  eapply (plug_valid c); eauto with rbdb. done.
Qed.

Section rebalance_step.
Context (fuel : nat) (p0 : Z).
Context (IH : forall s c l x r b n,
  rep p0 s (plug c (T true l x r)) -> rb l false n -> rb r false n -> rbctx c b n ->
  (length c < fuel)%nat ->
  rebalanced p0 s (plug c (T true l x r)) (insert_rebalance fuel s (iloc x))).

(** The parent is a left child. *)
Lemma rebalance_left s f z u cu c l x r b n :
  let t := plug (f :: FL false z u :: c) (T true l x r) in
  rep p0 s t -> rb l false n -> rb r false n -> fcolor f = true -> rb (fsib f) false n ->
  rb u cu n -> rbctx c b (S n) -> (length c + 2 < S fuel)%nat ->
  rebalanced p0 s t (insert_rebalance (S fuel) s (iloc x)).
Proof using IH.
  intros t HR Hl Hr Hf Hsib Hu Hc Hlen. subst t.
  pose proof (rb_is_red _ _ _ Hu) as Hred.
  destruct (rep_color _ _ _ (FR false (fill f (T true l x r)) z :: c) u HR eq_refl)
    as (un & Hun & Hcol).
  destruct f as [fc y sib|fc sib y]; simpl in Hf; subst fc; cbn [fsib] in Hsib.
  all: pose proof (rep_sides _ _ _ (FL false z u :: c) _ _ _ _ HR eq_refl) as Hside; simpl in Hside.
  all: xlook HR; cbn [fill rootp]; rewrite Z.eqb_refl;
    erewrite deref_bind by exact Hun; rewrite Hcol, Hred; destruct cu.
  1, 3: destruct u as [|[] ul w ur]; try done; inversion Hu; subst;
      edestruct (flip_spec (fun s => insert_rebalance fuel s (iloc z)) p0 s) as (s1 & M & E1);
        [exact HR|reflexivity|];
      cbn [rootp]; rewrite E1;
      (eapply rebalanced_after; [exact M|]); eapply IH; eauto using moved_rep with rbdb; lia.
  - rewrite (eqb_ne (iloc x)) by auto. rewrite rbind_Ok.
    eapply finish_right; eauto; lia.
  - rewrite Z.eqb_refl.
    destruct (left_rotate_moved _ _ _ (FL false z u :: c) true sib y true l x r HR eq_refl)
      as (s1 & -> & M). rewrite !rbind_Ok.
    eapply rebalanced_after; [exact M|]. eapply finish_right; eauto using moved_rep; lia.
Qed.

(** The parent is a right child. *)
Lemma rebalance_right s f z u cu c l x r b n :
  let t := plug (f :: FR false u z :: c) (T true l x r) in
  rep p0 s t -> rb l false n -> rb r false n -> fcolor f = true -> rb (fsib f) false n ->
  rb u cu n -> rbctx c b (S n) -> (length c + 2 < S fuel)%nat ->
  rebalanced p0 s t (insert_rebalance (S fuel) s (iloc x)).
Proof using IH.
  intros t HR Hl Hr Hf Hsib Hu Hc Hlen. subst t.
  pose proof (rb_is_red _ _ _ Hu) as Hred.
  destruct (rep_color _ _ _ (FL false z (fill f (T true l x r)) :: c) u HR eq_refl)
    as (un & Hun & Hcol).
  assert (iloc (fitem f) <> rootp (sentinel s) u) as Hup.
  { pose proof (rep_sides _ _ _ c _ _ _ _ HR eq_refl) as Hs.
    apply not_eq_sym. destruct f; apply Hs; by right. }
  destruct f as [fc y sib|fc sib y]; simpl in Hf; subst fc; cbn [fsib fitem] in *.
  all: pose proof (rep_sides _ _ _ (FR false u z :: c) _ _ _ _ HR eq_refl) as Hside; simpl in Hside.
  all: xlook HR; cbn [fill rootp]; rewrite (eqb_ne (iloc y)) by done;
    erewrite deref_bind by exact Hun; rewrite Hcol, Hred; destruct cu.
  1, 3: destruct u as [|[] ul w ur]; try done; inversion Hu; subst;
      edestruct (flip_spec' (fun s => insert_rebalance fuel s (iloc z)) p0 s) as (s1 & M & E1);
        [exact HR|reflexivity|];
      cbn [rootp]; rewrite E1;
      (eapply rebalanced_after; [exact M|]); eapply IH; eauto using moved_rep with rbdb; lia.
  - rewrite Z.eqb_refl.
    destruct (right_rotate_moved _ _ _ (FR false u z :: c) true l y true r x sib HR eq_refl)
      as (s1 & -> & M). rewrite !rbind_Ok.
    eapply rebalanced_after; [exact M|]. eapply finish_left; eauto using moved_rep; lia.
  - rewrite (eqb_ne (iloc x)) by (apply not_eq_sym; auto). rewrite rbind_Ok.
    eapply finish_left; eauto; lia.
Qed.
End rebalance_step.

Lemma insert_rebalance_spec fuel p0 s c l x r b n :
  rep p0 s (plug c (T true l x r)) -> rb l false n -> rb r false n -> rbctx c b n ->
  (length c < fuel)%nat ->
  rebalanced p0 s (plug c (T true l x r)) (insert_rebalance fuel s (iloc x)).
Proof.
  revert s c l x r b n.
  induction fuel as [|fuel IH]; intros s c l x r b n HR Hl Hr Hc Hlen; [lia|].
  inversion Hc as [|?? c' ? Hs Hc'|?? c' ? Hs Hc'|?? c' ??? Hs Hc'|?? c' ??? Hs Hc']; subst.
  - simpl. rewrite (rep_is_root _ _ _ [] _ _ _ _ HR eq_refl).
    destruct (black_root_spec _ _ _ HR) as (s' & -> & M); [done|].
    exists s', (T false l x r). split_and!; [done|done|]. exists (S n). eauto with rbdb.
  - inversion Hc'; subst; simpl in Hlen.
    + eapply rebalance_left; eauto. simpl in *. lia.
    + eapply rebalance_right; eauto. simpl in *. lia.
  - inversion Hc'; subst; simpl in Hlen.
    + eapply rebalance_left; eauto. simpl in *. lia.
    + eapply rebalance_right; eauto. simpl in *. lia.
  - eapply (insert_rebalance_done _ _ _ c'); [exact HR|done|done|].
    eapply plug_valid; eauto with rbdb.
  - eapply (insert_rebalance_done _ _ _ c'); [exact HR|done|done|].
    eapply plug_valid; eauto with rbdb.
Qed.

(** ** Finding the place of the new node *)

(** Both insertion functions are this descent, with different comparisons. *)
Fixpoint insert_by (lt : Z -> Z -> bool) (fuel : nat) (s : rbtree) (temp node : Z) :=
  match fuel with
  | O => OutOfFuel
  | S fuel' =>
      let! n := deref s node in
      let! t := deref s temp in
      let go_left := lt (key n) (key t) in
      let p := if go_left then left t else right t in
      if p =? sentinel s then link_leaf s go_left temp node
      else insert_by lt fuel' s p node
  end.

Lemma insert_value_by fuel s temp node :
  agc_rbtree_insert_value fuel s temp node = insert_by Z.ltb fuel s temp node.
Proof. revert temp; induction fuel; intros; simpl; [done|]. by setoid_rewrite IHfuel. Qed.

Definition timer_lt (a b : Z) : bool := key_diff a b <? 0.

Lemma insert_timer_value_by fuel s temp node :
  agc_rbtree_insert_timer_value fuel s temp node = insert_by timer_lt fuel s temp node.
Proof. revert temp; induction fuel; intros; simpl; [done|]. by setoid_rewrite IHfuel. Qed.

Definition insert_lt (i : insert_func) : Z -> Z -> bool :=
  match i with InsertValue => Z.ltb | InsertTimerValue => timer_lt end.

Lemma tree_insert_by s temp node :
  tree_insert s temp node = insert_by (insert_lt (insert s)) (loop_fuel s) s temp node.
Proof.
  unfold tree_insert, insert_lt. destruct (insert s);
    auto using insert_value_by, insert_timer_value_by.
Qed.

(** The same descent on the abstract tree: the path to the empty place. *)
Fixpoint find (lt : Z -> Z -> bool) (k : Z) (u : tree) (c : ctx) : ctx :=
  match u with
  | E => c
  | T cy l y r =>
      if lt k (ikey y) then find lt k l (FL cy y r :: c) else find lt k r (FR cy l y :: c)
  end.

Lemma plug_find lt k u c : plug (find lt k u c) E = plug c u.
Proof.
  revert c; induction u as [|cy l IHl y r IHr]; intros c; simpl; [done|].
  destruct (lt k (ikey y)); [by rewrite IHl|by rewrite IHr].
Qed.

Lemma find_cons lt k u c : c <> [] -> exists f c', find lt k u c = f :: c'.
Proof.
  revert c; induction u as [|cy l IHl y r IHr]; intros c Hc; simpl.
  - destruct c as [|f c]; [done|]. eauto.
  - destruct (lt k (ikey y)); eauto.
Qed.

Lemma length_ctx c t : (length c <= length (inorder (plug c t)))%nat.
Proof.
  rewrite inorder_plug, !length_app.
  assert (length c <= length (before c) + length (after c))%nat; [|lia].
  induction c as [|[] c IH]; simpl; rewrite ?length_app; simpl; lia.
Qed.

Lemma height_size t : (height t <= length (inorder t))%nat.
Proof. induction t; simpl; [done|]. rewrite length_app; simpl. lia. Qed.

Lemma rep_size p0 s t : rep p0 s t -> (length (inorder t) <= size (mem s))%nat.
Proof.
  intros [Hs _ Hn _ _ _]. rewrite <- (length_fmap iloc), <- (size_list_to_set (C := gset Z)) by done.
  rewrite <- size_dom. apply subseteq_size. intros k Hk%elem_of_list_to_set.
  apply elem_of_dom. by eapply sub_lookup.
Qed.

(** ** Linking the new node *)

Lemma link_leaf_spec p0 s t f c a nd :
  rep p0 s t -> t = plug (f :: c) E ->
  mem s !! a = Some nd -> a ∉ locs t -> a <> sentinel s ->
  exists s', link_leaf s (match f with FL _ _ _ => true | FR _ _ _ => false end)
      (iloc (fitem f)) a = Ok s' /\
    rep p0 s' (plug (f :: c) (T true E (Item a (key nd) (data nd)) E)) /\
    unch (a :: locs t) s s'.
Proof.
  intros HR -> Ha Hfresh Hse. pose proof HR as [Hs Hr Hn Hse' Hnu (sn & Hsn & Hb)].
  apply (nodup_plug (f :: c) E) in Hn as (_ & Hn & _).
  apply (elem_plug _ (f :: c) E) in Hfresh as [_ Hfresh].
  apply (elem_plug _ (f :: c) E) in Hse' as [_ Hse'].
  rewrite rootp_plug in Hr. apply (sub_plug _ _ _ (f :: c) E) in Hs as [Hs _].
  destruct s as [m rs se ins]; cbn [mem sentinel insert root] in *.
  set (x := Item a (key nd) (data nd)).
  assert (exists n, m !! iloc (fitem f) = Some n) as [pn Hpn]
    by (destruct f; destruct Hs as [? _]; eauto).
  assert (a <> NULL) as Hnull by congruence.
  assert (iloc (fitem f) <> NULL) as Hfn by congruence.
  assert (iloc (fitem f) <> a) as Hfa by (apply elem_outside in Hfresh; intuition).
  unfold link_leaf, agc_rbt_red.
  xstep ltac:(exact Hpn). do 4 xstep lookup_solve.
  eexists; split; [reflexivity|]. rewrite !insert_insert_eq.
  match goal with |- context [<[a := ?V]> _] =>
    change V with (node_of se (iloc (fitem f)) true E x E) end.
  split; [split|split]; cbn [mem root sentinel insert]; rewrite ?lookup_insert_ne by congruence; eauto.
  - apply (sub_plug _ _ _ (f :: c)). split; [|by cbn [sub x iloc]; rewrite lookup_insert_eq].
    apply ctxrep_insert; [done|]. cbn [rootp x iloc].
    apply nodup_outside in Hn as (Hn1 & Hn2 & Hn3 & Hn4 & Hn5).
    destruct f as [fc y r|fc l y]; cbn [ctxrep fitem fsib] in *;
      destruct Hs as (Hy & Hsib & Hc); simplify_eq; rewrite lookup_insert_eq;
      split_and!; auto using sub_insert, ctxrep_insert.
  - rewrite Hr. exact (eq_sym (rootp_plug se (f :: c) (T true E x E))).
  - apply (nodup_plug (f :: c)). split_and!; [apply NoDup_singleton|done|].
    intros k Hk ->%list_elem_of_singleton. done.
  - apply (elem_plug _ (f :: c)). split; [|done]. intros ?%list_elem_of_singleton. done.
  - exists sn. rewrite !lookup_insert_ne; try done. apply elem_outside in Hse'. intuition.
  - intros k Hk. apply not_elem_of_cons in Hk as [Hk1 Hk2].
    apply (elem_plug _ (f :: c) E) in Hk2 as [_ Hk2]. apply elem_outside in Hk2 as (? & _).
    by rewrite !lookup_insert_ne.
Qed.

(** The descent reaches the place [find] computes and links the node there. *)
Lemma insert_by_spec lt fuel p0 s c u a nd :
  rep p0 s (plug c u) -> u <> E -> (height u <= fuel)%nat ->
  mem s !! a = Some nd -> a ∉ locs (plug c u) -> a <> sentinel s ->
  exists s', insert_by lt fuel s (rootp (sentinel s) u) a = Ok s' /\
    rep p0 s' (plug (find lt (key nd) u c) (T true E (Item a (key nd) (data nd)) E)) /\
    unch (a :: locs (plug c u)) s s'.
Proof.
  revert c u; induction fuel as [|fuel IH]; intros c u HR Hu Hf Ha Hfresh Hse;
    (destruct u as [|cy l y r]; [done|]); simpl in Hf; [lia|].
  cbn [insert_by rootp find].
  erewrite deref_bind by done.
  erewrite deref_bind by (eapply (rep_deref _ _ _ c); [exact HR|reflexivity]).
  cbn [key left right node_of].
  destruct (lt (key nd) (ikey y)).
  - destruct l as [|ll lc lx lr] eqn:El; cbn [rootp].
    + rewrite Z.eqb_refl. by eapply (link_leaf_spec _ _ _ (FL cy y r) c).
    + rewrite eqb_ne. 2:{ pose proof (rep_sent _ _ _ HR). spread. done. }
      apply (IH (FL cy y r :: c) (T ll lc lx lr)); try done. lia.
  - destruct r as [|rl rc rx rr] eqn:Er; cbn [rootp].
    + rewrite Z.eqb_refl. by eapply (link_leaf_spec _ _ _ (FR cy l y) c).
    + rewrite eqb_ne. 2:{ pose proof (rep_sent _ _ _ HR). spread. done. }
      apply (IH (FR cy l y :: c) (T rl rc rx rr)); try done. lia.
Qed.

(** ** Insertion *)

Lemma find_inorder rank lt x u c :
  ranked rank (inorder u) ->
  Forall (fun y => lt (ikey x) (ikey y) = (rank (ikey x) <? rank (ikey y))) (inorder u) ->
  inorder (plug (find lt (ikey x) u c) (T true E x E)) =
  before c ++ insert_ranked rank x (inorder u) ++ after c.
Proof.
  revert c; induction u as [|cy l IHl y r IHr]; intros c Hs Hlt; simpl.
  - by rewrite inorder_plug.
  - apply ranked_app_inv in Hs as (Hl & Hr & Hly & Hyr).
    apply Forall_app in Hlt as [Hlt1 [Hy Hlt2]%Forall_cons]. rewrite Hy. case_match.
    + rewrite IHl by done. rewrite insert_ranked_lt by lia. simpl. by rewrite <- app_assoc.
    + rewrite IHr by done. rewrite insert_ranked_ge by (done || lia). simpl.
      by rewrite <- !app_assoc.
Qed.

Lemma insert_empty_spec s a nd :
  root s = sentinel s -> holds s [] -> mem s !! a = Some nd -> a <> sentinel s ->
  exists s', agc_rbtree_insert s a = Ok s' /\
    holds s' [Item a (key nd) (data nd)] /\ unch [a] s s'.
Proof.
  intros Hroot (p0 & t & HR & _ & Ht) Ha Hse.
  destruct s as [m rs se ins]; cbn [mem sentinel root insert] in *. subst rs.
  unfold agc_rbtree_insert, agc_rbt_black. cbn [root sentinel]. rewrite Z.eqb_refl.
  xstep ltac:(exact Ha). do 3 xstep lookup_solve.
  eexists; split; [reflexivity|]. rewrite !insert_insert_eq.
  set (x := Item a (key nd) (data nd)).
  match goal with |- context [<[a := ?V]> _] =>
    change V with (node_of se NULL false E x E) end.
  destruct HR as [_ _ _ _ Hnu (sn & Hsn & Hb)]; cbn [mem sentinel] in *.
  split; [|split; cbn; try done].
  - exists NULL, (T false E x E). split_and!; [|by exists 1%nat; eauto with rbdb|done].
    split; cbn [mem root sentinel sub rootp]; rewrite ?lookup_insert_ne by congruence; eauto.
    + by rewrite lookup_insert_eq.
    + apply NoDup_singleton.
    + intros ?%list_elem_of_singleton. done.
  - intros k Hk%not_elem_of_cons. by rewrite lookup_insert_ne by intuition.
Qed.

Lemma insert_spec rank s L a nd :
  holds s L -> ranked rank L ->
  mem s !! a = Some nd -> a ∉ iloc <$> L -> a <> sentinel s ->
  Forall (fun y => insert_lt (insert s) (key nd) (ikey y) = (rank (key nd) <? rank (ikey y))) L ->
  exists s', agc_rbtree_insert s a = Ok s' /\
    holds s' (insert_ranked rank (Item a (key nd) (data nd)) L) /\
    unch (a :: (iloc <$> L)) s s'.
Proof.
  intros HL Hs Ha Hfresh Hse Hlt. pose proof HL as (p0 & t & HR & Hv & <-).
  destruct t as [|cx l x r].
  { apply insert_empty_spec; auto. by rewrite (rep_root _ _ _ HR). }
  unfold agc_rbtree_insert.
  assert ((root s =? sentinel s) = false) as ->.
  { rewrite (rep_root _ _ _ HR). apply eqb_ne. pose proof (rep_sent _ _ _ HR). spread. done. }
  rewrite tree_insert_by, (rep_root _ _ _ HR).
  set (t := T cx l x r) in *. set (y := Item a (key nd) (data nd)).
  destruct (insert_by_spec (insert_lt (insert s)) (loop_fuel s) p0 s [] t a nd)
    as (s1 & -> & HR1 & U1); try done.
  { unfold loop_fuel. pose proof (rep_size _ _ _ HR). pose proof (height_size t). lia. }
  rewrite rbind_Ok. set (c := find (insert_lt (insert s)) (key nd) t []) in *.
  destruct (valid_plug_inv c E) as (b & b' & n & Hc & Hn & _).
  { unfold c. by rewrite plug_find. }
  inversion Hn; subst.
  destruct (insert_rebalance_spec (loop_fuel s1) p0 s1 c E y E b 0) as (s2 & t2 & E2 & M & Hv2);
    eauto with rbdb.
  { unfold loop_fuel. pose proof (rep_size _ _ _ HR1) as H.
    pose proof (length_ctx c (T true E y E)). fold y in H. lia. }
  exists s2. split; [done|]. destruct M as [HR2 Hi2 U2].
  assert (inorder (plug c (T true E y E)) = insert_ranked rank y (inorder t)) as Hio.
  { unfold c. rewrite (find_inorder rank _ y t []) by done. simpl. by rewrite app_nil_r. }
  split; [exists p0, t2; split_and!; try done; congruence|].
  eapply unch_trans; [exact U1|]. destruct U2 as [Hm ??]. split; try done.
  intros k Hk. apply Hm. rewrite Hio. rewrite insert_ranked_perm. exact Hk.
Qed.
