(* ===== verification/RbTreeDelete.v ===== *)
(** * Red-black tree: deletion, minimum and successor

    The fix-up loop restores the black-height lost with the unlinked node;
    [agc_rbtree_delete] removes exactly one node; [agc_rbtree_min] and
    [agc_rbtree_next] walk the nodes in order. *)

From stdpp Require Import base gmap list fin_maps sorting.
From Stdlib Require Import ZArith Lia.
From S2P Require Import Prelude RbTree RbTreeSpec RbTreeProof RbTreeInsert.

(** ** The node under repair

    [temp] may be the sentinel, whose parent field then stands for its
    position: [focus] adds that to the representation. *)

Record focus (p0 : Z) (s : rbtree) (c : ctx) (u : tree) : Prop := Focus {
  focus_rep : rep p0 s (plug c u);
  focus_node : exists tn, mem s !! rootp (sentinel s) u = Some tn /\
    parent tn = up p0 c /\ agc_rbt_is_red tn = is_red u }.

Lemma focus_T p0 s c cx l x r :
  rep p0 s (plug c (T cx l x r)) -> focus p0 s c (T cx l x r).
Proof.
  intros HR. split; [done|]. eexists. split_and!; [by eapply rep_deref|done|].
  unfold agc_rbt_is_red; simpl. rewrite b2z_red. by destruct cx.
Qed.

(** Rearranging the rest of the tree leaves the focus in place. *)
Lemma focus_moved p0 s c u s' c' :
  focus p0 s c u -> moved p0 s (plug c u) s' (plug c' u) -> up p0 c' = up p0 c ->
  focus p0 s' c' u.
Proof.
  intros [HR (tn & Htn & Hp & Hr)] [HR' Hi [Hm Hse _]] Hup.
  destruct u as [|cx l x r]; [|by apply focus_T].
  split; [done|]. simpl in *. exists tn. rewrite Hup, Hse.
  split_and!; [|done|done]. rewrite Hm; [done|]. apply (rep_sent _ _ _ HR).
Qed.

Lemma rep_not_root p0 s t f c u :
  rep p0 s t -> t = plug (f :: c) u -> (rootp (sentinel s) u =? root s) = false.
Proof.
  intros HR ->. destruct u as [|cx l x r].
  - apply eqb_ne. simpl. pose proof (rep_sent _ _ _ HR) as Hse.
    rewrite (rep_root _ _ _ HR), (rootp_plug _ (f :: c)).
    apply (elem_plug _ (f :: c)) in Hse as [_ Hse]. intros He.
    apply Hse. rewrite He at 1. by apply rootc_in.
  - cbn [rootp]. by rewrite (rep_is_root _ _ _ (f :: c) _ _ _ _ HR eq_refl).
Qed.

(** ** Leaving the loop *)

(** A red node takes the missing black. *)
Lemma fixup_red p0 s t c l x r fuel :
  rep p0 s t -> t = plug c (T true l x r) -> (0 < fuel)%nat ->
  exists s', delete_fixup fuel s (iloc x) = Ok s' /\
    moved p0 s t s' (plug c (T false l x r)).
Proof.
  intros HR Ht Hfu. destruct fuel as [|fuel]; [lia|].
  destruct (black_spec _ _ _ _ _ _ _ _ HR Ht) as (s' & Hs' & M).
  exists s'. split; [|done]. simpl. rewrite (rep_is_root _ _ _ _ _ _ _ _ HR Ht).
  destruct c; [done|]. by erewrite deref_bind by (by eapply rep_deref).
Qed.

(** At the root there is nothing left to repair. *)
Lemma fixup_root p0 s t fuel :
  rep p0 s t -> valid t -> rebalanced p0 s t (delete_fixup (S fuel) s (root s)).
Proof.
  intros HR Hv. simpl. rewrite Z.eqb_refl.
  destruct t as [|cx l x r].
  - destruct (rep_black _ _ _ HR) as (sn & Hsn & Hc).
    rewrite (rep_root _ _ _ HR). exists s, E. split_and!; [|by apply moved_refl|done].
    simpl. unfold agc_rbt_black. erewrite modify_ok by done.
    rewrite insert_id; [by destruct s|]. rewrite Hsn. f_equal.
    destruct sn; simpl in *. by subst.
  - destruct (black_root_spec _ _ _ HR) as (s' & -> & M); [done|].
    rewrite valid_blacken in M by done. by exists s', (T cx l x r).
Qed.

(** ** Last case: the far nephew is red *)

Lemma fix_final_left p0 s fuel c cp u p wl y a z b' cwl b n :
  let t := plug c (T cp u p (T false wl y (T true a z b'))) in
  focus p0 s (FL cp p (T false wl y (T true a z b')) :: c) u ->
  rb u false n -> rb wl cwl n -> rb a false n -> rb b' false n ->
  rbctx (FL cp p (T false wl y (T true a z b')) :: c) b (S n) ->
  (0 < fuel)%nat ->
  rebalanced p0 s t
    (let! t := deref s (rootp (sentinel s) u) in
     let! s := agc_rbt_copy_color s (iloc y) (parent t) in
     let! s := agc_rbt_black s (parent t) in
     let! wn := deref s (iloc y) in
     let! s := agc_rbt_black s (right wn) in
     let! s := agc_rbtree_left_rotate s (parent t) in
     delete_fixup fuel s (root s)).
Proof.
  intros t [HR (tn & Htn & Hp & _)] Hu Hwl Ha Hb Hc Hfu. subst t.
  destruct fuel as [|fuel]; [lia|].
  erewrite deref_bind by exact Htn. rewrite Hp. cbn [up fitem].
  unfold agc_rbt_copy_color.
  erewrite deref_bind by (eapply (rep_deref _ _ _ c); [exact HR|reflexivity]). cbn [color node_of].
  destruct (color_spec cp _ _ _ (FR cp u p :: c) false wl y (T true a z b') HR eq_refl)
    as (s1 & -> & M1). rewrite rbind_Ok.
  destruct (black_spec _ _ _ c cp u p _ (moved_rep _ _ _ _ _ M1) eq_refl) as (s2 & -> & M2).
  rewrite rbind_Ok.
  erewrite deref_bind by (eapply (rep_deref _ _ _ (FR false u p :: c));
    [exact (moved_rep _ _ _ _ _ M2)|reflexivity]). cbn [right node_of rootp].
  destruct (black_spec _ _ _ (FR cp wl y :: FR false u p :: c) true a z b'
    (moved_rep _ _ _ _ _ M2) eq_refl) as (s3 & -> & M3). rewrite rbind_Ok.
  destruct (left_rotate_moved _ _ _ c false u p cp wl y (T false a z b')
    (moved_rep _ _ _ _ _ M3) eq_refl) as (s4 & -> & M4). rewrite rbind_Ok.
  eapply rebalanced_after; [exact M1|]. eapply rebalanced_after; [exact M2|].
  eapply rebalanced_after; [exact M3|]. eapply rebalanced_after; [exact M4|].
  apply fixup_root; [by eapply moved_rep|].
  inversion Hc; subst; eapply plug_valid; eauto with rbdb. done.
Qed.

Lemma fix_final_right p0 s fuel c cp u p wr y a z b' cwr b n :
  let t := plug c (T cp (T false (T true a z b') y wr) p u) in
  focus p0 s (FR cp (T false (T true a z b') y wr) p :: c) u ->
  rb u false n -> rb wr cwr n -> rb a false n -> rb b' false n ->
  rbctx (FR cp (T false (T true a z b') y wr) p :: c) b (S n) -> (0 < fuel)%nat ->
  rebalanced p0 s t
    (let! t := deref s (rootp (sentinel s) u) in
     let! s := agc_rbt_copy_color s (iloc y) (parent t) in
     let! s := agc_rbt_black s (parent t) in
     let! wn := deref s (iloc y) in
     let! s := agc_rbt_black s (left wn) in
     let! s := agc_rbtree_right_rotate s (parent t) in
     delete_fixup fuel s (root s)).
Proof.
  intros t [HR (tn & Htn & Hp & _)] Hu Hwl Ha Hb Hc Hfu. subst t.
  destruct fuel as [|fuel]; [lia|].
  erewrite deref_bind by exact Htn. rewrite Hp. cbn [up fitem].
  unfold agc_rbt_copy_color.
  erewrite deref_bind by (eapply (rep_deref _ _ _ c); [exact HR|reflexivity]). cbn [color node_of].
  destruct (color_spec cp _ _ _ (FL cp p u :: c) false (T true a z b') y wr HR eq_refl)
    as (s1 & -> & M1). rewrite rbind_Ok.
  destruct (black_spec _ _ _ c cp _ p u (moved_rep _ _ _ _ _ M1) eq_refl) as (s2 & -> & M2).
  rewrite rbind_Ok.
  erewrite deref_bind by (eapply (rep_deref _ _ _ (FL false p u :: c));
    [exact (moved_rep _ _ _ _ _ M2)|reflexivity]). cbn [left node_of rootp].
  destruct (black_spec _ _ _ (FL cp y wr :: FL false p u :: c) true a z b'
    (moved_rep _ _ _ _ _ M2) eq_refl) as (s3 & -> & M3). rewrite rbind_Ok.
  destruct (right_rotate_moved _ _ _ c false (T false a z b') p cp wr y u
    (moved_rep _ _ _ _ _ M3) eq_refl) as (s4 & -> & M4). rewrite rbind_Ok.
  eapply rebalanced_after; [exact M1|]. eapply rebalanced_after; [exact M2|].
  eapply rebalanced_after; [exact M3|]. eapply rebalanced_after; [exact M4|].
  apply fixup_root; [by eapply moved_rep|].
  inversion Hc; subst; eapply plug_valid; eauto with rbdb. done.
Qed.

Lemma children_black_spec s y ln rn n :
  mem s !! iloc y = Some n -> mem s !! left n = Some ln -> mem s !! right n = Some rn ->
  children_black s (iloc y) = Ok (negb (agc_rbt_is_red ln) && negb (agc_rbt_is_red rn)).
Proof.
  intros Hn Hl Hr. unfold children_black, agc_rbt_is_black.
  erewrite deref_bind by exact Hn. erewrite deref_bind by exact Hl.
  destruct (agc_rbt_is_red ln); simpl; [done|]. by erewrite deref_bind by exact Hr.
Qed.

(** ** One turn of the loop *)

Section fixup_step.
Context (fuel : nat) (p0 : Z) (Hfuel : (0 < fuel)%nat).
Context (IH : forall s c u b n,
  focus p0 s c u -> rb u false n -> rbctx c b (S n) -> (length c < fuel)%nat ->
  rebalanced p0 s (plug c u) (delete_fixup fuel s (rootp (sentinel s) u))).

(** Black sibling, [temp] a left child. *)
Lemma fix_black_left s c cp u p wl y wr cl cr b n tp :
  tp = rootp (sentinel s) u ->
  let t := plug c (T cp u p (T false wl y wr)) in
  focus p0 s (FL cp p (T false wl y wr) :: c) u ->
  rb u false n -> rb wl cl n -> rb wr cr n ->
  rbctx (FL cp p (T false wl y wr) :: c) b (S n) -> (cp = false -> length c < fuel)%nat ->
  rebalanced p0 s t
    (let! both := children_black s (iloc y) in
     if both then
       let! s' := agc_rbt_red s (iloc y) in
       let! t := deref s' (tp) in
       delete_fixup fuel s' (parent t)
     else
       let! wn := deref s (iloc y) in
       let! wr := deref s (right wn) in
       let! (s, w) :=
         (if agc_rbt_is_black wr then
            let! s' := agc_rbt_black s (left wn) in
            let! s' := agc_rbt_red s' (iloc y) in
            let! s' := agc_rbtree_right_rotate s' (iloc y) in
            let! t := deref s' (tp) in
            let! p := deref s' (parent t) in
            Ok (s', right p)
          else Ok (s, iloc y)) in
       let! t := deref s (tp) in
       let! s := agc_rbt_copy_color s w (parent t) in
       let! s := agc_rbt_black s (parent t) in
       let! wn := deref s w in
       let! s := agc_rbt_black s (right wn) in
       let! s := agc_rbtree_left_rotate s (parent t) in
       delete_fixup fuel s (root s)).
Proof using IH Hfuel.
  intros -> t HF Hu Hl Hr Hc Hlen. subst t.
  pose proof HF as [HR (tn & Htn & Hp & _)].
  destruct (rep_color _ _ _ (FL false y wr :: FR cp u p :: c) wl HR eq_refl) as (ln & Hln & Lc).
  destruct (rep_color _ _ _ (FR false wl y :: FR cp u p :: c) wr HR eq_refl) as (rn & Hrn & Rc).
  rewrite (rb_is_red _ _ _ Hl) in Lc. rewrite (rb_is_red _ _ _ Hr) in Rc.
  pose proof (rep_deref _ _ _ (FR cp u p :: c) _ _ _ _ HR eq_refl) as Hy.
  erewrite (children_black_spec _ y) by eassumption. rewrite rbind_Ok, Lc, Rc.
  erewrite deref_bind by exact Hy. cbn [left right node_of].
  erewrite deref_bind by exact Hrn. unfold agc_rbt_is_black. rewrite Rc.
  destruct cr; cbn [negb]; rewrite ?andb_false_r, ?andb_true_r.
  - (* the far nephew is red *)
    rewrite rbind_Ok. destruct wr as [|[] a z b']; inversion Hr; subst.
    by eapply fix_final_left.
  - destruct cl; cbn [negb].
    + (* only the near nephew is red: rotate it up first *)
      destruct wl as [|[] a z b']; inversion Hl; subst. cbn [rootp].
      destruct (black_spec _ _ _ (FL false y wr :: FR cp u p :: c) true a z b' HR eq_refl)
        as (s1 & -> & M1). rewrite rbind_Ok.
      destruct (red_spec _ _ _ (FR cp u p :: c) false _ y wr (moved_rep _ _ _ _ _ M1) eq_refl)
        as (s2 & -> & M2). rewrite rbind_Ok.
      destruct (right_rotate_moved _ _ _ (FR cp u p :: c) true a y false b' z wr
        (moved_rep _ _ _ _ _ M2) eq_refl) as (s3 & -> & M3). rewrite rbind_Ok.
      pose proof (moved_trans _ _ _ _ _ _ _ (moved_trans _ _ _ _ _ _ _ M1 M2) M3) as M.
      assert (focus p0 s3 (FL cp p (T false a z (T true b' y wr)) :: c) u) as HF3
        by by eapply focus_moved.
      pose proof (focus_node _ _ _ _ HF3) as (tn3 & Htn3 & Hp3 & _).
      rewrite (unch_sent _ _ _ (moved_unch _ _ _ _ _ M)) in Htn3.
      erewrite deref_bind by exact Htn3. rewrite Hp3. cbn [up fitem].
      erewrite deref_bind by (eapply (rep_deref _ _ _ c);
        [exact (focus_rep _ _ _ _ HF3)|reflexivity]). cbn [right node_of rootp].
      rewrite rbind_Ok. eapply rebalanced_after; [exact M|].
      rewrite <- (unch_sent _ _ _ (moved_unch _ _ _ _ _ M)).
      eapply fix_final_left; eauto.
      inversion Hc; subst; eauto with rbdb.
    + (* both nephews are black: move the problem up *)
      destruct (red_spec _ _ _ (FR cp u p :: c) false wl y wr HR eq_refl) as (s1 & -> & M1).
      rewrite rbind_Ok.
      assert (focus p0 s1 (FL cp p (T true wl y wr) :: c) u) as HF1 by by eapply focus_moved.
      destruct (focus_node _ _ _ _ HF1) as (tn1 & Htn1 & Hp1 & _).
      rewrite (unch_sent _ _ _ (moved_unch _ _ _ _ _ M1)) in Htn1.
      erewrite deref_bind by exact Htn1. rewrite Hp1. cbn [up fitem].
      eapply rebalanced_after; [exact M1|]. inversion Hc; subst.
      * destruct (fixup_red _ _ _ c u p (T true wl y wr) fuel (moved_rep _ _ _ _ _ M1) eq_refl)
          as (s2 & -> & M2); [done|].
        eexists _, _. split_and!; [done|exact M2|]. eapply plug_valid; eauto with rbdb.
      * eapply (IH s1 c (T false u p (T true wl y wr))); eauto with rbdb.
        apply focus_T. exact (moved_rep _ _ _ _ _ M1).
Qed.

(** Black sibling, [temp] a right child. *)
Lemma fix_black_right s c cp u p wl y wr cl cr b n tp :
  tp = rootp (sentinel s) u ->
  let t := plug c (T cp (T false wl y wr) p u) in
  focus p0 s (FR cp (T false wl y wr) p :: c) u ->
  rb u false n -> rb wl cl n -> rb wr cr n ->
  rbctx (FR cp (T false wl y wr) p :: c) b (S n) -> (cp = false -> length c < fuel)%nat ->
  rebalanced p0 s t
    (let! both := children_black s (iloc y) in
     if both then
       let! s' := agc_rbt_red s (iloc y) in
       let! t := deref s' (tp) in
       delete_fixup fuel s' (parent t)
     else
       let! wn := deref s (iloc y) in
       let! wl := deref s (left wn) in
       let! (s, w) :=
         (if agc_rbt_is_black wl then
            let! s' := agc_rbt_black s (right wn) in
            let! s' := agc_rbt_red s' (iloc y) in
            let! s' := agc_rbtree_left_rotate s' (iloc y) in
            let! t := deref s' (tp) in
            let! p := deref s' (parent t) in
            Ok (s', left p)
          else Ok (s, iloc y)) in
       let! t := deref s (tp) in
       let! s := agc_rbt_copy_color s w (parent t) in
       let! s := agc_rbt_black s (parent t) in
       let! wn := deref s w in
       let! s := agc_rbt_black s (left wn) in
       let! s := agc_rbtree_right_rotate s (parent t) in
       delete_fixup fuel s (root s)).
Proof using IH Hfuel.
  intros -> t HF Hu Hl Hr Hc Hlen. subst t.
  pose proof HF as [HR (tn & Htn & Hp & _)].
  destruct (rep_color _ _ _ (FL false y wr :: FL cp p u :: c) wl HR eq_refl) as (ln & Hln & Lc).
  destruct (rep_color _ _ _ (FR false wl y :: FL cp p u :: c) wr HR eq_refl) as (rn & Hrn & Rc).
  rewrite (rb_is_red _ _ _ Hl) in Lc. rewrite (rb_is_red _ _ _ Hr) in Rc.
  pose proof (rep_deref _ _ _ (FL cp p u :: c) _ _ _ _ HR eq_refl) as Hy.
  erewrite (children_black_spec _ y) by eassumption. rewrite rbind_Ok, Lc, Rc.
  erewrite deref_bind by exact Hy. cbn [left right node_of].
  erewrite deref_bind by exact Hln. unfold agc_rbt_is_black. rewrite Lc.
  destruct cl; cbn [negb andb].
  - (* the far nephew is red *)
    rewrite rbind_Ok. destruct wl as [|[] a z b']; inversion Hl; subst.
    by eapply fix_final_right.
  - destruct cr; cbn [negb].
    + (* only the near nephew is red: rotate it up first *)
      destruct wr as [|[] a z b']; inversion Hr; subst. cbn [rootp].
      destruct (black_spec _ _ _ (FR false wl y :: FL cp p u :: c) true a z b' HR eq_refl)
        as (s1 & -> & M1). rewrite rbind_Ok.
      destruct (red_spec _ _ _ (FL cp p u :: c) false wl y _ (moved_rep _ _ _ _ _ M1) eq_refl)
        as (s2 & -> & M2). rewrite rbind_Ok.
      destruct (left_rotate_moved _ _ _ (FL cp p u :: c) true wl y false a z b'
        (moved_rep _ _ _ _ _ M2) eq_refl) as (s3 & -> & M3). rewrite rbind_Ok.
      pose proof (moved_trans _ _ _ _ _ _ _ (moved_trans _ _ _ _ _ _ _ M1 M2) M3) as M.
      assert (focus p0 s3 (FR cp (T false (T true wl y a) z b') p :: c) u) as HF3
        by by eapply focus_moved.
      pose proof (focus_node _ _ _ _ HF3) as (tn3 & Htn3 & Hp3 & _).
      rewrite (unch_sent _ _ _ (moved_unch _ _ _ _ _ M)) in Htn3.
      erewrite deref_bind by exact Htn3. rewrite Hp3. cbn [up fitem].
      erewrite deref_bind by (eapply (rep_deref _ _ _ c);
        [exact (focus_rep _ _ _ _ HF3)|reflexivity]). cbn [left node_of rootp].
      rewrite rbind_Ok. eapply rebalanced_after; [exact M|].
      rewrite <- (unch_sent _ _ _ (moved_unch _ _ _ _ _ M)).
      eapply fix_final_right; eauto.
      inversion Hc; subst; eauto with rbdb.
    + (* both nephews are black: move the problem up *)
      destruct (red_spec _ _ _ (FL cp p u :: c) false wl y wr HR eq_refl) as (s1 & -> & M1).
      rewrite rbind_Ok.
      assert (focus p0 s1 (FR cp (T true wl y wr) p :: c) u) as HF1 by by eapply focus_moved.
      destruct (focus_node _ _ _ _ HF1) as (tn1 & Htn1 & Hp1 & _).
      rewrite (unch_sent _ _ _ (moved_unch _ _ _ _ _ M1)) in Htn1.
      erewrite deref_bind by exact Htn1. rewrite Hp1. cbn [up fitem].
      eapply rebalanced_after; [exact M1|]. inversion Hc; subst.
      * destruct (fixup_red _ _ _ c (T true wl y wr) p u fuel (moved_rep _ _ _ _ _ M1) eq_refl)
          as (s2 & -> & M2); [done|].
        eexists _, _. split_and!; [done|exact M2|]. eapply plug_valid; eauto with rbdb.
      * eapply (IH s1 c (T false (T true wl y wr) p u)); eauto with rbdb.
        apply focus_T. exact (moved_rep _ _ _ _ _ M1).
Qed.

(** The whole body, [temp] a left child. *)
Lemma fix_turn_left s c cp u p w b n :
  focus p0 s (FL cp p w :: c) u -> rb u false n ->
  rbctx (FL cp p w :: c) b (S n) -> (length c < fuel)%nat ->
  rebalanced p0 s (plug (FL cp p w :: c) u)
    (delete_fixup (S fuel) s (rootp (sentinel s) u)).
Proof using IH Hfuel.
  intros HF Hu Hc Hlen. pose proof HF as [HR (tn & Htn & Hp & Hred)].
  rewrite (rb_is_red _ _ _ Hu) in Hred. cbn [delete_fixup].
  rewrite (rep_not_root _ _ _ _ _ _ HR eq_refl).
  erewrite deref_bind by exact Htn. unfold agc_rbt_is_black at 1. rewrite Hred, Hp.
  cbn [negb up fitem].
  erewrite deref_bind by (eapply (rep_deref _ _ _ c); [exact HR|reflexivity]).
  cbn [left right node_of]. rewrite Z.eqb_refl.
  destruct w as [|[] wl y wr]; cbn [rootp].
  - inversion Hc; subst; match goal with H : rb E _ (S _) |- _ => inversion H end.
  - inversion Hc; subst; match goal with H : rb (T _ _ _ _) _ (S _) |- _ => inversion H; subst end.
    erewrite deref_bind by (eapply (rep_deref _ _ _ (FR false u p :: c)); [exact HR|reflexivity]).
    change (agc_rbt_is_red _) with true. cbv iota.
    destruct (black_spec _ _ _ (FR false u p :: c) true wl y wr HR eq_refl) as (s1 & -> & M1).
    rewrite rbind_Ok.
    destruct (red_spec _ _ _ c false u p _ (moved_rep _ _ _ _ _ M1) eq_refl) as (s2 & -> & M2).
    rewrite rbind_Ok.
    destruct (left_rotate_moved _ _ _ c true u p false wl y wr
      (moved_rep _ _ _ _ _ M2) eq_refl) as (s3 & -> & M3). rewrite rbind_Ok.
    pose proof (moved_trans _ _ _ _ _ _ _ (moved_trans _ _ _ _ _ _ _ M1 M2) M3) as M.
    assert (focus p0 s3 (FL true p wl :: FL false y wr :: c) u) as HF3
      by by eapply focus_moved.
    pose proof (focus_node _ _ _ _ HF3) as (tn3 & Htn3 & Hp3 & _).
    rewrite (unch_sent _ _ _ (moved_unch _ _ _ _ _ M)) in Htn3.
    erewrite deref_bind by exact Htn3. rewrite Hp3. cbn [up fitem].
    erewrite deref_bind by (eapply (rep_deref _ _ _ (FL false y wr :: c));
      [exact (focus_rep _ _ _ _ HF3)|reflexivity]). cbn [right node_of].
    rewrite rbind_Ok. eapply rebalanced_after; [exact M|].
    match goal with H : rb wl false (S n) |- _ => inversion H; subst end.
    eapply (fix_black_left s3 (FL false y wr :: c)); eauto with rbdb; [|done].
    by rewrite (unch_sent _ _ _ (moved_unch _ _ _ _ _ M)).
  - erewrite deref_bind by (eapply (rep_deref _ _ _ (FR cp u p :: c)); [exact HR|reflexivity]).
    change (agc_rbt_is_red _) with false. cbv iota. rewrite rbind_Ok.
    assert (exists cl cr, rb wl cl n /\ rb wr cr n) as (cl & cr & ? & ?).
    { inversion Hc; subst;
        match goal with H : rb (T _ _ _ _) _ (S _) |- _ => inversion H; subst; eauto end. }
    eapply fix_black_left; eauto.
Qed.

(** The whole body, [temp] a right child. *)
Lemma fix_turn_right s c cp u p w b n :
  focus p0 s (FR cp w p :: c) u -> rb u false n ->
  rbctx (FR cp w p :: c) b (S n) -> (length c < fuel)%nat ->
  rebalanced p0 s (plug (FR cp w p :: c) u)
    (delete_fixup (S fuel) s (rootp (sentinel s) u)).
Proof using IH Hfuel.
  intros HF Hu Hc Hlen. pose proof HF as [HR (tn & Htn & Hp & Hred)].
  rewrite (rb_is_red _ _ _ Hu) in Hred. cbn [delete_fixup].
  rewrite (rep_not_root _ _ _ _ _ _ HR eq_refl).
  erewrite deref_bind by exact Htn. unfold agc_rbt_is_black at 1. rewrite Hred, Hp.
  cbn [negb up fitem].
  erewrite deref_bind by (eapply (rep_deref _ _ _ c); [exact HR|reflexivity]).
  cbn [left right node_of].
  rewrite (eqb_ne (rootp (sentinel s) u)).
  2:{ apply not_eq_sym. eapply (rep_sides _ _ _ c); [exact HR|reflexivity|]. left. intros ->.
      inversion Hc; subst; match goal with H : rb E _ (S _) |- _ => inversion H end. }
  destruct w as [|[] wl y wr]; cbn [rootp].
  - inversion Hc; subst; match goal with H : rb E _ (S _) |- _ => inversion H end.
  - inversion Hc; subst; match goal with H : rb (T _ _ _ _) _ (S _) |- _ => inversion H; subst end.
    erewrite deref_bind by (eapply (rep_deref _ _ _ (FL false p u :: c)); [exact HR|reflexivity]).
    change (agc_rbt_is_red _) with true. cbv iota.
    destruct (black_spec _ _ _ (FL false p u :: c) true wl y wr HR eq_refl) as (s1 & -> & M1).
    rewrite rbind_Ok.
    destruct (red_spec _ _ _ c false _ p u (moved_rep _ _ _ _ _ M1) eq_refl) as (s2 & -> & M2).
    rewrite rbind_Ok.
    destruct (right_rotate_moved _ _ _ c true wl p false wr y u
      (moved_rep _ _ _ _ _ M2) eq_refl) as (s3 & -> & M3). rewrite rbind_Ok.
    pose proof (moved_trans _ _ _ _ _ _ _ (moved_trans _ _ _ _ _ _ _ M1 M2) M3) as M.
    assert (focus p0 s3 (FR true wr p :: FR false wl y :: c) u) as HF3
      by by eapply focus_moved.
    pose proof (focus_node _ _ _ _ HF3) as (tn3 & Htn3 & Hp3 & _).
    rewrite (unch_sent _ _ _ (moved_unch _ _ _ _ _ M)) in Htn3.
    erewrite deref_bind by exact Htn3. rewrite Hp3. cbn [up fitem].
    erewrite deref_bind by (eapply (rep_deref _ _ _ (FR false wl y :: c));
      [exact (focus_rep _ _ _ _ HF3)|reflexivity]). cbn [left node_of].
    rewrite rbind_Ok. eapply rebalanced_after; [exact M|].
    match goal with H : rb wr false (S n) |- _ => inversion H; subst end.
    eapply (fix_black_right s3 (FR false wl y :: c)); eauto with rbdb; [|done].
    by rewrite (unch_sent _ _ _ (moved_unch _ _ _ _ _ M)).
  - erewrite deref_bind by (eapply (rep_deref _ _ _ (FL cp p u :: c)); [exact HR|reflexivity]).
    change (agc_rbt_is_red _) with false. cbv iota. rewrite rbind_Ok.
    assert (exists cl cr, rb wl cl n /\ rb wr cr n) as (cl & cr & ? & ?).
    { inversion Hc; subst;
        match goal with H : rb (T _ _ _ _) _ (S _) |- _ => inversion H; subst; eauto end. }
    eapply fix_black_right; eauto.
Qed.

End fixup_step.

(** ** The loop as a whole *)

Lemma delete_fixup_black fuel p0 s c u b n :
  focus p0 s c u -> rb u false n -> rbctx c b (S n) -> (length c < fuel)%nat ->
  rebalanced p0 s (plug c u) (delete_fixup fuel s (rootp (sentinel s) u)).
Proof.
  revert s c u b n.
  induction fuel as [|fuel IH]; intros s c u b n HF Hu Hc Hlen; [lia|].
  destruct c as [|f c].
  - pose proof (focus_rep _ _ _ _ HF) as HR. simpl in HR. rewrite <- (rep_root _ _ _ HR).
    apply fixup_root; [done|]. by exists n.
  - simpl in Hlen. destruct f; [eapply fix_turn_left|eapply fix_turn_right]; eauto; lia.
Qed.

Lemma delete_fixup_spec fuel p0 s c u cu b n :
  focus p0 s c u -> rb u cu n -> rbctx c b (S n) -> (length c < fuel)%nat ->
  rebalanced p0 s (plug c u) (delete_fixup fuel s (rootp (sentinel s) u)).
Proof.
  intros HF Hu Hc Hlen. destruct cu; [|by eapply delete_fixup_black].
  destruct u as [|[] l x r]; inversion Hu; subst.
  destruct (fixup_red _ _ _ c l x r fuel (focus_rep _ _ _ _ HF) eq_refl) as (s' & Hs & M); [lia|].
  exists s', (plug c (T false l x r)). split_and!; [done|done|].
  eapply plug_valid; eauto with rbdb. done.
Qed.

(** ** Minimum *)

(** Contexts made of left steps only: the focus is the first node below them. *)
Definition all_left (c : ctx) : Prop := before c = [].

Lemma min_spec fuel p0 s c u :
  rep p0 s (plug c u) -> u <> E -> (height u <= fuel)%nat ->
  exists c1 cx x r, agc_rbtree_min_loop fuel s (rootp (sentinel s) u) (sentinel s) = Ok (iloc x) /\
    u = plug c1 (T cx E x r) /\ all_left c1.
Proof.
  revert c u; induction fuel as [|fuel IH]; intros c u HR Hu Hf;
    (destruct u as [|cy l y r]; [done|]); simpl in Hf; [lia|]. cbn [agc_rbtree_min_loop rootp].
  erewrite deref_bind by (eapply (rep_deref _ _ _ c); [exact HR|reflexivity]). cbn [left node_of].
  destruct l as [|cl ll lx lr] eqn:El; cbn [rootp].
  - rewrite Z.eqb_refl. by exists [], cy, y, r.
  - rewrite eqb_ne. 2:{ pose proof (rep_sent _ _ _ HR). spread. done. }
    destruct (IH (FL cy y r :: c) (T cl ll lx lr)) as (c1 & cx & x & r' & Hm & Hu' & Hl);
      [done|done|lia|].
    exists (c1 ++ [FL cy y r]), cx, x, r'. split_and!; [done|by rewrite plug_app, <- Hu'|].
    unfold all_left in *. by rewrite before_app, Hl.
Qed.

(** ** Every node of the tree is the focus of some path *)
Lemma tree_zip t L1 x L2 :
  inorder t = L1 ++ x :: L2 ->
  exists c cx l r, t = plug c (T cx l x r) /\ L1 = before c ++ inorder l /\ L2 = inorder r ++ after c.
Proof.
  revert L1 L2; induction t as [|cy l IHl y r IHr]; simpl; intros L1 L2 H.
  { by destruct L1. }
  apply app_eq_app in H as [k [[Hl Hk]|[-> Hk]]].
  - destruct k as [|z k]; simpl in Hk; simplify_eq.
    + exists [], cy, l, r. by rewrite Hl, !app_nil_r.
    + destruct (IHl L1 k Hl) as (c & cx & l' & r' & -> & -> & ->).
      exists (c ++ [FL cy y r]), cx, l', r'.
      rewrite plug_app, before_app, after_app. simpl. by rewrite app_nil_r, <- app_assoc.
  - destruct k as [|z k]; simpl in Hk; simplify_eq.
    + exists [], cy, l, r. by rewrite !app_nil_r.
    + destruct (IHr k L2 ltac:(done)) as (c & cx & l' & r' & -> & -> & ->).
      exists (c ++ [FR cy l z]), cx, l', r'.
      rewrite plug_app, before_app, after_app. simpl. by rewrite app_nil_r, <- !app_assoc.
Qed.

(** ** Successor *)

Lemma next_loop_spec fuel p0 s c cx l x r :
  rep p0 s (plug c (T cx l x r)) -> (length c < fuel)%nat ->
  agc_rbtree_next_loop fuel s (iloc x) =
  Ok (match after c with [] => NULL | y :: _ => iloc y end).
Proof.
  revert c cx l x r; induction fuel as [|fuel IH]; intros c cx l x r HR Hlen; [lia|].
  cbn [agc_rbtree_next_loop].
  erewrite deref_bind by (eapply (rep_deref _ _ _ c); [exact HR|reflexivity]).
  rewrite (rep_is_root _ _ _ _ _ _ _ _ HR eq_refl).
  destruct c as [|[fc y u|fc u y] c]; [done| |]; cbn [parent node_of up fitem];
    (erewrite deref_bind by (eapply (rep_deref _ _ _ c); [exact HR|reflexivity]));
    cbn [left node_of rootp].
  - by rewrite Z.eqb_refl.
  - rewrite eqb_ne.
    2:{ apply not_eq_sym, (rep_sides _ _ _ c fc u y (T cx l x r) HR eq_refl). by right. }
    simpl in Hlen. rewrite (IH c fc u y (T cx l x r)) by (done || lia). done.
Qed.

Lemma next_spec s L1 x L2 :
  holds s (L1 ++ x :: L2) ->
  agc_rbtree_next s (iloc x) = Ok (match L2 with [] => NULL | y :: _ => iloc y end).
Proof.
  intros (p0 & t & HR & _ & Ht). destruct (tree_zip _ _ _ _ Ht) as (c & cx & l & r & -> & _ & ->).
  pose proof (rep_size _ _ _ HR) as Hsz. unfold agc_rbtree_next.
  erewrite deref_bind by (eapply (rep_deref _ _ _ c); [exact HR|reflexivity]). cbn [right node_of].
  destruct r as [|cr rl y rr] eqn:Er; cbn [rootp].
  - rewrite Z.eqb_refl. cbn [inorder app]. eapply next_loop_spec; [exact HR|].
    unfold loop_fuel. pose proof (length_ctx c (T cx l x E)). lia.
  - rewrite eqb_ne. 2:{ pose proof (rep_sent _ _ _ HR). spread. done. }
    destruct (min_spec (loop_fuel s) p0 s (FR cx l x :: c) (T cr rl y rr)) as
      (c1 & cz & z & r' & Hm & Hu & Hl); [done|done| |].
    { pose proof (height_size (T cr rl y rr)). unfold loop_fuel.
      rewrite inorder_plug, !length_app in Hsz. simpl in Hsz. rewrite length_app in Hsz.
      simpl in *. lia. }
    unfold agc_rbtree_min. simpl rootp in Hm. rewrite Hm, Hu, inorder_plug. unfold all_left in Hl.
    by rewrite Hl.
Qed.
