(* ===== verification/RbTreeRemove.v ===== *)
(** * Red-black tree: unlinking a node

    The part of [agc_rbtree_delete] before its fix-up loop: which node leaves
    its place, how its only child takes it over, and how the node moves to the
    place of the deleted one; then the operation as a whole. *)

From stdpp Require Import base gmap list fin_maps sorting.
From Stdlib Require Import ZArith Lia.
From S2P Require Import Prelude RbTree RbTreeSpec RbTreeProof RbTreeInsert RbTreeDelete.

Lemma ctxrep_app m se p0 h c1 c2 :
  ctxrep m se p0 h (c1 ++ c2) <->
  ctxrep m se (up p0 c2) h c1 /\ ctxrep m se p0 (rootc h c1) c2.
Proof.
  revert h; induction c1 as [|f c1 IH]; intros h; simpl; [tauto|].
  assert (up p0 (c1 ++ c2) = up (up p0 c2) c1) as Hup by by destruct c1.
  destruct f; rewrite IH, Hup; simpl; tauto.
Qed.

Lemma up_app p0 c1 c2 : up p0 (c1 ++ c2) = up (up p0 c2) c1.
Proof. by destruct c1. Qed.

(** The child pointer of [f] that leads to the hole. *)
Lemma set_child_spec {A} (k : rbtree -> result A) m rt se ins p0 h h' f c :
  ctxrep m se p0 h (f :: c) -> h <> se -> h ∉ outside (f :: c) -> NoDup (outside (f :: c)) ->
  exists m',
    (let! sp := deref (RbTree m rt se ins) (iloc (fitem f)) in
     rbind (if h =? left sp then modify (RbTree m rt se ins) (iloc (fitem f)) (set_left h')
     else modify (RbTree m rt se ins) (iloc (fitem f)) (set_right h')) k) = k (RbTree m' rt se ins) /\
    ctxrep m' se p0 h' (f :: c) /\ (forall k, k <> iloc (fitem f) -> m' !! k = m !! k).
Proof.
  intros Hc Hse Hh Hn.
  apply elem_outside in Hh as (? & ? & ?). apply nodup_outside in Hn as (? & ? & ? & ? & ?).
  destruct f as [fc x r|fc l x]; cbn [fitem fsib ctxrep] in *; destruct Hc as (Hx & Hr & Hc);
    (erewrite deref_bind by done); cbn [left right]; rewrite ?Z.eqb_refl, ?(eqb_ne h) by ne_solve;
    (eexists; split; [by erewrite modify_bind by done|]); cbn [mem with_mem ctxrep];
    (split_and!; [by rewrite lookup_insert_eq|by apply sub_insert|by apply ctxrep_insert|]);
    intros k' Hk; by rewrite lookup_insert_ne.
Qed.

(** Setting the parent of a subtree, the sentinel included. *)
Lemma set_parent_spec m rt se ins p q u :
  sub m se p u -> NoDup (locs u) -> se ∉ locs u -> is_Some (m !! se) ->
  exists m' n, modify (RbTree m rt se ins) (rootp se u) (set_parent q) = Ok (RbTree m' rt se ins) /\
    sub m' se q u /\ m !! rootp se u = Some n /\ m' !! rootp se u = Some (set_parent q n) /\
    (forall k, k <> rootp se u -> m' !! k = m !! k).
Proof.
  intros Hs Hn Hse [sn Hsn]. destruct u as [|c l x r]; cbn [rootp sub] in *.
  - eexists _, sn. split; [by erewrite modify_ok by done|]. cbn [mem with_mem].
    split_and!; [done|done|by rewrite lookup_insert_eq|].
    intros k Hk. by rewrite lookup_insert_ne.
  - destruct Hs as (Hx & Hl & Hr). spread.
    eexists _, _. split; [by erewrite modify_ok by done|]. cbn [mem with_mem].
    split_and!; [by rewrite lookup_insert_eq|by apply sub_insert|by apply sub_insert|done
      |by rewrite lookup_insert_eq|].
    intros k Hk. by rewrite lookup_insert_ne.
Qed.

Lemma clear_node_spec s a n :
  mem s !! a = Some n ->
  clear_node s a = Ok (with_mem (<[a := RbNode 0 NULL NULL NULL (color n) (data n)]> (mem s)) s).
Proof.
  intros Ha. unfold clear_node. xstep ltac:(exact Ha). do 3 xstep lookup_solve.
  rewrite !insert_insert_eq. by destruct s.
Qed.

(** Writing a cell that is not part of the structure. *)
Lemma rep_insert p0 s t a v :
  rep p0 s t -> a ∉ locs t -> a <> sentinel s -> a <> NULL ->
  rep p0 (with_mem (<[a := v]> (mem s)) s) t.
Proof.
  intros [Hs Hr Hn Hse Hnu (sn & Hsn & Hb)] Ha Has Han.
  split; cbn [mem root sentinel with_mem]; rewrite ?lookup_insert_ne by done; eauto.
  by apply sub_insert.
Qed.

Lemma focus_insert p0 s c u a v :
  focus p0 s c u -> a ∉ locs (plug c u) -> a <> sentinel s -> a <> NULL ->
  focus p0 (with_mem (<[a := v]> (mem s)) s) c u.
Proof.
  intros [HR (tn & Ht & ? & ?)] Ha Has Han. split; [by apply rep_insert|].
  exists tn. cbn [mem sentinel with_mem]. rewrite lookup_insert_ne; [done|].
  apply elem_plug in Ha as [Ha _]. by apply rootp_ne.
Qed.

(** ** What the unlinked node leaves behind, as trees *)

(** [u] is the only child of a node with children [l] and [r]. *)
Definition only_child (l r u : tree) : Prop := (l = E /\ u = r) \/ (r = E /\ u = l).

Lemma only_child_inorder l r u : only_child l r u -> inorder u = inorder l ++ inorder r.
Proof. by intros [[-> ->]|[-> ->]]; rewrite ?app_nil_r. Qed.

Lemma unlink_red c l x r u :
  valid (plug c (T true l x r)) -> only_child l r u -> valid (plug c u).
Proof.
  intros (b & b' & n & Hc & Ht & Hb)%valid_plug_inv Hu. inversion Ht; subst.
  destruct Hu as [[-> ->]|[-> ->]]; by eapply plug_valid.
Qed.

Lemma unlink_black c l x r u :
  valid (plug c (T false l x r)) -> only_child l r u ->
  exists b cu n, rbctx c b (S n) /\ rb u cu n.
Proof.
  intros (b & b' & n & Hc & Ht & Hb)%valid_plug_inv Hu. inversion Ht; subst.
  destruct Hu as [[-> ->]|[-> ->]]; eauto 10.
Qed.

(** Only colours matter: another item may take the place of [z]. *)
Lemma valid_replace c1 c2 cz l z z' u :
  valid (plug (c1 ++ FR cz l z :: c2) u) -> valid (plug (c1 ++ FR cz l z' :: c2) u).
Proof.
  rewrite !plug_app; cbn [plug fill]. intros (b & b' & n & Hc & Ht & Hb)%valid_plug_inv.
  inversion Ht; subst; eapply plug_valid; eauto with rbdb.
Qed.

Lemma focus_intro p0 m rt se ins c u tn :
  ctxrep m se p0 (rootp se u) c -> sub m se (up p0 c) u -> rt = rootc (rootp se u) c ->
  NoDup (locs u) -> NoDup (outside c) -> disj (outside c) (locs u) ->
  se ∉ locs u -> se ∉ outside c -> m !! NULL = None ->
  (exists sn, m !! se = Some sn /\ color sn = 0) ->
  m !! rootp se u = Some tn -> parent tn = up p0 c ->
  focus p0 (RbTree m rt se ins) c u.
Proof.
  intros Hc Hu -> Hn1 Hn2 Hd Hs1 Hs2 Hnu Hsn Htn Hp.
  assert (rep p0 (RbTree m (rootc (rootp se u) c) se ins) (plug c u)) as HR.
  { split; cbn [mem root sentinel]; try done.
    - by apply sub_plug.
    - by rewrite rootp_plug.
    - by apply nodup_plug.
    - by apply elem_plug. }
  destruct u as [|cx l x r]; [|by apply focus_T].
  split; [done|]. exists tn. split_and!; [done|done|]. destruct Hsn as (sn & Hsn & Hcol).
  simpl in Htn. simplify_eq. unfold agc_rbt_is_red. by rewrite Hcol.
Qed.

Lemma elem_outside_head f c : iloc (fitem f) ∈ outside (f :: c).
Proof. rewrite outside_cons. left. Qed.

(** ** The node has at most one child *)

Lemma unlink_self_spec p0 s t f c cz l z r u :
  rep p0 s t -> t = plug (f :: c) (T cz l z r) -> only_child l r u ->
  exists s', delete_unlink s (iloc z) (iloc z) (rootp (sentinel s) u) = Ok s' /\
    focus p0 s' (f :: c) u /\ unch (sentinel s :: locs t) s s' /\ is_Some (mem s' !! iloc z).
Proof.
  intros HR -> Hu. pose proof HR as [Hs Hr Hn Hse Hnu (sn & Hsn & Hb)].
  pose proof (rep_not_null _ _ _ HR) as Hnl.
  rewrite (rootp_plug _ (f :: c)) in Hr.
  apply (sub_plug _ _ _ (f :: c)) in Hs as [Hc (Hz & Hl & Hrr)].
  apply (nodup_plug (f :: c)) in Hn as (Hn1 & Hn2 & Hd).
  apply (elem_plug _ (f :: c)) in Hse as [Hse1 Hse2].
  apply (elem_plug _ (f :: c)) in Hnl as [Hnl1 Hnl2].
  apply disj_T in Hd as (Hzo & Hdl & Hdr). apply elem_T in Hse1 as (Hsz & Hsl & Hsr).
  apply nodup_T in Hn1 as (? & ? & ? & ? & ?). apply elem_T in Hnl1 as (? & ? & ?).
  destruct s as [m rs se ins]; cbn [mem sentinel insert root] in *.
  assert (sub m se (iloc z) u /\ NoDup (locs u) /\ se ∉ locs u /\ iloc z ∉ locs u /\
    disj (outside (f :: c)) (locs u) /\ NULL ∉ locs u) as (Hsu & Hnu' & Hseu & Hzu & Hdu & Hnulu)
    by (destruct Hu as [[-> ->]|[-> ->]]; done).
  unfold delete_unlink. erewrite deref_bind by done. cbn [parent node_of up fitem].
  match goal with |- context [rbind (deref _ _) (fun sp => rbind _ ?K)] =>
    destruct (set_child_spec K m rs se ins p0 (iloc z) (rootp se u) f c) as (m1 & E1 & Hc1 & F1);
      try done end.
  assert (iloc z <> iloc (fitem f)) as Hzf by (apply elem_outside in Hzo; intuition).
  assert (iloc (fitem f) ∉ locs u) as Hfu.
  { apply Hdu, elem_outside_head. }
  rewrite E1. clear E1.
  erewrite deref_bind by (cbn [mem]; by rewrite F1). rewrite Z.eqb_refl. cbn [parent node_of up fitem].
  assert (sub m1 se (iloc z) u) as Hsu1.
  { eapply sub_ext; [|exact Hsu]. intros k Hk. apply F1. by intros ->. }
  destruct (set_parent_spec m1 rs se ins (iloc z) (iloc (fitem f)) u) as
    (m2 & tn & -> & Hsu2 & Htn & Htn2 & F2); try done.
  { rewrite F1; [done|]. intros ->. apply elem_outside in Hse2. intuition. }
  eexists; split; [reflexivity|].
  assert (NULL <> iloc (fitem f)) as Hfn by (apply elem_outside in Hnl2; intuition).
  assert (se <> iloc (fitem f)) as Hfs by (apply elem_outside in Hse2; intuition).
  split_and!.
  - eapply focus_intro; eauto.
    + eapply ctxrep_ext; [|exact Hc1]. intros k Hk. apply F2, rootp_ne; [|by apply Hdu].
      by intros ->.
    + rewrite F2, F1; [done..|]. intros Heq. rewrite <- Heq, F1 in Htn by done. congruence.
    + destruct (decide (rootp se u = se)) as [He|].
      * rewrite He in *. rewrite F1 in Htn by done. simplify_eq. by eexists.
      * exists sn. rewrite F2, F1; auto.
  - split; cbn [mem sentinel insert]; try done.
    intros k [Hk1 Hk2]%not_elem_of_cons. apply (elem_plug _ (f :: c)) in Hk2 as [Hk2 Hk3].
    apply elem_T in Hk2 as (? & ? & ?). apply elem_outside in Hk3 as (? & _).
    rewrite F2, F1; [done|done|]. apply rootp_ne; [done|].
    destruct Hu as [[_ ->]|[_ ->]]; done.
  - cbn [mem]. rewrite F2, F1; [by eexists|done|]. apply rootp_ne; [|done]. by intros <-.
Qed.

(** ** The node has two children: its successor takes its place *)

Lemma outside_app c1 c2 : outside (c1 ++ c2) ≡ₚ outside c1 ++ outside c2.
Proof. rewrite before_app, after_app, !fmap_app. solve_Permutation. Qed.

Lemma rootc_app h c1 c2 : rootc h (c1 ++ c2) = rootc (rootc h c1) c2.
Proof. revert h; induction c1; intros; simpl; auto. Qed.

(** The separation facts of a node [z], its left subtree [l], and its
    successor [x] with right child [u] below the path [c1]. *)
Record apart (se : Z) (c1 c : ctx) (l : tree) (z x : item) (u : tree) : Prop := Apart {
  ap_zx : iloc z <> iloc x;
  ap_zl : iloc z ∉ locs l; ap_zu : iloc z ∉ locs u;
  ap_z1 : iloc z ∉ outside c1; ap_zc : iloc z ∉ outside c;
  ap_xl : iloc x ∉ locs l; ap_xu : iloc x ∉ locs u;
  ap_x1 : iloc x ∉ outside c1; ap_xc : iloc x ∉ outside c;
  ap_nl : NoDup (locs l); ap_nu : NoDup (locs u);
  ap_n1 : NoDup (outside c1); ap_nc : NoDup (outside c);
  ap_lu : disj (locs l) (locs u); ap_l1 : disj (locs l) (outside c1);
  ap_lc : disj (locs l) (outside c); ap_u1 : disj (locs u) (outside c1);
  ap_uc : disj (locs u) (outside c); ap_1c : disj (outside c1) (outside c);
  ap_sz : se <> iloc z; ap_sx : se <> iloc x;
  ap_sl : se ∉ locs l; ap_su : se ∉ locs u;
  ap_s1 : se ∉ outside c1; ap_sc : se ∉ outside c }.

Lemma locs_two c1 cz l z c cx x u :
  locs (plug (c1 ++ FR cz l z :: c) (T cx E x u)) ≡ₚ
  iloc z :: iloc x :: locs l ++ locs u ++ outside c1 ++ outside c.
Proof.
  rewrite locs_plug, outside_app, outside_cons. cbn [inorder app fmap list_fmap fitem fsib].
  solve_Permutation.
Qed.

Lemma apart_of se c1 cz l z c cx x u :
  NoDup (locs (plug (c1 ++ FR cz l z :: c) (T cx E x u))) ->
  se ∉ locs (plug (c1 ++ FR cz l z :: c) (T cx E x u)) ->
  apart se c1 c l z x u.
Proof.
  rewrite locs_two. intros Hn Hs.
  rewrite !not_elem_of_cons, !not_elem_of_app in Hs.
  rewrite !NoDup_cons, !NoDup_app, !not_elem_of_cons, !not_elem_of_app in Hn.
  setoid_rewrite not_elem_of_app in Hn. setoid_rewrite not_elem_of_app in Hn.
  split; unfold disj; naive_solver.
Qed.

Lemma apart_outside se c1 cz l z c x u :
  apart se c1 c l z x u ->
  NoDup (outside (c1 ++ FR cz l x :: c)) /\ disj (outside (c1 ++ FR cz l x :: c)) (locs u) /\
  se ∉ outside (c1 ++ FR cz l x :: c).
Proof.
  intros []. rewrite outside_app, (outside_cons (FR cz l x) c). cbn [fitem fsib]. split_and!.
  - rewrite NoDup_app, NoDup_cons, NoDup_app, not_elem_of_app.
    setoid_rewrite not_elem_of_cons. setoid_rewrite not_elem_of_app.
    split_and!; eauto with rbdb. intros k Hk. split_and!; eauto with rbdb.
  - intros k. rewrite !elem_of_app, elem_of_cons, elem_of_app. intros [?|[->|[?|?]]]; eauto with rbdb.
  - rewrite not_elem_of_app, not_elem_of_cons, not_elem_of_app. auto.
Qed.

Lemma up_first q q' c : c <> [] -> up q c = up q' c.
Proof. by destruct c. Qed.

Lemma up_ne q c a : c <> [] -> a ∉ outside c -> up q c <> a.
Proof. destruct c as [|f c]; [done|]. intros _ Ha <-. apply Ha, elem_outside_head. Qed.

Section unlink_min.
Context (p0 se : Z) (ins : insert_func) (c1 c : ctx) (cz cx : bool) (l u : tree) (z x : item).
Context (AP : apart se c1 c l z x u).

(** Lines 195-199: the child's new parent. *)
Lemma min_parent m rt :
  (if up (iloc z) c1 =? iloc z
   then modify (RbTree m rt se ins) (rootp se u) (set_parent (iloc x))
   else modify (RbTree m rt se ins) (rootp se u) (set_parent (up (iloc z) c1))) =
  modify (RbTree m rt se ins) (rootp se u) (set_parent (up (iloc x) c1)).
Proof using AP.
  destruct (list_eq_nil_dec c1) as [Hc|Hc].
  - rewrite Hc. simpl. by rewrite Z.eqb_refl.
  - rewrite eqb_ne by by apply up_ne; [|by destruct AP]. by rewrite (up_first (iloc x) (iloc z)).
Qed.

(** Lines 201-217: the successor is given the links and the colour of [z]. *)
Lemma min_replace m :
  ctxrep m se (iloc z) (rootp se u) c1 -> sub m se (up (iloc x) c1) u ->
  m !! iloc z = Some (node_of se (up p0 c) cz l z (plug c1 u)) ->
  sub m se (iloc z) l -> ctxrep m se p0 (iloc z) c ->
  m !! iloc x = Some (node_of se (up p0 (c1 ++ FR cz l z :: c)) cx E x u) ->
  exists m',
    (let! n := deref (RbTree m (rootc (iloc z) c) se ins) (iloc z) in
     let! s := modify (RbTree m (rootc (iloc z) c) se ins) (iloc x) (set_left (left n)) in
     let! s := modify s (iloc x) (set_right (right n)) in
     let! s := modify s (iloc x) (set_parent (parent n)) in
     let! s := agc_rbt_copy_color s (iloc x) (iloc z) in
     let! s :=
       (if iloc z =? root s then Ok (with_root (iloc x) s)
        else
          let! np := deref s (parent n) in
          if iloc z =? left np then modify s (parent n) (set_left (iloc x))
          else modify s (parent n) (set_right (iloc x))) in
     let! sn := deref s (iloc x) in
     let! s := (if left sn =? sentinel s then Ok s
                else modify s (left sn) (set_parent (iloc x))) in
     let! sn := deref s (iloc x) in
     if right sn =? sentinel s then Ok s
     else modify s (right sn) (set_parent (iloc x))) =
    Ok (RbTree m' (rootc (iloc x) c) se ins) /\
    m' !! iloc x = Some (node_of se (up p0 c) cz l x (plug c1 u)) /\
    sub m' se (iloc x) l /\ sub m' se (iloc x) (plug c1 u) /\ ctxrep m' se p0 (iloc x) c /\
    (forall k, k <> iloc x -> k ∉ locs l -> k ∉ locs (plug c1 u) -> k ∉ outside c -> m' !! k = m !! k).
Proof using AP.
  intros Hc1 Hu Hz Hl Hc Hx. destruct AP.
  xstep ltac:(exact Hz). xstep ltac:(exact Hx). do 2 xstep lookup_solve.
  unfold agc_rbt_copy_color. do 2 xstep lookup_solve. rewrite !insert_insert_eq.
  match goal with |- context [<[iloc x := ?V]> _] =>
    change V with (node_of se (up p0 c) cz l x (plug c1 u)) end.
  set (m3 := <[iloc x := _]> m).
  assert (m3 !! iloc z = Some (node_of se (up p0 c) cz l z (plug c1 u))) as Hz3
    by (unfold m3; lookup_solve).
  destruct (relink_spec true m3 se ins p0 (iloc z) (iloc x) c
    (node_of se (up p0 c) cz l z (plug c1 u))) as (m4 & E4 & Hc4 & F4); try done.
  { by apply ctxrep_insert. }
  unfold relink in E4. cbn [root] in E4. erewrite deref_bind in E4 by exact Hz3.
  cbn [parent node_of with_root mem sentinel insert] in E4.
  unfold with_root in E4. cbn [mem root sentinel insert] in E4. rewrite E4. clear E4. xcbn.
  assert (m4 !! iloc x = Some (node_of se (up p0 c) cz l x (plug c1 u))) as Hx4
    by (rewrite F4 by done; unfold m3; lookup_solve).
  xstep ltac:(exact Hx4).
  assert (sub m4 se (iloc z) l) as Hl4.
  { eapply sub_ext; [|exact Hl]. intros k Hk. rewrite F4 by eauto with rbdb. unfold m3.
    by rewrite lookup_insert_ne by eauto with rbdb. }
  destruct (reparent_spec m4 (rootc (iloc x) c) se ins (iloc z) (iloc x) l)
    as (m5 & -> & Hl5 & F5); [done..|]. xcbn.
  assert (m5 !! iloc x = Some (node_of se (up p0 c) cz l x (plug c1 u))) as Hx5 by by rewrite F5.
  xstep ltac:(exact Hx5).
  assert (forall k, k ∈ locs (plug c1 u) -> k <> iloc x /\ k ∉ outside c /\ k ∉ locs l) as Hr1.
  { intros k. rewrite locs_plug, elem_of_app. intros [|]; split_and!; eauto with rbdb. }
  assert (exists p, sub m5 se p (plug c1 u)) as [p Hp].
  { assert (exists p, sub m se p (plug c1 u)) as [p Hp].
    { destruct c1 as [|f c1']; [by exists (iloc x)|]. exists (iloc z). by apply (sub_plug _ _ _ (f :: c1')). }
    exists p. eapply sub_ext; [|exact Hp]. intros k (? & ? & ?)%Hr1.
    rewrite F5, F4 by done. unfold m3. by rewrite lookup_insert_ne. }
  destruct (reparent_spec m5 (rootc (iloc x) c) se ins p (iloc x) (plug c1 u))
    as (m6 & E6 & Hu6 & F6); [done|by apply nodup_plug; auto using disj_sym|by apply elem_plug|].
  exists m6. split; [exact E6|].
  assert (iloc x ∉ locs (plug c1 u)) by by apply elem_plug.
  split_and!; [by rewrite F6| |done| |].
  - eapply sub_ext; [|exact Hl5]. intros k Hk. apply F6. intros (_ & _ & ?)%Hr1. done.
  - eapply ctxrep_ext; [|exact Hc4]. intros k Hk. rewrite F6, F5; [done|eauto with rbdb|].
    intros (_ & ? & _)%Hr1. done.
  - intros k ????. rewrite F6, F5, F4 by done. unfold m3. by rewrite lookup_insert_ne.
Qed.

(** With the successor in the place of [z], the focus is on its old child. *)
Lemma min_focus m :
  m !! iloc x = Some (node_of se (up p0 c) cz l x (plug c1 u)) -> sub m se (iloc x) l ->
  sub m se (iloc x) (plug c1 u) -> ctxrep m se p0 (iloc x) c -> m !! NULL = None ->
  (exists sn, m !! se = Some sn /\ color sn = 0) ->
  (exists tn, m !! rootp se u = Some tn /\ (u = E -> parent tn = up (iloc x) c1)) ->
  focus p0 (RbTree m (rootc (iloc x) c) se ins) (c1 ++ FR cz l x :: c) u.
Proof using AP.
  intros Hx Hl Hu Hc Hnu Hsn (tn & Htn & Hp).
  destruct (apart_outside se c1 cz l z c x u AP) as (? & ? & ?).
  apply sub_plug in Hu as [Hc1 Hu].
  assert (exists tn', m !! rootp se u = Some tn' /\ parent tn' = up p0 (c1 ++ FR cz l x :: c)) as (tn' & ? & ?).
  { rewrite up_app. destruct u as [|uc ul ux ur]; simpl in *; [exists tn; auto|]. destruct Hu as [-> _]. eauto. }
  destruct AP. eapply focus_intro; eauto.
  - apply ctxrep_app. rewrite <- rootp_plug. done.
  - by rewrite up_app.
  - by rewrite rootc_app.
Qed.
End unlink_min.

Lemma unlink_min_spec p0 s t c1 c cz cx l z x u :
  rep p0 s t -> t = plug (c1 ++ FR cz l z :: c) (T cx E x u) ->
  exists s', delete_unlink s (iloc z) (iloc x) (rootp (sentinel s) u) = Ok s' /\
    focus p0 s' (c1 ++ FR cz l x :: c) u /\ unch (sentinel s :: locs t) s s' /\
    is_Some (mem s' !! iloc z).
Proof.
  intros HR ->. pose proof HR as [Hs Hr Hn Hse Hnu (sn & Hsn & Hb)].
  pose proof (rep_not_null _ _ _ HR) as Hnl.
  pose proof (apart_of _ _ _ _ _ _ _ _ _ Hn Hse) as AP. pose proof AP as [].
  rewrite rootp_plug, rootc_app in Hr. cbn [rootp rootc fitem] in Hr.
  apply sub_plug in Hs as [Hc (Hx & _ & Hu)].
  destruct s as [m rs se ins]; cbn [mem sentinel insert root] in *. subst rs.
  assert (iloc x ∉ outside (c1 ++ FR cz l z :: c) /\ se ∉ outside (c1 ++ FR cz l z :: c) /\
    NULL ∉ outside (c1 ++ FR cz l z :: c) /\ NULL ∉ locs u /\ NoDup (outside (c1 ++ FR cz l z :: c)) /\
    disj (outside (c1 ++ FR cz l z :: c)) (locs u)) as (HxC & HsC & HnC & Hnlu & HnoC & HdC).
  { apply nodup_plug in Hn as (_ & ? & Hd). apply disj_T in Hd as (? & _ & ?).
    apply elem_plug in Hse as [_ ?]. apply elem_plug in Hnl as [Hnl ?].
    apply elem_T in Hnl as (_ & _ & ?). done. }
  unfold delete_unlink. erewrite deref_bind by done. cbn [parent node_of].
  assert (exists f0 C0, c1 ++ FR cz l z :: c = f0 :: C0) as (f0 & C0 & EC)
    by (destruct c1; simpl; eauto).
  assert (iloc (fitem f0) = up (iloc z) c1) as Hf0.
  { pose proof (up_app p0 c1 (FR cz l z :: c)) as Hua. rewrite EC in Hua. exact Hua. }
  rewrite EC in Hc, Hx, HxC, HsC, HnC, HnoC, HdC |- *. cbn [up].
  match goal with |- context [rbind (deref _ _) (fun sp => rbind _ ?K)] =>
    destruct (set_child_spec K m (rootc (iloc z) c) se ins p0 (iloc x) (rootp se u) f0 C0)
      as (m1 & E1 & Hc1 & F1); try done end.
  rewrite E1. clear E1.
  assert (iloc x <> iloc (fitem f0) /\ se <> iloc (fitem f0) /\ NULL <> iloc (fitem f0)) as (? & ? & ?)
    by (apply elem_outside in HxC, HsC, HnC; intuition).
  erewrite deref_bind by (cbn [mem]; by rewrite F1). rewrite (eqb_ne (iloc x)) by done.
  cbn [parent node_of up]. rewrite Hf0 in F1 |- *. rewrite (min_parent _ _ c1 c l) by done.
  assert (sub m1 se (iloc x) u) as Hu1.
  { eapply sub_ext; [|exact Hu]. intros k Hk. apply F1. rewrite <- Hf0. intros ->.
    apply (HdC _ (elem_outside_head _ _) Hk). }
  destruct (set_parent_spec m1 (rootc (iloc z) c) se ins (iloc x) (up (iloc x) c1) u)
    as (m2 & tn & -> & Hu2 & Htn & Htn2 & F2); try done.
  { rewrite F1; [done|congruence]. }
  rewrite rbind_Ok.
  assert (forall k, k <> se -> k ∉ locs u -> m2 !! k = m1 !! k) as F2'
    by (intros; apply F2, rootp_ne; done).
  rewrite <- EC in Hc1. apply ctxrep_app in Hc1 as [Hc1 (Hz1 & Hl1 & Hcc)].
  rewrite <- rootp_plug in Hz1.
  edestruct (min_replace p0 se ins c1 c cz cx l u z x AP m2) as (m6 & -> & Hx6 & Hl6 & Hu6 & Hc6 & F6).
  { eapply ctxrep_ext; [|exact Hc1]. intros k Hk. apply F2'; [by intros ->|eauto with rbdb]. }
  { done. }
  { rewrite F2' by auto. exact Hz1. }
  { eapply sub_ext; [|exact Hl1]. intros k Hk. apply F2'; [by intros ->|eauto with rbdb]. }
  { eapply ctxrep_ext; [|exact Hcc]. intros k Hk. apply F2'; [by intros ->|eauto with rbdb]. }
  { rewrite F2', F1, EC by (done || congruence). exact Hx. }
  eexists; split; [reflexivity|].
  assert (se ∉ locs (plug c1 u)) by by apply elem_plug.
  assert (m6 !! se = m2 !! se) as Hse6 by (apply F6; done).
  rewrite <- EC. rewrite locs_two in Hnl. rewrite !not_elem_of_cons, !not_elem_of_app in Hnl.
  destruct Hnl as (? & ? & ? & ? & ? & ?).
  assert (NULL ∉ locs (plug c1 u)) by by apply elem_plug.
  assert (iloc z ∉ locs (plug c1 u)) by by apply elem_plug.
  split_and!.
  - eapply min_focus; eauto.
    + rewrite F6 by done. rewrite F2', F1; [done|congruence|congruence|done].
    + rewrite Hse6. destruct (decide (se = rootp se u)) as [He|].
      * rewrite <- He in Htn, Htn2. rewrite F1 in Htn by congruence. simplify_eq. by eexists.
      * exists sn. rewrite F2, F1 by (done || congruence). done.
    + destruct u as [|uc ul ux ur]; [cbn [rootp] in *; rewrite Hse6; eauto|].
      apply sub_plug in Hu6 as [_ [Hu6 _]]. eauto.
  - split; cbn [mem sentinel insert]; try done.
    intros k [Hk1 Hk2]%not_elem_of_cons. rewrite locs_two in Hk2.
    rewrite !not_elem_of_cons, !not_elem_of_app in Hk2. destruct Hk2 as (? & ? & ? & ? & ? & ?).
    rewrite F6, F2', F1; try done; [|by apply elem_plug].
    destruct (list_eq_nil_dec c1) as [->|]; [done|]. by apply not_eq_sym, up_ne.
  - cbn [mem]. rewrite F6, F2' by auto. by eexists.
Qed.

(** ** Deletion *)

Lemma delete_select_spec p0 s t c cz l z r :
  rep p0 s t -> t = plug c (T cz l z r) ->
  (exists u, only_child l r u /\ delete_select s (iloc z) = Ok (rootp (sentinel s) u, iloc z)) \/
  (exists c1 cx x u, r = plug c1 (T cx E x u) /\ all_left c1 /\
    delete_select s (iloc z) = Ok (rootp (sentinel s) u, iloc x)).
Proof.
  intros HR ->. pose proof (rep_size _ _ _ HR) as Hsz. pose proof (rep_sent _ _ _ HR) as Hse.
  apply elem_plug in Hse as [Hse _]. apply elem_T in Hse as (_ & Hsl & Hsr).
  unfold delete_select.
  erewrite deref_bind by (eapply (rep_deref _ _ _ c); [exact HR|reflexivity]). cbn [left right node_of].
  destruct l as [|lc ll lx lr].
  { left. exists r. split; [by left|]. cbn [rootp]. by rewrite Z.eqb_refl. }
  cbn [rootp]. rewrite eqb_ne by (apply elem_T in Hsl as [? _]; auto).
  destruct r as [|rc rl rx rr].
  { left. exists (T lc ll lx lr). split; [by right|]. cbn [rootp]. by rewrite Z.eqb_refl. }
  cbn [rootp]. rewrite eqb_ne by (apply elem_T in Hsr as [? _]; auto).
  right. set (r := T rc rl rx rr) in *.
  destruct (min_spec (loop_fuel s) p0 s (FR cz (T lc ll lx lr) z :: c) r) as
    (c1 & cx & x & u & Hm & Hr & Hal); [done|done| |].
  { pose proof (height_size r). unfold loop_fuel. rewrite inorder_plug, !length_app in Hsz.
    simpl in Hsz. rewrite length_app in Hsz. simpl in *. lia. }
  exists c1, cx, x, u. split_and!; [done|done|]. unfold agc_rbtree_min.
  change (iloc rx) with (rootp (sentinel s) r). rewrite Hm, rbind_Ok.
  erewrite deref_bind.
  2:{ eapply (rep_deref _ _ _ (c1 ++ FR cz (T lc ll lx lr) z :: c) cx E x u HR).
      rewrite plug_app. cbn [plug fill]. by rewrite <- Hr. }
  cbn [left right node_of rootp]. by rewrite Z.eqb_refl.
Qed.

(** What deletion leaves in the removed node. *)
Definition cleared (s : rbtree) (a : Z) : Prop :=
  exists n, mem s !! a = Some n /\ key n = 0 /\ left n = NULL /\ right n = NULL /\ parent n = NULL.

Lemma delete_finish p0 s c u a (red : bool) tp :
  tp = rootp (sentinel s) u -> focus p0 s c u ->
  a ∉ locs (plug c u) -> a <> sentinel s -> is_Some (mem s !! a) ->
  (red = true -> valid (plug c u)) ->
  (red = false -> exists b cu n, rbctx c b (S n) /\ rb u cu n) ->
  exists s', (let! s := clear_node s a in
      if red then Ok s else delete_fixup (loop_fuel s) s tp) = Ok s' /\
    holds s' (inorder (plug c u)) /\ unch (a :: locs (plug c u)) s s' /\ cleared s' a.
Proof.
  intros -> HF Ha Has [n Hn] Hred Hblack.
  assert (a <> NULL) as Hanl.
  { intros ->. rewrite (rep_null _ _ _ (focus_rep _ _ _ _ HF)) in Hn. done. }
  erewrite clear_node_spec by done. rewrite rbind_Ok.
  set (v := RbNode 0 NULL NULL NULL (color n) (data n)).
  set (s1 := with_mem (<[a := v]> (mem s)) s).
  assert (focus p0 s1 c u) as HF1 by by apply focus_insert.
  assert (mem s1 !! a = Some v) as Hv by (unfold s1; cbn [mem with_mem]; apply lookup_insert_eq).
  assert (unch (a :: locs (plug c u)) s s1) as U1.
  { split; [|done|done]. intros k [? _]%not_elem_of_cons. unfold s1. cbn [mem with_mem].
    by rewrite lookup_insert_ne. }
  destruct red.
  - exists s1. split_and!; [done| |done|by exists v].
    exists p0, (plug c u). split_and!; [apply HF1|auto|done].
  - destruct (Hblack eq_refl) as (b & cu & m & Hc & Hu).
    change (sentinel s) with (sentinel s1).
    destruct (delete_fixup_spec (loop_fuel s1) p0 s1 c u cu b m) as (s2 & t2 & -> & [HR2 Hi U2] & Hv2);
      try done.
    { pose proof (rep_size _ _ _ (focus_rep _ _ _ _ HF1)). pose proof (length_ctx c u).
      unfold loop_fuel. lia. }
    exists s2. split_and!; [done|by exists p0, t2| |].
    + eapply unch_trans; [exact U1|]. destruct U2 as [Hm ? ?]. split; try done.
      intros k [_ ?]%not_elem_of_cons. by apply Hm.
    + exists v. rewrite (unch_mem _ _ _ U2) by done. done.
Qed.

(** The deleted node is the root and has at most one child. *)
Lemma delete_root_spec p0 s cz l z r u :
  rep p0 s (T cz l z r) -> valid (T cz l z r) -> only_child l r u ->
  exists s', (let! s1 := agc_rbt_black (with_root (rootp (sentinel s) u) s) (rootp (sentinel s) u) in
      clear_node s1 (iloc z)) = Ok s' /\
    holds s' (inorder l ++ inorder r) /\ unch (locs (T cz l z r)) s s' /\ cleared s' (iloc z).
Proof.
  intros HR Hv Hu. pose proof (rep_not_null _ _ _ HR) as Hnl.
  destruct HR as [(Hz & Hl & Hr) _ Hn Hse Hnu (sn & Hsn & Hb)].
  destruct s as [m rs se ins]; cbn [mem sentinel insert root with_root] in *.
  apply nodup_T in Hn as (? & ? & ? & ? & ?). apply elem_T in Hse as (? & ? & ?).
  apply elem_T in Hnl as (? & ? & ?).
  assert (rep (iloc z) (RbTree m (rootp se u) se ins) u /\ iloc z ∉ locs u) as [HRu Hzu].
  { destruct Hu as [[-> ->]|[-> ->]]; (split; [|done]); split; cbn; eauto. }
  assert (exists s1, agc_rbt_black (RbTree m (rootp se u) se ins) (rootp se u) = Ok s1 /\
    moved (iloc z) (RbTree m (rootp se u) se ins) u s1 (blacken u)) as (s1 & E1 & [HR1 Hi U1]).
  { destruct u as [|uc ul ux ur].
    - eexists. split; [unfold agc_rbt_black; by erewrite modify_ok by exact Hsn|].
      replace (set_color 0 sn) with sn by (destruct sn; simpl in *; by subst).
      cbn [mem with_mem with_root root sentinel insert]. rewrite insert_id by done.
      by apply moved_refl.
    - by apply (black_root_spec _ _ _ HRu). }
  unfold with_root. cbn [mem sentinel insert]. rewrite E1, rbind_Ok.
  pose proof (unch_mem _ _ _ U1 (iloc z) Hzu) as Hz1. cbn [mem] in Hz1. rewrite Hz in Hz1.
  erewrite clear_node_spec by exact Hz1. eexists; split; [reflexivity|].
  pose proof (unch_sent _ _ _ U1) as Hs1. cbn [sentinel] in Hs1.
  assert (valid (blacken u)) as Hvu.
  { destruct Hv as [n Hv]. inversion Hv; subst.
    destruct Hu as [[-> ->]|[-> ->]]; match goal with H : rb E _ _ |- _ => inversion H; subst end;
      match goal with H : rb ?t _ _ |- valid (blacken ?t) => destruct H; eexists; eauto with rbdb end. }
  split_and!.
  - exists (iloc z), (blacken u). split_and!; [|done|by rewrite Hi; apply only_child_inorder].
    apply rep_insert; [done| |congruence|congruence]. by rewrite Hi.
  - split; cbn [mem sentinel insert with_mem]; [|done|by rewrite (unch_insert _ _ _ U1)].
    intros k (? & ? & ?)%elem_T. rewrite lookup_insert_ne by done.
    rewrite (unch_mem _ _ _ U1); [done|]. destruct Hu as [[_ ->]|[_ ->]]; done.
  - eexists. split; [cbn [mem with_mem]; by rewrite lookup_insert_eq|done].
Qed.

(** The common end of the two other cases. *)
Lemma delete_after_unlink p0 s t s1 c u z (red : bool) :
  rep p0 s t -> focus p0 s1 c u -> unch (sentinel s :: locs t) s s1 -> is_Some (mem s1 !! iloc z) ->
  locs t ≡ₚ iloc z :: locs (plug c u) ->
  (red = true -> valid (plug c u)) ->
  (red = false -> exists b cu n, rbctx c b (S n) /\ rb u cu n) ->
  exists s', (let! s2 := clear_node s1 (iloc z) in
      if red then Ok s2 else delete_fixup (loop_fuel s2) s2 (rootp (sentinel s) u)) = Ok s' /\
    holds s' (inorder (plug c u)) /\ unch (sentinel s :: locs t) s s' /\ cleared s' (iloc z).
Proof.
  intros HR HF U1 Hz Hp Hred Hblack.
  pose proof (rep_nodup _ _ _ HR) as Hn. pose proof (rep_sent _ _ _ HR) as Hse.
  rewrite Hp in Hn, Hse. apply NoDup_cons in Hn as [Hn _]. apply not_elem_of_cons in Hse as [Hse _].
  pose proof (unch_sent _ _ _ U1) as Hs1.
  destruct (delete_finish p0 s1 c u (iloc z) red (rootp (sentinel s) u))
    as (s' & -> & Hh & U2 & Hcl); try done; [by rewrite Hs1|rewrite Hs1; by apply not_eq_sym|].
  exists s'. split_and!; try done. eapply unch_trans; [exact U1|].
  destruct U2 as [Hm ? ?]. split; try done. intros k [_ Hk]%not_elem_of_cons.
  apply Hm. by rewrite <- Hp.
Qed.

Lemma node_red se p c l x r : agc_rbt_is_red (node_of se p c l x r) = c.
Proof. apply b2z_red. Qed.

Lemma delete_spec s L1 z L2 :
  holds s (L1 ++ z :: L2) ->
  exists s', agc_rbtree_delete s (iloc z) = Ok s' /\ holds s' (L1 ++ L2) /\
    unch (sentinel s :: (iloc <$> L1 ++ z :: L2)) s s' /\ cleared s' (iloc z).
Proof.
  intros (p0 & t & HR & Hv & Ht). rewrite <- Ht.
  destruct (tree_zip _ _ _ _ Ht) as (c & cz & l & r & -> & -> & ->). clear Ht.
  pose proof (rep_nodup _ _ _ HR) as Hn. pose proof (rep_sent _ _ _ HR) as Hse.
  unfold agc_rbtree_delete.
  destruct (delete_select_spec _ _ _ _ _ _ _ _ HR eq_refl)
    as [(u & Hu & ->)|(c1 & cx & x & u & -> & Hal & ->)]; rewrite rbind_Ok.
  - rewrite (rep_is_root _ _ _ _ _ _ _ _ HR eq_refl). destruct c as [|f c].
    + destruct (delete_root_spec _ _ _ _ _ _ _ HR Hv Hu) as (s' & -> & Hh & U & Hcl).
      exists s'. simpl before; simpl after. rewrite app_nil_r. split_and!; try done.
      destruct U as [Hm ? ?]. split; try done. intros k [_ ?]%not_elem_of_cons. by apply Hm.
    + erewrite deref_bind by (eapply (rep_deref _ _ _ (f :: c)); [exact HR|reflexivity]).
      destruct (unlink_self_spec _ _ _ f c cz l z r u HR eq_refl Hu) as (s1 & -> & HF & U1 & Hz1).
      rewrite rbind_Ok.
      rewrite node_red.
      assert (before (f :: c) ++ inorder l ++ inorder r ++ after (f :: c) =
        inorder (plug (f :: c) u)) as Hio.
      { rewrite (inorder_plug (f :: c)), (only_child_inorder _ _ _ Hu). by rewrite <- app_assoc. }
      rewrite <- app_assoc, Hio.
      eapply delete_after_unlink; try done.
      * rewrite <- Hio, (inorder_plug (f :: c)). cbn [inorder]. rewrite ?fmap_app, ?fmap_cons, ?fmap_app.
        solve_Permutation.
      * intros ->. by eapply unlink_red.
      * intros ->. by eapply unlink_black.
  - assert (plug c (T cz l z (plug c1 (T cx E x u))) = plug (c1 ++ FR cz l z :: c) (T cx E x u))
      as Hplug by by rewrite plug_app.
    rewrite (rep_is_root _ _ _ _ _ _ _ _ HR Hplug).
    assert (match c1 ++ FR cz l z :: c with [] => true | _ => false end = false) as ->
      by by destruct c1.
    erewrite deref_bind by (eapply rep_deref; [exact HR|exact Hplug]).
    destruct (unlink_min_spec _ _ _ c1 c cz cx l z x u HR Hplug) as (s1 & -> & HF & U1 & Hz1).
    rewrite rbind_Ok, node_red.
    assert ((before c ++ inorder l) ++ inorder (plug c1 (T cx E x u)) ++ after c =
      inorder (plug (c1 ++ FR cz l x :: c) u)) as Hio.
    { rewrite !inorder_plug, before_app, after_app. simpl. unfold all_left in Hal. rewrite Hal.
      simpl. rewrite app_nil_r, <- !app_assoc. by simpl. }
    rewrite Hio.
    eapply delete_after_unlink; try done.
    + rewrite Hplug, locs_two, locs_plug, outside_app, outside_cons. cbn [fitem fsib].
      solve_Permutation.
    + intros ->. eapply valid_replace, unlink_red; [by rewrite <- Hplug|by left].
    + intros ->. eapply unlink_black; [|by left]. eapply valid_replace. by rewrite <- Hplug.
Qed.
