(* ===== verification/OrderedTree.v ===== *)
(** * What the red-black tree promises to its clients

    [OrderedTree holds] states the tree operations in terms of the list of
    items a tree holds; the linked tree of [RbTree] is its instance.  Clients
    (the timers) are verified against the class only. *)

From stdpp Require Import base gmap list fin_maps sorting.
From Stdlib Require Import ZArith Lia.
From S2P Require Import Prelude RbTree RbTreeSpec RbTreeProof RbTreeInsert RbTreeDelete RbTreeRemove.

Class OrderedTree (holds : rbtree -> list item -> Prop) := {
  (** An initialised tree is empty. *)
  ot_init m se i n :
    m !! NULL = None -> m !! se = Some n ->
    exists s, agc_rbtree_init m se i = Ok s /\ holds s [] /\
      insert s = i /\ sentinel s = se /\ (forall k, k <> se -> mem s !! k = m !! k);
  (** The root is the sentinel exactly when nothing is held. *)
  ot_empty s L : holds s L -> (root s =? sentinel s) = match L with [] => true | _ => false end;
  ot_root s L : holds s L -> L <> [] -> root s ∈ iloc <$> L;
  (** Every item is a live node that is not the sentinel, at its own address. *)
  ot_node s L x : holds s L -> x ∈ L ->
    exists n, mem s !! iloc x = Some n /\ key n = ikey x /\ data n = idata x;
  ot_nodup s L : holds s L -> NoDup (iloc <$> L);
  ot_sentinel s L : holds s L -> sentinel s ∉ iloc <$> L /\ mem s !! NULL = None /\
    is_Some (mem s !! sentinel s);
  ot_min s x L : holds s (x :: L) -> agc_rbtree_min s (root s) (sentinel s) = Ok (iloc x);
  ot_next s L1 x L2 : holds s (L1 ++ x :: L2) ->
    agc_rbtree_next s (iloc x) = Ok (match L2 with [] => NULL | y :: _ => iloc y end);
  ot_insert rank s L a nd :
    holds s L -> ranked rank L ->
    mem s !! a = Some nd -> a ∉ iloc <$> L -> a <> sentinel s ->
    Forall (fun y => insert_lt (insert s) (key nd) (ikey y) = (rank (key nd) <? rank (ikey y))) L ->
    exists s', agc_rbtree_insert s a = Ok s' /\
      holds s' (insert_ranked rank (Item a (key nd) (data nd)) L) /\
      unch (a :: (iloc <$> L)) s s';
  ot_delete s L1 z L2 :
    holds s (L1 ++ z :: L2) ->
    exists s', agc_rbtree_delete s (iloc z) = Ok s' /\ holds s' (L1 ++ L2) /\
      unch (sentinel s :: (iloc <$> L1 ++ z :: L2)) s s' /\ cleared s' (iloc z);
  (** Cells that are not part of the tree may be written freely. *)
  ot_frame s L a v :
    holds s L -> a ∉ iloc <$> L -> a <> sentinel s -> a <> NULL ->
    holds (with_mem (<[a := v]> (mem s)) s) L }.

Lemma holds_min s x L : holds s (x :: L) -> agc_rbtree_min s (root s) (sentinel s) = Ok (iloc x).
Proof.
  intros (p0 & t & HR & _ & Ht). pose proof (rep_size _ _ _ HR).
  destruct (min_spec (loop_fuel s) p0 s [] t) as (c1 & cx & y & r & Hm & Hu & Hl).
  - done.
  - by intros ->.
  - pose proof (height_size t). unfold loop_fuel. lia.
  - unfold agc_rbtree_min. rewrite (rep_root _ _ _ HR), Hm.
    rewrite Hu, inorder_plug in Ht. unfold all_left in Hl. rewrite Hl in Ht.
    simpl in Ht. by simplify_eq.
Qed.

#[export] Instance rbtree_ordered : OrderedTree holds.
Proof.
  split.
  - intros m se i n Hnu Hse. eexists. split.
    { unfold agc_rbtree_init, agc_rbt_black. by erewrite modify_ok by done. }
    assert (se <> NULL) by congruence. cbn [mem with_mem insert sentinel]. split_and!; [|done..|].
    + exists NULL, E. split_and!; [|by exists 0%nat; constructor|done].
      split; cbn [mem root sentinel sub rootp inorder with_mem]; try done.
      * constructor.
      * apply not_elem_of_nil.
      * by rewrite lookup_insert_ne.
      * eexists. by rewrite lookup_insert_eq.
    + intros k Hk. by rewrite lookup_insert_ne.
  - intros s L (p0 & t & HR & _ & <-). rewrite (rep_root _ _ _ HR).
    pose proof (rep_sent _ _ _ HR) as Hse. destruct t as [|c l x r]; simpl rootp.
    + apply Z.eqb_refl.
    + apply elem_T in Hse as [? _]. rewrite eqb_ne by auto. simpl. by destruct (inorder l).
  - intros s L (p0 & t & HR & _ & <-) HL. rewrite (rep_root _ _ _ HR).
    destruct t as [|c l x r]; [done|]. simpl. rewrite fmap_app, elem_of_app. right. left.
  - intros s L x (p0 & t & HR & _ & <-) (L1 & L2 & Ht)%list_elem_of_split.
    destruct (tree_zip _ _ _ _ Ht) as (c & cx & l & r & -> & _).
    eexists. split_and!; [by eapply rep_deref|done|done].
  - intros s L (p0 & t & HR & _ & <-). apply (rep_nodup _ _ _ HR).
  - intros s L (p0 & t & HR & _ & <-).
    destruct HR as [_ _ _ ? ? (sn & ? & _)]. split_and!; [done|done|by eexists].
  - intros. by eapply holds_min.
  - apply next_spec.
  - apply insert_spec.
  - apply delete_spec.
  - intros s L a v (p0 & t & HR & ? & <-) ???. exists p0, t. split_and!; [|done|done].
    by apply rep_insert.
Qed.

(** ** Timer keys

    Deadlines are 64-bit counters compared by the sign of their difference.
    Seen from a reference instant [base], keys less than [2^63] ahead of it
    are ordered by their distance from it, also across a wrap-around. *)

Definition timer_rank (base k : Z) : Z := wrap 64 (k - base).

Lemma sext_small z : - 2 ^ 63 <= z < 2 ^ 63 -> sext 64 z = z.
Proof.
  intros H. unfold sext, wrap.
  destruct (Z_lt_ge_dec z 0).
  - replace (z mod 2 ^ 64) with (z + 2 ^ 64).
    + destruct (z + 2 ^ 64 <? 2 ^ (64 - 1)) eqn:E; lia.
    + symmetry. rewrite <- (Z_mod_plus_full z 1 (2 ^ 64)). apply Z.mod_small. lia.
  - rewrite Z.mod_small by lia. destruct (z <? 2 ^ (64 - 1)) eqn:E; lia.
Qed.

Lemma sext_wrap z z' : z mod 2 ^ 64 = z' mod 2 ^ 64 -> sext 64 z = sext 64 z'.
Proof. unfold sext, wrap. by intros ->. Qed.

Lemma key_diff_rank base a b :
  timer_rank base a < 2 ^ 63 -> timer_rank base b < 2 ^ 63 ->
  key_diff a b = timer_rank base a - timer_rank base b.
Proof.
  unfold timer_rank, wrap, key_diff. intros Ha Hb.
  pose proof (Z.mod_pos_bound (a - base) (2 ^ 64) ltac:(lia)).
  pose proof (Z.mod_pos_bound (b - base) (2 ^ 64) ltac:(lia)).
  set (u := (a - base) mod 2 ^ 64) in *. set (v := (b - base) mod 2 ^ 64) in *.
  assert (sext 64 (a - b) = sext 64 (u - v)) as ->.
  { apply sext_wrap. unfold u, v. rewrite <- Zminus_mod. f_equal. lia. }
  apply sext_small. lia.
Qed.

Lemma timer_lt_rank base a b :
  timer_rank base a < 2 ^ 63 -> timer_rank base b < 2 ^ 63 ->
  timer_lt a b = (timer_rank base a <? timer_rank base b).
Proof.
  intros Ha Hb. unfold timer_lt. rewrite (key_diff_rank base) by done.
  destruct (timer_rank base a - timer_rank base b <? 0) eqn:E1,
    (timer_rank base a <? timer_rank base b) eqn:E2; lia.
Qed.
