(* ===== verification/RbTreeMain.v ===== *)
(** * The red-black tree: theorems

    The correctness of the operations on whole trees, of sequences of
    operations from an initialised tree, and the balance they maintain. *)

From stdpp Require Import base gmap list fin_maps sorting.
From Stdlib Require Import ZArith Lia.
From S2P Require Import Prelude RbTree RbTreeSpec RbTreeProof RbTreeInsert RbTreeDelete RbTreeRemove OrderedTree.

(** ** A concrete tree

    Three nodes at addresses 10, 20 and 30 with keys 1, 2 and 3, a spare node
    at 40 with key 2, and the sentinel at 99. *)

Definition demo_items : list item := [Item 10 1 0; Item 20 2 0; Item 30 3 0].
Definition demo_tree : tree :=
  T false (T true E (Item 10 1 0) E) (Item 20 2 0) (T true E (Item 30 3 0) E).
Definition demo_heap : gmap Z rbnode :=
  list_to_map [(10, RbNode 1 99 99 20 1 0); (20, RbNode 2 10 30 0 0 0);
    (30, RbNode 3 99 99 20 1 0); (40, RbNode 2 0 0 0 0 7); (99, RbNode 0 0 0 0 0 0)].
Definition demo (i : insert_func) : rbtree := RbTree demo_heap 20 99 i.

Lemma demo_holds i : holds (demo i) demo_items.
Proof.
  exists 0, demo_tree. split_and!; [|exists 1%nat; repeat econstructor|done].
  split; [unfold demo_tree; cbn [sub]; split_and!; reflexivity|reflexivity| | |reflexivity|by eexists].
  - apply (bool_decide_unpack _). by vm_compute.
  - apply (bool_decide_unpack _). by vm_compute.
Qed.

Lemma demo_ranked : ranked id demo_items.
Proof. repeat constructor; simpl; lia. Qed.

(** ** Sequences of operations *)

(** A client of the tree inserts and removes nodes, identified by address; the
    nodes' keys are set before insertion. *)
Inductive op := OpInsert (a k : Z) | OpDelete (a : Z).

Definition exec (s : rbtree) (o : op) : result rbtree :=
  match o with
  | OpInsert a k => let! s := modify s a (set_key k) in agc_rbtree_insert s a
  | OpDelete a => agc_rbtree_delete s a
  end.
Fixpoint exec_all (s : rbtree) (os : list op) : result rbtree :=
  match os with
  | [] => Ok s
  | o :: os' => let! s := exec s o in exec_all s os'
  end.

(** The specification: a list of (address, key) pairs in key order. *)
Fixpoint spec_insert (a k : Z) (L : list (Z * Z)) : list (Z * Z) :=
  match L with
  | [] => [(a, k)]
  | (b, k') :: L' => if k <? k' then (a, k) :: L else (b, k') :: spec_insert a k L'
  end.
Definition spec_exec (L : list (Z * Z)) (o : op) : option (list (Z * Z)) :=
  match o with
  | OpInsert a k => if decide (a ∈ L.*1) then None else Some (spec_insert a k L)
  | OpDelete a => if decide (a ∈ L.*1) then Some (filter (fun p => p.1 <> a) L) else None
  end.
Fixpoint spec_all (L : list (Z * Z)) (os : list op) : option (list (Z * Z)) :=
  match os with
  | [] => Some L
  | o :: os' => L' ← spec_exec L o; spec_all L' os'
  end.

Definition pairs (L : list item) : list (Z * Z) := (fun x => (iloc x, ikey x)) <$> L.

Lemma pairs_fst L : (pairs L).*1 = iloc <$> L.
Proof. unfold pairs. by rewrite <- list_fmap_compose. Qed.

Lemma pairs_insert x L : pairs (insert_ranked id x L) = spec_insert (iloc x) (ikey x) (pairs L).
Proof.
  induction L as [|y L IH]; simpl; [done|]. unfold id. case_match; simpl; [done|].
  unfold pairs in *. by rewrite <- IH.
Qed.

Lemma pairs_delete L1 x L2 :
  NoDup (iloc <$> L1 ++ x :: L2) ->
  filter (fun p => p.1 <> iloc x) (pairs (L1 ++ x :: L2)) = pairs (L1 ++ L2).
Proof.
  unfold pairs. rewrite !fmap_app, !fmap_cons. intros (_ & H1 & [H2 _]%NoDup_cons)%NoDup_app.
  rewrite filter_app, filter_cons_False by (simpl; congruence).
  f_equal; apply list_filter_all, Forall_fmap, Forall_forall; simpl; intros y Hy He.
  - apply (H1 (iloc x)); [|left]. rewrite <- He. by apply list_elem_of_fmap_2.
  - apply H2. rewrite <- He. by apply list_elem_of_fmap_2.
Qed.

(** The simulation relation: the tree holds the specification's list, and the
    addresses of [A] are nodes the client owns. *)
Record simulates (A : list Z) (s : rbtree) (P : list (Z * Z)) : Prop := Simulates {
  sim_holds : exists L, holds s L /\ pairs L = P /\ ranked id L;
  sim_insert : insert s = InsertValue;
  sim_nodes : forall a, a ∈ A -> is_Some (mem s !! a) /\ a <> sentinel s }.

Lemma unch_nodes (B A : list Z) s s' L :
  (forall a, a ∈ A -> is_Some (mem s !! a) /\ a <> sentinel s) ->
  unch B s s' -> (forall a, a ∈ A -> a ∈ B -> is_Some (mem s' !! a)) -> holds s' L ->
  forall a, a ∈ A -> is_Some (mem s' !! a) /\ a <> sentinel s'.
Proof.
  intros HA [Um Us _] Hin HL a Ha. rewrite Us. destruct (HA a Ha) as [? ?]. split; [|done].
  destruct (decide (a ∈ B)); [by apply Hin|]. by rewrite Um.
Qed.

Lemma exec_simulates A s P o P' :
  simulates A s P -> spec_exec P o = Some P' ->
  (forall a k, o = OpInsert a k -> a ∈ A) ->
  exists s', exec s o = Ok s' /\ simulates A s' P'.
Proof.
  intros [(L & HL & <- & HR) Hi HA] Ho Hown. destruct o as [a k|a]; simpl in Ho; rewrite pairs_fst in Ho.
  - destruct (decide _) as [|Hnot]; simplify_eq. cbn [exec].
    destruct (HA a) as [[n Hn] Hse]; [by eapply Hown|].
    destruct (ot_sentinel _ _ HL) as (_ & Hnull & _).
    erewrite modify_bind by exact Hn. set (s1 := with_mem _ _).
    assert (holds s1 L) as HL1 by (apply ot_frame; [done|done|done|congruence]).
    assert (mem s1 !! a = Some (set_key k n)) as Hn1 by apply lookup_insert_eq.
    destruct (ot_insert id s1 L a (set_key k n)) as (s' & -> & HL' & Hun); try done.
    { change (insert s1) with (insert s). rewrite Hi. by apply Forall_true. }
    exists s'. split; [done|]. split.
    + eexists. split_and!; [exact HL'|apply pairs_insert|by apply insert_ranked_sorted].
    + by rewrite (unch_insert _ _ _ Hun).
    + eapply unch_nodes; [|exact Hun| |exact HL'].
      * intros b Hb. destruct (HA b Hb) as [[n' Hn'] Hs]. split; [|done]. unfold s1; cbn.
        destruct (decide (a = b)) as [->|]; [rewrite lookup_insert_eq|rewrite lookup_insert_ne by done];
          by eexists.
      * intros b _ Hb.
        assert (b ∈ iloc <$> insert_ranked id (Item a k (data n)) L) as (y & -> & Hy)%list_elem_of_fmap
          by (by rewrite insert_ranked_perm).
        destruct (ot_node _ _ _ HL' Hy) as (? & -> & _). by eexists.
  - destruct (decide _) as [Hin|]; simplify_eq. cbn [exec].
    apply list_elem_of_fmap in Hin as (x & -> & (L1 & L2 & ->)%list_elem_of_split).
    pose proof (ot_nodup _ _ HL) as Hnd.
    destruct (ot_delete _ _ _ _ HL) as (s' & -> & HL' & Hun & Hcl).
    exists s'. split; [done|]. split.
    + exists (L1 ++ L2). split_and!; [done|by rewrite pairs_delete|by eapply ranked_delete].
    + by rewrite (unch_insert _ _ _ Hun).
    + eapply unch_nodes; [exact HA|exact Hun| |exact HL'].
      intros b Hb [->|Hb']%elem_of_cons; [by apply HA in Hb as [_ ?]|].
      destruct (decide (b = iloc x)) as [->|Hne]; [destruct Hcl as (? & -> & _); by eexists|].
      assert (b ∈ iloc <$> L1 ++ L2) as (y & -> & Hy)%list_elem_of_fmap.
      { rewrite fmap_app, fmap_cons in Hb'. rewrite fmap_app. set_solver. }
      destruct (ot_node _ _ _ HL' Hy) as (? & -> & _). by eexists.
Qed.

(** ** Walks *)

(** All nodes from the minimum on, by [agc_rbtree_next]. *)
Fixpoint walk_from (fuel : nat) (s : rbtree) (node : Z) : result (list Z) :=
  match fuel with
  | O => OutOfFuel
  | S fuel' =>
      if node =? NULL then Ok []
      else
        let! next := agc_rbtree_next s node in
        let! rest := walk_from fuel' s next in
        Ok (node :: rest)
  end.
Definition walk (s : rbtree) : result (list Z) :=
  if root s =? sentinel s then Ok []
  else
    let! first := agc_rbtree_min s (root s) (sentinel s) in
    walk_from (S (loop_fuel s)) s first.

Lemma walk_from_spec fuel s L1 x L2 :
  holds s (L1 ++ x :: L2) -> (S (length L2) < fuel)%nat ->
  walk_from fuel s (iloc x) = Ok (iloc <$> x :: L2).
Proof.
  revert L1 x L2; induction fuel as [|fuel IH]; intros L1 x L2 HL Hf; [lia|]. cbn [walk_from].
  destruct (ot_sentinel _ _ HL) as (_ & Hnull & _).
  destruct (ot_node _ _ x HL) as (n & Hn & _); [rewrite elem_of_app; right; left|].
  rewrite eqb_ne by congruence. rewrite (ot_next _ _ _ _ HL), rbind_Ok.
  destruct L2 as [|y L2].
  - destruct fuel; [simpl in Hf; lia|]. cbn [walk_from]. by rewrite Z.eqb_refl.
  - rewrite (IH (L1 ++ [x]) y L2); [done| |simpl in Hf; lia]. by rewrite <- app_assoc.
Qed.

(** The pointer reached from the root by a sequence of left ([true]) and right
    ([false]) steps that stops at the sentinel. *)
Fixpoint descend (s : rbtree) (p : Z) (dirs : list bool) : result Z :=
  match dirs with
  | [] => Ok p
  | d :: dirs' =>
      if p =? sentinel s then Ok p
      else let! n := deref s p in descend s (if d then left n else right n) dirs'
  end.

Lemma descend_height p0 s c u dirs p :
  rep p0 s (plug c u) -> descend s (rootp (sentinel s) u) dirs = Ok p -> p <> sentinel s ->
  (S (length dirs) <= height u)%nat.
Proof.
  revert c u; induction dirs as [|d dirs IH]; intros c u HR Hd Hp; simpl in Hd.
  - simplify_eq. destruct u; simpl in *; [done|lia].
  - destruct u as [|cx l x r]; simpl in Hd; [rewrite Z.eqb_refl in Hd; congruence|].
    pose proof (rep_sent _ _ _ HR) as Hse. apply elem_plug in Hse as [Hse _].
    apply elem_T in Hse as [? _]. rewrite eqb_ne in Hd by auto.
    erewrite deref_bind in Hd by (eapply rep_deref; [exact HR|reflexivity]).
    destruct d; cbn [left right node_of] in Hd; simpl; simpl length.
    + assert (S (length dirs) <= height l)%nat; [|lia]. by eapply (IH (FL cx x r :: c)).
    + assert (S (length dirs) <= height r)%nat; [|lia]. by eapply (IH (FR cx l x :: c)).
Qed.

(** ** Theorems *)

(** C1: [agc_rbtree_insert] on a valid red-black tree that does not hold the
    node returns (no invalid access, and the descent and re-balancing loops
    end within their fuel) with a valid red-black tree whose nodes are the old
    ones in the old order with the new one after every node of the same or a
    smaller rank; it writes only nodes of the tree and the new node.  The rank
    is any order that agrees with the tree's insertion function. *)
Theorem agc_rbtree_insert_correct rank s L a nd :
  holds s L -> ranked rank L ->
  mem s !! a = Some nd -> a ∉ iloc <$> L -> a <> sentinel s ->
  Forall (fun y => insert_lt (insert s) (key nd) (ikey y) = (rank (key nd) <? rank (ikey y))) L ->
  exists s', agc_rbtree_insert s a = Ok s' /\
    holds s' (insert_ranked rank (Item a (key nd) (data nd)) L) /\
    ranked rank (insert_ranked rank (Item a (key nd) (data nd)) L) /\
    unch (a :: (iloc <$> L)) s s'.
Proof.
  intros HL HR Ha Hn Hs Hlt. destruct (ot_insert rank s L a nd) as (s' & ? & ? & ?); try done.
  exists s'. auto using insert_ranked_sorted.
Qed.

Lemma agc_rbtree_insert_correct_witness :
  exists s', agc_rbtree_insert (demo InsertValue) 40 = Ok s' /\
    holds s' [Item 10 1 0; Item 20 2 0; Item 40 2 7; Item 30 3 0].
Proof.
  destruct (agc_rbtree_insert_correct id (demo InsertValue) demo_items 40 (RbNode 2 0 0 0 0 7)
    (demo_holds _) demo_ranked) as (s' & ? & ? & _).
  - reflexivity.
  - apply (bool_decide_unpack _). vm_compute. exact I.
  - vm_compute. discriminate.
  - repeat constructor.
  - exists s'. split; assumption.
Defined.

(** C2: [agc_rbtree_delete] of a node of a valid red-black tree returns with a
    valid red-black tree that holds the other nodes in the same order, writes
    only nodes of the tree and the sentinel, and leaves the removed node with
    null links and key 0. *)
Theorem agc_rbtree_delete_correct s L1 z L2 :
  holds s (L1 ++ z :: L2) ->
  exists s', agc_rbtree_delete s (iloc z) = Ok s' /\ holds s' (L1 ++ L2) /\
    unch (sentinel s :: (iloc <$> L1 ++ z :: L2)) s s' /\ cleared s' (iloc z).
Proof. apply ot_delete. Qed.

Lemma agc_rbtree_delete_correct_witness :
  exists s', agc_rbtree_delete (demo InsertValue) 20 = Ok s' /\ holds s' [Item 10 1 0; Item 30 3 0].
Proof.
  destruct (agc_rbtree_delete_correct (demo InsertValue) [Item 10 1 0] (Item 20 2 0) [Item 30 3 0]
    (demo_holds _)) as (s' & ? & ? & _).
  exists s'. split; assumption.
Defined.

(** Starting at [agc_rbtree_min] and following [agc_rbtree_next] until it
    returns NULL visits every node exactly once, in key order. *)
Theorem agc_rbtree_walk_correct s L : holds s L -> walk s = Ok (iloc <$> L).
Proof.
  intros HL. unfold walk. rewrite (ot_empty _ _ HL). destruct L as [|x L]; [done|].
  rewrite (ot_min _ _ _ HL), rbind_Ok. apply (walk_from_spec _ _ []); [done|].
  pose proof HL as (p0 & t & HR & _ & Ht). pose proof (rep_size _ _ _ HR) as Hsz.
  rewrite Ht in Hsz. simpl in Hsz. unfold loop_fuel. lia.
Qed.

Lemma agc_rbtree_walk_correct_witness : walk (demo InsertValue) = Ok [10; 20; 30].
Proof. exact (agc_rbtree_walk_correct (demo InsertValue) demo_items (demo_holds _)). Defined.

(** C3: Refinement.  Any sequence of insertions of nodes the client owns and of
    deletions that the ordered-list specification accepts (no node inserted
    twice, none deleted that is not there) runs on the tree without a fault
    from an initialised tree, and ends in a tree that holds exactly the
    specification's list. *)
Theorem agc_rbtree_refines m se n os P (A : list Z) :
  m !! NULL = None -> m !! se = Some n ->
  (forall a, a ∈ A -> is_Some (m !! a) /\ a <> se) ->
  (forall a k, OpInsert a k ∈ os -> a ∈ A) ->
  spec_all [] os = Some P ->
  exists s s' L, agc_rbtree_init m se InsertValue = Ok s /\ exec_all s os = Ok s' /\
    holds s' L /\ pairs L = P.
Proof.
  intros Hnull Hse HA Hown HP.
  destruct (ot_init m se InsertValue n Hnull Hse) as (s & Hinit & HL & Hi & Hs & Hm).
  assert (simulates A s []) as Hsim.
  { split; [|done|].
    - exists []. split_and!; [done|done|constructor].
    - intros a Ha. destruct (HA a Ha). rewrite Hs, Hm by done. done. }
  assert (exists s' L, exec_all s os = Ok s' /\ holds s' L /\ pairs L = P) as (s' & L & ? & ? & ?);
    [|by exists s, s', L].
  clear Hinit HL Hi Hs Hm Hnull Hse HA. revert s Hsim Hown HP. generalize (@nil (Z * Z)).
  induction os as [|o os IH]; intros P0 s Hsim Hown HP; simpl in HP.
  - simplify_eq. destruct Hsim as [(L & ? & ? & _) _ _]. by exists s, L.
  - apply bind_Some in HP as (P1 & H1 & HP). cbn [exec_all].
    destruct (exec_simulates A s P0 o P1 Hsim H1) as (s1 & -> & Hsim1).
    { intros a k ->. apply (Hown a k). left. }
    rewrite rbind_Ok. apply (IH P1 s1 Hsim1); [|done]. intros a k Hin. apply (Hown a k). by right.
Qed.

Lemma agc_rbtree_refines_witness :
  let os := [OpInsert 10 5; OpInsert 20 3; OpInsert 30 5; OpDelete 10; OpInsert 40 4] in
  exists s s' L, agc_rbtree_init demo_heap 99 InsertValue = Ok s /\ exec_all s os = Ok s' /\
    holds s' L /\ pairs L = [(20, 3); (40, 4); (30, 5)].
Proof.
  intros os.
  refine (agc_rbtree_refines demo_heap 99 (RbNode 0 0 0 0 0 0) os _ [10; 20; 30; 40] _ _ _ _ _).
  - reflexivity.
  - reflexivity.
  - intros a Ha. repeat (apply elem_of_cons in Ha as [->|Ha]; [split; [eexists; reflexivity|discriminate]|]).
    apply elem_of_nil in Ha. destruct Ha.
  - intros a k Ha. unfold os in Ha.
    repeat (apply elem_of_cons in Ha as [Ha|Ha]; [try discriminate Ha; injection Ha as -> ->;
      apply (bool_decide_unpack _); vm_compute; exact I|]).
    apply elem_of_nil in Ha. destruct Ha.
  - vm_compute. reflexivity.
Defined.

(** Balance.  In a tree of [n] nodes a downward path that has not reached
    the sentinel after [d] steps satisfies [2^(d+1) <= (n+1)^2]: every search
    takes at most [2 log2 (n+1)] steps. *)
Theorem agc_rbtree_balanced s L dirs p :
  holds s L -> descend s (root s) dirs = Ok p -> p <> sentinel s ->
  (2 ^ S (length dirs) <= S (length L) * S (length L))%nat.
Proof.
  intros (p0 & t & HR & [n Hv] & <-) Hd Hp. rewrite (rep_root _ _ _ HR) in Hd.
  pose proof (descend_height p0 s [] t dirs p HR Hd Hp).
  etransitivity; [|exact (rb_balanced _ _ Hv)]. by apply Nat.pow_le_mono_r.
Qed.

Lemma agc_rbtree_balanced_witness :
  descend (demo InsertValue) 20 [true] = Ok 10 /\ (2 ^ 2 <= 4 * 4)%nat.
Proof.
  split; [reflexivity|].
  apply (agc_rbtree_balanced (demo InsertValue) demo_items [true] 10 (demo_holds _)).
  - reflexivity.
  - discriminate.
Defined.
