(* ===== verification/Timer.v ===== *)
(** * Timers

    [src/src/agc_timer.c]: a queue of events ordered by deadline, on the
    red-black tree with wrapping 64-bit keys.  An event is known by its
    address; its [timer] member lies [TIMER_OFFSET] bytes into it, so that the
    dispatcher gets back from a tree node to its event by subtraction.  The
    dispatcher's iteration is cut where the mutex is released, so that another
    thread's operation may be put between two of its pieces. *)

From stdpp Require Import base gmap list fin_maps sorting.
From Stdlib Require Import ZArith Lia.
From S2P Require Import Prelude RbTree RbTreeSpec RbTreeProof RbTreeInsert RbTreeDelete RbTreeRemove OrderedTree.

(** The statics of [agc_timer.c], and the [timer_set] field of every event. *)
Record timers := Timers {
  agc_timer_rbtree : rbtree;
  timer_set : gmap Z Z;
  current_time : Z;
  SYSTEM_RUNNING : Z;
  SYSTEM_SHUTDOWN : Z }.

Definition with_tree t st :=
  Timers t (timer_set st) (current_time st) (SYSTEM_RUNNING st) (SYSTEM_SHUTDOWN st).
Definition with_timer_set m st :=
  Timers (agc_timer_rbtree st) m (current_time st) (SYSTEM_RUNNING st) (SYSTEM_SHUTDOWN st).
Definition with_current_time t st :=
  Timers (agc_timer_rbtree st) (timer_set st) t (SYSTEM_RUNNING st) (SYSTEM_SHUTDOWN st).
Definition with_running r sh st :=
  Timers (agc_timer_rbtree st) (timer_set st) (current_time st) r sh.

(** [ev->timer_set], read and written. *)
Definition get_timer_set (st : timers) (ev : Z) : result Z :=
  match timer_set st !! ev with Some f => Ok f | None => Fault BadPointer end.
Definition put_timer_set (st : timers) (ev v : Z) : result timers :=
  let! _ := get_timer_set st ev in Ok (with_timer_set (<[ev := v]> (timer_set st)) st).

(** How an iteration of the dispatcher ends. *)
Inductive tick :=
  | Stopped          (* [break] *)
  | Yielded          (* [agc_yield(10000); continue;] *)
  | Fired (ev : Z).  (* [agc_event_fire(&ev)] *)

#[global] Instance tick_eq_dec : EqDecision tick.
Proof. solve_decision. Defined.

Section timer.
Context (TIMER_OFFSET : Z).

(** [&ev->timer], and [(char * ) node - offsetof(agc_event_t, timer)]. *)
Definition timer_node (ev : Z) : Z := ev + TIMER_OFFSET.
Definition timer_event (node : Z) : Z := node - TIMER_OFFSET.

(** [agc_timer_init]: the tree part; the dispatch thread then sets the flags. *)
Definition agc_timer_init (m : gmap Z rbnode) (timer_sentinel : Z) (events : gmap Z Z)
    : result timers :=
  let! t := agc_rbtree_init m timer_sentinel InsertTimerValue in
  Ok (Timers t events 0 1 0).

Definition agc_timer_del_timer (st : timers) (ev : Z) : result timers :=
  let! t := agc_rbtree_delete (agc_timer_rbtree st) (timer_node ev) in
  Ok (with_tree t st).

(** [key = current_ms + timer], in 64 bits. *)
Definition timer_key (now timer : Z) : Z := wrap 64 (Z.quot now 1000 + timer).

Definition agc_timer_add_timer (now : Z) (st : timers) (ev timer : Z) : result timers :=
  let st := with_current_time now st in
  let! f := get_timer_set st ev in
  let! st := (if f =? 0 then Ok st else agc_timer_del_timer st ev) in
  let! t := modify (agc_timer_rbtree st) (timer_node ev) (set_key (timer_key now timer)) in
  let! t := agc_rbtree_insert t (timer_node ev) in
  put_timer_set (with_tree t st) ev 1.

Definition agc_timer_curtime (now : Z) (st : timers) : timers * Z :=
  if current_time st =? 0 then (with_current_time now st, now) else (st, current_time st).

(** ** The dispatcher *)

(** Up to the first lock: the root, read without holding the mutex. *)
Definition dispatch_begin (now : Z) (st : timers) : timers * (tick + Z) :=
  let st := with_current_time now st in
  if SYSTEM_RUNNING st =? 0 then (st, inl Stopped)
  else
    let r := root (agc_timer_rbtree st) in
    if r =? sentinel (agc_timer_rbtree st) then (st, inl Yielded) else (st, inr r).

(** The first critical section: the node with the smallest key below [root]. *)
Definition dispatch_min (st : timers) (root : Z) : result Z :=
  agc_rbtree_min (agc_timer_rbtree st) root (sentinel (agc_timer_rbtree st)).

(** Between the critical sections: is the node due, and if so which event is it. *)
Definition dispatch_due (now : Z) (st : timers) (node : Z) : result (timers * option Z) :=
  let! n := deref (agc_timer_rbtree st) node in
  if 0 <? key_diff (key n) (Z.quot now 1000) then Ok (st, None)
  else
    let ev := timer_event node in
    let! st := put_timer_set st ev 0 in
    Ok (st, Some ev).

(** One iteration of [agc_timer_dispatch_timer] with nothing in between. *)
Definition dispatch_iteration (now : Z) (st : timers) : result (timers * tick) :=
  match dispatch_begin now st with
  | (st, inl t) => Ok (st, t)
  | (st, inr r) =>
      let! node := dispatch_min st r in
      let! (st, due) := dispatch_due now st node in
      match due with
      | None => Ok (st, Yielded)
      | Some ev =>
          let! st := agc_timer_del_timer st ev in
          Ok (st, Fired ev)
      end
  end.

(** The loop while the clock reads [now], until it yields or stops; the events
    fired, in order. *)
Fixpoint agc_timer_dispatch_timer (fuel : nat) (now : Z) (st : timers)
    : result (timers * list Z * tick) :=
  match fuel with
  | O => OutOfFuel
  | S fuel' =>
      let! (st, t) := dispatch_iteration now st in
      match t with
      | Fired ev =>
          let! (st, evs, t) := agc_timer_dispatch_timer fuel' now st in
          Ok (st, ev :: evs, t)
      | Stopped => Ok (with_running (SYSTEM_RUNNING st) 1 st, [], Stopped)
      | Yielded => Ok (st, [], Yielded)
      end
  end.

(** [while (--wait_times && !flag) agc_yield(10000);]: [flag i] is what the
    [i]-th reading of the flag sees; the number of yields. *)
Fixpoint wait_flag (wait_times : nat) (flag : nat -> bool) (i : nat) : nat :=
  match wait_times with
  | O => 0
  | S O => 0
  | S w => if flag i then 0 else S (wait_flag w flag (S i))
  end.

(** [agc_timer_shutdown]: clears [SYSTEM_RUNNING] and waits for the dispatcher. *)
Definition agc_timer_shutdown (flag : nat -> bool) (st : timers) : timers * nat :=
  (with_running 0 (SYSTEM_SHUTDOWN st) st, wait_flag 200 flag 0).

End timer.
