(* ===== verification/TimerProof.v ===== *)
(** * Timers: the queue is ordered, nothing fires early, everything due fires

    Proved against the interface [OrderedTree], and then for the linked tree. *)

From stdpp Require Import base gmap list fin_maps sorting.
From Stdlib Require Import ZArith Lia.
From S2P Require Import Prelude RbTree RbTreeSpec RbTreeProof RbTreeInsert RbTreeDelete RbTreeRemove OrderedTree RbTreeMain Timer.

Section proofs.
Context (off : Z) (H : rbtree -> list item -> Prop) {OT : OrderedTree H}.

(** The queue [L] of a timer state, seen from the reference instant [base]:
    ordered, within half the range of the clock, and made of exactly the
    timers of the events whose [timer_set] is not zero. *)
Record timer_inv (base : Z) (st : timers) (L : list item) : Prop := TimerInv {
  ti_holds : H (agc_timer_rbtree st) L;
  ti_insert : insert (agc_timer_rbtree st) = InsertTimerValue;
  ti_ranked : ranked (timer_rank base) L;
  ti_window : Forall (fun x => timer_rank base (ikey x) < 2 ^ 63) L;
  ti_event : forall ev f, timer_set st !! ev = Some f ->
    is_Some (mem (agc_timer_rbtree st) !! timer_node off ev) /\
    timer_node off ev <> sentinel (agc_timer_rbtree st) /\
    (f <> 0 <-> timer_node off ev ∈ iloc <$> L);
  ti_known : forall x, x ∈ L -> is_Some (timer_set st !! timer_event off (iloc x)) }.

Lemma timer_node_event a : timer_node off (timer_event off a) = a.
Proof using Type. unfold timer_node, timer_event. lia. Qed.
Lemma timer_event_node e : timer_event off (timer_node off e) = e.
Proof using Type. unfold timer_node, timer_event. lia. Qed.
Lemma timer_node_inj e e' : timer_node off e = timer_node off e' -> e = e'.
Proof using Type. unfold timer_node. lia. Qed.

Lemma elem_split L a : a ∈ iloc <$> L -> exists L1 x L2, L = L1 ++ x :: L2 /\ a = iloc x.
Proof using Type.
  intros (x & -> & (L1 & L2 & ->)%list_elem_of_split)%list_elem_of_fmap. eauto 10.
Qed.

(** ** Deletion *)

Lemma timer_delete st L1 x L2 base f :
  timer_inv base st (L1 ++ x :: L2) -> timer_set st !! timer_event off (iloc x) = Some f ->
  exists st1, agc_timer_del_timer off st (timer_event off (iloc x)) = Ok st1 /\
    timer_set st1 = timer_set st /\ current_time st1 = current_time st /\
    SYSTEM_RUNNING st1 = SYSTEM_RUNNING st /\
    cleared (agc_timer_rbtree st1) (iloc x) /\
    H (agc_timer_rbtree st1) (L1 ++ L2) /\
    timer_inv base (with_timer_set (<[timer_event off (iloc x) := 0]> (timer_set st)) st1) (L1 ++ L2).
Proof using OT.
  intros [HL Hi Hr Hw He Hk] Hf. unfold agc_timer_del_timer. rewrite timer_node_event.
  destruct (ot_delete _ _ _ _ HL) as (t & -> & HL' & [Um Us Ui] & Hcl). rewrite rbind_Ok.
  eexists; split; [reflexivity|]. cbn. split_and!; try done.
  pose proof (ot_nodup _ _ HL) as Hnd. rewrite fmap_app, fmap_cons in Hnd.
  apply NoDup_app in Hnd as (Hn1 & Hn2 & Hn3). apply NoDup_cons in Hn3 as [Hn3 Hn4].
  assert (iloc x ∉ iloc <$> L1) as Hx1.
  { intros Hx. apply (Hn2 _ Hx). left. }
  split; cbn.
  - done.
  - by rewrite Ui.
  - by eapply ranked_delete.
  - apply Forall_app in Hw as [? Hw]. apply Forall_cons in Hw as [_ ?]. by apply Forall_app.
  - intros ev g Hg. rewrite Us.
    destruct (decide (ev = timer_event off (iloc x))) as [->|Hne].
    + rewrite lookup_insert_eq in Hg. simplify_eq. destruct (He _ _ Hf) as (_ & ? & _).
      split_and!; [|done|].
      * rewrite timer_node_event. destruct Hcl as (n & -> & _). by eexists.
      * split; [done|]. rewrite timer_node_event, fmap_app. intros [?|?]%elem_of_app; done.
    + rewrite lookup_insert_ne in Hg by done. destruct (He _ _ Hg) as ([n Hn] & ? & Hiff).
      assert (timer_node off ev <> iloc x) as Hnx.
      { intros Hx. apply Hne. by rewrite <- Hx, timer_event_node. }
      split_and!; [|done|].
      * destruct (decide (timer_node off ev ∈ iloc <$> L1 ++ L2)) as [Hin|Hni].
        -- apply list_elem_of_fmap in Hin as (y & -> & Hy).
           destruct (ot_node _ _ _ HL' Hy) as (n' & -> & _). by eexists.
        -- rewrite Um; [by eexists|]. rewrite fmap_app in Hni |- *. rewrite fmap_cons.
           rewrite not_elem_of_cons, not_elem_of_app, not_elem_of_cons.
           rewrite not_elem_of_app in Hni. naive_solver.
      * rewrite Hiff, !fmap_app, fmap_cons, !elem_of_app, elem_of_cons. naive_solver.
  - intros y Hy. destruct (decide (timer_event off (iloc y) = timer_event off (iloc x))) as [->|].
    + rewrite lookup_insert_eq. by eexists.
    + rewrite lookup_insert_ne by done. apply Hk. rewrite elem_of_app, elem_of_cons.
      apply elem_of_app in Hy. naive_solver.
Qed.

(** ** Arming *)

Lemma timer_arm base st L ev k f :
  timer_inv base (with_timer_set (<[ev := 0]> (timer_set st)) st) L ->
  timer_set st !! ev = Some f -> timer_rank base k < 2 ^ 63 ->
  exists st' d,
    (let! t := modify (agc_timer_rbtree st) (timer_node off ev) (set_key k) in
     let! t := agc_rbtree_insert t (timer_node off ev) in
     put_timer_set (with_tree t st) ev 1) = Ok st' /\
    timer_set st' = <[ev := 1]> (timer_set st) /\ current_time st' = current_time st /\
    SYSTEM_RUNNING st' = SYSTEM_RUNNING st /\
    timer_inv base st' (insert_ranked (timer_rank base) (Item (timer_node off ev) k d) L).
Proof using OT.
  intros [HL Hi Hr Hw He Hk] Hf Hwk. cbn in HL, Hi, He, Hk.
  destruct (He ev 0) as ([n Hn] & Hse & Hni); [apply lookup_insert_eq|].
  assert (timer_node off ev ∉ iloc <$> L) as Hnot by tauto.
  destruct (ot_sentinel _ _ HL) as (_ & Hnull & _).
  erewrite modify_bind by exact Hn.
  set (t1 := with_mem (<[timer_node off ev := set_key k n]> (mem (agc_timer_rbtree st))) (agc_timer_rbtree st)).
  assert (H t1 L) as HL1 by (apply ot_frame; congruence || done).
  assert (mem t1 !! timer_node off ev = Some (set_key k n)) as Hn1 by apply lookup_insert_eq.
  destruct (ot_insert (timer_rank base) t1 L (timer_node off ev) (set_key k n)) as
    (t & -> & HL' & [Um Us Ui]); try done.
  { cbn. rewrite Hi. eapply Forall_impl; [exact Hw|]. intros y Hy. cbn. by apply timer_lt_rank. }
  rewrite rbind_Ok. unfold put_timer_set, get_timer_set. cbn [timer_set with_tree]. rewrite Hf, rbind_Ok.
  eexists _, (data n). split; [reflexivity|]. cbn. split_and!; try done.
  set (x := Item (timer_node off ev) k (data n)) in *.
  change (Item _ _ _) with x in HL'.
  pose proof (insert_ranked_perm (timer_rank base) x L) as Hp.
  split; cbn.
  - done.
  - by rewrite Ui.
  - by apply insert_ranked_sorted.
  - rewrite Hp. by constructor.
  - intros e g Hg. rewrite Us. cbn [sentinel t1 with_mem]. rewrite Hp, fmap_cons, elem_of_cons. cbn [iloc x].
    destruct (decide (e = ev)) as [->|Hne].
    + rewrite lookup_insert_eq in Hg. simplify_eq. split_and!; [|done|by split; [left|]].
      destruct (ot_node _ _ x HL') as (n' & Hn' & _); [|by exists n']. rewrite Hp. left.
    + rewrite lookup_insert_ne in Hg by done.
      assert (timer_node off e <> timer_node off ev) as Hnx by by intros ?%timer_node_inj.
      destruct (He e g) as ([n' Hn'] & ? & ?); [by rewrite lookup_insert_ne|].
      split_and!; [|done|naive_solver].
      destruct (decide (timer_node off e ∈ iloc <$> L)) as [Hin|Hni'].
      * apply list_elem_of_fmap in Hin as (y & -> & Hy).
        destruct (ot_node _ _ y HL') as (n2 & -> & _); [|by eexists]. rewrite Hp. by right.
      * rewrite Um by (by apply not_elem_of_cons). cbn. rewrite lookup_insert_ne by done. by eexists.
  - intros y. rewrite Hp. intros [->|Hy]%elem_of_cons.
    + cbn. rewrite timer_event_node, lookup_insert_eq. by eexists.
    + destruct (decide (timer_event off (iloc y) = ev)) as [->|]; [rewrite lookup_insert_eq; by eexists|].
      rewrite lookup_insert_ne by done. destruct (Hk y Hy) as [g Hg].
      rewrite lookup_insert_ne in Hg by done. by eexists.
Qed.

(** The queue without the timer at address [a]. *)
Definition without (a : Z) (L : list item) : list item := filter (fun y => iloc y <> a) L.

Lemma without_split L1 x L2 : NoDup (iloc <$> L1 ++ x :: L2) -> without (iloc x) (L1 ++ x :: L2) = L1 ++ L2.
Proof using Type.
  unfold without. rewrite fmap_app, fmap_cons. intros (_ & H1 & [H2 _]%NoDup_cons)%NoDup_app.
  rewrite filter_app, filter_cons_False by by intros ?.
  f_equal; apply list_filter_all, Forall_forall; intros y Hy He.
  - apply (H1 (iloc x)); [|left]. rewrite <- He. by apply list_elem_of_fmap_2.
  - apply H2. rewrite <- He. by apply list_elem_of_fmap_2.
Qed.

Lemma without_none a L : a ∉ iloc <$> L -> without a L = L.
Proof using Type.
  intros Ha. apply list_filter_all, Forall_forall. intros y Hy <-. apply Ha. by apply list_elem_of_fmap_2.
Qed.

Lemma timer_add base now st L ev timer f :
  timer_inv base st L -> timer_set st !! ev = Some f ->
  timer_rank base (timer_key now timer) < 2 ^ 63 ->
  exists st' d, agc_timer_add_timer off now st ev timer = Ok st' /\
    timer_set st' = <[ev := 1]> (timer_set st) /\ current_time st' = now /\
    SYSTEM_RUNNING st' = SYSTEM_RUNNING st /\
    timer_inv base st' (insert_ranked (timer_rank base)
      (Item (timer_node off ev) (timer_key now timer) d) (without (timer_node off ev) L)).
Proof using OT.
  intros Hinv Hf Hw. unfold agc_timer_add_timer.
  assert (timer_inv base (with_current_time now st) L) as Hinv' by (destruct Hinv; by split).
  set (st0 := with_current_time now st) in *.
  assert (get_timer_set st0 ev = Ok f) as -> by (unfold get_timer_set; cbn; by rewrite Hf).
  rewrite rbind_Ok.
  destruct (ti_event _ _ _ Hinv _ _ Hf) as (_ & _ & Hiff).
  destruct (f =? 0) eqn:Hf0.
  - rewrite rbind_Ok, without_none by (intros ?; apply Hiff; [done|lia]).
    assert (f = 0) as -> by lia.
    apply (timer_arm base st0 L ev _ 0); [|done|done].
    cbn. rewrite insert_id by done. exact Hinv'.
  - destruct (elem_split L (timer_node off ev)) as (L1 & x & L2 & -> & Hx); [apply Hiff; lia|].
    assert (ev = timer_event off (iloc x)) as -> by by rewrite <- Hx, timer_event_node.
    destruct (timer_delete st0 L1 x L2 base f Hinv' Hf) as (st1 & -> & Hts & Hct & Hrun & _ & _ & Hinv1).
    rewrite rbind_Ok.
    assert (without (timer_node off (timer_event off (iloc x))) (L1 ++ x :: L2) = L1 ++ L2) as ->
      by (rewrite timer_node_event; by eapply without_split, ot_nodup, ti_holds).
    rewrite <- Hts in Hinv1.
    destruct (timer_arm base st1 (L1 ++ L2) _ (timer_key now timer) f Hinv1) as
      (st2 & d & -> & Hts2 & Hct2 & Hrun2 & Hinv2); [by rewrite Hts|done|].
    exists st2, d. rewrite Hts2, Hts, Hct2, Hct, Hrun2, Hrun. done.
Qed.

(** ** Dispatching *)

(** A queued timer is due at [now] when its deadline is not in the future. *)
Definition due (base now : Z) (x : item) : bool := timer_rank base (ikey x) <=? timer_rank base (Z.quot now 1000).

Lemma due_key base now x :
  timer_rank base (ikey x) < 2 ^ 63 -> timer_rank base (Z.quot now 1000) < 2 ^ 63 ->
  (0 <? key_diff (ikey x) (Z.quot now 1000)) = negb (due base now x).
Proof using Type.
  intros. unfold due. rewrite (key_diff_rank base) by done.
  destruct (timer_rank base (ikey x) <=? _) eqn:E1, (0 <? _) eqn:E2; simpl; lia.
Qed.

(** One iteration: stopped, nothing due, or the first timer fires and leaves
    the queue. *)
Lemma timer_iteration base now st L :
  timer_inv base st L -> timer_rank base (Z.quot now 1000) < 2 ^ 63 ->
  exists st', 
    timer_inv base st' (if SYSTEM_RUNNING st =? 0 then L else
      match L with x :: L' => if due base now x then L' else L | [] => [] end) /\
    SYSTEM_RUNNING st' = SYSTEM_RUNNING st /\
    dispatch_iteration off now st = Ok (st',
      if SYSTEM_RUNNING st =? 0 then Stopped else
      match L with
      | x :: _ => if due base now x then Fired (timer_event off (iloc x)) else Yielded
      | [] => Yielded
      end).
Proof using OT.
  intros Hinv Hnow. unfold dispatch_iteration, dispatch_begin.
  assert (timer_inv base (with_current_time now st) L) as Hinv' by (destruct Hinv; by split).
  set (st0 := with_current_time now st) in *.
  change (SYSTEM_RUNNING st) with (SYSTEM_RUNNING st0).
  destruct (SYSTEM_RUNNING st0 =? 0); [by exists st0|].
  rewrite (ot_empty _ _ (ti_holds _ _ _ Hinv')).
  destruct L as [|x L]; [by exists st0|].
  unfold dispatch_min. rewrite (ot_min _ _ _ (ti_holds _ _ _ Hinv')), rbind_Ok.
  unfold dispatch_due.
  destruct (ot_node _ _ x (ti_holds _ _ _ Hinv')) as (n & Hn & Hkey & _); [left|].
  erewrite deref_bind by exact Hn. rewrite Hkey.
  pose proof (ti_window _ _ _ Hinv') as Hw. apply Forall_cons in Hw as [Hwx _].
  rewrite (due_key base) by done.
  destruct (due base now x); cbn [negb]; [|by exists st0].
  destruct (ti_known _ _ _ Hinv' x) as [f Hf]; [left|].
  unfold put_timer_set, get_timer_set. rewrite Hf, !rbind_Ok.
  set (ev := timer_event off (iloc x)) in *.
  destruct (timer_delete st0 [] x L base f Hinv' Hf) as (st1 & Hdel & Hts & _ & Hrun & _ & _ & Hinv1).
  fold ev in Hdel. unfold agc_timer_del_timer in Hdel |- *. cbn [agc_timer_rbtree with_timer_set].
  apply rbind_inv in Hdel as (t & -> & [= <-]). rewrite !rbind_Ok.
  eexists. split; [exact Hinv1|]. split; [done|reflexivity].
Qed.

(** The timers that are due are a prefix of the queue. *)
Fixpoint take_due (base now : Z) (L : list item) : list item :=
  match L with
  | x :: L' => if due base now x then x :: take_due base now L' else []
  | [] => []
  end.
Fixpoint drop_due (base now : Z) (L : list item) : list item :=
  match L with
  | x :: L' => if due base now x then drop_due base now L' else L
  | [] => []
  end.

Lemma take_due_filter base now L :
  ranked (timer_rank base) L ->
  take_due base now L = filter (fun x => due base now x = true) L /\
  drop_due base now L = filter (fun x => due base now x = false) L.
Proof using Type.
  unfold ranked. induction 1 as [|x L HL [IH1 IH2] Hx]; simpl; [done|].
  destruct (due base now x) eqn:Hd.
  - rewrite filter_cons_True, filter_cons_False by (rewrite Hd; done). by rewrite IH1.
  - rewrite filter_cons_False, filter_cons_True by (rewrite Hd; done).
    assert (Forall (fun y => due base now y = false) L) as HF.
    { eapply Forall_impl; [exact Hx|]. unfold due in *. intros y Hy. simpl in Hy. lia. }
    rewrite (list_filter_all (fun y => due base now y = false)) by done. split; [|done].
    clear - HF. induction HF as [|y L Hy HF IH]; [done|]. rewrite filter_cons_False; [done|].
    by rewrite Hy.
Qed.

(** The loop at a fixed time: fires the due timers in order, then waits. *)
Lemma timer_dispatch base now st L :
  timer_inv base st L -> timer_rank base (Z.quot now 1000) < 2 ^ 63 -> SYSTEM_RUNNING st <> 0 ->
  forall fuel, (length L < fuel)%nat ->
  exists st', agc_timer_dispatch_timer off fuel now st =
      Ok (st', (timer_event off ∘ iloc) <$> take_due base now L, Yielded) /\
    timer_inv base st' (drop_due base now L).
Proof using OT.
  intros Hinv Hnow Hrun fuel. revert st L Hinv Hrun.
  induction fuel as [|fuel IH]; intros st L Hinv Hrun Hlen; [lia|]. cbn [agc_timer_dispatch_timer].
  destruct (timer_iteration base now st L Hinv Hnow) as (st1 & Hinv1 & Hrun1 & ->).
  rewrite rbind_Ok. rewrite (proj2 (Z.eqb_neq _ _) Hrun) in *.
  destruct L as [|x L]; [by exists st1|]. simpl.
  destruct (due base now x); [|by exists st1].
  destruct (IH st1 L) as (st2 & -> & Hinv2); [done|congruence|simpl in Hlen; lia|].
  rewrite rbind_Ok. by exists st2.
Qed.

(** ** The flag that deletion leaves behind *)

(** [agc_timer_del_timer] does not clear [timer_set]: arming the event again
    deletes its node a second time, which follows a null pointer. *)
Lemma timer_del_then_add base now st L ev timer f :
  timer_inv base st L -> timer_set st !! ev = Some f -> f <> 0 ->
  exists st1, agc_timer_del_timer off st ev = Ok st1 /\
    agc_timer_add_timer off now st1 ev timer = Fault BadPointer.
Proof using OT.
  intros Hinv Hf Hne.
  destruct (ti_event _ _ _ Hinv _ _ Hf) as (_ & _ & Hiff).
  destruct (elem_split L (timer_node off ev)) as (L1 & x & L2 & -> & Hx); [tauto|].
  assert (ev = timer_event off (iloc x)) as -> by by rewrite <- Hx, timer_event_node.
  destruct (timer_delete st L1 x L2 base f Hinv Hf) as
    (st1 & -> & Hts & _ & _ & (n & Hn & _ & Hl & Hr & _) & HL & _).
  exists st1. split; [done|]. unfold agc_timer_add_timer, get_timer_set. cbn [timer_set with_current_time].
  rewrite Hts, Hf, rbind_Ok. rewrite (proj2 (Z.eqb_neq _ _) Hne).
  unfold agc_timer_del_timer, agc_rbtree_delete, delete_select. cbn [agc_timer_rbtree with_current_time].
  rewrite timer_node_event. erewrite deref_bind by exact Hn. rewrite Hl, Hr.
  destruct (ot_sentinel _ _ HL) as (_ & Hnull & [sn Hsn]).
  rewrite !(eqb_ne NULL) by congruence.
  assert (agc_rbtree_min (agc_timer_rbtree st1) NULL (sentinel (agc_timer_rbtree st1)) = Fault BadPointer)
    as ->; [|done].
  unfold agc_rbtree_min, loop_fuel. cbn [agc_rbtree_min_loop]. unfold deref. by rewrite Hnull.
Qed.

(** ** Another thread between two pieces of the dispatcher *)

(** The dispatcher reads the root before it takes the mutex.  When another
    thread deletes that very timer in between, the search for the minimum
    starts at a cleared node and follows a null pointer. *)
Lemma timer_dispatch_race base now st L :
  timer_inv base st L -> L <> [] -> SYSTEM_RUNNING st <> 0 ->
  exists r st1, dispatch_begin now st = (with_current_time now st, inr r) /\
    agc_timer_del_timer off (with_current_time now st) (timer_event off r) = Ok st1 /\
    dispatch_min st1 r = Fault BadPointer.
Proof using OT.
  intros Hinv HL Hrun. exists (root (agc_timer_rbtree st)).
  assert (timer_inv base (with_current_time now st) L) as Hinv' by (destruct Hinv; by split).
  pose proof (ot_root _ _ (ti_holds _ _ _ Hinv) HL) as Hin.
  destruct (elem_split _ _ Hin) as (L1 & x & L2 & -> & Hx). rewrite Hx.
  destruct (ti_known _ _ _ Hinv' x) as [f Hf].
  { rewrite elem_of_app. right. left. }
  destruct (timer_delete _ _ _ _ _ _ Hinv' Hf) as
    (st1 & -> & Hts & _ & _ & (n & Hn & _ & Hl & _) & HL' & _).
  exists st1. split_and!; [|done|].
  - unfold dispatch_begin. cbn [SYSTEM_RUNNING with_current_time agc_timer_rbtree].
    rewrite (proj2 (Z.eqb_neq _ _) Hrun), (ot_empty _ _ (ti_holds _ _ _ Hinv)), Hx.
    by destruct L1.
  - destruct (ot_sentinel _ _ HL') as (_ & Hnull & [sn Hsn]).
    unfold dispatch_min, agc_rbtree_min, loop_fuel. cbn [agc_rbtree_min_loop].
    erewrite deref_bind by exact Hn. rewrite Hl, (eqb_ne NULL) by congruence.
    destruct (size (mem (agc_timer_rbtree st1))) as [|k] eqn:Hsz.
    + apply map_size_empty_inv in Hsz. rewrite Hsz, lookup_empty in Hn. done.
    + cbn [agc_rbtree_min_loop]. unfold deref. by rewrite Hnull.
Qed.
End proofs.

(** ** Theorems for the timers on the linked red-black tree *)

(** Three armed timers with deadlines 1, 2 and 3 ms, and an idle one. *)
Definition demo_timers : timers :=
  Timers (demo InsertTimerValue) (list_to_map [(2, 1); (12, 1); (22, 1); (32, 0)]) 0 1 0.

Lemma demo_timer_inv : timer_inv 8 holds 0 demo_timers demo_items.
Proof.
  split.
  - apply demo_holds.
  - reflexivity.
  - repeat constructor; simpl; vm_compute; discriminate.
  - repeat constructor; vm_compute; done.
  - apply (map_Forall_lookup (fun ev f => is_Some (mem (demo InsertTimerValue) !! timer_node 8 ev) /\
      timer_node 8 ev <> 99 /\ (f <> 0 <-> timer_node 8 ev ∈ iloc <$> demo_items))).
    apply (bool_decide_unpack _). vm_compute. exact I.
  - apply Forall_forall. repeat constructor; eexists; reflexivity.
Qed.

(** [agc_timer_add_timer] puts the event's timer, armed or not, at
    [now/1000 + timer] milliseconds (in 64 bits) into the queue: exactly one
    entry for it, after every timer of the same or an earlier deadline, and
    [timer_set] is 1.  Deadlines may wrap around as long as all of them lie
    within half the range from a common reference instant. *)
Theorem agc_timer_add_timer_correct off base now st L ev timer f :
  timer_inv off holds base st L -> timer_set st !! ev = Some f ->
  timer_rank base (timer_key now timer) < 2 ^ 63 ->
  exists st' d, agc_timer_add_timer off now st ev timer = Ok st' /\
    timer_set st' = <[ev := 1]> (timer_set st) /\
    timer_inv off holds base st' (insert_ranked (timer_rank base)
      (Item (timer_node off ev) (timer_key now timer) d) (without (timer_node off ev) L)).
Proof.
  intros Hinv Hf Hw. destruct (timer_add off holds base now st L ev timer f Hinv Hf Hw) as
    (st' & d & ? & ? & _ & _ & ?). by exists st', d.
Qed.

Lemma agc_timer_add_timer_correct_witness :
  exists st' d, agc_timer_add_timer 8 1000 demo_timers 2 4 = Ok st' /\
    timer_inv 8 holds 0 st' [Item 20 2 0; Item 30 3 0; Item 10 5 d].
Proof.
  destruct (agc_timer_add_timer_correct 8 0 1000 demo_timers demo_items 2 4 1 demo_timer_inv)
    as (st' & d & ? & _ & Hinv); [reflexivity|vm_compute; reflexivity|].
  exists st', d. split; [assumption|exact Hinv].
Defined.

(** C4: While the clock reads [now], the dispatcher's loop fires exactly the
    timers whose deadline is not after [now], in deadline order, removes them
    from the queue, and then waits; nothing fires early, nothing due is left. *)
Theorem agc_timer_dispatch_timer_correct off base now st L fuel :
  timer_inv off holds base st L -> timer_rank base (Z.quot now 1000) < 2 ^ 63 ->
  SYSTEM_RUNNING st <> 0 -> (length L < fuel)%nat ->
  exists st', agc_timer_dispatch_timer off fuel now st =
      Ok (st', (fun x => timer_event off (iloc x)) <$> filter (fun x => due base now x = true) L, Yielded) /\
    timer_inv off holds base st' (filter (fun x => due base now x = false) L).
Proof.
  intros Hinv Hnow Hrun Hf.
  destruct (take_due_filter base now L (ti_ranked _ _ _ _ _ Hinv)) as [<- <-].
  exact (timer_dispatch off holds base now st L Hinv Hnow Hrun fuel Hf).
Qed.

Lemma agc_timer_dispatch_timer_correct_witness :
  exists st', agc_timer_dispatch_timer 8 4 2500 demo_timers = Ok (st', [2; 12], Yielded) /\
    timer_inv 8 holds 0 st' [Item 30 3 0].
Proof.
  apply (agc_timer_dispatch_timer_correct 8 0 2500 demo_timers demo_items 4 demo_timer_inv).
  - vm_compute. reflexivity.
  - discriminate.
  - simpl. lia.
Defined.

(** [agc_timer_del_timer] leaves [timer_set] as it is: after deleting an
    armed timer, arming the event again deletes the node a second time and
    dereferences a null pointer. *)
Theorem agc_timer_del_timer_stale_flag off base now st L ev timer f :
  timer_inv off holds base st L -> timer_set st !! ev = Some f -> f <> 0 ->
  exists st1, agc_timer_del_timer off st ev = Ok st1 /\
    agc_timer_add_timer off now st1 ev timer = Fault BadPointer.
Proof. apply timer_del_then_add. apply _. Qed.

Lemma agc_timer_del_timer_stale_flag_witness :
  exists st1, agc_timer_del_timer 8 demo_timers 12 = Ok st1 /\
    agc_timer_add_timer 8 0 st1 12 100 = Fault BadPointer.
Proof.
  apply (agc_timer_del_timer_stale_flag 8 0 0 demo_timers demo_items 12 100 1 demo_timer_inv);
    [reflexivity|discriminate].
Defined.

(** The dispatcher reads the root before it locks the mutex.  If another
    thread deletes the timer at the root in between, the search for the
    minimum, although locked, starts at a cleared node and dereferences a null
    pointer. *)
Theorem agc_timer_dispatch_timer_race off base now st L :
  timer_inv off holds base st L -> L <> [] -> SYSTEM_RUNNING st <> 0 ->
  exists r st1, dispatch_begin now st = (with_current_time now st, inr r) /\
    agc_timer_del_timer off (with_current_time now st) (timer_event off r) = Ok st1 /\
    dispatch_min st1 r = Fault BadPointer.
Proof. apply timer_dispatch_race. apply _. Qed.

Lemma agc_timer_dispatch_timer_race_witness :
  exists r st1, dispatch_begin 5000 demo_timers = (with_current_time 5000 demo_timers, inr r) /\
    agc_timer_del_timer 8 (with_current_time 5000 demo_timers) (timer_event 8 r) = Ok st1 /\
    dispatch_min st1 r = Fault BadPointer.
Proof.
  apply (agc_timer_dispatch_timer_race 8 0 5000 demo_timers demo_items demo_timer_inv);
    discriminate.
Defined.
