(* ===== verification/Queue.v ===== *)
(** * Bounded queues

    [src/libs/apr-util/misc/apr_queue.c], the ring buffer behind every event
    queue, and its wrappers in [src/src/agc_apr.c].  Each operation is one
    critical section; a blocking operation is cut at its [cond_wait], where
    the mutex is released, into the part before and the part after waking. *)

From stdpp Require Import base gmap list fin_maps.
From Stdlib Require Import ZArith Lia.
From S2P Require Import Prelude.

Module Queue.

(** [struct apr_queue_t]; the mutex and the condition variables are the
    boundaries of the operations. *)
Record apr_queue_t := AprQueue {
  data : list Z;
  nelts : Z;
  inp : Z;        (* the field [in] *)
  out : Z;
  bounds : Z;
  full_waiters : Z;
  empty_waiters : Z;
  terminated : bool }.

Inductive status := APR_SUCCESS | APR_EOF | APR_EAGAIN | APR_EINTR.

#[global] Instance status_eq_dec : EqDecision status.
Proof. solve_decision. Defined.

(** What a blocking operation does: return, or wait on its condition. *)
Inductive outcome := Return (s : status) | Wait.

Definition apr_queue_full (q : apr_queue_t) : bool := nelts q =? bounds q.
Definition apr_queue_empty (q : apr_queue_t) : bool := nelts q =? 0.

Definition apr_queue_create (queue_capacity : Z) : apr_queue_t :=
  AprQueue (replicate (Z.to_nat queue_capacity) 0) 0 0 0 queue_capacity 0 0 false.

(** [queue->data[i] = v]; outside the array it is not an access C allows. *)
Definition store (q : apr_queue_t) (i v : Z) : result (list Z) :=
  if (0 <=? i) && (i <? Z.of_nat (length (data q))) then Ok (<[Z.to_nat i := v]> (data q))
  else Fault OutOfBounds.
Definition fetch (q : apr_queue_t) (i : Z) : result Z :=
  if (0 <=? i) then
    match data q !! Z.to_nat i with Some v => Ok v | None => Fault OutOfBounds end
  else Fault OutOfBounds.

(** [i++; if (i >= bounds) i -= bounds;], 32 bits wide. *)
Definition advance (q : apr_queue_t) (i : Z) : Z :=
  let i := wrap 32 (i + 1) in if bounds q <=? i then i - bounds q else i.

(** The common end of [apr_queue_push] and [apr_queue_trypush]. *)
Definition put (q : apr_queue_t) (v : Z) : result apr_queue_t :=
  let! d := store q (inp q) v in
  Ok (AprQueue d (wrap 32 (nelts q + 1)) (advance q (inp q)) (out q) (bounds q)
        (full_waiters q) (empty_waiters q) (terminated q)).

(** The common end of [apr_queue_pop] and [apr_queue_trypop]. *)
Definition get (q : apr_queue_t) : result (apr_queue_t * Z) :=
  let! v := fetch q (out q) in
  Ok (AprQueue (data q) (wrap 32 (nelts q - 1)) (inp q) (advance q (out q)) (bounds q)
        (full_waiters q) (empty_waiters q) (terminated q), v).

Definition with_full_waiters w q :=
  AprQueue (data q) (nelts q) (inp q) (out q) (bounds q) w (empty_waiters q) (terminated q).
Definition with_empty_waiters w q :=
  AprQueue (data q) (nelts q) (inp q) (out q) (bounds q) (full_waiters q) w (terminated q).

(** [apr_queue_push] up to its wait, and from its waking on. *)
Definition apr_queue_push (q : apr_queue_t) (v : Z) : result (apr_queue_t * outcome) :=
  if terminated q then Ok (q, Return APR_EOF)
  else if apr_queue_full q then Ok (with_full_waiters (full_waiters q + 1) q, Wait)
  else let! q := put q v in Ok (q, Return APR_SUCCESS).

Definition apr_queue_push_wake (q : apr_queue_t) (v : Z) : result (apr_queue_t * outcome) :=
  let q := with_full_waiters (full_waiters q - 1) q in
  if apr_queue_full q then
    Ok (q, Return (if terminated q then APR_EOF else APR_EINTR))
  else let! q := put q v in Ok (q, Return APR_SUCCESS).

Definition apr_queue_trypush (q : apr_queue_t) (v : Z) : result (apr_queue_t * status) :=
  if terminated q then Ok (q, APR_EOF)
  else if apr_queue_full q then Ok (q, APR_EAGAIN)
  else let! q := put q v in Ok (q, APR_SUCCESS).

Definition apr_queue_size (q : apr_queue_t) : Z := nelts q.

Definition apr_queue_pop (q : apr_queue_t) : result (apr_queue_t * outcome * option Z) :=
  if terminated q then Ok (q, Return APR_EOF, None)
  else if apr_queue_empty q then Ok (with_empty_waiters (empty_waiters q + 1) q, Wait, None)
  else let! (q, v) := get q in Ok (q, Return APR_SUCCESS, Some v).

Definition apr_queue_pop_wake (q : apr_queue_t) : result (apr_queue_t * outcome * option Z) :=
  let q := with_empty_waiters (empty_waiters q - 1) q in
  if apr_queue_empty q then
    Ok (q, Return (if terminated q then APR_EOF else APR_EINTR), None)
  else let! (q, v) := get q in Ok (q, Return APR_SUCCESS, Some v).

Definition apr_queue_trypop (q : apr_queue_t) : result (apr_queue_t * status * option Z) :=
  if terminated q then Ok (q, APR_EOF, None)
  else if apr_queue_empty q then Ok (q, APR_EAGAIN, None)
  else let! (q, v) := get q in Ok (q, APR_SUCCESS, Some v).

Definition apr_queue_term (q : apr_queue_t) : apr_queue_t :=
  AprQueue (data q) (nelts q) (inp q) (out q) (bounds q) (full_waiters q) (empty_waiters q) true.

(** ** The queue as a list *)

(** The elements from the oldest to the newest. *)
Definition contents (q : apr_queue_t) : list Z :=
  (fun i => data q !!! Z.to_nat ((out q + Z.of_nat i) mod bounds q)) <$> seq 0 (Z.to_nat (nelts q)).

Record wf (q : apr_queue_t) : Prop := Wf {
  wf_bounds : 0 < bounds q < 2 ^ 32;
  wf_data : Z.of_nat (length (data q)) = bounds q;
  wf_nelts : 0 <= nelts q <= bounds q;
  wf_out : 0 <= out q < bounds q;
  wf_inp : inp q = (out q + nelts q) mod bounds q }.

Lemma wf_create n : 0 < n < 2 ^ 32 -> wf (apr_queue_create n) /\ contents (apr_queue_create n) = [].
Proof.
  intros Hn. split; [|done]. split; simpl; rewrite ?length_replicate; try lia.
  by rewrite Z.mod_0_l by lia.
Qed.

Lemma advance_mod q i : wf q -> 0 <= i < bounds q -> advance q i = (i + 1) mod bounds q.
Proof.
  intros [Hb _ _ _ _] Hi. unfold advance, wrap. rewrite (Z.mod_small (i + 1)) by lia.
  destruct (bounds q <=? i + 1) eqn:E.
  - replace (i + 1) with (bounds q) by lia. rewrite Z.mod_same by lia. lia.
  - rewrite Z.mod_small by lia. done.
Qed.

(** Two positions less than [bounds] apart are different slots. *)
Lemma slots_distinct o i j b :
  0 < b -> 0 <= i < j -> j < b -> (o + i) mod b <> (o + j) mod b.
Proof.
  intros Hb Hi Hj He.
  assert ((o + j - (o + i)) mod b = 0) as Hz.
  { rewrite Zminus_mod, He, Z.sub_diag. by rewrite Z.mod_0_l by lia. }
  replace (o + j - (o + i)) with (j - i) in Hz by lia.
  rewrite Z.mod_small in Hz by lia. lia.
Qed.

Lemma put_spec q v :
  wf q -> nelts q < bounds q ->
  exists q', put q v = Ok q' /\ wf q' /\ contents q' = contents q ++ [v] /\
    full_waiters q' = full_waiters q /\ empty_waiters q' = empty_waiters q /\
    terminated q' = terminated q /\ bounds q' = bounds q.
Proof.
  intros Hwf Hlt. pose proof Hwf as [Hb Hd Hn Ho Hi].
  assert (0 <= inp q < bounds q) as Hin by (rewrite Hi; apply Z.mod_pos_bound; lia).
  unfold put, store. rewrite (proj2 (Z.leb_le _ _)), (proj2 (Z.ltb_lt _ _)) by lia. simpl.
  eexists. split; [reflexivity|].
  split; [split; simpl; rewrite ?length_insert; try lia|].
  - unfold wrap. rewrite Z.mod_small by lia. lia.
  - rewrite advance_mod by done. unfold wrap. rewrite (Z.mod_small (nelts q + 1)) by lia.
    rewrite Hi, Zplus_mod_idemp_l. f_equal. lia.
  - split_and!; try done. unfold contents; simpl. unfold wrap. rewrite Z.mod_small by lia.
    replace (Z.to_nat (nelts q + 1)) with (Z.to_nat (nelts q) + 1)%nat by lia.
    rewrite seq_app, fmap_app. simpl. f_equal.
    + apply list_fmap_ext. intros ? i Hl%lookup_seq. apply list_lookup_total_insert_ne.
      rewrite Hi. intros He.
      assert (0 <= (out q + Z.of_nat i) mod bounds q) by (apply Z.mod_pos_bound; lia).
      assert (0 <= (out q + nelts q) mod bounds q) by (apply Z.mod_pos_bound; lia).
      apply (slots_distinct (out q) (Z.of_nat i) (nelts q) (bounds q)); lia.
    + f_equal. rewrite Z2Nat.id by lia. rewrite <- Hi. apply list_lookup_total_insert_eq. lia.
Qed.

Lemma get_spec q :
  wf q -> 0 < nelts q ->
  exists q' v L, get q = Ok (q', v) /\ wf q' /\ contents q = v :: L /\ contents q' = L /\
    full_waiters q' = full_waiters q /\ empty_waiters q' = empty_waiters q /\
    terminated q' = terminated q /\ bounds q' = bounds q.
Proof.
  intros Hwf Hlt. pose proof Hwf as [Hb Hd Hn Ho Hi].
  unfold get, fetch. rewrite (proj2 (Z.leb_le _ _)) by lia.
  destruct (lookup_lt_is_Some_2 (data q) (Z.to_nat (out q))) as [v Hv]; [lia|].
  rewrite Hv. simpl. eexists _, v, _. split; [reflexivity|].
  split; [split; simpl; try lia|].
  - unfold wrap. rewrite Z.mod_small by lia. lia.
  - rewrite advance_mod by done. apply Z.mod_pos_bound. lia.
  - rewrite advance_mod by done. unfold wrap. rewrite (Z.mod_small (nelts q - 1)) by lia.
    rewrite Zplus_mod_idemp_l, Hi. f_equal. lia.
  - split_and!; try done. unfold contents; simpl. unfold wrap. rewrite Z.mod_small by lia.
    replace (Z.to_nat (nelts q)) with (S (Z.to_nat (nelts q - 1))) by lia.
    simpl. f_equal.
    + rewrite Z.add_0_r, Z.mod_small by lia. by apply list_lookup_total_correct.
    + rewrite <- fmap_S_seq, <- list_fmap_compose. apply list_fmap_ext. intros _ i _. simpl.
      f_equal. f_equal. rewrite advance_mod by done. rewrite Zplus_mod_idemp_l. f_equal. lia.
Qed.

Lemma full_length q : wf q -> Z.of_nat (length (contents q)) = nelts q.
Proof. intros [? ? ? ? ?]. unfold contents. rewrite length_fmap, length_seq. lia. Qed.

(** ** Refinement of a bounded list *)

Inductive qop := TryPush (v : Z) | TryPop.

(** One non-blocking operation on the ring buffer: its status and value. *)
Definition run1 (q : apr_queue_t) (o : qop) : result (apr_queue_t * (status * option Z)) :=
  match o with
  | TryPush v => let! (q, st) := apr_queue_trypush q v in Ok (q, (st, None))
  | TryPop => let! (q, st, v) := apr_queue_trypop q in Ok (q, (st, v))
  end.
Fixpoint run (q : apr_queue_t) (os : list qop) : result (apr_queue_t * list (status * option Z)) :=
  match os with
  | [] => Ok (q, [])
  | o :: os' =>
      let! (q, r) := run1 q o in
      let! (q, rs) := run q os' in
      Ok (q, r :: rs)
  end.

(** The specification: first in, first out, at most [n] elements. *)
Definition spec1 (n : Z) (L : list Z) (o : qop) : list Z * (status * option Z) :=
  match o, L with
  | TryPush v, _ => if Z.of_nat (length L) =? n then (L, (APR_EAGAIN, None)) else (L ++ [v], (APR_SUCCESS, None))
  | TryPop, [] => ([], (APR_EAGAIN, None))
  | TryPop, v :: L' => (L', (APR_SUCCESS, Some v))
  end.
Fixpoint spec (n : Z) (L : list Z) (os : list qop) : list Z * list (status * option Z) :=
  match os with
  | [] => (L, [])
  | o :: os' =>
      let (L1, r) := spec1 n L o in
      let (L2, rs) := spec n L1 os' in (L2, r :: rs)
  end.

Lemma run1_spec q o :
  wf q -> terminated q = false ->
  exists q', run1 q o = Ok (q', snd (spec1 (bounds q) (contents q) o)) /\ wf q' /\
    contents q' = fst (spec1 (bounds q) (contents q) o) /\
    terminated q' = false /\ bounds q' = bounds q.
Proof.
  intros Hwf Ht. pose proof (full_length q Hwf) as Hlen. pose proof (wf_nelts q Hwf).
  destruct o as [v|]; simpl.
  - unfold apr_queue_trypush, apr_queue_full. rewrite Ht, Hlen.
    destruct (nelts q =? bounds q) eqn:E; [by exists q|].
    destruct (put_spec q v Hwf) as (q' & -> & ? & ? & _ & _ & ? & ?); [lia|].
    exists q'. split_and!; try done. congruence.
  - unfold apr_queue_trypop, apr_queue_empty. rewrite Ht.
    destruct (nelts q =? 0) eqn:E.
    + exists q. destruct (contents q); [done|simpl in Hlen; lia].
    + destruct (get_spec q Hwf) as (q' & v & L & -> & ? & -> & ? & _ & _ & ? & ?); [lia|].
      exists q'. split_and!; try done. congruence.
Qed.

End Queue.

Import Queue.

(** C5: The ring buffer is a bounded first-in first-out queue.  On a queue of
    any capacity up to [2^32 - 1], every sequence of non-blocking pushes and
    pops runs without touching memory outside its array, reports the same
    statuses and values as a list bounded by the capacity, and ends with the
    same elements in the same order. *)
Theorem apr_queue_refines_fifo n os :
  0 < n < 2 ^ 32 ->
  exists q, run (apr_queue_create n) os = Ok (q, snd (spec n [] os)) /\
    contents q = fst (spec n [] os).
Proof.
  intros Hn. destruct (wf_create n Hn) as [Hwf Hc].
  assert (terminated (apr_queue_create n) = false) as Ht by done.
  assert (bounds (apr_queue_create n) = n) as Hb by done.
  revert Hwf Hc Ht Hb. generalize (apr_queue_create n) (@nil Z).
  induction os as [|o os IH]; intros q L Hwf Hc Ht Hb; cbn [run spec].
  - by exists q.
  - destruct (run1_spec q o Hwf Ht) as (q1 & -> & Hwf1 & Hc1 & Ht1 & Hb1).
    rewrite rbind_Ok, Hb, Hc in *. destruct (spec1 n L o) as [L1 r].
    destruct (IH q1 L1 Hwf1 Hc1 Ht1 Hb1) as (q2 & -> & Hc2).
    rewrite rbind_Ok. destruct (spec n L1 os). by exists q2.
Qed.

Lemma apr_queue_refines_fifo_witness :
  exists q, run (apr_queue_create 2) [TryPush 5; TryPush 6; TryPush 7; TryPop; TryPush 8; TryPop] =
    Ok (q, [(APR_SUCCESS, None); (APR_SUCCESS, None); (APR_EAGAIN, None); (APR_SUCCESS, Some 5);
      (APR_SUCCESS, None); (APR_SUCCESS, Some 6)]) /\ contents q = [8].
Proof.
  apply (apr_queue_refines_fifo 2 [TryPush 5; TryPush 6; TryPush 7; TryPop; TryPush 8; TryPop]).
  lia.
Defined.

(** ** Queues of pointers

    A queue of pointers carries blocks of a heap: the addresses are distinct
    and each points to its block.  Shared by the logging core and the message
    queue module. *)

Section blocks.
Context {A : Type}.

(** The blocks [ns] at the addresses [ps]; [next] is the next fresh address. *)
Record owned (heap : gmap Z A) (next : Z) (ps : list Z) (ns : list A) : Prop := Owned {
  od_nodes : Forall2 (fun p n => heap !! p = Some n) ps ns;
  od_distinct : NoDup ps;
  od_range : Forall (fun p => 0 < p < next) ps }.

Lemma owned_length heap next ps ns : owned heap next ps ns -> length ps = length ns.
Proof. intros [H _ _]. by eapply Forall2_length. Qed.

Lemma owned_nil heap next : owned heap next [] [].
Proof. by split; constructor. Qed.

(** The heap may change elsewhere. *)
Lemma owned_frame heap heap' next next' ps ns : (forall p, p ∈ ps -> heap' !! p = heap !! p) -> next <= next' ->
  owned heap next ps ns -> owned heap' next' ps ns.
Proof.
  intros Hh Hx [O1 O2 O3]. split; [|done|eapply Forall_impl; [exact O3|]; cbn; lia].
  apply Forall2_same_length_lookup_2; [by eapply Forall2_length|]. intros i p n Hp Hn.
  rewrite Hh by (by eapply list_elem_of_lookup_2). exact (Forall2_lookup_lr _ _ _ _ _ _ O1 Hp Hn).
Qed.

Lemma owned_push heap next ps ns n : 0 < next -> owned heap next ps ns ->
  owned (<[next := n]> heap) (next + 1) (ps ++ [next]) (ns ++ [n]).
Proof.
  intros H0 Ho. assert (next ∉ ps) as Hnew.
  { intros Hin. pose proof (od_range _ _ _ _ Ho) as O3. rewrite Forall_forall in O3. specialize (O3 _ Hin). lia. }
  apply (owned_frame _ (<[next := n]> heap) _ (next + 1)) in Ho as [O1 O2 O3]; [|intros p Hp; rewrite lookup_insert_ne; [done|congruence]|lia].
  split.
  - apply Forall2_app; [done|]. constructor; [by rewrite lookup_insert_eq|constructor].
  - apply NoDup_app. split_and!; [done| |apply NoDup_singleton]. intros p Hp E%list_elem_of_singleton. by subst p.
  - apply Forall_app. split; [done|]. apply Forall_singleton. lia.
Qed.

(** The first block is taken and freed. *)
Lemma owned_pop heap next p ps n ns : owned heap next (p :: ps) (n :: ns) ->
  heap !! p = Some n /\ 0 < p < next /\ p ∉ ps /\ owned (delete p heap) next ps ns.
Proof.
  intros [O1 O2 O3]. apply Forall2_cons in O1 as [Hn O1]. apply NoDup_cons in O2 as [O2 O2'].
  apply Forall_cons in O3 as [O3 O3']. split_and!; [done|lia|lia|done|].
  apply (owned_frame heap _ next); [|lia|by split]. intros p' Hp'. rewrite lookup_delete_ne; [done|congruence].
Qed.

End blocks.
