(* ===== verification/CString.v ===== *)
(** * C strings, bytes and decimal numbers

    A C string is the list of its bytes before the terminator, each in
    [1, 255].  [strcasecmp], [atoi] and the ["%d"] conversion are what the
    sources use of the C library; the decimal round trip is proved here once. *)

From stdpp Require Import base list strings.
From Stdlib Require Import ZArith Lia Ascii.
From S2P Require Import Prelude.

Abbreviation cstr := (list Z).

Definition bytes_of (s : string) : cstr := (fun c => Z.of_nat (nat_of_ascii c)) <$> String.list_ascii_of_string s.

(** ASCII letters, as the C library's "C" locale folds them. *)
Definition is_upper (c : Z) : bool := (65 <=? c) && (c <=? 90).
Definition is_lower (c : Z) : bool := (97 <=? c) && (c <=? 122).
Definition is_digit (c : Z) : bool := (48 <=? c) && (c <=? 57).
Definition is_space (c : Z) : bool := (c =? 32) || ((9 <=? c) && (c <=? 13)).
Definition tolower (c : Z) : Z := if is_upper c then c + 32 else c.
Definition toupper (c : Z) : Z := if is_lower c then c - 32 else c.

(** [strcasecmp(a, b) == 0] *)
Definition same_nocase (a b : cstr) : bool := bool_decide (tolower <$> a = tolower <$> b).

Lemma same_nocase_refl a : same_nocase a a = true.
Proof. by apply bool_decide_eq_true. Qed.
Lemma same_nocase_sym a b : same_nocase a b = same_nocase b a.
Proof. unfold same_nocase. apply bool_decide_ext. split; by intros ->. Qed.
Lemma same_nocase_trans a b c :
  same_nocase a b = true -> same_nocase b c = true -> same_nocase a c = true.
Proof. unfold same_nocase. rewrite !bool_decide_eq_true. congruence. Qed.
Lemma same_nocase_subst a b c : same_nocase a b = true -> same_nocase a c = same_nocase b c.
Proof. unfold same_nocase. rewrite bool_decide_eq_true. by intros ->. Qed.

(** The C string a block of memory holds: the bytes before the first zero. *)
Fixpoint cstring (bs : list Z) : cstr :=
  match bs with
  | c :: bs' => if c =? 0 then [] else c :: cstring bs'
  | [] => []
  end.

Lemma cstring_text t rest : Forall (fun c => c <> 0) t -> cstring (t ++ 0 :: rest) = t.
Proof. induction 1 as [|c t Hc Ht IH]; [done|]. cbn. by rewrite (proj2 (Z.eqb_neq _ _)), IH. Qed.
Lemma cstring_id t : Forall (fun c => c <> 0) t -> cstring t = t.
Proof. induction 1 as [|c t Hc Ht IH]; [done|]. cbn. by rewrite (proj2 (Z.eqb_neq _ _)), IH. Qed.
Lemma cstring_zeros n : cstring (replicate n 0) = [].
Proof. by destruct n. Qed.
Lemma cstring_nonzero s : Forall (fun c => c <> 0) (cstring s).
Proof. induction s as [|c s IH]; [constructor|]. cbn. destruct (Z.eqb_spec c 0); by constructor. Qed.

(** ** Blocks of memory *)

(** Bytes copied into a block at an offset, inside it or not at all. *)
Definition blit (buf : list Z) (off : nat) (bs : list Z) : result (list Z) :=
  if (off + length bs <=? length buf)%nat
  then Ok (take off buf ++ bs ++ drop (off + length bs) buf)
  else Fault OutOfBounds.

(** [realloc] to [n] bytes: the old content, then what was there ([junk]). *)
Definition realloc_data (junk : nat -> Z) (buf : list Z) (n : nat) : list Z :=
  take n buf ++ (junk <$> seq (length buf) (n - length buf)).

Lemma blit_tail t rest bs : (length bs <= length rest)%nat ->
  blit (t ++ rest) (length t) bs = Ok (t ++ bs ++ drop (length bs) rest).
Proof.
  intros Hl. unfold blit. rewrite length_app. rewrite (proj2 (Nat.leb_le _ _)) by lia.
  rewrite take_app_length, <- drop_drop, drop_app_length. done.
Qed.

Lemma realloc_text junk t rest n : (length t <= n)%nat ->
  exists rest', realloc_data junk (t ++ rest) n = t ++ rest' /\ length (t ++ rest') = n.
Proof.
  intros Hn. unfold realloc_data. rewrite take_app_ge by lia.
  exists (take (n - length t) rest ++ (junk <$> seq (length (t ++ rest)) (n - length (t ++ rest)))).
  rewrite <- app_assoc. split; [done|].
  rewrite !length_app, length_take, length_fmap, length_seq. lia.
Qed.

(** ** Decimal digits *)

(** The digits of [n], least significant first, with [fuel] digits at most. *)
Fixpoint digits_rev (fuel : nat) (n : Z) : list Z :=
  match fuel with
  | O => []
  | S fuel' => (48 + n mod 10) :: (if n <? 10 then [] else digits_rev fuel' (n / 10))
  end.

(** ["%u"], for values below [10^20] (every 64-bit one). *)
Definition print_uint (n : Z) : cstr := reverse (digits_rev 20 n).
(** ["%d"] *)
Definition print_int (z : Z) : cstr := if z <? 0 then 45 :: print_uint (- z) else print_uint z.

(** The value of a leading run of digits. *)
Fixpoint digits_value (acc : Z) (s : cstr) : Z :=
  match s with
  | c :: s' => if is_digit c then digits_value (10 * acc + (c - 48)) s' else acc
  | [] => acc
  end.

Fixpoint skip_space (s : cstr) : cstr :=
  match s with
  | c :: s' => if is_space c then skip_space s' else s
  | [] => []
  end.

(** [atoi], which is [(int) strtol(s, NULL, 10)]: the value saturates at 64
    bits and is cut to 32. *)
Definition clamp64 (z : Z) : Z := Z.max (- 2 ^ 63) (Z.min z (2 ^ 63 - 1)).
Definition atoi (s : cstr) : Z :=
  match skip_space s with
  | 45 :: s' => sext 32 (clamp64 (- digits_value 0 s'))
  | 43 :: s' => sext 32 (clamp64 (digits_value 0 s'))
  | s' => sext 32 (clamp64 (digits_value 0 s'))
  end.

Lemma is_digit_iff c : is_digit c = true <-> 48 <= c <= 57.
Proof. unfold is_digit. rewrite andb_true_iff, !Z.leb_le. lia. Qed.

Lemma digits_rev_digits fuel n : 0 <= n -> Forall (fun c => is_digit c = true) (digits_rev fuel n).
Proof.
  revert n; induction fuel as [|fuel IH]; intros n Hn; simpl; constructor.
  - apply is_digit_iff. pose proof (Z.mod_pos_bound n 10). lia.
  - case_match; [constructor|]. apply IH. apply Z.div_pos; lia.
Qed.

Lemma digits_value_app acc s1 s2 :
  Forall (fun c => is_digit c = true) s1 ->
  digits_value acc (s1 ++ s2) = digits_value (digits_value acc s1) s2.
Proof.
  intros H; revert acc; induction H as [|c s Hc Hs IH]; intros acc; simpl; [done|].
  rewrite Hc. apply IH.
Qed.

Lemma digits_rev_value fuel n :
  0 <= n < 10 ^ Z.of_nat fuel -> (0 < fuel)%nat -> digits_value 0 (reverse (digits_rev fuel n)) = n.
Proof.
  revert n; induction fuel as [|fuel IH]; intros n Hn Hf; [lia|]. simpl.
  rewrite reverse_cons. pose proof (Z.mod_pos_bound n 10 ltac:(lia)) as Hm.
  assert (is_digit (48 + n mod 10) = true) as Hd by (apply is_digit_iff; lia).
  case_match eqn:E.
  - simpl. rewrite Hd. rewrite Z.mod_small by lia. lia.
  - rewrite digits_value_app.
    2:{ apply Forall_reverse, digits_rev_digits. apply Z.div_pos; lia. }
    rewrite Nat2Z.inj_succ, Z.pow_succ_r in Hn by lia.
    assert (0 < fuel)%nat.
    { destruct fuel; [|lia]. change (10 ^ Z.of_nat 0) with 1 in Hn. lia. }
    rewrite IH; [|split; [apply Z.div_pos; lia|apply Z.div_lt_upper_bound; lia]|done].
    simpl. rewrite Hd. pose proof (Z.div_mod n 10). lia.
Qed.

Lemma digits_rev_length fuel n (k : nat) : 0 <= n < 10 ^ Z.of_nat k -> (0 < k)%nat -> (length (digits_rev fuel n) <= k)%nat.
Proof.
  revert n k. induction fuel as [|fuel IH]; intros n k Hn Hk; simpl; [lia|].
  destruct (n <? 10) eqn:E; [simpl; lia|].
  destruct k as [|k]; [lia|]. rewrite Nat2Z.inj_succ, Z.pow_succ_r in Hn by lia.
  assert (0 < k)%nat by (destruct k; [simpl in Hn; lia|lia]).
  specialize (IH (n / 10) k ltac:(split; [apply Z.div_pos; lia|apply Z.div_lt_upper_bound; lia]) ltac:(done)).
  simpl. lia.
Qed.

Lemma print_int_width z : - 2 ^ 31 <= z < 2 ^ 31 -> (length (print_int z) <= 11)%nat.
Proof.
  unfold print_int, print_uint. intros Hz.
  destruct (z <? 0) eqn:E; [rewrite length_cons|]; rewrite length_reverse.
  - pose proof (digits_rev_length 20 (- z) 10 ltac:(lia) ltac:(lia)). lia.
  - pose proof (digits_rev_length 20 z 10 ltac:(lia) ltac:(lia)). lia.
Qed.

(** The leading digit of a positive number is not zero. *)
Lemma digits_rev_lead fuel n : 0 < n < 10 ^ Z.of_nat fuel ->
  exists c s, reverse (digits_rev fuel n) = c :: s /\ 49 <= c <= 57.
Proof.
  revert n. induction fuel as [|fuel IH]; intros n Hn; [simpl in Hn; lia|]. simpl. rewrite reverse_cons.
  destruct (n <? 10) eqn:E.
  - rewrite Z.mod_small by lia. eexists _, []. split; [done|lia].
  - rewrite Nat2Z.inj_succ, Z.pow_succ_r in Hn by lia.
    destruct (IH (n / 10)) as (c & s & -> & ?); [|by exists c, (s ++ [48 + n mod 10])].
    split; [apply Z.div_str_pos; lia|apply Z.div_lt_upper_bound; lia].
Qed.

Lemma print_uint_digits n : 0 <= n -> Forall (fun c => is_digit c = true) (print_uint n).
Proof. intros. by apply Forall_reverse, digits_rev_digits. Qed.

Lemma print_uint_value n : 0 <= n < 10 ^ 20 -> digits_value 0 (print_uint n) = n.
Proof. intros. apply digits_rev_value; [done|lia]. Qed.

Lemma print_uint_cons n : 0 <= n -> exists c s, print_uint n = c :: s /\ is_digit c = true.
Proof.
  intros Hn. pose proof (print_uint_digits n Hn) as HF. unfold print_uint in *.
  destruct (reverse (digits_rev 20 n)) as [|c s] eqn:E.
  - apply (f_equal length) in E. rewrite length_reverse in E. discriminate E.
  - exists c, s. by inversion HF.
Qed.

Lemma sext32_small z : - 2 ^ 31 <= z < 2 ^ 31 -> sext 32 z = z.
Proof.
  intros H. unfold sext, wrap. destruct (Z_lt_ge_dec z 0).
  - replace (z mod 2 ^ 32) with (z + 2 ^ 32).
    + destruct (z + 2 ^ 32 <? 2 ^ (32 - 1)) eqn:E; lia.
    + symmetry. rewrite <- (Z_mod_plus_full z 1 (2 ^ 32)). apply Z.mod_small. lia.
  - rewrite Z.mod_small by lia. destruct (z <? 2 ^ (32 - 1)) eqn:E; lia.
Qed.

(** The round trip every numeric header relies on. *)
Lemma atoi_print_int z : - 2 ^ 31 <= z < 2 ^ 31 -> atoi (print_int z) = z.
Proof.
  intros Hz. unfold print_int. destruct (z <? 0) eqn:E.
  - unfold atoi. cbn [skip_space is_space]. change (is_space 45) with false. cbv iota.
    rewrite print_uint_value by lia. unfold clamp64. rewrite sext32_small; lia.
  - destruct (print_uint_cons z) as (c & s & Hp & Hc); [lia|].
    assert (atoi (print_uint z) = sext 32 (clamp64 (digits_value 0 (print_uint z)))) as ->.
    { rewrite Hp. unfold atoi. cbn [skip_space].
      apply is_digit_iff in Hc.
      assert (is_space c = false) as ->.
      { unfold is_space. rewrite orb_false_iff, andb_false_iff, Z.eqb_neq, !Z.leb_gt. lia. }
      destruct (decide (c = 45)); [lia|]. destruct (decide (c = 43)); [lia|].
      repeat (case_match; try lia; try done). }
    rewrite print_uint_value by lia. unfold clamp64. rewrite sext32_small; lia.
Qed.
