(* ===== verification/Event.v ===== *)
(** * Events and their headers

    The part of [src/src/agc_event.c] that creates, fills, copies and destroys
    one event.  Headers are linked cells in a store, as in the code: an event
    has pointers to its first and its last header, and [free] makes a cell
    inaccessible, so that walking into a freed header or freeing it again is a
    [Fault].  Names, values and bodies are C strings owned by their cell.
    Loops over headers take fuel; a loop that does not end is [OutOfFuel] for
    every amount. *)

From stdpp Require Import base gmap list fin_maps.
From Stdlib Require Import ZArith Lia.
From S2P Require Import Prelude CString.

Module Ev.

Definition NULL : Z := 0.

Inductive agc_status :=
  | AGC_STATUS_SUCCESS | AGC_STATUS_FALSE | AGC_STATUS_GENERR | AGC_STATUS_MEMERR
  | AGC_STATUS_NOT_INITALIZED | AGC_STATUS_SOCKERR.

#[global] Instance agc_status_eq_dec : EqDecision agc_status.
Proof. solve_decision. Defined.

(** [struct agc_event_header] *)
Record header := Header {
  name : cstr;
  value : option cstr;
  next : Z }.

(** [struct agc_event], without the timer members ([Timer]) and the unused
    [next]; [call_back], [context] and [fast] are addresses. *)
Record event := Event {
  event_id : Z;
  source_id : Z;
  debug_id : Z;
  headers : Z;
  last_header : Z;
  context : Z;
  fast : Z;
  body : option cstr;
  call_back : Z }.

(** The malloc'ed cells, and the next fresh address. *)
Record store := Store {
  hdrs : gmap Z header;
  evts : gmap Z event;
  brk : Z }.

Definition set_next n h := Header (name h) (value h) n.
Definition set_value v h := Header (name h) v (next h).
Definition set_headers p e :=
  Event (event_id e) (source_id e) (debug_id e) p (last_header e) (context e) (fast e) (body e) (call_back e).
Definition set_last p e :=
  Event (event_id e) (source_id e) (debug_id e) (headers e) p (context e) (fast e) (body e) (call_back e).
Definition set_event_id i e :=
  Event i (source_id e) (debug_id e) (headers e) (last_header e) (context e) (fast e) (body e) (call_back e).
Definition set_body b e :=
  Event (event_id e) (source_id e) (debug_id e) (headers e) (last_header e) (context e) (fast e) b (call_back e).
Definition set_callback cb d e :=
  Event (event_id e) (source_id e) (debug_id e) (headers e) (last_header e) d (fast e) (body e) cb.

Definition with_hdrs m s := Store m (evts s) (brk s).
Definition with_evts m s := Store (hdrs s) m (brk s).

Definition hget (s : store) (p : Z) : result header :=
  match hdrs s !! p with Some h => Ok h | None => Fault BadPointer end.
Definition hput (s : store) (p : Z) (f : header -> header) : result store :=
  let! h := hget s p in Ok (with_hdrs (<[p := f h]> (hdrs s)) s).
Definition eget (s : store) (p : Z) : result event :=
  match evts s !! p with Some e => Ok e | None => Fault BadPointer end.
Definition eput (s : store) (p : Z) (f : event -> event) : result store :=
  let! e := eget s p in Ok (with_evts (<[p := f e]> (evts s)) s).

(** [free(header)] *)
Definition hfree (s : store) (p : Z) : result store :=
  match hdrs s !! p with
  | Some _ => Ok (with_hdrs (delete p (hdrs s)) s)
  | None => Fault BadFree
  end.

(** [agc_event_create]: a zeroed event with its id and source. *)
Definition agc_event_create (s : store) (event_id source_id : Z) : store * Z :=
  let p := brk s in
  (Store (hdrs s) (<[p := Event event_id source_id 0 NULL NULL NULL NULL None NULL]> (evts s)) (p + 1), p).

Definition agc_event_set_id (s : store) (ev id : Z) : result store :=
  if ev =? NULL then Ok s else eput s ev (set_event_id id).

Definition agc_event_create_callback (s : store) (source_id data callback : Z) : result (store * Z) :=
  let (s, p) := agc_event_create s 0 source_id in
  let! s := eput s p (set_callback callback data) in
  Ok (s, p).

(** The loop of [agc_event_get_header_ptr]. *)
Fixpoint find_header (fuel : nat) (s : store) (hp : Z) (header_name : cstr) : result Z :=
  match fuel with
  | O => OutOfFuel
  | S fuel' =>
      if hp =? NULL then Ok NULL
      else
        let! h := hget s hp in
        if same_nocase (name h) header_name then Ok hp
        else find_header fuel' s (next h) header_name
  end.

Definition agc_event_get_header_ptr (fuel : nat) (s : store) (ev : Z) (header_name : cstr) : result Z :=
  let! e := eget s ev in find_header fuel s (headers e) header_name.

Definition agc_event_get_header (fuel : nat) (s : store) (ev : Z) (header_name : cstr)
    : result (option cstr) :=
  let! hp := agc_event_get_header_ptr fuel s ev header_name in
  if hp =? NULL then Ok None else let! h := hget s hp in Ok (value h).

Definition new_header (s : store) (header_name : cstr) : store * Z :=
  let p := brk s in
  (Store (<[p := Header header_name None NULL]> (hdrs s)) (evts s) (p + 1), p).

(** The common end of the two [agc_event_base_add_header] functions: the
    header goes after the last one. *)
Definition append_header (s : store) (ev header : Z) (data : cstr) : result store :=
  let! s := hput s header (set_value (Some data)) in
  let! e := eget s ev in
  let! s :=
    (if last_header e =? NULL then
       let! s := eput s ev (set_headers header) in
       hput s header (set_next NULL)
     else hput s (last_header e) (set_next header)) in
  eput s ev (set_last header).

Definition agc_event_base_add_header (fuel : nat) (s : store) (ev : Z) (header_name data : cstr)
    : result store :=
  let! header := agc_event_get_header_ptr fuel s ev header_name in
  let! (s, header) :=
    (if header =? NULL then Ok (new_header s header_name)
     else let! s := hput s header (set_value None) in Ok (s, header)) in
  append_header s ev header data.

Definition agc_event_base_add_header_nocheck (s : store) (ev : Z) (header_name data : cstr)
    : result store :=
  let (s, header) := new_header s header_name in
  append_header s ev header data.

(** [agc_event_add_header] and its checking variant: [data] is what
    [agc_vasprintf] produced, [None] when it failed. *)
Definition agc_event_add_header (s : store) (ev : Z) (header_name : cstr) (data : option cstr)
    : result (store * agc_status) :=
  match data with
  | None => Ok (s, AGC_STATUS_MEMERR)
  | Some d =>
      let! s := agc_event_base_add_header_nocheck s ev header_name d in Ok (s, AGC_STATUS_SUCCESS)
  end.

Definition agc_event_add_header_repeatcheck (fuel : nat) (s : store) (ev : Z) (header_name : cstr)
    (data : option cstr) : result (store * agc_status) :=
  match data with
  | None => Ok (s, AGC_STATUS_MEMERR)
  | Some d =>
      let! s := agc_event_base_add_header fuel s ev header_name d in Ok (s, AGC_STATUS_SUCCESS)
  end.

Definition agc_event_add_header_string (fuel : nat) (s : store) (ev : Z) (header_name : cstr)
    (data : option cstr) : result (store * agc_status) :=
  match data with
  | Some d =>
      let! s := agc_event_base_add_header fuel s ev header_name d in Ok (s, AGC_STATUS_SUCCESS)
  | None => Ok (s, AGC_STATUS_GENERR)
  end.

(** The loop of [agc_event_del_header]; [lp] is the last header kept. *)
Fixpoint del_headers (fuel : nat) (s : store) (ev : Z) (header_name : cstr) (lp tp : Z)
    : result store :=
  match fuel with
  | O => OutOfFuel
  | S fuel' =>
      if tp =? NULL then Ok s
      else
        let hp := tp in
        let! h := hget s hp in
        let tp := next h in
        if same_nocase header_name (name h) then
          let! s :=
            (if lp =? NULL then eput s ev (set_headers (next h))
             else hput s lp (set_next (next h))) in
          let! e := eget s ev in
          let! s :=
            (if (hp =? last_header e) || (next h =? NULL) then eput s ev (set_last lp) else Ok s) in
          let! s := hfree s hp in
          del_headers fuel' s ev header_name lp tp
        else del_headers fuel' s ev header_name hp tp
  end.

Definition agc_event_del_header (fuel : nat) (s : store) (ev : Z) (header_name : cstr)
    : result (store * agc_status) :=
  let! e := eget s ev in
  let! s := del_headers fuel s ev header_name NULL (headers e) in
  Ok (s, AGC_STATUS_SUCCESS).

Definition agc_event_add_body (s : store) (ev : Z) (data : option cstr) : result (store * agc_status) :=
  match data with
  | None => Ok (s, AGC_STATUS_GENERR)
  | Some d => let! s := eput s ev (set_body (Some d)) in Ok (s, AGC_STATUS_SUCCESS)
  end.

Definition agc_event_set_body (s : store) (ev : Z) (b : option cstr) : result (store * agc_status) :=
  match b with
  | None => Ok (s, AGC_STATUS_GENERR)
  | Some d => let! s := eput s ev (set_body (Some d)) in Ok (s, AGC_STATUS_SUCCESS)
  end.

Definition agc_event_get_body (s : store) (ev : Z) : result (option cstr) :=
  if ev =? NULL then Ok None else let! e := eget s ev in Ok (body e).

(** The loop of [agc_event_destroy].  The event's own cell is never freed. *)
Fixpoint free_headers (fuel : nat) (s : store) (hp : Z) : result store :=
  match fuel with
  | O => OutOfFuel
  | S fuel' =>
      if hp =? NULL then Ok s
      else
        let this := hp in
        let! h := hget s hp in
        let! s := hfree s this in
        free_headers fuel' s (next h)
  end.

(** [agc_event_destroy(event)]; the result is the new value of [*event]. *)
Definition agc_event_destroy (fuel : nat) (s : store) (ev : Z) : result (store * Z) :=
  if ev =? NULL then Ok (s, NULL)
  else
    let! e := eget s ev in
    let! s := free_headers fuel s (headers e) in
    let! s := eput s ev (set_body None) in
    Ok (s, NULL).

(** The loop of [agc_event_dup]. *)
Fixpoint dup_headers (fuel : nat) (s : store) (ev hp : Z) : result store :=
  match fuel with
  | O => OutOfFuel
  | S fuel' =>
      if hp =? NULL then Ok s
      else
        let! h := hget s hp in
        let! (s, _) := agc_event_add_header_string fuel s ev (name h) (value h) in
        let! h := hget s hp in
        dup_headers fuel' s ev (next h)
  end.

Definition agc_event_dup (fuel : nat) (s : store) (todup : Z) : result (store * Z * agc_status) :=
  let! d := eget s todup in
  let (s, ev) := agc_event_create s (event_id d) (source_id d) in
  let! s := dup_headers fuel s ev (headers d) in
  let! d := eget s todup in
  let! s := (match body d with Some b => eput s ev (set_body (Some b)) | None => Ok s end) in
  Ok (s, ev, AGC_STATUS_SUCCESS).

End Ev.
