(* ===== verification/EventProof.v ===== *)
(** * Events: the header list as a list

    The linked headers of an event represent a list of name/value pairs; each
    operation is characterised on that list, with what it frees.  The last
    part shows what happens when a header is added under a name the event
    already has. *)

From stdpp Require Import base gmap list fin_maps.
From Stdlib Require Import ZArith Lia.
From S2P Require Import Prelude CString Event.

Module EvProof.
Import Ev.

(** ** Representation *)

(** An entry: the address of the header, its name and its value. *)
Abbreviation entry := (Z * (cstr * option cstr))%type.
Abbreviation addrs L := (L.*1).

(** The headers [L] linked from [p] up to the pointer [q]. *)
Fixpoint hseg (m : gmap Z header) (p : Z) (L : list entry) (q : Z) : Prop :=
  match L with
  | [] => p = q
  | (a, (n, v)) :: L' => p = a /\ a <> NULL /\
      exists nx, m !! a = Some (Header n v nx) /\ hseg m nx L' q
  end.

Definition last_addr (L : list entry) : Z := default NULL (last (addrs L)).

(** Event [ev] has the headers [L]. *)
Record has_headers (s : store) (ev : Z) (L : list entry) : Prop := HasHeaders {
  hh_event : exists e, evts s !! ev = Some e /\ hseg (hdrs s) (headers e) L NULL /\
    last_header e = last_addr L;
  hh_nodup : NoDup (addrs L) }.

(** Every live cell lies below the next fresh address. *)
Record store_ok (s : store) : Prop := StoreOk {
  so_hdrs : forall a, is_Some (hdrs s !! a) -> 0 < a < brk s;
  so_evts : forall a, is_Some (evts s !! a) -> 0 < a < brk s;
  so_brk : 0 < brk s }.

Lemma hget_bind {B} s p h (k : header -> result B) :
  hdrs s !! p = Some h -> rbind (hget s p) k = k h.
Proof. unfold hget. by intros ->. Qed.
Lemma eget_bind {B} s p e (k : event -> result B) :
  evts s !! p = Some e -> rbind (eget s p) k = k e.
Proof. unfold eget. by intros ->. Qed.
Lemma hput_ok s p f h : hdrs s !! p = Some h -> hput s p f = Ok (with_hdrs (<[p := f h]> (hdrs s)) s).
Proof. unfold hput, hget. by intros ->. Qed.
Lemma eput_ok s p f e : evts s !! p = Some e -> eput s p f = Ok (with_evts (<[p := f e]> (evts s)) s).
Proof. unfold eput, eget. by intros ->. Qed.
Lemma hfree_ok s p h : hdrs s !! p = Some h -> hfree s p = Ok (with_hdrs (delete p (hdrs s)) s).
Proof. unfold hfree. by intros ->. Qed.

Lemma hseg_app m p L1 L2 q :
  hseg m p (L1 ++ L2) q <-> exists r, hseg m p L1 r /\ hseg m r L2 q.
Proof.
  revert p; induction L1 as [|[a [n v]] L1 IH]; intros p; simpl.
  - naive_solver.
  - setoid_rewrite IH. naive_solver.
Qed.

Lemma hseg_ext m m' p L q :
  (forall a, a ∈ addrs L -> m' !! a = m !! a) -> hseg m p L q -> hseg m' p L q.
Proof.
  revert p; induction L as [|[a [n v]] L IH]; simpl; intros p Hm; [done|].
  intros (-> & ? & nx & Ha & HL). split_and!; try done. exists nx. split.
  - rewrite Hm by left. done.
  - apply IH; [|done]. intros b Hb. apply Hm. by right.
Qed.

Lemma hseg_insert m p L q k h : k ∉ addrs L -> hseg m p L q -> hseg (<[k := h]> m) p L q.
Proof. intros Hk. apply hseg_ext. intros a Ha. rewrite lookup_insert_ne; [done|]. by intros ->. Qed.
Lemma hseg_delete m p L q k : k ∉ addrs L -> hseg m p L q -> hseg (delete k m) p L q.
Proof. intros Hk. apply hseg_ext. intros a Ha. rewrite lookup_delete_ne; [done|]. by intros ->. Qed.

Lemma hseg_lookup m p L q a : hseg m p L q -> a ∈ addrs L -> is_Some (m !! a).
Proof.
  revert p; induction L as [|[b [n v]] L IH]; simpl; intros p; [by intros _ ?%elem_of_nil|].
  intros (-> & _ & nx & Hb & HL) [->|Ha]%elem_of_cons; [by eexists|eauto].
Qed.

(** The last cell of a segment can be made to point anywhere. *)
Lemma hseg_relink m p L a n v q q' :
  hseg m p (L ++ [(a, (n, v))]) q -> a ∉ addrs L ->
  hseg (<[a := Header n v q']> m) p (L ++ [(a, (n, v))]) q'.
Proof.
  rewrite !hseg_app. intros (r & HL & -> & Ha & nx & Hm & <-) Hni. exists a.
  split; [by apply hseg_insert|]. simpl. split_and!; try done. exists q'.
  by rewrite lookup_insert_eq.
Qed.

Lemma last_addr_snoc L x : last_addr (L ++ [x]) = x.1.
Proof. unfold last_addr. rewrite fmap_app. cbn [fmap list_fmap]. by rewrite last_snoc. Qed.

(** ** Looking up *)

(** The first entry whose name matches without regard to case. *)
Fixpoint lookup_header (L : list entry) (n : cstr) : option entry :=
  match L with
  | [] => None
  | x :: L' => if same_nocase x.2.1 n then Some x else lookup_header L' n
  end.

Lemma find_header_spec s p L n fuel :
  hseg (hdrs s) p L NULL -> (length L < fuel)%nat ->
  find_header fuel s p n = Ok (match lookup_header L n with Some x => x.1 | None => NULL end).
Proof.
  revert p fuel; induction L as [|[a [n' v]] L IH]; simpl; intros p fuel HL Hf;
    (destruct fuel as [|fuel]; [lia|]); simpl.
  - by rewrite HL.
  - destruct HL as (-> & Ha & nx & Hm & HL). rewrite (proj2 (Z.eqb_neq _ _) Ha).
    erewrite hget_bind by exact Hm. simpl. destruct (same_nocase n' n); [done|]. apply IH; [done|lia].
Qed.

Lemma lookup_header_elem L n x : lookup_header L n = Some x -> x ∈ L /\ same_nocase x.2.1 n = true.
Proof.
  induction L as [|y L IH]; simpl; [done|]. case_match; intros; simplify_eq.
  - split; [left|done].
  - destruct IH as [? ?]; [done|]. split; [by right|done].
Qed.

Lemma hseg_entry m p L q a n v : hseg m p L q -> (a, (n, v)) ∈ L ->
  a <> NULL /\ exists nx, m !! a = Some (Header n v nx).
Proof.
  revert p; induction L as [|[b [n' v']] L IH]; simpl; intros p; [by intros _ ?%elem_of_nil|].
  intros (-> & ? & nx & Hb & HL) [?|Hin]%elem_of_cons; [simplify_eq; eauto|eauto].
Qed.

Lemma get_header_ptr_spec s ev L n fuel :
  has_headers s ev L -> (length L < fuel)%nat ->
  agc_event_get_header_ptr fuel s ev n =
  Ok (match lookup_header L n with Some x => x.1 | None => NULL end).
Proof.
  intros [(e & He & HL & _) _] Hf. unfold agc_event_get_header_ptr.
  erewrite eget_bind by done. by apply find_header_spec.
Qed.

Lemma get_header_spec s ev L n fuel :
  has_headers s ev L -> (length L < fuel)%nat ->
  agc_event_get_header fuel s ev n =
  Ok (match lookup_header L n with Some x => x.2.2 | None => None end).
Proof.
  intros HH Hf. unfold agc_event_get_header.
  erewrite get_header_ptr_spec by done. rewrite rbind_Ok.
  destruct (lookup_header L n) as [[a [n' v]]|] eqn:Hl; simpl; [|done].
  destruct HH as [(e & He & HL & _) _]. apply lookup_header_elem in Hl as [Hin _].
  destruct (hseg_entry _ _ _ _ _ _ _ HL Hin) as [Ha (nx & Hm)].
  rewrite (proj2 (Z.eqb_neq _ _) Ha). by erewrite hget_bind by done.
Qed.

(** ** Appending *)

(** The event [s'] differs from [s] in the header list of [ev] only: the
    header [a] is behind the headers [L]. *)
Definition appended (s : store) (ev : Z) (L : list entry) (a : Z) (nv : cstr * option cstr) (s' : store) : Prop :=
  has_headers s' ev (L ++ [(a, nv)]) /\
  brk s' = brk s /\ dom (hdrs s') = dom (hdrs s) /\ dom (evts s') = dom (evts s) /\
  (forall k, k <> a -> k ∉ addrs L -> hdrs s' !! k = hdrs s !! k) /\
  (forall k, k <> ev -> evts s' !! k = evts s !! k) /\
  (forall e, evts s !! ev = Some e -> exists e', evts s' !! ev = Some e' /\
     event_id e' = event_id e /\ source_id e' = source_id e /\ body e' = body e).

Lemma append_first_spec s ev a n d :
  has_headers s ev [] -> a <> NULL -> hdrs s !! a = Some (Header n None NULL) ->
  exists s', append_header s ev a d = Ok s' /\ appended s ev [] a (n, Some d) s'.
Proof.
  intros [(e & He & HL & Hlast) Hnd] Ha Hh. unfold append_header.
  erewrite hput_ok by done. rewrite rbind_Ok. cbn [set_value name value next].
  erewrite eget_bind by done. rewrite Hlast.
  cbn [last_addr default last fmap list_fmap]. change (NULL =? NULL) with true. cbv iota.
  erewrite eput_ok by done. rewrite rbind_Ok.
  erewrite hput_ok by (cbn; apply lookup_insert_eq). cbn [with_evts with_hdrs hdrs evts brk].
  rewrite rbind_Ok.
  erewrite eput_ok by (cbn; apply lookup_insert_eq). cbn [with_evts with_hdrs hdrs evts brk].
  rewrite !insert_insert_eq. eexists. split; [reflexivity|]. unfold appended.
  cbn [with_evts with_hdrs hdrs evts brk]. split_and!; try done.
  - split; cbn [evts hdrs with_evts with_hdrs]; [|apply NoDup_singleton].
    eexists. split_and!; [by rewrite lookup_insert_eq| |done].
    cbn [hseg headers set_last set_headers]. split_and!; try done. eexists. by rewrite lookup_insert_eq.
  - by apply dom_insert_lookup_L.
  - by apply dom_insert_lookup_L.
  - intros. by rewrite lookup_insert_ne.
  - intros. by rewrite lookup_insert_ne.
  - intros e' ?; simplify_eq. eexists. by rewrite lookup_insert_eq.
Qed.

(** The addresses of a list extended at its end stay distinct. *)
Lemma addrs_snoc_nodup (L : list entry) a nv : NoDup (addrs L) -> a ∉ addrs L -> NoDup (addrs (L ++ [(a, nv)])).
Proof.
  intros Hnd Hni. rewrite fmap_app. apply NoDup_app. split_and!; [done| |apply NoDup_singleton].
  intros k Hk. cbn [fmap list_fmap fst]. rewrite not_elem_of_cons. split; [by intros ->|apply not_elem_of_nil].
Qed.

Lemma append_next_spec s ev L b n' v' a n d :
  has_headers s ev (L ++ [(b, (n', v'))]) -> a <> NULL -> a ∉ addrs (L ++ [(b, (n', v'))]) ->
  hdrs s !! a = Some (Header n None NULL) ->
  exists s', append_header s ev a d = Ok s' /\ appended s ev (L ++ [(b, (n', v'))]) a (n, Some d) s'.
Proof.
  intros [(e & He & HL & Hlast) Hnd0] Ha Hni0 Hh. unfold append_header.
  erewrite hput_ok by done. rewrite rbind_Ok. cbn [set_value name value next].
  erewrite eget_bind by done. rewrite Hlast, last_addr_snoc. cbn [fst].
  pose proof Hnd0 as Hnd. pose proof Hni0 as Hni.
  rewrite fmap_app in Hnd, Hni. apply NoDup_app in Hnd as (Hnd & Hdis & _).
  rewrite not_elem_of_app in Hni. destruct Hni as [Hni1 Hni2%not_elem_of_cons].
  destruct Hni2 as [Hab _]. cbn in Hab.
  assert (b ∉ addrs L) as HbL. { intros Hb. apply (Hdis b Hb). left. }
  pose proof HL as HL0. apply hseg_app in HL0 as (r & HL1 & -> & Hb & nx & Hm & Hnx). cbn in Hnx.
  rewrite (proj2 (Z.eqb_neq _ _) Hb).
  erewrite hput_ok by (cbn; by rewrite lookup_insert_ne). cbn [with_evts with_hdrs hdrs evts brk].
  rewrite rbind_Ok. erewrite eput_ok by done. cbn [with_evts with_hdrs hdrs evts brk set_next name value].
  eexists. split; [reflexivity|]. unfold appended. cbn [with_evts with_hdrs hdrs evts brk].
  split_and!; try done.
  - split; cbn [evts hdrs with_evts with_hdrs]; [|by apply addrs_snoc_nodup].
    eexists. split_and!; [by rewrite lookup_insert_eq| |by rewrite last_addr_snoc].
    cbn [headers set_last]. apply hseg_app. exists a. split.
    + rewrite insert_insert_ne by done. apply hseg_insert; [done|]. by eapply hseg_relink.
    + cbn [hseg]. split_and!; try done. exists NULL. split; [|done].
      rewrite lookup_insert_ne by done. by rewrite lookup_insert_eq.
  - rewrite dom_insert_lookup_L by (rewrite lookup_insert_ne by done; by eexists).
    by apply dom_insert_lookup_L.
  - by apply dom_insert_lookup_L.
  - intros k ? Hk. rewrite fmap_app, not_elem_of_app in Hk. destruct Hk as [? ?].
    rewrite !lookup_insert_ne; [done|done|]. intros <-. set_solver.
  - intros. by rewrite lookup_insert_ne.
  - intros e' ?; simplify_eq. eexists. by rewrite lookup_insert_eq.
Qed.

Lemma append_header_spec s ev L a n d :
  has_headers s ev L -> a <> NULL -> a ∉ addrs L -> hdrs s !! a = Some (Header n None NULL) ->
  exists s', append_header s ev a d = Ok s' /\ appended s ev L a (n, Some d) s'.
Proof.
  destruct L as [|[b [n' v']] L _] using rev_ind; intros; [by apply append_first_spec|by apply append_next_spec].
Qed.

(** What adding a header leaves alone: other cells and other events. *)
Record added (s : store) (ev : Z) (L : list entry) (s' : store) : Prop := Added {
  ad_hdrs : forall k, k < brk s -> k ∉ addrs L -> hdrs s' !! k = hdrs s !! k;
  ad_evts : forall k, k <> ev -> evts s' !! k = evts s !! k;
  ad_event : forall e, evts s !! ev = Some e -> exists e', evts s' !! ev = Some e' /\
    event_id e' = event_id e /\ source_id e' = source_id e /\ body e' = body e }.

Lemma has_headers_below s ev L a : store_ok s -> has_headers s ev L -> a ∈ addrs L -> 0 < a < brk s.
Proof. intros Hok [(e & _ & HL & _) _] Ha. apply (so_hdrs s Hok). by eapply hseg_lookup. Qed.

Lemma add_nocheck_spec s ev L n d :
  store_ok s -> has_headers s ev L ->
  exists s', agc_event_base_add_header_nocheck s ev n d = Ok s' /\ store_ok s' /\
    has_headers s' ev (L ++ [(brk s, (n, Some d))]) /\ added s ev L s' /\ brk s' = brk s + 1.
Proof.
  intros Hok HH. pose proof (so_brk s Hok).
  unfold agc_event_base_add_header_nocheck, new_header.
  set (s1 := Store (<[brk s := Header n None NULL]> (hdrs s)) (evts s) (brk s + 1)).
  assert (brk s ∉ addrs L) as Hni by (intros ?%(has_headers_below _ _ _ _ Hok HH); lia).
  assert (has_headers s1 ev L) as HH1.
  { destruct HH as [(e & He & HL & Hla) Hnd]. split; [|done]. exists e. split_and!; try done.
    by apply hseg_insert. }
  destruct (append_header_spec s1 ev L (brk s) n d HH1) as
    (s' & -> & HH' & Hbrk & Hd1 & Hd2 & Hf1 & Hf2 & He'); [unfold NULL; lia|done|apply lookup_insert_eq|].
  exists s'. split_and!; try done.
  - split.
    + intros a Ha. rewrite Hbrk. cbn. apply elem_of_dom in Ha. rewrite Hd1 in Ha.
      cbn in Ha. apply elem_of_dom in Ha. destruct (decide (a = brk s)) as [->|Hne]; [lia|].
      rewrite lookup_insert_ne in Ha by done. apply (so_hdrs s Hok) in Ha. lia.
    + intros a Ha. rewrite Hbrk. cbn. apply elem_of_dom in Ha. rewrite Hd2 in Ha.
      apply elem_of_dom in Ha. apply (so_evts s Hok) in Ha. lia.
    + rewrite Hbrk. cbn. lia.
  - split.
    + intros k Hk Hni'. rewrite Hf1 by (done || lia). cbn. by rewrite lookup_insert_ne by lia.
    + done.
    + done.
Qed.

(** The checking variant does the same when the name is new. *)
Lemma add_header_fresh s ev L n d fuel :
  store_ok s -> has_headers s ev L -> lookup_header L n = None -> (length L < fuel)%nat ->
  agc_event_base_add_header fuel s ev n d = agc_event_base_add_header_nocheck s ev n d.
Proof.
  intros Hok HH Hl Hf. unfold agc_event_base_add_header.
  erewrite get_header_ptr_spec by done. by rewrite Hl.
Qed.

(** ** Deleting *)

Definition matches (n : cstr) (x : entry) : bool := same_nocase n x.2.1.

(** Unlinking the header at [a] from the one before it, or from the event. *)
Lemma unlink_prev s ev e K R a na va nx :
  evts s !! ev = Some e -> hseg (hdrs s) (headers e) K a -> hseg (hdrs s) nx R NULL ->
  hdrs s !! a = Some (Header na va nx) -> NoDup (addrs K) -> a ∉ addrs K ->
  (forall k, k ∈ addrs K -> k ∉ a :: addrs R) ->
  exists e1 s1,
    (if last_addr K =? NULL then eput s ev (set_headers nx) else hput s (last_addr K) (set_next nx)) = Ok s1 /\
    evts s1 !! ev = Some e1 /\ hseg (hdrs s1) (headers e1) K nx /\ hseg (hdrs s1) nx R NULL /\
    last_header e1 = last_header e /\ hdrs s1 !! a = Some (Header na va nx) /\
    (forall k, k ∉ addrs K -> hdrs s1 !! k = hdrs s !! k) /\
    (forall k, k <> ev -> evts s1 !! k = evts s !! k).
Proof.
  intros He HK HR Hma HndK HaK HdKR. destruct K as [|[b [nb vb]] K _] using rev_ind.
  - change (last_addr [] =? NULL) with true. cbv iota. erewrite eput_ok by done.
    eexists _, _. split; [reflexivity|]. cbn. rewrite lookup_insert_eq.
    split_and!; try done. intros. by rewrite lookup_insert_ne.
  - rewrite last_addr_snoc. cbn [fst].
    pose proof HK as HK0. apply hseg_app in HK0 as (r & HK1 & -> & Hb & nx' & Hmb & Hnx').
    rewrite (proj2 (Z.eqb_neq _ _) Hb). erewrite hput_ok by done.
    rewrite fmap_app in HndK, HaK, HdKR. cbn [fmap list_fmap fst] in *.
    apply NoDup_app in HndK as (? & Hdb & _).
    rewrite not_elem_of_app, not_elem_of_cons in HaK. destruct HaK as (? & ? & _).
    exists e. eexists. split; [reflexivity|]. cbn. split_and!; try done.
    + eapply hseg_relink; [done|]. intros Hk. apply (Hdb b Hk). left.
    + apply hseg_insert; [|done]. intros Hk. apply (HdKR b); [set_solver|by right].
    + by rewrite lookup_insert_ne.
    + intros k Hk. rewrite lookup_insert_ne; [done|]. intros <-. apply Hk. rewrite fmap_app. set_solver.
Qed.

(** A segment that is not empty does not start at null. *)
Lemma hseg_start m p L r : hseg m p L r -> L <> [] -> p <> NULL.
Proof. destruct L as [|[a [? ?]] L]; [done|]. cbn. naive_solver. Qed.

(** The last pointer moves back when the last header goes. *)
Lemma move_last s ev e K R a nv nx :
  evts s !! ev = Some e -> last_header e = last_addr (K ++ (a, nv) :: R) -> a ∉ addrs R ->
  (R <> [] -> nx <> NULL) /\ (R = [] -> nx = NULL) ->
  exists e2 s2,
    (if (a =? last_header e) || (nx =? NULL) then eput s ev (set_last (last_addr K)) else Ok s) = Ok s2 /\
    evts s2 !! ev = Some e2 /\ headers e2 = headers e /\ hdrs s2 = hdrs s /\
    last_header e2 = last_addr (K ++ R) /\ (forall k, k <> ev -> evts s2 !! k = evts s !! k).
Proof.
  intros He Hla HaR [Hne Hnil]. rewrite Hla. destruct R as [|[b nb] R _] using rev_ind.
  - rewrite (Hnil eq_refl), orb_true_r. erewrite eput_ok by done.
    eexists _, _. split; [reflexivity|]. cbn. rewrite lookup_insert_eq, app_nil_r.
    split_and!; try done. intros. by rewrite lookup_insert_ne.
  - rewrite app_comm_cons, app_assoc, last_addr_snoc. cbn [fst].
    assert (a <> b) as Hab. { intros ->. apply HaR. rewrite fmap_app. set_solver. }
    assert (nx <> NULL) as Hnx by (apply Hne; by destruct R).
    rewrite (proj2 (Z.eqb_neq _ _) Hab), (proj2 (Z.eqb_neq _ _) Hnx). exists e, s. split_and!; try done.
    by rewrite Hla, app_comm_cons, !app_assoc, !last_addr_snoc.
Qed.

Lemma del_headers_spec s ev n K R e lp tp fuel :
  evts s !! ev = Some e ->
  hseg (hdrs s) (headers e) K tp -> hseg (hdrs s) tp R NULL ->
  NoDup (addrs (K ++ R)) -> lp = last_addr K -> last_header e = last_addr (K ++ R) ->
  (length R < fuel)%nat ->
  exists s', del_headers fuel s ev n lp tp = Ok s' /\
    has_headers s' ev (K ++ filter (fun x => matches n x = false) R) /\
    (forall x, x ∈ R -> matches n x = true -> hdrs s' !! x.1 = None) /\
    (forall k, k ∉ addrs (K ++ R) -> hdrs s' !! k = hdrs s !! k) /\
    (forall k, k <> ev -> evts s' !! k = evts s !! k).
Proof.
  revert s K R e lp tp; induction fuel as [|fuel IH]; intros s K R e lp tp He HK HR Hnd -> Hla Hf; [lia|].
  destruct R as [|[a [na va]] R]; cbn [del_headers].
  - simpl in HR. subst tp. change (NULL =? NULL) with true. cbv iota. exists s.
    rewrite filter_nil. split_and!; try done; [|by intros x ?%elem_of_nil].
    rewrite app_nil_r in *. split; [|done]. by exists e.
  - simpl in HR. destruct HR as (-> & Ha & nx & Hma & HR).
    rewrite (proj2 (Z.eqb_neq _ _) Ha). erewrite hget_bind by exact Hma. cbn [name next].
    pose proof Hnd as Hnd0. rewrite fmap_app, fmap_cons in Hnd0. cbn [fst] in Hnd0.
    apply NoDup_app in Hnd0 as (HndK & HdKR & HndR). apply NoDup_cons in HndR as [HaR HndR].
    assert (a ∉ addrs K) as HaK by (intros Hk; apply (HdKR a Hk); left).
    destruct (same_nocase n na) eqn:Hmatch.
    + (* the header goes *)
      destruct (unlink_prev s ev e K R a na va nx) as
        (e1 & s1 & -> & He1 & HK1 & HR1 & Hla1 & Hma1 & Hf1 & Hf2); try done.
      rewrite rbind_Ok. erewrite eget_bind by exact He1.
      destruct (move_last s1 ev e1 K R a (na, va) nx) as
        (e2 & s2 & -> & He2 & Hh2 & Hd2 & Hla2 & Hf3); [done|by rewrite Hla1|done|..].
      { split; [by eapply hseg_start|]. intros ->. done. }
      rewrite rbind_Ok. erewrite hfree_ok by (rewrite Hd2; exact Hma1). rewrite rbind_Ok.
      destruct (IH (with_hdrs (delete a (hdrs s2)) s2) K R e2 (last_addr K) nx) as
        (s' & -> & HH & Hfr & Hf4 & Hf5); try done.
      * rewrite Hh2, Hd2. cbn. by apply hseg_delete.
      * rewrite Hd2. cbn. by apply hseg_delete.
      * rewrite fmap_app. apply NoDup_app. split_and!; try done.
        intros k Hk Hk'. apply (HdKR k Hk). by right.
      * simpl in Hf. lia.
      * exists s'. split; [done|]. rewrite filter_cons_False by (unfold matches; simpl; by rewrite Hmatch).
        split_and!; try done.
        -- intros x [->|Hx]%elem_of_cons Hm; [|by apply Hfr]. cbn [fst].
           rewrite Hf4; [cbn; apply lookup_delete_eq|]. rewrite fmap_app. set_solver.
        -- intros k. rewrite fmap_app, fmap_cons. cbn [fst]. intros Hk.
           rewrite Hf4 by (rewrite fmap_app; set_solver). cbn. rewrite lookup_delete_ne by set_solver.
           rewrite Hd2. apply Hf1. set_solver.
        -- intros k Hk. rewrite Hf5, <- Hf2, <- Hf3 by done. done.
    + (* the header stays *)
      destruct (IH s (K ++ [(a, (na, va))]) R e a nx) as (s' & -> & HH & Hfr & Hf4 & Hf5); try done.
      * apply hseg_app. exists a. split; [done|]. simpl. split_and!; try done. by exists nx.
      * by rewrite <- app_assoc.
      * by rewrite last_addr_snoc.
      * by rewrite <- app_assoc.
      * simpl in Hf. lia.
      * exists s'. split; [done|]. rewrite filter_cons_True by (unfold matches; by simpl).
        rewrite <- app_assoc in HH, Hf4. split_and!; try done.
        intros x [->|Hx]%elem_of_cons Hm; [|by apply Hfr]. unfold matches in Hm. simpl in Hm. congruence.
Qed.

(** ** Destroying *)

Lemma free_headers_seg s p L q fuel :
  hseg (hdrs s) p L q -> NoDup (addrs L) ->
  free_headers (length L + fuel) s p =
  free_headers fuel (with_hdrs (foldr delete (hdrs s) (addrs L)) s) q.
Proof.
  revert s p; induction L as [|[a [n v]] L IH]; intros s p HL Hnd.
  - simpl in HL. subst. by destruct s.
  - simpl in HL. destruct HL as (-> & Ha & nx & Hm & HL).
    rewrite fmap_cons in Hnd. apply NoDup_cons in Hnd as [Hni Hnd]. cbn [fst] in Hni.
    cbn [length Nat.add free_headers]. rewrite (proj2 (Z.eqb_neq _ _) Ha).
    erewrite hget_bind by exact Hm. erewrite hfree_ok by exact Hm. rewrite rbind_Ok. cbn [next].
    rewrite IH; [|by apply hseg_delete|done]. f_equal. unfold with_hdrs. cbn. f_equal.
    clear. induction (addrs L) as [|b l IH]; simpl; [done|]. by rewrite IH, delete_delete.
Qed.

Lemma lookup_foldr_delete (m : gmap Z header) l k :
  foldr delete m l !! k = if decide (k ∈ l) then None else m !! k.
Proof.
  induction l as [|a l IH]; simpl; [done|].
  destruct (decide (k = a)) as [->|Hne].
  - rewrite lookup_delete_eq. by rewrite decide_True by left.
  - rewrite lookup_delete_ne, IH by done.
    destruct (decide (k ∈ l)); [by rewrite decide_True by (by right)|].
    rewrite decide_False; [done|]. by rewrite not_elem_of_cons.
Qed.

Lemma destroy_frame s ev L fuel :
  has_headers s ev L -> ev <> NULL -> (length L < fuel)%nat ->
  exists s', agc_event_destroy fuel s ev = Ok (s', NULL) /\
    (forall k, hdrs s' !! k = if decide (k ∈ addrs L) then None else hdrs s !! k) /\
    (forall k, k <> ev -> evts s' !! k = evts s !! k) /\ brk s' = brk s.
Proof.
  intros [(e & He & HL & _) Hnd] Hev Hf. unfold agc_event_destroy.
  rewrite (proj2 (Z.eqb_neq _ _) Hev). erewrite eget_bind by done.
  replace fuel with (length L + (fuel - length L))%nat by lia.
  erewrite free_headers_seg by done. destruct (fuel - length L)%nat as [|f] eqn:Hfu; [lia|].
  cbn [free_headers]. change (NULL =? NULL) with true. cbv iota. rewrite rbind_Ok.
  erewrite eput_ok by done. eexists. split; [reflexivity|]. cbn. split_and!; [|intros; by rewrite lookup_insert_ne|done].
  intros k. apply lookup_foldr_delete.
Qed.

Lemma destroy_spec s ev L fuel :
  has_headers s ev L -> ev <> NULL -> (length L < fuel)%nat ->
  exists s', agc_event_destroy fuel s ev = Ok (s', NULL) /\
    (forall k, hdrs s' !! k = if decide (k ∈ addrs L) then None else hdrs s !! k) /\
    (forall k, k <> ev -> evts s' !! k = evts s !! k).
Proof. intros. destruct (destroy_frame s ev L fuel) as (s' & ? & ? & ? & _); [done..|]. by exists s'. Qed.

(** ** Adding under a name the event already has

    [agc_event_base_add_header] links the header it found after the last one:
    the list then ends in a loop. *)

(** The headers [L] linked from the event, the last one pointing back to [q]. *)
Definition looped (s : store) (ev : Z) (L : list entry) (q : Z) : Prop :=
  (exists e, evts s !! ev = Some e /\ hseg (hdrs s) (headers e) L q) /\
  NoDup (addrs L) /\ q ∈ addrs L.

Definition set_entry (a : Z) (d : cstr) (x : entry) : entry :=
  if x.1 =? a then (x.1, (x.2.1, Some d)) else x.

Lemma addrs_set_entry a d L : addrs (set_entry a d <$> L) = addrs L.
Proof.
  rewrite <- list_fmap_compose. apply list_fmap_ext. intros _ x _. unfold set_entry. simpl.
  by destruct (x.1 =? a).
Qed.

(** Writing the value of one header. *)
Lemma hseg_set_value m p L q a n v nx d :
  hseg m p L q -> NoDup (addrs L) -> m !! a = Some (Header n v nx) ->
  hseg (<[a := Header n (Some d) nx]> m) p (set_entry a d <$> L) q.
Proof.
  revert p; induction L as [|[b [n' v']] L IH]; intros p HL Hnd Hm; [done|].
  destruct HL as (-> & Hb & nx' & Hmb & HL). apply NoDup_cons in Hnd as [Hni Hnd].
  change (set_entry a d <$> (b, (n', v')) :: L) with
    (set_entry a d (b, (n', v')) :: (set_entry a d <$> L)).
  unfold set_entry at 1. cbn [fst snd]. destruct (b =? a) eqn:E; cbn [hseg].
  - apply Z.eqb_eq in E as ->. rewrite Hm in Hmb. simplify_eq. split_and!; try done.
    exists nx'. rewrite lookup_insert_eq. split; [done|].
    assert (set_entry a d <$> L = L) as ->.
    { rewrite <- (list_fmap_id L) at 2. apply list_fmap_ext. intros i x Hx. unfold set_entry.
      destruct (x.1 =? a) eqn:E; [|done]. apply Z.eqb_eq in E. exfalso. apply Hni.
      apply list_elem_of_lookup_2, (list_elem_of_fmap_2 fst) in Hx. rewrite E in Hx. exact Hx. }
    by apply hseg_insert.
  - apply Z.eqb_neq in E. split_and!; try done. exists nx'. rewrite lookup_insert_ne by done. split; [done|].
    by apply IH.
Qed.

Lemma set_entry_name a d x : (set_entry a d x).2.1 = x.2.1.
Proof. unfold set_entry. by destruct (x.1 =? a). Qed.

Lemma add_header_loops s ev L n d x fuel :
  has_headers s ev L -> lookup_header L n = Some x -> (length L < fuel)%nat ->
  exists s', agc_event_base_add_header fuel s ev n d = Ok s' /\
    looped s' ev (set_entry x.1 d <$> L) x.1.
Proof.
  intros HH Hl Hf. unfold agc_event_base_add_header.
  erewrite get_header_ptr_spec by done. rewrite Hl, rbind_Ok.
  destruct HH as [(e & He & HL & Hla) Hnd]. destruct x as [a [na va]].
  destruct (lookup_header_elem _ _ _ Hl) as [Hin _].
  destruct (hseg_entry _ _ _ _ _ _ _ HL Hin) as [Ha (nx & Hma)]. cbn [fst].
  assert (a ∈ addrs L) as HaL by (apply (list_elem_of_fmap_2 fst) in Hin; exact Hin).
  rewrite (proj2 (Z.eqb_neq _ _) Ha). erewrite hput_ok by exact Hma. rewrite !rbind_Ok.
  unfold append_header. erewrite hput_ok by (cbn; apply lookup_insert_eq). rewrite rbind_Ok.
  cbn [set_value name value next with_hdrs hdrs evts brk]. rewrite insert_insert_eq.
  erewrite eget_bind by exact He. rewrite Hla.
  pose proof (hseg_set_value _ _ _ _ a na va nx d HL Hnd Hma) as HL'.
  destruct L as [|[b nb] L _] using rev_ind; [by apply elem_of_nil in HaL|].
  rewrite last_addr_snoc. cbn [fst].
  rewrite fmap_app in HL'. cbn [fmap list_fmap] in HL'.
  rewrite fmap_app in Hnd. apply NoDup_app in Hnd as (HndL & Hdis & _).
  assert (b ∉ addrs (set_entry a d <$> L)) as HbL.
  { rewrite addrs_set_entry. intros Hb. apply (Hdis b Hb). left. }
  assert (exists nb', set_entry a d (b, nb) = (b, nb')) as ([n' v'] & Hse).
  { unfold set_entry. cbn. destruct (b =? a); eauto. }
  rewrite Hse in HL'. pose proof HL' as HL2. apply hseg_app in HL2 as (r & _ & -> & Hb & nx' & Hmb & _).
  rewrite (proj2 (Z.eqb_neq _ _) Hb). erewrite hput_ok by exact Hmb. rewrite rbind_Ok.
  erewrite eput_ok by exact He. eexists. split; [reflexivity|].
  split; [|split].
  - eexists. cbn. split; [apply lookup_insert_eq|]. cbn.
    rewrite fmap_app. cbn [fmap list_fmap]. rewrite Hse. by eapply hseg_relink.
  - rewrite addrs_set_entry, fmap_app. apply NoDup_app. split_and!; [done| |apply NoDup_singleton].
    intros k Hk Hk'. by apply (Hdis k Hk).
  - by rewrite addrs_set_entry.
Qed.

(** Looking for a name that is not there never ends. *)
Lemma find_header_loops fuel s p L1 L2 q n :
  hseg (hdrs s) p L2 q -> q ∈ addrs (L1 ++ L2) ->
  Forall (fun x => same_nocase x.2.1 n = false) (L1 ++ L2) ->
  (exists r, hseg (hdrs s) r (L1 ++ L2) q) ->
  find_header fuel s p n = OutOfFuel.
Proof.
  intros H2 Hq Hn [r HL]. remember (L1 ++ L2) as L eqn:EL. revert p L1 L2 EL H2.
  induction fuel as [|fuel IH]; intros p L1 L2 EL H2; [done|].
  assert (forall a na va L3 L4, L = L3 ++ (a, (na, va)) :: L4 -> hseg (hdrs s) a ((a, (na, va)) :: L4) q ->
    find_header (S fuel) s a n = OutOfFuel) as Hstep.
  { intros a na va L3 L4 E4 (_ & Ha & nx & Hm & H4). cbn [find_header].
    rewrite (proj2 (Z.eqb_neq _ _) Ha). erewrite hget_bind by exact Hm. cbn [name next].
    rewrite E4 in Hn. apply Forall_app in Hn as [_ [Hn' _]%Forall_cons]. cbn in Hn'. rewrite Hn'.
    apply (IH nx (L3 ++ [(a, (na, va))]) L4); [by rewrite <- app_assoc|done]. }
  destruct L2 as [|[a [na va]] L2].
  - simpl in H2. subst p. apply list_elem_of_fmap in Hq as ([a [na va]] & -> & Hin).
    apply list_elem_of_split in Hin as (L3 & L4 & ->). cbn [fst].
    apply hseg_app in HL as (r' & _ & HL). pose proof HL as (-> & _).
    by apply (Hstep a na va L3 L4).
  - destruct H2 as (-> & H2). by apply (Hstep a na va L1 L2).
Qed.

Lemma looped_lookup s ev L q n fuel :
  looped s ev L q -> Forall (fun x => same_nocase x.2.1 n = false) L ->
  agc_event_get_header fuel s ev n = OutOfFuel.
Proof.
  intros ((e & He & HL) & Hnd & Hq) Hn. unfold agc_event_get_header, agc_event_get_header_ptr.
  erewrite eget_bind by exact He.
  rewrite (find_header_loops fuel s (headers e) [] L q n); eauto.
Qed.

(** Destroying the event walks into a header it has already freed. *)
Lemma looped_destroy s ev L q fuel :
  looped s ev L q -> ev <> NULL -> (length L < fuel)%nat ->
  agc_event_destroy fuel s ev = Fault BadPointer.
Proof.
  intros ((e & He & HL) & Hnd & Hq) Hev Hf. unfold agc_event_destroy.
  rewrite (proj2 (Z.eqb_neq _ _) Hev). erewrite eget_bind by exact He.
  replace fuel with (length L + (fuel - length L))%nat by lia.
  erewrite free_headers_seg by done. destruct (fuel - length L)%nat as [|f] eqn:Hfu; [lia|].
  cbn [free_headers].
  apply list_elem_of_fmap in Hq as ([a [na va]] & -> & Hin).
  destruct (hseg_entry _ _ _ _ _ _ _ HL Hin) as [Ha _]. cbn [fst].
  rewrite (proj2 (Z.eqb_neq _ _) Ha). unfold hget. cbn. rewrite lookup_foldr_delete, decide_True; [done|].
  apply (list_elem_of_fmap_2 fst) in Hin. exact Hin.
Qed.

(** ** Copying *)

(** No two headers have the same name up to case. *)
Definition distinct_names (L : list entry) : Prop :=
  forall L1 x L2, L = L1 ++ x :: L2 -> Forall (fun y => same_nocase y.2.1 x.2.1 = false) L1.

Lemma lookup_header_none L n :
  lookup_header L n = None <-> Forall (fun y => same_nocase y.2.1 n = false) L.
Proof.
  induction L as [|x L IH]; simpl; [done|]. rewrite Forall_cons.
  destruct (same_nocase x.2.1 n); naive_solver.
Qed.

Lemma Forall_names (n : cstr) (K L : list entry) :
  K.*2 = L.*2 -> Forall (fun y => same_nocase y.2.1 n = false) L ->
  Forall (fun y => same_nocase y.2.1 n = false) K.
Proof.
  intros HE HL.
  assert (Forall (fun p => same_nocase p.1 n = false) (L.*2)) as H by by apply Forall_fmap.
  rewrite <- HE in H. by apply Forall_fmap in H.
Qed.

Lemma dup_headers_spec fuel s ev K L1 R hp :
  store_ok s -> has_headers s ev K -> K.*2 = L1.*2 -> distinct_names (L1 ++ R) ->
  hseg (hdrs s) hp R NULL -> Forall (fun x => x.2.2 <> None) R ->
  (forall a, a ∈ addrs R -> a ∉ addrs K) ->
  (length K + 2 * length R < fuel)%nat ->
  exists s' K', dup_headers fuel s ev hp = Ok s' /\ store_ok s' /\ has_headers s' ev K' /\
    K'.*2 = (L1 ++ R).*2 /\ added s ev K s' /\
    (forall a, a ∈ addrs K' -> a ∈ addrs K \/ brk s <= a).
Proof.
  revert s K L1 R hp; induction fuel as [|fuel IH]; intros s K L1 R hp Hok HK HE Hdn HR Hv Hdis Hf; [lia|].
  cbn [dup_headers]. destruct R as [|[a [n v]] R].
  - simpl in HR. subst hp. change (NULL =? NULL) with true. cbv iota. exists s, K.
    rewrite app_nil_r. split_and!; try done; [|by left].
    split; [done|done|]. intros e He. by exists e.
  - destruct HR as (-> & Ha & nx & Hm & HR). rewrite (proj2 (Z.eqb_neq _ _) Ha).
    erewrite hget_bind by exact Hm. cbn [name value next].
    apply Forall_cons in Hv as [Hva Hv]. cbn in Hva. destruct v as [d|]; [|done].
    unfold agc_event_add_header_string.
    assert (lookup_header K n = None) as HKn.
    { apply lookup_header_none. eapply Forall_names; [exact HE|].
      exact (Hdn L1 (a, (n, Some d)) R eq_refl). }
    rewrite (add_header_fresh s ev K n d) by (done || (simpl in Hf; lia)).
    destruct (add_nocheck_spec s ev K n d Hok HK) as (s1 & -> & Hok1 & HK1 & [Ah Ae Aev] & Hbrk).
    rewrite !rbind_Ok.
    assert (forall b, b ∈ addrs ((a, (n, Some d)) :: R) -> hdrs s1 !! b = hdrs s !! b) as Hsame.
    { intros b Hb. apply Ah; [|by apply Hdis].
      apply elem_of_cons in Hb as [->|Hb].
      - apply (so_hdrs s Hok). by eexists.
      - apply (so_hdrs s Hok). by eapply hseg_lookup. }
    erewrite hget_bind by (rewrite Hsame by left; exact Hm). cbn [next].
    destruct (IH s1 (K ++ [(brk s, (n, Some d))]) (L1 ++ [(a, (n, Some d))]) R nx) as
      (s' & K' & -> & Hok' & HK' & HE' & [Bh Be Bev] & Hnew); try done.
    + rewrite !fmap_app, HE. done.
    + by rewrite <- app_assoc.
    + eapply hseg_ext; [|exact HR]. intros b Hb. apply Hsame. by right.
    + intros b Hb. rewrite fmap_app, not_elem_of_app. split; [apply Hdis; by right|].
      cbn. rewrite not_elem_of_cons. split; [|apply not_elem_of_nil].
      assert (b < brk s); [|lia]. apply (so_hdrs s Hok). by eapply hseg_lookup.
    + rewrite length_app. simpl in *. lia.
    + exists s', K'. rewrite <- app_assoc in HE'. split_and!; try done; [split|].
      * intros k Hk Hni. rewrite Bh; [by apply Ah|lia|]. rewrite fmap_app, not_elem_of_app. split; [done|].
        cbn. rewrite not_elem_of_cons. split; [lia|apply not_elem_of_nil].
      * intros k Hk. rewrite Be by done. by apply Ae.
      * intros e He. destruct (Aev e He) as (e1 & He1 & ? & ? & ?).
        destruct (Bev e1 He1) as (e2 & He2 & ? & ? & ?). exists e2. split_and!; try done; congruence.
      * intros b Hb. apply Hnew in Hb as [Hb|Hb]; [|right; lia].
        rewrite fmap_app, elem_of_app in Hb. destruct Hb as [?|[->|?%elem_of_nil]%elem_of_cons]; [by left| |done].
        right. cbn. lia.
Qed.

(** A store that has grown: what was allocated before is as it was. *)
Record extends (s s' : store) : Prop := Extends {
  ex_ok : store_ok s';
  ex_brk : brk s <= brk s';
  ex_frame : forall k, k < brk s -> hdrs s' !! k = hdrs s !! k /\ evts s' !! k = evts s !! k }.

Lemma extends_refl s : store_ok s -> extends s s.
Proof. by split. Qed.
Lemma extends_trans s1 s2 s3 : extends s1 s2 -> extends s2 s3 -> extends s1 s3.
Proof.
  intros [_ ? H1] [? ? H2]. split; [done|lia|]. intros k Hk.
  destruct (H1 k Hk) as [<- <-]. apply H2. lia.
Qed.

Lemma extends_headers s s' ev L : store_ok s -> extends s s' -> has_headers s ev L -> has_headers s' ev L.
Proof.
  intros Hok [_ _ Hfr] [(e & He & HL & Hla) Hnd]. split; [|done]. exists e.
  destruct (Hfr ev) as [_ ->]; [apply (so_evts _ Hok); by eexists|]. split_and!; [done| |done].
  eapply hseg_ext; [|done]. intros a Ha. apply Hfr, (so_hdrs _ Hok). by eapply hseg_lookup.
Qed.

(** Writing the body of an event leaves its headers. *)
Lemma set_body_headers s ev e K t : has_headers s ev K -> evts s !! ev = Some e ->
  has_headers (with_evts (<[ev := set_body t e]> (evts s)) s) ev K.
Proof.
  intros [(e' & He' & HKs & HKl) HKn] He. rewrite He in He'. injection He' as <-. split; [|done].
  eexists. cbn. by rewrite lookup_insert_eq.
Qed.

Lemma update_ok s ev f e : store_ok s -> evts s !! ev = Some e -> store_ok (with_evts (<[ev := f e]> (evts s)) s).
Proof.
  intros Hok He. split; cbn; [apply (so_hdrs _ Hok)| |apply (so_brk _ Hok)]. intros a Ha. apply (so_evts _ Hok).
  destruct (decide (a = ev)) as [->|]; [by eexists|]. by rewrite lookup_insert_ne in Ha.
Qed.

Lemma create_extends s id src : store_ok s -> extends s (fst (agc_event_create s id src)).
Proof.
  intros Hok. pose proof (so_brk s Hok). cbn. split; [split| |]; cbn.
  - intros a Ha. apply (so_hdrs s Hok) in Ha. lia.
  - intros a Ha. destruct (decide (a = brk s)) as [->|]; [lia|].
    rewrite lookup_insert_ne in Ha by done. apply (so_evts s Hok) in Ha. lia.
  - lia.
  - lia.
  - intros k Hk. by rewrite lookup_insert_ne by lia.
Qed.

Lemma dup_frame s todup d L fuel :
  store_ok s -> has_headers s todup L -> evts s !! todup = Some d ->
  distinct_names L -> Forall (fun x => x.2.2 <> None) L -> (2 * length L < fuel)%nat ->
  exists s' K e, agc_event_dup fuel s todup = Ok (s', brk s, AGC_STATUS_SUCCESS) /\
    has_headers s' (brk s) K /\ K.*2 = L.*2 /\ extends s s' /\ brk s < brk s' /\
    Forall (fun a => brk s <= a) (addrs K) /\ evts s' !! brk s = Some e /\
    event_id e = event_id d /\ source_id e = source_id d /\ body e = body d.
Proof.
  intros Hok HL Hd Hdn Hv Hf. unfold agc_event_dup. erewrite eget_bind by exact Hd.
  pose proof (create_extends s (event_id d) (source_id d) Hok) as Hex. unfold agc_event_create in *. cbn [fst] in Hex.
  set (e0 := Event (event_id d) (source_id d) 0 NULL NULL NULL NULL None NULL) in *.
  set (s1 := Store (hdrs s) (<[brk s := e0]> (evts s)) (brk s + 1)) in *.
  assert (todup <> brk s) as Hne.
  { assert (todup < brk s); [|lia]. apply (so_evts s Hok). by eexists. }
  assert (evts s1 !! brk s = Some e0) as He0 by apply lookup_insert_eq.
  destruct HL as [(d' & Hd' & HL & Hla) Hnd]. rewrite Hd in Hd'. injection Hd' as <-.
  destruct (dup_headers_spec fuel s1 (brk s) [] [] L (headers d)) as
    (s2 & K & -> & Hok2 & HK & HE & [Ah Ae Aev] & Hnew); try done.
  { apply Hex. }
  { split; [|apply NoDup_nil_2]. exists e0. done. }
  { intros a _. apply not_elem_of_nil. }
  rewrite rbind_Ok.
  assert (evts s2 !! todup = Some d) as Hd2 by (rewrite Ae by done; cbn; by rewrite lookup_insert_ne).
  erewrite eget_bind by exact Hd2.
  destruct (Aev e0 He0) as (e2 & He2 & Hid & Hsrc & Hbd).
  assert (Forall (fun a => brk s <= a) (addrs K)) as Hlow.
  { apply Forall_forall. intros a [?%elem_of_nil|Ha]%Hnew; [done|]. cbn in Ha. lia. }
  assert (brk s < brk s2) as Hb2 by (apply (so_evts _ Hok2); by eexists).
  assert (extends s s2) as Hex2.
  { split; [done|lia|]. intros k Hk. rewrite Ah, Ae; [|lia|cbn; lia|apply not_elem_of_nil]. cbn.
    by rewrite lookup_insert_ne by lia. }
  destruct (body d) as [t|] eqn:Hbody.
  - erewrite eput_ok by exact He2. rewrite rbind_Ok. eexists _, K, (set_body (Some t) e2). split; [reflexivity|].
    split_and!; try done; [by apply set_body_headers| |cbn; apply lookup_insert_eq].
    split; [by apply update_ok|apply Hex2|]. intros k Hk. cbn. rewrite lookup_insert_ne by lia. by apply Hex2.
  - rewrite rbind_Ok. eexists _, K, e2. split; [reflexivity|]. by split_and!.
Qed.

Lemma dup_spec s todup d L fuel :
  store_ok s -> has_headers s todup L -> evts s !! todup = Some d ->
  distinct_names L -> Forall (fun x => x.2.2 <> None) L -> (2 * length L < fuel)%nat ->
  exists s' ev K e, agc_event_dup fuel s todup = Ok (s', ev, AGC_STATUS_SUCCESS) /\ ev <> todup /\
    has_headers s' ev K /\ K.*2 = L.*2 /\ has_headers s' todup L /\
    (forall a, a ∈ addrs K -> a ∉ addrs L) /\ evts s' !! ev = Some e /\
    event_id e = event_id d /\ source_id e = source_id d /\ body e = body d.
Proof.
  intros Hok HL Hd Hdn Hv Hf.
  destruct (dup_frame s todup d L fuel) as (s' & K & e & Hdup & HK & HE & Hex & _ & Hlow & He & Hid); try done.
  exists s', (brk s), K, e. split_and!; try done; try apply Hid.
  - assert (todup < brk s); [|lia]. apply (so_evts s Hok). by eexists.
  - by eapply extends_headers.
  - intros a Ha HaL. apply (proj1 (Forall_forall _ _) Hlow) in Ha.
    apply (has_headers_below _ _ _ _ Hok HL) in HaL. lia.
Qed.

End EvProof.

(** ** Theorems *)

Import Ev EvProof.

(** An event at address 1 with the headers ["a"] and ["b"] at 2 and 3. *)
Definition demo_entries : list entry := [(2, ([97], Some [49])); (3, ([98], Some [50]))].
Definition demo_event : event := Event 7 9 0 2 3 0 0 (Some [120; 121]) 0.
Definition demo_store : store :=
  Store (list_to_map [(2, Header [97] (Some [49]) 3); (3, Header [98] (Some [50]) 0)])
    (list_to_map [(1, demo_event)]) 4.

Lemma demo_has_headers : has_headers demo_store 1 demo_entries.
Proof.
  split.
  - exists demo_event. split_and!; [done| |done]. simpl. split_and!; try done.
    eexists. split; [reflexivity|]. split_and!; try done. by eexists.
  - apply (bool_decide_unpack _). by vm_compute.
Qed.

Lemma demo_store_ok : store_ok demo_store.
Proof.
  split; [| |done].
  - assert (map_Forall (fun a (_ : header) => 0 < a < 4) (hdrs demo_store)) as H.
    { apply (bool_decide_unpack _). by vm_compute. }
    intros a [h Ha]. exact (H a h Ha).
  - assert (map_Forall (fun a (_ : event) => 0 < a < 4) (evts demo_store)) as H.
    { apply (bool_decide_unpack _). by vm_compute. }
    intros a [h Ha]. exact (H a h Ha).
Qed.

(** Adding a header under a new name appends it, keeps the headers the
    event had, and a lookup under any spelling of the name then finds its
    value. *)
Theorem agc_event_add_header_string_new s ev L n n' d fuel :
  store_ok s -> has_headers s ev L -> lookup_header L n = None ->
  same_nocase n n' = true -> (S (length L) < fuel)%nat ->
  exists s', agc_event_add_header_string fuel s ev n (Some d) = Ok (s', AGC_STATUS_SUCCESS) /\
    store_ok s' /\ has_headers s' ev (L ++ [(brk s, (n, Some d))]) /\
    agc_event_get_header fuel s' ev n' = Ok (Some d).
Proof.
  intros Hok HL Hn Hnn Hf. unfold agc_event_add_header_string.
  rewrite (add_header_fresh s ev L) by (done || lia).
  destruct (add_nocheck_spec s ev L n d Hok HL) as (s' & -> & Hok' & HL' & _ & _).
  exists s'. split_and!; try done.
  rewrite (get_header_spec s' ev _ n' fuel HL') by (rewrite length_app; simpl; lia). f_equal.
  apply lookup_header_none in Hn. clear - Hn Hnn.
  induction Hn as [|x L Hx Hn IH]; simpl; [by rewrite Hnn|].
  rewrite same_nocase_sym, <- (same_nocase_subst _ _ _ Hnn), same_nocase_sym, Hx. exact IH.
Qed.

Lemma agc_event_add_header_string_new_witness :
  exists s', agc_event_add_header_string 10 demo_store 1 [99] (Some [51]) = Ok (s', AGC_STATUS_SUCCESS) /\
    agc_event_get_header 10 s' 1 [67] = Ok (Some [51]).
Proof.
  destruct (agc_event_add_header_string_new demo_store 1 demo_entries [99] [67] [51] 10
    demo_store_ok demo_has_headers) as (s' & ? & _ & _ & ?); [reflexivity|reflexivity|simpl; lia|].
  exists s'. split; assumption.
Defined.

(** [agc_event_del_header] removes every header whose name matches
    without regard to case, keeps the others in order with a correct last
    pointer, and frees exactly the removed ones. *)
Theorem agc_event_del_header_correct s ev L n fuel :
  has_headers s ev L -> (length L < fuel)%nat ->
  exists s', agc_event_del_header fuel s ev n = Ok (s', AGC_STATUS_SUCCESS) /\
    has_headers s' ev (filter (fun x => matches n x = false) L) /\
    (forall x, x ∈ L -> matches n x = true -> hdrs s' !! x.1 = None) /\
    (forall k, k ∉ addrs L -> hdrs s' !! k = hdrs s !! k).
Proof.
  intros [(e & He & HL & Hla) Hnd] Hf. unfold agc_event_del_header. erewrite eget_bind by exact He.
  destruct (del_headers_spec s ev n [] L e NULL (headers e) fuel) as (s' & -> & ? & ? & ? & _); try done.
  by exists s'.
Qed.

Lemma agc_event_del_header_correct_witness :
  exists s', agc_event_del_header 3 demo_store 1 [66] = Ok (s', AGC_STATUS_SUCCESS) /\
    has_headers s' 1 [(2, ([97], Some [49]))] /\ hdrs s' !! 3 = None.
Proof.
  destruct (agc_event_del_header_correct demo_store 1 demo_entries [66] 3 demo_has_headers)
    as (s' & ? & ? & Hfree & _); [simpl; lia|].
  exists s'. split; [assumption|]. split; [assumption|].
  apply (Hfree (3, ([98], Some [50]))); [right; left|reflexivity].
Defined.

(** [agc_event_destroy] frees every header of the event exactly once,
    touches no other header and no other event, and clears the pointer. *)
Theorem agc_event_destroy_correct s ev L fuel :
  has_headers s ev L -> ev <> Ev.NULL -> (length L < fuel)%nat ->
  exists s', agc_event_destroy fuel s ev = Ok (s', Ev.NULL) /\
    (forall k, hdrs s' !! k = if decide (k ∈ addrs L) then None else hdrs s !! k) /\
    (forall k, k <> ev -> evts s' !! k = evts s !! k).
Proof. apply destroy_spec. Qed.

Lemma agc_event_destroy_correct_witness :
  exists s', agc_event_destroy 3 demo_store 1 = Ok (s', 0) /\ hdrs s' !! 2 = None /\ hdrs s' !! 3 = None.
Proof.
  destruct (agc_event_destroy_correct demo_store 1 demo_entries 3 demo_has_headers)
    as (s' & ? & Hfree & _); [discriminate|simpl; lia|].
  exists s'. split; [assumption|]. split; rewrite Hfree; reflexivity.
Defined.

(** Adding a header under a name the event already has (in any case)
    re-links the header behind the last one, so that the list ends in a loop:
    looking up a name that is not there then runs forever, and destroying the
    event walks into a header that it has freed. *)
Theorem agc_event_add_header_string_repeated s ev L n d x fuel :
  has_headers s ev L -> lookup_header L n = Some x -> (length L < fuel)%nat -> ev <> Ev.NULL ->
  exists s', agc_event_add_header_string fuel s ev n (Some d) = Ok (s', AGC_STATUS_SUCCESS) /\
    (forall n' fuel', lookup_header L n' = None -> agc_event_get_header fuel' s' ev n' = OutOfFuel) /\
    agc_event_destroy fuel s' ev = Fault BadPointer.
Proof.
  intros HL Hx Hf Hev. unfold agc_event_add_header_string.
  destruct (add_header_loops s ev L n d x fuel HL Hx Hf) as (s' & -> & Hloop).
  exists s'. split_and!; [done| |].
  - intros n' fuel' Hn'. eapply looped_lookup; [exact Hloop|].
    apply lookup_header_none in Hn'. apply Forall_fmap. eapply Forall_impl; [exact Hn'|].
    intros y Hy. simpl. by rewrite set_entry_name.
  - eapply looped_destroy; [exact Hloop|done|]. by rewrite length_fmap.
Qed.

Lemma agc_event_add_header_string_repeated_witness :
  exists s', agc_event_add_header_string 5 demo_store 1 [65] (Some [51]) = Ok (s', AGC_STATUS_SUCCESS) /\
    agc_event_get_header 1000 s' 1 [122] = OutOfFuel /\ agc_event_destroy 5 s' 1 = Fault BadPointer.
Proof.
  destruct (agc_event_add_header_string_repeated demo_store 1 demo_entries [65] [51]
    (2, ([97], Some [49])) 5 demo_has_headers) as (s' & ? & Hhang & ?);
    [reflexivity|simpl; lia|discriminate|].
  exists s'. split; [assumption|]. split; [|assumption]. apply Hhang. reflexivity.
Defined.

(** [agc_event_dup] of an event whose header names are distinct up to
    case makes a separate event with the same id, source, body and headers in
    the same order, in cells of its own, and leaves the original as it was. *)
Theorem agc_event_dup_correct s todup d L fuel :
  store_ok s -> has_headers s todup L -> evts s !! todup = Some d ->
  distinct_names L -> Forall (fun x => x.2.2 <> None) L -> (2 * length L < fuel)%nat ->
  exists s' ev K e, agc_event_dup fuel s todup = Ok (s', ev, AGC_STATUS_SUCCESS) /\ ev <> todup /\
    has_headers s' ev K /\ K.*2 = L.*2 /\ has_headers s' todup L /\
    (forall a, a ∈ addrs K -> a ∉ addrs L) /\ evts s' !! ev = Some e /\
    event_id e = event_id d /\ source_id e = source_id d /\ body e = body d.
Proof. apply dup_spec. Qed.

Lemma agc_event_dup_correct_witness :
  exists s' ev K e, agc_event_dup 5 demo_store 1 = Ok (s', ev, AGC_STATUS_SUCCESS) /\
    has_headers s' ev K /\ K.*2 = [([97], Some [49]); ([98], Some [50])] /\
    evts s' !! ev = Some e /\ event_id e = 7 /\ body e = Some [120; 121].
Proof.
  destruct (agc_event_dup_correct demo_store 1 demo_event demo_entries 5 demo_store_ok demo_has_headers)
    as (s' & ev & K & e & ? & _ & ? & ? & _ & _ & ? & ? & _ & ?).
  - reflexivity.
  - intros L1 x L2 E. unfold demo_entries in E. destruct L1 as [|y [|z [|w L1]]]; simplify_eq/=.
    + constructor.
    + repeat constructor.
  - repeat constructor; discriminate.
  - simpl. lia.
  - exists s', ev, K, e. auto 10.
Defined.
