(* ===== verification/EventBus.v ===== *)
(** * The event bus

    The rest of [src/src/agc_event.c]: event ids and names, subscriptions, the
    dispatch queues and the delivery of an event, and the pools of pre-built
    ("fast") events.  The subscriptions of an id are the list of their nodes
    from the head of the linked list; callbacks are addresses, and delivering
    an event yields the list of calls made.  The queues are those of [Queue],
    the events those of [Event]. *)

From stdpp Require Import base gmap list fin_maps.
From stdpp Require Import strings.
From Stdlib Require Import ZArith Lia.
From S2P Require Import Prelude CString Queue Event.

Module Bus.
Import Ev.

Definition EVENT_NULL_SOURCEID : Z := 0.
Definition EVENT_ID_LIMIT : Z := 1024.
Definition EVENT_ID_ALL : Z := 0.
Definition EVENT_ID_EVENTSOCKET : Z := 1.
Definition EVENT_ID_CMDRESULT : Z := 2.
Definition EVENT_ID_SIG2MEDIA : Z := 3.
Definition EVENT_ID_MEDIA2SIG : Z := 4.
Definition EVENT_ID_JSONCMD : Z := 5.
Definition EVENT_FAST_TYPE_CallBack : Z := 0.
Definition EVENT_FAST_TYPE_Invalid : Z := 27.
Definition DISPATCH_QUEUE_LIMIT : Z := 10000.
Definition UINT32_MAX : Z := 2 ^ 32 - 1.

(** Note that a negative id is not invalid. *)
Definition EVENT_ID_IS_INVALID (x : Z) : bool := (x =? EVENT_ID_ALL) || (EVENT_ID_LIMIT <=? x).

(** [struct agc_event_node]; its [next] is its position in the list. *)
Record agc_event_node := EventNode {
  node_addr : Z;
  node_id : cstr;
  node_event_id : Z;
  node_callback : Z }.

(** The statics of [agc_event.c].  [event_templates] and [EVENT_NODES] are
    arrays of [EVENT_ID_LIMIT] entries, absent keys being null. *)
Record bus := BusState {
  SYSTEM_RUNNING : bool;
  MAX_DISPATCHER : Z;
  EVENT_SOURCE_ID : Z;
  event_templates : gmap Z cstr;
  EVENT_NODES : gmap Z (list agc_event_node);
  EVENT_DISPATCH_QUEUES : list Queue.apr_queue_t;
  FAST_EVENT_QUEUES : gmap Z Queue.apr_queue_t;
  fast_type : gmap Z Z;       (* [((fast_event_node_t * ) p)->type] *)
  mem : store }.

Definition with_source i b := BusState (SYSTEM_RUNNING b) (MAX_DISPATCHER b) i (event_templates b)
  (EVENT_NODES b) (EVENT_DISPATCH_QUEUES b) (FAST_EVENT_QUEUES b) (fast_type b) (mem b).
Definition with_templates t b := BusState (SYSTEM_RUNNING b) (MAX_DISPATCHER b) (EVENT_SOURCE_ID b) t
  (EVENT_NODES b) (EVENT_DISPATCH_QUEUES b) (FAST_EVENT_QUEUES b) (fast_type b) (mem b).
Definition with_nodes n b := BusState (SYSTEM_RUNNING b) (MAX_DISPATCHER b) (EVENT_SOURCE_ID b)
  (event_templates b) n (EVENT_DISPATCH_QUEUES b) (FAST_EVENT_QUEUES b) (fast_type b) (mem b).
Definition with_queues q b := BusState (SYSTEM_RUNNING b) (MAX_DISPATCHER b) (EVENT_SOURCE_ID b)
  (event_templates b) (EVENT_NODES b) q (FAST_EVENT_QUEUES b) (fast_type b) (mem b).
Definition with_fast f b := BusState (SYSTEM_RUNNING b) (MAX_DISPATCHER b) (EVENT_SOURCE_ID b)
  (event_templates b) (EVENT_NODES b) (EVENT_DISPATCH_QUEUES b) f (fast_type b) (mem b).
Definition with_mem m b := BusState (SYSTEM_RUNNING b) (MAX_DISPATCHER b) (EVENT_SOURCE_ID b)
  (event_templates b) (EVENT_NODES b) (EVENT_DISPATCH_QUEUES b) (FAST_EVENT_QUEUES b) (fast_type b) m.
Definition with_running r b := BusState r (MAX_DISPATCHER b) (EVENT_SOURCE_ID b) (event_templates b)
  (EVENT_NODES b) (EVENT_DISPATCH_QUEUES b) (FAST_EVENT_QUEUES b) (fast_type b) (mem b).

(** ** Start *)

Definition init_ids : gmap Z cstr :=
  list_to_map [(EVENT_ID_ALL, bytes_of "all"%string); (EVENT_ID_EVENTSOCKET, bytes_of "esl"%string);
    (EVENT_ID_CMDRESULT, bytes_of "api_res"%string); (EVENT_ID_SIG2MEDIA, bytes_of "sig2media"%string);
    (EVENT_ID_MEDIA2SIG, bytes_of "media2sig"%string); (EVENT_ID_JSONCMD, bytes_of "om_cmd"%string)].

(** [agc_event_init] up to the start of the threads: twice the processors plus
    one queues. *)
Definition agc_event_init (cpu_count : Z) (m : store) : bus :=
  let n := wrap 32 (2 * cpu_count + 1) in
  let n := if n <? 2 then 2 else n in
  BusState true n 0 init_ids ∅
    (replicate (Z.to_nat n) (Queue.apr_queue_create DISPATCH_QUEUE_LIMIT)) ∅ ∅ m.

(** ** Sources, ids and names *)

Definition agc_event_alloc_source (b : bus) : bus * Z :=
  let source_id := wrap 32 (EVENT_SOURCE_ID b + 1) in
  (with_source (if source_id =? UINT32_MAX then 0 else source_id) b, source_id).

(** An index into one of the arrays of [EVENT_ID_LIMIT] entries. *)
Definition in_array (i : Z) : bool := (0 <=? i) && (i <? EVENT_ID_LIMIT).

Definition agc_event_register (b : bus) (event_id : Z) (event_name : cstr) : result (bus * agc_status) :=
  if EVENT_ID_IS_INVALID event_id then Ok (b, AGC_STATUS_GENERR)
  else if negb (in_array event_id) then Fault OutOfBounds
  else
    match event_templates b !! event_id with
    | Some _ => Ok (b, AGC_STATUS_GENERR)
    | None => Ok (with_templates (<[event_id := event_name]> (event_templates b)) b, AGC_STATUS_SUCCESS)
    end.

(** The loop of [agc_event_get_id], from index [i] on, with [n] left. *)
Fixpoint get_id_loop (n : nat) (b : bus) (i : Z) (event_name : cstr) : option Z :=
  match n with
  | O => None
  | S n' =>
      match event_templates b !! i with
      | Some t => if same_nocase event_name t then Some i else get_id_loop n' b (i + 1) event_name
      | None => get_id_loop n' b (i + 1) event_name
      end
  end.
Definition agc_event_get_id (b : bus) (event_name : option cstr) : agc_status * option Z :=
  match event_name with
  | None => (AGC_STATUS_GENERR, None)
  | Some n =>
      match get_id_loop (Z.to_nat EVENT_ID_LIMIT) b 0 n with
      | Some i => (AGC_STATUS_SUCCESS, Some i)
      | None => (AGC_STATUS_GENERR, None)
      end
  end.

Definition agc_event_get_name (b : bus) (event_id : Z) : result (option cstr) :=
  if EVENT_ID_IS_INVALID event_id then Ok None
  else if negb (in_array event_id) then Fault OutOfBounds
  else Ok (event_templates b !! event_id).

(** ** Subscriptions *)

Definition nodes_at (b : bus) (i : Z) : list agc_event_node := default [] (EVENT_NODES b !! i).

(** [agc_event_bind_removable]: the new node, at the fresh address [addr],
    becomes the head of the list of its id. *)
Definition agc_event_bind_removable (b : bus) (addr : Z) (id : cstr) (event_id callback : Z)
    : result (bus * agc_status * option agc_event_node) :=
  if EVENT_ID_LIMIT <? event_id then Ok (b, AGC_STATUS_GENERR, None)
  else
    let node := EventNode addr id event_id callback in
    if negb (in_array event_id) then Fault OutOfBounds
    else Ok (with_nodes (<[event_id := node :: nodes_at b event_id]> (EVENT_NODES b)) b,
             AGC_STATUS_SUCCESS, Some node).

Definition agc_event_bind (b : bus) (addr : Z) (id : cstr) (event_id callback : Z)
    : result (bus * agc_status) :=
  let! (b, st, _) := agc_event_bind_removable b addr id event_id callback in Ok (b, st).

(** The loop of [agc_event_unbind]: the first node at the given address goes. *)
Fixpoint unlink_node (addr : Z) (l : list agc_event_node) : option (list agc_event_node) :=
  match l with
  | [] => None
  | n :: l' =>
      if node_addr n =? addr then Some l'
      else match unlink_node addr l' with Some l'' => Some (n :: l'') | None => None end
  end.

(** [agc_event_unbind( *node )]; the third result is the new value of [*node]. *)
Definition agc_event_unbind (b : bus) (node : option agc_event_node)
    : result (bus * agc_status * option agc_event_node) :=
  match node with
  | None => Ok (b, AGC_STATUS_GENERR, None)
  | Some n =>
      if negb (in_array (node_event_id n)) then Fault OutOfBounds
      else
        match unlink_node (node_addr n) (nodes_at b (node_event_id n)) with
        | Some l => Ok (with_nodes (<[node_event_id n := l]> (EVENT_NODES b)) b, AGC_STATUS_SUCCESS, None)
        | None => Ok (b, AGC_STATUS_FALSE, Some n)
        end
  end.

(** The inner loop of [agc_event_unbind_callback]: it stops at the first node
    with the callback. *)
Fixpoint unlink_callback (callback : Z) (l : list agc_event_node) : option (list agc_event_node) :=
  match l with
  | [] => None
  | n :: l' =>
      if node_callback n =? callback then Some l'
      else match unlink_callback callback l' with Some l'' => Some (n :: l'') | None => None end
  end.

Fixpoint unbind_callback_loop (n : nat) (b : bus) (id callback : Z) (st : agc_status) : bus * agc_status :=
  match n with
  | O => (b, st)
  | S n' =>
      match unlink_callback callback (nodes_at b id) with
      | Some l =>
          unbind_callback_loop n' (with_nodes (<[id := l]> (EVENT_NODES b)) b) (id + 1) callback AGC_STATUS_SUCCESS
      | None => unbind_callback_loop n' b (id + 1) callback st
      end
  end.
Definition agc_event_unbind_callback (b : bus) (callback : Z) : bus * agc_status :=
  unbind_callback_loop (Z.to_nat EVENT_ID_LIMIT) b 0 callback AGC_STATUS_FALSE.

(** ** Firing *)

(** [agc_event_fire(event)]: [random] is what [rand()] returns when the event
    has no source.  A full queue makes the caller wait in [agc_queue_push]. *)
Definition queue_index (b : bus) (source_id random : Z) : Z :=
  if source_id =? EVENT_NULL_SOURCEID then random mod MAX_DISPATCHER b else source_id mod MAX_DISPATCHER b.

Definition agc_event_fire (fuel : nat) (b : bus) (ev random : Z)
    : result (bus * option agc_status) :=
  if ev =? NULL then Ok (b, Some AGC_STATUS_GENERR)
  else if negb (SYSTEM_RUNNING b) then
    let! (m, _) := agc_event_destroy fuel (mem b) ev in
    Ok (with_mem m b, Some AGC_STATUS_SUCCESS)
  else
    let! e := eget (mem b) ev in
    let i := Z.to_nat (queue_index b (source_id e) random) in
    match EVENT_DISPATCH_QUEUES b !! i with
    | None => Fault OutOfBounds
    | Some q =>
        let! (q, o) := Queue.apr_queue_push q ev in
        let b := with_queues (<[i := q]> (EVENT_DISPATCH_QUEUES b)) b in
        match o with
        | Queue.Return _ => Ok (b, Some AGC_STATUS_SUCCESS)
        | Queue.Wait => Ok (b, None)
        end
    end.

(** ** Delivery *)

(** A call of a callback: its address and its argument. *)
Definition call := (Z * Z)%type.

(** [agc_event_fast_release]: back into the pool of its type. *)
Definition agc_event_fast_release (b : bus) (ev : Z) : result (bus * agc_status) :=
  if ev =? NULL then Ok (b, AGC_STATUS_FALSE)
  else
    let! e := eget (mem b) ev in
    if fast e =? NULL then Ok (b, AGC_STATUS_FALSE)
    else
      match fast_type b !! fast e with
      | None => Fault BadPointer
      | Some ty =>
          match FAST_EVENT_QUEUES b !! ty with
          | None => Fault BadPointer
          | Some q =>
              let! (q, _) := Queue.apr_queue_trypush q ev in
              Ok (with_fast (<[ty := q]> (FAST_EVENT_QUEUES b)) b, AGC_STATUS_SUCCESS)
          end
      end.

(** The calls of [agc_event_deliver]: the event's own callback with its
    context, or the subscribers of its id and then those of all events. *)
Definition deliver_calls (b : bus) (ev : Z) (e : event) : result (list call) :=
  if negb (SYSTEM_RUNNING b) then Ok []
  else if negb (call_back e =? NULL) then Ok [(call_back e, context e)]
  else if negb (in_array (event_id e)) then Fault OutOfBounds
  else Ok ((fun n => (node_callback n, ev)) <$>
             nodes_at b (event_id e) ++ nodes_at b EVENT_ID_ALL).

Definition agc_event_deliver (fuel : nat) (b : bus) (ev : Z) : result (bus * list call) :=
  let! e := eget (mem b) ev in
  let! calls := deliver_calls b ev e in
  if fast e =? NULL then
    let! (m, _) := agc_event_destroy fuel (mem b) ev in
    Ok (with_mem m b, calls)
  else
    let! (b, _) := agc_event_fast_release b ev in
    Ok (b, calls).

(** One turn of the loop of [agc_event_dispatch_thread] on queue [i]: [None]
    when the thread ends, otherwise the calls made. *)
Definition dispatch_turn (fuel : nat) (b : bus) (i : nat) : result (bus * option (list call)) :=
  if negb (SYSTEM_RUNNING b) then Ok (b, None)
  else
    match EVENT_DISPATCH_QUEUES b !! i with
    | None => Fault OutOfBounds
    | Some q =>
        let! (q, st, pop) := Queue.apr_queue_trypop q in
        let b := with_queues (<[i := q]> (EVENT_DISPATCH_QUEUES b)) b in
        match st, pop with
        | Queue.APR_SUCCESS, Some ev =>
            if ev =? NULL then Ok (b, None)
            else
              let! (b, calls) := agc_event_deliver fuel b ev in
              Ok (b, Some calls)
        | _, _ => Ok (b, Some [])
        end
    end.

(** ** Pools of fast events *)

(** [agc_event_fast_alloc] *)
Definition agc_event_fast_alloc (b : bus) (ty : Z) : result (bus * agc_status * option Z) :=
  if EVENT_FAST_TYPE_Invalid <=? ty then Ok (b, AGC_STATUS_GENERR, None)
  else if ty <? 0 then Fault OutOfBounds
  else
    match FAST_EVENT_QUEUES b !! ty with
    | None => Ok (b, AGC_STATUS_GENERR, None)
    | Some q =>
        let! (q, st, pop) := Queue.apr_queue_trypop q in
        let b := with_fast (<[ty := q]> (FAST_EVENT_QUEUES b)) b in
        match st with
        | Queue.APR_SUCCESS => Ok (b, AGC_STATUS_SUCCESS, pop)
        | _ => Ok (b, AGC_STATUS_GENERR, None)
        end
    end.

Definition agc_event_fast_create_callback (b : bus) (data callback : Z)
    : result (bus * agc_status * option Z) :=
  let! (b, st, ev) := agc_event_fast_alloc b EVENT_FAST_TYPE_CallBack in
  match st, ev with
  | AGC_STATUS_SUCCESS, Some p =>
      let! m := eput (mem b) p (set_callback callback data) in
      Ok (with_mem m b, AGC_STATUS_SUCCESS, Some p)
  | _, _ => Ok (b, AGC_STATUS_GENERR, None)
  end.

End Bus.
