(* ===== verification/EventBusProof.v ===== *)
(** * The event bus: order, delivery and subscriptions *)

From stdpp Require Import base gmap list fin_maps.
From Stdlib Require Import ZArith Lia.
From S2P Require Import Prelude CString Queue Event EventProof EventBus.

Module BusProof.
Import Ev EvProof Bus.

(** ** Source ids *)

Fixpoint alloc_sources (n : nat) (b : bus) : bus * list Z :=
  match n with
  | O => (b, [])
  | S n' =>
      let (b, s) := agc_event_alloc_source b in
      let (b, l) := alloc_sources n' b in (b, s :: l)
  end.

Lemma alloc_source_step b :
  0 <= EVENT_SOURCE_ID b < UINT32_MAX ->
  agc_event_alloc_source b =
    (with_source ((EVENT_SOURCE_ID b + 1) mod UINT32_MAX) b, EVENT_SOURCE_ID b + 1).
Proof.
  intros H. unfold agc_event_alloc_source, wrap, UINT32_MAX in *.
  rewrite (Z.mod_small _ (2 ^ 32)) by lia.
  destruct (EVENT_SOURCE_ID b + 1 =? 2 ^ 32 - 1) eqn:E.
  - apply Z.eqb_eq in E. rewrite E, Z.mod_same by lia. done.
  - apply Z.eqb_neq in E. by rewrite Z.mod_small by lia.
Qed.

Lemma alloc_sources_nth n b i x :
  0 <= EVENT_SOURCE_ID b < UINT32_MAX ->
  (alloc_sources n b).2 !! i = Some x -> x = 1 + (EVENT_SOURCE_ID b + Z.of_nat i) mod UINT32_MAX.
Proof.
  revert b i; induction n as [|n IH]; intros b i H Hi; cbn [alloc_sources] in Hi; [done|].
  rewrite alloc_source_step in Hi by done.
  set (b1 := with_source ((EVENT_SOURCE_ID b + 1) mod UINT32_MAX) b) in *.
  destruct (alloc_sources n b1) as [b2 l] eqn:E. cbn [snd] in Hi.
  destruct i as [|i]; simpl in Hi.
  - simplify_eq. rewrite Z.add_0_r, Z.mod_small by lia. lia.
  - specialize (IH b1 i). rewrite E in IH. rewrite IH; [|cbn; apply Z.mod_pos_bound; unfold UINT32_MAX; lia|done].
    cbn [EVENT_SOURCE_ID b1 with_source]. rewrite Zplus_mod_idemp_l. f_equal. f_equal. lia.
Qed.

(** ** The dispatch queues *)

Record bus_ok (b : bus) : Prop := BusOk {
  bo_disp : 0 < MAX_DISPATCHER b;
  bo_queues : Z.of_nat (length (EVENT_DISPATCH_QUEUES b)) = MAX_DISPATCHER b;
  bo_wf : Forall (fun q => Queue.wf q /\ Queue.terminated q = false) (EVENT_DISPATCH_QUEUES b) }.

(** The events waiting in queue [i], the oldest first. *)
Definition waiting (b : bus) (i : nat) : list Z :=
  match EVENT_DISPATCH_QUEUES b !! i with Some q => Queue.contents q | None => [] end.

Definition queue_of (b : bus) (source : Z) : nat := Z.to_nat (source mod MAX_DISPATCHER b).

Lemma queue_of_lt b source : bus_ok b -> (queue_of b source < length (EVENT_DISPATCH_QUEUES b))%nat.
Proof.
  intros [Hd Hq _]. unfold queue_of. pose proof (Z.mod_pos_bound source (MAX_DISPATCHER b)). lia.
Qed.

Lemma fire_spec fuel b ev e rnd :
  bus_ok b -> SYSTEM_RUNNING b = true -> ev <> NULL -> evts (mem b) !! ev = Some e ->
  source_id e <> EVENT_NULL_SOURCEID ->
  Z.of_nat (length (waiting b (queue_of b (source_id e)))) < DISPATCH_QUEUE_LIMIT ->
  Forall (fun q => Queue.bounds q = DISPATCH_QUEUE_LIMIT) (EVENT_DISPATCH_QUEUES b) ->
  exists b', agc_event_fire fuel b ev rnd = Ok (b', Some AGC_STATUS_SUCCESS) /\
    bus_ok b' /\ SYSTEM_RUNNING b' = true /\ mem b' = mem b /\ MAX_DISPATCHER b' = MAX_DISPATCHER b /\
    EVENT_NODES b' = EVENT_NODES b /\
    Forall (fun q => Queue.bounds q = DISPATCH_QUEUE_LIMIT) (EVENT_DISPATCH_QUEUES b') /\
    forall i, waiting b' i = waiting b i ++ (if decide (i = queue_of b (source_id e)) then [ev] else []).
Proof.
  intros Hok Hrun Hev He Hsrc Hlen Hbd. unfold agc_event_fire.
  rewrite (proj2 (Z.eqb_neq _ _) Hev), Hrun. cbn [negb].
  erewrite eget_bind by exact He. unfold queue_index. rewrite (proj2 (Z.eqb_neq _ _) Hsrc).
  fold (queue_of b (source_id e)). set (i := queue_of b (source_id e)) in *.
  pose proof (queue_of_lt b (source_id e) Hok) as Hi. fold i in Hi.
  destruct (lookup_lt_is_Some_2 _ _ Hi) as [q Hq]. rewrite Hq.
  pose proof Hok as [Hd Hql Hwf]. destruct (Forall_lookup_1 _ _ _ _ Hwf Hq) as [Hqwf Hterm].
  pose proof (Forall_lookup_1 _ _ _ _ Hbd Hq) as Hqb. simpl in Hqb.
  unfold waiting in Hlen. rewrite Hq in Hlen. rewrite (Queue.full_length q Hqwf) in Hlen.
  unfold Queue.apr_queue_push, Queue.apr_queue_full. rewrite Hterm, (proj2 (Z.eqb_neq _ _)) by lia.
  destruct (Queue.put_spec q ev Hqwf) as (q' & -> & Hwf' & Hc' & _ & _ & Ht' & Hb'); [lia|].
  rewrite !rbind_Ok. eexists. split; [reflexivity|]. cbn. split_and!; try done.
  - split; cbn; [done|by rewrite length_insert|]. apply Forall_insert; [done|]. split; [done|congruence].
  - apply Forall_insert; [done|]. congruence.
  - intros j. unfold waiting. cbn. destruct (decide (j = i)) as [->|Hne].
    + rewrite list_lookup_insert_eq by done. by rewrite Hq, Hc'.
    + rewrite list_lookup_insert_ne by done. by rewrite app_nil_r.
Qed.

(** Firing a sequence of events. *)
Fixpoint fire_all (fuel : nat) (b : bus) (evs : list Z) : result bus :=
  match evs with
  | [] => Ok b
  | ev :: evs' => let! (b, _) := agc_event_fire fuel b ev 0 in fire_all fuel b evs'
  end.

(** The events of a sequence that go to queue [i]. *)
Definition goes_to (b : bus) (i : nat) (ev : Z) : bool :=
  match evts (mem b) !! ev with
  | Some e => bool_decide (i = queue_of b (source_id e))
  | None => false
  end.
Definition routed (b : bus) (i : nat) (evs : list Z) : list Z :=
  filter (fun ev => goes_to b i ev = true) evs.

(** What an event needs to be fired. *)
Definition fireable (b : bus) (ev : Z) : Prop :=
  ev <> NULL /\ exists e, evts (mem b) !! ev = Some e /\ source_id e <> EVENT_NULL_SOURCEID.

Lemma fire_all_spec fuel b evs :
  bus_ok b -> SYSTEM_RUNNING b = true -> Forall (fireable b) evs ->
  Forall (fun q => Queue.bounds q = DISPATCH_QUEUE_LIMIT) (EVENT_DISPATCH_QUEUES b) ->
  (forall i, Z.of_nat (length (waiting b i) + length evs) <= DISPATCH_QUEUE_LIMIT) ->
  exists b', fire_all fuel b evs = Ok b' /\ bus_ok b' /\ mem b' = mem b /\
    EVENT_NODES b' = EVENT_NODES b /\ SYSTEM_RUNNING b' = true /\
    forall i, waiting b' i = waiting b i ++ routed b i evs.
Proof.
  revert b; induction evs as [|ev evs IH]; intros b Hok Hrun Hf Hbd Hlen; cbn [fire_all].
  - exists b. split_and!; try done. intros i. by rewrite app_nil_r.
  - apply Forall_cons in Hf as [(Hev & e & He & Hsrc) Hf].
    destruct (fire_spec fuel b ev e 0) as (b1 & -> & Hok1 & Hrun1 & Hm1 & Hmax1 & Hn1 & Hbd1 & Hw1); try done.
    { specialize (Hlen (queue_of b (source_id e))). simpl in Hlen. lia. }
    rewrite rbind_Ok.
    assert (forall i evs, routed b1 i evs = routed b i evs) as Hr1.
    { intros i l. unfold routed. apply list_filter_iff. intros x. unfold goes_to, queue_of. by rewrite Hm1, Hmax1. }
    destruct (IH b1) as (b2 & -> & Hok2 & Hm2 & Hn2 & Hrun2 & Hw2); try done.
    { eapply Forall_impl; [exact Hf|]. unfold fireable. by rewrite Hm1. }
    { intros i. specialize (Hlen i). rewrite Hw1, length_app. simpl in Hlen.
      destruct (decide _); simpl; lia. }
    exists b2. split_and!; try congruence. intros i. rewrite Hw2, Hw1, Hr1, <- app_assoc. f_equal.
    unfold routed, goes_to. destruct (decide (i = queue_of b (source_id e))) as [Hi|Hi].
    + rewrite filter_cons_True; [done|]. rewrite He. by apply bool_decide_eq_true.
    + rewrite filter_cons_False; [done|]. rewrite He. by rewrite bool_decide_eq_true.
Qed.

(** ** Subscriptions *)

Lemma unlink_node_spec a l n :
  NoDup (node_addr <$> l) -> n ∈ l -> node_addr n = a ->
  unlink_node a l = Some (filter (fun m => node_addr m <> a) l).
Proof.
  induction l as [|m l IH]; intros Hnd Hin Ha; simpl; [by apply elem_of_nil in Hin|].
  apply NoDup_cons in Hnd as [Hni Hnd]. destruct (node_addr m =? a) eqn:E.
  - apply Z.eqb_eq in E. rewrite filter_cons_False by by intros ?. f_equal. symmetry.
    apply list_filter_all, Forall_forall. intros x Hx Hxa. apply Hni. rewrite E, <- Hxa.
    by apply list_elem_of_fmap_2.
  - apply Z.eqb_neq in E. apply elem_of_cons in Hin as [->|Hin]; [done|].
    rewrite IH by done. by rewrite filter_cons_True.
Qed.

End BusProof.

Import Ev EvProof Bus BusProof.

(** ** Theorems *)

(** The [i]-th source id allocated is [1 + (start + i) mod (2^32 - 1)]:
    ids are never the null source, and [2^32 - 1] allocations in a row are all
    different. *)
Theorem agc_event_alloc_source_sequence n b i x :
  0 <= EVENT_SOURCE_ID b < UINT32_MAX -> (alloc_sources n b).2 !! i = Some x ->
  x = 1 + (EVENT_SOURCE_ID b + Z.of_nat i) mod UINT32_MAX /\ x <> EVENT_NULL_SOURCEID.
Proof.
  intros H Hi. rewrite (alloc_sources_nth n b i x H Hi). split; [done|].
  pose proof (Z.mod_pos_bound (EVENT_SOURCE_ID b + Z.of_nat i) UINT32_MAX).
  unfold EVENT_NULL_SOURCEID, UINT32_MAX in *. lia.
Qed.

Definition demo_bus : bus :=
  with_source (2 ^ 32 - 3) (agc_event_init 1 demo_store).

Lemma agc_event_alloc_source_sequence_witness :
  (alloc_sources 3 demo_bus).2 = [2 ^ 32 - 2; 2 ^ 32 - 1; 1] /\
  1 = 1 + (2 ^ 32 - 3 + 2) mod UINT32_MAX /\ 1 <> EVENT_NULL_SOURCEID.
Proof.
  split; [vm_compute; reflexivity|].
  apply (agc_event_alloc_source_sequence 3 demo_bus 2 1).
  - vm_compute. split; [discriminate|reflexivity].
  - vm_compute. reflexivity.
Defined.

(** Order.  On a running bus, firing a sequence of events with sources
    appends to each dispatch queue exactly the events whose source selects it,
    in the order they were fired, as long as no queue is full: events of one
    source are in one queue and stay in order. *)
Theorem agc_event_fire_order fuel b evs :
  bus_ok b -> SYSTEM_RUNNING b = true -> Forall (fireable b) evs ->
  Forall (fun q => Queue.bounds q = DISPATCH_QUEUE_LIMIT) (EVENT_DISPATCH_QUEUES b) ->
  (forall i, Z.of_nat (length (waiting b i) + length evs) <= DISPATCH_QUEUE_LIMIT) ->
  exists b', fire_all fuel b evs = Ok b' /\ bus_ok b' /\
    forall i, waiting b' i = waiting b i ++ routed b i evs.
Proof.
  intros. destruct (fire_all_spec fuel b evs) as (b' & ? & ? & _ & _ & _ & ?); try done. by exists b'.
Qed.

Lemma demo_bus_ok : bus_ok demo_bus.
Proof.
  split; [reflexivity|reflexivity|].
  apply Forall_replicate. split; [apply Queue.wf_create; unfold DISPATCH_QUEUE_LIMIT; lia|done].
Qed.

Lemma agc_event_fire_order_witness :
  exists b', fire_all 3 demo_bus [1; 1] = Ok b' /\ waiting b' 0 = [1; 1] /\ waiting b' 1 = [].
Proof.
  destruct (agc_event_fire_order 3 demo_bus [1; 1] demo_bus_ok) as (b' & ? & _ & Hw).
  - reflexivity.
  - assert (fireable demo_bus 1) as Hf.
    { split; [discriminate|]. exists demo_event. split; [reflexivity|discriminate]. }
    exact (Forall_cons_2 _ _ _ Hf (Forall_cons_2 _ _ _ Hf (Forall_nil_2 _))).
  - apply Forall_replicate. reflexivity.
  - intros i. assert (waiting demo_bus i = []) as ->; [|simpl; unfold DISPATCH_QUEUE_LIMIT; lia].
    unfold waiting. destruct i as [|[|[|i]]]; reflexivity.
  - exists b'. split; [assumption|]. split; rewrite Hw; vm_compute; reflexivity.
Defined.

(** Delivery.  Delivering an ordinary event (not pooled, no callback of
    its own) whose id is within the table calls every subscriber of its id and
    then every subscriber of all events, each once and with the event, the most
    recent subscription first; the event's headers are then freed, exactly
    once, and nothing else of the bus changes. *)
Theorem agc_event_deliver_correct fuel b ev e L :
  SYSTEM_RUNNING b = true -> evts (mem b) !! ev = Some e -> ev <> Ev.NULL ->
  call_back e = Ev.NULL -> fast e = Ev.NULL -> 0 <= event_id e < EVENT_ID_LIMIT ->
  has_headers (mem b) ev L -> (length L < fuel)%nat ->
  exists m, agc_event_deliver fuel b ev =
      Ok (with_mem m b,
        ((fun n => (node_callback n, ev)) <$> nodes_at b (event_id e)) ++
        ((fun n => (node_callback n, ev)) <$> nodes_at b EVENT_ID_ALL)) /\
    forall k, hdrs m !! k = if decide (k ∈ addrs L) then None else hdrs (mem b) !! k.
Proof.
  intros Hrun He Hev Hcb Hfast Hid HL Hf. unfold agc_event_deliver.
  erewrite eget_bind by exact He. unfold deliver_calls. rewrite Hrun, Hcb, Hfast. cbn [negb].
  assert (in_array (event_id e) = true) as ->.
  { unfold in_array. apply andb_true_iff. rewrite Z.leb_le, Z.ltb_lt. lia. }
  cbn. destruct (destroy_spec (mem b) ev L fuel HL Hev Hf) as (m & -> & Hm & _).
  rewrite rbind_Ok. exists m. split; [|done]. by rewrite fmap_app.
Qed.

Lemma agc_event_deliver_correct_witness :
  let b := with_nodes {[7 := [EventNode 50 [] 7 111; EventNode 51 [] 7 222]; 0 := [EventNode 52 [] 0 333]]} demo_bus in
  exists m, agc_event_deliver 3 b 1 = Ok (with_mem m b, [(111, 1); (222, 1); (333, 1)]) /\
    hdrs m !! 2 = None.
Proof.
  intros b.
  destruct (agc_event_deliver_correct 3 b 1 demo_event demo_entries) as (m & Hd & Hm);
    [reflexivity|reflexivity|discriminate|reflexivity|reflexivity|vm_compute; split; [discriminate|reflexivity]
    |exact demo_has_headers|simpl; lia|].
  exists m. split; [exact Hd|]. rewrite Hm. reflexivity.
Defined.

(** Subscribing and unsubscribing.  A subscription is the first to be
    called for its id and changes no other id's list; removing it again, in
    whatever order with respect to other subscriptions, removes exactly that
    node and clears the caller's pointer. *)
Theorem agc_event_bind_unbind b addr id event_id callback n :
  0 <= event_id < EVENT_ID_LIMIT ->
  exists b' node, agc_event_bind_removable b addr id event_id callback =
      Ok (b', AGC_STATUS_SUCCESS, Some node) /\ node_callback node = callback /\
    nodes_at b' event_id = node :: nodes_at b event_id /\
    (forall j, j <> event_id -> nodes_at b' j = nodes_at b j) /\
    (NoDup (node_addr <$> nodes_at b' event_id) -> n ∈ nodes_at b' event_id -> node_event_id n = event_id ->
     exists b'', agc_event_unbind b' (Some n) = Ok (b'', AGC_STATUS_SUCCESS, None) /\
       nodes_at b'' event_id = filter (fun m => node_addr m <> node_addr n) (nodes_at b' event_id) /\
       forall j, j <> event_id -> nodes_at b'' j = nodes_at b j).
Proof.
  intros Hid. unfold agc_event_bind_removable.
  rewrite (proj2 (Z.ltb_ge _ _)) by lia.
  assert (in_array event_id = true) as Hin.
  { unfold in_array. apply andb_true_iff. rewrite Z.leb_le, Z.ltb_lt. lia. }
  rewrite Hin. cbn [negb]. eexists _, _. split; [reflexivity|]. split; [done|].
  set (b' := with_nodes _ _).
  assert (forall j, j <> event_id -> nodes_at b' j = nodes_at b j) as Hother.
  { intros j Hj. unfold nodes_at. cbn. by rewrite lookup_insert_ne. }
  assert (nodes_at b' event_id = EventNode addr id event_id callback :: nodes_at b event_id) as Hat.
  { unfold nodes_at at 1. cbn. by rewrite lookup_insert_eq. }
  split_and!; try done. intros Hnd Hn Hne. unfold agc_event_unbind. rewrite Hne, Hin. cbn [negb].
  rewrite (unlink_node_spec (node_addr n) _ n Hnd Hn eq_refl).
  eexists. split; [reflexivity|]. split.
  - unfold nodes_at at 1. cbn. by rewrite lookup_insert_eq.
  - intros j Hj. unfold nodes_at at 1. cbn [EVENT_NODES with_nodes].
    rewrite lookup_insert_ne by done. fold (nodes_at b' j). by apply Hother.
Qed.

Lemma agc_event_bind_unbind_witness :
  exists b' node, agc_event_bind_removable demo_bus 60 [] 7 99 = Ok (b', AGC_STATUS_SUCCESS, Some node) /\
    nodes_at b' 7 = [node].
Proof.
  destruct (agc_event_bind_unbind demo_bus 60 [] 7 99 (EventNode 60 [] 7 99)) as (b' & node & ? & _ & ? & _).
  - vm_compute. split; [discriminate|reflexivity].
  - exists b', node. split; assumption.
Defined.

(** The guard of [agc_event_bind_removable] admits the id
    [EVENT_ID_LIMIT] itself and every negative id, which are outside the table
    of subscriptions. *)
Theorem agc_event_bind_removable_out_of_bounds b addr id event_id callback :
  event_id = EVENT_ID_LIMIT \/ event_id < 0 ->
  agc_event_bind_removable b addr id event_id callback = Fault OutOfBounds.
Proof.
  intros H. unfold agc_event_bind_removable, in_array.
  rewrite (proj2 (Z.ltb_ge _ _)) by (unfold EVENT_ID_LIMIT in *; lia).
  destruct H as [->|H]; [done|]. by rewrite (proj2 (Z.leb_gt _ _)) by lia.
Qed.

Lemma agc_event_bind_removable_out_of_bounds_witness :
  agc_event_bind_removable demo_bus 60 [] 1024 99 = Fault OutOfBounds.
Proof. apply agc_event_bind_removable_out_of_bounds. left. reflexivity. Defined.
