(* ===== verification/EventFast.v ===== *)
(** * Pre-built ("fast") events

    The pooled events of [src/src/agc_event.c] (lines 870-1151): all of an
    event's headers and its body live in one zeroed buffer, laid out once, and
    are overwritten in place with [strcpy] and [sprintf].  The buffer is kept
    byte by byte, so that a string that does not fit its place is visible.
    Lengths and offsets are natural numbers: the code's ints, not negative and
    small enough that their sum does not overflow. *)

From stdpp Require Import base gmap list fin_maps.
From stdpp Require Import strings.
From Stdlib Require Import ZArith Lia.
From S2P Require Import Prelude CString Event.

Module Fast.
Import Ev.

(** [sizeof] of the structures in front of the strings, on a 64-bit target. *)
Definition sizeof_fast_event_node : nat := 16.
Definition sizeof_pointer : nat := 8.
Definition sizeof_header : nat := 24.

(** A fast event: its type, the offsets of the name and of the value of each
    header, the offset of the body, and the buffer. *)
Record fast_event := FastEvent {
  ftype : Z;
  fheaders : list (nat * nat);
  fbody : option nat;
  payload : list Z }.

Definition with_payload p f := FastEvent (ftype f) (fheaders f) (fbody f) p.

(** Stores through a [char *], one byte after the other. *)
Fixpoint write_bytes (buf : list Z) (off : nat) (bs : list Z) : result (list Z) :=
  match bs with
  | [] => Ok buf
  | c :: bs' =>
      if (off <? length buf)%nat then write_bytes (<[off := c]> buf) (S off) bs'
      else Fault OutOfBounds
  end.

(** [strcpy(buf + off, s)]: the string and its terminator. *)
Definition strcpy (buf : list Z) (off : nat) (s : cstr) : result (list Z) :=
  write_bytes buf off (s ++ [0]).

(** The string at an offset, up to the first zero byte. *)
Fixpoint cstr_of (bs : list Z) : option cstr :=
  match bs with
  | [] => None
  | c :: bs' => if c =? 0 then Some [] else c' ← cstr_of bs'; Some (c :: c')
  end.
Definition read_cstr (buf : list Z) (off : nat) : result cstr :=
  match cstr_of (drop off buf) with Some s => Ok s | None => Fault OutOfBounds end.

(** The header templates: the name whose length is reserved, and the length
    reserved for the value. *)
Abbreviation templates := (list (cstr * nat)).

(** [payload_size], summed up as the code does. *)
Definition payload_size (hs : templates) (bodylength : nat) : nat :=
  foldl (fun n h => n + (length h.1 + 1) + h.2)%nat
    (sizeof_fast_event_node + length hs * sizeof_pointer + length hs * sizeof_header)%nat hs + bodylength.

(** The loop that places the names and values, from [buff] on; the last
    component is where [buff] ends up. *)
Fixpoint place (buff : nat) (hs : templates) : list (nat * nat) * nat :=
  match hs with
  | [] => ([], buff)
  | (n, vl) :: hs' =>
      let value := (buff + (length n + 1))%nat in
      let (l, e) := place (value + vl) hs' in ((buff, value) :: l, e)
  end.

(** [fast_event_create] *)
Definition fast_event_create (fast_event_type : Z) (hs : templates) (bodylength : nat)
    : result fast_event :=
  let buff := (sizeof_fast_event_node + length hs * sizeof_pointer + length hs * sizeof_header)%nat in
  let (l, e) := place buff hs in
  let f := FastEvent fast_event_type l (if (0 <? bodylength)%nat then Some e else None)
             (replicate (payload_size hs bodylength) 0) in
  match l with
  | (n, v) :: _ =>
      let! p := strcpy (payload f) n (bytes_of "_t"%string) in
      let! p := strcpy p v (print_int fast_event_type) in
      Ok (with_payload p f)
  | [] => Ok f
  end.

(** [fast_get_header]: an index past the end gives no header; a negative one
    is used as it is. *)
Definition fast_get_header (f : fast_event) (index : Z) : result (option (nat * nat)) :=
  if Z.of_nat (length (fheaders f)) <=? index then Ok None
  else if index <? 0 then Fault OutOfBounds
  else Ok (fheaders f !! Z.to_nat index).

Definition set_header (f : fast_event) (index : Z) (name value : cstr)
    : result (fast_event * agc_status) :=
  let! h := fast_get_header f index in
  match h with
  | None => Ok (f, AGC_STATUS_GENERR)
  | Some (n, v) =>
      let! p := strcpy (payload f) n name in
      let! p := strcpy p v value in
      Ok (with_payload p f, AGC_STATUS_SUCCESS)
  end.

Definition agc_event_fast_set_strheader (f : fast_event) (index : Z) (name value : cstr) :=
  set_header f index name value.
Definition agc_event_fast_set_intheader (f : fast_event) (index : Z) (name : cstr) (value : Z) :=
  set_header f index name (print_int value).
Definition agc_event_fast_set_uintheader (f : fast_event) (index : Z) (name : cstr) (value : Z) :=
  set_header f index name (print_uint value).

Definition EVENT_FAST_HEADERINDEX1 : Z := 0.

Definition agc_event_fast_get_type (f : fast_event) : result (agc_status * option Z) :=
  let! h := fast_get_header f EVENT_FAST_HEADERINDEX1 in
  match h with
  | None => Ok (AGC_STATUS_GENERR, None)
  | Some (_, v) => let! s := read_cstr (payload f) v in Ok (AGC_STATUS_SUCCESS, Some (atoi s))
  end.

(** [memcpy(event->body, body, len)] *)
Definition agc_event_fast_set_body (f : fast_event) (body : list Z) : result (fast_event * agc_status) :=
  match fbody f with
  | None => Ok (f, AGC_STATUS_FALSE)
  | Some o => let! p := write_bytes (payload f) o body in Ok (with_payload p f, AGC_STATUS_SUCCESS)
  end.

(** ** Layout *)

Lemma place_end buff hs :
  (place buff hs).2 = foldl (fun n h => n + (length h.1 + 1) + h.2)%nat buff hs.
Proof.
  revert buff; induction hs as [|[n vl] hs IH]; intros buff; cbn [place foldl fst snd]; [done|].
  rewrite <- IH. by destruct (place _ _).
Qed.

(** The last string ends exactly where the body begins, and the body where the
    buffer ends. *)
Lemma place_fits hs bodylength :
  ((place (sizeof_fast_event_node + length hs * sizeof_pointer + length hs * sizeof_header) hs).2 +
     bodylength = payload_size hs bodylength)%nat.
Proof. by rewrite place_end. Qed.

Lemma place_mono buff hs : (buff <= (place buff hs).2)%nat.
Proof.
  revert buff; induction hs as [|[n vl] hs IH]; intros buff; cbn [place fst snd]; [done|].
  specialize (IH (buff + (length n + 1) + vl)%nat). destruct (place _ _). cbn in *. lia.
Qed.

(** Header [i] of a layout: a name place and a value place of the lengths of
    its template, between [buff] and the end. *)
Lemma place_lookup buff hs i n vl :
  hs !! i = Some (n, vl) ->
  exists no, (place buff hs).1 !! i = Some (no, (no + (length n + 1))%nat) /\
    (buff <= no)%nat /\ (no + (length n + 1) + vl <= (place buff hs).2)%nat.
Proof.
  revert buff i; induction hs as [|[n' vl'] hs IH]; intros buff i Hi; [done|]. cbn [place].
  pose proof (place_mono (buff + (length n' + 1) + vl') hs) as Hm.
  destruct i as [|i]; cbn in Hi.
  - simplify_eq. destruct (place _ _) as [l e]. exists buff. cbn in *. split_and!; [done|lia|lia].
  - destruct (IH (buff + (length n' + 1) + vl')%nat i Hi) as (no & ? & ? & ?).
    destruct (place _ _) as [l e]. exists no. cbn in *. split_and!; [done|lia|lia].
Qed.

(** Different headers have disjoint places. *)
Lemma place_disjoint buff hs i j n vl n' vl' no no' vo vo' :
  hs !! i = Some (n, vl) -> hs !! j = Some (n', vl') -> (i < j)%nat ->
  (place buff hs).1 !! i = Some (no, vo) -> (place buff hs).1 !! j = Some (no', vo') ->
  (no + (length n + 1) + vl <= no')%nat.
Proof.
  revert buff i j; induction hs as [|[n0 vl0] hs IH]; intros buff i j Hi Hj Hij Pi Pj; [done|].
  cbn [place] in Pi, Pj. destruct j as [|j]; [lia|]. cbn in Hj.
  destruct (place_lookup (buff + (length n0 + 1) + vl0) hs j n' vl' Hj) as (m & Hm & Hlo & _).
  destruct (place _ _) as [l e] eqn:E.
  assert (Some (no', vo') = Some (m, (m + (length n' + 1))%nat)) as Hpj by by rewrite <- Hm, <- Pj.
  simplify_eq. destruct i as [|i]; cbn in Hi, Pi; simplify_eq; [lia|].
  eapply (IH (buff + (length n0 + 1) + vl0)%nat i j); eauto; try lia; by rewrite E.
Qed.

(** ** Bytes *)

Lemma write_bytes_spec buf off bs :
  (off + length bs <= length buf)%nat ->
  exists buf', write_bytes buf off bs = Ok buf' /\ length buf' = length buf /\
    forall k, buf' !! k = if decide (off <= k < off + length bs)%nat then bs !! (k - off)%nat else buf !! k.
Proof.
  revert buf off; induction bs as [|c bs IH]; intros buf off Hl; cbn [write_bytes length] in *.
  - exists buf. split_and!; [done|done|]. intros k. rewrite decide_False by lia. done.
  - rewrite (proj2 (Nat.ltb_lt _ _)) by lia.
    destruct (IH (<[off := c]> buf) (S off)) as (buf' & -> & Hlen & Hk); [rewrite length_insert; lia|].
    exists buf'. rewrite length_insert in Hlen. split_and!; [done|done|]. intros k. rewrite Hk.
    destruct (decide (k = off)) as [->|Hne].
    + rewrite decide_False, decide_True by lia. rewrite list_lookup_insert_eq by lia.
      by rewrite Nat.sub_diag.
    + rewrite list_lookup_insert_ne by done.
      destruct (decide (S off <= k < S off + length bs)%nat).
      * rewrite decide_True by lia. by replace (k - off)%nat with (S (k - S off)) by lia.
      * by rewrite decide_False by lia.
Qed.

(** Reading depends only on the bytes up to the terminator. *)
Lemma cstr_of_written s bs : Forall (fun c => c <> 0) s -> cstr_of (s ++ 0 :: bs) = Some s.
Proof.
  induction 1 as [|c s Hc Hs IH]; simpl; [done|].
  rewrite (proj2 (Z.eqb_neq _ _) Hc), IH. done.
Qed.

Lemma cstr_of_prefix bs bs' n :
  (exists k, (k < n)%nat /\ bs !! k = Some 0) -> (forall k, (k < n)%nat -> bs' !! k = bs !! k) ->
  cstr_of bs' = cstr_of bs.
Proof.
  revert bs bs'; induction n as [|n IH]; intros bs bs' (k & Hk & H0) Hsame; [lia|].
  pose proof (Hsame 0%nat ltac:(lia)) as Hh.
  destruct bs as [|c bs]; [done|]. destruct bs' as [|c' bs']; [done|]. cbn in Hh. simplify_eq.
  simpl. destruct (c =? 0) eqn:E; [done|]. apply Z.eqb_neq in E.
  rewrite (IH bs bs'); [done| |].
  - destruct k as [|k]; [cbn in H0; simplify_eq; done|]. exists k. split; [lia|done].
  - intros i Hi. apply (Hsame (S i)). lia.
Qed.

(** ** Well-formed fast events *)

Definition strings_start (hs : templates) : nat :=
  (sizeof_fast_event_node + length hs * sizeof_pointer + length hs * sizeof_header)%nat.

(** A terminated string begins at [off] and ends within [n] bytes. *)
Definition terminated_in (buf : list Z) (off n : nat) : Prop :=
  exists k, (k < n)%nat /\ buf !! (off + k)%nat = Some 0.

Record fast_ok (f : fast_event) (hs : templates) (bodylength : nat) : Prop := FastOk {
  fo_headers : fheaders f = (place (strings_start hs) hs).1;
  fo_size : length (payload f) = payload_size hs bodylength;
  fo_body : fbody f = if (0 <? bodylength)%nat then Some (place (strings_start hs) hs).2 else None;
  fo_strings : forall i n vl no vo, hs !! i = Some (n, vl) -> fheaders f !! i = Some (no, vo) ->
    terminated_in (payload f) no (length n + 1) /\ terminated_in (payload f) vo vl }.

Lemma fo_place f hs bl i n vl :
  fast_ok f hs bl -> hs !! i = Some (n, vl) ->
  exists no, fheaders f !! i = Some (no, (no + (length n + 1))%nat) /\
    (no + (length n + 1) + vl + bl <= length (payload f))%nat /\
    (no + (length n + 1) + vl <= (place (strings_start hs) hs).2)%nat.
Proof.
  intros [Hh Hs _ _] Hi. destruct (place_lookup (strings_start hs) hs i n vl Hi) as (no & Hp & _ & Hhi).
  exists no. rewrite Hh, Hs, <- (place_fits hs bl). unfold strings_start in Hhi. split_and!; [done|lia|done].
Qed.

Lemma read_cstr_same buf buf' off n :
  terminated_in buf off n -> (forall k, (off <= k < off + n)%nat -> buf' !! k = buf !! k) ->
  read_cstr buf' off = read_cstr buf off.
Proof.
  intros (k & Hk & H0) Hsame. unfold read_cstr.
  rewrite (cstr_of_prefix (drop off buf) (drop off buf') n); [done| |].
  - exists k. split; [done|]. by rewrite lookup_drop.
  - intros j Hj. rewrite !lookup_drop. apply Hsame. lia.
Qed.

Lemma terminated_in_same buf buf' off n :
  terminated_in buf off n -> (forall k, (off <= k < off + n)%nat -> buf' !! k = buf !! k) ->
  terminated_in buf' off n.
Proof. intros (k & Hk & H0) Hsame. exists k. rewrite Hsame by lia. done. Qed.

(** [strcpy] of a string that fits [n] bytes. *)
Lemma strcpy_spec buf off s n :
  (length s < n)%nat -> (off + n <= length buf)%nat -> Forall (fun c => c <> 0) s ->
  exists buf', strcpy buf off s = Ok buf' /\ length buf' = length buf /\
    read_cstr buf' off = Ok s /\ terminated_in buf' off n /\
    (forall k, (k < off \/ off + n <= k)%nat -> buf' !! k = buf !! k).
Proof.
  intros Hs Hb Hnz. destruct (write_bytes_spec buf off (s ++ [0])) as (buf' & Hw & Hlen & Hk).
  { rewrite length_app. simpl. lia. }
  rewrite length_app in Hk. simpl in Hk. exists buf'. split_and!; [done|done| | |].
  - unfold read_cstr.
    assert (buf' = take off buf ++ (s ++ [0]) ++ drop (off + length s + 1) buf) as ->.
    { apply list_eq. intros k. rewrite Hk. destruct (decide _) as [Hin|Hout].
      - rewrite (lookup_app_r (take off buf)) by (rewrite length_take; lia).
        rewrite (lookup_app_l (s ++ [0])) by (rewrite length_take, length_app; simpl; lia).
        by rewrite length_take, Nat.min_l by lia.
      - destruct (decide (k < off)%nat).
        + rewrite (lookup_app_l (take off buf)) by (rewrite length_take; lia). by rewrite lookup_take_lt.
        + rewrite (lookup_app_r (take off buf)) by (rewrite length_take; lia).
          rewrite (lookup_app_r (s ++ [0])) by (rewrite length_take, length_app; simpl; lia).
          rewrite lookup_drop, length_take, length_app, Nat.min_l by lia. f_equal. simpl. lia. }
    rewrite drop_app_length' by (rewrite length_take; lia).
    rewrite <- app_assoc. simpl. by rewrite cstr_of_written.
  - exists (length s). split; [done|]. rewrite Hk, decide_True by lia.
    replace (off + length s - off)%nat with (length s) by lia.
    by rewrite lookup_app_r, Nat.sub_diag by lia.
  - intros k Hout. rewrite Hk. by rewrite decide_False by lia.
Qed.

Lemma set_header_spec f hs bl i n vl name value :
  fast_ok f hs bl -> hs !! i = Some (n, vl) ->
  (length name <= length n)%nat -> (length value < vl)%nat ->
  Forall (fun c => c <> 0) name -> Forall (fun c => c <> 0) value ->
  exists f' no vo, set_header f (Z.of_nat i) name value = Ok (f', AGC_STATUS_SUCCESS) /\
    fast_ok f' hs bl /\ fheaders f' !! i = Some (no, vo) /\
    read_cstr (payload f') no = Ok name /\ read_cstr (payload f') vo = Ok value /\
    (forall k, (k < no \/ vo + vl <= k)%nat -> payload f' !! k = payload f !! k) /\
    fheaders f' = fheaders f /\ fbody f' = fbody f.
Proof.
  intros Hok Hi Hn Hv Hn0 Hv0. destruct (fo_place f hs bl i n vl Hok Hi) as (no & Hp & Hle & _).
  unfold set_header, fast_get_header.
  pose proof (lookup_lt_Some _ _ _ Hp) as Hlt.
  rewrite (proj2 (Z.leb_gt _ _)), (proj2 (Z.ltb_ge _ _)), Nat2Z.id by lia. rewrite Hp, rbind_Ok.
  destruct (strcpy_spec (payload f) no name (length n + 1)) as (p1 & -> & Hl1 & Hr1 & Ht1 & Hs1);
    [lia|lia|done|]. rewrite rbind_Ok.
  set (vo := (no + (length n + 1))%nat) in *.
  destruct (strcpy_spec p1 vo value vl) as (p2 & -> & Hl2 & Hr2 & Ht2 & Hs2); [done|lia|done|].
  rewrite rbind_Ok. eexists _, no, vo. split; [reflexivity|]. cbn [payload with_payload fheaders fbody].
  assert (forall k, (k < no \/ vo + vl <= k)%nat -> p2 !! k = payload f !! k) as Hsame
    by (intros k Hk; rewrite Hs2, Hs1 by lia; done).
  assert (terminated_in p2 no (length n + 1)) as Ht.
  { eapply terminated_in_same; [exact Ht1|]. intros k Hk. apply Hs2. lia. }
  split_and!; try done.
  - destruct Hok as [Hh Hs Hb Hst]. split; cbn [payload with_payload fheaders fbody]; try done.
    + by rewrite Hl2, Hl1.
    + intros j n' vl' no' vo' Hj Hp'.
      destruct (decide (j = i)) as [->|Hne].
      * rewrite Hi in Hj. rewrite Hp in Hp'. simplify_eq. done.
      * destruct (Hst j n' vl' no' vo' Hj Hp') as [T1 T2].
        rewrite Hh in Hp, Hp'.
        destruct (place_lookup (strings_start hs) hs j n' vl' Hj) as (m & Hm & _). rewrite Hm in Hp'. simplify_eq.
        assert (no' + (length n' + 1) + vl' <= no \/ no + (length n + 1) + vl <= no')%nat as Hsep.
        { destruct (decide (i < j)%nat).
          - right. eapply (place_disjoint _ hs i j); eauto.
          - left. eapply (place_disjoint _ hs j i); eauto. lia. }
        split; (eapply terminated_in_same; [done|]); intros k Hk; apply Hsame; unfold vo; lia.
  - rewrite (read_cstr_same p1 p2 no (length n + 1)); [done|done|]. intros k Hk. apply Hs2. lia.
Qed.

(** ** Creation *)

Definition blank (ty : Z) (hs : templates) (bl : nat) : fast_event :=
  FastEvent ty (place (strings_start hs) hs).1
    (if (0 <? bl)%nat then Some (place (strings_start hs) hs).2 else None)
    (replicate (payload_size hs bl) 0).

Lemma blank_ok ty hs bl : Forall (fun h => (0 < h.2)%nat) hs -> fast_ok (blank ty hs bl) hs bl.
Proof.
  intros Hv. split; cbn [fheaders payload fbody blank]; [done|by rewrite length_replicate|done|].
  intros i n vl no vo Hi Hp.
  destruct (place_lookup (strings_start hs) hs i n vl Hi) as (m & Hm & _ & Hhi).
  rewrite Hm in Hp. simplify_eq. pose proof (Forall_lookup_1 _ _ _ _ Hv Hi) as Hvl. simpl in Hvl.
  pose proof (place_fits hs bl). unfold strings_start in Hhi.
  split; exists 0%nat; (split; [lia|]); apply lookup_replicate_2; lia.
Qed.

Lemma print_uint_nonzero z : 0 <= z -> Forall (fun c => c <> 0) (print_uint z).
Proof.
  intros Hz. eapply Forall_impl; [by apply print_uint_digits|]. intros c Hc%is_digit_iff. lia.
Qed.
Lemma print_int_nonzero z : Forall (fun c => c <> 0) (print_int z).
Proof.
  unfold print_int. destruct (z <? 0) eqn:E; [constructor; [done|]|]; apply print_uint_nonzero; lia.
Qed.

Lemma create_as_set ty n vl hs bl :
  fast_event_create ty ((n, vl) :: hs) bl =
  (let! (f, _) := set_header (blank ty ((n, vl) :: hs) bl) 0 (bytes_of "_t"%string) (print_int ty) in Ok f).
Proof.
  unfold fast_event_create, set_header, fast_get_header, blank. fold (strings_start ((n, vl) :: hs)).
  cbn [place]. destruct (place _ hs) as [l e] eqn:E. cbn [fst snd fheaders payload].
  cbn [length]. rewrite (proj2 (Z.leb_gt _ _)) by lia. cbn [Z.ltb Z.compare Z.to_nat lookup list_lookup rbind].
  change (Z.to_nat 0) with 0%nat.
  cbn [lookup list_lookup]. destruct (strcpy _ _ _); cbn [rbind]; [|done|done].
  by destruct (strcpy _ _ _).
Qed.

End Fast.

Import Ev Fast.

(** Writing a header of a fast event.  When the name is no longer than
    the template's and the value shorter than the space reserved for it, the
    write stays inside the event's buffer, the header reads back with the new
    name and value, and every other header and the body read as before. *)
Theorem agc_event_fast_set_strheader_correct f hs bl i n vl name value :
  fast_ok f hs bl -> hs !! i = Some (n, vl) ->
  (length name <= length n)%nat -> (length value < vl)%nat ->
  Forall (fun c => c <> 0) name -> Forall (fun c => c <> 0) value ->
  exists f', agc_event_fast_set_strheader f (Z.of_nat i) name value = Ok (f', AGC_STATUS_SUCCESS) /\
    fast_ok f' hs bl /\
    (forall no vo, fheaders f !! i = Some (no, vo) ->
       read_cstr (payload f') no = Ok name /\ read_cstr (payload f') vo = Ok value) /\
    (forall j no vo, j <> i -> fheaders f !! j = Some (no, vo) ->
       read_cstr (payload f') no = read_cstr (payload f) no /\
       read_cstr (payload f') vo = read_cstr (payload f) vo) /\
    (forall o k, fbody f = Some o -> (o <= k)%nat -> payload f' !! k = payload f !! k).
Proof.
  intros Hok Hi Hn Hv Hn0 Hv0.
  destruct (set_header_spec f hs bl i n vl name value Hok Hi Hn Hv Hn0 Hv0) as
    (f' & no & vo & Hset & Hok' & Hp' & Hr1 & Hr2 & Hsame & Hh & Hb).
  exists f'. split_and!; [done|done| | |].
  - intros no1 vo1 Hp1. rewrite <- Hh, Hp' in Hp1. by simplify_eq.
  - intros j no1 vo1 Hj Hp1.
    pose proof Hok as [Hfh Hfs _ Hst]. rewrite Hh, Hfh in Hp'. pose proof Hp1 as Hp1'. rewrite Hfh in Hp1'.
    destruct (place_lookup (strings_start hs) hs i n vl Hi) as (m & Hm & _). rewrite Hm in Hp'. simplify_eq.
    assert (exists n1 vl1, hs !! j = Some (n1, vl1)) as (n1 & vl1 & Hj1).
    { destruct (hs !! j) as [[n1 vl1]|] eqn:E; [eauto|]. exfalso.
      apply lookup_lt_Some in Hp1'. apply lookup_ge_None in E.
      assert (forall b, length (place b hs).1 = length hs) as Hpl.
      { clear. induction hs as [|[n0 v0] hs IH]; intros b; [done|]. cbn [place].
        specialize (IH (b + (length n0 + 1) + v0)%nat). destruct (place _ _). cbn in *. lia. }
      rewrite Hpl in Hp1'. lia. }
    destruct (place_lookup (strings_start hs) hs j n1 vl1 Hj1) as (m1 & Hm1 & _). rewrite Hm1 in Hp1'. simplify_eq.
    destruct (Hst j n1 vl1 _ _ Hj1 Hp1) as [T1 T2].
    assert (no1 + (length n1 + 1) + vl1 <= no \/ no + (length n + 1) + vl <= no1)%nat as Hsep.
    { destruct (decide (i < j)%nat).
      - right. eapply (place_disjoint _ hs i j); eauto.
      - left. eapply (place_disjoint _ hs j i); eauto. lia. }
    split; (eapply read_cstr_same; [eassumption|]); intros k Hk; apply Hsame; lia.
  - intros o k Ho Hk. apply Hsame. right.
    destruct (fo_place f hs bl i n vl Hok Hi) as (m & Hm & _ & Hhi). rewrite Hh, Hm in Hp'. simplify_eq.
    rewrite (fo_body f hs bl Hok) in Ho. destruct (0 <? bl)%nat; simplify_eq. lia.
Qed.

Definition demo_templates : templates := [(bytes_of "_t"%string, 4%nat); (bytes_of "_code"%string, 6%nat)].

Lemma agc_event_fast_set_strheader_correct_witness :
  exists f', agc_event_fast_set_strheader (blank 3 demo_templates 8) 1 [97; 98] [49; 50] =
      Ok (f', AGC_STATUS_SUCCESS) /\
    read_cstr (payload f') 87 = Ok [97; 98] /\ read_cstr (payload f') 93 = Ok [49; 50].
Proof.
  destruct (agc_event_fast_set_strheader_correct (blank 3 demo_templates 8) demo_templates 8 1
    (bytes_of "_code"%string) 6 [97; 98] [49; 50]) as (f' & Hset & _ & Hread & _).
  - apply blank_ok. repeat constructor.
  - reflexivity.
  - simpl. lia.
  - simpl. lia.
  - repeat constructor; discriminate.
  - repeat constructor; discriminate.
  - exists f'. split; [exact Hset|]. apply Hread. reflexivity.
Defined.

(** A fast event knows its type.  An event created from templates whose
    first entry leaves room for it has its type in the first header, and
    [agc_event_fast_get_type] reads back exactly the type it was created with;
    the buffer is exactly filled by the structures, the strings and the body. *)
Theorem agc_event_fast_type_roundtrip ty n vl hs bl :
  - 2 ^ 31 <= ty < 2 ^ 31 -> (2 <= length n)%nat -> (length (print_int ty) < vl)%nat ->
  Forall (fun h => (0 < h.2)%nat) hs ->
  exists f, fast_event_create ty ((n, vl) :: hs) bl = Ok f /\ fast_ok f ((n, vl) :: hs) bl /\
    agc_event_fast_get_type f = Ok (AGC_STATUS_SUCCESS, Some ty).
Proof.
  intros Hty Hn Hvl Hhs. rewrite create_as_set.
  destruct (set_header_spec (blank ty ((n, vl) :: hs) bl) ((n, vl) :: hs) bl 0 n vl
    (bytes_of "_t"%string) (print_int ty)) as (f & no & vo & Hset & Hok & Hp & _ & Hr & _).
  - apply blank_ok. constructor; [simpl; lia|done].
  - done.
  - exact Hn.
  - done.
  - repeat constructor; done.
  - apply print_int_nonzero.
  - change (Z.of_nat 0) with 0 in Hset. rewrite Hset, rbind_Ok. exists f. split_and!; [done|done|].
    unfold agc_event_fast_get_type, fast_get_header, EVENT_FAST_HEADERINDEX1.
    pose proof (lookup_lt_Some _ _ _ Hp). rewrite (proj2 (Z.leb_gt _ _)) by lia. cbn [Z.ltb Z.compare].
    change (Z.to_nat 0) with 0%nat. rewrite Hp, rbind_Ok, Hr, rbind_Ok. by rewrite atoi_print_int.
Qed.

Lemma agc_event_fast_type_roundtrip_witness :
  exists f, fast_event_create 14 demo_templates 8 = Ok f /\
    agc_event_fast_get_type f = Ok (AGC_STATUS_SUCCESS, Some 14).
Proof.
  destruct (agc_event_fast_type_roundtrip 14 (bytes_of "_t"%string) 4 [(bytes_of "_code"%string, 6%nat)] 8)
    as (f & ? & _ & ?).
  - lia.
  - simpl. lia.
  - vm_compute. lia.
  - repeat constructor.
  - exists f. split; assumption.
Defined.
