(* ===== verification/Json.v ===== *)
(** * JSON

    [src/src/agc_json.c]: the parser, the printer and the editing of cJSON
    trees.  A pointer into the text is the rest of the text; reading at its
    end gives the terminator, stepping over the terminator is a [Fault].  The
    [next]/[prev] chain of an item's children is a list.  Floating point is
    not modelled: a number is kept as the exact decimal the text denotes, and
    what C makes of it (the cast to [int], the test for an integer, the
    ["%f"]-style text) are the parameters of [FloatOps]. *)

From stdpp Require Import base list strings.
From Stdlib Require Import ZArith Lia.
From S2P Require Import Prelude CString.

Module Json.

Definition cJSON_False : Z := 0.
Definition cJSON_True : Z := 1.
Definition cJSON_NULL : Z := 2.
Definition cJSON_Number : Z := 3.
Definition cJSON_String : Z := 4.
Definition cJSON_Array : Z := 5.
Definition cJSON_Object : Z := 6.
Definition cJSON_IsReference : Z := 256.

(** [mant * 10^expo], before it is rounded to a double. *)
Record dbl := Dbl { mant : Z; expo : Z }.

(** What the C code computes from a double. *)
Class FloatOps := {
  dbl_int : dbl -> Z;          (* [(int) d] *)
  dbl_whole : dbl -> Z -> bool; (* [fabs((double) i - d) <= DBL_EPSILON] and [d] within [int] *)
  dbl_text : dbl -> cstr }.    (* the ["%.0f"], ["%e"] or ["%f"] text *)

(** [struct cJSON] *)
Inductive cJSON :=
  CJson (type : Z) (child : list cJSON) (valuestring : option cstr) (valueint : Z)
    (valuedouble : dbl) (string : option cstr).

Definition type c := match c with CJson t _ _ _ _ _ => t end.
Definition child c := match c with CJson _ l _ _ _ _ => l end.
Definition valuestring c := match c with CJson _ _ s _ _ _ => s end.
Definition valueint c := match c with CJson _ _ _ i _ _ => i end.
Definition valuedouble c := match c with CJson _ _ _ _ d _ => d end.
Definition string c := match c with CJson _ _ _ _ _ s => s end.
Definition set_string s c := match c with CJson t l v i d _ => CJson t l v i d s end.
Definition set_child l c := match c with CJson t _ v i d s => CJson t l v i d s end.

Definition zero : dbl := Dbl 0 0.
(** [cJSON_New_Item], zeroed, with a type. *)
Definition new_item (t : Z) : cJSON := CJson t [] None 0 zero None.

(** ** Reading the text *)

Definition cur (p : cstr) : Z := hd 0 p.   (* [*p] *)
(** Characters, by their codes. *)
Definition QUOTE : Z := 34.
Definition BACKSLASH : Z := 92.

(** [strncmp(value, lit, strlen(lit)) == 0], and the text behind. *)
Fixpoint after_literal (lit p : cstr) : option cstr :=
  match lit, p with
  | [], _ => Some p
  | c :: lit', d :: p' => if c =? d then after_literal lit' p' else None
  | _ :: _, [] => None
  end.

Fixpoint skip (p : cstr) : cstr :=
  match p with
  | c :: p' => if c <=? 32 then skip p' else p
  | [] => []
  end.

(** *** Numbers *)

(** [do n = n*10 + ( *num++ - '0') ...]: the value, the number of digits, the rest. *)
Fixpoint take_digits (n : Z) (k : Z) (p : cstr) : Z * Z * cstr :=
  match p with
  | c :: p' => if is_digit c then take_digits (10 * n + (c - 48)) (k + 1) p' else (n, k, p)
  | [] => (n, k, [])
  end.

(** [if ( *num=='0') num++;] and the digits before the point. *)
Definition integer_part (num : cstr) : Z * cstr :=
  let num := if cur num =? 48 then tl num else num in
  let '(n, _, num) := if (49 <=? cur num) && (cur num <=? 57) then take_digits 0 0 num else (0, 0, num) in
  (n, num).

(** [parse_number]; the exponent is not cut to an [int] here, where exceeding
    its range is undefined. *)
Definition parse_number `{FloatOps} (num : cstr) : cJSON * cstr :=
  let '(sign, num) := if cur num =? 45 then (-1, tl num) else (1, num) in
  let '(n, num) := integer_part num in
  let '(n, scale, num) :=
    if (cur num =? 46) && is_digit (cur (tl num)) then take_digits n 0 (tl num) else (n, 0, num) in
  let '(signsubscale, subscale, num) :=
    if (cur num =? 101) || (cur num =? 69) then
      let num := tl num in
      let '(sg, num) := if cur num =? 43 then (1, tl num) else if cur num =? 45 then (-1, tl num) else (1, num) in
      let '(v, _, num) := take_digits 0 0 num in (sg, v, num)
    else (1, 0, num) in
  let d := Dbl (sign * n) (- scale + subscale * signsubscale) in
  (CJson cJSON_Number [] None (dbl_int d) d None, num).

(** *** Strings *)

Definition hexdigit (c : Z) : option Z :=
  if is_digit c then Some (c - 48)
  else if (97 <=? c) && (c <=? 102) then Some (c - 87)
  else if (65 <=? c) && (c <=? 70) then Some (c - 55)
  else None.

(** [scan_unicode]: four hexadecimal digits. *)
Definition scan_unicode (p : cstr) : option Z :=
  match p with
  | a :: b :: c :: d :: _ =>
      a ← hexdigit a; b ← hexdigit b; c ← hexdigit c; d ← hexdigit d;
      Some (((a * 16 + b) * 16 + c) * 16 + d)
  | _ => None
  end.

(** The bytes written for a code point ([switch (len)]). *)
Definition firstByteMark (len : Z) : Z :=
  if len =? 2 then 192 else if len =? 3 then 224 else if len =? 4 then 240 else 0.
Definition continuation (uc : Z) : Z := Z.land (Z.lor uc 128) 191.
Definition utf8 (uc : Z) : cstr :=
  if uc <? 128 then [wrap 8 (Z.lor uc (firstByteMark 1))]
  else if uc <? 2048 then [wrap 8 (Z.lor (Z.shiftr uc 6) (firstByteMark 2)); continuation uc]
  else if uc <? 65536 then
    [wrap 8 (Z.lor (Z.shiftr uc 12) (firstByteMark 3)); continuation (Z.shiftr uc 6); continuation uc]
  else
    [wrap 8 (Z.lor (Z.shiftr uc 18) (firstByteMark 4)); continuation (Z.shiftr uc 12);
     continuation (Z.shiftr uc 6); continuation uc].

(** A surrogate pair: [0x10000 | ((uc & 0x3FF) << 10) | (uc2 & 0x3FF)]. *)
Definition combine (uc uc2 : Z) : Z :=
  Z.lor (Z.lor 65536 (Z.shiftl (Z.land uc 1023) 10)) (Z.land uc2 1023).

(** The [case 'u'] of the escapes, [ptr] at the [u]: the bytes written, and
    [ptr] when the case ends. *)
Definition escape_u (ptr : cstr) : cstr * cstr :=
  match scan_unicode (tl ptr) with
  | None => ([], ptr)
  | Some uc =>
      let ptr := drop 4 ptr in
      if ((56320 <=? uc) && (uc <=? 57343)) || (uc =? 0) then ([], ptr)
      else if (55296 <=? uc) && (uc <=? 56319) then
        if negb (cur (drop 1 ptr) =? BACKSLASH) || negb (cur (drop 2 ptr) =? 117) then ([], ptr)
        else
          match scan_unicode (drop 3 ptr) with
          | None => ([], ptr)
          | Some uc2 =>
              let ptr := drop 6 ptr in
              if (uc2 <? 56320) || (57343 <? uc2) then ([], ptr) else (utf8 (combine uc uc2), ptr)
          end
      else (utf8 uc, ptr)
  end.

(** The first pass of [parse_string]: the number of characters, a backslash
    counting together with what follows it.  After a backslash the next
    character is stepped over whatever it is. *)
Fixpoint scan_length (p : cstr) (len : nat) : result nat :=
  match p with
  | [] => Ok len
  | c :: p' =>
      if c =? QUOTE then Ok len
      else if c =? BACKSLASH then
        match p' with
        | [] => Fault OutOfBounds
        | _ :: p'' => scan_length p'' (S len)
        end
      else scan_length p' (S len)
  end.

(** The second pass: the bytes written to [out], and where it stops. *)
Fixpoint unescape (fuel : nat) (ptr : cstr) : result (cstr * cstr) :=
  match fuel with
  | O => OutOfFuel
  | S fuel' =>
      match ptr with
      | [] => Ok ([], [])
      | c :: p' =>
          if c =? QUOTE then Ok ([], ptr)
          else if negb (c =? BACKSLASH) then
            let! (out, ptr) := unescape fuel' p' in Ok (c :: out, ptr)
          else
            let (bytes, ptr) :=
              let d := cur p' in
              if d =? 98 then ([8], p')
              else if d =? 102 then ([12], p')
              else if d =? 110 then ([10], p')
              else if d =? 114 then ([13], p')
              else if d =? 116 then ([9], p')
              else if d =? 117 then escape_u p'
              else ([d], p') in
            let! (out, ptr) := unescape fuel' (tl ptr) in
            Ok (bytes ++ out, ptr)
      end
  end.

(** A parsing function returns the item and the rest of the text, or null
    with the place [ep] of the error. *)
Inductive parsed (A : Type) := Parsed (a : A) (rest : cstr) | Failed (ep : option cstr).
Arguments Parsed {A} _ _.
Arguments Failed {A} _.

(** [parse_string]; writing more than the [len + 1] bytes of the buffer, the
    terminator included, is a [Fault]. *)
Definition parse_string (str : cstr) : result (parsed cstr) :=
  if negb (cur str =? QUOTE) then Ok (Failed (Some str))
  else
    let! len := scan_length (tl str) 0 in
    let! (out, ptr) := unescape (S (length str)) (tl str) in
    if (len <? length out)%nat then Fault OutOfBounds
    else Ok (Parsed (cstring out) (if cur ptr =? QUOTE then tl ptr else ptr)).

(** *** Values *)

Definition string_item (s : cstr) : cJSON := CJson cJSON_String [] (Some s) 0 zero None.

Section parse.
Context `{FloatOps}.

(** [parse_value], [parse_array] and [parse_object]; the loops of the last two
    take the children parsed so far.  Every call consumes fuel. *)
Fixpoint parse_value (fuel : nat) (value : cstr) : result (parsed cJSON) :=
  match fuel with
  | O => OutOfFuel
  | S fuel' =>
      match after_literal (bytes_of "null") value with
      | Some r => Ok (Parsed (new_item cJSON_NULL) r)
      | None =>
      match after_literal (bytes_of "false") value with
      | Some r => Ok (Parsed (new_item cJSON_False) r)
      | None =>
      match after_literal (bytes_of "true") value with
      | Some r => Ok (Parsed (CJson cJSON_True [] None 1 zero None) r)
      | None =>
      let c := cur value in
      if c =? QUOTE then
        let! p := parse_string value in
        match p with
        | Parsed s r => Ok (Parsed (string_item s) r)
        | Failed e => Ok (Failed e)
        end
      else if (c =? 45) || is_digit c then
        let (it, r) := parse_number value in Ok (Parsed it r)
      else if c =? 91 then
        let value := skip (tl value) in
        if cur value =? 93 then Ok (Parsed (new_item cJSON_Array) (tl value))
        else parse_elements fuel' [] (skip value)
      else if c =? 123 then
        let value := skip (tl value) in
        if cur value =? 125 then Ok (Parsed (new_item cJSON_Object) (tl value))
        else parse_members fuel' [] (skip value)
      else Ok (Failed (Some value))
      end end end
  end
with parse_elements (fuel : nat) (done : list cJSON) (value : cstr) : result (parsed cJSON) :=
  match fuel with
  | O => OutOfFuel
  | S fuel' =>
      let! p := parse_value fuel' value in
      match p with
      | Failed e => Ok (Failed e)
      | Parsed it r =>
          let value := skip r in
          let done := done ++ [it] in
          if cur value =? 44 then parse_elements fuel' done (skip (tl value))
          else if cur value =? 93 then
            Ok (Parsed (CJson cJSON_Array done None 0 zero None) (tl value))
          else Ok (Failed (Some value))
      end
  end
with parse_members (fuel : nat) (done : list cJSON) (value : cstr) : result (parsed cJSON) :=
  match fuel with
  | O => OutOfFuel
  | S fuel' =>
      let! k := parse_string value in
      match k with
      | Failed e => Ok (Failed e)
      | Parsed key r =>
          let value := skip r in
          if negb (cur value =? 58) then Ok (Failed (Some value))
          else
            let! p := parse_value fuel' (skip (tl value)) in
            match p with
            | Failed e => Ok (Failed e)
            | Parsed it r =>
                let value := skip r in
                let done := done ++ [set_string (Some key) it] in
                if cur value =? 44 then parse_members fuel' done (skip (tl value))
                else if cur value =? 125 then
                  Ok (Parsed (CJson cJSON_Object done None 0 zero None) (tl value))
                else Ok (Failed (Some value))
            end
      end
  end.

(** [cJSON_Parse] *)
Definition cJSON_Parse (value : cstr) : result (option cJSON) :=
  let! p := parse_value (S (2 * length value)) (skip value) in
  match p with
  | Parsed it _ => Ok (Some it)
  | Failed _ => Ok None
  end.

End parse.

(** ** Printing *)

Definition hex_char (n : Z) : Z := if n <? 10 then 48 + n else 87 + n.

(** The escape of one character; ["u%04x"] for control characters. *)
Definition escape (c : Z) : cstr :=
  if (31 <? c) && negb (c =? QUOTE) && negb (c =? BACKSLASH) then [c]
  else BACKSLASH ::
    (if c =? BACKSLASH then [BACKSLASH]
     else if c =? QUOTE then [QUOTE]
     else if c =? 8 then [98]
     else if c =? 12 then [102]
     else if c =? 10 then [110]
     else if c =? 13 then [114]
     else if c =? 9 then [116]
     else [117; 48; 48; hex_char (c / 16); hex_char (c mod 16)]).

(** The length the first pass of [print_string_ptr] computes. *)
Definition escape_len (c : Z) : nat :=
  if bool_decide (c ∈ [34; 92; 8; 12; 10; 13; 9]) then 2 else if c <? 32 then 6 else 1.

(** A text written with its terminator into a buffer of [size] bytes. *)
Definition write_buffer (size : nat) (text : cstr) : result cstr :=
  if (length text <? size)%nat then Ok text else Fault OutOfBounds.

Definition print_number `{FloatOps} (valueint : Z) (d : dbl) : result cstr :=
  if dbl_whole d valueint then write_buffer 21 (print_int valueint) else write_buffer 64 (dbl_text d).

Definition print_string_ptr (str : option cstr) : result cstr :=
  match str with
  | None => Ok []
  | Some s =>
      write_buffer (sum_list (escape_len <$> s) + 3) (QUOTE :: (s ≫= escape) ++ [QUOTE])
  end.

(** The loop that composes an array: the entries with [,] (and a blank when
    formatting) between them. *)
Fixpoint join_entries (fmt : bool) (es : list cstr) : cstr :=
  match es with
  | [] => []
  | [e] => e
  | e :: es' => e ++ 44 :: (if fmt then [32] else []) ++ join_entries fmt es'
  end.
Definition compose_array (fmt : bool) (es : list cstr) : cstr := 91 :: join_entries fmt es ++ [93].
Definition array_alloc (fmt : bool) (es : list cstr) : nat :=
  5 + sum_list ((fun e => length e + 2 + (if fmt then 1 else 0))%nat <$> es).

(** The loop that composes an object; [depth] counts from one here. *)
Definition tabs (depth : nat) : cstr := replicate depth 9.
Fixpoint join_members (fmt : bool) (depth : nat) (ms : list (cstr * cstr)) : cstr :=
  match ms with
  | [] => []
  | (n, e) :: ms' =>
      (if fmt then tabs depth else []) ++ n ++ 58 :: (if fmt then [9] else []) ++ e ++
      (match ms' with [] => [] | _ => [44] end) ++ (if fmt then [10] else []) ++
      join_members fmt depth ms'
  end.
Definition compose_object (fmt : bool) (depth : nat) (ms : list (cstr * cstr)) : cstr :=
  123 :: (if fmt then [10] else []) ++ join_members fmt depth ms ++
  (if fmt then tabs (depth - 1) else []) ++ [125].
Definition object_alloc (fmt : bool) (depth : nat) (ms : list (cstr * cstr)) : nat :=
  7 + (if fmt then depth else 0) +
  sum_list ((fun m => length m.2 + length m.1 + 2 + (if fmt then 2 + depth else 0))%nat <$> ms).

(** The texts of all the children, unless one has none; [stop] when the loop
    ends at the first such child ([while (child && !fail)]). *)
Definition print_each (stop : bool) (print : cJSON -> result (option cstr)) :
    list cJSON -> result (option (list cstr)) :=
  fix go l :=
    match l with
    | [] => Ok (Some [])
    | c :: l' =>
        let! e := print c in
        match e with
        | Some e =>
            let! es := go l' in
            Ok (match es with Some es => Some (e :: es) | None => None end)
        | None => if stop then Ok None else let! _ := go l' in Ok None
        end
    end.

(** [print_value] with [print_array] and [print_object]. *)
Fixpoint print_value `{FloatOps} (fmt : bool) (depth : nat) (item : cJSON) : result (option cstr) :=
  match item with
  | CJson ty ch vs vi vd _ =>
      let t := Z.land ty 255 in
      if t =? cJSON_NULL then Ok (Some (bytes_of "null"))
      else if t =? cJSON_False then Ok (Some (bytes_of "false"))
      else if t =? cJSON_True then Ok (Some (bytes_of "true"))
      else if t =? cJSON_Number then let! out := print_number vi vd in Ok (Some out)
      else if t =? cJSON_String then let! out := print_string_ptr vs in Ok (Some out)
      else if t =? cJSON_Array then
        let! es := print_each true (print_value fmt (S depth)) ch in
        match es with
        | None => Ok None
        | Some es =>
            let! out := write_buffer (array_alloc fmt es) (compose_array fmt es) in Ok (Some out)
        end
      else if t =? cJSON_Object then
        let! names := print_each false (fun c => let! n := print_string_ptr (string c) in Ok (Some n)) ch in
        let! es := print_each false (print_value fmt (S depth)) ch in
        match names, es with
        | Some names, Some es =>
            let ms := zip names es in
            let! out := write_buffer (object_alloc fmt (S depth) ms) (compose_object fmt (S depth) ms) in
            Ok (Some out)
        | _, _ => Ok None
        end
      else Ok None
  end.

Definition cJSON_Print `{FloatOps} (item : cJSON) : result (option cstr) := print_value true 0 item.
Definition cJSON_PrintUnformatted `{FloatOps} (item : cJSON) : result (option cstr) := print_value false 0 item.

(** ** Building and editing *)

Definition cJSON_CreateNull : cJSON := new_item cJSON_NULL.
Definition cJSON_CreateTrue : cJSON := new_item cJSON_True.
Definition cJSON_CreateFalse : cJSON := new_item cJSON_False.
Definition cJSON_CreateBool (b : Z) : cJSON := new_item (if b =? 0 then cJSON_False else cJSON_True).
Definition cJSON_CreateNumber `{FloatOps} (num : dbl) : cJSON :=
  CJson cJSON_Number [] None (dbl_int num) num None.
(** A null string is stored as the empty one. *)
Definition cJSON_strdup (str : option cstr) : cstr := default [] str.
Definition cJSON_CreateString (s : option cstr) : cJSON :=
  CJson cJSON_String [] (Some (cJSON_strdup s)) 0 zero None.
Definition cJSON_CreateArray : cJSON := new_item cJSON_Array.
Definition cJSON_CreateObject : cJSON := new_item cJSON_Object.
Definition cJSON_CreateStringArray (strings : list cstr) : cJSON :=
  set_child ((fun s => cJSON_CreateString (Some s)) <$> strings) cJSON_CreateArray.

Definition cJSON_AddItemToArray (array : cJSON) (item : option cJSON) : cJSON :=
  match item with
  | None => array
  | Some it => set_child (child array ++ [it]) array
  end.
Definition cJSON_AddItemToObject (object : cJSON) (name : cstr) (item : option cJSON) : cJSON :=
  match item with
  | None => object
  | Some it => cJSON_AddItemToArray object (Some (set_string (Some name) it))
  end.

Definition cJSON_GetArraySize (array : cJSON) : Z := Z.of_nat (length (child array)).
Fixpoint nth_child (l : list cJSON) (item : Z) : option cJSON :=
  match l with
  | [] => None
  | c :: l' => if 0 <? item then nth_child l' (item - 1) else Some c
  end.
Definition cJSON_GetArrayItem (array : cJSON) (item : Z) : option cJSON := nth_child (child array) item.

(** [cJSON_strcasecmp(a, b) == 0]; a null first argument equals only null. *)
Definition json_same (a : option cstr) (b : cstr) : bool :=
  match a with Some s => same_nocase s b | None => false end.
Fixpoint find_child (l : list cJSON) (name : cstr) : option cJSON :=
  match l with
  | [] => None
  | c :: l' => if json_same (string c) name then Some c else find_child l' name
  end.
Definition cJSON_GetObjectItem (object : cJSON) (name : cstr) : option cJSON := find_child (child object) name.
Definition cJSON_GetObjectCstr (object : cJSON) (name : cstr) : option cstr :=
  match cJSON_GetObjectItem object name with
  | Some cj => if type cj =? cJSON_String then valuestring cj else None
  | None => None
  end.

(** [cJSON_DetachItemFromArray]: the rest, and the item. *)
Fixpoint detach (l : list cJSON) (which : Z) : option (cJSON * list cJSON) :=
  match l with
  | [] => None
  | c :: l' =>
      if 0 <? which then
        match detach l' (which - 1) with Some (it, r) => Some (it, c :: r) | None => None end
      else Some (c, l')
  end.
Definition cJSON_DetachItemFromArray (array : cJSON) (which : Z) : cJSON * option cJSON :=
  match detach (child array) which with
  | Some (it, l) => (set_child l array, Some it)
  | None => (array, None)
  end.
Definition cJSON_DeleteItemFromArray (array : cJSON) (which : Z) : cJSON :=
  fst (cJSON_DetachItemFromArray array which).
(** The index the loop of the [...FromObject] functions finds. *)
Fixpoint child_index (l : list cJSON) (name : cstr) (i : Z) : option Z :=
  match l with
  | [] => None
  | c :: l' => if json_same (string c) name then Some i else child_index l' name (i + 1)
  end.
Definition cJSON_DetachItemFromObject (object : cJSON) (name : cstr) : cJSON * option cJSON :=
  match child_index (child object) name 0 with
  | Some i => cJSON_DetachItemFromArray object i
  | None => (object, None)
  end.
Definition cJSON_DeleteItemFromObject (object : cJSON) (name : cstr) : cJSON :=
  fst (cJSON_DetachItemFromObject object name).

Fixpoint replace_nth (l : list cJSON) (which : Z) (newitem : cJSON) : list cJSON :=
  match l with
  | [] => []
  | c :: l' => if 0 <? which then c :: replace_nth l' (which - 1) newitem else newitem :: l'
  end.
Definition cJSON_ReplaceItemInArray (array : cJSON) (which : Z) (newitem : cJSON) : cJSON :=
  set_child (replace_nth (child array) which newitem) array.
Definition cJSON_ReplaceItemInObject (object : cJSON) (name : cstr) (newitem : cJSON) : cJSON :=
  match child_index (child object) name 0 with
  | Some i => cJSON_ReplaceItemInArray object i (set_string (Some name) newitem)
  | None => object
  end.

(** [cJSON_Duplicate]: a copy without reference bits, with the children when
    [recurse]. *)
Fixpoint cJSON_Duplicate (recurse : bool) (item : cJSON) : cJSON :=
  match item with
  | CJson t l v i d s =>
      CJson (Z.land t (Z.lnot cJSON_IsReference)) (if recurse then map (cJSON_Duplicate true) l else []) v i d s
  end.

End Json.
