(* ===== verification/JsonProof.v ===== *)
(** * JSON: strings survive printing and parsing

    The two passes of [parse_string] agree on the length of a string, the
    escapes of a printed string are read back byte by byte, and the printed
    text has the length the printer allocates. *)

From stdpp Require Import base list strings.
From Stdlib Require Import ZArith Lia.
From S2P Require Import Prelude CString Json.

Module JsonProof.
Import Json.

(** ** Strings *)

Lemma hexdigit_plain c v : hexdigit c = Some v -> (c =? QUOTE) = false /\ (c =? BACKSLASH) = false /\ 0 <= v < 16.
Proof.
  unfold hexdigit, QUOTE, BACKSLASH, is_digit. intros.
  repeat case_match; simplify_eq; rewrite ?andb_true_iff, ?andb_false_iff, ?Z.leb_le, ?Z.leb_gt in *; lia.
Qed.

Lemma scan_plain c p n :
  (c =? QUOTE) = false -> (c =? BACKSLASH) = false -> scan_length (c :: p) n = scan_length p (S n).
Proof. intros H1 H2. simpl. by rewrite H1, H2. Qed.

Lemma scan_backslash d p n : scan_length (BACKSLASH :: d :: p) n = scan_length p (S n).
Proof. done. Qed.

(** Four hexadecimal digits are there, and the first pass counts four. *)
Lemma scan_unicode_inv p uc :
  scan_unicode p = Some uc ->
  0 <= uc < 65536 /\ exists a b c d q, p = [a; b; c; d] ++ q /\
    forall n, scan_length p n = scan_length q (4 + n)%nat.
Proof.
  unfold scan_unicode. intros H.
  destruct p as [|a [|b [|c [|d q]]]]; try done.
  destruct (hexdigit a) as [va|] eqn:Ha; [|done]. destruct (hexdigit b) as [vb|] eqn:Hb; [|done].
  destruct (hexdigit c) as [vc|] eqn:Hc; [|done]. destruct (hexdigit d) as [vd|] eqn:Hd; [|done].
  simpl in H. simplify_eq.
  apply hexdigit_plain in Ha as (? & ? & ?), Hb as (? & ? & ?), Hc as (? & ? & ?), Hd as (? & ? & ?).
  split; [lia|]. exists a, b, c, d, q. split; [done|]. intros n. by rewrite !scan_plain.
Qed.

Lemma utf8_length uc : (length (utf8 uc) <= 4)%nat.
Proof. unfold utf8. repeat case_match; simpl; lia. Qed.

(** Whatever the [\u] case does, it moves to a place the first pass passes
    too, and writes no more bytes than the first pass counted. *)
Lemma escape_u_sync q :
  exists bytes ptr j, escape_u (117 :: q) = (bytes, ptr) /\ (length bytes <= S j)%nat /\
    tl ptr `suffix_of` q /\ forall n, scan_length q (S n) = scan_length (tl ptr) (S j + n)%nat.
Proof.
  unfold escape_u. simpl tl.
  destruct (scan_unicode q) as [uc|] eqn:E; [|exists [], (117 :: q), O; simpl; split_and!; [done|lia|done|done]].
  apply scan_unicode_inv in E as (Huc & a & b & c & d & r & -> & Hscan).
  assert (forall bytes : cstr, (length bytes <= 4)%nat ->
    exists (bytes' : cstr) ptr j, (bytes, drop 4 (117 :: [a; b; c; d] ++ r)) = (bytes', ptr) /\
      (length bytes' <= S j)%nat /\ tl ptr `suffix_of` ([a; b; c; d] ++ r) /\
      forall n, scan_length ([a; b; c; d] ++ r) (S n) = scan_length (tl ptr) (S j + n)%nat) as Hone.
  { intros bytes Hb. exists bytes, (d :: r), 4%nat. split_and!; [done|lia|by exists [a; b; c; d]|].
    intros n. rewrite (Hscan (S n)). done. }
  cbv zeta. cbn [drop app] in *.
  destruct (_ || (uc =? 0)); [apply Hone; simpl; lia|].
  destruct (_ && _); [|apply Hone, utf8_length].
  destruct (_ || _) eqn:Hsecond; [apply Hone; simpl; lia|].
  destruct r as [|bs [|u r]]; simpl in Hsecond; rewrite ?orb_true_r in Hsecond; try done.
  apply orb_false_iff in Hsecond as [Hbs Hu]. apply negb_false_iff, Z.eqb_eq in Hbs as ->.
  apply negb_false_iff, Z.eqb_eq in Hu as ->. cbn [drop]. rewrite drop_0.
  destruct (scan_unicode r) as [uc2|] eqn:E2; [|apply Hone; simpl; lia].
  apply scan_unicode_inv in E2 as (Huc2 & a2 & b2 & c2 & d2 & r2 & -> & Hscan2). cbn [drop app] in *.
  assert (forall bytes : cstr, (length bytes <= 4)%nat ->
    exists (bytes' : cstr) ptr j, (bytes, d2 :: r2) = (bytes', ptr) /\ (length bytes' <= S j)%nat /\
      tl ptr `suffix_of` ([a; b; c; d] ++ BACKSLASH :: 117 :: [a2; b2; c2; d2] ++ r2) /\
      forall n, scan_length ([a; b; c; d] ++ BACKSLASH :: 117%Z :: [a2; b2; c2; d2] ++ r2) (S n) =
        scan_length (tl ptr) (S j + n)%nat) as Htwo.
  { intros bytes Hb. exists bytes, (d2 :: r2), 9%nat.
    split_and!; [done|lia|by exists [a; b; c; d; BACKSLASH; 117; a2; b2; c2; d2]|].
    intros n. cbn [app]. rewrite (Hscan (S n)), scan_backslash, Hscan2. done. }
  destruct (_ || _); apply Htwo; [simpl; lia|apply utf8_length].
Qed.

(** When the first pass ends inside the text, the second pass ends at the same
    quote or terminator and fits the buffer sized by the first. *)
Lemma unescape_sync fuel : forall p n m,
  (length p < fuel)%nat -> scan_length p n = Ok m ->
  exists out q, unescape fuel p = Ok (out, q) /\ (length out + n <= m)%nat /\
    (q = [] \/ cur q = QUOTE) /\ q `suffix_of` p.
Proof.
  induction fuel as [|fuel IH]; intros p n m Hf Hs; [lia|].
  destruct p as [|c p]; simpl in Hs.
  { simplify_eq. exists [], []. simpl. split_and!; auto with lia. }
  cbn [unescape]. simpl in Hf. destruct (c =? QUOTE) eqn:Hq.
  { simplify_eq. exists [], (c :: p). apply Z.eqb_eq in Hq as ->. simpl. split_and!; auto with lia. }
  destruct (c =? BACKSLASH) eqn:Hb; cbn [negb].
  2:{ destruct (IH p (S n) m) as (out & q & -> & ? & ? & ?); [lia|done|].
      exists (c :: out), q. simpl. split_and!; [done|lia|done|eauto using suffix_cons_r]. }
  destruct p as [|d p]; [done|]. simpl in Hf. cbn [cur hd].
  assert (forall b : Z, exists out q,
    (let! (o, ptr) := unescape fuel (tl (d :: p)) in Ok ([b] ++ o, ptr)) = Ok (out, q) /\
    (length out + n <= m)%nat /\ (q = [] \/ cur q = QUOTE) /\ q `suffix_of` c :: d :: p) as Hsingle.
  { intros b. destruct (IH p (S n) m) as (out & q & H1 & ? & ? & ?); [lia|done|].
    simpl tl. rewrite H1. exists ([b] ++ out), q. simpl. split_and!; [done|lia|done|eauto using suffix_cons_r]. }
  destruct (d =? 117) eqn:Hd.
  2:{ repeat case_match; simplify_eq; apply Hsingle. }
  apply Z.eqb_eq in Hd as ->. cbn -[escape_u].
  destruct (escape_u_sync p) as (bytes & ptr & j & -> & ? & Hsuf & Hn). pose proof (suffix_length _ _ Hsuf).
  rewrite Hn in Hs. destruct (IH (tl ptr) (S j + n)%nat m) as (out & q & -> & ? & ? & ?); [lia|done|].
  exists (bytes ++ out), q. rewrite length_app. simpl. split_and!; [done|lia|done|].
  do 2 apply suffix_cons_r. by etrans.
Qed.

(** The first pass leaves the text only over a final backslash. *)
Lemma scan_length_fault p n f : scan_length p n = Fault f -> f = OutOfBounds /\ last p = Some BACKSLASH.
Proof.
  revert n. induction p as [p IH] using (induction_ltof1 _ (@length Z)); unfold ltof in IH.
  intros n. destruct p as [|c p]; simpl; [done|].
  destruct (c =? QUOTE); [done|]. destruct (c =? BACKSLASH) eqn:E.
  - apply Z.eqb_eq in E as ->. destruct p as [|d p]; [intros; by simplify_eq|]. intros [? H]%IH; [|simpl; lia].
    split; [done|]. destruct p; [done|]. by rewrite !last_cons_cons.
  - intros [? H]%IH; [|simpl; lia]. split; [done|]. destruct p; [done|]. by rewrite last_cons_cons.
Qed.

Lemma scan_length_fuel p n : scan_length p n <> OutOfFuel.
Proof.
  revert n. induction p as [p IH] using (induction_ltof1 _ (@length Z)); unfold ltof in IH.
  intros n. destruct p as [|c p]; simpl; [done|].
  destruct (c =? QUOTE); [done|]. destruct (c =? BACKSLASH); [destruct p as [|d p]; [done|]|]; apply IH; simpl; lia.
Qed.

(** *** Printed strings *)

Definition is_byte (c : Z) : Prop := 1 <= c <= 255.
Definition quoted (s : cstr) : cstr := QUOTE :: (s ≫= escape) ++ [QUOTE].

(** The characters that need an escape are few: decide a statement about them
    by trying each. *)
Lemma escaped_cases (P : Z -> Prop) c :
  is_byte c ->
  (31 < c -> c <> QUOTE -> c <> BACKSLASH -> P c) ->
  Forall P (QUOTE :: BACKSLASH :: (Z.of_nat <$> seq 1 31)) -> P c.
Proof.
  unfold is_byte. intros Hc Hplain Hall.
  destruct (decide (c = QUOTE \/ c = BACKSLASH \/ c <= 31)) as [H|H]; [|apply Hplain; lia].
  rewrite Forall_forall in Hall. apply Hall. rewrite !elem_of_cons.
  destruct H as [H|[H|H]]; [by left|by right; left|right; right].
  apply list_elem_of_fmap. exists (Z.to_nat c). split; [lia|]. apply elem_of_seq. lia.
Qed.

Lemma escape_plain c : 31 < c -> c <> QUOTE -> c <> BACKSLASH -> escape c = [c].
Proof.
  intros. unfold escape. rewrite (proj2 (Z.ltb_lt _ _)), !(proj2 (Z.eqb_neq _ _)) by done. done.
Qed.

Ltac each_escaped := repeat (constructor; [try reflexivity|]); try constructor.

Lemma escape_unescape c : is_byte c -> forall fuel p,
  unescape (S fuel) (escape c ++ p) = (let! (out, q) := unescape fuel p in Ok (c :: out, q)).
Proof.
  intros Hc. pattern c. apply escaped_cases; [done| |each_escaped].
  intros ???. rewrite escape_plain by done. intros fuel p. simpl.
  by rewrite !(proj2 (Z.eqb_neq _ _)) by done.
Qed.

Lemma escape_scan c : is_byte c -> forall p n, exists k, scan_length (escape c ++ p) n = scan_length p k.
Proof.
  intros Hc. pattern c. apply escaped_cases; [done| |repeat (constructor; [eexists; reflexivity|]); constructor].
  intros ???. rewrite escape_plain by done. intros p n. simpl.
  rewrite !(proj2 (Z.eqb_neq _ _)) by done. eauto.
Qed.

Lemma escape_length c : is_byte c -> length (escape c) = escape_len c.
Proof.
  intros Hc. pattern c. apply escaped_cases; [done| |each_escaped].
  intros H1 H2 H3. rewrite escape_plain by done. unfold escape_len, QUOTE, BACKSLASH in *.
  rewrite bool_decide_eq_false_2 by (rewrite !elem_of_cons, elem_of_nil; lia).
  by rewrite (proj2 (Z.ltb_ge _ _)) by lia.
Qed.

Lemma unescape_quoted s rest : Forall is_byte s -> forall fuel, (length s < fuel)%nat ->
  unescape fuel ((s ≫= escape) ++ QUOTE :: rest) = Ok (s, QUOTE :: rest).
Proof.
  induction 1 as [|c s Hc Hs IH]; intros fuel Hf; (destruct fuel as [|fuel]; [simpl in Hf; lia|]); [done|].
  cbn [mbind list_bind]. rewrite <- app_assoc, escape_unescape by done.
  rewrite IH by (simpl in Hf; lia). done.
Qed.

Lemma scan_quoted s rest : Forall is_byte s -> forall n, exists m, scan_length ((s ≫= escape) ++ QUOTE :: rest) n = Ok m.
Proof.
  induction 1 as [|c s Hc Hs IH]; intros n; [by eexists|].
  cbn [mbind list_bind]. rewrite <- app_assoc.
  destruct (escape_scan c Hc ((s ≫= escape) ++ QUOTE :: rest) n) as [k ->]. apply IH.
Qed.

Lemma quoted_length s : Forall is_byte s -> length (quoted s) = (sum_list (escape_len <$> s) + 2)%nat.
Proof.
  intros Hs. unfold quoted. rewrite length_cons, length_app. cbn [length].
  assert (length (s ≫= escape) = sum_list (escape_len <$> s)) as ->; [|lia].
  induction Hs as [|c s Hc Hs IH]; [done|]. cbn [mbind list_bind fmap list_fmap sum_list].
  rewrite length_app, escape_length, IH; done.
Qed.

Lemma print_string_ptr_quoted s : Forall is_byte s -> print_string_ptr (Some s) = Ok (quoted s).
Proof.
  intros Hs. pose proof (quoted_length s Hs) as Hl. unfold quoted in Hl. unfold print_string_ptr, write_buffer.
  rewrite Hl. rewrite (proj2 (Nat.ltb_lt _ _)) by lia. done.
Qed.

Lemma escape_nonempty s : Forall is_byte s -> (length s <= length (s ≫= escape))%nat.
Proof.
  induction 1 as [|c s Hc Hs IH]; [done|]. cbn [mbind list_bind length].
  rewrite length_app, escape_length by done. unfold escape_len. repeat case_match; lia.
Qed.

Lemma parse_string_eq p :
  parse_string (QUOTE :: p) =
    (let! len := scan_length p 0 in
     let! (out, ptr) := unescape (S (S (length p))) p in
     if (len <? length out)%nat then Fault OutOfBounds
     else Ok (Parsed (cstring out) (if cur ptr =? QUOTE then tl ptr else ptr))).
Proof. done. Qed.

Lemma parse_string_quoted s rest : Forall is_byte s -> parse_string (quoted s ++ rest) = Ok (Parsed s rest).
Proof.
  intros Hs. unfold quoted. rewrite <- app_comm_cons, <- app_assoc. cbn [app].
  rewrite parse_string_eq. pose proof (escape_nonempty s Hs).
  destruct (scan_quoted s rest Hs 0) as [m Hm]. rewrite Hm.
  destruct (unescape_sync _ _ 0 m (Nat.lt_lt_succ_r _ _ (Nat.lt_succ_diag_r _)) Hm) as (out & q & Hu & Hlen & _ & _).
  rewrite unescape_quoted in * by (rewrite ?length_app; simpl; lia || done). simplify_eq.
  cbn [rbind]. rewrite (proj2 (Nat.ltb_ge _ _)) by lia. rewrite cstring_id; [done|].
  eapply Forall_impl; [exact Hs|]. unfold is_byte. intros. lia.
Qed.

End JsonProof.
