(* ===== verification/JsonMain.v ===== *)
(** * JSON values: printing, parsing and the round trip

    [jvalue] is what a JSON text means to the framework.  The theorems relate
    the C parser and printer to it, and bound what they do on any text. *)

From stdpp Require Import base list sets strings.
From Stdlib Require Import ZArith Lia.
From S2P Require Import Prelude CString Json JsonProof.

Module JsonValue.
Import Json JsonProof.

Inductive jvalue :=
  | JNull
  | JBool (b : bool)
  | JInt (z : Z)
  | JStr (s : cstr)
  | JArr (l : list jvalue)
  | JObj (l : list (cstr * jvalue)).

(** Induction through the lists. *)
Lemma jvalue_ind' (P : jvalue -> Prop) :
  P JNull -> (forall b, P (JBool b)) -> (forall z, P (JInt z)) -> (forall s, P (JStr s)) ->
  (forall l, Forall P l -> P (JArr l)) -> (forall l, Forall (fun m => P m.2) l -> P (JObj l)) ->
  forall v, P v.
Proof.
  intros Hn Hb Hi Hs Ha Ho. fix IH 1. intros [|b|z|s|l|l].
  - exact Hn.
  - apply Hb.
  - apply Hi.
  - apply Hs.
  - apply Ha. induction l; constructor; [apply IH|assumption].
  - apply Ho. induction l; constructor; [apply IH|assumption].
Qed.

Definition int32 (z : Z) : Prop := - 2 ^ 31 <= z < 2 ^ 31.

Fixpoint valid (v : jvalue) : Prop :=
  match v with
  | JNull | JBool _ => True
  | JInt z => int32 z
  | JStr s => Forall is_byte s
  | JArr l => foldr (fun v P => valid v /\ P) True l
  | JObj l => foldr (fun m P => (Forall is_byte m.1 /\ valid m.2) /\ P) True l
  end.

(** What a double must do with integers of 32 bits: represent them exactly. *)
Class FloatLaws `{FloatOps} := {
  dbl_int_exact : forall z, int32 z -> dbl_int (Dbl z 0) = z;
  dbl_whole_exact : forall z, int32 z -> dbl_whole (Dbl z 0) z = true }.

(** The tree the parser builds for a value. *)
Fixpoint tree_of (v : jvalue) : cJSON :=
  match v with
  | JNull => new_item cJSON_NULL
  | JBool false => new_item cJSON_False
  | JBool true => CJson cJSON_True [] None 1 zero None
  | JInt z => CJson cJSON_Number [] None z (Dbl z 0) None
  | JStr s => string_item s
  | JArr l => CJson cJSON_Array (map tree_of l) None 0 zero None
  | JObj l => CJson cJSON_Object (map (fun m => set_string (Some m.1) (tree_of m.2)) l) None 0 zero None
  end.

(** The reference printer. *)
Fixpoint render (fmt : bool) (depth : nat) (v : jvalue) : cstr :=
  match v with
  | JNull => bytes_of "null"
  | JBool false => bytes_of "false"
  | JBool true => bytes_of "true"
  | JInt z => print_int z
  | JStr s => quoted s
  | JArr l => compose_array fmt (map (render fmt (S depth)) l)
  | JObj l => compose_object fmt (S depth) (map (fun m => (quoted m.1, render fmt (S depth) m.2)) l)
  end.

Definition kind (item : cJSON) : Z := Z.land (type item) 255.

(** A tree stands for a value: the type says which, the other fields that the
    printer reads hold it. *)
Fixpoint represents `{FloatOps} (v : jvalue) (item : cJSON) : Prop :=
  match v with
  | JNull => kind item = cJSON_NULL
  | JBool b => kind item = if b then cJSON_True else cJSON_False
  | JInt z => kind item = cJSON_Number /\ valueint item = z /\ dbl_whole (valuedouble item) z = true
  | JStr s => kind item = cJSON_String /\ valuestring item = Some s
  | JArr l =>
      kind item = cJSON_Array /\
      (fix go l cs := match l, cs with
        | [], [] => True | v :: l, c :: cs => represents v c /\ go l cs | _, _ => False end) l (child item)
  | JObj l =>
      kind item = cJSON_Object /\
      (fix go l cs := match l, cs with
        | [], [] => True
        | m :: l, c :: cs => (string c = Some m.1 /\ represents m.2 c) /\ go l cs
        | _, _ => False end) l (child item)
  end.

(** ** Buffers *)

Lemma write_buffer_fits size text : (length text < size)%nat -> write_buffer size text = Ok text.
Proof. intros. unfold write_buffer. by rewrite (proj2 (Nat.ltb_lt _ _)). Qed.

Lemma join_entries_cons fmt e es :
  es <> [] -> join_entries fmt (e :: es) = e ++ 44 :: (if fmt then [32] else []) ++ join_entries fmt es.
Proof. by destruct es. Qed.

Lemma join_entries_length fmt es :
  (length (join_entries fmt es) <= sum_list ((fun e => length e + 2 + (if fmt then 1 else 0))%nat <$> es))%nat.
Proof.
  induction es as [|e es IH]; [done|]. cbn [fmap list_fmap sum_list id].
  destruct es as [|e' es]; [simpl; lia|]. rewrite join_entries_cons by done.
  rewrite length_app, length_cons, length_app. destruct fmt; cbn [length id] in *; lia.
Qed.

(** [print_array] never writes past its buffer. *)
Lemma compose_array_fits fmt es : write_buffer (array_alloc fmt es) (compose_array fmt es) = Ok (compose_array fmt es).
Proof.
  apply write_buffer_fits. pose proof (join_entries_length fmt es). unfold compose_array, array_alloc.
  rewrite length_cons, length_app. cbn [length]. lia.
Qed.

Lemma join_members_length fmt depth ms :
  (length (join_members fmt depth ms) <=
    sum_list ((fun m => length m.2 + length m.1 + 2 + (if fmt then 2 + depth else 0))%nat <$> ms))%nat.
Proof.
  induction ms as [|[n e] ms IH]; [done|]. cbn [join_members fmap list_fmap sum_list id fst snd].
  rewrite !length_app, length_cons, !length_app.
  assert (length (if fmt then tabs depth else []) = if fmt then depth else 0)%nat as ->
    by (destruct fmt; [apply length_replicate|done]).
  destruct fmt, ms; cbn [length] in *; lia.
Qed.

(** [print_object] never writes past its buffer. *)
Lemma compose_object_fits fmt depth ms :
  write_buffer (object_alloc fmt depth ms) (compose_object fmt depth ms) = Ok (compose_object fmt depth ms).
Proof.
  apply write_buffer_fits. pose proof (join_members_length fmt depth ms). unfold compose_object, object_alloc.
  rewrite length_cons, !length_app.
  assert (length (if fmt then tabs (depth - 1) else []) = if fmt then depth - 1 else 0)%nat as ->
    by (destruct fmt; [apply length_replicate|done]).
  destruct fmt; cbn [length] in *; lia.
Qed.

Lemma print_int_length z : int32 z -> (length (print_int z) <= 11)%nat.
Proof. apply print_int_width. Qed.

(** ** The printer computes [render] *)

Section print.
Context `{FloatOps}.

Lemma print_each_render {A} stop f (g : A -> cstr) (R : A -> cJSON -> Prop) l cs :
  Forall2 R l cs -> (forall a c, a ∈ l -> R a c -> f c = Ok (Some (g a))) ->
  print_each stop f cs = Ok (Some (map g l)).
Proof.
  induction 1 as [|a c l cs Hac Hl IH]; intros Hf; [done|]. simpl.
  rewrite (Hf a c) by (done || set_solver). simpl.
  fold (print_each stop f). rewrite IH by (intros; apply Hf; set_solver). done.
Qed.

Lemma represents_arr l item :
  represents (JArr l) item <-> kind item = cJSON_Array /\ Forall2 represents l (child item).
Proof.
  simpl. apply and_iff_compat_l. generalize (child item). induction l as [|v l IH]; intros [|c cs].
  - split; constructor.
  - split; [done|inversion 1].
  - split; [done|inversion 1].
  - rewrite IH. split; [intros []; by constructor|inversion 1; by subst].
Qed.

Lemma represents_obj l item :
  represents (JObj l) item <-> kind item = cJSON_Object /\
    Forall2 (fun m c => string c = Some m.1 /\ represents m.2 c) l (child item).
Proof.
  simpl. apply and_iff_compat_l. generalize (child item). induction l as [|v l IH]; intros [|c cs].
  - split; constructor.
  - split; [done|inversion 1].
  - split; [done|inversion 1].
  - rewrite IH. split; [intros []; by constructor|inversion 1; by subst].
Qed.

Lemma foldr_Forall {A} (P : A -> Prop) l : foldr (fun a Q => P a /\ Q) True l <-> Forall P l.
Proof. induction l as [|a l IH]; simpl; [by split; constructor|]. by rewrite Forall_cons, IH. Qed.
Lemma valid_arr l : valid (JArr l) <-> Forall valid l.
Proof. apply foldr_Forall. Qed.
Lemma valid_obj l : valid (JObj l) <-> Forall (fun m => Forall is_byte m.1 /\ valid m.2) l.
Proof. apply (foldr_Forall (fun m => Forall is_byte m.1 /\ valid m.2)). Qed.

(** Every tree that stands for a valid value prints as the reference printer
    says, without leaving a buffer. *)
Lemma print_value_render fmt v : valid v -> forall depth item, represents v item ->
  print_value fmt depth item = Ok (Some (render fmt depth v)).
Proof.
  induction v as [|b|z|s|l IH|l IH] using jvalue_ind'; intros Hv depth item Hr;
    destruct item as [ty ch vs vi vd nm].
  - cbn in Hr. unfold kind in Hr. cbn in Hr. cbn [print_value]. by rewrite Hr.
  - cbn in Hr. unfold kind in Hr. cbn in Hr. cbn [print_value]. rewrite Hr. by destruct b.
  - destruct Hr as (Hk & Hi & Hw). unfold kind in Hk. cbn in Hk, Hi, Hw. cbn [print_value]. subst vi.
    rewrite Hk. cbn -[print_number]. unfold print_number. rewrite Hw, write_buffer_fits; [done|].
    pose proof (print_int_length z Hv). lia.
  - destruct Hr as (Hk & Hs). unfold kind in Hk. cbn in Hk, Hs. cbn [print_value]. subst vs.
    rewrite Hk. cbn -[print_string_ptr]. by rewrite print_string_ptr_quoted.
  - apply represents_arr in Hr as [Hk Hl]. apply valid_arr in Hv. unfold kind in Hk. cbn in Hk, Hl. cbn [print_value].
    rewrite Hk. cbn -[print_each compose_array write_buffer array_alloc].
    rewrite (print_each_render true (print_value fmt (S depth)) (render fmt (S depth)) represents l ch Hl).
    + cbn [rbind]. by rewrite compose_array_fits.
    + intros a c Ha. rewrite Forall_forall in IH, Hv. apply IH; auto.
  - apply represents_obj in Hr as [Hk Hl]. apply valid_obj in Hv. unfold kind in Hk. cbn in Hk, Hl. cbn [print_value].
    rewrite Hk. cbn -[print_each compose_object write_buffer object_alloc].
    rewrite Forall_forall in IH, Hv.
    rewrite (print_each_render false _ (fun m => quoted m.1) _ l ch Hl).
    2:{ intros m c Hm [-> _]. by rewrite print_string_ptr_quoted by (apply Hv; done). }
    rewrite (print_each_render false (print_value fmt (S depth)) (fun m => render fmt (S depth) m.2) _ l ch Hl).
    2:{ intros m c Hm [_ Hr]. apply IH; [done|apply Hv; done|done]. }
    cbn [rbind]. rewrite zip_with_fmap_l, zip_with_fmap_r, zip_with_diag.
    by rewrite compose_object_fits.
Qed.

End print.

(** ** The parser inverts [render] *)

(** No character of a number, so that a number in front of it ends there. *)
Definition ends (rest : cstr) : Prop :=
  is_digit (cur rest) = false /\ cur rest <> 46 /\ cur rest <> 101 /\ cur rest <> 69.

Lemma take_digits_app s rest : Forall (fun c => is_digit c = true) s -> is_digit (cur rest) = false ->
  forall n k, take_digits n k (s ++ rest) = (digits_value n s, k + Z.of_nat (length s), rest).
Proof.
  intros Hs Hr. induction Hs as [|c s Hc Hs IH]; intros n k.
  - destruct rest as [|c rest]; simpl in *; [|rewrite Hr]; do 2 f_equal; lia.
  - cbn [app take_digits digits_value length]. rewrite Hc, IH. do 2 f_equal. lia.
Qed.

Lemma parse_number_end `{FloatOps} sign n rest : ends rest ->
  (let '(n, scale, num) :=
    if (cur rest =? 46) && is_digit (cur (tl rest)) then take_digits n 0 (tl rest) else (n, 0, rest) in
  let '(signsubscale, subscale, num) :=
    if (cur num =? 101) || (cur num =? 69) then
      let num := tl num in
      let '(sg, num) := if cur num =? 43 then (1, tl num) else if cur num =? 45 then (-1, tl num) else (1, num) in
      let '(v, _, num) := take_digits 0 0 num in (sg, v, num)
    else (1, 0, num) in
  let d := Dbl (sign * n) (- scale + subscale * signsubscale) in
  (CJson cJSON_Number [] None (dbl_int d) d None, num)) =
  (CJson cJSON_Number [] None (dbl_int (Dbl (sign * n) 0)) (Dbl (sign * n) 0) None, rest).
Proof.
  intros (_ & H1 & H2 & H3). apply Z.eqb_neq in H1, H2, H3.
  rewrite H1. cbn [andb]. rewrite H2, H3. done.
Qed.

Lemma integer_part_print_uint n rest : 0 <= n < 10 ^ 20 -> ends rest ->
  integer_part (print_uint n ++ rest) = (n, rest).
Proof.
  intros Hn [Hr _]. unfold integer_part. destruct (decide (n = 0)) as [->|].
  - change (print_uint 0 ++ rest) with (48 :: rest). cbn [cur hd tl]. rewrite Z.eqb_refl.
    assert ((49 <=? cur rest) && (cur rest <=? 57) = false) as ->; [|done].
    unfold is_digit in Hr. rewrite andb_false_iff, !Z.leb_gt in *. lia.
  - destruct (digits_rev_lead 20 n ltac:(lia)) as (c & s & Hs & Hc).
    pose proof (print_uint_digits n ltac:(lia)) as Hd. pose proof (print_uint_value n Hn) as Hv.
    unfold print_uint in *. rewrite Hs in *. cbn [app].
    change (cur (c :: s ++ rest)) with c. rewrite (proj2 (Z.eqb_neq c 48)) by lia.
    change (cur (c :: s ++ rest)) with c.
    rewrite (proj2 (Z.leb_le 49 c)), (proj2 (Z.leb_le c 57)) by lia. cbn [andb].
    change (c :: s ++ rest) with ((c :: s) ++ rest).
    rewrite take_digits_app by done. by rewrite Hv.
Qed.

Lemma parse_number_int `{FloatOps} z rest : int32 z -> ends rest ->
  parse_number (print_int z ++ rest) =
    (CJson cJSON_Number [] None (dbl_int (Dbl z 0)) (Dbl z 0) None, rest).
Proof.
  unfold int32. intros Hz Hr. unfold parse_number, print_int. destruct (z <? 0) eqn:E.
  - cbn [app cur hd tl]. rewrite Z.eqb_refl. cbv iota beta.
    rewrite integer_part_print_uint, parse_number_end by (done || lia). by replace (-1 * - z) with z by lia.
  - destruct (print_uint_cons z ltac:(lia)) as (c & s & Hs & Hc). apply is_digit_iff in Hc.
    assert ((cur (print_uint z ++ rest) =? 45) = false) as -> by (rewrite Hs; apply Z.eqb_neq; simpl; lia).
    rewrite integer_part_print_uint, parse_number_end by (done || lia). by replace (1 * z) with z by lia.
Qed.

(** *** White space *)

Create HintDb json.
Definition blank (b : cstr) : Prop := Forall (fun c => c <= 32) b.

Lemma skip_blank b p : blank b -> skip (b ++ p) = skip p.
Proof. induction 1 as [|c b Hc Hb IH]; [done|]. simpl. by rewrite (proj2 (Z.leb_le _ _)). Qed.

Lemma skip_stop p : 32 < cur p -> skip p = p.
Proof. destruct p as [|c p]; [done|]. simpl. intros. by rewrite (proj2 (Z.leb_gt _ _)). Qed.

Lemma skip_skip p : skip (skip p) = skip p.
Proof. induction p as [|c p IH]; [done|]. simpl. destruct (c <=? 32) eqn:E; [done|]. simpl. by rewrite E. Qed.

Lemma skip_length p : (length (skip p) <= length p)%nat.
Proof. induction p as [|c p IH]; simpl; [lia|]. case_match; simpl; lia. Qed.

Lemma blank_if (fmt : bool) b : blank b -> blank (if fmt then b else []).
Proof. destruct fmt; [done|constructor]. Qed.
Lemma blank_tabs n : blank (tabs n).
Proof. apply Forall_replicate. lia. Qed.
Lemma blank_one c : c <= 32 -> blank [c].
Proof. by repeat constructor. Qed.
#[export] Hint Resolve blank_if blank_tabs : json.
#[export] Hint Extern 1 (blank [_]) => apply blank_one; lia : json.

(** The first character of a rendered value. *)
Lemma render_start fmt depth v : valid v ->
  exists c s, render fmt depth v = c :: s /\ 32 < c /\ c <> 93.
Proof.
  destruct v as [|[]|z|s|l|l]; intros Hv; try by eexists _, _.
  simpl in *. unfold int32, print_int in *. destruct (z <? 0) eqn:E; [by eexists _, _|].
  destruct (print_uint_cons z ltac:(lia)) as (c & s & -> & Hc%is_digit_iff). exists c, s. split; [done|lia].
Qed.

Lemma render_cur fmt depth v p : valid v ->
  32 < cur (render fmt depth v ++ p) /\ cur (render fmt depth v ++ p) <> 93.
Proof. intros Hv. by destruct (render_start fmt depth v Hv) as (c & s & -> & ? & ?). Qed.

Lemma ends_cons c p : is_digit c = false -> c <> 46 -> c <> 101 -> c <> 69 -> ends (c :: p).
Proof. done. Qed.

Section parse.
Context `{FloatLaws}.

(** What the induction on values provides for one value. *)
Definition parses fmt v : Prop := forall depth rest fuel,
  ends rest -> (2 * length (render fmt depth v ++ rest) < fuel)%nat ->
  parse_value fuel (render fmt depth v ++ rest) = Ok (Parsed (tree_of v) rest).

Lemma join_entries_cur fmt depth l p : l <> [] -> Forall valid l ->
  32 < cur (join_entries fmt (map (render fmt depth) l) ++ p) /\
  cur (join_entries fmt (map (render fmt depth) l) ++ p) <> 93.
Proof.
  destruct l as [|v [|v' l]]; [done| |]; intros _ Hv; inversion Hv; subst.
  - by apply render_cur.
  - cbn [map]. rewrite join_entries_cons, <- app_assoc by done. by apply render_cur.
Qed.

Lemma parse_elements_render fmt depth rest l : l <> [] -> Forall valid l -> Forall (parses fmt) l ->
  forall done fuel, (2 * length (join_entries fmt (map (render fmt depth) l) ++ 93%Z :: rest) + 1 < fuel)%nat ->
  parse_elements fuel done (join_entries fmt (map (render fmt depth) l) ++ 93 :: rest) =
    Ok (Parsed (CJson cJSON_Array (done ++ map tree_of l) None 0 zero None) rest).
Proof.
  intros Hne Hv Hp. induction Hv as [|v l Hv Hl IH]; [done|]. inversion Hp as [|? ? Hpv Hpl]; subst.
  intros done fuel Hf. destruct fuel as [|fuel]; [lia|]. cbn [parse_elements map] in *.
  destruct (decide (l = [])) as [->|Hl0].
  - cbn [map join_entries] in *. rewrite Hpv by first [by apply ends_cons | lia]. cbn [rbind].
    rewrite (skip_stop (93 :: rest)) by done. done.
  - rewrite join_entries_cons in * by (by destruct l). rewrite <- !app_assoc, <- app_comm_cons, <- app_assoc in *.
    rewrite Hpv by first [by apply ends_cons | lia]. cbn [rbind].
    rewrite (skip_stop (44 :: _)) by done. cbn [cur hd tl]. rewrite Z.eqb_refl.
    rewrite skip_blank by auto with json.
    rewrite skip_stop by (apply join_entries_cur; done).
    rewrite IH; [by rewrite <- app_assoc|done|done|].
    rewrite !length_app, length_cons, !length_app in *. cbn [length] in *. lia.
Qed.

Definition rendered fmt depth (ms : list (cstr * jvalue)) : list (cstr * cstr) :=
  map (fun m => (quoted m.1, render fmt depth m.2)) ms.

Lemma parse_members_render fmt d depth ms rest tail : ms <> [] ->
  Forall (fun m => Forall is_byte m.1 /\ valid m.2) ms -> Forall (fun m => parses fmt m.2) ms ->
  blank tail -> (fmt = false -> tail = []) ->
  forall done fuel, (2 * length (join_members fmt d (rendered fmt depth ms) ++ tail ++ 125%Z :: rest) + 1 < fuel)%nat ->
  parse_members fuel done (skip (join_members fmt d (rendered fmt depth ms) ++ tail ++ 125 :: rest)) =
    Ok (Parsed (CJson cJSON_Object (done ++ map (fun m => set_string (Some m.1) (tree_of m.2)) ms) None 0 zero None) rest).
Proof.
  intros Hne Hv Hp Htail Hfmt. induction Hv as [|[k v] ms [Hk Hv] Hms IH]; [done|].
  inversion Hp as [|? ? Hpv Hpl]; subst. cbn [fst snd] in *.
  intros done fuel Hf. destruct fuel as [|fuel]; [lia|].
  change (rendered fmt depth ((k, v) :: ms)) with ((quoted k, render fmt depth v) :: rendered fmt depth ms) in *.
  cbn [join_members map fst snd] in *. rewrite <- !app_assoc, <- app_comm_cons, <- !app_assoc in *.
  rewrite skip_blank by auto with json. rewrite (skip_stop (quoted k ++ _)) by done.
  cbn [parse_members]. rewrite parse_string_quoted by done. cbn [rbind].
  rewrite (skip_stop (58 :: _)) by done. cbn [cur hd tl]. rewrite Z.eqb_refl. cbn [negb].
  rewrite skip_blank by auto with json. rewrite (skip_stop (render _ _ _ ++ _)) by (apply render_cur; done).
  rewrite !length_app, length_cons, !length_app in Hf.
  rewrite Hpv; cycle 1.
  { destruct ms, fmt; try (apply ends_cons; done). rewrite Hfmt by done. by apply ends_cons. }
  { rewrite !length_app. lia. }
  cbn [rbind]. destruct (decide (ms = [])) as [->|Hms0].
  - cbn [rendered map join_members app]. rewrite skip_blank by auto with json.
    rewrite skip_blank by done. rewrite (skip_stop (125 :: _)) by done. done.
  - assert ((match rendered fmt depth ms with [] => [] | _ :: _ => [44] end) = [44]) as -> by (by destruct ms).
    cbn [app] in *. rewrite (skip_stop (44 :: _)) by done.
    cbn [cur hd tl]. rewrite Z.eqb_refl. rewrite skip_blank by auto with json.
    rewrite IH; [by rewrite <- app_assoc|done|done|].
    rewrite !length_app. lia.
Qed.

Lemma parse_value_number fuel p : (cur p =? 45) || is_digit (cur p) = true ->
  parse_value (S fuel) p = let (it, r) := parse_number p in Ok (Parsed it r).
Proof.
  intros Hc. destruct p as [|c p]; [done|]. cbn [cur hd] in Hc.
  assert (48 <= c <= 57 \/ c = 45) as Hr
    by (apply orb_true_iff in Hc as [Hc%Z.eqb_eq|Hc%is_digit_iff]; lia).
  cbn [parse_value].
  assert (forall lit, lit <> [] -> hd 0 lit <> c -> after_literal lit (c :: p) = None) as Hlit
    by (intros [|d lit] ??; [done|]; simpl in *; by rewrite (proj2 (Z.eqb_neq _ _))).
  rewrite !Hlit by first [done | vm_compute; lia]. cbn [cur hd]. rewrite Hc.
  by rewrite (proj2 (Z.eqb_neq c QUOTE)) by (unfold QUOTE; lia).
Qed.

Lemma parse_value_string fuel p :
  parse_value (S fuel) (QUOTE :: p) =
    (let! r := parse_string (QUOTE :: p) in
     match r with Parsed s r => Ok (Parsed (string_item s) r) | Failed e => Ok (Failed e) end).
Proof. reflexivity. Qed.

Lemma parse_value_array fuel p :
  parse_value (S fuel) (91 :: p) =
    if cur (skip p) =? 93 then Ok (Parsed (new_item cJSON_Array) (tl (skip p)))
    else parse_elements fuel [] (skip (skip p)).
Proof. reflexivity. Qed.

Lemma parse_value_object fuel p :
  parse_value (S fuel) (123 :: p) =
    if cur (skip p) =? 125 then Ok (Parsed (new_item cJSON_Object) (tl (skip p)))
    else parse_members fuel [] (skip (skip p)).
Proof. reflexivity. Qed.

Lemma parse_value_render fmt v : valid v -> parses fmt v.
Proof.
  induction v as [|b|z|s|l IH|l IH] using jvalue_ind'; intros Hv depth rest fuel Hr Hf;
    (destruct fuel as [|fuel]; [lia|]).
  - done.
  - by destruct b.
  - cbn [render valid tree_of] in *. rewrite parse_value_number.
    + by rewrite parse_number_int, dbl_int_exact.
    + unfold print_int, int32 in *. destruct (z <? 0) eqn:E; [done|].
      destruct (print_uint_cons z ltac:(lia)) as (c & s & -> & Hc). cbn [app cur hd]. rewrite Hc. apply orb_true_r.
  - cbn [render valid] in *. pose proof (parse_string_quoted s rest Hv) as Hs. revert Hs. unfold quoted.
    rewrite <- app_comm_cons. intros Hs. rewrite parse_value_string. by rewrite Hs.
  - apply valid_arr in Hv. cbn [render] in *. unfold compose_array in *. rewrite <- app_comm_cons, <- app_assoc in *.
    rewrite parse_value_array. destruct (decide (l = [])) as [->|Hl]; [done|].
    destruct (join_entries_cur fmt (S depth) l (93 :: rest) Hl Hv) as [H1 H2]. cbn [app].
    rewrite skip_stop by done. rewrite (proj2 (Z.eqb_neq _ _)) by done. rewrite skip_stop by done.
    rewrite parse_elements_render; [done|done|done| |].
    + rewrite Forall_forall in *. auto.
    + cbn [length app] in Hf. lia.
  - apply valid_obj in Hv. cbn [render] in *. unfold compose_object in *.
    rewrite <- app_comm_cons, <- !app_assoc in *. rewrite parse_value_object.
    rewrite skip_blank by auto with json. replace (S depth - 1)%nat with depth in * by lia.
    destruct (decide (l = [])) as [->|Hl].
    { cbn [map join_members app]. rewrite skip_blank by auto with json. by rewrite skip_stop. }
    fold (rendered fmt (S depth) l). rewrite skip_skip. change ([125] ++ rest) with (125 :: rest) in *.
    fold (rendered fmt (S depth) l) in Hf.
    rewrite parse_members_render; [|done|done| | | |].
    + destruct l as [|[k v] l]; [done|]. cbn [rendered map join_members fst snd].
      rewrite <- app_assoc, skip_blank by auto with json. by rewrite <- app_assoc, skip_stop.
    + rewrite Forall_forall in *. intros m Hm. apply IH; [done|apply Hv; done].
    + auto with json.
    + by intros ->.
    + cbn [length] in Hf. rewrite !length_app, length_cons in *. lia.
Qed.

End parse.

(** ** Any text *)

(** What a parsing function may do on the text [p]: give back a proper rest of
    it, fail, or run past the terminator when the text ends in a backslash. *)
Definition behaves {A} (p : cstr) (r : result (parsed A)) : Prop :=
  match r with
  | Ok (Parsed _ q) => q `suffix_of` p /\ (length q < length p)%nat
  | Ok (Failed _) => True
  | Fault f => f = OutOfBounds /\ last p = Some BACKSLASH
  | OutOfFuel => False
  end.

Lemma last_suffix (q p : cstr) c : q `suffix_of` p -> last q = Some c -> last p = Some c.
Proof. intros [k ->] H. by rewrite last_app, H. Qed.

Lemma behaves_suffix {A} q p (r : result (parsed A)) : q `suffix_of` p -> behaves q r -> behaves p r.
Proof.
  intros Hs. pose proof (suffix_length _ _ Hs). destruct r as [[|]| |]; simpl; [|done| |done].
  - intros []. split; [by etrans|lia].
  - intros [? ?]. eauto using last_suffix.
Qed.

Lemma suffix_skip p : skip p `suffix_of` p.
Proof. induction p as [|c p IH]; simpl; [done|]. case_match; [by apply suffix_cons_r|done]. Qed.
Lemma suffix_tl (p : cstr) : tl p `suffix_of` p.
Proof. destruct p; [done|]. by apply suffix_cons_r. Qed.
#[export] Hint Resolve suffix_skip suffix_tl : json.
#[export] Hint Extern 5 (suffix (skip _) _) => etrans; [apply suffix_skip|] : json.
#[export] Hint Extern 5 (suffix (tl _) _) => etrans; [apply suffix_tl|] : json.

Lemma tl_length (p : cstr) c : cur p = c -> c <> 0 -> (length (tl p) < length p)%nat.
Proof. destruct p; simpl; [intros <-; done|lia]. Qed.

Lemma after_literal_suffix lit p q : after_literal lit p = Some q -> q `suffix_of` p /\ (length q + length lit = length p)%nat.
Proof.
  revert p. induction lit as [|c lit IH]; intros p; simpl; [intros; simplify_eq; auto with lia|].
  destruct p as [|d p]; [done|]. case_match; [|done]. intros [? ?]%IH.
  split; [by apply suffix_cons_r|simpl; lia].
Qed.

Lemma take_digits_suffix p : forall n k,
  (take_digits n k p).2 `suffix_of` p /\ (is_digit (cur p) = true -> (length (take_digits n k p).2 < length p)%nat).
Proof.
  induction p as [|c p IH]; intros n k; simpl; [done|].
  destruct (is_digit c) eqn:E; [|done]. destruct (IH (10 * n + (c - 48)) (k + 1)) as [Hs _].
  split; [by apply suffix_cons_r|]. intros _. apply suffix_length in Hs. lia.
Qed.

Lemma integer_part_suffix p :
  (integer_part p).2 `suffix_of` p /\ (is_digit (cur p) = true -> (length (integer_part p).2 < length p)%nat).
Proof.
  unfold integer_part. set (num := if cur p =? 48 then tl p else p).
  assert (num `suffix_of` p) as Hn by (unfold num; case_match; auto with json).
  assert (forall r : Z * Z * cstr, r.2 `suffix_of` num -> (is_digit (cur p) = true -> (length r.2 < length p)%nat) ->
    (let '(n, _, num) := r in (n, num)).2 `suffix_of` p /\
    (is_digit (cur p) = true -> (length (let '(n, _, num) := r in (n, num)).2 < length p)%nat)) as Hk
    by (intros [[? ?] ?]; simpl; intros; split; [by etrans|done]).
  apply Hk; [case_match; [apply take_digits_suffix|done]|]. intros Hd.
  destruct (_ && _) eqn:E; simpl.
  - destruct (take_digits_suffix num 0 0) as [_ Hlt]. apply suffix_length in Hn.
    apply (Nat.lt_le_trans _ (length num)); [|done]. apply Hlt. unfold is_digit.
    rewrite andb_true_iff, !Z.leb_le in *. lia.
  - unfold num in *. destruct (cur p =? 48) eqn:E48; [apply Z.eqb_eq in E48; by eapply tl_length|].
    unfold is_digit in Hd. rewrite andb_true_iff, andb_false_iff, ?Z.leb_gt, ?Z.leb_le, Z.eqb_neq in *. lia.
Qed.

Lemma parse_string_behaves p : behaves p (parse_string p).
Proof.
  destruct (decide (cur p = QUOTE)) as [Hq|Hq].
  2:{ unfold parse_string. by rewrite (proj2 (Z.eqb_neq _ _)). }
  destruct p as [|c p]; [done|]. cbn in Hq. subst c. rewrite parse_string_eq.
  destruct (scan_length p 0) as [len|f|] eqn:E; cbn [rbind].
  - destruct (unescape_sync (S (S (length p))) p 0 len ltac:(lia) E) as (out & q & -> & Hlen & _ & Hs). cbn [rbind].
    rewrite (proj2 (Nat.ltb_ge _ _)) by lia. simpl.
    assert ((if cur q =? QUOTE then tl q else q) `suffix_of` p) as Hs' by (case_match; [etrans; [apply suffix_tl|done]|done]).
    split; [by apply suffix_cons_r|]. apply suffix_length in Hs'. lia.
  - destruct (scan_length_fault _ _ _ E) as [-> Hl]. split; [done|]. destruct p; [done|]. by rewrite last_cons_cons.
  - by apply scan_length_fuel in E.
Qed.

(** The fraction and the exponent only move forward. *)
Lemma parse_number_behaves `{FloatOps} p : (cur p =? 45) || is_digit (cur p) = true ->
  (parse_number p).2 `suffix_of` p /\ (length (parse_number p).2 < length p)%nat.
Proof.
  intros Hc. unfold parse_number.
  assert (exists sign num, (if cur p =? 45 then (-1, tl p) else (1, p)) = (sign, num) /\
    num `suffix_of` p /\ (num = p \/ (length num < length p)%nat) /\ (num = p -> is_digit (cur p) = true))
    as (sign & num & -> & Hs0 & Hl0 & Hd0).
  { destruct (cur p =? 45) eqn:E; [|exists 1, p; split_and!; auto].
    apply Z.eqb_eq in E. exists (-1), (tl p). pose proof (tl_length p 45 E ltac:(done)).
    split_and!; [done|auto with json|by right|]. intros Heq. rewrite Heq in *. lia. }
  destruct (integer_part num) as [n num1] eqn:E1.
  assert (num1 `suffix_of` p /\ (length num1 < length p)%nat) as [Hs1 Hl1].
  { destruct (integer_part_suffix num) as [Ha Hb]. rewrite E1 in Ha, Hb. simpl in Ha, Hb. split; [by etrans|].
    pose proof (suffix_length _ _ Ha). destruct Hl0 as [->|]; [apply Hb; auto|lia]. }
  destruct (if (_ && _)%bool then take_digits n 0 (tl num1) else _) as [[n2 scale] num2] eqn:E2.
  assert (num2 `suffix_of` p /\ (length num2 < length p)%nat) as [Hs2 Hl2].
  { assert (num2 `suffix_of` num1) as Hs2; [|split; [by etrans|apply suffix_length in Hs2; lia]].
    destruct (_ && _); [|by simplify_eq]. destruct (take_digits_suffix (tl num1) n 0) as [Ha _].
    rewrite E2 in Ha. simpl in Ha. etrans; [done|apply suffix_tl]. }
  destruct (if (_ || _)%bool then _ else _) as [[sg sub] num3] eqn:E3. simpl.
  assert (num3 `suffix_of` num2) as Hs3; [|split; [by etrans|apply suffix_length in Hs3; lia]].
  destruct ((cur num2 =? 101) || (cur num2 =? 69)); [|by simplify_eq].
  destruct (if cur (tl num2) =? 43 then _ else _) as [sg' num2'] eqn:E4.
  assert (num2' `suffix_of` num2) as Hs4 by (repeat case_match; simplify_eq; auto with json).
  destruct (take_digits 0 0 num2') as [[v k] num4] eqn:E5. simplify_eq.
  destruct (take_digits_suffix num2' 0 0) as [Ha _]. rewrite E5 in Ha. simpl in Ha. etrans; [exact Ha|exact Hs4].
Qed.

Section total.
Context `{FloatOps}.

Definition total_below (fuel : nat) : Prop :=
  (forall p, (2 * length p < fuel)%nat -> behaves p (parse_value fuel p)) /\
  (forall p done, (2 * length p + 1 < fuel)%nat -> behaves p (parse_elements fuel done p)) /\
  (forall p done, (2 * length p + 1 < fuel)%nat -> behaves p (parse_members fuel done p)).

Lemma parse_value_step fuel p : total_below fuel -> (2 * length p < S fuel)%nat -> behaves p (parse_value (S fuel) p).
Proof.
  intros (_ & He & Hm) Hf. cbn [parse_value].
  destruct (after_literal (bytes_of "null") p) as [r|] eqn:E1;
    [apply after_literal_suffix in E1 as [? ?]; cbn in *; split; [done|lia]|].
  destruct (after_literal (bytes_of "false") p) as [r|] eqn:E2;
    [apply after_literal_suffix in E2 as [? ?]; cbn in *; split; [done|lia]|].
  destruct (after_literal (bytes_of "true") p) as [r|] eqn:E3;
    [apply after_literal_suffix in E3 as [? ?]; cbn in *; split; [done|lia]|].
  destruct (cur p =? QUOTE) eqn:Eq.
  { pose proof (parse_string_behaves p) as Hs. destruct (parse_string p) as [[|]| |]; done. }
  destruct ((cur p =? 45) || is_digit (cur p)) eqn:En.
  { pose proof (parse_number_behaves p En) as Hn. destruct (parse_number p). exact Hn. }
  assert (forall c, cur p = c -> c <> 0 ->
    (length (skip (skip (tl p))) < length p)%nat /\ (length (tl (skip (tl p))) < length p)%nat) as Hlen.
  { intros c Hc Hz. pose proof (tl_length p c Hc Hz). pose proof (skip_length (tl p)).
    pose proof (skip_length (skip (tl p))). pose proof (suffix_length _ _ (suffix_tl (skip (tl p)))). lia. }
  destruct (cur p =? 91) eqn:Ea; [|destruct (cur p =? 123) eqn:Eo; [|done]].
  - apply Z.eqb_eq in Ea. destruct (Hlen 91 Ea ltac:(done)). case_match; [split; [auto 10 with json|done]|].
    apply (behaves_suffix (skip (skip (tl p)))); [auto 10 with json|]. apply He. lia.
  - apply Z.eqb_eq in Eo. destruct (Hlen 123 Eo ltac:(done)). case_match; [split; [auto 10 with json|done]|].
    apply (behaves_suffix (skip (skip (tl p)))); [auto 10 with json|]. apply Hm. lia.
Qed.

(** What follows a value inside an array or an object. *)
Lemma next_length q p (k : nat) : q `suffix_of` p -> (length q < length p)%nat -> (2 * length p + 1 < S k)%nat ->
  cur (skip q) = 44 ->
  (2 * length (skip (tl (skip q))) + 1 < k)%nat /\ skip (tl (skip q)) `suffix_of` p.
Proof.
  intros Hs Hl Hk Hc. pose proof (tl_length _ _ Hc ltac:(done)). pose proof (skip_length q).
  pose proof (skip_length (tl (skip q))). split; [lia|]. auto 10 with json.
Qed.

Lemma close_behaves {A} q p (a : A) c : q `suffix_of` p -> (length q < length p)%nat -> cur (skip q) = c -> c <> 0 ->
  behaves p (Ok (Parsed a (tl (skip q)))).
Proof.
  intros Hs Hl Hc Hz. pose proof (tl_length _ _ Hc Hz). pose proof (skip_length q).
  split; [auto 10 with json|lia].
Qed.

Lemma parse_elements_step fuel p done : total_below fuel -> (2 * length p + 1 < S fuel)%nat ->
  behaves p (parse_elements (S fuel) done p).
Proof.
  intros (Hv & He & _) Hf. cbn [parse_elements]. specialize (Hv p ltac:(lia)).
  destruct (parse_value fuel p) as [[it q|e]|f|]; [|done|done|done]. destruct Hv as [Hs Hl]. cbn [rbind].
  case_match eqn:E; [|case_match eqn:E'; [|done]].
  - apply Z.eqb_eq in E. destruct (next_length q p fuel) as [? ?]; [done..|].
    eapply behaves_suffix; [done|]. by apply He.
  - apply Z.eqb_eq in E'. by eapply close_behaves.
Qed.

Lemma parse_members_step fuel p done : total_below fuel -> (2 * length p + 1 < S fuel)%nat ->
  behaves p (parse_members (S fuel) done p).
Proof.
  intros (Hv & _ & Hm) Hf. cbn [parse_members]. pose proof (parse_string_behaves p) as Hk.
  destruct (parse_string p) as [[key q|e]|f|]; [|done|done|done]. destruct Hk as [Hs Hl]. cbn [rbind].
  destruct (negb _); [done|].
  set (p' := skip (tl (skip q))). assert (p' `suffix_of` p) as Hs' by (unfold p'; auto 10 with json).
  assert (length p' <= length q)%nat as Hl' by (apply suffix_length; unfold p'; auto 10 with json).
  specialize (Hv p' ltac:(lia)). destruct (parse_value fuel p') as [[it r|e]|f|]; [|done| |done].
  2:{ destruct Hv. split; [done|]. eauto using last_suffix. }
  destruct Hv as [Hsr Hlr]. cbn [rbind]. assert (r `suffix_of` p) by (by etrans).
  case_match eqn:E; [|case_match eqn:E'; [|done]].
  - apply Z.eqb_eq in E. destruct (next_length r p fuel) as [? ?]; [done|lia|done|done|].
    eapply behaves_suffix; [done|]. by apply Hm.
  - apply Z.eqb_eq in E'. eapply close_behaves; [done|lia|done|done].
Qed.

Lemma parse_total fuel : total_below fuel.
Proof.
  induction fuel as [|fuel IH]; [split_and!; lia|].
  split_and!; intros; [by apply parse_value_step|by apply parse_elements_step|by apply parse_members_step].
Qed.
End total.

(** *** The parser's tree stands for the value *)

Lemma represents_set_string `{FloatOps} v n item : represents v (set_string n item) <-> represents v item.
Proof. destruct item. by destruct v. Qed.

Lemma represents_tree_of `{FloatLaws} v : valid v -> represents v (tree_of v).
Proof.
  induction v as [|b|z|s|l IH|l IH] using jvalue_ind'; intros Hv; try done.
  - by destruct b.
  - cbn. split_and!; [done|done|by apply dbl_whole_exact].
  - apply valid_arr in Hv. apply represents_arr. split; [done|]. cbn [tree_of child].
    apply Forall2_fmap_r, Forall_Forall2_diag. rewrite Forall_forall in *. auto.
  - apply valid_obj in Hv. apply represents_obj. split; [done|]. cbn [tree_of child].
    apply Forall2_fmap_r, Forall_Forall2_diag. rewrite Forall_forall in *. intros m Hm.
    split; [by destruct (tree_of m.2)|]. apply represents_set_string. apply IH; [done|by apply Hv].
Qed.

Lemma parse_render `{FloatLaws} fmt v : valid v -> cJSON_Parse (render fmt 0 v) = Ok (Some (tree_of v)).
Proof.
  intros Hv. unfold cJSON_Parse. destruct (render_cur fmt 0%nat v [] Hv) as [Hc _]. rewrite app_nil_r in Hc.
  rewrite skip_stop by done.
  pose proof (parse_value_render fmt v Hv 0%nat [] (S (2 * length (render fmt 0 v)))) as Hp.
  rewrite app_nil_r in Hp. rewrite Hp by (done || lia). done.
Qed.

(** ** Printing any tree *)

(** Strings hold bytes, and the text of a number fits the buffer it is given. *)
Fixpoint fits `{FloatOps} (item : cJSON) : Prop :=
  match item with
  | CJson _ ch vs vi vd nm =>
      from_option (Forall is_byte) True vs /\ from_option (Forall is_byte) True nm /\
      (if dbl_whole vd vi then (length (print_int vi) < 21)%nat else (length (dbl_text vd) < 64)%nat) /\
      foldr (fun c P => fits c /\ P) True ch
  end.

Lemma cJSON_ind' (P : cJSON -> Prop) :
  (forall t ch vs vi vd nm, Forall P ch -> P (CJson t ch vs vi vd nm)) -> forall item, P item.
Proof.
  intros Hc. fix IH 1. intros [t ch vs vi vd nm]. apply Hc. induction ch; constructor; [apply IH|assumption].
Qed.

Lemma print_string_ptr_safe s : from_option (Forall is_byte) True s -> exists t, print_string_ptr s = Ok t.
Proof. destruct s; [|by eexists]. intros. eexists. by apply print_string_ptr_quoted. Qed.

Lemma print_number_safe `{FloatOps} vi vd :
  (if dbl_whole vd vi then (length (print_int vi) < 21)%nat else (length (dbl_text vd) < 64)%nat) ->
  exists t, print_number vi vd = Ok t.
Proof. unfold print_number. case_match; intros; rewrite write_buffer_fits by done; eauto. Qed.

Lemma print_each_safe stop f cs : Forall (fun c => exists t, f c = Ok t) cs -> exists r, print_each stop f cs = Ok r.
Proof.
  induction 1 as [|c cs [t Ht] Hcs [r IH]]; [by eexists|]. simpl. rewrite Ht. simpl. fold (print_each stop f).
  rewrite IH. destruct t; [|destruct stop]; simpl; eauto.
Qed.

Lemma print_value_safe `{FloatOps} fmt item : fits item -> forall depth, exists r, print_value fmt depth item = Ok r.
Proof.
  induction item as [t ch vs vi vd nm IH] using cJSON_ind'. intros (Hvs & Hnm & Hnum & Hch) depth.
  apply (foldr_Forall fits) in Hch. rewrite Forall_forall in IH, Hch. cbn [print_value].
  destruct (Z.land t 255 =? cJSON_NULL); [eauto|]. destruct (Z.land t 255 =? cJSON_False); [eauto|].
  destruct (Z.land t 255 =? cJSON_True); [eauto|].
  destruct (Z.land t 255 =? cJSON_Number); [destruct (print_number_safe vi vd Hnum) as [? ->]; cbn; eauto|].
  destruct (Z.land t 255 =? cJSON_String); [destruct (print_string_ptr_safe vs Hvs) as [? ->]; cbn; eauto|].
  assert (forall stop, exists r, print_each stop (print_value fmt (S depth)) ch = Ok r) as Hes.
  { intros stop. apply print_each_safe, Forall_forall. intros c Hc. by apply IH; [|apply Hch]. }
  destruct (Z.land t 255 =? cJSON_Array).
  { destruct (Hes true) as [[es|] ->]; cbn [rbind]; [rewrite compose_array_fits; cbn|]; eauto. }
  destruct (Z.land t 255 =? cJSON_Object); [|eauto].
  destruct (print_each_safe false (fun c => let! n := print_string_ptr (string c) in Ok (Some n)) ch) as [names ->].
  { apply Forall_forall. intros c Hc. apply Hch in Hc. destruct c as [? ? ? ? ? s], Hc as (_ & Hs & _). cbn [string].
    destruct (print_string_ptr_safe s Hs) as [? ->]. by eexists. }
  destruct (Hes false) as [es ->]. cbn [rbind].
  destruct names, es; eauto. cbv zeta. rewrite compose_object_fits. cbn. eauto.
Qed.

(** ** Bits *)

Lemma low_bits x k : k * 1024 <= x < (k + 1) * 1024 -> x mod 2 ^ 10 = x - k * 1024.
Proof. intros H. symmetry. apply (Z.mod_unique_pos x (2 ^ 10) k); lia. Qed.

Lemma lor_disjoint x y k : 0 <= k -> 0 <= y < 2 ^ k -> Z.lor (x * 2 ^ k) y = x * 2 ^ k + y.
Proof.
  intros Hk Hy. pose proof (Z.add_lor_land (x * 2 ^ k) y) as H.
  assert (Z.land (x * 2 ^ k) y = 0) as Hz; [|lia]. apply Z.bits_inj'. intros n Hn.
  rewrite Z.land_spec, Z.bits_0. destruct (Z.lt_ge_cases n k).
  - by rewrite Z.mul_pow2_bits_low.
  - destruct (decide (y = 0)) as [->|]; [by rewrite Z.bits_0, andb_false_r|].
    rewrite (Z.bits_above_log2 y n), andb_false_r; [done|lia|].
    apply Z.log2_lt_pow2; [lia|]. apply (Z.lt_le_trans _ (2 ^ k)); [lia|]. apply Z.pow_le_mono_r; lia.
Qed.

Lemma lor_pow2 x k : 0 <= k -> Z.lor (2 ^ k) x = if Z.testbit x k then x else 2 ^ k + x.
Proof.
  intros Hk. destruct (Z.testbit x k) eqn:E.
  - apply Z.bits_inj'. intros n Hn. rewrite Z.lor_spec, Z.pow2_bits_eqb by done.
    destruct (Z.eqb_spec k n) as [->|]; [by rewrite E|done].
  - pose proof (Z.add_lor_land (2 ^ k) x) as H. assert (Z.land (2 ^ k) x = 0) as Hz; [|lia].
    apply Z.bits_inj'. intros n Hn. rewrite Z.land_spec, Z.pow2_bits_eqb, Z.bits_0 by done.
    destruct (Z.eqb_spec k n) as [->|]; [by rewrite E|done].
Qed.

(** Without a special character the first pass walks straight to the end. *)
Lemma scan_length_plain s p n : Forall (fun c => c <> QUOTE /\ c <> BACKSLASH) s ->
  scan_length (s ++ p) n = scan_length p (n + length s).
Proof.
  intros Hs. revert n. induction Hs as [|c s [H1 H2] Hs IH]; intros n; cbn [app length]; [f_equal; lia|].
  rewrite scan_plain, IH by (by apply Z.eqb_neq). f_equal. lia.
Qed.
End JsonValue.

Import Json JsonProof JsonValue.

(** C31: A cJSON tree that stands for a JSON value (null, booleans, 32-bit
    integers, byte strings, arrays and objects, nested to any depth) prints, by
    [cJSON_Print] or by [cJSON_PrintUnformatted], without overrunning a buffer,
    and [cJSON_Parse] of the text returns a tree that stands for the same
    value.  Fractions and larger numbers are not covered; printing a large one
    does overrun its buffer ([cJSON_Print_long_number]). *)
Theorem cJSON_print_parse `{FloatLaws} (formatted : bool) v item :
  valid v -> represents v item ->
  exists text, (if formatted then cJSON_Print item else cJSON_PrintUnformatted item) = Ok (Some text) /\
    cJSON_Parse text = Ok (Some (tree_of v)) /\ represents v (tree_of v).
Proof.
  intros Hv Hr. exists (render formatted 0 v).
  split_and!; [destruct formatted; by apply print_value_render|by apply parse_render|by apply represents_tree_of].
Qed.

(** Decimals as they are: an instance of the float parameters. *)
Definition exact_floats : FloatOps := {|
  dbl_int d := mant d * 10 ^ expo d;
  dbl_whole d i := (expo d =? 0) && (mant d =? i);
  dbl_text d := print_int (mant d) ++ 101 :: print_int (expo d) |}.
Definition exact_floats_laws : @FloatLaws exact_floats.
Proof.
  split; intros z _; cbn; [lia|]. by rewrite Z.eqb_refl.
Defined.

Lemma cJSON_print_parse_witness :
  let ev := JObj [(bytes_of "_id", JStr (bytes_of "7")); (bytes_of "ok", JBool true);
                  (bytes_of "a", JArr [JInt (-12); JNull; JStr [34; 9; 1; 200]])] in
  exists text, @cJSON_Print exact_floats (tree_of ev) = Ok (Some text) /\
    @cJSON_Parse exact_floats text = Ok (Some (tree_of ev)).
Proof.
  intros ev.
  destruct (@cJSON_print_parse exact_floats exact_floats_laws true ev (tree_of ev)) as (text & H1 & H2 & _).
  - cbn. unfold int32, is_byte. repeat first [done | lia | constructor].
  - cbn. repeat split.
  - exists text. split; assumption.
Defined.

(** C32: [cJSON_Parse] ends on every text.  It returns a tree or null, except
    that it may read past the terminator of a text whose last character is a
    backslash; it never writes past the buffer of a string. *)
Theorem cJSON_Parse_total `{FloatOps} text :
  (exists r, cJSON_Parse text = Ok r) \/ (cJSON_Parse text = Fault OutOfBounds /\ last text = Some BACKSLASH).
Proof.
  destruct (parse_total (S (2 * length text))) as [Hv _].
  pose proof (skip_length text). specialize (Hv (skip text) ltac:(lia)). unfold cJSON_Parse.
  destruct (parse_value _ _) as [[it q|e]|f|]; cbn in *; eauto; [|done].
  destruct Hv as [-> Hl]. right. split; [done|]. eapply last_suffix; [apply suffix_skip|done].
Qed.

(** The read past the terminator happens: an unterminated string that
    ends in a backslash makes the first pass of [parse_string] step over the
    terminator. *)
Theorem cJSON_Parse_trailing_backslash `{FloatOps} s :
  Forall (fun c => c <> QUOTE /\ c <> BACKSLASH) s ->
  cJSON_Parse (QUOTE :: s ++ [BACKSLASH]) = Fault OutOfBounds.
Proof.
  intros Hs. unfold cJSON_Parse. rewrite skip_stop by done. rewrite parse_value_string, parse_string_eq.
  by rewrite scan_length_plain.
Qed.

Lemma cJSON_Parse_trailing_backslash_witness :
  @cJSON_Parse exact_floats (QUOTE :: bytes_of "abc" ++ [BACKSLASH]) = Fault OutOfBounds.
Proof.
  apply (@cJSON_Parse_trailing_backslash exact_floats).
  repeat constructor; vm_compute; discriminate.
Defined.

(** [cJSON_Print] of any tree whose strings hold non-zero bytes and whose
    number texts fit the buffers of [print_number] stays inside every buffer
    it allocates, formatted or not, whatever the types of the items. *)
Theorem cJSON_Print_safe `{FloatOps} item :
  fits item -> (exists r, cJSON_Print item = Ok r) /\ (exists r, cJSON_PrintUnformatted item = Ok r).
Proof. intros Hf. split; by apply print_value_safe. Qed.

Lemma cJSON_Print_safe_witness :
  let item := CJson cJSON_Object [CJson 99 [] None 0 zero (Some (bytes_of "odd"))] None 0 zero None in
  (exists r, @cJSON_Print exact_floats item = Ok r) /\ (exists r, @cJSON_PrintUnformatted exact_floats item = Ok r).
Proof.
  intros item. apply (@cJSON_Print_safe exact_floats). cbn. unfold is_byte.
  repeat first [done | lia | constructor].
Defined.

(** The code point computed from a surrogate pair is the one the pair
    encodes exactly when bit 6 of the high surrogate is clear: [0x10000] is
    joined with a bitwise or instead of being added, so every second plane
    (U+20000 for one) is decoded as the one below it. *)
Theorem parse_string_surrogate_pair hi lo :
  55296 <= hi <= 56319 -> 56320 <= lo <= 57343 ->
  combine hi lo = 65536 + (hi - 55296) * 1024 + (lo - 56320) <-> Z.testbit hi 6 = false.
Proof.
  intros Hhi Hlo. unfold combine. pose proof (low_bits hi 54 ltac:(lia)) as Hh. pose proof (low_bits lo 55 ltac:(lia)) as Hl.
  change 1023 with (Z.ones 10). rewrite !Z.land_ones, Z.shiftl_mul_pow2, <- Z.lor_assoc by lia.
  rewrite (lor_disjoint _ _ 10) by (pose proof (Z.mod_pos_bound lo (2 ^ 10)); lia).
  rewrite Hh, Hl. change 65536 with (2 ^ 16) at 1. rewrite lor_pow2 by lia.
  replace (Z.testbit _ 16) with (Z.testbit hi 6); [destruct (Z.testbit hi 6); split; (done || lia)|].
  apply Z.b2z_inj. rewrite !Z.testbit_spec' by lia. change (2 ^ 6) with 64. change (2 ^ 10) with 1024.
  change (2 ^ 16) with 65536. Z.to_euclidean_division_equations. lia.
Qed.

Lemma parse_string_surrogate_pair_witness :
  (combine 55361 56321 = 65536 + (55361 - 55296) * 1024 + (56321 - 56320) <-> Z.testbit 55361 6 = false) /\
  parse_string (QUOTE :: bytes_of "\uD840\uDC00" ++ [QUOTE]) = Ok (Parsed (utf8 65536) []).
Proof. split; [apply parse_string_surrogate_pair; lia|vm_compute; reflexivity]. Defined.

(** [print_number] gives the text of a number that is not an [int] a
    buffer of 64 bytes: a longer text (["%.0f"] of a large double) is written
    past its end. *)
Theorem cJSON_Print_long_number `{FloatOps} vi d name :
  dbl_whole d vi = false -> (64 <= length (dbl_text d))%nat ->
  cJSON_Print (CJson cJSON_Number [] None vi d name) = Fault OutOfBounds.
Proof.
  intros Hw Hl. unfold cJSON_Print. cbn -[print_number]. unfold print_number, write_buffer.
  by rewrite Hw, (proj2 (Nat.ltb_ge _ _)).
Qed.

(** ["%.0f"] of an integral decimal. *)
Definition integral_floats : FloatOps := {|
  dbl_int d := mant d * 10 ^ expo d;
  dbl_whole d i := (expo d =? 0) && (mant d =? i);
  dbl_text d := print_int (mant d) ++ replicate (Z.to_nat (expo d)) 48 |}.

Lemma cJSON_Print_long_number_witness :
  @cJSON_Print integral_floats (CJson cJSON_Number [] None 0 (Dbl 1 100) None) = Fault OutOfBounds.
Proof.
  apply (@cJSON_Print_long_number integral_floats); [reflexivity|].
  apply Nat.leb_le. vm_compute. reflexivity.
Defined.
