(* ===== verification/EventJson.v ===== *)
(** * Events as JSON

    [agc_event_serialize_json], which writes an event as a JSON object of
    strings, and [agc_event_create_json], which reads one
    ([src/src/agc_event.c]), on top of [Event], [EventBus] and [Json]. *)

From stdpp Require Import base gmap list fin_maps strings.
From Stdlib Require Import ZArith Lia.
From S2P Require Import Prelude CString Queue Event EventProof EventBus Json JsonProof JsonMain.

Module EvJson.
Import Ev Bus Json.

(** The loop over the headers in [agc_event_serialize_json_obj]. *)
Fixpoint serialize_headers (fuel : nat) (s : store) (hp : Z) (cj : cJSON) : result cJSON :=
  match fuel with
  | O => OutOfFuel
  | S fuel' =>
      if hp =? NULL then Ok cj
      else
        let! h := hget s hp in
        serialize_headers fuel' s (next h)
          (cJSON_AddItemToObject cj (name h) (Some (cJSON_CreateString (value h))))
  end.

Definition agc_event_serialize_json_obj (fuel : nat) (b : bus) (ev : Z) : result cJSON :=
  let! e := eget (mem b) ev in
  let! cj := serialize_headers fuel (mem b) (headers e) cJSON_CreateObject in
  let! str_evtid := write_buffer 25 (print_int (event_id e)) in
  let cj := cJSON_AddItemToObject cj (bytes_of "_id") (Some (cJSON_CreateString (Some str_evtid))) in
  if negb (in_array (event_id e)) then Fault OutOfBounds
  else
    let cj :=
      match event_templates b !! event_id e with
      | Some t => cJSON_AddItemToObject cj (bytes_of "_name") (Some (cJSON_CreateString (Some t)))
      | None => cj
      end in
    match body e with
    | Some bd =>
        let blen := sext 32 (Z.of_nat (length bd)) in
        let! tmp := write_buffer 25 (print_int blen) in
        let cj := cJSON_AddItemToObject cj (bytes_of "_length") (Some (cJSON_CreateString (Some tmp))) in
        Ok (cJSON_AddItemToObject cj (bytes_of "_body") (Some (cJSON_CreateString (Some bd))))
    | None => Ok cj
    end.

Definition agc_event_serialize_json `{FloatOps} (fuel : nat) (b : bus) (ev : Z)
    : result (option cstr * agc_status) :=
  let! cj := agc_event_serialize_json_obj fuel b ev in
  let! str := cJSON_PrintUnformatted cj in
  Ok (str, AGC_STATUS_SUCCESS).

(** The loop over the children in [agc_event_create_json]: [false] when an
    invalid id was met and the event destroyed. *)
Fixpoint create_members (fuel : nat) (s : store) (new_event : Z) (l : list cJSON) : result (store * bool) :=
  match l with
  | [] => Ok (s, true)
  | cjp :: l' =>
      match string cjp, valuestring cjp with
      | Some nm, Some value =>
          if same_nocase nm (bytes_of "_body") then
            let! (s, _) := agc_event_set_body s new_event (Some value) in
            create_members fuel s new_event l'
          else if same_nocase nm (bytes_of "_id") then
            let id := atoi value in
            if EVENT_ID_IS_INVALID id then
              let! (s, _) := agc_event_destroy fuel s new_event in Ok (s, false)
            else
              let! s := agc_event_set_id s new_event id in
              create_members fuel s new_event l'
          else
            let! (s, _) := agc_event_add_header_string fuel s new_event nm (Some value) in
            create_members fuel s new_event l'
      | _, _ => create_members fuel s new_event l'
      end
  end.

Definition agc_event_create_json `{FloatOps} (fuel : nat) (s : store) (json : cstr)
    : result (store * option Z * agc_status) :=
  let! cj := cJSON_Parse json in
  match cj with
  | None => Ok (s, None, AGC_STATUS_FALSE)
  | Some cj =>
      let (s, new_event) := agc_event_create s 0 EVENT_NULL_SOURCEID in
      let! (s, ok) := create_members fuel s new_event (child cj) in
      if negb ok then Ok (s, None, AGC_STATUS_FALSE)
      else
        let! e := eget s new_event in
        if EVENT_ID_IS_INVALID (event_id e) then
          let! (s, _) := agc_event_destroy fuel s new_event in
          Ok (s, None, AGC_STATUS_FALSE)
        else Ok (s, Some new_event, AGC_STATUS_SUCCESS)
  end.

(** ** The object an event becomes *)

Import EvProof JsonProof JsonValue.

Definition members := list (cstr * cstr).

Definition header_members (L : list entry) : members := (fun x => (x.2.1, default [] x.2.2)) <$> L.

Definition name_members (b : bus) (id : Z) : members :=
  match event_templates b !! id with Some t => [(bytes_of "_name", t)] | None => [] end.
Definition length_members (bd : option cstr) : members :=
  match bd with Some t => [(bytes_of "_length", print_int (sext 32 (Z.of_nat (length t))))] | None => [] end.
Definition body_members (bd : option cstr) : members :=
  match bd with Some t => [(bytes_of "_body", t)] | None => [] end.

Definition event_members (b : bus) (L : list entry) (id : Z) (bd : option cstr) : members :=
  header_members L ++ [(bytes_of "_id", print_int id)] ++ name_members b id ++ length_members bd ++ body_members bd.

(** The member as a child, and the object. *)
Definition item_of (m : cstr * cstr) : cJSON := set_string (Some m.1) (string_item m.2).
Definition object_of (ms : members) : cJSON := set_child (item_of <$> ms) cJSON_CreateObject.

Lemma object_of_snoc ms n v :
  cJSON_AddItemToObject (object_of ms) n (Some (cJSON_CreateString (Some v))) = object_of (ms ++ [(n, v)]).
Proof. unfold object_of. by rewrite fmap_app. Qed.

Lemma serialize_headers_spec fuel s p L ms : hseg (hdrs s) p L NULL -> (length L < fuel)%nat ->
  serialize_headers fuel s p (object_of ms) = Ok (object_of (ms ++ header_members L)).
Proof.
  revert p L ms. induction fuel as [|fuel IH]; intros p L ms HL Hf; [lia|]. cbn [serialize_headers].
  destruct L as [|[a [n v]] L].
  - simpl in HL. subst p. change (NULL =? NULL) with true. cbv iota. by rewrite app_nil_r.
  - destruct HL as (-> & Ha & nx & Hm & HL). rewrite (proj2 (Z.eqb_neq _ _) Ha).
    erewrite hget_bind by exact Hm. cbn [name value next].
    replace (cJSON_CreateString v) with (cJSON_CreateString (Some (default [] v))) by (by destruct v).
    rewrite object_of_snoc, (IH nx L) by (done || (simpl in Hf; lia)).
    by rewrite <- app_assoc.
Qed.

Lemma sext32_int z : int32 (sext 32 z).
Proof.
  unfold int32, sext, wrap. pose proof (Z.mod_pos_bound z (2 ^ 32) ltac:(lia)).
  destruct (_ <? _) eqn:E; lia.
Qed.

Lemma print_int_25 z : int32 z -> write_buffer 25 (print_int z) = Ok (print_int z).
Proof. intros Hz. apply write_buffer_fits. pose proof (print_int_length z Hz). lia. Qed.

Lemma serialize_json_obj_spec fuel b ev e L :
  evts (mem b) !! ev = Some e -> has_headers (mem b) ev L -> in_array (event_id e) = true ->
  (length L < fuel)%nat ->
  agc_event_serialize_json_obj fuel b ev = Ok (object_of (event_members b L (event_id e) (body e))).
Proof.
  intros He [(e' & He' & HL & _) _] Hid Hf. rewrite He in He'. injection He' as <-.
  unfold agc_event_serialize_json_obj. erewrite eget_bind by exact He.
  change cJSON_CreateObject with (object_of []).
  rewrite (serialize_headers_spec fuel _ _ L []) by done. cbn [rbind app].
  rewrite print_int_25.
  2:{ unfold in_array, EVENT_ID_LIMIT in Hid. rewrite andb_true_iff, Z.leb_le, Z.ltb_lt in Hid. unfold int32. lia. }
  cbn [rbind]. rewrite Hid. cbn [negb]. rewrite object_of_snoc. unfold event_members, name_members.
  destruct (event_templates b !! event_id e); rewrite ?object_of_snoc;
    (destruct (body e); cbn [length_members body_members]; [|by rewrite ?app_nil_r, <- ?app_assoc]);
    rewrite print_int_25 by apply sext32_int; cbn [rbind]; rewrite !object_of_snoc, <- !app_assoc; done.
Qed.

(** ** Reading it back *)

Definition member_ok (m : cstr * cstr) : Prop := Forall is_byte m.1 /\ Forall is_byte m.2.

Lemma object_of_tree ms : object_of ms = tree_of (JObj ((fun m => (m.1, JStr m.2)) <$> ms)).
Proof. unfold object_of. cbn. f_equal. rewrite map_map. done. Qed.

Lemma valid_members ms : Forall member_ok ms -> valid (JObj ((fun m => (m.1, JStr m.2)) <$> ms)).
Proof. intros Hm. apply valid_obj, Forall_fmap. eapply Forall_impl; [done|]. by intros [? ?]. Qed.

Definition reserved : list cstr := [bytes_of "_body"; bytes_of "_id"; bytes_of "_name"; bytes_of "_length"].
Definition ordinary (n : cstr) : Prop := Forall (fun r => same_nocase n r = false) reserved.

(** The event being built at [ev], which was allocated after the store [s0]. *)
Record building (s0 s : store) (ev : Z) (K : list entry) (id : Z) (bd : option cstr) : Prop := Building {
  bu_ok : store_ok s;
  bu_headers : has_headers s ev K;
  bu_event : exists e, evts s !! ev = Some e /\ event_id e = id /\ body e = bd /\ source_id e = EVENT_NULL_SOURCEID;
  bu_new : brk s0 <= ev /\ brk s0 <= brk s /\ Forall (fun a => brk s0 <= a) (addrs K);
  bu_frame : forall k, k < brk s0 -> hdrs s !! k = hdrs s0 !! k /\ evts s !! k = evts s0 !! k;
  bu_cells : forall k, k ∉ addrs K -> hdrs s !! k = hdrs s0 !! k }.

Lemma building_update s0 s ev K id bd f e :
  building s0 s ev K id bd -> evts s !! ev = Some e ->
  headers (f e) = headers e -> last_header (f e) = last_header e -> source_id (f e) = source_id e ->
  building s0 (with_evts (<[ev := f e]> (evts s)) s) ev K (event_id (f e)) (body (f e)).
Proof.
  intros [Hok [(e' & He' & HL & Hla) Hnd] (e2 & He2 & _ & _ & Hs) (Hev & Hb & HK) Hfr Hce] He H1 H2 H3.
  rewrite He in He', He2. injection He' as <-. injection He2 as <-.
  split; [split| | | | |]; cbn.
  - apply (so_hdrs s Hok).
  - intros a Ha. apply (so_evts s Hok). destruct (decide (a = ev)) as [->|]; [by eexists|].
    by rewrite lookup_insert_ne in Ha.
  - apply (so_brk s Hok).
  - split; [|done]. exists (f e). cbn. rewrite lookup_insert_eq, H1, H2. done.
  - exists (f e). rewrite lookup_insert_eq. split_and!; [done..|congruence].
  - done.
  - intros k Hk. rewrite lookup_insert_ne by lia. auto.
  - done.
Qed.

Lemma create_id s0 s ev K id bd id' l fuel : building s0 s ev K id bd -> 0 < brk s0 ->
  0 < id' < EVENT_ID_LIMIT ->
  exists s', create_members fuel s ev (item_of (bytes_of "_id", print_int id') :: l) = create_members fuel s' ev l /\
    building s0 s' ev K id' bd.
Proof.
  intros HB Hb Hid. unfold EVENT_ID_LIMIT in Hid. destruct (bu_event _ _ _ _ _ _ HB) as (e & He & <- & <- & _).
  cbn -[bytes_of print_int atoi EVENT_ID_IS_INVALID]. change (same_nocase (bytes_of "_id") (bytes_of "_body")) with false.
  rewrite same_nocase_refl, atoi_print_int by lia. cbv iota zeta.
  assert (EVENT_ID_IS_INVALID id' = false) as ->.
  { unfold EVENT_ID_IS_INVALID, EVENT_ID_ALL, EVENT_ID_LIMIT. rewrite orb_false_iff, Z.eqb_neq, Z.leb_gt. lia. }
  unfold agc_event_set_id. destruct (bu_new _ _ _ _ _ _ HB). rewrite (proj2 (Z.eqb_neq ev NULL)) by (unfold NULL; lia).
  erewrite eput_ok by exact He. cbn [rbind]. eexists. split; [done|].
  by apply (building_update _ _ _ _ _ _ (set_event_id id') e HB).
Qed.

Lemma create_body s0 s ev K id bd t l fuel : building s0 s ev K id bd ->
  exists s', create_members fuel s ev (item_of (bytes_of "_body", t) :: l) = create_members fuel s' ev l /\
    building s0 s' ev K id (Some t).
Proof.
  intros HB. destruct (bu_event _ _ _ _ _ _ HB) as (e & He & <- & <- & _).
  cbn -[bytes_of]. rewrite same_nocase_refl. erewrite eput_ok by exact He. cbn [rbind]. eexists. split; [done|].
  by apply (building_update _ _ _ _ _ _ (set_body (Some t)) e HB).
Qed.

(** A header under a new name goes to the end. *)
Lemma building_add s0 s ev K id bd n v fuel : building s0 s ev K id bd ->
  lookup_header K n = None -> (length K < fuel)%nat ->
  exists s', agc_event_add_header_string fuel s ev n (Some v) = Ok (s', AGC_STATUS_SUCCESS) /\
    building s0 s' ev (K ++ [(brk s, (n, Some v))]) id bd.
Proof.
  intros [Hok HH (e & He & Hid & Hbd & Hsrc) (Hev & Hb & HK) Hfr Hce] Hl Hf. unfold agc_event_add_header_string.
  rewrite (add_header_fresh s ev K n v) by done.
  destruct (add_nocheck_spec s ev K n v Hok HH) as (s' & -> & Hok' & HH' & [Ah Ae Aev] & Hbrk). cbn [rbind].
  exists s'. split; [done|]. destruct (Aev e He) as (e' & He' & ? & ? & ?). split; try done.
  - exists e'. split_and!; congruence.
  - rewrite fmap_app, Forall_app. split_and!; [done|lia|done|]. repeat constructor. cbn. lia.
  - intros k Hk. rewrite Ah, Ae by (lia || (intros Hin; rewrite Forall_forall in HK; apply HK in Hin; lia)). auto.
  - intros k Hk. rewrite fmap_app, not_elem_of_app in Hk. destruct Hk as [Hk Hne]. cbn in Hne.
    rewrite <- Hce by done. destruct (decide (k < brk s)); [by apply Ah|].
    assert (k <> brk s) by set_solver.
    assert (hdrs s' !! k = None) as -> by (apply eq_None_not_Some; intros ?%(so_hdrs _ Hok'); lia).
    symmetry. apply eq_None_not_Some. intros ?%(so_hdrs _ Hok). lia.
Qed.

Lemma create_header s0 s ev K id bd n v l fuel : building s0 s ev K id bd ->
  same_nocase n (bytes_of "_body") = false -> same_nocase n (bytes_of "_id") = false ->
  lookup_header K n = None -> (length K < fuel)%nat ->
  exists s', create_members fuel s ev (item_of (n, v) :: l) = create_members fuel s' ev l /\
    building s0 s' ev (K ++ [(brk s, (n, Some v))]) id bd.
Proof.
  intros HB Hn1 Hn2 Hl Hf. cbn -[bytes_of agc_event_add_header_string]. rewrite Hn1, Hn2.
  destruct (building_add s0 s ev K id bd n v fuel HB Hl Hf) as (s' & -> & HB'). by exists s'.
Qed.

(** A run of ordinary members becomes headers, in order. *)
Lemma create_headers s0 ev id bd fuel l ms : forall s K,
  building s0 s ev K id bd ->
  Forall (fun m => same_nocase m.1 (bytes_of "_body") = false /\ same_nocase m.1 (bytes_of "_id") = false) ms ->
  (forall M1 m M2, ms = M1 ++ m :: M2 ->
     Forall (fun m' => same_nocase m'.1 m.1 = false) M1 /\ lookup_header K m.1 = None) ->
  (length K + length ms <= fuel)%nat ->
  exists s' K', create_members fuel s ev ((item_of <$> ms) ++ l) = create_members fuel s' ev l /\
    building s0 s' ev K' id bd /\ K'.*2 = K.*2 ++ ((fun m => (m.1, Some m.2)) <$> ms).
Proof.
  induction ms as [|[n v] ms IH]; intros s K HB Hord Hdis Hf.
  { exists s, K. split_and!; [done|done|by rewrite app_nil_r]. }
  apply Forall_cons in Hord as [[H1 H2] Hord]. cbn [fst snd] in *. cbn [fmap list_fmap app].
  destruct (Hdis [] (n, v) ms eq_refl) as [_ Hn].
  destruct (create_header s0 s ev K id bd n v ((item_of <$> ms) ++ l) fuel HB H1 H2 Hn ltac:(cbn [length] in Hf; lia))
    as (s1 & -> & HB1).
  destruct (IH s1 _ HB1 Hord) as (s' & K' & -> & HB' & HK').
  - intros M1 m M2 ->. destruct (Hdis ((n, v) :: M1) m M2 eq_refl) as [HM1 HKm].
    apply Forall_cons in HM1 as [Hnm HM1]. split; [done|].
    rewrite lookup_header_none in *. apply Forall_app. split; [done|]. by repeat constructor.
  - rewrite length_app. cbn [length] in *. lia.
  - exists s', K'. split_and!; [done|done|]. rewrite HK', fmap_app, <- app_assoc. done.
Qed.

Lemma building_start s id : store_ok s ->
  building s (fst (agc_event_create s id EVENT_NULL_SOURCEID)) (brk s) [] id None.
Proof.
  intros Hok. pose proof (so_brk s Hok). cbn. split; [split| | | | |]; cbn.
  - intros a Ha. apply (so_hdrs s Hok) in Ha. lia.
  - intros a Ha. destruct (decide (a = brk s)) as [->|]; [lia|]. rewrite lookup_insert_ne in Ha by done.
    apply (so_evts s Hok) in Ha. lia.
  - lia.
  - split; [|apply NoDup_nil_2]. eexists. cbn. rewrite lookup_insert_eq. done.
  - eexists. rewrite lookup_insert_eq. done.
  - split_and!; [lia|lia|constructor].
  - intros k Hk. by rewrite lookup_insert_ne by lia.
  - done.
Qed.

(** Headers of an event that existed before are still its headers. *)
Lemma building_keeps s0 s ev K id bd ev0 L : building s0 s ev K id bd -> store_ok s0 ->
  has_headers s0 ev0 L -> has_headers s ev0 L.
Proof.
  intros HB Hok [(e & He & HL & Hla) Hnd]. split; [|done]. exists e.
  destruct (bu_frame _ _ _ _ _ _ HB ev0) as [_ ->]; [apply (so_evts _ Hok); by eexists|].
  split_and!; [done| |done]. eapply hseg_ext; [|done]. intros a Ha. apply (bu_frame _ _ _ _ _ _ HB).
  apply (so_hdrs _ Hok). by eapply hseg_lookup.
Qed.

(** What the reader makes of the members an event was written as. *)
Definition read_back (b : bus) (L : list entry) (id : Z) (bd : option cstr) : list (cstr * option cstr) :=
  (fun m => (m.1, Some m.2)) <$> header_members L ++ name_members b id ++ length_members bd.

Lemma extra_members b id bd :
  Forall (fun m => same_nocase m.1 (bytes_of "_body") = false /\ same_nocase m.1 (bytes_of "_id") = false)
    (name_members b id ++ length_members bd).
Proof.
  apply Forall_app. unfold name_members, length_members. split; case_match; repeat constructor.
Qed.

Lemma lookup_header_names (K : list entry) (ms : members) n :
  K.*2 = ((fun m => (m.1, Some m.2)) <$> ms) -> Forall (fun m => same_nocase m.1 n = false) ms ->
  lookup_header K n = None.
Proof.
  intros HK Hms. apply lookup_header_none.
  assert (Forall (fun p : cstr * option cstr => same_nocase p.1 n = false) K.*2) as H
    by (rewrite HK; by apply Forall_fmap).
  by apply Forall_fmap in H.
Qed.

Lemma create_members_event fuel s b L id bd :
  store_ok s -> 0 < id < EVENT_ID_LIMIT -> distinct_names L -> Forall (fun x => ordinary x.2.1) L ->
  (length L + 2 <= fuel)%nat ->
  exists s' K, create_members fuel (fst (agc_event_create s 0 EVENT_NULL_SOURCEID)) (brk s)
      (item_of <$> event_members b L id bd) = Ok (s', true) /\
    building s s' (brk s) K id bd /\ K.*2 = read_back b L id bd.
Proof.
  intros Hok Hid Hdn Hord Hf. pose proof (so_brk s Hok) as Hbrk. unfold event_members.
  assert (Forall (fun m : cstr * cstr => ordinary m.1) (header_members L)) as Hord' by (by apply Forall_fmap).
  rewrite fmap_app.
  destruct (create_headers s (brk s) 0 None fuel
    (item_of <$> [(bytes_of "_id", print_int id)] ++ name_members b id ++ length_members bd ++ body_members bd)
    (header_members L) _ [] (building_start s 0 Hok)) as (s1 & K1 & -> & HB1 & HK1).
  { eapply Forall_impl; [exact Hord'|]. intros m Hm. unfold ordinary, reserved in Hm. by inversion_clear Hm as [|?? Ha Hb]; inversion_clear Hb. }
  { intros M1 m M2 HM. split; [|done]. unfold header_members in HM.
    apply fmap_app_inv in HM as (L1 & L2 & -> & HL2 & HLL). symmetry in HL2.
    apply fmap_cons_inv in HL2 as (x & L3 & -> & -> & ->).
    specialize (Hdn L1 x L3 HLL). apply Forall_fmap. exact Hdn. }
  { unfold header_members. rewrite length_fmap. cbn. lia. }
  cbn [app fmap list_fmap].
  destruct (create_id s s1 (brk s) K1 0 None id (item_of <$> name_members b id ++ length_members bd ++ body_members bd)
    fuel HB1 Hbrk Hid) as (s2 & -> & HB2).
  rewrite (app_assoc (name_members _ _)), fmap_app. cbn [app fmap list_fmap] in HK1.
  destruct (create_headers s (brk s) id None fuel (item_of <$> body_members bd)
    (name_members b id ++ length_members bd) s2 K1 HB2 (extra_members b id bd)) as (s3 & K3 & -> & HB3 & HK3).
  { intros M1 m M2 HM. split.
    - unfold name_members, length_members in HM. revert HM.
      repeat case_match; intros HM; destruct M1 as [|? [|? [|? ?]]]; simplify_eq/=; repeat constructor.
    - eapply lookup_header_names; [exact HK1|]. eapply Forall_impl; [exact Hord'|].
      assert (m ∈ name_members b id ++ length_members bd) as Hin by (rewrite HM; set_solver).
      intros m' Hm'. unfold ordinary, reserved in Hm'. rewrite !Forall_cons in Hm'. destruct Hm' as (_ & _ & Hn & Hl & _).
      unfold name_members, length_members in Hin. revert Hin.
      repeat case_match; rewrite ?elem_of_app, ?list_elem_of_singleton, ?elem_of_nil; naive_solver. }
  { assert (length K1 = length L) as ->.
    { apply (f_equal length) in HK1. unfold header_members in HK1. by rewrite !length_fmap in HK1. }
    rewrite length_app. unfold name_members, length_members. repeat case_match; cbn; lia. }
  assert (K3.*2 = read_back b L id bd) as HR by (rewrite HK3, HK1; unfold read_back; by rewrite !fmap_app).
  destruct bd as [t|]; cbn [body_members fmap list_fmap].
  - destruct (create_body s s3 (brk s) K3 id None t [] fuel HB3) as (s4 & -> & HB4).
    exists s4, K3. by split_and!.
  - exists s3, K3. by split_and!.
Qed.

End EvJson.

Import Ev EvProof Bus Json JsonProof JsonValue EvJson.

(** C33: An event whose header names are all different and none of ["_id"],
    ["_name"], ["_body"] and ["_length"], written by
    [agc_event_serialize_json], is read back by [agc_event_create_json]: the new
    event has the same id and the same body, and the same headers in the same
    order followed by two new ones, the name of its type (if it has one) and the
    length of its body (if it has one); the first event is not touched.  The
    event read back has reserved names, so that writing it again is not covered. *)
Theorem agc_event_json_roundtrip `{FloatLaws} fuel b ev e L :
  store_ok (mem b) -> evts (mem b) !! ev = Some e -> has_headers (mem b) ev L ->
  0 < event_id e < EVENT_ID_LIMIT -> distinct_names L ->
  Forall (fun x => ordinary x.2.1) L -> Forall member_ok (event_members b L (event_id e) (body e)) ->
  (length L + 2 <= fuel)%nat ->
  exists text s' ev' K e', agc_event_serialize_json fuel b ev = Ok (Some text, AGC_STATUS_SUCCESS) /\
    agc_event_create_json fuel (mem b) text = Ok (s', Some ev', AGC_STATUS_SUCCESS) /\
    evts s' !! ev' = Some e' /\ event_id e' = event_id e /\ body e' = body e /\
    has_headers s' ev' K /\ K.*2 = read_back b L (event_id e) (body e) /\ has_headers s' ev L.
Proof.
  intros Hok He HL Hid Hdn Hord Hm Hf. unfold EVENT_ID_LIMIT in Hid.
  assert (in_array (event_id e) = true) as Hia
    by (unfold in_array, EVENT_ID_LIMIT; rewrite andb_true_iff, Z.leb_le, Z.ltb_lt; lia).
  pose proof (valid_members _ Hm) as Hv. set (v := JObj _) in Hv.
  destruct (create_members_event fuel (mem b) b L (event_id e) (body e)) as (s' & K & Hc & HB & HK); [done..|].
  destruct (bu_event _ _ _ _ _ _ HB) as (e' & He' & Hid' & Hbd' & _).
  exists (render false 0 v), s', (brk (mem b)), K, e'.
  split_and!; try done; [| |by apply HB|by eapply building_keeps].
  - unfold agc_event_serialize_json. erewrite serialize_json_obj_spec by (done || lia). cbn [rbind].
    rewrite object_of_tree. unfold cJSON_PrintUnformatted.
    by rewrite (print_value_render false v) by (done || by apply represents_tree_of).
  - unfold agc_event_create_json. rewrite parse_render by done. unfold v. rewrite <- object_of_tree. cbn [rbind].
    rewrite surjective_pairing at 1. cbn [agc_event_create fst snd] in *.
    change (child (object_of ?ms)) with (item_of <$> ms). rewrite Hc. cbn [rbind negb].
    erewrite eget_bind by exact He'. rewrite Hid'.
    assert (EVENT_ID_IS_INVALID (event_id e) = false) as ->; [|done].
    unfold EVENT_ID_IS_INVALID, EVENT_ID_ALL, EVENT_ID_LIMIT. rewrite orb_false_iff, Z.eqb_neq, Z.leb_gt. lia.
Qed.

Definition demo_bus : bus := agc_event_init 4 demo_store.

Lemma agc_event_json_roundtrip_witness :
  exists text s' ev' K e', @agc_event_serialize_json exact_floats 9 demo_bus 1 = Ok (Some text, AGC_STATUS_SUCCESS) /\
    @agc_event_create_json exact_floats 9 demo_store text = Ok (s', Some ev', AGC_STATUS_SUCCESS) /\
    evts s' !! ev' = Some e' /\ event_id e' = 7 /\ body e' = Some [120; 121] /\
    has_headers s' ev' K /\ K.*2 = read_back demo_bus demo_entries 7 (Some [120; 121]) /\ has_headers s' 1 demo_entries.
Proof.
  apply (@agc_event_json_roundtrip exact_floats exact_floats_laws 9 demo_bus 1 demo_event demo_entries).
  - exact demo_store_ok.
  - reflexivity.
  - exact demo_has_headers.
  - vm_compute. split; reflexivity.
  - intros L1 x L2 HL. unfold demo_entries in HL.
    destruct L1 as [|? [|? [|? ?]]]; inversion HL; subst; repeat constructor.
  - repeat constructor.
  - repeat constructor; vm_compute; discriminate.
  - cbn. lia.
Defined.

(** [agc_event_create_json] accepts an event whose ["_id"] is negative,
    because [EVENT_ID_IS_INVALID] only rejects zero and ids from
    [EVENT_ID_LIMIT] on; writing the event as JSON, or delivering it, then
    indexes the tables of event types below their start. *)
Theorem agc_event_create_json_negative_id `{FloatLaws} fuel b id :
  store_ok (mem b) -> - 2 ^ 31 <= id < 0 -> SYSTEM_RUNNING b = true ->
  exists s' ev, agc_event_create_json (S fuel) (mem b)
      (render false 0 (JObj [(bytes_of "_id", JStr (print_int id))])) = Ok (s', Some ev, AGC_STATUS_SUCCESS) /\
    agc_event_serialize_json_obj (S fuel) (with_mem s' b) ev = Fault OutOfBounds /\
    agc_event_deliver (S fuel) (with_mem s' b) ev = Fault OutOfBounds.
Proof.
  intros Hok Hid Hrun. pose proof (so_brk _ Hok) as Hbrk.
  assert (valid (JObj [(bytes_of "_id", JStr (print_int id))])) as Hv.
  { apply valid_obj. constructor; [|constructor]. split; [repeat constructor; vm_compute; discriminate|].
    cbn [valid snd]. unfold print_int. rewrite (proj2 (Z.ltb_lt _ _)) by lia. constructor; [done|].
    eapply Forall_impl; [apply print_uint_digits; lia|]. intros c Hc%is_digit_iff. unfold is_byte. lia. }
  assert (EVENT_ID_IS_INVALID id = false) as Hvalid.
  { unfold EVENT_ID_IS_INVALID, EVENT_ID_ALL, EVENT_ID_LIMIT. rewrite orb_false_iff, Z.eqb_neq, Z.leb_gt. lia. }
  assert (in_array id = false) as Hia by (unfold in_array; rewrite (proj2 (Z.leb_gt _ _)) by lia; done).
  eexists _, (brk (mem b)). unfold agc_event_create_json. rewrite parse_render by done.
  cbn -[bytes_of print_int atoi same_nocase EVENT_ID_IS_INVALID].
  change (same_nocase (bytes_of "_id") (bytes_of "_body")) with false.
  rewrite same_nocase_refl, atoi_print_int, Hvalid by lia. cbv iota. unfold agc_event_set_id.
  rewrite (proj2 (Z.eqb_neq _ NULL)) by (unfold NULL; lia).
  erewrite eput_ok by (cbn; apply lookup_insert_eq). cbn [rbind negb].
  erewrite eget_bind by (cbn; apply lookup_insert_eq). cbn [set_event_id event_id]. rewrite Hvalid.
  split; [reflexivity|].
  split; [unfold agc_event_serialize_json_obj|unfold agc_event_deliver];
    erewrite eget_bind by (cbn; apply lookup_insert_eq).
  - cbn -[print_int in_array write_buffer]. rewrite print_int_25 by (unfold int32; lia). cbn [rbind]. by rewrite Hia.
  - unfold deliver_calls. cbn -[in_array]. by rewrite Hrun, Hia.
Qed.

Lemma agc_event_create_json_negative_id_witness :
  exists s' ev, @agc_event_create_json exact_floats 1 (mem demo_bus)
      (render false 0 (JObj [(bytes_of "_id", JStr (bytes_of "-1"))])) = Ok (s', Some ev, AGC_STATUS_SUCCESS) /\
    agc_event_serialize_json_obj 1 (with_mem s' demo_bus) ev = Fault OutOfBounds /\
    agc_event_deliver 1 (with_mem s' demo_bus) ev = Fault OutOfBounds.
Proof.
  apply (@agc_event_create_json_negative_id exact_floats exact_floats_laws 0 demo_bus (-1)).
  - exact demo_store_ok.
  - lia.
  - reflexivity.
Defined.
