(* ===== verification/Swar.v ===== *)
(** * Case folding, eight bytes at a time

    [agc_toupper], [agc_tolower], their 64-bit versions and the loops
    [agc_toupper_max] and [agc_tolower_max] of [src/src/include/agc_utils.h].
    The word tricks are proved equal to folding every byte. *)

From stdpp Require Import base list strings.
From Stdlib Require Import ZArith Lia.
From S2P Require Import Prelude CString.

Module Swar.

(** [uint32_t] arithmetic; [~eax] is the complement in 32 bits. *)
Definition agc_toupper (eax : Z) : Z :=
  let ebx := wrap 32 (Z.land 0x7f7f7f7f eax + 0x05050505) in
  let ebx := wrap 32 (Z.land 0x7f7f7f7f ebx + 0x1a1a1a1a) in
  let ebx := Z.land (Z.shiftr (Z.land ebx (wrap 32 (Z.lnot eax))) 2) 0x20202020 in
  wrap 32 (eax - ebx).

Definition agc_tolower (eax : Z) : Z :=
  let ebx := wrap 32 (Z.land 0x7f7f7f7f eax + 0x25252525) in
  let ebx := wrap 32 (Z.land 0x7f7f7f7f ebx + 0x1a1a1a1a) in
  let ebx := Z.land (Z.shiftr (Z.land ebx (wrap 32 (Z.lnot eax))) 2) 0x20202020 in
  wrap 32 (eax + ebx).

Definition agc_toupper64 (eax : Z) : Z :=
  let ebx := wrap 64 (Z.land 0x7f7f7f7f7f7f7f7f eax + 0x0505050505050505) in
  let ebx := wrap 64 (Z.land 0x7f7f7f7f7f7f7f7f ebx + 0x1a1a1a1a1a1a1a1a) in
  let ebx := Z.land (Z.shiftr (Z.land ebx (wrap 64 (Z.lnot eax))) 2) 0x2020202020202020 in
  wrap 64 (eax - ebx).

Definition agc_tolower64 (eax : Z) : Z :=
  let ebx := wrap 64 (Z.land 0x7f7f7f7f7f7f7f7f eax + 0x2525252525252525) in
  let ebx := wrap 64 (Z.land 0x7f7f7f7f7f7f7f7f ebx + 0x1a1a1a1a1a1a1a1a) in
  let ebx := Z.land (Z.shiftr (Z.land ebx (wrap 64 (Z.lnot eax))) 2) 0x2020202020202020 in
  wrap 64 (eax + ebx).

(** A little-endian word of bytes. *)
Fixpoint pack (bs : list Z) : Z :=
  match bs with [] => 0 | b :: bs' => b + 256 * pack bs' end.
Fixpoint unpack (n : nat) (w : Z) : list Z :=
  match n with O => [] | S n' => w mod 256 :: unpack n' (w / 256) end.

(** [*c = (char) f( *c)]: the [char] is sign extended to a [uint32_t] and the
    result cut to its low byte. *)
Definition fold_char (f : Z -> Z) (c : Z) : Z := wrap 8 (f (wrap 32 (sext 8 c))).

(** The two loops of the [..._max] functions over a string of [l] bytes:
    words of [k] bytes while more than [k] are left, then single bytes. *)
Fixpoint fold_max (fuel k : nat) (word byte : Z -> Z) (s : cstr) : cstr :=
  match fuel with
  | O => []
  | S fuel' =>
      if (k <? length s)%nat
      then unpack k (word (pack (take k s))) ++ fold_max fuel' k word byte (drop k s)
      else fold_char byte <$> s
  end.

(** With [AGC_64BIT], and without. *)
Definition agc_toupper_max_64 (s : cstr) : cstr := fold_max (S (length s)) 8 agc_toupper64 agc_toupper s.
Definition agc_tolower_max_64 (s : cstr) : cstr := fold_max (S (length s)) 8 agc_tolower64 agc_tolower s.
Definition agc_toupper_max_32 (s : cstr) : cstr := fold_max (S (length s)) 4 agc_toupper agc_toupper s.
Definition agc_tolower_max_32 (s : cstr) : cstr := fold_max (S (length s)) 4 agc_tolower agc_tolower s.

(** ** Words as lanes of bytes *)

Definition byte (b : Z) : Prop := 0 <= b < 256.

Lemma pack_bound bs : Forall byte bs -> 0 <= pack bs < 256 ^ Z.of_nat (length bs).
Proof.
  unfold byte. induction 1 as [|b bs Hb Hbs IH]; [simpl; lia|]. cbn [pack length].
  rewrite Nat2Z.inj_succ, Z.pow_succ_r by lia. lia.
Qed.

Lemma unpack_pack bs : Forall byte bs -> unpack (length bs) (pack bs) = bs.
Proof.
  unfold byte. induction 1 as [|b bs Hb Hbs IH]; [done|]. cbn [pack length unpack].
  f_equal; [Z.to_euclidean_division_equations; lia|].
  replace ((b + 256 * pack bs) / 256) with (pack bs) by (Z.to_euclidean_division_equations; lia). done.
Qed.

Lemma testbit_lane b p n : byte b -> 0 <= n ->
  Z.testbit (b + 256 * p) n = if n <? 8 then Z.testbit b n else Z.testbit p (n - 8).
Proof.
  unfold byte. intros Hb Hn. destruct (n <? 8) eqn:E.
  - replace (b + 256 * p) with (b + p * 2 ^ 8) by lia.
    rewrite <- (Z.mod_pow2_bits_low (b + p * 2 ^ 8) 8) by lia. rewrite Z_mod_plus_full.
    rewrite Z.mod_small by lia. done.
  - replace n with ((n - 8) + 8) at 1 by lia. rewrite <- Z.div_pow2_bits by lia.
    f_equal. change (2 ^ 8) with 256. Z.to_euclidean_division_equations; lia.
Qed.

Lemma byte_land a b : byte a -> byte (Z.land a b).
Proof.
  unfold byte. intros Ha. replace a with (Z.land a (Z.ones 8)) by (rewrite Z.land_ones, Z.mod_small by lia; done).
  rewrite <- Z.land_assoc, (Z.land_comm (Z.ones 8)), Z.land_assoc, Z.land_ones by lia.
  apply Z.mod_pos_bound. lia.
Qed.
#[local] Hint Resolve byte_land : core.

Lemma land_pack xs ys : Forall byte xs -> Forall byte ys -> length xs = length ys ->
  Z.land (pack xs) (pack ys) = pack (zip_with Z.land xs ys).
Proof.
  intros Hx. revert ys. induction Hx as [|x xs Hx Hxs IH]; intros [|y ys] Hy Hl; try done.
  inversion Hy; subst. cbn [pack zip_with]. rewrite <- IH by (done || (simpl in Hl; lia)).
  apply Z.bits_inj'. intros n Hn. rewrite Z.land_spec, !testbit_lane by auto.
  destruct (n <? 8); by rewrite Z.land_spec.
Qed.

Lemma add_pack xs ys : length xs = length ys -> pack xs + pack ys = pack (zip_with Z.add xs ys).
Proof.
  revert ys. induction xs as [|x xs IH]; intros [|y ys] Hl; try done. cbn [pack zip_with].
  rewrite <- IH by (simpl in Hl; lia). lia.
Qed.
Lemma sub_pack xs ys : length xs = length ys -> pack xs - pack ys = pack (zip_with Z.sub xs ys).
Proof.
  revert ys. induction xs as [|x xs IH]; intros [|y ys] Hl; try done. cbn [pack zip_with].
  rewrite <- IH by (simpl in Hl; lia). lia.
Qed.

(** Bit 7 of every lane, moved to bit 5. *)
Lemma shift_pack xs : Forall byte xs ->
  Z.land (Z.shiftr (pack xs) 2) (pack (replicate (length xs) 32)) =
    pack ((fun x => Z.land (Z.shiftr x 2) 32) <$> xs).
Proof.
  induction 1 as [|x xs Hx Hxs IH]; [done|]. rewrite fmap_cons. cbn [pack length replicate].
  rewrite <- IH. apply Z.bits_inj'. intros n Hn.
  assert (byte 32) by (unfold byte; lia).
  assert (byte (Z.land (Z.shiftr x 2) 32)) by (rewrite Z.land_comm; auto).
  rewrite Z.land_spec, !testbit_lane, Z.shiftr_spec, testbit_lane by (auto || lia).
  destruct (n <? 8) eqn:E.
  - rewrite Z.land_spec, Z.shiftr_spec by lia.
    change 32 with (2 ^ 5). rewrite Z.pow2_bits_eqb by lia.
    destruct (Z.eqb_spec 5 n) as [<-|]; [done|by rewrite !andb_false_r].
  - rewrite Z.land_spec, Z.shiftr_spec by lia. destruct (n + 2 <? 8) eqn:E2; [lia|].
    by replace (n + 2 - 8) with (n - 8 + 2) by lia.
Qed.

(** The complement, lane by lane. *)
Lemma lnot_pack xs : Forall byte xs ->
  wrap (8 * Z.of_nat (length xs)) (Z.lnot (pack xs)) = pack ((fun x => 255 - x) <$> xs).
Proof.
  intros Hx. pose proof (pack_bound xs Hx) as Hb.
  assert (pack ((fun x => 255 - x) <$> xs) = 256 ^ Z.of_nat (length xs) - 1 - pack xs) as ->.
  { clear Hb. induction Hx as [|x xs Hx Hxs IH]; [done|]. rewrite fmap_cons. cbn [pack length].
    rewrite IH, Nat2Z.inj_succ, Z.pow_succ_r by lia. lia. }
  unfold wrap. replace (2 ^ (8 * Z.of_nat (length xs))) with (256 ^ Z.of_nat (length xs))
    by (rewrite Z.pow_mul_r by lia; done).
  symmetry. apply (Z.mod_unique_pos _ _ (-1)); [lia|]. unfold Z.lnot. lia.
Qed.

(** What the trick computes for one byte: [0x20] for a letter, else zero. *)
Definition mask (k b : Z) : Z :=
  Z.land (Z.shiftr (Z.land (Z.land 127 (Z.land 127 b + k) + 26) (255 - b)) 2) 32.

Definition lanes (n : nat) (c : Z) : Z := pack (replicate n c).

Definition swar (n : nat) (k w : Z) : Z :=
  let bits := 8 * Z.of_nat n in
  let ebx := wrap bits (Z.land (lanes n 127) w + lanes n k) in
  let ebx := wrap bits (Z.land (lanes n 127) ebx + lanes n 26) in
  Z.land (Z.shiftr (Z.land ebx (wrap bits (Z.lnot w))) 2) (lanes n 32).

Lemma wrap_pack bs : Forall byte bs -> wrap (8 * Z.of_nat (length bs)) (pack bs) = pack bs.
Proof.
  intros Hb%pack_bound. unfold wrap. apply Z.mod_small.
  replace (2 ^ (8 * Z.of_nat (length bs))) with (256 ^ Z.of_nat (length bs)); [done|].
  by rewrite Z.pow_mul_r by lia.
Qed.

(** Masking and adding never carries into the next lane. *)
Lemma add_lanes bs k : Forall byte bs -> 0 <= k <= 128 ->
  wrap (8 * Z.of_nat (length bs)) (Z.land (lanes (length bs) 127) (pack bs) + lanes (length bs) k) =
    pack ((fun b => Z.land 127 b + k) <$> bs) /\ Forall byte ((fun b => Z.land 127 b + k) <$> bs).
Proof.
  intros Hb Hk. unfold lanes.
  rewrite land_pack, zip_with_replicate_l by (rewrite ?length_replicate; try done; by apply Forall_replicate).
  rewrite add_pack, zip_with_replicate_r by (by rewrite ?length_replicate, length_fmap).
  rewrite <- list_fmap_compose.
  assert (Forall byte (((fun x => x + k) ∘ Z.land 127) <$> bs)) as HF.
  { apply Forall_fmap, Forall_true. intros b. unfold byte. cbn.
    replace (Z.land 127 b) with (b mod 2 ^ 7) by (rewrite Z.land_comm; symmetry; apply (Z.land_ones b 7); lia).
    pose proof (Z.mod_pos_bound b (2 ^ 7) ltac:(lia)). lia. }
  split; [|done]. pose proof (wrap_pack _ HF) as Hw. by rewrite length_fmap in Hw.
Qed.

Lemma swar_lanes bs k : Forall byte bs -> 0 <= k <= 128 ->
  swar (length bs) k (pack bs) = pack (mask k <$> bs).
Proof.
  intros Hb Hk. unfold swar. destruct (add_lanes bs k Hb Hk) as [-> HF1].
  destruct (add_lanes _ 26 HF1 ltac:(lia)) as [Ha2 HF2]. rewrite length_fmap in Ha2. rewrite Ha2.
  rewrite lnot_pack by done. rewrite <- list_fmap_compose in *.
  assert (Forall byte ((fun x => 255 - x) <$> bs)) by (apply Forall_fmap; eapply Forall_impl; [done|]; unfold byte; cbn; lia).
  rewrite land_pack by (done || by rewrite !length_fmap).
  rewrite zip_with_fmap_l, zip_with_fmap_r, zip_with_diag. unfold lanes.
  pose proof (shift_pack ((fun b => Z.land (Z.land 127 (Z.land 127 b + k) + 26) (255 - b)) <$> bs)) as Hs.
  rewrite length_fmap, <- list_fmap_compose in Hs. apply Hs.
  rewrite Forall_fmap in *. eapply Forall_impl; [exact HF2|]. intros b Hbyte. cbn in *. auto.
Qed.

(** One byte: decided by trying the 256 values. *)
Lemma byte_cases (P : Z -> bool) b : byte b -> forallb P (Z.of_nat <$> seq 0 256) = true -> P b = true.
Proof.
  intros Hb HP. rewrite forallb_forall in HP. apply HP. apply list_elem_of_In, list_elem_of_fmap.
  exists (Z.to_nat b). unfold byte in Hb. split; [lia|]. apply elem_of_seq. lia.
Qed.

Lemma mask_upper b : byte b -> b - mask 5 b = toupper b /\ byte (toupper b).
Proof.
  intros Hb. pose proof (byte_cases (fun b => (b - mask 5 b =? toupper b) && (0 <=? toupper b) && (toupper b <? 256))
    b Hb ltac:(vm_compute; reflexivity)) as H. cbv beta in H.
  rewrite !andb_true_iff, Z.eqb_eq, Z.leb_le, Z.ltb_lt in H. unfold byte. tauto.
Qed.
Lemma mask_lower b : byte b -> b + mask 37 b = tolower b /\ byte (tolower b).
Proof.
  intros Hb. pose proof (byte_cases (fun b => (b + mask 37 b =? tolower b) && (0 <=? tolower b) && (tolower b <? 256))
    b Hb ltac:(vm_compute; reflexivity)) as H. cbv beta in H.
  rewrite !andb_true_iff, Z.eqb_eq, Z.leb_le, Z.ltb_lt in H. unfold byte. tauto.
Qed.

Lemma fmap_lanes (g h : Z -> Z) bs : Forall byte bs -> (forall b, byte b -> g b = h b) -> g <$> bs = h <$> bs.
Proof. intros Hb Hg. apply list_fmap_ext. intros i b Hi. apply Hg. by eapply Forall_lookup_1 in Hi. Qed.

(** The four word functions fold each of their bytes. *)
Lemma swar_upper n bs : Forall byte bs -> length bs = n ->
  wrap (8 * Z.of_nat n) (pack bs - swar n 5 (pack bs)) = pack (toupper <$> bs).
Proof.
  intros Hb <-. rewrite swar_lanes, sub_pack by (done || lia || by rewrite length_fmap).
  assert (zip_with Z.sub bs (mask 5 <$> bs) = toupper <$> bs) as ->.
  { rewrite zip_with_fmap_r, zip_with_diag. apply fmap_lanes; [done|]. intros b Hbb. by apply mask_upper. }
  rewrite <- (length_fmap toupper bs) at 1. apply wrap_pack, Forall_fmap.
  eapply Forall_impl; [done|]. intros b Hbb. by apply mask_upper.
Qed.
Lemma swar_lower n bs : Forall byte bs -> length bs = n ->
  wrap (8 * Z.of_nat n) (pack bs + swar n 37 (pack bs)) = pack (tolower <$> bs).
Proof.
  intros Hb <-. rewrite swar_lanes, add_pack by (done || lia || by rewrite length_fmap).
  assert (zip_with Z.add bs (mask 37 <$> bs) = tolower <$> bs) as ->.
  { rewrite zip_with_fmap_r, zip_with_diag. apply fmap_lanes; [done|]. intros b Hbb. by apply mask_lower. }
  rewrite <- (length_fmap tolower bs) at 1. apply wrap_pack, Forall_fmap.
  eapply Forall_impl; [done|]. intros b Hbb. by apply mask_lower.
Qed.

(** What a word function must do for the loop to fold the string. *)
Definition folds (n : nat) (word : Z -> Z) (f : Z -> Z) : Prop :=
  forall bs, Forall byte bs -> length bs = n -> word (pack bs) = pack (f <$> bs).

Lemma agc_toupper_folds : folds 4 agc_toupper toupper.
Proof. intros bs. apply (swar_upper 4). Qed.
Lemma agc_tolower_folds : folds 4 agc_tolower tolower.
Proof. intros bs. apply (swar_lower 4). Qed.
Lemma agc_toupper64_folds : folds 8 agc_toupper64 toupper.
Proof. intros bs. apply (swar_upper 8). Qed.
Lemma agc_tolower64_folds : folds 8 agc_tolower64 tolower.
Proof. intros bs. apply (swar_lower 8). Qed.

Lemma fold_char_upper b : byte b -> fold_char agc_toupper b = toupper b.
Proof. intros Hb. apply Z.eqb_eq. apply (byte_cases (fun b => fold_char agc_toupper b =? toupper b) b Hb). vm_compute. reflexivity. Qed.
Lemma fold_char_lower b : byte b -> fold_char agc_tolower b = tolower b.
Proof. intros Hb. apply Z.eqb_eq. apply (byte_cases (fun b => fold_char agc_tolower b =? tolower b) b Hb). vm_compute. reflexivity. Qed.

Lemma fold_max_folds (k : nat) word small f :
  (0 < k)%nat -> folds k word f -> (forall b, byte b -> byte (f b)) -> (forall b, byte b -> fold_char small b = f b) ->
  forall fuel s, Forall byte s -> (length s < fuel)%nat -> fold_max fuel k word small s = f <$> s.
Proof.
  intros Hk Hw Hf Hs fuel. induction fuel as [|fuel IH]; intros s Hb Hl; [lia|]. cbn [fold_max].
  destruct (k <? length s)%nat eqn:E.
  - apply Nat.ltb_lt in E.
    assert (length (take k s) = k) as Ht by (rewrite length_take; lia).
    rewrite (Hw (take k s)), IH by (done || (by apply Forall_take) || (by apply Forall_drop) || (rewrite length_drop; lia)).
    rewrite <- Ht at 1. rewrite <- (length_fmap f (take k s)), unpack_pack.
    + by rewrite <- fmap_app, take_drop.
    + apply Forall_fmap. eapply Forall_impl; [by apply Forall_take|]. auto.
  - by apply fmap_lanes.
Qed.

End Swar.

Import Swar.

(** C38: [agc_toupper_max] and [agc_tolower_max], in the build that folds
    eight bytes at a time and in the one that folds four, turn every string
    into the string of its bytes folded one by one, bytes above 127 left as
    they are. *)
Theorem agc_case_max_correct s :
  Forall byte s ->
  agc_toupper_max_64 s = toupper <$> s /\ agc_tolower_max_64 s = tolower <$> s /\
  agc_toupper_max_32 s = toupper <$> s /\ agc_tolower_max_32 s = tolower <$> s.
Proof.
  intros Hs.
  assert (forall b, byte b -> byte (toupper b)) by (intros; by apply mask_upper).
  assert (forall b, byte b -> byte (tolower b)) by (intros; by apply mask_lower).
  split_and!; apply fold_max_folds;
    eauto using agc_toupper_folds, agc_tolower_folds, agc_toupper64_folds, agc_tolower64_folds,
      fold_char_upper, fold_char_lower with lia.
Qed.

Lemma agc_case_max_correct_witness :
  Forall byte (bytes_of "Hello, World! 19") /\
  agc_toupper_max_64 (bytes_of "Hello, World! 19") = toupper <$> bytes_of "Hello, World! 19".
Proof.
  assert (Forall byte (bytes_of "Hello, World! 19")) as H by (repeat constructor; vm_compute; congruence).
  split; [exact H|]. exact (proj1 (agc_case_max_correct (bytes_of "Hello, World! 19") H)).
Defined.
