(* ===== verification/Utils.v ===== *)
(** * Strings

    [src/src/agc_utils.c] and [agc_true] of [src/src/include/agc_utils.h].
    The tokenizer of [agc_separate_string] works in place: [buf] is the text
    with its terminator, a pointer into it is an index, and reading beyond the
    terminator is a [Fault].  Cutting a token writes a terminator into [buf];
    a token is the C string at its start. *)

From stdpp Require Import base list strings.
From Stdlib Require Import ZArith Lia.
From S2P Require Import Prelude CString.

Module Utils.

Definition ESCAPE_META : Z := 92.
Definition SQUOTE : Z := 39.
Definition SPACE : Z := 32.

(** The text behind the last [c], if there is one. *)
Fixpoint after_last (c : Z) (s : cstr) : option cstr :=
  match s with
  | [] => None
  | d :: s' =>
      match after_last c s' with
      | Some r => Some r
      | None => if d =? c then Some s' else None
      end
  end.

Definition agc_cut_path (s : option cstr) : option cstr :=
  match s with
  | None => None
  | Some s =>
      let ret := default s (after_last 47 s) in
      Some (default ret (after_last 92 s))
  end.

(** [agc_is_number] *)
Definition agc_is_number (str : cstr) : bool :=
  let str := match str with c :: r => if (c =? 45) || (c =? 43) then r else str | [] => [] end in
  forallb (fun c => (c =? 46) || ((47 <? c) && (c <? 58))) str.

(** [atol]: like [atoi] without the cut to 32 bits. *)
Definition atol (s : cstr) : Z :=
  match skip_space s with
  | 45 :: s' => clamp64 (- digits_value 0 s')
  | 43 :: s' => clamp64 (digits_value 0 s')
  | s' => clamp64 (digits_value 0 s')
  end.
Definition agc_atoui (nptr : cstr) : Z :=
  let tmp := atol nptr in if tmp <? 0 then 0 else wrap 32 tmp.

Definition agc_true (expr : option cstr) : bool :=
  match expr with
  | None => false
  | Some e =>
      existsb (fun w => same_nocase e (bytes_of w)) ["yes"; "on"; "true"; "t"; "enabled"; "active"; "allow"]
      || (agc_is_number e && negb (atoi e =? 0))
  end.

(** ** Cleaning a token *)

Definition unescape_char (escaped : Z) : Z :=
  if escaped =? 110 then 10
  else if escaped =? 114 then 13
  else if escaped =? 116 then 9
  else if escaped =? 115 then 32
  else escaped.

Definition has (c : Z) (s : cstr) : bool := existsb (Z.eqb c) s.

(** The escape of [cleanup_separated_string]: the character written for the
    one behind the backslash, or nothing when the two stay as they are. *)
Definition escape_of (delim e : Z) : option Z :=
  if (e =? SQUOTE) || (e =? 34) || (negb (delim =? 0) && (e =? delim)) || (e =? ESCAPE_META) then Some e
  else if negb (unescape_char e =? e) then Some (unescape_char e)
  else None.

(** The loop: [out] is what was written so far, [fin] the part of it before
    [end].  Writing happens behind the reading pointer, so what is still to be
    read is the rest of the text. *)
Fixpoint cleanup_loop (fuel : nat) (delim : Z) (inside_quotes : bool) (out fin : cstr) (s : cstr) : result cstr :=
  match fuel with
  | O => OutOfFuel
  | S fuel' =>
      match s with
      | [] => Ok fin
      | c :: r =>
          match (if c =? ESCAPE_META then escape_of delim (hd 0 r) else None) with
          | Some e =>
              let out := out ++ [e] in cleanup_loop fuel' delim inside_quotes out out (tl r)
          | None =>
              if (c =? SQUOTE) && (inside_quotes || has SQUOTE r) then
                let inside_quotes := negb inside_quotes in
                cleanup_loop fuel' delim inside_quotes out (if inside_quotes then out else fin) r
              else
                let out := out ++ [c] in
                cleanup_loop fuel' delim inside_quotes out
                  (if negb (c =? SPACE) || inside_quotes then out else fin) r
          end
      end
  end.

Fixpoint skip_blanks (s : cstr) : cstr :=
  match s with
  | c :: s' => if c =? SPACE then skip_blanks s' else s
  | [] => []
  end.

Definition cleanup_separated_string (str : cstr) (delim : Z) : result cstr :=
  let ptr := skip_blanks str in
  cleanup_loop (S (length ptr)) delim false [] [] ptr.

(** ** The tokenizers *)

(** [*ptr] *)
Definition peek (buf : list Z) (ptr : nat) : result Z :=
  match buf !! ptr with Some c => Ok c | None => Fault OutOfBounds end.

(** The C string at an index. *)
Definition string_at (buf : list Z) (ptr : nat) : cstr := cstring (drop ptr buf).

Inductive tokenizer_state := START | SKIP_INITIAL_SPACE | FIND_DELIM | SKIP_ENDING_SPACE.

(** The loop of [separate_string_blank_delim]; the array is the list of the
    starts stored so far, [count] its length. *)
Fixpoint blank_loop (fuel : nat) (arraylen : nat) (state : tokenizer_state) (inside_quotes : bool)
    (buf : list Z) (array : list nat) (ptr : nat) : result (list Z * list nat) :=
  match fuel with
  | O => OutOfFuel
  | S fuel' =>
      let! c := peek buf ptr in
      if (c =? 0) || (arraylen <=? length array)%nat then Ok (buf, array)
      else
        match state with
        | START => blank_loop fuel' arraylen SKIP_INITIAL_SPACE inside_quotes buf (array ++ [ptr]) ptr
        | SKIP_INITIAL_SPACE =>
            if c =? SPACE then blank_loop fuel' arraylen state inside_quotes buf array (S ptr)
            else blank_loop fuel' arraylen FIND_DELIM inside_quotes buf array ptr
        | FIND_DELIM =>
            if c =? ESCAPE_META then blank_loop fuel' arraylen state inside_quotes buf array (S (S ptr))
            else if c =? SQUOTE then blank_loop fuel' arraylen state (negb inside_quotes) buf array (S ptr)
            else if (c =? SPACE) && negb inside_quotes then
              blank_loop fuel' arraylen SKIP_ENDING_SPACE inside_quotes (<[ptr := 0]> buf) array (S ptr)
            else blank_loop fuel' arraylen state inside_quotes buf array (S ptr)
        | SKIP_ENDING_SPACE =>
            if c =? SPACE then blank_loop fuel' arraylen state inside_quotes buf array (S ptr)
            else blank_loop fuel' arraylen START inside_quotes buf array ptr
        end
  end.

(** The loop of [separate_string_char_delim], which has the states [START] and
    [FIND_DELIM] only. *)
Fixpoint char_loop (fuel : nat) (arraylen : nat) (delim : Z) (start : bool) (inside_quotes : bool)
    (buf : list Z) (array : list nat) (ptr : nat) : result (list Z * list nat) :=
  match fuel with
  | O => OutOfFuel
  | S fuel' =>
      let! c := peek buf ptr in
      if (c =? 0) || (arraylen <=? length array)%nat then Ok (buf, array)
      else if start then char_loop fuel' arraylen delim false inside_quotes buf (array ++ [ptr]) ptr
      else if c =? ESCAPE_META then char_loop fuel' arraylen delim false inside_quotes buf array (S (S ptr))
      else if (c =? SQUOTE) && (inside_quotes || has SQUOTE (string_at buf (S ptr))) then
        char_loop fuel' arraylen delim false (negb inside_quotes) buf array (S ptr)
      else if (c =? delim) && negb inside_quotes then
        char_loop fuel' arraylen delim true inside_quotes (<[ptr := 0]> buf) array (S ptr)
      else char_loop fuel' arraylen delim false inside_quotes buf array (S ptr)
  end.

(** [array[i] = cleanup_separated_string(array[i], delim)] for every token. *)
Fixpoint cleanup_all (delim : Z) (buf : list Z) (array : list nat) : result (list cstr) :=
  match array with
  | [] => Ok []
  | p :: array' =>
      let! t := cleanup_separated_string (string_at buf p) delim in
      let! ts := cleanup_all delim buf array' in
      Ok (t :: ts)
  end.

(** Every turn of a loop moves the pointer or leaves a state it entered. *)
Definition token_fuel (buf : list Z) : nat := 4 * length buf.

Definition separate_string_blank_delim (buf : list Z) (arraylen : nat) : result (list cstr) :=
  let! (buf, array) := blank_loop (token_fuel buf) arraylen START false buf [] 0 in
  cleanup_all 0 buf array.

Definition separate_string_char_delim (buf : list Z) (delim : Z) (arraylen : nat) : result (list cstr) :=
  let! (buf, array) := char_loop (token_fuel buf) arraylen delim true false buf [] 0 in
  cleanup_all delim buf array.

(** [agc_separate_string]; a prefix [^^c] makes [c] the delimiter. *)
Definition agc_separate_string (text : cstr) (delim : Z) (arraylen : nat) : result (list cstr) :=
  if (arraylen =? 0)%nat then Ok []
  else
    let (text, delim) :=
      match text with
      | 94 :: 94 :: c :: d :: r => (d :: r, c)
      | _ => (text, delim)
      end in
    let buf := text ++ [0] in
    if delim =? SPACE then separate_string_blank_delim buf arraylen
    else separate_string_char_delim buf delim arraylen.

Example separate_ex1 :
  agc_separate_string (bytes_of "a, 'b,c' ,d\,e,  f") 44 3 =
    Ok [bytes_of "a"; bytes_of "b,c"; bytes_of "d,e,  f"].
Proof. vm_compute. reflexivity. Qed.
Example separate_ex2 :
  agc_separate_string (bytes_of "  show 'all calls'  x ") 32 9 =
    Ok [bytes_of "show"; bytes_of "all calls"; bytes_of "x"].
Proof. vm_compute. reflexivity. Qed.
Example separate_ex3 : agc_separate_string (bytes_of "^^:a:b") 44 9 = Ok [bytes_of "a"; bytes_of "b"].
Proof. vm_compute. reflexivity. Qed.

End Utils.
