(* ===== verification/UtilsProof.v ===== *)
(** * The tokenizer: it ends inside its text, and splits as it should *)

From stdpp Require Import base list strings.
From Stdlib Require Import ZArith Lia.
From S2P Require Import Prelude CString Utils.

Module UtilsProof.
Import Utils.

(** ** Any text *)

Lemma cleanup_loop_total delim fuel : forall inside out fin s, (length s < fuel)%nat ->
  exists t, cleanup_loop fuel delim inside out fin s = Ok t.
Proof.
  induction fuel as [|fuel IH]; intros inside out fin s Hl; [lia|]. cbn [cleanup_loop].
  destruct s as [|c r]; [by eexists|]. cbn [length] in Hl.
  assert (length (tl r) <= length r)%nat by (destruct r; cbn; lia).
  repeat case_match; apply IH; lia.
Qed.

Lemma cleanup_total delim s : exists t, cleanup_separated_string s delim = Ok t.
Proof. apply cleanup_loop_total. lia. Qed.

Lemma cleanup_all_total delim buf array : exists ts, cleanup_all delim buf array = Ok ts /\ length ts = length array.
Proof.
  induction array as [|p array (ts & IH & Hl)]; [by exists []|]. cbn [cleanup_all].
  destruct (cleanup_total delim (string_at buf p)) as [t ->]. rewrite IH. cbn. eexists. split; [done|]. cbn. by f_equal.
Qed.

(** A buffer whose [n]-th byte is the terminator, with no backslash just
    before it, and a pointer inside. *)
Record safe (buf : list Z) (n ptr : nat) : Prop := Safe {
  sf_end : buf !! n = Some 0;
  sf_last : forall m, S m = n -> buf !! m <> Some ESCAPE_META;
  sf_ptr : (ptr <= n)%nat }.

Lemma safe_peek buf n ptr : safe buf n ptr -> exists c, peek buf ptr = Ok c /\ buf !! ptr = Some c.
Proof.
  intros [He _ Hp]. unfold peek. destruct (buf !! ptr) as [c|] eqn:E; [by exists c|].
  apply lookup_ge_None in E. apply lookup_lt_Some in He. lia.
Qed.

Lemma safe_next buf n ptr c : safe buf n ptr -> buf !! ptr = Some c -> c <> 0 -> safe buf n (S ptr).
Proof.
  intros [He Hl Hp] Hc Hz. split; [done|done|]. destruct (decide (ptr = n)) as [->|]; [congruence|lia].
Qed.

Lemma safe_escape buf n ptr : safe buf n ptr -> buf !! ptr = Some ESCAPE_META -> safe buf n (S (S ptr)).
Proof.
  intros Hs Hc. pose proof (safe_next _ _ _ _ Hs Hc ltac:(done)) as [He Hl Hp]. split; [done|done|].
  destruct (decide (S ptr = n)) as [E|]; [|lia]. by destruct (Hl ptr E).
Qed.

Lemma safe_cut buf n ptr c : safe buf n ptr -> buf !! ptr = Some c -> c <> 0 -> safe (<[ptr := 0]> buf) n (S ptr).
Proof.
  intros Hs Hc Hz. pose proof (safe_next _ _ _ _ Hs Hc Hz) as [He Hl Hp]. split; [| |done].
  - by rewrite list_lookup_insert_ne by lia.
  - intros m Hm. destruct (decide (m = ptr)) as [->|].
    + rewrite list_lookup_insert_eq by (by eapply lookup_lt_Some). done.
    + rewrite list_lookup_insert_ne by lia. auto.
Qed.

(** The turns a tokenizer may still make at a pointer. *)
Definition turns (n ptr extra : nat) : nat := 4 * (n - ptr) + extra + 1.

Lemma char_loop_total arraylen delim n fuel : forall (start inside : bool) buf array ptr,
  safe buf n ptr -> (length array <= arraylen)%nat -> (turns n ptr (if start then 1 else 0) <= fuel)%nat ->
  exists buf' array', char_loop fuel arraylen delim start inside buf array ptr = Ok (buf', array') /\
    (length array' <= arraylen)%nat.
Proof.
  unfold turns. induction fuel as [|fuel IH]; intros start inside buf array ptr Hs Ha Hf; [lia|]. cbn [char_loop].
  destruct (safe_peek _ _ _ Hs) as (c & -> & Hc). cbn [rbind].
  destruct ((c =? 0) || _) eqn:Estop; [eauto|].
  apply orb_false_iff in Estop as [Hz%Z.eqb_neq Hlt%Nat.leb_gt].
  pose proof (safe_next _ _ _ _ Hs Hc Hz) as Hn. pose proof (sf_ptr _ _ _ Hn).
  destruct start; [apply IH; [done|rewrite length_app; cbn; lia|lia]|].
  destruct (c =? ESCAPE_META) eqn:Ee.
  { apply Z.eqb_eq in Ee as ->. pose proof (safe_escape _ _ _ Hs Hc) as Hn2. pose proof (sf_ptr _ _ _ Hn2). apply IH; [done|lia|lia]. }
  destruct (_ && (_ || _)); [apply IH; [done|lia|lia]|].
  destruct (_ && _); [|apply IH; [done|lia|lia]].
  apply IH; [by eapply safe_cut|lia|lia].
Qed.

Definition waiting (st : tokenizer_state) : nat :=
  match st with START => 2 | SKIP_INITIAL_SPACE => 1 | FIND_DELIM => 0 | SKIP_ENDING_SPACE => 3 end.

Lemma blank_loop_total arraylen n fuel : forall st inside buf array ptr,
  safe buf n ptr -> (length array <= arraylen)%nat -> (turns n ptr (waiting st) <= fuel)%nat ->
  exists buf' array', blank_loop fuel arraylen st inside buf array ptr = Ok (buf', array') /\
    (length array' <= arraylen)%nat.
Proof.
  unfold turns. induction fuel as [|fuel IH]; intros st inside buf array ptr Hs Ha Hf; [lia|]. cbn [blank_loop].
  destruct (safe_peek _ _ _ Hs) as (c & -> & Hc). cbn [rbind].
  destruct ((c =? 0) || _) eqn:Estop; [eauto|].
  apply orb_false_iff in Estop as [Hz%Z.eqb_neq Hlt%Nat.leb_gt].
  pose proof (safe_next _ _ _ _ Hs Hc Hz) as Hn. pose proof (sf_ptr _ _ _ Hn).
  destruct st; cbn [waiting] in *.
  - apply IH; [done|rewrite length_app; cbn; lia|cbn; lia].
  - destruct (c =? SPACE); apply IH; done || (cbn; lia).
  - destruct (c =? ESCAPE_META) eqn:Ee.
    { apply Z.eqb_eq in Ee as ->. pose proof (safe_escape _ _ _ Hs Hc) as Hn2. pose proof (sf_ptr _ _ _ Hn2).
      apply IH; done || (cbn; lia). }
    destruct (c =? SQUOTE); [apply IH; done || (cbn; lia)|].
    destruct (_ && _); [|apply IH; done || (cbn; lia)].
    apply IH; [by eapply safe_cut|done|cbn; lia].
  - destruct (c =? SPACE); apply IH; done || (cbn; lia).
Qed.

Lemma safe_text text : Forall (fun c => c <> 0) text -> last text <> Some ESCAPE_META ->
  safe (text ++ [0]) (length text) 0.
Proof.
  intros _ Hl. split; [|intros m Hm|lia].
  - by rewrite lookup_app_r, Nat.sub_diag by lia.
  - rewrite lookup_app_l by lia. intros Hc. apply Hl. rewrite last_lookup, <- Hm. done.
Qed.

Lemma separate_total text delim arraylen : Forall (fun c => c <> 0) text -> last text <> Some ESCAPE_META ->
  exists ts, (if delim =? SPACE then separate_string_blank_delim (text ++ [0]) arraylen
              else separate_string_char_delim (text ++ [0]) delim arraylen) = Ok ts /\ (length ts <= arraylen)%nat.
Proof.
  intros Hz Hl. pose proof (safe_text text Hz Hl) as Hs.
  unfold separate_string_blank_delim, separate_string_char_delim, token_fuel. rewrite length_app. cbn [length].
  destruct (delim =? SPACE).
  - destruct (blank_loop_total arraylen (length text) (4 * (length text + 1)) START false (text ++ [0]) [] 0 Hs)
      as (buf & array & -> & Ha); [cbn; lia|unfold turns; cbn; lia|]. cbn [rbind].
    destruct (cleanup_all_total 0 buf array) as (ts & -> & Hts). exists ts. split; [done|lia].
  - destruct (char_loop_total arraylen delim (length text) (4 * (length text + 1)) true false (text ++ [0]) [] 0 Hs)
      as (buf & array & -> & Ha); [cbn; lia|unfold turns; lia|]. cbn [rbind].
    destruct (cleanup_all_total delim buf array) as (ts & -> & Hts). exists ts. split; [done|lia].
Qed.

(** ** Splitting *)

(** The reference splitter: what comes before the first [delim], and what is
    behind it. *)
Fixpoint break_at (delim : Z) (s : cstr) : cstr * option cstr :=
  match s with
  | [] => ([], None)
  | c :: r => if c =? delim then ([], Some r) else let (f, rest) := break_at delim r in (c :: f, rest)
  end.

(** At most [n] fields, the last one holding all that is left; a text that is
    used up gives no further field. *)
Fixpoint fields (n : nat) (delim : Z) (s : cstr) : list cstr :=
  match n, s with
  | O, _ => []
  | _, [] => []
  | 1%nat, _ => [s]
  | S n', _ =>
      match break_at delim s with
      | (f, Some r) => f :: fields n' delim r
      | (f, None) => [f]
      end
  end.

Fixpoint rtrim (s : cstr) : cstr :=
  match s with
  | [] => []
  | c :: r => match rtrim r with [] => if c =? SPACE then [] else [c] | t => c :: t end
  end.
Definition trim (s : cstr) : cstr := rtrim (skip_blanks s).

Definition plain (c : Z) : Prop := c <> 0 /\ c <> ESCAPE_META /\ c <> SQUOTE.

Lemma plain_eqb c : plain c -> (c =? 0) = false /\ (c =? ESCAPE_META) = false /\ (c =? SQUOTE) = false.
Proof. intros (?&?&?). by rewrite !Z.eqb_neq. Qed.

(** Cleaning a plain token trims it. *)
Lemma cleanup_loop_plain delim s : Forall plain s -> forall fuel out fin, (length s < fuel)%nat ->
  cleanup_loop fuel delim false out fin s = Ok (match rtrim s with [] => fin | t => out ++ t end).
Proof.
  induction 1 as [|c s Hc Hs IH]; intros fuel out fin Hf; (destruct fuel as [|fuel]; [simpl in Hf; lia|]); [done|].
  apply plain_eqb in Hc as (_ & He & Hq). cbn [cleanup_loop]. rewrite He, Hq. cbn [andb rtrim].
  rewrite IH by (simpl in Hf; lia). rewrite orb_false_r.
  destruct (rtrim s); [destruct (c =? SPACE); done|]. by rewrite <- app_assoc.
Qed.

Lemma skip_blanks_plain s : Forall plain s -> Forall plain (skip_blanks s).
Proof. induction 1; cbn; [constructor|]. case_match; [done|by constructor]. Qed.

Lemma cleanup_plain delim s : Forall plain s -> cleanup_separated_string s delim = Ok (trim s).
Proof.
  intros Hs. unfold cleanup_separated_string. rewrite cleanup_loop_plain by (by apply skip_blanks_plain || lia).
  unfold trim. by destruct (rtrim _).
Qed.

Lemma break_at_spec delim s : forall f rest, break_at delim s = (f, rest) ->
  Forall (fun c => c <> delim) f /\ s = f ++ match rest with Some r => delim :: r | None => [] end.
Proof.
  induction s as [|c s IH]; intros f rest; cbn; [intros; simplify_eq; by split; constructor|].
  destruct (c =? delim) eqn:E.
  - apply Z.eqb_eq in E as ->. intros; simplify_eq. split; [constructor|done].
  - destruct (break_at delim s) as [f' r']. intros; simplify_eq. destruct (IH f' rest eq_refl) as [Hf ->].
    split; [constructor; [by apply Z.eqb_neq|done]|done].
Qed.

Lemma peek_app pre c rest : peek (pre ++ c :: rest) (length pre) = Ok c.
Proof. unfold peek. by rewrite lookup_app_r, Nat.sub_diag by lia. Qed.

Lemma string_at_app pre f rest : Forall plain f -> string_at (pre ++ f ++ 0 :: rest) (length pre) = f.
Proof.
  intros Hf. unfold string_at. rewrite drop_app_length. induction Hf as [|c f Hc Hf IH]; [done|].
  apply plain_eqb in Hc as (Hz & _). cbn. by rewrite Hz, IH.
Qed.

(** Inside a field the loop only moves on. *)
Lemma char_loop_field arraylen delim array rest f :
  (length array < arraylen)%nat -> Forall plain f -> Forall (fun c => c <> delim) f ->
  forall pre fuel, char_loop (length f + fuel) arraylen delim false false (pre ++ f ++ rest) array (length pre) =
    char_loop fuel arraylen delim false false (pre ++ f ++ rest) array (length (pre ++ f)).
Proof.
  intros Ha Hf. induction Hf as [|c f Hc Hf IH]; intros Hd pre fuel; [by rewrite app_nil_r|].
  inversion Hd as [|? ? Hcd Hd']; subst. apply plain_eqb in Hc as (Hz & He & Hq).
  cbn [length Nat.add char_loop app]. rewrite peek_app. cbn [rbind].
  rewrite Hz, He, Hq, (proj2 (Nat.leb_gt _ _)), (proj2 (Z.eqb_neq c delim)) by done. cbn [andb orb].
  specialize (IH Hd' (pre ++ [c]) fuel). rewrite <- !app_assoc in IH. cbn [app] in IH.
  rewrite length_app in IH. cbn [length] in IH. rewrite Nat.add_1_r in IH. by rewrite IH.
Qed.

(** The text from a token's start on gives exactly its fields. *)
Lemma char_loop_fields arraylen delim : delim <> 0 -> delim <> ESCAPE_META -> delim <> SQUOTE ->
  forall n s pre array fuel, Forall plain s -> (length array + n = arraylen)%nat -> (2 * length s + 2 <= fuel)%nat ->
  exists t starts, char_loop fuel arraylen delim true false (pre ++ s ++ [0]) array (length pre) =
      Ok (pre ++ t, array ++ starts) /\
    Forall2 (fun p f => string_at (pre ++ t) p = f) starts (fields n delim s).
Proof.
  intros Hd0 Hde Hdq. induction n as [|n IH]; intros s pre array fuel Hs Hn Hf; (destruct fuel as [|fuel]; [lia|]).
  { exists (s ++ [0]), []. cbn [char_loop]. destruct s as [|c s]; cbn [app]; rewrite peek_app; cbn [rbind];
      rewrite (proj2 (Nat.leb_le _ _)), orb_true_r, app_nil_r by lia; (split; [done|constructor]). }
  destruct s as [|c s].
  { exists [0], []. cbn [char_loop app]. rewrite peek_app. cbn [rbind Z.eqb orb]. rewrite app_nil_r. split; [done|destruct n; constructor]. }
  remember (c :: s) as w eqn:Hw. cbn [char_loop].
  assert (peek (pre ++ w ++ [0]) (length pre) = Ok c) as -> by (subst w; apply peek_app). cbn [rbind].
  assert (plain c) as (Hz & _ & _)%plain_eqb by (subst w; by inversion Hs).
  rewrite Hz, (proj2 (Nat.leb_gt _ _)) by lia. cbn [orb].
  destruct n as [|n].
  { (* the array is full: what is left is the last field *)
    exists (w ++ [0]), [length pre]. destruct fuel as [|fuel]; [subst w; cbn in Hf; lia|]. cbn [char_loop].
    assert (peek (pre ++ w ++ [0]) (length pre) = Ok c) as -> by (subst w; apply peek_app). cbn [rbind].
    rewrite length_app, (proj2 (Nat.leb_le _ _)), orb_true_r by (cbn; lia). split; [done|].
    subst w. cbn [fields]. repeat constructor. by apply string_at_app. }
  assert (fields (S (S n)) delim w =
    match break_at delim w with (f, Some r) => f :: fields (S n) delim r | (f, None) => [f] end) as -> by (by subst w).
  destruct (break_at delim w) as [f rest] eqn:Hb. apply break_at_spec in Hb as [Hfd Hwf].
  assert (Forall plain f) as Hfp by (rewrite Hwf in Hs; by apply Forall_app in Hs as [? _]).
  assert (length f <= length w)%nat as Hlf by (rewrite Hwf, length_app; lia).
  replace fuel with (length f + (fuel - length f))%nat by lia.
  assert (w ++ [0] = f ++ match rest with Some r => delim :: r | None => [] end ++ [0]) as ->
    by (rewrite Hwf at 1; by rewrite <- app_assoc).
  rewrite char_loop_field by (rewrite ?length_app; cbn; done || lia).
  destruct (fuel - length f)%nat as [|fuel'] eqn:Efuel; [lia|]. cbn [char_loop]. rewrite app_assoc.
  destruct rest as [r|]; cbn [app]; rewrite peek_app; cbn [rbind].
  - rewrite !(proj2 (Z.eqb_neq delim _)) by done. rewrite Z.eqb_refl, length_app, (proj2 (Nat.leb_gt _ _)) by (cbn; lia).
    cbn [andb orb negb]. rewrite insert_app_r_alt, Nat.sub_diag by (rewrite length_app; lia). cbn [insert list_insert].
    assert (Forall plain r) as Hr by (rewrite Hwf in Hs; apply Forall_app in Hs as [_ Hs]; by inversion Hs).
    destruct (IH r ((pre ++ f) ++ [0]) (array ++ [length pre]) fuel' Hr) as (t & starts & Heq & HF).
    { rewrite length_app. cbn. lia. }
    { rewrite Hwf, length_app in Hf. cbn in Hf. rewrite Hwf, length_app in Hlf. cbn in Hlf. lia. }
    rewrite <- !app_assoc in Heq. cbn [app] in Heq. rewrite !length_app in Heq. cbn [length] in Heq.
    rewrite <- !app_assoc in HF. cbn [app] in HF.
    exists (f ++ 0 :: t), (length pre :: starts). rewrite <- app_assoc, length_app.
    replace (S (length pre + length f)) with (length pre + (length f + 1))%nat by lia. split; [exact Heq|].
    constructor; [by apply string_at_app|]. exact HF.
  - rewrite length_app. cbn [Z.eqb orb]. exists (f ++ [0]), [length pre]. rewrite <- app_assoc. split; [done|].
    repeat constructor. by apply string_at_app.
Qed.

Lemma fields_plain n delim s : Forall plain s -> Forall (Forall plain) (fields n delim s).
Proof.
  revert s. induction n as [|n IH]; intros s Hs; [constructor|]. destruct s as [|c s]; [by destruct n|].
  destruct n as [|n]; [by apply Forall_singleton|].
  change (fields (S (S n)) delim (c :: s)) with
    (match break_at delim (c :: s) with (f, Some r) => f :: fields (S n) delim r | (f, None) => [f] end).
  destruct (break_at delim (c :: s)) as [f rest] eqn:Hb. apply break_at_spec in Hb as [_ Hw]. rewrite Hw in Hs.
  apply Forall_app in Hs as [Hf Hr]. destruct rest; [inversion Hr; subst|]; constructor; auto.
Qed.

Lemma cleanup_all_plain delim buf starts fs : Forall2 (fun p f => string_at buf p = f) starts fs ->
  Forall (Forall plain) fs -> cleanup_all delim buf starts = Ok (trim <$> fs).
Proof.
  induction 1 as [|p f starts fs Hp HF IH]; intros Hfs; [done|]. inversion Hfs; subst. cbn [cleanup_all].
  rewrite cleanup_plain by done. cbn [rbind]. by rewrite IH.
Qed.

Lemma separate_char_plain text delim arraylen :
  delim <> 0 -> delim <> ESCAPE_META -> delim <> SQUOTE -> Forall plain text ->
  separate_string_char_delim (text ++ [0]) delim arraylen = Ok (trim <$> fields arraylen delim text).
Proof.
  intros H1 H2 H3 Ht. unfold separate_string_char_delim.
  destruct (char_loop_fields arraylen delim H1 H2 H3 arraylen text [] [] (token_fuel (text ++ [0])) Ht)
    as (t & starts & Heq & HF); [done|unfold token_fuel; rewrite length_app; cbn; lia|].
  cbn [app length] in Heq, HF. rewrite Heq. cbn [rbind].
  apply cleanup_all_plain; [exact HF|by apply fields_plain].
Qed.

(** The same for the blank delimiter. *)
Lemma blank_loop_field arraylen array rest f :
  (length array < arraylen)%nat -> Forall plain f -> Forall (fun c => c <> SPACE) f ->
  forall pre fuel, blank_loop (length f + fuel) arraylen FIND_DELIM false (pre ++ f ++ rest) array (length pre) =
    blank_loop fuel arraylen FIND_DELIM false (pre ++ f ++ rest) array (length (pre ++ f)).
Proof.
  intros Ha Hf. induction Hf as [|c f Hc Hf IH]; intros Hd pre fuel; [by rewrite app_nil_r|].
  inversion Hd as [|? ? Hcd Hd']; subst. apply plain_eqb in Hc as (Hz & He & Hq).
  cbn [length Nat.add blank_loop app]. rewrite peek_app. cbn [rbind].
  rewrite Hz, He, Hq, (proj2 (Nat.leb_gt _ _)), (proj2 (Z.eqb_neq c SPACE)) by done. cbn [andb orb].
  specialize (IH Hd' (pre ++ [c]) fuel). rewrite <- !app_assoc in IH. cbn [app] in IH.
  rewrite length_app in IH. cbn [length] in IH. rewrite Nat.add_1_r in IH. by rewrite IH.
Qed.

Lemma peek_past f : peek (f ++ [ESCAPE_META; 0]) (S (S (length f))) = Fault OutOfBounds.
Proof. unfold peek. by rewrite lookup_ge_None_2 by (rewrite !length_app; cbn; lia). Qed.

Lemma char_loop_past arraylen delim f fuel : f <> [] -> Forall plain f -> Forall (fun c => c <> delim) f ->
  (length f + 3 <= fuel)%nat ->
  char_loop fuel (S (S arraylen)) delim true false (f ++ [ESCAPE_META] ++ [0]) [] 0 = Fault OutOfBounds.
Proof.
  intros Hne Hp Hd Hf. destruct f as [|c f]; [done|]. remember (c :: f) as w eqn:Hw.
  destruct fuel as [|fuel]; [lia|]. cbn [char_loop].
  assert (peek (w ++ [ESCAPE_META] ++ [0]) 0 = Ok c) as -> by (by subst w). cbn [rbind].
  assert (plain c) as (Hz & _ & _)%plain_eqb by (subst w; by inversion Hp). rewrite Hz. cbn [orb length Nat.leb app].
  replace fuel with (length w + S (S (fuel - length w - 2)))%nat by lia.
  pose proof (char_loop_field (S (S arraylen)) delim [0%nat] [ESCAPE_META; 0] w ltac:(cbn; lia) Hp Hd []
    (S (S (fuel - length w - 2)))) as Hfield. cbn [app length] in Hfield. rewrite Hfield.
  cbn [char_loop]. rewrite peek_app. cbn [rbind Z.eqb orb length Nat.leb].
  by rewrite Z.eqb_refl, (peek_past w).
Qed.

Lemma blank_loop_past arraylen f fuel : f <> [] -> Forall plain f -> Forall (fun c => c <> SPACE) f ->
  (length f + 4 <= fuel)%nat ->
  blank_loop fuel (S (S arraylen)) START false (f ++ [ESCAPE_META] ++ [0]) [] 0 = Fault OutOfBounds.
Proof.
  intros Hne Hp Hd Hf. destruct f as [|c f]; [done|]. remember (c :: f) as w eqn:Hw.
  destruct fuel as [|[|fuel]]; [lia|lia|]. cbn [blank_loop].
  assert (peek (w ++ [ESCAPE_META] ++ [0]) 0 = Ok c) as -> by (by subst w). cbn [rbind].
  assert (plain c) as (Hz & _ & _)%plain_eqb by (subst w; by inversion Hp).
  assert ((c =? SPACE) = false) as Hs by (subst w; inversion Hd; by apply Z.eqb_neq).
  rewrite Hz, Hs. cbn [orb length Nat.leb app].
  replace fuel with (length w + S (S (fuel - length w - 2)))%nat by lia.
  pose proof (blank_loop_field (S (S arraylen)) [0%nat] [ESCAPE_META; 0] w ltac:(cbn; lia) Hp Hd []
    (S (S (fuel - length w - 2)))) as Hfield. cbn [app length] in Hfield. rewrite Hfield.
  cbn [blank_loop]. rewrite peek_app. cbn [rbind Z.eqb orb length Nat.leb].
  by rewrite Z.eqb_refl, (peek_past w).
Qed.

(** The [^^c] prefix. *)
Lemma caret_prefix text delim :
  (match text with 94 :: 94 :: c :: d :: r => (d :: r, c) | _ => (text, delim) end) = (text, delim) \/
  exists c d r, text = [94; 94; c] ++ d :: r /\
    (match text with 94 :: 94 :: c :: d :: r => (d :: r, c) | _ => (text, delim) end) = (d :: r, c).
Proof. repeat case_match; eauto 10. Qed.

End UtilsProof.

Import Utils UtilsProof.

(** [agc_separate_string] on any text that does not end in a backslash
    ends without reading outside the text and returns at most [arraylen]
    tokens, whatever quotes, escapes and delimiters the text has. *)
Theorem agc_separate_string_total text delim arraylen :
  Forall (fun c => c <> 0) text -> last text <> Some ESCAPE_META ->
  exists ts, agc_separate_string text delim arraylen = Ok ts /\ (length ts <= arraylen)%nat.
Proof.
  intros Hz Hl. unfold agc_separate_string. destruct (arraylen =? 0)%nat; [exists []; split; [done|cbn; lia]|].
  destruct (caret_prefix text delim) as [->|(c & d & r & -> & ->)]; [by apply separate_total|].
  apply Forall_app in Hz as [_ Hz]. rewrite last_app in Hl. destruct (last (d :: r)) eqn:E; [|by apply last_None in E].
  apply separate_total; [done|by rewrite E].
Qed.

Lemma agc_separate_string_total_witness :
  exists ts, agc_separate_string (bytes_of "a 'b c") 32 2 = Ok ts /\ (length ts <= 2)%nat.
Proof.
  apply agc_separate_string_total.
  - repeat constructor; vm_compute; discriminate.
  - vm_compute. discriminate.
Defined.

(** Without quotes and escapes, [agc_separate_string] with a character
    delimiter is the reference splitter: the fields between the delimiters in
    order, trimmed of spaces, at most [arraylen] of them, the last one holding
    the rest of the text. *)
Theorem agc_separate_string_fields text delim arraylen :
  delim <> 0 -> delim <> SPACE -> delim <> ESCAPE_META -> delim <> SQUOTE ->
  Forall plain text -> hd 0 text <> 94 -> (0 < arraylen)%nat ->
  agc_separate_string text delim arraylen = Ok (trim <$> fields arraylen delim text).
Proof.
  intros H1 H2 H3 H4 Ht Hh Hn. unfold agc_separate_string.
  rewrite (proj2 (Nat.eqb_neq _ _)) by lia.
  destruct (caret_prefix text delim) as [->|(c & d & r & -> & _)]; [|done].
  rewrite (proj2 (Z.eqb_neq _ _)) by done. by apply separate_char_plain.
Qed.

Lemma agc_separate_string_fields_witness :
  agc_separate_string (bytes_of "status ; show calls;;x y ") 59 100 =
    Ok (trim <$> fields 100 59 (bytes_of "status ; show calls;;x y ")) /\
  trim <$> fields 100 59 (bytes_of "status ; show calls;;x y ") =
    [bytes_of "status"; bytes_of "show calls"; []; bytes_of "x y"].
Proof.
  split; [|vm_compute; reflexivity].
  apply agc_separate_string_fields; try (vm_compute; congruence); [|lia].
  repeat constructor; vm_compute; discriminate.
Defined.

(** A text that ends in a backslash makes both tokenizers step over the
    terminator and read what lies behind it. *)
Theorem agc_separate_string_trailing_backslash f delim arraylen :
  f <> [] -> Forall plain f -> Forall (fun c => c <> delim) f -> hd 0 f <> 94 ->
  agc_separate_string (f ++ [ESCAPE_META]) delim (S (S arraylen)) = Fault OutOfBounds.
Proof.
  intros Hne Hp Hd Hh. unfold agc_separate_string. cbn [Nat.eqb].
  destruct (caret_prefix (f ++ [ESCAPE_META]) delim) as [->|(c & d & r & Heq & _)]; [|by destruct f; simplify_eq/=].
  unfold separate_string_blank_delim, separate_string_char_delim, token_fuel. rewrite <- !app_assoc.
  destruct (delim =? SPACE) eqn:E; [apply Z.eqb_eq in E; subst|];
    [rewrite blank_loop_past|rewrite char_loop_past]; try done; rewrite !length_app; cbn [length]; lia.
Qed.

Lemma agc_separate_string_trailing_backslash_witness :
  agc_separate_string (bytes_of "status" ++ [ESCAPE_META]) 59 100 = Fault OutOfBounds.
Proof.
  apply (agc_separate_string_trailing_backslash (bytes_of "status") 59 98).
  - discriminate.
  - repeat constructor; vm_compute; discriminate.
  - repeat constructor; vm_compute; discriminate.
  - vm_compute. discriminate.
Defined.
