(* ===== verification/Api.v ===== *)
(** * Commands

    [src/src/agc_api.c]: the table of commands, the parsing and execution of
    command lines, and the growing text buffer a command writes its answer to.
    What a registered function does is a parameter ([run_func]); so is the
    content of the bytes [realloc] adds ([junk]), and whether it succeeds. *)

From stdpp Require Import base list strings.
From Stdlib Require Import ZArith Lia.
From S2P Require Import Prelude CString Event Utils.

Module Api.
Import Ev Utils.

Definition AGC_CMD_CHUNK_LEN : nat := 1024.

(** [struct agc_stream_handle_s]; [data] are the bytes of the buffer, [fin]
    the index the pointer [end] has in it. *)
Record stream := Stream {
  data : list Z;
  fin : nat;
  data_size : nat;
  data_len : nat;
  alloc_len : nat;
  alloc_chunk : nat;
  uuid : option cstr }.

Definition with_uuid u st :=
  Stream (data st) (fin st) (data_size st) (data_len st) (alloc_len st) (alloc_chunk st) u.

(** [agc_api_stand_stream] *)
Definition agc_api_stand_stream : stream :=
  Stream (replicate AGC_CMD_CHUNK_LEN 0) 0 AGC_CMD_CHUNK_LEN 0 AGC_CMD_CHUNK_LEN AGC_CMD_CHUNK_LEN None.

Section stream.
Context (junk : nat -> Z).

(** [agc_api_stream_write]; [text] is what [agc_vmprintf] returned, [mem]
    whether [realloc] succeeds. *)
Definition agc_api_stream_write (mem : bool) (st : stream) (text : option cstr) : result (stream * agc_status) :=
  if (data_size st <=? data_len st)%nat then Ok (st, AGC_STATUS_FALSE)
  else
    match text with
    | None => Ok (st, AGC_STATUS_FALSE)
    | Some d =>
        let need := S (length d) in
        let grow := (data_size st - data_len st <? need)%nat && negb (alloc_len st =? 0)%nat in
        if grow && negb mem then Ok (st, AGC_STATUS_FALSE)
        else
          let st :=
            if grow then
              let new_len := (data_size st + need + alloc_chunk st)%nat in
              Stream (realloc_data junk (data st) new_len) (data_len st) new_len (data_len st) new_len
                (alloc_chunk st) (uuid st)
            else st in
          if (data_size st - data_len st <? need)%nat then Ok (st, AGC_STATUS_FALSE)
          else
            let! buf := blit (data st) (fin st) (d ++ [0]) in
            let len := length (cstring buf) in
            Ok (Stream buf len (data_size st) len (alloc_len st) (alloc_chunk st) (uuid st), AGC_STATUS_SUCCESS)
    end.

(** [agc_api_stream_raw_write] *)
Definition agc_api_stream_raw_write (mem : bool) (st : stream) (bs : list Z) : result (stream * agc_status) :=
  let need := (data_len st + length bs)%nat in
  let grow := (data_size st <=? need)%nat in
  if grow && negb mem then Ok (st, AGC_STATUS_MEMERR)
  else
    let st :=
      if grow then
        let need := (need + alloc_chunk st)%nat in
        Stream (realloc_data junk (data st) need) (fin st) need (data_len st) (alloc_len st) (alloc_chunk st) (uuid st)
      else st in
    let! buf := blit (data st) (data_len st) bs in
    let len := (data_len st + length bs)%nat in
    let! buf := blit buf len [0] in
    Ok (Stream buf len (data_size st) len (alloc_len st) (alloc_chunk st) (uuid st), AGC_STATUS_SUCCESS).

End stream.

(** ** The table of commands *)

(** [struct agc_api_interface_s]; [APIS] links them, the newest first. *)
Record agc_api_interface := ApiInterface {
  name : cstr;
  desc : option cstr;
  syntax : option cstr;
  func : Z }.

Definition agc_api_register (APIS : list agc_api_interface) (nm : option cstr) (ds sx : option cstr) (fn : Z)
    : list agc_api_interface * agc_status :=
  match nm with
  | None => (APIS, AGC_STATUS_FALSE)
  | Some n => if fn =? NULL then (APIS, AGC_STATUS_FALSE)
              else (ApiInterface n ds sx fn :: APIS, AGC_STATUS_SUCCESS)
  end.

Fixpoint agc_api_find (APIS : list agc_api_interface) (cmd : cstr) : option agc_api_interface :=
  match APIS with
  | [] => None
  | api :: APIS' => if same_nocase (name api) cmd then Some api else agc_api_find APIS' cmd
  end.

(** ** Execution *)

(** A call of a registered function, or an unknown command, as it is seen from
    outside: the uuid of the stream, the function and its argument. *)
Inductive action :=
  | Called (stream_uuid : option cstr) (fn : Z) (arg : option cstr)
  | Unknown (stream_uuid : option cstr).

Section execute.
Context (junk : nat -> Z) (mem : bool).
(** What the function at an address does with its argument and stream. *)
Context (run_func : Z -> option cstr -> stream -> result (stream * agc_status)).

Definition agc_api_execute (APIS : list agc_api_interface) (cmd arg : option cstr) (st : stream)
    : result (stream * agc_status * action) :=
  match (match cmd with Some c => agc_api_find APIS c | None => None end) with
  | Some api =>
      let! (st', status) := run_func (func api) arg st in
      let! st' :=
        (if bool_decide (status = AGC_STATUS_SUCCESS) then Ok st'
         else let! (st', _) := agc_api_stream_write junk mem st' (Some (bytes_of "COMMAND RETURN ERROR!" ++ [10])) in
              Ok st') in
      Ok (st', status, Called (uuid st) (func api) arg)
  | None =>
      let! (st', _) := agc_api_stream_write junk mem st (Some (bytes_of "INVALID COMMAND!" ++ [10])) in
      Ok (st', AGC_STATUS_FALSE, Unknown (uuid st))
  end.

(** [strchr]: the text before the first [c], and the text behind it. *)
Fixpoint strchr (c : Z) (s : cstr) : cstr * option cstr :=
  match s with
  | [] => ([], None)
  | d :: r => if d =? c then ([], Some r) else let (f, rest) := strchr c r in (d :: f, rest)
  end.

(** [parse_and_exec]: [uuid cmd arg], the rest of the line after a carriage
    return or a line feed dropped.  The search for the argument is made in the
    command even when there is none. *)
Definition parse_and_exec (APIS : list agc_api_interface) (xcmd : option cstr) : result (agc_status * list action) :=
  match xcmd with
  | None => Ok (AGC_STATUS_FALSE, [])
  | Some line =>
      let line :=
        match strchr 13 line with
        | (l, Some _) => l
        | (_, None) => fst (strchr 10 line)
        end in
      let (id, cmd) := strchr SPACE line in
      match cmd with
      | None => Fault BadPointer
      | Some cmd =>
          let (cmd, arg) := strchr SPACE cmd in
          let! (st, status, act) := agc_api_execute APIS (Some cmd) arg (with_uuid (Some id) agc_api_stand_stream) in
          Ok (AGC_STATUS_SUCCESS, [act])
      end
  end.

(** The loop of [agc_parse_execute] over the commands found. *)
Fixpoint execute_all (APIS : list agc_api_interface) (argv : list cstr) : result (list action) :=
  match argv with
  | [] => Ok []
  | c :: argv' =>
      let! (_, acts) := parse_and_exec APIS (Some c) in
      let! rest := execute_all APIS argv' in
      Ok (acts ++ rest)
  end.

(** [agc_parse_execute]: up to 100 commands separated by semicolons. *)
Definition agc_parse_execute (APIS : list agc_api_interface) (xcmd : option cstr) : result (list action) :=
  match xcmd with
  | None => Ok []
  | Some cmd =>
      let! argv := agc_separate_string cmd 59 100 in
      execute_all APIS argv
  end.

End execute.
End Api.
