(* ===== verification/ApiProof.v ===== *)
(** * Commands: the answer buffer holds what was written, and a command line
    runs its commands in order *)

From stdpp Require Import base list sets strings.
From Stdlib Require Import ZArith Lia.
From S2P Require Import Prelude CString Event Utils UtilsProof Api.

Module ApiProof.
Import Ev Utils UtilsProof Api.

(** ** The stream as a text *)

(** The stream holds the text [t], terminated, with its sizes in order. *)
Record holds (st : stream) (t : cstr) : Prop := Holds {
  ho_data : exists rest, data st = t ++ 0 :: rest;
  ho_len : data_len st = length t;
  ho_fin : fin st = length t;
  ho_size : data_size st = length (data st);
  ho_alloc : (0 < alloc_len st)%nat /\ (0 < alloc_chunk st)%nat;
  ho_text : Forall (fun c => c <> 0) t }.

Lemma blit_text t rest bs : (length bs <= S (length rest))%nat ->
  blit (t ++ 0 :: rest) (length t) bs = Ok (t ++ bs ++ drop (length bs) (0 :: rest)).
Proof. intros. by apply blit_tail. Qed.

Lemma realloc_terminated junk t rest n : (length t < n)%nat ->
  exists rest', realloc_data junk (t ++ 0 :: rest) n = t ++ 0 :: rest' /\ length (t ++ 0 :: rest') = n.
Proof.
  intros Hn. destruct (realloc_text junk (t ++ [0]) rest n) as (r & Hr & Hl); [rewrite length_app; cbn; lia|].
  rewrite <- (app_assoc t [0] rest) in Hr. rewrite <- (app_assoc t [0] r) in Hr, Hl. exists r. split; [exact Hr|exact Hl].
Qed.

Lemma holds_written st t d rest size al u : holds st t -> Forall (fun c => c <> 0) d ->
  (0 < al)%nat -> size = length (t ++ d ++ 0 :: rest) ->
  holds (Stream (t ++ d ++ 0 :: rest) (length (t ++ d)) size (length (t ++ d)) al (alloc_chunk st) u) (t ++ d).
Proof.
  intros Ht Hd Hal Hsz. split; cbn; try done.
  - exists rest. by rewrite <- app_assoc.
  - split; [done|apply Ht].
  - apply Forall_app. split; [apply Ht|done].
Qed.

(** Writing a text appends it, growing the buffer when it must. *)
Lemma stream_write_holds junk st t d : holds st t -> Forall (fun c => c <> 0) d ->
  exists st', agc_api_stream_write junk true st (Some d) = Ok (st', AGC_STATUS_SUCCESS) /\
    holds st' (t ++ d) /\ uuid st' = uuid st.
Proof.
  intros Hh Hd. pose proof Hh as [[rest Hdata] Hlen Hfin Hsize [Hal Hch] Ht]. unfold agc_api_stream_write.
  assert (length t < data_size st)%nat as Hlt by (rewrite Hsize, Hdata, length_app; cbn; lia).
  rewrite (proj2 (Nat.leb_gt _ _)) by lia. cbv zeta.
  rewrite (proj2 (Nat.eqb_neq (alloc_len st) 0)) by lia. cbn [negb]. rewrite andb_true_r.
  destruct (data_size st - data_len st <? S (length d))%nat eqn:E; cbn [andb negb].
  - rewrite Hdata.
    destruct (realloc_terminated junk t rest (data_size st + S (length d) + alloc_chunk st)) as (rest' & -> & Hl'); [lia|].
    cbn [data_size data_len fin data alloc_len alloc_chunk uuid]. rewrite Hlen.
    rewrite (proj2 (Nat.ltb_ge _ _)) by lia.
    rewrite length_app in Hl'. cbn [length] in Hl'.
    rewrite blit_text by (rewrite length_app; cbn; lia). cbn [rbind]. rewrite <- !app_assoc. cbn [app].
    rewrite (app_assoc t d), cstring_text by (by apply Forall_app). rewrite <- app_assoc.
    eexists. split; [reflexivity|]. split; [|reflexivity]. apply (holds_written st); [done|done|lia|].
    rewrite length_app. cbn [length]. rewrite !length_app, length_cons, length_drop. cbn [length]. lia.
  - rewrite E. apply Nat.ltb_ge in E. rewrite Hfin, Hdata. rewrite Hdata, length_app in Hsize. cbn [length] in Hsize.
    rewrite blit_text by (rewrite length_app; cbn; lia). cbn [rbind]. rewrite <- !app_assoc. cbn [app].
    rewrite (app_assoc t d), cstring_text by (by apply Forall_app). rewrite <- app_assoc.
    eexists. split; [reflexivity|]. split; [|reflexivity]. apply (holds_written st); [done|done|lia|].
    rewrite length_app. cbn [length]. rewrite !length_app, length_cons, length_drop. cbn [length]. lia.
Qed.

Lemma stream_raw_write_holds junk st t d : holds st t -> Forall (fun c => c <> 0) d ->
  exists st', agc_api_stream_raw_write junk true st d = Ok (st', AGC_STATUS_SUCCESS) /\
    holds st' (t ++ d) /\ uuid st' = uuid st.
Proof.
  intros Hh Hd. pose proof Hh as [[rest Hdata] Hlen Hfin Hsize [Hal Hch] Ht]. unfold agc_api_stream_raw_write.
  cbv zeta. rewrite andb_false_r. rewrite Hlen.
  assert (forall size rest, size = length (t ++ 0 :: rest) -> (length t + length d < size)%nat ->
    exists buf, (let! buf := blit (t ++ 0 :: rest) (length t) d in blit buf (length t + length d) [0]) = Ok buf /\
      length buf = size /\ exists rest', buf = t ++ d ++ 0 :: rest') as Hput.
  { intros size rest' -> Hl. rewrite length_app in Hl. cbn [length] in Hl. rewrite blit_text by lia. cbn [rbind].
    assert (exists x r, drop (length d) (0 :: rest') = x :: r) as (x & r & Hx).
    { destruct (drop (length d) (0 :: rest')) eqn:Ed; [|eauto].
      apply (f_equal length) in Ed. rewrite length_drop in Ed. cbn [length] in Ed. lia. }
    assert (length (x :: r) = S (length rest') - length d)%nat as Hlr by (by rewrite <- Hx, length_drop).
    rewrite Hx. unfold blit. rewrite !length_app. cbn [length] in *. rewrite (proj2 (Nat.leb_le _ _)) by lia.
    eexists. split; [reflexivity|]. rewrite (app_assoc t d), <- length_app, take_app_length, <- drop_drop, drop_app_length.
    cbn [drop]. rewrite drop_0, !length_app. cbn [length]. split; [lia|]. exists r. by rewrite <- app_assoc. }
  destruct (data_size st <=? length t + length d)%nat eqn:E; cbn [data_len data data_size alloc_len alloc_chunk uuid].
  - rewrite Hdata.
    destruct (realloc_terminated junk t rest (length t + length d + alloc_chunk st)) as (rest' & -> & Hl'); [lia|].
    destruct (Hput _ rest' (eq_sym Hl')) as (buf & Hbuf & Hbl & r & ->); [lia|].
    destruct (blit (t ++ 0 :: rest') (length t) d) as [b0| |]; [cbn [rbind] in *|done|done]. rewrite Hbuf. cbn [rbind].
    eexists. split; [reflexivity|]. split; [|reflexivity]. rewrite <- (length_app t d) in *. apply (holds_written st); [done|done|lia|by rewrite Hbl].
  - apply Nat.leb_gt in E. rewrite Hdata, Hlen.
    destruct (Hput (data_size st) rest ltac:(by rewrite <- Hdata) E) as (buf & Hbuf & Hbl & r & ->).
    destruct (blit (t ++ 0 :: rest) (length t) d) as [b0| |]; [cbn [rbind] in *|done|done]. rewrite Hbuf. cbn [rbind].
    eexists. split; [reflexivity|]. split; [|reflexivity]. rewrite <- (length_app t d) in *. apply (holds_written st); [done|done|lia|by rewrite Hbl].
Qed.

(** A sequence of writes of either kind. *)
Inductive write := Printf (d : cstr) | Raw (d : cstr).
Definition written (w : write) : cstr := match w with Printf d | Raw d => d end.
Definition write1 junk (st : stream) (w : write) : result (stream * agc_status) :=
  match w with
  | Printf d => agc_api_stream_write junk true st (Some d)
  | Raw d => agc_api_stream_raw_write junk true st d
  end.
Fixpoint write_all junk (st : stream) (ws : list write) : result (stream * list agc_status) :=
  match ws with
  | [] => Ok (st, [])
  | w :: ws' =>
      let! (st, r) := write1 junk st w in
      let! (st, rs) := write_all junk st ws' in
      Ok (st, r :: rs)
  end.

Lemma write_all_holds junk ws : Forall (fun w => Forall (fun c => c <> 0) (written w)) ws ->
  forall st t, holds st t ->
  exists st', write_all junk st ws = Ok (st', (fun _ => AGC_STATUS_SUCCESS) <$> ws) /\
    holds st' (t ++ (ws ≫= written)).
Proof.
  induction 1 as [|w ws Hw Hws IH]; intros st t Ht; [exists st; by rewrite app_nil_r|]. cbn [write_all].
  assert (exists st1, write1 junk st w = Ok (st1, AGC_STATUS_SUCCESS) /\ holds st1 (t ++ written w)) as (st1 & -> & H1).
  { destruct w; [destruct (stream_write_holds junk st t d Ht Hw) as (? & ? & ? & _)
                |destruct (stream_raw_write_holds junk st t d Ht Hw) as (? & ? & ? & _)]; eauto. }
  cbn [rbind]. destruct (IH st1 _ H1) as (st' & -> & H'). exists st'. cbn. by rewrite <- app_assoc in H'.
Qed.

(** ** Command lines *)

Lemma strchr_found c f r : Forall (fun d => d <> c) f -> strchr c (f ++ c :: r) = (f, Some r).
Proof.
  induction 1 as [|d f Hd Hf IH]; cbn; [by rewrite Z.eqb_refl|]. by rewrite (proj2 (Z.eqb_neq _ _)), IH.
Qed.
Lemma strchr_none c f : Forall (fun d => d <> c) f -> strchr c f = (f, None).
Proof. induction 1 as [|d f Hd Hf IH]; cbn; [done|]. by rewrite (proj2 (Z.eqb_neq _ _)), IH. Qed.

Lemma strchr_prefix (P : Z -> Prop) c s : Forall P s -> Forall P (fst (strchr c s)).
Proof.
  induction 1 as [|d s Hd Hs IH]; cbn; [constructor|]. case_match; [constructor|].
  destruct (strchr c s). by constructor.
Qed.

(** The characters that separate or quote. *)
Definition word_char (c : Z) : Prop := ~ c ∈ [0; 10; 13; 32; 39; 59; 92].
Definition line_char (c : Z) : Prop := c = SPACE \/ word_char c.

#[global] Instance word_char_dec c : Decision (word_char c).
Proof. unfold word_char. apply _. Defined.
#[global] Instance line_char_dec c : Decision (line_char c).
Proof. unfold line_char. apply _. Defined.

Lemma word_line c : word_char c -> line_char c.
Proof. by right. Qed.

(** A command: the uuid, the name and the argument. *)
Record command := Command { c_uuid : cstr; c_name : cstr; c_arg : option cstr }.
Definition command_text (c : command) : cstr :=
  c_uuid c ++ SPACE :: c_name c ++ match c_arg c with Some a => SPACE :: a | None => [] end.

Record command_ok (c : command) : Prop := CommandOk {
  co_uuid : c_uuid c <> [] /\ Forall word_char (c_uuid c);
  co_name : c_name c <> [] /\ Forall word_char (c_name c);
  co_arg : match c_arg c with
           | Some a => Forall line_char a /\ exists a' x, a = a' ++ [x] /\ word_char x
           | None => True end }.

Definition action_of (APIS : list agc_api_interface) (c : command) : action :=
  match agc_api_find APIS (c_name c) with
  | Some api => Called (Some (c_uuid c)) (func api) (c_arg c)
  | None => Unknown (Some (c_uuid c))
  end.

Lemma word_not c d : word_char c -> d ∈ [0; 10; 13; 32; 39; 59; 92] -> c <> d.
Proof. intros Hc Hd ->. by apply Hc. Qed.

Lemma words_not d f : d ∈ [0; 10; 13; 32; 39; 59; 92] -> Forall word_char f -> Forall (fun c => c <> d) f.
Proof. intros Hd Hf. eapply Forall_impl; [exact Hf|]. intros c Hc. by apply word_not. Qed.

Lemma line_not c d : line_char c -> d ∈ [0; 10; 13; 39; 59; 92] -> c <> d.
Proof.
  intros [->|Hc] Hd; [|apply word_not; [done|]; revert Hd; rewrite !elem_of_cons; tauto].
  revert Hd. rewrite !elem_of_cons, elem_of_nil. unfold SPACE. lia.
Qed.

Lemma command_text_line c : command_ok c -> Forall line_char (command_text c).
Proof.
  intros [[_ Hu] [_ Hn] Ha]. unfold command_text.
  assert (forall f, Forall word_char f -> Forall line_char f) as Hw
    by (intros f Hf; eapply Forall_impl; [exact Hf|apply word_line]).
  apply Forall_app. split; [auto|]. constructor; [by left|]. apply Forall_app. split; [auto|].
  destruct (c_arg c); [constructor; [by left|apply Ha]|constructor].
Qed.

(** A command begins and ends with a word character. *)
Lemma command_text_last c : command_ok c -> exists s x, command_text c = s ++ [x] /\ word_char x.
Proof.
  intros [_ [Hne Hn] Ha]. unfold command_text. destruct (c_arg c) as [a|].
  - destruct Ha as (_ & a' & x & -> & Hx). eexists _, x. split; [|done].
    by rewrite app_comm_cons, app_assoc, app_comm_cons, app_assoc.
  - destruct (exists_last Hne) as (n' & x & Heq). rewrite Heq in *. rewrite app_nil_r.
    eexists _, x. rewrite app_comm_cons, app_assoc. split; [done|].
    apply Forall_app in Hn as [_ Hn]. by inversion Hn.
Qed.

Lemma rtrim_snoc s x : x <> SPACE -> rtrim (s ++ [x]) = s ++ [x].
Proof.
  intros Hx. induction s as [|c s IH]; cbn; [by rewrite (proj2 (Z.eqb_neq _ _))|]. rewrite IH. by destruct s.
Qed.

Lemma trim_command c : command_ok c -> trim (command_text c) = command_text c.
Proof.
  intros Hc. destruct (command_text_last c Hc) as (s & x & Heq & Hx). unfold trim.
  assert (skip_blanks (command_text c) = command_text c) as ->.
  { destruct Hc as [[Hne Hu] _ _]. unfold command_text. destruct (c_uuid c) as [|d u]; [done|]. cbn.
    inversion Hu; subst. rewrite (proj2 (Z.eqb_neq d SPACE)); [done|]. apply word_not; [done|set_solver]. }
  rewrite Heq. apply rtrim_snoc. apply word_not; [done|set_solver].
Qed.

Fixpoint command_line (cs : list command) : cstr :=
  match cs with
  | [] => []
  | [c] => command_text c
  | c :: cs' => command_text c ++ 59 :: command_line cs'
  end.

Lemma break_at_found c f r : Forall (fun d => d <> c) f -> break_at c (f ++ c :: r) = (f, Some r).
Proof.
  induction 1 as [|d f Hd Hf IH]; cbn; [by rewrite Z.eqb_refl|]. by rewrite (proj2 (Z.eqb_neq _ _)), IH.
Qed.
Lemma break_at_none c f : Forall (fun d => d <> c) f -> break_at c f = (f, None).
Proof. induction 1 as [|d f Hd Hf IH]; cbn; [done|]. by rewrite (proj2 (Z.eqb_neq _ _)), IH. Qed.

Lemma fields_cons n delim s : s <> [] ->
  fields (S (S n)) delim s =
    match break_at delim s with (f, Some r) => f :: fields (S n) delim r | (f, None) => [f] end.
Proof. by destruct s. Qed.

Lemma command_text_nonempty c : command_ok c -> command_text c <> [].
Proof. intros Hc. destruct (command_text_last c Hc) as (s & x & -> & _). by destruct s. Qed.

Lemma command_line_fields cs : Forall command_ok cs -> forall n, (length cs <= n)%nat ->
  fields n 59 (command_line cs) = command_text <$> cs.
Proof.
  induction 1 as [|c cs Hc Hcs IH]; intros n Hn; [by destruct n as [|[|n]]|].
  assert (Forall (fun d => d <> 59) (command_text c)) as Hd.
  { eapply Forall_impl; [by apply command_text_line|]. intros d Hdl. apply line_not; [done|set_solver]. }
  pose proof (command_text_nonempty c Hc) as Hne.
  destruct cs as [|c' cs].
  - destruct n as [|[|n]]; [cbn in Hn; lia|by destruct (command_text c) eqn:E; cbn; rewrite ?E|].
    cbn [command_line]. by rewrite fields_cons, break_at_none.
  - destruct n as [|[|n]]; [cbn in Hn; lia|cbn in Hn; lia|].
    change (command_line (c :: c' :: cs)) with (command_text c ++ 59 :: command_line (c' :: cs)).
    rewrite fields_cons by (by destruct (command_text c)). rewrite break_at_found by done.
    rewrite IH by (cbn in *; lia). done.
Qed.

Lemma command_line_plain cs : Forall command_ok cs -> Forall plain (command_line cs).
Proof.
  assert (forall f, Forall line_char f -> Forall plain f) as Hp.
  { intros f Hf. eapply Forall_impl; [exact Hf|]. intros c Hc. unfold plain, ESCAPE_META, SQUOTE.
    split_and!; apply line_not; set_solver. }
  induction 1 as [|c cs Hc Hcs IH]; [constructor|].
  pose proof (Hp _ (command_text_line c Hc)). destruct cs as [|c' cs]; [done|].
  change (command_line (c :: c' :: cs)) with (command_text c ++ 59 :: command_line (c' :: cs)).
  apply Forall_app. split; [done|]. by constructor.
Qed.

Section execute.
Context (junk : nat -> Z) (run_func : Z -> option cstr -> stream -> result (stream * agc_status)).

(** A registered function uses its stream through the stream functions only. *)
Definition well_behaved : Prop := forall fn arg st t, holds st t ->
  exists st' status t', run_func fn arg st = Ok (st', status) /\ holds st' t'.

Lemma stand_stream_holds u : holds (with_uuid u agc_api_stand_stream) [].
Proof.
  split; cbn; try done; [|unfold AGC_CMD_CHUNK_LEN; lia]. by exists (replicate 1023 0).
Qed.

Lemma execute_action APIS c st t arg : well_behaved -> holds st t ->
  exists st' status, agc_api_execute junk true run_func APIS (Some c) arg st =
    Ok (st', status, match agc_api_find APIS c with Some api => Called (uuid st) (func api) arg
                                                | None => Unknown (uuid st) end).
Proof.
  intros Hwb Hh. unfold agc_api_execute.
  destruct (agc_api_find APIS c) as [api|].
  - destruct (Hwb (func api) arg st t Hh) as (st' & status & t' & -> & Hh'). cbn [rbind].
    case_bool_decide; [cbn; eauto|].
    destruct (stream_write_holds junk st' t' (bytes_of "COMMAND RETURN ERROR!" ++ [10]) Hh') as (st2 & -> & _);
      [repeat constructor; vm_compute; discriminate|]. cbn. eauto.
  - destruct (stream_write_holds junk st t (bytes_of "INVALID COMMAND!" ++ [10]) Hh) as (st2 & -> & _);
      [repeat constructor; vm_compute; discriminate|]. cbn. eauto.
Qed.

Lemma parse_and_exec_command APIS c : well_behaved -> command_ok c ->
  parse_and_exec junk true run_func APIS (Some (command_text c)) = Ok (AGC_STATUS_SUCCESS, [action_of APIS c]).
Proof.
  intros Hwb Hc. pose proof (command_text_line c Hc) as Hl. unfold parse_and_exec.
  rewrite (strchr_none 13), (strchr_none 10) by (eapply Forall_impl; [exact Hl|]; intros; apply line_not; [done|set_solver]).
  cbn [fst]. destruct Hc as [[_ Hu] [_ Hn] _]. unfold command_text.
  rewrite strchr_found by (apply words_not; [set_solver|done]).
  assert (strchr SPACE (c_name c ++ match c_arg c with Some a => SPACE :: a | None => [] end) = (c_name c, c_arg c)) as ->.
  { destruct (c_arg c); [apply strchr_found|rewrite app_nil_r; apply strchr_none]; apply words_not; done || set_solver. }
  destruct (execute_action APIS (c_name c) (with_uuid (Some (c_uuid c)) agc_api_stand_stream) [] (c_arg c) Hwb
    (stand_stream_holds _)) as (st' & status & ->). done.
Qed.

Lemma execute_all_commands APIS cs : well_behaved -> Forall command_ok cs ->
  execute_all junk true run_func APIS (command_text <$> cs) = Ok (action_of APIS <$> cs).
Proof.
  intros Hwb. induction 1 as [|c cs Hc Hcs IH]; [done|]. rewrite !fmap_cons. cbn [execute_all].
  rewrite parse_and_exec_command by done. cbn [rbind]. by rewrite IH.
Qed.

End execute.
End ApiProof.

Import Ev Utils UtilsProof Api ApiProof.

(** The answer of a command is kept whole: from an empty stream, any
    sequence of formatted and raw writes of text succeeds, stays inside the
    buffer however often it grows, and leaves the terminated concatenation of
    what was written. *)
Theorem agc_api_stream_holds_text junk ws :
  Forall (fun w => Forall (fun c => c <> 0) (written w)) ws ->
  exists st, write_all junk agc_api_stand_stream ws = Ok (st, (fun _ => AGC_STATUS_SUCCESS) <$> ws) /\
    holds st (ws ≫= written).
Proof. intros Hws. apply (write_all_holds junk ws Hws _ [] (stand_stream_holds None)). Qed.

Lemma agc_api_stream_holds_text_witness :
  exists st, write_all (fun _ => 170) agc_api_stand_stream [Printf (replicate 2000 65); Raw [66; 67]; Printf [10]] =
      Ok (st, [AGC_STATUS_SUCCESS; AGC_STATUS_SUCCESS; AGC_STATUS_SUCCESS]) /\
    holds st (replicate 2000 65 ++ [66; 67] ++ [10] ++ []).
Proof.
  apply (agc_api_stream_holds_text (fun _ => 170) [Printf (replicate 2000 65); Raw [66; 67]; Printf [10]]).
  constructor; [apply Forall_replicate; discriminate|]. repeat constructor; discriminate.
Defined.

(** [agc_parse_execute] of up to 100 commands separated by semicolons
    runs each of them once, in order: the function registered last under the
    command's name, case aside, is called with the command's argument and a
    stream that carries its uuid; an unknown name calls nothing. *)
Theorem agc_parse_execute_in_order junk run_func APIS cs :
  well_behaved run_func -> Forall command_ok cs -> (length cs <= 100)%nat -> hd 0 (command_line cs) <> 94 ->
  agc_parse_execute junk true run_func APIS (Some (command_line cs)) = Ok (action_of APIS <$> cs).
Proof.
  intros Hwb Hcs Hn Hh. unfold agc_parse_execute, agc_separate_string.
  destruct (caret_prefix (command_line cs) 59) as [->|(c & d & r & Heq & _)]; [|by rewrite Heq in Hh].
  cbn [Nat.eqb]. change (59 =? SPACE) with false. cbv iota.
  rewrite separate_char_plain by (done || by apply command_line_plain). cbn [rbind].
  rewrite command_line_fields, <- list_fmap_compose by done.
  rewrite (list_fmap_ext (trim ∘ command_text) command_text).
  - by apply execute_all_commands.
  - intros i c Hi. apply trim_command. by eapply Forall_lookup_1 in Hi.
Qed.

Definition demo_commands : list command :=
  [Command (bytes_of "u1") (bytes_of "STATUS") None; Command (bytes_of "u2") (bytes_of "show") (Some (bytes_of "all calls"))].
Definition demo_apis : list agc_api_interface :=
  fst (agc_api_register [] (Some (bytes_of "status")) None None 4711).

Lemma agc_parse_execute_in_order_witness :
  agc_parse_execute (fun _ => 0) true (fun _ _ st => Ok (st, AGC_STATUS_SUCCESS)) demo_apis
    (Some (bytes_of "u1 STATUS;u2 show all calls")) =
    Ok [Called (Some (bytes_of "u1")) 4711 None; Unknown (Some (bytes_of "u2"))].
Proof.
  apply (agc_parse_execute_in_order (fun _ => 0) (fun _ _ st => Ok (st, AGC_STATUS_SUCCESS)) demo_apis demo_commands).
  - intros fn arg st t Hh. exists st, AGC_STATUS_SUCCESS, t. split; [reflexivity|exact Hh].
  - constructor; [|constructor; [|constructor]]; split; cbn [c_uuid c_name c_arg].
    1,2,4,5: split; [discriminate|apply (bool_decide_unpack _); vm_compute; exact I].
    + exact I.
    + split; [apply (bool_decide_unpack _); vm_compute; exact I|].
      exists (bytes_of "all call"), 115. split; [reflexivity|apply (bool_decide_unpack _); vm_compute; exact I].
  - vm_compute. lia.
  - vm_compute. discriminate.
Defined.

(** A command line without a space is not rejected: [parse_and_exec]
    searches for the argument in a null command. *)
Theorem parse_and_exec_no_command junk mem run_func APIS line :
  Forall (fun c => c <> SPACE) line ->
  parse_and_exec junk mem run_func APIS (Some line) = Fault BadPointer.
Proof.
  intros Hl. unfold parse_and_exec.
  assert (exists l, (match strchr 13 line with (l, Some _) => l | (_, None) => fst (strchr 10 line) end) = l /\
    Forall (fun c => c <> SPACE) l) as (l & -> & Hl').
  { pose proof (strchr_prefix _ 13 line Hl) as H13. pose proof (strchr_prefix _ 10 line Hl) as H10.
    destruct (strchr 13 line) as [l [r|]]; eauto. }
  by rewrite strchr_none.
Qed.

Lemma parse_and_exec_no_command_witness :
  parse_and_exec (fun _ => 0) true (fun _ _ st => Ok (st, AGC_STATUS_SUCCESS)) demo_apis (Some (bytes_of "status")) =
    Fault BadPointer.
Proof.
  apply parse_and_exec_no_command. repeat constructor; vm_compute; discriminate.
Defined.
