(* ===== verification/Mprintf.v ===== *)
(** * Formatted output

    [src/src/agc_mprintf.c], the framework's own [printf]: the loop over the
    format ([vxprintf]), the conversions, and the sinks that collect the
    text.  A floating-point conversion is the parameter [real_text]: the
    arithmetic on [long double] is not modelled.  The argument list is a list
    of tagged values; fetching an argument of another kind than the format
    asks for is a [Fault]. *)

From stdpp Require Import base list strings.
From Stdlib Require Import ZArith Lia.
From S2P Require Import Prelude CString.

Module Mprintf.

Definition etBUFSIZE : Z := 350.
Definition etSPACESIZE : Z := 73.

(** The conversion paradigms of the table. *)
Inductive et_type :=
  | etRADIX | etFLOAT | etEXP | etGENERIC | etSIZE | etSTRING | etDYNSTRING | etPERCENT | etCHARX
  | etSQLESCAPE | etSQLESCAPE2 | etSQLESCAPE3 | etSQLESCAPE4 | etPOINTER.

#[global] Instance et_type_eq_dec : EqDecision et_type.
Proof. solve_decision. Defined.

Record et_info := EtInfo {
  fmttype : Z;
  base : Z;
  flags : Z;
  type : et_type;
  charset : nat;
  prefix : nat }.

Definition FLAG_SIGNED : Z := 1.
Definition FLAG_INTERN : Z := 2.
Definition FLAG_STRING : Z := 4.
Definition has_flag (info : et_info) (f : Z) : bool := negb (Z.land (flags info) f =? 0).

Definition aDigits : list Z := bytes_of "0123456789ABCDEF0123456789abcdef".
(** ["-x0\000X0"] *)
Definition aPrefix : list Z := [45; 120; 48; 0; 88; 48; 0].

Definition fmtinfo : list et_info := [
  EtInfo 100 10 1 etRADIX 0 0;        (* d *)
  EtInfo 115 0 4 etSTRING 0 0;        (* s *)
  EtInfo 103 0 1 etGENERIC 30 0;      (* g *)
  EtInfo 122 0 6 etDYNSTRING 0 0;     (* z *)
  EtInfo 113 0 4 etSQLESCAPE 0 0;     (* q *)
  EtInfo 81 0 4 etSQLESCAPE2 0 0;     (* Q *)
  EtInfo 119 0 4 etSQLESCAPE3 0 0;    (* w *)
  EtInfo 121 0 4 etSQLESCAPE4 0 0;    (* y *)
  EtInfo 99 0 0 etCHARX 0 0;          (* c *)
  EtInfo 111 8 0 etRADIX 0 2;         (* o *)
  EtInfo 117 10 0 etRADIX 0 0;        (* u *)
  EtInfo 120 16 0 etRADIX 16 1;       (* x *)
  EtInfo 88 16 0 etRADIX 0 4;         (* X *)
  EtInfo 102 0 1 etFLOAT 0 0;         (* f *)
  EtInfo 101 0 1 etEXP 30 0;          (* e *)
  EtInfo 69 0 1 etEXP 14 0;           (* E *)
  EtInfo 71 0 1 etGENERIC 14 0;       (* G *)
  EtInfo 105 10 1 etRADIX 0 0;        (* i *)
  EtInfo 110 0 0 etSIZE 0 0;          (* n *)
  EtInfo 37 0 0 etPERCENT 0 0;        (* % *)
  EtInfo 112 16 0 etPOINTER 0 1 ].    (* p *)

(** The search for the conversion character. *)
Fixpoint find_info (c : Z) (l : list et_info) : option et_info :=
  match l with
  | [] => None
  | i :: l' => if c =? fmttype i then Some i else find_info c l'
  end.

(** ** Arguments *)

Section arguments.
Context {double : Type}.

Inductive va := VInt (z : Z) | VStr (s : option cstr) | VDouble (d : double) | VOut (p : Z).

Definition va_int (ap : list va) : result (Z * list va) :=
  match ap with VInt z :: ap' => Ok (z, ap') | _ => Fault BadPointer end.
Definition va_str (ap : list va) : result (option cstr * list va) :=
  match ap with VStr s :: ap' => Ok (s, ap') | _ => Fault BadPointer end.
Definition va_double (ap : list va) : result (double * list va) :=
  match ap with VDouble d :: ap' => Ok (d, ap') | _ => Fault BadPointer end.
Definition va_out (ap : list va) : result (Z * list va) :=
  match ap with VOut p :: ap' => Ok (p, ap') | _ => Fault BadPointer end.

(** ** One conversion specification *)

Record spec := Spec {
  leftjustify : bool;
  plussign : bool;
  blanksign : bool;
  alternateform : bool;
  altform2 : bool;
  zeropad : bool;
  width : Z;
  precision : Z;
  long : bool;
  longlong : bool }.

Definition no_flags : spec := Spec false false false false false false 0 (-1) false false.
Definition with_left s := Spec true (plussign s) (blanksign s) (alternateform s) (altform2 s) (zeropad s) (width s) (precision s) (long s) (longlong s).
Definition with_plus s := Spec (leftjustify s) true (blanksign s) (alternateform s) (altform2 s) (zeropad s) (width s) (precision s) (long s) (longlong s).
Definition with_blank s := Spec (leftjustify s) (plussign s) true (alternateform s) (altform2 s) (zeropad s) (width s) (precision s) (long s) (longlong s).
Definition with_alternate s := Spec (leftjustify s) (plussign s) (blanksign s) true (altform2 s) (zeropad s) (width s) (precision s) (long s) (longlong s).
Definition with_alt2 s := Spec (leftjustify s) (plussign s) (blanksign s) (alternateform s) true (zeropad s) (width s) (precision s) (long s) (longlong s).
Definition with_zero s := Spec (leftjustify s) (plussign s) (blanksign s) (alternateform s) (altform2 s) true (width s) (precision s) (long s) (longlong s).
Definition with_width w s := Spec (leftjustify s) (plussign s) (blanksign s) (alternateform s) (altform2 s) (zeropad s) w (precision s) (long s) (longlong s).
Definition with_precision p s := Spec (leftjustify s) (plussign s) (blanksign s) (alternateform s) (altform2 s) (zeropad s) (width s) p (long s) (longlong s).
Definition with_long l ll s := Spec (leftjustify s) (plussign s) (blanksign s) (alternateform s) (altform2 s) (zeropad s) (width s) (precision s) l ll.

(** The loop over the flags; the format from the first other character on. *)
Fixpoint parse_flags (fmt : cstr) (s : spec) : spec * cstr :=
  match fmt with
  | [] => (s, [])
  | c :: fmt' =>
      if c =? 45 then parse_flags fmt' (with_left s)
      else if c =? 43 then parse_flags fmt' (with_plus s)
      else if c =? 32 then parse_flags fmt' (with_blank s)
      else if c =? 35 then parse_flags fmt' (with_alternate s)
      else if c =? 33 then parse_flags fmt' (with_alt2 s)
      else if c =? 48 then parse_flags fmt' (with_zero s)
      else (s, fmt)
  end.

(** A decimal number in the format (beyond the range of [int] it is undefined
    in C and unbounded here). *)
Fixpoint parse_decimal (n : Z) (fmt : cstr) : Z * cstr :=
  match fmt with
  | c :: fmt' => if is_digit c then parse_decimal (n * 10 + c - 48) fmt' else (n, fmt)
  | [] => (n, [])
  end.

Definition parse_width (fmt : cstr) (ap : list va) (s : spec) : result (spec * cstr * list va) :=
  let! (s, fmt, ap) :=
    (if hd 0 fmt =? 42 then
       let! (w, ap) := va_int ap in
       let w := sext 32 w in
       Ok (if w <? 0 then with_width (- w) (with_left s) else with_width w s, tl fmt, ap)
     else let (w, fmt) := parse_decimal 0 fmt in Ok (with_width w s, fmt, ap)) in
  Ok (if etBUFSIZE - 10 <? width s then with_width (etBUFSIZE - 10) s else s, fmt, ap).

Definition parse_precision (fmt : cstr) (ap : list va) (s : spec) : result (spec * cstr * list va) :=
  if hd 0 fmt =? 46 then
    let fmt := tl fmt in
    if hd 0 fmt =? 42 then
      let! (p, ap) := va_int ap in
      let p := sext 32 p in
      Ok (with_precision (if p <? 0 then - p else p) s, tl fmt, ap)
    else let (p, fmt) := parse_decimal 0 fmt in Ok (with_precision p s, fmt, ap)
  else Ok (with_precision (-1) s, fmt, ap).

Definition parse_modifier (fmt : cstr) (s : spec) : spec * cstr :=
  if hd 0 fmt =? 108 then
    if hd 0 (tl fmt) =? 108 then (with_long true true s, tl (tl fmt)) else (with_long true false s, tl fmt)
  else (with_long false false s, fmt).

(** ** The conversions *)

(** Integer arguments at their width. *)
Definition fetch_signed (s : spec) (ap : list va) : result (Z * list va) :=
  let! (z, ap) := va_int ap in Ok (if longlong s || long s then sext 64 z else sext 32 z, ap).
Definition fetch_unsigned (s : spec) (ap : list va) : result (Z * list va) :=
  let! (z, ap) := va_int ap in Ok (if longlong s || long s then wrap 64 z else wrap 32 z, ap).

(** [do { *(--bufpt) = cset[longvalue % base]; ... } while (longvalue > 0)]:
    the digits in front of [acc]; 64 of them at most. *)
Fixpoint radix_digits (fuel : nat) (cset : nat) (b n : Z) (acc : cstr) : cstr :=
  match fuel with
  | O => acc
  | S fuel' =>
      let acc := nth (cset + Z.to_nat (n mod b)) aDigits 0 :: acc in
      if 0 <? n / b then radix_digits fuel' cset b (n / b) acc else acc
  end.

(** Characters written downwards from the end of [buf]: the text so far, or a
    [Fault] when it has run over the start of [buf]. *)
Definition in_buf (text : cstr) : result cstr :=
  if Z.of_nat (length text) <? etBUFSIZE then Ok text else Fault OutOfBounds.

(** [etRADIX] and [etPOINTER] *)
Definition convert_radix (info : et_info) (s : spec) (ap : list va) : result (cstr * list va) :=
  let s := if bool_decide (type info = etPOINTER) then with_long true true s else s in
  let! (longvalue, sign, ap) :=
    (if has_flag info FLAG_SIGNED then
       let! (v, ap) := fetch_signed s ap in
       if v <? 0 then Ok (wrap 64 (- v), [45], ap)
       else Ok (v, if plussign s then [43] else if blanksign s then [32] else [], ap)
     else let! (v, ap) := fetch_unsigned s ap in Ok (v, [], ap)) in
  let alternate := alternateform s && negb (longvalue =? 0) in
  let room := width s - Z.of_nat (length sign) in
  let prec := if zeropad s && (precision s <? room) then room else precision s in
  let digits := radix_digits 64 (charset info) (base info) longvalue [] in
  let text := sign ++ replicate (Z.to_nat (prec - Z.of_nat (length digits))) 48 ++ digits in
  let pre := cstring (drop (prefix info) aPrefix) in
  let text :=
    if alternate && negb (prefix info =? 0)%nat && negb (hd 0 text =? hd 0 pre) then reverse pre ++ text else text in
  let! text := in_buf text in
  Ok (text, ap).

(** [etCHARX] *)
Definition convert_char (s : spec) (ap : list va) : result (cstr * list va) :=
  let! (c, ap) := va_int ap in
  let c := wrap 8 c in
  if 0 <=? precision s then
    let! text := in_buf (replicate (Z.to_nat (precision s)) c) in Ok (text, ap)
  else Ok ([c], ap).

(** [etSTRING] and [etDYNSTRING] *)
Definition convert_string (s : spec) (ap : list va) : result (cstr * list va) :=
  let! (str, ap) := va_str ap in
  let str := default [] str in
  Ok (if (0 <=? precision s) && (precision s <? Z.of_nat (length str)) then take (Z.to_nat (precision s)) str else str, ap).

(** The escape of one character under each of the SQL conversions. *)
Definition sql_char (t : et_type) (ch : Z) : cstr :=
  if (ch =? 39) || (bool_decide (t = etSQLESCAPE3) && (ch =? 92)) then
    if bool_decide (t = etSQLESCAPE4) then [92; ch] else [ch; ch]
  else [ch].
(** The size computed for it in the first pass. *)
Definition sql_char_size (t : et_type) (ch : Z) : nat :=
  if (ch =? 39) || (bool_decide (t = etSQLESCAPE3) && (ch =? 92)) then 2 else 1.

(** [etSQLESCAPE] to [etSQLESCAPE4]; [None] when the allocation of a long text
    fails. *)
Definition convert_sql (mem : Z -> bool) (t : et_type) (ap : list va) : result (option cstr * list va) :=
  let! (escarg, ap) := va_str ap in
  let needQuote := bool_decide (t = etSQLESCAPE2) && match escarg with Some _ => true | None => false end in
  let arg := match escarg with
             | Some a => a
             | None => if bool_decide (t = etSQLESCAPE2) then bytes_of "NULL" else bytes_of "(NULL)"
             end in
  let n := Z.of_nat (sum_list (sql_char_size t <$> arg)) + 1 + (if needQuote then 2 else 0) in
  if (etBUFSIZE <? n) && negb (mem n) then Ok (None, ap)
  else
    let size := Z.max n etBUFSIZE in
    let quote := if needQuote then [39] else [] in
    let text := quote ++ (arg ≫= sql_char t) ++ quote in
    if Z.of_nat (length text) <? size then Ok (Some text, ap) else Fault OutOfBounds.

(** ** The loop *)

(** The consumer of the text, what its allocations do, and the text of a
    floating-point conversion. *)
Context {sink : Type} (func : sink -> cstr -> result sink) (mem : Z -> bool).
Context (real_text : et_info -> spec -> double -> cstr).

(** What the conversion leaves: the text, the width to use, the arguments and
    a store through an [%n] pointer. *)
Definition convert (count : Z) (info : et_info) (s : spec) (ap : list va)
    : result (option (cstr * Z * list (Z * Z)) * list va) :=
  match type info with
  | etPOINTER | etRADIX => let! (t, ap) := convert_radix info s ap in Ok (Some (t, width s, []), ap)
  | etFLOAT | etEXP | etGENERIC =>
      let! (d, ap) := va_double ap in Ok (Some (real_text info s d, width s, []), ap)
  | etSIZE => let! (p, ap) := va_out ap in Ok (Some ([], 0, [(p, count)]), ap)
  | etPERCENT => Ok (Some ([37], width s, []), ap)
  | etCHARX => let! (t, ap) := convert_char s ap in Ok (Some (t, width s, []), ap)
  | etSTRING | etDYNSTRING => let! (t, ap) := convert_string s ap in Ok (Some (t, width s, []), ap)
  | etSQLESCAPE | etSQLESCAPE2 | etSQLESCAPE3 | etSQLESCAPE4 =>
      let! (t, ap) := convert_sql mem (type info) ap in
      Ok (match t with Some t => Some (t, width s, []) | None => None end, ap)
  end.

(** [nspace] blanks, [etSPACESIZE] at a time. *)
Fixpoint put_spaces (fuel : nat) (k : sink) (nspace : Z) : result sink :=
  match fuel with
  | O => OutOfFuel
  | S fuel' =>
      if etSPACESIZE <=? nspace then
        let! k := func k (replicate (Z.to_nat etSPACESIZE) 32) in
        put_spaces fuel' k (nspace - etSPACESIZE)
      else if 0 <? nspace then func k (replicate (Z.to_nat nspace) 32)
      else Ok k
  end.

(** The output of a converted field: padding in front or behind. *)
Definition put_field (k : sink) (left : bool) (w : Z) (text : cstr) : result sink :=
  let nspace := w - Z.of_nat (length text) in
  let pad k := if 0 <? nspace then put_spaces 8 k nspace else Ok k in
  let! k := (if left then Ok k else pad k) in
  let! k := (match text with [] => Ok k | _ => func k text end) in
  if left then pad k else Ok k.

(** Literal text up to the next [%]. *)
Fixpoint literal (fmt : cstr) : cstr * cstr :=
  match fmt with
  | c :: fmt' => if c =? 37 then ([], fmt) else let (l, r) := literal fmt' in (c :: l, r)
  | [] => ([], [])
  end.

(** The state of [vxprintf]: the sink, the count and the stores made. *)
Record state := State { snk : sink; count : Z; stores : list (Z * Z) }.

(** [vxprintf] from the format [fmt] on; the result is the return value. *)
Fixpoint vxprintf (fuel : nat) (useExtended : bool) (st : state) (fmt : cstr) (ap : list va) : result (state * Z) :=
  match fuel with
  | O => OutOfFuel
  | S fuel' =>
      match fmt with
      | [] => Ok (st, count st)
      | c :: _ =>
          let! (st, fmt) :=
            (if c =? 37 then Ok (st, fmt)
             else let (l, r) := literal fmt in
                  let! k := func (snk st) l in
                  Ok (State k (count st + Z.of_nat (length l)) (stores st), r)) in
          match fmt with
          | [] => Ok (st, count st)
          | [_] => let! k := func (snk st) [37] in Ok (State k (count st + 1) (stores st), -1)
          | _ :: fmt =>
              let (s, fmt) := parse_flags fmt no_flags in
              let! (s, fmt, ap) := parse_width fmt ap s in
              let! (s, fmt, ap) := parse_precision fmt ap s in
              let (s, fmt) := parse_modifier fmt s in
              match find_info (hd 0 fmt) fmtinfo with
              | None => Ok (st, -1)
              | Some info =>
                  if negb useExtended && has_flag info FLAG_INTERN then Ok (st, -1)
                  else
                    let s :=
                      if (etBUFSIZE - 40 <? precision s) && negb (has_flag info FLAG_STRING)
                      then with_precision (etBUFSIZE - 40) s else s in
                    let! (r, ap) := convert (count st) info s ap in
                    match r with
                    | None => Ok (st, -1)
                    | Some (text, w, new) =>
                        let! k := put_field (snk st) (leftjustify s) w text in
                        let n := Z.of_nat (length text) in
                        let st := State k (count st + Z.max 0 (w - n) + n) (stores st ++ new) in
                        vxprintf fuel' useExtended st (tl fmt) ap
                    end
              end
          end
      end
  end.

End arguments.
Arguments va _ : clear implicits.

(** ** Collecting the text in memory *)

(** [struct sgMprintf]: [zText] is the block the text is in ([None] for a null
    pointer), [heap] whether it is another one than [zBase]. *)
Record sgMprintf := SgMprintf {
  zText : option (list Z);
  heap : bool;
  nChar : nat;
  nTotal : nat;
  nAlloc : nat;
  xRealloc : bool }.

Section sink.
Context (junk : nat -> Z) (mem : Z -> bool).

(** A fresh block. *)
Definition alloc (n : nat) : option (list Z) := if mem (Z.of_nat n) then Some (junk <$> seq 0 n) else None.

Definition mout (pM : sgMprintf) (zNewText : cstr) : result sgMprintf :=
  let nNewChar := length zNewText in
  let total := (nTotal pM + nNewChar)%nat in
  let! (text, hp, room, nNew) :=
    (if (nAlloc pM <? nChar pM + nNewChar + 1)%nat then
       if negb (xRealloc pM) then Ok (zText pM, heap pM, nAlloc pM, (nAlloc pM - nChar pM - 1)%nat)
       else
         let nAlloc := (nChar pM + nNewChar * 2 + 1)%nat in
         if negb (heap pM) then
           match alloc nAlloc, zText pM with
           | Some b, Some base => let! b := blit b 0 (take (nChar pM) base) in Ok (Some b, true, nAlloc, nNewChar)
           | t, _ => Ok (t, true, nAlloc, nNewChar)
           end
         else
           match zText pM with
           | Some t => Ok (Some (if mem (Z.of_nat nAlloc) then realloc_data junk t nAlloc else t), true, nAlloc, nNewChar)
           | None => Ok (alloc nAlloc, true, nAlloc, nNewChar)
           end
     else Ok (zText pM, heap pM, nAlloc pM, nNewChar)) in
  match text with
  | None => Ok (SgMprintf None hp (nChar pM) total room (xRealloc pM))
  | Some t =>
      let! t := blit t (nChar pM) (take nNew zNewText) in
      let n := (nChar pM + nNew)%nat in
      let! t := blit t n [0] in
      Ok (SgMprintf (Some t) hp n total room (xRealloc pM))
  end.

Context {double : Type} (real_text : et_info -> spec -> double -> cstr).

(** [base_vprintf]: the block returned.  With a [zInitBuf] of [n] bytes and no
    [xRealloc] the text stays in it; otherwise it ends in a block of its own. *)
Definition base_vprintf (xr : bool) (useInternal : bool) (zInitBuf : list Z) (fmt : cstr) (ap : list (va double))
    : result (option (list Z)) :=
  let! sM := mout (SgMprintf (Some zInitBuf) false 0 0 (length zInitBuf) xr) [] in
  let! (st, _) := vxprintf mout mem real_text (S (length fmt)) useInternal (State sM 0 []) fmt ap in
  let sM := snk st in
  if xr then
    if negb (heap sM) then
      match alloc (nChar sM + 1), zText sM with
      | Some b, Some base => let! b := blit b 0 (take (nChar sM + 1) base) in Ok (Some b)
      | t, _ => Ok t
      end
    else if (nChar sM + 10 <? nAlloc sM)%nat then
      match zText sM with
      | Some t => Ok (Some (if mem (Z.of_nat (nChar sM + 1)) then realloc_data junk t (nChar sM + 1) else t))
      | None => Ok (alloc (nChar sM + 1))
      end
    else Ok (zText sM)
  else Ok (zText sM).

(** [agc_vmprintf] and [agc_mprintf]: a block of its own with the text. *)
Definition agc_vmprintf (fmt : cstr) (ap : list (va double)) : result (option (list Z)) :=
  base_vprintf true false (junk <$> seq 0 (Z.to_nat etBUFSIZE)) fmt ap.
Definition agc_mprintf (fmt : cstr) (ap : list (va double)) : result (option (list Z)) := agc_vmprintf fmt ap.

(** [agc_snprintfv]: into the buffer of the caller. *)
Definition agc_snprintfv (zBuf : list Z) (fmt : cstr) (ap : list (va double)) : result (option (list Z)) :=
  base_vprintf false false zBuf fmt ap.

End sink.

End Mprintf.
