(* ===== verification/MprintfProof.v ===== *)
(** * Formatted output: the text is what the format says

    A sink is anything that appends the text it is given ([Collects]); the two
    ways [mout] is used, growing on the heap and cutting at a fixed size, are
    its instances.  The loop is proved against the class. *)

From stdpp Require Import base list strings.
From Stdlib Require Import ZArith Lia.
From S2P Require Import Prelude CString Mprintf.

Module MprintfProof.
Import Mprintf.

(** ** Sinks *)

Class Collects {sink : Type} (func : sink -> cstr -> result sink) (holds : sink -> cstr -> Prop) :=
  collects : forall k t d, holds k t -> exists k', func k d = Ok k' /\ holds k' (t ++ d).

(** A block that starts with a terminated text. *)
Definition terminated (b : list Z) (t : cstr) : Prop := exists rest, b = t ++ 0 :: rest.

Lemma blit_terminated t rest d n : (length d < length rest)%nat -> n = (length t + length d)%nat ->
  exists rest', (let! b := blit (t ++ rest) (length t) d in blit b n [0]) = Ok ((t ++ d) ++ 0 :: rest') /\
    length ((t ++ d) ++ 0 :: rest') = length (t ++ rest).
Proof.
  intros Hl ->. rewrite blit_tail by lia. cbn [rbind]. rewrite app_assoc, <- length_app.
  rewrite blit_tail by (rewrite length_drop; cbn; lia). cbn [length app]. eexists. split; [done|].
  rewrite !length_app. cbn [length]. rewrite !length_drop. lia.
Qed.

(** Growing on the heap. *)
Record grows (junk : nat -> Z) (pM : sgMprintf) (t : cstr) : Prop := Grows {
  gr_realloc : xRealloc pM = true;
  gr_char : nChar pM = length t;
  gr_text : exists rest, zText pM = Some (t ++ 0 :: rest) /\ nAlloc pM = length (t ++ 0 :: rest) }.

Lemma alloc_copy junk t rest n : (length t <= n)%nat ->
  exists b, (let! b := blit (junk <$> seq 0 n) 0 (take (length t) (t ++ rest)) in Ok b) = Ok (t ++ b) /\ length (t ++ b) = n.
Proof.
  intros Hn. rewrite take_app_length.
  pose proof (blit_tail [] (junk <$> seq 0 n) t ltac:(rewrite length_fmap, length_seq; lia)) as Hb.
  cbn [app length] in Hb. rewrite Hb. cbn [rbind]. eexists. split; [done|].
  rewrite length_app, length_drop, length_fmap, length_seq. lia.
Qed.

#[export] Instance mout_grows junk : Collects (mout junk (fun _ => true)) (grows junk).
Proof.
  intros pM t d [Hr Hc (rest & Ht & Ha)]. unfold mout. rewrite Hr, Ht, Hc. cbn [negb].
  assert (forall hp size r, length (t ++ r) = size -> (length d < length r)%nat ->
    exists pM', (let! b := blit (t ++ r) (length t) (take (length d) d) in
      let! b := blit b (length t + length d)%nat [0] in
      Ok (SgMprintf (Some b) hp (length t + length d) (nTotal pM + length d) size true)) = Ok pM' /\
      grows junk pM' (t ++ d)) as Hput.
  { intros hp size r Hsize Hl. destruct (blit_terminated t r d _ Hl eq_refl) as (rest' & Hb & Hlen).
    rewrite take_ge by lia. destruct (blit (t ++ r) (length t) d) as [b| |]; [cbn [rbind] in *|done|done].
    rewrite Hb. cbn [rbind]. eexists. split; [done|]. split; cbn; [done|by rewrite length_app|].
    exists rest'. split; [done|]. by rewrite Hlen. }
  destruct (nAlloc pM <? length t + length d + 1)%nat eqn:E.
  - destruct (heap pM); cbn [negb].
    + destruct (realloc_text junk t (0 :: rest) (length t + length d * 2 + 1)) as (r & Hre & Hl); [lia|].
      cbn [rbind]. rewrite Hre. apply Hput; [done|]. rewrite length_app in Hl. lia.
    + unfold alloc. destruct (alloc_copy junk t (0 :: rest) (length t + length d * 2 + 1)) as (b & Hcopy & Hl); [lia|].
      destruct (blit (junk <$> _) 0 _) as [b0| |]; [cbn [rbind] in *|done|done]. simplify_eq.
      apply Hput; [done|]. rewrite length_app in Hl. lia.
  - apply Nat.ltb_ge in E. cbn [rbind]. rewrite Ha in *. apply Hput; [done|].
    rewrite length_app in E. cbn [length] in *. lia.
Qed.

(** Cutting at the size of a fixed buffer. *)
Record cuts (n : nat) (pM : sgMprintf) (t : cstr) : Prop := Cuts {
  cu_size : nAlloc pM = n /\ (0 < n)%nat;
  cu_fixed : xRealloc pM = false /\ heap pM = false;
  cu_char : nChar pM = length (take (n - 1) t);
  cu_text : exists rest, zText pM = Some (take (n - 1) t ++ 0 :: rest) /\ length (take (n - 1) t ++ 0 :: rest) = n }.

#[export] Instance mout_cuts junk mem n : Collects (mout junk mem) (cuts n).
Proof.
  intros pM t d [[Hn Hn0] [Hx Hh] Hc (rest & Ht & Hl)]. unfold mout. rewrite Hx, Hh, Ht, Hn, Hc. cbn [negb].
  set (t' := take (n - 1) t) in *.
  assert (forall k, take (n - 1) (t ++ d) = t' ++ take k d -> length (take k d) = k -> (length t' + k < n)%nat ->
    exists pM', (let! b := blit (t' ++ 0 :: rest) (length t') (take k d) in
      let! b := blit b (length t' + k)%nat [0] in
      Ok (SgMprintf (Some b) false (length t' + k) (nTotal pM + length d) n false)) = Ok pM' /\
      cuts n pM' (t ++ d)) as Hput.
  { intros k Heq Hk Hlt. rewrite length_app in Hl. cbn [length] in Hl.
    destruct (blit_terminated t' (0 :: rest) (take k d) (length t' + k)%nat) as (rest' & Hb & Hlen);
      [cbn [length]; lia|lia|].
    destruct (blit (t' ++ 0 :: rest) (length t') (take k d)) as [b| |]; [cbn [rbind] in *|done|done].
    rewrite Hb. cbn [rbind]. eexists. split; [done|]. split; cbn; [done|done|by rewrite Heq, length_app, Hk|].
    exists rest'. rewrite Heq. split; [done|]. rewrite Hlen, length_app. cbn [length]. lia. }
  assert (length t' = Nat.min (n - 1) (length t)) as Hlt' by (apply length_take).
  destruct (n <? length t' + length d + 1)%nat eqn:E; cbn [rbind].
  - apply Nat.ltb_lt in E. apply Hput.
    + rewrite take_app. fold t'. do 2 f_equal. lia.
    + rewrite length_take. lia.
    + lia.
  - apply Nat.ltb_ge in E. apply Hput.
    + rewrite take_app. fold t'. f_equal. by rewrite !take_ge by lia.
    + rewrite length_take. lia.
    + lia.
Qed.

(** ** Numbers *)

Lemma aDigits_decimal d : 0 <= d < 10 -> nth (Z.to_nat d) aDigits 0 = 48 + d.
Proof.
  intros Hd. assert (d ∈ Z.of_nat <$> seq 0 10) as Hin.
  { apply list_elem_of_fmap. exists (Z.to_nat d). split; [lia|]. apply elem_of_seq. lia. }
  cbn in Hin. rewrite !elem_of_cons, elem_of_nil in Hin.
  repeat (destruct Hin as [->|Hin]; [reflexivity|]). done.
Qed.

Lemma radix_decimal fuel k n acc : 0 <= n < 10 ^ Z.of_nat fuel -> (0 < fuel)%nat ->
  radix_digits (fuel + k) 0 10 n acc = reverse (digits_rev fuel n) ++ acc.
Proof.
  revert n acc. induction fuel as [|fuel IH]; intros n acc Hn Hf; [lia|]. cbn [Nat.add radix_digits digits_rev].
  rewrite aDigits_decimal by (apply Z.mod_pos_bound; lia). rewrite reverse_cons, <- app_assoc. cbn [app].
  destruct (n <? 10) eqn:E.
  - rewrite (Z.div_small n 10) by lia. done.
  - rewrite Nat2Z.inj_succ, Z.pow_succ_r in Hn by lia.
    rewrite (proj2 (Z.ltb_lt 0 (n / 10))) by (apply Z.div_str_pos; lia).
    assert (0 < fuel)%nat by (destruct fuel; [cbn in Hn; lia|lia]).
    apply IH; [split; [apply Z.div_pos; lia|apply Z.div_lt_upper_bound; lia]|done].
Qed.

Lemma radix_print_uint n : 0 <= n < 10 ^ 20 -> radix_digits 64 0 10 n [] = print_uint n.
Proof. intros Hn. etrans; [exact (radix_decimal 20 44 n [] Hn ltac:(lia))|apply app_nil_r]. Qed.

Lemma in_buf_short text : (length text < 350)%nat -> in_buf text = Ok text.
Proof. intros. unfold in_buf, etBUFSIZE. by rewrite (proj2 (Z.ltb_lt _ _)) by lia. Qed.

Lemma sext32_range z : - 2 ^ 31 <= sext 32 z < 2 ^ 31.
Proof.
  unfold sext, wrap. pose proof (Z.mod_pos_bound z (2 ^ 32) ltac:(lia)). destruct (_ <? _) eqn:E; lia.
Qed.

Definition info_d : et_info := EtInfo 100 10 1 etRADIX 0 0.
Definition info_u : et_info := EtInfo 117 10 0 etRADIX 0 0.

(** ["%d"], with or without a width. *)
Lemma convert_d {double} s z (ap : list (va double)) :
  plussign s = false -> blanksign s = false -> zeropad s = false -> precision s = -1 -> long s = false -> longlong s = false ->
  convert_radix info_d s (VInt z :: ap) = Ok (print_int (sext 32 z), ap).
Proof.
  intros H1 H2 H3 H4 H5 H6. pose proof (sext32_range z) as Hr. unfold convert_radix, fetch_signed.
  change (bool_decide (type info_d = etPOINTER)) with false. change (has_flag info_d FLAG_SIGNED) with true. cbn -[print_int radix_digits sext].
  rewrite H5, H6. cbn [orb]. set (v := sext 32 z) in *.
  assert (in_buf (print_int v) = Ok (print_int v)) as Hbuf
    by (apply in_buf_short; pose proof (print_int_width v Hr); lia).
  unfold print_int in *. destruct (v <? 0) eqn:E; cbn -[radix_digits print_uint]; rewrite ?H1, ?H2, H3, H4;
    cbn -[radix_digits print_uint]; rewrite ?andb_false_r; cbn [andb].
  - replace (wrap 64 (- v)) with (- v) by (unfold wrap; rewrite Z.mod_small; lia).
    rewrite radix_print_uint by lia.
    replace (Z.to_nat _) with 0%nat by lia. cbn [replicate app]. by rewrite Hbuf.
  - rewrite radix_print_uint by lia. replace (Z.to_nat _) with 0%nat by lia. cbn [replicate app]. by rewrite Hbuf.
Qed.

Lemma convert_u {double} s z (ap : list (va double)) :
  zeropad s = false -> precision s = -1 -> long s = false -> longlong s = false ->
  convert_radix info_u s (VInt z :: ap) = Ok (print_uint (wrap 32 z), ap).
Proof.
  intros H3 H4 H5 H6. unfold convert_radix, fetch_unsigned.
  change (bool_decide (type info_u = etPOINTER)) with false. change (has_flag info_u FLAG_SIGNED) with false. cbn -[print_uint radix_digits wrap].
  rewrite H5, H6, H3, H4. cbn -[radix_digits print_uint wrap]. rewrite ?andb_false_r. cbn [andb].
  assert (0 <= wrap 32 z < 2 ^ 32) as Hr by (apply Z.mod_pos_bound; lia).
  rewrite radix_print_uint by lia. replace (Z.to_nat _) with 0%nat by lia. cbn [replicate app].
  rewrite in_buf_short; [done|]. unfold print_uint. rewrite length_reverse.
  pose proof (digits_rev_length 20 (wrap 32 z) 10 ltac:(lia) ltac:(lia)). lia.
Qed.

(** ** Strings for SQL *)

(** A string literal of SQL, read after its opening quote: two quotes stand
    for one, a single one ends it. *)
Fixpoint sql_read (s : cstr) : option (cstr * cstr) :=
  match s with
  | [] => None
  | c :: r =>
      if c =? 39 then
        match r with
        | d :: r' => if d =? 39 then
            match sql_read r' with Some (t, rest) => Some (39 :: t, rest) | None => None end
            else Some ([], r)
        | [] => Some ([], [])
        end
      else match sql_read r with Some (t, rest) => Some (c :: t, rest) | None => None end
  end.

Lemma sql_read_doubled t s rest : t = etSQLESCAPE \/ t = etSQLESCAPE2 -> hd 0 rest <> 39 ->
  sql_read ((s ≫= sql_char t) ++ 39 :: rest) = Some (s, rest).
Proof.
  intros Ht Hr. induction s as [|c s IH].
  - cbn. destruct rest as [|d rest]; [done|]. cbn in Hr. by rewrite (proj2 (Z.eqb_neq d 39)).
  - cbn [mbind list_bind]. rewrite <- app_assoc. unfold sql_char at 1.
    assert (bool_decide (t = etSQLESCAPE3) = false) as -> by (by destruct Ht; subst).
    assert (bool_decide (t = etSQLESCAPE4) = false) as -> by (by destruct Ht; subst).
    cbn [andb]. rewrite orb_false_r. destruct (c =? 39) eqn:E.
    + apply Z.eqb_eq in E as ->. cbn [app sql_read Z.eqb Pos.eqb]. by rewrite IH.
    + cbn [app sql_read]. by rewrite E, IH.
Qed.

Lemma sql_size t s : length (s ≫= sql_char t) = sum_list (sql_char_size t <$> s).
Proof.
  induction s as [|c s IH]; [done|]. cbn [mbind list_bind fmap list_fmap sum_list id]. rewrite length_app, IH.
  unfold sql_char, sql_char_size. by repeat case_match.
Qed.

(** The first pass of the conversion sizes the second exactly. *)
Lemma convert_sql_fits {double} mem t s (ap : list (va double)) : (forall n, mem n = true) ->
  convert_sql mem t (VStr (Some s) :: ap) =
    Ok (Some (if bool_decide (t = etSQLESCAPE2) then 39 :: (s ≫= sql_char t) ++ [39] else s ≫= sql_char t), ap).
Proof.
  intros Hm. unfold convert_sql. cbn [va_str rbind]. rewrite andb_true_r, Hm. cbn [negb]. rewrite andb_false_r.
  rewrite <- sql_size. unfold etBUFSIZE.
  destruct (bool_decide (t = etSQLESCAPE2)); cbn [app]; rewrite ?app_nil_r.
  - rewrite (proj2 (Z.ltb_lt _ _)); [done|]. cbn [length]. rewrite length_app. cbn [length]. lia.
  - rewrite (proj2 (Z.ltb_lt _ _)); [done|]. lia.
Qed.

(** ** The loop over the format *)

(** The conversions the theorem covers, each with its argument. *)
Inductive conv :=
  | CInt (z : Z)                 (* %d *)
  | CWide (w z : Z)              (* %<w>d *)
  | CUint (z : Z)                (* %u *)
  | CStr (s : option cstr)       (* %s *)
  | CSql (s : cstr)              (* %q *)
  | CSqlQuoted (s : cstr)        (* %Q *)
  | CPercent.                    (* %% *)

Definition conv_fmt (c : conv) : cstr :=
  match c with
  | CInt _ => [100]
  | CWide w _ => print_uint w ++ [100]
  | CUint _ => [117]
  | CStr _ => [115]
  | CSql _ => [113]
  | CSqlQuoted _ => [81]
  | CPercent => [37]
  end.
Definition conv_args {double} (c : conv) : list (va double) :=
  match c with
  | CInt z | CWide _ z | CUint z => [VInt z]
  | CStr s => [VStr s]
  | CSql s | CSqlQuoted s => [VStr (Some s)]
  | CPercent => []
  end.
Definition conv_text (c : conv) : cstr :=
  match c with
  | CInt z => print_int (sext 32 z)
  | CWide w z => replicate (Z.to_nat (w - Z.of_nat (length (print_int (sext 32 z))))) 32 ++ print_int (sext 32 z)
  | CUint z => print_uint (wrap 32 z)
  | CStr s => default [] s
  | CSql s => s ≫= sql_char etSQLESCAPE
  | CSqlQuoted s => 39 :: (s ≫= sql_char etSQLESCAPE2) ++ [39]
  | CPercent => [37]
  end.
Definition conv_ok (c : conv) : Prop :=
  match c with CWide w _ => 0 < w <= etBUFSIZE - 10 | _ => True end.

Lemma parse_decimal_print w r : 0 <= w < 10 ^ 20 -> is_digit (hd 0 r) = false ->
  parse_decimal 0 (print_uint w ++ r) = (w, r).
Proof.
  intros Hw Hr. assert (forall s n, Forall (fun c => is_digit c = true) s ->
    parse_decimal n (s ++ r) = (digits_value n s, r)) as H.
  { intros s n Hs. revert n. induction Hs as [|c s Hc Hs IH]; intros n; cbn [app parse_decimal digits_value].
    - destruct r as [|c r]; [done|]. cbn in Hr. cbn. by rewrite Hr.
    - rewrite Hc, IH. do 2 f_equal. lia. }
  rewrite H by (apply print_uint_digits; lia). by rewrite print_uint_value.
Qed.

Lemma parse_flags_digit w r s : 0 < w < 10 ^ 20 -> parse_flags (print_uint w ++ r) s = (s, print_uint w ++ r).
Proof.
  intros Hw. destruct (digits_rev_lead 20 w ltac:(lia)) as (c & t & Hc & Hr). unfold print_uint. rewrite Hc.
  cbn [app parse_flags]. by rewrite !(proj2 (Z.eqb_neq c _)) by lia.
Qed.

Section loop.
Context {double sink : Type} (func : sink -> cstr -> result sink) (holds : sink -> cstr -> Prop).
Context `{!Collects func holds} (mem : Z -> bool) (real_text : et_info -> spec -> double -> cstr).
Context (Hmem : forall n, mem n = true).

Lemma put_spaces_holds fuel : forall k t n, holds k t -> 0 <= n < etSPACESIZE * Z.of_nat fuel ->
  exists k', put_spaces func fuel k n = Ok k' /\ holds k' (t ++ replicate (Z.to_nat n) 32).
Proof.
  unfold etSPACESIZE. induction fuel as [|fuel IH]; intros k t n Hk Hn; [lia|]. cbn [put_spaces]. unfold etSPACESIZE.
  destruct (73 <=? n) eqn:E.
  - destruct (collects k t (replicate (Z.to_nat 73) 32) Hk) as (k1 & -> & Hk1). cbn [rbind].
    destruct (IH k1 _ (n - 73) Hk1 ltac:(lia)) as (k2 & -> & Hk2). exists k2. split; [done|].
    rewrite <- app_assoc, <- replicate_add in Hk2. by replace (Z.to_nat n) with (Z.to_nat 73 + Z.to_nat (n - 73))%nat by lia.
  - destruct (0 <? n) eqn:E0; [apply collects, Hk|]. exists k. split; [done|].
    replace (Z.to_nat n) with 0%nat by lia. by rewrite app_nil_r.
Qed.

Lemma put_field_holds k t w text : holds k t -> 0 <= w <= etBUFSIZE - 10 ->
  exists k', put_field func k false w text = Ok k' /\
    holds k' (t ++ replicate (Z.to_nat (w - Z.of_nat (length text))) 32 ++ text).
Proof.
  unfold etBUFSIZE. intros Hk Hw. unfold put_field.
  assert (exists k1, (if 0 <? w - Z.of_nat (length text) then put_spaces func 8 k (w - Z.of_nat (length text)) else Ok k) = Ok k1 /\
    holds k1 (t ++ replicate (Z.to_nat (w - Z.of_nat (length text))) 32)) as (k1 & -> & Hk1).
  { destruct (0 <? _) eqn:E; [apply put_spaces_holds; [done|unfold etSPACESIZE; lia]|]. exists k. split; [done|].
    replace (Z.to_nat _) with 0%nat by lia. by rewrite app_nil_r. }
  cbn [rbind]. rewrite app_assoc. destruct text as [|c text].
  - cbn [rbind]. exists k1. by rewrite app_nil_r.
  - destruct (collects k1 _ (c :: text) Hk1) as (k2 & -> & Hk2). cbn [rbind]. by exists k2.
Qed.

(** One conversion: the field is put, and the loop goes on behind it. *)
Definition conv_width (c : conv) : Z := match c with CWide w _ => w | _ => 0 end.
Definition conv_field (c : conv) : cstr := match c with CWide _ z => print_int (sext 32 z) | _ => conv_text c end.

Lemma vxprintf_conv fuel st c r ap : conv_ok c ->
  vxprintf func mem real_text (S fuel) false st (37 :: conv_fmt c ++ r) (conv_args c ++ ap) =
    (let! k := put_field func (snk st) false (conv_width c) (conv_field c) in
     let n := Z.of_nat (length (conv_field c)) in
     vxprintf func mem real_text fuel false
       (State k (count st + Z.max 0 (conv_width c - n) + n) (stores st ++ [])) r ap).
Proof.
  intros Hok. destruct c as [z|w z|z|s|s|s|].
  - cbn -[convert put_field print_int sext]. unfold convert. cbn -[convert_radix put_field print_int sext].
    change (EtInfo 100 10 1 etRADIX 0 0) with info_d. by rewrite convert_d.
  - destruct Hok as [Hw Hw2]. unfold etBUFSIZE in Hw2. cbn [conv_fmt conv_args app conv_width conv_field].
    destruct (print_uint_cons w ltac:(lia)) as (c0 & t0 & Hp & _).
    remember ((print_uint w ++ [100]) ++ r) as X eqn:HX.
    cbn [vxprintf]. change (37 =? 37) with true. cbv iota. cbn [rbind].
    destruct X as [|x X]; [by rewrite Hp in HX|]. rewrite HX, <- app_assoc.
    rewrite parse_flags_digit by lia. unfold parse_width.
    assert ((hd 0 (print_uint w ++ [100] ++ r) =? 42) = false) as ->.
    { destruct (digits_rev_lead 20 w ltac:(lia)) as (d & t & Hd & Hr). unfold print_uint. rewrite Hd. cbn. apply Z.eqb_neq. lia. }
    rewrite parse_decimal_print by (done || lia). cbn [rbind with_width width].
    rewrite (proj2 (Z.ltb_ge _ _)) by (unfold etBUFSIZE; lia).
    cbn -[convert put_field print_int sext]. unfold convert. cbn -[convert_radix put_field print_int sext].
    change (EtInfo 100 10 1 etRADIX 0 0) with info_d. by rewrite convert_d.
  - cbn -[convert put_field print_uint wrap]. unfold convert. cbn -[convert_radix put_field print_uint wrap].
    change (EtInfo 117 10 0 etRADIX 0 0) with info_u. by rewrite convert_u.
  - done.
  - cbn -[convert put_field mbind]. unfold convert. cbn -[convert_sql put_field mbind]. by rewrite convert_sql_fits.
  - cbn -[convert put_field mbind]. unfold convert. cbn -[convert_sql put_field mbind]. by rewrite convert_sql_fits.
  - done.
Qed.

(** A format: literal text and a conversion, repeated, then literal text. *)
Fixpoint format_of (segs : list (cstr * conv)) (last : cstr) : cstr :=
  match segs with
  | [] => last
  | (l, c) :: segs' => l ++ 37 :: conv_fmt c ++ format_of segs' last
  end.
Fixpoint args_of (segs : list (cstr * conv)) : list (va double) :=
  match segs with
  | [] => []
  | (_, c) :: segs' => conv_args c ++ args_of segs'
  end.
Fixpoint text_of (segs : list (cstr * conv)) (last : cstr) : cstr :=
  match segs with
  | [] => last
  | (l, c) :: segs' => l ++ conv_text c ++ text_of segs' last
  end.

Definition literal_ok (l : cstr) : Prop := Forall (fun c => c <> 37) l.
Definition seg_ok (s : cstr * conv) : Prop := literal_ok s.1 /\ conv_ok s.2.

Lemma literal_app l r : literal_ok l -> hd 37 r = 37 -> literal (l ++ r) = (l, r).
Proof.
  intros Hl Hr. induction Hl as [|c l Hc Hl IH]; cbn [app].
  - destruct r as [|c r]; [done|]. cbn in Hr. by subst.
  - cbn. by rewrite (proj2 (Z.eqb_neq _ _)), IH.
Qed.

Lemma vxprintf_unfold fuel ext st fmt ap l r : literal fmt = (l, r) -> l <> [] ->
  vxprintf func mem real_text (S fuel) ext st fmt ap =
    (let! k := func (snk st) l in
     vxprintf func mem real_text (S fuel) ext (State k (count st + Z.of_nat (length l)) (stores st)) r ap).
Proof.
  intros Hl Hne. destruct fmt as [|c fmt]; [by simplify_eq/=|].
  assert (hd 37 r = 37) as Hr.
  { clear -Hl. revert l Hl. generalize (c :: fmt) as f. induction f as [|d f IH]; intros l Hl; [by simplify_eq/=|].
    cbn in Hl. destruct (d =? 37) eqn:E; [apply Z.eqb_eq in E; by simplify_eq/=|].
    destruct (literal f) as [l' r'] eqn:E2. simplify_eq. by eapply IH. }
  cbn [vxprintf]. destruct (c =? 37) eqn:E; [cbn in Hl; rewrite E in Hl; injection Hl as <- <-; by destruct Hne|].
  rewrite Hl, rbind_assoc. destruct (func (snk st) l) as [k| |]; [cbn [rbind]|done|done].
  destruct r as [|d r]; [done|]. cbn in Hr. subst d. change (37 =? 37) with true. cbv iota. by cbn [rbind].
Qed.

Lemma conv_text_length c : conv_ok c ->
  conv_text c = replicate (Z.to_nat (conv_width c - Z.of_nat (length (conv_field c)))) 32 ++ conv_field c.
Proof.
  destruct c; intros _; cbn [conv_width conv_field]; try done;
    (replace (Z.to_nat _) with 0%nat by lia; done).
Qed.

Lemma vxprintf_segments segs last : Forall seg_ok segs -> literal_ok last ->
  forall fuel k t n sts, (length segs < fuel)%nat -> holds k t ->
  exists k' sts', vxprintf func mem real_text fuel false (State k n sts) (format_of segs last) (args_of segs) =
      Ok (State k' (n + Z.of_nat (length (text_of segs last))) sts', n + Z.of_nat (length (text_of segs last))) /\
    holds k' (t ++ text_of segs last).
Proof.
  intros Hs Hlast. induction Hs as [|[l c] segs [Hl Hc] Hs IH]; intros fuel k t n sts Hf Hk;
    (destruct fuel as [|fuel]; [cbn in Hf; lia|]); cbn [fst snd] in *.
  - cbn [format_of args_of text_of]. destruct last as [|d last].
    { exists k, sts. cbn. rewrite app_nil_r, Z.add_0_r. done. }
    remember (d :: last) as w eqn:Hw.
    rewrite (vxprintf_unfold _ _ _ _ _ w []) by (by rewrite <- (app_nil_r w) at 1; apply literal_app || by subst).
    destruct (collects k t w Hk) as (k1 & Hk1 & Hh1). cbn [snk]. rewrite Hk1. by exists k1, sts.
  - cbn [format_of args_of text_of].
    assert (exists k1, holds k1 (t ++ l) /\
      vxprintf func mem real_text (S fuel) false (State k n sts) (l ++ 37 :: conv_fmt c ++ format_of segs last)
        (conv_args c ++ args_of segs) =
      vxprintf func mem real_text (S fuel) false (State k1 (n + Z.of_nat (length l)) sts)
        (37 :: conv_fmt c ++ format_of segs last) (conv_args c ++ args_of segs)) as (k1 & Hk1 & ->).
    { destruct l as [|d l]; [exists k; cbn [length app]; rewrite app_nil_r, Z.add_0_r; done|].
      remember (d :: l) as w eqn:Hw. destruct (collects k t w Hk) as (k1 & Hf1 & Hh1). exists k1. split; [done|].
      rewrite (vxprintf_unfold _ _ _ _ _ w (37 :: conv_fmt c ++ format_of segs last));
        [|by apply literal_app|by subst]. cbn [snk]. by rewrite Hf1. }
    rewrite vxprintf_conv by done. cbn [snk].
    destruct (put_field_holds k1 (t ++ l) (conv_width c) (conv_field c) Hk1) as (k2 & -> & Hk2).
    { destruct c; cbn in *; unfold etBUFSIZE in *; lia. }
    cbn [rbind count stores]. rewrite <- conv_text_length in Hk2 by done.
    destruct (IH fuel k2 _ (n + Z.of_nat (length l) +
      Z.max 0 (conv_width c - Z.of_nat (length (conv_field c))) + Z.of_nat (length (conv_field c))) (sts ++ [])
      ltac:(cbn in Hf; lia) Hk2) as (k' & sts' & -> & Hk').
    exists k', sts'. rewrite <- !app_assoc in Hk'. split; [|done].
    assert (n + Z.of_nat (length l) + Z.max 0 (conv_width c - Z.of_nat (length (conv_field c))) +
      Z.of_nat (length (conv_field c)) + Z.of_nat (length (text_of segs last)) =
      n + Z.of_nat (length (l ++ conv_text c ++ text_of segs last))) as ->; [|done].
    rewrite (conv_text_length c) by done. rewrite !length_app, length_replicate. lia.
Qed.

End loop.

Lemma mprintf_start junk (zInit : list Z) xr : (0 < length zInit)%nat ->
  mout junk (fun _ => true) (SgMprintf (Some zInit) false 0 0 (length zInit) xr) [] =
    Ok (SgMprintf (Some (0 :: tl zInit)) false 0 0 (length zInit) xr).
Proof.
  intros Hl. unfold mout. cbn [length nAlloc nChar Nat.add]. rewrite (proj2 (Nat.ltb_ge _ _)) by lia. cbn [rbind].
  destruct zInit as [|z zInit]; [cbn in Hl; lia|]. done.
Qed.

Lemma format_fuel segs last : (length segs < S (length (format_of segs last)))%nat.
Proof. induction segs as [|[l c] segs IH]; cbn; [lia|]. rewrite length_app. cbn. rewrite length_app. lia. Qed.

Lemma sql_nonzero t s : Forall (fun c => c <> 0) s -> Forall (fun c => c <> 0) (s ≫= sql_char t).
Proof.
  induction 1 as [|c s Hc Hs IH]; [constructor|]. cbn [mbind list_bind]. apply Forall_app. split; [|done].
  unfold sql_char. repeat case_match; repeat constructor; done.
Qed.

Lemma vmprintf_text {double} junk (real_text : et_info -> spec -> double -> cstr) segs last :
  Forall seg_ok segs -> literal_ok last ->
  exists block, agc_vmprintf junk (fun _ => true) real_text (format_of segs last) (args_of segs) = Ok (Some block) /\
    terminated block (text_of segs last).
Proof.
  intros Hs Hl. unfold agc_vmprintf, base_vprintf.
  assert (length (junk <$> seq 0 (Z.to_nat etBUFSIZE)) = 350%nat) as H350 by (by rewrite length_fmap, length_seq).
  rewrite mprintf_start by lia. cbn [rbind]. rewrite H350.
  assert (grows junk (SgMprintf (Some (0 :: tl (junk <$> seq 0 (Z.to_nat etBUFSIZE)))) false 0 0 350 true) []) as Hg.
  { split; [done|done|]. eexists. split; [done|]. cbn [app length nAlloc].
    destruct (junk <$> seq 0 (Z.to_nat etBUFSIZE)); [done|]. cbn in *. lia. }
  pose proof (format_fuel segs last) as Hf.
  destruct (vxprintf_segments (mout junk (fun _ => true)) (grows junk) (fun _ => true) real_text (fun _ => eq_refl)
    segs last Hs Hl _ _ _ 0 [] Hf Hg) as (sM & sts & -> & [Hr Hc (rest & Ht & Ha)]). cbn [rbind snk app] in *.
  unfold alloc. destruct (heap sM); cbn [negb].
  - destruct (nChar sM + 10 <? nAlloc sM)%nat.
    + rewrite Ht, Hc. destruct (realloc_text junk (text_of segs last ++ [0]) rest (length (text_of segs last) + 1))
        as (r & Hre & Hlen); [rewrite length_app; cbn; lia|].
      rewrite <- (app_assoc _ [0] rest) in Hre. rewrite <- (app_assoc _ [0] r) in Hre. cbn [app] in Hre. rewrite Hre.
      eexists. split; [done|]. by exists r.
    + rewrite Ht. eexists. split; [done|]. by exists rest.
  - rewrite Ht, Hc.
    replace (length (text_of segs last) + 1)%nat with (length (text_of segs last ++ [0])) by (by rewrite length_app).
    destruct (alloc_copy junk (text_of segs last ++ [0]) rest (length (text_of segs last ++ [0]))) as (b & Hb & _); [lia|].
    rewrite <- (app_assoc _ [0] rest) in Hb. rewrite <- (app_assoc _ [0] b) in Hb. cbn [app] in Hb.
    destruct (blit (junk <$> _) 0 _) as [b0| |]; [cbn [rbind] in *|done|done]. simplify_eq.
    eexists. split; [done|]. by exists b.
Qed.

End MprintfProof.

Import Mprintf MprintfProof.

(** C39: [agc_vmprintf] of any format made of literal text and [%d], [%u],
    [%s], [%q], [%Q] and [%%] conversions, the first with or without a field
    width, returns a block of its own that holds the text the format stands
    for, terminated, however long it is. *)
Theorem agc_vmprintf_text {double} junk (real_text : et_info -> spec -> double -> cstr) segs last :
  Forall seg_ok segs -> literal_ok last ->
  exists block, agc_vmprintf junk (fun _ => true) real_text (format_of segs last) (args_of segs) = Ok (Some block) /\
    terminated block (text_of segs last).
Proof. apply vmprintf_text. Qed.

Lemma agc_vmprintf_text_witness :
  exists block, agc_vmprintf (fun _ => 170) (fun _ => true) (fun _ _ (_ : Z) => [])
      (bytes_of "id=%d, n=%5d%% q=%q.") [VInt (-7); VInt 42; VStr (Some (bytes_of "it's"))] = Ok (Some block) /\
    terminated block (bytes_of "id=-7, n=   42% q=it''s.").
Proof.
  apply (agc_vmprintf_text (fun _ => 170) (fun _ _ (_ : Z) => [])
    [(bytes_of "id=", CInt (-7)); (bytes_of ", n=", CWide 5 42); ([], CPercent); (bytes_of " q=", CSql (bytes_of "it's"))]
    (bytes_of ".")).
  - repeat constructor; vm_compute; discriminate.
  - repeat constructor; vm_compute; discriminate.
Defined.

(** C40: A string written with [%Q], or with [%q] between quotes, reads back
    as one SQL literal with that very value, whatever the string is: it cannot
    end the literal and the text behind it is untouched. *)
Theorem agc_vmprintf_sql_literal {double} junk (real_text : et_info -> spec -> double -> cstr) s rest :
  Forall (fun c => c <> 0) s -> hd 0 rest <> 39 ->
  exists b1 b2 t1 t2,
    agc_vmprintf junk (fun _ => true) real_text (bytes_of "%Q") [VStr (Some s)] = Ok (Some b1) /\
    agc_vmprintf junk (fun _ => true) real_text (bytes_of "'%q'") [VStr (Some s)] = Ok (Some b2) /\
    cstring b1 = 39 :: t1 /\ cstring b2 = 39 :: t2 /\
    sql_read (t1 ++ rest) = Some (s, rest) /\ sql_read (t2 ++ rest) = Some (s, rest).
Proof.
  intros Hs Hr.
  destruct (vmprintf_text junk real_text [([], CSqlQuoted s)] []) as (b1 & H1 & r1 & ->);
    [by repeat constructor|constructor|].
  destruct (vmprintf_text junk real_text [([39], CSql s)] [39]) as (b2 & H2 & r2 & ->);
    [by repeat constructor|by repeat constructor|].
  assert (forall t, Forall (fun c => c <> 0) (s ≫= sql_char t)) as Hz by (intros; by apply sql_nonzero).
  exists ((39 :: (s ≫= sql_char etSQLESCAPE2) ++ [39]) ++ 0 :: r1), ((39 :: (s ≫= sql_char etSQLESCAPE) ++ [39]) ++ 0 :: r2),
    ((s ≫= sql_char etSQLESCAPE2) ++ [39]), ((s ≫= sql_char etSQLESCAPE) ++ [39]).
  cbn [text_of conv_text app] in H1, H2. rewrite app_nil_r in H1.
  split_and!; [exact H1|exact H2| | | |].
  1,2: apply cstring_text; constructor; [done|]; apply Forall_app; split; [apply Hz|by repeat constructor].
  1,2: rewrite <- app_assoc; apply sql_read_doubled; auto.
Qed.

Lemma agc_vmprintf_sql_literal_witness :
  exists b1 b2 t1 t2,
    agc_vmprintf (fun _ => 170) (fun _ => true) (fun _ _ (_ : Z) => []) (bytes_of "%Q") [VStr (Some (bytes_of "x'; drop--"))] = Ok (Some b1) /\
    agc_vmprintf (fun _ => 170) (fun _ => true) (fun _ _ (_ : Z) => []) (bytes_of "'%q'") [VStr (Some (bytes_of "x'; drop--"))] = Ok (Some b2) /\
    cstring b1 = 39 :: t1 /\ cstring b2 = 39 :: t2 /\
    sql_read (t1 ++ bytes_of ";") = Some (bytes_of "x'; drop--", bytes_of ";") /\
    sql_read (t2 ++ bytes_of ";") = Some (bytes_of "x'; drop--", bytes_of ";").
Proof.
  apply (agc_vmprintf_sql_literal (fun _ => 170) (fun _ _ (_ : Z) => []) (bytes_of "x'; drop--") (bytes_of ";")).
  - repeat constructor; vm_compute; discriminate.
  - vm_compute. discriminate.
Defined.

(** [agc_snprintfv] into a buffer of at least one byte stays inside it
    and leaves the terminated beginning of the text, as much of it as fits. *)
Theorem agc_snprintfv_cuts {double} junk (real_text : et_info -> spec -> double -> cstr) zBuf segs last :
  (0 < length zBuf)%nat -> Forall seg_ok segs -> literal_ok last ->
  exists block, agc_snprintfv junk (fun _ => true) real_text zBuf (format_of segs last) (args_of segs) = Ok (Some block) /\
    length block = length zBuf /\ terminated block (take (length zBuf - 1) (text_of segs last)).
Proof.
  intros Hn Hs Hl. unfold agc_snprintfv, base_vprintf. rewrite mprintf_start by done. cbn [rbind].
  assert (cuts (length zBuf) (SgMprintf (Some (0 :: tl zBuf)) false 0 0 (length zBuf) false) []) as Hg.
  { split; [done|done|by rewrite take_nil|]. exists (tl zBuf). rewrite take_nil. split; [done|].
    cbn [app]. destruct zBuf; [cbn in Hn; lia|done]. }
  destruct (vxprintf_segments (mout junk (fun _ => true)) (cuts (length zBuf)) (fun _ => true) real_text (fun _ => eq_refl)
    segs last Hs Hl _ _ _ 0 [] (format_fuel segs last) Hg) as (sM & sts & -> & [_ _ _ (rest & Ht & Hlen)]).
  cbn [rbind snk app] in *. rewrite Ht. eexists. split; [done|]. split; [done|]. by exists rest.
Qed.

Lemma agc_snprintfv_cuts_witness :
  exists block, agc_snprintfv (fun _ => 170) (fun _ => true) (fun _ _ (_ : Z) => []) (replicate 6 255)
      (bytes_of "key-%d!") [VInt 12345] = Ok (Some block) /\
    length block = 6%nat /\ terminated block (bytes_of "key-1").
Proof.
  apply (agc_snprintfv_cuts (fun _ => 170) (fun _ _ (_ : Z) => []) (replicate 6 255) [(bytes_of "key-", CInt 12345)] (bytes_of "!")).
  - vm_compute. lia.
  - repeat constructor; vm_compute; discriminate.
  - repeat constructor; vm_compute; discriminate.
Defined.
