(* ===== verification/SqlPool.v ===== *)
(** * The pool of database handles

    [src/src/agc_sql.c]: acquiring and releasing handles, and the execution of
    long scripts in pieces.  A handle's mutex is nested: its owner may lock it
    again.  The ODBC calls, the hash of a thread's name and the clock are
    parameters; the names kept for the log ([creator], [last_user]) and the
    never used [flags] are left out.  The [uint32_t] counters wrap. *)

From stdpp Require Import base list strings.
From Stdlib Require Import ZArith Lia.
From S2P Require Import Prelude CString Event.

Module Sql.
Import Ev.

Definition AGC_MAX_SQL_LEN : nat := Z.to_nat 32768.

(** [struct agc_sql_handle]: its address, and the state of its mutex (the
    thread that holds it and how often). *)
Record agc_sql_handle := SqlHandle {
  addr : Z;
  db_handle : Z;
  last_used : Z;
  owner : Z;
  depth : nat;
  thread_hash : Z;
  use_count : Z;
  total_used_count : Z }.

(** The statics. *)
Record sql_pool := SqlPool {
  handle_pool : list agc_sql_handle;
  total_handles : Z;
  total_used_handles : Z;
  next_addr : Z }.

Definition agc_sql_start : sql_pool := SqlPool [] 0 0 1.

(** [agc_mutex_trylock] on a nested mutex. *)
Definition can_lock (self : Z) (h : agc_sql_handle) : bool := (depth h =? 0)%nat || (owner h =? self).

Section pool.
Context (hash : Z -> Z).

(** What [get_freehandle] does to the handle it found. *)
Definition take_handle (self : Z) (h : agc_sql_handle) : agc_sql_handle :=
  SqlHandle (addr h) (db_handle h) (last_used h) self (S (depth h)) (hash self) (wrap 32 (use_count h + 1)) (wrap 64 (total_used_count h + 1)).

(** The first handle that satisfies [P], updated. *)
Fixpoint find_handle (P : agc_sql_handle -> bool) (f : agc_sql_handle -> agc_sql_handle) (l : list agc_sql_handle)
    : option (agc_sql_handle * list agc_sql_handle) :=
  match l with
  | [] => None
  | h :: l' =>
      if P h then Some (f h, f h :: l')
      else match find_handle P f l' with Some (r, l'') => Some (r, h :: l'') | None => None end
  end.

(** [get_freehandle]: a handle the thread used last and that is free, else the
    first one that can be locked. *)
Definition get_freehandle (self : Z) (p : sql_pool) : option (agc_sql_handle * sql_pool) :=
  let r :=
    match find_handle (fun h => (thread_hash h =? hash self) && (use_count h =? 0) && can_lock self h)
            (take_handle self) (handle_pool p) with
    | Some r => Some r
    | None => find_handle (can_lock self) (take_handle self) (handle_pool p)
    end in
  match r with
  | Some (h, l) => Some (h, SqlPool l (total_handles p) (wrap 32 (total_used_handles p + 1)) (next_addr p))
  | None => None
  end.

(** [create_handle] and [add_handle]: a handle locked by its creator, in front
    of the pool. *)
Definition create_handle (odbc_dbh : Z) (p : sql_pool) : agc_sql_handle :=
  SqlHandle (next_addr p) odbc_dbh 0 0 0 0 0 0.
Definition add_handle (self : Z) (dbh : agc_sql_handle) (p : sql_pool) : agc_sql_handle * sql_pool :=
  let dbh := SqlHandle (addr dbh) (db_handle dbh) (last_used dbh) self (S (depth dbh)) (hash self)
               (wrap 32 (use_count dbh + 1)) (wrap 64 (total_used_count dbh + 1)) in
  (dbh, SqlPool (dbh :: handle_pool p) (wrap 32 (total_handles p + 1)) (wrap 32 (total_used_handles p + 1)) (next_addr p + 1)).

(** [del_handle]: unlinked and uncounted. *)
Fixpoint unlink_handle (a : Z) (l : list agc_sql_handle) : option (list agc_sql_handle) :=
  match l with
  | [] => None
  | h :: l' => if addr h =? a then Some l'
               else match unlink_handle a l' with Some l'' => Some (h :: l'') | None => None end
  end.
Definition del_handle (a : Z) (p : sql_pool) : sql_pool :=
  match unlink_handle a (handle_pool p) with
  | Some l => SqlPool l (wrap 32 (total_handles p - 1)) (total_used_handles p) (next_addr p)
  | None => p
  end.

Definition set_last_used (now a : Z) (p : sql_pool) : sql_pool :=
  SqlPool ((fun h => if addr h =? a then SqlHandle (addr h) (db_handle h) now (owner h) (depth h) (thread_hash h)
                       (use_count h) (total_used_count h) else h) <$> handle_pool p)
    (total_handles p) (total_used_handles p) (next_addr p).

(** The condition [_agc_sql_get_handle] waits on. *)
Definition exhausted (max_db_handles : Z) (p : sql_pool) : bool :=
  negb (max_db_handles =? 0) && (max_db_handles <=? total_handles p)
    && (total_handles p <=? total_used_handles p).

(** The waiting loop; [pools i] is the pool as the [i]-th turn sees it.  Only
    the first turn yields and looks at the timeout. *)
Fixpoint wait_handle (fuel : nat) (max_db_handles timeout : Z) (pools : nat -> sql_pool)
    (i waiting : nat) (total_yield : Z) : result bool :=
  match fuel with
  | O => OutOfFuel
  | S fuel' =>
      if exhausted max_db_handles (pools i) then
        if (waiting =? 0)%nat then
          let total_yield := wrap 32 (total_yield + 100000) in
          if negb (timeout =? 0) && (timeout <? total_yield) then Ok false
          else wait_handle fuel' max_db_handles timeout pools (S i) (S waiting) total_yield
        else wait_handle fuel' max_db_handles timeout pools (S i) (S waiting) total_yield
      else Ok true
  end.

(** [_agc_sql_get_handle] behind its wait.  [odbc_new] is what
    [agc_odbc_handle_new] returned (zero for null), [connected] whether the
    connection was made, [mem] whether a memory pool could be created. *)
Definition agc_sql_get_handle (now self odbc_new : Z) (connected mem : bool) (p : sql_pool)
    : sql_pool * option Z * agc_status :=
  match get_freehandle self p with
  | Some (h, p) => (set_last_used now (addr h) p, Some (addr h), AGC_STATUS_SUCCESS)
  | None =>
      if negb (odbc_new =? NULL) && negb connected then (p, None, AGC_STATUS_FALSE)
      else if negb mem then (p, None, AGC_STATUS_FALSE)
      else
        let (h, p) := add_handle self (create_handle odbc_new p) p in
        (set_last_used now (addr h) p, Some (addr h), AGC_STATUS_SUCCESS)
  end.

End pool.

(** [agc_sql_release_handle]; the mutex is unlocked once. *)
Definition release1 (now : Z) (h : agc_sql_handle) : agc_sql_handle :=
  let uc := if use_count h =? 0 then 0 else use_count h - 1 in
  SqlHandle (addr h) (db_handle h) now (owner h) (depth h - 1)
    (if negb (use_count h =? 0) && (uc =? 0) then 1 else thread_hash h) uc (total_used_count h).
Definition agc_sql_release_handle (now : Z) (a : Z) (p : sql_pool) : sql_pool :=
  SqlPool ((fun h => if addr h =? a then release1 now h else h) <$> handle_pool p)
    (total_handles p) (wrap 32 (total_used_handles p - 1)) (next_addr p).

(** ** Long scripts *)

Section execute.
(** What the [i]-th call of [agc_odbc_handle_exec] returns for a statement: its
    status and the error message, if any. *)
Context (odbc_exec : nat -> cstr -> agc_status * option cstr).

(** [execute_sql_real]: the message goes to the caller that asked for it
    ([err] is not null), else it is dropped. *)
Definition execute_sql_real (i : nat) (sql : cstr) (err : bool) : agc_status * option cstr :=
  let (status, errmsg) := odbc_exec i sql in
  (status, if err then errmsg else None).

(** The inner loop: from [p] down to [s], the place behind a semicolon and a
    line feed. *)
Fixpoint find_break (sql : cstr) (s : nat) (p : nat) : option nat :=
  match p with
  | O => None
  | S p' =>
      if (p <=? s)%nat then None
      else if (nth p sql 0 =? 10) && (nth p' sql 0 =? 59) then Some (S p)
      else find_break sql s p'
  end.

(** The piece from [s] up to the semicolon before [p]. *)
Definition piece (sql : cstr) (s p : nat) : cstr := take (p - 2 - s) (drop s sql).

(** The outer loop; [e] is the index of the last character, [done] the pieces
    executed so far. *)
Fixpoint execute_pieces (fuel : nat) (sql : cstr) (err : bool) (e s : nat) (status : agc_status) (done : list cstr)
    : result (agc_status * option cstr * list cstr) :=
  match fuel with
  | O => OutOfFuel
  | S fuel' =>
      if (e <=? s)%nat then Ok (status, None, done)
      else
        match find_break sql s (Nat.min (s + AGC_MAX_SQL_LEN) e) with
        | None => Ok (status, None, done)
        | Some p =>
            let q := piece sql s p in
            let (status, errmsg) := execute_sql_real (length done) q err in
            if bool_decide (status <> AGC_STATUS_SUCCESS) || bool_decide (errmsg <> None)
            then Ok (status, errmsg, done ++ [q])
            else execute_pieces fuel' sql err e p status (done ++ [q])
        end
  end.

(** [agc_sql_execute_sql]: the status, the error, and the pieces executed. *)
Definition agc_sql_execute_sql (sql : cstr) (err : bool) : result (agc_status * option cstr * list cstr) :=
  if (length sql <? AGC_MAX_SQL_LEN)%nat
  then let (status, errmsg) := execute_sql_real 0 sql err in Ok (status, errmsg, [sql])
  else execute_pieces (S (length sql)) sql err (length sql - 1) 0 AGC_STATUS_FALSE [].

(** [agc_sql_persistant_execute]: tries again while there is an error; also
    the number of attempts. *)
Fixpoint persist (retries : nat) (sql : cstr) (i : nat) : agc_status * nat :=
  match retries with
  | O => (AGC_STATUS_FALSE, i)
  | S r => match snd (execute_sql_real i sql true) with
           | Some _ => persist r sql (S i)
           | None => (AGC_STATUS_SUCCESS, S i)
           end
  end.
Definition agc_sql_persistant_execute (sql : cstr) (retries : nat) : agc_status * nat :=
  persist (if (retries =? 0)%nat then 1000 else retries) sql 0.

End execute.
End Sql.
