(* ===== verification/SqlPoolProof.v ===== *)
(** * The pool of database handles: its invariant

    [src/src/agc_sql.c]: no handle is held by two threads, the counters count,
    and threads that acquire one after the other never create more handles
    than allowed. *)

From stdpp Require Import base list strings relations.
From Stdlib Require Import ZArith Lia.
From S2P Require Import Prelude CString Event SqlPool.

Module SqlProof.
Import Ev Sql.

(** ** Interleaved use of the pool

    A state is the pool and the list of acquisitions not yet released, each a
    thread and the address of a handle.  The steps are the critical sections
    of [dbh_mutex]; threads interleave between them. *)
Definition holds (a : Z) (held : list (Z * Z)) : nat := length (filter (fun x => x.2 = a) held).

Section steps.
Context (hash : Z -> Z).

Inductive step : sql_pool * list (Z * Z) -> sql_pool * list (Z * Z) -> Prop :=
  | step_reuse now self h p p' held :
      get_freehandle hash self p = Some (h, p') -> Z.of_nat (length held) + 1 < 2 ^ 32 ->
      step (p, held) (set_last_used now (addr h) p', (self, addr h) :: held)
  | step_add now self odbc h p p' held :
      add_handle hash self (create_handle odbc p) p = (h, p') -> Z.of_nat (length held) + 1 < 2 ^ 32 ->
      step (p, held) (set_last_used now (addr h) p', (self, addr h) :: held)
  | step_release now self a p l1 l2 :
      step (p, l1 ++ (self, a) :: l2) (agc_sql_release_handle now a p, l1 ++ l2).

(** Threads that acquire one after the other, each waiting for its turn: the
    whole of [_agc_sql_get_handle] in one step. *)
Inductive seq_step (max : Z) : sql_pool * list (Z * Z) -> sql_pool * list (Z * Z) -> Prop :=
  | seq_get now self odbc connected mem p p' a held :
      exhausted max p = false ->
      agc_sql_get_handle hash now self odbc connected mem p = (p', Some a, AGC_STATUS_SUCCESS) ->
      Z.of_nat (length held) + 1 < 2 ^ 32 ->
      seq_step max (p, held) (p', (self, a) :: held)
  | seq_get_fails now self odbc connected mem p p' held :
      exhausted max p = false ->
      agc_sql_get_handle hash now self odbc connected mem p = (p', None, AGC_STATUS_FALSE) ->
      seq_step max (p, held) (p', held)
  | seq_release now self a p l1 l2 :
      seq_step max (p, l1 ++ (self, a) :: l2) (agc_sql_release_handle now a p, l1 ++ l2).

(** ** The invariant *)

(** What a handle's fields say of the acquisitions. *)
Record handle_ok (held : list (Z * Z)) (h : agc_sql_handle) : Prop := {
  ok_depth : depth h = holds (addr h) held;
  ok_count : use_count h = Z.of_nat (depth h);
  ok_owner : forall t, (t, addr h) ∈ held -> t = owner h;
  ok_hash : use_count h = 0 -> thread_hash h = 1 }.

Record pool_ok (p : sql_pool) (held : list (Z * Z)) : Prop := {
  po_nodup : NoDup (addr <$> handle_pool p);
  po_handles : Forall (handle_ok held) (handle_pool p);
  po_fresh : Forall (fun h => addr h < next_addr p) (handle_pool p);
  po_held : Forall (fun x => x.2 ∈ addr <$> handle_pool p) held;
  po_total : total_handles p = wrap 32 (Z.of_nat (length (handle_pool p)));
  po_used : total_used_handles p = wrap 32 (Z.of_nat (length held));
  po_bound : Z.of_nat (length held) < 2 ^ 32 }.

(** ** One handle updated *)

Definition upd (a : Z) (f : agc_sql_handle -> agc_sql_handle) (l : list agc_sql_handle) : list agc_sql_handle :=
  (fun h => if addr h =? a then f h else h) <$> l.

Lemma upd_notin a f l : a ∉ addr <$> l -> upd a f l = l.
Proof.
  induction l as [|h l IH]; cbn; [done|]. rewrite not_elem_of_cons. intros [Hh Hl].
  destruct (Z.eqb_spec (addr h) a); [congruence|]. unfold upd in IH. by rewrite IH.
Qed.

Lemma upd_addr a f l : (forall h, addr (f h) = addr h) -> addr <$> upd a f l = addr <$> l.
Proof.
  intros Hf. unfold upd. rewrite <- list_fmap_compose. apply list_fmap_ext. intros _ h _. cbn.
  destruct (addr h =? a); auto.
Qed.

Lemma find_handle_upd P f l r l' :
  NoDup (addr <$> l) -> find_handle P f l = Some (r, l') ->
  exists h, h ∈ l /\ P h = true /\ r = f h /\ l' = upd (addr h) f l.
Proof.
  revert r l'. induction l as [|h l IH]; cbn; [done|]. intros r l' [Hn Hd]%NoDup_cons.
  destruct (P h) eqn:E.
  - intros [= <- <-]. exists h. rewrite Z.eqb_refl.
    change ((fun h0 => if addr h0 =? addr h then f h0 else h0) <$> l) with (upd (addr h) f l).
    rewrite upd_notin by done. split_and!; try done. constructor.
  - destruct (find_handle P f l) as [[r' l'']|] eqn:Ef; [|done]. intros [= <- <-].
    destruct (IH _ _ Hd eq_refl) as (h' & Hin & HP & -> & ->). exists h'.
    destruct (Z.eqb_spec (addr h) (addr h')) as [Heq|].
    + destruct Hn. rewrite Heq. by apply list_elem_of_fmap_2.
    + split_and!; try done. by constructor.
Qed.

Lemma NoDup_fmap_addr l h1 h2 : NoDup (addr <$> l) -> h1 ∈ l -> h2 ∈ l -> addr h1 = addr h2 -> h1 = h2.
Proof.
  intros Hd [i Hi]%list_elem_of_lookup [j Hj]%list_elem_of_lookup He.
  assert (i = j) as ->; [|congruence].
  eapply NoDup_lookup; [exact Hd|..]; rewrite list_lookup_fmap; [by rewrite Hi|by rewrite Hj, He].
Qed.

Lemma find_handle_None P f l : find_handle P f l = None -> Forall (fun h => P h = false) l.
Proof.
  induction l as [|h l IH]; cbn; [constructor|]. destruct (P h) eqn:E; [done|].
  destruct (find_handle P f l) as [[]|]; [done|]. constructor; auto.
Qed.

Lemma holds_cons_ne a t b held : a <> b -> holds a ((t, b) :: held) = holds a held.
Proof. intros H. unfold holds. by rewrite filter_cons_False by (cbn; congruence). Qed.

Lemma holds_cons_eq a t held : holds a ((t, a) :: held) = S (holds a held).
Proof. unfold holds. by rewrite filter_cons_True. Qed.

Lemma holds_pos t a held : (t, a) ∈ held -> (0 < holds a held)%nat.
Proof.
  intros H. unfold holds. assert (Hf : (t, a) ∈ filter (fun x => x.2 = a) held) by (apply list_elem_of_filter; auto).
  destruct (filter _ held); [by apply not_elem_of_nil in Hf|cbn; lia].
Qed.

Lemma holds_le a held : (holds a held <= length held)%nat.
Proof. unfold holds. apply length_filter. Qed.

Lemma holds_perm a l1 l2 : l1 ≡ₚ l2 -> holds a l1 = holds a l2.
Proof. intros H. unfold holds. by rewrite H. Qed.

(** A handle other than the one acquired is not concerned. *)
Lemma handle_ok_other t a held h : addr h <> a -> handle_ok held h -> handle_ok ((t, a) :: held) h.
Proof.
  intros Hne []. split; try done.
  - by rewrite holds_cons_ne.
  - intros t'. rewrite elem_of_cons. intros [[= ? ?]|]; [congruence|auto].
Qed.

(** An update of the handle at [a] keeps the invariant when the new list of
    acquisitions suits every handle. *)
Lemma pool_ok_upd p p' held held' a f :
  pool_ok p held -> (forall h, addr (f h) = addr h) ->
  handle_pool p' = upd a f (handle_pool p) -> total_handles p' = total_handles p -> next_addr p' = next_addr p ->
  total_used_handles p' = wrap 32 (Z.of_nat (length held')) -> Z.of_nat (length held') < 2 ^ 32 ->
  Forall (fun x => x.2 ∈ addr <$> handle_pool p) held' ->
  (forall h, h ∈ handle_pool p -> handle_ok held h -> handle_ok held' (if addr h =? a then f h else h)) ->
  pool_ok p' held'.
Proof.
  intros [] Hf Hp Ht Hn Hu Hb Hh Hok. split; try done.
  - by rewrite Hp, upd_addr.
  - rewrite Hp. unfold upd. apply Forall_fmap, Forall_forall. intros h Hin. cbn.
    rewrite Forall_forall in po_handles0. auto.
  - rewrite Hp, Hn. unfold upd. apply Forall_fmap, Forall_forall. intros h Hin. cbn.
    rewrite Forall_forall in po_fresh0. destruct (addr h =? a); rewrite ?Hf; auto.
  - by rewrite Hp, upd_addr.
  - rewrite Ht, Hp, po_total0. unfold upd. by rewrite length_fmap.
Qed.

(** The time of the last use does not matter. *)
Lemma pool_ok_last_used now a p held : pool_ok p held -> pool_ok (set_last_used now a p) held.
Proof.
  intros H. pose proof H as [].
  eapply (pool_ok_upd p _ held held a (fun h => SqlHandle (addr h) (db_handle h) now (owner h) (depth h)
    (thread_hash h) (use_count h) (total_used_count h))); try done.
  intros h _ Hh. destruct (addr h =? a); [|done]. by destruct Hh.
Qed.

(** Acquiring an existing handle. *)
Lemma handle_ok_take self held h :
  Z.of_nat (length held) + 1 < 2 ^ 32 -> can_lock self h = true -> handle_ok held h ->
  handle_ok ((self, addr h) :: held) (take_handle hash self h).
Proof.
  intros Hb Hl []. pose proof (holds_le (addr h) held).
  assert (Hc : wrap 32 (use_count h + 1) = Z.of_nat (S (depth h))) by (rewrite wrap_small; lia).
  split; cbn [addr depth use_count owner thread_hash take_handle].
  - rewrite holds_cons_eq. lia.
  - done.
  - intros t [[= ->]|Ht]%elem_of_cons; [done|]. pose proof (holds_pos _ _ _ Ht).
    apply orb_true_iff in Hl as [?%Nat.eqb_eq|?%Z.eqb_eq]; [lia|]. rewrite (ok_owner0 t); done.
  - intros. lia.
Qed.

Lemma pool_ok_reuse self p held h p' :
  pool_ok p held -> get_freehandle hash self p = Some (h, p') -> Z.of_nat (length held) + 1 < 2 ^ 32 ->
  pool_ok p' ((self, addr h) :: held).
Proof.
  intros Hp Hg Hb. pose proof Hp as [].
  assert (exists h0, h0 ∈ handle_pool p /\ can_lock self h0 = true /\ addr h = addr h0 /\
    p' = SqlPool (upd (addr h0) (take_handle hash self) (handle_pool p)) (total_handles p)
           (wrap 32 (total_used_handles p + 1)) (next_addr p)) as (h0 & Hin & Hl & -> & ->).
  { revert Hg. unfold get_freehandle. destruct (find_handle (fun h => _) _ _) as [[r l]|] eqn:E1.
    - intros [= <- <-]. apply find_handle_upd in E1 as (h0 & ? & HP & -> & ->); [|done].
      apply andb_true_iff in HP as [? HP]. exists h0. by split_and!.
    - destruct (find_handle (can_lock self) _ _) as [[r l]|] eqn:E2; [|done].
      intros [= <- <-]. apply find_handle_upd in E2 as (h0 & ? & HP & -> & ->); [|done].
      exists h0. by split_and!. }
  eapply (pool_ok_upd p _ held _ (addr h0) (take_handle hash self)); try done; cbn.
  - rewrite po_used0, wrap_add. f_equal. lia.
  - lia.
  - constructor; [|done]. by apply (list_elem_of_fmap_2 addr).
  - intros h' Hin' Hok. destruct (Z.eqb_spec (addr h') (addr h0)) as [He|]; [|by apply handle_ok_other].
    assert (h' = h0) as -> by (eapply NoDup_fmap_addr; eauto). by apply handle_ok_take.
Qed.

(** Adding a handle. *)
Lemma pool_ok_add self odbc p held h p' :
  pool_ok p held -> add_handle hash self (create_handle odbc p) p = (h, p') -> Z.of_nat (length held) + 1 < 2 ^ 32 ->
  pool_ok p' ((self, addr h) :: held).
Proof.
  intros [] [= <- <-] Hb. cbn.
  assert (Hfresh : next_addr p ∉ addr <$> handle_pool p).
  { intros (h & He & Hin)%list_elem_of_fmap. rewrite Forall_forall in po_fresh0. specialize (po_fresh0 h Hin). lia. }
  assert (Hno : forall t, (t, next_addr p) ∉ held).
  { intros t Ht. rewrite Forall_forall in po_held0. by apply Hfresh, (po_held0 _ Ht). }
  split; cbn.
  - by constructor.
  - constructor.
    + split; cbn [addr depth use_count owner thread_hash create_handle]; [|done|..].
      * rewrite holds_cons_eq. f_equal. unfold holds. symmetry. apply length_zero_iff_nil.
        apply elem_of_nil_inv. intros [t a] [Ha Hin]%list_elem_of_filter. cbn in Ha. subst. by apply (Hno t).
      * intros t [[= ->]|Ht]%elem_of_cons; [done|]. by apply Hno in Ht.
      * done.
    + eapply Forall_impl; [apply Forall_and; split; [exact po_handles0|exact po_fresh0]|].
      intros h [? ?]. apply handle_ok_other; [lia|done].
  - constructor; cbn; [lia|]. eapply Forall_impl; [exact po_fresh0|]. intros h; cbn; lia.
  - constructor; [constructor|]. eapply Forall_impl; [exact po_held0|]. intros x; cbn. by constructor.
  - rewrite po_total0, wrap_add. f_equal. lia.
  - rewrite po_used0, wrap_add. f_equal. lia.
  - lia.
Qed.

(** Releasing a handle. *)
Lemma handle_ok_release now self held l h :
  held ≡ₚ (self, addr h) :: l -> handle_ok held h -> handle_ok l (release1 now h).
Proof.
  intros HP []. rewrite (holds_perm _ _ _ HP), holds_cons_eq in ok_depth0.
  assert (Hu : (use_count h =? 0) = false) by (apply Z.eqb_neq; lia).
  split; unfold release1; rewrite Hu; cbn.
  - lia.
  - lia.
  - intros t Ht. apply ok_owner0. rewrite HP. by constructor.
  - intros ->. done.
Qed.

Lemma handle_ok_not_released t a held l h :
  held ≡ₚ (t, a) :: l -> addr h <> a -> handle_ok held h -> handle_ok l h.
Proof.
  intros HP Hne []. split; try done.
  - by rewrite ok_depth0, (holds_perm _ _ _ HP), holds_cons_ne.
  - intros t' Ht. apply ok_owner0. rewrite HP. by constructor.
Qed.

Lemma pool_ok_release now self a p l1 l2 :
  pool_ok p (l1 ++ (self, a) :: l2) -> pool_ok (agc_sql_release_handle now a p) (l1 ++ l2).
Proof.
  intros Hp. pose proof Hp as [].
  assert (HP : l1 ++ (self, a) :: l2 ≡ₚ (self, a) :: (l1 ++ l2)) by (by rewrite Permutation_middle).
  assert (HL : length (l1 ++ (self, a) :: l2) = S (length (l1 ++ l2))) by (by rewrite HP).
  eapply (pool_ok_upd p _ _ _ a (release1 now)); try exact Hp; try done; cbn.
  - rewrite po_used0, HL. change (-1) with (- 1). rewrite <- Z.add_opp_r, wrap_add. f_equal. lia.
  - lia.
  - rewrite HP in po_held0. by inversion po_held0.
  - intros h _ Hok. destruct (Z.eqb_spec (addr h) a) as [<-|].
    + by eapply handle_ok_release.
    + by eapply handle_ok_not_released.
Qed.

(** Every interleaving keeps the invariant. *)
Lemma step_ok s s' : step s s' -> pool_ok s.1 s.2 -> pool_ok s'.1 s'.2.
Proof.
  intros [] Hp; cbn in *.
  - eapply pool_ok_last_used, pool_ok_reuse; eauto.
  - eapply pool_ok_last_used, pool_ok_add; eauto.
  - eapply pool_ok_release; eauto.
Qed.

Lemma start_ok : pool_ok agc_sql_start [].
Proof. split; cbn; repeat constructor. Qed.

Lemma reachable_ok p held : rtc step (agc_sql_start, []) (p, held) -> pool_ok p held.
Proof.
  intros H. change (pool_ok (p, held).1 (p, held).2).
  eapply (rtc_ind_r (fun s => pool_ok s.1 s.2) (agc_sql_start, [])); [apply start_ok| |exact H].
  intros s s' _ Hs. by apply step_ok.
Qed.

(** ** One acquisition after the other *)

Lemma get_freehandle_None self p : get_freehandle hash self p = None -> Forall (fun h => can_lock self h = false) (handle_pool p).
Proof.
  unfold get_freehandle. destruct (find_handle (fun h => _) _ _) as [[]|]; [done|].
  destruct (find_handle _ _ _) as [[]|] eqn:E; [done|]. intros _. by eapply find_handle_None.
Qed.

(** When no handle can be locked, all are in use. *)
Lemma all_locked self p held :
  pool_ok p held -> get_freehandle hash self p = None -> (length (handle_pool p) <= length held)%nat.
Proof.
  intros [] Hg%get_freehandle_None.
  rewrite <- (length_fmap addr), <- (length_fmap snd held). apply submseteq_length, NoDup_submseteq; [done|].
  intros a (h & -> & Hin)%list_elem_of_fmap. rewrite !Forall_forall in *.
  specialize (Hg h Hin). apply orb_false_iff in Hg as [Hd%Nat.eqb_neq _].
  rewrite (ok_depth _ _ (po_handles0 h Hin)) in Hd. unfold holds in Hd.
  destruct (filter _ held) as [|x l] eqn:E; [done|].
  assert (Hx : x ∈ filter (fun x => x.2 = addr h) held) by (rewrite E; constructor).
  apply list_elem_of_filter in Hx as [<- Hx]. by apply list_elem_of_fmap_2.
Qed.

(** The acquisition as a whole is made of steps: it either takes a free handle
    or, when there is none, adds one. *)
Lemma get_handle_steps now self odbc connected mem p p' r st :
  agc_sql_get_handle hash now self odbc connected mem p = (p', r, st) ->
  (r = None /\ p' = p /\ st = AGC_STATUS_FALSE)
  \/ (exists h p1, get_freehandle hash self p = Some (h, p1) /\ p' = set_last_used now (addr h) p1 /\ r = Some (addr h))
  \/ (exists h p1, get_freehandle hash self p = None /\ add_handle hash self (create_handle odbc p) p = (h, p1)
        /\ p' = set_last_used now (addr h) p1 /\ r = Some (addr h)).
Proof.
  unfold agc_sql_get_handle. destruct (get_freehandle hash self p) as [[h p1]|] eqn:E.
  - intros [= <- <- <-]. right; left. eauto 10.
  - destruct (negb _ && negb connected); [intros [= <- <- <-]; by left|].
    destruct (negb mem); [intros [= <- <- <-]; by left|].
    destruct (add_handle _ _ _ _) as [h p1] eqn:Ea. intros [= <- <- <-]. right; right. eauto 10.
Qed.

Lemma seq_step_rtc max s s' : seq_step max s s' -> rtc step s s'.
Proof.
  intros [? ? ? ? ? ? ? ? ? _ Hg Hb|? ? ? ? ? ? ? ? _ Hg|]; [| |apply rtc_once; constructor];
    apply get_handle_steps in Hg as [(? & -> & ?)|[(h & p1 & H1 & -> & ?)|(h & p1 & H0 & H1 & -> & ?)]]; try done; simplify_eq.
  - by apply rtc_once, step_reuse.
  - eapply rtc_once, step_add; eauto.
Qed.

Lemma seq_step_bound max s s' :
  0 < max < 2 ^ 32 -> pool_ok s.1 s.2 -> seq_step max s s' ->
  Z.of_nat (length (handle_pool s.1)) <= max -> Z.of_nat (length (handle_pool s'.1)) <= max.
Proof.
  intros Hmax Hp Hs Hl. destruct Hs as [? ? ? ? ? ? ? ? ? Hx Hg Hb|? ? ? ? ? ? ? ? _ Hg|]; cbn in *;
    [| |by rewrite length_fmap];
    apply get_handle_steps in Hg as [(? & -> & ?)|[(h & p1 & H1 & -> & ?)|(h & p1 & H0 & H1 & -> & ?)]]; try done; simplify_eq.
  - pose proof (pool_ok_reuse _ _ _ _ _ Hp H1 Hb) as Hp1. cbn. rewrite length_fmap.
    revert H1. unfold get_freehandle. pose proof (po_nodup _ _ Hp).
    repeat case_match; intros; simplify_eq; cbn;
      match goal with Hf : find_handle _ _ _ = _ |- _ => apply find_handle_upd in Hf as (? & ? & ? & -> & ->); [|done] end;
      unfold upd; by rewrite length_fmap.
  - injection H1 as <- <-. cbn. rewrite length_fmap. pose proof (all_locked _ _ _ Hp H0) as Hal.
    destruct Hp. unfold exhausted in Hx.
    rewrite po_total0, po_used0, !wrap_small in Hx by lia.
    rewrite !andb_false_iff, negb_false_iff, Z.eqb_eq, !Z.leb_gt in Hx. lia.
Qed.

Lemma seq_reachable max s :
  0 < max < 2 ^ 32 -> rtc (seq_step max) (agc_sql_start, []) s ->
  pool_ok s.1 s.2 /\ Z.of_nat (length (handle_pool s.1)) <= max.
Proof.
  intros Hmax. revert s. apply rtc_ind_r; [split; [apply start_ok|cbn; lia]|].
  intros s s' _ Hs [Hp Hl]. split; [|by eapply seq_step_bound].
  pose proof (seq_step_rtc _ _ _ Hs) as Hr.
  eapply (rtc_ind_r (fun s' => pool_ok s'.1 s'.2) s); [done| |exact Hr]. intros ? ? _ ?. by apply step_ok.
Qed.

End steps.

(** ** Properties of the pool *)

(** C34: The pool of database handles is safe under every interleaving of
    threads that acquire and release: two acquisitions of the same handle
    belong to the same thread, a handle in use cannot be locked by another
    thread, every acquired handle is in the pool, [use_count] is the number of
    acquisitions of the handle, and the two totals of the pool are the number
    of handles and of acquisitions (as [uint32_t]). *)
Theorem agc_sql_pool_exclusive (hash : Z -> Z) (p : sql_pool) (held : list (Z * Z)) :
  rtc (step hash) (agc_sql_start, []) (p, held) ->
  (forall t1 t2 a, (t1, a) ∈ held -> (t2, a) ∈ held -> t1 = t2)
  /\ (forall t a, (t, a) ∈ held -> exists h, h ∈ handle_pool p /\ addr h = a)
  /\ (forall t t' h, (t, addr h) ∈ held -> h ∈ handle_pool p -> t' <> t -> can_lock t' h = false)
  /\ (forall h, h ∈ handle_pool p -> use_count h = Z.of_nat (holds (addr h) held))
  /\ total_handles p = wrap 32 (Z.of_nat (length (handle_pool p)))
  /\ total_used_handles p = Z.of_nat (length held).
Proof.
  intros [? Hh ? Hheld ? Hu ?]%reachable_ok. rewrite Forall_forall in Hh. rewrite Forall_forall in Hheld.
  assert (Hin : forall t a, (t, a) ∈ held -> exists h, h ∈ handle_pool p /\ addr h = a).
  { intros t a Ht. destruct (proj1 (list_elem_of_fmap addr _ _) (Hheld _ Ht)) as (h & ? & ?). by exists h. }
  split_and!; try done.
  - intros t1 t2 a H1 H2. destruct (Hin _ _ H1) as (h & Hp & <-).
    by rewrite (ok_owner _ _ (Hh h Hp) t1 H1), (ok_owner _ _ (Hh h Hp) t2 H2).
  - intros t t' h Ht Hp Hne. pose proof (holds_pos _ _ _ Ht). pose proof (ok_owner _ _ (Hh h Hp) t Ht).
    pose proof (ok_depth _ _ (Hh h Hp)). apply orb_false_iff. rewrite Nat.eqb_neq, Z.eqb_neq. lia.
  - intros h Hp. by rewrite (ok_count _ _ (Hh h Hp)), (ok_depth _ _ (Hh h Hp)).
  - rewrite Hu. apply wrap_small. lia.
Qed.

(** Thread 7 acquires a handle and thread 8 another. *)
Definition pool_after (hash : Z -> Z) : sql_pool :=
  let p1 := set_last_used 100 1 (snd (add_handle hash 7 (create_handle 11 agc_sql_start) agc_sql_start)) in
  set_last_used 101 2 (snd (add_handle hash 8 (create_handle 12 p1) p1)).

Lemma agc_sql_pool_exclusive_witness :
  total_used_handles (pool_after Z.succ) = 2 /\ (forall t, (t, 2) ∈ [(8, 2); (7, 1)] -> t = 8).
Proof.
  assert (H : rtc (step Z.succ) (agc_sql_start, []) (pool_after Z.succ, [(8, 2); (7, 1)])).
  { eapply rtc_l; [eapply (step_add _ 100 7 11 _ agc_sql_start); [reflexivity|cbn; lia]|].
    eapply rtc_l; [eapply (step_add _ 101 8 12); [reflexivity|cbn; lia]|]. apply rtc_refl. }
  pose proof (agc_sql_pool_exclusive Z.succ _ _ H) as (Hex & _ & _ & _ & _ & Hu).
  split; [exact Hu|]. intros t Ht. apply (Hex t 8 2); [done|constructor].
Defined.

(** While threads acquire one after the other, each once the wait of
    [_agc_sql_get_handle] lets it pass, the pool never has more than
    [max_db_handles] handles: a handle is only created when all are in use. *)
Theorem agc_sql_pool_bounded (hash : Z -> Z) (max : Z) (p : sql_pool) (held : list (Z * Z)) :
  0 < max < 2 ^ 32 -> rtc (seq_step hash max) (agc_sql_start, []) (p, held) ->
  Z.of_nat (length (handle_pool p)) <= max /\ total_handles p = Z.of_nat (length (handle_pool p)).
Proof.
  intros Hmax Hr. apply seq_reachable in Hr as [[] Hl]; [|done]. cbn in *. split; [done|].
  rewrite po_total0. apply wrap_small. lia.
Qed.

Lemma agc_sql_pool_bounded_witness :
  exists p, rtc (seq_step Z.succ 1) (agc_sql_start, []) (p, [(7, 1)]) /\ Z.of_nat (length (handle_pool p)) <= 1.
Proof.
  eexists (set_last_used 100 1 (snd (add_handle Z.succ 7 (create_handle 11 agc_sql_start) agc_sql_start))).
  assert (H : rtc (seq_step Z.succ 1) (agc_sql_start, [])
    (set_last_used 100 1 (snd (add_handle Z.succ 7 (create_handle 11 agc_sql_start) agc_sql_start)), [(7, 1)])).
  { apply rtc_once, (seq_get _ 1 100 7 11 true true); [reflexivity|reflexivity|cbn; lia]. }
  split; [exact H|]. exact (proj1 (agc_sql_pool_bounded Z.succ 1 _ _ ltac:(lia) H)).
Defined.

(** The condition of the wait is read outside the mutex, so two threads that
    look at the same time both pass and the bound is not kept. *)
Theorem agc_sql_pool_race :
  exhausted 1 agc_sql_start = false
  /\ get_freehandle Z.succ 7 agc_sql_start = None /\ get_freehandle Z.succ 8 agc_sql_start = None
  /\ exists p held, rtc (step Z.succ) (agc_sql_start, []) (p, held) /\ total_handles p = 2.
Proof.
  split_and!; try done. exists (pool_after Z.succ), [(8, 2); (7, 1)]. split; [|done].
  eapply rtc_l; [eapply (step_add _ 100 7 11 _ agc_sql_start); [reflexivity|cbn; lia]|].
  eapply rtc_l; [eapply (step_add _ 101 8 12); [reflexivity|cbn; lia]|]. apply rtc_refl.
Qed.

(** The search for the handle the thread used last never finds one, as a
    release sets [thread_hash] to one (unless a thread's name hashes to one). *)
Theorem get_freehandle_affinity (hash : Z -> Z) (self : Z) (p : sql_pool) (held : list (Z * Z)) :
  rtc (step hash) (agc_sql_start, []) (p, held) -> hash self <> 1 ->
  forall h, h ∈ handle_pool p -> (thread_hash h =? hash self) && (use_count h =? 0) = false.
Proof.
  intros [? Hh ? ? ? ? ?]%reachable_ok Hne h Hin. rewrite Forall_forall in Hh.
  apply andb_false_iff. destruct (Z.eqb_spec (use_count h) 0) as [E|]; [left|by right].
  rewrite (ok_hash _ _ (Hh h Hin) E). apply Z.eqb_neq. lia.
Qed.

(** With a timeout of at least one pause the wait never gives up: only its
    first turn looks at the time. *)
Theorem wait_handle_never_times_out (fuel : nat) (max timeout : Z) (pools : nat -> sql_pool) :
  (timeout = 0 \/ 100000 <= timeout) -> wait_handle fuel max timeout pools 0 0 0 <> Ok false.
Proof.
  intros Ht. assert (Hw : forall fuel i w y, wait_handle fuel max timeout pools i (S w) y <> Ok false).
  { induction fuel0; intros i w y; cbn; [done|]. destruct (exhausted _ _); [apply IHfuel0|done]. }
  destruct fuel; cbn; [done|]. destruct (exhausted _ _); [|done].
  destruct (negb _ && _) eqn:E; [|apply Hw]. exfalso. revert E. apply not_true_iff_false.
  assert (wrap 32 (0 + 100000) = 100000) as Hw32 by reflexivity. cbn in Hw32 |- *.
  apply andb_false_iff. rewrite negb_false_iff, Z.eqb_eq, Z.ltb_ge. lia.
Qed.

End SqlProof.
