(* ===== verification/SqlScript.v ===== *)
(** * Long scripts, executed in pieces

    [agc_sql_execute_sql] of [src/src/agc_sql.c]: a script that does not fit
    one call is cut behind a semicolon and a line feed.  The pieces are the
    script, in order, and none is too long. *)

From stdpp Require Import base list strings.
From Stdlib Require Import ZArith Lia.
From S2P Require Import Prelude CString Event SqlPool.

Module SqlScript.
Import Ev Sql.

(** A statement with the terminator the pieces are cut at. *)
Definition terminated (q : cstr) : cstr := q ++ [59; 10].

Lemma AGC_MAX_SQL_LEN_pos : (0 < AGC_MAX_SQL_LEN)%nat.
Proof. unfold AGC_MAX_SQL_LEN. lia. Qed.

(** No terminator begins in the first bytes of [t], so far as the search of
    [agc_sql_execute_sql] looks. *)
Definition no_break (t : cstr) : Prop :=
  forall i, (S i <= AGC_MAX_SQL_LEN)%nat -> nth i t 0 = 59 -> nth (S i) t 0 = 10 -> False.

Lemma find_break_Some sql s p r :
  find_break sql s p = Some r ->
  exists q, r = S (S q) /\ (s <= q < p)%nat /\ nth q sql 0 = 59 /\ nth (S q) sql 0 = 10.
Proof.
  induction p as [|p IH]; cbn [find_break]; [done|]. destruct (Nat.leb_spec (S p) s); [done|].
  destruct (Z.eqb_spec (nth (S p) sql 0) 10), (Z.eqb_spec (nth p sql 0) 59); cbn [andb];
    try (intros Hf; destruct (IH Hf) as (q & ? & ? & ? & ?); exists q; repeat split; try done; lia).
  intros [= <-]. exists p. repeat split; try done; lia.
Qed.

Lemma find_break_None sql s p q :
  find_break sql s p = None -> (s <= q < p)%nat -> nth q sql 0 = 59 -> nth (S q) sql 0 = 10 -> False.
Proof.
  induction p as [|p IH]; cbn [find_break]; [lia|]. destruct (Nat.leb_spec (S p) s); [lia|].
  intros Hf Hq H1 H2. destruct (decide (q = p)) as [->|].
  - rewrite H1, H2 in Hf. done.
  - destruct (_ && _); [done|]. apply IH; auto. lia.
Qed.

Lemma drop_nth (l : cstr) q : (q < length l)%nat -> drop q l = nth q l 0 :: drop (S q) l.
Proof.
  revert q. induction l as [|x l IH]; intros [|q] Hq; cbn in *; try lia; [by rewrite drop_0|].
  apply IH. lia.
Qed.

(** The script behind [s] begins with the piece and its terminator. *)
Lemma piece_drop sql s q :
  (s <= q)%nat -> (S q < length sql)%nat -> nth q sql 0 = 59 -> nth (S q) sql 0 = 10 ->
  drop s sql = terminated (piece sql s (S (S q))) ++ drop (S (S q)) sql.
Proof.
  intros Hs Hq H1 H2. unfold terminated, piece. rewrite <- app_assoc.
  rewrite <- (take_drop (S (S q) - 2 - s) (drop s sql)) at 1. f_equal.
  rewrite drop_drop. replace (s + (S (S q) - 2 - s))%nat with q by lia.
  rewrite drop_nth, H1 by lia. by rewrite drop_nth, H2 by lia.
Qed.

Lemma nth_drop (l : cstr) s i : nth i (drop s l) 0 = nth (s + i) l 0.
Proof. revert s. induction l as [|x l IH]; intros [|s]; cbn; rewrite ?drop_0; try done; by destruct i. Qed.

Section script.
Context (odbc_exec : nat -> cstr -> agc_status * option cstr).

(** What the loop does from [s] on, with [n] pieces executed before: the new
    pieces are the script up to a rest, all but the last succeed, the outcome
    is that of the last, and the rest is only left behind after an error or
    when it has no terminator in reach. *)
Record pieces_ok (sql : cstr) (err : bool) (n s : nat) (st : agc_status)
    (st' : agc_status) (err' : option cstr) (new : list cstr) (rest : cstr) : Prop := {
  pk_script : drop s sql = concat (terminated <$> new) ++ rest;
  pk_small : Forall (fun q => length q < AGC_MAX_SQL_LEN)%nat new;
  pk_success : forall i q, new !! i = Some q -> (S i < length new)%nat ->
    execute_sql_real odbc_exec (n + i) q err = (AGC_STATUS_SUCCESS, None);
  pk_last : (new = [] /\ st' = st /\ err' = None)
    \/ exists q, last new = Some q /\ execute_sql_real odbc_exec (n + length new - 1) q err = (st', err');
  pk_rest : (st' <> AGC_STATUS_SUCCESS /\ new <> []) \/ err' <> None \/ no_break rest }.

Lemma no_break_short t : (length t <= 1)%nat -> no_break t.
Proof. destruct t as [|a [|b t]]; cbn; [..|lia]; intros _ [|i] _; cbn; try done; by destruct i. Qed.

Lemma pieces_ok_stop sql err n s st : no_break (drop s sql) -> pieces_ok sql err n s st st None [] (drop s sql).
Proof. intros Hn. split; cbn; auto. done. Qed.

Lemma pieces_ok_cons sql err n s p st pc st' err' new rest :
  drop s sql = terminated pc ++ drop p sql -> (length pc < AGC_MAX_SQL_LEN)%nat ->
  execute_sql_real odbc_exec n pc err = (AGC_STATUS_SUCCESS, None) ->
  pieces_ok sql err (S n) p AGC_STATUS_SUCCESS st' err' new rest -> pieces_ok sql err n s st st' err' (pc :: new) rest.
Proof.
  intros Hd Hs He []. split.
  - rewrite Hd, pk_script0. cbn [fmap list_fmap concat]. by rewrite app_assoc.
  - by constructor.
  - intros [|i] q; cbn.
    + intros [= <-] _. by rewrite Nat.add_0_r.
    + intros Hi Hl. rewrite Nat.add_succ_r. apply pk_success0; [done|lia].
  - right. destruct pk_last0 as [(-> & -> & ->)|(q & Hq & Hl)].
    + exists pc. split; [done|]. cbn. by rewrite Nat.add_sub.
    + exists q. destruct new as [|x new]; [done|]. split; [done|].
      rewrite <- Hl. f_equal. cbn. lia.
  - destruct pk_rest0 as [[? ?]|]; [left|right]; done.
Qed.

(** The loop ends and does what it should. *)
Lemma execute_pieces_ok sql err fuel s st done :
  sql <> [] -> (length sql - s < fuel)%nat ->
  exists st' err' new rest,
    execute_pieces odbc_exec fuel sql err (length sql - 1) s st done = Ok (st', err', done ++ new)
    /\ pieces_ok sql err (length done) s st st' err' new rest.
Proof.
  intros Hne. assert (length sql <> 0)%nat by (by destruct sql).
  revert s st done. induction fuel as [|fuel IH]; intros s st done Hf; [lia|]. cbn [execute_pieces].
  destruct (Nat.leb_spec (length sql - 1) s).
  { exists st, None, [], (drop s sql). rewrite app_nil_r. split; [done|].
    apply pieces_ok_stop, no_break_short. rewrite length_drop. lia. }
  destruct (find_break _ _ _) as [r|] eqn:Eb.
  2: { exists st, None, [], (drop s sql). rewrite app_nil_r. split; [done|].
    apply pieces_ok_stop. intros i Hi H1 H2. rewrite nth_drop in H1, H2. rewrite Nat.add_succ_r in H2.
    assert (S (s + i) < length sql)%nat.
    { destruct (Nat.lt_ge_cases (S (s + i)) (length sql)) as [|Hge]; [done|]. by rewrite nth_overflow in H2. }
    eapply (find_break_None _ _ _ (s + i)); eauto. lia. }
  apply find_break_Some in Eb as (q & -> & Hq & H1 & H2).
  set (pc := piece sql s (S (S q))).
  assert (Hd : drop s sql = terminated pc ++ drop (S (S q)) sql) by (apply piece_drop; auto; lia).
  assert (Hs : (length pc < AGC_MAX_SQL_LEN)%nat).
  { unfold pc, piece. rewrite length_take. lia. }
  destruct (execute_sql_real odbc_exec (length done) pc err) as [st1 err1] eqn:Ee.
  destruct (bool_decide _ || bool_decide _) eqn:Et.
  - exists st1, err1, [pc], (drop (S (S q)) sql). split; [done|].
    apply orb_true_iff in Et. rewrite !bool_decide_eq_true in Et. split.
    + rewrite Hd. cbn [fmap list_fmap concat]. by rewrite app_nil_r.
    + by constructor.
    + cbn. intros; lia.
    + right. exists pc. split; [done|]. cbn. by rewrite Nat.add_sub.
    + destruct Et; [left|right; left]; done.
  - apply orb_false_iff in Et. rewrite !bool_decide_eq_false in Et. destruct Et as [Hst Her].
    apply dec_stable in Hst as ->, Her as ->.
    destruct (IH (S (S q)) AGC_STATUS_SUCCESS (done ++ [pc])) as (st' & err' & new & rest & -> & Hk); [lia|].
    exists st', err', (pc :: new), rest. rewrite <- app_assoc. split; [done|].
    eapply pieces_ok_cons; eauto. rewrite length_app, Nat.add_comm in Hk. exact Hk.
Qed.

End script.

(** A script of statements that fit, cut behind some of them, has a terminator
    in reach unless it is used up. *)
Lemma suffix_break (stmts : list cstr) (a rest : cstr) :
  Forall (fun q => length q < AGC_MAX_SQL_LEN)%nat stmts ->
  concat (terminated <$> stmts) = a ++ rest -> (a = [] \/ last a = Some 10) -> no_break rest -> rest = [].
Proof.
  revert a. induction stmts as [|t stmts IH]; intros a Hs Heq Ha Hn.
  { symmetry in Heq. by apply app_eq_nil in Heq as [_ ->]. }
  inversion Hs as [|? ? Ht Hs']; subst. cbn [fmap list_fmap concat] in Heq.
  destruct (Nat.le_gt_cases (length (terminated t)) (length a)) as [Hle|Hgt].
  - assert (Hp : a = terminated t ++ drop (length (terminated t)) a).
    { rewrite <- (take_drop (length (terminated t)) a) at 1. f_equal.
      apply (f_equal (take (length (terminated t)))) in Heq.
      by rewrite take_app_length, take_app_le in Heq by done. }
    rewrite Hp, <- app_assoc in Heq. apply app_inv_head in Heq. eapply IH; eauto.
    destruct (drop (length (terminated t)) a) as [|x l] eqn:E; [by left|right].
    destruct Ha as [->|Hl]; [by rewrite drop_nil in E|]. rewrite Hp, last_app in Hl.
    destruct (last (x :: l)) eqn:El; [done|]. by apply last_None in El.
  - assert (Hr : rest = drop (length a) (terminated t) ++ concat (terminated <$> stmts)).
    { apply (f_equal (drop (length a))) in Heq. by rewrite drop_app_length, drop_app_le in Heq by lia. }
    assert (Ha' : a = take (length a) (terminated t)).
    { apply (f_equal (take (length a))) in Heq. by rewrite take_app_length, take_app_le in Heq by lia. }
    unfold terminated in Hgt, Hr, Ha'. rewrite length_app in Hgt. cbn [length] in Hgt.
    destruct (Nat.le_gt_cases (length a) (length t)) as [Hl|Hl].
    + rewrite drop_app_le, <- app_assoc in Hr by done. cbn [app] in Hr.
      exfalso. apply (Hn (length (drop (length a) t))).
      * rewrite length_drop. lia.
      * by rewrite Hr, nth_middle.
      * rewrite Hr, app_nth2 by lia. by rewrite Nat.sub_succ_l, Nat.sub_diag by done.
    + assert (length a = S (length t)) as Hla by lia. rewrite Hla in Ha'.
      rewrite take_app_ge in Ha' by lia. replace (S (length t) - length t)%nat with 1%nat in Ha' by lia.
      rewrite Ha' in Ha. destruct Ha as [Ha|Ha]; [by destruct t|]. by rewrite last_app in Ha.
Qed.

Lemma last_terminated (l : list cstr) : l = [] \/ last (concat (terminated <$> l)) = Some 10.
Proof.
  destruct l as [|q l _] using rev_ind; [by left|right].
  rewrite fmap_app, concat_app. cbn. unfold terminated. rewrite app_nil_r, app_assoc.
  by rewrite last_app.
Qed.

(** ** Properties *)

(** Whatever the database answers, [agc_sql_execute_sql] returns, and what it
    executes is the script up to a rest. *)
Theorem agc_sql_execute_sql_total (odbc_exec : nat -> cstr -> agc_status * option cstr) (sql : cstr) (err : bool) :
  (AGC_MAX_SQL_LEN <= length sql)%nat ->
  exists st err' pieces rest, agc_sql_execute_sql odbc_exec sql err = Ok (st, err', pieces)
    /\ pieces_ok odbc_exec sql err 0 0 AGC_STATUS_FALSE st err' pieces rest.
Proof.
  intros Hl. unfold agc_sql_execute_sql. rewrite (proj2 (Nat.ltb_ge _ _) Hl).
  destruct (execute_pieces_ok odbc_exec sql err (S (length sql)) 0 AGC_STATUS_FALSE []) as (st & e & new & rest & -> & Hk).
  - intros ->. pose proof AGC_MAX_SQL_LEN_pos. cbn [length] in Hl. lia.
  - lia.
  - by exists st, e, new, rest.
Qed.

(** C35: A script of statements, each ended by a semicolon and a line feed and
    shorter than [AGC_MAX_SQL_LEN], that is too long for one call is executed
    completely when the database accepts every piece (an end that is not
    terminated would be dropped): [agc_sql_execute_sql]
    returns success, the pieces with their terminators are the script, in
    order, and each fits one call. *)
Theorem agc_sql_execute_sql_script (odbc_exec : nat -> cstr -> agc_status * option cstr) (stmts : list cstr) (err : bool) :
  (forall i q, odbc_exec i q = (AGC_STATUS_SUCCESS, None)) ->
  Forall (fun q => length q < AGC_MAX_SQL_LEN)%nat stmts ->
  (AGC_MAX_SQL_LEN <= length (concat (terminated <$> stmts)))%nat ->
  exists pieces,
    agc_sql_execute_sql odbc_exec (concat (terminated <$> stmts)) err = Ok (AGC_STATUS_SUCCESS, None, pieces)
    /\ concat (terminated <$> pieces) = concat (terminated <$> stmts)
    /\ Forall (fun q => length q < AGC_MAX_SQL_LEN)%nat pieces.
Proof.
  intros Hex Hs Hl. destruct (agc_sql_execute_sql_total odbc_exec _ err Hl) as (st & e & new & rest & -> & []).
  rewrite drop_0 in pk_script0.
  assert (Hr : no_break rest -> rest = []).
  { intros Hn. eapply (suffix_break stmts (concat (terminated <$> new))); eauto.
    destruct (last_terminated new) as [->|]; [by left|by right]. }
  destruct pk_last0 as [(-> & -> & ->)|(q & _ & Hq)].
  - destruct pk_rest0 as [[_ ?]|[?|Hn]]; [done|done|]. rewrite (Hr Hn) in pk_script0.
    rewrite pk_script0 in Hl. pose proof AGC_MAX_SQL_LEN_pos. cbn [fmap list_fmap concat app length] in Hl. lia.
  - unfold execute_sql_real in Hq. rewrite Hex in Hq. injection Hq as <- <-.
    assert (rest = []) as ->. { destruct pk_rest0 as [[? _]|[Hn|?]]; [done| |auto]. by destruct err. }
    rewrite app_nil_r in pk_script0. exists new. by destruct err.
Qed.

Lemma agc_sql_execute_sql_script_witness :
  exists pieces, agc_sql_execute_sql (fun _ _ => (AGC_STATUS_SUCCESS, None))
    (concat (terminated <$> replicate 9 (replicate 4000 97))) true = Ok (AGC_STATUS_SUCCESS, None, pieces).
Proof.
  destruct (agc_sql_execute_sql_script (fun _ _ => (AGC_STATUS_SUCCESS, None)) (replicate 9 (replicate 4000 97)) true)
    as (pieces & H & _ & _).
  - reflexivity.
  - apply Forall_replicate. rewrite length_replicate. unfold AGC_MAX_SQL_LEN. lia.
  - apply Nat.leb_le. vm_compute. reflexivity.
  - exists pieces. exact H.
Defined.

End SqlScript.
