(* ===== verification/EventSocket.v ===== *)
(** * The event socket: the management protocol

    [src/src/mod/eventhandlers/mod_eventsocket]: reading a packet from a
    client, executing its command, subscriptions and the distribution of events
    to the connected clients.  The socket is the sequence of what arrives: a
    byte, a moment at which nothing is there yet, or its end (closed, broken,
    or the module is being shut down).  What is sent is appended to [sent]; the
    results of sending are ignored by the code but in [send_disconnect]. *)

From stdpp Require Import base gmap list fin_maps strings.
From Stdlib Require Import ZArith Lia.
From S2P Require Import Prelude CString Queue Event EventBus Json JsonMain EventJson Utils Api.

Module Esl.
Import Ev Bus EvJson.

Definition EVTSKT_BLOCK_LEN : nat := 2048.
Definition EVTSKT_MAX_LEN : Z := 10485760.
Definition MAX_QUEUE_LEN : Z := 100000.

Inductive arrival := Data (c : Z) | Again | Broken.

(** [struct event_connect_s]: the members that the protocol uses. *)
Record event_connect := EventConnect {
  conn_addr : Z;
  has_sock : bool;
  event_queue : Queue.apr_queue_t;
  has_event : bool;
  is_running : bool;
  event_list : list bool;
  sent : list Z }.

Definition with_queue q c := EventConnect (conn_addr c) (has_sock c) q (has_event c) (is_running c) (event_list c) (sent c).
Definition with_has_event v c := EventConnect (conn_addr c) (has_sock c) (event_queue c) v (is_running c) (event_list c) (sent c).
Definition with_running v c := EventConnect (conn_addr c) (has_sock c) (event_queue c) (has_event c) v (event_list c) (sent c).
Definition with_list l c := EventConnect (conn_addr c) (has_sock c) (event_queue c) (has_event c) (is_running c) l (sent c).
Definition with_sock v c := EventConnect (conn_addr c) v (event_queue c) (has_event c) (is_running c) (event_list c) (sent c).
Definition send (bs : list Z) c :=
  EventConnect (conn_addr c) (has_sock c) (event_queue c) (has_event c) (is_running c) (event_list c) (sent c ++ bs).

(** A connection as [mod_eventsocket_runtime] makes it and [connection_run]
    starts it. *)
Definition new_connection (a : Z) : event_connect :=
  EventConnect a true (Queue.apr_queue_create MAX_QUEUE_LEN) false true
    (replicate (Z.to_nat EVENT_ID_LIMIT) false) [].

Definition LF : Z := 10.
Definition CR : Z := 13.

(** ** Lines *)

(** [strip_cr]: the text before the first carriage return, or if there is none
    before the first line feed. *)
Definition strip_cr (s : cstr) : cstr :=
  match Api.strchr CR s with
  | (l, Some _) => l
  | (_, None) => fst (Api.strchr LF s)
  end.

Fixpoint skip_crlf (s : cstr) : cstr :=
  match s with
  | c :: s' => if (c =? CR) || (c =? LF) then skip_crlf s' else s
  | [] => []
  end.

(** Where the next line begins, if there is one. *)
Definition next_line (cur : cstr) : option cstr :=
  match Api.strchr CR cur with
  | (_, Some r) => Some (skip_crlf r)
  | (_, None) => match Api.strchr LF cur with (_, Some r) => Some (skip_crlf r) | (_, None) => None end
  end.

Fixpoint skip_blank (s : cstr) : cstr :=
  match s with
  | c :: s' => if c =? 32 then skip_blank s' else s
  | [] => []
  end.

(** The loop that reads [clen] bytes of a body. *)
Fixpoint recv_body (clen : nat) (input : list arrival) : option (list Z * list arrival) :=
  match clen with
  | O => Some ([], input)
  | S n =>
      (fix wait (input : list arrival) :=
         match input with
         | Data c :: rest =>
             match recv_body n rest with Some (bs, rest) => Some (c :: bs, rest) | None => None end
         | Again :: rest => wait rest
         | Broken :: _ | [] => None
         end) input
  end.

Section session.
Context `{Json.FloatOps}.
(** The fuel of the loops over headers. *)
Context (hf : nat).

(** What a line behind the first one adds to the event: a header and, for a
    content length, the body read from the socket; [None] for the rest of the
    input when reading the body failed. *)
Definition header_line (s : store) (ev : Z) (cur : cstr) (input : list arrival)
    : result (store * option (list arrival)) :=
  let var := strip_cr cur in
  match Api.strchr 58 var with
  | (_, None) => Ok (s, Some input)
  | (var, Some val) =>
      let val := skip_blank val in
      let! (s, _) := agc_event_add_header_string hf s ev var (Some val) in
      if same_nocase var (bytes_of "content-length") then
        let clen := atoi val in
        if 0 <? clen then
          match recv_body (Z.to_nat clen) input with
          | None => Ok (s, None)
          | Some (body, input) =>
              let! (s, _) := agc_event_add_body s ev (Some (cstring body)) in
              Ok (s, Some input)
          end
        else Ok (s, Some input)
      else Ok (s, Some input)
  end.

(** The loop over the lines behind the first. *)
Fixpoint header_lines (fuel : nat) (s : store) (ev : Z) (cur : option cstr) (input : list arrival)
    : result (store * option (list arrival)) :=
  match fuel with
  | O => OutOfFuel
  | S fuel' =>
      match cur with
      | None => Ok (s, Some input)
      | Some cur =>
          let next := next_line cur in
          let! (s, input) := header_line s ev cur input in
          match input with
          | None => Ok (s, None)
          | Some input => header_lines fuel' s ev next input
          end
      end
  end.

(** The whole of a packet, the text [mbuf]: its event, whose ["command"] is the
    text, and whether the body could be read. *)
Definition read_lines (s : store) (mbuf : list Z) (input : list arrival)
    : result (store * Z * option (list arrival)) :=
  let text := cstring mbuf in
  let (s, ev) := agc_event_create s EVENT_ID_EVENTSOCKET EVENT_NULL_SOURCEID in
  let! (s, _) := agc_event_add_header_string hf s ev (bytes_of "command") (Some text) in
  let! (s, input) := header_lines (S (S (length text))) s ev (next_line text) input in
  Ok (s, ev, input).

(** ** Events on their way to the client *)

Definition event_frame (json : cstr) : list Z :=
  bytes_of "Content-Length: " ++ print_int (sext 32 (Z.of_nat (length json))) ++ [LF] ++
  bytes_of "Content-Type: text/event-json" ++ [LF; LF] ++ json.

(** The loop that sends what is in the queue of the connection. *)
Fixpoint send_events (fuel : nat) (b : bus) (c : event_connect) : result (bus * event_connect) :=
  match fuel with
  | O => OutOfFuel
  | S fuel' =>
      let! (q, st, pop) := Queue.apr_queue_trypop (event_queue c) in
      let c := with_queue q c in
      match st, pop with
      | Queue.APR_SUCCESS, Some ev =>
          let! (json, _) := agc_event_serialize_json hf b ev in
          match json with
          | None => Fault BadPointer
          | Some json =>
              let c := send (event_frame json) c in
              let! (m, _) := agc_event_destroy hf (mem b) ev in
              send_events fuel' (with_mem m b) c
          end
      | _, _ => Ok (b, c)
      end
  end.

(** It is run while nothing of a packet has been read. *)
Definition idle (mbuf : list Z) (b : bus) (c : event_connect) : result (bus * event_connect) :=
  if (hd 0 mbuf =? 0) && has_event c
  then send_events (S (Z.to_nat (Queue.nelts (event_queue c)))) b c
  else Ok (b, c).

(** ** Reading a packet *)

(** The outcome: the event, if one was created, whether the status is success,
    and the input left. *)
Definition packet := (bus * event_connect * option Z * bool * list arrival)%type.

(** The loop of [read_packet], a turn per arrival. *)
Fixpoint read_loop (input : list arrival) (mbuf : list Z) (buf_len : nat) (crcount : Z) (b : bus) (c : event_connect)
    : result packet :=
  match input with
  | [] => Ok (b, c, None, false, [])
  | a :: rest =>
      let buf_len := if (length mbuf =? buf_len - 1)%nat then (buf_len + EVTSKT_BLOCK_LEN)%nat else buf_len in
      match a with
      | Broken => Ok (b, c, None, false, rest)
      | Again =>
          let! (b, c) := idle mbuf b c in
          read_loop rest mbuf buf_len crcount b c
      | Data ch =>
          if (buf_len <=? length mbuf)%nat then Fault OutOfBounds
          else
            let mbuf := mbuf ++ [ch] in
            if (hd 0 mbuf =? CR) || (hd 0 mbuf =? LF) then read_loop rest [] buf_len crcount b c
            else
              let crcount := if ch =? LF then wrap 8 (crcount + 1) else if ch =? CR then crcount else 0 in
              let crcount := if EVTSKT_MAX_LEN <=? Z.of_nat (length mbuf) then 2 else crcount in
              if crcount =? 2 then
                let! (m, ev, more) := read_lines (mem b) mbuf rest in
                match more with
                | Some more => Ok (with_mem m b, c, Some ev, true, more)
                | None => Ok (with_mem m b, c, Some ev, false, [])
                end
              else
                let! (b, c) := idle mbuf b c in
                read_loop rest mbuf buf_len crcount b c
      end
  end.

Definition read_packet (input : list arrival) (b : bus) (c : event_connect) : result packet :=
  read_loop input [] EVTSKT_BLOCK_LEN 0 b c.

(** ** Commands *)

(** [!strncasecmp(s, p, strlen(p))] *)
Definition has_prefix (p s : cstr) : bool := same_nocase (take (length p) s) p.

(** The loop over the names in an [event] command; [key_count] is the number of
    names that were known. *)
Fixpoint subscribe (fuel : nat) (b : bus) (l : list bool) (cur : option cstr) (key_count : nat)
    : result (list bool * nat) :=
  match fuel with
  | O => OutOfFuel
  | S fuel' =>
      match cur with
      | None => Ok (l, key_count)
      | Some cur =>
          let (word, next) := Api.strchr 32 cur in
          match agc_event_get_id b (Some word) with
          | (AGC_STATUS_SUCCESS, Some event_id) =>
              if event_id =? EVENT_ID_ALL
              then subscribe fuel' b (replicate (Z.to_nat EVENT_ID_LIMIT) true) next (S key_count)
              else if negb (in_array event_id) then Fault OutOfBounds
              else subscribe fuel' b (<[Z.to_nat event_id := true]> l) next (S key_count)
          | _ => subscribe fuel' b l next key_count
          end
      end
  end.

(** What the commands registered with the framework do ([Api]). *)
Context (junk : nat -> Z) (run_func : Z -> option cstr -> Api.stream -> result (Api.stream * agc_status)).
Context (APIS : list Api.agc_api_interface).

Definition api_frame (reply : cstr) : list Z :=
  bytes_of "Content-Type: api/response" ++ [LF] ++ bytes_of "Content-Length: " ++
  print_int (sext 32 (Z.of_nat (length reply))) ++ [LF; LF] ++ reply.

(** [api_exec] in the foreground. *)
Definition api_exec (c : event_connect) (api_cmd : cstr) (arg : option cstr) : result (event_connect * list Api.action) :=
  if negb (is_running c) then Ok (c, [])
  else
    let! (st, status, act) := Api.agc_api_execute junk true run_func APIS (Some api_cmd) arg Api.agc_api_stand_stream in
    let reply :=
      if bool_decide (status = AGC_STATUS_SUCCESS) then cstring (Api.data st)
      else bytes_of "-ERR " ++ api_cmd ++ bytes_of " Command not found!" ++ [LF] in
    let reply := if (length reply =? 0)%nat then bytes_of "-ERR no reply" ++ [LF] else reply in
    Ok (send (api_frame reply) c, [act]).

(** [parse_command]: the reply, the event if it is still there, and the calls
    made.  The status is always success. *)
Definition parse_command (b : bus) (c : event_connect) (ev : Z)
    : result (bus * event_connect * option Z * cstr * list Api.action) :=
  let! cmd_header := agc_event_get_header hf (mem b) ev (bytes_of "command") in
  match cmd_header with
  | None => Ok (b, with_running false c, Some ev, bytes_of "-ERR command parse error.", [])
  | Some cmd =>
      if has_prefix (bytes_of "exit") cmd || has_prefix (bytes_of "...") cmd then
        Ok (b, with_running false c, Some ev, bytes_of "+OK bye", [])
      else if has_prefix (bytes_of "api ") cmd then
        let (api_cmd, arg) := Api.strchr 32 (strip_cr (drop 4 cmd)) in
        let! (c, acts) := api_exec c api_cmd arg in
        let! (m, _) := agc_event_destroy hf (mem b) ev in
        Ok (with_mem m b, c, None, [], acts)
      else if has_prefix (bytes_of "event") cmd then
        let cur := drop 5 (strip_cr cmd) in
        let l := replicate (Z.to_nat EVENT_ID_LIMIT) false in
        let! (l, key_count) := subscribe (S (S (length cur))) b l (snd (Api.strchr 32 cur)) 0 in
        let c := with_list l c in
        if (key_count =? 0)%nat
        then Ok (b, with_has_event false c, Some ev, bytes_of "-ERR no keywords supplied", [])
        else Ok (b, with_has_event true c, Some ev, bytes_of "+OK", [])
      else Ok (b, c, Some ev, [], [])
  end.

(** ** A connection *)

Definition reply_frame (reply : cstr) : list Z :=
  match reply with
  | [] => []
  | 126 :: r => bytes_of "Content-Type: command/reply" ++ [LF] ++ r
  | _ => bytes_of "Content-Type: command/reply" ++ [LF] ++ bytes_of "Reply-Text: " ++ reply ++ [LF; LF]
  end.

(** [send_disconnect]; [ok] is whether its first send succeeded. *)
Definition send_disconnect (ok : bool) (message : cstr) (c : event_connect) : event_connect :=
  let message := if (length message =? 0)%nat then bytes_of "Disconnected." ++ [LF] else message in
  if negb (has_sock c) then c
  else
    let c := send (bytes_of "Content-Type: text/disconnect-notice" ++ [LF] ++ bytes_of "Content-Length: " ++
                   print_int (sext 32 (Z.of_nat (length message))) ++ [LF; LF]) c in
    if ok then send message c else c.

(** The loop of [connection_run] and what follows it. *)
Fixpoint connection_run (fuel : nat) (b : bus) (c : event_connect) (input : list arrival) (acts : list Api.action)
    : result (bus * event_connect * list Api.action) :=
  let goodbye := send_disconnect true (bytes_of "Disconnected, goodbye." ++ [LF]) in
  match fuel with
  | O => OutOfFuel
  | S fuel' =>
      if negb (is_running c) then Ok (b, goodbye c, acts)
      else
        let! (b, c, revent, ok, input) := read_packet input b c in
        if negb ok then
          let! b :=
            match revent with
            | Some ev => let! (m, _) := agc_event_destroy hf (mem b) ev in Ok (with_mem m b)
            | None => Ok b
            end in
          Ok (b, goodbye c, acts)
        else
          match revent with
          | None => connection_run fuel' b c input acts
          | Some ev =>
              let! (b, c, revent, reply, a) := parse_command b c ev in
              let! b :=
                match revent with
                | Some ev => let! (m, _) := agc_event_destroy hf (mem b) ev in Ok (with_mem m b)
                | None => Ok b
                end in
              connection_run fuel' b (send (reply_frame reply) c) input (acts ++ a)
          end
  end.

End session.

(** ** The connected clients *)

Record event_listener := EventListener {
  ready : bool;
  connections : list event_connect }.

Definition add_conn (c : event_connect) (l : event_listener) : event_listener :=
  EventListener (ready l) (c :: connections l).

Fixpoint unlink_conn (a : Z) (l : list event_connect) : list event_connect :=
  match l with
  | [] => []
  | c :: l' => if conn_addr c =? a then l' else c :: unlink_conn a l'
  end.
Definition remove_conn (a : Z) (l : event_listener) : event_listener :=
  EventListener (ready l) (unlink_conn a (connections l)).

(** The loop of [handle_event]: every subscriber gets a copy of the event. *)
Fixpoint distribute (hf : nat) (s : store) (event id : Z) (l : list event_connect) : result (store * list event_connect) :=
  match l with
  | [] => Ok (s, [])
  | c :: l' =>
      let! (s, c) :=
        (if has_event c then
           match (if 0 <=? id then event_list c !! Z.to_nat id else None) with
           | None => Fault OutOfBounds
           | Some false => Ok (s, c)
           | Some true =>
               let! (s, clone, status) := agc_event_dup hf s event in
               if bool_decide (status = AGC_STATUS_SUCCESS) then
                 let! (q, st) := Queue.apr_queue_trypush (event_queue c) clone in
                 let c := with_queue q c in
                 if bool_decide (st = Queue.APR_SUCCESS) then Ok (s, c)
                 else let! (s, _) := agc_event_destroy hf s clone in Ok (s, c)
               else Ok (s, c)
           end
         else Ok (s, c)) in
      let! (s, l') := distribute hf s event id l' in
      Ok (s, c :: l')
  end.

Definition handle_event (hf : nat) (s : store) (event : Z) (l : event_listener) : result (store * event_listener) :=
  if negb (ready l) then Ok (s, l)
  else
    let! e := eget s event in
    let! (s, cs) := distribute hf s event (event_id e) (connections l) in
    Ok (s, EventListener (ready l) cs).

(** [kill_connections], as far as what is sent; the sockets are closed in
    [EventServer.v]. *)
Definition kill_connections (l : event_listener) : event_listener :=
  EventListener (ready l)
    ((fun c => with_running false (send_disconnect true (bytes_of "The system is being shut down." ++ [LF]) c)) <$> connections l).

End Esl.
