(* ===== verification/EventSocketProof.v ===== *)
(** * The event socket: packets, sessions, delivery

    Reading a packet recovers what the client wrote however it arrives; a
    session answers its commands in order and ends; a subscriber gets every
    event once and in order; and one header too many brings the server down. *)

From stdpp Require Import base gmap list fin_maps strings.
From Stdlib Require Import ZArith Lia.
From S2P Require Import Prelude CString Queue Event EventProof EventBus Json JsonProof JsonMain EventJson Utils Api ApiProof EventSocket.

Module EslProof.
Import Ev EvProof Bus EvJson ApiProof Esl.

(** ** What arrives *)

(** The bytes [t] come from [input], cut anywhere, and [rest] is left. *)
Inductive arrives : list Z -> list arrival -> list arrival -> Prop :=
  | arrives_nil rest : arrives [] rest rest
  | arrives_again c t input rest : arrives (c :: t) input rest -> arrives (c :: t) (Again :: input) rest
  | arrives_data c t input rest : arrives t input rest -> arrives (c :: t) (Data c :: input) rest.

Lemma arrives_app t1 t2 input rest :
  arrives (t1 ++ t2) input rest <-> exists mid, arrives t1 input mid /\ arrives t2 mid rest.
Proof.
  split.
  - intros H. remember (t1 ++ t2) as t eqn:E. revert t1 E. induction H as [|c t input rest H IH|c t input rest H IH]; intros t1 E.
    + symmetry in E. apply app_eq_nil in E as [-> ->]. eexists. by split; constructor.
    + destruct t1 as [|d t1]; simplify_eq/=.
      * eexists. split; [constructor|]. by constructor.
      * destruct (IH (d :: t1) eq_refl) as (mid & ? & ?). exists mid. split; [by constructor|done].
    + destruct t1 as [|d t1]; simplify_eq/=.
      * eexists. split; [constructor|]. by constructor.
      * destruct (IH t1 eq_refl) as (mid & ? & ?). exists mid. split; [by constructor|done].
  - intros (mid & H1 & H2). induction H1; [done|constructor; by apply IHarrives|constructor; by apply IHarrives].
Qed.

Lemma arrives_whole t rest : arrives t ((Data <$> t) ++ rest) rest.
Proof. induction t as [|c t IH]; [constructor|]. by constructor. Qed.

Lemma recv_body_arrives t input rest : arrives t input rest -> recv_body (length t) input = Some (t, rest).
Proof.
  induction 1 as [|c t input rest H IH|c t input rest H IH]; [done|exact IH|].
  cbn [length recv_body]. by rewrite IH.
Qed.

(** A connection with nothing to send. *)
Record quiet (c : event_connect) : Prop := Quiet {
  qu_wf : Queue.wf (event_queue c);
  qu_live : Queue.terminated (event_queue c) = false;
  qu_empty : Queue.contents (event_queue c) = [] }.

Lemma with_queue_id c : with_queue (event_queue c) c = c.
Proof. by destruct c. Qed.

Lemma trypop_empty q : Queue.wf q -> Queue.terminated q = false -> Queue.contents q = [] ->
  Queue.apr_queue_trypop q = Ok (q, Queue.APR_EAGAIN, None).
Proof.
  intros Hwf Ht Hc. pose proof (Queue.full_length q Hwf) as Hl. rewrite Hc in Hl. cbn in Hl.
  unfold Queue.apr_queue_trypop, Queue.apr_queue_empty. by rewrite Ht, <- Hl.
Qed.

Section session.
Context `{Json.FloatOps} (hf : nat).

Lemma idle_quiet mbuf b c : quiet c -> idle hf mbuf b c = Ok (b, c).
Proof.
  intros [Hwf Ht Hc]. unfold idle. case_match; [|done]. cbn [send_events].
  rewrite trypop_empty by done. cbn [rbind]. by rewrite with_queue_id.
Qed.

(** ** Framing *)

Definition cr_step (n ch : Z) : Z := if ch =? LF then wrap 8 (n + 1) else if ch =? CR then n else 0.

(** The count reaches two with the last byte of [t] and not before. *)
Fixpoint closes (n : Z) (t : list Z) : Prop :=
  match t with
  | [] => False
  | c :: t' => if cr_step n c =? 2 then t' = [] else closes (cr_step n c) t'
  end.

(** What happens when the blank line has been read. *)
Definition packet_read (b : bus) (c : event_connect) (text : list Z) (rest : list arrival) : result packet :=
  let! (m, ev, more) := read_lines hf (mem b) text rest in
  match more with
  | Some more => Ok (with_mem m b, c, Some ev, true, more)
  | None => Ok (with_mem m b, c, Some ev, false, [])
  end.

Definition line_start (t : list Z) : Prop := (hd 0 t =? CR) || (hd 0 t =? LF) = false.

Lemma line_start_app t1 t2 : t1 <> [] -> line_start (t1 ++ t2) <-> line_start t1.
Proof. by destruct t1. Qed.

Definition grown (mbuf : list Z) (buf_len : nat) : nat :=
  if (length mbuf =? buf_len - 1)%nat then (buf_len + EVTSKT_BLOCK_LEN)%nat else buf_len.

Lemma grown_room mbuf bl : (length mbuf < bl)%nat -> (S (length mbuf) < grown mbuf bl)%nat.
Proof. unfold grown, EVTSKT_BLOCK_LEN. intros. case_match eqn:E; [apply Nat.eqb_eq in E; lia|apply Nat.eqb_neq in E; lia]. Qed.

Lemma read_loop_head t input rest : arrives t input rest -> forall mbuf bl n b c,
  quiet c -> closes n t -> line_start (mbuf ++ t) -> (length mbuf < bl)%nat ->
  Z.of_nat (length (mbuf ++ t)) < EVTSKT_MAX_LEN ->
  read_loop hf input mbuf bl n b c = packet_read b c (mbuf ++ t) rest.
Proof.
  induction 1 as [|ch t input rest H' IH|ch t input rest H' IH]; intros mbuf bl n b c Hq Hcl Hls Hbl Hmax; [done| |].
  - cbn [read_loop]. rewrite idle_quiet by done. cbn [rbind]. apply IH; try done.
    fold (grown mbuf bl). pose proof (grown_room mbuf bl Hbl). lia.
  - cbn [read_loop]. fold (grown mbuf bl). pose proof (grown_room mbuf bl Hbl) as Hg.
    rewrite (proj2 (Nat.leb_gt _ _)) by lia.
    rewrite cons_middle, app_assoc in Hls, Hmax. rewrite length_app in Hmax.
    assert (line_start (mbuf ++ [ch])) as Hl0 by (destruct mbuf; exact Hls). unfold line_start in Hl0. rewrite Hl0. clear Hl0.
    cbv zeta. fold (cr_step n ch). rewrite (proj2 (Z.leb_gt _ _)) by lia. cbn [closes] in Hcl.
    destruct (cr_step n ch =? 2).
    + subst t. inversion H'; subst. unfold packet_read. done.
    + rewrite idle_quiet by done. cbn [rbind]. rewrite (cons_middle ch mbuf t), (app_assoc mbuf).
      apply IH; try done; rewrite length_app; cbn [length]; lia.
Qed.

Definition is_eol (c : Z) : Prop := c = CR \/ c = LF.

Lemma read_loop_blanks t input rest : arrives t input rest -> Forall is_eol t -> forall bl b c, quiet c -> (1 < bl)%nat ->
  read_loop hf input [] bl 0 b c = read_loop hf rest [] bl 0 b c.
Proof.
  intros Ha. induction Ha as [|ch t input rest H' IH|ch t input rest H' IH]; intros Hbk bl b c Hq Hbl; [done| |].
  - cbn [read_loop]. rewrite idle_quiet by done. cbn [rbind]. change (length (@nil Z)) with 0%nat.
    rewrite (proj2 (Nat.eqb_neq _ _)) by lia. by apply IH.
  - apply Forall_cons in Hbk as [Hch Hbk]. cbn [read_loop]. change (length (@nil Z)) with 0%nat.
    rewrite (proj2 (Nat.eqb_neq _ _)), (proj2 (Nat.leb_gt _ _)) by lia. cbn [app hd].
    assert ((ch =? CR) || (ch =? LF) = true) as ->; [|by apply IH].
    destruct Hch as [-> | ->]; done.
Qed.

(** ** The text of a packet *)

Definition plain (s : cstr) : Prop := Forall (fun c => c <> 0 /\ ~ is_eol c) s.
Definition eol_ok (eol : cstr) : Prop := eol = [LF] \/ eol = [CR; LF].

(** A header as a client writes it. *)
Definition header_text (h : cstr * cstr) : cstr := h.1 ++ 58 :: 32 :: h.2.
Definition headers_text (eol : cstr) (hs : list (cstr * cstr)) : cstr := concat ((fun h => header_text h ++ eol) <$> hs).
Definition head_text (eol cmd : cstr) (hs : list (cstr * cstr)) : cstr := cmd ++ eol ++ headers_text eol hs ++ eol.

Record header_ok (h : cstr * cstr) : Prop := HeaderOk {
  ho_name : plain h.1;
  ho_colon : 58 ∉ h.1;
  ho_value : plain h.2;
  ho_blank : hd 0 h.2 <> 32 }.

Lemma plain_not c s : plain s -> c = 0 \/ is_eol c -> Forall (fun d => d <> c) s.
Proof. intros Hs Hc. eapply Forall_impl; [exact Hs|]. intros d [Hd1 Hd2] ->. tauto. Qed.

Lemma plain_line h : header_ok h -> plain (header_text h).
Proof.
  intros [H1 _ H2 _]. apply Forall_app. split; [done|]. unfold is_eol, CR, LF.
  rewrite !Forall_cons. split_and!; try lia. done.
Qed.

Lemma headers_text_cons eol h hs t : headers_text eol (h :: hs) ++ t = header_text h ++ eol ++ headers_text eol hs ++ t.
Proof. unfold headers_text. cbn [fmap list_fmap concat]. by rewrite <- !app_assoc. Qed.

(** The text behind a line has no carriage return when lines end without. *)
Definition same_eol (eol t : cstr) : Prop := eol = [LF] -> CR ∉ t.

Lemma eol_split eol l t : eol_ok eol -> plain l -> same_eol eol t ->
  strip_cr (l ++ eol ++ t) = l /\ next_line (l ++ eol ++ t) = Some (skip_crlf t).
Proof.
  intros [-> | ->] Hl Ht; unfold strip_cr, next_line.
  - assert (Api.strchr CR (l ++ [LF] ++ t) = (l ++ [LF] ++ t, None)) as ->.
    { apply strchr_none. apply Forall_app. split; [apply plain_not; [done|unfold is_eol; auto]|].
      apply Forall_cons. split; [done|]. apply Forall_forall. intros d Hd ->. by apply (Ht eq_refl). }
    cbn [app]. rewrite strchr_found by (apply plain_not; [done|unfold is_eol; auto]). done.
  - cbn [app]. rewrite strchr_found by (apply plain_not; [done|unfold is_eol; auto]). done.
Qed.

Lemma plain_same_eol eol l t : eol_ok eol -> plain l -> same_eol eol t -> same_eol eol (l ++ eol ++ t).
Proof.
  intros He Hl Ht ->. rewrite !not_elem_of_app. split_and!.
  - intros Hin. destruct (proj1 (Forall_forall _ _) Hl _ Hin) as [_ []]. by left.
  - by intros [?|?%elem_of_nil]%elem_of_cons.
  - by apply Ht.
Qed.

Lemma eol_same eol : eol_ok eol -> same_eol eol eol.
Proof. intros _ ->. by intros [?|?%elem_of_nil]%elem_of_cons. Qed.

Lemma headers_same_eol eol hs t : eol_ok eol -> Forall header_ok hs -> same_eol eol t -> same_eol eol (headers_text eol hs ++ t).
Proof.
  intros He Hhs Ht. induction Hhs as [|h hs Hh Hhs IH]; [done|].
  rewrite headers_text_cons. apply plain_same_eol; [done|by apply plain_line|done].
Qed.

(** *** Where the packet ends *)

Lemma closes_line n l t : plain l -> l <> [] -> closes 0 t -> closes n (l ++ t).
Proof.
  intros Hl Hne Ht. destruct l as [|c l]; [done|]. clear Hne. revert n c Hl.
  induction l as [|d l IH]; intros n c Hl; apply Forall_cons in Hl as [[_ Hc] Hl]; cbn [app closes];
    (assert (cr_step n c = 0) as ->
       by (unfold cr_step; rewrite !(proj2 (Z.eqb_neq _ _)) by (intros ->; unfold is_eol in Hc; auto); done)); [exact Ht|].
  change (0 =? 2) with false. by apply IH.
Qed.

Lemma closes_eol eol t : eol_ok eol -> closes 1 t -> closes 0 (eol ++ t).
Proof. intros [-> | ->] Ht; exact Ht. Qed.
Lemma closes_end eol : eol_ok eol -> closes 1 eol.
Proof. intros [-> | ->]; cbn; done. Qed.

Lemma closes_headers eol hs : eol_ok eol -> Forall header_ok hs -> closes 1 (headers_text eol hs ++ eol).
Proof.
  intros He Hhs. induction Hhs as [|h hs Hh Hhs IH]; [by apply closes_end|].
  rewrite headers_text_cons. apply closes_line; [by apply plain_line|by destruct h as [[] ?]|]. by apply closes_eol.
Qed.

Lemma closes_head eol cmd hs : eol_ok eol -> plain cmd -> cmd <> [] -> Forall header_ok hs ->
  closes 0 (head_text eol cmd hs).
Proof.
  intros. unfold head_text. apply closes_line; [done|done|]. apply closes_eol; [done|]. by apply closes_headers.
Qed.

(** *** Its headers *)

(** Names that differ from each other without regard to case. *)
Fixpoint distinct (ns : list cstr) : Prop :=
  match ns with
  | [] => True
  | n :: ns' => Forall (fun m => same_nocase n m = false) ns' /\ distinct ns'
  end.

Definition new_names (K : list entry) (hs : list (cstr * cstr)) : Prop :=
  Forall (fun h => lookup_header K h.1 = None) hs /\ distinct hs.*1.

Lemma new_names_cons K h hs a : new_names K (h :: hs) ->
  lookup_header K h.1 = None /\ new_names (K ++ [(a, (h.1, Some h.2))]) hs.
Proof.
  intros [[HK HKs]%Forall_cons [Hd Hds]]. split; [done|]. split; [|done].
  apply Forall_forall. intros h' Hin. apply lookup_header_none, Forall_app. split.
  - apply lookup_header_none. by apply (proj1 (Forall_forall _ _) HKs).
  - repeat constructor. cbn. apply (proj1 (Forall_forall _ _) Hd). by apply (list_elem_of_fmap_2 fst).
Qed.

Lemma skip_header h t : header_ok h -> skip_crlf (header_text h ++ t) = header_text h ++ t.
Proof.
  intros Hh. pose proof (plain_line h Hh) as Hp. destruct (header_text h) as [|c l] eqn:E; [by destruct h as [[] ?]|].
  apply Forall_cons in Hp as [[_ Hc] _]. cbn [app skip_crlf].
  by rewrite !(proj2 (Z.eqb_neq _ _)) by (intros ->; unfold is_eol in Hc; auto).
Qed.

Lemma split_header h : header_ok h -> Api.strchr 58 (header_text h) = (h.1, Some (32 :: h.2)) /\ skip_blank (32 :: h.2) = h.2.
Proof.
  intros [_ Hc _ Hb]. split.
  - apply strchr_found. apply Forall_forall. intros d Hd ->. done.
  - cbn [skip_blank]. destruct h as [n [|c v]]; [done|]. cbn in *. by rewrite (proj2 (Z.eqb_neq _ _)).
Qed.

Definition CONTENT_LENGTH : cstr := bytes_of "content-length".
(** The length of the body a header announces. *)
Definition announces (h : cstr * cstr) : Z := if same_nocase h.1 CONTENT_LENGTH then Z.max 0 (atoi h.2) else 0.

Lemma header_line_spec s0 s ev K bd h eol t input bytes rest :
  building s0 s ev K EVENT_ID_EVENTSOCKET bd -> header_ok h -> eol_ok eol -> same_eol eol t ->
  lookup_header K h.1 = None -> (length K < hf)%nat ->
  arrives bytes input rest -> Z.of_nat (length bytes) = announces h ->
  exists s', header_line hf s ev (header_text h ++ eol ++ t) input = Ok (s', Some rest) /\
    building s0 s' ev (K ++ [(brk s, (h.1, Some h.2))]) EVENT_ID_EVENTSOCKET
      (if 0 <? announces h then Some (cstring bytes) else bd).
Proof.
  intros HB Hh Heol Ht Hl Hf Ha Hlen. unfold header_line.
  destruct (eol_split eol (header_text h) t Heol (plain_line h Hh) Ht) as [-> _].
  destruct (split_header h Hh) as [-> Hb]. cbv zeta. rewrite Hb.
  destruct (building_add s0 s ev K _ bd h.1 h.2 hf HB Hl Hf) as (s1 & -> & HB1). cbn [rbind].
  unfold announces in *. fold CONTENT_LENGTH. destruct (same_nocase h.1 CONTENT_LENGTH).
  2:{ destruct bytes; [|cbn in Hlen; lia]. inversion Ha; subst. by exists s1. }
  destruct (0 <? atoi h.2) eqn:Ep.
  2:{ rewrite (proj2 (Z.ltb_ge 0 (Z.max 0 (atoi h.2)))) by lia.
      destruct bytes; [|cbn in Hlen; lia]. inversion Ha; subst. by exists s1. }
  replace (Z.to_nat (atoi h.2)) with (length bytes) by lia. rewrite (recv_body_arrives _ _ _ Ha).
  rewrite (proj2 (Z.ltb_lt 0 (Z.max 0 (atoi h.2)))) by lia.
  destruct (bu_event _ _ _ _ _ _ HB1) as (e & He & Hid & Hbd & _). unfold agc_event_add_body.
  erewrite eput_ok by exact He. cbn [rbind]. eexists. split; [done|]. rewrite <- Hid.
  by apply (building_update _ _ _ _ _ _ (set_body (Some (cstring bytes))) e HB1).
Qed.

(** The bodies the headers [hs] announce arrive one after the other; [bd] is
    what the event has before, [bd'] after. *)
Inductive bodies : list (cstr * cstr) -> option cstr -> list arrival -> option cstr -> list arrival -> Prop :=
  | bodies_nil bd input : bodies [] bd input bd input
  | bodies_cons h hs bd bd' bytes input mid rest :
      arrives bytes input mid -> Z.of_nat (length bytes) = announces h ->
      bodies hs (if 0 <? announces h then Some (cstring bytes) else bd) mid bd' rest ->
      bodies (h :: hs) bd input bd' rest.

Lemma header_lines_spec s0 ev eol fuel hs bd input bd' rest : bodies hs bd input bd' rest ->
  forall t, eol_ok eol -> same_eol eol t -> Forall header_ok hs -> forall s K,
  building s0 s ev K EVENT_ID_EVENTSOCKET bd -> new_names K hs -> (length K + length hs <= hf)%nat ->
  exists s' K',
    header_lines hf (length hs + fuel) s ev (Some (skip_crlf (headers_text eol hs ++ t))) input =
      header_lines hf fuel s' ev (Some (skip_crlf t)) rest /\
    building s0 s' ev K' EVENT_ID_EVENTSOCKET bd' /\ K'.*2 = K.*2 ++ ((fun h => (h.1, Some h.2)) <$> hs).
Proof.
  induction 1 as [bd input|h hs bd bd' bytes input mid rest Ha Hlen Hbs IH]; intros t Heol Hte Hhs s K HB Hn Hf.
  - exists s, K. by rewrite app_nil_r.
  - apply Forall_cons in Hhs as [Hh Hhs]. rewrite headers_text_cons, skip_header by done. cbn [length Nat.add header_lines].
    destruct (new_names_cons K h hs (brk s) Hn) as [Hl Hn1].
    assert (same_eol eol (headers_text eol hs ++ t)) as Ht by (by apply headers_same_eol).
    destruct (eol_split eol (header_text h) _ Heol (plain_line h Hh) Ht) as [_ ->]. cbv zeta.
    destruct (header_line_spec s0 s ev K bd h eol _ input bytes mid HB Hh Heol Ht Hl ltac:(cbn in Hf; lia) Ha Hlen)
      as (s1 & -> & HB1). cbn [rbind].
    destruct (IH t Heol Hte Hhs s1 _ HB1 Hn1) as (s' & K' & -> & HB' & HK').
    { rewrite length_app. cbn in *. lia. }
    exists s', K'. split_and!; [done|done|]. by rewrite HK', fmap_app, <- app_assoc.
Qed.

Definition COMMAND : cstr := bytes_of "command".

(** A packet a client may send: a command line and headers. *)
Record request := Request { r_eol : cstr; r_cmd : cstr; r_headers : list (cstr * cstr) }.
Definition request_text (r : request) : cstr := head_text (r_eol r) (r_cmd r) (r_headers r).

Record request_ok (r : request) : Prop := RequestOk {
  ro_eol : eol_ok (r_eol r);
  ro_cmd : plain (r_cmd r);
  ro_some : r_cmd r <> [];
  ro_headers : Forall header_ok (r_headers r);
  ro_size : Z.of_nat (length (request_text r)) < EVTSKT_MAX_LEN }.

(** The headers of the event it is read as. *)
Definition request_headers (r : request) : list (cstr * option cstr) :=
  (COMMAND, Some (request_text r)) :: ((fun h => (h.1, Some h.2)) <$> r_headers r).

Lemma plain_text s : plain s -> Forall (fun c => c <> 0) s.
Proof. intros Hs. by apply (plain_not 0 s Hs (or_introl eq_refl)). Qed.
Lemma eol_text eol : eol_ok eol -> Forall (fun c => c <> 0) eol.
Proof. intros [-> | ->]; by repeat constructor. Qed.

Lemma headers_text_nonzero eol hs : eol_ok eol -> Forall header_ok hs -> Forall (fun c => c <> 0) (headers_text eol hs).
Proof.
  intros He. induction 1 as [|h hs Hh Hhs IH]; [constructor|]. rewrite <- (app_nil_r (headers_text _ _)), headers_text_cons, app_nil_r.
  rewrite !Forall_app. split_and!; [by apply plain_text, plain_line|by apply eol_text|done].
Qed.

Lemma headers_text_length eol hs : (length hs <= length (headers_text eol hs))%nat.
Proof.
  induction hs as [|h hs IH]; [done|]. rewrite <- (app_nil_r (headers_text _ _)), headers_text_cons, app_nil_r.
  rewrite !length_app. unfold header_text. rewrite length_app. cbn [length]. lia.
Qed.

Lemma request_text_nonzero r : request_ok r -> cstring (request_text r) = request_text r.
Proof.
  intros [He Hc _ Hh _]. apply cstring_id. unfold request_text, head_text. rewrite !Forall_app.
  split_and!; [by apply plain_text|by apply eol_text|by apply headers_text_nonzero|by apply eol_text].
Qed.

Lemma request_next r : request_ok r ->
  next_line (request_text r) = Some (skip_crlf (headers_text (r_eol r) (r_headers r) ++ r_eol r)).
Proof.
  intros [He Hc _ Hh _]. apply eol_split; [done|done|]. apply headers_same_eol; [done..|by apply eol_same].
Qed.

(** The event with its command, before the other headers. *)
Lemma read_lines_start s r input : store_ok s -> request_ok r -> (0 < hf)%nat ->
  exists s1 K, K.*2 = [(COMMAND, Some (request_text r))] /\
    building s s1 (brk s) K EVENT_ID_EVENTSOCKET None /\
    read_lines hf s (request_text r) input =
      let! (s', input') := header_lines hf (S (S (length (request_text r)))) s1 (brk s)
        (Some (skip_crlf (headers_text (r_eol r) (r_headers r) ++ r_eol r))) input in
      Ok (s', brk s, input').
Proof.
  intros Hok Hr Hf. pose proof (building_start s EVENT_ID_EVENTSOCKET Hok) as HB.
  destruct (building_add s _ (brk s) [] _ None COMMAND (request_text r) hf HB eq_refl Hf) as (s1 & Ha & HB1).
  eexists s1, _. split_and!; [|exact HB1|]; [done|].
  unfold read_lines. rewrite request_text_nonzero by done. cbv zeta. rewrite surjective_pairing at 1.
  cbn [agc_event_create fst snd] in *. fold COMMAND. rewrite Ha. cbn [rbind]. by rewrite request_next.
Qed.

Lemma skip_eol eol : eol_ok eol -> skip_crlf eol = [].
Proof. by intros [-> | ->]. Qed.

Lemma header_lines_end fuel s ev input : (1 < fuel)%nat -> header_lines hf fuel s ev (Some []) input = Ok (s, Some input).
Proof. intros. by destruct fuel as [|[|fuel]]; [lia..|]. Qed.

Lemma read_lines_spec s r input bd rest : store_ok s -> request_ok r ->
  distinct (COMMAND :: (r_headers r).*1) -> bodies (r_headers r) None input bd rest ->
  (length (r_headers r) < hf)%nat ->
  exists s' K, read_lines hf s (request_text r) input = Ok (s', brk s, Some rest) /\
    building s s' (brk s) K EVENT_ID_EVENTSOCKET bd /\ K.*2 = request_headers r.
Proof.
  intros Hok Hr [Hcmd Hd] Hbs Hf. destruct (read_lines_start s r input Hok Hr ltac:(lia)) as (s1 & K1 & HK1 & HB1 & ->).
  assert (length K1 = 1%nat) as HK1l by (apply (f_equal length) in HK1; by rewrite length_fmap in HK1).
  assert (length (r_headers r) <= length (request_text r))%nat as Hl.
  { unfold request_text, head_text. rewrite !length_app. pose proof (headers_text_length (r_eol r) (r_headers r)). lia. }
  replace (S (S (length (request_text r)))) with
    (length (r_headers r) + S (S (length (request_text r) - length (r_headers r))))%nat by lia.
  destruct (header_lines_spec s (brk s) (r_eol r) (S (S (length (request_text r) - length (r_headers r))))
    (r_headers r) None input bd rest Hbs _ (ro_eol r Hr) (eol_same _ (ro_eol r Hr)) (ro_headers r Hr) s1 K1 HB1) as (s' & K' & -> & HB' & HK').
  - split; [|done]. apply Forall_forall. intros h Hin. apply (lookup_header_names _ [(COMMAND, request_text r)]); [done|].
    repeat constructor. cbn. apply (proj1 (Forall_forall _ _) Hcmd). by apply (list_elem_of_fmap_2 fst).
  - lia.
  - rewrite skip_eol by apply Hr. rewrite header_lines_end by lia. cbn [rbind]. exists s', K'. split_and!; [done|done|]. by rewrite HK', HK1.
Qed.

(** ** A packet *)

Lemma request_start r : request_ok r -> line_start (request_text r).
Proof.
  intros [_ Hc Hn _ _]. unfold request_text, head_text. apply line_start_app; [done|].
  destruct (r_cmd r) as [|c l]; [done|]. apply Forall_cons in Hc as [[_ Hc] _]. unfold line_start. cbn.
  by rewrite !(proj2 (Z.eqb_neq _ _)) by (intros ->; unfold is_eol in Hc; auto).
Qed.

Lemma read_packet_head blanks r b c input mid : quiet c -> request_ok r -> Forall is_eol blanks ->
  arrives (blanks ++ request_text r) input mid ->
  read_packet hf input b c = packet_read b c (request_text r) mid.
Proof.
  intros Hq Hr Hbl (i1 & Ha1 & Ha2)%arrives_app. unfold read_packet.
  rewrite (read_loop_blanks blanks input i1) by (done || (unfold EVTSKT_BLOCK_LEN; lia)).
  apply (read_loop_head _ _ _ Ha2); [done| |by apply request_start|unfold EVTSKT_BLOCK_LEN; cbn; lia|apply Hr].
  apply closes_head; apply Hr.
Qed.

Lemma read_packet_spec blanks r b c input mid bd rest : quiet c -> store_ok (mem b) -> request_ok r ->
  distinct (COMMAND :: (r_headers r).*1) -> Forall is_eol blanks -> (length (r_headers r) < hf)%nat ->
  arrives (blanks ++ request_text r) input mid -> bodies (r_headers r) None mid bd rest ->
  exists m K, read_packet hf input b c = Ok (with_mem m b, c, Some (brk (mem b)), true, rest) /\
    building (mem b) m (brk (mem b)) K EVENT_ID_EVENTSOCKET bd /\ K.*2 = request_headers r.
Proof.
  intros Hq Hok Hr Hd Hbl Hf Ha Hbs. rewrite (read_packet_head blanks r b c input mid) by done. unfold packet_read.
  destruct (read_lines_spec (mem b) r mid bd rest) as (m & K & -> & HB & HK); [done..|]. cbn [rbind]. by exists m, K.
Qed.

End session.
End EslProof.
