(* ===== verification/EventSocketMain.v ===== *)
(** * The event socket: sessions and delivery

    What a session answers, the subscriptions a client asks for and the
    delivery of events to it, on top of the packets of [EventSocketProof]. *)

From stdpp Require Import base gmap list fin_maps strings.
From Stdlib Require Import ZArith Lia.
From S2P Require Import Prelude CString Queue Event EventProof EventBus Json JsonProof JsonMain EventJson Utils Api ApiProof EventSocket EventSocketProof.

Module EslMain.
Import Ev EvProof Bus EvJson ApiProof Esl EslProof.

(** ** Subscriptions *)

(** The words of a line, cut at each space. *)
Fixpoint words (s : cstr) : list cstr :=
  match s with
  | [] => [[]]
  | c :: s' =>
      if c =? 32 then [] :: words s'
      else match words s' with w :: ws => (c :: w) :: ws | [] => [[c]] end
  end.

Lemma words_strchr s : words s =
  match Api.strchr 32 s with (w, Some r) => w :: words r | (w, None) => [w] end.
Proof.
  induction s as [|c s IH]; [done|]. cbn [words Api.strchr]. destruct (c =? 32); [done|].
  rewrite IH. by destruct (Api.strchr 32 s) as [w [r|]].
Qed.

Lemma words_length s : (length (words s) <= S (length s))%nat.
Proof.
  induction s as [|c s IH]; [cbn; lia|]. cbn [words length]. destruct (c =? 32); [cbn; lia|].
  destruct (words s); cbn in *; lia.
Qed.

(** The event type a word names. *)
Definition names_id (b : bus) (w : cstr) : option Z := snd (agc_event_get_id b (Some w)).

Lemma get_id_range n b i w j : get_id_loop n b i w = Some j -> i <= j < i + Z.of_nat n.
Proof.
  revert i. induction n as [|n IH]; intros i; cbn [get_id_loop]; [done|].
  repeat case_match; intros; simplify_eq; try lia; specialize (IH (i + 1)); naive_solver lia.
Qed.

Lemma names_id_range b w i : names_id b w = Some i -> 0 <= i < EVENT_ID_LIMIT.
Proof.
  unfold names_id, agc_event_get_id. destruct (get_id_loop _ _ _ _) as [j|] eqn:E; [|done].
  cbn. intros [= <-]. apply get_id_range in E. unfold EVENT_ID_LIMIT in *. lia.
Qed.

Lemma get_id_names b w : agc_event_get_id b (Some w) =
  match names_id b w with Some i => (AGC_STATUS_SUCCESS, Some i) | None => (AGC_STATUS_GENERR, None) end.
Proof. unfold names_id, agc_event_get_id. by case_match. Qed.

(** Whether the words [ws] ask for the events of type [i]. *)
Definition asks (b : bus) (ws : list cstr) (i : Z) : bool :=
  existsb (fun w => bool_decide (names_id b w = Some i) || bool_decide (names_id b w = Some EVENT_ID_ALL)) ws.
Definition known (b : bus) (ws : list cstr) : list cstr := filter (fun w => is_Some (names_id b w)) ws.

(** The subscription as a list of flags. *)
Definition subscription (b : bus) (ws : list cstr) : list bool :=
  (fun i => asks b ws (Z.of_nat i)) <$> seq 0 (Z.to_nat EVENT_ID_LIMIT).

Definition merged (b : bus) (ws : list cstr) (l : list bool) : list bool :=
  imap (fun i v => v || asks b ws (Z.of_nat i)) l.

Lemma imap_merge (f g h : nat -> bool -> bool) l :
  (forall i v, (i < length l)%nat -> f i (g i v) = h i v) -> imap f (imap g l) = imap h l.
Proof.
  intros E. apply list_eq. intros i. rewrite !list_lookup_imap. destruct (l !! i) eqn:Hi; [|done]. cbn.
  f_equal. apply E. by eapply lookup_lt_Some.
Qed.

Lemma set_all n l : length l = n -> replicate n true = imap (fun _ v => v || true) l.
Proof.
  intros <-. apply list_eq. intros i. rewrite list_lookup_imap. destruct (l !! i) eqn:E; cbn.
  - rewrite orb_true_r. apply lookup_replicate_2. by eapply lookup_lt_Some.
  - apply lookup_ge_None. rewrite length_replicate. by apply lookup_ge_None.
Qed.

Lemma set_one (j : Z) (l : list bool) : 0 <= j ->
  <[Z.to_nat j := true]> l = imap (fun i v => v || bool_decide (j = Z.of_nat i)) l.
Proof.
  intros Hj. apply list_eq. intros i. rewrite list_lookup_imap. destruct (decide (i = Z.to_nat j)) as [->|Hne].
  - rewrite list_lookup_insert, bool_decide_true by lia. destruct (l !! Z.to_nat j) eqn:E; cbn.
    + rewrite decide_True, orb_true_r; [done|]. split; [done|]. by eapply lookup_lt_Some.
    + rewrite decide_False; [done|]. intros [_ Hlt]. apply lookup_ge_None in E. lia.
  - rewrite list_lookup_insert_ne, bool_decide_false by lia. destruct (l !! i); cbn; [by rewrite orb_false_r|done].
Qed.

Lemma asks_cons b w ws i : asks b (w :: ws) i = asks b [w] i || asks b ws i.
Proof. unfold asks. cbn [existsb]. by rewrite orb_false_r. Qed.

Lemma merged_cons b w ws l : merged b ws (merged b [w] l) = merged b (w :: ws) l.
Proof. apply imap_merge. intros i v _. by rewrite (asks_cons b w ws), orb_assoc. Qed.

Lemma merged_length b ws l : length (merged b ws l) = length l.
Proof. apply length_imap. Qed.

Lemma known_cons b w ws : length (known b (w :: ws)) = (length (known b [w]) + length (known b ws))%nat.
Proof. unfold known. by rewrite (filter_app _ [w] ws), length_app. Qed.

Lemma merged_unknown b w l : names_id b w = None -> merged b [w] l = l.
Proof.
  intros Hw. apply list_eq. intros i. unfold merged. rewrite list_lookup_imap. destruct (l !! i); [|done]. cbn.
  unfold asks. cbn. rewrite Hw. by rewrite !bool_decide_false, !orb_false_r by done.
Qed.

(** One word. *)
Lemma subscribe_word fuel b l cur k w next : length l = Z.to_nat EVENT_ID_LIMIT -> Api.strchr 32 cur = (w, next) ->
  subscribe (S fuel) b l (Some cur) k = subscribe fuel b (merged b [w] l) next (k + length (known b [w])).
Proof.
  intros Hl Es. cbn [subscribe]. rewrite Es, get_id_names. unfold known. rewrite filter_cons, filter_nil.
  destruct (names_id b w) as [i|] eqn:Hw.
  2:{ rewrite decide_False by (intros [? ?]; congruence). cbn [length]. by rewrite Nat.add_0_r, merged_unknown. }
  rewrite decide_True by (by eexists). cbn [length]. rewrite Nat.add_1_r.
  pose proof (names_id_range b w i Hw) as Hr. destruct (i =? EVENT_ID_ALL) eqn:Ei.
  - apply Z.eqb_eq in Ei as ->. rewrite (set_all _ l) by done. f_equal. apply imap_ext. intros j v _.
    unfold asks. cbn. by rewrite Hw, (bool_decide_true (Some EVENT_ID_ALL = Some EVENT_ID_ALL)), !orb_true_r by done.
  - assert (in_array i = true) as -> by (unfold in_array; rewrite andb_true_iff, Z.leb_le, Z.ltb_lt; lia).
    cbn [negb]. rewrite set_one by lia. f_equal. apply imap_ext. intros j v _. unfold asks. cbn. rewrite Hw.
    apply Z.eqb_neq in Ei. rewrite (bool_decide_false (Some i = Some EVENT_ID_ALL)) by congruence.
    rewrite !orb_false_r. f_equal. apply bool_decide_ext. split; congruence.
Qed.

Lemma subscribe_spec fuel b l cur k : length l = Z.to_nat EVENT_ID_LIMIT -> (length (words cur) < fuel)%nat ->
  subscribe fuel b l (Some cur) k = Ok (merged b (words cur) l, (k + length (known b (words cur)))%nat).
Proof.
  revert l cur k. induction fuel as [|fuel IH]; intros l cur k Hl Hf; [lia|].
  rewrite (words_strchr cur) in *. destruct (Api.strchr 32 cur) as [w next] eqn:Es.
  rewrite (subscribe_word fuel b l cur k w next Hl Es). destruct next as [r|].
  - rewrite IH by (rewrite ?merged_length; cbn in Hf; lia || done). by rewrite merged_cons, (known_cons b w (words r)), Nat.add_assoc.
  - destruct fuel; [cbn in Hf; lia|]. done.
Qed.

Lemma merged_none b ws : merged b ws (replicate (Z.to_nat EVENT_ID_LIMIT) false) = subscription b ws.
Proof.
  apply list_eq. intros i. unfold merged, subscription. rewrite list_lookup_imap, list_lookup_fmap.
  destruct (decide (i < Z.to_nat EVENT_ID_LIMIT)%nat).
  - by rewrite lookup_replicate_2, lookup_seq_lt by done.
  - rewrite !(proj2 (lookup_ge_None _ _)); [done|rewrite length_seq; lia|rewrite length_replicate; lia].
Qed.

(** ** Sessions *)

(** The words behind [event]. *)
Definition requested (cmd : cstr) : list cstr :=
  match snd (Api.strchr 32 (drop 5 cmd)) with Some r => words r | None => [] end.

Definition says_exit (cmd : cstr) : bool := has_prefix (bytes_of "exit") cmd || has_prefix (bytes_of "...") cmd.

(** What a command line other than [api] does to the connection, and its reply. *)
Definition answer (b : bus) (cmd : cstr) (c : event_connect) : event_connect * cstr :=
  if says_exit cmd then (Esl.with_running false c, bytes_of "+OK bye")
  else if has_prefix (bytes_of "event") cmd then
    let c := with_list (subscription b (requested cmd)) c in
    match known b (requested cmd) with
    | [] => (with_has_event false c, bytes_of "-ERR no keywords supplied")
    | _ => (with_has_event true c, bytes_of "+OK")
    end
  else (c, []).

Definition answered (b : bus) (c : event_connect) (r : request) : event_connect :=
  if is_running c then let (c, reply) := answer b (r_cmd r) c in send (reply_frame reply) c else c.

(** It depends on the names of the event types only. *)
Lemma get_id_mem n m b i w : get_id_loop n (with_mem m b) i w = get_id_loop n b i w.
Proof. revert i. induction n as [|n IH]; intros i; [done|]. cbn. by repeat case_match. Qed.
Lemma names_id_mem m b w : names_id (with_mem m b) w = names_id b w.
Proof. unfold names_id, agc_event_get_id. by rewrite get_id_mem. Qed.
Lemma subscription_mem m b ws : subscription (with_mem m b) ws = subscription b ws.
Proof.
  apply list_fmap_ext. intros i x _. unfold asks. cbv beta. induction ws as [|w ws IH]; cbn [existsb]; [reflexivity|].
  by rewrite names_id_mem, IH.
Qed.
Lemma known_mem m b ws : known (with_mem m b) ws = known b ws.
Proof. apply list_filter_iff. intros w. by rewrite names_id_mem. Qed.
Lemma answer_mem m b cmd c : answer (with_mem m b) cmd c = answer b cmd c.
Proof. unfold answer. by rewrite known_mem, subscription_mem. Qed.
Lemma answered_mem m b c r : answered (with_mem m b) c r = answered b c r.
Proof. unfold answered. by rewrite answer_mem. Qed.

Lemma answers_mem m b rs c : foldl (answered (with_mem m b)) c rs = foldl (answered b) c rs.
Proof. revert c. induction rs as [|r rs IH]; intros c; cbn [foldl]; [reflexivity|]. rewrite answered_mem. apply IH. Qed.

Lemma answers_stopped b rs c : is_running c = false -> foldl (answered b) c rs = c.
Proof.
  intros Hrun. induction rs as [|r rs IH]; [done|]. cbn [foldl].
  replace (answered b c r) with c; [done|]. unfold answered. by rewrite Hrun.
Qed.

Lemma answer_keeps b cmd c : event_queue (answer b cmd c).1 = event_queue c.
Proof. unfold answer. by repeat case_match. Qed.

Lemma answered_quiet b c r : quiet c -> quiet (answered b c r).
Proof.
  intros [H1 H2 H3]. unfold answered. destruct (is_running c); [|done].
  pose proof (answer_keeps b (r_cmd r) c) as Hq. destruct (answer b (r_cmd r) c) as [c' reply]. cbn in Hq.
  by split; cbn; rewrite Hq.
Qed.

(** *** Prefixes of the command line *)

Lemma has_prefix_app p l t : (length p <= length l)%nat -> has_prefix p (l ++ t) = has_prefix p l.
Proof. intros Hl. unfold has_prefix. by rewrite take_app_le. Qed.

Lemma same_nocase_length a b : same_nocase a b = true -> length a = length b.
Proof. unfold same_nocase. intros E%bool_decide_eq_true%(f_equal length). by rewrite !length_fmap in E. Qed.

Lemma has_prefix_long p l : has_prefix p l = true -> (length p <= length l)%nat.
Proof. unfold has_prefix. intros E%same_nocase_length. rewrite length_take in E. lia. Qed.

(** A prefix of printable bytes does not reach into the end of the line. *)
Lemma tolower_eol c d : is_eol c -> ~ is_eol d -> tolower c <> tolower d.
Proof.
  intros [-> | ->] Hd; unfold is_eol, CR, LF, tolower, is_upper in *; cbn;
    destruct ((65 <=? d) && (d <=? 90)) eqn:E; [rewrite andb_true_iff, !Z.leb_le in E|..|rewrite andb_true_iff, !Z.leb_le in E|]; lia.
Qed.

Lemma has_prefix_line p l t : plain p -> is_eol (hd 0 t) -> has_prefix p (l ++ t) = has_prefix p l.
Proof.
  intros Hp Ht. destruct (decide (length p <= length l)%nat) as [Hl|Hl]; [by apply has_prefix_app|].
  assert (has_prefix p l = false) as ->.
  { apply not_true_is_false. intros E%has_prefix_long. lia. }
  apply bool_decide_eq_false. intros E. destruct t as [|e t]; [by destruct Ht|]. cbn in Ht.
  apply (f_equal (.!! length l)) in E. rewrite !list_lookup_fmap, lookup_take_lt, list_lookup_middle in E by (done || lia).
  destruct (lookup_lt_is_Some_2 p (length l)) as [d Hd]; [lia|]. rewrite Hd in E. cbn in E. injection E as E.
  destruct (proj1 (Forall_forall _ _) Hp d) as [_ Hde]; [by eapply list_elem_of_lookup_2|].
  by apply (tolower_eol e d Ht Hde).
Qed.

Lemma request_rest r : request_ok r -> exists t, request_text r = r_cmd r ++ t /\ is_eol (hd 0 t).
Proof.
  intros [He _ _ _ _]. eexists. split; [reflexivity|].
  destruct He as [-> | ->]; [by right|by left].
Qed.

Ltac plain_bytes := apply (bool_decide_unpack _); vm_compute; exact I.
#[global] Instance plain_dec s : Decision (plain s).
Proof. unfold plain, is_eol. apply _. Defined.

Lemma request_prefix p r : request_ok r -> plain p -> has_prefix p (request_text r) = has_prefix p (r_cmd r).
Proof. intros Hr Hp. destruct (request_rest r Hr) as (t & -> & Ht). by apply has_prefix_line. Qed.

Lemma request_line r : request_ok r -> strip_cr (request_text r) = r_cmd r.
Proof.
  intros [He Hc _ Hh _]. apply eol_split; [done|done|]. apply headers_same_eol; [done..|by apply eol_same].
Qed.

Lemma strchr_rest c s w r : Api.strchr c s = (w, Some r) -> (length r < length s)%nat.
Proof.
  revert w. induction s as [|d s IH]; intros w; cbn; [done|]. destruct (d =? c); [intros [= <- <-]; lia|].
  destruct (Api.strchr c s) as [w' r'] eqn:E. intros [= <- ->]. specialize (IH w' eq_refl). lia.
Qed.

Section session.
Context `{Json.FloatOps} (hf : nat).
Context (junk : nat -> Z) (run_func : Z -> option cstr -> Api.stream -> result (Api.stream * agc_status)).
Context (APIS : list Api.agc_api_interface).

Lemma command_header s ev K r : has_headers s ev K -> K.*2 = request_headers r -> (length K < hf)%nat ->
  agc_event_get_header hf s ev COMMAND = Ok (Some (request_text r)).
Proof.
  intros HH HK Hf. rewrite (get_header_spec s ev K) by done.
  destruct K as [|[a [n v]] K]; [done|]. unfold request_headers in HK. cbn in HK. injection HK as -> -> _. done.
Qed.

Lemma parse_event b c (ev : Z) r : request_ok r -> says_exit (r_cmd r) = false -> has_prefix (bytes_of "event") (r_cmd r) = true ->
  (let cur := drop 5 (strip_cr (request_text r)) in
   let l := replicate (Z.to_nat EVENT_ID_LIMIT) false in
   let! (l, key_count) := subscribe (S (S (length cur))) b l (snd (Api.strchr 32 cur)) 0 in
   let c := with_list l c in
   if (key_count =? 0)%nat
   then Ok (b, with_has_event false c, Some ev, bytes_of "-ERR no keywords supplied", @nil Api.action)
   else Ok (b, with_has_event true c, Some ev, bytes_of "+OK", [])) =
  Ok (b, (answer b (r_cmd r) c).1, Some ev, (answer b (r_cmd r) c).2, []).
Proof.
  intros Hr Hx Hp. cbv zeta. rewrite request_line by done. unfold answer. rewrite Hx, Hp. unfold requested.
  destruct (Api.strchr 32 (drop 5 (r_cmd r))) as [w [t|]] eqn:E; cbn [snd].
  - pose proof (strchr_rest _ _ _ _ E). pose proof (words_length t).
    rewrite subscribe_spec by (rewrite ?length_replicate; lia || done). cbn [rbind Nat.add].
    rewrite merged_none. by destruct (known b (words t)).
  - cbn [subscribe rbind]. rewrite <- (merged_none b []). unfold merged.
    replace (imap _ _) with (replicate (Z.to_nat EVENT_ID_LIMIT) false); [done|].
    apply list_eq. intros i. rewrite list_lookup_imap. destruct (replicate _ _ !! i) as [v|]; [|done].
    cbn. by rewrite orb_false_r.
Qed.

Lemma parse_command_spec b c ev K r : has_headers (mem b) ev K -> K.*2 = request_headers r -> (length K < hf)%nat ->
  request_ok r -> has_prefix (bytes_of "api ") (r_cmd r) = false ->
  parse_command hf junk run_func APIS b c ev = Ok (b, (answer b (r_cmd r) c).1, Some ev, (answer b (r_cmd r) c).2, []).
Proof.
  intros HH HK Hf Hr Hapi. unfold parse_command. fold COMMAND. rewrite (command_header _ ev K r) by done. cbn [rbind].
  rewrite !(request_prefix _ r Hr) by plain_bytes. fold (says_exit (r_cmd r)). rewrite Hapi.
  destruct (says_exit (r_cmd r)) eqn:Hx; [by unfold answer; rewrite Hx|].
  destruct (has_prefix (bytes_of "event") (r_cmd r)) eqn:Hp; [by apply parse_event|].
  unfold answer. by rewrite Hx, Hp.
Qed.

(** The event of a packet goes with all its headers. *)
Lemma building_destroy s0 s ev K id bd : building s0 s ev K id bd -> store_ok s0 -> (length K < hf)%nat ->
  exists s', agc_event_destroy hf s ev = Ok (s', NULL) /\ store_ok s' /\ hdrs s' = hdrs s0 /\ brk s0 <= brk s' /\
    forall k, k < brk s0 -> evts s' !! k = evts s0 !! k.
Proof.
  intros [Hok HH (e & He & _) (Hev & Hb & HK) Hfr Hce] Hok0 Hf. pose proof (so_brk _ Hok0).
  destruct (destroy_frame s ev K hf HH ltac:(unfold NULL; lia) Hf) as (s' & -> & Hh & Hev' & Hbrk).
  assert (hdrs s' = hdrs s0) as Hh0.
  { apply map_eq. intros k. rewrite Hh. case_decide as Hin; [|by apply Hce]. symmetry.
    apply eq_None_not_Some. intros ?%(so_hdrs _ Hok0). apply (proj1 (Forall_forall _ _) HK) in Hin. lia. }
  exists s'. split_and!; try done; [|lia|].
  - split; rewrite ?Hh0, ?Hbrk; [|intros a Ha|by apply (so_brk _ Hok)].
    + intros a Ha%(so_hdrs _ Hok0). lia.
    + apply (so_evts _ Hok). destruct (decide (a = ev)) as [->|]; [by eexists|]. by rewrite <- Hev'.
  - intros k Hk. rewrite Hev' by lia. by apply Hfr.
Qed.

(** The requests [rs] come one after the other. *)
Inductive transcript : list request -> list arrival -> Prop :=
  | transcript_nil input : transcript [] input
  | transcript_cons blanks r rs bd input mid rest :
      Forall is_eol blanks -> arrives (blanks ++ request_text r) input mid ->
      bodies (r_headers r) None mid bd rest -> transcript rs rest -> transcript (r :: rs) input.

Record command_ok (r : request) : Prop := CommandOk {
  co_request : request_ok r;
  co_names : distinct (COMMAND :: (r_headers r).*1);
  co_fuel : (S (length (r_headers r)) < hf)%nat;
  co_api : has_prefix (bytes_of "api ") (r_cmd r) = false }.

(** What serving the requests does to memory. *)
Definition unchanged (s s' : store) : Prop :=
  store_ok s' /\ hdrs s' = hdrs s /\ brk s <= brk s' /\ forall k, k < brk s -> evts s' !! k = evts s !! k.

(** One turn of the loop: a request is read, and what is behind it is left. *)
Lemma connection_run_read fuel b c r blanks input mid bd rest acts : is_running c = true -> quiet c -> store_ok (mem b) ->
  command_ok r -> Forall is_eol blanks -> arrives (blanks ++ request_text r) input mid -> bodies (r_headers r) None mid bd rest ->
  exists m, connection_run hf junk run_func APIS (S fuel) b c input acts =
      connection_run hf junk run_func APIS fuel (with_mem m b) (answered b c r) rest acts /\ unchanged (mem b) m.
Proof.
  intros Hrun Hq Hok [Hr Hd Hf Hapi] Hbl Ha Hbs.
  cbn [connection_run]. rewrite Hrun. cbn [negb].
  destruct (read_packet_spec hf blanks r b c input mid bd rest Hq Hok Hr Hd Hbl ltac:(lia) Ha Hbs) as (m & K & -> & HB & HK).
  cbn [rbind negb].
  assert (length K < hf)%nat as HKf.
  { apply (f_equal length) in HK. rewrite length_fmap in HK. unfold request_headers in HK.
    rewrite length_cons, length_fmap in HK. lia. }
  rewrite (parse_command_spec (with_mem m b) c (brk (mem b)) K r) by (done || by apply HB). cbn [rbind].
  destruct (building_destroy _ _ _ _ _ _ HB Hok HKf) as (m' & Hde & Hun). cbn [mem with_mem]. rewrite Hde. cbn [rbind].
  exists m'. split; [|done]. rewrite app_nil_r. unfold answered. rewrite Hrun.
  rewrite answer_mem. by destruct (answer b (r_cmd r) c).
Qed.

Lemma connection_run_turn fuel b c r rs input acts : is_running c = true -> quiet c -> store_ok (mem b) ->
  command_ok r -> transcript (r :: rs) input ->
  exists m rest, connection_run hf junk run_func APIS (S fuel) b c input acts =
      connection_run hf junk run_func APIS fuel (with_mem m b) (answered b c r) rest acts /\
    unchanged (mem b) m /\ transcript rs rest.
Proof.
  intros Hrun Hq Hok Hr Ht. inversion Ht as [|blanks ? ? bd ? mid rest Hbl Ha Hbs Hrest]; subst.
  destruct (connection_run_read fuel b c r blanks input mid bd rest acts Hrun Hq Hok Hr Hbl Ha Hbs) as (m & -> & Hun). by exists m, rest.
Qed.

(** The connection ends, after any pauses. *)
Inductive ends : list arrival -> Prop :=
  | ends_closed : ends []
  | ends_broken rest : ends (Broken :: rest)
  | ends_again rest : ends rest -> ends (Again :: rest).

Lemma connection_run_ends fuel b c input acts : is_running c = true -> quiet c -> ends input ->
  connection_run hf junk run_func APIS (S fuel) b c input acts =
    Ok (b, send_disconnect true (bytes_of "Disconnected, goodbye." ++ [LF]) c, acts).
Proof.
  intros Hrun Hq He. cbn [connection_run]. rewrite Hrun. cbn [negb].
  assert (forall n, exists rest, read_loop hf input [] n 0 b c = Ok (b, c, None, false, rest)) as Hr.
  { induction He as [|rest|rest He IH]; intros n; cbn [read_loop]; [by eexists..|]. rewrite idle_quiet by done. cbn [rbind]. apply IH. }
  unfold read_packet. destruct (Hr EVTSKT_BLOCK_LEN) as [rest ->]. done.
Qed.

#[local] Opaque answered.

Lemma unchanged_trans s1 s2 s3 : unchanged s1 s2 -> unchanged s2 s3 -> unchanged s1 s3.
Proof.
  intros (? & Hh & ? & He) (? & Hh' & ? & He'). split_and!; [done|congruence|lia|].
  intros k Hk. rewrite He' by lia. by apply He.
Qed.

Lemma connection_run_spec rs : forall b c input acts fuel, quiet c -> store_ok (mem b) -> Forall command_ok rs ->
  transcript rs input -> is_running (foldl (answered b) c rs) = false -> (length rs < fuel)%nat ->
  exists m, connection_run hf junk run_func APIS fuel b c input acts =
      Ok (with_mem m b, send_disconnect true (bytes_of "Disconnected, goodbye." ++ [LF]) (foldl (answered b) c rs), acts) /\
    unchanged (mem b) m.
Proof.
  induction rs as [|r rs IH]; intros b c input acts fuel Hq Hok Hrs Ht Hstop Hf; (destruct fuel as [|fuel]; [lia|]).
  - cbn in Hstop. cbn [connection_run]. rewrite Hstop. exists (mem b). split; [by destruct b|].
    by split_and!.
  - apply Forall_cons in Hrs as [Hr Hrs]. destruct (is_running c) eqn:Hrun.
    + destruct (connection_run_turn fuel b c r rs input acts Hrun Hq Hok Hr Ht) as (m & rest & -> & Hun & Ht').
      cbn [foldl] in *.
      pose proof (answers_mem m b rs) as Hfold.
      destruct (IH (with_mem m b) (answered b c r) rest acts fuel) as (m' & -> & Hun').
      * by apply answered_quiet.
      * apply Hun.
      * exact Hrs.
      * exact Ht'.
      * rewrite Hfold. exact Hstop.
      * cbn in Hf. lia.
      * exists m'. rewrite Hfold. split; [done|]. by eapply unchanged_trans.
    + rewrite answers_stopped by done. cbn [connection_run]. rewrite Hrun. exists (mem b). split; [by destruct b|]. by split_and!.
Qed.

(** *** A second command *)

(** A request whose last header is a second ["command"]. *)
Record crafted (r : request) (hs : list (cstr * cstr)) (n v : cstr) : Prop := Crafted {
  cr_request : request_ok r;
  cr_headers : r_headers r = hs ++ [(n, v)];
  cr_name : same_nocase COMMAND n = true;
  cr_names : distinct (COMMAND :: hs.*1);
  cr_fuel : (S (S (length hs)) < hf)%nat }.

Lemma headers_text_snoc eol hs h t : headers_text eol (hs ++ [h]) ++ t = headers_text eol hs ++ header_text h ++ eol ++ t.
Proof. unfold headers_text. rewrite fmap_app, concat_app. cbn [fmap list_fmap concat]. by rewrite app_nil_r, <- !app_assoc. Qed.

Lemma looped_command s a q v0 v K : looped s a (set_entry q v <$> (q, (COMMAND, v0)) :: K) q -> (0 < hf)%nat ->
  agc_event_get_header hf s a COMMAND = Ok (Some v).
Proof.
  intros ((e & He & HL) & _) Hf. rewrite fmap_cons in HL. unfold set_entry in HL at 1. cbn [fst snd] in HL.
  rewrite Z.eqb_refl in HL. destruct HL as (Hh & Hq & nx & Hm & _).
  unfold agc_event_get_header, agc_event_get_header_ptr. erewrite eget_bind by exact He. rewrite Hh.
  destruct hf as [|f]; [lia|]. cbn [find_header]. rewrite (proj2 (Z.eqb_neq _ _) Hq).
  erewrite hget_bind by exact Hm. cbn [name]. rewrite same_nocase_refl. cbn [rbind].
  rewrite (proj2 (Z.eqb_neq _ _) Hq). by erewrite hget_bind by exact Hm.
Qed.

(** The header that is found again is re-linked behind itself. *)
Lemma header_line_again s0 s ev K bd n v eol t input v0 : building s0 s ev K EVENT_ID_EVENTSOCKET bd ->
  header_ok (n, v) -> eol_ok eol -> same_eol eol t -> head K.*2 = Some (COMMAND, v0) -> same_nocase COMMAND n = true ->
  (length K < hf)%nat ->
  exists s' q K', K = (q, (COMMAND, v0)) :: K' /\
    header_line hf s ev (header_text (n, v) ++ eol ++ t) input = Ok (s', Some input) /\
    looped s' ev (set_entry q v <$> K) q.
Proof.
  intros HB Hh Heol Ht HK Hn Hf. destruct K as [|[q [n0 v1]] K']; [done|]. cbn in HK. injection HK as -> ->.
  unfold header_line. destruct (eol_split eol (header_text (n, v)) t Heol (plain_line _ Hh) Ht) as [-> _].
  destruct (split_header _ Hh) as [-> Hb]. cbv zeta. cbn [fst snd] in *. rewrite Hb. unfold agc_event_add_header_string.
  assert (lookup_header ((q, (COMMAND, v0)) :: K') n = Some (q, (COMMAND, v0))) as Hl.
  { cbn [lookup_header fst snd]. by rewrite Hn. }
  destruct (add_header_loops s ev _ n v (q, (COMMAND, v0)) hf (bu_headers _ _ _ _ _ _ HB) Hl Hf) as (s' & -> & Hlo).
  cbn [rbind]. assert (same_nocase n (bytes_of "content-length") = false) as ->.
  { rewrite <- (same_nocase_subst COMMAND n _ Hn). by vm_compute. }
  by exists s', q, K'.
Qed.

Lemma read_lines_crafted s r hs n v input bd rest : store_ok s -> crafted r hs n v -> bodies hs None input bd rest ->
  exists s' q v0 K, read_lines hf s (request_text r) input = Ok (s', brk s, Some rest) /\
    looped s' (brk s) (set_entry q v <$> (q, (COMMAND, v0)) :: K) q /\ (S (length K) < hf)%nat.
Proof.
  intros Hok [Hr Hhs Hn [Hcmd Hd] Hf] Hbs.
  destruct (read_lines_start hf s r input Hok Hr ltac:(lia)) as (s1 & K1 & HK1 & HB1 & ->).
  assert (length K1 = 1%nat) as HK1l by (apply (f_equal length) in HK1; by rewrite length_fmap in HK1).
  pose proof (ro_headers r Hr) as Hok'. rewrite Hhs in Hok'. apply Forall_app in Hok' as [Hhok [Hnok _]%Forall_cons].
  pose proof (ro_eol r Hr) as Heol. pose proof (eol_same _ Heol) as Heos.
  assert (S (length hs) <= length (request_text r))%nat as Hl.
  { unfold request_text, head_text. rewrite !length_app. pose proof (headers_text_length (r_eol r) (r_headers r)) as Hl.
    rewrite Hhs, length_app in Hl. cbn [length] in Hl. rewrite Hhs. lia. }
  rewrite Hhs, headers_text_snoc.
  replace (S (S (length (request_text r)))) with (length hs + S (S (length (request_text r) - length hs)))%nat by lia.
  destruct (header_lines_spec hf s (brk s) (r_eol r) (S (S (length (request_text r) - length hs))) hs None input bd rest Hbs
    (header_text (n, v) ++ r_eol r ++ r_eol r)) with (s := s1) (K := K1) as (s2 & K2 & -> & HB2 & HK2); try done.
  - by apply plain_same_eol; [|apply plain_line|].
  - split; [|done]. apply Forall_forall. intros h Hin. apply (lookup_header_names _ [(COMMAND, request_text r)]); [done|].
    repeat constructor. cbn. apply (proj1 (Forall_forall _ _) Hcmd). by apply (list_elem_of_fmap_2 fst).
  - lia.
  - rewrite skip_header by done. rewrite HK1 in HK2. cbn [app] in HK2.
    assert (length K2 = S (length hs)) as HK2l.
    { apply (f_equal length) in HK2. by rewrite length_cons, !length_fmap in HK2. }
    remember (S (length (request_text r) - length hs)) as F eqn:HF. cbn [header_lines].
    destruct (eol_split (r_eol r) (header_text (n, v)) (r_eol r) Heol (plain_line _ Hnok) Heos) as [_ ->].
    destruct (header_line_again s s2 (brk s) K2 bd n v (r_eol r) (r_eol r) rest (Some (request_text r))) as
      (s3 & q & K' & -> & Hl3 & Hlo); try done; [by rewrite HK2|lia|].
    cbv zeta. rewrite Hl3. cbn [rbind]. rewrite skip_eol by done.
    rewrite (header_lines_end hf F) by lia. cbn [rbind].
    eexists s3, q, _, K'. split_and!; [done|exact Hlo|]. cbn [length] in HK2l. lia.
Qed.

Lemma connection_run_crafted fuel blanks r hs n v b c input mid bd rest acts :
  is_running c = true -> quiet c -> store_ok (mem b) -> crafted r hs n v -> Forall is_eol blanks ->
  arrives (blanks ++ request_text r) input mid -> bodies hs None mid bd rest ->
  has_prefix (bytes_of "api ") v = false -> has_prefix (bytes_of "event") v = false ->
  connection_run hf junk run_func APIS (S fuel) b c input acts = Fault BadPointer.
Proof.
  intros Hrun Hq Hok Hcr Hbl Ha Hbs Hapi Hev. cbn [connection_run]. rewrite Hrun. cbn [negb].
  pose proof (so_brk _ Hok).
  rewrite (read_packet_head hf blanks r b c input mid) by (done || apply Hcr). unfold packet_read.
  destruct (read_lines_crafted (mem b) r hs n v mid bd rest Hok Hcr Hbs) as (s' & q & v0 & K & -> & Hlo & HKf).
  cbn [rbind negb]. unfold parse_command. fold COMMAND. cbn [mem with_mem].
  rewrite (looped_command _ _ _ _ _ _ Hlo) by lia. cbn [rbind].
  assert (agc_event_destroy hf s' (brk (mem b)) = Fault BadPointer) as Hde.
  { eapply looped_destroy; [exact Hlo|unfold NULL; lia|]. rewrite length_fmap. cbn [length]. lia. }
  rewrite Hapi, Hev. destruct (_ || _); cbn [rbind mem with_mem]; rewrite Hde; done.
Qed.

End session.

(** ** Distribution *)

(** Event [ev] has the id, the source, the body and the headers of [d]. *)
Definition copy (s : store) (d : event) (L : list entry) (ev : Z) : Prop :=
  exists K e, has_headers s ev K /\ K.*2 = L.*2 /\ evts s !! ev = Some e /\
    event_id e = event_id d /\ source_id e = source_id d /\ body e = body d.

Lemma copy_extends s s' d L ev : store_ok s -> extends s s' -> copy s d L ev -> copy s' d L ev.
Proof.
  intros Hok Hex (K & e & HK & HE & He & Hr). exists K, e. split_and!; try done; try apply Hr.
  - by eapply extends_headers.
  - destruct (ex_frame _ _ Hex ev) as [_ ->]; [|done]. apply (so_evts _ Hok). by eexists.
Qed.

Definition wants (c : event_connect) (id : Z) : bool := has_event c && default false (event_list c !! Z.to_nat id).
Definition has_room (c : event_connect) : bool := negb (Queue.apr_queue_full (event_queue c)).

Record conn_ok (c : event_connect) : Prop := ConnOk {
  cn_wf : Queue.wf (event_queue c);
  cn_live : Queue.terminated (event_queue c) = false;
  cn_list : length (event_list c) = Z.to_nat EVENT_ID_LIMIT }.

(** Every subscriber with room has a copy of its own at the end of its queue,
    the copies at addresses that grow from [lo]; the others are as before. *)
Inductive distributed (s : store) (d : event) (L : list entry) : Z -> list event_connect -> list event_connect -> Prop :=
  | distributed_nil lo : distributed s d L lo [] []
  | distributed_skip lo c l l' : wants c (event_id d) && has_room c = false ->
      distributed s d L lo l l' -> distributed s d L lo (c :: l) (c :: l')
  | distributed_give lo c l l' clone q : wants c (event_id d) && has_room c = true ->
      lo <= clone -> copy s d L clone ->
      Queue.wf q -> Queue.terminated q = false -> Queue.contents q = Queue.contents (event_queue c) ++ [clone] ->
      distributed s d L (clone + 1) l l' -> distributed s d L lo (c :: l) (with_queue q c :: l').

Lemma distributed_weaken s d L lo lo' l l' : lo' <= lo -> distributed s d L lo l l' -> distributed s d L lo' l l'.
Proof.
  intros Hlo H. revert lo' Hlo. induction H; intros lo' Hlo; [constructor|by constructor; auto|].
  apply (distributed_give _ _ _ _ _ _ _ clone); try done. lia.
Qed.

Lemma trypush_spec q v : Queue.wf q -> Queue.terminated q = false ->
  if Queue.apr_queue_full q then Queue.apr_queue_trypush q v = Ok (q, Queue.APR_EAGAIN)
  else exists q', Queue.apr_queue_trypush q v = Ok (q', Queue.APR_SUCCESS) /\ Queue.wf q' /\
    Queue.terminated q' = false /\ Queue.contents q' = Queue.contents q ++ [v].
Proof.
  intros Hwf Ht. unfold Queue.apr_queue_trypush. rewrite Ht. destruct (Queue.apr_queue_full q) eqn:E; [done|].
  unfold Queue.apr_queue_full in E. pose proof (Queue.wf_nelts q Hwf).
  destruct (Queue.put_spec q v Hwf) as (q' & -> & ? & ? & _ & _ & ? & _); [lia|]. cbn. exists q'. split_and!; congruence.
Qed.

Lemma destroy_copy s ev K fuel s0 : extends s0 s -> store_ok s0 -> has_headers s ev K -> brk s0 <= ev ->
  Forall (fun a => brk s0 <= a) (addrs K) -> (length K < fuel)%nat ->
  exists s', agc_event_destroy fuel s ev = Ok (s', NULL) /\ extends s0 s' /\ brk s' = brk s.
Proof.
  intros Hex Hok0 HH Hev HK Hf. pose proof (so_brk _ Hok0). pose proof (ex_ok _ _ Hex) as Hok.
  destruct (destroy_frame s ev K fuel HH ltac:(unfold NULL; lia) Hf) as (s' & -> & Hh & He & Hb).
  exists s'. split_and!; try done. split; [split|rewrite Hb; apply Hex|].
  - intros a Ha. rewrite Hb, Hh in *. case_decide; [by destruct Ha|]. by apply (so_hdrs _ Hok).
  - intros a Ha. rewrite Hb. destruct (decide (a = ev)) as [->|Hne]; [|rewrite He in Ha by done; by apply (so_evts _ Hok)].
    destruct HH as [(e & Hee & _) _]. apply (so_evts _ Hok). by eexists.
  - rewrite Hb. apply (so_brk _ Hok).
  - intros k Hk. rewrite Hh, He by lia. rewrite decide_False; [by apply Hex|].
    intros Hin. apply (proj1 (Forall_forall _ _) HK) in Hin. lia.
Qed.

Section distribute.
Context (hf : nat) (event : Z) (d : Ev.event) (L : list entry).
Context (Hdn : distinct_names L) (Hv : Forall (fun x => x.2.2 <> None) L) (Hf : (2 * length L < hf)%nat).
Context (Hid : in_array (event_id d) = true).

(** One connection. *)
Lemma distribute_one s c l : store_ok s -> has_headers s event L -> evts s !! event = Some d -> conn_ok c ->
  exists s1 c1, extends s s1 /\
    distribute hf s event (event_id d) (c :: l) = (let! (s', l') := distribute hf s1 event (event_id d) l in Ok (s', c1 :: l')) /\
    if wants c (event_id d) && has_room c then
      exists q, c1 = with_queue q c /\ copy s1 d L (brk s) /\ brk s < brk s1 /\ Queue.wf q /\ Queue.terminated q = false /\
        Queue.contents q = Queue.contents (event_queue c) ++ [brk s]
    else c1 = c.
Proof.
  intros Hok HL Hd [Hwf Ht Hl]. cbn [distribute]. unfold wants.
  unfold in_array in Hid. rewrite andb_true_iff, Z.leb_le, Z.ltb_lt in Hid.
  destruct (has_event c); cbn [andb].
  2:{ exists s, c. split_and!; [by apply extends_refl|done|done]. }
  rewrite (proj2 (Z.leb_le _ _)) by lia.
  destruct (lookup_lt_is_Some_2 (event_list c) (Z.to_nat (event_id d))) as [[] Hw]; [lia|rewrite Hw; cbn [default andb]..].
  2:{ exists s, c. split_and!; [by apply extends_refl|done|done]. }
  destruct (dup_frame s event d L hf) as (s1 & K & e & -> & HK & HE & Hex & Hlt & Hlow & He & Hr); [done..|].
  cbn [rbind id]. rewrite bool_decide_true by done.
  pose proof (trypush_spec (event_queue c) (brk s) Hwf Ht) as Hp. unfold has_room.
  destruct (Queue.apr_queue_full (event_queue c)) eqn:Hfull; cbn [negb].
  - rewrite Hp. cbn [rbind]. rewrite bool_decide_false by done.
    destruct (destroy_copy s1 (brk s) K hf s) as (s2 & -> & Hex2 & _); try done.
    { apply (f_equal length) in HE. rewrite !length_fmap in HE. lia. }
    exists s2, c. cbn [rbind]. by rewrite with_queue_id.
  - destruct Hp as (q & -> & ? & ? & ?). cbn [rbind]. rewrite bool_decide_true by done. cbn [rbind].
    eexists s1, _. split_and!; [done|done|]. exists q. split_and!; try done. exists K, e. done.
Qed.

Lemma distribute_spec l : forall s, store_ok s -> has_headers s event L -> evts s !! event = Some d -> Forall conn_ok l ->
  exists s' l', distribute hf s event (event_id d) l = Ok (s', l') /\ extends s s' /\ distributed s' d L (brk s) l l'.
Proof.
  induction l as [|c l IH]; intros s Hok HL Hd Hl.
  { exists s, []. split_and!; [done|by apply extends_refl|constructor]. }
  apply Forall_cons in Hl as [Hc Hl].
  destruct (distribute_one s c l Hok HL Hd Hc) as (s1 & c1 & Hex & -> & Hone).
  assert (evts s1 !! event = Some d) as Hd1.
  { destruct (ex_frame _ _ Hex event) as [_ ->]; [|done]. apply (so_evts _ Hok). by eexists. }
  pose proof (extends_headers _ _ _ _ Hok Hex HL) as HL1. pose proof (ex_ok _ _ Hex) as Hok1.
  destruct (IH s1 Hok1 HL1 Hd1 Hl) as (s' & l' & -> & Hex' & Hdis). cbn [rbind].
  exists s', (c1 :: l'). split_and!; [done|by eapply extends_trans|].
  destruct (wants c (event_id d) && has_room c) eqn:Hw.
  - destruct Hone as (q & -> & Hcp & Hlt & ? & ? & ?). eapply distributed_give; try done.
    + by eapply copy_extends.
    + eapply distributed_weaken; [|done]. lia.
  - subst c1. apply distributed_skip; [done|]. eapply distributed_weaken; [|done]. apply Hex.
Qed.

End distribute.

(** ** Delivery *)

(** An event on its way: its address, its headers and its fields. *)
Record pending := Pending { p_ev : Z; p_entries : list entry; p_event : event }.

Record pending_ok (b : bus) (x : pending) : Prop := PendingOk {
  po_ev : p_ev x <> NULL;
  po_event : evts (mem b) !! p_ev x = Some (p_event x);
  po_headers : has_headers (mem b) (p_ev x) (p_entries x);
  po_id : in_array (event_id (p_event x)) = true;
  po_text : Forall member_ok (event_members b (p_entries x) (event_id (p_event x)) (body (p_event x))) }.

(** The frame the client gets: the event as a JSON object. *)
Definition pending_json `{Json.FloatOps} (b : bus) (x : pending) : cstr :=
  JsonValue.render false 0
    (JsonValue.JObj ((fun m => (m.1, JsonValue.JStr m.2)) <$> event_members b (p_entries x) (event_id (p_event x)) (body (p_event x)))).

(** The events share neither cells nor headers. *)
Fixpoint apart (xs : list pending) : Prop :=
  match xs with
  | [] => True
  | x :: xs' => Forall (fun y => p_ev y <> p_ev x /\ forall a, a ∈ addrs (p_entries y) -> a ∉ addrs (p_entries x)) xs' /\ apart xs'
  end.

Lemma pending_frame m b x y : pending_ok b x -> pending_ok b y -> p_ev y <> p_ev x ->
  (forall a, a ∈ addrs (p_entries y) -> a ∉ addrs (p_entries x)) ->
  (forall k, hdrs m !! k = if decide (k ∈ addrs (p_entries x)) then None else hdrs (mem b) !! k) ->
  (forall k, k <> p_ev x -> evts m !! k = evts (mem b) !! k) -> pending_ok (with_mem m b) y.
Proof.
  intros Hx [H1 H2 [(e & He & HL & Hla) Hnd] H4 H5] Hne Hdis Hh Hev. split; cbn [mem with_mem]; try done.
  - by rewrite Hev.
  - split; [|done]. exists e. rewrite Hev by done. split_and!; [done| |done]. eapply hseg_ext; [|exact HL].
    intros a Ha. rewrite Hh, decide_False; [done|]. by apply Hdis.
Qed.

Lemma trypop_spec q v l : Queue.wf q -> Queue.terminated q = false -> Queue.contents q = v :: l ->
  exists q', Queue.apr_queue_trypop q = Ok (q', Queue.APR_SUCCESS, Some v) /\ Queue.wf q' /\
    Queue.terminated q' = false /\ Queue.contents q' = l.
Proof.
  intros Hwf Ht Hc. pose proof (Queue.full_length q Hwf) as Hl. rewrite Hc in Hl. cbn in Hl.
  unfold Queue.apr_queue_trypop, Queue.apr_queue_empty. rewrite Ht, (proj2 (Z.eqb_neq _ _)) by lia.
  destruct (Queue.get_spec q Hwf) as (q' & v' & l' & -> & ? & Hc' & ? & _ & _ & ? & _); [lia|].
  rewrite Hc in Hc'. injection Hc' as <- <-. cbn. exists q'. split_and!; congruence.
Qed.

Section delivery.
Context `{JsonValue.FloatLaws} (hf : nat).

Lemma serialize_pending b x : pending_ok b x -> (length (p_entries x) < hf)%nat ->
  agc_event_serialize_json hf b (p_ev x) = Ok (Some (pending_json b x), AGC_STATUS_SUCCESS).
Proof.
  intros [_ He HH Hid Hm] Hf. unfold agc_event_serialize_json.
  rewrite (serialize_json_obj_spec hf b _ _ (p_entries x)) by done. cbn [rbind]. rewrite object_of_tree.
  unfold Json.cJSON_PrintUnformatted.
  by rewrite (JsonValue.print_value_render false _) by (by apply valid_members || by apply JsonValue.represents_tree_of, valid_members).
Qed.

Definition frames (b : bus) (xs : list pending) : list Z := concat ((fun x => event_frame (pending_json b x)) <$> xs).

Lemma send_events_spec xs : forall b c, Queue.wf (event_queue c) -> Queue.terminated (event_queue c) = false ->
  Queue.contents (event_queue c) = p_ev <$> xs -> Forall (pending_ok b) xs -> apart xs ->
  Forall (fun x => length (p_entries x) < hf)%nat xs ->
  exists m q, send_events hf (S (length xs)) b c = Ok (with_mem m b, send (frames b xs) (with_queue q c)) /\
    Queue.wf q /\ Queue.terminated q = false /\ Queue.contents q = [] /\
    (forall k, hdrs m !! k = if decide (Exists (fun x => k ∈ addrs (p_entries x)) xs) then None else hdrs (mem b) !! k) /\
    (forall k, k ∉ p_ev <$> xs -> evts m !! k = evts (mem b) !! k).
Proof.
  induction xs as [|x xs IH]; intros b c Hwf Ht Hc Hok Hap Hf.
  - exists (mem b), (event_queue c). cbn [length send_events]. rewrite trypop_empty by done. cbn [rbind].
    split_and!; try done.
    unfold send. cbn. rewrite app_nil_r. by destruct b, c.
  - apply Forall_cons in Hok as [Hx Hok]. apply Forall_cons in Hf as [Hfx Hf]. destruct Hap as [Hax Hap].
    destruct (trypop_spec (event_queue c) (p_ev x) _ Hwf Ht Hc) as (q1 & Hpop & Hwf1 & Ht1 & Hc1).
    cbn [length]. set (F := S (length xs)) in *. cbn [send_events]. rewrite Hpop. cbn [rbind].
    rewrite serialize_pending by done. cbn [rbind].
    destruct (destroy_frame (mem b) (p_ev x) (p_entries x) hf (po_headers _ _ Hx) (po_ev _ _ Hx) Hfx)
      as (m1 & -> & Hh1 & He1 & _). cbn [rbind].
    destruct (IH (with_mem m1 b) (send (event_frame (pending_json b x)) (with_queue q1 c))) as
      (m & q & -> & Hwf2 & Ht2 & Hc2 & Hh2 & He2); try done.
    { apply Forall_forall. intros y Hy. destruct (proj1 (Forall_forall _ _) Hax y Hy) as [Hne Hdis].
      eapply pending_frame; [exact Hx|by apply (proj1 (Forall_forall _ _) Hok)|done..]. }
    exists m, q. split_and!; try done.
    + f_equal. f_equal. unfold frames, send. cbn. by rewrite <- app_assoc.
    + intros k. rewrite Hh2. cbn [mem with_mem]. rewrite Hh1. rewrite (decide_ext _ _ _ _ (Exists_cons _ _ _)).
      repeat case_decide; naive_solver.
    + intros k Hk. cbn [fmap list_fmap] in Hk. apply not_elem_of_cons in Hk as [Hk1 Hk2].
      rewrite He2 by done. cbn [mem with_mem]. by apply He1.
Qed.

End delivery.

End EslMain.

Import Ev EvProof Bus EvJson ApiProof Esl EslProof EslMain.

(** A fresh connection, a request, and its bytes in two pieces. *)
Definition demo_conn : event_connect := new_connection 1.
Definition demo_request : request :=
  Request [CR; LF] (bytes_of "sendmsg") [(bytes_of "Content-Length", bytes_of "2"); (bytes_of "To", bytes_of "x")].
Definition demo_exit : request := Request [LF] (bytes_of "exit") [].
Definition demo_event_request : request := Request [LF] (bytes_of "event all") [].

Lemma demo_quiet : quiet demo_conn.
Proof. destruct (Queue.wf_create MAX_QUEUE_LEN ltac:(unfold MAX_QUEUE_LEN; lia)). by split. Qed.

Ltac demo_plain := apply (bool_decide_unpack _); vm_compute; exact I.
Lemma demo_request_ok : request_ok demo_request.
Proof.
  split; [by right|demo_plain|done| |by vm_compute].
  repeat constructor; (demo_plain || (by apply (bool_decide_unpack _); vm_compute) || by vm_compute).
Qed.
Lemma demo_exit_ok : request_ok demo_exit.
Proof. split; [by left|demo_plain|done|constructor|by vm_compute]. Qed.
Lemma demo_event_ok : request_ok demo_event_request.
Proof. split; [by left|demo_plain|done|constructor|by vm_compute]. Qed.

(** C14: A packet is read as it was written: whatever the
    pieces in which its bytes arrive, blank lines in front of it, and either
    line ending, [read_packet] returns an event whose first header is the
    command (the whole text), followed by the headers of the packet in order,
    with the body that its content length announces; it reads no byte behind
    the packet, and touches no event and no header that was there.  The names
    of the headers are all different, without regard to case, and none is
    ["command"]: a repeated name makes the list of headers cyclic, which is
    fatal ([esl_second_command_faults]). *)
Theorem esl_read_packet_correct `{Json.FloatOps} hf blanks r b c input mid bd rest :
  quiet c -> store_ok (mem b) -> request_ok r -> distinct (COMMAND :: (r_headers r).*1) ->
  Forall is_eol blanks -> (length (r_headers r) < hf)%nat ->
  arrives (blanks ++ request_text r) input mid -> bodies (r_headers r) None mid bd rest ->
  exists m K e, read_packet hf input b c = Ok (with_mem m b, c, Some (brk (mem b)), true, rest) /\
    has_headers m (brk (mem b)) K /\ K.*2 = request_headers r /\
    evts m !! brk (mem b) = Some e /\ event_id e = EVENT_ID_EVENTSOCKET /\ body e = bd /\
    (forall k, k < brk (mem b) -> hdrs m !! k = hdrs (mem b) !! k /\ evts m !! k = evts (mem b) !! k).
Proof.
  intros Hq Hok Hr Hd Hbl Hf Ha Hbs.
  destruct (read_packet_spec hf blanks r b c input mid bd rest) as (m & K & Hrd & HB & HK); [done..|].
  destruct (bu_event _ _ _ _ _ _ HB) as (e & He & Hid & Hbd & _).
  exists m, K, e. split_and!; try done; apply HB.
Qed.

Lemma esl_read_packet_correct_witness :
  exists m K e, @read_packet exact_floats 9
      (Again :: ((Data <$> LF :: request_text demo_request) ++ [Again; Data 104; Again; Data 105; Data 9])) demo_bus demo_conn =
      Ok (with_mem m demo_bus, demo_conn, Some 4, true, [Data 9]) /\
    has_headers m 4 K /\ K.*2 = request_headers demo_request /\ evts m !! 4 = Some e /\ body e = Some (bytes_of "hi").
Proof.
  destruct (@esl_read_packet_correct exact_floats 9 [LF] demo_request demo_bus demo_conn
    (Again :: ((Data <$> LF :: request_text demo_request) ++ [Again; Data 104; Again; Data 105; Data 9]))
    [Again; Data 104; Again; Data 105; Data 9] (Some (bytes_of "hi")) [Data 9]) as (m & K & e & ? & ? & ? & ? & _ & ? & _).
  - exact demo_quiet.
  - exact demo_store_ok.
  - exact demo_request_ok.
  - repeat constructor.
  - apply Forall_cons. split; [right; reflexivity|constructor].
  - cbn. lia.
  - apply arrives_again, arrives_whole.
  - apply (bodies_cons _ _ _ _ (bytes_of "hi") _ [Data 9]); [repeat constructor|reflexivity|].
    apply (bodies_cons _ _ _ _ [] _ [Data 9]); [constructor|reflexivity|constructor].
  - exists m, K, e. split_and!; assumption.
Defined.

(** A session whose requests arrive one after the other, none of them an
    [api] command, and one of them [exit], ends: [connection_run] returns,
    having sent the reply of each request up to the [exit] in order and then
    the farewell, with the subscription the last [event] command asked for,
    every header it allocated freed, and no other event touched. *)
Theorem esl_session_ends `{Json.FloatOps} hf junk run_func APIS rs b c input fuel :
  quiet c -> store_ok (mem b) -> Forall (command_ok hf) rs -> transcript rs input ->
  is_running (foldl (answered b) c rs) = false -> (length rs < fuel)%nat ->
  exists m, connection_run hf junk run_func APIS fuel b c input [] =
      Ok (with_mem m b, send_disconnect true (bytes_of "Disconnected, goodbye." ++ [LF]) (foldl (answered b) c rs), []) /\
    hdrs m = hdrs (mem b) /\ (forall k, k < brk (mem b) -> evts m !! k = evts (mem b) !! k).
Proof.
  intros Hq Hok Hrs Ht Hstop Hf.
  destruct (connection_run_spec hf junk run_func APIS rs b c input [] fuel Hq Hok Hrs Ht Hstop Hf) as (m & E & _ & Hh & _ & He).
  exists m. split; [exact E|]. by split.
Qed.

Lemma esl_session_ends_witness :
  exists m, @connection_run exact_floats 9 (fun _ => 0) (fun _ _ st => Ok (st, AGC_STATUS_SUCCESS)) [] 3 demo_bus demo_conn
      ((Data <$> request_text demo_event_request) ++ (Data <$> request_text demo_exit) ++ []) [] =
      Ok (with_mem m demo_bus, send_disconnect true (bytes_of "Disconnected, goodbye." ++ [LF])
            (foldl (answered demo_bus) demo_conn [demo_event_request; demo_exit]), []) /\
    hdrs m = hdrs demo_store.
Proof.
  destruct (@esl_session_ends exact_floats 9 (fun _ => 0) (fun _ _ st => Ok (st, AGC_STATUS_SUCCESS)) []
    [demo_event_request; demo_exit] demo_bus demo_conn
    ((Data <$> request_text demo_event_request) ++ (Data <$> request_text demo_exit) ++ []) 3) as (m & E & ? & _).
  - exact demo_quiet.
  - exact demo_store_ok.
  - apply Forall_cons. split; [|apply Forall_cons; split; [|constructor]].
    + split; [exact demo_event_ok|repeat constructor|cbn; lia|reflexivity].
    + split; [exact demo_exit_ok|repeat constructor|cbn; lia|reflexivity].
  - apply (transcript_cons [] demo_event_request [demo_exit] None _ ((Data <$> request_text demo_exit) ++ [])
      ((Data <$> request_text demo_exit) ++ [])); [constructor|apply arrives_whole|constructor|].
    apply (transcript_cons [] demo_exit [] None _ [] []); [constructor|apply arrives_whole|constructor|constructor].
  - vm_compute. reflexivity.
  - cbn. lia.
  - exists m. split; assumption.
Defined.

(** A packet with a second header named ["command"], in any case, brings the
    process down: reading it links the header list of its event into a loop,
    and destroying the event after the command runs into a header that has
    been freed. *)
Theorem esl_second_command_faults `{Json.FloatOps} hf junk run_func APIS blanks r hs n v b c input mid bd rest fuel :
  is_running c = true -> quiet c -> store_ok (mem b) -> crafted hf r hs n v -> Forall is_eol blanks ->
  arrives (blanks ++ request_text r) input mid -> bodies hs None mid bd rest ->
  has_prefix (bytes_of "api ") v = false -> has_prefix (bytes_of "event") v = false ->
  connection_run hf junk run_func APIS (S fuel) b c input [] = Fault BadPointer.
Proof. apply connection_run_crafted. Qed.

Definition demo_crafted : request := Request [LF] (bytes_of "x") [(bytes_of "Command", bytes_of "y")].

Lemma esl_second_command_faults_witness :
  @connection_run exact_floats 9 (fun _ => 0) (fun _ _ st => Ok (st, AGC_STATUS_SUCCESS)) [] 1 demo_bus demo_conn
    (Data <$> bytes_of "x" ++ LF :: bytes_of "Command: y" ++ [LF; LF]) [] = Fault BadPointer.
Proof.
  apply (@esl_second_command_faults exact_floats 9 _ _ _ [] demo_crafted [] (bytes_of "Command") (bytes_of "y") _ _ _ [] None []).
  - reflexivity.
  - exact demo_quiet.
  - exact demo_store_ok.
  - split; [|reflexivity|reflexivity|repeat constructor|cbn; lia].
    split; [by left|demo_plain|done| |by vm_compute]. constructor; [|constructor].
    split; (demo_plain || (by apply (bool_decide_unpack _); vm_compute) || by vm_compute).
  - constructor.
  - rewrite <- (app_nil_r (Data <$> _)). apply (arrives_whole (request_text demo_crafted)).
  - constructor.
  - reflexivity.
  - reflexivity.
Defined.


Definition demo_subscriber : event_connect :=
  with_has_event true (with_list (replicate (Z.to_nat EVENT_ID_LIMIT) true) demo_conn).

Lemma demo_distinct : distinct_names demo_entries.
Proof.
  intros L1 x L2 E. unfold demo_entries in E. destruct L1 as [|y [|z [|w L1]]]; simplify_eq/=; repeat constructor.
Qed.


(** A connection that waits for a packet sends what its queue holds: the
    events in the order of the queue, each as one frame with its length and
    its JSON text, after which the queue is empty and every header of these
    events is freed. *)
Theorem esl_idle_delivers `{JsonValue.FloatLaws} hf xs b c :
  Queue.wf (event_queue c) -> Queue.terminated (event_queue c) = false -> has_event c = true ->
  Queue.contents (event_queue c) = p_ev <$> xs -> Forall (pending_ok b) xs -> apart xs ->
  Forall (fun x => length (p_entries x) < hf)%nat xs ->
  exists m q, idle hf [] b c = Ok (with_mem m b, send (frames b xs) (with_queue q c)) /\
    Queue.wf q /\ Queue.contents q = [] /\
    (forall k, hdrs m !! k = if decide (Exists (fun x => k ∈ addrs (p_entries x)) xs) then None else hdrs (mem b) !! k).
Proof.
  intros Hwf Ht He Hc Hok Hap Hf. unfold idle. rewrite He. cbn [hd andb]. change (0 =? 0) with true. cbv iota.
  pose proof (Queue.full_length _ Hwf) as Hl. rewrite Hc, length_fmap in Hl. rewrite <- Hl, Nat2Z.id.
  destruct (send_events_spec hf xs b c Hwf Ht Hc Hok Hap Hf) as (m & q & -> & ? & _ & ? & ? & _). by exists m, q.
Qed.

Definition demo_waiting : event_connect :=
  with_queue (Queue.AprQueue [1; 0] 1 1 0 2 0 0 false) demo_subscriber.

Lemma esl_idle_delivers_witness :
  exists m q, @idle exact_floats 9 [] demo_bus demo_waiting =
      Ok (with_mem m demo_bus,
          send (@frames exact_floats demo_bus [Pending 1 demo_entries demo_event]) (with_queue q demo_waiting)) /\
    Queue.contents q = [] /\ hdrs m !! 2 = None.
Proof.
  destruct (@esl_idle_delivers exact_floats exact_floats_laws 9 [Pending 1 demo_entries demo_event] demo_bus demo_waiting)
    as (m & q & E & _ & Hq & Hm).
  - split; cbn; first [lia|reflexivity].
  - reflexivity.
  - reflexivity.
  - reflexivity.
  - apply Forall_cons. split; [|constructor].
    split; [discriminate|reflexivity|exact demo_has_headers|reflexivity|].
    apply (bool_decide_unpack _). vm_compute. exact I.
  - split; constructor.
  - apply Forall_cons. split; [cbn; lia|constructor].
  - exists m, q. split; [exact E|]. split; [exact Hq|]. rewrite Hm. reflexivity.
Defined.
