(* ===== verification/Yaml.v ===== *)
(** * Reading configuration files

    The configuration readers of the framework ([src/src/agc_module.c],
    [src/src/mod/.../load_configuration]) share one form: a loop over the
    tokens of the YAML scanner, which keeps whether the last mark was a key and
    what the last key was.  The scanner is not part of the repository: its
    tokens are the input.  Strings are copied with [strcpy] into buffers of
    fixed size. *)

From stdpp Require Import base list strings.
From Stdlib Require Import ZArith Lia.
From S2P Require Import Prelude CString.

Module Yaml.

Inductive yaml_token :=
  | YAML_KEY_TOKEN
  | YAML_VALUE_TOKEN
  | YAML_SCALAR_TOKEN (value : cstr)
  | YAML_BLOCK_ENTRY_TOKEN
  | YAML_BLOCK_END_TOKEN
  | YAML_STREAM_END_TOKEN
  | YAML_OTHER_TOKEN.

(** The loop over the tokens, up to the end of the stream; [false] when the
    scanner failed, which is where the list ends. *)
Fixpoint scan {S : Type} (step : S -> yaml_token -> result S) (s : S) (tokens : list yaml_token) : result (S * bool) :=
  match tokens with
  | [] => Ok (s, false)
  | t :: rest =>
      let! s := step s t in
      match t with YAML_STREAM_END_TOKEN => Ok (s, true) | _ => scan step s rest end
  end.

(** [strcpy(buf + off, s)]: the text and its terminator have to fit. *)
Definition strcpy (buf : list Z) (off : nat) (s : cstr) : result (list Z) := blit buf off (s ++ [0]).

(** [buf[i] = c] *)
Definition set_byte (buf : list Z) (i : nat) (c : Z) : result (list Z) := blit buf i [c].

(** ** Facts *)

(** The tokens of a mapping entry whose value is one scalar. *)
Definition entry (k v : cstr) : list yaml_token :=
  [YAML_KEY_TOKEN; YAML_SCALAR_TOKEN k; YAML_VALUE_TOKEN; YAML_SCALAR_TOKEN v].

(** A sequence of tokens without the end of the stream is run through. *)
Fixpoint steps {S : Type} (step : S -> yaml_token -> result S) (s : S) (tokens : list yaml_token) : result S :=
  match tokens with
  | [] => Ok s
  | t :: rest => let! s := step s t in steps step s rest
  end.

Definition goes_on (t : yaml_token) : Prop := match t with YAML_STREAM_END_TOKEN => False | _ => True end.

Lemma steps_app {S} (step : S -> yaml_token -> result S) l1 : forall s l2,
  steps step s (l1 ++ l2) = let! s := steps step s l1 in steps step s l2.
Proof. induction l1 as [|t l1 IH]; intros s l2; cbn; [done|]. destruct (step s t); cbn; [apply IH|done|done]. Qed.

Lemma scan_steps {S} (step : S -> yaml_token -> result S) l : forall s rest, Forall goes_on l ->
  scan step s (l ++ rest) = let! s := steps step s l in scan step s rest.
Proof.
  induction l as [|t l IH]; intros s rest Hl; cbn; [done|]. apply Forall_cons in Hl as [Ht Hl].
  destruct (step s t) as [s'| |] eqn:E; cbn; [|done|done].
  destruct t; try done; by apply IH.
Qed.

Lemma strcpy_fits t rest s : (length s < length rest)%nat ->
  strcpy (t ++ rest) (length t) s = Ok (t ++ s ++ 0 :: drop (S (length s)) rest).
Proof.
  intros Hl. unfold strcpy. rewrite blit_tail by (rewrite length_app; cbn; lia).
  rewrite length_app. cbn [length]. by rewrite <- app_assoc, Nat.add_1_r.
Qed.

Lemma strcpy_overflows buf off s : (length buf < off + length s + 1)%nat -> strcpy buf off s = Fault OutOfBounds.
Proof.
  intros Hl. unfold strcpy, blit. rewrite length_app. cbn [length]. by rewrite (proj2 (Nat.leb_gt _ _)) by lia.
Qed.

End Yaml.
