(* ===== verification/Redis.v ===== *)
(** * The redis cache module

    [src/src/mod/caches/mod_redis/mod_redis.c]: a pool of connections in a
    queue and the cache operations on them, and the front end
    [src/src/agc_cache.c].  The client library is not part of the repository:
    the class [Hiredis] has one member per call that the module makes, on a
    state of the library, the servers and the clocks; the arguments of a
    command are the strings that its format stands for.  A push that has to
    wait does not return ([OutOfFuel]). *)

From stdpp Require Import base gmap list fin_maps strings.
From Stdlib Require Import ZArith Lia.
From S2P Require Import Prelude CString Queue Event Utils Yaml.

Module Redis.
Import Ev.

(** [struct redisReply]; only a string reply has a string. *)
Inductive redisReply :=
  | REDIS_REPLY_STRING (str : list Z)
  | REDIS_REPLY_ARRAY (element : list redisReply)
  | REDIS_REPLY_INTEGER (integer : Z)
  | REDIS_REPLY_NIL
  | REDIS_REPLY_STATUS (str : list Z)
  | REDIS_REPLY_ERROR (str : list Z).

(** The calls of the client library.  [redis_connect] is the initialisation of
    a context up to [redisClusterConnect2]: no context, or one and its [err]. *)
Class Hiredis := {
  world : Type;
  redis_connect : world -> world * option (Z * Z);
  redis_free : world -> Z -> world;
  redis_err : world -> Z -> Z;
  redis_append : world -> Z -> list cstr -> world * bool;
  redis_get_reply : world -> Z -> world * (bool * option redisReply);
  redis_command : world -> Z -> list cstr -> world * option redisReply;
  redis_reset : world -> Z -> world;
  timer_curtime : world -> Z;
  time_now : world -> Z }.

Definition MAX_ADDRS_LEN : nat := 512.
Definition MIN_POOL_CONNECTIONS : Z := 2.
Definition MAX_POOL_CONNECTIONS : Z := 32.
Definition MAX_POOL_RETRIES : nat := 5.

(** ** The configuration *)

Inductive keytype := KEYTYPE_POOLSIZE | KEYTYPE_ADDR | KEYTYPE_UNKOWN.

Record config := Config {
  iskey : bool;
  ktype : keytype;
  redis_addrs : list Z;
  pos : nat;
  pool_size : Z }.

Definition config_step (c : config) (t : Yaml.yaml_token) : result config :=
  match t with
  | Yaml.YAML_KEY_TOKEN => Ok (Config true (ktype c) (redis_addrs c) (pos c) (pool_size c))
  | Yaml.YAML_VALUE_TOKEN => Ok (Config false (ktype c) (redis_addrs c) (pos c) (pool_size c))
  | Yaml.YAML_SCALAR_TOKEN v =>
      if iskey c then
        let k :=
          if bool_decide (v = bytes_of "poolsize") then KEYTYPE_POOLSIZE
          else if bool_decide (v = bytes_of "addr") then KEYTYPE_ADDR else KEYTYPE_UNKOWN in
        Ok (Config (iskey c) k (redis_addrs c) (pos c) (pool_size c))
      else
        match ktype c with
        | KEYTYPE_ADDR =>
            let! b := Yaml.strcpy (redis_addrs c) (pos c) v in
            let! b := Yaml.set_byte b (pos c + length v) 44 in
            Ok (Config (iskey c) (ktype c) b (pos c + length v + 1) (pool_size c))
        | KEYTYPE_POOLSIZE =>
            let n := Utils.agc_atoui v in
            let n := if MAX_POOL_CONNECTIONS <? n then MAX_POOL_CONNECTIONS else n in
            let n := if n <? MIN_POOL_CONNECTIONS then MIN_POOL_CONNECTIONS else n in
            Ok (Config (iskey c) (ktype c) (redis_addrs c) (pos c) n)
        | KEYTYPE_UNKOWN => Ok c
        end
  | _ => Ok c
  end.

(** [load_configuration]: the addresses and the size of the pool.  [addrs] is
    the block from the memory pool, which is zeroed; the outcome of the scanner
    is ignored. *)
Definition load_configuration (pool_size0 : Z) (tokens : list Yaml.yaml_token) : result (cstr * Z) :=
  let! (c, _) := Yaml.scan config_step (Config false KEYTYPE_UNKOWN (replicate MAX_ADDRS_LEN 0) 0 pool_size0) tokens in
  match pos c with
  | O => Fault OutOfBounds
  | S p =>
      match redis_addrs c !! p with
      | None => Fault OutOfBounds
      | Some ch =>
          let! b := (if ch =? 44 then Yaml.set_byte (redis_addrs c) p 0 else Ok (redis_addrs c)) in
          Ok (cstring b, pool_size c)
      end
  end.

(** ** The pool *)

(** [struct agc_redis_connection_s] *)
Record agc_redis_connection := RedisConnection {
  connected : bool;
  cc : option Z;
  connect_time : Z }.

Section redis.
Context `{Hiredis}.

Record redis := RedisState {
  SYSTEM_RUNNING : bool;
  REDIS_CONTEXT_QUEUE : Queue.apr_queue_t;
  conns : gmap Z agc_redis_connection;
  lib : world }.

Definition with_queue q r := RedisState (SYSTEM_RUNNING r) q (conns r) (lib r).
Definition with_conns m r := RedisState (SYSTEM_RUNNING r) (REDIS_CONTEXT_QUEUE r) m (lib r).
Definition with_lib w r := RedisState (SYSTEM_RUNNING r) (REDIS_CONTEXT_QUEUE r) (conns r) w.
Definition with_running v r := RedisState v (REDIS_CONTEXT_QUEUE r) (conns r) (lib r).

Definition cget (r : redis) (c : Z) : result agc_redis_connection :=
  match conns r !! c with Some x => Ok x | None => Fault BadPointer end.
Definition cput (r : redis) (c : Z) (x : agc_redis_connection) : redis := with_conns (<[c := x]> (conns r)) r.

(** [agc_queue_push(REDIS_CONTEXT_QUEUE, connection)] *)
Definition queue_push (r : redis) (c : Z) : result redis :=
  let! (q, o) := Queue.apr_queue_push (REDIS_CONTEXT_QUEUE r) c in
  match o with
  | Queue.Return _ => Ok (with_queue q r)
  | Queue.Wait => OutOfFuel
  end.

Definition next_connect_time (w : world) : Z := time_now w / 1000 + 10000.

Definition free_context (w : world) (x : agc_redis_connection) : world :=
  match cc x with Some ctx => redis_free w ctx | None => w end.

Definition create_context (r : redis) (c : Z) : result (redis * agc_status) :=
  let! x := cget r c in
  let w := free_context (lib r) x in
  let (w, ctx) := redis_connect w in
  match ctx with
  | None => Ok (with_lib w (cput r c (RedisConnection (connected x) None (connect_time x))), AGC_STATUS_GENERR)
  | Some (ctx, err) =>
      if negb (err =? 0) then
        let t := next_connect_time w in
        Ok (with_lib (redis_free w ctx) (cput r c (RedisConnection false None t)), AGC_STATUS_GENERR)
      else Ok (with_lib w (cput r c (RedisConnection true (Some ctx) 0)), AGC_STATUS_SUCCESS)
  end.

Definition release_context (r : redis) (c : Z) : result redis :=
  let! x := cget r c in
  let w := free_context (lib r) x in
  Ok (with_lib w (cput r c (RedisConnection false None (next_connect_time w)))).

Definition check_connection (r : redis) (c : Z) : result (redis * bool) :=
  let! x := cget r c in
  if connected x then Ok (r, true)
  else if timer_curtime (lib r) / 1000 <? connect_time x then
    let! (r, st) := create_context r c in
    Ok (r, bool_decide (st = AGC_STATUS_SUCCESS))
  else Ok (r, false).

(** [create_connection]; [c] is the address of the new connection, which comes
    zeroed from the memory pool. *)
Definition create_connection (c : Z) (r : redis) : result redis :=
  if negb (SYSTEM_RUNNING r) then Ok r
  else
    let r := cput r c (RedisConnection false None 0) in
    let! (r, _) := create_context r c in
    queue_push r c.

(** [initial_connection_pool]: the connections at [1], [2], ... *)
Fixpoint create_connections (n : nat) (c : Z) (r : redis) : result redis :=
  match n with
  | O => Ok r
  | S n' => let! r := create_connection c r in create_connections n' (c + 1) r
  end.
Definition initial_connection_pool (size : Z) (w : world) : result redis :=
  create_connections (Z.to_nat size) 1
    (RedisState true (Queue.apr_queue_create (MAX_POOL_CONNECTIONS * 2)) ∅ w).

(** The loop of [get_connection], with the tries that are left after this one. *)
Fixpoint pop_retry (retries : nat) (q : Queue.apr_queue_t) : result (Queue.apr_queue_t * option Z) :=
  let! (q, st, pop) := Queue.apr_queue_trypop q in
  if bool_decide (st = Queue.APR_SUCCESS) then Ok (q, pop)
  else match retries with O => Ok (q, None) | S n => pop_retry n q end.

Definition get_connection (r : redis) : result (redis * option Z) :=
  if negb (SYSTEM_RUNNING r) then Ok (r, None)
  else
    let! (q, pop) := pop_retry MAX_POOL_RETRIES (REDIS_CONTEXT_QUEUE r) in
    let r := with_queue q r in
    match pop with
    | None => Ok (r, None)
    | Some c =>
        if c =? NULL then Ok (r, None)
        else
          let! (r, ok) := check_connection r c in
          if ok then Ok (r, Some c)
          else let! r := queue_push r c in Ok (r, None)
    end.

Definition free_connection (r : redis) (c : Z) : result redis :=
  if negb (SYSTEM_RUNNING r) then release_context r c
  else
    let! x := cget r c in
    let! r :=
      match cc x with
      | Some ctx => if negb (redis_err (lib r) ctx =? 0) then release_context r c else Ok r
      | None => Ok r
      end in
    queue_push r c.

(** [destroy_connection_pool] *)
Fixpoint destroy_connection_pool (fuel : nat) (r : redis) : result redis :=
  match fuel with
  | O => OutOfFuel
  | S fuel' =>
      let! (r, c) := get_connection r in
      match c with
      | None => Ok r
      | Some c => let! r := release_context r c in destroy_connection_pool fuel' r
      end
  end.

Definition mod_redis_shutdown (fuel : nat) (r : redis) : result redis :=
  destroy_connection_pool fuel (with_running false r).

(** ** Commands *)

(** [connection->cc], followed. *)
Definition ctx_of (r : redis) (c : Z) : result Z :=
  let! x := cget r c in
  match cc x with Some ctx => Ok ctx | None => Fault BadPointer end.

(** A reply that is there and is not an error. *)
Definition is_good (reply : option redisReply) : bool :=
  match reply with None | Some (REDIS_REPLY_ERROR _) => false | Some _ => true end.
Definition status_of (reply : option redisReply) : agc_status :=
  if is_good reply then AGC_STATUS_SUCCESS else AGC_STATUS_GENERR.

(** The value and its length; [strndup] stops at a zero byte. *)
Definition get_strvalue (reply : option redisReply) : option cstr * Z :=
  match reply with
  | Some (REDIS_REPLY_STRING s) => (Some (cstring s), sext 32 (Z.of_nat (length s)))
  | _ => (None, 0)
  end.
(** [get_intvalue]: what is written to the caller's variable, if anything. *)
Definition get_intvalue (reply : option redisReply) : option Z :=
  match reply with Some (REDIS_REPLY_INTEGER i) => Some (sext 32 i) | _ => None end.

(** One command on a connection of the pool; no connection is like no reply. *)
Definition call (r : redis) (argv : list cstr) : result (redis * option redisReply) :=
  let! (r, c) := get_connection r in
  match c with
  | None => Ok (r, None)
  | Some c =>
      let! ctx := ctx_of r c in
      let (w, reply) := redis_command (lib r) ctx argv in
      let! r := free_connection (with_lib w r) c in
      Ok (r, reply)
  end.

(** The loop of [agc_redis_multireplies]; when a reply cannot be read, the error
    code of the context is printed as a string. *)
Fixpoint multireplies_loop (w : world) (ctx : Z) (replies : nat) : result (world * agc_status) :=
  match replies with
  | O => Ok (w, AGC_STATUS_SUCCESS)
  | S n =>
      let '(w, (ok, reply)) := redis_get_reply w ctx in
      if negb ok then
        if redis_err w ctx =? 0 then Ok (w, AGC_STATUS_GENERR) else Fault BadPointer
      else if is_good reply then multireplies_loop w ctx n
      else Ok (w, AGC_STATUS_GENERR)
  end.
Definition agc_redis_multireplies (w : world) (ctx : Z) (replies : nat) : result (world * agc_status) :=
  let! (w, st) := multireplies_loop w ctx replies in
  Ok (redis_reset w ctx, st).

(** Appending commands one after the other, whatever the outcome of each. *)
Fixpoint append_all (w : world) (ctx : Z) (cmds : list (list cstr)) : world :=
  match cmds with
  | [] => w
  | argv :: cmds' => append_all (fst (redis_append w ctx argv)) ctx cmds'
  end.

Definition agc_cache_redis_set (key value : cstr) (size expires : Z) (r : redis) : result (redis * agc_status) :=
  let! (r, c) := get_connection r in
  match c with
  | None => Ok (r, AGC_STATUS_GENERR)
  | Some c =>
      let! ctx := ctx_of r c in
      let (w, ok) := redis_append (lib r) ctx [bytes_of "SET"; key; value] in
      let (w, cmds) :=
        if ok && (0 <? expires)
        then (fst (redis_append w ctx [bytes_of "EXPIRE"; key; print_int expires]), 2%nat)
        else (w, 1%nat) in
      let! (w, st) := agc_redis_multireplies w ctx cmds in
      let! r := free_connection (with_lib w r) c in
      Ok (r, st)
  end.

(** [out]: whether the caller passed places for the result. *)
Definition agc_cache_redis_get (key : cstr) (out : bool) (r : redis) : result (redis * agc_status * (option cstr * Z)) :=
  if negb out then Ok (r, AGC_STATUS_GENERR, (None, 0))
  else
    let! (r, reply) := call r [bytes_of "GET"; key] in
    Ok (r, status_of reply, if is_good reply then get_strvalue reply else (None, 0)).

Definition agc_cache_redis_delete (key : cstr) (r : redis) : result (redis * agc_status) :=
  let! (r, reply) := call r [bytes_of "DEL"; key] in
  Ok (r, status_of reply).

(** The pipelines of [SET] and of [DEL]. *)
Definition pipeline (cmds : list (list cstr)) (r : redis) : result (redis * agc_status) :=
  let! (r, c) := get_connection r in
  match c with
  | None => Ok (r, AGC_STATUS_GENERR)
  | Some c =>
      let! ctx := ctx_of r c in
      let w := append_all (lib r) ctx cmds in
      let! (w, st) := agc_redis_multireplies w ctx (length cmds) in
      let! r := free_connection (with_lib w r) c in
      Ok (r, st)
  end.

Definition agc_cache_redis_set_pipeline (keyvalues : list (cstr * cstr)) (r : redis) : result (redis * agc_status) :=
  pipeline ((fun kv => [bytes_of "SET"; kv.1; kv.2]) <$> keyvalues) r.

Definition agc_cache_redis_delete_pipeline (keys : list cstr) (r : redis) : result (redis * agc_status) :=
  match keys with
  | [] => Ok (r, AGC_STATUS_GENERR)
  | _ => pipeline ((fun k => [bytes_of "DEL"; k]) <$> keys) r
  end.

(** [struct keyvalues_s] as it is returned: key, value and length. *)
Definition keyvalue := (cstr * (option cstr * Z))%type.

(** The loop over the replies in [agc_cache_redis_get_pipeline]. *)
Fixpoint get_replies (w : world) (ctx : Z) (keys : list cstr) : world * list keyvalue * agc_status :=
  match keys with
  | [] => (w, [], AGC_STATUS_SUCCESS)
  | k :: keys' =>
      let '(w, (_, reply)) := redis_get_reply w ctx in
      if negb (is_good reply) then (w, [], AGC_STATUS_GENERR)
      else let '(w, kvs, st) := get_replies w ctx keys' in (w, (k, get_strvalue reply) :: kvs, st)
  end.

Definition agc_cache_redis_get_pipeline (keys : list cstr) (out : bool) (r : redis)
    : result (redis * agc_status * list keyvalue) :=
  match keys with
  | [] => Ok (r, AGC_STATUS_GENERR, [])
  | _ =>
      if negb out then Ok (r, AGC_STATUS_GENERR, [])
      else
        let! (r, c) := get_connection r in
        match c with
        | None => Ok (r, AGC_STATUS_GENERR, [])
        | Some c =>
            let! ctx := ctx_of r c in
            let w := append_all (lib r) ctx ((fun k => [bytes_of "GET"; k]) <$> keys) in
            let '(w, kvs, st) := get_replies w ctx keys in
            let! r := free_connection (with_lib (redis_reset w ctx) r) c in
            Ok (r, st, kvs)
        end
  end.

Definition agc_cache_redis_expire (key : option cstr) (expires : Z) (r : redis) : result (redis * agc_status) :=
  match key with
  | None => Ok (r, AGC_STATUS_GENERR)
  | Some key =>
      if expires <=? 0 then Ok (r, AGC_STATUS_GENERR)
      else
        let! (r, reply) := call r [bytes_of "EXPIRE"; key; print_int expires] in
        Ok (r, status_of reply)
  end.

(** [INCR] and [DECR]. *)
Definition count_command (cmd : cstr) (key : option cstr) (r : redis) : result (redis * agc_status * option Z) :=
  match key with
  | None => Ok (r, AGC_STATUS_GENERR, None)
  | Some key =>
      let! (r, reply) := call r [cmd; key] in
      Ok (r, status_of reply, get_intvalue reply)
  end.
Definition agc_cache_redis_incr := count_command (bytes_of "INCR").
Definition agc_cache_redis_decr := count_command (bytes_of "DECR").

(** ** Hash tables *)

(** [args[i] = s] *)
Definition set_arg (args : list (option cstr)) (i : nat) (s : cstr) : result (list (option cstr)) :=
  if (i <? length args)%nat then Ok (<[i := Some s]> args) else Fault OutOfBounds.

(** The loops that fill [args] from the keys, or from the keys and values. *)
Fixpoint fill_keys (args : list (option cstr)) (i : nat) (keys : list cstr) : result (list (option cstr)) :=
  match keys with
  | [] => Ok args
  | k :: keys' => let! args := set_arg args (2 + i) k in fill_keys args (S i) keys'
  end.
Fixpoint fill_keyvalues (args : list (option cstr)) (i : nat) (kvs : list (cstr * cstr)) : result (list (option cstr)) :=
  match kvs with
  | [] => Ok args
  | (k, v) :: kvs' =>
      let! args := set_arg args (2 + i * 2) k in
      let! args := set_arg args (2 + i * 2 + 1) v in
      fill_keyvalues args (S i) kvs'
  end.

(** The arguments of the command, each of which has to have been set. *)
Fixpoint set_args (args : list (option cstr)) : result (list cstr) :=
  match args with
  | [] => Ok []
  | None :: _ => Fault BadPointer
  | Some a :: args' => let! l := set_args args' in Ok (a :: l)
  end.

Definition hash_args (cmd tablename : cstr) (keys : list cstr) (kvs : list (cstr * cstr)) : result (list cstr) :=
  let argcount := match keys with [] => (2 + length kvs * 2)%nat | _ => (2 + length keys)%nat end in
  let! args := set_arg (replicate argcount None) 0 cmd in
  let! args := set_arg args 1 tablename in
  let! args := match keys with [] => fill_keyvalues args 0 kvs | _ => fill_keys args 0 keys end in
  set_args args.

(** [agc_redis_hashargv] on a connection: exactly one of the lists is given. *)
Definition agc_redis_hashargv (r : redis) (c : Z) (cmd tablename : cstr) (keys : list cstr) (kvs : list (cstr * cstr))
    : result (redis * option redisReply) :=
  match keys, kvs with
  | [], [] | _ :: _, _ :: _ => Ok (r, None)
  | _, _ =>
      let! argv := hash_args cmd tablename keys kvs in
      let! ctx := ctx_of r c in
      let (w, reply) := redis_command (lib r) ctx argv in
      Ok (with_lib w r, reply)
  end.

(** The same from [get_connection] to [free_connection]. *)
Definition hash_call (r : redis) (cmd tablename : cstr) (keys : list cstr) (kvs : list (cstr * cstr))
    : result (redis * option (option redisReply)) :=
  let! (r, c) := get_connection r in
  match c with
  | None => Ok (r, None)
  | Some c =>
      let! (r, reply) := agc_redis_hashargv r c cmd tablename keys kvs in
      let! r := free_connection r c in
      Ok (r, Some reply)
  end.

Definition agc_cache_redis_hashset (tablename key value : option cstr) (r : redis) : result (redis * agc_status) :=
  match tablename, key, value with
  | Some t, Some k, Some v =>
      let! (r, reply) := call r [bytes_of "HSET"; t; k; v] in Ok (r, status_of reply)
  | _, _, _ => Ok (r, AGC_STATUS_GENERR)
  end.

Definition agc_cache_redis_hashget (tablename key : option cstr) (out : bool) (r : redis)
    : result (redis * agc_status * (option cstr * Z)) :=
  match tablename, key, out with
  | Some t, Some k, true =>
      let! (r, reply) := call r [bytes_of "HGET"; t; k] in
      Ok (r, status_of reply, if is_good reply then get_strvalue reply else (None, 0))
  | _, _, _ => Ok (r, AGC_STATUS_GENERR, (None, 0))
  end.

(** [HMSET] and [HDEL]. *)
Definition hash_status (cmd : cstr) (tablename : option cstr) (keys : list cstr) (kvs : list (cstr * cstr)) (r : redis)
    : result (redis * agc_status) :=
  match tablename with
  | None => Ok (r, AGC_STATUS_GENERR)
  | Some t =>
      match keys, kvs with
      | [], [] => Ok (r, AGC_STATUS_GENERR)
      | _, _ =>
          let! (r, reply) := hash_call r cmd t keys kvs in
          Ok (r, match reply with Some reply => status_of reply | None => AGC_STATUS_GENERR end)
      end
  end.
Definition agc_cache_redis_hashmset tablename keyvalues := hash_status (bytes_of "HMSET") tablename [] keyvalues.
Definition agc_cache_redis_hashdel tablename keys := hash_status (bytes_of "HDEL") tablename keys [].

(** The values of an [HMGET]: the element [i] for the key [i].  An element that
    is no string has the length zero, and a copy of it is empty. *)
Fixpoint hash_values (elements : list redisReply) (keys : list cstr) : result (list keyvalue) :=
  match keys, elements with
  | [], _ => Ok []
  | _ :: _, [] => Fault OutOfBounds
  | k :: keys', e :: elements' =>
      let v := match e with
               | REDIS_REPLY_STRING s | REDIS_REPLY_STATUS s | REDIS_REPLY_ERROR s =>
                   (Some (cstring s), sext 32 (Z.of_nat (length s)))
               | _ => (Some [], 0)
               end in
      let! l := hash_values elements' keys' in
      Ok ((k, v) :: l)
  end.

(** A reply that is not an array is freed and then looked at. *)
Definition agc_cache_redis_hashmget (tablename : option cstr) (keys : list cstr) (r : redis)
    : result (redis * agc_status * list keyvalue) :=
  match tablename, keys with
  | None, _ | _, [] => Ok (r, AGC_STATUS_GENERR, [])
  | Some t, _ =>
      let! (r, reply) := hash_call r (bytes_of "HMGET") t keys [] in
      match reply with
      | None | Some None => Ok (r, AGC_STATUS_GENERR, [])
      | Some (Some (REDIS_REPLY_ARRAY elements)) =>
          let! l := hash_values elements keys in Ok (r, AGC_STATUS_SUCCESS, l)
      | Some (Some _) => Fault BadPointer
      end
  end.

End redis.
End Redis.

(** ** The cache front end: [src/src/agc_cache.c] *)

Module Cache.
Import Ev.

(** [agc_cache_actions_t]: the functions of the registered module on its state
    [S]; a member may be null. *)
Record agc_cache_actions (S : Type) := CacheActions {
  agc_cach_set_func : option (cstr -> cstr -> Z -> Z -> S -> result (S * agc_status));
  agc_cache_get_func : option (cstr -> bool -> S -> result (S * agc_status * (option cstr * Z)));
  agc_cache_delete_func : option (cstr -> S -> result (S * agc_status));
  agc_cache_set_pipeline_func : option (list (cstr * cstr) -> S -> result (S * agc_status));
  agc_cache_get_pipeline_func : option (list cstr -> bool -> S -> result (S * agc_status * list Redis.keyvalue));
  agc_cache_delete_pipeline_func : option (list cstr -> S -> result (S * agc_status));
  agc_cache_expire_func : option (option cstr -> Z -> S -> result (S * agc_status));
  agc_cache_incr_func : option (option cstr -> S -> result (S * agc_status * option Z));
  agc_cache_decr_func : option (option cstr -> S -> result (S * agc_status * option Z));
  agc_cache_hashset_func : option (option cstr -> option cstr -> option cstr -> S -> result (S * agc_status));
  agc_cache_hashget_func : option (option cstr -> option cstr -> bool -> S -> result (S * agc_status * (option cstr * Z)));
  agc_cache_hashmset_func : option (option cstr -> list (cstr * cstr) -> S -> result (S * agc_status));
  agc_cache_hashmget_func : option (option cstr -> list cstr -> S -> result (S * agc_status * list Redis.keyvalue));
  agc_cache_hashdel_func : option (option cstr -> list cstr -> S -> result (S * agc_status)) }.

Arguments CacheActions {S}.
Arguments agc_cach_set_func {S}.
Arguments agc_cache_get_func {S}.
Arguments agc_cache_delete_func {S}.
Arguments agc_cache_set_pipeline_func {S}.
Arguments agc_cache_get_pipeline_func {S}.
Arguments agc_cache_delete_pipeline_func {S}.
Arguments agc_cache_expire_func {S}.
Arguments agc_cache_incr_func {S}.
Arguments agc_cache_decr_func {S}.
Arguments agc_cache_hashset_func {S}.
Arguments agc_cache_hashget_func {S}.
Arguments agc_cache_hashmset_func {S}.
Arguments agc_cache_hashmget_func {S}.
Arguments agc_cache_hashdel_func {S}.

(** [agc_cache_routine] of the redis module. *)
Definition agc_cache_routine `{Redis.Hiredis} : agc_cache_actions Redis.redis :=
  CacheActions (Some Redis.agc_cache_redis_set) (Some Redis.agc_cache_redis_get) (Some Redis.agc_cache_redis_delete)
    (Some Redis.agc_cache_redis_set_pipeline) (Some Redis.agc_cache_redis_get_pipeline)
    (Some Redis.agc_cache_redis_delete_pipeline) (Some Redis.agc_cache_redis_expire) (Some Redis.agc_cache_redis_incr)
    (Some Redis.agc_cache_redis_decr) (Some Redis.agc_cache_redis_hashset) (Some Redis.agc_cache_redis_hashget)
    (Some Redis.agc_cache_redis_hashmset) (Some Redis.agc_cache_redis_hashmget) (Some Redis.agc_cache_redis_hashdel).

Definition agc_cache_register_impl {S} (actions cache_actions : option (agc_cache_actions S)) : option (agc_cache_actions S) :=
  match actions with None => cache_actions | Some a => Some a end.

Section cache.
Context {S : Type} (cache_actions : option (agc_cache_actions S)).

(** [if (!cache_actions || !cache_actions->f) return AGC_STATUS_GENERR;] *)
Definition action {F} (f : agc_cache_actions S -> option F) : option F :=
  match cache_actions with None => None | Some a => f a end.

Definition agc_cache_set key value size expires (s : S) : result (S * agc_status) :=
  match action agc_cach_set_func with None => Ok (s, AGC_STATUS_GENERR) | Some f => f key value size expires s end.
Definition agc_cache_get key out (s : S) : result (S * agc_status * (option cstr * Z)) :=
  match action agc_cache_get_func with None => Ok (s, AGC_STATUS_GENERR, (None, 0)) | Some f => f key out s end.
Definition agc_cache_delete key (s : S) : result (S * agc_status) :=
  match action agc_cache_delete_func with None => Ok (s, AGC_STATUS_GENERR) | Some f => f key s end.
Definition agc_cache_set_pipeline keyvalues (s : S) : result (S * agc_status) :=
  match action agc_cache_set_pipeline_func with None => Ok (s, AGC_STATUS_GENERR) | Some f => f keyvalues s end.
Definition agc_cache_get_pipeline keys out (s : S) : result (S * agc_status * list Redis.keyvalue) :=
  match action agc_cache_get_pipeline_func with None => Ok (s, AGC_STATUS_GENERR, []) | Some f => f keys out s end.
Definition agc_cache_delete_pipeline keys (s : S) : result (S * agc_status) :=
  match action agc_cache_delete_pipeline_func with None => Ok (s, AGC_STATUS_GENERR) | Some f => f keys s end.
Definition agc_cache_expire key expires (s : S) : result (S * agc_status) :=
  match action agc_cache_expire_func with None => Ok (s, AGC_STATUS_GENERR) | Some f => f key expires s end.
Definition agc_cache_incr key (s : S) : result (S * agc_status * option Z) :=
  match action agc_cache_incr_func with None => Ok (s, AGC_STATUS_GENERR, None) | Some f => f key s end.
Definition agc_cache_decr key (s : S) : result (S * agc_status * option Z) :=
  match action agc_cache_decr_func with None => Ok (s, AGC_STATUS_GENERR, None) | Some f => f key s end.
Definition agc_cache_hashset tablename key value (s : S) : result (S * agc_status) :=
  match action agc_cache_hashset_func with None => Ok (s, AGC_STATUS_GENERR) | Some f => f tablename key value s end.
Definition agc_cache_hashget tablename key out (s : S) : result (S * agc_status * (option cstr * Z)) :=
  match action agc_cache_hashget_func with None => Ok (s, AGC_STATUS_GENERR, (None, 0)) | Some f => f tablename key out s end.
Definition agc_cache_hashmset tablename keyvalues (s : S) : result (S * agc_status) :=
  match action agc_cache_hashmset_func with None => Ok (s, AGC_STATUS_GENERR) | Some f => f tablename keyvalues s end.
Definition agc_cache_hashmget tablename keys (s : S) : result (S * agc_status * list Redis.keyvalue) :=
  match action agc_cache_hashmget_func with None => Ok (s, AGC_STATUS_GENERR, []) | Some f => f tablename keys s end.
Definition agc_cache_hashdel tablename keys (s : S) : result (S * agc_status) :=
  match action agc_cache_hashdel_func with None => Ok (s, AGC_STATUS_GENERR) | Some f => f tablename keys s end.

End cache.
End Cache.
