(* ===== verification/RedisProof.v ===== *)
(** * The redis cache module: its pool, its commands

    Every connection is in the queue of the pool or with one thread; commands
    reach the server as they were meant and their replies come back in order;
    and a connection that was lost is not made again. *)

From stdpp Require Import base gmap list fin_maps strings relations.
From Stdlib Require Import ZArith Lia.
From S2P Require Import Prelude CString Queue Event Utils Yaml Redis.

Module RedisProof.
Import Ev Redis.

(** ** Queues *)

Lemma push_spec q v : Queue.wf q -> Queue.terminated q = false -> Z.of_nat (length (Queue.contents q)) < Queue.bounds q ->
  exists q', Queue.apr_queue_push q v = Ok (q', Queue.Return Queue.APR_SUCCESS) /\ Queue.wf q' /\
    Queue.terminated q' = false /\ Queue.contents q' = Queue.contents q ++ [v] /\ Queue.bounds q' = Queue.bounds q.
Proof.
  intros Hwf Ht Hl. rewrite Queue.full_length in Hl by done.
  unfold Queue.apr_queue_push, Queue.apr_queue_full. rewrite Ht, (proj2 (Z.eqb_neq _ _)) by lia.
  destruct (Queue.put_spec q v Hwf) as (q' & -> & ? & ? & _ & _ & ? & ?); [lia|]. cbn. exists q'. split_and!; congruence.
Qed.

Lemma pop_retry_spec n q : Queue.wf q -> Queue.terminated q = false ->
  match Queue.contents q with
  | [] => pop_retry n q = Ok (q, None)
  | v :: l => exists q', pop_retry n q = Ok (q', Some v) /\ Queue.wf q' /\ Queue.terminated q' = false /\
      Queue.contents q' = l /\ Queue.bounds q' = Queue.bounds q
  end.
Proof.
  intros Hwf Ht. pose proof (Queue.full_length q Hwf) as Hl. pose proof (Queue.wf_nelts q Hwf).
  assert (Hpop : forall n, pop_retry n q =
    let! (q, st, pop) := Queue.apr_queue_trypop q in
    if bool_decide (st = Queue.APR_SUCCESS) then Ok (q, pop)
    else match n with O => Ok (q, None) | S n => pop_retry n q end) by (by intros []).
  destruct (Queue.contents q) as [|v l] eqn:Hc; cbn in Hl.
  - induction n as [|n IH]; rewrite Hpop; unfold Queue.apr_queue_trypop, Queue.apr_queue_empty; rewrite Ht, <- Hl;
      cbn [rbind]; [done|exact IH].
  - rewrite Hpop. unfold Queue.apr_queue_trypop, Queue.apr_queue_empty. rewrite Ht, (proj2 (Z.eqb_neq _ _)) by lia.
    destruct (Queue.get_spec q Hwf) as (q' & v' & l' & -> & ? & Hc' & ? & _ & _ & ? & ?); [lia|].
    cbn [rbind]. rewrite bool_decide_true by done. exists q'. split_and!; congruence.
Qed.

Section pool.
Context `{Hiredis}.

(** ** The invariant of the pool *)

(** A connection that is connected has a context. *)
Definition conn_ok (x : agc_redis_connection) : Prop := connected x = true -> is_Some (cc x).

(** [all] are the connections of the pool, [held] those that threads use. *)
Record pool_ok (all held : list Z) (r : redis) : Prop := PoolOk {
  pk_running : SYSTEM_RUNNING r = true;
  pk_wf : Queue.wf (REDIS_CONTEXT_QUEUE r);
  pk_live : Queue.terminated (REDIS_CONTEXT_QUEUE r) = false;
  pk_bounds : Queue.bounds (REDIS_CONTEXT_QUEUE r) = MAX_POOL_CONNECTIONS * 2;
  pk_all : Queue.contents (REDIS_CONTEXT_QUEUE r) ++ held ≡ₚ all;
  pk_nodup : NoDup all;
  pk_addrs : Forall (fun c => 0 < c) all;
  pk_size : Z.of_nat (length all) <= MAX_POOL_CONNECTIONS;
  pk_conns : forall c, c ∈ all -> exists x, conns r !! c = Some x /\ conn_ok x }.

(** The library may do anything between the operations of the pool. *)
Lemma pool_ok_lib all held r w : pool_ok all held r -> pool_ok all held (with_lib w r).
Proof. by intros [? ? ? ? ? ? ? ? ?]. Qed.

Lemma pool_ok_cput all held r c x : pool_ok all held r -> conn_ok x -> pool_ok all held (cput r c x).
Proof.
  intros [? ? ? ? ? ? ? ? Hcs] Hx. split; try done. intros c' Hc'. cbn.
  destruct (decide (c' = c)) as [->|]; [exists x; by rewrite lookup_insert_eq|rewrite lookup_insert_ne by done; auto].
Qed.

Lemma cget_bind {B} r c x (k : agc_redis_connection -> result B) : conns r !! c = Some x -> rbind (cget r c) k = k x.
Proof. unfold cget. by intros ->. Qed.

(** ** Contexts *)

Lemma create_context_ok all held r c x : pool_ok all held r -> conns r !! c = Some x -> connected x = false ->
  exists r' st, create_context r c = Ok (r', st) /\ pool_ok all held r' /\ REDIS_CONTEXT_QUEUE r' = REDIS_CONTEXT_QUEUE r /\
    (st = AGC_STATUS_SUCCESS -> exists x ctx, conns r' !! c = Some x /\ cc x = Some ctx).
Proof.
  intros HP Hx Hd. unfold create_context.
  erewrite cget_bind by exact Hx. destruct (redis_connect (free_context (lib r) x)) as [w [[ctx err]|]].
  - destruct (err =? 0); cbn [negb]; eexists _, _; (split; [done|]); split_and!; try done.
    + apply pool_ok_lib, pool_ok_cput; [done|]. by intros _; eexists.
    + intros _. eexists _, ctx. cbn. by rewrite lookup_insert_eq.
    + by apply pool_ok_lib, pool_ok_cput.
  - eexists _, _. split; [done|]. split_and!; [|done|done]. apply pool_ok_lib, pool_ok_cput; [done|].
    unfold conn_ok. cbn. congruence.
Qed.

Lemma release_context_ok all held r c x : pool_ok all held r -> conns r !! c = Some x ->
  exists r', release_context r c = Ok r' /\ pool_ok all held r' /\ REDIS_CONTEXT_QUEUE r' = REDIS_CONTEXT_QUEUE r.
Proof.
  intros HP Hx. unfold release_context. erewrite cget_bind by exact Hx. eexists. split; [done|].
  split; [|done]. by apply pool_ok_lib, pool_ok_cput.
Qed.

Lemma check_connection_ok all held r c : pool_ok all held r -> c ∈ all ->
  exists r' ok, check_connection r c = Ok (r', ok) /\ pool_ok all held r' /\ REDIS_CONTEXT_QUEUE r' = REDIS_CONTEXT_QUEUE r /\
    (ok = true -> exists x ctx, conns r' !! c = Some x /\ cc x = Some ctx).
Proof.
  intros HP Hc. destruct (pk_conns _ _ _ HP c Hc) as (x & Hx & Hxo). unfold check_connection.
  erewrite cget_bind by exact Hx. destruct (connected x) eqn:Hcn.
  { destruct (Hxo Hcn) as [ctx Hctx]. exists r, true. split_and!; eauto. }
  destruct (_ <? _); [|by exists r, false].
  destruct (create_context_ok all held r c x HP Hx Hcn) as (r' & st & -> & ? & ? & Hok). cbn [rbind].
  exists r', (bool_decide (st = AGC_STATUS_SUCCESS)). split_and!; try done. intros Hst. apply bool_decide_eq_true in Hst. auto.
Qed.

(** ** Taking and returning *)

Lemma contents_below all held r : pool_ok all held r ->
  Z.of_nat (length (Queue.contents (REDIS_CONTEXT_QUEUE r))) < Queue.bounds (REDIS_CONTEXT_QUEUE r).
Proof.
  intros HP. rewrite (pk_bounds _ _ _ HP). pose proof (Permutation_length (pk_all _ _ _ HP)) as Hl.
  rewrite length_app in Hl. pose proof (pk_size _ _ _ HP). unfold MAX_POOL_CONNECTIONS in *. lia.
Qed.

Lemma queue_push_ok all held r c : pool_ok all (c :: held) r -> exists r', queue_push r c = Ok r' /\
  pool_ok all held r' /\ Queue.contents (REDIS_CONTEXT_QUEUE r') = Queue.contents (REDIS_CONTEXT_QUEUE r) ++ [c] /\
  conns r' = conns r /\ lib r' = lib r.
Proof.
  intros HP. pose proof (contents_below _ _ _ HP) as Hb. pose proof HP as [? Hwf Ht Hbo Hal ? ? ? ?].
  destruct (push_spec (REDIS_CONTEXT_QUEUE r) c Hwf Ht Hb) as (q & Hp & ? & ? & Hc & Hb').
  unfold queue_push. rewrite Hp. cbn [rbind]. eexists. split; [done|]. split_and!; try done.
  split; try done; cbn; [congruence|]. rewrite Hc, <- app_assoc. exact Hal.
Qed.

Lemma get_connection_ok all held r : pool_ok all held r ->
  exists r' oc, get_connection r = Ok (r', oc) /\
    match oc with
    | None => pool_ok all held r'
    | Some c => pool_ok all (c :: held) r' /\ c ∈ Queue.contents (REDIS_CONTEXT_QUEUE r) /\
        exists x ctx, conns r' !! c = Some x /\ cc x = Some ctx
    end.
Proof.
  intros HP. pose proof HP as [Hrun Hwf Ht Hbo Hal Hnd Had Hsz Hcs]. unfold get_connection. rewrite Hrun. cbn [negb].
  pose proof (pop_retry_spec MAX_POOL_RETRIES (REDIS_CONTEXT_QUEUE r) Hwf Ht) as Hpop.
  destruct (Queue.contents (REDIS_CONTEXT_QUEUE r)) as [|c l] eqn:Hc.
  { rewrite Hpop. cbn [rbind]. eexists _, None. split; [done|]. split; try done; cbn; by rewrite ?Hc. }
  destruct Hpop as (q & -> & Hwf' & Ht' & Hc' & Hb'). cbn [rbind].
  assert (c ∈ all) as Hin by (rewrite <- Hal; left).
  assert (0 < c) by (by apply (proj1 (Forall_forall _ _) Had)).
  rewrite (proj2 (Z.eqb_neq _ _)) by (unfold NULL; lia).
  assert (pool_ok all (c :: held) (with_queue q r)) as HP1.
  { split; try done; cbn; [congruence|]. rewrite Hc'. rewrite <- Hal. cbn. by rewrite <- Permutation_middle. }
  destruct (check_connection_ok _ _ _ c HP1 Hin) as (r1 & ok & -> & HP2 & Hq & Hok). cbn [rbind].
  destruct ok.
  - exists r1, (Some c). split; [done|]. split_and!; [done|by left|by apply Hok].
  - destruct (queue_push_ok _ _ _ _ HP2) as (r2 & -> & HP3 & _). cbn [rbind]. by exists r2, None.
Qed.

Lemma free_connection_ok all held r c : pool_ok all (c :: held) r ->
  exists r', free_connection r c = Ok r' /\ pool_ok all held r'.
Proof.
  intros HP. unfold free_connection. rewrite (pk_running _ _ _ HP). cbn [negb].
  assert (c ∈ all) as Hin by (rewrite <- (pk_all _ _ _ HP); apply elem_of_app; right; left).
  destruct (pk_conns _ _ _ HP c Hin) as (x & Hx & Hxo). erewrite cget_bind by exact Hx.
  assert (exists r1, (match cc x with
      | Some ctx => if negb (redis_err (lib r) ctx =? 0) then release_context r c else Ok r
      | None => Ok r end) = Ok r1 /\ pool_ok all (c :: held) r1) as (r1 & -> & HP1).
  { destruct (release_context_ok _ _ _ _ _ HP Hx) as (r1 & Hrel & HP1 & _).
    repeat case_match; eauto. }
  cbn [rbind]. destruct (queue_push_ok _ _ _ _ HP1) as (r2 & -> & HP2 & _). by exists r2.
Qed.

(** ** Threads *)

(** A state is the pool and who holds which connection. *)
Inductive step : redis * list (Z * Z) -> redis * list (Z * Z) -> Prop :=
  | step_get t r r' c held : get_connection r = Ok (r', Some c) -> step (r, held) (r', (t, c) :: held)
  | step_get_none r r' held : get_connection r = Ok (r', None) -> step (r, held) (r', held)
  | step_library r w held : step (r, held) (with_lib w r, held)
  | step_free t c r r' l1 l2 : free_connection r c = Ok r' -> step (r, l1 ++ (t, c) :: l2) (r', l1 ++ l2).

Lemma pool_step_ok all r held r' held' : step (r, held) (r', held') -> pool_ok all held.*2 r -> pool_ok all held'.*2 r'.
Proof.
  inversion 1 as [t ? ? c ? Hg|? ? ? Hg| |t c ? ? l1 l2 Hg]; subst; intros HP.
  - destruct (get_connection_ok _ _ _ HP) as (r1 & oc & E & Hp). rewrite Hg in E. injection E as <- <-. apply Hp.
  - destruct (get_connection_ok _ _ _ HP) as (r1 & oc & E & Hp). rewrite Hg in E. by injection E as <- <-.
  - by apply pool_ok_lib.
  - assert (pool_ok all (c :: (l1 ++ l2).*2) r) as HP'.
    { destruct HP as [? ? ? ? Hal ? ? ? ?]. split; try done. rewrite <- Hal. rewrite !fmap_app. cbn.
      by rewrite Permutation_middle. }
    destruct (free_connection_ok _ _ _ _ HP') as (r1 & E & Hp). rewrite Hg in E. by injection E as <-.
Qed.

Lemma steps_ok all r held r' held' : rtc step (r, held) (r', held') -> pool_ok all held.*2 r -> pool_ok all held'.*2 r'.
Proof.
  intros Hs. remember (r, held) as x eqn:Ex. remember (r', held') as y eqn:Ey.
  revert r held Ex. induction Hs as [x|x [r1 h1] y Hst Hs IH]; intros r held ->; [by simplify_eq|].
  intros HP. eapply (IH Ey); [done|]. by eapply pool_step_ok.
Qed.

(** ** The initial pool *)

Lemma create_connections_ok n : forall c all r, pool_ok all [] r -> 0 < c -> Forall (fun a => a < c) all ->
  Z.of_nat (length all + n) <= MAX_POOL_CONNECTIONS ->
  exists r', create_connections n c r = Ok r' /\ pool_ok (all ++ seqZ c (Z.of_nat n)) [] r'.
Proof.
  induction n as [|n IH]; intros c all r HP Hc Hlt Hsz.
  { exists r. cbn. by rewrite app_nil_r. }
  cbn [create_connections]. unfold create_connection. rewrite (pk_running _ _ _ HP). cbn [negb].
  set (r0 := cput r c (RedisConnection false None 0)).
  assert (pool_ok (c :: all) [c] r0) as HP0.
  { destruct HP as [? ? ? ? Hal Hnd Had ? Hcs]. split; try done; cbn.
    - rewrite app_nil_r in Hal. rewrite Hal. by rewrite <- Permutation_cons_append.
    - apply NoDup_cons. split; [|done]. intros Hin. apply (proj1 (Forall_forall _ _) Hlt) in Hin. lia.
    - by constructor.
    - lia.
    - intros c' [->|Hin]%elem_of_cons; [eexists; by rewrite lookup_insert_eq|].
      rewrite lookup_insert_ne; [auto|]. intros ->. apply (proj1 (Forall_forall _ _) Hlt) in Hin. lia. }
  destruct (create_context_ok (c :: all) [c] r0 c (RedisConnection false None 0) HP0) as (r1 & st & -> & HP1 & _);
    [cbn; by rewrite lookup_insert_eq|done|]. cbn [rbind].
  destruct (queue_push_ok _ _ _ _ HP1) as (r2 & -> & HP2 & _). cbn [rbind].
  assert (pool_ok (all ++ [c]) [] r2) as HP3.
  { destruct HP2 as [? ? ? ? Hal Hnd Had Hs Hcs]. assert (c :: all ≡ₚ all ++ [c]) as Hp by apply Permutation_cons_append.
    split; try done; [by rewrite Hal|by rewrite <- Hp| |by rewrite <- (Permutation_length Hp)|].
    - apply Forall_app. apply Forall_cons in Had as [? ?]. by repeat constructor.
    - intros c' Hc'. apply Hcs. by rewrite Hp. }
  destruct (IH (c + 1) (all ++ [c]) r2 HP3) as (r' & -> & HP'); [lia| | |].
  - apply Forall_app. split; [eapply Forall_impl; [done|]; cbn; lia|repeat constructor; lia].
  - rewrite length_app. cbn. lia.
  - exists r'. split; [done|]. rewrite Nat2Z.inj_succ, seqZ_cons by lia. rewrite <- app_assoc in HP'.
    replace (Z.succ c) with (c + 1) by lia. by replace (Z.pred (Z.succ (Z.of_nat n))) with (Z.of_nat n) by lia.
Qed.

Lemma initial_pool_ok size w : 0 <= size <= MAX_POOL_CONNECTIONS ->
  exists r, initial_connection_pool size w = Ok r /\ pool_ok (seqZ 1 size) [] r.
Proof.
  intros Hs. unfold initial_connection_pool, MAX_POOL_CONNECTIONS in *.
  destruct (Queue.wf_create (32 * 2)) as [Hwf Hc]; [lia|].
  destruct (create_connections_ok (Z.to_nat size) 1 []
    (RedisState true (Queue.apr_queue_create (32 * 2)) ∅ w)) as (r & Hr & HP); [|lia|constructor|cbn; unfold MAX_POOL_CONNECTIONS; lia|].
  - split; try done; cbn; first [apply NoDup_nil_2|constructor|by intros c ?%elem_of_nil].
  - exists r. rewrite Z2Nat.id in HP by lia. done.
Qed.

(** ** A pool whose connections are lost *)

(** Every connection is down, and may have been tried again until [T] at most. *)
Definition lost (T : Z) (all : list Z) (r : redis) : Prop :=
  forall c, c ∈ all -> exists x, conns r !! c = Some x /\ connected x = false /\ connect_time x <= T.

Lemma get_connection_lost T all r : pool_ok all [] r -> lost T all r -> T <= timer_curtime (lib r) / 1000 ->
  exists r', get_connection r = Ok (r', None) /\ pool_ok all [] r' /\ lost T all r'.
Proof.
  intros HP HL HT. pose proof HP as [Hrun Hwf Ht Hbo Hal Hnd Had Hsz Hcs]. unfold get_connection. rewrite Hrun. cbn [negb].
  pose proof (pop_retry_spec MAX_POOL_RETRIES (REDIS_CONTEXT_QUEUE r) Hwf Ht) as Hpop.
  destruct (Queue.contents (REDIS_CONTEXT_QUEUE r)) as [|c l] eqn:Hc.
  { rewrite Hpop. cbn [rbind]. eexists. split; [done|]. split; [|done]. split; try done; cbn; by rewrite ?Hc. }
  destruct Hpop as (q & -> & Hwf' & Ht' & Hc' & Hb'). cbn [rbind].
  assert (c ∈ all) as Hin by (rewrite <- Hal; left).
  assert (0 < c) by (by apply (proj1 (Forall_forall _ _) Had)).
  rewrite (proj2 (Z.eqb_neq _ _)) by (unfold NULL; lia).
  assert (pool_ok all [c] (with_queue q r)) as HP1.
  { split; try done; cbn; [congruence|]. rewrite Hc', <- Hal, app_nil_r. by rewrite <- Permutation_cons_append. }
  destruct (HL c Hin) as (x & Hx & Hd & Hct). unfold check_connection. erewrite cget_bind by exact Hx.
  rewrite Hd. change (lib (with_queue q r)) with (lib r). rewrite (proj2 (Z.ltb_ge _ _)) by lia. cbn [rbind].
  destruct (queue_push_ok _ _ _ _ HP1) as (r2 & -> & HP3 & _ & Hcn & _). cbn [rbind].
  exists r2. split_and!; [done|done|]. intros c' Hc2. rewrite Hcn. by apply HL.
Qed.

End pool.

(** ** The operations through the front end *)

Section requests.
Context `{Hiredis}.

Inductive request :=
  | Set_ (key value : cstr) (size expires : Z)
  | Get (key : cstr) (out : bool)
  | Delete (key : cstr)
  | SetPipeline (keyvalues : list (cstr * cstr))
  | GetPipeline (keys : list cstr) (out : bool)
  | DeletePipeline (keys : list cstr)
  | Expire (key : option cstr) (expires : Z)
  | Incr (key : option cstr)
  | Decr (key : option cstr)
  | HashSet (tablename key value : option cstr)
  | HashGet (tablename key : option cstr) (out : bool)
  | HashMSet (tablename : option cstr) (keyvalues : list (cstr * cstr))
  | HashMGet (tablename : option cstr) (keys : list cstr)
  | HashDel (tablename : option cstr) (keys : list cstr).

Definition drop_result {A} (x : result (redis * agc_status * A)) : result (redis * agc_status) :=
  let! (r, st, _) := x in Ok (r, st).

(** A request to the cache with the redis module registered. *)
Definition run_request (q : request) (r : redis) : result (redis * agc_status) :=
  let actions := Cache.agc_cache_register_impl (Some Cache.agc_cache_routine) None in
  match q with
  | Set_ k v size expires => Cache.agc_cache_set actions k v size expires r
  | Get k out => drop_result (Cache.agc_cache_get actions k out r)
  | Delete k => Cache.agc_cache_delete actions k r
  | SetPipeline kvs => Cache.agc_cache_set_pipeline actions kvs r
  | GetPipeline ks out => drop_result (Cache.agc_cache_get_pipeline actions ks out r)
  | DeletePipeline ks => Cache.agc_cache_delete_pipeline actions ks r
  | Expire k expires => Cache.agc_cache_expire actions k expires r
  | Incr k => drop_result (Cache.agc_cache_incr actions k r)
  | Decr k => drop_result (Cache.agc_cache_decr actions k r)
  | HashSet t k v => Cache.agc_cache_hashset actions t k v r
  | HashGet t k out => drop_result (Cache.agc_cache_hashget actions t k out r)
  | HashMSet t kvs => Cache.agc_cache_hashmset actions t kvs r
  | HashMGet t ks => drop_result (Cache.agc_cache_hashmget actions t ks r)
  | HashDel t ks => Cache.agc_cache_hashdel actions t ks r
  end.

(** Requests, each with the state of the library and the clock at its time. *)
Fixpoint run_requests (l : list (world * request)) (r : redis) : result (redis * list agc_status) :=
  match l with
  | [] => Ok (r, [])
  | (w, q) :: l' =>
      let! (r, st) := run_request q (with_lib w r) in
      let! (r, sts) := run_requests l' r in
      Ok (r, st :: sts)
  end.

Lemma run_request_unserved q r r' : get_connection r = Ok (r', None) ->
  run_request q r = Ok (r, AGC_STATUS_GENERR) \/ run_request q r = Ok (r', AGC_STATUS_GENERR).
Proof.
  intros Hg. unfold run_request, Cache.agc_cache_register_impl, Cache.action, Cache.agc_cache_routine.
  destruct q; cbn -[get_connection bytes_of]; unfold drop_result, agc_cache_redis_set, agc_cache_redis_get,
    agc_cache_redis_delete, agc_cache_redis_set_pipeline, agc_cache_redis_get_pipeline, agc_cache_redis_delete_pipeline,
    agc_cache_redis_expire, agc_cache_redis_incr, agc_cache_redis_decr, count_command, agc_cache_redis_hashset,
    agc_cache_redis_hashget, agc_cache_redis_hashmset, agc_cache_redis_hashmget, agc_cache_redis_hashdel, hash_status,
    hash_call, pipeline, call;
    repeat case_match; rewrite ?Hg; cbn [rbind]; auto.
Qed.

Lemma run_requests_lost T all l : forall r, pool_ok all [] r -> lost T all r ->
  Forall (fun wq => T <= timer_curtime (fst wq) / 1000) l ->
  exists r', run_requests l r = Ok (r', replicate (length l) AGC_STATUS_GENERR) /\ lost T all r'.
Proof.
  induction l as [|[w q] l IH]; intros r HP HL Hl; [by exists r|]. apply Forall_cons in Hl as [HT Hl]. cbn in HT.
  destruct (get_connection_lost T all (with_lib w r)) as (r1 & Hg & HP1 & HL1); [by apply pool_ok_lib|done|done|].
  cbn [run_requests length replicate].
  destruct (run_request_unserved q _ _ Hg) as [-> | ->]; cbn [rbind].
  - destruct (IH (with_lib w r)) as (r' & -> & HL'); [by apply pool_ok_lib|done|done|]. cbn. eauto.
  - destruct (IH r1) as (r' & -> & HL'); [done..|]. cbn. eauto.
Qed.

(** ** Arguments *)

Lemma set_arg_app A (B : list (option cstr)) x s i : i = length A -> set_arg (A ++ x :: B) i s = Ok (A ++ Some s :: B).
Proof.
  intros ->. unfold set_arg. rewrite length_app. cbn [length]. rewrite (proj2 (Nat.ltb_lt _ _)) by lia.
  by rewrite insert_app_r_alt, Nat.sub_diag by lia.
Qed.

Lemma fill_keys_spec keys : forall A i, length A = (2 + i)%nat ->
  fill_keys (A ++ replicate (length keys) None) i keys = Ok (A ++ (Some <$> keys)).
Proof.
  induction keys as [|k keys IH]; intros A i Hi; cbn [fill_keys length replicate fmap list_fmap]; [done|].
  rewrite set_arg_app by lia. cbn [rbind]. rewrite !cons_middle, !app_assoc. apply IH. rewrite length_app. cbn. lia.
Qed.

Definition flatten (kvs : list (cstr * cstr)) : list cstr := concat ((fun kv => [kv.1; kv.2]) <$> kvs).

Lemma fill_keyvalues_spec kvs : forall A i, length A = (2 + i * 2)%nat ->
  fill_keyvalues (A ++ replicate (length kvs * 2) None) i kvs = Ok (A ++ (Some <$> flatten kvs)).
Proof.
  induction kvs as [|[k v] kvs IH]; intros A i Hi; cbn [fill_keyvalues length replicate fmap list_fmap flatten concat Nat.mul Nat.add]; [done|].
  rewrite set_arg_app by lia. cbn [rbind]. rewrite cons_middle, app_assoc.
  rewrite set_arg_app by (rewrite length_app; cbn; lia). cbn [rbind]. rewrite cons_middle, app_assoc.
  rewrite IH by (rewrite !length_app; cbn; lia). f_equal. cbn. by rewrite <- !app_assoc.
Qed.

Lemma set_args_spec l : set_args (Some <$> l) = Ok l.
Proof. induction l as [|a l IH]; cbn; [done|]. change (list_fmap cstr (option cstr) Some l) with (Some <$> l). by rewrite IH. Qed.

Lemma set_head_cmd {B} n cmd (k : list (option cstr) -> result B) :
  rbind (set_arg (replicate (2 + n) None) 0 cmd) k = k (Some cmd :: None :: replicate n None).
Proof. done. Qed.
Lemma set_head_table {B} cmd t rest (k : list (option cstr) -> result B) :
  rbind (set_arg (Some cmd :: None :: rest) 1 t) k = k ([Some cmd; Some t] ++ rest).
Proof. done. Qed.

Lemma hash_args_keys cmd t keys : keys <> [] -> hash_args cmd t keys [] = Ok (cmd :: t :: keys).
Proof.
  intros Hk. unfold hash_args. destruct keys as [|k keys]; [done|]. set (ks := k :: keys). cbv zeta.
  rewrite set_head_cmd, set_head_table.
  rewrite (fill_keys_spec ks [Some cmd; Some t] 0) by done. cbn [rbind].
  exact (set_args_spec (cmd :: t :: ks)).
Qed.

Lemma hash_args_keyvalues cmd t kvs : hash_args cmd t [] kvs = Ok (cmd :: t :: flatten kvs).
Proof.
  unfold hash_args. cbv zeta.
  rewrite set_head_cmd, set_head_table.
  rewrite (fill_keyvalues_spec kvs [Some cmd; Some t] 0) by done. cbn [rbind].
  exact (set_args_spec (cmd :: t :: flatten kvs)).
Qed.

End requests.
(** ** What the library and the server do, when all is well *)

Definition SET : cstr := bytes_of "SET".
Definition GET : cstr := bytes_of "GET".

(** The commands of redis on the stored strings. *)
Definition execute (st : gmap cstr (list Z)) (argv : list cstr) : option (gmap cstr (list Z) * redisReply) :=
  match argv with
  | [c; k; v] => if bool_decide (c = SET) then Some (<[k := v]> st, REDIS_REPLY_STATUS (bytes_of "OK")) else None
  | [c; k] =>
      if bool_decide (c = GET)
      then Some (st, match st !! k with Some v => REDIS_REPLY_STRING v | None => REDIS_REPLY_NIL end) else None
  | _ => None
  end.

(** While [healthy], appended commands are sent in order over their context,
    each reply is that of the oldest command not yet answered, and no context
    has an error. *)
Class HiredisLaws `{Hiredis} := {
  healthy : world -> Prop;
  data : world -> gmap cstr (list Z);
  pending : world -> Z -> list (list cstr);
  law_append w ctx argv : healthy w -> exists w', redis_append w ctx argv = (w', true) /\ healthy w' /\ data w' = data w /\
    forall ctx', pending w' ctx' = if decide (ctx' = ctx) then pending w ctx ++ [argv] else pending w ctx';
  law_reply w ctx argv l st reply : healthy w -> pending w ctx = argv :: l -> execute (data w) argv = Some (st, reply) ->
    exists w', redis_get_reply w ctx = (w', (true, Some reply)) /\ healthy w' /\ data w' = st /\
      forall ctx', pending w' ctx' = if decide (ctx' = ctx) then l else pending w ctx';
  law_reset w ctx : healthy w -> healthy (redis_reset w ctx) /\ data (redis_reset w ctx) = data w /\
    forall ctx', pending (redis_reset w ctx) ctx' = if decide (ctx' = ctx) then [] else pending w ctx';
  law_err w ctx : healthy w -> redis_err w ctx = 0 }.

Section laws.
Context `{HiredisLaws}.

Lemma append_all_spec ctx cmds : forall w, healthy w -> healthy (append_all w ctx cmds) /\
  data (append_all w ctx cmds) = data w /\
  forall ctx', pending (append_all w ctx cmds) ctx' = if decide (ctx' = ctx) then pending w ctx ++ cmds else pending w ctx'.
Proof.
  induction cmds as [|argv cmds IH]; intros w Hw; cbn [append_all].
  - split_and!; [done..|]. intros ctx'. case_decide; [by subst; rewrite app_nil_r|done].
  - destruct (law_append w ctx argv Hw) as (w' & -> & Hw' & Hd & Hp). cbn [fst].
    destruct (IH w' Hw') as (? & Hd' & Hp'). split_and!; [done|congruence|]. intros ctx'. rewrite Hp'.
    case_decide; [|by rewrite Hp, decide_False]. by rewrite Hp, decide_True, <- app_assoc by done.
Qed.

(** The pipeline of [SET]s. *)
Definition set_cmd (kv : cstr * cstr) : list cstr := [SET; kv.1; kv.2].
Definition stored (st : gmap cstr (list Z)) (kvs : list (cstr * cstr)) : gmap cstr (list Z) :=
  foldl (fun st kv => <[kv.1 := kv.2]> st) st kvs.

Lemma multireplies_sets ctx kvs : forall w, healthy w -> pending w ctx = set_cmd <$> kvs ->
  exists w', multireplies_loop w ctx (length kvs) = Ok (w', AGC_STATUS_SUCCESS) /\ healthy w' /\
    data w' = stored (data w) kvs /\ forall ctx', ctx' <> ctx -> pending w' ctx' = pending w ctx'.
Proof.
  induction kvs as [|kv kvs IH]; intros w Hw Hp; cbn [multireplies_loop length]; [by exists w|].
  destruct (law_reply w ctx (set_cmd kv) _ (<[kv.1 := kv.2]> (data w)) (REDIS_REPLY_STATUS (bytes_of "OK")) Hw Hp)
    as (w1 & -> & Hw1 & Hd1 & Hp1); [done|]. cbn [negb is_good].
  destruct (IH w1 Hw1) as (w' & -> & Hw' & Hd' & Hp'); [by rewrite Hp1, decide_True|].
  exists w'. split_and!; [done|done|by rewrite Hd', Hd1|]. intros ctx' Hne. by rewrite Hp', Hp1, decide_False.
Qed.

(** What a [GET] of [k] gives. *)
Definition value_of (st : gmap cstr (list Z)) (k : cstr) : option cstr * Z :=
  match st !! k with Some v => (Some (cstring v), sext 32 (Z.of_nat (length v))) | None => (None, 0) end.

Lemma get_replies_gets ctx ks : forall w, healthy w -> pending w ctx = (fun k => [GET; k]) <$> ks ->
  exists w', get_replies w ctx ks = (w', (fun k => (k, value_of (data w) k)) <$> ks, AGC_STATUS_SUCCESS) /\ healthy w' /\
    data w' = data w /\ forall ctx', ctx' <> ctx -> pending w' ctx' = pending w ctx'.
Proof.
  induction ks as [|k ks IH]; intros w Hw Hp; cbn [get_replies]; [by exists w|].
  destruct (law_reply w ctx [GET; k] _ (data w)
    (match data w !! k with Some v => REDIS_REPLY_STRING v | None => REDIS_REPLY_NIL end) Hw Hp)
    as (w1 & -> & Hw1 & Hd1 & Hp1); [done|].
  assert (is_good (Some (match data w !! k with Some v => REDIS_REPLY_STRING v | None => REDIS_REPLY_NIL end)) = true) as ->
    by (by destruct (data w !! k)). cbn [negb].
  destruct (IH w1 Hw1) as (w' & -> & Hw' & Hd' & Hp'); [by rewrite Hp1, decide_True|].
  exists w'. split_and!; [|done|congruence|].
  - rewrite Hd1. cbn [fmap list_fmap]. f_equal. f_equal. f_equal. f_equal. unfold value_of, get_strvalue. by destruct (data w !! k).
  - intros ctx' Hne. by rewrite Hp', Hp1, decide_False.
Qed.

(** ** A pool ready for work *)

Record ready (all : list Z) (r : redis) : Prop := Ready {
  rd_pool : pool_ok all [] r;
  rd_lib : healthy (lib r);
  rd_conns : forall c, c ∈ all -> exists x ctx, conns r !! c = Some x /\ connected x = true /\ cc x = Some ctx /\
    pending (lib r) ctx = [] }.

Lemma get_connection_ready all r : ready all r -> all <> [] ->
  exists r' c x ctx, get_connection r = Ok (r', Some c) /\ pool_ok all [c] r' /\ lib r' = lib r /\ conns r' = conns r /\
    conns r !! c = Some x /\ cc x = Some ctx /\ pending (lib r) ctx = [].
Proof.
  intros [HP Hw Hcs] Hne. pose proof HP as [Hrun Hwf Ht Hbo Hal Hnd Had Hsz _]. unfold get_connection. rewrite Hrun. cbn [negb].
  pose proof (pop_retry_spec MAX_POOL_RETRIES (REDIS_CONTEXT_QUEUE r) Hwf Ht) as Hpop. rewrite app_nil_r in Hal.
  destruct (Queue.contents (REDIS_CONTEXT_QUEUE r)) as [|c l] eqn:Hc.
  { by apply Permutation_nil_l in Hal. }
  destruct Hpop as (q & -> & Hwf' & Ht' & Hc' & Hb'). cbn [rbind].
  assert (c ∈ all) as Hin by (rewrite <- Hal; left).
  assert (0 < c) by (by apply (proj1 (Forall_forall _ _) Had)).
  rewrite (proj2 (Z.eqb_neq _ _)) by (unfold NULL; lia).
  destruct (Hcs c Hin) as (x & ctx & Hx & Hcn & Hctx & Hpe).
  unfold check_connection. erewrite cget_bind by exact Hx. rewrite Hcn. cbn [rbind].
  eexists _, c, x, ctx. split; [done|]. split_and!; try done. destruct HP. split; try done; cbn; [congruence|].
  rewrite Hc', <- Hal. by rewrite <- Permutation_cons_append.
Qed.

Lemma free_connection_ready all r c x ctx w : pool_ok all [c] r -> conns r !! c = Some x -> cc x = Some ctx -> healthy w ->
  exists r', free_connection (with_lib w r) c = Ok r' /\ pool_ok all [] r' /\ lib r' = w /\ conns r' = conns r.
Proof.
  intros HP Hx Hctx Hw. unfold free_connection. cbn [SYSTEM_RUNNING with_lib]. rewrite (pk_running _ _ _ HP). cbn [negb].
  erewrite cget_bind by exact Hx. rewrite Hctx. cbn [lib with_lib]. rewrite law_err by done. cbn [Z.eqb negb rbind].
  destruct (queue_push_ok all [] (with_lib w r) c) as (r' & -> & HP' & _ & ? & ?); [by apply pool_ok_lib|]. by exists r'.
Qed.

(** An operation that leaves nothing pending leaves the pool ready. *)
Lemma ready_again all r r' ctx w : ready all r -> healthy w -> pool_ok all [] r' -> lib r' = redis_reset w ctx ->
  conns r' = conns r -> (forall ctx', ctx' <> ctx -> pending w ctx' = pending (lib r) ctx') -> ready all r'.
Proof.
  intros [_ _ Hcs] Hw HP Hl Hc Hp. destruct (law_reset w ctx Hw) as (Hr & _ & Hpr). split; [done|by rewrite Hl|].
  intros c Hin. destruct (Hcs c Hin) as (x & ctx' & Hx & Hcn & Hctx & Hpe). exists x, ctx'. rewrite Hc, Hl.
  split_and!; try done. rewrite Hpr. case_decide; [done|]. by rewrite Hp.
Qed.

Lemma set_pipeline_spec all r kvs : ready all r -> all <> [] ->
  exists r', agc_cache_redis_set_pipeline kvs r = Ok (r', AGC_STATUS_SUCCESS) /\ ready all r' /\
    data (lib r') = stored (data (lib r)) kvs.
Proof.
  intros Hr Hne. destruct (get_connection_ready all r Hr Hne) as (r1 & c & x & ctx & Hg & HP1 & Hl & Hc & Hx & Hctx & Hpe).
  unfold agc_cache_redis_set_pipeline, pipeline. rewrite Hg. cbn [rbind]. unfold ctx_of.
  erewrite cget_bind by (rewrite Hc; exact Hx). rewrite Hctx. cbn [rbind]. rewrite Hl.
  change (fun kv : cstr * cstr => [bytes_of "SET"; kv.1; kv.2]) with set_cmd. rewrite length_fmap.
  destruct (append_all_spec ctx (set_cmd <$> kvs) (lib r) (rd_lib _ _ Hr)) as (Hw & Hd & Hp).
  unfold agc_redis_multireplies.
  destruct (multireplies_sets ctx kvs (append_all (lib r) ctx (set_cmd <$> kvs)) Hw) as (w' & -> & Hw' & Hd' & Hp').
  { by rewrite Hp, decide_True, Hpe by done. }
  cbn [rbind]. destruct (law_reset w' ctx Hw') as (Hwr & Hdr & _).
  destruct (free_connection_ready all r1 c x ctx (redis_reset w' ctx) HP1) as (r' & -> & HP' & Hl' & Hc'); [by rewrite Hc|done..|].
  cbn [rbind]. exists r'. split_and!; [done| |by rewrite Hl', Hdr, Hd', Hd].
  eapply ready_again; [exact Hr|exact Hw'|done|done|congruence|]. intros ctx' Hn. by rewrite Hp', Hp, decide_False.
Qed.

Lemma get_pipeline_spec all r ks : ready all r -> all <> [] -> ks <> [] ->
  exists r', agc_cache_redis_get_pipeline ks true r =
      Ok (r', AGC_STATUS_SUCCESS, (fun k => (k, value_of (data (lib r)) k)) <$> ks) /\ ready all r' /\ data (lib r') = data (lib r).
Proof.
  intros Hr Hne Hks. destruct (get_connection_ready all r Hr Hne) as (r1 & c & x & ctx & Hg & HP1 & Hl & Hc & Hx & Hctx & Hpe).
  unfold agc_cache_redis_get_pipeline. destruct ks as [|k ks]; [done|]. set (KS := k :: ks) in *. clearbody KS.
  cbn [negb]. rewrite Hg. cbn [rbind]. unfold ctx_of.
  erewrite cget_bind by (rewrite Hc; exact Hx). rewrite Hctx. cbn [rbind]. rewrite Hl. fold GET.
  destruct (append_all_spec ctx ((fun k => [GET; k]) <$> KS) (lib r) (rd_lib _ _ Hr)) as (Hw & Hd & Hp).
  destruct (get_replies_gets ctx KS (append_all (lib r) ctx ((fun k => [GET; k]) <$> KS)) Hw) as (w' & -> & Hw' & Hd' & Hp').
  { by rewrite Hp, decide_True, Hpe by done. }
  destruct (law_reset w' ctx Hw') as (Hwr & Hdr & _).
  destruct (free_connection_ready all r1 c x ctx (redis_reset w' ctx) HP1) as (r' & -> & HP' & Hl' & Hc'); [by rewrite Hc|done..|].
  cbn [rbind]. exists r'. rewrite Hd. split_and!; [done| |by rewrite Hl', Hdr, Hd', Hd].
  eapply ready_again; [exact Hr|exact Hw'|done|done|congruence|]. intros ctx' Hn. by rewrite Hp', Hp, decide_False.
Qed.

End laws.

(** ** The configuration *)

(** A list of addresses in the file. *)
Definition addr_tokens (addrs : list cstr) : list Yaml.yaml_token :=
  concat ((fun a => [Yaml.YAML_BLOCK_ENTRY_TOKEN; Yaml.YAML_SCALAR_TOKEN a]) <$> addrs).
Definition addr_config (addrs : list cstr) : list Yaml.yaml_token :=
  [Yaml.YAML_KEY_TOKEN; Yaml.YAML_SCALAR_TOKEN (bytes_of "addr"); Yaml.YAML_VALUE_TOKEN] ++ addr_tokens addrs.

(** The addresses, each with a comma behind it. *)
Definition addr_text (addrs : list cstr) : cstr := concat ((fun a => a ++ [44]) <$> addrs).
Definition joined (addrs : list cstr) : cstr := take (length (addr_text addrs) - 1) (addr_text addrs).

Definition reading (b : list Z) (p : nat) (size : Z) : config := Config false KEYTYPE_ADDR b p size.

Lemma addr_tokens_cons a addrs : addr_tokens (a :: addrs) = Yaml.YAML_BLOCK_ENTRY_TOKEN :: Yaml.YAML_SCALAR_TOKEN a :: addr_tokens addrs.
Proof. done. Qed.
Lemma addr_text_cons a addrs : addr_text (a :: addrs) = (a ++ [44]) ++ addr_text addrs.
Proof. done. Qed.
Lemma entry_step c : config_step c Yaml.YAML_BLOCK_ENTRY_TOKEN = Ok c.
Proof. done. Qed.

Lemma addr_step T rest a size : (length a < length rest)%nat ->
  config_step (reading (T ++ rest) (length T) size) (Yaml.YAML_SCALAR_TOKEN a) =
    Ok (reading ((T ++ a ++ [44]) ++ drop (S (length a)) rest) (length (T ++ a ++ [44])) size).
Proof.
  intros Hl. cbn [config_step reading iskey ktype redis_addrs pos pool_size]. rewrite Yaml.strcpy_fits by done. cbn [rbind].
  unfold Yaml.set_byte. rewrite app_assoc, <- length_app.
  rewrite blit_tail by (cbn; lia). cbn [rbind length app]. rewrite !length_app. cbn [length].
  rewrite <- !app_assoc. cbn [app drop]. unfold reading. by rewrite Nat.add_assoc.
Qed.

Lemma addr_steps addrs : forall T rest size,
  Yaml.steps config_step (reading (T ++ rest) (length T) size) (addr_tokens addrs) =
  if (length (addr_text addrs) <=? length rest)%nat
  then Ok (reading ((T ++ addr_text addrs) ++ drop (length (addr_text addrs)) rest) (length (T ++ addr_text addrs)) size)
  else Fault OutOfBounds.
Proof.
  induction addrs as [|a addrs IH]; intros T rest size.
  { cbn. by rewrite app_nil_r. }
  rewrite addr_tokens_cons, addr_text_cons. cbn [Yaml.steps]. rewrite entry_step. cbn [rbind].
  rewrite length_app. destruct (decide (length a < length rest)%nat) as [Hl|Hl].
  - rewrite addr_step by done. cbn [rbind]. rewrite IH. rewrite length_drop, length_app. cbn [length].
    destruct (length (addr_text addrs) <=? length rest - S (length a))%nat eqn:E.
    + apply Nat.leb_le in E. rewrite (proj2 (Nat.leb_le _ _)) by (rewrite length_app; cbn [length]; lia).
      rewrite drop_drop. f_equal. unfold reading. rewrite !length_app. cbn [length].
      replace (S (length a) + length (addr_text addrs))%nat with (length a + 1 + length (addr_text addrs))%nat by lia.
      rewrite <- !app_assoc. f_equal. lia.
    + apply Nat.leb_gt in E. by rewrite (proj2 (Nat.leb_gt _ _)) by (rewrite length_app; cbn [length]; lia).
  - rewrite (proj2 (Nat.leb_gt _ _)) by (rewrite length_app; cbn; lia).
    cbn [config_step reading iskey ktype redis_addrs pos pool_size].
    by rewrite Yaml.strcpy_overflows by (rewrite length_app; lia).
Qed.

Lemma addr_text_end addrs : addrs <> [] -> addr_text addrs = joined addrs ++ [44] /\ length (addr_text addrs) <> 0%nat.
Proof.
  intros Hne. unfold joined. destruct addrs as [|a addrs _] using rev_ind; [done|]. clear Hne. unfold addr_text.
  rewrite fmap_app, concat_app. cbn [fmap list_fmap concat]. rewrite app_nil_r, app_assoc. rewrite length_app. cbn [length].
  rewrite Nat.add_sub, take_app_length. split; [done|lia].
Qed.

Lemma addr_goes_on addrs : Forall Yaml.goes_on (addr_config addrs).
Proof.
  unfold addr_config, addr_tokens. repeat apply Forall_cons_2; try done. cbn [app].
  induction addrs as [|a addrs IH]; cbn; [constructor|]. by repeat apply Forall_cons_2.
Qed.

Lemma joined_nonzero addrs : Forall (Forall (fun c => c <> 0)) addrs -> Forall (fun c => c <> 0) (joined addrs).
Proof.
  intros Ha. apply Forall_take. unfold addr_text. induction Ha as [|a addrs Ha Hs IH]; cbn; [constructor|].
  rewrite !Forall_app. split_and!; [done|by repeat constructor|exact IH].
Qed.

Lemma load_addrs size addrs : addrs <> [] -> Forall (Forall (fun c => c <> 0)) addrs ->
  load_configuration size (addr_config addrs ++ [Yaml.YAML_STREAM_END_TOKEN]) =
  if (length (addr_text addrs) <=? MAX_ADDRS_LEN)%nat then Ok (joined addrs, size) else Fault OutOfBounds.
Proof.
  intros Hne Hz. unfold load_configuration. rewrite Yaml.scan_steps by apply addr_goes_on. unfold addr_config.
  rewrite Yaml.steps_app. cbn [Yaml.steps config_step rbind iskey ktype redis_addrs pos pool_size].
  rewrite bool_decide_false, bool_decide_true by done.
  change (Config false KEYTYPE_ADDR (replicate MAX_ADDRS_LEN 0) 0 size) with
    (reading ([] ++ replicate MAX_ADDRS_LEN 0) (length (@nil Z)) size).
  rewrite addr_steps. rewrite length_replicate. destruct (_ <=? _)%nat eqn:E; [|done]. apply Nat.leb_le in E.
  destruct (addr_text_end addrs Hne) as [Ht Hn]. cbn [rbind Yaml.scan config_step app].
  set (pad := drop _ _). cbn [pos reading redis_addrs pool_size]. destruct (length (addr_text addrs)) as [|n] eqn:Hl; [done|].
  assert (n = length (joined addrs)) as -> by (rewrite Ht, length_app in Hl; cbn in Hl; lia).
  rewrite Ht, <- app_assoc. cbn [app]. rewrite list_lookup_middle by done. change (44 =? 44) with true. cbv iota.
  unfold Yaml.set_byte. rewrite blit_tail by (cbn; lia). cbn [rbind app]. by rewrite cstring_text by (by apply joined_nonzero).
Qed.

End RedisProof.

Import Ev Redis RedisProof.

(** A server in one place, for concrete runs: what it stores, the commands that
    wait on each context, the clock, the next context and whether connecting
    works. *)
Record toy := Toy {
  t_data : gmap cstr (list Z);
  t_pending : gmap Z (list (list cstr));
  t_time : Z;
  t_next : Z;
  t_up : bool }.

Definition toy_answer (w : toy) (argv : list cstr) : toy * redisReply :=
  match execute (t_data w) argv with
  | Some (st, reply) => (Toy st (t_pending w) (t_time w) (t_next w) (t_up w), reply)
  | None => (w, REDIS_REPLY_ERROR (bytes_of "ERR"))
  end.
Definition toy_pending (w : toy) (ctx : Z) : list (list cstr) := default [] (t_pending w !! ctx).
Definition toy_set_pending (w : toy) (ctx : Z) (l : list (list cstr)) : toy :=
  Toy (t_data w) (<[ctx := l]> (t_pending w)) (t_time w) (t_next w) (t_up w).

#[local] Instance toy_redis : Hiredis := {
  world := toy;
  redis_connect w := (Toy (t_data w) (t_pending w) (t_time w) (t_next w + 1) (t_up w),
                      Some (t_next w, if t_up w then 0 else 1));
  redis_free w _ := w;
  redis_err _ _ := 0;
  redis_append w ctx argv := (toy_set_pending w ctx (toy_pending w ctx ++ [argv]), true);
  redis_get_reply w ctx :=
    match toy_pending w ctx with
    | [] => (w, (false, None))
    | argv :: l => let (w, reply) := toy_answer (toy_set_pending w ctx l) argv in (w, (true, Some reply))
    end;
  redis_command w ctx argv := let (w, reply) := toy_answer w argv in (w, Some reply);
  redis_reset w ctx := toy_set_pending w ctx [];
  timer_curtime := t_time;
  time_now := t_time }.

Lemma toy_set_lookup w ctx l ctx' :
  toy_pending (toy_set_pending w ctx l) ctx' = if decide (ctx' = ctx) then l else toy_pending w ctx'.
Proof.
  unfold toy_pending, toy_set_pending. cbn. case_decide as E; [subst; by rewrite lookup_insert_eq|by rewrite lookup_insert_ne].
Qed.

#[local] Instance toy_laws : HiredisLaws.
Proof.
  refine {| healthy := fun _ => True; data := t_data; pending := toy_pending |}.
  - intros w ctx argv _. eexists. split_and!; [done|done|done|]. apply toy_set_lookup.
  - intros w ctx argv l st reply _ Hp He. cbn. rewrite Hp. unfold toy_answer. cbn [t_data toy_set_pending]. rewrite He.
    eexists. split_and!; [done|done|done|]. apply toy_set_lookup.
  - intros w ctx _. split_and!; [done|done|]. apply toy_set_lookup.
  - done.
Defined.

Definition toy_world (up : bool) : toy := Toy ∅ ∅ 1000000 10 up.
(** A pool of two connections to it. *)
Definition toy_pool (up : bool) : result (@redis toy_redis) := @initial_connection_pool toy_redis 2 (toy_world up).
Definition toy_state (up : bool) : @redis toy_redis :=
  match toy_pool up with Ok r => r | _ => RedisState true (Queue.apr_queue_create 1) ∅ (toy_world up) end.

Lemma toy_pool_ok up : toy_pool up = Ok (toy_state up) /\ pool_ok (seqZ 1 2) [] (toy_state up).
Proof.
  destruct (@initial_pool_ok toy_redis 2 (toy_world up)) as (r & E & HP); [unfold MAX_POOL_CONNECTIONS; lia|].
  unfold toy_state, toy_pool. by rewrite E.
Qed.

(** C25: Under every interleaving of threads that take connections from the pool,
    use them and return them, no connection is lost and none is with two
    threads: the queue and the threads together hold exactly the connections
    made at the start, each once.  Taking a connection never faults or waits,
    and returning one never waits for room. *)
Theorem redis_pool_exclusive `{Hiredis} size w r r' held :
  0 <= size <= MAX_POOL_CONNECTIONS -> initial_connection_pool size w = Ok r -> rtc step (r, []) (r', held) ->
  Queue.contents (REDIS_CONTEXT_QUEUE r') ++ held.*2 ≡ₚ seqZ 1 size /\ NoDup held.*2 /\
  (exists r2 oc, get_connection r' = Ok (r2, oc)) /\
  (forall t c, (t, c) ∈ held -> exists r2, free_connection r' c = Ok r2).
Proof.
  intros Hs Hi Hst. destruct (initial_pool_ok size w Hs) as (r0 & Hi' & HP). rewrite Hi in Hi'. injection Hi' as <-.
  pose proof (steps_ok _ _ _ _ _ Hst HP) as HP'. split_and!.
  - apply HP'.
  - pose proof (pk_nodup _ _ _ HP') as Hnd. rewrite <- (pk_all _ _ _ HP') in Hnd. by apply NoDup_app in Hnd as (_ & _ & ?).
  - destruct (get_connection_ok _ _ _ HP') as (r2 & oc & ? & _). eauto.
  - intros t c (l1 & l2 & ->)%list_elem_of_split.
    destruct (free_connection_ok (seqZ 1 size) (l1 ++ l2).*2 r' c) as (r2 & ? & _); [|eauto].
    destruct HP' as [? ? ? ? Hal ? ? ? ?]. split; try done. rewrite <- Hal, !fmap_app. cbn. by rewrite Permutation_middle.
Qed.

(** Two threads that take a connection each. *)
Definition taken (x : result (@redis toy_redis * option Z)) : option (@redis toy_redis) :=
  match x with Ok (r, Some _) => Some r | _ => None end.

Lemma taken_spec x : is_Some (taken x) -> exists r c, x = Ok (r, Some c) /\ taken x = Some r.
Proof. destruct x as [[r [c|]]| |]; intros [? ?]; [by exists r, c|done..]. Qed.

Lemma toy_takes : exists r1 r2 c1 c2, get_connection (toy_state true) = Ok (r1, Some c1) /\ get_connection r1 = Ok (r2, Some c2).
Proof.
  assert (bool_decide (is_Some (r1 ← taken (get_connection (toy_state true)); taken (get_connection r1))) = true)
    as Hb%bool_decide_eq_true by (vm_compute; reflexivity).
  destruct (taken_spec (get_connection (toy_state true))) as (r1 & c1 & E1 & T1).
  { destruct (taken _); [by eexists|]. by destruct Hb. }
  rewrite T1 in Hb. destruct (taken_spec (get_connection r1) Hb) as (r2 & c2 & E2 & _). by exists r1, r2, c1, c2.
Qed.

Lemma redis_pool_exclusive_witness :
  exists r r' held, toy_pool true = Ok r /\ rtc (@step toy_redis) (r, []) (r', held) /\
    Queue.contents (REDIS_CONTEXT_QUEUE r') ++ held.*2 ≡ₚ [1; 2] /\ length held = 2%nat.
Proof.
  destruct toy_takes as (r1 & r2 & c1 & c2 & H1 & H2). set (r := toy_state true) in *.
  assert (toy_pool true = Ok r) as Hr by apply toy_pool_ok.
  assert (rtc (@step toy_redis) (r, []) (r2, [(8, c2); (7, c1)])) as Hst
    by (eapply rtc_l; [by apply (step_get 7)|]; eapply rtc_once; by apply (step_get 8)).
  destruct (@redis_pool_exclusive toy_redis 2 (toy_world true) r r2 [(8, c2); (7, c1)]) as [Hp _];
    [unfold MAX_POOL_CONNECTIONS; lia|exact Hr|exact Hst|].
  exists r, r2, [(8, c2); (7, c1)]. split; [exact Hr|]. split; [exact Hst|]. split; [exact Hp|reflexivity].
Defined.

(** Connections that were lost are not made again: once the ten seconds behind
    a failure have passed (for all connections of the pool), every request to
    the cache fails, at every later time and whatever the state of the
    servers. *)
Theorem redis_never_reconnects `{Hiredis} T all l r :
  pool_ok all [] r -> lost T all r -> Forall (fun wq => T <= timer_curtime (fst wq) / 1000) l ->
  exists r', run_requests l r = Ok (r', replicate (length l) AGC_STATUS_GENERR) /\ lost T all r'.
Proof. apply run_requests_lost. Qed.

(** What the connections are after a start. *)
Lemma toy_conns up c : c ∈ seqZ 1 2 ->
  conns (toy_state up) !! c = Some (if up then RedisConnection true (Some (9 + c)) 0 else RedisConnection false None 11000).
Proof.
  intros Hc. change (seqZ 1 2) with [1; 2] in Hc.
  apply elem_of_cons in Hc as [->|Hc]; [|apply list_elem_of_singleton in Hc as ->]; destruct up; vm_compute; reflexivity.
Qed.

Lemma toy_lost : @lost toy_redis 11000 (seqZ 1 2) (toy_state false).
Proof. intros c Hc. rewrite (toy_conns false c Hc). eexists. split; [done|]. cbn. split; [done|lia]. Qed.

Lemma redis_never_reconnects_witness :
  exists r r', toy_pool false = Ok r /\
    @run_requests toy_redis [(Toy ∅ ∅ 30000000 10 true, Get (bytes_of "k") true); (Toy ∅ ∅ 90000000 10 true, Incr (Some (bytes_of "n")))] r =
      Ok (r', [AGC_STATUS_GENERR; AGC_STATUS_GENERR]).
Proof.
  destruct (toy_pool_ok false) as [Hr HP]. set (r := toy_state false) in *.
  destruct (@redis_never_reconnects toy_redis 11000 (seqZ 1 2)
    [(Toy ∅ ∅ 30000000 10 true, Get (bytes_of "k") true); (Toy ∅ ∅ 90000000 10 true, Incr (Some (bytes_of "n")))] r HP)
    as (r' & E & _).
  - exact toy_lost.
  - repeat constructor; apply Z.leb_le; reflexivity.
  - exists r, r'. split; [exact Hr|exact E].
Defined.

(** Values written through the cache in one pipeline are what a pipeline of
    reads gives: in the order of the keys asked for, each with the value
    written last or stored before, or none, and its length. *)
Theorem redis_pipeline_roundtrip `{HiredisLaws} all r kvs ks :
  ready all r -> all <> [] -> ks <> [] ->
  let actions := Some Cache.agc_cache_routine in
  exists r1 r2, Cache.agc_cache_set_pipeline actions kvs r = Ok (r1, AGC_STATUS_SUCCESS) /\
    Cache.agc_cache_get_pipeline actions ks true r1 =
      Ok (r2, AGC_STATUS_SUCCESS, (fun k => (k, value_of (stored (data (lib r)) kvs) k)) <$> ks) /\ ready all r2.
Proof.
  intros Hr Hne Hks actions. destruct (set_pipeline_spec all r kvs Hr Hne) as (r1 & Hset & Hr1 & Hd1).
  destruct (get_pipeline_spec all r1 ks Hr1 Hne Hks) as (r2 & Hget & Hr2 & _). rewrite Hd1 in Hget.
  exists r1, r2. split; [exact Hset|]. by split.
Qed.

Lemma toy_lib : lib (toy_state true) = Toy ∅ ∅ 1000000 12 true.
Proof. vm_compute. reflexivity. Qed.

Lemma toy_ready : @ready toy_redis toy_laws (seqZ 1 2) (toy_state true).
Proof.
  split; [apply toy_pool_ok|exact I|]. intros c Hc. rewrite (toy_conns true c Hc), toy_lib.
  eexists _, _. split_and!; [done..|]. done.
Qed.

Lemma redis_pipeline_roundtrip_witness :
  exists r r1 r2, toy_pool true = Ok r /\
    @agc_cache_redis_set_pipeline toy_redis [(bytes_of "a", bytes_of "1"); (bytes_of "b", bytes_of "22")] r = Ok (r1, AGC_STATUS_SUCCESS) /\
    @agc_cache_redis_get_pipeline toy_redis [bytes_of "b"; bytes_of "c"; bytes_of "a"] true r1 =
      Ok (r2, AGC_STATUS_SUCCESS, [(bytes_of "b", (Some (bytes_of "22"), 2)); (bytes_of "c", (None, 0));
        (bytes_of "a", (Some (bytes_of "1"), 1))]).
Proof.
  destruct (toy_pool_ok true) as [Hr _]. pose proof toy_ready as Hready. pose proof toy_lib as Hlib. set (r := toy_state true) in *.
  destruct (@redis_pipeline_roundtrip toy_redis toy_laws (seqZ 1 2) r [(bytes_of "a", bytes_of "1"); (bytes_of "b", bytes_of "22")]
    [bytes_of "b"; bytes_of "c"; bytes_of "a"]) as (r1 & r2 & Hs & Hg & _); [exact Hready|discriminate|discriminate|].
  exists r, r1, r2. split; [exact Hr|]. split; [exact Hs|]. rewrite Hlib in Hg. exact Hg.
Defined.

(** The addresses of the configuration, whose block has 512 bytes: a list whose
    addresses with a comma each fit is read as the addresses joined by commas;
    a longer one is written past the end of the block. *)
Theorem redis_load_addresses size addrs :
  addrs <> [] -> Forall (Forall (fun c => c <> 0)) addrs ->
  load_configuration size (addr_config addrs ++ [Yaml.YAML_STREAM_END_TOKEN]) =
  if (length (addr_text addrs) <=? MAX_ADDRS_LEN)%nat then Ok (joined addrs, size) else Fault OutOfBounds.
Proof. apply load_addrs. Qed.

(** [HMGET]: a reply that is not an array (an error of the server) is used
    after it has been freed. *)
Theorem redis_hashmget_error `{Hiredis} r r' t k ks reply :
  hash_call r (bytes_of "HMGET") t (k :: ks) [] = Ok (r', Some (Some reply)) ->
  (forall l, reply <> REDIS_REPLY_ARRAY l) ->
  agc_cache_redis_hashmget (Some t) (k :: ks) r = Fault BadPointer.
Proof.
  intros Hc Hr. unfold agc_cache_redis_hashmget. rewrite Hc. cbn [rbind]. destruct reply; try done. by destruct (Hr element).
Qed.

(** Shutting the module down releases no context: the flag that stops the
    system is cleared before the connections are taken out of the pool. *)
Theorem redis_shutdown_releases_nothing `{Hiredis} fuel r :
  mod_redis_shutdown (S fuel) r = Ok (with_running false r).
Proof. done. Qed.
