(* ===== verification/Loader.v ===== *)
(** * Loading modules

    [src/src/agc_module.c]: reading the list of modules, opening each shared
    object, calling its load function and starting its runtime thread.  The
    dynamic loader ([dlopen], [dlsym]) and the modules are parameters: their
    state is [world]. *)

From stdpp Require Import base gmap list fin_maps strings.
From Stdlib Require Import ZArith Lia.
From S2P Require Import Prelude CString Event Utils Yaml.

Module Loader.
Import Ev Yaml.

(** What a load function returns, as far as the loader tells the results apart. *)
Inductive load_status := LOAD_SUCCESS | LOAD_NOUNLOAD | LOAD_ERROR.

#[global] Instance load_status_eq_dec : EqDecision load_status.
Proof. solve_decision. Defined.

(** [agc_loadable_module_function_table_t]: the version, the load function (by
    its name) and whether the others are there. *)
Record function_table := FunctionTable {
  agc_api_version : Z;
  load : Z;
  has_runtime : bool;
  has_shutdown : bool }.

(** The dynamic loader and the load functions: [dso_open] gives a library or
    none; the load function of a module its status and whether it made an
    interface. *)
Class Dso := {
  world : Type;
  dso_open : world -> cstr -> bool -> world * option Z;
  dso_data_sym : world -> Z -> cstr -> option function_table;
  call_load : world -> Z -> world * (load_status * bool) }.

Definition AGC_API_VERSION : Z := 1.

(** [struct agc_loadable_module] *)
Record agc_loadable_module := LoadableModule {
  key : cstr;
  filename : cstr;
  perm : Z;
  lib : Z;
  runtime_func : bool;
  shutdown_func : bool }.

Section loader.
Context `{Dso}.

(** [loadable_modules] and what has been done: the load functions called, in
    order. *)
Record container := Container {
  module_hash : gmap cstr agc_loadable_module;
  libs : world;
  loaded : list cstr }.

(** The loop that opens the library; [loading_times] is never changed. *)
Fixpoint open_module (fuel : nat) (w : world) (path table_name : cstr) (load_global : bool)
    : result (world * Z * function_table) :=
  match fuel with
  | O => OutOfFuel
  | S fuel' =>
      match dso_open w path load_global with
      | (w, None) => open_module fuel' w path table_name load_global
      | (w, Some dso) =>
          match dso_data_sym w dso table_name with
          | None => open_module fuel' w path table_name load_global
          | Some t => Ok (w, dso, t)
          end
      end
  end.

(** [agc_loadable_module_loadmodule]: the new module, or none on an error. *)
Definition agc_loadable_module_loadmodule (fuel : nat) (w : world) (path filename : cstr) (global : bool)
    : result (world * option agc_loadable_module) :=
  let! (w, dso, t) := open_module fuel w path (filename ++ bytes_of "_module_interface") global in
  if negb (agc_api_version t =? AGC_API_VERSION) then Ok (w, None)
  else
    match call_load w (load t) with
    | (w, (LOAD_ERROR, _)) => Ok (w, None)
    | (w, (_, false)) => Ok (w, None)
    | (w, (status, true)) =>
        Ok (w, Some (LoadableModule [] path (if bool_decide (status = LOAD_NOUNLOAD) then 1 else 0) dso
                       (has_runtime t) (has_shutdown t)))
    end.

Definition agc_loadable_module_processmodule (file : cstr) (m : agc_loadable_module) (c : container) : container :=
  Container (<[file := LoadableModule file (filename m) (perm m) (lib m) (runtime_func m) (shutdown_func m)]> (module_hash c))
    (libs c) (loaded c ++ [file]).

Definition module_file (mod_dir dir fname : cstr) : cstr :=
  (match dir with [] => mod_dir | _ => dir end) ++ bytes_of "/" ++ fname ++ bytes_of ".so".

(** [agc_loadable_module_loadfile] *)
Definition agc_loadable_module_loadfile (fuel : nat) (mod_dir dir fname : cstr) (global : bool) (c : container)
    : result (container * agc_status) :=
  match module_hash c !! fname with
  | Some _ => Ok (c, AGC_STATUS_SUCCESS)
  | None =>
      let! (w, m) := agc_loadable_module_loadmodule fuel (libs c) (module_file mod_dir dir fname) fname global in
      let c := Container (module_hash c) w (loaded c) in
      match m with
      | Some m => Ok (agc_loadable_module_processmodule fname m c, AGC_STATUS_SUCCESS)
      | None => Ok (c, AGC_STATUS_GENERR)
      end
  end.

(** ** The list of modules *)

Inductive datap := MODULE_NAME | MODULE_PATH | MODULE_GLOBAL.

Record init_state := InitState {
  iskey : bool;
  block_modules : bool;
  new_module : bool;
  data_ptr : option datap;
  module_name : list Z;
  module_path : list Z;
  module_global : list Z;
  module_count : Z;
  modules : container;
  aborted : bool }.

Definition set_key (k : bool) (s : init_state) : init_state :=
  InitState k (block_modules s) (new_module s) (data_ptr s) (module_name s) (module_path s) (module_global s)
    (module_count s) (modules s) (aborted s).

(** A scalar in the place of a key. *)
Definition key_scalar (v : cstr) (s : init_state) : init_state :=
  let set b d := InitState (iskey s) b (new_module s) d (module_name s) (module_path s) (module_global s)
                   (module_count s) (modules s) (aborted s) in
  if bool_decide (v = bytes_of "modules") then set true None
  else if bool_decide (v = bytes_of "name") then set (block_modules s) (Some MODULE_NAME)
  else if bool_decide (v = bytes_of "path") then set (block_modules s) (Some MODULE_PATH)
  else if bool_decide (v = bytes_of "global") then set (block_modules s) (Some MODULE_GLOBAL)
  else set false None.

(** A scalar in the place of a value: copied to where [datap] points. *)
Definition value_scalar (v : cstr) (s : init_state) : result init_state :=
  let set n p g := InitState (iskey s) (block_modules s) (new_module s) (data_ptr s) n p g
                     (module_count s) (modules s) (aborted s) in
  match data_ptr s with
  | None => Ok s
  | Some MODULE_NAME => let! b := strcpy (module_name s) 0 v in Ok (set b (module_path s) (module_global s))
  | Some MODULE_PATH => let! b := strcpy (module_path s) 0 v in Ok (set (module_name s) b (module_global s))
  | Some MODULE_GLOBAL => let! b := strcpy (module_global s) 0 v in Ok (set (module_name s) (module_path s) b)
  end.

(** The end of a block: the module is loaded, or the process aborted. *)
Definition block_end (fuel : nat) (mod_dir : cstr) (s : init_state) : result init_state :=
  if block_modules s && new_module s then
    let global := Utils.agc_true (Some (cstring (module_global s))) in
    let! (c, st) := agc_loadable_module_loadfile fuel mod_dir (cstring (module_path s)) (cstring (module_name s)) global (modules s) in
    if bool_decide (st = AGC_STATUS_SUCCESS) then
      Ok (InitState (iskey s) (block_modules s) false (data_ptr s) (module_name s) (module_path s) (module_global s)
            (module_count s + 1) c (aborted s))
    else
      Ok (InitState (iskey s) (block_modules s) (new_module s) (data_ptr s) (module_name s) (module_path s) (module_global s)
            (module_count s) c true)
  else Ok s.

Definition init_step (fuel : nat) (mod_dir : cstr) (s : init_state) (t : yaml_token) : result init_state :=
  if aborted s then Ok s
  else
    match t with
    | YAML_KEY_TOKEN => Ok (set_key true s)
    | YAML_VALUE_TOKEN => Ok (set_key false s)
    | YAML_SCALAR_TOKEN v => if iskey s then Ok (key_scalar v s) else value_scalar v s
    | YAML_BLOCK_ENTRY_TOKEN =>
        if block_modules s then
          Ok (InitState (iskey s) (block_modules s) true (data_ptr s)
                (replicate (length (module_name s)) 0) (replicate (length (module_path s)) 0)
                (replicate (length (module_global s)) 0) (module_count s) (modules s) (aborted s))
        else Ok s
    | YAML_BLOCK_END_TOKEN => block_end fuel mod_dir s
    | _ => Ok s
    end.

(** The modules whose runtime threads are started, in the order of the table. *)
Definition agc_loadable_module_runtime (c : container) : list cstr :=
  fst <$> filter (fun km => runtime_func (snd km) = true) (map_to_list (module_hash c)).

Definition init_start (w : world) : init_state :=
  InitState false false false None (replicate 64 0) (replicate 256 0) (replicate 16 0) 0 (Container ∅ w []) false.

(** The outcome of [agc_loadable_module_init]: the process aborts, no module was
    loaded, or the modules and the threads started. *)
Inductive init_outcome :=
  | InitAbort
  | InitNone
  | InitDone (c : container) (threads : list cstr).

Definition agc_loadable_module_init (fuel : nat) (mod_dir : cstr) (w : world) (tokens : list yaml_token) : result init_outcome :=
  let! (s, _) := scan (init_step fuel mod_dir) (init_start w) tokens in
  if aborted s then Ok InitAbort
  else if module_count s =? 0 then Ok InitNone
  else Ok (InitDone (modules s) (agc_loadable_module_runtime (modules s))).

End loader.
End Loader.
