(* ===== verification/LoaderProof.v ===== *)
(** * Loading modules: what a list of modules loads

    A well-formed list loads its modules once each and in order; a library that
    cannot be opened keeps the loader from ending; a key it does not know ends
    the list; a name too long for its buffer is written past it. *)

From stdpp Require Import base gmap list fin_maps strings.
From Stdlib Require Import ZArith Lia.
From S2P Require Import Prelude CString Event Utils Yaml Loader.

Module LoaderProof.
Import Ev Yaml Loader.

(** ** Lists of modules *)

Definition key_of (d : datap) : cstr :=
  match d with MODULE_NAME => bytes_of "name" | MODULE_PATH => bytes_of "path" | MODULE_GLOBAL => bytes_of "global" end.
Definition size_of (d : datap) : nat := match d with MODULE_NAME => 64 | MODULE_PATH => 256 | MODULE_GLOBAL => 16 end.

#[global] Instance datap_eq_dec : EqDecision datap.
Proof. solve_decision. Defined.

(** A module of the list: its entries, in any order. *)
Abbreviation fields := (list (datap * cstr)).

Definition field_tokens (f : datap * cstr) : list yaml_token := entry (key_of f.1) f.2.
Definition module_tokens (fs : fields) : list yaml_token :=
  [YAML_BLOCK_ENTRY_TOKEN; YAML_OTHER_TOKEN] ++ concat (field_tokens <$> fs) ++ [YAML_BLOCK_END_TOKEN].
Definition head_tokens : list yaml_token :=
  [YAML_OTHER_TOKEN; YAML_OTHER_TOKEN; YAML_KEY_TOKEN; YAML_SCALAR_TOKEN (bytes_of "modules"); YAML_VALUE_TOKEN; YAML_OTHER_TOKEN].
Definition list_tokens (ms : list fields) : list yaml_token :=
  head_tokens ++ concat (module_tokens <$> ms) ++ [YAML_BLOCK_END_TOKEN; YAML_BLOCK_END_TOKEN].

(** The value an entry has: the last one given, or empty. *)
Definition field (d : datap) (fs : fields) : cstr :=
  foldl (fun v f => if decide (f.1 = d) then f.2 else v) [] fs.

Definition field_ok (f : datap * cstr) : Prop := Forall (fun c => c <> 0) f.2 /\ (length f.2 < size_of f.1)%nat.

Section loader.
Context `{Dso} (fuel : nat) (mod_dir : cstr).

(** The state within the list, or behind it ([block] is false): its buffers
    hold the strings [v d]. *)
Record holding (block : bool) (v : datap -> cstr) (s : init_state) : Prop := Holding {
  ho_block : block_modules s = block;
  ho_run : aborted s = false;
  ho_name : cstring (module_name s) = v MODULE_NAME /\ length (module_name s) = 64%nat;
  ho_path : cstring (module_path s) = v MODULE_PATH /\ length (module_path s) = 256%nat;
  ho_global : cstring (module_global s) = v MODULE_GLOBAL /\ length (module_global s) = 16%nat }.

Lemma strcpy_whole buf v : (length v < length buf)%nat -> Forall (fun c => c <> 0) v ->
  exists buf', strcpy buf 0 v = Ok buf' /\ cstring buf' = v /\ length buf' = length buf.
Proof.
  intros Hl Hv. pose proof (strcpy_fits [] buf v Hl) as E. cbn [app length] in E. eexists. split; [exact E|].
  split; [by apply cstring_text|]. rewrite length_app. cbn [length]. rewrite length_drop. lia.
Qed.

(** One entry. *)
Lemma field_steps block v s f : holding block v s -> field_ok f ->
  exists s', steps (init_step fuel mod_dir) s (field_tokens f) = Ok s' /\
    holding block (fun d => if decide (f.1 = d) then f.2 else v d) s' /\
    new_module s' = new_module s /\ module_count s' = module_count s /\ modules s' = modules s.
Proof.
  intros [Hb Hr [Hn Hnl] [Hp Hpl] [Hg Hgl]] [Hz Hl]. destruct f as [d x]. cbn [fst snd] in *.
  unfold field_tokens, entry. cbn [fst snd]. cbn [steps]. unfold init_step at 1. rewrite Hr. cbn [rbind].
  unfold init_step at 1. cbn [aborted set_key iskey]. rewrite Hr. cbn [rbind].
  assert (key_scalar (key_of d) (set_key true s) =
    InitState true block (new_module s) (Some d) (module_name s) (module_path s) (module_global s) (module_count s) (modules s) (aborted s))
    as -> by (destruct d; unfold key_scalar; cbn [set_key block_modules]; rewrite Hb; reflexivity).
  unfold init_step at 1. cbn [aborted]. rewrite Hr. cbn [rbind]. unfold init_step, value_scalar. cbn [set_key aborted iskey data_ptr].
  destruct d; cbn [size_of] in Hl;
    cbn [set_key iskey block_modules new_module data_ptr module_name module_path module_global module_count modules aborted].
  - destruct (strcpy_whole (module_name s) x) as (b & -> & ? & ?); [lia|done|]. cbn [rbind].
    eexists. split; [reflexivity|]. split_and!; [|done..]. split; cbn; split_and?; done || congruence.
  - destruct (strcpy_whole (module_path s) x) as (b & -> & ? & ?); [lia|done|]. cbn [rbind].
    eexists. split; [reflexivity|]. split_and!; [|done..]. split; cbn; split_and?; done || congruence.
  - destruct (strcpy_whole (module_global s) x) as (b & -> & ? & ?); [lia|done|]. cbn [rbind].
    eexists. split; [reflexivity|]. split_and!; [|done..]. split; cbn; split_and?; done || congruence.
Qed.

(** All entries of a module. *)
Lemma fields_steps block fs : forall v s, holding block v s -> Forall field_ok fs ->
  exists s', steps (init_step fuel mod_dir) s (concat (field_tokens <$> fs)) = Ok s' /\
    holding block (fun d => foldl (fun x f => if decide (f.1 = d) then f.2 else x) (v d) fs) s' /\
    new_module s' = new_module s /\ module_count s' = module_count s /\ modules s' = modules s.
Proof.
  induction fs as [|f fs IH]; intros v s Hs Hf; [by exists s|]. apply Forall_cons in Hf as [Hf Hfs].
  destruct (field_steps block v s f Hs Hf) as (s1 & E1 & Hs1 & ? & ? & ?).
  destruct (IH _ s1 Hs1 Hfs) as (s' & E & Hs' & ? & ? & ?).
  exists s'. cbn [fmap list_fmap concat]. rewrite steps_app, E1. cbn [rbind].
  split_and!; [exact E|exact Hs'|congruence..].
Qed.

(** A module up to the end of its block. *)
Lemma module_steps v s fs : holding true v s -> Forall field_ok fs ->
  exists s', steps (init_step fuel mod_dir) s ([YAML_BLOCK_ENTRY_TOKEN; YAML_OTHER_TOKEN] ++ concat (field_tokens <$> fs)) = Ok s' /\
    holding true (fun d => field d fs) s' /\ new_module s' = true /\ module_count s' = module_count s /\ modules s' = modules s.
Proof.
  intros [Hb Hr [Hn Hnl] [Hp Hpl] [Hg Hgl]] Hfs. rewrite steps_app. cbn [steps]. unfold init_step at 1. rewrite Hr, Hb. cbn [rbind].
  unfold init_step at 1. cbn [aborted rbind].
  set (s0 := InitState _ _ _ _ _ _ _ _ _ _).
  assert (holding true (fun _ => []) s0) as Hs0.
  { split; cbn; try done; (split; [apply cstring_zeros|by rewrite length_replicate]). }
  destruct (fields_steps true fs _ s0 Hs0 Hfs) as (s' & E & Hs' & ? & ? & ?). exists s'.
  unfold s0 in *. cbn [aborted rbind]. by split_and!.
Qed.

(** ** Libraries that load *)

(** [rt n]: whether the module [n] has a runtime function. *)
Context (rt : cstr -> bool).

(** The library opens at the first try, has the table of its module, and its
    load function succeeds, whatever was loaded before. *)
Definition loadable (path name : cstr) (g : bool) : Prop := forall w, exists w1 dso t w2 st,
  dso_open w path g = (w1, Some dso) /\ dso_data_sym w1 dso (name ++ bytes_of "_module_interface") = Some t /\
  agc_api_version t = AGC_API_VERSION /\ call_load w1 (load t) = (w2, (st, true)) /\ st <> LOAD_ERROR /\ has_runtime t = rt name.

Definition name_of (fs : fields) : cstr := field MODULE_NAME fs.
Definition file_of (fs : fields) : cstr := module_file mod_dir (field MODULE_PATH fs) (name_of fs).
Definition global_of (fs : fields) : bool := Utils.agc_true (Some (field MODULE_GLOBAL fs)).

Record module_ok (fs : fields) : Prop := ModuleOk {
  mo_fields : Forall field_ok fs;
  mo_loads : loadable (file_of fs) (name_of fs) (global_of fs) }.

(** The names without repetitions, the first of each kept. *)
Definition add_name (l : list cstr) (n : cstr) : list cstr := if decide (n ∈ l) then l else l ++ [n].
Definition names (l : list cstr) (ms : list fields) : list cstr := foldl add_name l (name_of <$> ms).

Record container_ok (c : container) : Prop := ContainerOk {
  co_nodup : NoDup (loaded c);
  co_keys : forall n, n ∈ loaded c <-> is_Some (module_hash c !! n);
  co_runtime : forall n m, module_hash c !! n = Some m -> runtime_func m = rt n }.

Lemma processmodule_ok c n m w : container_ok c -> module_hash c !! n = None -> runtime_func m = rt n ->
  container_ok (agc_loadable_module_processmodule n m (Container (module_hash c) w (loaded c))).
Proof.
  intros [Hnd Hk Hrt] Hn Hm.
  assert (n ∉ loaded c) as Hni by (intros [? ?]%Hk; congruence).
  split; cbn.
  - apply NoDup_app. split_and!; [done| |apply NoDup_singleton].
    intros x Hx. rewrite not_elem_of_cons. split; [by intros ->|apply not_elem_of_nil].
  - intros x. destruct (decide (x = n)) as [->|Hne].
    + rewrite lookup_insert_eq. split; [by eexists|set_solver].
    + rewrite lookup_insert_ne by done. rewrite <- Hk. set_solver.
  - intros x m'. destruct (decide (x = n)) as [->|Hne].
    + rewrite lookup_insert_eq. by intros [= <-].
    + rewrite lookup_insert_ne by done. apply Hrt.
Qed.

Lemma loadfile_ok c fs : container_ok c -> module_ok fs -> (0 < fuel)%nat ->
  exists c', agc_loadable_module_loadfile fuel mod_dir (field MODULE_PATH fs) (name_of fs) (global_of fs) c = Ok (c', AGC_STATUS_SUCCESS) /\
    container_ok c' /\ loaded c' = add_name (loaded c) (name_of fs).
Proof.
  intros Hc [_ Hl] Hf. pose proof (co_keys _ Hc) as Hk. unfold agc_loadable_module_loadfile, add_name. fold (file_of fs).
  destruct (module_hash c !! name_of fs) as [m|] eqn:Em.
  { exists c. split_and!; try done. rewrite decide_True; [done|]. apply Hk. by eexists. }
  rewrite decide_False by (intros [? ?]%Hk; congruence).
  destruct (Hl (libs c)) as (w1 & dso & t & w2 & st & Ho & Hs & Hv & Hcl & Hst & Hrn).
  unfold agc_loadable_module_loadmodule. destruct fuel as [|f]; [lia|]. cbn [open_module]. rewrite Ho, Hs. cbn [rbind].
  rewrite Hv, Z.eqb_refl. cbn [negb]. rewrite Hcl.
  destruct st; [| |done]; cbn [rbind]; eexists; (split; [reflexivity|]); (split; [by apply processmodule_ok|done]).
Qed.

(** ** The whole list *)

Definition between (n : Z) (l : list cstr) (s : init_state) : Prop :=
  (exists v, holding true v s) /\ new_module s = false /\ module_count s = n /\ container_ok (modules s) /\ loaded (modules s) = l.

Lemma module_loads n l s fs : between n l s -> module_ok fs -> (0 < fuel)%nat ->
  exists s', steps (init_step fuel mod_dir) s (module_tokens fs) = Ok s' /\ between (n + 1) (add_name l (name_of fs)) s'.
Proof.
  intros ([v Hs] & _ & Hn & Hc & Hl) Hm Hf. unfold module_tokens. rewrite app_assoc, steps_app.
  destruct (module_steps v s fs Hs (mo_fields _ Hm)) as (s1 & -> & Hs1 & Hnew & Hn1 & Hmod). cbn [rbind steps].
  pose proof Hs1 as [Hb Hr [Hna Hnl] [Hpa Hpl] [Hga Hgl]]. unfold init_step. rewrite Hr. unfold block_end.
  rewrite Hb, Hnew. cbn [andb]. rewrite Hna, Hpa, Hga. fold (name_of fs) (global_of fs). rewrite Hmod.
  destruct (loadfile_ok (modules s) fs Hc Hm Hf) as (c' & -> & Hc' & Hl'). cbn [rbind].
  rewrite bool_decide_true by done. eexists. split; [reflexivity|].
  split_and!; cbn; [|done|lia|done|congruence]. exists (fun d => field d fs). by split.
Qed.

Lemma modules_load ms : forall n l s, between n l s -> Forall module_ok ms -> (0 < fuel)%nat ->
  exists s', steps (init_step fuel mod_dir) s (concat (module_tokens <$> ms)) = Ok s' /\
    between (n + Z.of_nat (length ms)) (names l ms) s'.
Proof.
  induction ms as [|fs ms IH]; intros n l s Hb Hms Hf.
  { exists s. cbn. by rewrite Z.add_0_r. }
  apply Forall_cons in Hms as [Hm Hms]. destruct (module_loads n l s fs Hb Hm Hf) as (s1 & E1 & Hb1).
  destruct (IH _ _ s1 Hb1 Hms Hf) as (s' & E & Hb'). exists s'. cbn [fmap list_fmap concat]. rewrite steps_app, E1. cbn [rbind].
  split; [exact E|]. cbn [length]. by replace (n + Z.of_nat (S (length ms))) with (n + 1 + Z.of_nat (length ms)) by lia.
Qed.

(** The state behind the key [modules]. *)
Lemma head_steps w : exists s, steps (init_step fuel mod_dir) (init_start w) head_tokens = Ok s /\ between 0 [] s.
Proof.
  eexists. split; [reflexivity|]. split_and!; try done; cbn.
  - exists (fun _ => []). by split.
  - split; [apply NoDup_nil_2| |done]. intros n. cbn [module_hash loaded modules].
    split; [by intros ?%elem_of_nil|by intros [? ?]].
Qed.

(** The ends of blocks that belong to no module do nothing. *)
Lemma ends_steps n l s k : between n l s -> steps (init_step fuel mod_dir) s (replicate k YAML_BLOCK_END_TOKEN) = Ok s.
Proof.
  intros ([v [Hb Hr _ _ _]] & Hnew & _). induction k as [|k IH]; [done|]. cbn [replicate steps]. unfold init_step at 1.
  rewrite Hr. unfold block_end. rewrite Hb, Hnew. exact IH.
Qed.

Lemma goes_on_tokens ms : Forall goes_on (concat (module_tokens <$> ms)).
Proof.
  induction ms as [|fs ms IH]; cbn; [constructor|]. repeat constructor. apply Forall_app. split; [|done].
  apply Forall_app. split; [|by repeat constructor]. induction fs as [|f fs IHf]; cbn; [constructor|]. by repeat constructor.
Qed.

Lemma runtime_spec c : container_ok c -> agc_loadable_module_runtime c ≡ₚ filter (fun n => rt n = true) (loaded c).
Proof.
  intros [Hnd Hk Hrt]. apply NoDup_Permutation.
  - unfold agc_loadable_module_runtime. apply NoDup_fmap_fst.
    + intros n m1 m2 H1 H2. apply list_elem_of_filter in H1 as [_ H1], H2 as [_ H2].
      apply elem_of_map_to_list in H1, H2. congruence.
    + apply NoDup_filter, NoDup_map_to_list.
  - by apply NoDup_filter.
  - intros n. unfold agc_loadable_module_runtime. rewrite list_elem_of_fmap, list_elem_of_filter, Hk. split.
    + intros ([n' m] & -> & [Hr Hin]%list_elem_of_filter). cbn in *. apply elem_of_map_to_list in Hin.
      split; [by rewrite <- (Hrt _ _ Hin)|by eexists].
    + intros [Hr [m Hm]]. exists (n, m). split; [done|]. apply list_elem_of_filter. cbn. split; [by rewrite (Hrt _ _ Hm)|].
      by apply elem_of_map_to_list.
Qed.

(** ** A key that is not known *)

Definition unknown (k : cstr) : Prop := k ∉ [bytes_of "modules"; bytes_of "name"; bytes_of "path"; bytes_of "global"].

(** Behind the list: nothing more is loaded. *)
Definition behind (n : Z) (c : container) (s : init_state) : Prop :=
  (exists v, holding false v s) /\ module_count s = n /\ modules s = c.

Lemma unknown_steps block v s k x : holding block v s -> unknown k ->
  exists s', steps (init_step fuel mod_dir) s (entry k x) = Ok s' /\ holding false v s' /\
    module_count s' = module_count s /\ modules s' = modules s.
Proof.
  intros [Hb Hr Hn Hp Hg] Hk. unfold unknown in Hk. rewrite !not_elem_of_cons in Hk. destruct Hk as (H1 & H2 & H3 & H4 & _).
  unfold entry. cbn [steps]. unfold init_step at 1. rewrite Hr. cbn [rbind].
  unfold init_step at 1. cbn [aborted set_key iskey]. rewrite Hr. cbn [rbind]. unfold key_scalar.
  rewrite !bool_decide_false by done.
  unfold init_step at 1. cbn [set_key aborted]. rewrite Hr. cbn [rbind].
  unfold init_step, value_scalar. cbn [set_key aborted iskey data_ptr rbind].
  eexists. split; [reflexivity|]. split_and!; [|done..]. by split.
Qed.

Lemma behind_module n c s fs : behind n c s -> Forall field_ok fs ->
  exists s', steps (init_step fuel mod_dir) s (module_tokens fs) = Ok s' /\ behind n c s'.
Proof.
  intros ([v Hs] & Hn & Hc) Hfs. pose proof Hs as [Hb Hr _ _ _]. unfold module_tokens. rewrite steps_app.
  cbn [steps]. unfold init_step at 1. rewrite Hr, Hb. cbn [rbind]. unfold init_step at 1. rewrite Hr. cbn [rbind].
  destruct (fields_steps false fs v s Hs Hfs) as (s1 & E1 & Hs1 & _ & ? & ?). rewrite steps_app, E1. cbn [rbind steps].
  pose proof Hs1 as [Hb1 Hr1 _ _ _]. unfold init_step. rewrite Hr1. unfold block_end. rewrite Hb1. cbn [andb rbind].
  exists s1. split; [done|]. split_and!; [by eexists|congruence..].
Qed.

Lemma behind_modules n c ms : forall s, behind n c s -> Forall (Forall field_ok) ms ->
  exists s', steps (init_step fuel mod_dir) s (concat (module_tokens <$> ms)) = Ok s' /\ behind n c s'.
Proof.
  induction ms as [|fs ms IH]; intros s Hb Hms; [by exists s|]. apply Forall_cons in Hms as [Hm Hms].
  destruct (behind_module n c s fs Hb Hm) as (s1 & E1 & Hb1). destruct (IH s1 Hb1 Hms) as (s' & E & Hb').
  exists s'. cbn [fmap list_fmap concat]. by rewrite steps_app, E1.
Qed.

Lemma behind_ends n c s k : behind n c s -> steps (init_step fuel mod_dir) s (replicate k YAML_BLOCK_END_TOKEN) = Ok s.
Proof.
  intros ([v [Hb Hr _ _ _]] & _). induction k as [|k IH]; [done|]. cbn [replicate steps]. unfold init_step at 1.
  rewrite Hr. unfold block_end. rewrite Hb. exact IH.
Qed.

(** A module with an entry under an unknown key. *)
Definition odd_tokens (fs : fields) (k x : cstr) : list yaml_token :=
  [YAML_BLOCK_ENTRY_TOKEN; YAML_OTHER_TOKEN] ++ concat (field_tokens <$> fs) ++ entry k x ++ [YAML_BLOCK_END_TOKEN].

Lemma odd_module n l s fs k x : between n l s -> Forall field_ok fs -> unknown k ->
  exists s', steps (init_step fuel mod_dir) s (odd_tokens fs k x) = Ok s' /\ behind n (modules s) s'.
Proof.
  intros ([v Hs] & _ & Hn & _ & _) Hfs Hk. unfold odd_tokens. rewrite (app_assoc [_; _]), steps_app.
  destruct (module_steps v s fs Hs Hfs) as (s1 & -> & Hs1 & _ & Hn1 & Hm1). cbn [rbind]. rewrite steps_app.
  destruct (unknown_steps _ _ s1 k x Hs1 Hk) as (s2 & -> & Hs2 & Hn2 & Hm2). cbn [rbind].
  assert (behind n (modules s) s2) as Hb by (split_and!; [by eexists|congruence..]).
  exists s2. split; [|done]. apply (behind_ends n (modules s) s2 1 Hb).
Qed.

(** ** A library that cannot be opened *)

Lemma open_forever path table g : (forall w, exists w', dso_open w path g = (w', None)) -> forall f w,
  open_module f w path table g = OutOfFuel.
Proof. intros Hn f. induction f as [|f IH]; intros w; cbn; [done|]. destruct (Hn w) as [w' ->]. apply IH. Qed.

Lemma stuck_module n l s fs : between n l s -> Forall field_ok fs -> name_of fs ∉ l ->
  (forall w, exists w', dso_open w (file_of fs) (global_of fs) = (w', None)) ->
  steps (init_step fuel mod_dir) s (module_tokens fs) = OutOfFuel.
Proof.
  intros ([v Hs] & _ & Hn & Hc & Hl) Hfs Hni Hno. unfold module_tokens. rewrite app_assoc, steps_app.
  destruct (module_steps v s fs Hs Hfs) as (s1 & -> & Hs1 & Hnew & Hn1 & Hmod). cbn [rbind steps].
  pose proof Hs1 as [Hb Hr [Hna Hnl] [Hpa Hpl] [Hga Hgl]]. unfold init_step. rewrite Hr. unfold block_end.
  rewrite Hb, Hnew. cbn [andb]. rewrite Hna, Hpa, Hga. fold (name_of fs) (global_of fs). rewrite Hmod.
  unfold agc_loadable_module_loadfile.
  destruct (module_hash (modules s) !! name_of fs) eqn:Em.
  { destruct Hni. rewrite <- Hl. apply (co_keys _ Hc). by eexists. }
  fold (file_of fs). unfold agc_loadable_module_loadmodule. by rewrite open_forever.
Qed.

(** ** A name that is too long *)

Lemma long_name v s x : holding true v s -> (64 <= length x)%nat ->
  steps (init_step fuel mod_dir) s (field_tokens (MODULE_NAME, x)) = Fault OutOfBounds.
Proof.
  intros [Hb Hr [Hn Hnl] _ _] Hx. unfold field_tokens, entry. cbn [fst snd key_of steps].
  unfold init_step at 1. rewrite Hr. cbn [rbind]. unfold init_step at 1. cbn [aborted set_key iskey]. rewrite Hr. cbn [rbind].
  unfold key_scalar. rewrite bool_decide_false, bool_decide_true by done.
  unfold init_step at 1. cbn [set_key aborted]. rewrite Hr. cbn [rbind].
  unfold init_step, value_scalar. cbn [set_key aborted iskey data_ptr module_name].
  by rewrite strcpy_overflows by lia.
Qed.

End loader.
End LoaderProof.

Import Ev Yaml Loader LoaderProof.

Section init.
Context `{Dso} (fuel : nat) (mod_dir : cstr).

(** The tokens behind the list run to the end of the file. *)
Lemma init_run w toks s : Forall goes_on toks -> steps (init_step fuel mod_dir) (init_start w) toks = Ok s -> aborted s = false ->
  agc_loadable_module_init fuel mod_dir w (toks ++ [YAML_STREAM_END_TOKEN]) =
    if module_count s =? 0 then Ok InitNone else Ok (InitDone (modules s) (agc_loadable_module_runtime (modules s))).
Proof.
  intros Hg Hs Hr. unfold agc_loadable_module_init. rewrite scan_steps, Hs by done. cbn [rbind scan].
  unfold init_step. rewrite Hr. cbn [rbind]. by rewrite Hr.
Qed.

Lemma list_goes_on ms1 mid ms2 : Forall goes_on mid ->
  Forall goes_on (head_tokens ++ concat (module_tokens <$> ms1) ++ mid ++ concat (module_tokens <$> ms2) ++
    [YAML_BLOCK_END_TOKEN; YAML_BLOCK_END_TOKEN]).
Proof.
  intros Hm. rewrite !Forall_app. split_and!; [by repeat constructor|apply goes_on_tokens|done|apply goes_on_tokens|by repeat constructor].
Qed.

End init.


(** A library that cannot be opened keeps the loader from ending, whatever the
    bound: the number of tries is never counted. *)
Theorem loader_never_ends `{Dso} fuel mod_dir rt ms fs w rest :
  Forall (module_ok mod_dir rt) ms -> Forall field_ok fs -> name_of fs ∉ names [] ms ->
  (forall w, exists w', dso_open w (file_of mod_dir fs) (global_of fs) = (w', None)) ->
  agc_loadable_module_init (S fuel) mod_dir w (head_tokens ++ concat (module_tokens <$> ms) ++ module_tokens fs ++ rest) = OutOfFuel.
Proof.
  intros Hms Hfs Hni Hno. unfold agc_loadable_module_init. rewrite !app_assoc, scan_steps.
  - destruct (head_steps (S fuel) mod_dir rt w) as (s0 & E0 & Hb0).
    destruct (modules_load (S fuel) mod_dir rt ms 0 [] s0 Hb0 Hms ltac:(lia)) as (s & E & Hb).
    rewrite <- app_assoc, steps_app, E0. cbn [rbind]. rewrite steps_app, E. cbn [rbind].
    by rewrite (stuck_module (S fuel) mod_dir rt _ _ s fs Hb Hfs Hni Hno).
  - rewrite <- app_assoc. pose proof (goes_on_tokens (ms ++ [fs])) as Hg. rewrite fmap_app, concat_app in Hg.
    cbn in Hg. rewrite app_nil_r in Hg. apply Forall_app. split; [by repeat constructor|exact Hg].
Qed.

(** An entry under a key the loader does not know ends the list: the module it
    belongs to and all modules behind it are left out without a word. *)
Theorem loader_unknown_key `{Dso} fuel mod_dir rt ms1 fs k x ms2 w :
  ms1 <> [] -> Forall (module_ok mod_dir rt) ms1 -> Forall field_ok fs -> unknown k -> Forall (Forall field_ok) ms2 -> (0 < fuel)%nat ->
  exists c threads, agc_loadable_module_init fuel mod_dir w
      ((head_tokens ++ concat (module_tokens <$> ms1) ++ odd_tokens fs k x ++ concat (module_tokens <$> ms2) ++
        [YAML_BLOCK_END_TOKEN; YAML_BLOCK_END_TOKEN]) ++ [YAML_STREAM_END_TOKEN]) = Ok (InitDone c threads) /\
    loaded c = names [] ms1.
Proof.
  intros Hne Hms Hfs Hk Hms2 Hf. destruct (head_steps fuel mod_dir rt w) as (s0 & E0 & Hb0).
  destruct (modules_load fuel mod_dir rt ms1 0 [] s0 Hb0 Hms Hf) as (s & E & Hb).
  destruct (odd_module fuel mod_dir rt _ _ s fs k x Hb Hfs Hk) as (s1 & E1 & Hb1).
  destruct (behind_modules fuel mod_dir _ _ ms2 s1 Hb1 Hms2) as (s2 & E2 & Hb2).
  pose proof (behind_ends fuel mod_dir _ _ s2 2 Hb2) as Ee. destruct Hb as (_ & _ & Hn & _ & Hl).
  destruct Hb2 as ([v Hs2] & Hn2 & Hm2).
  rewrite (init_run fuel mod_dir w _ s2); [| | |apply Hs2].
  - rewrite Hn2, (proj2 (Z.eqb_neq _ _)) by (destruct ms1; [done|cbn; lia]).
    eexists _, _. split; [reflexivity|]. by rewrite Hm2.
  - apply list_goes_on. unfold odd_tokens. pose proof (goes_on_tokens [fs]) as Hg. cbn in Hg. rewrite app_nil_r in Hg.
    do 2 apply Forall_cons in Hg as [_ Hg]. apply Forall_app in Hg as [Hg _].
    repeat constructor. apply Forall_app. split; [done|by repeat constructor].
  - rewrite steps_app, E0. cbn [rbind]. rewrite steps_app, E. cbn [rbind]. rewrite steps_app, E1. cbn [rbind].
    rewrite steps_app, E2. exact Ee.
Qed.

(** Libraries that open, one of them (at [/m/gone.so]) not; modules whose name
    begins with [r] have a runtime function. *)
#[local] Instance toy_dso : Dso := {
  world := list cstr;
  dso_open w path _ := if bool_decide (path = bytes_of "/m/gone.so") then (w, None) else (path :: w, Some (Z.of_nat (length w)));
  dso_data_sym w _ name := Some (FunctionTable 1 0 (bool_decide (head name = Some 114)) true);
  call_load w _ := (w, (LOAD_SUCCESS, true)) }.

Definition toy_runtime (n : cstr) : bool := bool_decide (head n = Some 114).
Definition toy_modules : list fields :=
  [[(MODULE_PATH, bytes_of "/x"); (MODULE_NAME, bytes_of "log")]; [(MODULE_NAME, bytes_of "redis"); (MODULE_GLOBAL, bytes_of "true")];
   [(MODULE_NAME, bytes_of "log")]].

Lemma toy_modules_ok : Forall (@module_ok toy_dso (bytes_of "/m") toy_runtime) toy_modules.
Proof.
  repeat apply Forall_cons_2; [..|constructor]; (split;
    [repeat apply Forall_cons_2; [..|constructor]; (split; [repeat constructor; discriminate|cbn; lia])
    |intros w; eexists _, _, _, _, _; split_and!; (reflexivity || discriminate)]).
Qed.


Lemma loader_never_ends_witness :
  @agc_loadable_module_init toy_dso 1000 (bytes_of "/m") []
    (head_tokens ++ concat (module_tokens <$> toy_modules) ++ module_tokens [(MODULE_NAME, bytes_of "gone")] ++ []) = OutOfFuel.
Proof.
  apply (@loader_never_ends toy_dso 999 (bytes_of "/m") toy_runtime toy_modules [(MODULE_NAME, bytes_of "gone")] [] []).
  - exact toy_modules_ok.
  - repeat constructor; cbn; (discriminate || lia).
  - vm_compute. set_solver.
  - intros w. exists w. reflexivity.
Defined.

Lemma loader_unknown_key_witness :
  exists c threads, @agc_loadable_module_init toy_dso 1 (bytes_of "/m") []
      ((head_tokens ++ concat (module_tokens <$> toy_modules) ++ odd_tokens [(MODULE_NAME, bytes_of "mq")] (bytes_of "desc") (bytes_of "x") ++
        concat (module_tokens <$> [[(MODULE_NAME, bytes_of "esl")]]) ++
        [YAML_BLOCK_END_TOKEN; YAML_BLOCK_END_TOKEN]) ++ [YAML_STREAM_END_TOKEN]) = Ok (InitDone c threads) /\
    loaded c = [bytes_of "log"; bytes_of "redis"].
Proof.
  apply (@loader_unknown_key toy_dso 1 (bytes_of "/m") toy_runtime toy_modules [(MODULE_NAME, bytes_of "mq")] (bytes_of "desc") (bytes_of "x")
    [[(MODULE_NAME, bytes_of "esl")]] []).
  - discriminate.
  - exact toy_modules_ok.
  - repeat constructor; cbn; (discriminate || lia).
  - apply (bool_decide_unpack _). vm_compute. exact I.
  - repeat constructor; cbn; (discriminate || lia).
  - lia.
Defined.
