(* ===== verification/Log.v ===== *)
(** * The logging core

    [src/src/agc_log.c]: messages are formatted by the thread that logs,
    queued, and handed by the log thread to the loggers that are bound at
    their level.  The bindings are a list in the order of binding; a message
    is a block of its own ([nodes]) whose address travels through the queue
    of [Queue].  The calls of the loggers are the output of the log thread's
    turn.  [vasprintf] is the C library's and a parameter. *)

From stdpp Require Import base gmap list fin_maps strings.
From Stdlib Require Import ZArith Lia.
From S2P Require Import Prelude CString Event Utils Queue.

Module Log.
Import Ev.

(** ** Levels *)

Definition AGC_LOG_DEBUG : Z := 7.
Definition AGC_LOG_WARNING : Z := 4.
Definition AGC_LOG_CRIT : Z := 2.
Definition AGC_LOG_INVALID : Z := 64.
Definition AGC_LOG_UNINIT : Z := 1000.

Definition LEVELS : list cstr :=
  bytes_of <$> ["CONSOLE"; "ALERT"; "CRIT"; "ERR"; "WARNING"; "NOTICE"; "INFO"; "DEBUG"].

Definition agc_log_level2str (lv : Z) : result cstr :=
  match LEVELS !! Z.to_nat (if AGC_LOG_DEBUG <? lv then AGC_LOG_DEBUG else lv) with
  | Some s => Ok s
  | None => Fault OutOfBounds
  end.

(** The search of [agc_log_str2level], from the [x]-th name. *)
Fixpoint find_level (x : Z) (names : list cstr) (str : cstr) : Z :=
  match names with
  | [] => AGC_LOG_INVALID
  | n :: names' => if same_nocase n str then x else find_level (x + 1) names' str
  end.
Definition agc_log_str2level (str : cstr) : Z :=
  if Utils.agc_is_number str then
    let x := atoi str in
    if AGC_LOG_INVALID <? x then AGC_LOG_INVALID - 1 else if x <? 0 then 0 else x
  else find_level 0 LEVELS str.

Definition esc (s : string) : cstr := 27 :: 91 :: bytes_of s.
Definition AGC_SEQ_DEFAULT_COLOR : cstr := esc "m".
Definition COLORS : list cstr :=
  [AGC_SEQ_DEFAULT_COLOR; esc "31m"; esc "31m"; esc "31m"; esc "35m"; esc "36m"; esc "32m"; esc "33m"].

(** ** State *)

(** [struct agc_log_binding]; [function] is the address of the logger. *)
Record agc_log_binding := Binding { function : Z; b_level : Z; is_console : bool }.

Inductive agc_log_type := AGC_ID_LOG | AGC_ID_SESSION.

(** [agc_log_node_t] *)
Record agc_log_node := Node {
  n_data : cstr;
  n_file : cstr;
  n_line : Z;
  n_func : cstr;
  n_level : Z;
  n_timestamp : Z;
  n_userdata : option cstr;
  n_type : agc_log_type }.

Record log := MkLog {
  LOGGER_BINDINGS : list agc_log_binding;
  LOG_MESSAGE_QUEUE : option Queue.apr_queue_t;
  LOG_THREAD_RUNNING : Z;
  MAX_LOG_LEVEL : Z;
  mods_loaded : Z;
  console_mods_loaded : Z;
  COLORIZE : bool;
  hard_log_level : Z;              (* [runtime.hard_log_level] *)
  console : option (list cstr);    (* [runtime.console] and what was written to it *)
  nodes : gmap Z agc_log_node;
  next_node : Z }.

Definition with_bindings bs ml mods cm hl (l : log) :=
  MkLog bs (LOG_MESSAGE_QUEUE l) (LOG_THREAD_RUNNING l) ml mods cm (COLORIZE l) hl (console l) (nodes l) (next_node l).
Definition with_console c (l : log) :=
  MkLog (LOGGER_BINDINGS l) (LOG_MESSAGE_QUEUE l) (LOG_THREAD_RUNNING l) (MAX_LOG_LEVEL l) (mods_loaded l)
    (console_mods_loaded l) (COLORIZE l) (hard_log_level l) c (nodes l) (next_node l).
Definition with_queue q (l : log) :=
  MkLog (LOGGER_BINDINGS l) (Some q) (LOG_THREAD_RUNNING l) (MAX_LOG_LEVEL l) (mods_loaded l)
    (console_mods_loaded l) (COLORIZE l) (hard_log_level l) (console l) (nodes l) (next_node l).
Definition with_running r (l : log) :=
  MkLog (LOGGER_BINDINGS l) (LOG_MESSAGE_QUEUE l) r (MAX_LOG_LEVEL l) (mods_loaded l)
    (console_mods_loaded l) (COLORIZE l) (hard_log_level l) (console l) (nodes l) (next_node l).
Definition with_nodes ns nx (l : log) :=
  MkLog (LOGGER_BINDINGS l) (LOG_MESSAGE_QUEUE l) (LOG_THREAD_RUNNING l) (MAX_LOG_LEVEL l) (mods_loaded l)
    (console_mods_loaded l) (COLORIZE l) (hard_log_level l) (console l) ns nx.

Definition AGC_LOG_QUEUE_LEN : Z := 100000.

(** The statics before [agc_log_init], with the level [agc_core.c] starts at. *)
Definition log_start (con : option (list cstr)) : log :=
  MkLog [] None 0 0 0 0 false AGC_LOG_CRIT con ∅ 1.

(** ** Bindings *)

(** [agc_log_bind_logger]; [mem] is whether the pool has memory.  The level
    is kept in eight bits. *)
Definition agc_log_bind_logger (f : Z) (level : Z) (con mem : bool) (l : log) : log * agc_status :=
  if negb mem then (l, AGC_STATUS_MEMERR)
  else
    let ml := if MAX_LOG_LEVEL l <? wrap 8 level then wrap 8 level else MAX_LOG_LEVEL l in
    let hl := if hard_log_level l <? level then level else hard_log_level l in
    (with_bindings (LOGGER_BINDINGS l ++ [Binding f level con]) ml (mods_loaded l + 1)
       (console_mods_loaded l + (if con then 1 else 0)) hl l, AGC_STATUS_SUCCESS).

(** The search of [agc_log_unbind_logger]: the bindings without the first one
    of [f], and that binding. *)
Fixpoint unlink (f : Z) (bs : list agc_log_binding) : list agc_log_binding * option agc_log_binding :=
  match bs with
  | [] => ([], None)
  | b :: bs' =>
      if function b =? f then (bs', Some b)
      else let (r, found) := unlink f bs' in (b :: r, found)
  end.

(** It computes a status but returns none. *)
Definition agc_log_unbind_logger (f : Z) (l : log) : log :=
  match unlink f (LOGGER_BINDINGS l) with
  | (bs, Some b) =>
      with_bindings bs (MAX_LOG_LEVEL l) (mods_loaded l - 1)
        (console_mods_loaded l - (if is_console b then 1 else 0)) (hard_log_level l) l
  | (_, None) => l
  end.

(** ** Logging *)

(** [agc_time_exp_t], broken down by the C library. *)
Record agc_time_exp := TimeExp { tm_year : Z; tm_mon : Z; tm_mday : Z; tm_hour : Z; tm_min : Z; tm_sec : Z; tm_usec : Z }.

(** The conversion [%0.wd]. *)
Definition padded (w : nat) (z : Z) : cstr :=
  let d := print_uint (Z.abs z) in
  (if z <? 0 then [45] else []) ++ replicate (w - length d) 48 ++ d.

Definition date_text (tm : agc_time_exp) : cstr :=
  padded 4 (tm_year tm + 1900) ++ 45 :: padded 2 (tm_mon tm + 1) ++ 45 :: padded 2 (tm_mday tm) ++
  32 :: padded 2 (tm_hour tm) ++ 58 :: padded 2 (tm_min tm) ++ 58 :: padded 2 (tm_sec tm) ++ 46 :: padded 6 (tm_usec tm).

Definition extra_fmt : cstr := bytes_of "%s [%s] %s:%d %s".

(** The text of [extra_fmt]. *)
Definition line_text (date level filep : cstr) (line : Z) (fmt : cstr) : cstr :=
  date ++ bytes_of " [" ++ level ++ bytes_of "] " ++ filep ++ bytes_of ":" ++ print_int line ++ bytes_of " " ++ fmt.

(** [agc_snprintf] into a buffer of [n] bytes: what remains of a text. *)
Definition snprintf (n : Z) (text : cstr) : cstr := take (Z.to_nat n - 1) text.

Definition is_running (l : log) : bool := bool_decide (is_Some (LOG_MESSAGE_QUEUE l)) && negb (LOG_THREAD_RUNNING l =? 0).

(** What goes to the console; [aok] is whether it takes output. *)
Definition write_console (aok : bool) (level : Z) (data : cstr) (l : log) : result log :=
  if (console_mods_loaded l =? 0) || negb (is_running l) then
    match console l with
    | None => Ok l
    | Some out =>
        if negb aok then Ok l
        else if COLORIZE l then
          match COLORS !! Z.to_nat level with
          | None => Fault OutOfBounds
          | Some c => Ok (with_console (Some (out ++ [c ++ data ++ AGC_SEQ_DEFAULT_COLOR])) l)
          end
        else Ok (with_console (Some (out ++ [data])) l)
    end
  else Ok l.

(** The message is put into the queue, or freed when the queue is full. *)
Definition enqueue (n : agc_log_node) (l : log) : result log :=
  match LOG_MESSAGE_QUEUE l with
  | None => Ok l
  | Some q =>
      if negb (is_running l) || (MAX_LOG_LEVEL l <? n_level n) then Ok l
      else
        let p := next_node l in
        let! (q, st) := Queue.apr_queue_trypush q p in
        match st with
        | Queue.APR_SUCCESS => Ok (with_queue q (with_nodes (<[p := n]> (nodes l)) (p + 1) l))
        | _ => Ok (with_queue q (with_nodes (nodes l) (p + 1) l))
        end
  end.

Section printf.
Context {va_list : Type} (vasprintf : cstr -> va_list -> option cstr).

(** The arguments of a call, the time and the state of the console. *)
Record request := Request {
  r_type : agc_log_type;
  r_file : option cstr;
  r_func : option cstr;
  r_line : Z;
  r_userdata : option cstr;
  r_level : Z;
  r_fmt : cstr;
  r_ap : va_list;
  r_now : Z;
  r_tm : agc_time_exp;
  r_aok : bool }.

Definition filep (r : request) : cstr := default [] (Utils.agc_cut_path (r_file r)).

(** [full_fmt], of as many bytes as [len] says. *)
Definition full_fmt (r : request) : result cstr :=
  let date := snprintf 80 (date_text (r_tm r)) in
  let len := wrap 32 (Z.of_nat (length extra_fmt + length date + length (filep r) + 32 + length (r_fmt r))) in
  let! level := agc_log_level2str (r_level r) in
  Ok (snprintf len (line_text date level (filep r) (r_line r) (r_fmt r))).

(** The block that is queued: [agc_set_string] cuts the names to 79 bytes,
    and the data of the user is not taken over. *)
Definition node_of (r : request) (data : cstr) : agc_log_node :=
  Node data (snprintf 80 (filep r)) (wrap 32 (r_line r)) (snprintf 80 (default [] (r_func r))) (r_level r) (r_now r) None (r_type r).

Definition agc_log_vprintf (r : request) (l : log) : result log :=
  if hard_log_level l <? r_level r then Ok l
  else if AGC_LOG_INVALID <=? r_level r then Fault Assertion
  else
    let! fmt := full_fmt r in
    match vasprintf fmt (r_ap r) with
    | None => Ok l
    | Some data =>
        let! l := write_console (r_aok r) (r_level r) data l in
        enqueue (node_of r data) l
    end.

Definition agc_log_printf (r : request) (l : log) : result log := agc_log_vprintf r l.

End printf.

(** ** The log thread *)

Record call := Call { called : Z; c_node : agc_log_node; c_level : Z }.

(** The calls of the loggers for one message, under the lock of the bindings. *)
Fixpoint deliver (bs : list agc_log_binding) (n : agc_log_node) : list call :=
  match bs with
  | [] => []
  | b :: bs' => if n_level n <=? b_level b then Call (function b) n (n_level n) :: deliver bs' n else deliver bs' n
  end.

(** [agc_log_node_free] of the block at [p]. *)
Definition agc_log_node_free (p : Z) (l : log) : result log :=
  match nodes l !! p with
  | None => Fault BadFree
  | Some _ => Ok (with_nodes (delete p (nodes l)) (next_node l) l)
  end.

(** How a turn of the loop of [log_thread_func] ends. *)
Inductive turn := Again | Waiting | Ended.

(** A turn from the return of [agc_queue_pop] on. *)
Definition popped (q : Queue.apr_queue_t) (o : Queue.outcome) (pop : option Z) (l : log) : result (log * list call * turn) :=
  let l := with_queue q l in
  match o with
  | Queue.Wait => Ok (l, [], Waiting)
  | Queue.Return Queue.APR_SUCCESS =>
      let p := default 0 pop in
      if p =? 0 then Ok (with_running 0 l, [], Ended)
      else
        match nodes l !! p with
        | None => Fault BadPointer
        | Some n =>
            let calls := deliver (LOGGER_BINDINGS l) n in
            let! l := agc_log_node_free p l in
            Ok (l, calls, Again)
        end
  | Queue.Return _ => Ok (with_running 0 l, [], Ended)
  end.

Definition log_thread_turn (l : log) : result (log * list call * turn) :=
  if negb (LOG_THREAD_RUNNING l =? 1) then Ok (with_running 0 l, [], Ended)
  else
    match LOG_MESSAGE_QUEUE l with
    | None => Fault BadPointer
    | Some q => let! (q, o, pop) := Queue.apr_queue_pop q in popped q o pop l
    end.

(** The rest of a turn that had to wait. *)
Definition log_thread_wake (l : log) : result (log * list call * turn) :=
  match LOG_MESSAGE_QUEUE l with
  | None => Fault BadPointer
  | Some q => let! (q, o, pop) := Queue.apr_queue_pop_wake q in popped q o pop l
  end.

(** The loop of [log_thread_func] until it waits or ends. *)
Fixpoint log_thread_func (fuel : nat) (l : log) : result (log * list call * turn) :=
  match fuel with
  | O => OutOfFuel
  | S fuel' =>
      let! (l, calls, t) := log_thread_turn l in
      match t with
      | Again => let! (l, calls', t) := log_thread_func fuel' l in Ok (l, calls ++ calls', t)
      | _ => Ok (l, calls, t)
      end
  end.

(** [agc_log_init]: the thread has started when it returns. *)
Definition agc_log_init (colorize : bool) (l : log) : log :=
  MkLog (LOGGER_BINDINGS l) (Some (Queue.apr_queue_create AGC_LOG_QUEUE_LEN)) 1 (MAX_LOG_LEVEL l) (mods_loaded l)
    (console_mods_loaded l) (COLORIZE l || colorize) (hard_log_level l) (console l) (nodes l) (next_node l).

(** [agc_log_shutdown] up to its wait for the thread: the null message. *)
Definition agc_log_shutdown_request (l : log) : result (log * Queue.outcome) :=
  match LOG_MESSAGE_QUEUE l with
  | None => Fault BadPointer
  | Some q => let! (q, o) := Queue.apr_queue_push q 0 in Ok (with_queue q l, o)
  end.

(** The rest of a push that had to wait for room. *)
Definition agc_log_shutdown_wake (l : log) : result (log * Queue.outcome) :=
  match LOG_MESSAGE_QUEUE l with
  | None => Fault BadPointer
  | Some q => let! (q, o) := Queue.apr_queue_push_wake q 0 in Ok (with_queue q l, o)
  end.

(** The loop of the thread from where it is: waiting for a message, or not. *)
Definition log_thread_resume (fuel : nat) (waits : bool) (l : log) : result (log * list call * turn) :=
  match fuel with
  | O => OutOfFuel
  | S fuel' =>
      let! (l, calls, t) := (if waits then log_thread_wake l else log_thread_turn l) in
      match t with
      | Again => let! (l, calls', t) := log_thread_func fuel' l in Ok (l, calls ++ calls', t)
      | _ => Ok (l, calls, t)
      end
  end.

(** [agc_log_shutdown] up to the end of the thread, which works meanwhile: when
    the queue is full the caller waits until the thread has taken a message. *)
Definition agc_log_shutdown (fuel : nat) (waits : bool) (l : log) : result (log * list call * turn) :=
  let! (l, o) := agc_log_shutdown_request l in
  match o with
  | Queue.Return _ => log_thread_resume fuel waits l
  | Queue.Wait =>
      let! (l, calls, t) := (if waits then log_thread_wake l else log_thread_turn l) in
      let! (l, _) := agc_log_shutdown_wake l in
      let! (l, calls', t) := log_thread_func fuel l in
      Ok (l, calls ++ calls', t)
  end.

End Log.
