(* ===== verification/LogProof.v ===== *)
(** * The logging core: who gets which message

    Under every interleaving of binding, unbinding, logging and turns of the
    log thread the core behaves like a bounded list of messages that are
    handed, oldest first, to the loggers bound at their level. *)

From stdpp Require Import base gmap list fin_maps strings.
From Stdlib Require Import ZArith Lia.
From S2P Require Import Prelude CString Event Utils Queue Log.

Module LogProof.
Import Ev Log.

(** ** The line fits its buffer *)

Lemma print_uint_le10 z : 0 <= z < 2 ^ 31 -> (length (print_uint z) <= 11)%nat.
Proof. intros Hz. pose proof (print_int_width z ltac:(lia)) as H. unfold print_int in H. rewrite (proj2 (Z.ltb_ge _ _)) in H by lia. exact H. Qed.

Lemma level2str_ok lv : 0 <= lv -> exists s, agc_log_level2str lv = Ok s /\ (length s <= 7)%nat.
Proof.
  intros H. unfold agc_log_level2str.
  set (x := if AGC_LOG_DEBUG <? lv then AGC_LOG_DEBUG else lv).
  assert (0 <= x <= 7) as Hx by (unfold x, AGC_LOG_DEBUG; destruct (7 <? lv) eqn:E; lia).
  assert (x = 0 \/ x = 1 \/ x = 2 \/ x = 3 \/ x = 4 \/ x = 5 \/ x = 6 \/ x = 7) as Hc by lia.
  destruct Hc as [->|[->|[->|[->|[->|[->|[->| ->]]]]]]]; eexists; (split; [reflexivity|cbn; lia]).
Qed.

Definition int32 (z : Z) : Prop := - 2 ^ 31 <= z < 2 ^ 31.

Lemma full_fmt_uncut {va} (r : @request va) : 0 <= r_level r -> int32 (r_line r) ->
  Z.of_nat (length (filep r) + length (r_fmt r)) < 2 ^ 31 ->
  exists lv, agc_log_level2str (r_level r) = Ok lv /\
    full_fmt r = Ok (line_text (snprintf 80 (date_text (r_tm r))) lv (filep r) (r_line r) (r_fmt r)).
Proof.
  intros Hlv Hline Hlen. destruct (level2str_ok (r_level r) Hlv) as (lv & E & Hl). exists lv. split; [done|].
  unfold full_fmt. rewrite E. cbn [rbind]. f_equal. unfold snprintf at 1.
  set (date := snprintf 80 _). assert (length date <= 79)%nat as Hd by (unfold date, snprintf; rewrite length_take; lia).
  pose proof (print_int_width (r_line r) Hline) as Hp.
  apply take_ge. unfold wrap. rewrite Z.mod_small by (change (length extra_fmt) with 16%nat; lia).
  unfold line_text. rewrite !length_app.
  change (length (bytes_of " [")) with 2%nat. change (length (bytes_of "] ")) with 2%nat.
  change (length (bytes_of ":")) with 1%nat. change (length (bytes_of " ")) with 1%nat.
  change (length extra_fmt) with 16%nat. lia.
Qed.

(** ** The operations and their specification *)

Section refinement.
Context {va : Type} (vasprintf : cstr -> va -> option cstr).

(** [OWake] is a wake-up of the condition variable the thread waits at, with
    or without a message. *)
Inductive op :=
  | OBind (f level : Z) (con : bool)
  | OUnbind (f : Z)
  | OPrint (r : @request va)
  | OTurn
  | OWake.

(** The core, and whether the thread waits inside of [agc_queue_pop]. *)
Record system := System { core : log; idle : bool }.

Definition queue_empty (l : log) : bool :=
  match LOG_MESSAGE_QUEUE l with Some q => Queue.apr_queue_empty q | None => true end.

Definition thread_step (l : log) (waits : bool) : result (system * list call) :=
  let! (l, calls, t) := (if waits then log_thread_wake l else log_thread_turn l) in
  Ok (System l (match t with Waiting => true | _ => false end), calls).

(** A waiting thread goes on when there is a message. *)
Definition turn_of (s : system) : result (system * list call) :=
  if idle s && queue_empty (core s) then Ok (s, []) else thread_step (core s) (idle s).

Definition run1 (s : system) (o : op) : result (system * list call) :=
  match o with
  | OBind f level con => Ok (System (fst (agc_log_bind_logger f level con true (core s))) (idle s), [])
  | OUnbind f => Ok (System (agc_log_unbind_logger f (core s)) (idle s), [])
  | OPrint r => let! l := agc_log_printf vasprintf r (core s) in Ok (System l (idle s), [])
  | OTurn => turn_of s
  | OWake => if idle s then thread_step (core s) true else Ok (s, [])
  end.

Fixpoint run (s : system) (os : list op) : result (system * list call) :=
  match os with
  | [] => Ok (s, [])
  | o :: os' => let! (s, c1) := run1 s o in let! (s, c2) := run s os' in Ok (s, c1 ++ c2)
  end.

(** The promise: the loggers, the highest level ever bound, the messages not
    yet handed out, and where the thread is: at work, waiting, or at its end. *)
Inductive phase := Awake | Asleep | Gone.
#[global] Instance phase_eq_dec : EqDecision phase.
Proof. solve_decision. Defined.
Record spec := Spec { loggers : list agc_log_binding; highest : Z; pending : list agc_log_node; thread : phase }.

(** The text behind the last [c], or all of it. *)
Definition behind (c : Z) (s : cstr) : cstr := foldl (fun acc x => if x =? c then [] else acc ++ [x]) [] s.
(** The name of a file without its directories. *)
Definition base_name (s : cstr) : cstr := if bool_decide (92 ∈ s) then behind 92 s else behind 47 s.

(** The message of a request: the line with the date, the name of the level
    and the place, and the names, of which 79 bytes are kept. *)
Definition message_of (r : @request va) : option agc_log_node :=
  let file := base_name (default [] (r_file r)) in
  match LEVELS !! Z.to_nat (r_level r) with
  | Some lv =>
      (fun data => Node data (take 79 file) (r_line r mod 2 ^ 32) (take 79 (default [] (r_func r))) (r_level r) (r_now r) None (r_type r)) <$>
        vasprintf (line_text (take 79 (date_text (r_tm r))) lv file (r_line r) (r_fmt r)) (r_ap r)
  | None => None
  end.

(** A message goes to the loggers that are bound at its level or above, in the
    order in which they were bound. *)
Definition handed (bs : list agc_log_binding) (n : agc_log_node) : list call :=
  (fun b => Call (function b) n (n_level n)) <$> filter (fun b => n_level n <= b_level b) bs.

(** The loggers without the first one of [f]. *)
Definition unbound (f : Z) (bs : list agc_log_binding) : list agc_log_binding :=
  match list_find (fun b => function b = f) bs with Some (i, _) => take i bs ++ drop (S i) bs | None => bs end.

Definition spec1 (s : spec) (o : op) : spec * list call :=
  match o with
  | OBind f level con => (Spec (loggers s ++ [Binding f level con]) (highest s `max` level) (pending s) (thread s), [])
  | OUnbind f => (Spec (unbound f (loggers s)) (highest s) (pending s) (thread s), [])
  | OPrint r =>
      match thread s, message_of r with
      | Gone, _ | _, None => (s, [])
      | _, Some n =>
          if (r_level r <=? highest s) && (Z.of_nat (length (pending s)) <? AGC_LOG_QUEUE_LEN)
          then (Spec (loggers s) (highest s) (pending s ++ [n]) (thread s), []) else (s, [])
      end
  | OTurn =>
      match thread s, pending s with
      | Gone, _ => (s, [])
      | _, [] => (Spec (loggers s) (highest s) [] Asleep, [])
      | _, n :: rest => (Spec (loggers s) (highest s) rest Awake, handed (loggers s) n)
      end
  | OWake =>
      match thread s, pending s with
      | Asleep, [] => (Spec (loggers s) (highest s) [] Gone, [])
      | Asleep, n :: rest => (Spec (loggers s) (highest s) rest Awake, handed (loggers s) n)
      | _, _ => (s, [])
      end
  end.

Fixpoint spec_run (s : spec) (os : list op) : spec * list call :=
  match os with
  | [] => (s, [])
  | o :: os' => let (s, c1) := spec1 s o in let (s, c2) := spec_run s os' in (s, c1 ++ c2)
  end.

(** What the callers respect: the levels of the enumeration, texts the
    arithmetic can hold. *)
Definition op_ok (o : op) : Prop :=
  match o with
  | OBind _ level _ => 0 <= level < AGC_LOG_INVALID
  | OPrint r => 0 <= r_level r <= AGC_LOG_DEBUG /\ int32 (r_line r) /\
      Z.of_nat (length (filep r) + length (r_fmt r)) < 2 ^ 31
  | _ => True
  end.

Definition count_console (bs : list agc_log_binding) : Z := Z.of_nat (length (filter (fun b => is_console b = true) bs)).

(** The addresses in the queue and the blocks they point to, which are all there are. *)
Record owns (l : log) (ps : list Z) (ns : list agc_log_node) : Prop := Owns {
  ow_blocks : owned (nodes l) (next_node l) ps ns;
  ow_dom : forall p, is_Some (nodes l !! p) -> p ∈ ps }.

Lemma owns_same l l' ps ns : nodes l' = nodes l -> next_node l <= next_node l' -> owns l ps ns -> owns l' ps ns.
Proof. intros Hn Hx [O1 O2]. split; rewrite Hn; [|done]. by eapply owned_frame; [done|exact Hx|]. Qed.

(** The first block handed out and freed. *)
Lemma owns_pop l l' p ps n ns : nodes l' = delete p (nodes l) -> next_node l' = next_node l -> owns l (p :: ps) (n :: ns) ->
  nodes l !! p = Some n /\ p <> 0 /\ owns l' ps ns.
Proof.
  intros Hl Hx [O1 O4]. apply owned_pop in O1 as (Hn & Hp & _ & O1). split; [done|]. split; [lia|].
  split; [by rewrite Hl, Hx|]. rewrite Hl. intros p' Hp'. destruct (decide (p' = p)) as [->|Hne].
  - rewrite lookup_delete_eq in Hp'. by destruct Hp'.
  - rewrite lookup_delete_ne in Hp' by done. apply O4, elem_of_cons in Hp'. by destruct Hp'.
Qed.

(** [deliver] is the promise for one message, and [unlink] that for a logger. *)
Lemma deliver_handed bs n : deliver bs n = handed bs n.
Proof.
  unfold handed. induction bs as [|b bs IH]; [done|]. cbn [deliver]. rewrite filter_cons.
  case_decide as E; [rewrite (proj2 (Z.leb_le _ _)) by done|rewrite (proj2 (Z.leb_gt _ _)) by lia]; [|done]. cbn. by f_equal.
Qed.

Lemma unlink_unbound f bs : fst (unlink f bs) = unbound f bs.
Proof.
  unfold unbound. induction bs as [|b bs IH]; [done|]. cbn. destruct (Z.eqb_spec (function b) f) as [E|E].
  - by rewrite decide_True.
  - rewrite decide_False by done. destruct (unlink f bs) as [r o]. cbn in *. rewrite IH. by destruct (list_find _ bs) as [[i x]|].
Qed.

Lemma after_last_behind c s acc : (default (acc ++ s) (Utils.after_last c s)) = foldl (fun acc x => if x =? c then [] else acc ++ [x]) acc s.
Proof.
  revert acc. induction s as [|x s IH]; intros acc; cbn [Utils.after_last foldl]; [by rewrite app_nil_r|].
  destruct (Z.eqb_spec x c) as [->|Hne].
  - specialize (IH []). cbn [app] in IH. rewrite <- IH. by destruct (Utils.after_last c s).
  - specialize (IH (acc ++ [x])). rewrite <- IH, <- app_assoc. by destruct (Utils.after_last c s).
Qed.

Lemma after_last_None c s : Utils.after_last c s = None <-> c ∉ s.
Proof.
  induction s as [|x s IH]; cbn; [split; [set_solver|done]|]. destruct (Utils.after_last c s) eqn:E; [|destruct (Z.eqb_spec x c)]; set_solver.
Qed.

Lemma filep_base (r : @request va) : filep r = base_name (default [] (r_file r)).
Proof.
  unfold filep, base_name, behind. destruct (r_file r) as [s|]; [|done]. cbn [Utils.agc_cut_path default from_option id].
  rewrite <- !(after_last_behind _ s []). cbn [app]. case_bool_decide as E; pose proof (after_last_None 92 s) as [H1 H2].
  - destruct (Utils.after_last 92 s) eqn:E2; [done|]. by specialize (H1 eq_refl).
  - by rewrite (H2 E).
Qed.

Lemma level_name lv : 0 <= lv <= AGC_LOG_DEBUG -> exists s, LEVELS !! Z.to_nat lv = Some s /\ agc_log_level2str lv = Ok s.
Proof.
  intros H. unfold agc_log_level2str. rewrite (proj2 (Z.ltb_ge _ _)) by lia.
  destruct (lookup_lt_is_Some_2 LEVELS (Z.to_nat lv)) as [s Hs]; [cbn; unfold AGC_LOG_DEBUG in H; lia|]. exists s. by rewrite Hs.
Qed.

Record agrees (s : system) (sp : spec) : Prop := Agrees {
  ag_running : LOG_THREAD_RUNNING (core s) = match thread sp with Gone => 0 | _ => 1 end;
  ag_idle : idle s = match thread sp with Asleep => true | _ => false end;
  ag_gone : thread sp = Gone -> pending sp = [];
  ag_loggers : LOGGER_BINDINGS (core s) = loggers sp;
  ag_levels : Forall (fun b => 0 <= b_level b <= highest sp) (loggers sp);
  ag_highest : 0 <= highest sp < AGC_LOG_INVALID;
  ag_max : MAX_LOG_LEVEL (core s) = highest sp;
  ag_hard : hard_log_level (core s) = AGC_LOG_CRIT `max` highest sp;
  ag_mods : mods_loaded (core s) = Z.of_nat (length (loggers sp));
  ag_console : console_mods_loaded (core s) = count_console (loggers sp);
  ag_next : 0 < next_node (core s);
  ag_queue : exists q, LOG_MESSAGE_QUEUE (core s) = Some q /\ Queue.wf q /\ Queue.bounds q = AGC_LOG_QUEUE_LEN /\
    Queue.terminated q = false /\ owns (core s) (Queue.contents q) (pending sp) }.

Lemma agrees_start colorize con : agrees (System (agc_log_init colorize (log_start con)) false) (Spec [] 0 [] Awake).
Proof.
  destruct (Queue.wf_create AGC_LOG_QUEUE_LEN ltac:(unfold AGC_LOG_QUEUE_LEN; lia)) as [Hwf Hc].
  split; try done. eexists. split; [done|]. split_and!; try done. rewrite Hc. split; try done; [apply owned_nil|].
  intros p [n Hn]. done.
Qed.

Lemma run1_bind s sp f level con : agrees s sp -> 0 <= level < AGC_LOG_INVALID ->
  agrees (System (fst (agc_log_bind_logger f level con true (core s))) (idle s)) (fst (spec1 sp (OBind f level con))).
Proof.
  intros [H1 Hi Hg H2 H3 H4 H5 H6 H7 H8 H9 H10] Hl. unfold AGC_LOG_INVALID in *. cbn [agc_log_bind_logger negb fst spec1 core].
  assert (wrap 8 level = level) as Hw by (unfold wrap; rewrite Z.mod_small; lia).
  split; cbn; rewrite ?Hw; try done; try lia.
  - by rewrite H2.
  - apply Forall_app. split; [eapply Forall_impl; [exact H3|]; cbn; lia|]. apply Forall_singleton. cbn. lia.
  - unfold AGC_LOG_INVALID. lia.
  - rewrite H5. destruct (highest sp <? level) eqn:E; lia.
  - rewrite H6. destruct (AGC_LOG_CRIT `max` highest sp <? level) eqn:E; lia.
  - rewrite length_app. cbn. lia.
  - unfold count_console in *. rewrite filter_app, length_app, H8. rewrite filter_cons. case_decide as E; cbn in E |- *; destruct con; done || lia.
  - destruct H10 as (q & Hq). exists q. destruct_and!. split_and!; try done. by eapply owns_same; [..|eassumption].
Qed.

Lemma unlink_spec f bs :
  match unlink f bs with
  | (bs', Some b) => exists bs1 bs2, bs = bs1 ++ b :: bs2 /\ bs' = bs1 ++ bs2
  | (bs', None) => bs' = bs
  end.
Proof.
  induction bs as [|b bs IH]; cbn; [done|]. destruct (function b =? f); [by exists [], bs|].
  destruct (unlink f bs) as [r [b'|]]; [|by rewrite IH]. destruct IH as (bs1 & bs2 & -> & ->). by exists (b :: bs1), bs2.
Qed.

Lemma run1_unbind s sp f : agrees s sp ->
  agrees (System (agc_log_unbind_logger f (core s)) (idle s)) (fst (spec1 sp (OUnbind f))).
Proof.
  intros [H1 Hi Hg H2 H3 H4 H5 H6 H7 H8 H9 H10]. unfold agc_log_unbind_logger. cbn [spec1 fst]. rewrite <- unlink_unbound, H2.
  pose proof (unlink_spec f (loggers sp)) as Hu. destruct (unlink f (loggers sp)) as [bs [b|]]; cbn [fst].
  2:{ subst bs. by split. }
  destruct Hu as (bs1 & bs2 & E & ->). rewrite E in *. split; cbn; try done.
  - apply Forall_app in H3 as [? [? ?]%Forall_cons]. by apply Forall_app.
  - rewrite H7, !length_app. cbn. lia.
  - rewrite H8. unfold count_console. rewrite !filter_app, !length_app, filter_cons. case_decide as Ec; destruct (is_console b); try done; cbn; lia.
  - destruct H10 as (q & Hq). exists q. destruct_and!. split_and!; try done. by eapply owns_same; [..|eassumption].
Qed.

(** The parts of the state that neither the console nor the queue changes. *)
Lemma agrees_print s sp (r : @request va) data : agrees s sp -> 0 <= r_level r <= AGC_LOG_DEBUG -> thread sp <> Gone ->
  exists l', (let! l := write_console (r_aok r) (r_level r) data (core s) in enqueue (node_of r data) l) = Ok l' /\
    agrees (System l' (idle s))
      (if (r_level r <=? highest sp) && (Z.of_nat (length (pending sp)) <? AGC_LOG_QUEUE_LEN)
       then Spec (loggers sp) (highest sp) (pending sp ++ [node_of r data]) (thread sp) else sp).
Proof.
  intros Hag Hlv Hth.
  assert (exists l, write_console (r_aok r) (r_level r) data (core s) = Ok l /\ agrees (System l (idle s)) sp) as (l & -> & Hag').
  { assert (agrees (System (core s) (idle s)) sp) as Hs by (by destruct s).
    assert (forall c, agrees (System (with_console c (core s)) (idle s)) sp) as Hc.
    { intros c. destruct Hag as [H1 Hi Hg H2 H3 H4 H5 H6 H7 H8 H9 (q & Hq & Hw & Hb & Ht & Ho)]. split; try done.
      exists q. split_and!; try done. by eapply owns_same; [..|exact Ho]. }
    unfold write_console. destruct (_ || _); [|by eauto]. destruct (console (core s)) as [out|]; [|by eauto].
    destruct (negb (r_aok r)); [by eauto|]. destruct (COLORIZE (core s)); [|by eauto].
    destruct (lookup_lt_is_Some_2 COLORS (Z.to_nat (r_level r))) as [c ->]; [cbn; unfold AGC_LOG_DEBUG in Hlv; lia|]. by eauto. }
  clear Hag. destruct Hag' as [H1 Hi Hg H2 H3 H4 H5 H6 H7 H8 H9 (q & Hq & Hw & Hb & Ht & Ho)]. cbn [core idle] in *.
  assert (LOG_THREAD_RUNNING l = 1) as Hrun by (rewrite H1; by destruct (thread sp)).
  cbn [rbind]. unfold enqueue, is_running. rewrite Hq, Hrun, H5. cbn [bool_decide Z.eqb negb andb orb n_level node_of].
  rewrite bool_decide_true by eauto. cbn [negb andb orb]. rewrite <- Z.leb_antisym || rewrite (Z.ltb_antisym (r_level r)).
  destruct (r_level r <=? highest sp); cbn [negb andb].
  2:{ exists l. split; [done|]. split; try done. by exists q. }
  unfold Queue.apr_queue_trypush, Queue.apr_queue_full. rewrite Ht, Hb.
  pose proof (Queue.full_length q Hw) as Hlen. pose proof (Queue.wf_nelts q Hw) as Hn.
  rewrite <- (owned_length _ _ _ _ (ow_blocks _ _ _ Ho)), Hlen.
  destruct (Queue.nelts q =? AGC_LOG_QUEUE_LEN) eqn:E; cbn [rbind].
  { rewrite (proj2 (Z.ltb_ge _ _)) by lia. eexists. split; [done|]. split; cbn; try done; [lia|].
    exists q. split_and!; try done. apply (owns_same l); [done|cbn; lia|exact Ho]. }
  rewrite (proj2 (Z.ltb_lt _ _)) by lia.
  destruct (Queue.put_spec q (next_node l) Hw) as (q' & -> & Hw' & Hc' & _ & _ & Ht' & Hb'); [lia|]. cbn [rbind].
  eexists. split; [done|]. split; cbn; try done; [lia|]. exists q'. split_and!; try done; [congruence|congruence|].
  rewrite Hc'. destruct Ho as [O1 O4]. split; cbn; [by apply owned_push|].
  intros p Hp. rewrite elem_of_app, list_elem_of_singleton. destruct (decide (p = next_node l)); [by right|left].
  apply O4. by rewrite lookup_insert_ne in Hp.
Qed.

(** Without the thread nothing is queued any more. *)
Lemma print_stopped l r : LOG_THREAD_RUNNING l = 0 -> op_ok (OPrint r) -> hard_log_level l < AGC_LOG_INVALID ->
  exists c, agc_log_printf vasprintf r l = Ok (with_console c l).
Proof.
  intros Hr (Hlv & Hline & Hlen) Hh. unfold agc_log_printf, agc_log_vprintf. assert (with_console (console l) l = l) as Hid0 by (by destruct l).
  destruct (hard_log_level l <? r_level r) eqn:E; [exists (console l); by rewrite Hid0|]. apply Z.ltb_ge in E.
  rewrite (proj2 (Z.leb_gt _ _)) by lia. destruct (full_fmt_uncut r ltac:(lia) Hline Hlen) as (lv & _ & ->). cbn [rbind].
  destruct (vasprintf _ _) as [data|]; [|exists (console l); by rewrite Hid0].
  assert (exists c, write_console (r_aok r) (r_level r) data l = Ok (with_console c l)) as [c ->].
  { assert (with_console (console l) l = l) as Hid by (by destruct l).
    unfold write_console. destruct (_ || _); [|by exists (console l); rewrite Hid].
    destruct (console l) as [out|] eqn:Ec; [|by exists None; rewrite Hid].
    destruct (negb (r_aok r)); [by exists (Some out); rewrite Hid|]. destruct (COLORIZE l); [|by eexists].
    destruct (lookup_lt_is_Some_2 COLORS (Z.to_nat (r_level r))) as [c ->]; [cbn; unfold AGC_LOG_DEBUG in Hlv; lia|]. by eexists. }
  cbn [rbind]. unfold enqueue, is_running. cbn [LOG_MESSAGE_QUEUE with_console LOG_THREAD_RUNNING]. rewrite Hr.
  cbn [Z.eqb negb]. rewrite andb_false_r. cbn [negb orb]. exists c. by destruct (LOG_MESSAGE_QUEUE l).
Qed.

Lemma agrees_console s sp c : agrees s sp -> agrees (System (with_console c (core s)) (idle s)) sp.
Proof.
  intros [H1 Hi Hg H2 H3 H4 H5 H6 H7 H8 H9 (q & Hq & Hw & Hb & Ht & Ho)]. split; try done.
  exists q. split_and!; try done. by eapply owns_same; [..|exact Ho].
Qed.

Lemma run1_print s sp r : agrees s sp -> op_ok (OPrint r) ->
  exists s', run1 s (OPrint r) = Ok (s', []) /\ agrees s' (fst (spec1 sp (OPrint r))).
Proof.
  intros Hag Hok. pose proof Hok as (Hlv & Hline & Hlen). cbn [run1 spec1].
  destruct (decide (thread sp = Gone)) as [Eg|Eg].
  { destruct (print_stopped (core s) r) as (c & ->); [by rewrite (ag_running _ _ Hag), Eg|done| |].
    { rewrite (ag_hard _ _ Hag). pose proof (ag_highest _ _ Hag). unfold AGC_LOG_INVALID, AGC_LOG_CRIT in *. lia. }
    cbn [rbind]. eexists. split; [done|]. rewrite Eg. by apply agrees_console. }
  unfold agc_log_printf, agc_log_vprintf, message_of.
  destruct (full_fmt_uncut r ltac:(lia) Hline Hlen) as (lv & Elv & Hfmt). destruct (level_name (r_level r) Hlv) as (lv' & -> & Elv').
  rewrite Elv in Elv'. injection Elv' as <-. rewrite filep_base in Hfmt.
  destruct (hard_log_level (core s) <? r_level r) eqn:E.
  { cbn [rbind]. apply Z.ltb_lt in E. rewrite (ag_hard _ _ Hag) in E.
    exists s. split; [by destruct s|]. destruct (thread sp); [| |by destruct Eg]; destruct (vasprintf _ _); cbn; try done; by rewrite (proj2 (Z.leb_gt (r_level r) _)) by lia. }
  unfold AGC_LOG_INVALID, AGC_LOG_DEBUG in *. rewrite (proj2 (Z.leb_gt 64 _)) by lia. rewrite Hfmt. cbn [rbind].
  change (snprintf 80 (date_text (r_tm r))) with (take 79 (date_text (r_tm r))).
  destruct (vasprintf _ _) as [data|]; cbn [fmap option_fmap option_map rbind fst].
  - destruct (agrees_print s sp r data Hag Hlv Eg) as (l' & -> & Hag'). cbn [rbind]. eexists. split; [done|].
    unfold node_of in Hag'. rewrite filep_base in Hag'. destruct (thread sp) eqn:Eth; [..|done]; by destruct (_ && _).
  - exists s. split; [by destruct s|]. by destruct (thread sp).
Qed.

(** The head of the queue is handed out and freed. *)
Lemma popped_message s sp q q' p L : agrees s sp -> LOG_MESSAGE_QUEUE (core s) = Some q -> Queue.contents q = p :: L ->
  Queue.wf q' -> Queue.contents q' = L -> Queue.terminated q' = Queue.terminated q -> Queue.bounds q' = Queue.bounds q ->
  exists n rest l', pending sp = n :: rest /\
    popped q' (Queue.Return Queue.APR_SUCCESS) (Some p) (core s) = Ok (l', handed (loggers sp) n, Again) /\
    agrees (System l' false) (Spec (loggers sp) (highest sp) rest Awake).
Proof.
  intros [H1 Hi Hg H2 H3 H4 H5 H6 H7 H8 H9 (q0 & Hq & Hw & Hb & Ht & Ho)] Hq' Hc Hw' Hc' Ht' Hb'.
  rewrite Hq' in Hq. injection Hq as <-. rewrite Hc in Ho.
  assert (LOG_THREAD_RUNNING (core s) = 1) as Hrun.
  { destruct (thread sp) eqn:Eth; [done..|]. rewrite (Hg eq_refl) in Ho. by apply ow_blocks, owned_length in Ho. }
  destruct (pending sp) as [|n rest]; [by apply ow_blocks, owned_length in Ho|].
  set (l' := with_queue q' (with_nodes (delete p (nodes (core s))) (next_node (core s)) (core s))).
  destruct (owns_pop (core s) l' p L n rest eq_refl eq_refl Ho) as (Hn & Hp & Ho').
  exists n, rest, l'. split; [done|]. split.
  - unfold popped, agc_log_node_free. cbn [from_option id nodes with_queue].
    rewrite (proj2 (Z.eqb_neq _ _)) by done. rewrite Hn. cbn [LOGGER_BINDINGS with_queue rbind]. by rewrite H2, deliver_handed.
  - split; cbn; try done. exists q'. split_and!; try done; [congruence|congruence|]. by rewrite Hc'.
Qed.

(** The thread takes the first message, whether it was waiting or not. *)
Lemma thread_step_message s sp n rest : agrees s sp -> pending sp = n :: rest ->
  exists l', thread_step (core s) (idle s) = Ok (System l' false, handed (loggers sp) n) /\
    agrees (System l' false) (Spec (loggers sp) (highest sp) rest Awake).
Proof.
  intros Hag Hp. pose proof Hag as [H1 Hi Hg H2 H3 H4 H5 H6 H7 H8 H9 (q & Hq & Hw & Hb & Ht & Ho)].
  assert (LOG_THREAD_RUNNING (core s) = 1) as Hrun by (destruct (thread sp); [done..|]; by rewrite Hg in Hp).
  unfold thread_step, log_thread_wake, log_thread_turn. rewrite Hq, Hrun. cbn [Z.eqb Pos.eqb negb].
  pose proof (Queue.full_length q Hw) as Hlen. rewrite (owned_length _ _ _ _ (ow_blocks _ _ _ Ho)), Hp in Hlen. cbn [length] in Hlen.
  set (q0 := if idle s then Queue.with_empty_waiters (Queue.empty_waiters q - 1) q else q).
  assert (Queue.wf q0) as Hw0 by (unfold q0; destruct (idle s); [destruct Hw; by split|done]).
  assert (Queue.nelts q0 = Queue.nelts q) as Hn0 by (unfold q0; by destruct (idle s)).
  assert (Queue.contents q0 = Queue.contents q) as Hc0 by (unfold q0; by destruct (idle s)).
  destruct (Queue.get_spec q0 Hw0) as (q' & v & L & Hget & Hw' & Hc & Hc' & _ & _ & Ht' & Hb'); [lia|].
  destruct (popped_message s sp q q' v L Hag Hq) as (n' & rest' & l' & Hp' & Hpop & Hag'); try done.
  { by rewrite <- Hc0. }
  { rewrite Ht'. unfold q0. by destruct (idle s). }
  { rewrite Hb'. unfold q0. by destruct (idle s). }
  rewrite Hp in Hp'. injection Hp' as <- <-. exists l'. split; [|done].
  unfold Queue.apr_queue_pop_wake, Queue.apr_queue_pop, Queue.apr_queue_empty. rewrite Ht. unfold q0 in Hget. destruct (idle s).
  - cbn [Queue.nelts Queue.with_empty_waiters]. fold (Queue.with_empty_waiters (Queue.empty_waiters q - 1) q).
    rewrite (proj2 (Z.eqb_neq _ 0)) by lia. rewrite Hget. cbn [rbind]. by rewrite Hpop.
  - rewrite (proj2 (Z.eqb_neq _ 0)) by lia. rewrite Hget. cbn [rbind]. by rewrite Hpop.
Qed.

Lemma queue_empty_pending s sp : agrees s sp -> queue_empty (core s) = bool_decide (pending sp = []).
Proof.
  intros [_ _ _ _ _ _ _ _ _ _ _ (q & Hq & Hw & _ & _ & Ho)]. unfold queue_empty, Queue.apr_queue_empty. rewrite Hq.
  pose proof (Queue.full_length q Hw) as Hlen. rewrite (owned_length _ _ _ _ (ow_blocks _ _ _ Ho)) in Hlen.
  destruct (pending sp); cbn [length] in Hlen; [rewrite bool_decide_true by done|rewrite bool_decide_false by done]; lia.
Qed.

Lemma run1_turn s sp : agrees s sp ->
  exists s', run1 s OTurn = Ok (s', snd (spec1 sp OTurn)) /\ agrees s' (fst (spec1 sp OTurn)).
Proof.
  intros Hag. cbn [run1]. unfold turn_of. rewrite (queue_empty_pending _ _ Hag).
  destruct (pending sp) as [|n rest] eqn:Hp.
  - rewrite bool_decide_true, andb_true_r by done. pose proof Hag as [H1 Hi Hg H2 H3 H4 H5 H6 H7 H8 H9 (q & Hq & Hw & Hb & Ht & Ho)].
    cbn [spec1]. rewrite Hp. destruct (thread sp) eqn:Eth; rewrite Hi; cbn [fst snd].
    + unfold thread_step, log_thread_turn. rewrite Hq, H1. cbn [Z.eqb Pos.eqb negb]. unfold Queue.apr_queue_pop.
      pose proof (queue_empty_pending _ _ Hag) as He. unfold queue_empty in He. rewrite Hq, Hp, bool_decide_true in He by done.
      rewrite Ht, He. cbn [rbind popped]. eexists. split; [done|]. split; cbn; try done.
      eexists. split_and!; try done; [destruct Hw; by split|]. rewrite Hp in Ho. by eapply owns_same; [..|exact Ho].
    + exists s. split; [by destruct s|]. destruct sp. cbn in *. by subst.
    + unfold thread_step, log_thread_turn. rewrite H1. cbn [Z.eqb negb rbind]. eexists. split; [done|].
      replace (System (with_running 0 (core s)) false) with s; [done|]. destruct s as [l i]. cbn in *. rewrite Hi. f_equal. destruct l. cbn in *. by rewrite H1.
  - rewrite bool_decide_false, andb_false_r by done. destruct (thread_step_message s sp n rest Hag Hp) as (l' & -> & Hag').
    eexists. cbn [spec1]. rewrite Hp. assert (thread sp <> Gone) as Hng by (intros E; pose proof (ag_gone _ _ Hag E); congruence).
    destruct (thread sp); [| |done]; done.
Qed.

(** A wake-up without a message is the end of the thread. *)
Lemma wake_empty s sp : agrees s sp -> thread sp = Asleep -> pending sp = [] ->
  exists l', log_thread_wake (core s) = Ok (l', [], Ended) /\ agrees (System l' false) (Spec (loggers sp) (highest sp) [] Gone).
Proof.
  intros Hag Eth Hp. pose proof Hag as [H1 Hi Hg H2 H3 H4 H5 H6 H7 H8 H9 (q & Hq & Hw & Hb & Ht & Ho)].
  unfold log_thread_wake. rewrite Hq. unfold Queue.apr_queue_pop_wake.
  pose proof (queue_empty_pending _ _ Hag) as He. unfold queue_empty in He. rewrite Hq, Hp, bool_decide_true in He by done.
  change (Queue.apr_queue_empty (Queue.with_empty_waiters (Queue.empty_waiters q - 1) q)) with (Queue.apr_queue_empty q). rewrite He.
  cbn [Queue.terminated Queue.with_empty_waiters]. rewrite Ht. cbn [rbind popped]. eexists. split; [done|]. split; cbn; try done.
  rewrite Hp in Ho. eexists. split_and!; try done; [destruct Hw; by split|]. by eapply owns_same; [..|exact Ho].
Qed.

Lemma run1_wake s sp : agrees s sp ->
  exists s', run1 s OWake = Ok (s', snd (spec1 sp OWake)) /\ agrees s' (fst (spec1 sp OWake)).
Proof.
  intros Hag. pose proof (ag_idle _ _ Hag) as Hi. cbn [run1 spec1].
  destruct (thread sp) eqn:Eth; rewrite Hi; [by exists s| |by exists s].
  destruct (pending sp) as [|n rest] eqn:Hp.
  - destruct (wake_empty s sp Hag Eth Hp) as (l' & E & Hag'). unfold thread_step. rewrite E. by eexists.
  - destruct (thread_step_message s sp n rest Hag Hp) as (l' & E & Hag'). rewrite Hi in E. rewrite E. by eexists.
Qed.

Lemma run1_refines s sp o : agrees s sp -> op_ok o ->
  exists s', run1 s o = Ok (s', snd (spec1 sp o)) /\ agrees s' (fst (spec1 sp o)).
Proof.
  intros Hag Hok. destruct o as [f level con|f|r| |].
  - eexists. split; [done|]. by apply run1_bind.
  - eexists. split; [done|]. by apply run1_unbind.
  - destruct (run1_print s sp r Hag Hok) as (s' & -> & ?). exists s'. split; [|done].
    cbn [spec1]. destruct (thread sp), (message_of r); try done; by destruct (_ && _).
  - by apply run1_turn.
  - by apply run1_wake.
Qed.

Lemma run_refines os : Forall op_ok os -> forall s sp, agrees s sp ->
  exists s', run s os = Ok (s', snd (spec_run sp os)) /\ agrees s' (fst (spec_run sp os)).
Proof.
  induction 1 as [|o os Hok _ IH]; intros s sp Hag; cbn [run spec_run]; [by exists s|].
  destruct (run1_refines s sp o Hag Hok) as (s1 & -> & Hag1). cbn [rbind]. destruct (spec1 sp o) as [sp1 c1].
  cbn [fst snd] in *. destruct (IH s1 sp1 Hag1) as (s2 & -> & Hag2). cbn [rbind].
  destruct (spec_run sp1 os) as [sp2 c2]. by exists s2.
Qed.

(** Turns hand out the messages in their order. *)
Lemma spec_turns sp k : thread sp <> Gone ->
  pending (fst (spec_run sp (replicate k OTurn))) = drop k (pending sp) /\
  snd (spec_run sp (replicate k OTurn)) = concat (handed (loggers sp) <$> take k (pending sp)).
Proof.
  revert sp. induction k as [|k IH]; intros sp Hg; cbn [replicate spec_run]; [by rewrite drop_0, take_0|].
  assert (spec1 sp OTurn = match pending sp with [] => (Spec (loggers sp) (highest sp) [] Asleep, [])
    | n :: rest => (Spec (loggers sp) (highest sp) rest Awake, handed (loggers sp) n) end) as -> by (cbn; by destruct (thread sp)).
  destruct (pending sp) as [|n rest].
  - specialize (IH (Spec (loggers sp) (highest sp) [] Asleep) ltac:(done)). destruct (spec_run _ _) as [sp2 c2]. cbn in *.
    by rewrite drop_nil, take_nil in IH.
  - specialize (IH (Spec (loggers sp) (highest sp) rest Awake) ltac:(done)). destruct (spec_run _ _) as [sp2 c2]. cbn in *.
    destruct IH as [-> ->]. done.
Qed.

Lemma log_thread_func_S k l : log_thread_func (S k) l =
  (let! (l, calls, t) := log_thread_turn l in
   match t with
   | Again => let! (l, calls', t) := log_thread_func k l in Ok (l, calls ++ calls', t)
   | _ => Ok (l, calls, t)
   end).
Proof. done. Qed.

Lemma log_thread_func_more k l r : log_thread_func k l = Ok r -> log_thread_func (S k) l = Ok r.
Proof.
  revert l r. induction k as [|k IH]; intros l r; [done|]. rewrite (log_thread_func_S (S k)), (log_thread_func_S k).
  destruct (log_thread_turn l) as [[[l1 c1] t1]| |]; cbn [rbind]; try done. destruct t1; try done.
  intros (x & E & Hx)%rbind_inv. by rewrite (IH _ _ E).
Qed.

(** The null message of a shutdown is behind all others. *)
Lemma drains bs ns : forall l q ps, LOG_THREAD_RUNNING l = 1 -> LOGGER_BINDINGS l = bs -> LOG_MESSAGE_QUEUE l = Some q ->
  Queue.wf q -> Queue.contents q = ps ++ [0] -> Queue.terminated q = false -> owns l ps ns ->
  exists l', log_thread_func (S (length ns)) l = Ok (l', concat (handed bs <$> ns), Ended) /\
    LOG_THREAD_RUNNING l' = 0 /\ nodes l' = ∅.
Proof.
  induction ns as [|n ns IH]; intros l q ps Hrun Hbs Hq Hw Hc Ht Ho.
  all: cbn [length]; rewrite log_thread_func_S; unfold log_thread_turn; rewrite Hrun, Hq;
    cbn [Z.eqb Pos.eqb negb]; unfold Queue.apr_queue_pop, Queue.apr_queue_empty; rewrite Ht;
    pose proof (Queue.full_length q Hw) as Hlen; rewrite Hc, length_app in Hlen; cbn [length] in Hlen;
    rewrite (proj2 (Z.eqb_neq (Queue.nelts q) 0)) by lia;
    destruct (Queue.get_spec q Hw) as (q2 & v & L & -> & Hw2 & Hc2 & Hc2' & _ & _ & Ht2 & _); [lia|];
    rewrite Hc in Hc2; cbn [rbind]; unfold popped, agc_log_node_free; cbn [from_option id nodes with_queue].
  - pose proof (owned_length _ _ _ _ (ow_blocks _ _ _ Ho)) as ->%length_zero_iff_nil. injection Hc2 as <- <-. cbn. eexists. split; [done|]. split; [done|].
    apply map_eq. intros p. rewrite lookup_empty. apply eq_None_not_Some. intros Hp%(ow_dom _ _ _ Ho). by apply elem_of_nil in Hp.
  - destruct ps as [|p ps]; [by apply ow_blocks, owned_length in Ho|]. injection Hc2 as <- <-.
    set (l1 := with_queue q2 (with_nodes (delete p (nodes l)) (next_node l) l)).
    destruct (owns_pop l l1 p ps n ns eq_refl eq_refl Ho) as (Hn & Hp & Ho').
    rewrite (proj2 (Z.eqb_neq p 0)) by done. rewrite Hn. cbn [rbind].
    destruct (IH l1 q2 ps) as (l' & Hf & Hr' & Hn'); try done; [congruence|].
    exists l'. change (with_nodes _ _ (with_queue q2 l)) with l1. rewrite Hf. cbn [rbind].
    split; [|done]. cbn [LOGGER_BINDINGS with_queue]. by rewrite Hbs, deliver_handed.
Qed.

End refinement.
End LogProof.

Import Log LogProof.

(** C9: The logging core refines its promise: under every interleaving of binding
    and unbinding loggers, logging from any thread, turns of the log thread and
    wake-ups of it, with or without a message, no access goes wrong, and the
    loggers called, the messages they get and the order are those of a bounded
    list of pending messages handed out oldest first to the loggers bound at
    their level or above, in the order of binding.  A wake-up without a message,
    which condition variables allow, ends the thread, and from then on messages
    are dropped.  The formatted line is never cut, and the blocks of the messages
    are exactly those still pending, so each is freed once. *)
Theorem log_core_refines {va} (vasprintf : cstr -> va -> option cstr) colorize con os : Forall op_ok os ->
  exists s', run vasprintf (System (agc_log_init colorize (log_start con)) false) os =
      Ok (s', snd (spec_run vasprintf (Spec [] 0 [] Awake) os)) /\
    agrees s' (fst (spec_run vasprintf (Spec [] 0 [] Awake) os)).
Proof. intros Hok. apply run_refines; [done|apply agrees_start]. Qed.

(** A request of a level for the witnesses, without arguments. *)
Definition demo_request (level : Z) (fmt : string) : @request unit :=
  Request AGC_ID_LOG (Some (bytes_of "src/agc_core.c")) (Some (bytes_of "main")) 42 None level (bytes_of fmt) tt 0
    (TimeExp 124 0 31 9 5 7 1234) true.
Definition no_args (fmt : cstr) (_ : unit) : option cstr := Some fmt.

Definition demo_ops : list op :=
  [OBind 5 7 false; OBind 6 3 false; OBind 7 4 true; OPrint (demo_request 4 "hello"); OTurn; OUnbind 7; OTurn; OWake; OPrint (demo_request 1 "lost"); OTurn].
Definition demo_node : agc_log_node :=
  Node (bytes_of "2024-01-31 09:05:07.001234 [WARNING] agc_core.c:42 hello") (bytes_of "agc_core.c") 42 (bytes_of "main") 4 0 None AGC_ID_LOG.

Lemma log_core_refines_witness :
  exists s', run no_args (System (agc_log_init false (log_start None)) false) demo_ops =
      Ok (s', [Call 5 demo_node 4; Call 7 demo_node 4]) /\
    agrees s' (Spec [Binding 5 7 false; Binding 6 3 false] 7 [] Gone).
Proof.
  apply (log_core_refines no_args false None demo_ops). repeat constructor; done.
Defined.

(** No wanted message is filtered out: after any history, a message of a level
    at which some logger is bound is taken up if the queue has room, and that
    logger is called with it when the earlier messages have been handed out. *)
Theorem log_wanted_message {va} (vasprintf : cstr -> va -> option cstr) s sp b r n :
  agrees s sp -> thread sp <> Gone -> b ∈ LOGGER_BINDINGS (core s) -> op_ok (OPrint r) -> r_level r <= b_level b ->
  message_of vasprintf r = Some n -> Z.of_nat (length (pending sp)) < AGC_LOG_QUEUE_LEN ->
  exists s' calls, run vasprintf s (OPrint r :: replicate (S (length (pending sp))) OTurn) = Ok (s', calls) /\
    Call (function b) n (r_level r) ∈ calls.
Proof.
  intros Hag Hg Hb Hok Hlv Hn Hroom. rewrite (ag_loggers _ _ Hag) in Hb.
  destruct (run_refines vasprintf (OPrint r :: replicate (S (length (pending sp))) OTurn)) with (s := s) (sp := sp) as (s' & Hr & _);
    [constructor; [done|]; apply Forall_replicate; exact I|done|].
  exists s', (snd (spec_run vasprintf sp (OPrint r :: replicate (S (length (pending sp))) OTurn))). split; [exact Hr|].
  pose proof (ag_levels _ _ Hag) as Hl. rewrite Forall_forall in Hl. specialize (Hl b Hb).
  set (sp1 := Spec (loggers sp) (highest sp) (pending sp ++ [n]) (thread sp)).
  assert (spec1 vasprintf sp (OPrint r) = (sp1, [])) as E.
  { cbn [spec1]. rewrite Hn, (proj2 (Z.leb_le _ _)), (proj2 (Z.ltb_lt _ _)) by lia. unfold sp1. by destruct (thread sp). }
  change (spec_run vasprintf sp (OPrint r :: ?os)) with (let (s, c1) := spec1 vasprintf sp (OPrint r) in let (s, c2) := spec_run vasprintf s os in (s, c1 ++ c2)).
  rewrite E. destruct (spec_turns vasprintf sp1 (S (length (pending sp))) Hg) as [_ Hc].
  destruct (spec_run vasprintf sp1 _) as [sp2 c2]. cbn [snd app] in *. rewrite Hc. cbn [loggers pending sp1].
  rewrite take_ge by (rewrite length_app; cbn; lia). rewrite fmap_app, concat_app. apply elem_of_app. right.
  cbn [fmap list_fmap concat]. rewrite app_nil_r.
  assert (n_level n = r_level r) as El.
  { unfold message_of in Hn. destruct (LEVELS !! _); [|done]. by apply fmap_Some in Hn as (d & _ & ->). }
  rewrite <- El in *. apply (list_elem_of_fmap_2 (fun b => Call (function b) n (n_level n))). by apply list_elem_of_filter.
Qed.

Lemma log_wanted_message_witness :
  exists s' calls, run no_args (System (fst (agc_log_bind_logger 5 7 false true (agc_log_init false (log_start None)))) false)
      [OPrint (demo_request 4 "x"); OTurn] = Ok (s', calls) /\
    Call 5 (Node (bytes_of "2024-01-31 09:05:07.001234 [WARNING] agc_core.c:42 x") (bytes_of "agc_core.c") 42
        (bytes_of "main") 4 0 None AGC_ID_LOG) 4 ∈ calls.
Proof.
  apply (log_wanted_message no_args (System (fst (agc_log_bind_logger 5 7 false true (agc_log_init false (log_start None)))) false)
    (Spec [Binding 5 7 false] 7 [] Awake) (Binding 5 7 false) (demo_request 4 "x")).
  - apply (run1_bind no_args _ _ 5 7 false (agrees_start false None)). done.
  - done.
  - by left.
  - by repeat constructor.
  - done.
  - done.
  - done.
Defined.

(** The thread goes on with a queue in which only the numbers of waiters differ. *)
Lemma agrees_requeue s sp q q' : agrees s sp -> LOG_MESSAGE_QUEUE (core s) = Some q -> Queue.wf q' ->
  Queue.contents q' = Queue.contents q -> Queue.bounds q' = Queue.bounds q -> Queue.terminated q' = Queue.terminated q ->
  agrees (System (with_queue q' (core s)) (idle s)) sp.
Proof.
  intros [H1 Hi Hg H2 H3 H4 H5 H6 H7 H8 H9 (q0 & Hq & Hw & Hb & Ht & Ho)] Hq' Hw' Hc Hb' Ht'. rewrite Hq' in Hq. injection Hq as <-.
  split; try done. exists q'. split_and!; try done; [congruence|congruence|]. rewrite Hc. by eapply owns_same; [..|exact Ho].
Qed.

(** With the null message queued, a waiting thread wakes and goes on as one that does not wait. *)
Lemma resume_ok bs ns l q ps waits : LOG_THREAD_RUNNING l = 1 -> LOGGER_BINDINGS l = bs -> LOG_MESSAGE_QUEUE l = Some q ->
  Queue.wf q -> Queue.contents q = ps ++ [0] -> Queue.terminated q = false -> owns l ps ns ->
  exists l', log_thread_resume (S (length ns)) waits l = Ok (l', concat (handed bs <$> ns), Ended) /\
    LOG_THREAD_RUNNING l' = 0 /\ nodes l' = ∅.
Proof.
  intros Hrun Hbs Hq Hw Hc Ht Ho. destruct waits; [|by eapply drains].
  set (q' := Queue.with_empty_waiters (Queue.empty_waiters q - 1) q). set (l1 := with_queue q' l).
  destruct (drains bs ns l1 q' ps) as (l' & Hf & Hr); try done; [destruct Hw; by split|by eapply owns_same; [..|exact Ho]|].
  exists l'. split; [|done]. rewrite <- Hf, log_thread_func_S. cbn [log_thread_resume]. f_equal.
  unfold log_thread_wake, log_thread_turn. change (LOG_THREAD_RUNNING l1) with (LOG_THREAD_RUNNING l). rewrite Hrun, Hq. cbn [Z.eqb Pos.eqb negb LOG_MESSAGE_QUEUE with_queue l1].
  unfold Queue.apr_queue_pop_wake, Queue.apr_queue_pop. fold q'. change (Queue.terminated q') with (Queue.terminated q). rewrite Ht.
  assert (Queue.apr_queue_empty q' = false) as ->.
  { pose proof (Queue.full_length q Hw) as Hlen. rewrite Hc, length_app in Hlen. cbn in Hlen. unfold Queue.apr_queue_empty. cbn [Queue.nelts q' Queue.with_empty_waiters]. lia. }
  destruct (Queue.get q') as [[q2 v]| |]; done.
Qed.

(** C13: Shutdown loses nothing that was logged before it: after any history that
    has not ended the log thread, with the thread at work or waiting and with
    room in the queue or none (the caller then goes on when the thread has taken
    a message), [agc_log_shutdown], when nothing more is logged, makes the thread hand out every pending message, oldest first, to the
    loggers bound at its level or above, free it, and end. *)
Theorem log_shutdown_drains s sp : agrees s sp -> thread sp <> Gone ->
  exists l', agc_log_shutdown (S (length (pending sp))) (idle s) (core s) = Ok (l', concat (handed (loggers sp) <$> pending sp), Ended) /\
    LOG_THREAD_RUNNING l' = 0 /\ nodes l' = ∅.
Proof.
  intros Hag Hg. pose proof Hag as [H1 Hi _ H2 H3 H4 H5 H6 H7 H8 H9 (q & Hq & Hw & Hb & Ht & Ho)].
  assert (LOG_THREAD_RUNNING (core s) = 1) as Hrun by (rewrite H1; by destruct (thread sp)).
  pose proof (Queue.full_length q Hw) as Hlen. rewrite (owned_length _ _ _ _ (ow_blocks _ _ _ Ho)) in Hlen.
  unfold agc_log_shutdown, agc_log_shutdown_request, Queue.apr_queue_push. rewrite Hq, Ht.
  destruct (Queue.apr_queue_full q) eqn:Efull; cbn [rbind].
  - set (q1 := Queue.with_full_waiters (Queue.full_waiters q + 1) q).
    assert (agrees (System (with_queue q1 (core s)) (idle s)) sp) as Hag1 by (eapply agrees_requeue; try done; destruct Hw; by split).
    destruct (pending sp) as [|n rest] eqn:Hp.
    { unfold Queue.apr_queue_full in Efull. apply Z.eqb_eq in Efull. rewrite Hb in Efull. cbn in Hlen. unfold AGC_LOG_QUEUE_LEN in Efull. lia. }
    destruct (thread_step_message _ sp n rest Hag1 Hp) as (l2 & E2 & Hag2). unfold thread_step in E2. cbn [core idle] in E2.
    apply rbind_inv in E2 as ([[l3 c3] t3] & E3 & E2). injection E2 as -> _ ->. rewrite E3. cbn [rbind].
    pose proof Hag2 as [K1 _ _ K2 _ _ _ _ _ _ _ (q2 & Kq & Kw & Kb & Kt & Ko)]. cbn [core] in *.
    unfold agc_log_shutdown_wake. rewrite Kq. unfold Queue.apr_queue_push_wake.
    set (q3 := Queue.with_full_waiters (Queue.full_waiters q2 - 1) q2). assert (Queue.wf q3) as Kw3 by (destruct Kw; by split).
    pose proof (Queue.full_length q2 Kw) as Klen. rewrite (owned_length _ _ _ _ (ow_blocks _ _ _ Ko)) in Klen.
    unfold Queue.apr_queue_full in Efull |- *. apply Z.eqb_eq in Efull. cbn [pending length] in Hlen, Klen.
    cbn [Queue.nelts Queue.bounds q3 Queue.with_full_waiters]. rewrite (proj2 (Z.eqb_neq _ _)) by (rewrite Kb, <- Hb; lia).
    destruct (Queue.put_spec q3 0 Kw3) as (q4 & -> & Hw4 & Hc4 & _ & _ & Ht4 & _); [cbn; rewrite Kb, <- Hb; lia|]. cbn [rbind].
    destruct (drains (loggers sp) rest (with_queue q4 l2) q4 (Queue.contents q2)) as (l' & Hf & Hr & Hn);
      try done; [by rewrite Ht4|by eapply owns_same; [..|exact Ko]|].
    cbn [length]. exists l'. rewrite (log_thread_func_more _ _ _ Hf). done.
  - apply Z.eqb_neq in Efull.
    destruct (Queue.put_spec q 0 Hw) as (q' & -> & Hw' & Hc' & _ & _ & Ht' & _); [rewrite Hb in *; pose proof (Queue.wf_nelts q Hw); lia|]. cbn [rbind].
    apply (resume_ok (loggers sp) (pending sp) (with_queue q' (core s)) q' (Queue.contents q)); try done; [congruence|by eapply owns_same; [..|exact Ho]].
Qed.

(** Two loggers and three messages of which none was handed out yet, the thread waiting. *)
Definition pending_ops : list op :=
  [OBind 5 7 false; OTurn; OBind 6 3 false; OPrint (demo_request 4 "hello"); OPrint (demo_request 2 "again"); OPrint (demo_request 7 "bye")].
Definition pending_system : system :=
  match run no_args (System (agc_log_init false (log_start None)) false) pending_ops with Ok (s, _) => s | _ => System (log_start None) false end.
Definition demo_message (level : Z) (name text : string) : agc_log_node :=
  Node (bytes_of "2024-01-31 09:05:07.001234 [" ++ bytes_of name ++ bytes_of "] agc_core.c:42 " ++ bytes_of text)
    (bytes_of "agc_core.c") 42 (bytes_of "main") level 0 None AGC_ID_LOG.

Lemma pending_system_agrees : agrees pending_system (Spec [Binding 5 7 false; Binding 6 3 false] 7
  [demo_message 4 "WARNING" "hello"; demo_message 2 "CRIT" "again"; demo_message 7 "DEBUG" "bye"] Asleep).
Proof.
  destruct (run_refines no_args pending_ops) with (s := System (agc_log_init false (log_start None)) false) (sp := Spec [] 0 [] Awake)
    as (s' & Hr & Hag); [by repeat constructor|apply agrees_start|].
  unfold pending_system. rewrite Hr. exact Hag.
Qed.

Lemma log_shutdown_drains_witness :
  idle pending_system = true /\
  exists l', agc_log_shutdown 4 true (core pending_system) =
      Ok (l', [Call 5 (demo_message 4 "WARNING" "hello") 4; Call 5 (demo_message 2 "CRIT" "again") 2; Call 6 (demo_message 2 "CRIT" "again") 2;
               Call 5 (demo_message 7 "DEBUG" "bye") 7], Ended) /\
    LOG_THREAD_RUNNING l' = 0 /\ nodes l' = ∅.
Proof. split; [vm_compute; reflexivity|]. by apply (log_shutdown_drains pending_system _ pending_system_agrees). Defined.

(** A wake-up of the log thread without a message, which condition variables
    allow, ends it: [apr_queue_pop] reports it as an interruption, the loop
    takes every status but success as its end, and from then on no message
    reaches a logger any more. *)
Theorem log_thread_ends_on_spurious_wake {va} (vasprintf : cstr -> va -> option cstr) s sp r :
  agrees s sp -> thread sp = Asleep -> pending sp = [] -> op_ok (OPrint r) ->
  exists l' l'', log_thread_wake (core s) = Ok (l', [], Ended) /\ LOG_THREAD_RUNNING l' = 0 /\
    agc_log_printf vasprintf r l' = Ok l'' /\ LOG_MESSAGE_QUEUE l'' = LOG_MESSAGE_QUEUE l' /\ nodes l'' = nodes l'.
Proof.
  intros Hag Hs Hp Hok. destruct (wake_empty s sp Hag Hs Hp) as (l' & -> & Hag').
  pose proof (ag_running _ _ Hag') as Hrun. pose proof (ag_hard _ _ Hag') as Hh. cbn in Hrun, Hh.
  destruct (print_stopped vasprintf l' r Hrun Hok) as (c & Hpr).
  { pose proof (ag_highest _ _ Hag). unfold AGC_LOG_INVALID, AGC_LOG_CRIT in *. lia. }
  by exists l', (with_console c l').
Qed.

(** The core after its first turn: the thread waits. *)
Definition demo_idle : system :=
  match turn_of (System (agc_log_init true (log_start None)) false) with Ok (s, _) => s | _ => System (log_start None) false end.

Lemma demo_idle_agrees : agrees demo_idle (Spec [] 0 [] Asleep).
Proof.
  destruct (run1_turn no_args _ _ (agrees_start true None)) as (s & Hr & Hag).
  unfold demo_idle. cbn [run1] in Hr. rewrite Hr. exact Hag.
Qed.

Lemma log_thread_ends_on_spurious_wake_witness :
  exists l' l'', log_thread_wake (core demo_idle) = Ok (l', [], Ended) /\ LOG_THREAD_RUNNING l' = 0 /\
    agc_log_printf no_args (demo_request 2 "x") l' = Ok l'' /\ LOG_MESSAGE_QUEUE l'' = LOG_MESSAGE_QUEUE l' /\ nodes l'' = nodes l'.
Proof. by apply (log_thread_ends_on_spurious_wake no_args _ _ (demo_request 2 "x") demo_idle_agrees). Defined.
