(* ===== verification/LogFile.v ===== *)
(** * The log file

    [src/src/mod/loggers/mod_logfile/mod_logfile.c]: writing messages and
    rotating the files.  The file system is a map from names to contents; which
    operations it refuses is a parameter ([denied]).  The log is written
    through a handle that is open or closed; it is closed before the file is
    renamed, so that what is written goes to the file of that name. *)

From stdpp Require Import base gmap list fin_maps strings.
From Stdlib Require Import ZArith Lia.
From S2P Require Import Prelude CString Event Utils Json Yaml Log.

Module LogFile.
Import Ev.

Definition DEFAULT_LIMIT : Z := 0xA00000.
Definition LOGFILE_MAX_FILES : Z := 0x10.
Definition NAME_SIZE : nat := 256.

Inductive file_op := FileOpen | FileWrite | FileRename | FileRemove.

(** [struct logfile_profile] and the file system. *)
Record logger := Logger {
  files : gmap cstr (list Z);
  log_size : Z;
  roll_size : Z;
  max_files : Z;
  log_afd : option bool;   (* no handle, or one that is open ([true]) or closed *)
  level : Z;
  logfile : cstr;
  log_session : bool }.

Definition with_files f l := Logger f (log_size l) (roll_size l) (max_files l) (log_afd l) (level l) (logfile l) (log_session l).
Definition with_size n l := Logger (files l) n (roll_size l) (max_files l) (log_afd l) (level l) (logfile l) (log_session l).
Definition with_afd h l := Logger (files l) (log_size l) (roll_size l) (max_files l) h (level l) (logfile l) (log_session l).

(** [agc_file_close(profile->log_afd)]; without a handle it is not a call C allows. *)
Definition close_log (l : logger) : result logger :=
  match log_afd l with None => Fault BadPointer | Some _ => Ok (with_afd (Some false) l) end.

(** [sprintf(name, "%s.%i", profile->logfile, i)] *)
Definition numbered (l : logger) (i : nat) : result cstr :=
  Json.write_buffer NAME_SIZE (logfile l ++ 46 :: print_int (sext 32 (Z.of_nat i))).

Section system.
Context (denied : file_op -> cstr -> bool).

Definition file_exists (l : logger) (n : cstr) : bool := bool_decide (is_Some (files l !! n)).
Definition file_remove (l : logger) (n : cstr) : logger * bool :=
  if denied FileRemove n || negb (file_exists l n) then (l, false) else (with_files (delete n (files l)) l, true).
Definition file_rename (l : logger) (from to : cstr) : logger * bool :=
  match files l !! from with
  | None => (l, false)
  | Some c => if denied FileRename from then (l, false) else (with_files (<[to := c]> (delete from (files l))) l, true)
  end.
(** [agc_file_write] through the handle. *)
Definition file_write (l : logger) (data : cstr) : logger * bool :=
  match log_afd l with
  | Some true =>
      if denied FileWrite (logfile l) then (l, false)
      else (with_files (<[logfile l := default [] (files l !! logfile l) ++ data]> (files l)) l, true)
  | _ => (l, false)
  end.

(** Opening for appending, which makes the file if there is none. *)
Definition open_append (l : logger) : logger :=
  let c := default [] (files l !! logfile l) in
  with_size (Z.of_nat (length c)) (with_afd (Some true) (with_files (<[logfile l := c]> (files l)) l)).

(** Removing a file if it is there; [false] when it is there and stays. *)
Definition remove_existing (l : logger) (n : cstr) : logger * bool :=
  if file_exists l n then file_remove l n else (l, true).

(** The loop that moves every file up by one; [i] is where it ends. *)
Fixpoint rotate_loop (i : nat) (l : logger) : result (logger * nat * bool) :=
  match i with
  | O | S O => Ok (l, i, true)
  | S j =>
      let! to_filename := numbered l i in
      let! from_filename := numbered l j in
      let (l, ok) := remove_existing l to_filename in
      if negb ok then Ok (l, i, false)
      else
        let (l, ok) := if file_exists l from_filename then file_rename l from_filename to_filename else (l, true) in
        if negb ok then Ok (l, i, false) else rotate_loop j l
  end.

(** [mod_logfile_openlogfile] without and with the check of the size, and
    [mod_logfile_rotate] in between. *)
Definition openlogfile (l : logger) : logger * agc_status :=
  if denied FileOpen (logfile l) then (l, AGC_STATUS_FALSE) else (open_append l, AGC_STATUS_SUCCESS).

Definition mod_logfile_rotate (l : logger) : result (logger * agc_status) :=
  let! (l, i, ok) := rotate_loop (Z.to_nat (max_files l)) l in
  if negb ok then Ok (l, AGC_STATUS_GENERR)
  else
    let! to_filename := numbered l i in
    let (l, ok) := remove_existing l to_filename in
    if negb ok then Ok (l, AGC_STATUS_GENERR)
    else
      let! l := close_log l in
      let (l, ok) := file_rename l (logfile l) to_filename in
      if negb ok then Ok (l, AGC_STATUS_GENERR) else Ok (openlogfile l).

(** [profile->roll_size && profile->log_size >= profile->roll_size] *)
Definition too_big (l : logger) : bool := negb (roll_size l =? 0) && (roll_size l <=? log_size l).

Definition mod_logfile_openlogfile (check : bool) (l : logger) : result (logger * agc_status) :=
  match openlogfile l with
  | (l, AGC_STATUS_SUCCESS) =>
      if check && too_big l then let! (l, _) := mod_logfile_rotate l in Ok (l, AGC_STATUS_SUCCESS)
      else Ok (l, AGC_STATUS_SUCCESS)
  | (l, _) => Ok (l, AGC_STATUS_FALSE)
  end.

(** The second attempt when the first one failed; a write that fails sets the
    length to zero. *)
Definition write_again (l : logger) (data : cstr) : result (logger * Z * agc_status) :=
  let! l := close_log l in
  let! (l, st) := mod_logfile_openlogfile true l in
  if bool_decide (st = AGC_STATUS_SUCCESS) then
    let (l, ok) := file_write l data in
    Ok (l, if ok then Z.of_nat (length data) else 0, st)
  else Ok (l, 0, st).

Definition mod_logfile_raw_write (log_data : cstr) (l : logger) : result (logger * agc_status) :=
  if (length log_data =? 0)%nat then Ok (l, AGC_STATUS_FALSE)
  else
    match log_afd l with
    | None => Ok (l, AGC_STATUS_FALSE)
    | Some _ =>
        let! (l, len, st) :=
          match file_write l log_data with
          | (l, true) => Ok (l, Z.of_nat (length log_data), AGC_STATUS_SUCCESS)
          | (l, false) => write_again l log_data
          end in
        if bool_decide (st = AGC_STATUS_SUCCESS) then
          let l := with_size (wrap 64 (log_size l + len)) l in
          if too_big l then let! (l, _) := mod_logfile_rotate l in Ok (l, st) else Ok (l, st)
        else Ok (l, st)
    end.

Fixpoint write_lines (userdata : cstr) (lines : list cstr) (l : logger) : result logger :=
  match lines with
  | [] => Ok l
  | x :: lines' =>
      let! (l, _) := mod_logfile_raw_write (take 2047 (userdata ++ 32 :: x ++ [10])) l in
      write_lines userdata lines' l
  end.

(** [process_node]: a message [data] of a level, with the data of its user. *)
Definition process_node (node_level : Z) (data : cstr) (userdata : cstr) (l : logger) : result logger :=
  if node_level <=? level l then
    if log_session l && negb (length userdata =? 0)%nat then
      let! lines := Utils.agc_separate_string data 10 100 in
      write_lines userdata lines l
    else let! (l, _) := mod_logfile_raw_write data l in Ok l
  else Ok l.

(** ** The configuration *)

Inductive keytype := LOGFILE_KEY_ROLLSIZE | LOGFILE_KEY_MAXFILES | LOGFILE_KEY_LEVEL | LOGFILE_KEY_FILE | LOGFILE_KEY_UNKOWN.

Record config := Config {
  iskey : bool;
  ktype : keytype;
  c_roll_size : Z;
  c_max_files : Z;
  c_level : Z;
  c_logfile : cstr }.

Definition config_key (v : cstr) : keytype :=
  if bool_decide (v = bytes_of "rollsize") then LOGFILE_KEY_ROLLSIZE
  else if bool_decide (v = bytes_of "maxfiles") then LOGFILE_KEY_MAXFILES
  else if bool_decide (v = bytes_of "level") then LOGFILE_KEY_LEVEL
  else if bool_decide (v = bytes_of "file") then LOGFILE_KEY_FILE else LOGFILE_KEY_UNKOWN.

Definition config_step (c : config) (t : Yaml.yaml_token) : result config :=
  match t with
  | Yaml.YAML_KEY_TOKEN => Ok (Config true (ktype c) (c_roll_size c) (c_max_files c) (c_level c) (c_logfile c))
  | Yaml.YAML_VALUE_TOKEN => Ok (Config false (ktype c) (c_roll_size c) (c_max_files c) (c_level c) (c_logfile c))
  | Yaml.YAML_SCALAR_TOKEN v =>
      if iskey c then Ok (Config (iskey c) (config_key v) (c_roll_size c) (c_max_files c) (c_level c) (c_logfile c))
      else
        Ok match ktype c with
           | LOGFILE_KEY_ROLLSIZE => Config (iskey c) (ktype c) (Utils.agc_atoui v) (c_max_files c) (c_level c) (c_logfile c)
           | LOGFILE_KEY_MAXFILES => Config (iskey c) (ktype c) (c_roll_size c) (Utils.agc_atoui v) (c_level c) (c_logfile c)
           | LOGFILE_KEY_LEVEL => Config (iskey c) (ktype c) (c_roll_size c) (c_max_files c) (Log.agc_log_str2level v) (c_logfile c)
           | LOGFILE_KEY_FILE => Config (iskey c) (ktype c) (c_roll_size c) (c_max_files c) (c_level c) v
           | LOGFILE_KEY_UNKOWN => c
           end
  | _ => Ok c
  end.

(** [load_config]: the values and their defaults, then the log is opened. *)
Definition load_config (log_dir : cstr) (fs : gmap cstr (list Z)) (tokens : list Yaml.yaml_token) : result (logger * agc_status) :=
  let! (c, _) := Yaml.scan config_step (Config false LOGFILE_KEY_UNKOWN 0 0 Log.AGC_LOG_UNINIT []) tokens in
  let roll := if c_roll_size c =? 0 then DEFAULT_LIMIT else c_roll_size c in
  let maxf := if c_max_files c =? 0 then LOGFILE_MAX_FILES else c_max_files c in
  let lv := if c_level c =? Log.AGC_LOG_UNINIT then Log.AGC_LOG_WARNING else c_level c in
  let file := match c_logfile c with [] => take 511 (log_dir ++ bytes_of "/agc.log") | f => f end in
  let! (l, st) := mod_logfile_openlogfile true (Logger fs 0 roll maxf None lv file true) in
  if bool_decide (st = AGC_STATUS_SUCCESS) then Ok (l, AGC_STATUS_SUCCESS) else Ok (l, AGC_STATUS_GENERR).

End system.
End LogFile.
