(* ===== verification/LogFileProof.v ===== *)
(** * The log file: what is kept

    Rotation moves every file up by one and drops the oldest; what is written
    is kept up to a bound, and the space is bounded; a log that cannot be
    renamed loses every message that follows. *)

From stdpp Require Import base gmap list fin_maps strings.
From Stdlib Require Import ZArith Lia.
From S2P Require Import Prelude CString Event Utils Json Log LogProof LogFile.

Module LogFileProof.
Import Ev LogFile.

(** ** Names *)

Definition name (f : cstr) (i : nat) : cstr := f ++ 46 :: print_int (Z.of_nat i).

Lemma name_inj f i j : Z.of_nat i < 2 ^ 31 -> Z.of_nat j < 2 ^ 31 -> name f i = name f j -> i = j.
Proof.
  intros Hi Hj E. unfold name in E. apply app_inv_head in E. injection E as E.
  apply (f_equal atoi) in E. rewrite !atoi_print_int in E by lia. lia.
Qed.

Lemma name_ne f i : name f i <> f.
Proof. unfold name. intros E. apply (f_equal length) in E. rewrite length_app in E. cbn in E. lia. Qed.

Lemma numbered_name l i : (length (logfile l) < 240)%nat -> Z.of_nat i < 2 ^ 31 -> numbered l i = Ok (name (logfile l) i).
Proof.
  intros Hl Hi. unfold numbered, Json.write_buffer. rewrite sext32_small by lia. rewrite (proj2 (Nat.ltb_lt _ _)); [done|]. rewrite length_app. cbn [length]. unfold NAME_SIZE.
  pose proof (print_int_width (Z.of_nat i) ltac:(lia)). lia.
Qed.

(** ** Rotation *)

(** The settings, which no operation changes. *)
Record settings (l l' : logger) : Prop := Settings {
  se_roll : roll_size l' = roll_size l;
  se_max : max_files l' = max_files l;
  se_level : level l' = level l;
  se_file : logfile l' = logfile l;
  se_session : log_session l' = log_session l }.

Lemma settings_refl l : settings l l.
Proof. by split. Qed.
Lemma settings_trans l1 l2 l3 : settings l1 l2 -> settings l2 l3 -> settings l1 l3.
Proof. intros [] []. split; congruence. Qed.

Section rotate.
Context (denied : file_op -> cstr -> bool).
Context (Hrm : forall n, denied FileRemove n = false).

Lemma remove_existing_ok l n : remove_existing denied l n = (with_files (delete n (files l)) l, true).
Proof.
  unfold remove_existing, file_remove, file_exists. rewrite Hrm. case_bool_decide as E.
  - done.
  - cbn. rewrite delete_id; [by destruct l|]. by apply eq_None_not_Some.
Qed.

(** One turn of the loop. *)
Lemma move_ok l from to : denied FileRename from = false -> from <> to ->
  let l1 := with_files (delete to (files l)) l in
  exists l2, (if file_exists l1 from then file_rename denied l1 from to else (l1, true)) = (l2, true) /\
    files l2 !! to = files l !! from /\ files l2 !! from = None /\
    (forall n, n <> to -> n <> from -> files l2 !! n = files l !! n) /\
    settings l l2 /\ log_afd l2 = log_afd l /\ log_size l2 = log_size l.
Proof.
  intros Hd Hne l1. unfold file_exists, file_rename. cbn [files l1 with_files].
  rewrite lookup_delete_ne by done. case_bool_decide as E.
  - destruct E as [c E]. rewrite E, Hd. eexists. split; [done|]. cbn. split_and!; try done.
    + by rewrite lookup_insert_eq.
    + rewrite lookup_insert_ne, lookup_delete_eq by done. done.
    + intros n H1 H2. by rewrite lookup_insert_ne, !lookup_delete_ne by done.
  - apply eq_None_not_Some in E. eexists. split; [done|]. cbn. split_and!; try done.
    + by rewrite lookup_delete_eq.
    + by rewrite lookup_delete_ne.
    + intros n H1 H2. by rewrite lookup_delete_ne.
Qed.

(** The files [1] to [i] moved up by one. *)
Record shifted (i : nat) (l l' : logger) : Prop := Shifted {
  sh_first : (2 <= i)%nat -> files l' !! name (logfile l) 1 = None;
  sh_up : forall k, (2 <= k <= i)%nat -> files l' !! name (logfile l) k = files l !! name (logfile l) (k - 1);
  sh_other : forall n, (forall k, (1 <= k <= i)%nat -> n <> name (logfile l) k) -> files l' !! n = files l !! n;
  sh_settings : settings l l';
  sh_afd : log_afd l' = log_afd l;
  sh_size : log_size l' = log_size l }.

Context (f : cstr) (Hlen : (length f < 240)%nat).
Context (Hren : forall n, n <> f -> denied FileRename n = false).

Lemma rotate_loop_ok i : forall l, logfile l = f -> (1 <= i)%nat -> Z.of_nat i < 2 ^ 31 ->
  exists l', rotate_loop denied i l = Ok (l', 1%nat, true) /\ shifted i l l' /\ (i = 1%nat -> l' = l).
Proof.
  induction i as [|[|j] IH]; intros l Hf Hi Hb; [lia| |].
  - exists l. split; [done|]. split; [|done]. split; try done; intros; lia.
  - set (i := S j) in *.
    change (rotate_loop denied (S i) l) with (
      let! to_filename := numbered l (S i) in
      let! from_filename := numbered l i in
      let (l, ok) := remove_existing denied l to_filename in
      if negb ok then Ok (l, S i, false)
      else
        let (l, ok) := if file_exists l from_filename then file_rename denied l from_filename to_filename else (l, true) in
        if negb ok then Ok (l, S i, false) else rotate_loop denied i l).
    rewrite !numbered_name by (rewrite ?Hf; lia || done). cbn [rbind]. rewrite Hf, remove_existing_ok. cbn [negb].
    destruct (move_ok l (name f i) (name f (S i))) as (l2 & -> & Hto & Hfrom & Hoth & Hse & Hafd & Hsz).
    { apply Hren, name_ne. }
    { intros E%name_inj; lia. }
    cbn [negb]. destruct (IH l2) as (l' & -> & [H1 H2 H3 H4 H5 H6] & Hl1); [by rewrite (se_file _ _ Hse)|lia|lia|].
    rewrite (se_file _ _ Hse) in H1, H2, H3. rewrite Hf in H1, H2, H3.
    exists l'. split; [done|]. split; [|lia]. split; rewrite ?Hf; [| | |by eapply settings_trans|congruence|congruence].
    + intros _. destruct (decide (2 <= i)%nat) as [Hi2|Hi2]; [by apply H1|].
      assert (i = 1%nat) as E by lia. rewrite (Hl1 E). by rewrite <- E.
    + intros k Hk. destruct (decide (k = S i)) as [->|Hne].
      * rewrite H3; [by rewrite Hto, Nat.sub_succ, Nat.sub_0_r|]. intros k' Hk' E%name_inj; lia.
      * rewrite H2 by lia. apply Hoth; intros E%name_inj; lia.
    + intros n Hn. rewrite H3 by (intros k Hk; apply Hn; lia). apply Hoth; apply Hn; lia.
Qed.

(** What both outcomes of a rotation have in common: the numbered files are
    moved up, the first one is free, and the log has not been touched. *)
Lemma rotate_prefix l h c : logfile l = f -> 1 <= max_files l < 2 ^ 31 -> log_afd l = Some h -> files l !! f = Some c ->
  exists l1, mod_logfile_rotate denied l =
      (let (l, ok) := file_rename denied l1 f (name f 1) in
       if negb ok then Ok (l, AGC_STATUS_GENERR) else Ok (openlogfile denied l)) /\
    files l1 !! name f 1 = None /\ files l1 !! f = Some c /\
    (forall k, (2 <= k)%nat -> Z.of_nat k <= max_files l -> files l1 !! name f k = files l !! name f (k - 1)) /\
    (forall n, (forall k, (1 <= k)%nat -> Z.of_nat k <= max_files l -> n <> name f k) -> files l1 !! n = files l !! n) /\
    settings l l1 /\ log_afd l1 = Some false /\ log_size l1 = log_size l.
Proof.
  intros Hf Hm Ha Hc. unfold mod_logfile_rotate.
  destruct (rotate_loop_ok (Z.to_nat (max_files l)) l Hf ltac:(lia) ltac:(lia)) as (l1 & -> & [H1 H2 H3 H4 H5 H6] & _).
  cbn [rbind negb]. rewrite numbered_name by (rewrite ?(se_file _ _ H4), ?Hf; done || lia). cbn [rbind].
  rewrite (se_file _ _ H4), Hf in *. rewrite remove_existing_ok. cbn [negb].
  unfold close_log. cbn [log_afd with_files]. rewrite H5, Ha. cbn [rbind].
  eexists. split; [cbn [logfile with_afd with_files]; rewrite (se_file _ _ H4), Hf; reflexivity|].
  cbn [files with_afd with_files log_size log_afd]. split_and!; try done.
  - by rewrite lookup_delete_eq.
  - rewrite lookup_delete_ne by apply name_ne. rewrite H3; [done|]. intros k _ E. symmetry in E. by apply name_ne in E.
  - intros k Hk Hk2. rewrite lookup_delete_ne by (intros E%name_inj; lia). apply H2. lia.
  - intros n Hn. rewrite lookup_delete_ne by (symmetry; apply Hn; lia). apply H3. intros k Hk. apply Hn; lia.
  - destruct H4. by split.
Qed.

Lemma rotate_ok l h c : denied FileRename f = false -> denied FileOpen f = false ->
  logfile l = f -> 1 <= max_files l < 2 ^ 31 -> log_afd l = Some h -> files l !! f = Some c ->
  exists l', mod_logfile_rotate denied l = Ok (l', AGC_STATUS_SUCCESS) /\ files l' !! f = Some [] /\
    files l' !! name f 1 = Some c /\
    (forall k, (2 <= k)%nat -> Z.of_nat k <= max_files l -> files l' !! name f k = files l !! name f (k - 1)) /\
    (forall n, n <> f -> (forall k, (1 <= k)%nat -> Z.of_nat k <= max_files l -> n <> name f k) -> files l' !! n = files l !! n) /\
    settings l l' /\ log_afd l' = Some true /\ log_size l' = 0.
Proof.
  intros Hd Ho Hf Hm Ha Hc. destruct (rotate_prefix l h c Hf Hm Ha Hc) as (l1 & -> & H1 & H2 & H3 & H4 & H5 & H6 & H7).
  unfold file_rename. rewrite H2, Hd. cbn [negb]. unfold openlogfile. cbn [logfile with_files].
  rewrite (se_file _ _ H5), Hf, Ho.
  assert (f <> name f 1) as Hne by (intros E; symmetry in E; by apply name_ne in E).
  eexists. split; [reflexivity|]. unfold open_append. cbn [files with_size with_afd with_files logfile log_afd log_size].
  rewrite (se_file _ _ H5), Hf. rewrite (lookup_insert_ne _ (name f 1) f) by done. rewrite lookup_delete_eq. cbn [default].
  split_and!; try done.
  - by rewrite lookup_insert_eq.
  - by rewrite lookup_insert_ne, lookup_insert_eq.
  - intros k Hk Hk2. rewrite lookup_insert_ne by (intros E; symmetry in E; by apply name_ne in E).
    rewrite lookup_insert_ne by (intros E%name_inj; lia).
    rewrite lookup_delete_ne by (intros E; symmetry in E; by apply name_ne in E). by apply H3.
  - intros n Hn Hk. rewrite lookup_insert_ne by done. rewrite lookup_insert_ne by (symmetry; apply Hk; lia).
    rewrite lookup_delete_ne by done. by apply H4.
  - destruct H5. by split.
Qed.

Lemma rotate_refused l h c : denied FileRename f = true ->
  logfile l = f -> 1 <= max_files l < 2 ^ 31 -> log_afd l = Some h -> files l !! f = Some c ->
  exists l', mod_logfile_rotate denied l = Ok (l', AGC_STATUS_GENERR) /\ files l' !! f = Some c /\
    files l' !! name f 1 = None /\
    (forall k, (2 <= k)%nat -> Z.of_nat k <= max_files l -> files l' !! name f k = files l !! name f (k - 1)) /\
    settings l l' /\ log_afd l' = Some false /\ log_size l' = log_size l.
Proof.
  intros Hd Hf Hm Ha Hc. destruct (rotate_prefix l h c Hf Hm Ha Hc) as (l1 & -> & H1 & H2 & H3 & _ & H5 & H6 & H7).
  unfold file_rename. rewrite H2, Hd. cbn [negb]. by exists l1.
Qed.

End rotate.
(** ** Writing *)

Definition allowed (_ : file_op) (_ : cstr) : bool := false.

Definition content (l : logger) (n : cstr) : list Z := default [] (files l !! n).
Definition content_at (l : logger) (i : nat) : list Z := content l (name (logfile l) i).

(** The numbered files from the oldest, and the log behind them. *)
Definition indices (l : logger) : list nat := seq 1 (Z.to_nat (max_files l)).
Definition old (l : logger) : list Z := concat (content_at l <$> reverse (indices l)).
Definition kept (l : logger) : list Z := old l ++ content l (logfile l).

(** All numbered files are in use. *)
Definition full (l : logger) : Prop := Forall (fun i => content_at l i <> []) (indices l).

(** [M]: the longest message. *)
Record log_ok (M : Z) (l : logger) : Prop := LogOk {
  lo_name : (length (logfile l) < 240)%nat;
  lo_max : 1 <= max_files l < 2 ^ 31;
  lo_roll : 0 < roll_size l;
  lo_wrap : 0 <= M /\ roll_size l + M < 2 ^ 64;
  lo_afd : log_afd l = Some true;
  lo_log : exists c, files l !! logfile l = Some c /\ log_size l = Z.of_nat (length c) /\ Z.of_nat (length c) < roll_size l;
  lo_old : Forall (fun i => content_at l i = [] \/ roll_size l <= Z.of_nat (length (content_at l i)) < roll_size l + M) (indices l);
  lo_dense : forall i, (1 <= i)%nat -> Z.of_nat (S i) <= max_files l -> content_at l (S i) <> [] -> content_at l i <> [] }.

Lemma log_ok_weaken M M' l : log_ok M l -> M <= M' -> roll_size l + M' < 2 ^ 64 -> log_ok M' l.
Proof.
  intros [Hn Hm Hr HM Ha Hl Ho Hd] H1 H2. split; try done; [lia|]. eapply Forall_impl; [exact Ho|]. cbn. intros i [?|?]; [by left|right; lia].
Qed.

Lemma in_indices l i : i ∈ indices l <-> (1 <= i)%nat /\ Z.of_nat i <= max_files l.
Proof. unfold indices. rewrite elem_of_seq. lia. Qed.

(** The files after a rotation. *)
Lemma old_rotated l l' c : 1 <= max_files l -> settings l l' -> content_at l' 1 = c ->
  (forall k, (2 <= k)%nat -> Z.of_nat k <= max_files l -> content_at l' k = content_at l (k - 1)) ->
  old l ++ c = content_at l (Z.to_nat (max_files l)) ++ old l'.
Proof.
  intros Hm Hs H1 H2. unfold old, indices. rewrite (se_max _ _ Hs).
  destruct (Z.to_nat (max_files l)) as [|m] eqn:E; [lia|].
  assert (reverse (seq 1 (S m)) = S m :: reverse (seq 1 m)) as Hr by (by rewrite seq_S, reverse_app).
  assert (reverse (seq 1 (S m)) = (S <$> reverse (seq 1 m)) ++ [1%nat]) as Hr'.
  { cbn [seq]. by rewrite reverse_cons, <- fmap_S_seq, fmap_reverse. }
  rewrite Hr at 1. rewrite Hr', fmap_app, concat_app. cbn [fmap list_fmap concat]. rewrite H1, app_nil_r.
  rewrite <- app_assoc. f_equal. f_equal. f_equal.
  rewrite <- list_fmap_compose. apply list_fmap_ext. intros j x Hx. cbn.
  assert (x ∈ seq 1 m) as Hin%elem_of_seq by (apply elem_of_reverse; by eapply list_elem_of_lookup_2).
  rewrite H2 by lia. by rewrite Nat.sub_succ, Nat.sub_0_r.
Qed.

(** The logger with a message put behind the log. *)
Definition appended (msg : cstr) (l : logger) : logger :=
  with_size (log_size l + Z.of_nat (length msg)) (with_files (<[logfile l := content l (logfile l) ++ msg]> (files l)) l).

Lemma appended_at msg l i : content_at (appended msg l) i = content_at l i.
Proof. unfold content_at, content. cbn. rewrite lookup_insert_ne; [done|]. intros E. symmetry in E. by apply name_ne in E. Qed.
Lemma appended_log msg l : content (appended msg l) (logfile l) = content l (logfile l) ++ msg.
Proof. unfold content at 1. cbn. by rewrite lookup_insert_eq. Qed.
Lemma appended_old msg l : old (appended msg l) = old l.
Proof. unfold old, indices. f_equal. apply list_fmap_ext. intros. apply appended_at. Qed.
Lemma appended_all msg l (P : list Z -> Prop) :
  Forall (fun i => P (content_at l i)) (indices l) -> Forall (fun i => P (content_at (appended msg l) i)) (indices (appended msg l)).
Proof. intros H. unfold indices. cbn. eapply Forall_impl; [exact H|]. intros i Hi. by rewrite appended_at. Qed.

Lemma raw_write_appends M l msg : log_ok M l -> msg <> [] -> Z.of_nat (length msg) <= M ->
  mod_logfile_raw_write allowed msg l =
    (if roll_size l <=? log_size l + Z.of_nat (length msg)
     then let! (l', _) := mod_logfile_rotate allowed (appended msg l) in Ok (l', AGC_STATUS_SUCCESS)
     else Ok (appended msg l, AGC_STATUS_SUCCESS)).
Proof.
  intros [Hn Hm Hr [HM Hw] Ha (c & Hc & Hs & Hlt) Ho Hd] Hne Hlen. unfold mod_logfile_raw_write.
  rewrite (proj2 (Nat.eqb_neq _ _)) by (by destruct msg). rewrite Ha. unfold file_write at 1. rewrite Ha.
  cbn [allowed rbind]. rewrite bool_decide_true by done. fold (content l (logfile l)).
  cbn [log_size with_files]. unfold wrap. rewrite Z.mod_small by lia.
  unfold too_big. cbn [roll_size log_size with_size with_files]. by rewrite (proj2 (Z.eqb_neq _ _)) by lia.
Qed.

(** The log still has room. *)
Lemma appended_ok M l msg : log_ok M l -> log_size l + Z.of_nat (length msg) < roll_size l -> log_ok M (appended msg l).
Proof.
  intros [Hn Hm Hr [HM Hw] Ha (c & Hc & Hs & Hlt) Ho Hd] E. split; try done.
  - exists (c ++ msg). unfold appended, content. cbn [files with_size with_files logfile log_size roll_size].
    rewrite Hc, lookup_insert_eq, length_app, Nat2Z.inj_add. cbn [default]. split_and!; [done|lia|lia].
  - cbn. exact (appended_all msg l (fun x => x = [] \/ _ <= Z.of_nat (length x) < _) Ho).
  - intros i. rewrite !appended_at. apply Hd.
Qed.

(** The files after the rotation of a log that has become too big. *)
Record rotated (l : logger) (c : list Z) (l' : logger) : Prop := Rotated {
  ro_settings : settings l l';
  ro_afd : log_afd l' = Some true;
  ro_size : log_size l' = 0;
  ro_log : files l' !! logfile l = Some [];
  ro_first : content_at l' 1 = c;
  ro_up : forall k, (2 <= k)%nat -> Z.of_nat k <= max_files l -> content_at l' k = content_at l (k - 1) }.

Lemma appended_rotates M l msg : log_ok M l ->
  exists l', mod_logfile_rotate allowed (appended msg l) = Ok (l', AGC_STATUS_SUCCESS) /\ rotated l (content l (logfile l) ++ msg) l'.
Proof.
  intros [Hn Hm Hr _ Ha (c & Hc & Hs & Hlt) Ho Hd].
  destruct (rotate_ok allowed (fun _ => eq_refl) (logfile l) Hn (fun _ _ => eq_refl) (appended msg l) true (content l (logfile l) ++ msg)) as
    (l' & Hrot & Hf0 & Hf1 & Hfk & _ & Hse & Ha' & Hs'); try done; [cbn; by rewrite lookup_insert_eq|].
  assert (logfile l' = logfile l) as Hf by (by rewrite (se_file _ _ Hse)).
  exists l'. split; [done|]. split; try done.
  - destruct Hse. by split.
  - unfold content_at, content at 1. by rewrite Hf, Hf1.
  - intros k Hk1 Hk2. rewrite <- (appended_at msg l). unfold content_at, content. by rewrite Hf, Hfk.
Qed.

Lemma rotated_all l c l' (P : list Z -> Prop) : rotated l c l' -> P c -> Forall (fun i => P (content_at l i)) (indices l) ->
  Forall (fun i => P (content_at l' i)) (indices l').
Proof.
  intros [Hse _ _ _ H1 Hk] HP HF. apply Forall_forall. intros i Hi%in_indices. rewrite (se_max _ _ Hse) in Hi.
  destruct (decide (i = 1%nat)) as [->|]; [by rewrite H1|]. rewrite Hk by lia.
  apply (proj1 (Forall_forall _ _) HF). apply in_indices. lia.
Qed.

Lemma rotated_ok M l c l' : log_ok M l -> rotated l c l' -> roll_size l <= Z.of_nat (length c) < roll_size l + M -> log_ok M l'.
Proof.
  intros [Hn Hm Hr HM Ha _ Ho Hd] Hrot Hc. pose proof Hrot as [Hse Ha' Hs' Hf0 H1 Hk].
  split; try (rewrite ?(se_file _ _ Hse), ?(se_max _ _ Hse), ?(se_roll _ _ Hse); done).
  - exists []. rewrite (se_file _ _ Hse), (se_roll _ _ Hse). split_and!; [exact Hf0|rewrite Hs'; reflexivity|cbn; lia].
  - rewrite (se_roll _ _ Hse). apply (rotated_all l c l' (fun x => x = [] \/ _ <= Z.of_nat (length x) < _) Hrot); [right; lia|done].
  - rewrite (se_max _ _ Hse). intros i Hi1 Hi2 Hne'. rewrite Hk in Hne' by lia.
    destruct (decide (i = 1%nat)) as [->|]; [rewrite H1; destruct c; [cbn in Hc; lia|done]|]. rewrite Hk by lia.
    apply Hd; [lia|lia|]. replace (S (i - 1)) with (S i - 1)%nat by lia. exact Hne'.
Qed.

(** The last numbered file is in use only when all of them are. *)
Lemma last_full M l : log_ok M l -> content_at l (Z.to_nat (max_files l)) <> [] -> full l.
Proof.
  intros [Hn Hm Hr HM Ha _ Ho Hd] Hf.
  assert (forall j i, (1 <= i)%nat -> (i + j = Z.to_nat (max_files l))%nat -> content_at l i <> []) as Hdown.
  { induction j as [|j IH]; intros i Hi Hij; [by replace i with (Z.to_nat (max_files l)) by lia|].
    apply Hd; [lia|lia|]. apply IH; lia. }
  apply Forall_forall. intros i [Hi1 Hi2]%in_indices. apply (Hdown (Z.to_nat (max_files l) - i)%nat); lia.
Qed.

Lemma log_ok_size M l : log_ok M l -> log_size l = Z.of_nat (length (content l (logfile l))) /\ log_size l < roll_size l.
Proof. intros [_ _ _ _ _ (c & Hc & Hs & Hlt) _ _]. unfold content. rewrite Hc. cbn. lia. Qed.

Lemma write_ok M l msg : log_ok M l -> msg <> [] -> Z.of_nat (length msg) <= M ->
  exists l' d, mod_logfile_raw_write allowed msg l = Ok (l', AGC_STATUS_SUCCESS) /\ log_ok M l' /\ settings l l' /\
    kept l ++ msg = d ++ kept l' /\ (d = [] \/ full l') /\ (full l -> full l').
Proof.
  intros Hok Hne Hlen. rewrite (raw_write_appends M) by done. destruct (log_ok_size M l Hok) as [Hs Hs'].
  destruct (roll_size l <=? log_size l + Z.of_nat (length msg)) eqn:E.
  2:{ apply Z.leb_gt in E. exists (appended msg l), []. split_and!; [done|by apply appended_ok|by split| |by left|].
      - unfold kept. cbn [logfile appended with_size with_files app].
        rewrite <- app_assoc. f_equal; [by rewrite appended_old|by rewrite appended_log].
      - intros Hf. exact (appended_all msg l (fun x => x <> []) Hf). }
  apply Z.leb_le in E. destruct (appended_rotates M l msg Hok) as (l' & -> & Hrot). cbn [rbind].
  assert (content l (logfile l) ++ msg <> []) as Hne' by (destruct (content _ _); [exact Hne|done]).
  pose proof (ro_settings _ _ _ Hrot) as Hse.
  exists l', (content_at l (Z.to_nat (max_files l))). split_and!; try done.
  - eapply rotated_ok; [done..|]. rewrite length_app, Nat2Z.inj_add. lia.
  - unfold kept. rewrite (se_file _ _ Hse). unfold content at 2. rewrite (ro_log _ _ _ Hrot). cbn [default].
    rewrite app_nil_r, <- (old_rotated l l' (content l (logfile l) ++ msg)); [by rewrite app_assoc|apply Hok|done|apply Hrot|apply Hrot].
  - destruct (decide (content_at l (Z.to_nat (max_files l)) = [])) as [|Hf]; [by left|right].
    eapply (rotated_all _ _ _ (fun x => x <> []) Hrot); [done|]. by eapply last_full.
  - intros Hf. eapply (rotated_all _ _ _ (fun x => x <> []) Hrot); done.
Qed.

(** A sequence of messages, one call each. *)
Fixpoint log_all (denied : file_op -> cstr -> bool) (msgs : list cstr) (l : logger) : result logger :=
  match msgs with
  | [] => Ok l
  | m :: msgs' => let! (l, _) := mod_logfile_raw_write denied m l in log_all denied msgs' l
  end.

Definition message (M : Z) (m : cstr) : Prop := m <> [] /\ Z.of_nat (length m) <= M.

Lemma log_all_ok M msgs : Forall (message M) msgs -> forall l, log_ok M l ->
  exists l' d, log_all allowed msgs l = Ok l' /\ log_ok M l' /\ settings l l' /\
    kept l ++ concat msgs = d ++ kept l' /\ (d = [] \/ full l') /\ (full l -> full l').
Proof.
  induction 1 as [|m msgs [Hne Hlen] _ IH]; intros l Hok; cbn [log_all concat].
  - exists l, []. split_and!; [done|done|apply settings_refl|by rewrite app_nil_r|by left|done].
  - destruct (write_ok M l m Hok Hne Hlen) as (l1 & d1 & -> & Hok1 & Hs1 & Hk1 & Hd1 & Hf1). cbn [rbind].
    destruct (IH l1 Hok1) as (l' & d & -> & Hok' & Hs & Hk & Hd & Hf).
    exists l', (d1 ++ d). split_and!; [done|done|by eapply settings_trans| | |by auto].
    + by rewrite app_assoc, Hk1, <- app_assoc, Hk, app_assoc.
    + destruct Hd as [->|]; [|by right]. destruct Hd1 as [->|]; [by left|right; auto].
Qed.

Lemma concat_bounds {A} (lo hi : Z) (xs : list (list A)) : Forall (fun x => lo <= Z.of_nat (length x) <= hi) xs ->
  Z.of_nat (length xs) * lo <= Z.of_nat (length (concat xs)) <= Z.of_nat (length xs) * hi.
Proof. induction 1; cbn [concat length]; rewrite ?length_app; lia. Qed.

Lemma old_bounds l lo hi : 0 <= max_files l -> Forall (fun i => lo <= Z.of_nat (length (content_at l i)) <= hi) (indices l) ->
  max_files l * lo <= Z.of_nat (length (old l)) <= max_files l * hi.
Proof.
  intros Hm H. assert (Z.of_nat (length (content_at l <$> reverse (indices l))) = max_files l) as <-.
  { rewrite length_fmap, length_reverse. unfold indices. rewrite length_seq. lia. }
  apply concat_bounds, Forall_fmap, Forall_reverse. exact H.
Qed.

(** C11: The log files keep the last messages: whatever sequence of messages is
    written, from a log that is open, the files hold, from the oldest numbered
    file to the log, a suffix of all text that was ever written; nothing is
    lost before all the numbered files hold [roll_size] bytes each; and all
    files together never take more than a bound the configuration gives. *)
Theorem logfile_retention M l msgs : log_ok M l -> Forall (message M) msgs ->
  exists l' lost, log_all allowed msgs l = Ok l' /\ log_ok M l' /\
    kept l ++ concat msgs = lost ++ kept l' /\
    (lost = [] \/ max_files l * roll_size l <= Z.of_nat (length (old l'))) /\
    Z.of_nat (length (kept l')) < max_files l * (roll_size l + M) + roll_size l.
Proof.
  intros Hok Hm. destruct (log_all_ok M msgs Hm l Hok) as (l' & d & Hr & Hok' & Hs & Hk & Hd & _).
  exists l', d. split_and!; [done..| |].
  - destruct Hd as [->|Hf]; [by left|right]. rewrite <- (se_max _ _ Hs), <- (se_roll _ _ Hs).
    eapply (old_bounds l' _ (roll_size l' + M)); [destruct Hok'; lia|].
    pose proof (lo_old _ _ Hok') as Ho. unfold full in Hf. rewrite Forall_forall in Hf, Ho |- *.
    intros i Hi. destruct (Ho i Hi) as [E|]; [by destruct (Hf i Hi)|lia].
  - rewrite <- (se_max _ _ Hs), <- (se_roll _ _ Hs). destruct (log_ok_size _ _ Hok') as [Hz Hlt].
    unfold kept. rewrite length_app, Nat2Z.inj_add.
    enough (Z.of_nat (length (old l')) <= max_files l' * (roll_size l' + M)) by lia.
    apply (old_bounds l' 0); [destruct Hok'; lia|]. eapply Forall_impl; [apply (lo_old _ _ Hok')|].
    cbn. destruct Hok' as [_ _ Hro [HM _] _ _ _ _]. intros i [->|]; cbn; lia.
Qed.

(** A log of ten bytes with two numbered files, and messages of four. *)
Definition demo_log : logger :=
  Logger {[ bytes_of "agc.log" := [] ]} 0 10 2 (Some true) 7 (bytes_of "agc.log") true.
Definition demo_messages : list cstr := (fun i : Z => [65 + i; 65 + i; 65 + i; 10]) <$> seqZ 0 12.

Lemma demo_log_ok : log_ok 4 demo_log.
Proof.
  split; cbn; try lia; try done.
  - exists []. split_and!; [by vm_compute|done|cbn; lia].
  - apply Forall_forall. intros i Hi%in_indices. left. cbn in Hi.
    assert (i = 1 \/ i = 2)%nat as [-> | ->] by lia; by vm_compute.
  - intros i Hi1 Hi2. assert (i = 1)%nat as -> by lia. intros H. by destruct H.
Qed.

Lemma logfile_retention_witness :
  exists l' lost, log_all allowed demo_messages demo_log = Ok l' /\ log_ok 4 l' /\
    kept demo_log ++ concat demo_messages = lost ++ kept l' /\
    (lost = [] \/ 20 <= Z.of_nat (length (old l'))) /\ Z.of_nat (length (kept l')) < 38.
Proof.
  apply (logfile_retention 4 demo_log demo_messages demo_log_ok).
  apply Forall_fmap, Forall_forall. intros i _. cbn. split; [done|cbn; lia].
Defined.

(** ** A log that cannot be renamed *)

(** Only the renaming of [f] is refused. *)
Definition refuses (f : cstr) (op : file_op) (n : cstr) : bool :=
  match op with FileRename => bool_decide (n = f) | _ => false end.

(** The log has reached its size and could not be rotated: the handle is closed. *)
Record stuck (c : list Z) (l : logger) : Prop := Stuck {
  st_name : (length (logfile l) < 240)%nat;
  st_max : 1 <= max_files l < 2 ^ 31;
  st_roll : 0 < roll_size l <= Z.of_nat (length c);
  st_wrap : Z.of_nat (length c) < 2 ^ 63;
  st_afd : log_afd l = Some false;
  st_log : files l !! logfile l = Some c }.

Lemma stuck_rotates c l h : stuck c (with_afd (Some false) l) -> log_afd l = Some h ->
  exists l', mod_logfile_rotate (refuses (logfile l)) l = Ok (l', AGC_STATUS_GENERR) /\ stuck c l' /\ settings l l' /\
    log_size l' = log_size l /\ files l' !! name (logfile l) 1 = None /\
    (forall k, (2 <= k)%nat -> Z.of_nat k <= max_files l -> files l' !! name (logfile l) k = files l !! name (logfile l) (k - 1)).
Proof.
  intros [Hn Hm Hr Hw _ Hl] Ha. cbn in *.
  destruct (rotate_refused (refuses (logfile l)) (fun _ => eq_refl) (logfile l) Hn
    (fun n Hne => bool_decide_eq_false_2 _ Hne) l h c) as (l' & -> & H1 & H2 & H3 & Hs & Ha' & Hz); try done.
  { by apply bool_decide_eq_true_2. }
  exists l'. split_and!; try done. split; rewrite ?(se_file _ _ Hs), ?(se_max _ _ Hs), ?(se_roll _ _ Hs); done.
Qed.

(** Opening the log anew and closing it again leaves the files as they are. *)
Lemma reopened c l : stuck c l -> open_append l = with_size (Z.of_nat (length c)) (with_afd (Some true) l).
Proof. intros [_ _ _ _ _ Hl]. unfold open_append. rewrite Hl. cbn [default]. rewrite insert_id by done. by destruct l. Qed.

Lemma stuck_too_big c l : stuck c l -> forall n, Z.of_nat (length c) <= n -> too_big (with_size n l) = true.
Proof.
  intros [_ _ Hr _ _ _] n Hn. unfold too_big. cbn.
  rewrite (proj2 (Z.eqb_neq _ _)) by lia. cbn. apply Z.leb_le. lia.
Qed.

(** A message is lost, is reported to be written, and moves the numbered
    files up by two. *)
Lemma stuck_write c l m : stuck c l -> message (2 ^ 63) m ->
  exists l', mod_logfile_raw_write (refuses (logfile l)) m l = Ok (l', AGC_STATUS_SUCCESS) /\ stuck c l' /\ settings l l' /\
    files l' !! name (logfile l) 1 = None /\ (2 <= max_files l -> files l' !! name (logfile l) 2 = None) /\
    (forall k, (3 <= k)%nat -> Z.of_nat k <= max_files l -> files l' !! name (logfile l) k = files l !! name (logfile l) (k - 2)).
Proof.
  intros Hst [Hne Hlen]. pose proof Hst as [Hn Hm Hr Hw Ha Hl]. unfold mod_logfile_raw_write.
  rewrite (proj2 (Nat.eqb_neq _ _)) by (by destruct m). rewrite Ha. unfold file_write at 1. rewrite Ha.
  unfold write_again, close_log. rewrite Ha. cbn [rbind]. unfold mod_logfile_openlogfile, openlogfile. cbn [refuses].
  assert (with_afd (Some false) l = l) as -> by (unfold with_afd; rewrite <- Ha; by destruct l).
  rewrite (reopened c) by done. set (l0 := with_size _ (with_afd _ l)).
  change (too_big l0) with (too_big (with_size (Z.of_nat (length c)) l)). rewrite (stuck_too_big c) by (done || lia). cbn [andb].
  destruct (stuck_rotates c l0 true) as (l1 & Hr1 & Hst1 & Hs1 & Hz1 & H11 & H1k); [by destruct Hst; split|done|].
  cbn [logfile l0 with_size with_afd] in *. rewrite Hr1. cbn [rbind].
  rewrite bool_decide_true by done. unfold file_write. rewrite (st_afd _ _ Hst1). cbn [rbind fst].
  rewrite bool_decide_true by done. rewrite Hz1. cbn [log_size l0 with_size]. unfold wrap.
  rewrite Z.mod_small by lia. rewrite (stuck_too_big c) by (done || lia).
  destruct (stuck_rotates c (with_size (Z.of_nat (length c) + 0) l1) false) as (l2 & Hr2 & Hst2 & Hs2 & _ & H21 & H2k);
    [by destruct Hst1; split|apply Hst1|].
  cbn [logfile with_size files max_files] in *. rewrite (se_file _ _ Hs1) in *. cbn [logfile l0 with_size with_afd] in *.
  rewrite (se_max _ _ Hs1) in H2k. cbn [max_files l0 with_size with_afd] in *.
  rewrite Hr2. exists l2. split_and!; try done.
  - eapply settings_trans; [|eapply settings_trans; [exact Hs1|]]; [by split|]. by destruct Hs2; split.
  - intros H. rewrite H2k by lia. exact H11.
  - intros k Hk1 Hk2. rewrite H2k, H1k by lia. cbn. f_equal. f_equal. lia.
Qed.

(** Once the log has reached its size and the system refuses to rename it,
    every message is lost although its write is reported as a success (the
    handle stays closed), and the attempts to rotate drop the numbered files:
    after half as many messages as there are files none is left. *)
Theorem logfile_refused_rename c l msgs : stuck c l -> Forall (message (2 ^ 63)) msgs ->
  exists l', log_all (refuses (logfile l)) msgs l = Ok l' /\ files l' !! logfile l = Some c /\ log_afd l' = Some false /\
    (max_files l <= 2 * Z.of_nat (length msgs) ->
     forall k, (1 <= k)%nat -> Z.of_nat k <= max_files l -> files l' !! name (logfile l) k = None).
Proof.
  intros Hst Hm.
  enough (forall n, (forall k, (1 <= k <= n)%nat -> Z.of_nat k <= max_files l -> files l !! name (logfile l) k = None) ->
    exists l', log_all (refuses (logfile l)) msgs l = Ok l' /\ files l' !! logfile l = Some c /\ log_afd l' = Some false /\
      (forall k, (1 <= k <= n + 2 * length msgs)%nat -> Z.of_nat k <= max_files l -> files l' !! name (logfile l) k = None)) as H.
  { destruct (H O) as (l' & H1 & H2 & H3 & H4); [intros; lia|]. exists l'. split_and!; try done. intros Hb k Hk1 Hk2. apply H4; lia. }
  revert l Hst. induction Hm as [|m msgs Hmsg _ IH]; intros l Hst n Hn; cbn [log_all length].
  - exists l. split_and!; [done|apply Hst..|]. intros k Hk1 Hk2. apply Hn; lia.
  - destruct (stuck_write c l m Hst Hmsg) as (l1 & -> & Hst1 & Hs & H1 & H2 & H3). cbn [rbind].
    rewrite <- (se_file _ _ Hs). destruct (IH l1 Hst1 (n + 2)%nat) as (l' & HR & HF & HA & HK).
    + rewrite (se_file _ _ Hs), (se_max _ _ Hs). intros k Hk1 Hk2.
      destruct (decide (k = 1%nat)) as [->|]; [done|]. destruct (decide (k = 2%nat)) as [->|]; [by apply H2|].
      rewrite H3 by lia. apply Hn; lia.
    + exists l'. split_and!; try done. intros k Hk1 Hk2. apply HK; [lia|]. by rewrite (se_max _ _ Hs).
Qed.

(** A log of eleven bytes that should have been rotated at ten, with a numbered file. *)
Definition demo_stuck : logger :=
  Logger (<[bytes_of "agc.log" := replicate 11 65]> {[ bytes_of "agc.log.1" := [66] ]}) 11 10 2 (Some false) 7 (bytes_of "agc.log") true.

Lemma logfile_refused_rename_witness :
  exists l', log_all (refuses (bytes_of "agc.log")) [[67; 10]] demo_stuck = Ok l' /\
    files l' !! bytes_of "agc.log" = Some (replicate 11 65) /\ log_afd l' = Some false /\
    (2 <= 2 -> forall k, (1 <= k)%nat -> Z.of_nat k <= 2 -> files l' !! name (bytes_of "agc.log") k = None).
Proof.
  apply (logfile_refused_rename (replicate 11 65) demo_stuck [[67; 10]]).
  - split; cbn; try lia; try done.
  - apply Forall_singleton. by split.
Defined.

(** ** From the logging core into the file *)

(** The calls of the logger at [f], in their order. *)
Fixpoint feed (f : Z) (calls : list Log.call) (l : logger) : result logger :=
  match calls with
  | [] => Ok l
  | c :: calls' =>
      if Log.called c =? f then
        let! l := process_node allowed (Log.c_level c) (Log.n_data (Log.c_node c)) (default [] (Log.n_userdata (Log.c_node c))) l in
        feed f calls' l
      else feed f calls' l
  end.

(** The messages of the levels the file takes. *)
Definition wanted {va} (vasprintf : cstr -> va -> option cstr) (level : Z) (rs : list (@Log.request va)) : list Log.agc_log_node :=
  omap (fun r => if Log.r_level r <=? level then LogProof.message_of vasprintf r else None) rs.

Lemma wanted_length {va} (vasprintf : cstr -> va -> option cstr) lv rs : (length (wanted vasprintf lv rs) <= length rs)%nat.
Proof.
  unfold wanted. induction rs as [|r rs IH]; [done|]. cbn. case_match; cbn; lia.
Qed.

Lemma message_of_fields {va} (vasprintf : cstr -> va -> option cstr) r n : LogProof.message_of vasprintf r = Some n ->
  Log.n_level n = Log.r_level r /\ Log.n_userdata n = None.
Proof.
  unfold LogProof.message_of. destruct (Log.LEVELS !! _); [|done]. intros (d & _ & ->)%fmap_Some. done.
Qed.

Lemma spec_prints {va} (vasprintf : cstr -> va -> option cstr) rs : forall sp, LogProof.thread sp = LogProof.Awake ->
  Z.of_nat (length (LogProof.pending sp) + length rs) <= Log.AGC_LOG_QUEUE_LEN ->
  LogProof.spec_run vasprintf sp (LogProof.OPrint <$> rs) =
    (LogProof.Spec (LogProof.loggers sp) (LogProof.highest sp) (LogProof.pending sp ++ wanted vasprintf (LogProof.highest sp) rs) LogProof.Awake, []).
Proof.
  induction rs as [|r rs IH]; intros sp Ha Hl; cbn [fmap list_fmap LogProof.spec_run].
  { cbn. rewrite app_nil_r, <- Ha. by destruct sp. }
  cbn [LogProof.spec1]. rewrite Ha. cbn [length] in Hl.
  change (wanted vasprintf (LogProof.highest sp) (r :: rs)) with
    (match (if Log.r_level r <=? LogProof.highest sp then LogProof.message_of vasprintf r else None) with
     | Some n => n :: wanted vasprintf (LogProof.highest sp) rs | None => wanted vasprintf (LogProof.highest sp) rs end).
  destruct (LogProof.message_of vasprintf r) as [n|].
  - destruct (Log.r_level r <=? LogProof.highest sp); cbn [andb].
    + rewrite (proj2 (Z.ltb_lt _ _)) by lia.
      fold (fmap (M := list) (@LogProof.OPrint va) rs). rewrite IH by (cbn; rewrite ?length_app; cbn; done || lia).
      cbn. by rewrite <- app_assoc.
    + fold (fmap (M := list) (@LogProof.OPrint va) rs). by rewrite IH by (done || lia).
  - fold (fmap (M := list) (@LogProof.OPrint va) rs). rewrite IH by (done || lia). by destruct (_ <=? _).
Qed.

Lemma spec_run_app {va} (vasprintf : cstr -> va -> option cstr) os1 os2 sp :
  LogProof.spec_run vasprintf sp (os1 ++ os2) =
    (let (sp1, c1) := LogProof.spec_run vasprintf sp os1 in let (sp2, c2) := LogProof.spec_run vasprintf sp1 os2 in (sp2, c1 ++ c2)).
Proof.
  revert sp. induction os1 as [|o os1 IH]; intros sp; cbn [app LogProof.spec_run].
  - by destruct (LogProof.spec_run vasprintf sp os2).
  - destruct (LogProof.spec1 vasprintf sp o) as [sp1 c1]. rewrite IH.
    destruct (LogProof.spec_run vasprintf sp1 os1) as [sp2 c2]. destruct (LogProof.spec_run vasprintf sp2 os2). by rewrite app_assoc.
Qed.

Lemma feed_writes M f ns : forall l, log_ok M l ->
  Forall (fun n => Log.n_level n <= level l /\ Log.n_userdata n = None /\ message M (Log.n_data n)) ns ->
  feed f ((fun n => Log.Call f n (Log.n_level n)) <$> ns) l = log_all allowed (Log.n_data <$> ns) l.
Proof.
  induction ns as [|n ns IH]; intros l Hok Hns; [done|]. apply Forall_cons in Hns as [(Hl & Hu & Hm1 & Hm2) Hns].
  cbn [fmap list_fmap feed log_all Log.called Log.c_level Log.c_node]. rewrite Z.eqb_refl, Hu. unfold process_node.
  rewrite (proj2 (Z.leb_le _ _)) by done. cbn [default from_option length Nat.eqb negb]. rewrite andb_false_r, rbind_assoc.
  destruct (write_ok M l _ Hok Hm1 Hm2) as (l' & d & -> & Hok' & Hs & _). cbn [rbind].
  apply IH; [done|]. by rewrite (se_level _ _ Hs).
Qed.

End LogFileProof.

Import LogFile LogFileProof.

(** C10: What is logged reaches the file: with the log file bound at its level,
    any sequence of requests that fits the queue, followed by as many turns of
    the log thread, puts the formatted lines of exactly the requests of that
    level or below into the files, in their order, behind what was there; only
    the oldest text may have been dropped, and only after the numbered files
    were full. *)
Theorem log_lines_reach_file {va} (vasprintf : cstr -> va -> option cstr) colorize con M f lf rs :
  log_ok M lf -> 0 <= level lf < Log.AGC_LOG_INVALID -> Forall (fun r => LogProof.op_ok (LogProof.OPrint r)) rs ->
  Forall (fun n => message M (Log.n_data n)) (wanted vasprintf (level lf) rs) -> Z.of_nat (length rs) <= Log.AGC_LOG_QUEUE_LEN ->
  exists s calls lf' lost,
    LogProof.run vasprintf (LogProof.System (Log.agc_log_init colorize (Log.log_start con)) false)
      (LogProof.OBind f (level lf) false :: (LogProof.OPrint <$> rs) ++ replicate (length rs) LogProof.OTurn) = Ok (s, calls) /\
    feed f calls lf = Ok lf' /\
    kept lf ++ concat (Log.n_data <$> wanted vasprintf (level lf) rs) = lost ++ kept lf' /\
    (lost = [] \/ full lf').
Proof.
  intros Hok Hlv Hrs Hms Hlen. set (ns := wanted vasprintf (level lf) rs) in *.
  assert (length ns <= length rs)%nat as Hns by apply wanted_length.
  assert (Forall (fun n => Log.n_level n <= level lf /\ Log.n_userdata n = None /\ message M (Log.n_data n)) ns) as Hall.
  { rewrite Forall_forall in Hms |- *. intros n Hn. pose proof (Hms n Hn) as Hm. unfold ns, wanted in Hn.
    apply list_elem_of_omap in Hn as (r & _ & E). destruct (Log.r_level r <=? level lf) eqn:El; [|done].
    apply message_of_fields in E as [-> ->]. split_and!; [lia|done|done]. }
  destruct (LogProof.run_refines vasprintf
    (LogProof.OBind f (level lf) false :: (LogProof.OPrint <$> rs) ++ replicate (length rs) LogProof.OTurn)) with
    (s := LogProof.System (Log.agc_log_init colorize (Log.log_start con)) false) (sp := LogProof.Spec [] 0 [] LogProof.Awake) as (s & Hr & _).
  { constructor; [exact Hlv|]. apply Forall_app. split; [by apply Forall_fmap|]. apply Forall_replicate. exact I. }
  { apply LogProof.agrees_start. }
  assert (snd (LogProof.spec_run vasprintf (LogProof.Spec [] 0 [] LogProof.Awake)
    (LogProof.OBind f (level lf) false :: (LogProof.OPrint <$> rs) ++ replicate (length rs) LogProof.OTurn)) =
    (fun n => Log.Call f n (Log.n_level n)) <$> ns) as Hcalls.
  { cbn [LogProof.spec_run LogProof.spec1 LogProof.loggers LogProof.highest LogProof.pending LogProof.thread app].
    rewrite spec_run_app, spec_prints by (cbn; done || lia). cbn [LogProof.loggers LogProof.highest LogProof.pending app].
    match goal with |- context [LogProof.spec_run vasprintf ?sp (replicate ?k _)] =>
      pose proof (LogProof.spec_turns vasprintf sp k ltac:(done)) as [_ Ht]; destruct (LogProof.spec_run vasprintf sp _) as [sp2 c2] end.
    cbn [snd app LogProof.loggers LogProof.pending] in Ht |- *. rewrite Ht.
    rewrite Z.max_r by lia. fold ns. rewrite take_ge by done. clear -Hall. induction Hall as [|n ns [Hn _] _ IH]; [done|].
    cbn [fmap list_fmap concat]. unfold LogProof.handed at 1. rewrite filter_cons, decide_True by done. cbn [app fmap list_fmap filter list_filter]. f_equal. exact IH. }
  rewrite Hcalls in Hr.
  destruct (log_all_ok M (Log.n_data <$> ns)) with (l := lf) as (lf' & d & Hw & _ & _ & Hk & Hd & _); [by apply Forall_fmap|done|].
  exists s, ((fun n => Log.Call f n (Log.n_level n)) <$> ns), lf', d. split_and!; try done.
  by rewrite (feed_writes M).
Qed.

Lemma log_lines_reach_file_witness :
  exists s calls lf' lost,
    LogProof.run no_args (LogProof.System (Log.agc_log_init false (Log.log_start None)) false)
      (LogProof.OBind 9 7 false :: (LogProof.OPrint <$> [demo_request 4 "x"]) ++ replicate 1 LogProof.OTurn) = Ok (s, calls) /\
    feed 9 calls demo_log = Ok lf' /\
    kept demo_log ++ concat (Log.n_data <$> wanted no_args 7 [demo_request 4 "x"]) = lost ++ kept lf' /\ (lost = [] \/ full lf').
Proof.
  apply (log_lines_reach_file no_args false None 100 9 demo_log
    [demo_request 4 "x"]).
  - apply (log_ok_weaken 4); [apply demo_log_ok|lia|vm_compute; done].
  - done.
  - by repeat constructor.
  - repeat constructor; vm_compute; discriminate.
  - done.
Defined.
