(* ===== verification/Connection.v ===== *)
(** * Connections and the driver interface

    [src/src/agc_connection.c] and [src/src/agc_driver.c]: connections and
    listening sockets as blocks of a memory pool, and the indirection through
    which a driver module serves them.  A routine lives and dies with its
    connection, so it is a field of it. *)

From stdpp Require Import base gmap list fin_maps.
From Stdlib Require Import ZArith Lia.
From S2P Require Import Prelude Event.

Module Conn.
Import Ev.

Definition LIMIT_CONNECTIONS : Z := 1000000.

(** [struct agc_routine_s]: the handlers by their addresses. *)
Record agc_routine := Routine {
  active : bool;
  read_handle : option Z;
  write_handle : option Z;
  err_handle : option Z }.

(** [struct agc_connection_s] *)
Record agc_connection := Connection {
  context : Z;
  routine : option agc_routine;
  fd : Z;
  listening : option Z;
  pool : Z;
  sockaddr : list Z;
  thread_index : Z;
  id : Z }.

(** [struct agc_listening_s] *)
Record agc_listening := Listening {
  l_fd : Z;
  l_sockaddr : list Z;
  l_handler : option Z;
  l_pool : Z }.

Record heap := Heap {
  connections : gmap Z agc_connection;
  listenings : gmap Z agc_listening;
  next_ptr : Z;
  genid : Z }.

Definition with_connections cs h := Heap cs (listenings h) (next_ptr h) (genid h).

Definition next_id (h : heap) : heap * Z :=
  let g := if LIMIT_CONNECTIONS <? genid h then 0 else genid h in
  (Heap (connections h) (listenings h) (next_ptr h) (g + 1), g).

Definition agc_conn_create_listening (s : Z) (addr : list Z) (p : Z) (handler : option Z) (h : heap) : heap * Z :=
  (Heap (connections h) (<[next_ptr h := Listening s addr handler p]> (listenings h)) (next_ptr h + 1) (genid h), next_ptr h).

(** A fresh connection block; the memory of a pool is cleared. *)
Definition new_connection (c : Z -> agc_connection) (h : heap) : heap * Z :=
  let (h, i) := next_id h in
  (Heap (<[next_ptr h := c i]> (connections h)) (listenings h) (next_ptr h + 1) (genid h), next_ptr h).

Definition agc_conn_create_connection (s : Z) (addr : list Z) (p ctx : Z) (read write err : option Z) (h : heap) : heap * Z :=
  new_connection (fun i => Connection ctx (Some (Routine false read write err)) s None p addr 0 i) h.

(** The connection of a listening socket, in the pool of that socket. *)
Definition agc_conn_get_connection (l : Z) (h : heap) : result (heap * option Z) :=
  match listenings h !! l with
  | None => Fault BadPointer
  | Some ls =>
      if l_fd ls =? -1 then Ok (h, None)
      else
        let (h, p) := new_connection (fun i => Connection 0 (Some (Routine false None None None)) (l_fd ls) (Some l) (l_pool ls) (l_sockaddr ls) 0 i) h in
        Ok (h, Some p)
  end.

(** Destroying a pool frees everything allocated from it. *)
Definition destroy_pool (p : Z) (h : heap) : heap :=
  Heap (filter (fun x => pool (snd x) <> p) (connections h)) (filter (fun x => l_pool (snd x) <> p) (listenings h)) (next_ptr h) (genid h).

Definition agc_free_connection (c : option Z) (h : heap) : result heap :=
  match c with
  | None => Ok h
  | Some c => match connections h !! c with None => Fault BadFree | Some k => Ok (destroy_pool (pool k) h) end
  end.

(** The field updates a driver makes through a pointer to a connection. *)
Definition set_active (b : bool) (k : agc_connection) : result agc_connection :=
  match routine k with
  | None => Fault BadPointer
  | Some r => Ok (Connection (context k) (Some (Routine b (read_handle r) (write_handle r) (err_handle r))) (fd k) (listening k) (pool k) (sockaddr k) (thread_index k) (id k))
  end.
Definition set_index (i : Z) (k : agc_connection) : agc_connection :=
  Connection (context k) (routine k) (fd k) (listening k) (pool k) (sockaddr k) i (id k).

(** ** The driver interface *)

(** [agc_routine_actions_t], on a state of the driver's. *)
Record agc_routine_actions (S : Type) := Actions {
  add : option Z -> Z -> S -> result (S * agc_status);
  del : option Z -> Z -> S -> result (S * agc_status);
  add_conn : option Z -> S -> result (S * agc_status);
  del_conn : option Z -> S -> result (S * agc_status) }.
Arguments add {S}. Arguments del {S}. Arguments add_conn {S}. Arguments del_conn {S}.

Section driver.
Context {S : Type}.

(** The static [routine] of [agc_driver.c]. *)
Definition driver := option (agc_routine_actions S).

Definition agc_diver_register_routine (a : agc_routine_actions S) (_ : driver) : driver := Some a.

Definition agc_diver_add_connection (d : driver) (c : option Z) (s : S) : result (S * agc_status) :=
  match d with None => Ok (s, AGC_STATUS_GENERR) | Some a => add_conn a c s end.
Definition agc_diver_del_connection (d : driver) (c : option Z) (s : S) : result (S * agc_status) :=
  match d with None => Ok (s, AGC_STATUS_GENERR) | Some a => del_conn a c s end.
Definition agc_diver_add_event (d : driver) (c : option Z) (event : Z) (s : S) : result (S * agc_status) :=
  match d with None => Ok (s, AGC_STATUS_GENERR) | Some a => add a c event s end.
Definition agc_diver_del_event (d : driver) (c : option Z) (event : Z) (s : S) : result (S * agc_status) :=
  match d with None => Ok (s, AGC_STATUS_GENERR) | Some a => del a c event s end.

End driver.

(** ** Identifiers *)

Fixpoint take_ids (n : nat) (h : heap) : list Z :=
  match n with O => [] | S n' => let (h, i) := next_id h in i :: take_ids n' h end.

Lemma take_ids_cycle n : forall h, 0 <= genid h <= LIMIT_CONNECTIONS + 1 ->
  take_ids n h = (fun i => (genid h + Z.of_nat i) mod (LIMIT_CONNECTIONS + 1)) <$> seq 0 n.
Proof.
  induction n as [|n IH]; intros h Hg; cbn [take_ids]; [done|]. unfold LIMIT_CONNECTIONS in *. unfold next_id, LIMIT_CONNECTIONS. change (1000000 + 1) with 1000001 in *.
  cbn [seq fmap list_fmap]. set (g := if 1000000 <? genid h then 0 else genid h).
  assert (0 <= g <= 1000000 /\ g mod 1000001 = genid h mod 1000001) as [Hg1 Hg2].
  { unfold g. destruct (1000000 <? genid h) eqn:E; [|lia]. replace (genid h) with 1000001 by lia. done. }
  cbn [fst snd]. rewrite IH by (cbn; lia). cbn [genid]. f_equal.
  - rewrite Z.add_0_r. rewrite <- (Z.mod_small g 1000001) by lia. by rewrite Hg2.
  - rewrite <- fmap_S_seq, <- list_fmap_compose. apply list_fmap_ext. intros _ i _. cbn.
    rewrite <- Zplus_mod_idemp_l, <- (Zplus_mod_idemp_l (genid h)). rewrite <- Hg2, !Zplus_mod_idemp_l. f_equal. lia.
Qed.

End Conn.

Import Conn.

(** The identifiers of connections repeat only after all of [0] to
    [LIMIT_CONNECTIONS] have been given out: of any window of that many
    connections no two have the same, and none is outside that range. *)
Theorem agc_conn_ids_distinct h n : 0 <= genid h <= LIMIT_CONNECTIONS + 1 -> Z.of_nat n <= LIMIT_CONNECTIONS + 1 ->
  NoDup (take_ids n h) /\ Forall (fun i => 0 <= i <= LIMIT_CONNECTIONS) (take_ids n h).
Proof.
  intros Hg Hn. rewrite take_ids_cycle by done. unfold LIMIT_CONNECTIONS in *. split.
  - apply NoDup_fmap_2_strong; [|apply NoDup_seq]. intros i j Hi%elem_of_seq Hj%elem_of_seq He.
    assert ((Z.of_nat i - Z.of_nat j) mod (1000000 + 1) = 0) as Hz.
    { replace (Z.of_nat i - Z.of_nat j) with (genid h + Z.of_nat i - (genid h + Z.of_nat j)) by lia.
      rewrite Zminus_mod, He, Z.sub_diag. done. }
    apply Z.mod_divide in Hz as [k Hk]; [|lia]. assert (k = 0) as -> by nia. lia.
  - apply Forall_fmap, Forall_forall. intros i _. cbn. pose proof (Z.mod_pos_bound (genid h + Z.of_nat i) (1000000 + 1)). lia.
Qed.

Lemma agc_conn_ids_distinct_witness :
  NoDup (take_ids 3 (Heap ∅ ∅ 1 1000000)) /\ Forall (fun i => 0 <= i <= LIMIT_CONNECTIONS) (take_ids 3 (Heap ∅ ∅ 1 1000000)).
Proof. apply (agc_conn_ids_distinct (Heap ∅ ∅ 1 1000000) 3); unfold LIMIT_CONNECTIONS; cbn; lia. Defined.
