(* ===== verification/Epoll.v ===== *)
(** * The epoll driver

    [src/src/mod/drivers/mod_epoll/mod_epoll.c]: registering connections with
    the dispatchers and handing their events to the handlers.  An epoll
    instance is a map from descriptors to the events waited for and the
    connection behind them, with the documented errors of [epoll_ctl]; what
    the handlers do is a parameter of the dispatcher. *)

From stdpp Require Import base gmap list fin_maps.
From Stdlib Require Import ZArith Lia.
From S2P Require Import Prelude Event Connection.

Module Epoll.
Import Ev Conn.

Definition EPOLLIN : Z := 0x1.
Definition EPOLLOUT : Z := 0x4.
Definition EPOLLERR : Z := 0x8.
Definition EPOLLHUP : Z := 0x10.
Definition EPOLLRDHUP : Z := 0x2000.
Definition AGC_READ_EVENT : Z := Z.lor EPOLLIN EPOLLRDHUP.
Definition AGC_WRITE_EVENT : Z := EPOLLOUT.

Record epoll_event := EpollEvent { events : Z; ptr : Z }.

(** The connections and the instances of [EPOLLFDS], one for each dispatcher. *)
Record state := State { hp : heap; EPOLLFDS : list (gmap Z epoll_event) }.

Inductive ctl := EPOLL_CTL_ADD | EPOLL_CTL_MOD | EPOLL_CTL_DEL.

(** [epoll_ctl(EPOLLFDS[index], op, fd, &ee)]: adding a descriptor that is
    there, or changing or removing one that is not, fails, and so does what
    the system refuses ([room]). *)
Definition epoll_ctl (room : bool) (index : Z) (op : ctl) (d : Z) (ee : epoll_event) (s : state) : result (state * bool) :=
  if index <? 0 then Fault OutOfBounds
  else
    match EPOLLFDS s !! Z.to_nat index with
    | None => Fault OutOfBounds
    | Some m =>
        let set m := State (hp s) (<[Z.to_nat index := m]> (EPOLLFDS s)) in
        match op, m !! d with
        | EPOLL_CTL_ADD, None => if room then Ok (set (<[d := ee]> m), true) else Ok (s, false)
        | EPOLL_CTL_MOD, Some _ => if room then Ok (set (<[d := ee]> m), true) else Ok (s, false)
        | EPOLL_CTL_DEL, Some _ => Ok (set (delete d m), true)
        | _, _ => Ok (s, false)
        end
    end.

(** Reading and writing the connection at [c]. *)
Definition get_conn (c : Z) (s : state) : result agc_connection :=
  match connections (hp s) !! c with None => Fault BadPointer | Some k => Ok k end.
Definition put_conn (c : Z) (k : agc_connection) (s : state) : state :=
  State (with_connections (<[c := k]> (connections (hp s))) (hp s)) (EPOLLFDS s).
Definition mark (c : Z) (b : bool) (s : state) : result state :=
  let! k := get_conn c s in
  let! k := set_active b k in
  Ok (put_conn c k s).

Definition is_active (k : agc_connection) : bool := match routine k with Some r => active r | None => false end.

(** The event that is kept beside [event]. *)
Definition other (event : Z) : Z := if event =? AGC_READ_EVENT then EPOLLOUT else Z.lor EPOLLIN EPOLLRDHUP.

Section actions.
(** The result of [rand() % EPOLL_MAX_DISPATCHER], and what the system refuses. *)
Context (random : Z) (room : bool).

Definition agc_epoll_add_connection (c : option Z) (s : state) : result (state * agc_status) :=
  match c with
  | None => Fault BadPointer
  | Some c =>
      let! k := get_conn c s in
      let! (s, ok) := epoll_ctl room random EPOLL_CTL_ADD (fd k) (EpollEvent (Z.lor EPOLLIN EPOLLRDHUP) c) s in
      if negb ok then Ok (s, AGC_STATUS_GENERR)
      else
        let! s := mark c true s in
        let! k := get_conn c s in
        Ok (put_conn c (set_index random k) s, AGC_STATUS_SUCCESS)
  end.

Definition agc_epoll_del_connection (c : option Z) (s : state) : result (state * agc_status) :=
  match c with
  | None => Fault Assertion
  | Some c =>
      let! k := get_conn c s in
      let! s := mark c false s in
      let! (s, ok) := epoll_ctl room (thread_index k) EPOLL_CTL_DEL (fd k) (EpollEvent 0 0) s in
      Ok (s, if ok then AGC_STATUS_SUCCESS else AGC_STATUS_GENERR)
  end.

Definition agc_epoll_add_event (c : option Z) (event : Z) (s : state) : result (state * agc_status) :=
  match c with
  | None => Ok (s, AGC_STATUS_GENERR)
  | Some c =>
      let! k := get_conn c s in
      match routine k with
      | None => Ok (s, AGC_STATUS_GENERR)
      | Some r =>
          let op := if active r then EPOLL_CTL_MOD else EPOLL_CTL_ADD in
          let evs := if active r then Z.lor event (other event) else event in
          let index := if active r then thread_index k else random in
          let! (s, ok) := epoll_ctl room index op (fd k) (EpollEvent evs c) s in
          let! s := mark c ok s in
          Ok (s, if ok then AGC_STATUS_SUCCESS else AGC_STATUS_GENERR)
      end
  end.

Definition agc_epoll_del_event (c : option Z) (event : Z) (s : state) : result (state * agc_status) :=
  match c with
  | None => Ok (s, AGC_STATUS_GENERR)
  | Some c =>
      let! k := get_conn c s in
      match routine k with
      | None => Ok (s, AGC_STATUS_GENERR)
      | Some r =>
          if active r then
            let! (s, ok) := epoll_ctl room (thread_index k) EPOLL_CTL_MOD (fd k) (EpollEvent (other event) c) s in
            Ok (s, if ok then AGC_STATUS_SUCCESS else AGC_STATUS_GENERR)
          else Ok (s, AGC_STATUS_SUCCESS)
      end
  end.

Definition agc_epoll_routine : agc_routine_actions state :=
  Actions state agc_epoll_add_event agc_epoll_del_event agc_epoll_add_connection agc_epoll_del_connection.

End actions.

(** [mod_epoll_load]: the number of dispatchers, and their empty instances. *)
Definition EPOLL_MAX_DISPATCHER (cpus : Z) : Z :=
  let n := cpus / 2 + 1 in if n <? 2 then 2 else n.
Definition agc_epoll_launch_dispatch_threads (cpus : Z) (h : heap) : state :=
  State h (replicate (Z.to_nat (EPOLL_MAX_DISPATCHER cpus)) ∅).

(** ** Dispatching *)

Section dispatch.
(** What the handler at an address does with a connection. *)
Context (handle : Z -> Z -> state -> result state).

Definition has (flags e : Z) : bool := negb (Z.land flags e =? 0).

(** A handler is called and the descriptor of the connection is logged behind it. *)
Definition call_handler (h c : Z) (s : state) : result (state * list (Z * Z)) :=
  let! s := handle h c s in
  let! _ := get_conn c s in
  Ok (s, [(h, c)]).

(** One event of a connection that is not a listening socket: reading, then
    writing; the routine is looked at again in between. *)
Definition read_event (flags c : Z) (r : agc_routine) (s : state) : result (state * list (Z * Z)) :=
  match read_handle r with
  | Some h => if has flags EPOLLIN && active r then call_handler h c s else Ok (s, [])
  | None => Ok (s, [])
  end.
Definition write_event (flags c : Z) (s : state) : result (state * list (Z * Z)) :=
  if negb (has flags EPOLLOUT) then Ok (s, [])
  else
    let! k := get_conn c s in
    match routine k with
    | Some (Routine true _ (Some h) _) => call_handler h c s
    | _ => Ok (s, [])
    end.

(** The body of the loop over the events of [epoll_wait], with the handlers called. *)
Definition dispatch_one (e : epoll_event) (s : state) : result (state * list (Z * Z)) :=
  let c := ptr e in
  let! k := get_conn c s in
  if fd k =? -1 then Ok (s, [])
  else
    match listening k with
    | Some l =>
        match listenings (hp s) !! l with
        | None => Fault BadPointer
        | Some ls =>
            match l_handler ls with
            | Some h => if has (events e) EPOLLIN then call_handler h c s else Ok (s, [])
            | None => Ok (s, [])
            end
        end
    | None =>
        match routine k with
        | None => Ok (s, [])
        | Some r =>
            if negb (active r) then Ok (s, [])
            else
              let flags := if has (events e) (Z.lor EPOLLERR EPOLLHUP) then Z.lor (events e) (Z.lor EPOLLIN EPOLLOUT) else events e in
              let! (s, c1) := read_event flags c r s in
              let! (s, c2) := write_event flags c s in
              Ok (s, c1 ++ c2)
        end
    end.

(** The events [epoll_wait] has returned, in their order. *)
Fixpoint agc_epoll_dispatch_event (es : list epoll_event) (s : state) : result (state * list (Z * Z)) :=
  match es with
  | [] => Ok (s, [])
  | e :: es' =>
      let! (s, c1) := dispatch_one e s in
      let! (s, c2) := agc_epoll_dispatch_event es' s in
      Ok (s, c1 ++ c2)
  end.

End dispatch.
End Epoll.
