(* ===== verification/EpollProof.v ===== *)
(** * The epoll driver: who is registered where

    As long as connections are registered with [agc_diver_add_connection]
    first, each is registered with one dispatcher, for the events a table says,
    and no dispatcher knows a connection that is gone, also when the system
    refuses what it is asked for.  Registering one with [agc_diver_add_event]
    instead loses track of the dispatcher. *)

From stdpp Require Import base gmap list fin_maps.
From Stdlib Require Import ZArith Lia.
From S2P Require Import Prelude Event Connection Epoll.

Module EpollProof.
Import Ev Conn Epoll.

(** ** Registration *)

Record reg_ok (s : state) : Prop := RegOk {
  ro_live : forall i m d ee, EPOLLFDS s !! i = Some m -> m !! d = Some ee ->
    exists k, connections (hp s) !! ptr ee = Some k /\ fd k = d /\ thread_index k = Z.of_nat i;
  ro_active : forall c k, connections (hp s) !! c = Some k -> is_active k = true ->
    exists i m ee, thread_index k = Z.of_nat i /\ EPOLLFDS s !! i = Some m /\ m !! fd k = Some ee /\ ptr ee = c;
  ro_fd : forall c1 c2 k1 k2, connections (hp s) !! c1 = Some k1 -> connections (hp s) !! c2 = Some k2 -> fd k1 = fd k2 -> c1 = c2;
  ro_pool : forall c1 c2 k1 k2, connections (hp s) !! c1 = Some k1 -> connections (hp s) !! c2 = Some k2 -> pool k1 = pool k2 -> c1 = c2;
  ro_routine : forall c k, connections (hp s) !! c = Some k -> is_Some (routine k);
  ro_ptr : forall c k, connections (hp s) !! c = Some k -> c < next_ptr (hp s) }.

(** What is seen of a connection: its descriptor, its pool, whether it counts
    as active, and the events its dispatcher waits for. *)
Definition interest (s : state) (k : agc_connection) : option Z :=
  m ← EPOLLFDS s !! Z.to_nat (thread_index k); events <$> m !! fd k.
Definition view (s : state) (c : Z) : option (Z * Z * bool * option Z) :=
  (fun k => (fd k, pool k, is_active k, interest s k)) <$> connections (hp s) !! c.

(** A connection and its registration with one dispatcher change together. *)
Definition updated (s : state) (c : Z) (k : agc_connection) (i : nat) (m : gmap Z epoll_event) (x : option epoll_event) : state :=
  State (with_connections (<[c := k]> (connections (hp s))) (hp s)) (<[i := partial_alter (fun _ => x) (fd k) m]> (EPOLLFDS s)).

Record update_ok (s : state) (c : Z) (k k' : agc_connection) (i : nat) (m : gmap Z epoll_event) (x : option epoll_event) : Prop := UpdateOk {
  up_conn : connections (hp s) !! c = Some k;
  up_same : fd k' = fd k /\ pool k' = pool k /\ is_Some (routine k');
  up_map : EPOLLFDS s !! i = Some m;
  up_old : forall j m2, EPOLLFDS s !! j = Some m2 -> is_Some (m2 !! fd k) -> j = i;
  up_new : is_Some x -> thread_index k' = Z.of_nat i;
  up_some : is_active k' = true -> is_Some x;
  up_ptr : forall ee, x = Some ee -> ptr ee = c }.

Section update.
Context (s : state) (c : Z) (k k' : agc_connection) (i : nat) (m : gmap Z epoll_event) (x : option epoll_event).
Context (Hok : reg_ok s) (Hup : update_ok s c k k' i m x).

Lemma updated_fds j m' : EPOLLFDS (updated s c k' i m x) !! j = Some m' ->
  (j = i /\ m' = partial_alter (fun _ => x) (fd k) m) \/ (j <> i /\ EPOLLFDS s !! j = Some m').
Proof.
  destruct Hup as [_ (Hfd & _) Hm _ _ _ _]. cbn. rewrite Hfd. intros H. destruct (decide (j = i)) as [->|Hne].
  - left. rewrite list_lookup_insert_eq in H by (by eapply lookup_lt_Some). by injection H as <-.
  - right. by rewrite list_lookup_insert_ne in H by done.
Qed.

(** Another connection is not registered under the descriptor of this one. *)
Lemma other_fd c2 k2 : connections (hp s) !! c2 = Some k2 -> c2 <> c -> fd k2 <> fd k.
Proof. intros H Hne He. apply Hne. eapply (ro_fd s Hok); [exact H|exact (up_conn _ _ _ _ _ _ _ Hup)|exact He]. Qed.

Lemma updated_other c2 k2 j m2 : connections (hp s) !! c2 = Some k2 -> c2 <> c -> EPOLLFDS s !! j = Some m2 ->
  exists m2', EPOLLFDS (updated s c k' i m x) !! j = Some m2' /\ m2' !! fd k2 = m2 !! fd k2.
Proof.
  intros Hc2 Hne Hj. destruct Hup as [_ (Hfd & _) Hm _ _ _ _]. cbn. rewrite Hfd. destruct (decide (j = i)) as [->|Hij].
  - rewrite list_lookup_insert_eq by (by eapply lookup_lt_Some). eexists. split; [done|].
    rewrite Hm in Hj. injection Hj as <-. apply lookup_partial_alter_ne. intros E. by apply (other_fd c2 k2 Hc2 Hne).
  - rewrite list_lookup_insert_ne by done. by eauto.
Qed.

Lemma updated_ok : reg_ok (updated s c k' i m x).
Proof.
  pose proof Hup as [Hc (Hfd & Hpool & Hrt) Hm Hold Hnew Hsome Hptr].
  assert (forall c2, c2 <> c -> connections (hp (updated s c k' i m x)) !! c2 = connections (hp s) !! c2) as Hoth.
  { intros c2 Hne. cbn. by rewrite lookup_insert_ne. }
  assert (connections (hp (updated s c k' i m x)) !! c = Some k') as Hself by (cbn; by rewrite lookup_insert_eq).
  assert (forall (P : agc_connection -> Prop) c2 k2, P k' -> (forall k2, connections (hp s) !! c2 = Some k2 -> P k2) ->
    connections (hp (updated s c k' i m x)) !! c2 = Some k2 -> P k2) as Hany.
  { intros P c2 k2 H1 H2 H. destruct (decide (c2 = c)) as [->|Hne]; [rewrite Hself in H; by injection H as <-|].
    rewrite Hoth in H by done. by apply H2. }
  assert (forall c2 k2, connections (hp (updated s c k' i m x)) !! c2 = Some k2 ->
    exists k0, connections (hp s) !! c2 = Some k0 /\ fd k2 = fd k0 /\ pool k2 = pool k0) as Hback.
  { intros c2 k2 H. destruct (decide (c2 = c)) as [->|Hne]; [rewrite Hself in H; injection H as <-; eauto|].
    rewrite Hoth in H by done. by eauto. }
  split.
  - intros j m' d ee Hj Hd. apply updated_fds in Hj as [[-> ->]|[Hne Hj]].
    + destruct (decide (d = fd k)) as [->|Hdk].
      * rewrite lookup_partial_alter_eq in Hd. rewrite (Hptr ee Hd). exists k'. rewrite Hself.
        split_and!; [done|done|]. apply Hnew. by eexists.
      * rewrite lookup_partial_alter_ne in Hd by done. destruct (ro_live s Hok i m d ee Hm Hd) as (k2 & Hk2 & Hf & Ha).
        exists k2. rewrite Hoth; [done|]. intros E. rewrite E, Hc in Hk2. injection Hk2 as <-. by rewrite Hf in Hdk.
    + destruct (ro_live s Hok j m' d ee Hj Hd) as (k2 & Hk2 & Hf & Ht). exists k2. rewrite Hoth; [done|].
      intros E. rewrite E, Hc in Hk2. injection Hk2 as <-. apply Hne, (Hold j m' Hj). rewrite Hf. by eexists.
  - intros c2 k2 H2 Ha. destruct (decide (c2 = c)) as [->|Hne].
    + rewrite Hself in H2. injection H2 as <-. destruct (Hsome Ha) as [ee Hx].
      exists i, (partial_alter (fun _ => x) (fd k') m), ee. split_and!; [apply Hnew; by eexists| |..].
      * cbn. apply list_lookup_insert_eq. by eapply lookup_lt_Some.
      * by rewrite lookup_partial_alter_eq.
      * by apply Hptr.
    + rewrite Hoth in H2 by done. destruct (ro_active s Hok c2 k2 H2 Ha) as (j & m2 & ee & Ht & Hj & Hm2 & Hp).
      destruct (updated_other c2 k2 j m2 H2 Hne Hj) as (m2' & Hj' & He). exists j, m2', ee. by rewrite He.
  - intros c1 c2 k1 k2 (k01 & H1 & -> & _)%Hback (k02 & H2 & -> & _)%Hback. by eapply (ro_fd s Hok).
  - intros c1 c2 k1 k2 (k01 & H1 & _ & ->)%Hback (k02 & H2 & _ & ->)%Hback. by eapply (ro_pool s Hok).
  - intros c2 k2. apply (Hany (fun k => is_Some (routine k))); [done|]. intros k0. apply (ro_routine s Hok).
  - intros c2 k2 (k0 & H & _)%Hback. cbn. by eapply (ro_ptr s Hok).
Qed.

Lemma updated_view c2 : view (updated s c k' i m x) c2 =
  if decide (c2 = c) then Some (fd k, pool k, is_active k', events <$> x) else view s c2.
Proof.
  pose proof Hup as [Hc (Hfd & Hpool & Hrt) Hm Hold Hnew Hsome Hptr]. case_decide as E.
  - subst c2. unfold view, interest. cbn [updated hp with_connections connections]. rewrite lookup_insert_eq. cbn [fmap option_fmap option_map].
    rewrite Hfd, Hpool. f_equal. f_equal. change (State _ _) with (updated s c k' i m x).
    destruct (decide (is_Some x)) as [Hx|Hx%eq_None_not_Some]; [rewrite Hnew, Nat2Z.id by done|].
    + cbn [EPOLLFDS updated]. rewrite Hfd, list_lookup_insert_eq by (by eapply lookup_lt_Some).
      cbn [mbind option_bind]. by rewrite lookup_partial_alter_eq.
    + destruct (EPOLLFDS (updated s c k' i m x) !! Z.to_nat (thread_index k')) as [m2|] eqn:E2; [|by rewrite Hx]. cbn [mbind option_bind]. apply updated_fds in E2 as [[_ ->]|[Hj E2]]; [by rewrite lookup_partial_alter_eq, Hx|]. rewrite Hx.
      destruct (m2 !! fd k) eqn:E3; [|done]. destruct Hj. apply (Hold _ _ E2). by eexists.
  - unfold view. cbn [updated hp with_connections connections]. rewrite lookup_insert_ne by done.
    destruct (connections (hp s) !! c2) as [k2|] eqn:E2; [|done]. cbn [fmap option_fmap option_map]. f_equal. f_equal.
    unfold interest. change (State _ _) with (updated s c k' i m x).
    destruct (EPOLLFDS s !! Z.to_nat (thread_index k2)) as [m2|] eqn:Ej.
    + destruct (updated_other c2 k2 _ m2 E2 E Ej) as (m2' & -> & He). cbn [mbind option_bind]. by rewrite He.
    + destruct (EPOLLFDS (updated s c k' i m x) !! _) as [m2|] eqn:Ej'; [|done]. exfalso.
      apply updated_fds in Ej' as [[Hi _]|[_ Ej']]; [rewrite Hi in Ej|]; congruence.
Qed.

End update.

(** ** The actions *)

Definition activated (b : bool) (r : agc_routine) (k : agc_connection) : agc_connection :=
  Connection (context k) (Some (Routine b (read_handle r) (write_handle r) (err_handle r))) (fd k) (listening k) (pool k)
    (sockaddr k) (thread_index k) (id k).

Lemma mark_ok c b s k r : connections (hp s) !! c = Some k -> routine k = Some r ->
  mark c b s = Ok (put_conn c (activated b r k) s).
Proof. intros Hc Hr. unfold mark, get_conn, set_active. rewrite Hc. cbn [rbind]. by rewrite Hr. Qed.

(** What an action has done to the registration of [c]. *)
Definition acted (s : state) (c : Z) (k : agc_connection) (b : bool) (x : option Z) (st : agc_status) (o : result (state * agc_status)) : Prop :=
  exists s', o = Ok (s', st) /\ reg_ok s' /\ length (EPOLLFDS s') = length (EPOLLFDS s) /\
    next_ptr (hp s') = next_ptr (hp s) /\
    forall c2, view s' c2 = if decide (c2 = c) then Some (fd k, pool k, b, x) else view s c2.

Lemma acted_update s c k k' i m x st : reg_ok s -> update_ok s c k k' i m x ->
  acted s c k (is_active k') (events <$> x) st (Ok (updated s c k' i m x, st)).
Proof.
  intros Hok Hup. eexists. split; [done|]. split; [by eapply updated_ok|]. split; [cbn; apply length_insert|].
  split; [done|]. by apply updated_view.
Qed.

Section acting.
Context (s : state) (c : Z) (k : agc_connection) (Hok : reg_ok s) (Hc : connections (hp s) !! c = Some k).

(** A dispatcher that knows the descriptor is the one of the connection. *)
Lemma registered_at i m : EPOLLFDS s !! i = Some m -> is_Some (m !! fd k) -> thread_index k = Z.of_nat i /\ interest s k = events <$> m !! fd k.
Proof.
  intros Hm [ee E]. destruct (ro_live s Hok i m _ ee Hm E) as (k2 & H2 & Hf & Ht).
  assert (ptr ee = c) as Hp by (by eapply (ro_fd s Hok)). rewrite Hp, Hc in H2. injection H2 as <-. split; [done|].
  unfold interest. by rewrite Ht, Nat2Z.id, Hm.
Qed.

Lemma unregistered_absent i m : interest s k = None -> EPOLLFDS s !! i = Some m -> m !! fd k = None.
Proof.
  intros Ha Hm. destruct (m !! fd k) as [ee|] eqn:E; [|done].
  destruct (registered_at i m Hm) as [_ Hi]; [by eexists|]. rewrite E, Ha in Hi. done.
Qed.

Lemma unchanged st : acted s c k (is_active k) (interest s k) st (Ok (s, st)).
Proof.
  exists s. split_and!; try done. intros c2. case_decide; [|done]. subst. unfold view. by rewrite Hc.
Qed.

Lemma add_connection_ok i : interest s k = None -> (i < length (EPOLLFDS s))%nat ->
  acted s c k true (Some AGC_READ_EVENT) AGC_STATUS_SUCCESS (agc_epoll_add_connection (Z.of_nat i) true (Some c) s) /\
  acted s c k (is_active k) None AGC_STATUS_GENERR (agc_epoll_add_connection (Z.of_nat i) false (Some c) s).
Proof.
  intros Ha Hi. destruct (lookup_lt_is_Some_2 _ _ Hi) as [m Hm]. destruct (ro_routine s Hok c k Hc) as [r Hr].
  unfold agc_epoll_add_connection, epoll_ctl, get_conn. rewrite Hc. cbn [rbind].
  rewrite (proj2 (Z.ltb_ge _ _)) by lia. rewrite Nat2Z.id, Hm, (unregistered_absent i m Ha Hm). cbn [rbind negb].
  split; [|rewrite <- Ha; apply unchanged].
  erewrite mark_ok by done. cbn [rbind]. unfold put_conn. cbn [hp with_connections connections].
  rewrite lookup_insert_eq. cbn [rbind].
  change (Some AGC_READ_EVENT) with (events <$> Some (EpollEvent AGC_READ_EVENT c)).
  assert (State (with_connections (<[c := set_index (Z.of_nat i) (activated true r k)]> (<[c := activated true r k]> (connections (hp s))))
    (with_connections (<[c := activated true r k]> (connections (hp s))) (hp s)))
    (<[i := <[fd k := EpollEvent (Z.lor EPOLLIN EPOLLRDHUP) c]> m]> (EPOLLFDS s)) =
    updated s c (set_index (Z.of_nat i) (activated true r k)) i m (Some (EpollEvent AGC_READ_EVENT c))) as E.
  { unfold updated, with_connections. cbn. by rewrite insert_insert_eq. }
  cbn [EPOLLFDS]. rewrite E. apply (acted_update s c k (set_index (Z.of_nat i) (activated true r k)) i m (Some _)); [done|]. split; try done; [|by intros ? [= <-]].
  intros j m2 Hj Hd. rewrite (unregistered_absent j m2 Ha Hj) in Hd. by destruct Hd.
Qed.

Lemma active_at : is_active k = true -> exists i m ee r, thread_index k = Z.of_nat i /\ EPOLLFDS s !! i = Some m /\
  m !! fd k = Some ee /\ ptr ee = c /\ routine k = Some r /\ active r = true.
Proof.
  intros Ha. destruct (ro_active s Hok c k Hc Ha) as (i & m & ee & Ht & Hm & He & Hp).
  destruct (ro_routine s Hok c k Hc) as [r Hr]. exists i, m, ee, r. unfold is_active in Ha. rewrite Hr in Ha. done.
Qed.

(** The connection as it is, written back. *)
Lemma put_same r : routine k = Some r -> active r = true -> activated true r k = k.
Proof. intros Hr Ha. unfold activated. rewrite <- Ha. destruct k as [? ? ? ? ? ? ? ?]. cbn in *. subst. by destruct r. Qed.

(** A registered connection stays with its dispatcher. *)
Lemma update_registered k' i m x : thread_index k = Z.of_nat i -> EPOLLFDS s !! i = Some m ->
  fd k' = fd k -> pool k' = pool k -> is_Some (routine k') -> thread_index k' = thread_index k ->
  (is_active k' = true -> is_Some x) -> (forall ee, x = Some ee -> ptr ee = c) -> update_ok s c k k' i m x.
Proof.
  intros Ht Hm H1 H2 H3 H4 H5 H6. split; try done; [|by rewrite H4].
  intros j m2 Hj Hd. destruct (registered_at j m2 Hj Hd) as [Hj' _]. lia.
Qed.

Lemma add_event_ok rnd event : is_active k = true ->
  acted s c k true (Some (Z.lor event (other event))) AGC_STATUS_SUCCESS (agc_epoll_add_event rnd true (Some c) event s) /\
  acted s c k false (interest s k) AGC_STATUS_GENERR (agc_epoll_add_event rnd false (Some c) event s).
Proof.
  intros Ha. destruct (active_at Ha) as (i & m & ee & r & Ht & Hm & He & Hp & Hr & Har).
  unfold agc_epoll_add_event, epoll_ctl, get_conn. rewrite Hc. cbn [rbind]. rewrite Hr, Har, Ht.
  rewrite (proj2 (Z.ltb_ge _ _)) by lia. rewrite Nat2Z.id, Hm, He. cbn [rbind].
  erewrite !mark_ok by done. cbn [rbind]. rewrite put_same by done. split.
  - pose proof (acted_update s c k k i m (Some (EpollEvent (Z.lor event (other event)) c)) AGC_STATUS_SUCCESS Hok) as H.
    rewrite Ha in H. apply H. apply update_registered; try done; try (by eexists); by intros ? [= <-].
  - destruct (registered_at i m Hm) as [_ ->]; [by eexists|]. rewrite He.
    assert (put_conn c (activated false r k) s = updated s c (activated false r k) i m (Some ee)) as ->.
    { unfold put_conn, updated. f_equal. symmetry. apply list_insert_id. rewrite Hm. f_equal. symmetry. rewrite <- He. apply partial_alter_self. }
    apply (acted_update s c k (activated false r k) i m (Some ee)); [done|]. apply update_registered; try done; try (by eexists); by intros ? [= <-].
Qed.

Lemma del_event_ok event : is_active k = true ->
  acted s c k true (Some (other event)) AGC_STATUS_SUCCESS (agc_epoll_del_event true (Some c) event s) /\
  acted s c k true (interest s k) AGC_STATUS_GENERR (agc_epoll_del_event false (Some c) event s).
Proof.
  intros Ha. destruct (active_at Ha) as (i & m & ee & r & Ht & Hm & He & Hp & Hr & Har).
  unfold agc_epoll_del_event, epoll_ctl, get_conn. rewrite Hc. cbn [rbind]. rewrite Hr, Har, Ht.
  rewrite (proj2 (Z.ltb_ge _ _)) by lia. rewrite Nat2Z.id, Hm, He. cbn [rbind].
  split; [|rewrite <- Ha; apply unchanged].
  assert (State (hp s) (<[i := <[fd k := EpollEvent (other event) c]> m]> (EPOLLFDS s)) =
    updated s c k i m (Some (EpollEvent (other event) c))) as ->.
  { unfold updated, with_connections. rewrite (insert_id (connections (hp s)) c k Hc). by destruct (hp s). }
  rewrite <- Ha. apply (acted_update s c k k i m (Some (EpollEvent _ c))); [done|]. apply update_registered; try done; try (by eexists); by intros ? [= <-].
Qed.

Lemma del_event_inactive room event : is_active k = false ->
  acted s c k false (interest s k) AGC_STATUS_SUCCESS (agc_epoll_del_event room (Some c) event s).
Proof.
  intros Ha. destruct (ro_routine s Hok c k Hc) as [r Hr]. unfold agc_epoll_del_event, get_conn. rewrite Hc. cbn [rbind]. rewrite Hr.
  pose proof Ha as Hb. unfold is_active in Hb. rewrite Hr in Hb. rewrite Hb, <- Ha. apply unchanged.
Qed.

Lemma del_connection_ok room : is_Some (interest s k) ->
  acted s c k false None AGC_STATUS_SUCCESS (agc_epoll_del_connection room (Some c) s).
Proof.
  intros [v Hi]. unfold interest in Hi. apply bind_Some in Hi as (m & Hm & Hi). apply fmap_Some in Hi as (ee & He & _).
  destruct (registered_at _ m Hm) as [Ht _]; [by eexists|]. destruct (ro_routine s Hok c k Hc) as [r Hr].
  unfold agc_epoll_del_connection, epoll_ctl, get_conn. rewrite Hc. cbn [rbind].
  erewrite mark_ok by done. cbn [rbind]. rewrite (proj2 (Z.ltb_ge _ _)) by lia.
  unfold put_conn. cbn [EPOLLFDS]. rewrite Hm, He. cbn [rbind].
  apply (acted_update s c k (activated false r k) _ m None); [done|]. apply update_registered; done || by eexists.
Qed.

End acting.

(** ** Sequences of operations *)

Inductive direction := Reading | Writing.
Definition event_of (e : direction) : Z := match e with Reading => AGC_READ_EVENT | Writing => AGC_WRITE_EVENT end.

(** [room] says that the system does not refuse the call. *)
Inductive op :=
  | ONew (d p : Z) (rd wr : option Z)
  | OAdd (c rand : Z) (room : bool)
  | OEvent (c : Z) (e : direction) (room : bool)
  | OUnevent (c : Z) (e : direction) (room : bool)
  | ODel (c : Z)
  | OFree (c : Z).

(** The operations as the users of the driver make them. *)
Definition run1 (s : state) (o : op) : result (state * agc_status) :=
  let dr rand room := Some (agc_epoll_routine (rand mod Z.of_nat (length (EPOLLFDS s))) room) in
  match o with
  | ONew d p rd wr =>
      let (h, _) := agc_conn_create_connection d [] p 0 rd wr None (hp s) in Ok (State h (EPOLLFDS s), AGC_STATUS_SUCCESS)
  | OAdd c rand room => agc_diver_add_connection (dr rand room) (Some c) s
  | OEvent c e room => agc_diver_add_event (dr 0 room) (Some c) (event_of e) s
  | OUnevent c e room => agc_diver_del_event (dr 0 room) (Some c) (event_of e) s
  | ODel c => agc_diver_del_connection (dr 0 true) (Some c) s
  | OFree c => let! h := agc_free_connection (Some c) (hp s) in Ok (State h (EPOLLFDS s), AGC_STATUS_SUCCESS)
  end.

Fixpoint run (s : state) (os : list op) : result (state * list agc_status) :=
  match os with
  | [] => Ok (s, [])
  | o :: os' => let! (s, st) := run1 s o in let! (s, sts) := run s os' in Ok (s, st :: sts)
  end.

(** The promise: for each connection its descriptor, its pool, whether it counts
    as active, and what it is registered for, if it is: [EPOLLIN] with
    [EPOLLRDHUP] (0x2001), [EPOLLOUT] (0x4), or all three. *)
Inductive waits := Reads | Writes | Both.
Definition flags (w : waits) : Z := match w with Reads => 0x2001 | Writes => 0x4 | Both => 0x2005 end.
Record entry := Entry { e_fd : Z; e_pool : Z; e_active : bool; e_waits : option waits }.
Record spec := Spec { table : gmap Z entry; fresh : Z }.

Definition set_entry (c : Z) (e : entry) (b : bool) (w : option waits) (sp : spec) : spec :=
  Spec (<[c := Entry (e_fd e) (e_pool e) b w]> (table sp)) (fresh sp).

(** [None] is a use the driver does not support: a descriptor or a pool that
    another connection has, registering twice, an event for a connection that
    is not active, removing one that is not registered, freeing one that is.
    Adding either event leaves the connection registered for both, and removing
    one leaves it registered for the other, whatever it was registered for.
    What the system refuses changes nothing, but that a connection for which
    adding an event was refused does not count as active any more: it stays
    registered and has to be removed. *)
Definition spec1 (sp : spec) (o : op) : option (spec * agc_status) :=
  match o with
  | ONew d p _ _ =>
      if decide (map_Forall (fun _ e => e_fd e <> d /\ e_pool e <> p) (table sp))
      then Some (Spec (<[fresh sp := Entry d p false None]> (table sp)) (fresh sp + 1), AGC_STATUS_SUCCESS) else None
  | OAdd c _ room =>
      e ← table sp !! c;
      match e_waits e with
      | None => Some (if room then (set_entry c e true (Some Reads) sp, AGC_STATUS_SUCCESS) else (sp, AGC_STATUS_GENERR))
      | Some _ => None
      end
  | OEvent c _ room =>
      e ← table sp !! c;
      if e_active e then Some (if room then (set_entry c e true (Some Both) sp, AGC_STATUS_SUCCESS) else (set_entry c e false (e_waits e) sp, AGC_STATUS_GENERR))
      else None
  | OUnevent c ev room =>
      e ← table sp !! c;
      if e_active e then
        Some (if room then (set_entry c e true (Some (match ev with Reading => Writes | Writing => Reads end)) sp, AGC_STATUS_SUCCESS) else (sp, AGC_STATUS_GENERR))
      else Some (sp, AGC_STATUS_SUCCESS)
  | ODel c =>
      e ← table sp !! c;
      match e_waits e with Some _ => Some (set_entry c e false None sp, AGC_STATUS_SUCCESS) | None => None end
  | OFree c =>
      e ← table sp !! c;
      match e_waits e with None => Some (Spec (delete c (table sp)) (fresh sp), AGC_STATUS_SUCCESS) | Some _ => None end
  end.

Fixpoint spec_run (sp : spec) (os : list op) : option (spec * list agc_status) :=
  match os with
  | [] => Some (sp, [])
  | o :: os' => '(sp, st) ← spec1 sp o; '(sp, sts) ← spec_run sp os'; Some (sp, st :: sts)
  end.

Definition seen (e : entry) : Z * Z * bool * option Z := (e_fd e, e_pool e, e_active e, flags <$> e_waits e).

Record agrees (s : state) (sp : spec) : Prop := Agrees {
  ag_ok : reg_ok s;
  ag_some : (0 < length (EPOLLFDS s))%nat;
  ag_fresh : next_ptr (hp s) = fresh sp;
  ag_view : forall c, view s c = seen <$> table sp !! c }.

(** A connection of the table. *)
Lemma agrees_conn s sp c e : agrees s sp -> table sp !! c = Some e ->
  exists k, connections (hp s) !! c = Some k /\ fd k = e_fd e /\ pool k = e_pool e /\ is_active k = e_active e /\ interest s k = flags <$> e_waits e.
Proof.
  intros [Hok _ _ Hv] Hc. specialize (Hv c). rewrite Hc in Hv. unfold view in Hv. apply fmap_Some in Hv as (k & Hk & E).
  exists k. unfold seen in E. by simplify_eq.
Qed.

Lemma acted_agrees s sp c k e b w x st o : agrees s sp -> fd k = e_fd e -> pool k = e_pool e -> x = flags <$> w -> acted s c k b x st o ->
  exists s', o = Ok (s', st) /\ agrees s' (set_entry c e b w sp).
Proof.
  intros [Hok Hs Hf Hv] E1 E2 -> (s' & -> & Hok' & Hl & Hn & Hv'). exists s'. split; [done|]. split; [done|lia|cbn; congruence|].
  intros c2. cbn. rewrite Hv'. case_decide; [subst; rewrite lookup_insert_eq; cbn; unfold seen; cbn; congruence|by rewrite lookup_insert_ne].
Qed.

Lemma set_entry_same c e sp : table sp !! c = Some e -> set_entry c e (e_active e) (e_waits e) sp = sp.
Proof. intros H. unfold set_entry. destruct sp, e. cbn in *. by rewrite insert_id. Qed.

Lemma run1_new s sp d p rd wr : agrees s sp -> map_Forall (fun _ e => e_fd e <> d /\ e_pool e <> p) (table sp) ->
  exists s', run1 s (ONew d p rd wr) = Ok (s', AGC_STATUS_SUCCESS) /\
    agrees s' (Spec (<[fresh sp := Entry d p false None]> (table sp)) (fresh sp + 1)).
Proof.
  intros [Hok Hs Hf Hv] Hnew. eexists. split; [done|]. cbn [new_connection next_id next_ptr].
  set (k := Connection _ _ _ _ _ _ _ _).
  assert (connections (hp s) !! next_ptr (hp s) = None) as Hfree.
  { destruct (connections (hp s) !! next_ptr (hp s)) eqn:E; [|done]. apply (ro_ptr s Hok) in E. lia. }
  assert (forall c2 k2, connections (hp s) !! c2 = Some k2 -> fd k2 <> d /\ pool k2 <> p /\ c2 <> next_ptr (hp s)) as Hdiff.
  { intros c2 k2 H2. specialize (Hv c2). unfold view in Hv. rewrite H2 in Hv. symmetry in Hv. apply fmap_Some in Hv as (e & He & [= -> -> _ _]).
    apply Hnew in He as [? ?]. split_and!; try done. apply (ro_ptr s Hok) in H2. lia. }
  split; cbn [hp EPOLLFDS fresh table next_ptr]; [|done|by rewrite Hf|].
  - split; cbn [hp EPOLLFDS connections next_ptr].
    + intros i m d2 ee Hm He. destruct (ro_live s Hok i m d2 ee Hm He) as (k2 & H2 & H3). exists k2. split; [|done].
      rewrite lookup_insert_ne; [done|]. apply Hdiff in H2 as (_ & _ & ?). done.
    + intros c2 k2 [[<- <-]|[Hne H2]]%lookup_insert_Some Ha; [done|]. by apply (ro_active s Hok).
    + intros c1 c2 k1 k2 [[<- <-]|[Hn1 H1]]%lookup_insert_Some [[<- <-]|[Hn2 H2]]%lookup_insert_Some E; [done|..].
      * apply Hdiff in H2 as [? _]. by destruct H.
      * apply Hdiff in H1 as [? _]. by destruct H.
      * by eapply (ro_fd s Hok).
    + intros c1 c2 k1 k2 [[<- <-]|[Hn1 H1]]%lookup_insert_Some [[<- <-]|[Hn2 H2]]%lookup_insert_Some E; [done|..].
      * apply Hdiff in H2 as (_ & ? & _). by destruct H.
      * apply Hdiff in H1 as (_ & ? & _). by destruct H.
      * by eapply (ro_pool s Hok).
    + intros c2 k2 [[<- <-]|[Hne H2]]%lookup_insert_Some; [by eexists|]. by eapply (ro_routine s Hok).
    + intros c2 k2 [[<- <-]|[Hne H2]]%lookup_insert_Some; [lia|]. apply (ro_ptr s Hok) in H2. lia.
  - intros c2. rewrite <- Hf. unfold view. cbn [hp connections]. destruct (decide (c2 = next_ptr (hp s))) as [->|Hne].
    + rewrite !lookup_insert_eq. cbn. unfold seen. cbn. f_equal. f_equal. unfold interest. cbn [EPOLLFDS].
      destruct (EPOLLFDS s !! _) as [m|] eqn:Em; [|done]. cbn. destruct (m !! d) as [ee|] eqn:Ed; [|done].
      destruct (ro_live s Hok _ m d ee Em Ed) as (k2 & H2 & H3 & _). apply Hdiff in H2 as [? _]. done.
    + rewrite !lookup_insert_ne by done. apply Hv.
Qed.

Lemma run1_free s sp c e : agrees s sp -> table sp !! c = Some e -> e_waits e = None ->
  exists s', run1 s (OFree c) = Ok (s', AGC_STATUS_SUCCESS) /\ agrees s' (Spec (delete c (table sp)) (fresh sp)).
Proof.
  intros Hag Hc Hw. pose proof Hag as [Hok Hs Hf Hv]. destruct (agrees_conn s sp c e Hag Hc) as (k & Hk & Hd & Hp & _ & Hi). rewrite Hw in Hi. cbn [run1]. unfold agc_free_connection. rewrite Hk. cbn [rbind]. eexists. split; [done|].
  assert (forall c2, connections (destroy_pool (pool k) (hp s)) !! c2 = if decide (c2 = c) then None else connections (hp s) !! c2) as Hl.
  { intros c2. cbn. case_decide as E; [subst|].
    - apply map_lookup_filter_None. right. intros k2 H2. rewrite Hk in H2. injection H2 as <-. cbn. tauto.
    - destruct (connections (hp s) !! c2) as [k2|] eqn:E2; [|by apply map_lookup_filter_None; left].
      apply map_lookup_filter_Some. split; [done|]. cbn. intros He. apply E. by eapply (ro_pool s Hok). }
  assert (forall c2 k2, connections (destroy_pool (pool k) (hp s)) !! c2 = Some k2 -> connections (hp s) !! c2 = Some k2) as Hsub.
  { intros c2 k2. rewrite Hl. by case_decide. }
  split; cbn [hp EPOLLFDS fresh table]; [|done|done|].
  - split; cbn [hp EPOLLFDS].
    + intros i m d2 ee Hm He. destruct (ro_live s Hok i m d2 ee Hm He) as (k2 & H2 & H3 & H4). exists k2.
      rewrite Hl. case_decide as E; [|done]. rewrite E, Hk in H2. injection H2 as <-.
      pose proof (unregistered_absent s c k Hok Hk i m Hi Hm) as Hno. rewrite H3, He in Hno. done.
    + intros c2 k2 H2%Hsub Ha2. by apply (ro_active s Hok).
    + intros c1 c2 k1 k2 H1%Hsub H2%Hsub. by eapply (ro_fd s Hok).
    + intros c1 c2 k1 k2 H1%Hsub H2%Hsub. by eapply (ro_pool s Hok).
    + intros c2 k2 H2%Hsub. by eapply (ro_routine s Hok).
    + intros c2 k2 H2%Hsub. by eapply (ro_ptr s Hok).
  - intros c2. unfold view. cbn [hp]. rewrite Hl. case_decide as E; [subst; by rewrite lookup_delete_eq|].
    rewrite lookup_delete_ne by done. rewrite <- Hv. done.
Qed.

Lemma reg_run1_refines s sp o sp' st : agrees s sp -> spec1 sp o = Some (sp', st) ->
  exists s', run1 s o = Ok (s', st) /\ agrees s' sp'.
Proof.
  intros Hag Hsp. pose proof Hag as [Hok Hs Hf Hv]. destruct o as [d p rd wr|c rand room|c ev room|c ev room|c|c]; cbn [spec1] in Hsp.
  { case_decide as E; [|done]. injection Hsp as <- <-. by apply run1_new. }
  all: apply bind_Some in Hsp as (e & Ec & Hsp); destruct (agrees_conn s sp c e Hag Ec) as (k & Hk & Hd & Hp & Ha & Hi).
  - destruct (e_waits e) as [w|] eqn:Ew; [done|]. cbn [run1 agc_diver_add_connection add_conn agc_epoll_routine].
    assert (exists i, (i < length (EPOLLFDS s))%nat /\ rand mod Z.of_nat (length (EPOLLFDS s)) = Z.of_nat i) as (i & Hlt & ->).
    { pose proof (Z.mod_pos_bound rand (Z.of_nat (length (EPOLLFDS s)))).
      exists (Z.to_nat (rand mod Z.of_nat (length (EPOLLFDS s)))). split; lia. }
    destruct (add_connection_ok s c k Hok Hk i Hi Hlt) as [H1 H2]. destruct room; injection Hsp as <- <-.
    + by eapply (acted_agrees s sp c k e _ (Some Reads)).
    + rewrite <- (set_entry_same c e sp Ec), Ew. rewrite Ha in H2. by apply (acted_agrees s sp c k e _ None None).
  - destruct (e_active e) eqn:Ea; [|done]. cbn [run1 agc_diver_add_event add agc_epoll_routine].
    destruct (add_event_ok s c k Hok Hk (0 mod Z.of_nat (length (EPOLLFDS s))) (event_of ev) Ha) as [H1 H2]. destruct room; injection Hsp as <- <-.
    + eapply (acted_agrees s sp c k e _ (Some Both)); [done..| |exact H1]. by destruct ev.
    + by apply (acted_agrees s sp c k e _ (e_waits e) (interest s k)).
  - cbn [run1 agc_diver_del_event del agc_epoll_routine]. destruct (e_active e) eqn:Ea.
    + destruct (del_event_ok s c k Hok Hk (event_of ev) Ha) as [H1 H2]. destruct room; injection Hsp as <- <-.
      * eapply (acted_agrees s sp c k e _ (Some (match ev with Reading => Writes | Writing => Reads end))); [done..| |exact H1]. by destruct ev.
      * rewrite <- (set_entry_same c e sp Ec), Ea. by apply (acted_agrees s sp c k e _ (e_waits e) (interest s k)).
    + injection Hsp as <- <-. rewrite <- (set_entry_same c e sp Ec), Ea.
      apply (acted_agrees s sp c k e _ (e_waits e) (interest s k)); [done..|]. by apply del_event_inactive.
  - destruct (e_waits e) as [w|] eqn:Ew; [|done]. injection Hsp as <- <-. cbn [run1 agc_diver_del_connection del_conn agc_epoll_routine].
    apply (acted_agrees s sp c k e _ None None); [done..|]. apply del_connection_ok; [done..|]. rewrite Hi. by eexists.
  - destruct (e_waits e) as [w|] eqn:Ew; [done|]. injection Hsp as <- <-. by eapply run1_free.
Qed.

Lemma reg_run_refines os : forall s sp sp' sts, agrees s sp -> spec_run sp os = Some (sp', sts) ->
  exists s', run s os = Ok (s', sts) /\ agrees s' sp'.
Proof.
  induction os as [|o os IH]; intros s sp sp' sts Hag Hsp; cbn [spec_run run] in *; [injection Hsp as <- <-; by exists s|].
  apply bind_Some in Hsp as ([sp1 st1] & H1 & Hsp). apply bind_Some in Hsp as ([sp2 sts2] & H2 & [= <- <-]).
  destruct (reg_run1_refines s sp o sp1 st1 Hag H1) as (s1 & -> & Hag1). cbn [rbind].
  destruct (IH s1 sp1 sp2 sts2 Hag1 H2) as (s' & -> & Hag'). by exists s'.
Qed.

Definition start (cpus : Z) : state := agc_epoll_launch_dispatch_threads cpus (Heap ∅ ∅ 1 0).

Lemma start_agrees cpus : agrees (start cpus) (Spec ∅ 1).
Proof.
  assert (0 < EPOLL_MAX_DISPATCHER cpus) as Hn by (unfold EPOLL_MAX_DISPATCHER; destruct (_ <? 2) eqn:E; lia).
  split; cbn; [|rewrite length_replicate; lia|done|done].
  split; cbn; try done. intros i m d ee [-> _]%lookup_replicate. done.
Qed.

(** What a dispatcher may be told about [c]. *)
Definition known (s : state) (c : Z) : Prop := exists i m d ee, EPOLLFDS s !! i = Some m /\ m !! d = Some ee /\ ptr ee = c.

Lemma known_live s c : reg_ok s -> known s c -> is_Some (connections (hp s) !! c).
Proof. intros Hok (i & m & d & ee & Hm & He & <-). destruct (ro_live s Hok i m d ee Hm He) as (k & -> & _). eauto. Qed.

End EpollProof.

Import Ev Conn Epoll EpollProof.

(** C26: Registration follows its table: any sequence of creating connections,
    registering them with [agc_diver_add_connection], adding and removing the
    read or the write event, deregistering and freeing them, in an order the table
    of registrations allows, runs without a fault, returns the statuses of the
    table whatever dispatchers are drawn and whatever the system refuses, and
    keeps each connection registered with its own dispatcher only, for the flags
    of the table: [EPOLLIN] and [EPOLLRDHUP] after the registration, these and
    [EPOLLOUT] after either event was added, and those of the other event alone
    after one was removed, also when nobody asked for it.  A connection for which
    adding an event was refused stays registered, and no dispatcher knows a freed one. *)
Theorem epoll_refines cpus os sp sts : spec_run (Spec ∅ 1) os = Some (sp, sts) ->
  exists s, run (start cpus) os = Ok (s, sts) /\
    (forall c, view s c = seen <$> table sp !! c) /\ reg_ok s /\ (forall c, known s c -> is_Some (table sp !! c)).
Proof.
  intros Hsp. destruct (reg_run_refines os _ _ _ _ (start_agrees cpus) Hsp) as (s & Hr & [Hok _ _ Hv]).
  exists s. split_and!; [done..|]. intros c Hk%known_live; [|done]. specialize (Hv c). unfold view in Hv.
  destruct Hk as [k Hk]. rewrite Hk in Hv. symmetry in Hv. apply fmap_Some in Hv as (e & -> & _). eauto.
Qed.

(** A connection that wrote, was refused and now only writes, one that came and
    went, and one whose last event was refused. *)
Definition demo_ops : list op :=
  [ONew 8 100 (Some 1) (Some 2); OAdd 1 17 false; OAdd 1 17 true; OEvent 1 Writing true; ONew 9 101 (Some 1) None; OAdd 2 5 true;
   OUnevent 1 Writing false; OUnevent 1 Reading true; ODel 2; OFree 2; ONew 10 102 (Some 1) (Some 2); OAdd 3 1 true; OEvent 3 Writing false].
Definition demo_spec : spec := Spec (<[1 := Entry 8 100 true (Some Writes)]> (<[3 := Entry 10 102 false (Some Reads)]> ∅)) 4.
Definition demo_statuses : list agc_status :=
  [AGC_STATUS_SUCCESS; AGC_STATUS_GENERR; AGC_STATUS_SUCCESS; AGC_STATUS_SUCCESS; AGC_STATUS_SUCCESS; AGC_STATUS_SUCCESS;
   AGC_STATUS_GENERR; AGC_STATUS_SUCCESS; AGC_STATUS_SUCCESS; AGC_STATUS_SUCCESS; AGC_STATUS_SUCCESS; AGC_STATUS_SUCCESS; AGC_STATUS_GENERR].

Lemma epoll_refines_witness :
  exists s, run (start 4) demo_ops = Ok (s, demo_statuses) /\
    (forall c, view s c = seen <$> table demo_spec !! c) /\ reg_ok s /\ (forall c, known s c -> is_Some (table demo_spec !! c)).
Proof. apply (epoll_refines 4 demo_ops demo_spec demo_statuses). by vm_compute. Defined.

(** Registering with [agc_diver_add_event] loses the dispatcher: the index
    drawn is not stored, so that afterwards the connection cannot be
    deregistered, the dispatcher keeps its address when it is freed, and the
    next event of the descriptor makes the dispatcher read freed memory. *)
Theorem epoll_add_event_strays handle s sp c k i event flags : agrees s sp -> connections (hp s) !! c = Some k ->
  is_active k = false -> interest s k = None -> (i < length (EPOLLFDS s))%nat -> (Z.to_nat (thread_index k) < length (EPOLLFDS s))%nat ->
  0 <= thread_index k -> thread_index k <> Z.of_nat i ->
  exists s1 s2 h, agc_epoll_add_event (Z.of_nat i) true (Some c) event s = Ok (s1, AGC_STATUS_SUCCESS) /\
    agc_epoll_del_connection true (Some c) s1 = Ok (s2, AGC_STATUS_GENERR) /\
    agc_free_connection (Some c) (hp s2) = Ok h /\ known (State h (EPOLLFDS s2)) c /\
    dispatch_one handle (EpollEvent flags c) (State h (EPOLLFDS s2)) = Fault BadPointer.
Proof.
  intros [Hok _ _ _] Hc Ha Hx Hi Ht H0 Hne. destruct (lookup_lt_is_Some_2 _ _ Hi) as [m Hm].
  destruct (lookup_lt_is_Some_2 _ _ Ht) as [m0 Hm0]. destruct (ro_routine s Hok c k Hc) as [r Hr].
  assert (active r = false) as Har by (unfold is_active in Ha; by rewrite Hr in Ha).
  unfold agc_epoll_add_event, epoll_ctl, get_conn at 1. rewrite Hc. cbn [rbind]. rewrite Hr, Har.
  rewrite (proj2 (Z.ltb_ge _ _)) by lia. rewrite Nat2Z.id, Hm, (unregistered_absent s c k Hok Hc i m Hx Hm). cbn [rbind].
  erewrite mark_ok by done. cbn [rbind]. eexists _, _, _. split; [done|].
  unfold agc_epoll_del_connection, get_conn at 1. cbn [put_conn hp with_connections connections]. rewrite lookup_insert_eq. cbn [rbind].
  erewrite mark_ok; [|apply lookup_insert_eq|done]. cbn [rbind]. unfold epoll_ctl. cbn [activated thread_index fd].
  rewrite (proj2 (Z.ltb_ge _ _)) by lia. cbn [put_conn EPOLLFDS with_connections hp].
  rewrite list_lookup_insert_ne, Hm0 by lia. rewrite (unregistered_absent s c k Hok Hc _ m0 Hx Hm0). cbn [rbind].
  split; [done|]. cbn [hp]. unfold agc_free_connection. cbn [put_conn hp with_connections connections]. rewrite lookup_insert_eq. split; [done|]. split.
  - exists i, (<[fd k := EpollEvent event c]> m), (fd k), (EpollEvent event c). cbn [EPOLLFDS ptr put_conn]. split_and!; [|by rewrite lookup_insert_eq|done].
    by rewrite list_lookup_insert_eq.
  - unfold dispatch_one, get_conn. cbn [ptr hp destroy_pool connections pool].
    cbn [with_connections connections]. rewrite (proj2 (map_lookup_filter_None _ _ _)); [done|]. right. intros x Hl. rewrite lookup_insert_eq in Hl.
    injection Hl as <-. cbn. tauto.
Qed.

(** A connection just created, and a driver of three dispatchers. *)
Definition demo_new : state := State (fst (agc_conn_create_connection 8 [] 100 0 (Some 1) (Some 2) None (Heap ∅ ∅ 1 0))) (replicate 3 ∅).

Lemma demo_new_agrees : agrees demo_new (Spec (<[1 := Entry 8 100 false None]> ∅) 2).
Proof.
  destruct (run1_new (start 4) (Spec ∅ 1) 8 100 (Some 1) (Some 2) (start_agrees 4)) as (s & Hr & Hag); [done|].
  assert (Ok (demo_new, AGC_STATUS_SUCCESS) = Ok (s, AGC_STATUS_SUCCESS)) as E by (rewrite <- Hr; by vm_compute).
  injection E as ->. exact Hag.
Qed.

Lemma epoll_add_event_strays_witness :
  exists s1 s2 h, agc_epoll_add_event 2 true (Some 1) AGC_READ_EVENT demo_new = Ok (s1, AGC_STATUS_SUCCESS) /\
    agc_epoll_del_connection true (Some 1) s1 = Ok (s2, AGC_STATUS_GENERR) /\
    agc_free_connection (Some 1) (hp s2) = Ok h /\ known (State h (EPOLLFDS s2)) 1 /\
    dispatch_one (fun _ _ => Ok) (EpollEvent EPOLLIN 1) (State h (EPOLLFDS s2)) = Fault BadPointer.
Proof.
  apply (epoll_add_event_strays (fun _ _ => Ok) demo_new _ 1 (Connection 0 (Some (Routine false (Some 1) (Some 2) None)) 8 None 100 [] 0 0)
    2 AGC_READ_EVENT EPOLLIN demo_new_agrees); cbn; try lia. all: by vm_compute.
Defined.

(** A handler must not free its connection: if the handler that reads a
    connection deregisters and frees it, as on the end of the stream it has
    to, the dispatcher reads the freed connection behind the call, whatever
    the event was. *)
Theorem epoll_dispatch_after_free (handle : Z -> Z -> state -> result state) s c k r h flags s' :
  connections (hp s) !! c = Some k -> fd k <> -1 -> listening k = None -> routine k = Some r -> active r = true ->
  read_handle r = Some h -> has flags EPOLLIN = true ->
  handle h c s = Ok s' -> connections (hp s') !! c = None ->
  dispatch_one handle (EpollEvent flags c) s = Fault BadPointer.
Proof.
  intros Hc Hfd Hl Hr Ha Hh Hin Hs Hgone. unfold dispatch_one, get_conn at 1. cbn [ptr events]. rewrite Hc. cbn [rbind].
  rewrite (proj2 (Z.eqb_neq _ _)) by done. rewrite Hl, Hr, Ha. cbn [negb]. unfold read_event. rewrite Hh, Ha, andb_true_r.
  set (fl := if has flags _ then _ else _).
  assert (has fl EPOLLIN = true) as ->.
  { unfold fl. destruct (has flags (Z.lor EPOLLERR EPOLLHUP)); [|done]. unfold has in *. cbn [events]. rewrite Z.land_lor_distr_l.
    apply negb_true_iff, Z.eqb_neq. apply negb_true_iff, Z.eqb_neq in Hin. intros E. apply Hin. by apply Z.lor_eq_0_l in E. }
  unfold call_handler. rewrite Hs. cbn [rbind]. unfold get_conn. by rewrite Hgone.
Qed.

(** What the handler of the test module does at the end of a stream. *)
Definition close_on_read (_ c : Z) (s : state) : result state :=
  let! (s, _) := agc_epoll_del_connection true (Some c) s in
  let! h := agc_free_connection (Some c) (hp s) in
  Ok (State h (EPOLLFDS s)).

Lemma epoll_dispatch_after_free_witness :
  exists s s', agc_epoll_add_connection 1 true (Some 1) demo_new = Ok (s, AGC_STATUS_SUCCESS) /\ close_on_read 1 1 s = Ok s' /\
    dispatch_one close_on_read (EpollEvent (Z.lor EPOLLIN EPOLLHUP) 1) s = Fault BadPointer.
Proof.
  eexists _, _. split; [reflexivity|]. split; [reflexivity|].
  eapply (epoll_dispatch_after_free close_on_read); try reflexivity; done.
Defined.
