(* ===== verification/Rabbit.v ===== *)
(** * The message queue module

    [src/src/mod/mqs/mod_rabbitmq]: events of the bus are written as JSON into
    the queue of each producer that subscribed to them, and a thread for each
    producer publishes them; a consumer turns what it receives into commands
    and events.  The client library is the class [Amqp]; what it accepted for
    publication is recorded ([published]).  A connection of the library is a
    handle that is live until it is destroyed ([handles]). *)

From stdpp Require Import base gmap list fin_maps strings.
From Stdlib Require Import ZArith Lia.
From S2P Require Import Prelude CString Queue Event EventBus Json JsonMain EventJson Utils Yaml EventSocket.

Module Rabbit.
Import Ev Bus EvJson.

Definition MAX_MQ_ROUTING_KEY_LENGTH : nat := 255.
Definition MQ_EVENT_LIMIT : Z := 10000.
Definition MQ_DEFAULT_CONTENT_TYPE : cstr := bytes_of "text/json".
Definition EVENT_HEADER_ROUTING : cstr := bytes_of "_routingkey".

(** ** The client library *)

(** The errors of the library that are told apart. *)
Inductive amqp_error :=
  | AMQP_STATUS_UNEXPECTED_STATE
  | AMQP_STATUS_SOCKET_ERROR
  | AMQP_STATUS_CONNECTION_CLOSED
  | AMQP_STATUS_TCP_ERROR
  | AMQP_STATUS_OTHER (n : Z).

#[global] Instance amqp_error_eq_dec : EqDecision amqp_error.
Proof. solve_decision. Defined.

(** [amqp_rpc_reply_t] *)
Inductive amqp_rpc_reply :=
  | AMQP_RESPONSE_NONE
  | AMQP_RESPONSE_NORMAL
  | AMQP_RESPONSE_LIBRARY_EXCEPTION (library_error : amqp_error)
  | AMQP_RESPONSE_SERVER_EXCEPTION (id : Z).

(** The calls that only give a reply. *)
Inductive amqp_call :=
  | ChannelOpen
  | ChannelClose
  | ConnectionClose
  | ExchangeDeclare (name type : cstr)
  | QueueBind (queue exchange key : cstr)
  | BasicConsume (queue : cstr).

(** A message received: its content type, its body, and the memory behind it. *)
Record envelope := Envelope { content_type : option cstr; e_body : list Z; behind : list Z }.

Class Amqp := {
  amqp : Type;
  socket_new : amqp -> amqp * bool;
  socket_open : amqp -> option cstr -> Z -> amqp * Z;
  amqp_login : amqp -> option cstr -> option cstr -> option cstr -> amqp * amqp_rpc_reply;
  amqp_rpc : amqp -> amqp_call -> amqp * amqp_rpc_reply;
  queue_declare : amqp -> cstr -> amqp * amqp_rpc_reply * cstr;
  basic_publish : amqp -> cstr -> cstr -> cstr -> amqp * Z;
  consume_message : amqp -> amqp * amqp_rpc_reply * envelope;
  wait_frame : amqp -> amqp }.

(** ** State *)

(** [agcmq_message_t]: the key is an array of 255 bytes. *)
Record agcmq_message := Message { routing_key : list Z; pjson : option cstr }.

(** [struct agcmq_connection_info_s] without its list link. *)
Record agcmq_connection_info := Info {
  i_name : option cstr;
  hostname : option cstr;
  virtualhost : option cstr;
  username : option cstr;
  password : option cstr;
  port : Z;
  heartbeat : Z }.

(** [struct agcmq_connection_s]; [0] is the null handle. *)
Record agcmq_connection := MqConn { active : bool; state : Z }.

(** [struct agcmq_conn_parameter_s] *)
Record agcmq_conn_parameter := ConnParameter {
  ex_name : option cstr;
  ex_type : option cstr;
  bind_key : option cstr;
  queuename : option cstr;
  reconnect_interval_ms : Z;
  circuit_breaker_ms : Z;
  queue_size : Z;
  event_filter : option cstr;
  delivery_mode : Z;
  delivery_timestamp : Z }.

(** [struct agcmq_producer_profile_s] *)
Record agcmq_producer_profile := Producer {
  p_name : cstr;
  conn_parameter : agcmq_conn_parameter;
  conn_infos : list agcmq_connection_info;
  mq_conn : agcmq_connection;
  producer_thread : bool;
  running : bool;
  reset_time : Z;
  send_queue : option Queue.apr_queue_t;
  event_list : list bool }.

Definition with_conn c p := Producer (p_name p) (conn_parameter p) (conn_infos p) c (producer_thread p) (running p) (reset_time p) (send_queue p) (event_list p).
Definition with_queue q p := Producer (p_name p) (conn_parameter p) (conn_infos p) (mq_conn p) (producer_thread p) (running p) (reset_time p) (Some q) (event_list p).
Definition with_reset t p := Producer (p_name p) (conn_parameter p) (conn_infos p) (mq_conn p) (producer_thread p) (running p) t (send_queue p) (event_list p).

(** ** Profiles *)

(** Where the value of a key goes: [strvalue] or [intvalue]. *)
Inductive target :=
  | TName | TType
  | THostname | TVirtualhost | TUsername | TPassword | TPort | THeartbeat
  | TExname | TExtype | TQueuename | TCircuitBreaker | TReconnect | TQueueSize | TEventFilter | TBindingKey
  | TDeliveryMode | TDeliveryTimestamp.

#[global] Instance target_eq_dec : EqDecision target.
Proof. solve_decision. Defined.

Definition keys : list (cstr * target) := prod_map bytes_of id <$> [
  ("name", TName); ("type", TType); ("hostname", THostname); ("virtualhost", TVirtualhost); ("username", TUsername);
  ("password", TPassword); ("port", TPort); ("heartbeat", THeartbeat); ("exname", TExname); ("extype", TExtype);
  ("queuename", TQueuename); ("circuit_breaker_ms", TCircuitBreaker); ("reconnect_interval_ms", TReconnect);
  ("queue_size", TQueueSize); ("event_filter", TEventFilter); ("binding_key", TBindingKey);
  ("delivery_mode", TDeliveryMode); ("delivery_timestamp", TDeliveryTimestamp)]%string.

Fixpoint find_key (k : cstr) (l : list (cstr * target)) : option target :=
  match l with
  | [] => None
  | (n, t) :: l' => if bool_decide (k = n) then Some t else find_key k l'
  end.

(** The target of the last key carries the connection that was current when
    the key was read: the pointer into it is taken then. *)
Record profile_state := ProfileState {
  iskey : bool;
  in_connections : bool;
  value_to : option (target * option nat);
  conns : list agcmq_connection_info;
  para : agcmq_conn_parameter;
  profile_name : option cstr;
  profile_type : option cstr }.

Definition empty_info : agcmq_connection_info := Info None None None None None 0 0.
Definition profile_start : profile_state :=
  ProfileState false false None [] (ConnParameter None None None None 0 0 0 None 0 1) None None.

(** [conn], the last connection of the list. *)
Definition current (s : profile_state) : option nat :=
  match conns s with [] => None | _ => Some (length (conns s) - 1)%nat end.

Definition profile_key (k : cstr) (s : profile_state) : profile_state :=
  let set b v := ProfileState (iskey s) b v (conns s) (para s) (profile_name s) (profile_type s) in
  if bool_decide (k = bytes_of "connections") then set true None
  else if bool_decide (k = bytes_of "parameters") then set false None
  else
    match find_key k keys with
    | Some TName => set false (Some (TName, None))
    | Some TType => set false (Some (TType, None))
    | Some t => set (in_connections s) (Some (t, current s))
    | None => set (in_connections s) None
    end.

Definition set_info (t : target) (v : cstr) (i : agcmq_connection_info) : agcmq_connection_info :=
  match t with
  | THostname => Info (i_name i) (Some v) (virtualhost i) (username i) (password i) (port i) (heartbeat i)
  | TVirtualhost => Info (i_name i) (hostname i) (Some v) (username i) (password i) (port i) (heartbeat i)
  | TUsername => Info (i_name i) (hostname i) (virtualhost i) (Some v) (password i) (port i) (heartbeat i)
  | TPassword => Info (i_name i) (hostname i) (virtualhost i) (username i) (Some v) (port i) (heartbeat i)
  | TPort => Info (i_name i) (hostname i) (virtualhost i) (username i) (password i) (Utils.agc_atoui v) (heartbeat i)
  | THeartbeat => Info (i_name i) (hostname i) (virtualhost i) (username i) (password i) (port i) (Utils.agc_atoui v)
  | _ => i
  end.

Definition set_para (t : target) (v : cstr) (p : agcmq_conn_parameter) : agcmq_conn_parameter :=
  match p with
  | ConnParameter en et bk qn ri cb qs ef dm dt =>
      match t with
      | TExname => ConnParameter (Some v) et bk qn ri cb qs ef dm dt
      | TExtype => ConnParameter en (Some v) bk qn ri cb qs ef dm dt
      | TBindingKey => ConnParameter en et (Some v) qn ri cb qs ef dm dt
      | TQueuename => ConnParameter en et bk (Some v) ri cb qs ef dm dt
      | TReconnect => ConnParameter en et bk qn (Utils.agc_atoui v) cb qs ef dm dt
      | TCircuitBreaker => ConnParameter en et bk qn ri (Utils.agc_atoui v) qs ef dm dt
      | TQueueSize => ConnParameter en et bk qn ri cb (Utils.agc_atoui v) ef dm dt
      | TEventFilter => ConnParameter en et bk qn ri cb qs (Some v) dm dt
      | TDeliveryMode => ConnParameter en et bk qn ri cb qs ef (Utils.agc_atoui v) dt
      | TDeliveryTimestamp => ConnParameter en et bk qn ri cb qs ef dm (Utils.agc_atoui v)
      | _ => p
      end
  end.

(** A value goes through the pointer of its key; a key of a connection read
    before there is one has left a pointer that is not one. *)
Definition profile_value (v : cstr) (s : profile_state) : result profile_state :=
  match value_to s with
  | None => Ok s
  | Some (TName, _) => Ok (ProfileState (iskey s) (in_connections s) (value_to s) (conns s) (para s) (Some v) (profile_type s))
  | Some (TType, _) => Ok (ProfileState (iskey s) (in_connections s) (value_to s) (conns s) (para s) (profile_name s) (Some v))
  | Some ((THostname | TVirtualhost | TUsername | TPassword | TPort | THeartbeat) as t, c) =>
      match c with
      | None => Fault BadPointer
      | Some i => Ok (ProfileState (iskey s) (in_connections s) (value_to s) (alter (set_info t v) i (conns s)) (para s) (profile_name s) (profile_type s))
      end
  | Some (t, _) => Ok (ProfileState (iskey s) (in_connections s) (value_to s) (conns s) (set_para t v (para s)) (profile_name s) (profile_type s))
  end.

Definition profile_step (s : profile_state) (t : Yaml.yaml_token) : result profile_state :=
  match t with
  | Yaml.YAML_KEY_TOKEN => Ok (ProfileState true (in_connections s) (value_to s) (conns s) (para s) (profile_name s) (profile_type s))
  | Yaml.YAML_VALUE_TOKEN => Ok (ProfileState false (in_connections s) (value_to s) (conns s) (para s) (profile_name s) (profile_type s))
  | Yaml.YAML_SCALAR_TOKEN v => if iskey s then Ok (profile_key v s) else profile_value v s
  | Yaml.YAML_BLOCK_ENTRY_TOKEN =>
      if in_connections s
      then Ok (ProfileState (iskey s) (in_connections s) (value_to s) (conns s ++ [empty_info]) (para s) (profile_name s) (profile_type s))
      else Ok s
  | _ => Ok s
  end.

Definition reconnect_default (p : agcmq_conn_parameter) : agcmq_conn_parameter :=
  if reconnect_interval_ms p =? 0
  then ConnParameter (ex_name p) (ex_type p) (bind_key p) (queuename p) 1000 (circuit_breaker_ms p) (queue_size p)
    (event_filter p) (delivery_mode p) (delivery_timestamp p)
  else p.

Definition agcmq_load_profile (tokens : list Yaml.yaml_token)
    : result (option cstr * option cstr * list agcmq_connection_info * agcmq_conn_parameter) :=
  let! (s, _) := Yaml.scan profile_step profile_start tokens in
  Ok (profile_name s, profile_type s, conns s, reconnect_default (para s)).

Section module.
Context `{Amqp}.

(** What the profiles share: the library, its live handles, the messages
    allocated and what was published (exchange, routing key, text). *)
Record world := World {
  lib : amqp;
  handles : gset Z;
  next_handle : Z;
  messages : gmap Z agcmq_message;
  next_message : Z;
  published : list (cstr * cstr * cstr) }.

Definition with_lib l w := World l (handles w) (next_handle w) (messages w) (next_message w) (published w).
Definition with_handles hs n w := World (lib w) hs n (messages w) (next_message w) (published w).
Definition with_messages ms n w := World (lib w) (handles w) (next_handle w) ms n (published w).
Definition with_published ps w := World (lib w) (handles w) (next_handle w) (messages w) (next_message w) ps.

(** ** Connections to the broker *)

Definition agcmq_parse_amqp_reply (x : amqp_rpc_reply) : Z :=
  match x with AMQP_RESPONSE_NORMAL => 0 | _ => -1 end.

Definition amqp_new_connection (w : world) : world * Z :=
  (with_handles (handles w ∪ {[ next_handle w ]}) (next_handle w + 1) w, next_handle w).

(** A call on a handle, which has to be live. *)
Definition call (h : Z) (c : amqp_call) (w : world) : result (world * Z) :=
  if bool_decide (h ∈ handles w) then
    let (l, r) := amqp_rpc (lib w) c in Ok (with_lib l w, agcmq_parse_amqp_reply r)
  else Fault BadPointer.

Definition amqp_destroy_connection (h : Z) (w : world) : result world :=
  if bool_decide (h ∈ handles w) then Ok (with_handles (handles w ∖ {[ h ]}) (next_handle w) w) else Fault BadFree.

Definition agcmq_connection_close (c : agcmq_connection) (w : world) : result (world * agcmq_connection) :=
  let! (w, _) := call (state c) ChannelClose w in
  let! (w, _) := call (state c) ConnectionClose w in
  let! w := amqp_destroy_connection (state c) w in
  Ok (w, MqConn false (state c)).

(** The loop over the brokers: the first that can be reached. *)
Fixpoint open_any (infos : list agcmq_connection_info) (l : amqp) : amqp * option agcmq_connection_info :=
  match infos with
  | [] => (l, None)
  | i :: infos' =>
      let (l, status) := socket_open l (hostname i) (port i) in
      if status =? 0 then (l, Some i) else open_any infos' l
  end.

Definition agcmq_connection_open (infos : list agcmq_connection_info) (c : agcmq_connection) (w : world)
    : result (world * agcmq_connection * agc_status) :=
  let (w, newConnection) := amqp_new_connection w in
  match infos with
  | [] => Ok (w, c, AGC_STATUS_GENERR)
  | _ =>
      let oldConnection := state c in
      let (l, socket) := socket_new (lib w) in
      let w := with_lib l w in
      if negb socket then Ok (w, c, AGC_STATUS_GENERR)
      else
        let (l, found) := open_any infos (lib w) in
        let w := with_lib l w in
        match found with
        | None => Ok (w, c, AGC_STATUS_GENERR)
        | Some i =>
            let (l, reply) := amqp_login (lib w) (virtualhost i) (username i) (password i) in
            let w := with_lib l w in
            if negb (agcmq_parse_amqp_reply reply =? 0) then
              let! (w, c) := agcmq_connection_close c w in Ok (w, c, AGC_STATUS_GENERR)
            else
              let! (w, _) := call newConnection ChannelOpen w in
              if negb (agcmq_parse_amqp_reply reply =? 0) then Ok (w, c, AGC_STATUS_GENERR)
              else
                let! w := (if oldConnection =? 0 then Ok w else amqp_destroy_connection oldConnection w) in
                Ok (w, MqConn true newConnection, AGC_STATUS_SUCCESS)
        end
  end.

(** [amqp_cstring_bytes] of a string that may be null. *)
Definition cstring_bytes (s : option cstr) : result cstr :=
  match s with None => Fault BadPointer | Some s => Ok s end.

(** Declaring the exchange, and the reply to it. *)
Definition exchange_declare (h : Z) (name type : option cstr) (w : world) : result (world * Z) :=
  let! name := cstring_bytes name in
  let! type := cstring_bytes type in
  call h (ExchangeDeclare name type) w.

(** ** Producers *)

Definition agcmq_producer_msg_destroy (msg : Z) (w : world) : result world :=
  if msg =? 0 then Ok w
  else
    match messages w !! msg with
    | None => Fault BadFree
    | Some _ => Ok (with_messages (delete msg (messages w)) (next_message w) w)
    end.

(** The text of an array of bytes; without a terminator it is read past its end. *)
Definition array_text (b : list Z) : result cstr :=
  if existsb (Z.eqb 0) b then Ok (cstring b) else Fault OutOfBounds.

Definition agcmq_producer_send (p : agcmq_producer_profile) (msg : Z) (w : world) : result (world * agcmq_producer_profile * agc_status) :=
  if negb (active (mq_conn p)) then Ok (w, p, AGC_STATUS_NOT_INITALIZED)
  else
    match messages w !! msg with
    | None => Fault BadPointer
    | Some m =>
        let! ex := cstring_bytes (ex_name (conn_parameter p)) in
        let! key := array_text (routing_key m) in
        let! text := cstring_bytes (pjson m) in
        if negb (bool_decide (state (mq_conn p) ∈ handles w)) then Fault BadPointer
        else
          let (l, status) := basic_publish (lib w) ex key text in
          let w := with_lib l w in
          if status <? 0 then
            let! (w, c) := agcmq_connection_close (mq_conn p) w in
            Ok (w, with_conn c p, AGC_STATUS_SOCKERR)
          else Ok (with_published (published w ++ [(ex, key, text)]) w, p, AGC_STATUS_SUCCESS)
    end.

(** The attempt to connect again; [true] when the turn ends with it. *)
Definition reconnect (p : agcmq_producer_profile) (w : world) : result (world * agcmq_producer_profile * bool) :=
  if active (mq_conn p) then Ok (w, p, false)
  else
    let! (w, c, status) := agcmq_connection_open (conn_infos p) (mq_conn p) w in
    let p := with_conn c p in
    if bool_decide (status = AGC_STATUS_SUCCESS) then
      let! (w, _) := exchange_declare (state c) (ex_name (conn_parameter p)) (ex_type (conn_parameter p)) w in
      Ok (w, p, true)
    else Ok (w, p, false).

(** The next message, unless one is still held. *)
Definition take_message (p : agcmq_producer_profile) (msg : Z) : result (agcmq_producer_profile * Z) :=
  if negb (msg =? 0) then Ok (p, msg)
  else
    match send_queue p with
    | None => Fault BadPointer
    | Some q =>
        let! (q, st, v) := Queue.apr_queue_trypop q in
        Ok (with_queue q p, match st with Queue.APR_SUCCESS => default 0 v | _ => 0 end)
    end.

(** A turn of the loop of [agcmq_producer_thread] with the message it holds
    ([0] for none); [None] when the thread has ended. *)
Definition producer_turn (p : agcmq_producer_profile) (msg : Z) (w : world)
    : result (world * agcmq_producer_profile * option Z) :=
  if negb (running p) then let! w := agcmq_producer_msg_destroy msg w in Ok (w, p, None)
  else
    let! (w, p, again) := reconnect p w in
    if again then Ok (w, p, Some msg)
    else
      let! (p, msg) := take_message p msg in
      if msg =? 0 then Ok (w, p, Some 0)
      else
        let! (w, p, status) := agcmq_producer_send p msg w in
        if bool_decide (status = AGC_STATUS_SUCCESS) then
          let! w := agcmq_producer_msg_destroy msg w in Ok (w, p, Some 0)
        else Ok (w, p, Some msg).

(** The messages left in the queue of a producer that is closed. *)
Fixpoint drop_messages (fuel : nat) (q : Queue.apr_queue_t) (w : world) : result (Queue.apr_queue_t * world) :=
  match fuel with
  | O => OutOfFuel
  | S fuel' =>
      let! (q, st, v) := Queue.apr_queue_trypop q in
      match st with
      | Queue.APR_SUCCESS => let! w := agcmq_producer_msg_destroy (default 0 v) w in drop_messages fuel' q w
      | _ => Ok (q, w)
      end
  end.

(** [agcmq_producer_destroy], after the thread has been joined. *)
Definition agcmq_producer_destroy (p : agcmq_producer_profile) (w : world) : result (world * agcmq_producer_profile) :=
  let! (w, c) := (if active (mq_conn p) then agcmq_connection_close (mq_conn p) w else Ok (w, mq_conn p)) in
  let! (q, w) :=
    match send_queue p with
    | None => Ok (None, w)
    | Some q => let! (q, w) := drop_messages (S (Z.to_nat (Queue.nelts q))) q w in Ok (Some q, w)
    end in
  Ok (w, Producer (p_name p) (conn_parameter p) [] c (producer_thread p) false (reset_time p) q (event_list p)).

(** The events a filter names. *)
Fixpoint filter_events (b : bus) (names : list cstr) (l : list bool) : result (list bool) :=
  match names with
  | [] => Ok l
  | n :: names' =>
      match agc_event_get_id b (Some n) with
      | (AGC_STATUS_SUCCESS, Some event_id) =>
          if event_id =? EVENT_ID_ALL then filter_events b names' (replicate (Z.to_nat EVENT_ID_LIMIT) true)
          else if negb (in_array event_id) then Fault OutOfBounds
          else filter_events b names' (<[Z.to_nat event_id := true]> l)
      | _ => filter_events b names' l
      end
  end.

(** [agcmq_producer_create]; [thread] is whether the thread could be started.
    The profile is returned when it is added to the list of producers. *)
Definition agcmq_producer_create (b : bus) (thread : bool) (name : option cstr) (infos : list agcmq_connection_info)
    (parameters : agcmq_conn_parameter) (w : world) : result (world * option agcmq_producer_profile) :=
  match name, infos with
  | Some name, _ :: _ =>
      let! names :=
        match event_filter parameters with
        | None => Ok []
        | Some f => Utils.agc_separate_string f 44 (Z.to_nat EVENT_ID_LIMIT)
        end in
      let! l := filter_events b names (replicate (Z.to_nat EVENT_ID_LIMIT) false) in
      let! (w, c, status) := agcmq_connection_open infos (MqConn false 0) w in
      let p := Producer name parameters infos c false true 0 None l in
      if negb (bool_decide (status = AGC_STATUS_SUCCESS)) then let! (w, _) := agcmq_producer_destroy p w in Ok (w, None)
      else
        let! (w, r) := exchange_declare (state c) (ex_name parameters) (ex_type parameters) w in
        if negb (r =? 0) then let! (w, _) := agcmq_producer_destroy p w in Ok (w, None)
        else
          let p := Producer name parameters infos c thread true 0 (Some (Queue.apr_queue_create MQ_EVENT_LIMIT)) l in
          if negb thread then let! (w, _) := agcmq_producer_destroy p w in Ok (w, None) else Ok (w, Some p)
  | _, _ => Ok (w, None)
  end.

(** [add_producer]: the list keeps the order of creation. *)
Definition add_producer (p : agcmq_producer_profile) (producers : list agcmq_producer_profile) : list agcmq_producer_profile :=
  producers ++ [p].

(** ** Events *)

Definition make_routingkey (b : bus) (host : cstr) (routingKey : list Z) (event_id : Z) : result (list Z) :=
  let len := length host in
  let! k := Yaml.strcpy (replicate (length routingKey) 0) 0 host in
  let! k := Yaml.set_byte k len 46 in
  let! name := agc_event_get_name b event_id in
  match name with
  | Some n => Yaml.strcpy k (S len) n
  | None => Ok k
  end.

(** The routing key of a message: a header of the event, or made of the name
    of the host and of the event. *)
Definition routing_key_of (hf : nat) (b : bus) (host : cstr) (event event_id : Z) : result (list Z) :=
  let! h := agc_event_get_header hf (mem b) event EVENT_HEADER_ROUTING in
  let key := replicate MAX_MQ_ROUTING_KEY_LENGTH 0 in
  match h with
  | Some v => Yaml.strcpy key 0 v
  | None => make_routingkey b host key event_id
  end.

(** The message of an event goes into the queue of a producer; a queue that is
    full closes the producer for a while. *)
Definition enqueue (now : Z) (m : agcmq_message) (p : agcmq_producer_profile) (w : world) : result (world * agcmq_producer_profile) :=
  let msg := next_message w in
  let w := with_messages (<[msg := m]> (messages w)) (msg + 1) w in
  match send_queue p with
  | None => Fault BadPointer
  | Some q =>
      let! (q, st) := Queue.apr_queue_trypush q msg in
      if bool_decide (st = Queue.APR_SUCCESS) then Ok (w, with_queue q p)
      else
        let! w := agcmq_producer_msg_destroy msg w in
        Ok (w, with_reset (now + wrap 32 (circuit_breaker_ms (conn_parameter p) * 1000)) (with_queue q p))
  end.

Context `{Json.FloatOps} (hf : nat) (host : cstr).

(** The loop of [handle_event]. *)
Fixpoint handle_producers (now : Z) (b : bus) (event event_id : Z) (ps : list agcmq_producer_profile) (w : world)
    : result (world * list agcmq_producer_profile) :=
  match ps with
  | [] => Ok (w, [])
  | p :: ps' =>
      let! (w, p) :=
        (if negb (running p) || (now <? reset_time p) then Ok (w, p)
         else
           match (if 0 <=? event_id then event_list p !! Z.to_nat event_id else None) with
           | None => Fault OutOfBounds
           | Some false => Ok (w, p)
           | Some true =>
               let! (text, _) := agc_event_serialize_json hf b event in
               let! key := routing_key_of hf b host event event_id in
               enqueue now (Message key text) p w
           end) in
      let! (w, ps') := handle_producers now b event event_id ps' w in
      Ok (w, p :: ps')
  end.

Definition handle_event (now : Z) (b : bus) (event : Z) (ps : list agcmq_producer_profile) (w : world)
    : result (world * list agcmq_producer_profile) :=
  if event =? NULL then Ok (w, ps)
  else let! e := eget (mem b) event in handle_producers now b event (event_id e) ps w.

(** ** Consumers *)

Record agcmq_consumer_profile := Consumer {
  c_name : cstr;
  c_parameter : agcmq_conn_parameter;
  c_infos : list agcmq_connection_info;
  c_conn : agcmq_connection;
  c_running : bool;
  queueName : option cstr }.

Definition with_cconn c k := Consumer (c_name k) (c_parameter k) (c_infos k) c (c_running k) (queueName k).
Definition with_qname n k := Consumer (c_name k) (c_parameter k) (c_infos k) (c_conn k) (c_running k) n.

Definition agcmq_consumer_create (name : option cstr) (infos : list agcmq_connection_info) (parameters : agcmq_conn_parameter)
    (thread : bool) : option agcmq_consumer_profile :=
  match name, infos with
  | Some name, _ :: _ => if thread then Some (Consumer name parameters infos (MqConn false 0) true None) else None
  | _, _ => None
  end.

Definition agcmq_consumer_destroy (k : agcmq_consumer_profile) (w : world) : result (world * agcmq_consumer_profile) :=
  let! (w, c) := (if active (c_conn k) then agcmq_connection_close (c_conn k) w else Ok (w, c_conn k)) in
  Ok (w, Consumer (c_name k) (c_parameter k) [] c false (queueName k)).

Definition add_consumer (k : agcmq_consumer_profile) (consumers : list agcmq_consumer_profile) : list agcmq_consumer_profile :=
  consumers ++ [k].

(** A step of the connection failed: it is closed. *)
Definition give_up_conn (k : agcmq_consumer_profile) (w : world) : result (world * agcmq_consumer_profile) :=
  let! (w, c) := agcmq_connection_close (c_conn k) w in Ok (w, with_cconn c k).

(** Connecting, with the exchange, the queue and its binding. *)
Definition consumer_connect (k : agcmq_consumer_profile) (w : world) : result (world * agcmq_consumer_profile) :=
  let! (w, c, status) := agcmq_connection_open (c_infos k) (c_conn k) w in
  let k := with_cconn c k in
  if negb (bool_decide (status = AGC_STATUS_SUCCESS)) then Ok (w, k)
  else
    let! (w, r) := exchange_declare (state c) (ex_name (c_parameter k)) (Some (bytes_of "topic")) w in
    if negb (r =? 0) then give_up_conn k w
    else
      let! qn := cstring_bytes (queuename (c_parameter k)) in
      let '(l, reply, given) := queue_declare (lib w) qn in
      let w := with_lib l w in
      if negb (agcmq_parse_amqp_reply reply =? 0) then give_up_conn k w
      else
        let k := with_qname (Some given) k in
        let! ex := cstring_bytes (ex_name (c_parameter k)) in
        let! bk := cstring_bytes (bind_key (c_parameter k)) in
        let! (w, r) := call (state c) (QueueBind given ex bk) w in
        if negb (r =? 0) then give_up_conn k w else Ok (w, k).

(** What a message makes the consumer do. *)
Inductive action := Execute (command : cstr) | FireJson (text : cstr).

Inductive ECommandFormat := COMMAND_FORMAT_UNKNOWN | COMMAND_FORMAT_PLAINTEXT | COMMAND_FORMAT_JSONTEXT.

Definition command_format (e : envelope) : ECommandFormat :=
  match content_type e with
  | None => COMMAND_FORMAT_PLAINTEXT
  | Some t =>
      if Esl.has_prefix (bytes_of "text/plain") t then COMMAND_FORMAT_PLAINTEXT
      else if Esl.has_prefix MQ_DEFAULT_CONTENT_TYPE t then COMMAND_FORMAT_JSONTEXT
      else COMMAND_FORMAT_UNKNOWN
  end.

(** A command is cut to 1023 bytes; the text of an event is read up to the
    next zero byte, wherever that is. *)
Definition perform (e : envelope) : list action :=
  match command_format e with
  | COMMAND_FORMAT_PLAINTEXT => [Execute (take 1023 (cstring (e_body e)))]
  | COMMAND_FORMAT_JSONTEXT => [FireJson (cstring (e_body e ++ behind e))]
  | COMMAND_FORMAT_UNKNOWN => []
  end.

(** One message of the inner loop; [false] when the loop is left. *)
Definition consume_one (k : agcmq_consumer_profile) (w : world) : result (world * list action * bool) :=
  if negb (bool_decide (state (c_conn k) ∈ handles w)) then Fault BadPointer
  else
    let '(l, res, e) := consume_message (lib w) in
    let w := with_lib l w in
    match res with
    | AMQP_RESPONSE_LIBRARY_EXCEPTION err =>
        match err with
        | AMQP_STATUS_UNEXPECTED_STATE => Ok (with_lib (wait_frame (lib w)) w, [], true)
        | AMQP_STATUS_OTHER _ => Ok (w, [], true)
        | _ => Ok (w, [], false)
        end
    | AMQP_RESPONSE_NORMAL => Ok (w, perform e, true)
    | _ => Ok (w, [], false)
    end.

Fixpoint consume_loop (fuel : nat) (k : agcmq_consumer_profile) (w : world) : result (world * list action) :=
  match fuel with
  | O => OutOfFuel
  | S fuel' =>
      if negb (c_running k && active (c_conn k)) then Ok (w, [])
      else
        let! (w, a, more) := consume_one k w in
        if more then let! (w, a') := consume_loop fuel' k w in Ok (w, a ++ a') else Ok (w, a)
  end.

(** A turn of the outer loop of [agcmq_consumer_thread], with what it has done. *)
Definition consumer_turn (fuel : nat) (k : agcmq_consumer_profile) (w : world)
    : result (world * agcmq_consumer_profile * list action) :=
  if negb (active (c_conn k)) then let! (w, k) := consumer_connect k w in Ok (w, k, [])
  else
    let! (w, r) := call (state (c_conn k)) (BasicConsume (default [] (queueName k))) w in
    if negb (r =? 0) then let! (w, k) := give_up_conn k w in Ok (w, k, [])
    else
      let! (w, a) := consume_loop fuel k w in
      let! (w, k) := give_up_conn (with_qname None k) w in
      Ok (w, k, a).

(** ** Loading *)

(** A file of the directory is read if its name ends in [.yml]. *)
Definition is_profile (name : cstr) : bool := bool_decide (Utils.after_last 46 name = Some (bytes_of "yml")).

(** The loop over the directory, a list of names and their tokens. *)
Fixpoint agcmq_load_config (b : bus) (thread : bool) (files : list (cstr * list Yaml.yaml_token))
    (ps : list agcmq_producer_profile) (cs : list agcmq_consumer_profile) (w : world)
    : result (world * list agcmq_producer_profile * list agcmq_consumer_profile) :=
  match files with
  | [] => Ok (w, ps, cs)
  | (fname, tokens) :: files' =>
      if negb (is_profile fname) then agcmq_load_config b thread files' ps cs w
      else
        let! (name, type, infos, parameters) := agcmq_load_profile tokens in
        match name, type, infos with
        | Some _, Some ty, _ :: _ =>
            if bool_decide (ty = bytes_of "producer") then
              let! (w, p) := agcmq_producer_create b thread name infos parameters w in
              agcmq_load_config b thread files' (match p with Some p => add_producer p ps | None => ps end) cs w
            else if bool_decide (ty = bytes_of "consumer") then
              agcmq_load_config b thread files' ps
                (match agcmq_consumer_create name infos parameters thread with Some k => add_consumer k cs | None => cs end) w
            else agcmq_load_config b thread files' ps cs w
        | _, _, _ => agcmq_load_config b thread files' ps cs w
        end
  end.

(** [mod_rabbitmq_shutdown], after the threads have been joined. *)
Fixpoint destroy_producers (ps : list agcmq_producer_profile) (w : world) : result world :=
  match ps with
  | [] => Ok w
  | p :: ps' => let! (w, _) := agcmq_producer_destroy p w in destroy_producers ps' w
  end.
Fixpoint destroy_consumers (cs : list agcmq_consumer_profile) (w : world) : result world :=
  match cs with
  | [] => Ok w
  | k :: cs' => let! (w, _) := agcmq_consumer_destroy k w in destroy_consumers cs' w
  end.
Definition mod_rabbitmq_shutdown (ps : list agcmq_producer_profile) (cs : list agcmq_consumer_profile) (w : world) : result world :=
  let! w := destroy_producers ps w in destroy_consumers cs w.

End module.
End Rabbit.
