(* ===== verification/RabbitProof.v ===== *)
(** * The message queue module: what reaches the broker

    With a broker that accepts what is published, every message a producer has
    taken is published exactly once and in order; a broker that refuses one
    brings the process down when it is reached again. *)

From stdpp Require Import base gmap list fin_maps strings.
From Stdlib Require Import ZArith Lia.
From S2P Require Import Prelude CString Queue Event EventProof EventBus Json JsonMain EventJson Utils Yaml EventSocket Rabbit.

Module RabbitProof.
Import Ev Bus EvJson Rabbit.

Section producer.
Context `{Amqp}.

(** ** One producer and its messages *)

(** The message the thread holds, as a list. *)
Definition held (msg : Z) : list Z := if msg =? 0 then [] else [msg].

(** A message with a terminated key and a text. *)
Definition sendable (m : agcmq_message) : Prop := 0 ∈ routing_key m /\ is_Some (pjson m).

(** What is published of a message. *)
Definition wire (ex : cstr) (m : agcmq_message) : cstr * cstr * cstr := (ex, cstring (routing_key m), default [] (pjson m)).

Record prod_ok (ex : cstr) (w : world) (p : agcmq_producer_profile) (msg : Z) (ns : list agcmq_message) : Prop := ProdOk {
  po_running : running p = true;
  po_ex : ex_name (conn_parameter p) = Some ex;
  po_next : 0 < next_message w;
  po_sendable : Forall sendable ns;
  po_queue : exists q, send_queue p = Some q /\ Queue.wf q /\ Queue.terminated q = false /\ Queue.bounds q = MQ_EVENT_LIMIT /\
    owned (messages w) (next_message w) (held msg ++ Queue.contents q) ns }.

(** The connection is up. *)
Definition connected (w : world) (p : agcmq_producer_profile) : Prop := active (mq_conn p) = true /\ state (mq_conn p) ∈ handles w.

(** There is no room for another message. *)
Definition no_room (p : agcmq_producer_profile) : bool :=
  match send_queue p with Some q => Queue.apr_queue_full q | None => true end.

Lemma enqueue_ok ex now m w p msg ns : prod_ok ex w p msg ns -> sendable m ->
  exists w' p', enqueue now m p w = Ok (w', p') /\ published w' = published w /\ lib w' = lib w /\ handles w' = handles w /\
    mq_conn p' = mq_conn p /\ conn_parameter p' = conn_parameter p /\
    prod_ok ex w' p' msg (if no_room p then ns else ns ++ [m]).
Proof.
  intros [Hr Hex Hn Hs (q & Hq & Hw & Ht & Hb & Ho)] Hm. unfold enqueue, no_room. rewrite Hq.
  unfold Queue.apr_queue_trypush. rewrite Ht. destruct (Queue.apr_queue_full q) eqn:E; cbn [rbind].
  - rewrite bool_decide_eq_false_2 by done. unfold agcmq_producer_msg_destroy. rewrite (proj2 (Z.eqb_neq _ _)) by lia.
    cbn [messages with_messages next_message]. rewrite lookup_insert_eq. cbn [rbind]. eexists _, _. split; [done|].
    split_and!; try done. split; cbn; try done; [lia|]. exists q. split_and!; try done.
    apply (owned_frame (messages w) _ (next_message w)); [|lia|done]. intros a Ha.
    pose proof (od_range _ _ _ _ Ho) as Hrg. rewrite Forall_forall in Hrg. specialize (Hrg a Ha).
    rewrite lookup_delete_ne, lookup_insert_ne by lia. done.
  - unfold Queue.apr_queue_full in E. apply Z.eqb_neq in E. pose proof (Queue.wf_nelts q Hw).
    destruct (Queue.put_spec q (next_message w) Hw) as (q' & -> & Hw' & Hc' & _ & _ & Ht' & Hb'); [lia|]. cbn [rbind].
    rewrite bool_decide_eq_true_2 by done. eexists _, _. split; [done|]. split_and!; try done. split; cbn; try done; [lia| |].
    + apply Forall_app. split; [done|]. by apply Forall_singleton.
    + exists q'. split_and!; try done; [congruence|congruence|]. rewrite Hc', app_assoc. by apply owned_push.
Qed.

(** The next message is taken from the queue when none is held. *)
Lemma take_message_ok ex w p msg ns : prod_ok ex w p msg ns ->
  exists p' msg', take_message p msg = Ok (p', msg') /\ prod_ok ex w p' msg' ns /\ (msg' = 0 -> ns = []) /\
    mq_conn p' = mq_conn p /\ conn_parameter p' = conn_parameter p /\ conn_infos p' = conn_infos p.
Proof.
  intros Hok. pose proof Hok as [Hr Hex Hn Hs (q & Hq & Hw & Ht & Hb & Ho)]. unfold take_message.
  destruct (msg =? 0) eqn:E; cbn [negb].
  2:{ exists p, msg. split_and!; try done. intros ->. done. }
  apply Z.eqb_eq in E. subst msg. rewrite Hq. unfold Queue.apr_queue_trypop. rewrite Ht. unfold Queue.apr_queue_empty.
  pose proof (Queue.full_length q Hw) as Hlen. pose proof (Queue.wf_nelts q Hw). destruct (Queue.nelts q =? 0) eqn:E0; cbn [rbind].
  - eexists _, _. split; [done|]. split_and!; try done.
    + split; cbn; try done. exists q. by split_and!.
    + intros _. apply length_zero_iff_nil. rewrite <- (owned_length _ _ _ _ Ho). cbn. lia.
  - destruct (Queue.get_spec q Hw) as (q' & v & L & -> & Hw' & Hc & Hc' & _ & _ & Ht' & Hb'); [lia|]. cbn [rbind default].
    cbn [held app] in Ho. rewrite Hc in Ho. cbn in Ho.
    assert (0 < v) as Hv by (pose proof (od_range _ _ _ _ Ho) as [? _]%Forall_cons; lia).
    exists (with_queue q' p), v. split_and!; try done; [|lia].
    split; cbn; try done. exists q'. split_and!; try done; [congruence|congruence|].
    unfold held. rewrite (proj2 (Z.eqb_neq _ _)) by lia. by rewrite Hc'.
Qed.

(** Sending the held message when the broker accepts it. *)
Lemma send_ok ex w p msg n ns : prod_ok ex w p msg (n :: ns) -> msg <> 0 -> connected w p ->
  0 <= snd (basic_publish (lib w) ex (cstring (routing_key n)) (default [] (pjson n))) ->
  exists w' w'', agcmq_producer_send p msg w = Ok (w', p, AGC_STATUS_SUCCESS) /\ agcmq_producer_msg_destroy msg w' = Ok w'' /\
    published w'' = published w ++ [wire ex n] /\ handles w'' = handles w /\ prod_ok ex w'' p 0 ns.
Proof.
  intros [Hr Hex Hn Hs (q & Hq & Hw & Ht & Hb & Ho)] Hmsg [Ha Hh] Hst. unfold held in Ho. rewrite (proj2 (Z.eqb_neq _ _)) in Ho by done.
  cbn [app] in Ho. apply owned_pop in Ho as (Hm & Hp & _ & Ho). apply Forall_cons in Hs as [[Hk [t Htx]] Hs].
  unfold agcmq_producer_send. rewrite Ha, Hm, Hex, Htx in *. cbn [negb cstring_bytes rbind default] in *. unfold array_text.
  rewrite (proj2 (existsb_exists _ _)) by (exists 0; split; [by apply list_elem_of_In|done]). cbn [rbind].
  rewrite bool_decide_eq_true_2 by done. cbn [negb from_option id] in *. destruct (basic_publish _ _ _ _) as [l st]. cbn [snd] in Hst.
  rewrite (proj2 (Z.ltb_ge _ _)) by lia. eexists _, _. split; [done|].
  unfold agcmq_producer_msg_destroy. rewrite (proj2 (Z.eqb_neq _ _)) by done. cbn [messages with_published with_lib].
  rewrite Hm. split; [done|]. cbn. split_and!; try done; [unfold wire; by rewrite Htx|].
  split; cbn; try done. exists q. by split_and!.
Qed.

(** A turn publishes the next message, if there is one. *)
Lemma turn_ok ex w p msg ns : (forall l e k t, 0 <= snd (basic_publish l e k t)) -> prod_ok ex w p msg ns -> connected w p ->
  exists w' p', producer_turn p msg w = Ok (w', p', Some 0) /\ published w' = published w ++ (wire ex <$> take 1 ns) /\
    prod_ok ex w' p' 0 (drop 1 ns) /\ connected w' p'.
Proof.
  intros Hacc Hok Hcon. unfold producer_turn. rewrite (po_running _ _ _ _ _ Hok). cbn [negb]. unfold reconnect.
  rewrite (proj1 Hcon). cbn [rbind]. destruct (take_message_ok ex w p msg ns Hok) as (p' & msg' & -> & Hok' & Hz & Hc & _).
  cbn [rbind]. assert (connected w p') as Hcon' by (unfold connected; rewrite Hc; exact Hcon).
  destruct (msg' =? 0) eqn:E.
  - apply Z.eqb_eq in E. subst msg'. rewrite (Hz eq_refl) in *. exists w, p'. cbn. rewrite app_nil_r. by split_and!.
  - apply Z.eqb_neq in E. destruct ns as [|n ns].
    { pose proof (po_queue _ _ _ _ _ Hok') as (q & _ & _ & _ & _ & Ho). apply owned_length in Ho. unfold held in Ho.
      rewrite (proj2 (Z.eqb_neq _ _)) in Ho by done. done. }
    destruct (send_ok ex w p' msg' n ns Hok' E Hcon') as (w1 & w2 & -> & Hd & Hpub & Hh & Hok2); [apply Hacc|]. cbn [rbind].
    rewrite bool_decide_eq_true_2 by done. rewrite Hd. cbn [rbind]. exists w2, p'. split; [done|]. split; [done|]. cbn [drop]. split.
    + by rewrite drop_0.
    + unfold connected in *. by rewrite Hh.
Qed.

(** ** Sequences of events and turns *)

Inductive op := OEvent (now : Z) (m : agcmq_message) | OTurn.

(** The messages that were taken up are collected. *)
Fixpoint run (os : list op) (w : world) (p : agcmq_producer_profile) (msg : Z)
    : result (world * agcmq_producer_profile * option Z * list agcmq_message) :=
  match os with
  | [] => Ok (w, p, Some msg, [])
  | OEvent now m :: os' =>
      let taken := if no_room p then [] else [m] in
      let! (w, p) := enqueue now m p w in
      let! (w, p, msg, acc) := run os' w p msg in
      Ok (w, p, msg, taken ++ acc)
  | OTurn :: os' =>
      let! (w, p, msg) := producer_turn p msg w in
      match msg with Some msg => run os' w p msg | None => Ok (w, p, None, []) end
  end.

Definition op_ok (o : op) : Prop := match o with OEvent _ m => sendable m | OTurn => True end.

Lemma run_ok ex os : (forall l e k t, 0 <= snd (basic_publish l e k t)) -> Forall op_ok os -> forall w p msg ns,
  prod_ok ex w p msg ns -> connected w p ->
  exists w' p' msg' acc sent rest, run os w p msg = Ok (w', p', Some msg', acc) /\ ns ++ acc = sent ++ rest /\
    published w' = published w ++ (wire ex <$> sent) /\ prod_ok ex w' p' msg' rest /\ connected w' p'.
Proof.
  intros Hacc. induction 1 as [|o os Ho _ IH]; intros w p msg ns Hok Hcon; cbn [run].
  { exists w, p, msg, [], [], ns. cbn. rewrite !app_nil_r. by split_and!. }
  destruct o as [now m|].
  - destruct (enqueue_ok ex now m w p msg ns Hok Ho) as (w1 & p1 & -> & Hpub & _ & Hh & Hc & _ & Hok1). cbn [rbind].
    destruct (IH w1 p1 msg _ Hok1) as (w' & p' & msg' & acc & sent & rest & -> & Hacc' & Hpub' & Hok' & Hcon').
    { unfold connected in *. by rewrite Hc, Hh. }
    cbn [rbind]. eexists w', p', msg', _, sent, rest. split; [done|]. rewrite Hpub', Hpub. split_and!; try done.
    rewrite <- Hacc'. destruct (no_room p); [done|]. by rewrite <- app_assoc.
  - destruct (turn_ok ex w p msg ns Hacc Hok Hcon) as (w1 & p1 & -> & Hpub & Hok1 & Hcon1). cbn [rbind].
    destruct (IH w1 p1 0 _ Hok1 Hcon1) as (w' & p' & msg' & acc & sent & rest & -> & Hacc' & Hpub' & Hok' & Hcon').
    exists w', p', msg', acc, (take 1 ns ++ sent), rest. split; [done|]. split_and!; try done.
    + by rewrite <- app_assoc, <- Hacc', app_assoc, take_drop.
    + by rewrite Hpub', Hpub, fmap_app, app_assoc.
Qed.

Lemma run_app os1 os2 w p msg : run (os1 ++ os2) w p msg =
  (let! (w, p, msg, acc) := run os1 w p msg in
   match msg with
   | Some msg => let! (w, p, msg, acc') := run os2 w p msg in Ok (w, p, msg, acc ++ acc')
   | None => Ok (w, p, None, acc)
   end).
Proof.
  revert w p msg. induction os1 as [|[now m|] os1 IH]; intros w p msg; cbn [run app rbind].
  - by destruct (run os2 w p msg) as [[[[? ?] ?] ?]| |].
  - destruct (enqueue now m p w) as [[w1 p1]| |]; cbn [rbind]; [|done|done]. rewrite IH.
    destruct (run os1 w1 p1 msg) as [[[[w2 p2] [msg2|]] acc]| |]; cbn [rbind]; [|done|done|done].
    destruct (run os2 w2 p2 msg2) as [[[[? ?] ?] ?]| |]; cbn [rbind]; [|done|done]. by rewrite app_assoc.
  - destruct (producer_turn p msg w) as [[[w1 p1] [msg1|]]| |]; cbn [rbind]; [apply IH|done|done|done].
Qed.

(** As many turns as there are messages. *)
Lemma run_turns ex : (forall l e k t, 0 <= snd (basic_publish l e k t)) -> forall ns w p msg, prod_ok ex w p msg ns -> connected w p ->
  exists w' p' msg', run (replicate (length ns) OTurn) w p msg = Ok (w', p', Some msg', []) /\
    published w' = published w ++ (wire ex <$> ns) /\ prod_ok ex w' p' msg' [].
Proof.
  intros Hacc. induction ns as [|n ns IH]; intros w p msg Hok Hcon; cbn [length replicate run].
  { exists w, p, msg. cbn. rewrite app_nil_r. by split_and!. }
  destruct (turn_ok ex w p msg (n :: ns) Hacc Hok Hcon) as (w1 & p1 & -> & Hpub & Hok1 & Hcon1). cbn [rbind].
  cbn in Hok1. rewrite drop_0 in Hok1. destruct (IH w1 p1 0 Hok1 Hcon1) as (w' & p' & msg' & -> & Hpub' & Hok').
  exists w', p', msg'. split_and!; try done. rewrite Hpub', Hpub. cbn. by rewrite <- app_assoc.
Qed.

(** ** Losing the connection *)

Lemma call_ok h c w : h ∈ handles w -> exists l r, call h c w = Ok (with_lib l w, r).
Proof. intros Hh. unfold call. rewrite bool_decide_eq_true_2 by done. destruct (amqp_rpc (lib w) c) as [l r]. by eauto. Qed.

Lemma close_ok c w : state c ∈ handles w ->
  exists l, agcmq_connection_close c w = Ok (with_handles (handles w ∖ {[ state c ]}) (next_handle w) (with_lib l w), MqConn false (state c)).
Proof.
  intros Hh. unfold agcmq_connection_close. destruct (call_ok (state c) ChannelClose w Hh) as (l1 & r1 & ->). cbn [rbind].
  destruct (call_ok (state c) ConnectionClose (with_lib l1 w) Hh) as (l2 & r2 & ->). cbn [rbind].
  unfold amqp_destroy_connection. rewrite bool_decide_eq_true_2 by done. by exists l2.
Qed.

(** A refused message is kept, and the connection is closed. *)
Lemma send_refused ex w p msg n ns : prod_ok ex w p msg (n :: ns) -> msg <> 0 -> connected w p ->
  snd (basic_publish (lib w) ex (cstring (routing_key n)) (default [] (pjson n))) < 0 ->
  exists l, agcmq_producer_send p msg w =
    Ok (with_handles (handles w ∖ {[ state (mq_conn p) ]}) (next_handle w) (with_lib l w), with_conn (MqConn false (state (mq_conn p))) p, AGC_STATUS_SOCKERR).
Proof.
  intros [Hr Hex Hn Hs (q & Hq & Hw & Ht & Hb & Ho)] Hmsg [Ha Hh] Hst. unfold held in Ho. rewrite (proj2 (Z.eqb_neq _ _)) in Ho by done.
  cbn [app] in Ho. apply owned_pop in Ho as (Hm & _). apply Forall_cons in Hs as [[Hk [t Htx]] Hs].
  unfold agcmq_producer_send. rewrite Ha, Hm, Hex, Htx in *. cbn [negb cstring_bytes rbind default] in *. unfold array_text.
  rewrite (proj2 (existsb_exists _ _)) by (exists 0; split; [by apply list_elem_of_In|done]). cbn [rbind].
  rewrite bool_decide_eq_true_2 by done. cbn [negb from_option id] in *. destruct (basic_publish _ _ _ _) as [l st]. cbn [snd] in Hst.
  rewrite (proj2 (Z.ltb_lt _ _)) by lia. destruct (close_ok (mq_conn p) (with_lib l w) Hh) as [l' ->]. by exists l'.
Qed.

(** A broker that can be reached. *)
Record reachable : Prop := Reachable {
  re_socket : forall l, snd (socket_new l) = true;
  re_open : forall l h n, snd (socket_open l h n) = 0 }.

(** Connecting with a handle that is not live any more. *)
Lemma open_stale infos c w : reachable -> (forall l v u pw, snd (amqp_login l v u pw) = AMQP_RESPONSE_NORMAL) -> infos <> [] ->
  state c <> 0 -> state c ∉ handles w -> state c < next_handle w ->
  agcmq_connection_open infos c w = Fault BadFree.
Proof.
  intros [Hso Hop] Hlog Hi H0 Hh Hn. unfold agcmq_connection_open. cbn [amqp_new_connection].
  destruct infos as [|i infos]; [done|]. cbn [lib with_handles]. specialize (Hso (lib w)). destruct (socket_new (lib w)) as [l1 b].
  cbn [snd] in Hso. subst b. cbn [negb open_any lib with_lib]. specialize (Hop l1 (hostname i) (port i)).
  destruct (socket_open _ _ _) as [l2 st]. cbn [snd] in Hop. subst st. cbn [Z.eqb lib with_lib].
  specialize (Hlog l2 (virtualhost i) (username i) (password i)). destruct (amqp_login _ _ _ _) as [l3 r]. cbn [snd] in Hlog. subst r.
  cbn [agcmq_parse_amqp_reply Z.eqb negb].
  destruct (call_ok (next_handle w) ChannelOpen (with_lib l3 (with_lib l2 (with_lib l1 (with_handles (handles w ∪ {[ next_handle w ]}) (next_handle w + 1) w))))) as (l4 & r4 & ->);
    [cbn; set_solver|]. cbn [rbind].
  rewrite (proj2 (Z.eqb_neq _ _)) by done. unfold amqp_destroy_connection. cbn [handles with_lib with_handles].
  rewrite bool_decide_eq_false_2; [done|]. intros Hin. apply elem_of_union in Hin as [Hin|Hin%elem_of_singleton]; [done|lia].
Qed.

(** A login that is refused closes the connection there was: none. *)
Lemma open_refused infos w : reachable -> (forall l v u pw, snd (amqp_login l v u pw) <> AMQP_RESPONSE_NORMAL) -> infos <> [] ->
  0 ∉ handles w -> 0 < next_handle w -> agcmq_connection_open infos (MqConn false 0) w = Fault BadPointer.
Proof.
  intros [Hso Hop] Hlog Hi H0 Hn. unfold agcmq_connection_open. cbn [amqp_new_connection].
  destruct infos as [|i infos]; [done|]. cbn [lib with_handles]. specialize (Hso (lib w)). destruct (socket_new (lib w)) as [l1 b].
  cbn [snd] in Hso. subst b. cbn [negb open_any lib with_lib]. specialize (Hop l1 (hostname i) (port i)).
  destruct (socket_open _ _ _) as [l2 st]. cbn [snd] in Hop. subst st. cbn [Z.eqb lib with_lib].
  specialize (Hlog l2 (virtualhost i) (username i) (password i)). destruct (amqp_login _ _ _ _) as [l3 r]. cbn [snd] in Hlog.
  assert (agcmq_parse_amqp_reply r = -1) as -> by (by destruct r). cbn [Z.eqb negb].
  unfold agcmq_connection_close, call. cbn [state handles with_lib with_handles].
  rewrite bool_decide_eq_false_2; [done|]. intros Hin. apply elem_of_union in Hin as [Hin|Hin%elem_of_singleton]; [done|lia].
Qed.

End producer.

(** ** Profiles *)

Definition key_of (t : target) : cstr :=
  match list_find (fun x => x.2 = t) keys with Some (_, (k, _)) => k | None => [] end.

Definition of_connection (t : target) : Prop :=
  match t with THostname | TVirtualhost | TUsername | TPassword | TPort | THeartbeat => True | _ => False end.
Definition of_parameters (t : target) : Prop :=
  match t with TName | TType => False | _ => ~ of_connection t end.

(** The entries of a mapping, and the profile as a file gives it. *)
Definition field_tokens (fs : list (target * cstr)) : list Yaml.yaml_token := concat ((fun x => Yaml.entry (key_of x.1) x.2) <$> fs).
Definition connection_tokens (fs : list (target * cstr)) : list Yaml.yaml_token :=
  Yaml.YAML_BLOCK_ENTRY_TOKEN :: Yaml.YAML_OTHER_TOKEN :: field_tokens fs ++ [Yaml.YAML_BLOCK_END_TOKEN].
Definition block_start (k : cstr) : list Yaml.yaml_token :=
  [Yaml.YAML_KEY_TOKEN; Yaml.YAML_SCALAR_TOKEN k; Yaml.YAML_VALUE_TOKEN; Yaml.YAML_OTHER_TOKEN].
Definition profile_tokens (n t : cstr) (cs : list (list (target * cstr))) (ps : list (target * cstr)) : list Yaml.yaml_token :=
  Yaml.YAML_OTHER_TOKEN :: Yaml.entry (bytes_of "name") n ++ Yaml.entry (bytes_of "type") t ++
  block_start (bytes_of "connections") ++ concat (connection_tokens <$> cs) ++ [Yaml.YAML_BLOCK_END_TOKEN] ++
  block_start (bytes_of "parameters") ++ field_tokens ps ++ [Yaml.YAML_BLOCK_END_TOKEN; Yaml.YAML_BLOCK_END_TOKEN].

Definition info_of (fs : list (target * cstr)) (i : agcmq_connection_info) : agcmq_connection_info :=
  foldl (fun i x => set_info x.1 x.2 i) i fs.
Definition para_of (ps : list (target * cstr)) (p : agcmq_conn_parameter) : agcmq_conn_parameter :=
  foldl (fun p x => set_para x.1 x.2 p) p ps.

Lemma key_found t : find_key (key_of t) keys = Some t.
Proof. by destruct t; vm_compute. Qed.
Lemma key_plain t : key_of t <> bytes_of "connections" /\ key_of t <> bytes_of "parameters".
Proof. destruct t; split; vm_compute; discriminate. Qed.

(** Where the reader is. *)
Definition at_state (b : bool) (cs : list agcmq_connection_info) (p : agcmq_conn_parameter) (n t : option cstr) (s : profile_state) : Prop :=
  in_connections s = b /\ conns s = cs /\ para s = p /\ profile_name s = n /\ profile_type s = t.

Lemma connection_field s b cs i p n t x v : at_state b (cs ++ [i]) p n t s -> of_connection x ->
  exists s', Yaml.steps profile_step s (Yaml.entry (key_of x) v) = Ok s' /\ at_state b (cs ++ [set_info x v i]) p n t s'.
Proof.
  intros (Hb & Hc & Hp & Hn & Ht) Hx. cbn [Yaml.steps Yaml.entry profile_step rbind iskey]. unfold profile_key.
  destruct (key_plain x) as [H1 H2]. rewrite !bool_decide_eq_false_2 by done. rewrite key_found.
  assert (current (ProfileState true (in_connections s) (value_to s) (conns s) (para s) (profile_name s) (profile_type s)) = Some (length cs)) as Hcur.
  { unfold current. cbn [conns]. rewrite Hc. destruct cs; cbn; [done|]. f_equal. rewrite length_app. cbn. lia. }
  destruct x; try done; rewrite Hcur; cbn; unfold profile_value; cbn; eexists; (split; [done|]);
    (split; [done|split; [|done]]); cbn; rewrite Hc; by rewrite alter_app_r_alt, Nat.sub_diag by lia.
Qed.

Lemma connection_fields fs : forall s b cs i p n t, Forall (fun x => of_connection x.1) fs -> at_state b (cs ++ [i]) p n t s ->
  exists s', Yaml.steps profile_step s (field_tokens fs) = Ok s' /\ at_state b (cs ++ [info_of fs i]) p n t s'.
Proof.
  induction fs as [|[x v] fs IH]; intros s b cs i p n t Hf Hs; [by exists s|]. apply Forall_cons in Hf as [Hx Hf].
  unfold field_tokens. cbn [fmap list_fmap concat fst snd]. rewrite Yaml.steps_app.
  destruct (connection_field s b cs i p n t x v Hs Hx) as (s1 & -> & Hs1). cbn [rbind]. by apply IH.
Qed.

Lemma parameter_field s b cs p n t x v : at_state b cs p n t s -> of_parameters x ->
  exists s', Yaml.steps profile_step s (Yaml.entry (key_of x) v) = Ok s' /\ at_state b cs (set_para x v p) n t s'.
Proof.
  intros (Hb & Hc & Hp & Hn & Ht) Hx. cbn [Yaml.steps Yaml.entry profile_step rbind iskey]. unfold profile_key.
  destruct (key_plain x) as [H1 H2]. rewrite !bool_decide_eq_false_2 by done. rewrite key_found.
  destruct x; try (by destruct Hx); cbn; unfold profile_value; cbn; eexists; (split; [done|]); repeat (split; [done|]);
    (split; [by rewrite Hp|done]).
Qed.

Lemma parameter_fields ps : forall s b cs p n t, Forall (fun x => of_parameters x.1) ps -> at_state b cs p n t s ->
  exists s', Yaml.steps profile_step s (field_tokens ps) = Ok s' /\ at_state b cs (para_of ps p) n t s'.
Proof.
  induction ps as [|[x v] ps IH]; intros s b cs p n t Hf Hs; [by exists s|]. apply Forall_cons in Hf as [Hx Hf].
  unfold field_tokens. cbn [fmap list_fmap concat fst snd]. rewrite Yaml.steps_app.
  destruct (parameter_field s b cs p n t x v Hs Hx) as (s1 & -> & Hs1). cbn [rbind]. by apply IH.
Qed.

Lemma connections_read cs : forall s cs0 p n t, Forall (Forall (fun x => of_connection x.1)) cs -> at_state true cs0 p n t s ->
  exists s', Yaml.steps profile_step s (concat (connection_tokens <$> cs)) = Ok s' /\
    at_state true (cs0 ++ ((fun fs => info_of fs empty_info) <$> cs)) p n t s'.
Proof.
  induction cs as [|fs cs IH]; intros s cs0 p n t Hf Hs.
  { exists s. cbn. by rewrite app_nil_r. }
  apply Forall_cons in Hf as [Hfs Hf]. cbn [fmap list_fmap concat connection_tokens app]. destruct Hs as (Hb & Hc & Hp & Hn & Ht).
  cbn [Yaml.steps profile_step]. rewrite Hb. cbn [rbind]. rewrite <- app_assoc, Yaml.steps_app.
  destruct (connection_fields fs (ProfileState (iskey s) true (value_to s) (conns s ++ [empty_info]) (para s) (profile_name s) (profile_type s))
    true cs0 empty_info p n t Hfs) as (s1 & -> & Hs1); [split; [done|]; cbn; by rewrite Hc|].
  cbn [rbind app Yaml.steps profile_step]. destruct (IH s1 _ p n t Hf Hs1) as (s2 & -> & Hs2). exists s2. split; [done|].
  cbn. by rewrite <- app_assoc in Hs2.
Qed.

Lemma profile_goes_on n t cs ps : Forall Yaml.goes_on (profile_tokens n t cs ps).
Proof.
  assert (forall fs, Forall Yaml.goes_on (field_tokens fs)) as Hf.
  { intros fs. unfold field_tokens. apply Forall_concat, Forall_fmap, Forall_forall. intros x _. by repeat constructor. }
  assert (Forall Yaml.goes_on (concat (connection_tokens <$> cs))) as Hc.
  { apply Forall_concat, Forall_fmap, Forall_forall. intros fs _. cbn. unfold connection_tokens.
    repeat (apply Forall_cons; split; [done|]). apply Forall_app. split; [apply Hf|by repeat constructor]. }
  unfold profile_tokens. apply Forall_cons. split; [done|].
  repeat first [apply Hf | apply Hc | apply Forall_app; split | by repeat constructor].
Qed.

Lemma profile_head n t :
  exists s, Yaml.steps profile_step profile_start
      (Yaml.YAML_OTHER_TOKEN :: Yaml.entry (bytes_of "name") n ++ Yaml.entry (bytes_of "type") t ++ block_start (bytes_of "connections")) = Ok s /\
    at_state true [] (para profile_start) (Some n) (Some t) s.
Proof. eexists. split; [vm_compute; reflexivity|done]. Qed.

Lemma parameters_head s b cs p n t : at_state b cs p n t s ->
  exists s', Yaml.steps profile_step s (Yaml.YAML_BLOCK_END_TOKEN :: block_start (bytes_of "parameters")) = Ok s' /\ at_state false cs p n t s'.
Proof. intros (Hb & Hc & Hp & Hn & Ht). eexists. split; [reflexivity|]. done. Qed.

End RabbitProof.

Import Ev Bus Rabbit RabbitProof.

(** C27: Events reach the broker exactly once and in order: with a connection that
    is up and a broker that accepts what is published, under every
    interleaving of events and turns of the producer's thread no access goes
    wrong, what has been published is the beginning of the messages taken up,
    each once and in their order, the rest is with the producer, and as many
    more turns as messages were taken up publish all of them. *)
Theorem mq_exactly_once `{Amqp} ex w p os :
  (forall l e k t, 0 <= snd (basic_publish l e k t)) -> prod_ok ex w p 0 [] -> connected w p -> Forall op_ok os ->
  exists w' p' msg' acc sent rest, run os w p 0 = Ok (w', p', Some msg', acc) /\ acc = sent ++ rest /\
    published w' = published w ++ (wire ex <$> sent) /\ prod_ok ex w' p' msg' rest /\
    exists w'' p'' msg'', run (os ++ replicate (length rest) OTurn) w p 0 = Ok (w'', p'', Some msg'', acc) /\
      published w'' = published w ++ (wire ex <$> acc).
Proof.
  intros Hacc Hok Hcon Hos. destruct (run_ok ex os Hacc Hos w p 0 [] Hok Hcon) as (w' & p' & msg' & acc & sent & rest & Hr & Ha & Hp & Hok' & Hcon').
  cbn [app] in Ha. exists w', p', msg', acc, sent, rest. split_and!; try done.
  destruct (run_turns ex Hacc rest w' p' msg' Hok' Hcon') as (w'' & p'' & msg'' & Hr' & Hp' & _).
  exists w'', p'', msg''. rewrite run_app, Hr. cbn [rbind]. rewrite Hr'. cbn [rbind]. rewrite app_nil_r. split; [done|].
  by rewrite Hp', Hp, Ha, fmap_app, app_assoc.
Qed.

(** A broker that answers everything the same way. *)
Definition toy (accepts : bool) (login : amqp_rpc_reply) : Amqp := {|
  amqp := unit;
  socket_new l := (l, true);
  socket_open l _ _ := (l, 0);
  amqp_login l _ _ _ := (l, login);
  amqp_rpc l _ := (l, AMQP_RESPONSE_NORMAL);
  queue_declare l n := (l, AMQP_RESPONSE_NORMAL, n);
  basic_publish l _ _ _ := (l, if accepts then 0 else -1);
  consume_message l := (l, AMQP_RESPONSE_NORMAL, Envelope None [] []);
  wait_frame l := l |}.

Definition toy_infos : list agcmq_connection_info := [Info None (Some (bytes_of "mq")) None None None 5672 0].
Definition toy_parameter : agcmq_conn_parameter :=
  ConnParameter (Some (bytes_of "events")) (Some (bytes_of "topic")) None None 1000 500 0 (Some (bytes_of "all")) 0 1.
Definition toy_producer : agcmq_producer_profile :=
  Producer (bytes_of "p") toy_parameter toy_infos (MqConn true 1) true true 0 (Some (Queue.apr_queue_create MQ_EVENT_LIMIT)) (replicate 1024 true).
Definition toy_world (a : bool) (r : amqp_rpc_reply) : world (H := toy a r) := @World (toy a r) tt {[ 1 ]} 2 ∅ 1 [].
Definition toy_message (t : string) : agcmq_message := Message (bytes_of "host.esl" ++ [0]) (Some (bytes_of t)).

Lemma toy_prod_ok a r : prod_ok (H := toy a r) (bytes_of "events") (toy_world a r) toy_producer 0 [].
Proof.
  split; try done. eexists. split; [done|]. destruct (Queue.wf_create MQ_EVENT_LIMIT) as [Hw Hc]; [unfold MQ_EVENT_LIMIT; lia|].
  split_and!; try done. rewrite Hc. apply owned_nil.
Qed.

Lemma toy_connected a r : connected (H := toy a r) (toy_world a r) toy_producer.
Proof. split; [done|]. cbn. set_solver. Qed.

Lemma toy_sendable t : sendable (toy_message t).
Proof. split; [|by eexists]. cbn. set_solver. Qed.

Lemma mq_exactly_once_witness :
  exists w' p' msg' acc sent rest,
    run (H := toy true AMQP_RESPONSE_NORMAL) [OEvent 5 (toy_message "a"); OEvent 6 (toy_message "b"); OTurn] (toy_world true AMQP_RESPONSE_NORMAL) toy_producer 0 =
      Ok (w', p', Some msg', acc) /\ acc = sent ++ rest /\
    published w' = published (toy_world true AMQP_RESPONSE_NORMAL) ++ (wire (bytes_of "events") <$> sent) /\
    prod_ok (bytes_of "events") w' p' msg' rest /\
    exists w'' p'' msg'', run (H := toy true AMQP_RESPONSE_NORMAL)
      ([OEvent 5 (toy_message "a"); OEvent 6 (toy_message "b"); OTurn] ++ replicate (length rest) OTurn) (toy_world true AMQP_RESPONSE_NORMAL) toy_producer 0 =
      Ok (w'', p'', Some msg'', acc) /\
      published w'' = published (toy_world true AMQP_RESPONSE_NORMAL) ++ (wire (bytes_of "events") <$> acc).
Proof.
  apply (mq_exactly_once (H := toy true AMQP_RESPONSE_NORMAL) (bytes_of "events") (toy_world true AMQP_RESPONSE_NORMAL) toy_producer
    [OEvent 5 (toy_message "a"); OEvent 6 (toy_message "b"); OTurn]).
  - intros. cbn. lia.
  - apply toy_prod_ok.
  - apply toy_connected.
  - repeat constructor; apply toy_sendable.
Defined.

(** A message the broker refuses is fatal: it is kept and the connection is
    closed, which destroys its handle but does not forget it; when the broker
    can be reached again, connecting destroys the same handle once more. *)
Theorem mq_reconnect_double_free `{Amqp} ex w p msg n ns :
  prod_ok ex w p msg (n :: ns) -> connected w p -> 0 < state (mq_conn p) < next_handle w -> conn_infos p <> [] ->
  snd (basic_publish (lib w) ex (cstring (routing_key n)) (default [] (pjson n))) < 0 ->
  reachable -> (forall l v u pw, snd (amqp_login l v u pw) = AMQP_RESPONSE_NORMAL) ->
  exists w1 p1 msg1, producer_turn p msg w = Ok (w1, p1, Some msg1) /\ msg1 <> 0 /\ active (mq_conn p1) = false /\
    published w1 = published w /\ messages w1 = messages w /\ producer_turn p1 msg1 w1 = Fault BadFree.
Proof.
  intros Hok Hcon Hst Hi Href Hre Hlog. pose proof (po_running _ _ _ _ _ Hok) as Hrun.
  destruct (take_message_ok ex w p msg (n :: ns) Hok) as (p' & msg' & Ht & Hok' & Hz & Hc & Hpar & Hinf).
  destruct (decide (msg' = 0)) as [E|E]; [by apply Hz in E|].
  assert (connected w p') as Hcon' by (unfold connected; rewrite Hc; exact Hcon).
  destruct (send_refused ex w p' msg' n ns Hok' E Hcon' Href) as [l Hs].
  exists (with_handles (handles w ∖ {[ state (mq_conn p') ]}) (next_handle w) (with_lib l w)), (with_conn (MqConn false (state (mq_conn p'))) p'), msg'.
  split; [|split; [done|split; [done|split; [done|split; [done|]]]]].
  - unfold producer_turn, reconnect. rewrite Hrun, (proj1 Hcon). cbn [negb rbind]. rewrite Ht. cbn [rbind].
    rewrite (proj2 (Z.eqb_neq _ _)) by done. rewrite Hs. cbn [rbind]. by rewrite bool_decide_eq_false_2 by done.
  - unfold producer_turn, reconnect. cbn [running with_conn mq_conn active conn_infos].
    rewrite (po_running _ _ _ _ _ Hok'). cbn [negb]. rewrite Hinf, (open_stale (conn_infos p)); try done; cbn; rewrite ?Hc; [lia|set_solver|lia].
Qed.

Lemma mq_reconnect_double_free_witness :
  exists w p msg w1 p1 msg1,
    enqueue (H := toy false AMQP_RESPONSE_NORMAL) 5 (toy_message "a") toy_producer (toy_world false AMQP_RESPONSE_NORMAL) = Ok (w, p) /\ msg = 0 /\
    producer_turn p msg w = Ok (w1, p1, Some msg1) /\ msg1 <> 0 /\ active (mq_conn p1) = false /\
    published w1 = published w /\ messages w1 = messages w /\ producer_turn p1 msg1 w1 = Fault BadFree.
Proof.
  destruct (enqueue_ok (H := toy false AMQP_RESPONSE_NORMAL) (bytes_of "events") 5 (toy_message "a") _ _ _ _ (toy_prod_ok false AMQP_RESPONSE_NORMAL)
    (toy_sendable "a")) as (w & p & He & _ & _ & Hh & Hc & _ & Hok).
  assert (next_handle w = 2 /\ conn_infos p = toy_infos) as [Hn Hi] by (by injection He as <- <-).
  assert (exists w1 p1 msg1, producer_turn p 0 w = Ok (w1, p1, Some msg1) /\ msg1 <> 0 /\ active (mq_conn p1) = false /\
    published w1 = published w /\ messages w1 = messages w /\ producer_turn p1 msg1 w1 = Fault BadFree) as (w1 & p1 & msg1 & HR).
  { apply (mq_reconnect_double_free (H := toy false AMQP_RESPONSE_NORMAL) (bytes_of "events") w p 0 (toy_message "a") []).
    - exact Hok.
    - unfold connected. rewrite Hc, Hh. apply toy_connected.
    - rewrite Hc, Hn. cbn. lia.
    - by rewrite Hi.
    - cbn. lia.
    - by split.
    - done. }
  by exists w, p, 0, w1, p1, msg1.
Defined.

(** A broker that can be reached and refuses the login when a producer is
    created brings the process down: the connection closed then is the one
    there was before, which is none. *)
Theorem mq_login_refused_faults `{Amqp} b thread name infos parameters names l w :
  infos <> [] -> event_filter parameters = Some names -> reachable ->
  (forall l v u pw, snd (amqp_login l v u pw) <> AMQP_RESPONSE_NORMAL) -> 0 ∉ handles w -> 0 < next_handle w ->
  (let! ns := Utils.agc_separate_string names 44 (Z.to_nat EVENT_ID_LIMIT) in
   filter_events b ns (replicate (Z.to_nat EVENT_ID_LIMIT) false)) = Ok l ->
  agcmq_producer_create b thread (Some name) infos parameters w = Fault BadPointer.
Proof.
  intros Hi Hf Hre Hlog H0 Hn Hl. unfold agcmq_producer_create. destruct infos as [|i infos]; [done|]. rewrite Hf.
  destruct (Utils.agc_separate_string names 44 _) as [ns| |]; [|done|done]. cbn [rbind] in *. rewrite Hl. cbn [rbind].
  by rewrite open_refused.
Qed.

(** The bus of the witness knows no events. *)
Definition toy_bus : bus := BusState true 1 0 ∅ ∅ [] ∅ ∅ (Store ∅ ∅ 1).

Lemma mq_login_refused_faults_witness :
  agcmq_producer_create (H := toy true AMQP_RESPONSE_NONE) toy_bus true (Some (bytes_of "p")) toy_infos toy_parameter
    (toy_world true AMQP_RESPONSE_NONE) = Fault BadPointer.
Proof.
  apply (mq_login_refused_faults (H := toy true AMQP_RESPONSE_NONE) toy_bus true (bytes_of "p") toy_infos toy_parameter (bytes_of "all")
    (replicate 1024 false)); try done.
  all: by vm_compute.
Defined.

(** A routing key given in a header of the event is taken as it is, and the
    message with it and the JSON text of the event is put behind the others of
    every producer that subscribed; a key of 255 bytes or more is written past
    the end of its array. *)
Theorem mq_event_routing `{Amqp} `{Json.FloatOps} hf host now b event e L x v text st ex w p msg ns :
  event <> NULL -> evts (mem b) !! event = Some e -> EvProof.has_headers (mem b) event L -> (length L < hf)%nat ->
  EvProof.lookup_header L EVENT_HEADER_ROUTING = Some x -> x.2.2 = Some v -> Forall (fun c => c <> 0) v ->
  EvJson.agc_event_serialize_json hf b event = Ok (Some text, st) ->
  prod_ok ex w p msg ns -> reset_time p <= now -> 0 <= event_id e -> event_list p !! Z.to_nat (event_id e) = Some true ->
  if (length v <? 255)%nat
  then exists w' p' m, handle_event hf host now b event [p] w = Ok (w', [p']) /\ wire ex m = (ex, v, text) /\
    prod_ok ex w' p' msg (if no_room p then ns else ns ++ [m])
  else handle_event hf host now b event [p] w = Fault OutOfBounds.
Proof.
  intros Hev He HL Hlen Hx Hv Hnz Hjs Hok Hnow Hid Hlist. unfold handle_event. rewrite (proj2 (Z.eqb_neq _ _)) by done.
  unfold eget. rewrite He. cbn [rbind handle_producers]. rewrite (po_running _ _ _ _ _ Hok), (proj2 (Z.ltb_ge _ _)) by lia. cbn [negb orb].
  rewrite (proj2 (Z.leb_le _ _)) by lia. rewrite Hlist, Hjs. cbn [rbind]. unfold routing_key_of.
  rewrite (EvProof.get_header_spec _ _ _ _ _ HL) by done. rewrite Hx, Hv. cbn [rbind].
  destruct (length v <? 255)%nat eqn:E.
  - apply Nat.ltb_lt in E. pose proof (Yaml.strcpy_fits [] (replicate MAX_MQ_ROUTING_KEY_LENGTH 0) v) as Hs. cbn [app length] in Hs.
    rewrite Hs by (rewrite length_replicate; exact E). cbn [rbind]. set (m := Message _ _).
    destruct (enqueue_ok ex now m w p msg ns Hok) as (w' & p' & -> & _ & _ & _ & _ & _ & Hok').
    { split; [|by eexists]. unfold m. cbn [routing_key]. apply elem_of_app. right. by left. }
    cbn [rbind]. exists w', p', m. split_and!; try done. unfold wire, m. cbn [routing_key pjson default]. by rewrite cstring_text.
  - apply Nat.ltb_ge in E. rewrite Yaml.strcpy_overflows; [done|]. rewrite length_replicate. unfold MAX_MQ_ROUTING_KEY_LENGTH. lia.
Qed.

(** An event with a routing key. *)
Definition routed_event : event := Event 2 1 0 2 2 0 0 None 0.
Definition routed_bus : bus :=
  with_mem (Store (list_to_map [(2, Header EVENT_HEADER_ROUTING (Some (bytes_of "a.b")) 0)]) (list_to_map [(1, routed_event)]) 3) toy_bus.
Definition routed_text : cstr :=
  match @EvJson.agc_event_serialize_json exact_floats 9 routed_bus 1 with Ok (Some t, _) => t | _ => [] end.

Lemma routed_headers : EvProof.has_headers (mem routed_bus) 1 [(2, (EVENT_HEADER_ROUTING, Some (bytes_of "a.b")))].
Proof.
  split; [|apply NoDup_singleton]. exists routed_event. split_and!; [done| |done]. split_and!; try done. by eexists.
Qed.

Lemma mq_event_routing_witness :
  exists w' p' m, @handle_event (toy true AMQP_RESPONSE_NORMAL) exact_floats 9 (bytes_of "host") 5 routed_bus 1 [toy_producer]
      (toy_world true AMQP_RESPONSE_NORMAL) = Ok (w', [p']) /\
    wire (bytes_of "events") m = (bytes_of "events", bytes_of "a.b", routed_text) /\
    prod_ok (H := toy true AMQP_RESPONSE_NORMAL) (bytes_of "events") w' p' 0 [m].
Proof.
  apply (@mq_event_routing (toy true AMQP_RESPONSE_NORMAL) exact_floats 9 (bytes_of "host") 5 routed_bus 1 routed_event
    [(2, (EVENT_HEADER_ROUTING, Some (bytes_of "a.b")))] (2, (EVENT_HEADER_ROUTING, Some (bytes_of "a.b"))) (bytes_of "a.b")
    routed_text AGC_STATUS_SUCCESS (bytes_of "events") (toy_world true AMQP_RESPONSE_NORMAL) toy_producer 0 []).
  - discriminate.
  - reflexivity.
  - apply routed_headers.
  - cbn. lia.
  - vm_compute. reflexivity.
  - reflexivity.
  - repeat constructor; vm_compute; discriminate.
  - vm_compute. reflexivity.
  - apply toy_prod_ok.
  - cbn. lia.
  - cbn. lia.
  - vm_compute. reflexivity.
Defined.

(** A profile is read as it was written: the name, the type, the connections
    in their order, each with the values given for it whatever their order,
    and the parameters; the interval of reconnecting is a second unless it is
    given. *)
Theorem mq_profile_loads n t cs ps :
  Forall (Forall (fun x => of_connection x.1)) cs -> Forall (fun x => of_parameters x.1) ps ->
  agcmq_load_profile (profile_tokens n t cs ps ++ [Yaml.YAML_STREAM_END_TOKEN]) =
    Ok (Some n, Some t, (fun fs => info_of fs empty_info) <$> cs, reconnect_default (para_of ps (para profile_start))).
Proof.
  intros Hcs Hps. unfold agcmq_load_profile. rewrite Yaml.scan_steps by apply profile_goes_on.
  assert (profile_tokens n t cs ps =
    (Yaml.YAML_OTHER_TOKEN :: Yaml.entry (bytes_of "name") n ++ Yaml.entry (bytes_of "type") t ++ block_start (bytes_of "connections")) ++
    concat (connection_tokens <$> cs) ++ (Yaml.YAML_BLOCK_END_TOKEN :: block_start (bytes_of "parameters")) ++
    field_tokens ps ++ [Yaml.YAML_BLOCK_END_TOKEN; Yaml.YAML_BLOCK_END_TOKEN]) as -> by done.
  rewrite !Yaml.steps_app. destruct (profile_head n t) as (s1 & -> & H1). cbn [rbind]. rewrite !Yaml.steps_app.
  destruct (connections_read cs s1 [] _ _ _ Hcs H1) as (s2 & -> & H2). cbn [rbind]. rewrite !Yaml.steps_app.
  destruct (parameters_head s2 _ _ _ _ _ H2) as (s3 & -> & H3). cbn [rbind]. rewrite !Yaml.steps_app.
  destruct (parameter_fields ps s3 _ _ _ _ _ Hps H3) as (s4 & -> & Hb & Hc & Hp & Hn & Ht).
  cbn [rbind Yaml.steps profile_step Yaml.scan]. by rewrite Hc, Hp, Hn, Ht.
Qed.

Lemma mq_profile_loads_witness :
  agcmq_load_profile (profile_tokens (bytes_of "p") (bytes_of "producer") [[(TPort, bytes_of "5672"); (THostname, bytes_of "mq")]]
      [(TExname, bytes_of "events")] ++ [Yaml.YAML_STREAM_END_TOKEN]) =
    Ok (Some (bytes_of "p"), Some (bytes_of "producer"), [Info None (Some (bytes_of "mq")) None None None 5672 0],
        ConnParameter (Some (bytes_of "events")) None None None 1000 0 0 None 0 1).
Proof.
  rewrite (mq_profile_loads (bytes_of "p") (bytes_of "producer") [[(TPort, bytes_of "5672"); (THostname, bytes_of "mq")]]
    [(TExname, bytes_of "events")]); [vm_compute; reflexivity|by repeat constructor|repeat constructor; cbn; tauto].
Defined.
