(* ===== verification/EslBuffer.v ===== *)
(** * The buffer of the console client

    [src/libs/esl/src/esl_buffer.c]: the bytes received and not yet read, in
    one block that is moved together or enlarged when it is full.  [head] is an
    offset into the block, and sizes are natural numbers.  A block of size zero
    is the null pointer ([esl_buffer_create] allocates none). *)

From stdpp Require Import base list.
From Stdlib Require Import ZArith Lia.
From S2P Require Import Prelude CString.

Module EslBuf.

(** [struct esl_buffer] *)
Record esl_buffer := Buffer {
  data : list Z;
  head : nat;
  used : nat;
  actually_used : nat;
  datalen : nat;
  max_len : nat;
  blocksize : nat;
  b_id : Z;
  loops : Z }.

Definition with_range h u a b := Buffer (data b) h u a (datalen b) (max_len b) (blocksize b) (b_id b) (loops b).
Definition with_data d n b := Buffer d (head b) (used b) (actually_used b) n (max_len b) (blocksize b) (b_id b) (loops b).

(** [esl_buffer_create], with the number of the buffer. *)
Definition esl_buffer_create (buffer_id : Z) (blocksize start_len max_len : nat) : esl_buffer :=
  Buffer (replicate start_len 0) 0 0 0 start_len max_len blocksize buffer_id 0.

Definition esl_buffer_len (b : esl_buffer) : nat := datalen b.
Definition esl_buffer_freespace (b : esl_buffer) : Z :=
  if (max_len b =? 0)%nat then 1000000 else wrap 64 (Z.of_nat (max_len b) - Z.of_nat (used b)).
Definition esl_buffer_inuse (b : esl_buffer) : nat := used b.

Definition esl_buffer_seek (b : esl_buffer) (n : nat) : esl_buffer * nat :=
  if (used b <? 1)%nat then (with_range (head b) 0 (actually_used b) b, 0%nat)
  else
    let reading := if (n <=? used b)%nat then n else used b in
    (with_range reading (actually_used b - reading) (actually_used b) b, reading).

Definition esl_buffer_toss (b : esl_buffer) (n : nat) : esl_buffer * nat :=
  if (used b <? 1)%nat then (with_range (head b) 0 (actually_used b) b, 0%nat)
  else
    let reading := if (n <=? used b)%nat then n else used b in
    let b := with_range (head b + reading) (used b - reading) (actually_used b) b in (b, used b).

Definition esl_buffer_set_loops (b : esl_buffer) (loops : Z) : esl_buffer :=
  Buffer (data b) (head b) (used b) (actually_used b) (datalen b) (max_len b) (blocksize b) (b_id b) loops.

(** Bytes of the block from an offset on; outside of it the read is invalid. *)
Definition peek (b : esl_buffer) (off n : nat) : result (list Z) :=
  if (off + n <=? length (data b))%nat then Ok (take n (drop off (data b))) else Fault OutOfBounds.

(** [esl_buffer_read], with the bytes copied. *)
Definition esl_buffer_read (b : esl_buffer) (n : nat) : result (esl_buffer * list Z) :=
  if (used b <? 1)%nat then Ok (with_range (head b) 0 (actually_used b) b, [])
  else
    let reading := if (n <=? used b)%nat then n else used b in
    let! bs := peek b (head b) reading in
    Ok (with_range (head b + reading) (used b - reading) (actually_used b) b, bs).

(** [esl_buffer_read_loop]: the bytes copied, and the length returned. *)
Definition esl_buffer_read_loop (b : esl_buffer) (n : nat) : result (esl_buffer * list Z * nat) :=
  let! (b, bs) := esl_buffer_read b n in
  if (length bs <? n)%nat then
    if loops b =? 0 then Ok (b, bs, length bs)
    else
      let! (b, bs') := esl_buffer_read (with_range 0 (actually_used b) (actually_used b) b) (n - length bs) in
      Ok (esl_buffer_set_loops b (loops b - 1), bs ++ bs', length bs')
  else Ok (b, bs, length bs).

(** [*p] in the block. *)
Definition byte_at (b : esl_buffer) (p : nat) : result Z :=
  match data b !! p with Some c => Ok c | None => Fault OutOfBounds end.

(** The two loops over the bytes in use look for an empty line: at a line feed
    at [p], [Some pe] when a second one is at [pe], behind at most one carriage
    return. *)
Definition empty_line (b : esl_buffer) (p e : nat) : result (option nat) :=
  let! c := byte_at b (p + 1) in
  let pe := if c =? 13 then (p + 2)%nat else (p + 1)%nat in
  if (pe <=? e)%nat then
    let! c := byte_at b pe in Ok (if c =? 10 then Some pe else None)
  else Ok None.

Fixpoint count_loop (fuel : nat) (b : esl_buffer) (p e x : nat) : result nat :=
  match fuel with
  | O => OutOfFuel
  | S fuel' =>
      let! c := byte_at b p in
      if (c =? 0) || (e <=? p)%nat then Ok x
      else if c =? 10 then
        let! pe := empty_line b p e in
        match pe with
        | Some pe => count_loop fuel' b (pe + 1) e (x + 1)
        | None => count_loop fuel' b (p + 1) e x
        end
      else count_loop fuel' b (p + 1) e x
  end.

Definition esl_buffer_packet_count (b : esl_buffer) : result nat :=
  count_loop (S (S (used b))) b (head b) (head b + used b) 0.

(** The end of the first packet, as an offset; [None] when the loop ends
    without one. *)
Fixpoint packet_loop (fuel : nat) (b : esl_buffer) (p e : nat) : result (option nat) :=
  match fuel with
  | O => OutOfFuel
  | S fuel' =>
      let! c := byte_at b p in
      if (c =? 0) || (e <=? p)%nat then Ok None
      else if c =? 10 then
        let! pe := empty_line b p e in
        match pe with
        | Some pe => Ok (Some (pe + 1)%nat)
        | None => packet_loop fuel' b (p + 1) e
        end
      else packet_loop fuel' b (p + 1) e
  end.

Definition esl_buffer_read_packet (b : esl_buffer) (maxlen : nat) : result (esl_buffer * list Z) :=
  let! pe := packet_loop (S (used b)) b (head b) (head b + used b) in
  let n :=
    match pe with
    | None => 0%nat
    | Some pe => let n := (pe - head b)%nat in if (maxlen <? n)%nat then maxlen else n
    end in
  esl_buffer_read b n.

(** The steps of [esl_buffer_write]: the content is moved to the start of the
    block, *)
Definition compact (b : esl_buffer) (n : nat) : result esl_buffer :=
  let actual_freespace := (datalen b - actually_used b)%nat in
  if (actual_freespace <? n)%nat && ((max_len b =? 0)%nat || (used b + n <=? max_len b)%nat) then
    let! content := peek b (head b) (used b) in
    let! d := blit (data b) 0 content in
    Ok (with_range 0 (used b) (used b) (with_data d (datalen b) b))
  else Ok b.

(** the block is enlarged ([junk] is what the memory that [realloc] adds holds;
    [grows] whether it succeeds), *)
Definition enlarge (junk : nat -> Z) (grows : bool) (b : esl_buffer) (n : nat) : esl_buffer * bool :=
  let freespace := (datalen b - used b)%nat in
  if (freespace <? n)%nat then
    let new_size := Nat.max (datalen b + n) (datalen b + blocksize b) in
    let b := with_range 0 (used b) (actually_used b) b in
    if grows then (with_data (realloc_data junk (data b) new_size) new_size b, true) else (b, false)
  else (b, true).

(** and the bytes are copied behind the content. *)
Definition append (b : esl_buffer) (bs : list Z) : result (esl_buffer * nat) :=
  let freespace := (datalen b - used b)%nat in
  if (freespace <? length bs)%nat then Ok (b, 0%nat)
  else
    let! d := blit (data b) (head b + used b) bs in
    let b := with_range (head b) (used b + length bs) (actually_used b + length bs) (with_data d (datalen b) b) in
    Ok (b, used b).

(** The result is the number of bytes in use afterwards, or zero. *)
Definition esl_buffer_write (junk : nat -> Z) (grows : bool) (b : esl_buffer) (bs : list Z) : result (esl_buffer * nat) :=
  if (datalen b =? 0)%nat then Fault Assertion
  else if (length bs =? 0)%nat then Ok (b, used b)
  else
    let! b := compact b (length bs) in
    let (b, ok) := enlarge junk grows b (length bs) in
    if ok then append b bs else Ok (b, 0%nat).

Definition esl_buffer_zero (b : esl_buffer) : result esl_buffer :=
  if (datalen b =? 0)%nat then Fault Assertion else Ok (with_range 0 0 0 b).

Definition esl_buffer_zwrite (junk : nat -> Z) (grows : bool) (b : esl_buffer) (bs : list Z) : result (esl_buffer * nat) :=
  let! (b, w) := esl_buffer_write junk grows b bs in
  if (w =? 0)%nat then let! b := esl_buffer_zero b in esl_buffer_write junk grows b bs else Ok (b, w).

End EslBuf.
