(* ===== verification/EslBufferProof.v ===== *)
(** * The client's buffer is a queue of bytes

    Without a limit, any sequence of operations behaves like a list of bytes;
    with a limit, a write may go past the block.  A packet is read back whole
    as long as no byte was ever moved behind the content. *)

From stdpp Require Import base list.
From Stdlib Require Import ZArith Lia.
From S2P Require Import Prelude CString EslBuffer.

Module EslBufProof.
Import EslBuf.

(** ** The content *)

(** The buffer holds [c], with [n] bytes of the block unused behind it. *)
Record holds (b : esl_buffer) (c : list Z) : Prop := Holds {
  ho_len : length (data b) = datalen b;
  ho_size : (0 < datalen b)%nat;
  ho_head : (head b + used b = actually_used b)%nat;
  ho_room : (actually_used b <= datalen b)%nat;
  ho_content : take (used b) (drop (head b) (data b)) = c }.

Lemma holds_used b c : holds b c -> used b = length c.
Proof. intros []. subst c. rewrite length_take, length_drop. lia. Qed.

Lemma holds_data b c : holds b c -> exists l r, data b = l ++ c ++ r /\ length l = head b /\ (length r = datalen b - actually_used b)%nat.
Proof.
  intros [H1 H2 H3 H4 H5]. exists (take (head b) (data b)), (drop (actually_used b) (data b)).
  rewrite length_take, length_drop. split_and!; [|lia|lia].
  rewrite <- H5, <- H3. rewrite <- drop_drop. by rewrite !take_drop.
Qed.

Lemma holds_intro b l c r : data b = l ++ c ++ r -> length (data b) = datalen b -> (0 < datalen b)%nat ->
  head b = length l -> used b = length c -> actually_used b = (length l + length c)%nat -> holds b c.
Proof.
  intros Hd Hl H0 Hh Hu Ha. split; try done; try lia.
  - rewrite Ha. rewrite <- Hl, Hd, !length_app. lia.
  - rewrite Hd, Hh, drop_app_length, Hu. by rewrite take_app_length.
Qed.

Lemma create_holds i bs n m : (0 < n)%nat -> holds (esl_buffer_create i bs n m) [].
Proof. intros Hn. split; cbn; [by rewrite length_replicate|done|lia|lia|done]. Qed.

(** ** Reading *)

Lemma reading_min n u : (if (n <=? u)%nat then n else u) = Nat.min n u.
Proof. destruct (Nat.leb_spec n u); lia. Qed.

Lemma take_min {A} n (c : list A) : take (Nat.min n (length c)) c = take n c.
Proof. destruct (Nat.le_gt_cases n (length c)); [by rewrite Nat.min_l|]. rewrite Nat.min_r, !take_ge; done || lia. Qed.
Lemma drop_min {A} n (c : list A) : drop (Nat.min n (length c)) c = drop n c.
Proof. destruct (Nat.le_gt_cases n (length c)); [by rewrite Nat.min_l|]. rewrite Nat.min_r, !drop_ge; done || lia. Qed.

(** The first [n] bytes are gone. *)
Lemma advance_holds b c n : holds b c -> (n <= length c)%nat ->
  holds (with_range (head b + n) (used b - n) (actually_used b) b) (drop n c).
Proof.
  intros Hb Hn. pose proof (holds_used _ _ Hb) as Hu. destruct (holds_data _ _ Hb) as (l & r & Hd & Hl & Hr). destruct Hb.
  apply (holds_intro _ (l ++ take n c) (drop n c) r); cbn; rewrite ?length_app, ?length_take, ?length_drop; try lia; try done.
  by rewrite Hd, <- !app_assoc, (app_assoc (take n c)), take_drop.
Qed.

Lemma empty_holds b c : holds b c -> (used b <? 1)%nat = true -> c = [] /\ holds (with_range (head b) 0 (actually_used b) b) [].
Proof.
  intros Hb Hu. apply Nat.ltb_lt in Hu. pose proof (holds_used _ _ Hb). destruct c as [|x c]; [|cbn in *; lia].
  split; [done|]. destruct Hb. split; cbn; try done. lia.
Qed.

Lemma read_holds b c n : holds b c -> exists b', esl_buffer_read b n = Ok (b', take n c) /\ holds b' (drop n c) /\
  datalen b' = datalen b /\ actually_used b' = actually_used b /\ data b' = data b /\ max_len b' = max_len b /\ blocksize b' = blocksize b.
Proof.
  intros Hb. unfold esl_buffer_read. destruct (used b <? 1)%nat eqn:Hu.
  { destruct (empty_holds _ _ Hb Hu) as [-> Hb']. rewrite take_nil, drop_nil. by eexists. }
  pose proof (holds_used _ _ Hb) as Eu. rewrite reading_min. eexists.
  split_and!; [|rewrite <- (drop_min n c), <- Eu; apply advance_holds; [done|lia]|done..].
  destruct (holds_data _ _ Hb) as (l & r & Hd & Hl & Hr). unfold peek. rewrite Hd, !length_app, Hl.
  rewrite (proj2 (Nat.leb_le _ _)) by lia. cbn [rbind]. rewrite Eu.
  by rewrite <- Hl, drop_app_length, take_app_le, take_min by lia.
Qed.

Lemma toss_holds b c n : holds b c -> exists b', esl_buffer_toss b n = (b', length (drop n c)) /\ holds b' (drop n c) /\
  max_len b' = max_len b.
Proof.
  intros Hb. unfold esl_buffer_toss. destruct (used b <? 1)%nat eqn:Hu.
  { destruct (empty_holds _ _ Hb Hu) as [-> Hb']. rewrite drop_nil. by eexists. }
  pose proof (holds_used _ _ Hb) as Eu. rewrite reading_min. cbn [with_range used].
  eexists. split; [by replace (length (drop n c)) with (used b - n `min` used b)%nat by (rewrite length_drop; lia)|].
  split; [|done]. rewrite <- (drop_min n c), <- Eu. apply advance_holds; [done|]. lia.
Qed.

Lemma zero_holds b c : holds b c -> exists b', esl_buffer_zero b = Ok b' /\ holds b' [] /\ max_len b' = max_len b.
Proof.
  intros []. unfold esl_buffer_zero. rewrite (proj2 (Nat.eqb_neq _ _)) by lia. eexists. split; [done|]. split; [|done].
  split; cbn; try done; lia.
Qed.

(** ** Writing *)

Section write.
Context (junk : nat -> Z).

Lemma append_holds b c bs : holds b c -> (length bs <= datalen b - actually_used b)%nat ->
  exists b', append b bs = Ok (b', length (c ++ bs)) /\ holds b' (c ++ bs) /\
    datalen b' = datalen b /\ actually_used b' = (actually_used b + length bs)%nat /\ max_len b' = max_len b /\
    exists l r, data b = l ++ c ++ r /\ length l = head b /\ data b' = l ++ (c ++ bs) ++ drop (length bs) r.
Proof.
  intros Hb Hn. pose proof (holds_used _ _ Hb) as Hu. destruct (holds_data _ _ Hb) as (l & r & Hd & Hl & Hr). pose proof Hb as [].
  unfold append. rewrite (proj2 (Nat.ltb_ge _ _)) by lia.
  rewrite Hd, app_assoc. replace (head b + used b)%nat with (length (l ++ c)) by (rewrite length_app; lia).
  rewrite blit_tail by lia. cbn [rbind]. eexists. split_and!; [by cbn; rewrite Hu, length_app| |done|done|done|].
  - apply (holds_intro _ l (c ++ bs) (drop (length bs) r)); cbn; rewrite ?length_app, ?length_drop; try lia.
    by rewrite <- !app_assoc.
  - exists l, r. cbn. by rewrite <- !app_assoc.
Qed.

(** There is room behind the content: nothing is moved. *)
Lemma write_behind b c bs : holds b c -> (length bs <= datalen b - actually_used b)%nat ->
  exists b', esl_buffer_write junk true b bs = Ok (b', length (c ++ bs)) /\ holds b' (c ++ bs) /\
    datalen b' = datalen b /\ actually_used b' = (actually_used b + length bs)%nat /\ max_len b' = max_len b /\
    exists l r, data b = l ++ c ++ r /\ length l = head b /\ data b' = l ++ (c ++ bs) ++ drop (length bs) r.
Proof.
  intros Hb Hn. pose proof (holds_used _ _ Hb) as Hu. pose proof Hb as [].
  unfold esl_buffer_write. rewrite (proj2 (Nat.eqb_neq _ _)) by lia. destruct (length bs =? 0)%nat eqn:E0.
  { apply Nat.eqb_eq in E0. destruct bs; [|done]. cbn [length] in *. rewrite app_nil_r. exists b. rewrite Hu.
    destruct (holds_data _ _ Hb) as (l & r & Hd & Hl & Hr). split_and!; try done; try lia. exists l, r. by rewrite drop_0. }
  unfold compact, enlarge. rewrite (proj2 (Nat.ltb_ge _ _)) by lia. cbn [andb rbind].
  rewrite (proj2 (Nat.ltb_ge _ _)) by lia. by apply append_holds.
Qed.

(** The content is moved to the start of the block. *)
Lemma compact_holds b c n : holds b c -> max_len b = 0%nat -> (datalen b - actually_used b < n)%nat ->
  exists b', compact b n = Ok b' /\ holds b' c /\ head b' = 0%nat /\ max_len b' = 0%nat.
Proof.
  intros Hb Hm Hn. pose proof (holds_used _ _ Hb) as Hu. pose proof Hb as [].
  unfold compact. rewrite (proj2 (Nat.ltb_lt _ _)) by lia. rewrite Hm. cbn [Nat.eqb orb andb].
  unfold peek. rewrite (proj2 (Nat.leb_le _ _)) by lia. cbn [rbind]. rewrite ho_content0.
  pose proof (blit_tail [] (data b) c ltac:(cbn; lia)) as E. cbn [app length] in E. rewrite E. cbn [rbind].
  eexists. split_and!; [done| |done|done].
  apply (holds_intro _ [] c (drop (length c) (data b))); cbn; try done; rewrite ?length_app, ?length_drop; lia.
Qed.

Lemma enlarge_holds b c n : holds b c -> head b = 0%nat ->
  exists b', enlarge junk true b n = (b', true) /\ holds b' c /\ (n <= datalen b' - actually_used b')%nat /\ max_len b' = max_len b.
Proof.
  intros Hb Hh. pose proof (holds_used _ _ Hb) as Hu. pose proof Hb as []. unfold enlarge.
  destruct (datalen b - used b <? n)%nat eqn:E.
  - eexists. split; [done|]. destruct (holds_data _ _ Hb) as (l & r & Hd & Hl & Hr). destruct l as [|? l]; [|cbn in *; lia].
    cbn [app] in Hd. destruct (realloc_text junk c r (Nat.max (datalen b + n) (datalen b + blocksize b))) as (r' & Hre & Hlen); [lia|].
    cbn [data with_range]. rewrite Hd, Hre. split_and!; [|cbn; lia|done].
    apply (holds_intro _ [] c r'); cbn; try done; lia.
  - apply Nat.ltb_ge in E. exists b. split_and!; try done. lia.
Qed.

(** Without a limit a write always appends. *)
Lemma write_holds b c bs : holds b c -> max_len b = 0%nat ->
  exists b', esl_buffer_write junk true b bs = Ok (b', length (c ++ bs)) /\ holds b' (c ++ bs) /\ max_len b' = 0%nat.
Proof.
  intros Hb Hm. destruct (Nat.le_gt_cases (length bs) (datalen b - actually_used b)) as [Hn|Hn].
  { destruct (write_behind b c bs Hb Hn) as (b' & -> & Hb' & _ & _ & Hm' & _). exists b'. split_and!; [done..|congruence]. }
  unfold esl_buffer_write. pose proof Hb as []. rewrite (proj2 (Nat.eqb_neq (datalen b) _)) by lia.
  rewrite (proj2 (Nat.eqb_neq (length bs) _)) by lia.
  destruct (compact_holds b c _ Hb Hm Hn) as (b1 & -> & H1 & Hh1 & Hm1). cbn [rbind].
  destruct (enlarge_holds b1 c (length bs) H1 Hh1) as (b2 & -> & H2 & Hr2 & Hm2).
  destruct (append_holds b2 c bs H2 Hr2) as (b3 & -> & H3 & _ & _ & Hm3 & _). exists b3. split_and!; [done..|congruence].
Qed.

End write.

(** ** Sequences of operations *)

Inductive op := OWrite (bs : list Z) | ORead (n : nat) | OToss (n : nat) | OZero.

(** An operation on a buffer, with what it gives back, *)
Definition step (junk : nat -> Z) (b : esl_buffer) (o : op) : result (esl_buffer * (list Z + nat)) :=
  match o with
  | OWrite bs => let! (b, n) := esl_buffer_write junk true b bs in Ok (b, inr n)
  | ORead n => let! (b, bs) := esl_buffer_read b n in Ok (b, inl bs)
  | OToss n => let (b, k) := esl_buffer_toss b n in Ok (b, inr k)
  | OZero => let! b := esl_buffer_zero b in Ok (b, inr 0%nat)
  end.

(** and on the list of bytes it stands for. *)
Definition spec_step (c : list Z) (o : op) : list Z * (list Z + nat) :=
  match o with
  | OWrite bs => (c ++ bs, inr (length (c ++ bs)))
  | ORead n => (drop n c, inl (take n c))
  | OToss n => (drop n c, inr (length (drop n c)))
  | OZero => ([], inr 0%nat)
  end.

Fixpoint run (junk : nat -> Z) (b : esl_buffer) (os : list op) : result (esl_buffer * list (list Z + nat)) :=
  match os with
  | [] => Ok (b, [])
  | o :: os' => let! (b, r) := step junk b o in let! (b, rs) := run junk b os' in Ok (b, r :: rs)
  end.

Fixpoint spec_run (c : list Z) (os : list op) : list Z * list (list Z + nat) :=
  match os with
  | [] => (c, [])
  | o :: os' => let (c, r) := spec_step c o in let (c, rs) := spec_run c os' in (c, r :: rs)
  end.

Lemma step_refines junk b c o : holds b c -> max_len b = 0%nat ->
  exists b', step junk b o = Ok (b', snd (spec_step c o)) /\ holds b' (fst (spec_step c o)) /\ max_len b' = 0%nat.
Proof.
  intros Hb Hm. destruct o as [bs|n|n|]; cbn [step spec_step fst snd].
  - destruct (write_holds junk b c bs Hb Hm) as (b' & -> & ? & ?). by exists b'.
  - destruct (read_holds b c n Hb) as (b' & -> & ? & _ & _ & _ & Hm' & _). exists b'. split_and!; [done..|congruence].
  - destruct (toss_holds b c n Hb) as (b' & -> & ? & Hm'). exists b'. split_and!; [done..|congruence].
  - destruct (zero_holds b c Hb) as (b' & -> & ? & Hm'). exists b'. split_and!; [done..|congruence].
Qed.

Lemma buffer_run_refines junk os : forall b c, holds b c -> max_len b = 0%nat ->
  exists b', run junk b os = Ok (b', snd (spec_run c os)) /\ holds b' (fst (spec_run c os)).
Proof.
  induction os as [|o os IH]; intros b c Hb Hm; cbn [run spec_run]; [by exists b|].
  destruct (step_refines junk b c o Hb Hm) as (b1 & -> & H1 & Hm1). destruct (spec_step c o) as [c1 r]. cbn [rbind fst snd] in *.
  destruct (IH b1 c1 H1 Hm1) as (b2 & -> & H2). exists b2. destruct (spec_run c1 os) as [c2 rs]. by cbn.
Qed.

(** ** Packets *)

(** Behind a line feed: whether the next line is empty, and its length with
    the line feed before it. *)
Definition blank_next (s : list Z) : option nat :=
  match s with
  | [] => None
  | x :: s' =>
      if x =? 13 then match s' with y :: _ => if y =? 10 then Some 3%nat else None | [] => None end
      else if x =? 10 then Some 2%nat else None
  end.

(** The length of the text up to the first empty line, with it. *)
Fixpoint packet_len (c : list Z) : option nat :=
  match c with
  | [] => None
  | x :: c' =>
      match (if x =? 10 then blank_next c' else None) with
      | Some n => Some n
      | None => S <$> packet_len c'
      end
  end.

Lemma byte_at_drop b p x r : drop p (data b) = x :: r -> byte_at b p = Ok x.
Proof. intros E. unfold byte_at. rewrite <- (Nat.add_0_r p), <- lookup_drop, E. done. Qed.

Lemma drop_tail {A} (l : list A) p x r : drop p l = x :: r -> drop (p + 1) l = r.
Proof. intros E. by rewrite <- drop_drop, E. Qed.

(** At a line feed: [s] is the rest of the content, a zero byte behind it. *)
Lemma empty_line_spec b p s r e : drop p (data b) = 10 :: s ++ 0 :: r -> e = (p + S (length s))%nat ->
  empty_line b p e = Ok ((fun n => (p + n - 1)%nat) <$> blank_next s).
Proof.
  intros Hd He. unfold empty_line. pose proof (drop_tail _ _ _ _ Hd) as H1. destruct s as [|x s]; cbn [app length blank_next] in *.
  { rewrite (byte_at_drop _ _ _ _ H1). cbn [rbind Z.eqb]. rewrite (proj2 (Nat.leb_le _ _)) by lia. by rewrite (byte_at_drop _ _ _ _ H1). }
  rewrite (byte_at_drop _ _ _ _ H1). cbn [rbind]. pose proof (drop_tail _ _ _ _ H1) as H2. replace (p + 1 + 1)%nat with (p + 2)%nat in H2 by lia.
  destruct (x =? 13) eqn:E.
  - rewrite (proj2 (Nat.leb_le _ _)) by lia.
    destruct s as [|y s]; cbn [app] in H2; rewrite (byte_at_drop _ _ _ _ H2); cbn [rbind]; [done|].
    destruct (y =? 10); [|done]. cbn. do 2 f_equal. lia.
  - rewrite (proj2 (Nat.leb_le _ _)) by lia. rewrite (byte_at_drop _ _ _ _ H1). cbn [rbind].
    destruct (x =? 10); [|done]. cbn. do 2 f_equal. lia.
Qed.

Lemma packet_loop_spec b r : forall s p e, drop p (data b) = s ++ 0 :: r -> e = (p + length s)%nat -> Forall (fun c => c <> 0) s ->
  packet_loop (S (length s)) b p e = Ok ((fun n => (p + n)%nat) <$> packet_len s).
Proof.
  induction s as [|x s IH]; intros p e Hd He Hs; cbn [packet_loop length].
  { cbn [app] in Hd. by rewrite (byte_at_drop _ _ _ _ Hd). }
  cbn [app length] in *. rewrite (byte_at_drop _ _ _ _ Hd). cbn [rbind]. apply Forall_cons in Hs as [Hx Hs].
  rewrite (proj2 (Z.eqb_neq _ _)) by done. rewrite (proj2 (Nat.leb_gt _ _)) by lia. cbn [orb].
  assert (packet_loop (S (length s)) b (p + 1) e = Ok ((fun n => (p + n)%nat) <$> (S <$> packet_len s))) as Hrec.
  { rewrite (IH (p + 1)%nat e) by (lia || done || by eapply drop_tail). f_equal. destruct (packet_len s); [|done]. cbn. f_equal. lia. }
  cbn [packet_len]. destruct (x =? 10) eqn:E; [|done]. apply Z.eqb_eq in E. subst x.
  rewrite (empty_line_spec b p s r e Hd He). cbn [rbind].
  destruct (blank_next s) as [n|] eqn:En; cbn [fmap option_fmap option_map]; [|exact Hrec].
  do 2 f_equal. unfold blank_next in En. repeat case_match; simplify_eq; lia.
Qed.

(** The byte behind the content is a zero byte of the block. *)
Definition clean (b : esl_buffer) : Prop := data b !! actually_used b = Some 0.

Lemma read_packet_holds b c maxlen : holds b c -> clean b -> Forall (fun x => x <> 0) c ->
  let n := Nat.min maxlen (default 0%nat (packet_len c)) in
  exists b', esl_buffer_read_packet b maxlen = Ok (b', take n c) /\ holds b' (drop n c) /\
    datalen b' = datalen b /\ actually_used b' = actually_used b /\ data b' = data b /\ max_len b' = max_len b.
Proof.
  intros Hb Hcl Hz n. destruct (holds_data _ _ Hb) as (l & r & Hd & Hl & Hr). pose proof (holds_used _ _ Hb) as Hu.
  unfold clean in Hcl. rewrite Hd in Hcl. rewrite <- (ho_head _ _ Hb), Hu, <- Hl in Hcl.
  rewrite lookup_app_r, lookup_app_r in Hcl by lia. replace (_ - _ - _)%nat with 0%nat in Hcl by lia.
  destruct r as [|x r]; simplify_eq/=. unfold esl_buffer_read_packet. rewrite Hu.
  rewrite (packet_loop_spec b r c (head b)); [|by rewrite Hd, <- Hl, drop_app_length|done|done]. cbn [rbind].
  assert (match (fun n0 => (head b + n0)%nat) <$> packet_len c with
    | Some pe => if (maxlen <? pe - head b)%nat then maxlen else (pe - head b)%nat | None => 0%nat end = n) as ->.
  { unfold n. destruct (packet_len c) as [k|]; cbn [fmap option_fmap option_map default]; [|lia].
    unfold default, id. destruct (Nat.ltb_spec maxlen (head b + k - head b)); lia. }
  destruct (read_holds b c n Hb) as (b' & -> & ? & ? & ? & ? & ? & _). by exists b'.
Qed.

(** Nothing is behind the content, and there is room for [n] more bytes and a
    zero byte. *)
Definition fresh (b : esl_buffer) (n : nat) : Prop :=
  Forall (fun x => x = 0) (drop (actually_used b) (data b)) /\ (actually_used b + n < datalen b)%nat.

Lemma fresh_clean b c n : holds b c -> fresh b n -> clean b.
Proof.
  intros [] [Hz Hr]. unfold clean. rewrite <- (Nat.add_0_r (actually_used b)), <- lookup_drop.
  destruct (drop (actually_used b) (data b)) as [|x r] eqn:E; [apply (f_equal length) in E; rewrite length_drop in E; cbn in E; lia|].
  apply Forall_cons in Hz as [-> _]. done.
Qed.

Lemma fresh_write junk b c bs n : holds b c -> fresh b (length bs + n) ->
  exists b', esl_buffer_write junk true b bs = Ok (b', length (c ++ bs)) /\ holds b' (c ++ bs) /\ fresh b' n.
Proof.
  intros Hb [Hz Hr]. destruct (write_behind junk b c bs Hb ltac:(lia)) as (b' & -> & Hb' & Hdl & Ha & _ & l & r & Hd & Hl & Hd').
  exists b'. split_and!; [done..|]. pose proof (ho_head _ _ Hb) as Hh. pose proof (holds_used _ _ Hb) as Hu.
  split; [|rewrite Ha, Hdl; lia]. rewrite Hd', Ha. rewrite Hd, app_assoc, drop_app_length' in Hz by (rewrite length_app; lia).
  rewrite app_assoc, drop_app_length' by (rewrite !length_app; lia). by apply Forall_drop.
Qed.

Lemma fresh_create i bs n m k : (k < n)%nat -> fresh (esl_buffer_create i bs n m) k.
Proof. intros Hk. split; cbn; [rewrite drop_0; by apply Forall_replicate|lia]. Qed.

Lemma fresh_same b b' n : data b' = data b -> actually_used b' = actually_used b -> datalen b' = datalen b -> fresh b n -> fresh b' n.
Proof. unfold fresh. by intros -> -> ->. Qed.

End EslBufProof.

Import EslBuf EslBufProof.

(** C22: A buffer without a limit is a queue of bytes: any sequence of writes,
    reads, removals and resets on it stays inside its block, however often the
    content is moved or the block enlarged, and gives the results the same
    operations give on a list of bytes. *)
Theorem esl_buffer_refines junk i bsize start_len os : (0 < start_len)%nat ->
  exists b, run junk (esl_buffer_create i bsize start_len 0) os = Ok (b, snd (spec_run [] os)) /\
    holds b (fst (spec_run [] os)).
Proof. intros Hn. apply buffer_run_refines; [by apply create_holds|done]. Qed.

Lemma esl_buffer_refines_witness :
  exists b, run (fun _ => 7) (esl_buffer_create 0 1 4 0) [OWrite [1; 2; 3]; ORead 2; OWrite [4; 5]; OWrite [6; 7; 8; 9]; OToss 1; ORead 9] =
    Ok (b, [inr 3%nat; inl [1; 2]; inr 3%nat; inr 7%nat; inr 6%nat; inl [4; 5; 6; 7; 8; 9]]) /\ holds b [].
Proof.
  apply (esl_buffer_refines (fun _ => 7) 0 1 4 [OWrite [1; 2; 3]; ORead 2; OWrite [4; 5]; OWrite [6; 7; 8; 9]; OToss 1; ORead 9]). lia.
Defined.

(** A buffer with a limit is written past its block: bytes that would exceed
    the limit and do not fit behind the content are neither refused nor is the
    content moved, and they are copied behind the content all the same. *)
Theorem esl_buffer_limit_overflows junk grows b c bs : holds b c ->
  (0 < max_len b < length c + length bs)%nat -> (datalen b - actually_used b < length bs <= datalen b - length c)%nat ->
  esl_buffer_write junk grows b bs = Fault OutOfBounds.
Proof.
  intros Hb Hm Hn. pose proof (holds_used _ _ Hb) as Hu. pose proof Hb as [].
  unfold esl_buffer_write, compact, enlarge, append, blit. rewrite (proj2 (Nat.eqb_neq (datalen b) _)), (proj2 (Nat.eqb_neq (length bs) _)) by lia.
  rewrite (proj2 (Nat.ltb_lt _ (length bs))) by lia. rewrite (proj2 (Nat.eqb_neq (max_len b) _)), (proj2 (Nat.leb_gt _ (max_len b))) by lia.
  cbn [orb andb rbind]. rewrite !(proj2 (Nat.ltb_ge _ (length bs))) by lia. rewrite (proj2 (Nat.leb_gt _ _)) by lia. done.
Qed.

Lemma esl_buffer_limit_overflows_witness :
  exists b, run (fun _ => 0) (esl_buffer_create 0 4 4 3) [OWrite [1; 2; 3; 4]; ORead 2] = Ok (b, [inr 4%nat; inl [1; 2]]) /\
    esl_buffer_write (fun _ => 0) true b [5; 6] = Fault OutOfBounds.
Proof.
  exists (Buffer [1; 2; 3; 4] 2 2 4 4 3 4 0 0). split; [vm_compute; reflexivity|].
  apply (esl_buffer_limit_overflows (fun _ => 0) true _ [3; 4] [5; 6]); [split; cbn; (reflexivity || lia)|cbn; lia|cbn; lia].
Defined.

(** Once the content has been moved, old bytes are behind it, and a line feed
    among them ends a packet that is still being received. *)
Theorem esl_buffer_stale_packet :
  exists b, run (fun _ => 0) (esl_buffer_create 0 8 8 0)
      [OWrite [97; 58; 10; 10; 98; 58; 10; 10]; ORead 8; OWrite [99; 10]] = Ok (b, [inr 8%nat; inl [97; 58; 10; 10; 98; 58; 10; 10]; inr 2%nat]) /\
    packet_len [99; 10] = None /\
    exists b', esl_buffer_read_packet b 100 = Ok (b', [99; 10]).
Proof. eexists. split; [vm_compute; reflexivity|]. split; [reflexivity|]. eexists. vm_compute. reflexivity. Qed.
