(* ===== verification/EslText.v ===== *)
(** * The text functions of the console client

    [src/libs/esl/src/esl.c]: letters, searching without regard to case,
    percent encoding, splitting and the bounded formatter.  A [char] is signed:
    bytes above 127 are negative numbers where the code compares them. *)

From stdpp Require Import base list strings.
From Stdlib Require Import ZArith Lia.
From S2P Require Import Prelude CString.

Module EslText.

(** ** Letters *)

Definition esl_C_toupper : list Z :=
  [-1;
  0; 1; 2; 3; 4; 5; 6; 7; 8; 9; 10; 11; 12; 13; 14; 15;
  16; 17; 18; 19; 20; 21; 22; 23; 24; 25; 26; 27; 28; 29; 30; 31;
  32; 33; 34; 35; 36; 37; 38; 39; 40; 41; 42; 43; 44; 45; 46; 47;
  48; 49; 50; 51; 52; 53; 54; 55; 56; 57; 58; 59; 60; 61; 62; 63;
  64; 65; 66; 67; 68; 69; 70; 71; 72; 73; 74; 75; 76; 77; 78; 79;
  80; 81; 82; 83; 84; 85; 86; 87; 88; 89; 90; 91; 92; 93; 94; 95;
  96; 65; 66; 67; 68; 69; 70; 71; 72; 73; 74; 75; 76; 77; 78; 79;
  80; 81; 82; 83; 84; 85; 86; 87; 88; 89; 90; 123; 124; 125; 126; 127;
  128; 129; 130; 131; 132; 133; 134; 135; 136; 137; 138; 139; 140; 141; 142; 143;
  144; 145; 146; 147; 148; 149; 150; 151; 152; 153; 154; 155; 156; 157; 158; 159;
  160; 161; 162; 163; 164; 165; 166; 167; 168; 169; 170; 171; 172; 173; 174; 175;
  176; 177; 178; 179; 180; 181; 182; 183; 184; 185; 186; 187; 188; 189; 190; 191;
  192; 193; 194; 195; 196; 197; 198; 199; 200; 201; 202; 203; 204; 205; 206; 207;
  208; 209; 210; 211; 212; 213; 214; 215; 216; 217; 218; 219; 220; 221; 222; 223;
  224; 225; 226; 227; 228; 229; 230; 231; 232; 233; 234; 235; 236; 237; 238; 239;
  240; 241; 242; 243; 244; 245; 246; 247; 248; 249; 250; 251; 252; 253; 254; 255].

Definition esl_C_tolower : list Z :=
  [-1;
  0; 1; 2; 3; 4; 5; 6; 7; 8; 9; 10; 11; 12; 13; 14; 15;
  16; 17; 18; 19; 20; 21; 22; 23; 24; 25; 26; 27; 28; 29; 30; 31;
  32; 33; 34; 35; 36; 37; 38; 39; 40; 41; 42; 43; 44; 45; 46; 47;
  48; 49; 50; 51; 52; 53; 54; 55; 56; 57; 58; 59; 60; 61; 62; 63;
  64; 97; 98; 99; 100; 101; 102; 103; 104; 105; 106; 107; 108; 109; 110; 111;
  112; 113; 114; 115; 116; 117; 118; 119; 120; 121; 122; 91; 92; 93; 94; 95;
  96; 97; 98; 99; 100; 101; 102; 103; 104; 105; 106; 107; 108; 109; 110; 111;
  112; 113; 114; 115; 116; 117; 118; 119; 120; 121; 122; 123; 124; 125; 126; 127;
  128; 129; 130; 131; 132; 133; 134; 135; 136; 137; 138; 139; 140; 141; 142; 143;
  144; 145; 146; 147; 148; 149; 150; 151; 152; 153; 154; 155; 156; 157; 158; 159;
  160; 161; 162; 163; 164; 165; 166; 167; 168; 169; 170; 171; 172; 173; 174; 175;
  176; 177; 178; 179; 180; 181; 182; 183; 184; 185; 186; 187; 188; 189; 190; 191;
  192; 193; 194; 195; 196; 197; 198; 199; 200; 201; 202; 203; 204; 205; 206; 207;
  208; 209; 210; 211; 212; 213; 214; 215; 216; 217; 218; 219; 220; 221; 222; 223;
  224; 225; 226; 227; 228; 229; 230; 231; 232; 233; 234; 235; 236; 237; 238; 239;
  240; 241; 242; 243; 244; 245; 246; 247; 248; 249; 250; 251; 252; 253; 254; 255].

Definition esl_toupper (c : Z) : Z :=
  if 255 <? wrap 32 c then c else if c <? -1 then -1 else nth (Z.to_nat (c + 1)) esl_C_toupper 0.
Definition esl_tolower (c : Z) : Z :=
  if 255 <? wrap 32 c then c else if c <? -1 then -1 else nth (Z.to_nat (c + 1)) esl_C_tolower 0.

(** ** Searching *)

(** [esl_toupper( *p)] *)
Definition up (c : Z) : Z := esl_toupper (sext 8 c).

(** The loop that compares the pattern: [Some true] when it was found,
    [Some false] when the text has ended, [None] when they differ. *)
Fixpoint stristr_while (pptr sptr : cstr) : option bool :=
  match pptr, sptr with
  | p :: pp, c :: ss =>
      if up c =? up p then
        match pp, ss with
        | [], _ => Some true
        | _, [] => Some false
        | _, _ => stristr_while pp ss
        end
      else None
  | _, _ => None
  end.

(** The loop over the starting points. *)
Fixpoint stristr_loop (instr start : cstr) : option cstr :=
  match start with
  | [] => None
  | c :: rest =>
      if negb (up c =? up (hd 0 instr)) then stristr_loop instr rest
      else
        match stristr_while instr start with
        | Some true => Some start
        | Some false => None
        | None => stristr_loop instr rest
        end
  end.

Definition esl_stristr (instr str : option cstr) : option cstr :=
  match instr, str with Some instr, Some str => stristr_loop instr str | _, _ => None end.

(** ** Percent encoding *)

Definition urlunsafe : cstr := [13; 10; 32; 34] ++ bytes_of "#%&+:;<=>?@[\]^`{|}".
Definition hex : cstr := bytes_of "0123456789ABCDEF".

Definition is_unsafe (c : Z) : bool :=
  (sext 8 c <? 32) || (126 <? sext 8 c) || existsb (Z.eqb c) urlunsafe.

(** [hex[i]] *)
Definition hex_at (i : Z) : result Z :=
  if (i <? 0) then Fault OutOfBounds else match hex !! Z.to_nat i with Some c => Ok c | None => Ok 0 end.

(** The loop of [esl_url_encode] with [x] bytes written and room for [len]. *)
Fixpoint encode_loop (p : cstr) (x len : nat) : result cstr :=
  match p with
  | [] => Ok []
  | c :: p' =>
      if (len <=? x)%nat then Ok []
      else if is_unsafe c then
        if (len <=? x + 3)%nat then Ok []
        else
          let! h := hex_at (Z.shiftr (sext 8 c) 4) in
          let! l := hex_at (Z.land (sext 8 c) 15) in
          let! t := encode_loop p' (x + 3) len in
          Ok (37 :: h :: l :: t)
      else let! t := encode_loop p' (x + 1) len in Ok (c :: t)
  end.

(** [esl_url_encode] into a buffer of [len] bytes. *)
Definition esl_url_encode (url : cstr) (len : nat) : result cstr :=
  match len with O => Fault OutOfBounds | S len => encode_loop url 0 len end.

Definition hexval (c : Z) : option Z :=
  if is_digit c then Some (c - 48)
  else if (97 <=? c) && (c <=? 102) then Some (c - 87)
  else if (65 <=? c) && (c <=? 70) then Some (c - 55)
  else None.

(** [sscanf(s, "%2x", &tmp) == 1]: white space, then at most two characters of
    a hexadecimal number, which may have a sign or the prefix [0x]. *)
Definition sscanf_2x (s : cstr) : option Z :=
  match skip_space s with
  | [] => None
  | c :: r =>
      if (c =? 43) || (c =? 45) then
        match r with
        | d :: _ => (fun v => if c =? 45 then wrap 32 (- v) else v) <$> hexval d
        | [] => None
        end
      else
        match hexval c with
        | None => None
        | Some v =>
            match r with
            | [] => Some v
            | d :: _ =>
                match hexval d with
                | Some w => Some (16 * v + w)
                | None => if (c =? 48) && ((d =? 120) || (d =? 88)) then None else Some v
                end
            end
        end
  end.

(** The loop of [esl_url_decode]; a decoded zero byte ends the text. *)
Fixpoint decode_loop (s : cstr) : list Z :=
  match s with
  | [] => []
  | c :: r =>
      if c =? 37 then
        match r with
        | _ :: (_ :: r') =>
            match sscanf_2x r with
            | Some tmp => wrap 8 tmp :: decode_loop r'
            | None => c :: decode_loop r
            end
        | _ => c :: decode_loop r
        end
      else c :: decode_loop r
  end.

Definition esl_url_decode (s : cstr) : cstr := cstring (decode_loop s).

(** ** Splitting *)

Fixpoint is_prefix (p s : cstr) : bool :=
  match p, s with
  | [], _ => true
  | x :: p', y :: s' => (x =? y) && is_prefix p' s'
  | _ :: _, [] => false
  end.

(** [strstr]: the text before the first occurrence, and the text behind it. *)
Fixpoint strstr (s pat : cstr) : option (cstr * cstr) :=
  if is_prefix pat s then Some ([], drop (length pat) s)
  else match s with
       | [] => None
       | c :: s' => prod_map (cons c) id <$> strstr s' pat
       end.

(** The loop of [esl_separate_string_string], with room for [n] more texts. *)
Fixpoint separate_loop (n : nat) (s delim : cstr) : list cstr :=
  match n with
  | O => [s]
  | S n' =>
      match strstr s delim with
      | Some (a, d) => a :: separate_loop n' d delim
      | None => [s]
      end
  end.

Definition esl_separate_string_string (buf delim : cstr) (arraylen : nat) : list cstr :=
  separate_loop (arraylen - 1) buf delim.

(** ** The bounded formatter *)

(** [esl_snprintf(buf + off, count, ...)] of the formatted text [t]: one byte
    less than [count] is passed on. *)
Definition esl_snprintf (buf : list Z) (off count : nat) (t : cstr) : result (list Z) :=
  match count with
  | O => blit buf off (t ++ [0])
  | S O => Ok buf
  | S (S n) => blit buf off (take n t ++ [0])
  end.

End EslText.
