(* ===== verification/EslTextProof.v ===== *)
(** * Searching and percent encoding in the console client *)

From stdpp Require Import base list strings.
From Stdlib Require Import ZArith Lia.
From S2P Require Import Prelude CString EslText.

Module EslTextProof.
Import EslText.

Definition is_byte (c : Z) : Prop := 0 < c < 256.
Definition is_ascii (c : Z) : Prop := 0 < c < 128.

(** A property of all bytes by evaluation. *)
Lemma below_all (P : Z -> bool) (n : nat) : forallb (fun i => P (Z.of_nat i)) (seq 0 n) = true ->
  forall c, 0 <= c < Z.of_nat n -> P c = true.
Proof.
  intros H c Hc. rewrite forallb_forall in H. specialize (H (Z.to_nat c)). rewrite Z2Nat.id in H by lia.
  apply H. apply in_seq. lia.
Qed.

(** ** Letters *)

Lemma up_byte c : 0 <= c < 256 -> up c = if c <? 128 then toupper c else c - 256.
Proof.
  intros Hc. apply Z.eqb_eq. revert c Hc. apply (below_all (fun c => up c =? (if c <? 128 then toupper c else c - 256)) 256).
  vm_compute. reflexivity.
Qed.

Lemma toupper_tolower c d : toupper c = toupper d <-> tolower c = tolower d.
Proof.
  unfold toupper, tolower, is_lower, is_upper.
  repeat match goal with |- context [ (?x <=? ?y) ] => destruct (Z.leb_spec x y) end; cbn; lia.
Qed.

Lemma up_same c d : is_byte c -> is_byte d -> (up c =? up d) = (tolower c =? tolower d).
Proof.
  intros Hc Hd. unfold is_byte in *. rewrite !up_byte by lia. apply eq_true_iff_eq. rewrite !Z.eqb_eq, <- toupper_tolower.
  unfold toupper, is_lower.
  repeat match goal with |- context [ (?x <=? ?y) ] => destruct (Z.leb_spec x y) | |- context [ (?x <? ?y) ] => destruct (Z.ltb_spec x y) end; cbn; lia.
Qed.

(** ** Searching *)

Lemma same_nocase_cons c d s t : same_nocase (c :: s) (d :: t) = (tolower c =? tolower d) && same_nocase s t.
Proof.
  unfold same_nocase. cbn. destruct (tolower c =? tolower d) eqn:E; cbn.
  - apply Z.eqb_eq in E. rewrite E. apply bool_decide_ext. split; [by intros [=]|by intros ->].
  - apply Z.eqb_neq in E. apply bool_decide_eq_false. by intros [=].
Qed.

(** The first place of a text that begins with the pattern, whatever the case. *)
Definition occurs_at (pat s : cstr) : bool := same_nocase (take (length pat) s) pat.
Fixpoint find_nocase (pat s : cstr) : option cstr :=
  match s with
  | [] => None
  | _ :: s' => if occurs_at pat s then Some s else find_nocase pat s'
  end.

Lemma occurs_short pat s : (length s < length pat)%nat -> occurs_at pat s = false.
Proof.
  intros Hl. unfold occurs_at, same_nocase. rewrite take_ge by lia. apply bool_decide_eq_false. intros E.
  apply (f_equal length) in E. rewrite !length_fmap in E. lia.
Qed.

Lemma find_short pat s : (length s < length pat)%nat -> find_nocase pat s = None.
Proof. induction s as [|c s IH]; intros Hl; [done|]. cbn [find_nocase]. rewrite occurs_short by done. apply IH. cbn in Hl. lia. Qed.

Lemma while_spec pat s : pat <> [] -> s <> [] -> Forall is_byte pat -> Forall is_byte s ->
  match stristr_while pat s with
  | Some true => occurs_at pat s = true
  | Some false => (length s < length pat)%nat
  | None => occurs_at pat s = false
  end.
Proof.
  revert s. induction pat as [|p pat IH]; intros [|c s] Hp Hs Fp Fs; try done. cbn [stristr_while].
  apply Forall_cons in Fp as [Hbp Fp]. apply Forall_cons in Fs as [Hbs Fs].
  rewrite up_same by done. unfold occurs_at in *. cbn [length take]. rewrite same_nocase_cons.
  destruct (tolower c =? tolower p); [|done]. cbn [andb].
  destruct pat as [|p' pat]; [done|]. destruct s as [|c' s]; [cbn; lia|].
  specialize (IH (c' :: s) ltac:(done) ltac:(done) Fp Fs). cbn [length] in *. repeat case_match; try done. lia.
Qed.

Lemma stristr_spec pat s : pat <> [] -> Forall is_byte pat -> Forall is_byte s -> stristr_loop pat s = find_nocase pat s.
Proof.
  intros Hp Fp. induction s as [|c s IH]; intros Fs; [done|]. cbn [stristr_loop find_nocase].
  pose proof (while_spec pat (c :: s) Hp ltac:(done) Fp Fs) as Hw. apply Forall_cons in Fs as [Hc Fs].
  destruct pat as [|p pat]; [done|]. apply Forall_cons in Fp as [Hbp Fp]. cbn [hd]. rewrite up_same by done.
  destruct (tolower c =? tolower p) eqn:E; cbn [negb].
  - destruct (stristr_while (p :: pat) (c :: s)) as [[]|].
    + by rewrite Hw.
    + rewrite occurs_short by done. symmetry. apply find_short. cbn in *. lia.
    + rewrite Hw. by apply IH.
  - unfold occurs_at. cbn [length take]. rewrite same_nocase_cons, E. cbn. by apply IH.
Qed.

(** ** Percent encoding *)

Definition encoded (c : Z) : cstr :=
  if is_unsafe c then [37; nth (Z.to_nat (c / 16)) hex 0; nth (Z.to_nat (c mod 16)) hex 0] else [c].
Definition encode (s : cstr) : cstr := concat (encoded <$> s).

(** What a percent sign and two digits stand for is read back. *)
Definition escape_ok (c : Z) : bool :=
  let h := nth (Z.to_nat (c / 16)) hex 0 in let l := nth (Z.to_nat (c mod 16)) hex 0 in
  bool_decide (hex_at (Z.shiftr (sext 8 c) 4) = Ok h) && bool_decide (hex_at (Z.land (sext 8 c) 15) = Ok l) &&
  negb (is_space h) && negb ((h =? 43) || (h =? 45)) &&
  match hexval h, hexval l with Some v, Some w => (16 * v + w =? c) | _, _ => false end.

Lemma escape_all c : 0 <= c < 128 -> escape_ok c = true.
Proof. apply (below_all escape_ok 128). vm_compute. reflexivity. Qed.

(** With room for it the loop writes the encoded text, and goes on behind it. *)
Lemma encode_loop_app s r : forall x len, Forall is_ascii s -> (x + length (encode s) < len)%nat ->
  encode_loop (s ++ r) x len = let! t := encode_loop r (x + length (encode s)) len in Ok (encode s ++ t).
Proof.
  induction s as [|c s IH]; intros x len Hs Hl.
  { cbn [app]. change (encode []) with (@nil Z). cbn [length app]. rewrite Nat.add_0_r. by destruct (encode_loop r x len). }
  apply Forall_cons in Hs as [Hc Hs]. unfold is_ascii in Hc. cbn [app encode_loop].
  change (encode (c :: s)) with (encoded c ++ encode s) in *. rewrite length_app in *.
  pose proof (escape_all c ltac:(lia)) as He. unfold escape_ok, encoded in *. rewrite (proj2 (Nat.leb_gt len x)) by lia.
  destruct (is_unsafe c); cbn [length] in *.
  - apply andb_prop in He as [He _]. apply andb_prop in He as [He _]. apply andb_prop in He as [He _].
    apply andb_prop in He as [E1%bool_decide_eq_true E2%bool_decide_eq_true].
    rewrite (proj2 (Nat.leb_gt _ _)) by lia. rewrite E1. cbn [rbind]. rewrite E2. cbn [rbind]. rewrite IH by (done || lia).
    replace (x + 3 + length (encode s))%nat with (x + (3 + length (encode s)))%nat by lia. by destruct (encode_loop r _ len).
  - rewrite IH by (done || lia). replace (x + 1 + length (encode s))%nat with (x + (1 + length (encode s)))%nat by lia.
    by destruct (encode_loop r _ len).
Qed.

Lemma encode_loop_spec s x len : Forall is_ascii s -> (x + length (encode s) < len)%nat -> encode_loop s x len = Ok (encode s).
Proof. intros Hs Hl. rewrite <- (app_nil_r s) at 1. rewrite encode_loop_app by done. cbn. by rewrite app_nil_r. Qed.

Lemma encode_all_unsafe n : forall x, (0 < n)%nat -> encode_loop (replicate n 10) x (x + 3 * n) = Ok (encode (replicate (n - 1) 10)).
Proof.
  induction n as [|n IH]; intros x Hn; [lia|]. cbn [replicate encode_loop]. rewrite (proj2 (Nat.leb_gt _ x)) by lia.
  change (is_unsafe 10) with true. cbv iota. destruct n as [|n].
  - by rewrite (proj2 (Nat.leb_le _ _)) by lia.
  - rewrite (proj2 (Nat.leb_gt _ _)) by lia. change (hex_at (Z.shiftr (sext 8 10) 4)) with (Ok 48). change (hex_at (Z.land (sext 8 10) 15)) with (Ok 65).
    cbn [rbind]. replace (x + 3 * S (S n))%nat with (x + 3 + 3 * S n)%nat by lia. rewrite IH by lia. cbn [rbind].
    by replace (S (S n) - 1)%nat with (S (S n - 1)) by lia.
Qed.

Lemma decode_encode s : Forall is_ascii s -> decode_loop (encode s) = s.
Proof.
  induction 1 as [|c s Hc Hs IH]; [done|]. unfold is_ascii in Hc. change (encode (c :: s)) with (encoded c ++ encode s).
  pose proof (escape_all c ltac:(lia)) as He. unfold encoded, escape_ok in *. destruct (is_unsafe c) eqn:Eu.
  - apply andb_prop in He as [He Hv]. apply andb_prop in He as [He Hn]. apply andb_prop in He as [He Hsp].
    apply negb_true_iff in Hn, Hsp. cbn [app decode_loop]. change (37 =? 37) with true. cbv iota. unfold sscanf_2x. cbn [skip_space].
    rewrite Hsp, Hn. destruct (hexval (nth _ _ _)) as [v|]; [|done]. destruct (hexval (nth _ _ _)) as [w|]; [|done].
    apply Z.eqb_eq in Hv. rewrite Hv, IH. by rewrite wrap_small by lia.
  - cbn [app decode_loop]. destruct (c =? 37) eqn:E; [|by rewrite IH]. apply Z.eqb_eq in E. subst c. discriminate Eu.
Qed.

(** The encoded text has none of the characters that end a header. *)
Definition is_plain (c : Z) : bool := (0 <? c) && (c <? 127) && negb (existsb (Z.eqb c) [10; 13; 32; 58]).

Lemma encoded_plain c : is_ascii c -> forallb is_plain (encoded c) = true.
Proof.
  intros Hc. unfold is_ascii in Hc. enough ((c =? 0) || forallb is_plain (encoded c) = true) as E.
  { destruct (Z.eqb_spec c 0); [lia|done]. }
  revert c Hc. intros c Hc. apply (below_all (fun c => (c =? 0) || forallb is_plain (encoded c)) 128); [vm_compute; reflexivity|lia].
Qed.

Lemma encode_plain s : Forall is_ascii s -> Forall (fun c => is_plain c = true) (encode s).
Proof.
  induction 1 as [|c s Hc Hs IH]; [constructor|]. change (encode (c :: s)) with (encoded c ++ encode s).
  apply Forall_app. split; [|done]. apply Forall_forall. intros x Hx. pose proof (encoded_plain c Hc) as H.
  rewrite forallb_forall in H. apply H. by apply list_elem_of_In.
Qed.

Lemma plain_nonzero s : Forall (fun c => is_plain c = true) s -> Forall (fun c => c <> 0) s.
Proof. intros H. eapply Forall_impl; [exact H|]. intros c Hc ->. discriminate Hc. Qed.

Lemma ascii_nonzero s : Forall is_ascii s -> Forall (fun c => c <> 0) s.
Proof. intros H. eapply Forall_impl; [exact H|]. unfold is_ascii. cbn. lia. Qed.

End EslTextProof.

Import EslText EslTextProof.

(** Searching finds the first place at which the text has the pattern, whatever
    the case of the letters, and nothing for an empty pattern. *)
Theorem esl_stristr_correct pat s : Forall is_byte pat -> Forall is_byte s ->
  esl_stristr (Some pat) (Some s) = if bool_decide (pat = []) then None else find_nocase pat s.
Proof.
  intros Fp Fs. cbn [esl_stristr]. case_bool_decide as E; [|by apply stristr_spec]. subst pat.
  induction Fs as [|c s Hc Fs IH]; [done|]. cbn [stristr_loop hd]. unfold is_byte in Hc. rewrite !up_byte by lia.
  assert ((if c <? 128 then toupper c else c - 256) =? (if 0 <? 128 then toupper 0 else 0 - 256) = false) as ->; [|exact IH].
  apply Z.eqb_neq. cbn. unfold toupper, is_lower.
  repeat match goal with |- context [ (?x <=? ?y) ] => destruct (Z.leb_spec x y) | |- context [ (?x <? ?y) ] => destruct (Z.ltb_spec x y) end; cbn; lia.
Qed.

Lemma esl_stristr_correct_witness : esl_stristr (Some (bytes_of "Lo")) (Some (bytes_of "hello")) = Some (bytes_of "lo").
Proof.
  rewrite (esl_stristr_correct (bytes_of "Lo") (bytes_of "hello")); [vm_compute; reflexivity| |];
    repeat constructor; vm_compute; split; reflexivity.
Defined.

(** A text of ASCII characters survives encoding and decoding, and its encoded
    form has no white space and no colon, when the buffer is longer than the
    encoded text by two bytes. *)
Theorem esl_url_roundtrip s len : Forall is_ascii s -> (length (encode s) + 1 < len)%nat ->
  exists t, esl_url_encode s len = Ok t /\ Forall (fun c => is_plain c = true) t /\ esl_url_decode t = s.
Proof.
  intros Hs Hl. exists (encode s). split_and!.
  - destruct len as [|len]; [lia|]. cbn [esl_url_encode]. apply encode_loop_spec; [done|lia].
  - by apply encode_plain.
  - unfold esl_url_decode. rewrite decode_encode by done. by apply cstring_id, ascii_nonzero.
Qed.

Lemma esl_url_roundtrip_witness :
  exists t, esl_url_encode (bytes_of "a: 100%") 20 = Ok t /\ Forall (fun c => is_plain c = true) t /\ esl_url_decode t = bytes_of "a: 100%".
Proof. apply (esl_url_roundtrip (bytes_of "a: 100%") 20); [repeat constructor; vm_compute; reflexivity|vm_compute; lia]. Defined.

(** A text with a byte above 127 makes the encoder read before its table of
    digits, and one whose characters all have to be encoded loses its last one
    in the buffer [esl_event_serialize] provides for it. *)
Theorem esl_url_encode_flaws s len n :
  (0 < n)%nat -> Forall is_ascii s -> (length (encode s) + 4 < len)%nat ->
  esl_url_encode (s ++ [200]) len = Fault OutOfBounds /\
  esl_url_encode (replicate n 10) (3 * n + 1) = Ok (encode (replicate (n - 1) 10)).
Proof.
  intros Hn Hs Hl. split.
  - destruct len as [|len]; [lia|]. cbn [esl_url_encode]. rewrite encode_loop_app by (done || lia).
    cbn [encode_loop]. by rewrite !(proj2 (Nat.leb_gt _ _)) by lia.
  - rewrite Nat.add_1_r. cbn [esl_url_encode]. exact (encode_all_unsafe n 0 Hn).
Qed.

Lemma esl_url_encode_flaws_witness :
  esl_url_encode (bytes_of "caf" ++ [200]) 40 = Fault OutOfBounds /\ esl_url_encode (replicate 600 10) 1801 = Ok (encode (replicate 599 10)).
Proof. apply (esl_url_encode_flaws (bytes_of "caf") 40 600); [lia|repeat constructor; vm_compute; reflexivity|vm_compute; lia]. Defined.
