(* ===== verification/EslEvent.v ===== *)
(** * Events of the console client

    [src/libs/esl/src/esl_event.c]: an event has an ordered list of headers,
    each with a value or an array of values, and a body.  The list of the
    headers and their last one are a list; [idx] is the length of the array.
    The JSON code of the client ([esl_json.c]) is the text of the framework's
    and is modelled by [Json]. *)

From stdpp Require Import base list strings.
From Stdlib Require Import ZArith Lia.
From S2P Require Import Prelude CString Json Api EslText.

Module EslEv.
Import EslText.

(** ** Types of events *)

Definition EVENT_NAMES : list cstr := bytes_of <$> [
  "CUSTOM"; "CLONE"; "CHANNEL_CREATE"; "CHANNEL_DESTROY"; "CHANNEL_STATE"; "CHANNEL_CALLSTATE";
  "CHANNEL_ANSWER"; "CHANNEL_HANGUP"; "CHANNEL_HANGUP_COMPLETE"; "CHANNEL_EXECUTE";
  "CHANNEL_EXECUTE_COMPLETE"; "CHANNEL_HOLD"; "CHANNEL_UNHOLD"; "CHANNEL_BRIDGE"; "CHANNEL_UNBRIDGE";
  "CHANNEL_PROGRESS"; "CHANNEL_PROGRESS_MEDIA"; "CHANNEL_OUTGOING"; "CHANNEL_PARK"; "CHANNEL_UNPARK";
  "CHANNEL_APPLICATION"; "CHANNEL_ORIGINATE"; "CHANNEL_UUID"; "API"; "LOG"; "INBOUND_CHAN"; "OUTBOUND_CHAN";
  "STARTUP"; "SHUTDOWN"; "PUBLISH"; "UNPUBLISH"; "TALK"; "NOTALK"; "SESSION_CRASH"; "MODULE_LOAD";
  "MODULE_UNLOAD"; "DTMF"; "MESSAGE"; "PRESENCE_IN"; "NOTIFY_IN"; "PRESENCE_OUT"; "PRESENCE_PROBE";
  "MESSAGE_WAITING"; "MESSAGE_QUERY"; "ROSTER"; "CODEC"; "BACKGROUND_JOB"; "DETECTED_SPEECH";
  "DETECTED_TONE"; "PRIVATE_COMMAND"; "HEARTBEAT"; "TRAP"; "ADD_SCHEDULE"; "DEL_SCHEDULE"; "EXE_SCHEDULE";
  "RE_SCHEDULE"; "RELOADXML"; "NOTIFY"; "PHONE_FEATURE"; "PHONE_FEATURE_SUBSCRIBE"; "SEND_MESSAGE";
  "RECV_MESSAGE"; "REQUEST_PARAMS"; "CHANNEL_DATA"; "GENERAL"; "COMMAND"; "SESSION_HEARTBEAT";
  "CLIENT_DISCONNECTED"; "SERVER_DISCONNECTED"; "SEND_INFO"; "RECV_INFO"; "RECV_RTCP_MESSAGE"; "CALL_SECURE";
  "NAT"; "RECORD_START"; "RECORD_STOP"; "PLAYBACK_START"; "PLAYBACK_STOP"; "CALL_UPDATE"; "FAILURE";
  "SOCKET_DATA"; "MEDIA_BUG_START"; "MEDIA_BUG_STOP"; "CONFERENCE_DATA_QUERY"; "CONFERENCE_DATA";
  "CALL_SETUP_REQ"; "CALL_SETUP_RESULT"; "CALL_DETAIL"; "DEVICE_STATE"; "ALL"]%string.

Definition ESL_EVENT_CUSTOM : Z := 0.
Definition ESL_EVENT_CLONE : Z := 1.
Definition ESL_EVENT_SOCKET_DATA : Z := 80.
Definition ESL_EVENT_ALL : Z := 89.

Definition esl_event_name (event : Z) : result cstr :=
  if event <? 0 then Fault OutOfBounds
  else match EVENT_NAMES !! Z.to_nat event with Some n => Ok n | None => Fault OutOfBounds end.

(** The loop of [esl_name_event]: a prefix of 13 characters is ignored. *)
Fixpoint name_event_loop (name : cstr) (x : Z) (l : list cstr) : option Z :=
  match l with
  | [] => None
  | n :: l' =>
      if ((13 <? length name)%nat && same_nocase (drop 13 name) n) || same_nocase name n then Some x
      else name_event_loop name (x + 1) l'
  end.
Definition esl_name_event (name : cstr) : option Z := name_event_loop name 0 EVENT_NAMES.

(** ** State *)

(** [struct esl_event_header] *)
Record esl_event_header := Header { h_name : cstr; h_value : option cstr; h_array : list cstr; h_hash : Z }.

(** [struct esl_event], without the link to the next event. *)
Record esl_event := Event {
  event_id : Z;
  priority : Z;
  subclass_name : option cstr;
  headers : list esl_event_header;
  body : option cstr;
  bind_user_data : Z;
  event_user_data : Z;
  key : Z;
  flags : Z }.

Definition with_headers hs e :=
  Event (event_id e) (priority e) (subclass_name e) hs (body e) (bind_user_data e) (event_user_data e) (key e) (flags e).
Definition with_body b e :=
  Event (event_id e) (priority e) (subclass_name e) (headers e) b (bind_user_data e) (event_user_data e) (key e) (flags e).
Definition with_id i e :=
  Event i (priority e) (subclass_name e) (headers e) (body e) (bind_user_data e) (event_user_data e) (key e) (flags e).
Definition with_priority p e :=
  Event (event_id e) p (subclass_name e) (headers e) (body e) (bind_user_data e) (event_user_data e) (key e) (flags e).

(** The places at which a header is added, as the numbers the enumeration
    gives them; the code tests them like flags. *)
Definition ESL_STACK_BOTTOM : Z := 0.
Definition ESL_STACK_TOP : Z := 1.
Definition ESL_STACK_PUSH : Z := 2.
Definition ESL_STACK_UNSHIFT : Z := 3.
Definition flag (stack f : Z) : bool := negb (Z.land stack f =? 0).

Definition ESL_EF_UNIQ_HEADERS : Z := 1.

(** ** Looking up and deleting headers *)

Definition esl_ci_hashfunc_default (char_key : cstr) : Z :=
  foldl (fun hash c => wrap 32 (hash * 33 + tolower c)) 0 char_key.

Definition is_header (header_name : cstr) (hp : esl_event_header) : bool :=
  ((h_hash hp =? 0) || (esl_ci_hashfunc_default header_name =? h_hash hp)) && same_nocase (h_name hp) header_name.

(** [esl_event_get_header_ptr]: the position of the header. *)
Fixpoint get_header_ptr (header_name : cstr) (l : list esl_event_header) : option nat :=
  match l with
  | [] => None
  | hp :: l' => if is_header header_name hp then Some 0%nat else S <$> get_header_ptr header_name l'
  end.

Definition esl_event_get_header_idx (event : esl_event) (header_name : cstr) (idx : Z) : option cstr :=
  match get_header_ptr header_name (headers event) with
  | Some i =>
      match headers event !! i with
      | Some hp => if -1 <? idx then h_array hp !! Z.to_nat idx else h_value hp
      | None => None
      end
  | None => if bool_decide (header_name = bytes_of "_body") then body event else None
  end.
Definition esl_event_get_header (event : esl_event) (header_name : cstr) : option cstr :=
  esl_event_get_header_idx event header_name (-1).

Definition esl_event_get_body (event : esl_event) : option cstr := body event.

(** Whether the header is one [esl_event_del_header_val] removes. *)
Definition is_deleted (header_name : cstr) (val : option cstr) (hp : esl_event_header) : bool :=
  is_header header_name hp &&
  match val with
  | None | Some [] => true
  | Some v => bool_decide (h_value hp = Some v)
  end.

(** The headers are counted up to a million. *)
Definition esl_event_del_header_val (event : esl_event) (header_name : cstr) (val : option cstr) : result esl_event :=
  if 1000000 <=? Z.of_nat (length (headers event)) then Fault Assertion
  else Ok (with_headers (filter (fun hp => is_deleted header_name val hp = false) (headers event)) event).
Definition esl_event_del_header (event : esl_event) (header_name : cstr) : result esl_event :=
  esl_event_del_header_val event header_name None.

(** ** Adding headers *)

Definition new_header (header_name : cstr) : esl_event_header := Header header_name None [] 0.

Definition esl_event_set_body (event : esl_event) (b : option cstr) : esl_event := with_body b event.

Definition ARRAY : cstr := bytes_of "ARRAY::".
Definition BAR : cstr := bytes_of "|:".

(** The loop that writes the elements of an array into the value. *)
Fixpoint redraw_loop (buf : list Z) (len : nat) (first : bool) (l : list cstr) : result (list Z) :=
  match l with
  | [] => Ok buf
  | a :: l' =>
      let n := length (cstring buf) in
      let! buf := esl_snprintf buf n (len - n) ((if first then [] else BAR) ++ a) in
      redraw_loop buf len false l'
  end.

(** At [redraw]: the value of a header with an array. *)
Definition redraw (hp : esl_event_header) : result esl_event_header :=
  let len := list_sum ((fun a => (length a + 2)%nat) <$> h_array hp) in
  if (len =? 0)%nat then Ok hp
  else
    let len := (len + 8)%nat in
    let buf := replicate len 0 in
    let! buf := (if (1 <? length (h_array hp))%nat then esl_snprintf buf 0 len ARRAY else Ok buf) in
    let! buf := redraw_loop buf len true (h_array hp) in
    Ok (Header (h_name hp) (Some (cstring buf)) (h_array hp) (h_hash hp)).

(** A value is added to the array of a header. *)
Definition push_value (stack : Z) (hp : esl_event_header) (data : cstr) : result esl_event_header :=
  let arr := match h_value hp, h_array hp with Some v, [] => [v] | _, l => l end in
  let arr := if flag stack ESL_STACK_PUSH then arr ++ [data] else data :: arr in
  redraw (Header (h_name hp) (h_value hp) arr (h_hash hp)).

(** A header that is not in the list yet is put there, at its top or bottom. *)
Definition link_header (stack : Z) (hp : esl_event_header) (event : esl_event) : esl_event :=
  let hp := Header (h_name hp) (h_value hp) (h_array hp) (esl_ci_hashfunc_default (h_name hp)) in
  with_headers (if flag stack ESL_STACK_TOP then hp :: headers event else headers event ++ [hp]) event.

(** The number in brackets behind a name. *)
Definition array_index (header_name : cstr) : cstr * option Z :=
  match Api.strchr 91 header_name with
  | (n, Some r) => (n, Some (atoi r))
  | (n, None) => (n, None)
  end.

(** An element of an array is set; beyond the end of the array the gap is
    filled with empty texts. *)
Definition set_index (event : esl_event) (stack : Z) (header_name : cstr) (index : Z) (data : cstr) : result esl_event :=
  let found := get_header_ptr header_name (headers event) in
  let! event :=
    (match found with
     | None => if flag (flags event) ESL_EF_UNIQ_HEADERS then esl_event_del_header event header_name else Ok event
     | Some _ => Ok event
     end) in
  let hp := match found with Some i => default (new_header header_name) (headers event !! i) | None => new_header header_name end in
  let put hp := match found with Some i => with_headers (<[i := hp]> (headers event)) event | None => link_header stack hp event end in
  if (-1 <? index) && (index <=? 4000) then
    let n := Z.to_nat index in
    if (n <? length (h_array hp))%nat
    then Ok (put (Header (h_name hp) (h_value hp) (<[n := data]> (h_array hp)) (h_hash hp)))
    else
      let arr := h_array hp ++ replicate (n - length (h_array hp)) [] ++ [data] in
      let! hp := redraw (Header (h_name hp) (h_value hp) arr (h_hash hp)) in
      Ok (put hp)
  else Ok event.

(** A header that exists gets the value, in its array or instead of its value. *)
Definition add_to_existing (event : esl_event) (i : nat) (hp : esl_event_header) (stack : Z) (data : cstr) : result esl_event :=
  let stack := Z.ldiff stack (Z.lor ESL_STACK_TOP ESL_STACK_BOTTOM) in
  let! hp :=
    (if flag stack ESL_STACK_PUSH || flag stack ESL_STACK_UNSHIFT then push_value stack hp data
     else Ok (Header (h_name hp) (Some data) (h_array hp) (h_hash hp))) in
  Ok (with_headers (<[i := hp]> (headers event)) event).

(** The occurrences of a separator. *)
Fixpoint count_occurrences (fuel : nat) (s pat : cstr) : nat :=
  match fuel with
  | O => 0
  | S fuel' => match strstr s pat with Some (_, r) => S (count_occurrences fuel' r pat) | None => 0 end
  end.

(** The pieces of a value [esl_event_add_array] adds. *)
Definition array_pieces (val : cstr) : list cstr :=
  let data := drop 7 val in
  esl_separate_string_string data BAR (S (count_occurrences (length data) data BAR)).

Fixpoint add_pieces (add : esl_event -> cstr -> result esl_event) (event : esl_event) (l : list cstr) : result esl_event :=
  match l with
  | [] => Ok event
  | a :: l' => let! event := add event a in add_pieces add event l'
  end.

(** [esl_event_base_add_header]; a value that contains ["ARRAY::"] is added
    piece by piece. *)
Fixpoint esl_event_base_add_header (fuel : nat) (event : esl_event) (stack : Z) (header_name data : cstr) : result esl_event :=
  match fuel with
  | O => OutOfFuel
  | S fuel' =>
      let event := if bool_decide (header_name = bytes_of "_body") then esl_event_set_body event (Some data) else event in
      match array_index header_name with
      | (nm, Some index) => set_index event stack nm index data
      | (nm, None) =>
          match (if flag stack ESL_STACK_PUSH || flag stack ESL_STACK_UNSHIFT then get_header_ptr nm (headers event) else None) with
          | Some i =>
              match headers event !! i with
              | Some hp => add_to_existing event i hp stack data
              | None => Fault BadPointer
              end
          | None =>
              if (length data =? 0)%nat then esl_event_del_header event nm
              else
                let! event := (if flag (flags event) ESL_EF_UNIQ_HEADERS then esl_event_del_header event nm else Ok event) in
                match strstr data ARRAY with
                | Some _ =>
                    if (length data <? 8)%nat then Ok event
                    else add_pieces (fun event a => esl_event_base_add_header fuel' event ESL_STACK_PUSH nm a) event (array_pieces data)
                | None =>
                    let! hp :=
                      (if flag stack ESL_STACK_PUSH || flag stack ESL_STACK_UNSHIFT then push_value stack (new_header nm) data
                       else Ok (Header nm (Some data) [] 0)) in
                    Ok (link_header stack hp event)
                end
          end
      end
  end.

Definition esl_event_add_header_string (event : esl_event) (stack : Z) (header_name data : cstr) : result esl_event :=
  esl_event_base_add_header (S (length data)) event stack header_name data.

Definition esl_event_add_array (event : esl_event) (var val : cstr) : result esl_event :=
  if (length val <? 8)%nat then Ok event
  else add_pieces (fun event a => esl_event_add_header_string event ESL_STACK_PUSH var a) event (array_pieces val).

(** ** Creating, copying and merging *)

Definition zero_event : esl_event := Event 0 0 None [] None 0 0 0 0.

Definition esl_event_create_subclass (id : Z) (subclass : option cstr) : result (option esl_event) :=
  match subclass with
  | Some s =>
      if negb (id =? ESL_EVENT_CLONE) && negb (id =? ESL_EVENT_CUSTOM) then Ok None
      else
        let! e :=
          (if id =? ESL_EVENT_CLONE then Ok zero_event
           else
             let! n := esl_event_name id in
             esl_event_add_header_string (with_id id zero_event) ESL_STACK_BOTTOM (bytes_of "Event-Name") n) in
        let e := Event (event_id e) (priority e) (Some s) (headers e) (body e) (bind_user_data e) (event_user_data e) (key e) (flags e) in
        let! e := esl_event_add_header_string e ESL_STACK_BOTTOM (bytes_of "Event-Subclass") s in
        Ok (Some e)
  | None =>
      if id =? ESL_EVENT_CLONE then Ok (Some zero_event)
      else
        let! n := esl_event_name id in
        let! e := esl_event_add_header_string (with_id id zero_event) ESL_STACK_BOTTOM (bytes_of "Event-Name") n in
        Ok (Some e)
  end.

Definition esl_priority_name (p : Z) : cstr :=
  if p =? 0 then bytes_of "NORMAL" else if p =? 1 then bytes_of "LOW" else if p =? 2 then bytes_of "HIGH" else bytes_of "INVALID".

Definition esl_event_set_priority (event : esl_event) (p : Z) : result esl_event :=
  esl_event_add_header_string (with_priority p event) ESL_STACK_TOP (bytes_of "priority") (esl_priority_name p).

(** The headers of an event are added to another one. *)
Definition merge_header (event : esl_event) (hp : esl_event_header) : result esl_event :=
  match h_array hp with
  | [] =>
      match h_value hp with
      | Some v => esl_event_add_header_string event ESL_STACK_BOTTOM (h_name hp) v
      | None => Ok event
      end
  | l => add_pieces (fun event a => esl_event_add_header_string event ESL_STACK_PUSH (h_name hp) a) event l
  end.

Fixpoint merge_headers (event : esl_event) (l : list esl_event_header) : result esl_event :=
  match l with
  | [] => Ok event
  | hp :: l' => let! event := merge_header event hp in merge_headers event l'
  end.

Definition esl_event_merge (event tomerge : esl_event) : result esl_event := merge_headers event (headers tomerge).

Definition esl_event_dup (todup : esl_event) : result (option esl_event) :=
  let! e := esl_event_create_subclass ESL_EVENT_CLONE (subclass_name todup) in
  match e with
  | None => Ok None
  | Some e =>
      let e := Event (event_id todup) (priority e) (subclass_name e) (headers e) (body e) (bind_user_data todup) (event_user_data todup) (key e) (flags todup) in
      let hs :=
        match subclass_name todup with
        | Some _ => filter (fun hp => h_name hp <> bytes_of "Event-Subclass") (headers todup)
        | None => headers todup
        end in
      let! e := merge_headers e hs in
      let b := match body todup with Some t => Some t | None => body e end in
      Ok (Some (Event (event_id e) (priority e) (subclass_name e) (headers e) b (bind_user_data e) (event_user_data e) (key todup) (flags e)))
  end.

End EslEv.
