(* ===== verification/EslWire.v ===== *)
(** * Events of the console client as text

    [src/libs/esl/src/esl_event.c]: the plain form of an event, a line per
    header, in a buffer that grows, and its JSON form. *)

From stdpp Require Import base list strings.
From Stdlib Require Import ZArith Lia.
From S2P Require Import Prelude CString Json Api EslText EslEvent.

Module EslWire.
Import EslText EslEv.

(** ** Plain text *)

Section serialize.
(** What new memory holds. *)
Context (junk : nat -> Z).

Definition BLOCK : nat := 512.

(** The room reserved for the encoded value. *)
Definition encode_room (hp : esl_event_header) : result nat :=
  match h_array hp, h_value hp with
  | [], Some v => Ok (length v * 3 + 1)%nat
  | [], None => Fault BadPointer
  | l, _ => Ok (list_sum ((fun a => (length a * 3 + 1)%nat) <$> l))
  end.

(** The value as it is written: the text in [encode_buf]. *)
Definition encode_value (encode : bool) (encode_len : nat) (v : option cstr) : result cstr :=
  match v with
  | None => Fault BadPointer
  | Some v =>
      if encode then esl_url_encode v encode_len
      else let! buf := esl_snprintf (junk <$> seq 0 encode_len) 0 encode_len v in Ok (cstring buf)
  end.

(** [buf] with room for [llen] bytes behind the [len] in use. *)
Definition grow_buf (buf : list Z) (len llen : nat) : list Z :=
  if (length buf <? len + llen)%nat then realloc_data junk buf (length buf + (BLOCK + (len + llen))) else buf.

(** The loop over the headers, with the buffer, the bytes in use and the size
    of the encoding buffer. *)
Fixpoint serialize_loop (encode : bool) (buf : list Z) (len encode_len : nat) (l : list esl_event_header) : result (list Z * nat) :=
  match l with
  | [] => Ok (buf, len)
  | hp :: l' =>
      let! new_len := encode_room hp in
      let encode_len := Nat.max encode_len new_len in
      let! enc := encode_value encode encode_len (h_value hp) in
      let llen := (length (h_name hp) + length enc + 8)%nat in
      let buf := grow_buf buf len llen in
      let! buf := esl_snprintf buf len (length buf - len)
        (h_name hp ++ bytes_of ": " ++ (if (length enc =? 0)%nat then bytes_of "_undef_" else enc) ++ [10]) in
      serialize_loop encode buf (length (cstring buf)) encode_len l'
  end.

Definition esl_event_serialize (event : esl_event) (encode : bool) : result cstr :=
  let! (buf, len) := serialize_loop encode (junk <$> seq 0 (2 * BLOCK)) 0 1536 (headers event) in
  match body event with
  | Some b =>
      let blen := sext 32 (Z.of_nat (length b)) in
      let buf := grow_buf buf len (length b + (if blen =? 0 then 5 else 25)) in
      let! buf := esl_snprintf buf len (length buf - len)
        (if blen =? 0 then [10] else bytes_of "Content-Length: " ++ print_int blen ++ [10; 10] ++ b) in
      Ok (cstring buf)
  | None => let! buf := esl_snprintf buf len (length buf - len) [10] in Ok (cstring buf)
  end.

End serialize.

(** ** JSON *)

(** The object of an event: an array for a header with one. *)
Definition header_item (hp : esl_event_header) : Json.cJSON :=
  match h_array hp with
  | [] => Json.cJSON_CreateString (h_value hp)
  | l => foldl (fun a t => Json.cJSON_AddItemToArray a (Some (Json.cJSON_CreateString (Some t)))) Json.cJSON_CreateArray l
  end.

Fixpoint add_items (cj : Json.cJSON) (l : list esl_event_header) : Json.cJSON :=
  match l with
  | [] => cj
  | hp :: l' => add_items (Json.cJSON_AddItemToObject cj (h_name hp) (Some (header_item hp))) l'
  end.

Definition esl_event_serialize_json `{Json.FloatOps} (event : esl_event) : result (option cstr) :=
  let cj := add_items Json.cJSON_CreateObject (headers event) in
  let! cj :=
    (match body event with
     | Some b =>
         let! tmp := esl_snprintf (replicate 25 0) 0 25 (print_int (sext 32 (Z.of_nat (length b)))) in
         let cj := Json.cJSON_AddItemToObject cj (bytes_of "Content-Length") (Some (Json.cJSON_CreateString (Some (cstring tmp)))) in
         Ok (Json.cJSON_AddItemToObject cj (bytes_of "_body") (Some (Json.cJSON_CreateString (Some b))))
     | None => Ok cj
     end) in
  Json.cJSON_Print cj.

Section create.
(** [esl_vasprintf] with the arguments [ESL_VA_NONE]: the C library's. *)
Context (vasprintf : cstr -> option cstr).

(** [esl_event_add_body]: the text is a format. *)
Definition esl_event_add_body (event : esl_event) (fmt : cstr) : esl_event :=
  match vasprintf fmt with Some data => with_body (Some data) event | None => event end.

(** The elements of an array that are strings. *)
Definition string_elements (cjp : Json.cJSON) : list cstr :=
  omap (fun item => if Json.type item =? Json.cJSON_String then Json.valuestring item else None) (Json.child cjp).

(** A member of the object becomes a header, the body, or an array. *)
Definition create_member (event : esl_event) (cjp : Json.cJSON) : result esl_event :=
  match Json.string cjp, Json.valuestring cjp with
  | Some name, Some value =>
      if same_nocase name (bytes_of "_body") then Ok (esl_event_add_body event value)
      else
        let! event :=
          (if same_nocase name (bytes_of "event-name") then
             let! event := esl_event_del_header event (bytes_of "event-name") in
             Ok (match esl_name_event value with Some id => with_id id event | None => event end)
           else Ok event) in
        esl_event_add_header_string event ESL_STACK_BOTTOM name value
  | Some name, None =>
      if Json.type cjp =? Json.cJSON_Array
      then add_pieces (fun event a => esl_event_add_header_string event ESL_STACK_PUSH name a) event (string_elements cjp)
      else Ok event
  | None, _ => Ok event
  end.

Fixpoint create_members (event : esl_event) (l : list Json.cJSON) : result esl_event :=
  match l with
  | [] => Ok event
  | cjp :: l' => let! event := create_member event cjp in create_members event l'
  end.

Definition esl_event_create_json `{Json.FloatOps} (json : cstr) : result (option esl_event) :=
  let! cj := Json.cJSON_Parse json in
  match cj with
  | None => Ok None
  | Some cj =>
      let! e := esl_event_create_subclass ESL_EVENT_CLONE None in
      match e with
      | None => Ok None
      | Some e => let! e := create_members e (Json.child cj) in Ok (Some e)
      end
  end.

End create.

End EslWire.
