(* ===== verification/EslClient.v ===== *)
(** * The console client

    [src/libs/esl/src/esl.c]: a handle connected to the event socket, reading
    packets and events from it, and sending commands and waiting for their
    replies.  The socket is the sequence of what its system calls give: a
    [wake] is what one call of [poll] reports and what [recv] gives then; when
    the sequence ends the peer has closed the connection.  What is sent is
    appended to [sent].  A handle is used by one thread. *)

From stdpp Require Import base list strings.
From Stdlib Require Import ZArith Lia.
From S2P Require Import Prelude CString Json Api EventSocket EslBuffer EslText EslEvent EslWire.

Module EslClient.
Import EslBuf EslText EslEv EslWire.

Inductive esl_status := ESL_SUCCESS | ESL_FAIL | ESL_BREAK | ESL_DISCONNECTED | ESL_GENERR.

#[global] Instance esl_status_eq_dec : EqDecision esl_status.
Proof. solve_decision. Defined.

(** ** The handle *)

Definition BUF_CHUNK : Z := 65536 * 50.
Definition BUF_START : Z := 65536 * 100.
Definition ESL_SOCK_INVALID : Z := -1.

(** The sizes of [socket_buf] and of the reply arrays. *)
Definition SOCKET_BUF : nat := Z.to_nat 65536.
Definition REPLY_LEN : nat := Z.to_nat 1024.

(** [esl_handle_t]; [race_event] is the list of the events linked there. *)
Record esl_handle := Handle {
  sock : Z;
  packet_buf : option esl_buffer;
  last_reply : list Z;
  last_sr_reply : list Z;
  last_event : option esl_event;
  last_sr_event : option esl_event;
  race_event : list esl_event;
  last_ievent : option esl_event;
  info_event : option esl_event;
  connected : bool;
  has_mutex : bool;
  async_execute : bool;
  event_lock : bool;
  destroyed : bool;
  sent : list Z }.

Definition with_buf b h := Handle (sock h) b (last_reply h) (last_sr_reply h) (last_event h) (last_sr_event h) (race_event h) (last_ievent h) (info_event h) (connected h) (has_mutex h) (async_execute h) (event_lock h) (destroyed h) (sent h).
Definition with_reply r h := Handle (sock h) (packet_buf h) r (last_sr_reply h) (last_event h) (last_sr_event h) (race_event h) (last_ievent h) (info_event h) (connected h) (has_mutex h) (async_execute h) (event_lock h) (destroyed h) (sent h).
Definition with_sr_reply r h := Handle (sock h) (packet_buf h) (last_reply h) r (last_event h) (last_sr_event h) (race_event h) (last_ievent h) (info_event h) (connected h) (has_mutex h) (async_execute h) (event_lock h) (destroyed h) (sent h).
Definition with_last e h := Handle (sock h) (packet_buf h) (last_reply h) (last_sr_reply h) e (last_sr_event h) (race_event h) (last_ievent h) (info_event h) (connected h) (has_mutex h) (async_execute h) (event_lock h) (destroyed h) (sent h).
Definition with_sr e h := Handle (sock h) (packet_buf h) (last_reply h) (last_sr_reply h) (last_event h) e (race_event h) (last_ievent h) (info_event h) (connected h) (has_mutex h) (async_execute h) (event_lock h) (destroyed h) (sent h).
Definition with_race l h := Handle (sock h) (packet_buf h) (last_reply h) (last_sr_reply h) (last_event h) (last_sr_event h) l (last_ievent h) (info_event h) (connected h) (has_mutex h) (async_execute h) (event_lock h) (destroyed h) (sent h).
Definition with_ievent e h := Handle (sock h) (packet_buf h) (last_reply h) (last_sr_reply h) (last_event h) (last_sr_event h) (race_event h) e (info_event h) (connected h) (has_mutex h) (async_execute h) (event_lock h) (destroyed h) (sent h).
Definition with_info e h := Handle (sock h) (packet_buf h) (last_reply h) (last_sr_reply h) (last_event h) (last_sr_event h) (race_event h) (last_ievent h) e (connected h) (has_mutex h) (async_execute h) (event_lock h) (destroyed h) (sent h).
Definition with_connected v h := Handle (sock h) (packet_buf h) (last_reply h) (last_sr_reply h) (last_event h) (last_sr_event h) (race_event h) (last_ievent h) (info_event h) v (has_mutex h) (async_execute h) (event_lock h) (destroyed h) (sent h).
Definition with_sock v h := Handle v (packet_buf h) (last_reply h) (last_sr_reply h) (last_event h) (last_sr_event h) (race_event h) (last_ievent h) (info_event h) (connected h) (has_mutex h) (async_execute h) (event_lock h) (destroyed h) (sent h).
Definition with_mutex v h := Handle (sock h) (packet_buf h) (last_reply h) (last_sr_reply h) (last_event h) (last_sr_event h) (race_event h) (last_ievent h) (info_event h) (connected h) v (async_execute h) (event_lock h) (destroyed h) (sent h).
Definition with_sent s h := Handle (sock h) (packet_buf h) (last_reply h) (last_sr_reply h) (last_event h) (last_sr_event h) (race_event h) (last_ievent h) (info_event h) (connected h) (has_mutex h) (async_execute h) (event_lock h) (destroyed h) s.

(** A handle as [memset] leaves it. *)
Definition zero_handle : esl_handle :=
  Handle 0 None (replicate REPLY_LEN 0) (replicate REPLY_LEN 0) None None [] None None false false false false false [].

(** ** The socket *)

Definition ESL_POLL_READ : Z := 1.
Definition ESL_POLL_WRITE : Z := 2.
Definition ESL_POLL_ERROR : Z := 4.
Definition POLLIN : Z := 1.
Definition POLLOUT : Z := 4.
Definition POLLERR : Z := 8.

(** [esl_wait_sock]: [s] and [revents] are what [poll] gives. *)
Definition esl_wait_sock (sock s revents : Z) : Z :=
  if sock =? ESL_SOCK_INVALID then ESL_SOCK_INVALID
  else if s <? 0 then s
  else if 0 <? s then
    let r := if flag revents POLLIN then ESL_POLL_READ else 0 in
    let r := if flag revents POLLOUT then Z.lor r ESL_POLL_WRITE else r in
    if flag revents POLLERR then Z.lor r ESL_POLL_ERROR else r
  else 0.

(** What [recv] gives: bytes, the end of the stream, a failure that is to be
    tried again, another failure. *)
Inductive received := RData (bs : list Z) | RClosed | RAgain | RError.

Record wake := Wake { poll_s : Z; poll_revents : Z; recv_result : received }.

(** What [handle_recv] makes of it: nothing (zero), a failure (negative), or
    bytes.  Only reading and errors are waited for. *)
Inductive handled := Nothing | Lost | Got (bs : list Z).

Definition handle_recv (h : esl_handle) (w : wake) (n : nat) : result handled :=
  if negb (connected h) then Ok Lost
  else
    let activity := esl_wait_sock (sock h) (poll_s w) (poll_revents w) in
    if 0 <? activity then
      if flag activity ESL_POLL_ERROR then Ok Lost
      else if flag activity ESL_POLL_READ then
        match recv_result w with
        | RData bs => if (n <? length bs)%nat then Fault OutOfBounds else if (length bs =? 0)%nat then Ok Lost else Ok (Got bs)
        | RClosed => Ok Lost
        | RAgain => Ok Nothing
        | RError => Ok Lost
        end
      else Ok Nothing
    else if activity <? 0 then Ok Lost
    else Ok Nothing.

(** ** Packets *)

(** [atol] *)
Definition atol (s : cstr) : Z :=
  match skip_space s with
  | 45 :: s' => clamp64 (- digits_value 0 s')
  | 43 :: s' => clamp64 (digits_value 0 s')
  | s' => clamp64 (digits_value 0 s')
  end.

(** Blanks and tabs are skipped. *)
Fixpoint skip_tab (s : cstr) : cstr :=
  match s with
  | c :: s' => if (c =? 32) || (c =? 9) then skip_tab s' else s
  | [] => []
  end.

(** A header of a packet or of an event as text. *)
Definition add_received (event : esl_event) (hname hval : cstr) : result esl_event :=
  if is_prefix ARRAY hval then esl_event_add_array event hname hval
  else esl_event_add_header_string event ESL_STACK_BOTTOM hname hval.

(** The loop over the lines of a packet. *)
Fixpoint parse_packet (fuel : nat) (event : esl_event) (p : cstr) : result esl_event :=
  match fuel with
  | O => OutOfFuel
  | S fuel' =>
      match Api.strchr 58 p with
      | (_, None) => Ok event
      | (hname, Some hval) =>
          match Api.strchr 10 (skip_tab hval) with
          | (_, None) => Ok event
          | (hval, Some e) =>
              let! event := add_received event hname (esl_url_decode hval) in
              parse_packet fuel' event (Esl.skip_crlf e)
          end
      end
  end.

(** The event of a packet. *)
Definition packet_event (text : list Z) : result esl_event :=
  let! e := esl_event_create_subclass ESL_EVENT_CLONE None in
  match e with
  | None => Fault BadPointer
  | Some e =>
      let! e := esl_event_add_header_string (with_id ESL_EVENT_SOCKET_DATA e) ESL_STACK_BOTTOM (bytes_of "Event-Name") (bytes_of "SOCKET_DATA") in
      let text := cstring text in
      parse_packet (S (length text)) e text
  end.

Section client.
Context `{Json.FloatOps}.
(** The memory [realloc] adds, and [esl_vasprintf] (the C library's). *)
Context (junk : nat -> Z) (vasprintf : cstr -> option cstr).

Definition buffer_of (h : esl_handle) : result esl_buffer :=
  match packet_buf h with Some b => Ok b | None => Fault BadPointer end.

(** The loop that waits for a packet: [None] when the connection is lost. *)
Fixpoint recv_packet (h : esl_handle) (ws : list wake) : result (esl_handle * option esl_event * list wake) :=
  let! b := buffer_of h in
  let! (b, text) := esl_buffer_read_packet b (SOCKET_BUF - 1) in
  let h := with_buf (Some b) h in
  if negb (length text =? 0)%nat then
    let! e := packet_event text in Ok (h, Some e, ws)
  else
    match ws with
    | [] => Ok (h, None, [])
    | w :: ws' =>
        let! r := handle_recv h w (SOCKET_BUF - 1) in
        match r with
        | Nothing => recv_packet h ws'
        | Lost => Ok (h, None, ws')
        | Got bs =>
            let! (b, _) := esl_buffer_write junk true b bs in
            recv_packet (with_buf (Some b) h) ws'
        end
    end.

(** The loop that waits for a body of [len] bytes. *)
Fixpoint recv_body (h : esl_handle) (len : nat) (ws : list wake) : result (esl_handle * option cstr * list wake) :=
  let! b := buffer_of h in
  if (len <=? esl_buffer_inuse b)%nat then
    let! (b, bs) := esl_buffer_read b len in
    Ok (with_buf (Some b) h, Some (cstring bs), ws)
  else
    match ws with
    | [] => Ok (h, None, [])
    | w :: ws' =>
        let! r := handle_recv h w (SOCKET_BUF - 1) in
        match r with
        | Nothing => recv_body h len ws'
        | Lost => Ok (h, None, ws')
        | Got bs =>
            let! (b, _) := esl_buffer_write junk true b bs in
            recv_body (with_buf (Some b) h) len ws'
        end
    end.

(** A packet with its body. *)
Definition recv_whole (h : esl_handle) (ws : list wake) : result (esl_handle * option esl_event * list wake) :=
  let! (h, revent, ws) := recv_packet h ws in
  match revent with
  | None => Ok (h, None, ws)
  | Some revent =>
      match esl_event_get_header revent (bytes_of "content-length") with
      | None => Ok (h, Some revent, ws)
      | Some cl =>
          let len := atol cl in
          if len <? 0 then Fault OutOfBounds
          else
            let! (h, body, ws) := recv_body h (Z.to_nat len) ws in
            match body with
            | None => Ok (h, None, ws)
            | Some body => Ok (h, Some (with_body (Some body) revent), ws)
            end
      end
  end.

(** ** Events in the body of a packet *)

(** The loop over the lines of an event in plain text; what is left is the
    text behind the empty line.  A line without a colon takes the colon of a
    later one, and the text then ends there. *)
Fixpoint parse_plain (fuel : nat) (event : esl_event) (beg : cstr) : result (esl_event * cstr) :=
  match fuel with
  | O => OutOfFuel
  | S fuel' =>
      match Api.strchr 10 beg with
      | (_, None) => Ok (event, beg)
      | (line, Some rest) =>
          let '(hname, hval, rest) :=
            match Api.strchr 58 line with
            | (n, Some v) => (n, Some (Esl.skip_blank v), rest)
            | (_, None) =>
                match Api.strchr 58 rest with
                | (r, Some v) => (line, Some (Esl.skip_blank v), r)
                | (_, None) => (line, None, rest)
                end
            end in
          let! event :=
            (match hval with
             | None => Ok event
             | Some hval =>
                 let hval := esl_url_decode hval in
                 let! event :=
                   (if same_nocase hname (bytes_of "event-name") then
                      let! event := esl_event_del_header event (bytes_of "event-name") in
                      Ok (match esl_name_event hval with Some id => with_id id event | None => event end)
                    else Ok event) in
                 add_received event hname hval
             end) in
          match rest with
          | c :: beg => if c =? 10 then Ok (event, beg) else parse_plain fuel' event rest
          | [] => parse_plain fuel' event rest
          end
      end
  end.

Definition plain_event (text : cstr) : result (option esl_event) :=
  let! e := esl_event_create_subclass ESL_EVENT_CLONE None in
  match e with
  | None => Ok None
  | Some e =>
      let! (e, beg) := parse_plain (S (length text)) e text in
      match esl_event_get_header e (bytes_of "content-length") with
      | Some _ => Ok (Some (with_body (Some beg) e))
      | None => Ok (Some e)
      end
  end.

(** [esl_safe_strcasecmp(s, t) == 0] *)
Definition is_text (s : option cstr) (t : cstr) : bool :=
  match s with Some s => same_nocase s t | None => false end.

(** [strncpy] into a reply array. *)
Definition strncpy_reply (s : cstr) : list Z := take REPLY_LEN (s ++ replicate REPLY_LEN 0).

(** At [fail]. *)
Definition failed (h : esl_handle) : esl_handle := with_connected false h.

(** At [parse_event], for an event that is kept in the handle. *)
Definition keep_event (h : esl_handle) (revent : esl_event) : result (esl_handle * esl_status) :=
  let h := with_last (Some revent) h in
  let h :=
    match esl_event_get_header revent (bytes_of "reply-text") with
    | Some (c :: v) => with_reply (strncpy_reply (c :: v)) h
    | _ => h
    end in
  let ct := esl_event_get_header revent (bytes_of "content-type") in
  match body revent with
  | None => Ok (h, ESL_SUCCESS)
  | Some bd =>
      let disposition := esl_event_get_header revent (bytes_of "content-disposition") in
      if is_text ct (bytes_of "text/disconnect-notice") && negb (is_text disposition (bytes_of "linger"))
      then Ok (failed h, ESL_FAIL)
      else if is_text ct (bytes_of "text/event-plain") then
        let! e := plain_event bd in Ok (with_ievent e h, ESL_SUCCESS)
      else if is_text ct (bytes_of "text/event-json") then
        let! e := esl_event_create_json vasprintf bd in
        Ok (match e with Some e => with_ievent (Some e) h | None => h end, ESL_SUCCESS)
      else Ok (h, ESL_SUCCESS)
  end.

(** The result of [esl_recv_event]: with [save] the event is handed out and
    not kept. *)
Definition recv_result_t := (esl_handle * esl_status * option esl_event * list wake)%type.

Definition parse_event (h : esl_handle) (revent : esl_event) (save : bool) (ws : list wake) : result recv_result_t :=
  if save then Ok (h, ESL_SUCCESS, Some revent, ws)
  else let! (h, status) := keep_event h revent in Ok (h, status, None, ws).

Definition esl_recv_event (h : esl_handle) (check_q save : bool) (ws : list wake) : result recv_result_t :=
  if negb (connected h) || (sock h =? ESL_SOCK_INVALID) then Ok (h, ESL_FAIL, None, ws)
  else
    let h := with_ievent None h in
    match check_q, race_event h with
    | true, revent :: race => parse_event (with_race race h) revent save ws
    | _, _ =>
        let! (h, revent, ws) := recv_whole h ws in
        match revent with
        | None => Ok (failed h, ESL_FAIL, None, ws)
        | Some revent => parse_event h revent save ws
        end
    end.

(** [esl_recv_event_timed]; [poll] is what its own wait gives. *)
Definition esl_recv_event_timed (h : esl_handle) (ms : Z) (check_q save : bool) (poll : Z * Z) (ws : list wake) : result recv_result_t :=
  if ms =? 0 then esl_recv_event h check_q save ws
  else if negb (connected h) || (sock h =? ESL_SOCK_INVALID) then Ok (h, ESL_FAIL, None, ws)
  else
    let! waiting :=
      (if check_q then
         match race_event h with
         | _ :: _ => Ok true
         | [] => let! b := buffer_of h in let! count := esl_buffer_packet_count b in Ok (negb (count =? 0)%nat)
         end
       else Ok false) in
    if waiting : bool then esl_recv_event h check_q save ws
    else
      let activity :=
        match packet_buf h with
        | Some b => if (esl_buffer_inuse b =? 0)%nat then esl_wait_sock (sock h) (fst poll) (snd poll) else ESL_POLL_READ
        | None => esl_wait_sock (sock h) (fst poll) (snd poll)
        end in
      if activity <? 0 then Ok (failed h, ESL_FAIL, None, ws)
      else if (activity =? 0) || negb (flag activity ESL_POLL_READ) then Ok (h, ESL_BREAK, None, ws)
      else
        let! (h, status, ev, ws) := esl_recv_event h check_q save ws in
        Ok (h, if bool_decide (status = ESL_SUCCESS) then ESL_SUCCESS else ESL_FAIL, ev, ws).

(** ** Commands *)

(** [esl_send]; [ok1] and [ok2] are whether the two calls of [send] take all
    their bytes. *)
Definition esl_send (h : esl_handle) (cmd : cstr) (ok1 ok2 : bool) : result (esl_handle * esl_status) :=
  if negb (connected h) || (sock h =? ESL_SOCK_INVALID) then Ok (h, ESL_FAIL)
  else if negb ok1 then Ok (failed h, ESL_FAIL)
  else
    let h := with_sent (sent h ++ cmd) h in
    match reverse cmd with
    | [] => Fault OutOfBounds
    | c :: r =>
        let! ends :=
          (if c =? 10 then match r with [] => Fault OutOfBounds | d :: _ => Ok (d =? 10) end else Ok false) in
        if ends : bool then Ok (h, ESL_SUCCESS)
        else if ok2 then Ok (with_sent (sent h ++ [10; 10]) h, ESL_SUCCESS)
        else Ok (failed h, ESL_FAIL)
    end.

(** Whether an event is not a reply. *)
Definition is_other (e : esl_event) : bool :=
  match esl_event_get_header e (bytes_of "content-type") with
  | Some ct => negb (same_nocase ct (bytes_of "api/response")) && negb (same_nocase ct (bytes_of "command/reply"))
  | None => false
  end.

(** From [recv] on: other events that arrive before the reply are queued. *)
Fixpoint recv_reply (fuel : nat) (h : esl_handle) (ms : Z) (polls : list (Z * Z)) (ws : list wake)
    : result (esl_handle * esl_status * list wake) :=
  match fuel with
  | O => OutOfFuel
  | S fuel' =>
      let h := with_sr_reply (0 :: tl (last_sr_reply h)) (with_sr None h) in
      let! (h, status, ev, ws) := esl_recv_event_timed h ms false true (hd (0, 0) polls) ws in
      let h := with_sr ev h in
      match ev with
      | None => Ok (h, status, ws)
      | Some e =>
          if is_other e then
            let h := with_sr None (with_race (race_event h ++ [e]) h) in
            if negb (connected h) || (sock h =? ESL_SOCK_INVALID) then Ok (failed h, ESL_FAIL, ws)
            else recv_reply fuel' h ms (tl polls) ws
          else
            let h :=
              match esl_event_get_header e (bytes_of "reply-text") with
              | Some (c :: v) => with_sr_reply (strncpy_reply (c :: v)) h
              | _ => h
              end in
            Ok (h, status, ws)
      end
  end.

Definition esl_send_recv_timed (fuel : nat) (h : esl_handle) (cmd : cstr) (ms : Z) (ok1 ok2 : bool) (polls : list (Z * Z)) (ws : list wake)
    : result (esl_handle * esl_status * list wake) :=
  if negb (connected h) || (sock h =? ESL_SOCK_INVALID) then Ok (h, ESL_FAIL, ws)
  else
    let h := with_sr_reply (0 :: tl (last_sr_reply h)) (with_sr None h) in
    let! (h, status) := esl_send h cmd ok1 ok2 in
    if negb (bool_decide (status = ESL_SUCCESS)) then Ok (h, status, ws)
    else recv_reply fuel h ms polls ws.

Definition esl_send_recv (fuel : nat) (h : esl_handle) (cmd : cstr) (ok1 ok2 : bool) (ws : list wake) :=
  esl_send_recv_timed fuel h cmd 0 ok1 ok2 [] ws.

(** [snprintf] into an array of [n] bytes. *)
Definition snprintf (n : nat) (t : cstr) : cstr := take (n - 1) t.

Definition esl_filter (fuel : nat) (h : esl_handle) (header value : cstr) (ok1 ok2 : bool) (ws : list wake) :=
  if negb (connected h) || (sock h =? ESL_SOCK_INVALID) then Ok (h, ESL_FAIL, ws)
  else esl_send_recv fuel h (snprintf 1024 (bytes_of "filter " ++ header ++ [32] ++ value ++ [10; 10])) ok1 ok2 ws.

Inductive esl_event_type := ESL_EVENT_TYPE_PLAIN | ESL_EVENT_TYPE_XML | ESL_EVENT_TYPE_JSON.

Definition esl_events (fuel : nat) (h : esl_handle) (etype : esl_event_type) (value : cstr) (ok1 ok2 : bool) (ws : list wake) :=
  let type := match etype with ESL_EVENT_TYPE_PLAIN => bytes_of "plain" | ESL_EVENT_TYPE_XML => bytes_of "xml" | ESL_EVENT_TYPE_JSON => bytes_of "json" end in
  if negb (connected h) || (sock h =? ESL_SOCK_INVALID) then Ok (h, ESL_FAIL, ws)
  else esl_send_recv fuel h (snprintf 1024 (bytes_of "event " ++ type ++ [32] ++ value ++ [10; 10])) ok1 ok2 ws.

Definition esl_execute (fuel : nat) (h : esl_handle) (app arg uuid : option cstr) (ok1 ok2 : bool) (ws : list wake) :=
  if negb (connected h) || (sock h =? ESL_SOCK_INVALID) then Ok (h, ESL_FAIL, ws)
  else
    let cmd_buf := match uuid with Some u => snprintf 128 (bytes_of "sendmsg " ++ u) | None => bytes_of "sendmsg" end in
    let app_buf := match app with Some a => snprintf 512 (bytes_of "execute-app-name: " ++ a ++ [10]) | None => [] end in
    let arg_buf := match arg with Some a => snprintf (Z.to_nat 4096) (bytes_of "execute-app-arg: " ++ a ++ [10]) | None => [] end in
    esl_send_recv fuel h
      (snprintf (Z.to_nat 5120) (cmd_buf ++ [10] ++ bytes_of "call-command: execute" ++ [10] ++ app_buf ++ arg_buf ++
         (if event_lock h then bytes_of "event-lock: true" ++ [10] else []) ++
         (if async_execute h then bytes_of "async: true" ++ [10] else []) ++ [10])) ok1 ok2 ws.

Definition esl_sendevent (fuel : nat) (h : esl_handle) (event : option esl_event) (ok1 ok2 : bool) (ws : list wake) :=
  match event with
  | Some e =>
      if negb (connected h) then Ok (h, ESL_FAIL, ws)
      else
        let! txt := esl_event_serialize junk e false in
        let! n := esl_event_name (event_id e) in
        esl_send_recv fuel h (snprintf (length txt + 100) (bytes_of "sendevent " ++ n ++ [10] ++ txt)) ok1 ok2 ws
  | None => Ok (h, ESL_FAIL, ws)
  end.

Definition esl_sendmsg (fuel : nat) (h : esl_handle) (event : esl_event) (uuid : option cstr) (ok1 ok2 : bool) (ws : list wake) :=
  if negb (connected h) || (sock h =? ESL_SOCK_INVALID) then Ok (h, ESL_FAIL, ws)
  else
    let! txt := esl_event_serialize junk event false in
    esl_send_recv fuel h
      (snprintf (length txt + 100) (match uuid with
                                    | Some u => bytes_of "sendmsg " ++ u ++ [10] ++ txt
                                    | None => bytes_of "sendmsg" ++ [10] ++ txt
                                    end)) ok1 ok2 ws.

(** ** Connecting and disconnecting *)

Definition new_buffer : esl_buffer := esl_buffer_create 0 (Z.to_nat BUF_CHUNK) (Z.to_nat BUF_START) 0.

Definition prepare (h : esl_handle) : esl_handle :=
  let h := with_mutex true h in
  match packet_buf h with Some _ => h | None => with_buf (Some new_buffer) h end.

Definition esl_disconnect (h : esl_handle) : esl_handle * esl_status :=
  if destroyed h then (h, ESL_FAIL)
  else
    let status := if sock h =? ESL_SOCK_INVALID then ESL_FAIL else ESL_SUCCESS in
    let z := zero_handle in
    (Handle (sock z) (packet_buf z) (last_reply z) (last_sr_reply z) (last_event z) (last_sr_event z) (race_event z) (last_ievent z)
       (info_event z) (connected z) (has_mutex z) (async_execute z) (event_lock z) true (sent h), status).

Definition esl_attach_handle (fuel : nat) (h : esl_handle) (socket : Z) (ok1 ok2 : bool) (ws : list wake) :=
  if socket =? ESL_SOCK_INVALID then Ok (h, ESL_FAIL, ws)
  else
    let h := with_connected true (prepare (with_sock socket h)) in
    let! (h, _, ws) := esl_send_recv fuel h (bytes_of "connect" ++ [10; 10]) ok1 ok2 ws in
    match last_sr_event h with
    | Some e => Ok (with_sr None (with_info (Some e) h), ESL_SUCCESS, ws)
    | None => let (h, _) := esl_disconnect h in Ok (h, ESL_FAIL, ws)
    end.

(** What the system says when a connection is made: whether the host was
    resolved to an address of a known family, the socket, whether it could be
    set non-blocking, the result of [connect], and of the wait. *)
Record network := Network { resolves : bool; family_ok : bool; new_sock : Z; fcntl_ok : bool; connect_rval : Z; wait_s : Z; wait_revents : Z }.

Definition esl_connect_timeout (h : esl_handle) (n : network) (timeout : Z) : esl_handle * esl_status :=
  let h := prepare h in
  if negb (resolves n) || negb (family_ok n) then (failed h, ESL_FAIL)
  else
    let h := with_sock (new_sock n) h in
    if new_sock n =? ESL_SOCK_INVALID then (failed h, ESL_FAIL)
    else if negb (timeout =? 0) && negb (fcntl_ok n) then (failed h, ESL_FAIL)
    else if negb (timeout =? 0) then
      let r := esl_wait_sock (sock h) (wait_s n) (wait_revents n) in
      if (r <=? 0) || negb (flag r ESL_POLL_WRITE) then (failed h, ESL_FAIL)
      else (with_connected true h, ESL_SUCCESS)
    else if negb (connect_rval n =? 0) then (failed h, ESL_FAIL)
    else (with_connected true h, ESL_SUCCESS).

End client.
End EslClient.
