(* ===== verification/EslEventProof.v ===== *)
(** * Headers of the client's events

    What adding, deleting and looking up headers does to the list of them; the
    hash of a name never makes a difference. *)

From stdpp Require Import base list strings.
From Stdlib Require Import ZArith Lia.
From S2P Require Import Prelude CString Json Api EslText EslTextProof EslEvent.

Module EslEvProof.
Import EslText EslTextProof EslEv.

(** ** Searching *)

Lemma hash_fold s : esl_ci_hashfunc_default s = foldl (fun h c => wrap 32 (h * 33 + c)) 0 (tolower <$> s).
Proof.
  unfold esl_ci_hashfunc_default. generalize 0. induction s as [|c s IH]; intros h; [done|]. cbn. apply IH.
Qed.

Lemma hash_nocase a b : same_nocase a b = true -> esl_ci_hashfunc_default a = esl_ci_hashfunc_default b.
Proof. unfold same_nocase. rewrite bool_decide_eq_true, !hash_fold. by intros ->. Qed.

(** A header with one value, as it is added. *)
Definition hdr (x : cstr * cstr) : esl_event_header := Header x.1 (Some x.2) [] (esl_ci_hashfunc_default x.1).

(** A header whose hash is that of its name: the hash decides nothing. *)
Definition hashed (hp : esl_event_header) : Prop := h_hash hp = esl_ci_hashfunc_default (h_name hp).

Lemma is_header_hashed n hp : hashed hp -> is_header n hp = same_nocase (h_name hp) n.
Proof.
  intros Hh. unfold is_header, hashed in *. destruct (same_nocase (h_name hp) n) eqn:E; [|by rewrite andb_false_r].
  rewrite Hh, (hash_nocase _ _ E), Z.eqb_refl, orb_true_r. done.
Qed.

Lemma hdr_hashed x : hashed (hdr x).
Proof. done. Qed.

(** The value under a name, whatever its case. *)
Fixpoint lookup_nocase (n : cstr) (l : list (cstr * cstr)) : option cstr :=
  match l with
  | [] => None
  | (m, v) :: l' => if same_nocase m n then Some v else lookup_nocase n l'
  end.

Lemma lookup_nocase_app n l1 l2 : lookup_nocase n (l1 ++ l2) =
  match lookup_nocase n l1 with Some v => Some v | None => lookup_nocase n l2 end.
Proof. induction l1 as [|[m v] l1 IH]; [done|]. cbn. by destruct (same_nocase m n). Qed.

Lemma get_header_pairs e l n : headers e = hdr <$> l ->
  esl_event_get_header e n = match lookup_nocase n l with
    | Some v => Some v
    | None => if bool_decide (n = bytes_of "_body") then body e else None
    end.
Proof.
  intros Hl. unfold esl_event_get_header, esl_event_get_header_idx. change (-1 <? -1) with false. cbv iota. rewrite Hl. clear Hl.
  induction l as [|[m v] l IH]; [done|]. cbn [fmap list_fmap get_header_ptr lookup_nocase].
  rewrite is_header_hashed by done. cbn [hdr h_name fst]. destruct (same_nocase m n); [done|].
  destruct (get_header_ptr n (hdr <$> l)) as [i|]; cbn [fmap option_fmap option_map]; [exact IH|exact IH].
Qed.

(** ** Adding *)

Definition plain_name (n : cstr) : Prop := Forall (fun c => c <> 91) n /\ n <> bytes_of "_body".
Definition plain_value (v : cstr) : Prop := v <> [] /\ strstr v ARRAY = None.

Lemma strchr_absent c s : Forall (fun d => d <> c) s -> Api.strchr c s = (s, None).
Proof. induction 1 as [|d s Hd Hs IH]; [done|]. cbn. by rewrite (proj2 (Z.eqb_neq _ _) Hd), IH. Qed.

Lemma is_prefix_strstr p s : is_prefix p s = true -> strstr s p <> None.
Proof. intros Hp. destruct s; cbn; by rewrite Hp. Qed.

Lemma plain_value_prefix v : plain_value v -> is_prefix ARRAY v = false.
Proof. intros [_ Hv]. destruct (is_prefix ARRAY v) eqn:E; [|done]. by apply is_prefix_strstr in E. Qed.

Lemma add_bottom e n v : plain_name n -> plain_value v -> flag (flags e) ESL_EF_UNIQ_HEADERS = false ->
  esl_event_add_header_string e ESL_STACK_BOTTOM n v = Ok (with_headers (headers e ++ [hdr (n, v)]) e).
Proof.
  intros [Hn Hb] [Hv Ha] Hf. unfold esl_event_add_header_string. cbn [esl_event_base_add_header].
  rewrite bool_decide_eq_false_2 by done. unfold array_index. rewrite strchr_absent by done.
  change (flag ESL_STACK_BOTTOM ESL_STACK_PUSH || flag ESL_STACK_BOTTOM ESL_STACK_UNSHIFT) with false. cbv iota.
  destruct (length v =? 0)%nat eqn:E; [apply Nat.eqb_eq, nil_length_inv in E; done|]. rewrite Hf. cbn [rbind]. by rewrite Ha.
Qed.

(** An empty value deletes the header. *)
Lemma add_empty e n : plain_name n -> esl_event_add_header_string e ESL_STACK_BOTTOM n [] = esl_event_del_header e n.
Proof.
  intros [Hn Hb]. unfold esl_event_add_header_string. cbn [esl_event_base_add_header].
  rewrite bool_decide_eq_false_2 by done. unfold array_index. by rewrite strchr_absent by done.
Qed.

Lemma del_absent e n : Z.of_nat (length (headers e)) < 1000000 -> Forall hashed (headers e) ->
  Forall (fun hp => same_nocase (h_name hp) n = false) (headers e) -> esl_event_del_header e n = Ok e.
Proof.
  intros Hl Hh Hn. unfold esl_event_del_header, esl_event_del_header_val. rewrite (proj2 (Z.leb_gt _ _)) by done.
  rewrite list_filter_all; [by destruct e|]. rewrite Forall_forall in *. intros hp Hp. unfold is_deleted.
  by rewrite is_header_hashed, (Hn _ Hp) by (by apply Hh).
Qed.

(** ** Arrays *)

(** The value of an array is written without being cut. *)
Definition joined (l : list cstr) : cstr :=
  match l with [] => [] | a :: l' => a ++ concat ((fun x => BAR ++ x) <$> l') end.

(** A buffer with a text, zero bytes behind it. *)
Lemma snprintf_text t k n u : Forall (fun c => c <> 0) t -> Forall (fun c => c <> 0) u -> (length t + length u + 2 <= n)%nat -> (k = n - length t)%nat ->
  esl_snprintf (t ++ replicate k 0) (length t) k u = Ok ((t ++ u) ++ replicate (k - length u) 0).
Proof.
  intros Ht Hu Hn Hk. destruct k as [|[|k]]; [lia|lia|]. cbn [esl_snprintf]. rewrite take_ge by lia.
  rewrite blit_tail by (rewrite length_app, length_replicate; cbn; lia). f_equal. rewrite <- !app_assoc. f_equal. f_equal.
  rewrite length_app. cbn [length]. rewrite drop_replicate.
  replace (S (S k) - length u)%nat with (S (S (S k) - (length u + 1))) by lia. done.
Qed.

Lemma text_of_buffer t k : Forall (fun c => c <> 0) t -> cstring (t ++ replicate k 0) = t.
Proof. intros Ht. destruct k; [rewrite app_nil_r; by apply cstring_id|]. by apply cstring_text. Qed.

Definition texts (l : list cstr) : Prop := Forall (Forall (fun c => c <> 0)) l.
Definition room (l : list cstr) : nat := list_sum ((fun a => (length a + 2)%nat) <$> l).

Lemma redraw_loop_spec l : forall t len (first : bool), texts l -> Forall (fun c => c <> 0) t ->
  (length t + room l + (if first then 0 else 2) <= len)%nat ->
  redraw_loop (t ++ replicate (len - length t) 0) len first l =
    Ok ((t ++ (if first then joined l else concat ((fun x => BAR ++ x) <$> l))) ++
        replicate (len - length (t ++ (if first then joined l else concat ((fun x => BAR ++ x) <$> l)))) 0).
Proof.
  induction l as [|a l IH]; intros t len first Hl Ht Hr.
  { cbn [redraw_loop]. destruct first; cbn; by rewrite app_nil_r. }
  apply Forall_cons in Hl as [Ha Hl]. cbn [redraw_loop]. rewrite text_of_buffer by done.
  change (room (a :: l)) with (length a + 2 + room l)%nat in Hr.
  assert (Forall (fun c => c <> 0) ((if first then [] else BAR) ++ a)) as Hu by (destruct first; [done|]; repeat (constructor; [done|]); done).
  assert (length ((if first then [] else BAR) ++ a) <= length a + (if first then 0 else 2))%nat as Hlu by (rewrite length_app; destruct first; cbn; lia).
  rewrite (snprintf_text t _ len) by (done || destruct first; lia). cbn [rbind].
  replace (len - length t - length ((if first then [] else BAR) ++ a))%nat with (len - length (t ++ (if first then [] else BAR) ++ a))%nat
    by (rewrite (length_app t); lia).
  rewrite (IH (t ++ (if first then [] else BAR) ++ a) len false); try done.
  - destruct first; cbn [joined app fmap list_fmap concat]; rewrite <- ?app_assoc; done.
  - apply Forall_app. done.
  - rewrite (length_app t). destruct first; lia.
Qed.

Lemma redraw_spec n v l hs : texts l -> l <> [] ->
  redraw (Header n v l hs) = Ok (Header n (Some ((if (1 <? length l)%nat then ARRAY else []) ++ joined l)) l hs).
Proof.
  intros Hl Hne. unfold redraw. cbn [h_array h_name h_hash]. fold (room l).
  destruct (room l =? 0)%nat eqn:E; [apply Nat.eqb_eq in E; destruct l; [done|]; unfold room in E; cbn in E; lia|].
  set (pre := if (1 <? length l)%nat then ARRAY else []).
  assert (Forall (fun c => c <> 0) pre) as Hp by (unfold pre; destruct (1 <? length l)%nat; [repeat (constructor; [done|])|]; constructor).
  assert (length pre <= 7)%nat as Hlp by (unfold pre; destruct (1 <? length l)%nat; cbn; lia).
  assert ((if (1 <? length l)%nat then esl_snprintf (replicate (room l + 8) 0) 0 (room l + 8) ARRAY else Ok (replicate (room l + 8) 0)) =
    Ok (pre ++ replicate (room l + 8 - length pre) 0)) as ->.
  { unfold pre. destruct (1 <? length l)%nat; [|by rewrite Nat.sub_0_r].
    assert (2 <= room l)%nat by (destruct l; [done|]; unfold room; cbn; lia).
    apply (snprintf_text [] (room l + 8) (room l + 8) ARRAY); [constructor|done|cbn; lia|cbn; lia]. }
  cbn [rbind]. rewrite (redraw_loop_spec l pre (room l + 8) true Hl Hp) by (done || lia). cbn [rbind].
  rewrite text_of_buffer; [done|]. apply Forall_app. split; [done|]. destruct l as [|a l]; [done|]. apply Forall_cons in Hl as [Ha Hl].
  cbn [joined]. apply Forall_app. split; [done|]. clear -Hl. induction Hl as [|x l Hx Hl IH]; [constructor|].
  cbn. repeat (constructor; [done|]). apply Forall_app. done.
Qed.

(** ** Splitting and joining *)

Lemma is_prefix_app p s : is_prefix p (p ++ s) = true.
Proof. induction p as [|c p IH]; [done|]. cbn. by rewrite Z.eqb_refl. Qed.

Lemma is_prefix_inv p s : is_prefix p s = true -> s = p ++ drop (length p) s.
Proof.
  revert s. induction p as [|c p IH]; intros [|d s] H; try done. cbn in H. apply andb_prop in H as [E%Z.eqb_eq H].
  subst d. cbn. f_equal. by apply IH.
Qed.

Lemma strstr_inv s pat a b : strstr s pat = Some (a, b) -> s = a ++ pat ++ b.
Proof.
  revert a. induction s as [|c s IH]; intros a; cbn; destruct (is_prefix pat _) eqn:E; intros H; simplify_eq.
  - apply is_prefix_inv in E. by rewrite E at 1.
  - apply is_prefix_inv in E. by rewrite E at 1.
  - destruct (strstr s pat) as [[a' b']|] eqn:E'; simplify_eq/=. f_equal. by apply IH.
Qed.

Lemma strstr_nil_bar : strstr [] BAR = None.
Proof. done. Qed.

(** The separator behind a text without one is the first. *)
Lemma strstr_bar a r : strstr a BAR = None -> strstr (a ++ BAR ++ r) BAR = Some (a, r).
Proof.
  induction a as [|c a IH]; intros Ha; [done|]. change ((c :: a) ++ BAR ++ r) with (c :: (a ++ BAR ++ r)). cbn [strstr].
  cbn [strstr] in Ha. destruct (is_prefix BAR (c :: a)) eqn:E; [done|].
  destruct (strstr a BAR) as [[]|] eqn:Es; [done|].
  assert (is_prefix BAR (c :: a ++ BAR ++ r) = false) as ->; [|by rewrite IH].
  destruct a as [|d a].
  - cbn. by rewrite andb_false_r.
  - cbn in *. by destruct (124 =? c), (58 =? d).
Qed.

Lemma count_joined a l : strstr a BAR = None -> Forall (fun x => strstr x BAR = None) l -> forall fuel, (length l < fuel)%nat ->
  count_occurrences fuel (joined (a :: l)) BAR = length l.
Proof.
  revert a. induction l as [|b l IH]; intros a Ha Hl fuel Hf; (destruct fuel as [|fuel]; [cbn in Hf; lia|]); cbn [count_occurrences].
  - cbn [joined]. change (concat _) with (@nil Z). by rewrite app_nil_r, Ha.
  - apply Forall_cons in Hl as [Hb Hl].
    assert (joined (a :: b :: l) = a ++ BAR ++ joined (b :: l)) as -> by (cbn; by rewrite <- ?app_assoc).
    rewrite strstr_bar by done. cbn [length]. f_equal. apply IH; try done. cbn in Hf. lia.
Qed.

Lemma separate_joined a l : strstr a BAR = None -> Forall (fun x => strstr x BAR = None) l ->
  separate_loop (length l) (joined (a :: l)) BAR = a :: l.
Proof.
  revert a. induction l as [|b l IH]; intros a Ha Hl; cbn [length separate_loop].
  - cbn [joined]. change (concat _) with (@nil Z). by rewrite app_nil_r.
  - apply Forall_cons in Hl as [Hb Hl].
    assert (joined (a :: b :: l) = a ++ BAR ++ joined (b :: l)) as -> by (cbn; by rewrite <- ?app_assoc).
    rewrite strstr_bar by done. f_equal. by apply IH.
Qed.

Lemma joined_length a l : (length l <= length (joined (a :: l)))%nat.
Proof.
  revert a. induction l as [|b l IH]; intros a; [cbn; lia|].
  assert (joined (a :: b :: l) = a ++ BAR ++ joined (b :: l)) as -> by (cbn; by rewrite <- ?app_assoc).
  rewrite !length_app. specialize (IH b). cbn [length] in *. change (length BAR) with 2%nat. lia.
Qed.

Lemma pieces_joined a l : strstr a BAR = None -> Forall (fun x => strstr x BAR = None) l ->
  array_pieces (ARRAY ++ joined (a :: l)) = a :: l.
Proof.
  intros Ha Hl. unfold array_pieces, esl_separate_string_string. change (drop 7 (ARRAY ++ joined (a :: l))) with (joined (a :: l)).
  rewrite Nat.sub_succ, Nat.sub_0_r. destruct (Nat.eq_dec (length (joined (a :: l))) (length l)) as [E|E].
  - (* only separators that are not there: the text is empty *)
    assert (l = [] /\ a = []) as [-> ->].
    { destruct l as [|b l]; [split; [done|]; cbn in E; by rewrite app_nil_r in E; apply nil_length_inv|].
      exfalso. assert (joined (a :: b :: l) = a ++ BAR ++ joined (b :: l)) as Ej by (cbn; by rewrite <- ?app_assoc).
      rewrite Ej, !length_app in E. pose proof (joined_length b l). change (length BAR) with 2%nat in E. cbn [length] in E. lia. }
    done.
  - pose proof (joined_length a l). rewrite count_joined by (done || lia). by apply separate_joined.
Qed.

(** ** Adding to an array *)

Lemma get_ptr_app n l1 l2 : get_header_ptr n (l1 ++ l2) =
  match get_header_ptr n l1 with Some i => Some i | None => (fun i => (length l1 + i)%nat) <$> get_header_ptr n l2 end.
Proof.
  induction l1 as [|hp l1 IH]; cbn; [by destruct (get_header_ptr n l2)|]. destruct (is_header n hp); [done|].
  rewrite IH. destruct (get_header_ptr n l1); [done|]. by destruct (get_header_ptr n l2).
Qed.

(** A header with an array, at the end of the list of [e]. *)
Definition array_header (n : cstr) (l : list cstr) : esl_event_header :=
  Header n (Some ((if (1 <? length l)%nat then ARRAY else []) ++ joined l)) l (esl_ci_hashfunc_default n).
Definition with_array (e : esl_event) (n : cstr) (l : list cstr) : esl_event := with_headers (headers e ++ [array_header n l]) e.

Lemma array_header_found n l : is_header n (array_header n l) = true.
Proof. rewrite is_header_hashed by done. apply same_nocase_refl. Qed.

(** The first value makes the header, *)
Lemma push_first e n a : plain_name n -> plain_value a -> Forall (fun c => c <> 0) a -> flag (flags e) ESL_EF_UNIQ_HEADERS = false ->
  get_header_ptr n (headers e) = None -> esl_event_add_header_string e ESL_STACK_PUSH n a = Ok (with_array e n [a]).
Proof.
  intros [Hn Hb] [Hv Ha] Hz Hf Hp. unfold esl_event_add_header_string. cbn [esl_event_base_add_header].
  rewrite bool_decide_eq_false_2 by done. unfold array_index. rewrite strchr_absent by done.
  change (flag ESL_STACK_PUSH ESL_STACK_PUSH || flag ESL_STACK_PUSH ESL_STACK_UNSHIFT) with true. cbv iota. rewrite Hp.
  destruct (length a =? 0)%nat eqn:E; [apply Nat.eqb_eq, nil_length_inv in E; done|]. rewrite Hf. cbn [rbind]. rewrite Ha.
  unfold push_value. cbn [new_header h_value h_array h_name h_hash]. change (flag ESL_STACK_PUSH ESL_STACK_PUSH) with true. cbv iota.
  rewrite redraw_spec by (done || by repeat constructor). done.
Qed.

(** the others are added at its end. *)
Lemma push_at e n l a stack : stack = ESL_STACK_PUSH \/ stack = ESL_STACK_UNSHIFT -> plain_name n -> l <> [] -> texts (l ++ [a]) ->
  get_header_ptr n (headers e) = None -> esl_event_add_header_string (with_array e n l) stack n a = Ok (with_array e n (l ++ [a])).
Proof.
  intros Hs [Hn Hb] Hl Hz Hp. unfold esl_event_add_header_string. cbn [esl_event_base_add_header].
  rewrite bool_decide_eq_false_2 by done. unfold array_index. rewrite strchr_absent by done.
  assert (flag stack ESL_STACK_PUSH || flag stack ESL_STACK_UNSHIFT = true) as -> by (by destruct Hs as [-> | ->]).
  cbn [with_array with_headers headers]. rewrite get_ptr_app, Hp. cbn [get_header_ptr]. rewrite array_header_found.
  cbn [fmap option_fmap option_map]. rewrite Nat.add_0_r, lookup_app_r, Nat.sub_diag by lia. cbn [lookup list_lookup].
  unfold add_to_existing. assert (Z.ldiff stack (Z.lor ESL_STACK_TOP ESL_STACK_BOTTOM) = ESL_STACK_PUSH) as -> by (by destruct Hs as [-> | ->]).
  change (flag ESL_STACK_PUSH ESL_STACK_PUSH || flag ESL_STACK_PUSH ESL_STACK_UNSHIFT) with true. cbv iota.
  unfold push_value, array_header. cbn [h_value h_array h_name h_hash]. change (flag ESL_STACK_PUSH ESL_STACK_PUSH) with true. cbv iota.
  destruct l as [|b l]; [done|]. rewrite redraw_spec by (done || by destruct l). cbn [rbind].
  cbn [with_array with_headers headers]. rewrite insert_app_r_alt, Nat.sub_diag by lia. done.
Qed.

Lemma push_all e n : plain_name n -> get_header_ptr n (headers e) = None -> forall l' l, l <> [] -> texts (l ++ l') ->
  add_pieces (fun e a => esl_event_add_header_string e ESL_STACK_PUSH n a) (with_array e n l) l' = Ok (with_array e n (l ++ l')).
Proof.
  intros Hn Hp. induction l' as [|a l' IH]; intros l Hl Hz; cbn [add_pieces]; [by rewrite app_nil_r|].
  rewrite push_at; try done; [|by left|apply Forall_app in Hz as [? Hz]; apply Forall_cons in Hz as [? _]; apply Forall_app; split; [done|by repeat constructor]].
  cbn [rbind]. rewrite IH; [by rewrite <- app_assoc|by destruct l|by rewrite <- app_assoc].
Qed.

(** ** The fuel *)

Lemma separate_short n s d : d <> [] -> Forall (fun x => (length x <= length s)%nat) (separate_loop n s d).
Proof.
  intros Hd. revert s. induction n as [|n IH]; intros s; cbn [separate_loop]; [by repeat constructor|].
  destruct (strstr s d) as [[a b]|] eqn:E; [|by repeat constructor]. apply strstr_inv in E. subst s. constructor.
  - rewrite !length_app. lia.
  - eapply Forall_impl; [apply IH|]. cbn. intros x Hx. rewrite !length_app. lia.
Qed.

Lemma add_pieces_fuel (P : cstr -> Prop) add : (forall e a, P a -> add e a <> OutOfFuel) -> forall l e, Forall P l -> add_pieces add e l <> OutOfFuel.
Proof.
  intros Hadd. induction l as [|a l IH]; intros e Hl; [done|]. apply Forall_cons in Hl as [Ha Hl]. cbn [add_pieces].
  specialize (Hadd e a Ha). destruct (add e a) as [e'| |]; cbn; [by apply IH|done|done].
Qed.

Lemma snprintf_fuel b o c t : esl_snprintf b o c t <> OutOfFuel.
Proof. destruct c as [|[|c]]; cbn; unfold blit; repeat case_match; done. Qed.

Lemma redraw_loop_fuel l : forall b n f, redraw_loop b n f l <> OutOfFuel.
Proof.
  induction l as [|a l IH]; intros b n f; cbn [redraw_loop]; [done|].
  pose proof (snprintf_fuel b (length (cstring b)) (n - length (cstring b)) ((if f then [] else BAR) ++ a)) as Hs.
  destruct (esl_snprintf b _ _ _); cbn; [apply IH|done|done].
Qed.

Lemma redraw_fuel hp : redraw hp <> OutOfFuel.
Proof.
  unfold redraw. case_match; [done|]. destruct (1 <? length (h_array hp))%nat.
  - match goal with |- context [esl_snprintf ?b ?o ?c ?t] => pose proof (snprintf_fuel b o c t) as Hs; destruct (esl_snprintf b o c t) as [b'| |] end; cbn [rbind]; try done.
    match goal with |- context [redraw_loop ?b ?n ?f ?l] => pose proof (redraw_loop_fuel l b n f) as Hr; destruct (redraw_loop b n f l) end; done.
  - cbn [rbind]. match goal with |- context [redraw_loop ?b ?n ?f ?l] => pose proof (redraw_loop_fuel l b n f) as Hr; destruct (redraw_loop b n f l) end; done.
Qed.

Lemma push_fuel s hp d : push_value s hp d <> OutOfFuel.
Proof. apply redraw_fuel. Qed.
Lemma del_fuel e n : esl_event_del_header e n <> OutOfFuel.
Proof. unfold esl_event_del_header, esl_event_del_header_val. by case_match. Qed.

Lemma rbind_fuel {A B} (m : result A) (k : A -> result B) : m <> OutOfFuel -> (forall a, k a <> OutOfFuel) -> rbind m k <> OutOfFuel.
Proof. intros Hm Hk. destruct m; cbn; [apply Hk|done|done]. Qed.

Lemma set_index_fuel e s n i d : set_index e s n i d <> OutOfFuel.
Proof.
  unfold set_index. apply rbind_fuel.
  - case_match; [done|]. case_match; [apply del_fuel|done].
  - intros e'. case_match; [|done]. case_match; [done|]. apply rbind_fuel; [apply redraw_fuel|done].
Qed.

Lemma base_add_fuel fuel : forall e s n d, (length d < fuel)%nat -> esl_event_base_add_header fuel e s n d <> OutOfFuel.
Proof.
  induction fuel as [|fuel IH]; intros e s n d Hd; [lia|]. cbn [esl_event_base_add_header].
  destruct (array_index n) as [nm [i|]]; [apply set_index_fuel|].
  set (e1 := if bool_decide (n = bytes_of "_body") then esl_event_set_body e (Some d) else e). clearbody e1.
  destruct (if flag s ESL_STACK_PUSH || flag s ESL_STACK_UNSHIFT then get_header_ptr nm (headers e1) else None) as [i|].
  - destruct (headers e1 !! i) as [hp|]; [|done]. unfold add_to_existing. apply rbind_fuel; [|done].
    destruct (_ || _); [apply push_fuel|done].
  - destruct (length d =? 0)%nat; [apply del_fuel|]. apply rbind_fuel; [destruct (flag _ _); [apply del_fuel|done]|]. intros e'.
    destruct (strstr d ARRAY) as [|] eqn:Es.
    + destruct (length d <? 8)%nat eqn:E8; [done|]. apply Nat.ltb_ge in E8.
      apply (add_pieces_fuel (fun a => (length a < fuel)%nat)); [intros; by apply IH|].
      eapply Forall_impl; [apply separate_short; done|]. cbn. rewrite length_drop. lia.
    + apply rbind_fuel; [destruct (_ || _); [apply push_fuel|done]|done].
Qed.

End EslEvProof.

Import EslText EslEv EslEvProof.

(** Adding a header ends for every name and value, however the value nests
    arrays in arrays. *)
Theorem esl_event_add_header_ends e stack n d : esl_event_add_header_string e stack n d <> OutOfFuel.
Proof. apply base_add_fuel. lia. Qed.

(** A header with an array of texts is written as one text, and a receiver that
    adds this text gets the array back. *)
Theorem esl_event_array_roundtrip e e' n a l : plain_name n -> plain_value a -> texts (a :: l) ->
  Forall (fun x => strstr x BAR = None) (a :: l) -> l <> [] ->
  get_header_ptr n (headers e) = None -> get_header_ptr n (headers e') = None ->
  flag (flags e) ESL_EF_UNIQ_HEADERS = false -> flag (flags e') ESL_EF_UNIQ_HEADERS = false ->
  exists v, add_pieces (fun e a => esl_event_add_header_string e ESL_STACK_PUSH n a) e (a :: l) =
      Ok (with_headers (headers e ++ [Header n (Some v) (a :: l) (esl_ci_hashfunc_default n)]) e) /\
    esl_event_add_array e' n v = Ok (with_headers (headers e' ++ [Header n (Some v) (a :: l) (esl_ci_hashfunc_default n)]) e').
Proof.
  intros Hn Ha Hz Hbar Hl Hp Hp' Hf Hf'. exists (ARRAY ++ joined (a :: l)).
  assert (forall e, get_header_ptr n (headers e) = None -> flag (flags e) ESL_EF_UNIQ_HEADERS = false ->
    add_pieces (fun e a => esl_event_add_header_string e ESL_STACK_PUSH n a) e (a :: l) = Ok (with_array e n (a :: l))) as Hpush.
  { intros e0 H0 H1. cbn [add_pieces]. apply Forall_cons in Hz as [Hza Hz]. rewrite push_first by done. cbn [rbind].
    rewrite push_all by (done || by constructor). done. }
  assert (forall e, with_array e n (a :: l) = with_headers (headers e ++ [Header n (Some (ARRAY ++ joined (a :: l))) (a :: l) (esl_ci_hashfunc_default n)]) e) as Hwa.
  { intros e0. unfold with_array, array_header. destruct l; [done|]. reflexivity. }
  split; [by rewrite Hpush, Hwa|].
  unfold esl_event_add_array. destruct (length (ARRAY ++ joined (a :: l)) <? 8)%nat eqn:E.
  { apply Nat.ltb_lt in E. rewrite length_app in E. change (length ARRAY) with 7%nat in E. cbn [joined] in E. rewrite length_app in E.
    destruct Ha as [Ha _]. destruct a; [done|]. cbn in E. lia. }
  apply Forall_cons in Hbar as [Hb Hbar]. rewrite pieces_joined by done. by rewrite Hpush, Hwa.
Qed.

Lemma esl_event_array_roundtrip_witness :
  exists v, add_pieces (fun e a => esl_event_add_header_string e ESL_STACK_PUSH [110] a) zero_event [[97]; [98; 99]] =
      Ok (with_headers [Header [110] (Some v) [[97]; [98; 99]] 110] zero_event) /\
    esl_event_add_array zero_event [110] v = Ok (with_headers [Header [110] (Some v) [[97]; [98; 99]] 110] zero_event).
Proof.
  apply (esl_event_array_roundtrip zero_event zero_event [110] [97] [[98; 99]]); try reflexivity; try discriminate.
  - split; [by repeat constructor|discriminate].
  - by split.
  - by repeat constructor.
  - by repeat constructor.
Defined.

(** Adding a value in front of the others puts it behind them: the numbers of
    the places are tested as if they were flags. *)
Theorem esl_event_unshift_appends e n l a : plain_name n -> l <> [] -> texts (l ++ [a]) -> get_header_ptr n (headers e) = None ->
  esl_event_add_header_string (with_array e n l) ESL_STACK_UNSHIFT n a = Ok (with_array e n (l ++ [a])).
Proof. intros Hn Hl Hz Hp. apply push_at; try done. by right. Qed.

Lemma esl_event_unshift_appends_witness :
  esl_event_add_header_string (with_array zero_event [110] [[97]]) ESL_STACK_UNSHIFT [110] [98] = Ok (with_array zero_event [110] [[97]; [98]]).
Proof. apply (esl_event_unshift_appends zero_event [110] [[97]] [98]); [split; [by repeat constructor|]|..|by repeat constructor|]; done. Defined.
