(* ===== verification/EslClientProof.v ===== *)
(** * What the client receives

    A frame (header lines, an empty line, a body of the announced length) is
    received as one event, whatever the pieces in which its bytes arrive, and
    the bytes behind it are left for the next one. *)

From stdpp Require Import base list strings.
From Stdlib Require Import ZArith Lia.
From S2P Require Import Prelude CString Json JsonMain Api ApiProof EventSocket EslBuffer EslBufferProof EslText EslTextProof EslEvent EslEventProof EslWire EslClient.

Module EslClientProof.
Import EslBuf EslBufProof EslText EslEv EslEvProof EslWire EslClient.

(** ** Frames *)

(** A header line: its name, and the value as it is sent. *)
Definition line_text (x : cstr * cstr) : cstr := x.1 ++ [58; 32] ++ x.2 ++ [10].
Definition lines_text (hs : list (cstr * cstr)) : cstr := concat (line_text <$> hs).
Definition head_text (hs : list (cstr * cstr)) : cstr := lines_text hs ++ [10].

Record line_ok (x : cstr * cstr) : Prop := LineOk {
  lo_name : plain_name x.1;
  lo_some : x.1 <> [];
  lo_chars : Forall (fun c => c <> 0 /\ c <> 10 /\ c <> 13 /\ c <> 58) x.1;
  lo_raw : Forall (fun c => c <> 0 /\ c <> 10) x.2;
  lo_start : skip_tab x.2 = x.2;
  lo_value : plain_value (esl_url_decode x.2) }.

Definition decoded (hs : list (cstr * cstr)) : list (cstr * cstr) := (fun x => (x.1, esl_url_decode x.2)) <$> hs.

Lemma line_raw x : line_ok x -> x.2 <> [].
Proof. intros Hx. destruct x as [n [|c r]]; [|done]. exfalso. destruct (lo_value _ Hx) as [Hv _]. by apply Hv. Qed.

Lemma skip_tab_app s t : s <> [] -> skip_tab s = s -> skip_tab (s ++ t) = s ++ t.
Proof.
  destruct s as [|c s]; [done|]. intros _. cbn. destruct ((c =? 32) || (c =? 9)); [|done]. intros E.
  exfalso. assert (length (skip_tab s) <= length s)%nat as Hl.
  { clear E. induction s as [|d s IH]; cbn; [lia|]. case_match; cbn; lia. }
  apply (f_equal length) in E. cbn in E. lia.
Qed.

(** The lines of a packet are read one after the other. *)
Lemma parse_packet_spec hs : forall fuel e, Forall line_ok hs -> (length hs < fuel)%nat -> flag (flags e) ESL_EF_UNIQ_HEADERS = false ->
  parse_packet fuel e (head_text hs) = Ok (with_headers (headers e ++ (hdr <$> decoded hs)) e).
Proof.
  induction hs as [|x hs IH]; intros fuel e Hhs Hf Hfl; (destruct fuel as [|fuel]; [cbn in Hf; lia|]); cbn [parse_packet].
  { cbn. rewrite app_nil_r. by destruct e. }
  apply Forall_cons in Hhs as [Hx Hhs]. pose proof (line_raw _ Hx) as Hr.
  assert (head_text (x :: hs) = x.1 ++ 58 :: 32 :: x.2 ++ 10 :: head_text hs) as ->.
  { unfold head_text, lines_text. cbn [fmap list_fmap concat]. unfold line_text at 1. by rewrite <- !app_assoc. }
  rewrite ApiProof.strchr_found by (eapply Forall_impl; [exact (lo_chars _ Hx)|]; cbn; tauto).
  cbn [skip_tab]. change ((32 =? 32) || (32 =? 9)) with true. cbv iota. rewrite skip_tab_app by (done || apply Hx).
  rewrite ApiProof.strchr_found by (eapply Forall_impl; [exact (lo_raw _ Hx)|]; cbn; tauto).
  unfold add_received. rewrite plain_value_prefix by apply Hx. rewrite add_bottom by (done || apply Hx). cbn [rbind].
  assert (Esl.skip_crlf (head_text hs) = head_text hs \/ hs = []) as [E|E].
  { destruct hs as [|y hs]; [by right|left]. apply Forall_cons in Hhs as [Hy _]. unfold head_text, lines_text. cbn [fmap list_fmap concat].
    unfold line_text at 1 3. pose proof (lo_some _ Hy). pose proof (lo_chars _ Hy) as Hc. destruct (y.1) as [|c n]; [done|]. apply Forall_cons in Hc as [Hc _].
    cbn. unfold Esl.CR, Esl.LF. rewrite !(proj2 (Z.eqb_neq _ _)) by lia. done. }
  - rewrite E, IH by (done || cbn in Hf; lia). cbn [with_headers headers decoded fmap list_fmap]. by rewrite <- app_assoc.
  - subst hs. cbn. destruct fuel; [cbn in Hf; lia|]. cbn. done.
Qed.

(** ** The end of the lines *)

Lemma blank_next_app s t : is_Some (blank_next s) -> blank_next (s ++ t) = blank_next s.
Proof. destruct s as [|x [|y s]]; cbn; intros [n Hn]; repeat case_match; done. Qed.

Lemma packet_len_app s t n : packet_len s = Some n -> packet_len (s ++ t) = Some n.
Proof.
  revert n. induction s as [|x s IH]; intros n; [done|]. cbn [packet_len app].
  destruct (if x =? 10 then blank_next s else None) as [k|] eqn:E.
  - intros [= ->]. destruct (x =? 10); [|done]. rewrite blank_next_app by by eexists. by rewrite E.
  - destruct (packet_len s) as [k|] eqn:Es; [|done]. cbn. intros [= <-]. rewrite (IH k eq_refl).
    assert ((if x =? 10 then blank_next (s ++ t) else None) = None) as ->; [|done].
    destruct (x =? 10); [|done]. clear IH. destruct s as [|y [|z s]]; [done| |].
    + cbn [blank_next app packet_len] in *. destruct (y =? 13) eqn:E13; [|by destruct (y =? 10)].
      cbn in Es. destruct (y =? 10) eqn:E10; [|done]. apply Z.eqb_eq in E13, E10. lia.
    + cbn [blank_next app] in *. done.
Qed.

Lemma packet_len_le s n : packet_len s = Some n -> (n <= length s)%nat.
Proof.
  revert n. induction s as [|x s IH]; intros n; [done|]. cbn [packet_len length].
  destruct (if x =? 10 then blank_next s else None) as [k|] eqn:E.
  - intros [= ->]. destruct (x =? 10); [|done]. destruct s as [|y [|z s]]; cbn in E; repeat case_match; simplify_eq; cbn; lia.
  - destruct (packet_len s) as [k|]; [|done]. cbn. intros [= <-]. specialize (IH k eq_refl). lia.
Qed.

Lemma packet_len_line s t : Forall (fun c => c <> 10) s ->
  packet_len (s ++ 10 :: t) = match blank_next t with Some k => Some (length s + k)%nat | None => (fun n => (length s + S n)%nat) <$> packet_len t end.
Proof.
  induction 1 as [|c s Hc Hs IH]; cbn [app packet_len length].
  - change (10 =? 10) with true. cbv iota. destruct (blank_next t); [done|]. by destruct (packet_len t).
  - rewrite (proj2 (Z.eqb_neq _ _) Hc), IH. destruct (blank_next t); [done|]. by destruct (packet_len t).
Qed.

Lemma head_len hs rest : Forall line_ok hs -> hs <> [] -> packet_len (head_text hs ++ rest) = Some (length (head_text hs)).
Proof.
  intros Hhs. induction Hhs as [|x hs Hx Hhs IH]; [done|]. intros _.
  assert (head_text (x :: hs) = (x.1 ++ [58; 32] ++ x.2) ++ 10 :: head_text hs) as Hh.
  { unfold head_text, lines_text. cbn [fmap list_fmap concat]. unfold line_text at 1. by rewrite <- !app_assoc. }
  rewrite Hh, <- app_assoc. cbn [app]. rewrite packet_len_line.
  2:{ apply Forall_app. split; [eapply Forall_impl; [exact (lo_chars _ Hx)|]; cbn; tauto|]. repeat (constructor; [done|]).
      eapply Forall_impl; [exact (lo_raw _ Hx)|]; cbn; tauto. }
  destruct hs as [|y hs].
  - cbn. f_equal. rewrite !length_app. cbn. lia.
  - rewrite IH by done. apply Forall_cons in Hhs as [Hy _].
    assert (blank_next (head_text (y :: hs) ++ rest) = None) as ->.
    { unfold head_text, lines_text. cbn [fmap list_fmap concat]. unfold line_text at 1. pose proof (lo_some _ Hy) as Hn. pose proof (lo_chars _ Hy) as Hc.
      destruct (y.1) as [|c n]; [done|]. apply Forall_cons in Hc as [Hc _]. cbn. rewrite !(proj2 (Z.eqb_neq _ _)) by lia. done. }
    cbn [fmap option_fmap option_map]. f_equal. rewrite (length_app (x.1 ++ [58; 32] ++ x.2)). done.
Qed.

Lemma head_nonzero hs : Forall line_ok hs -> Forall (fun c => c <> 0) (head_text hs).
Proof.
  intros Hhs. unfold head_text, lines_text. apply Forall_app. split; [|by repeat constructor].
  induction Hhs as [|x hs Hx Hhs IH]; [constructor|]. cbn [fmap list_fmap concat]. apply Forall_app. split; [|done]. unfold line_text.
  apply Forall_app. split; [eapply Forall_impl; [exact (lo_chars _ Hx)|]; cbn; tauto|]. repeat (constructor; [done|]).
  apply Forall_app. split; [eapply Forall_impl; [exact (lo_raw _ Hx)|]; cbn; tauto|]. by repeat constructor.
Qed.

Definition SOCKET_DATA : cstr * cstr := (bytes_of "Event-Name", bytes_of "SOCKET_DATA").
Definition received_event (hs : list (cstr * cstr)) (bd : option cstr) : esl_event :=
  Event ESL_EVENT_SOCKET_DATA 0 None (hdr <$> SOCKET_DATA :: decoded hs) bd 0 0 0 0.

Lemma lines_length hs : (length hs <= length (head_text hs))%nat.
Proof.
  unfold head_text. rewrite length_app. induction hs as [|x hs IH]; [cbn; lia|].
  change (lines_text (x :: hs)) with (line_text x ++ lines_text hs). rewrite length_app. unfold line_text at 1.
  rewrite !length_app. cbn [length] in *. lia.
Qed.

Lemma packet_event_spec hs : Forall line_ok hs -> packet_event (head_text hs) = Ok (received_event hs None).
Proof.
  intros Hhs. unfold packet_event. change (esl_event_create_subclass ESL_EVENT_CLONE None) with (Ok (Some zero_event)). cbn [rbind].
  rewrite add_bottom; [|split; [repeat (constructor; [done|]); constructor|done]|by split|done]. cbn [rbind].
  rewrite cstring_id by by apply head_nonzero.
  rewrite parse_packet_spec; [|done|pose proof (lines_length hs); lia|done]. done.
Qed.

(** ** What arrives *)

Definition wake_data (w : wake) : list Z :=
  if 0 <? poll_s w then match recv_result w with RData bs => bs | _ => [] end else [].
Definition stream (ws : list wake) : list Z := concat (wake_data <$> ws).

Lemma stream_skip w ws : wake_data w = [] -> stream (w :: ws) = stream ws.
Proof. intros E. unfold stream. cbn. by rewrite E. Qed.

(** A moment at which nothing is there, or at which some bytes are. *)
Definition wake_ok (w : wake) : Prop :=
  poll_s w = 0 \/
  0 < poll_s w /\ flag (poll_revents w) POLLIN = true /\ flag (poll_revents w) POLLOUT = false /\ flag (poll_revents w) POLLERR = false /\
  match recv_result w with RData bs => (0 < length bs < SOCKET_BUF)%nat | RAgain => True | _ => False end.

Lemma handle_recv_ok h w : connected h = true -> sock h <> ESL_SOCK_INVALID -> wake_ok w ->
  handle_recv h w (SOCKET_BUF - 1) = Ok (match wake_data w with [] => Nothing | bs => Got bs end).
Proof.
  intros Hc Hs Hw. unfold handle_recv, esl_wait_sock, wake_data. rewrite Hc, (proj2 (Z.eqb_neq _ _) Hs). cbn [negb].
  destruct Hw as [E|(Hp & E1 & E2 & E3 & Hr)].
  - rewrite E. done.
  - rewrite (proj2 (Z.ltb_ge (poll_s w) 0)), (proj2 (Z.ltb_lt 0 (poll_s w))) by lia. rewrite E1, E2, E3. cbn [flag].
    change (0 <? ESL_POLL_READ) with true. change (flag ESL_POLL_READ ESL_POLL_ERROR) with false. change (flag ESL_POLL_READ ESL_POLL_READ) with true.
    cbv iota. destruct (recv_result w) as [bs| | |]; try done.
    rewrite (proj2 (Nat.ltb_ge _ _)) by lia. destruct bs; [cbn in Hr; lia|]. done.
Qed.

(** The client has [S] in front of it: in its buffer and on the way. *)
Record ahead (b : esl_buffer) (ws : list wake) (S : list Z) : Prop := Ahead {
  ah_content : exists c, holds b c /\ c ++ stream ws = S;
  ah_fresh : fresh b (length (stream ws));
  ah_wakes : Forall wake_ok ws }.

Section received.
Context `{Json.FloatOps} (junk : nat -> Z) (vasprintf : cstr -> option cstr).

(** The next bytes move from the network into the buffer. *)
Lemma take_wake b c w ws : holds b c -> fresh b (length (stream (w :: ws))) -> wake_data w <> [] -> exists b' n,
  esl_buffer_write junk true b (wake_data w) = Ok (b', n) /\ holds b' (c ++ wake_data w) /\ fresh b' (length (stream ws)).
Proof.
  intros Hb Hf Hw. change (stream (w :: ws)) with (wake_data w ++ stream ws) in Hf. rewrite length_app in Hf.
  destruct (fresh_write junk b c _ _ Hb Hf) as (b' & -> & Hb' & Hf'). by exists b', (length (c ++ wake_data w)).
Qed.

Lemma with_buf_twice b1 b2 h : with_buf b2 (with_buf b1 h) = with_buf b2 h.
Proof. done. Qed.

(** The packet is in the buffer, or no packet is. *)
Lemma read_ready b c n P rest : holds b c -> fresh b n -> Forall (fun x => x <> 0) c -> (exists t, c ++ t = P ++ rest) ->
  packet_len (P ++ rest) = Some (length P) -> (length P < SOCKET_BUF)%nat ->
  exists b', holds b' (if decide (packet_len c = None) then c else drop (length P) c) /\ fresh b' n /\
    esl_buffer_read_packet b (SOCKET_BUF - 1) = Ok (b', if decide (packet_len c = None) then [] else P) /\
    (packet_len c <> None -> exists r, c = P ++ r).
Proof.
  intros Hh Hf Hz (t & Ht) Hp Hl.
  destruct (read_packet_holds b c (SOCKET_BUF - 1) Hh (fresh_clean _ _ _ Hh Hf) Hz) as (b' & Hr & Hh' & Hd & Ha & Hdd & _). cbv zeta in Hr, Hh'.
  assert (fresh b' n) as Hf' by (by eapply fresh_same). exists b'. rewrite Hr. destruct (packet_len c) as [k|] eqn:Hk; cbn [default] in *.
  - pose proof (packet_len_app c t k Hk) as Hk'. rewrite Ht, Hp in Hk'. injection Hk' as <-. apply packet_len_le in Hk.
    unfold default, id in *. rewrite Nat.min_r in * by lia. rewrite decide_False in * by done.
    assert (c = P ++ drop (length P) c) as Hc.
    { rewrite <- (take_drop (length P) c) at 1. f_equal. apply (f_equal (take (length P))) in Ht.
      by rewrite take_app_le, take_app_length in Ht by lia. }
    split_and!; [done..| |intros _; by eexists]. do 2 f_equal. rewrite Hc at 1. by rewrite take_app_length.
  - unfold default in *. rewrite Nat.min_0_r in *. rewrite decide_True in * by done. split_and!; try done.
Qed.

Lemma recv_packet_spec P rest ws : forall h b, connected h = true -> sock h <> ESL_SOCK_INVALID -> packet_buf h = Some b -> P <> [] ->
  ahead b ws (P ++ rest) -> packet_len (P ++ rest) = Some (length P) -> (length P < SOCKET_BUF)%nat -> Forall (fun x => x <> 0) (P ++ rest) ->
  exists b' ws', recv_packet junk h ws = (let! e := packet_event P in Ok (with_buf (Some b') h, Some e, ws')) /\ ahead b' ws' rest.
Proof.
  induction ws as [|w ws IH]; intros h b Hc Hs Hb HP [(c & Hh & Hcs) Hf Hw] Hp Hl Hz; cbn [recv_packet]; unfold buffer_of at 1; rewrite Hb; cbn [rbind].
  all: assert (Forall (fun x => x <> 0) c) as Hzc by (rewrite <- Hcs in Hz; by apply Forall_app in Hz as [? _]).
  all: destruct (read_ready b c _ P rest Hh Hf Hzc ltac:(by eexists) Hp Hl) as (b1 & Hh1 & Hf1 & -> & Hin); cbn [rbind].
  all: destruct (decide (packet_len c = None)) as [Hn|Hn].
  - exfalso. cbn in Hcs. rewrite app_nil_r in Hcs. congruence.
  - destruct (Hin Hn) as (r & ->). rewrite drop_app_length in Hh1. cbn in Hcs. rewrite app_nil_r in Hcs. apply app_inv_head in Hcs as ->.
    destruct P as [|x P]; [done|]. cbn [length Nat.eqb negb]. exists b1, []. split; [done|]. split; [exists rest|done|done]. by rewrite app_nil_r.
  - cbn [length Nat.eqb negb]. apply Forall_cons in Hw as [Hw Hws]. rewrite handle_recv_ok by done. cbn [rbind].
    destruct (wake_data w) as [|x d] eqn:Hd.
    + rewrite (stream_skip w) in * by done. apply (IH (with_buf (Some b1) h) b1); try done. split; [by exists c|done|done].
    + destruct (take_wake b1 c w ws Hh1 Hf1 ltac:(by rewrite Hd)) as (b2 & m & Hwr & Hh2 & Hf2). rewrite Hd in Hwr. rewrite Hwr. cbn [rbind].
      apply (IH (with_buf (Some b2) h) b2); try done. split; [|done|done]. exists (c ++ wake_data w). split; [done|]. rewrite <- Hcs. unfold stream. cbn. by rewrite <- app_assoc.
  - destruct (Hin Hn) as (r & ->). rewrite drop_app_length in Hh1. rewrite <- app_assoc in Hcs. apply app_inv_head in Hcs.
    destruct P as [|x P]; [done|]. cbn [length Nat.eqb negb]. exists b1, (w :: ws). split; [done|]. split; [by exists r|done|done].
Qed.

Lemma recv_body_spec B rest ws : forall h b, connected h = true -> sock h <> ESL_SOCK_INVALID -> packet_buf h = Some b ->
  ahead b ws (B ++ rest) ->
  exists b' ws', recv_body junk h (length B) ws = Ok (with_buf (Some b') h, Some (cstring B), ws') /\ ahead b' ws' rest.
Proof.
  assert (forall b c t n, holds b c -> fresh b n -> (length B <= length c)%nat -> c ++ t = B ++ rest -> exists b',
    esl_buffer_read b (length B) = Ok (b', B) /\ holds b' (drop (length B) c) /\ fresh b' n /\ drop (length B) c ++ t = rest) as Hread.
  { intros b c t n Hh Hf Hl Ht. destruct (read_holds b c (length B) Hh) as (b' & -> & Hh' & Hd & Ha & Hdd & _).
    assert (c = B ++ drop (length B) c) as Hc.
    { rewrite <- (take_drop (length B) c) at 1. f_equal. apply (f_equal (take (length B))) in Ht.
      by rewrite take_app_le, take_app_length in Ht by lia. }
    exists b'. split_and!; try done; [|by eapply fresh_same|].
    - do 2 f_equal. rewrite Hc. by rewrite take_app_length.
    - rewrite Hc, <- app_assoc in Ht. by apply app_inv_head in Ht. }
  induction ws as [|w ws IH]; intros h b Hc Hs Hb [(c & Hh & Hcs) Hf Hw]; cbn [recv_body]; unfold buffer_of at 1; rewrite Hb; cbn [rbind]; unfold esl_buffer_inuse.
  all: rewrite (holds_used _ _ Hh); destruct (Nat.leb_spec (length B) (length c)) as [Hl|Hl].
  1,3: destruct (Hread b c _ _ Hh Hf Hl Hcs) as (b' & -> & Hh' & Hf' & Hr); cbn [rbind]; eexists _, _; split; [done|]; split; [by eexists|done|done].
  - exfalso. cbn in Hcs. rewrite app_nil_r in Hcs. subst c. rewrite length_app in Hl. lia.
  - apply Forall_cons in Hw as [Hw Hws]. rewrite handle_recv_ok by done. cbn [rbind].
    destruct (wake_data w) as [|x d] eqn:Hd.
    + rewrite (stream_skip w) in * by done. apply (IH h b); try done. split; [by exists c|done|done].
    + destruct (take_wake b c w ws Hh Hf ltac:(by rewrite Hd)) as (b2 & m & Hwr & Hh2 & Hf2). rewrite Hd in Hwr. rewrite Hwr. cbn [rbind].
      apply (IH (with_buf (Some b2) h) b2); try done. split; [|done|done]. exists (c ++ wake_data w). split; [done|]. rewrite <- Hcs. unfold stream. cbn. by rewrite <- app_assoc.
Qed.

(** ** Whole frames *)

(** A frame is what the server sends for one reply or one event. *)
Record frame := Frame { f_lines : list (cstr * cstr); f_body : option cstr }.

Definition frame_text (f : frame) : list Z := head_text (f_lines f) ++ default [] (f_body f).
Definition frame_event (f : frame) : esl_event := received_event (f_lines f) (f_body f).
Definition frame_header (f : frame) (n : cstr) : option cstr := esl_event_get_header (received_event (f_lines f) None) n.

(** The length of the body is announced when there is one. *)
Record frame_ok (f : frame) : Prop := FrameOk {
  fo_lines : Forall line_ok (f_lines f);
  fo_some : f_lines f <> [];
  fo_short : (length (head_text (f_lines f)) < SOCKET_BUF)%nat;
  fo_body : Forall (fun c => c <> 0) (default [] (f_body f));
  fo_length : atol <$> frame_header f (bytes_of "content-length") = (fun bd => Z.of_nat (length bd)) <$> f_body f }.

Lemma frame_nonzero f : frame_ok f -> Forall (fun c => c <> 0) (frame_text f).
Proof. intros Hf. apply Forall_app. split; [by apply head_nonzero, Hf|apply Hf]. Qed.

Lemma recv_whole_spec f rest h b ws : frame_ok f -> connected h = true -> sock h <> ESL_SOCK_INVALID -> packet_buf h = Some b ->
  ahead b ws (frame_text f ++ rest) -> Forall (fun x => x <> 0) rest ->
  exists b' ws', recv_whole junk h ws = Ok (with_buf (Some b') h, Some (frame_event f), ws') /\ ahead b' ws' rest.
Proof.
  intros Hf Hc Hs Hb Ha Hz. pose proof (frame_nonzero f Hf) as Hzf. unfold frame_text in *. rewrite <- app_assoc in Ha.
  destruct (recv_packet_spec (head_text (f_lines f)) (default [] (f_body f) ++ rest) ws h b) as (b1 & ws1 & Hr & Ha1); try done.
  { unfold head_text. by destruct (lines_text (f_lines f)). }
  { apply head_len; apply Hf. }
  { apply Hf. }
  { rewrite app_assoc. by apply Forall_app. }
  unfold recv_whole. rewrite Hr, packet_event_spec by apply Hf. cbn [rbind].
  pose proof (fo_length _ Hf) as Hl. unfold frame_header in Hl. destruct (f_body f) as [bd|] eqn:Hbd.
  - destruct (esl_event_get_header _ _) as [cl|]; [|done]. injection Hl as ->. rewrite (proj2 (Z.ltb_ge _ _)), Nat2Z.id by lia.
    destruct (recv_body_spec bd rest ws1 (with_buf (Some b1) h) b1) as (b2 & ws2 & -> & Ha2); try done. cbn [rbind].
    exists b2, ws2. split; [|done]. unfold frame_event. rewrite Hbd, cstring_id; [done|]. apply Forall_app in Hzf as [_ Hzf]. done.
  - destruct (esl_event_get_header _ _) as [cl|]; [done|]. exists b1, ws1. split; [|done]. unfold frame_event. by rewrite Hbd.
Qed.

(** The client is connected and its stream is what the frames [fs] say. *)
Record expects (h : esl_handle) (ws : list wake) (fs : list frame) : Prop := Expects {
  ex_conn : connected h = true;
  ex_sock : sock h <> ESL_SOCK_INVALID;
  ex_frames : Forall frame_ok fs;
  ex_ahead : exists b, packet_buf h = Some b /\ ahead b ws (concat (frame_text <$> fs)) }.

Lemma frames_nonzero fs : Forall frame_ok fs -> Forall (fun x => x <> 0) (concat (frame_text <$> fs)).
Proof. induction 1; [constructor|]. cbn. apply Forall_app. split; [by apply frame_nonzero|done]. Qed.

Lemma recv_expected h ws f fs : expects h ws (f :: fs) -> exists b' ws',
  recv_whole junk h ws = Ok (with_buf (Some b') h, Some (frame_event f), ws') /\ expects (with_buf (Some b') h) ws' fs.
Proof.
  intros [Hc Hs Hfs (b & Hb & Ha)]. apply Forall_cons in Hfs as [Hf Hfs].
  destruct (recv_whole_spec f (concat (frame_text <$> fs)) h b ws) as (b' & ws' & Hr & Ha'); try done; [by apply frames_nonzero|].
  exists b', ws'. split; [done|]. split; try done. by exists b'.
Qed.

(** Only the buffer, the socket and the connection matter to what is expected. *)
Lemma expects_same h h' ws fs : connected h' = connected h -> sock h' = sock h -> packet_buf h' = packet_buf h -> expects h ws fs -> expects h' ws fs.
Proof. intros E1 E2 E3 [? ? ? Hb]. split; rewrite ?E1, ?E2, ?E3; done. Qed.

Lemma expects_ready h ws fs : expects h ws fs -> negb (connected h) || (sock h =? ESL_SOCK_INVALID) = false.
Proof. intros [Hc Hs _ _]. rewrite Hc. by rewrite (proj2 (Z.eqb_neq _ _)). Qed.

(** An event is handed out: the first of those queued, or else the next frame. *)
Lemma recv_event_frame h ws f fs check : expects h ws (f :: fs) -> (check = true -> race_event h = []) -> exists b' ws',
  let h' := with_buf (Some b') (with_ievent None h) in
  esl_recv_event junk vasprintf h check true ws = Ok (h', ESL_SUCCESS, Some (frame_event f), ws') /\ expects h' ws' fs.
Proof.
  intros He Hq. destruct (recv_expected (with_ievent None h) ws f fs) as (b' & ws' & Hr & He'); [by eapply expects_same, He|].
  exists b', ws'. cbv zeta. split; [|done]. unfold esl_recv_event. rewrite (expects_ready _ _ _ He). cbv iota.
  assert (race_event (with_ievent None h) = race_event h) as -> by done.
  destruct check; [rewrite Hq by done|]; rewrite Hr; done.
Qed.

Lemma recv_event_queued h ws fs e es : expects h ws fs -> race_event h = e :: es ->
  esl_recv_event junk vasprintf h true true ws = Ok (with_race es (with_ievent None h), ESL_SUCCESS, Some e, ws).
Proof.
  intros He Hq. unfold esl_recv_event. rewrite (expects_ready _ _ _ He). cbv iota.
  assert (race_event (with_ievent None h) = race_event h) as -> by done. by rewrite Hq.
Qed.

(** [n] events are taken. *)
Fixpoint recv_events (n : nat) (h : esl_handle) (ws : list wake) : result (esl_handle * list esl_event * list wake) :=
  match n with
  | O => Ok (h, [], ws)
  | S n =>
      let! (h, status, ev, ws) := esl_recv_event junk vasprintf h true true ws in
      match status, ev with
      | ESL_SUCCESS, Some e => let! (h, es, ws) := recv_events n h ws in Ok (h, e :: es, ws)
      | _, _ => Ok (h, [], ws)
      end
  end.

Lemma recv_events_frames fs fs' : forall h ws, expects h ws (fs ++ fs') -> race_event h = [] -> exists h' ws',
  recv_events (length fs) h ws = Ok (h', frame_event <$> fs, ws') /\ expects h' ws' fs' /\ race_event h' = [].
Proof.
  induction fs as [|f fs IH]; intros h ws He Hq; [by exists h, ws|]. cbn [length recv_events fmap list_fmap].
  destruct (recv_event_frame h ws f (fs ++ fs') true He ltac:(done)) as (b' & ws' & -> & He'). cbn [rbind].
  destruct (IH _ _ He' Hq) as (h2 & ws2 & -> & He2 & Hq2). exists h2, ws2. done.
Qed.

Lemma recv_events_queue es fs fs' : forall h ws, expects h ws (fs ++ fs') -> race_event h = es -> exists h' ws',
  recv_events (length es + length fs) h ws = Ok (h', es ++ (frame_event <$> fs), ws') /\ expects h' ws' fs' /\ race_event h' = [].
Proof.
  induction es as [|e es IH]; intros h ws He Hq; [by apply recv_events_frames|]. cbn [length Nat.add recv_events].
  rewrite (recv_event_queued _ _ _ _ _ He Hq). cbn [rbind].
  destruct (IH (with_race es (with_ievent None h)) ws) as (h2 & ws2 & -> & He2 & Hq2); [by eapply expects_same, He|done|]. by exists h2, ws2.
Qed.

(** ** Commands *)

(** What is sent: the command, and an empty line unless it ends in one. *)
Definition ends_blank (cmd : cstr) : bool := match reverse cmd with c :: d :: _ => (c =? 10) && (d =? 10) | _ => false end.
Definition sent_text (cmd : cstr) : cstr := if ends_blank cmd then cmd else cmd ++ [10; 10].

Lemma esl_send_ok h cmd : connected h = true -> sock h <> ESL_SOCK_INVALID -> cmd <> [] -> cmd <> [10] ->
  esl_send h cmd true true = Ok (with_sent (sent h ++ sent_text cmd) h, ESL_SUCCESS).
Proof.
  intros Hc Hs H1 H2. unfold esl_send, sent_text, ends_blank. rewrite Hc, (proj2 (Z.eqb_neq _ _) Hs). cbn [negb orb].
  pose proof (reverse_involutive cmd) as Hr. destruct (reverse cmd) as [|c r]; [by subst cmd|].
  destruct r as [|d r]; [destruct (Z.eqb_spec c 10) as [->|Hn]; [by subst cmd|]|destruct (c =? 10), (d =? 10)]; cbn [rbind andb]; try done.
  all: cbn; by rewrite <- app_assoc.
Qed.

(** The first bytes of the reply text, as they are kept. *)
Definition reply_bytes (f : frame) (old : list Z) : list Z :=
  match frame_header f (bytes_of "reply-text") with Some (c :: v) => strncpy_reply (c :: v) | _ => 0 :: tl old end.

Lemma recv_reply_spec r fs' fs : forall fuel h ws polls, expects h ws (fs ++ r :: fs') -> (length fs < fuel)%nat ->
  Forall (fun f => is_other (frame_event f) = true) fs -> is_other (frame_event r) = false ->
  exists h' ws', recv_reply junk vasprintf fuel h 0 polls ws = Ok (h', ESL_SUCCESS, ws') /\ expects h' ws' fs' /\
    race_event h' = race_event h ++ (frame_event <$> fs) /\ last_sr_event h' = Some (frame_event r) /\ sent h' = sent h /\
    last_event h' = last_event h /\ exists old, last_sr_reply h' = reply_bytes r old.
Proof.
  induction fs as [|f fs IH]; intros fuel h ws polls He Hfu Hfs Hr; (destruct fuel as [|fuel]; [lia|]); cbn [recv_reply].
  all: unfold esl_recv_event_timed; change (0 =? 0) with true; cbv iota.
  - cbn [app] in He. destruct (recv_event_frame (with_sr_reply (0 :: tl (last_sr_reply h)) (with_sr None h)) ws r fs' false) as (b' & ws' & -> & He');
      [by eapply expects_same, He|done|]. cbn [rbind]. rewrite Hr. eexists _, ws'. split; [done|].
    change (esl_event_get_header (frame_event r) (bytes_of "reply-text")) with (frame_header r (bytes_of "reply-text")).
    split; [|split; [|split; [|split; [|split]]]].
    + eapply expects_same; [..|exact He']; by destruct (frame_header r (bytes_of "reply-text")) as [[|? ?]|].
    + rewrite app_nil_r. by destruct (frame_header r (bytes_of "reply-text")) as [[|? ?]|].
    + by destruct (frame_header r (bytes_of "reply-text")) as [[|? ?]|].
    + by destruct (frame_header r (bytes_of "reply-text")) as [[|? ?]|].
    + by destruct (frame_header r (bytes_of "reply-text")) as [[|? ?]|].
    + exists (last_sr_reply h). unfold reply_bytes. by destruct (frame_header r (bytes_of "reply-text")) as [[|? ?]|].
  - apply Forall_cons in Hfs as [Hf Hfs]. destruct (recv_event_frame (with_sr_reply (0 :: tl (last_sr_reply h)) (with_sr None h)) ws f (fs ++ r :: fs') false) as (b' & ws' & -> & He');
      [by eapply expects_same, He|done|]. cbn [rbind]. rewrite Hf.
    set (h1 := with_sr None _). assert (expects h1 ws' (fs ++ r :: fs')) as He1 by (by eapply expects_same, He').
    rewrite (expects_ready _ _ _ He1). cbn [length] in Hfu.
    destruct (IH fuel h1 ws' (tl polls) He1 ltac:(lia) Hfs Hr) as (h2 & ws2 & -> & He2 & Hra & Hsr & Hse & Hle & Hrep).
    exists h2, ws2. split_and!; try done. rewrite Hra. cbn. by rewrite <- app_assoc.
Qed.

Lemma send_recv_spec r fs' fs fuel h ws cmd : expects h ws (fs ++ r :: fs') -> (length fs < fuel)%nat -> cmd <> [] -> cmd <> [10] ->
  Forall (fun f => is_other (frame_event f) = true) fs -> is_other (frame_event r) = false ->
  exists h' ws', esl_send_recv junk vasprintf fuel h cmd true true ws = Ok (h', ESL_SUCCESS, ws') /\ expects h' ws' fs' /\
    race_event h' = race_event h ++ (frame_event <$> fs) /\ last_sr_event h' = Some (frame_event r) /\ sent h' = sent h ++ sent_text cmd /\
    last_event h' = last_event h /\ exists old, last_sr_reply h' = reply_bytes r old.
Proof.
  intros He Hfu H1 H2 Hfs Hr. unfold esl_send_recv, esl_send_recv_timed. rewrite (expects_ready _ _ _ He). cbv iota.
  rewrite esl_send_ok by (done || apply He). cbn [rbind]. rewrite bool_decide_true by done. cbn [negb].
  destruct (recv_reply_spec r fs' fs fuel (with_sent (sent (with_sr_reply (0 :: tl (last_sr_reply h)) (with_sr None h)) ++ sent_text cmd)
    (with_sr_reply (0 :: tl (last_sr_reply h)) (with_sr None h))) ws []) as (h' & ws' & -> & He' & Hrest); try done; [by eapply expects_same, He|].
  exists h', ws'. split; [done|]. split; [done|]. exact Hrest.
Qed.

End received.
End EslClientProof.

Import EslBuf EslBufProof EslText EslEv EslEvProof EslWire EslClient EslClientProof.

(** A handle as it is when it has been connected. *)
Record connected_handle (h : esl_handle) : Prop := ConnectedHandle {
  ch_conn : connected h = true;
  ch_sock : sock h <> ESL_SOCK_INVALID;
  ch_buf : packet_buf h = Some new_buffer;
  ch_race : race_event h = [] }.

(** What the server sends is within the memory of a new buffer. *)
Record arriving (fs : list frame) (ws : list wake) : Prop := Arriving {
  ar_frames : Forall frame_ok fs;
  ar_wakes : Forall wake_ok ws;
  ar_stream : stream ws = concat (frame_text <$> fs);
  ar_length : Z.of_nat (length (stream ws)) < BUF_START }.

Lemma expects_new h fs ws : connected_handle h -> arriving fs ws -> expects h ws fs.
Proof.
  intros [Hc Hs Hb _] [Hf Hw Hst Hl]. split; [done..|]. exists new_buffer. split; [done|]. unfold BUF_START in Hl.
  split; [|apply fresh_create; unfold BUF_START; lia|done]. exists []. split; [apply create_holds; unfold BUF_START; lia|done].
Qed.

(** What the server sends is received as it was sent: when the bytes of a
    sequence of frames arrive at a newly connected handle, in any pieces and
    with any pauses, taking one event per frame gives the events of the
    frames in order, each with the headers of its lines (decoded) and with its
    body, and the handle stays connected with nothing left over. *)
Theorem esl_recv_event_correct `{Json.FloatOps} junk vasprintf h fs ws : connected_handle h -> arriving fs ws ->
  exists h' ws', recv_events junk vasprintf (length fs) h ws = Ok (h', frame_event <$> fs, ws') /\
    connected h' = true /\ stream ws' = [] /\ race_event h' = [].
Proof.
  intros Hh Ha. pose proof (expects_new _ _ _ Hh Ha) as He. rewrite <- (app_nil_r fs) in He.
  destruct (recv_events_frames junk vasprintf fs [] h ws He (ch_race _ Hh)) as (h' & ws' & -> & [Hc _ _ (b & _ & [(c & _ & Hcs) _ _])] & Hq).
  exists h', ws'. split_and!; try done. by apply app_nil in Hcs as [_ ?].
Qed.

(** The value of the first line of that name, decoded; names are compared
    without regard to case. *)
Definition line_value (n : cstr) (f : frame) : option cstr :=
  (fun ix => esl_url_decode ix.2.2) <$> list_find (fun x => tolower <$> x.1 = n) (f_lines f).
Definition is_reply (f : frame) : Prop :=
  exists ct, line_value (bytes_of "content-type") f = Some ct /\ (tolower <$> ct) ∈ [bytes_of "command/reply"; bytes_of "api/response"].
Definition is_notice (f : frame) : Prop :=
  exists ct, line_value (bytes_of "content-type") f = Some ct /\ (tolower <$> ct) ∉ [bytes_of "command/reply"; bytes_of "api/response"].

Lemma line_value_header f n bd : tolower <$> n = n -> n <> bytes_of "event-name" -> n <> bytes_of "_body" ->
  esl_event_get_header (received_event (f_lines f) bd) n = line_value n f.
Proof.
  intros Hn H1 H2. rewrite (get_header_pairs _ (SOCKET_DATA :: decoded (f_lines f))) by done. rewrite (bool_decide_eq_false_2 _ H2).
  cbn [lookup_nocase SOCKET_DATA]. unfold same_nocase at 1. rewrite bool_decide_eq_false_2 by (rewrite Hn; intros E; by apply H1; rewrite <- E).
  transitivity (lookup_nocase n (decoded (f_lines f))); [by destruct (lookup_nocase _ _)|].
  unfold line_value. induction (f_lines f) as [|x l IH]; [done|]. cbn. unfold same_nocase. rewrite Hn.
  case_decide as E; [by rewrite bool_decide_eq_true_2|]. rewrite bool_decide_eq_false_2 by done. unfold decoded in IH. rewrite IH. by destruct (list_find _ l) as [[]|].
Qed.

Lemma is_other_frame f : (is_reply f -> is_other (frame_event f) = false) /\ (is_notice f -> is_other (frame_event f) = true).
Proof.
  unfold is_reply, is_notice, is_other, frame_event. rewrite line_value_header by done.
  assert (forall ct, negb (same_nocase ct (bytes_of "api/response")) && negb (same_nocase ct (bytes_of "command/reply")) =
    bool_decide ((tolower <$> ct) ∉ [bytes_of "command/reply"; bytes_of "api/response"])) as E.
  { intros ct. unfold same_nocase. change (tolower <$> bytes_of "api/response") with (bytes_of "api/response"). change (tolower <$> bytes_of "command/reply") with (bytes_of "command/reply").
    rewrite <- !bool_decide_not, <- bool_decide_and. apply bool_decide_ext. rewrite !elem_of_cons, elem_of_nil. tauto. }
  split; intros (ct & -> & Hct); rewrite E; [apply bool_decide_eq_false; tauto|by apply bool_decide_eq_true].
Qed.

(** C21: A command gets its own reply and loses no event: on a connected handle
    with any bytes in its buffer and any events queued by earlier commands,
    [esl_send_recv] sends the command and an empty line, passes over the frames
    of other types than command/reply and api/response that come first, and
    returns with the first of these two types in [last_sr_event] and its reply
    text in [last_sr_reply]; the handle is then ready for what comes behind it,
    for the next command too, and the events taken afterwards are those queued
    before, the ones passed over and the ones behind the reply, in the order in
    which they arrived.  The frames are well formed, have a Content-Type, and fit
    the memory the buffer has. *)
Theorem esl_send_recv_keeps_events `{Json.FloatOps} junk vasprintf fuel h cmd before r behind ws :
  expects h ws (before ++ r :: behind) -> (length before < fuel)%nat -> cmd <> [] -> cmd <> [10] ->
  Forall is_notice before -> is_reply r ->
  exists h' ws', esl_send_recv junk vasprintf fuel h cmd true true ws = Ok (h', ESL_SUCCESS, ws') /\
    sent h' = sent h ++ sent_text cmd /\ last_sr_event h' = Some (frame_event r) /\
    (forall c v, line_value (bytes_of "reply-text") r = Some (c :: v) -> last_sr_reply h' = take REPLY_LEN (c :: v ++ replicate REPLY_LEN 0)) /\
    expects h' ws' behind /\
    exists h2 ws2, recv_events junk vasprintf (length (race_event h) + length before + length behind) h' ws' =
      Ok (h2, race_event h ++ (frame_event <$> before ++ behind), ws2).
Proof.
  intros He Hfu H1 H2 Hb Hr.
  destruct (send_recv_spec junk vasprintf r behind before fuel h ws cmd He Hfu H1 H2) as (h' & ws' & -> & He' & Hra & Hsr & Hse & _ & old & Hrep).
  { eapply Forall_impl; [exact Hb|]. intros f. apply is_other_frame. }
  { by apply is_other_frame. }
  exists h', ws'. split_and!; try done.
  - intros c v Hv. rewrite Hrep. unfold reply_bytes, frame_header. rewrite line_value_header, Hv by done. done.
  - rewrite <- (app_nil_r behind) in He'.
    destruct (recv_events_queue junk vasprintf (race_event h ++ (frame_event <$> before)) behind [] h' ws' He' Hra) as (h2 & ws2 & Hev & _).
    rewrite length_app, length_fmap in Hev. exists h2, ws2. by rewrite fmap_app, app_assoc.
Qed.

(** A reply, and an event behind it, in three pieces with pauses. *)
Definition demo_reply : frame := Frame [(bytes_of "Content-Type", bytes_of "command/reply"); (bytes_of "Reply-Text", bytes_of "+OK")] None.
Definition demo_notice : frame := Frame [(bytes_of "Content-Type", bytes_of "text/event-json"); (bytes_of "Content-Length", bytes_of "2")] (Some (bytes_of "{}")).
Definition demo_handle : esl_handle := with_buf (Some new_buffer) (with_connected true (with_sock 7 zero_handle)).
Definition demo_wakes (t : list Z) : list wake :=
  [Wake 0 0 RClosed; Wake 1 POLLIN (RData (take 5 t)); Wake 1 POLLIN RAgain; Wake 1 POLLIN (RData (drop 5 t))].

Lemma demo_handle_ok : connected_handle demo_handle.
Proof. by split. Qed.

Ltac demo_text := apply (bool_decide_unpack _); vm_compute; exact I.
Ltac demo_line :=
  split; [split; [demo_text|discriminate]|discriminate|demo_text|demo_text|reflexivity|split; [discriminate|reflexivity]].

Lemma demo_reply_ok : frame_ok demo_reply.
Proof.
  split; [|discriminate|unfold SOCKET_BUF; cbn; lia|constructor|reflexivity].
  repeat (constructor; [demo_line|]); constructor.
Qed.
Lemma demo_notice_ok : frame_ok demo_notice.
Proof.
  split; [|discriminate|unfold SOCKET_BUF; cbn; lia|demo_text|reflexivity].
  repeat (constructor; [demo_line|]); constructor.
Qed.

Lemma wake_ready r : match r with RData bs => (0 < length bs < SOCKET_BUF)%nat | RAgain => True | _ => False end -> wake_ok (Wake 1 POLLIN r).
Proof. intros Hr. right. split_and!; [reflexivity..|exact Hr]. Qed.

Lemma demo_wakes_ok t : (5 < length t < SOCKET_BUF)%nat -> Forall wake_ok (demo_wakes t) /\ stream (demo_wakes t) = t.
Proof.
  intros Hl. split; [|unfold stream; cbn; rewrite app_nil_r; apply take_drop].
  apply Forall_cons. split; [by left|]. repeat (apply Forall_cons; split; [apply wake_ready; rewrite ?length_take, ?length_drop; first [exact I|lia]|]).
  constructor.
Qed.

Lemma demo_arriving : arriving [demo_notice; demo_reply] (demo_wakes (frame_text demo_notice ++ frame_text demo_reply)).
Proof.
  destruct (demo_wakes_ok (frame_text demo_notice ++ frame_text demo_reply)) as [Hw Hs]; [unfold SOCKET_BUF; cbn; lia|].
  split; [|exact Hw|rewrite Hs; reflexivity|rewrite Hs; reflexivity].
  apply Forall_cons. split; [exact demo_notice_ok|]. apply Forall_cons. split; [exact demo_reply_ok|constructor].
Qed.

Lemma esl_recv_event_correct_witness :
  exists h' ws', @recv_events exact_floats (fun _ => 0) (fun _ => None) 2 demo_handle (demo_wakes (frame_text demo_notice ++ frame_text demo_reply)) =
    Ok (h', [frame_event demo_notice; frame_event demo_reply], ws') /\ connected h' = true.
Proof.
  destruct (@esl_recv_event_correct exact_floats (fun _ => 0) (fun _ => None) demo_handle [demo_notice; demo_reply]
    (demo_wakes (frame_text demo_notice ++ frame_text demo_reply))) as (h' & ws' & E & Hc & _).
  - exact demo_handle_ok.
  - exact demo_arriving.
  - exists h', ws'. split; assumption.
Defined.

(** A second command: an event of the first one is still queued. *)
Definition used_handle : esl_handle := with_race [frame_event demo_notice] demo_handle.

Lemma esl_send_recv_keeps_events_witness :
  exists h' ws', @esl_send_recv exact_floats (fun _ => 0) (fun _ => None) 2 used_handle (bytes_of "event json all") true true
      (demo_wakes (frame_text demo_notice ++ frame_text demo_reply)) = Ok (h', ESL_SUCCESS, ws') /\
    last_sr_event h' = Some (frame_event demo_reply) /\
    (last_sr_reply h' = take REPLY_LEN (bytes_of "+OK" ++ replicate REPLY_LEN 0)) /\
    exists h2 ws2, @recv_events exact_floats (fun _ => 0) (fun _ => None) 2 h' ws' = Ok (h2, [frame_event demo_notice; frame_event demo_notice], ws2).
Proof.
  destruct (@esl_send_recv_keeps_events exact_floats (fun _ => 0) (fun _ => None) 2 used_handle (bytes_of "event json all") [demo_notice] demo_reply []
    (demo_wakes (frame_text demo_notice ++ frame_text demo_reply))) as (h' & ws' & E & _ & Hsr & Hrep & _ & Hq).
  - apply (expects_same demo_handle); [reflexivity..|]. exact (expects_new _ _ _ demo_handle_ok demo_arriving).
  - cbn. lia.
  - discriminate.
  - discriminate.
  - constructor; [|constructor]. eexists. split; [reflexivity|]. demo_text.
  - eexists. split; [reflexivity|]. demo_text.
  - exists h', ws'. split; [exact E|]. split; [exact Hsr|]. split; [|exact Hq]. exact (Hrep 43 (bytes_of "OK") eq_refl).
Defined.
