(* ===== verification/EslSession.v ===== *)
(** * The client and the server together

    What a connection of [mod_eventsocket] sends is what the console client
    receives: its replies, the answers of its [api] commands, its events and
    its farewell are frames of the client, whatever the pieces in which they
    arrive.  A conversation gives every command its own reply; an event comes
    out of the client with the headers and the body it has in the server. *)

From stdpp Require Import base gmap list fin_maps strings.
From Stdlib Require Import ZArith Lia.
From S2P Require Import Prelude CString Queue Event EventProof EventBus Json JsonProof JsonMain EventJson EventFast Utils Api ApiProof EventSocket EventSocketProof EventSocketMain.
From S2P Require Import EslBuffer EslBufferProof EslText EslTextProof EslEvent EslEventProof EslWire EslClient EslClientProof.

Module EslSession.
Import Ev EvProof Bus EvJson ApiProof Esl EslProof EslMain.
Import EslEvProof EslClientProof.

(** ** The frames of the server *)

Definition reply_line (reply : cstr) : frame :=
  Frame [(bytes_of "Content-Type", bytes_of "command/reply"); (bytes_of "Reply-Text", reply)] None.
Definition event_lines (json : cstr) : frame :=
  Frame [(bytes_of "Content-Length", print_int (Z.of_nat (length json))); (bytes_of "Content-Type", bytes_of "text/event-json")] (Some json).
Definition api_lines (reply : cstr) : frame :=
  Frame [(bytes_of "Content-Type", bytes_of "api/response"); (bytes_of "Content-Length", print_int (Z.of_nat (length reply)))] (Some reply).
Definition notice_lines (message : cstr) : frame :=
  Frame [(bytes_of "Content-Type", bytes_of "text/disconnect-notice"); (bytes_of "Content-Length", print_int (Z.of_nat (length message)))] (Some message).

(** *** Their texts *)

Ltac frame_lines :=
  unfold frame_text, EslClientProof.head_text, lines_text, line_text; cbn [f_lines f_body fmap list_fmap concat fst snd default];
  unfold default, id; rewrite ?app_nil_r, <- ?app_assoc.

Lemma reply_frame_text reply : hd 0 reply = 43 \/ hd 0 reply = 45 -> reply_frame reply = frame_text (reply_line reply).
Proof. destruct reply as [|c reply]; cbn [hd]; [lia|]. unfold reply_line. frame_lines. by intros [-> | ->]. Qed.

Lemma event_frame_text json : Z.of_nat (length json) < 2 ^ 31 -> event_frame json = frame_text (event_lines json).
Proof. intros Hl. unfold event_frame, event_lines. frame_lines. rewrite sext32_small by lia. done. Qed.

Lemma api_frame_text reply : Z.of_nat (length reply) < 2 ^ 31 -> api_frame reply = frame_text (api_lines reply).
Proof. intros Hl. unfold api_frame, api_lines. frame_lines. rewrite sext32_small by lia. done. Qed.

Lemma send_send x y c : send y (send x c) = send (x ++ y) c.
Proof. unfold send. cbn. by rewrite <- app_assoc. Qed.

Lemma notice_text message c : message <> [] -> has_sock c = true -> Z.of_nat (length message) < 2 ^ 31 ->
  send_disconnect true message c = send (frame_text (notice_lines message)) c.
Proof.
  intros Hm Hs Hl. unfold send_disconnect. assert ((length message =? 0)%nat = false) as -> by (destruct message; done). rewrite Hs. cbn [negb].
  rewrite send_send. unfold notice_lines. frame_lines. rewrite sext32_small by lia. done.
Qed.

(** *** They are received whole *)

Lemma decode_plain s : Forall (fun c => c <> 0 /\ c <> 37) s -> EslText.esl_url_decode s = s.
Proof.
  intros Hs. unfold EslText.esl_url_decode. assert (EslText.decode_loop s = s) as ->.
  { induction Hs as [|c s [_ Hc] Hs IH]; [done|]. cbn [EslText.decode_loop]. by rewrite (proj2 (Z.eqb_neq _ _) Hc), IH. }
  apply cstring_id. eapply Forall_impl; [done|]. cbn. tauto.
Qed.

Lemma no_array s : Forall (fun c => c <> 65) s -> EslText.strstr s EslEv.ARRAY = None.
Proof.
  induction 1 as [|c s Hc Hs IH]; [done|]. cbn [EslText.strstr]. rewrite IH.
  assert (EslText.is_prefix EslEv.ARRAY (c :: s) = false) as ->; [|done].
  destruct (EslText.is_prefix EslEv.ARRAY (c :: s)) eqn:E; [|done]. cbn in E. apply andb_true_iff in E as [E%Z.eqb_eq _]. by subst c.
Qed.

(** A value that is sent as it is. *)
Definition sent_plain (v : cstr) : Prop := v <> [] /\ Forall (fun c => c <> 0 /\ c <> 10 /\ c <> 37 /\ c <> 65) v /\ EslClient.skip_tab v = v.

Definition name_plain (n : cstr) : Prop := plain_name n /\ n <> [] /\ Forall (fun c => c <> 0 /\ c <> 10 /\ c <> 13 /\ c <> 58) n.

Lemma sent_line n v : name_plain n -> sent_plain v -> line_ok (n, v).
Proof.
  intros (Hn & Hn0 & Hnc) (Hv0 & Hvc & Hvs). split; cbn [fst snd]; try done.
  - eapply Forall_impl; [done|]. cbn. tauto.
  - rewrite decode_plain by (eapply Forall_impl; [done|]; cbn; tauto). split; [done|]. apply no_array. eapply Forall_impl; [done|]. cbn. tauto.
Qed.

Lemma digits_plain n : sent_plain (print_int (Z.of_nat n)).
Proof.
  unfold print_int. rewrite (proj2 (Z.ltb_ge _ _)) by lia. pose proof (print_uint_digits (Z.of_nat n) ltac:(lia)) as Hd.
  destruct (print_uint_cons (Z.of_nat n) ltac:(lia)) as (c & s & E & Hc). rewrite E in *. split_and!; [done| |].
  - eapply Forall_impl; [done|]. cbn. intros x Hx%is_digit_iff. lia.
  - apply is_digit_iff in Hc. cbn. by rewrite !(proj2 (Z.eqb_neq _ _)) by lia.
Qed.

Lemma atol_print n : Z.of_nat n < 2 ^ 31 -> EslClient.atol (print_int (Z.of_nat n)) = Z.of_nat n.
Proof.
  intros Hn. unfold print_int. rewrite (proj2 (Z.ltb_ge _ _)) by lia. pose proof (print_uint_value (Z.of_nat n) ltac:(lia)) as Hv.
  destruct (print_uint_cons (Z.of_nat n) ltac:(lia)) as (c & s & E & Hc). rewrite E in *. apply is_digit_iff in Hc. unfold EslClient.atol. cbn [skip_space].
  unfold is_space. rewrite (proj2 (Z.eqb_neq c 32)), (proj2 (Z.leb_gt c 13)), andb_false_r by lia. cbn [orb].
  assert (clamp64 (digits_value 0 (c :: s)) = Z.of_nat n) as <- by (rewrite Hv; unfold clamp64; lia).
  repeat (case_match; try lia; try done).
Qed.

Ltac plain_text := apply (bool_decide_unpack _); vm_compute; exact I.
Ltac plain_named := split; [split; [plain_text|discriminate]|split; [discriminate|plain_text]].

Lemma type_plain t : t <> [] -> forallb (fun c => negb ((c =? 0) || (c =? 10) || (c =? 37) || (c =? 65) || (c =? 32) || (c =? 9))) t = true -> sent_plain t.
Proof.
  intros Ht Hc. assert (Forall (fun c => c <> 0 /\ c <> 10 /\ c <> 37 /\ c <> 65 /\ c <> 32 /\ c <> 9) t) as HF.
  { apply Forall_forall. intros c Hin. apply forallb_forall with (x := c) in Hc; [|by apply list_elem_of_In].
    rewrite negb_true_iff, !orb_false_iff, !Z.eqb_neq in Hc. tauto. }
  split_and!; [done|eapply Forall_impl; [done|]; cbn; tauto|]. destruct HF as [|c t Hcc _]; [done|]. cbn.
  by rewrite !(proj2 (Z.eqb_neq _ _)) by tauto.
Qed.

Lemma short_head n v m w : (length n <= 20)%nat -> (length v <= 100)%nat -> (length m <= 20)%nat -> (length w <= 100)%nat ->
  (length (EslClientProof.head_text [(n, v); (m, w)]) < EslClient.SOCKET_BUF)%nat.
Proof.
  intros. unfold EslClientProof.head_text, lines_text, line_text, EslClient.SOCKET_BUF. cbn [fmap list_fmap concat fst snd].
  rewrite !length_app. cbn [length]. lia.
Qed.

Lemma header_of n v m w x : frame_header (Frame [(n, v); (m, w)] None) x =
  match lookup_nocase x [SOCKET_DATA; (n, EslText.esl_url_decode v); (m, EslText.esl_url_decode w)] with Some v => Some v | None => None end.
Proof.
  unfold frame_header. erewrite get_header_pairs by reflexivity. cbn [decoded fmap list_fmap fst snd f_lines received_event EslEv.body].
  destruct (lookup_nocase _ _); [done|]. by case_match.
Qed.

Lemma frame_header_body l bd x : frame_header (Frame l bd) x = frame_header (Frame l None) x.
Proof. done. Qed.

Lemma sent_decode v : sent_plain v -> EslText.esl_url_decode v = v.
Proof. intros (_ & Hv & _). apply decode_plain. eapply Forall_impl; [done|]. cbn. tauto. Qed.

Lemma digits_short n : Z.of_nat n < 2 ^ 31 -> (length (print_int (Z.of_nat n)) <= 100)%nat.
Proof. intros Hn. pose proof (print_int_width (Z.of_nat n) ltac:(lia)). lia. Qed.

(** Comparisons of literal names are computed. *)
Ltac compare_names :=
  unfold SOCKET_DATA; cbn [lookup_nocase];
  repeat match goal with
  | |- context [same_nocase (bytes_of ?a) (bytes_of ?b)] =>
      let r := eval vm_compute in (same_nocase (bytes_of a) (bytes_of b)) in change (same_nocase (bytes_of a) (bytes_of b)) with r
  end; cbv iota.

Ltac two_lines := do 2 (apply Forall_cons; split; [apply sent_line; [plain_named|first [assumption|by apply type_plain]]|]).

Lemma reply_line_ok reply : sent_plain reply -> (length reply <= 100)%nat -> frame_ok (reply_line reply).
Proof.
  intros Hr Hl. split; cbn [reply_line f_lines f_body].
  - by two_lines.
  - done.
  - apply short_head; cbn; lia.
  - constructor.
  - unfold reply_line. rewrite header_of. done.
Qed.

(** The frames with a body: the length and the type in either order. *)
Lemma sized_frame_ok t bd : t <> [] -> (length t <= 100)%nat ->
  forallb (fun c => negb ((c =? 0) || (c =? 10) || (c =? 37) || (c =? 65) || (c =? 32) || (c =? 9))) t = true ->
  Z.of_nat (length bd) < 2 ^ 31 -> Forall (fun c => c <> 0) bd ->
  frame_ok (Frame [(bytes_of "Content-Length", print_int (Z.of_nat (length bd))); (bytes_of "Content-Type", t)] (Some bd)) /\
  frame_ok (Frame [(bytes_of "Content-Type", t); (bytes_of "Content-Length", print_int (Z.of_nat (length bd)))] (Some bd)).
Proof.
  intros Ht Htl Htc Hl Hz. pose proof (digits_plain (length bd)) as Hd. pose proof (digits_short _ Hl) as Hdl.
  split; split; cbn [f_lines f_body default]; try done.
  1,4: by two_lines.
  1,3: apply short_head; (done || cbn; lia).
  all: rewrite frame_header_body, header_of, !sent_decode by (done || by apply type_plain).
  all: compare_names; cbn [fmap option_fmap option_map]; f_equal; by apply atol_print.
Qed.

(** ** A conversation *)

Definition client_command (cmd : cstr) : request := Request [LF] cmd [].

Lemma client_sends cmd : plain cmd -> sent_text cmd = request_text (client_command cmd).
Proof.
  intros Hc. unfold sent_text, ends_blank, request_text, client_command. cbn [r_eol r_cmd r_headers].
  assert (match reverse cmd with c :: d :: _ => (c =? 10) && (d =? 10) | _ => false end = false) as ->; [|done].
  destruct (reverse cmd) as [|c [|d r]] eqn:E; try done. assert (c ∈ cmd) as Hin by (apply elem_of_reverse; rewrite E; left).
  destruct (proj1 (Forall_forall _ _) Hc c Hin) as [_ Hn]. rewrite (proj2 (Z.eqb_neq c 10)); [done|]. intros ->. apply Hn. by right.
Qed.

(** The reply does not depend on the connection. *)
Definition reply_of (b : bus) (cmd : cstr) : cstr :=
  if says_exit cmd then bytes_of "+OK bye"
  else match known b (requested cmd) with [] => bytes_of "-ERR no keywords supplied" | _ => bytes_of "+OK" end.

Definition replies (b : bus) (cmds : list cstr) : list frame := (fun cmd => reply_line (reply_of b cmd)) <$> cmds.

Lemma reply_of_ok b cmd : frame_ok (reply_line (reply_of b cmd)) /\ (hd 0 (reply_of b cmd) = 43 \/ hd 0 (reply_of b cmd) = 45) /\
  EslClient.is_other (frame_event (reply_line (reply_of b cmd))) = false.
Proof.
  unfold reply_of. destruct (says_exit cmd); [|destruct (known b (requested cmd))].
  all: split; [apply reply_line_ok; [split; [discriminate|split; [plain_text|reflexivity]]|cbn; lia]|].
  all: split; [cbn; first [by left|by right]|reflexivity].
Qed.

Lemma replies_ok b cmds : Forall frame_ok (replies b cmds).
Proof. apply Forall_fmap, Forall_forall. intros cmd _. apply reply_of_ok. Qed.

(** A command that is answered and leaves the connection open. *)
Definition keeps_open (cmd : cstr) : Prop := says_exit cmd = false /\ has_prefix (bytes_of "event") cmd = true.

Lemma answered_open b c cmd : is_running c = true -> keeps_open cmd ->
  let c' := answered b c (client_command cmd) in
  is_running c' = true /\ has_sock c' = has_sock c /\ sent c' = sent c ++ frame_text (reply_line (reply_of b cmd)).
Proof.
  intros Hr [Hx Hp]. destruct (reply_of_ok b cmd) as (_ & Hh & _). apply reply_frame_text in Hh as <-. cbv zeta.
  unfold answered, answer, reply_of. rewrite Hr, Hx. cbn [client_command r_cmd]. rewrite Hx, Hp. by destruct (known b (requested cmd)).
Qed.

Lemma answered_exit b c cmd : is_running c = true -> says_exit cmd = true ->
  let c' := answered b c (client_command cmd) in
  is_running c' = false /\ has_sock c' = has_sock c /\ sent c' = sent c ++ frame_text (reply_line (reply_of b cmd)).
Proof.
  intros Hr Hx. destruct (reply_of_ok b cmd) as (_ & Hh & _). apply reply_frame_text in Hh as <-. cbv zeta.
  unfold answered, answer, reply_of. rewrite Hr. cbn [client_command r_cmd]. by rewrite Hx.
Qed.

Lemma answered_all b cmds x : Forall keeps_open cmds -> says_exit x = true -> forall c, is_running c = true ->
  let c' := foldl (answered b) c (client_command <$> cmds ++ [x]) in
  is_running c' = false /\ has_sock c' = has_sock c /\ sent c' = sent c ++ concat (frame_text <$> replies b (cmds ++ [x])).
Proof.
  intros Hcs Hx. induction Hcs as [|cmd cmds Hc Hcs IH]; intros c Hr; cbv zeta; cbn [app fmap list_fmap foldl replies concat].
  - destruct (answered_exit b c x Hr Hx) as (H1 & H2 & H3). split_and!; try done. cbn. rewrite H3. by rewrite app_nil_r.
  - destruct (answered_open b c cmd Hr Hc) as (H1 & H2 & H3). destruct (IH _ H1) as (H4 & H5 & H6).
    split_and!; [done|congruence|]. rewrite H6, H3, <- app_assoc. done.
Qed.

Section conversation.
Context `{Json.FloatOps} (junk : nat -> Z) (vasprintf : cstr -> option cstr).

(** The client sends its commands one after the other; the replies it gets. *)
Fixpoint converse (h : EslClient.esl_handle) (cmds : list cstr) (ws : list EslClient.wake)
    : result (EslClient.esl_handle * list (EslClient.esl_status * option EslEv.esl_event) * list EslClient.wake) :=
  match cmds with
  | [] => Ok (h, [], ws)
  | cmd :: cmds =>
      let! (h, status, ws) := EslClient.esl_send_recv junk vasprintf 1 h cmd true true ws in
      let reply := EslClient.last_sr_event h in
      let! (h, l, ws) := converse h cmds ws in
      Ok (h, (status, reply) :: l, ws)
  end.

Lemma plain_sendable cmd : plain cmd -> cmd <> [] -> cmd <> [10].
Proof. intros Hc _ ->. apply Forall_cons in Hc as [[_ Hc] _]. apply Hc. by right. Qed.

Lemma converse_spec b cmds fs : Forall (fun cmd => plain cmd /\ cmd <> []) cmds -> forall h ws,
  expects h ws (replies b cmds ++ fs) -> EslClient.race_event h = [] ->
  exists h' ws', converse h cmds ws = Ok (h', (fun cmd => (EslClient.ESL_SUCCESS, Some (frame_event (reply_line (reply_of b cmd))))) <$> cmds, ws') /\
    expects h' ws' fs /\ EslClient.race_event h' = [] /\
    EslClient.sent h' = EslClient.sent h ++ concat (request_text ∘ client_command <$> cmds).
Proof.
  induction 1 as [|cmd cmds [Hp Hn] Hcs IH]; intros h ws He Hq; cbn [converse].
  { exists h, ws. cbn. by rewrite app_nil_r. }
  destruct (send_recv_spec junk vasprintf (reply_line (reply_of b cmd)) (replies b cmds ++ fs) [] 1 h ws cmd He) as
    (h1 & ws1 & -> & He1 & Hq1 & Hr1 & Hs1 & _); [cbn; lia|done|by apply plain_sendable|constructor|apply reply_of_ok|].
  cbn [rbind]. rewrite Hq, app_nil_l in Hq1. destruct (IH h1 ws1 He1 Hq1) as (h2 & ws2 & -> & He2 & Hq2 & Hs2). cbn [rbind].
  exists h2, ws2. rewrite Hr1. split_and!; try done. rewrite Hs2, Hs1, client_sends by done. cbn. by rewrite <- app_assoc.
Qed.

(** An event that is kept. *)
Lemma recv_event_kept h ws f fs : expects h ws (f :: fs) -> EslClient.race_event h = [] -> exists b' ws',
  let h' := EslClient.with_buf (Some b') (EslClient.with_ievent None h) in
  EslClient.esl_recv_event junk vasprintf h true false ws =
    (let! (h'', status) := EslClient.keep_event vasprintf h' (frame_event f) in Ok (h'', status, None, ws')) /\ expects h' ws' fs.
Proof.
  intros He Hq. destruct (recv_expected junk (EslClient.with_ievent None h) ws f fs) as (b' & ws' & Hr & He'); [by eapply expects_same, He|].
  exists b', ws'. cbv zeta. split; [|done]. unfold EslClient.esl_recv_event. rewrite (expects_ready _ _ _ He). cbv iota.
  assert (EslClient.race_event (EslClient.with_ievent None h) = EslClient.race_event h) as -> by done.
  rewrite Hq, Hr. done.
Qed.

End conversation.

Definition farewell : cstr := bytes_of "Disconnected, goodbye." ++ [LF].

Lemma farewell_ok : frame_ok (notice_lines farewell).
Proof. apply (sized_frame_ok (bytes_of "text/disconnect-notice") farewell); [discriminate|cbn; lia|reflexivity|reflexivity|plain_text]. Qed.

Lemma farewell_kept `{Json.FloatOps} vasprintf h : exists h', EslClient.keep_event vasprintf h (frame_event (notice_lines farewell)) = Ok (h', EslClient.ESL_FAIL) /\
  EslClient.connected h' = false /\ EslClient.last_event h' = Some (frame_event (notice_lines farewell)).
Proof. eexists. split; [reflexivity|]. done. Qed.

(** ** Commands the server is silent about *)

Definition other_commands (t : cstr) : list cstr :=
  [bytes_of "filter " ++ t; bytes_of "sendevent " ++ t; bytes_of "sendmsg" ++ t; bytes_of "connect";
   bytes_of "log" ++ t; bytes_of "nolog" ++ t; bytes_of "noevents" ++ t; bytes_of "nixevent" ++ t].

Lemma other_silent b c t : Forall (fun cmd => answered b c (client_command cmd) = c) (other_commands t).
Proof.
  assert (forall cmd, answer b cmd c = (c, []) -> answered b c (client_command cmd) = c) as Hs.
  { intros cmd E. unfold answered. cbn [client_command r_cmd]. rewrite E. destruct c as [? ? ? ? [] ? ?]; unfold send; cbn; by rewrite ?app_nil_r. }
  repeat (apply Forall_cons; split; [apply Hs; reflexivity|]). constructor.
Qed.

Section silence.
Context `{Json.FloatOps} (junk : nat -> Z) (vasprintf : cstr -> option cstr).

Lemma read_nothing b n : EslBufProof.holds b [] -> EslBufProof.fresh b n -> exists b',
  EslBuf.esl_buffer_read_packet b (EslClient.SOCKET_BUF - 1) = Ok (b', []) /\ EslBufProof.holds b' [] /\ EslBufProof.fresh b' n.
Proof.
  intros Hh Hf. destruct (EslBufProof.read_packet_holds b [] (EslClient.SOCKET_BUF - 1) Hh (EslBufProof.fresh_clean _ _ _ Hh Hf) ltac:(constructor))
    as (b' & Hr & Hh' & Hd & Ha & Hdd & _). rewrite take_nil in Hr. rewrite drop_nil in Hh'.
  exists b'. split_and!; try done. by eapply EslBufProof.fresh_same.
Qed.

Lemma recv_packet_silent ws : forall h b, EslClient.connected h = true -> EslClient.sock h <> EslClient.ESL_SOCK_INVALID ->
  EslClient.packet_buf h = Some b -> ahead b ws [] ->
  exists b', EslClient.recv_packet junk h ws = Ok (EslClient.with_buf (Some b') h, None, []).
Proof.
  induction ws as [|w ws IH]; intros h b Hc Hs Hb [(c & Hh & Hcs) Hf Hw]; apply app_nil in Hcs as [-> Hst];
    cbn [EslClient.recv_packet]; unfold EslClient.buffer_of; rewrite Hb; cbn [rbind].
  all: destruct (read_nothing b _ Hh Hf) as (b1 & -> & Hh1 & Hf1); cbn [rbind length Nat.eqb negb].
  - by exists b1.
  - apply Forall_cons in Hw as [Hw Hws]. rewrite handle_recv_ok by done. cbn [rbind].
    assert (wake_data w = []) as Hd by (unfold stream in Hst; cbn in Hst; by apply app_nil in Hst as [? _]). rewrite Hd.
    rewrite (stream_skip w) in * by done.
    destruct (IH (EslClient.with_buf (Some b1) h) b1) as (b2 & E); try done; [|by exists b2].
    split; [by exists []|done|done].
Qed.

(** Frames that are no replies are queued, and the end of the connection is
    the failure of the command. *)
Lemma recv_reply_silent fs : forall fuel h ws polls, expects h ws fs -> (length fs < fuel)%nat -> Forall (fun f => EslClient.is_other (frame_event f) = true) fs ->
  exists h', EslClient.recv_reply junk vasprintf fuel h 0 polls ws = Ok (h', EslClient.ESL_FAIL, []) /\
    EslClient.connected h' = false /\ EslClient.last_sr_event h' = None /\
    EslClient.race_event h' = EslClient.race_event h ++ (frame_event <$> fs) /\ EslClient.sent h' = EslClient.sent h.
Proof.
  induction fs as [|f fs IH]; intros fuel h ws polls He Hfu Hfs; (destruct fuel as [|fuel]; [lia|]); cbn [EslClient.recv_reply].
  all: unfold EslClient.esl_recv_event_timed; change (0 =? 0) with true; cbv iota; set (h1 := EslClient.with_sr_reply _ _).
  - unfold EslClient.esl_recv_event at 1.
    assert (expects h1 ws []) as He1 by (by eapply expects_same, He). rewrite (expects_ready _ _ _ He1). cbv iota.
    destruct He1 as [Hc Hs _ (b & Hb & Ha)]. unfold EslClient.recv_whole.
    destruct (recv_packet_silent ws (EslClient.with_ievent None h1) b Hc Hs Hb Ha) as (b' & ->). cbn [rbind]. eexists. split; [done|].
    split_and!; try done. cbn. by rewrite app_nil_r.
  - apply Forall_cons in Hfs as [Hf Hfs]. destruct (recv_event_frame junk vasprintf h1 ws f fs false) as (b' & ws' & -> & He');
      [by eapply expects_same, He|done|]. cbn [rbind]. rewrite Hf. set (h2 := EslClient.with_sr None _).
    assert (expects h2 ws' fs) as He2 by (by eapply expects_same, He'). rewrite (expects_ready _ _ _ He2). cbn [length] in Hfu.
    destruct (IH fuel h2 ws' (tl polls) He2 ltac:(lia) Hfs) as (h3 & -> & Hc & Hsr & Hra & Hse). exists h3. split_and!; try done.
    rewrite Hra. cbn. by rewrite <- app_assoc.
Qed.

Lemma send_recv_silent fs fuel h cmd ws : expects h ws fs -> (length fs < fuel)%nat -> Forall (fun f => EslClient.is_other (frame_event f) = true) fs ->
  cmd <> [] -> cmd <> [10] ->
  exists h', EslClient.esl_send_recv junk vasprintf fuel h cmd true true ws = Ok (h', EslClient.ESL_FAIL, []) /\
    EslClient.connected h' = false /\ EslClient.last_sr_event h' = None /\
    EslClient.race_event h' = EslClient.race_event h ++ (frame_event <$> fs) /\ EslClient.sent h' = EslClient.sent h ++ sent_text cmd.
Proof.
  intros He Hfu Hfs H1 H2. unfold EslClient.esl_send_recv, EslClient.esl_send_recv_timed. rewrite (expects_ready _ _ _ He). cbv iota.
  rewrite esl_send_ok by (assumption || apply He). cbn [rbind]. rewrite bool_decide_true by done. cbn [negb].
  destruct (recv_reply_silent fs fuel (EslClient.with_sent (EslClient.sent (EslClient.with_sr_reply (0 :: tl (EslClient.last_sr_reply h)) (EslClient.with_sr None h)) ++ sent_text cmd)
    (EslClient.with_sr_reply (0 :: tl (EslClient.last_sr_reply h)) (EslClient.with_sr None h))) ws []) as (h' & -> & Hr); try done; [by eapply expects_same, He|].
  exists h'. split; [done|]. exact Hr.
Qed.

End silence.

(** ** Events *)

Lemma quoted_nonzero t : Forall JsonProof.is_byte t -> Forall (fun c => c <> 0) (JsonProof.quoted t).
Proof.
  intros Ht. constructor; [done|]. apply Forall_app. split; [|by repeat constructor].
  induction Ht as [|c t Hc Ht IH]; [constructor|]. apply Forall_app. split; [|done]. pattern c. apply JsonProof.escaped_cases; [done| |].
  - intros H1 H2 H3. rewrite JsonProof.escape_plain by done. constructor; [lia|constructor].
  - plain_text.
Qed.

Lemma object_nonzero `{Json.FloatOps} ms : Forall member_ok ms ->
  Forall (fun c => c <> 0) (JsonValue.render false 0 (JsonValue.JObj ((fun m => (m.1, JsonValue.JStr m.2)) <$> ms))).
Proof.
  intros Hm. cbn. unfold Json.compose_object. constructor; [done|]. cbn [app]. apply Forall_app. split; [|by repeat constructor].
  induction Hm as [|[n v] ms [Hn Hv] Hm IH]; [constructor|]. cbn [fmap list_fmap map Json.join_members fst snd app].
  apply Forall_app. split; [by apply quoted_nonzero|]. constructor; [done|]. apply Forall_app. split; [by apply quoted_nonzero|].
  apply Forall_app. split; [by destruct ms; repeat constructor|]. exact IH.
Qed.

(** The headers of the event at the client: those of the server, and what the
    server says of its id, its name and its length. *)
Definition client_headers (b : bus) (x : pending) : members :=
  header_members (p_entries x) ++ [(bytes_of "_id", print_int (event_id (p_event x)))] ++
  name_members b (event_id (p_event x)) ++ length_members (body (p_event x)).

Definition client_event (b : bus) (x : pending) : EslEv.esl_event :=
  EslEv.Event 0 0 None (hdr <$> client_headers b x) (body (p_event x)) 0 0 0 0.

(** What the client keeps as it is: names without a bracket, which are not those
    it treats itself, values that are neither empty nor lists; a body that is
    no format. *)
Definition kept_header (m : cstr * cstr) : Prop :=
  plain_name m.1 /\ plain_value m.2 /\ same_nocase m.1 (bytes_of "_body") = false /\ same_nocase m.1 (bytes_of "event-name") = false.

Record crosses (b : bus) (x : pending) : Prop := Crosses {
  cr_ok : pending_ok b x;
  cr_headers : Forall kept_header (client_headers b x);
  cr_body : Forall (fun c => c <> 37) (default [] (body (p_event x))) }.

Section events.
Context `{JsonValue.FloatLaws} (junk : nat -> Z) (vasprintf : cstr -> option cstr).
(** A format without conversions is its own result. *)
Context (vasprintf_plain : forall t, Forall (fun c => c <> 37) t -> vasprintf t = Some t).

Lemma create_members_kept ms rest : Forall kept_header ms -> forall e, EslEv.flag (EslEv.flags e) EslEv.ESL_EF_UNIQ_HEADERS = false ->
  EslWire.create_members vasprintf e ((item_of <$> ms) ++ rest) =
  EslWire.create_members vasprintf (EslEv.with_headers (EslEv.headers e ++ (hdr <$> ms)) e) rest.
Proof.
  induction 1 as [|[n v] ms (Hn & Hv & Hb & He) Hms IH]; intros e Hf.
  { cbn. rewrite app_nil_r. by destruct e. }
  cbn [fmap list_fmap app EslWire.create_members EslWire.create_member item_of Json.set_string Json.string Json.valuestring Json.string_item fst snd] in *.
  unfold EslWire.create_member. cbn [Json.set_string Json.string Json.valuestring Json.string_item]. rewrite Hb, He. cbn [rbind].
  rewrite add_bottom by done. cbn [rbind]. rewrite IH by done. cbn [EslEv.with_headers EslEv.headers]. by rewrite <- app_assoc.
Qed.

Lemma create_pending b x : crosses b x -> EslWire.esl_event_create_json vasprintf (pending_json b x) = Ok (Some (client_event b x)).
Proof.
  intros [Hok Hh Hb]. unfold EslWire.esl_event_create_json, pending_json. rewrite JsonValue.parse_render by (apply valid_members, Hok). cbn [rbind].
  change (EslEv.esl_event_create_subclass EslEv.ESL_EVENT_CLONE None) with (Ok (Some EslEv.zero_event)). cbn [rbind].
  rewrite <- object_of_tree.
  assert (event_members b (p_entries x) (event_id (p_event x)) (body (p_event x)) = client_headers b x ++ body_members (body (p_event x))) as ->.
  { unfold event_members, client_headers. by rewrite <- !app_assoc. }
  change (Json.child (object_of ?ms)) with (item_of <$> ms). rewrite fmap_app, create_members_kept by done. unfold client_event. destruct (body (p_event x)) as [bd|]; [|done].
  cbn [body_members fmap list_fmap EslWire.create_members]. unfold EslWire.create_member. cbn.
  unfold EslWire.esl_event_add_body. cbn in Hb. by rewrite vasprintf_plain.
Qed.

(** The events a client follows. *)
Fixpoint follow (n : nat) (h : EslClient.esl_handle) (ws : list EslClient.wake)
    : result (EslClient.esl_handle * list (option EslEv.esl_event) * list EslClient.wake) :=
  match n with
  | O => Ok (h, [], ws)
  | S n =>
      let! (h, status, _, ws) := EslClient.esl_recv_event junk vasprintf h true false ws in
      if bool_decide (status = EslClient.ESL_SUCCESS) then
        let e := EslClient.last_ievent h in
        let! (h, l, ws) := follow n h ws in Ok (h, e :: l, ws)
      else Ok (h, [], ws)
  end.

Definition event_frames (b : bus) (xs : list pending) : list frame := (fun x => event_lines (pending_json b x)) <$> xs.

Lemma event_lines_ok b x : pending_ok b x -> Z.of_nat (length (pending_json b x)) < 2 ^ 31 -> frame_ok (event_lines (pending_json b x)).
Proof.
  intros Hx Hl. apply (sized_frame_ok (bytes_of "text/event-json") (pending_json b x)); [discriminate|cbn; lia|reflexivity|done|].
  apply object_nonzero, Hx.
Qed.

Lemma event_kept b x h : crosses b x -> Z.of_nat (length (pending_json b x)) < 2 ^ 31 ->
  exists h', EslClient.keep_event vasprintf h (frame_event (event_lines (pending_json b x))) = Ok (h', EslClient.ESL_SUCCESS) /\
    EslClient.last_ievent h' = Some (client_event b x) /\ EslClient.race_event h' = EslClient.race_event h /\
    (forall ws fs, expects h ws fs -> expects h' ws fs).
Proof.
  intros Hx Hl. unfold EslClient.keep_event. rewrite !(get_header_pairs _ (SOCKET_DATA :: decoded (f_lines (event_lines (pending_json b x))))) by done.
  cbn [frame_event EslEv.body received_event f_body event_lines f_lines decoded fmap list_fmap fst snd].
  rewrite (sent_decode (bytes_of "text/event-json")) by (by apply type_plain). compare_names.
  cbn [EslClient.is_text]. compare_names. cbn [andb]. rewrite create_pending by done. cbn [rbind].
  eexists. split; [done|]. split; [done|]. split; [done|]. intros ws fs He. by eapply expects_same, He.
Qed.

Lemma follow_spec b xs fs : Forall (crosses b) xs -> Forall (fun x => Z.of_nat (length (pending_json b x)) < 2 ^ 31) xs -> forall h ws,
  expects h ws (event_frames b xs ++ fs) -> EslClient.race_event h = [] ->
  exists h' ws', follow (length xs) h ws = Ok (h', Some ∘ client_event b <$> xs, ws') /\ expects h' ws' fs.
Proof.
  induction 1 as [|x xs Hx Hxs IH]; intros Hl h ws He Hq; [by exists h, ws|]. apply Forall_cons in Hl as [Hlx Hl]. cbn [length follow].
  destruct (recv_event_kept junk vasprintf h ws _ _ He Hq) as (b1 & ws1 & -> & He1).
  destruct (event_kept b x (EslClient.with_buf (Some b1) (EslClient.with_ievent None h)) Hx Hlx) as (h2 & -> & Hie & Hq2 & Hex).
  cbn [rbind]. rewrite bool_decide_true by done. destruct (IH Hl h2 ws1 (Hex _ _ He1)) as (h3 & ws3 & -> & He3); [by rewrite Hq2|].
  cbn [rbind]. exists h3, ws3. by rewrite Hie.
Qed.

Lemma frames_lines b xs : Forall (fun x => Z.of_nat (length (pending_json b x)) < 2 ^ 31) xs ->
  frames b xs = concat (frame_text <$> event_frames b xs).
Proof.
  induction 1 as [|x xs Hx Hxs IH]; [done|].
  change (frames b (x :: xs)) with (event_frame (pending_json b x) ++ frames b xs). by rewrite IH, event_frame_text.
Qed.

Lemma frames_bound b xs n : (length (frames b xs) < n)%nat -> Forall (fun x => length (pending_json b x) < n)%nat xs.
Proof.
  unfold frames. induction xs as [|x xs IH]; [constructor|]. cbn [fmap list_fmap concat]. rewrite length_app. intros Hl. constructor; [|apply IH; lia].
  unfold event_frame in Hl. rewrite !length_app in Hl. lia.
Qed.

End events.

End EslSession.

Import Ev EvProof Bus EvJson ApiProof Esl EslProof EslMain EslEvProof EslClientProof EslSession.

(** C19: A conversation between the client and the server: the client sends
    [event] commands and an [exit]; the server, which gets these bytes in any
    pieces, answers and says farewell; and when its bytes reach the client, in
    any pieces, every command has returned with the reply to it, the client has
    sent exactly the requests the server was given, and its next call finds
    that the connection is over. *)
Theorem esl_conversation `{Json.FloatOps} hf junk run_func APIS b c cmds x input fuel cjunk vasprintf h :
  quiet c -> store_ok (mem b) -> is_running c = true -> has_sock c = true -> sent c = [] ->
  Forall (command_ok hf) (client_command <$> cmds ++ [x]) -> Forall keeps_open cmds -> says_exit x = true ->
  transcript (client_command <$> cmds ++ [x]) input -> (S (length cmds) < fuel)%nat -> connected_handle h ->
  exists m c', connection_run hf junk run_func APIS fuel b c input [] = Ok (with_mem m b, c', []) /\
    forall ws, Forall wake_ok ws -> stream ws = sent c' -> Z.of_nat (length (sent c')) < EslClient.BUF_START ->
    exists h1 ws1 h2 ws2,
      converse cjunk vasprintf h (cmds ++ [x]) ws =
        Ok (h1, (fun cmd => (EslClient.ESL_SUCCESS, Some (frame_event (reply_line (reply_of b cmd))))) <$> cmds ++ [x], ws1) /\
      EslClient.sent h1 = EslClient.sent h ++ concat (request_text ∘ client_command <$> cmds ++ [x]) /\
      EslClient.esl_recv_event cjunk vasprintf h1 true false ws1 = Ok (h2, EslClient.ESL_FAIL, None, ws2) /\ EslClient.connected h2 = false.
Proof.
  intros Hq Hok Hr Hs Hse Hcs Hk Hx Ht Hf Hh. destruct (answered_all b cmds x Hk Hx c Hr) as (Hr' & Hs' & Hse').
  destruct (connection_run_spec hf junk run_func APIS _ b c input [] fuel Hq Hok Hcs Ht Hr') as (m & -> & _);
    [rewrite length_fmap, length_app; cbn; lia|].
  exists m. eexists. split; [done|]. fold farewell. rewrite notice_text by (done || by rewrite Hs'). cbn [send sent].
  rewrite Hse', Hse, app_nil_l. intros ws Hw Hst Hl.
  assert (expects h ws (replies b (cmds ++ [x]) ++ [notice_lines farewell])) as He.
  { apply expects_new; [done|]. split; [|done| |by rewrite Hst].
    - apply Forall_app. split; [apply replies_ok|]. apply Forall_cons. split; [exact farewell_ok|constructor].
    - rewrite Hst, fmap_app, concat_app. cbn [fmap list_fmap concat]. by rewrite app_nil_r. }
  destruct (converse_spec cjunk vasprintf b (cmds ++ [x]) [notice_lines farewell]) with (h := h) (ws := ws) as (h1 & ws1 & Hc & He1 & Hq1 & Hse1); try done.
  { rewrite Forall_fmap in Hcs. eapply Forall_impl; [exact Hcs|]. intros cmd [[]]. done. }
  { apply Hh. }
  destruct (recv_event_kept cjunk vasprintf h1 ws1 _ _ He1 Hq1) as (b2 & ws2 & Hr2 & _).
  destruct (farewell_kept vasprintf (EslClient.with_buf (Some b2) (EslClient.with_ievent None h1))) as (h2 & E & Hc2 & _).
  rewrite E in Hr2. exists h1, ws1, h2, ws2. split_and!; [exact Hc|exact Hse1|exact Hr2|exact Hc2].
Qed.


(** C24: The server does not answer [filter], [sendevent], [sendmsg] and
    [connect] of the client's library and [log], [nolog], [noevents] and
    [nixevent] of the console: it reads the command, which arrives in any
    pieces, and until the connection ends it sends nothing, and then only its
    farewell.  The client that has sent this command and gets these bytes, in any
    pieces, has no reply: the farewell is queued as an event, and the call
    fails when the connection ends. *)
Theorem esl_silent_commands `{Json.FloatOps} hf junk run_func APIS b c t cmd input rest fuel cjunk vasprintf cfuel h :
  cmd ∈ other_commands t -> command_ok hf (client_command cmd) ->
  quiet c -> store_ok (mem b) -> is_running c = true -> has_sock c = true -> sent c = [] ->
  arrives (request_text (client_command cmd)) input rest -> ends rest -> (1 < fuel)%nat ->
  connected_handle h -> (1 < cfuel)%nat ->
  exists m c', connection_run hf junk run_func APIS fuel b c input [] = Ok (with_mem m b, c', []) /\
    sent c' = frame_text (notice_lines farewell) /\
    forall ws, Forall wake_ok ws -> stream ws = sent c' ->
    exists h', EslClient.esl_send_recv cjunk vasprintf cfuel h cmd true true ws = Ok (h', EslClient.ESL_FAIL, []) /\
      EslClient.sent h' = EslClient.sent h ++ request_text (client_command cmd) /\ EslClient.connected h' = false /\
      EslClient.last_sr_event h' = None /\ EslClient.race_event h' = [frame_event (notice_lines farewell)].
Proof.
  intros Hin Hco Hq Hok Hr Hs Hse Ha Hend Hf Hh Hcf. destruct fuel as [|[|fuel]]; [lia..|].
  destruct (connection_run_read hf junk run_func APIS (S fuel) b c (client_command cmd) [] input rest None rest [] Hr Hq Hok Hco) as (m & -> & _);
    [constructor|done|constructor|]. rewrite (proj1 (Forall_forall _ _) (other_silent b c t) cmd Hin).
  rewrite connection_run_ends by done. eexists m, _. split; [done|]. fold farewell. rewrite notice_text by (done || by rewrite Hs).
  split; [cbn [send sent]; by rewrite Hse|]. cbn [send sent]. rewrite Hse, app_nil_l. intros ws Hw Hst.
  destruct Hco as [[_ Hpl Hne _ _] _ _ _]. cbn in Hpl, Hne.
  destruct (send_recv_silent cjunk vasprintf [notice_lines farewell] cfuel h cmd ws) as (h' & Hsr & Hc & Hl & Hra & Hsent).
  - apply expects_new; [done|]. split; [|done|by rewrite Hst; cbn; rewrite app_nil_r|by rewrite Hst].
    apply Forall_cons. split; [exact farewell_ok|constructor].
  - cbn. lia.
  - by constructor.
  - done.
  - by apply plain_sendable.
  - exists h'. rewrite client_sends in Hsent by done. split_and!; try done. by rewrite Hra, (ch_race _ Hh).
Qed.

(** The connection of a client that has subscribed, and the bytes in pieces. *)
Definition session_cmd : cstr := bytes_of "event json all".
Definition session_exit : cstr := bytes_of "exit".

Lemma session_command hf cmd : (1 < hf)%nat -> plain cmd -> cmd <> [] -> Z.of_nat (length cmd) < 100 -> has_prefix (bytes_of "api ") cmd = false ->
  command_ok hf (client_command cmd).
Proof.
  intros Hf Hp Hn Hl Ha. split; [split; [by left|done|done|constructor|]|repeat constructor|cbn; lia|done].
  unfold request_text, client_command, EslProof.head_text. cbn [r_eol r_cmd r_headers]. rewrite !length_app. cbn. unfold EVTSKT_MAX_LEN. lia.
Qed.

Lemma esl_silent_commands_witness :
  exists m c', @connection_run exact_floats 9 (fun _ => 0) (fun _ _ st => Ok (st, AGC_STATUS_SUCCESS)) [] 2 demo_bus demo_conn
      ((Data <$> request_text (client_command (bytes_of "filter a b"))) ++ [Again; Broken]) [] = Ok (with_mem m demo_bus, c', []) /\
    sent c' = frame_text (notice_lines farewell) /\
    forall ws, Forall wake_ok ws -> stream ws = sent c' ->
    exists h', @EslClient.esl_send_recv exact_floats (fun _ => 0) (fun _ => None) 2 demo_handle (bytes_of "filter a b") true true ws = Ok (h', EslClient.ESL_FAIL, []) /\
      EslClient.sent h' = request_text (client_command (bytes_of "filter a b")) /\ EslClient.connected h' = false /\
      EslClient.last_sr_event h' = None /\ EslClient.race_event h' = [frame_event (notice_lines farewell)].
Proof.
  apply (@esl_silent_commands exact_floats 9 (fun _ => 0) (fun _ _ st => Ok (st, AGC_STATUS_SUCCESS)) [] demo_bus demo_conn (bytes_of "a b") (bytes_of "filter a b")
    ((Data <$> request_text (client_command (bytes_of "filter a b"))) ++ [Again; Broken]) [Again; Broken] 2 (fun _ => 0) (fun _ => None) 2 demo_handle).
  - left.
  - apply session_command; first [lia|discriminate|reflexivity|demo_plain].
  - exact demo_quiet.
  - exact demo_store_ok.
  - reflexivity.
  - reflexivity.
  - reflexivity.
  - apply arrives_whole.
  - repeat constructor.
  - lia.
  - exact demo_handle_ok.
  - lia.
Defined.

Lemma esl_conversation_witness :
  exists m c', @connection_run exact_floats 9 (fun _ => 0) (fun _ _ st => Ok (st, AGC_STATUS_SUCCESS)) [] 3 demo_bus demo_conn
      ((Data <$> request_text (client_command session_cmd)) ++ (Data <$> request_text (client_command session_exit)) ++ []) [] =
      Ok (with_mem m demo_bus, c', []) /\
    (forall ws, Forall wake_ok ws -> stream ws = sent c' -> Z.of_nat (length (sent c')) < EslClient.BUF_START ->
     exists h1 ws1 h2 ws2,
      @converse exact_floats (fun _ => 0) (fun _ => None) demo_handle [session_cmd; session_exit] ws =
        Ok (h1, [(EslClient.ESL_SUCCESS, Some (frame_event (reply_line (bytes_of "+OK"))));
                 (EslClient.ESL_SUCCESS, Some (frame_event (reply_line (bytes_of "+OK bye"))))], ws1) /\
      @EslClient.esl_recv_event exact_floats (fun _ => 0) (fun _ => None) h1 true false ws1 = Ok (h2, EslClient.ESL_FAIL, None, ws2)).
Proof.
  destruct (@esl_conversation exact_floats 9 (fun _ => 0) (fun _ _ st => Ok (st, AGC_STATUS_SUCCESS)) [] demo_bus demo_conn [session_cmd] session_exit
    ((Data <$> request_text (client_command session_cmd)) ++ (Data <$> request_text (client_command session_exit)) ++ []) 3
    (fun _ => 0) (fun _ => None) demo_handle) as (m & c' & E & Hc).
  - exact demo_quiet.
  - exact demo_store_ok.
  - reflexivity.
  - reflexivity.
  - reflexivity.
  - apply Forall_cons. split; [|apply Forall_cons; split; [|constructor]]; apply session_command; first [lia|discriminate|reflexivity|demo_plain].
  - apply Forall_cons. split; [split; reflexivity|constructor].
  - reflexivity.
  - apply (transcript_cons [] (client_command session_cmd) [client_command session_exit] None _
      ((Data <$> request_text (client_command session_exit)) ++ []) ((Data <$> request_text (client_command session_exit)) ++ []));
      [constructor|apply arrives_whole|constructor|].
    apply (transcript_cons [] (client_command session_exit) [] None _ [] []); [constructor|apply arrives_whole|constructor|constructor].
  - cbn. lia.
  - exact demo_handle_ok.
  - exists m, c'. split; [exact E|]. intros ws Hw Hs Hl. destruct (Hc ws Hw Hs Hl) as (h1 & ws1 & h2 & ws2 & H1 & _ & H2 & _).
    exists h1, ws1, h2, ws2. split; [|exact H2]. rewrite <- (take_drop 1 [session_cmd; session_exit]). exact H1.
Defined.

Definition session_pending : pending := Pending 1 demo_entries demo_event.

Lemma session_crosses : @crosses demo_bus session_pending.
Proof.
  split.
  - split; [discriminate|reflexivity|exact demo_has_headers|reflexivity|]. apply (bool_decide_unpack _). vm_compute. exact I.
  - assert (client_headers demo_bus session_pending = [([97], [49]); ([98], [50]); (bytes_of "_id", [55]); (bytes_of "_length", [50])]) as -> by (vm_compute; reflexivity).
    repeat (apply Forall_cons; split; [split; [split; [demo_plain|discriminate]|split; [split; [discriminate|reflexivity]|split; reflexivity]]|]).
    constructor.
  - demo_plain.
Qed.

