(* ===== verification/EslEventType.v ===== *)
(** * Events of the console client stay well formed

    Every operation on an event of [esl_event.c] keeps it well formed: the
    hash of each header is that of its name, which holds no bracket, each
    header has a value, and names, values, elements of arrays and the body are
    texts.  So a lookup never misses a header because of its hash, and a reader
    of a header finds a text.  An operation either gives such an event or stops
    at the assertion on the number of headers. *)

From stdpp Require Import base list strings.
From Stdlib Require Import ZArith Lia.
From S2P Require Import Prelude CString Api EslText EslEvent EslEventProof.

Module EslEvType.
Import EslText EslEv EslEvProof.

Definition text (s : cstr) : Prop := Forall (fun c => c <> 0) s.

Record header_wf (hp : esl_event_header) : Prop := HeaderWf {
  hw_hash : hashed hp;
  hw_name : Forall (fun c => c <> 91) (h_name hp);
  hw_text : text (h_name hp);
  hw_value : exists v, h_value hp = Some v /\ text v;
  hw_array : texts (h_array hp) }.

Record event_wf (e : esl_event) : Prop := EventWf {
  ew_headers : Forall header_wf (headers e);
  ew_body : from_option text True (body e) }.

(** An operation that gives a well-formed event or stops at the assertion. *)
Definition good (r : result esl_event) : Prop :=
  match r with Ok e => event_wf e | Fault f => f = Assertion | OutOfFuel => False end.

Lemma good_bind r k : good r -> (forall e, event_wf e -> good (k e)) -> good (rbind r k).
Proof. destruct r; cbn; auto. Qed.

Lemma wf_headers e hs : event_wf e -> Forall header_wf hs -> event_wf (with_headers hs e).
Proof. intros [_ Hb] Hh. by split. Qed.

Lemma del_good e n v : event_wf e -> good (esl_event_del_header_val e n v).
Proof.
  intros He. unfold esl_event_del_header_val. case_match; [done|]. apply wf_headers; [done|]. apply Forall_forall. intros hp Hp. apply list_elem_of_filter in Hp as [_ Hp].
  by apply (proj1 (Forall_forall _ _) (ew_headers _ He)).
Qed.

(** ** Values *)

Lemma joined_text l : texts l -> text (joined l).
Proof.
  intros Hl. destruct Hl as [|a l Ha Hl]; [constructor|]. apply Forall_app. split; [done|].
  induction Hl as [|x l Hx Hl IH]; [constructor|]. cbn. repeat (constructor; [done|]). by apply Forall_app.
Qed.

Lemma array_text l : texts l -> text ((if (1 <? length l)%nat then ARRAY else []) ++ joined l).
Proof.
  intros Hl. apply Forall_app. split; [|by apply joined_text]. destruct (1 <? length l)%nat; [repeat (constructor; [done|])|]; constructor.
Qed.

(** A header whose array has become [l]. *)
Lemma redraw_wf n v l hs : Forall (fun c => c <> 91) n -> text n -> texts l -> l <> [] ->
  exists hp, redraw (Header n v l hs) = Ok hp /\ h_name hp = n /\ h_hash hp = hs /\ header_wf (Header n (h_value hp) (h_array hp) (esl_ci_hashfunc_default n)).
Proof.
  intros Hn Hz Hl Hne. eexists. split; [by apply redraw_spec|]. split_and!; try done. split; try done. eexists. split; [done|]. by apply array_text.
Qed.

Lemma push_wf stack n v l hs data : Forall (fun c => c <> 91) n -> text n -> from_option text True v -> texts l -> text data ->
  exists hp, push_value stack (Header n v l hs) data = Ok hp /\ h_name hp = n /\ h_hash hp = hs /\
    header_wf (Header n (h_value hp) (h_array hp) (esl_ci_hashfunc_default n)).
Proof.
  intros Hn Hz Hv Hl Hd. unfold push_value. cbn [h_name h_value h_array h_hash].
  set (arr := match v with Some v0 => match l with [] => [v0] | l0 :: l1 => l0 :: l1 end | None => l end).
  assert (texts arr) as Ha by (unfold arr; destruct v, l; try done; by repeat constructor). clearbody arr.
  apply redraw_wf; try done; destruct (flag stack ESL_STACK_PUSH).
  - apply Forall_app. split; [done|by repeat constructor].
  - by constructor.
  - by destruct arr.
  - done.
Qed.

Lemma link_good stack hp e : event_wf e -> header_wf (Header (h_name hp) (h_value hp) (h_array hp) (esl_ci_hashfunc_default (h_name hp))) ->
  event_wf (link_header stack hp e).
Proof.
  intros He Hh. apply wf_headers; [done|]. destruct (flag stack ESL_STACK_TOP); [constructor; [done|apply He]|].
  apply Forall_app. split; [apply He|by apply Forall_singleton].
Qed.

Lemma insert_good e i hp : event_wf e -> header_wf hp -> event_wf (with_headers (<[i := hp]> (headers e)) e).
Proof. intros He Hh. apply wf_headers; [done|]. apply Forall_insert; [apply He|done]. Qed.

Lemma header_eta hp : hashed hp -> hp = Header (h_name hp) (h_value hp) (h_array hp) (esl_ci_hashfunc_default (h_name hp)).
Proof. unfold hashed. intros <-. by destruct hp. Qed.

(** ** Adding *)

Lemma existing_good e i hp stack data : event_wf e -> headers e !! i = Some hp -> text data -> good (add_to_existing e i hp stack data).
Proof.
  intros He Hi Hd. pose proof (Forall_lookup_1 _ _ _ _ (ew_headers _ He) Hi) as [Hh Hn Hz (v & Hv & Hvt) Ha].
  unfold add_to_existing. destruct (_ || _); cbn [rbind].
  - destruct hp as [n v' l hs]. cbn in *. subst v'. destruct (push_wf (Z.ldiff stack (Z.lor ESL_STACK_TOP ESL_STACK_BOTTOM)) n (Some v) l hs data) as (hp' & -> & <- & <- & Hw); try done.
    cbn [rbind good]. apply insert_good; [done|]. rewrite (header_eta hp'); [done|]. exact Hh.
  - apply insert_good; [done|]. split; try done. by exists data.
Qed.

Lemma bracket_name n : text n -> Forall (fun c => c <> 91) (fst (array_index n)) /\ text (fst (array_index n)).
Proof.
  intros Hn. unfold array_index. assert (Forall (fun c => c <> 91) (Api.strchr 91 n).1 /\ text (Api.strchr 91 n).1) as H.
  { induction Hn as [|c n Hc Hn IH]; [split; constructor|]. cbn. destruct (Z.eqb_spec c 91); [split; constructor|].
    destruct (Api.strchr 91 n) as [w r]. cbn in *. destruct IH. split; by constructor. }
  by destruct (Api.strchr 91 n) as [w [r|]].
Qed.

Lemma texts_gap l n d : texts l -> text d -> texts (l ++ replicate n [] ++ [d]).
Proof. intros Hl Hd. apply Forall_app. split; [done|]. apply Forall_app. split; [by apply Forall_replicate|by repeat constructor]. Qed.

Lemma gap_some (l m : list cstr) d : l ++ m ++ [d] <> [].
Proof. by destruct l, m. Qed.

(** An element of a header that exists, *)
Lemma set_existing e i hp n data : event_wf e -> headers e !! i = Some hp -> text data ->
  good (if (n <? length (h_array hp))%nat
        then Ok (with_headers (<[i := Header (h_name hp) (h_value hp) (<[n := data]> (h_array hp)) (h_hash hp)]> (headers e)) e)
        else let! hp := redraw (Header (h_name hp) (h_value hp) (h_array hp ++ replicate (n - length (h_array hp)) [] ++ [data]) (h_hash hp)) in
             Ok (with_headers (<[i := hp]> (headers e)) e)).
Proof.
  intros He Hi Hd. pose proof (Forall_lookup_1 _ _ _ _ (ew_headers _ He) Hi) as [Hh Hn Hz (v & Hv & Hvt) Ha].
  destruct (n <? length (h_array hp))%nat.
  - apply insert_good; [done|]. split; try done; [by exists v|]. by apply Forall_insert.
  - destruct (redraw_wf (h_name hp) (h_value hp) (h_array hp ++ replicate (n - length (h_array hp)) [] ++ [data]) (h_hash hp))
      as (hp' & -> & Hn' & Hh' & Hw); try done; [by apply texts_gap|apply gap_some|].
    cbn [rbind good]. apply insert_good; [done|]. rewrite <- Hn' in Hw. rewrite (header_eta hp'); [done|]. unfold hashed. by rewrite Hh', Hn'.
Qed.

(** and of a new one. *)
Lemma set_index_good e stack nm index data : event_wf e -> Forall (fun c => c <> 91) nm -> text nm -> text data -> good (set_index e stack nm index data).
Proof.
  intros He Hn Hz Hd. unfold set_index. destruct (get_header_ptr nm (headers e)) as [i|].
  - cbn [rbind]. destruct (_ && _); [|done]. destruct (headers e !! i) as [hp|] eqn:Hi; cbn [default].
    + exact (set_existing e i hp (Z.to_nat index) data He Hi Hd).
    + assert (forall hp, <[i := hp]> (headers e) = headers e) as Hins by (intros; by apply list_insert_ge, lookup_ge_None).
      unfold default, new_header. cbn [h_array h_name h_value h_hash length Nat.ltb]. cbv zeta.
      destruct (redraw_wf nm None ([] ++ replicate (Z.to_nat index - 0) [] ++ [data]) 0) as (hp' & -> & _ & _ & _); try done;
        [by apply (texts_gap []); [constructor|]|apply gap_some|]. cbn [rbind good]. apply wf_headers; [exact He|]. rewrite Hins. exact (ew_headers _ He).
  - apply good_bind; [case_match; [by apply del_good|done]|]. intros e' He'. destruct (_ && _); [|done].
    unfold new_header. cbn [h_array h_name h_value h_hash length Nat.ltb]. cbv zeta.
    destruct (redraw_wf nm None ([] ++ replicate (Z.to_nat index - 0) [] ++ [data]) 0) as (hp' & -> & <- & _ & Hw); try done;
      [by apply (texts_gap []); [constructor|]|apply gap_some|]. cbn [rbind good]. by apply link_good.
Qed.

Lemma separate_texts n s d : text s -> texts (separate_loop n s d).
Proof.
  revert s. induction n as [|n IH]; intros s Hs; cbn [separate_loop]; [by repeat constructor|].
  destruct (strstr s d) as [[a b]|] eqn:E; [|by repeat constructor]. apply strstr_inv in E. subst s.
  apply Forall_app in Hs as [Ha Hs]. apply Forall_app in Hs as [_ Hb]. constructor; [done|by apply IH].
Qed.

Lemma pieces_good (P : cstr -> Prop) add : (forall e a, event_wf e -> P a -> good (add e a)) -> forall l e, event_wf e -> Forall P l -> good (add_pieces add e l).
Proof.
  intros Hadd. induction l as [|a l IH]; intros e He Hl; [done|]. apply Forall_cons in Hl as [Ha Hl]. cbn [add_pieces].
  apply good_bind; [by apply Hadd|]. intros e' He'. by apply IH.
Qed.

Lemma pieces_ok d fuel : text d -> (8 <= length d < S fuel)%nat -> Forall (fun a => text a /\ (length a < fuel)%nat) (array_pieces d).
Proof.
  intros Hd Hl. apply Forall_and. split; [by apply separate_texts, Forall_drop|].
  eapply Forall_impl; [apply separate_short; done|]. cbn. rewrite length_drop. lia.
Qed.

Lemma base_add_good fuel : forall e s n d, (length d < fuel)%nat -> event_wf e -> text n -> text d -> good (esl_event_base_add_header fuel e s n d).
Proof.
  induction fuel as [|fuel IH]; intros e s n d Hf He Hn Hd; [lia|]. cbn [esl_event_base_add_header].
  pose proof (bracket_name n Hn) as [Hb Hz]. destruct (array_index n) as [nm ix]. cbn [fst] in *.
  set (e1 := if bool_decide (n = bytes_of "_body") then esl_event_set_body e (Some d) else e).
  assert (event_wf e1) as He1 by (unfold e1; case_match; [split; [apply He|done]|done]). clearbody e1.
  destruct ix as [i|]; [by apply set_index_good|].
  destruct (if flag s ESL_STACK_PUSH || flag s ESL_STACK_UNSHIFT then get_header_ptr nm (headers e1) else None) as [i|] eqn:Hp.
  - destruct (headers e1 !! i) as [hp|] eqn:Hi; [by apply existing_good|]. exfalso. destruct (_ || _); [|done]. clear -Hp Hi.
    revert i Hp Hi. induction (headers e1) as [|hp l IH]; intros i; [done|]. cbn [get_header_ptr]. destruct (is_header nm hp); [by intros [= <-]|].
    destruct (get_header_ptr nm l) as [j|]; [|done]. cbn. intros [= <-]. by apply IH.
  - destruct (length d =? 0)%nat; [by apply del_good|]. apply good_bind; [destruct (flag (flags e1) _); [by apply del_good|done]|]. intros e' He'.
    destruct (strstr d ARRAY).
    + destruct (length d <? 8)%nat eqn:E8; [done|]. apply Nat.ltb_ge in E8.
      apply (pieces_good (fun a => text a /\ (length a < fuel)%nat)); [intros e2 a He2 [Ha Hla]; by apply IH|done|by apply pieces_ok].
    + destruct (_ || _); cbn [rbind].
      * unfold new_header. destruct (push_wf s nm None [] 0 d) as (hp & -> & <- & _ & Hw); [done|done|done|constructor|done|]. cbn [rbind good]. by apply link_good.
      * apply link_good; [done|]. split; try done; [by exists d|constructor].
Qed.

Lemma add_good e s n d : event_wf e -> text n -> text d -> good (esl_event_add_header_string e s n d).
Proof. apply base_add_good. lia. Qed.

Lemma add_array_good e n d : event_wf e -> text n -> text d -> good (esl_event_add_array e n d).
Proof.
  intros He Hn Hd. unfold esl_event_add_array. destruct (length d <? 8)%nat; [done|].
  apply (pieces_good text); [intros; by apply add_good|done|]. by apply separate_texts, Forall_drop.
Qed.

Lemma merge_good l : forall e, event_wf e -> Forall header_wf l -> good (merge_headers e l).
Proof.
  induction l as [|hp l IH]; intros e He Hl; [done|]. apply Forall_cons in Hl as [[_ _ Hz (v & Hv & Hvt) Ha] Hl]. cbn [merge_headers].
  apply good_bind; [|intros; by apply IH]. unfold merge_header. destruct (h_array hp); [rewrite Hv; by apply add_good|].
  apply (pieces_good text); [intros; by apply add_good|done|done].
Qed.

Lemma priority_good e p : event_wf e -> good (esl_event_set_priority e p).
Proof.
  intros He. apply add_good; [by split; apply He|by repeat constructor|]. unfold esl_priority_name. repeat case_match; by repeat constructor.
Qed.

(** ** Sequences of operations *)

Inductive op :=
  | OAdd (stack : Z) (name data : cstr)
  | OAddArray (var val : cstr)
  | ODel (name : cstr) (val : option cstr)
  | OSetPriority (p : Z)
  | OSetBody (b : option cstr)
  | OMerge (tomerge : esl_event).

Definition apply_op (e : esl_event) (o : op) : result esl_event :=
  match o with
  | OAdd stack n d => esl_event_add_header_string e stack n d
  | OAddArray n v => esl_event_add_array e n v
  | ODel n v => esl_event_del_header_val e n v
  | OSetPriority p => esl_event_set_priority e p
  | OSetBody b => Ok (esl_event_set_body e b)
  | OMerge t => esl_event_merge e t
  end.

Fixpoint apply_ops (e : esl_event) (os : list op) : result esl_event :=
  match os with
  | [] => Ok e
  | o :: os => let! e := apply_op e o in apply_ops e os
  end.

(** The arguments are texts, and events that are merged are well formed. *)
Definition op_ok (o : op) : Prop :=
  match o with
  | OAdd _ n d => text n /\ text d
  | OAddArray n v => text n /\ text v
  | ODel _ _ | OSetPriority _ => True
  | OSetBody b => from_option text True b
  | OMerge t => event_wf t
  end.

Lemma op_good e o : event_wf e -> op_ok o -> good (apply_op e o).
Proof.
  intros He Ho. destruct o as [s n d|n v|n v|p|b|t]; cbn [apply_op op_ok] in *.
  - destruct Ho. by apply add_good.
  - destruct Ho. by apply add_array_good.
  - by apply del_good.
  - by apply priority_good.
  - split; [apply He|done].
  - apply merge_good; [done|apply Ho].
Qed.

Lemma ops_good os : forall e, event_wf e -> Forall op_ok os -> good (apply_ops e os).
Proof.
  induction os as [|o os IH]; intros e He Hos; [done|]. apply Forall_cons in Hos as [Ho Hos]. cbn [apply_ops].
  apply good_bind; [by apply op_good|]. intros e' He'. by apply IH.
Qed.

#[global] Instance text_dec s : Decision (text s).
Proof. unfold text. apply _. Defined.

Lemma name_text i n : esl_event_name i = Ok n -> text n.
Proof.
  unfold esl_event_name. assert (Forall text EVENT_NAMES) as Hn by (apply (bool_decide_unpack _); vm_compute; exact I).
  destruct (i <? 0); [done|]. destruct (EVENT_NAMES !! Z.to_nat i) as [m|] eqn:E; [|done]. intros [= <-].
  by apply (Forall_lookup_1 _ _ _ _ Hn E).
Qed.

Lemma zero_wf i : event_wf (with_id i zero_event).
Proof. split; [constructor|done]. Qed.

Lemma create_wf id sub e : from_option text True sub -> esl_event_create_subclass id sub = Ok (Some e) -> event_wf e.
Proof.
  intros Hs. assert (forall r, good r -> forall k (e : esl_event), (let! e := r in k e) = Ok (Some e) -> (forall x, event_wf x -> k x = Ok (Some e) -> event_wf e) -> event_wf e) as Hb.
  { intros r Hr k e0 E Hk. destruct r as [x|f|]; cbn in E; try done. by apply (Hk x). }
  assert (forall i n, esl_event_name i = Ok n -> good (esl_event_add_header_string (with_id i zero_event) ESL_STACK_BOTTOM (bytes_of "Event-Name") n)) as Hname.
  { intros i n En. apply add_good; [apply zero_wf|by repeat constructor|by eapply name_text]. }
  unfold esl_event_create_subclass. destruct sub as [s|].
  - destruct (_ && _); [done|]. intros E. eapply Hb; [|exact E|].
    + destruct (id =? ESL_EVENT_CLONE); [apply (zero_wf 0)|]. destruct (esl_event_name id) as [n| |] eqn:En; cbn [rbind]; [by apply Hname| |].
      * unfold esl_event_name in En. repeat case_match; simplify_eq.
      * unfold esl_event_name in En. repeat case_match; simplify_eq.
    + intros x Hx E'. eapply Hb; [|exact E'|intros y Hy [= <-]; exact Hy].
      apply add_good; [split; apply Hx|by repeat constructor|done].
  - destruct (id =? ESL_EVENT_CLONE); [intros [= <-]; apply (zero_wf 0)|]. destruct (esl_event_name id) as [n| |] eqn:En; cbn [rbind]; try done.
    intros E. eapply Hb; [by apply Hname|exact E|intros y Hy [= <-]; exact Hy].
Qed.

End EslEvType.

Import EslText EslEv EslEvProof EslEvType.

(** C23: Events are well typed: whatever texts are added, pushed, set by index,
    deleted or merged, the headers of an event carry the hash of their name and
    a value, and every name, value, element and body is a text; the only other
    outcome is the assertion on the number of headers. *)
Theorem esl_event_well_formed id sub e os : from_option text True sub -> esl_event_create_subclass id sub = Ok (Some e) ->
  Forall op_ok os -> match apply_ops e os with Ok e' => event_wf e' | Fault f => f = Assertion | OutOfFuel => False end.
Proof. intros Hs He Hos. apply ops_good; [by eapply create_wf|done]. Qed.

Definition demo_ops : list op :=
  [OAdd ESL_STACK_BOTTOM (bytes_of "a") (bytes_of "1"); OAdd ESL_STACK_PUSH (bytes_of "a") (bytes_of "2");
   OAdd ESL_STACK_BOTTOM (bytes_of "l[2]") (bytes_of "x"); OAddArray (bytes_of "k") (bytes_of "ARRAY::p|:q"); ODel (bytes_of "A") None; OSetPriority 2].

Definition demo_created : esl_event := match esl_event_create_subclass 2 None with Ok (Some e) => e | _ => zero_event end.

Lemma esl_event_well_formed_witness :
  exists e', apply_ops demo_created demo_ops = Ok e' /\ event_wf e' /\ length (headers e') = 4%nat.
Proof.
  assert (Forall op_ok demo_ops) as Hos.
  { repeat (apply Forall_cons; split; [cbn [op_ok]; first [exact I|split; (apply (bool_decide_unpack _); vm_compute; exact I)]|]). constructor. }
  pose proof (esl_event_well_formed 2 None demo_created demo_ops I eq_refl Hos) as H.
  destruct (apply_ops demo_created demo_ops) as [e'| |] eqn:E; [|vm_compute in E; discriminate E|destruct H].
  exists e'. split; [reflexivity|]. split; [exact H|]. vm_compute in E. injection E as <-. reflexivity.
Defined.
