(* ===== verification/EslConfig.v ===== *)
(** * Configuration files of the console client

    [src/libs/esl/src/esl_config.c]: a file is read line by line; a line sets
    the section or the category, is skipped, or gives a name and a value.  The
    file is the text that is still to be read; opening a file is a parameter. *)

From stdpp Require Import base list strings.
From Stdlib Require Import ZArith Lia.
From S2P Require Import Prelude CString Api.

Module EslConfig.

(** [esl_config]; [file] is the text not read yet. *)
Record esl_config := Config {
  file : option cstr;
  path : cstr;
  category : cstr;
  section : cstr;
  lineno : Z;
  catno : Z;
  sectno : Z;
  lockto : Z }.

Definition with_file t c := Config t (path c) (category c) (section c) (lineno c) (catno c) (sectno c) (lockto c).
Definition with_category n c := Config (file c) (path c) n (section c) (lineno c) (catno c + 1) (sectno c) (lockto c).
Definition with_section n c := Config (file c) (path c) (category c) n (lineno c) (catno c) (sectno c + 1) (lockto c).
Definition with_lockto v c := Config (file c) (path c) (category c) (section c) (lineno c) (catno c) (sectno c) v.
Definition next_lineno c := Config (file c) (path c) (category c) (section c) (lineno c + 1) (catno c) (sectno c) (lockto c).
Definition new_section c := Config (file c) (path c) (category c) (section c) 0 0 (sectno c) (lockto c).

Definition zero_config : esl_config := Config None [] [] [] 0 0 0 0.

(** [esl_copy_string] into an array of [n] bytes whose last byte is zero. *)
Definition esl_copy_string (s : cstr) (n : nat) : cstr := take (n - 1) s.

Definition BUFLEN : nat := Z.to_nat 1024.

(** [fgets] with room for [n] characters. *)
Fixpoint fgets (n : nat) (s : cstr) : cstr * cstr :=
  match n, s with
  | S n', c :: s' => if c =? 10 then ([c], s') else let (l, r) := fgets n' s' in (c :: l, r)
  | _, _ => ([], s)
  end.

Definition is_blank (c : Z) : bool := (c =? 32) || (c =? 9).

(** The text of a line, and the position of [end] in it: two semicolons end it
    (then [end] is one before them), or else a line feed. *)
Definition newline_end (l : cstr) : cstr * option nat :=
  match Api.strchr 10 l with
  | (t, Some _) =>
      match reverse t with
      | c :: r => if c =? 13 then (reverse r, Some (length r)) else (t, Some (length t))
      | [] => (t, Some (length t))
      end
  | (_, None) => (l, None)
  end.

Definition line_end (l : cstr) : cstr * option nat :=
  match Api.strchr 59 l with
  | (t, Some (c :: _)) => if c =? 59 then (t, Some (length t - 1)%nat) else newline_end l
  | _ => newline_end l
  end.

(** Blanks are skipped from position [i] on, but not past [end]. *)
Fixpoint skip_upto (stop : option nat) (i : nat) (s : cstr) : nat * cstr :=
  match s with
  | c :: s' => if is_blank c && negb (bool_decide (stop = Some i)) then skip_upto stop (S i) s' else (i, s)
  | [] => (i, [])
  end.

(** Blanks at the end of a name are cut; its first character stays. *)
Fixpoint drop_blanks (s : cstr) : cstr :=
  match s with
  | c :: s' => if is_blank c then drop_blanks s' else s
  | [] => []
  end.
Definition trim_name (n : cstr) : cstr :=
  match n with
  | [] => []
  | c :: r => c :: reverse (drop_blanks (reverse r))
  end.

(** A line that is not a section, a category, a comment or the end. *)
Definition split_pair (line : cstr) : cstr * option (cstr * cstr) :=
  let (t, stop) := line_end line in
  let (i, var) := skip_upto stop 0 t in
  match Api.strchr 61 var with
  | (_, None) => (var, None)
  | (n, Some v) =>
      let i := (i + length n + 1)%nat in
      let (i, v) := match v with c :: v' => if c =? 62 then (S i, v') else (i, v) | [] => (i, v) end in
      (trim_name n, Some (trim_name n, snd (skip_upto stop i v)))
  end.

(** What a line is. *)
Inductive line_kind := LSection (name : cstr) | LCategory (name : cstr) | LSkip | LEnd | LText.

Definition has_text (p s : cstr) : bool := bool_decide (take (length p) s = p).

Definition kind_of (l : cstr) : line_kind :=
  match l with
  | [] => LText
  | c :: r =>
      match (if c =? 91 then Api.strchr 93 l else ([], None)) with
      | (_ :: n, Some _) => match n with d :: s => if d =? 43 then LSection s else LCategory n | [] => LCategory [] end
      | _ =>
          if (c =? 35) || (c =? 59) || (c =? 10) || (c =? 13) then LSkip
          else if has_text (bytes_of "__END__") l then LEnd
          else LText
      end
  end.

(** The result: the number returned, [*var] and [*val]. *)
Definition pair_result := (esl_config * Z * option cstr * option cstr)%type.

(** The loop of [esl_config_next_pair]. *)
Fixpoint next_pair_loop (fuel : nat) (cfg : esl_config) (text : cstr) (ret : Z) (var val : option cstr) : result pair_result :=
  match fuel with
  | O => OutOfFuel
  | S fuel' =>
      let cfg := next_lineno cfg in
      match text with
      | [] => Ok (cfg, 0, var, val)
      | _ :: _ =>
          let (line, text) := fgets (BUFLEN - 1) text in
          let line := cstring line in
          let cfg := with_file (Some text) cfg in
          match kind_of line with
          | LSection name =>
              let cfg := with_section (esl_copy_string name 256) cfg in
              if (-1 <? lockto cfg) && negb (sectno cfg =? lockto cfg) then Ok (cfg, ret, Some name, val)
              else Ok (new_section cfg, 1, Some [], Some [])
          | LCategory name => next_pair_loop fuel' (with_category (esl_copy_string name 256) cfg) text ret (Some name) val
          | LSkip => next_pair_loop fuel' cfg text ret (Some line) val
          | LEnd => Ok (cfg, ret, Some line, val)
          | LText =>
              match split_pair line with
              | (var, None) => next_pair_loop fuel' cfg text (-1) (Some var) None
              | (_, Some (var, val)) => Ok (cfg, 1, Some var, Some val)
              end
          end
      end
  end.

Definition esl_config_next_pair (cfg : esl_config) : result pair_result :=
  match file cfg with
  | None => Ok (cfg, 0, None, None)
  | Some text => next_pair_loop (S (length text)) cfg text 0 None None
  end.

Definition esl_config_close_file (cfg : esl_config) : esl_config := zero_config.

Section open.
(** [fopen] for reading, and what is in the file. *)
Context (fopen : cstr -> option cstr).

Definition CONFIG_DIR : cstr := bytes_of "/etc/openesl".

(** The loop that looks for the section with the name of the file. *)
Fixpoint find_section (fuel : nat) (cfg : esl_config) (file_path : cstr) : result (esl_config * bool) :=
  match fuel with
  | O => OutOfFuel
  | S fuel' =>
      let! (cfg, ret, _, _) := esl_config_next_pair cfg in
      if ret =? 0 then Ok (zero_config, false)
      else if bool_decide (section cfg = file_path) && negb (sectno cfg =? -1) then Ok (with_lockto (sectno cfg) cfg, true)
      else find_section fuel' cfg file_path
  end.

Definition esl_config_open_file (file_path : cstr) : result (esl_config * bool) :=
  let absolute := hd 0 file_path =? 47 in
  let path := if absolute then file_path else take (BUFLEN - 1) (CONFIG_DIR ++ [47] ++ file_path) in
  let cfg := with_lockto (-1) zero_config in
  match fopen path with
  | Some text => Ok (Config (Some text) (esl_copy_string path 512) [] [] 0 0 0 (-1), true)
  | None =>
      if absolute then Ok (cfg, false)
      else
        let path := CONFIG_DIR ++ bytes_of "/openesl.conf" in
        match fopen path with
        | None => Ok (cfg, false)
        | Some text => find_section (S (length text)) (Config (Some text) (esl_copy_string path 512) [] [] 0 0 0 (-1)) file_path
        end
  end.

End open.

(** ** Values *)

Definition esl_true (expr : cstr) : bool :=
  same_nocase expr (bytes_of "yes") || same_nocase expr (bytes_of "on") || same_nocase expr (bytes_of "true") ||
  same_nocase expr (bytes_of "enabled") || same_nocase expr (bytes_of "active") || same_nocase expr (bytes_of "allow") ||
  negb (atoi expr =? 0).

Definition esl_false (expr : cstr) : bool :=
  same_nocase expr (bytes_of "no") || same_nocase expr (bytes_of "off") || same_nocase expr (bytes_of "false") ||
  same_nocase expr (bytes_of "disabled") || same_nocase expr (bytes_of "inactive") || same_nocase expr (bytes_of "disallow") ||
  (atoi expr =? 0).

(** The loop over the four digits. *)
Fixpoint cas_loop (bits : cstr) (bit out : Z) : Z * Z :=
  match bits with
  | [] => (0, out)
  | c :: bits' =>
      if c =? 49 then cas_loop bits' (Z.shiftr bit 1) (Z.lor out bit)
      else if c =? 48 then cas_loop bits' (Z.shiftr bit 1) out
      else (-1, out)
  end.

(** The result and [*outbits], if it was set. *)
Definition esl_config_get_cas_bits (strvalue : cstr) : Z * option Z :=
  match Api.strchr 58 strvalue with
  | (_, None) => (-1, None)
  | (_, Some r) =>
      if (length r <? 4)%nat then (-1, Some 0)
      else let (ret, out) := cas_loop (take 4 r) 8 0 in (ret, Some out)
  end.

End EslConfig.
