(* ===== verification/AgcCli.v ===== *)
(** * The console

    [src/libs/esl/agc_cli.c], as it is built without a line editor: profiles
    from the configuration file, the options of the command line, connecting,
    commands typed at the console, the thread that shows what arrives, and the
    main loop.  [out] is what has been printed; lines of the client library's
    log are not modelled.  The options are those [getopt_long] reports; the
    input is what [getchar] gives until it ends. *)

From stdpp Require Import base list strings.
From Stdlib Require Import ZArith Lia.
From S2P Require Import Prelude CString Json Api EventSocket EslText EslEvent EslWire EslClient EslConfig.

Module AgcCli.
Import EslEv EslWire EslClient EslConfig.

Definition CMD_BUFLEN : nat := Z.to_nat 1024.

(** ** Profiles *)

(** [cli_profile_t] *)
Record cli_profile := Profile {
  p_name : cstr;
  p_host : cstr;
  p_port : Z;
  p_user : cstr;
  p_pass : cstr;
  p_debug : Z;
  p_fnkeys : list (option cstr);
  p_toggle : list (option cstr);
  p_loglevel : cstr;
  p_log_uuid : bool;
  p_log_uuid_length : Z;
  p_quiet : bool;
  p_use_history : bool;
  p_batch : bool;
  p_prompt_color : cstr;
  p_input_color : cstr;
  p_output_color : cstr }.

Definition with_host v p := Profile (p_name p) v (p_port p) (p_user p) (p_pass p) (p_debug p) (p_fnkeys p) (p_toggle p) (p_loglevel p) (p_log_uuid p) (p_log_uuid_length p) (p_quiet p) (p_use_history p) (p_batch p) (p_prompt_color p) (p_input_color p) (p_output_color p).
Definition with_port v p := Profile (p_name p) (p_host p) v (p_user p) (p_pass p) (p_debug p) (p_fnkeys p) (p_toggle p) (p_loglevel p) (p_log_uuid p) (p_log_uuid_length p) (p_quiet p) (p_use_history p) (p_batch p) (p_prompt_color p) (p_input_color p) (p_output_color p).
Definition with_user v p := Profile (p_name p) (p_host p) (p_port p) v (p_pass p) (p_debug p) (p_fnkeys p) (p_toggle p) (p_loglevel p) (p_log_uuid p) (p_log_uuid_length p) (p_quiet p) (p_use_history p) (p_batch p) (p_prompt_color p) (p_input_color p) (p_output_color p).
Definition with_pass v p := Profile (p_name p) (p_host p) (p_port p) (p_user p) v (p_debug p) (p_fnkeys p) (p_toggle p) (p_loglevel p) (p_log_uuid p) (p_log_uuid_length p) (p_quiet p) (p_use_history p) (p_batch p) (p_prompt_color p) (p_input_color p) (p_output_color p).
Definition with_debug v p := Profile (p_name p) (p_host p) (p_port p) (p_user p) (p_pass p) v (p_fnkeys p) (p_toggle p) (p_loglevel p) (p_log_uuid p) (p_log_uuid_length p) (p_quiet p) (p_use_history p) (p_batch p) (p_prompt_color p) (p_input_color p) (p_output_color p).
Definition with_fnkeys v p := Profile (p_name p) (p_host p) (p_port p) (p_user p) (p_pass p) (p_debug p) v (p_toggle p) (p_loglevel p) (p_log_uuid p) (p_log_uuid_length p) (p_quiet p) (p_use_history p) (p_batch p) (p_prompt_color p) (p_input_color p) (p_output_color p).
Definition with_toggle v p := Profile (p_name p) (p_host p) (p_port p) (p_user p) (p_pass p) (p_debug p) (p_fnkeys p) v (p_loglevel p) (p_log_uuid p) (p_log_uuid_length p) (p_quiet p) (p_use_history p) (p_batch p) (p_prompt_color p) (p_input_color p) (p_output_color p).
Definition with_loglevel v q p := Profile (p_name p) (p_host p) (p_port p) (p_user p) (p_pass p) (p_debug p) (p_fnkeys p) (p_toggle p) v (p_log_uuid p) (p_log_uuid_length p) q (p_use_history p) (p_batch p) (p_prompt_color p) (p_input_color p) (p_output_color p).
Definition with_log_uuid v n p := Profile (p_name p) (p_host p) (p_port p) (p_user p) (p_pass p) (p_debug p) (p_fnkeys p) (p_toggle p) (p_loglevel p) v n (p_quiet p) (p_use_history p) (p_batch p) (p_prompt_color p) (p_input_color p) (p_output_color p).
Definition with_history v p := Profile (p_name p) (p_host p) (p_port p) (p_user p) (p_pass p) (p_debug p) (p_fnkeys p) (p_toggle p) (p_loglevel p) (p_log_uuid p) (p_log_uuid_length p) (p_quiet p) v (p_batch p) (p_prompt_color p) (p_input_color p) (p_output_color p).
Definition with_batch v p := Profile (p_name p) (p_host p) (p_port p) (p_user p) (p_pass p) (p_debug p) (p_fnkeys p) (p_toggle p) (p_loglevel p) (p_log_uuid p) (p_log_uuid_length p) (p_quiet p) (p_use_history p) v (p_prompt_color p) (p_input_color p) (p_output_color p).
Definition with_colors a b c p := Profile (p_name p) (p_host p) (p_port p) (p_user p) (p_pass p) (p_debug p) (p_fnkeys p) (p_toggle p) (p_loglevel p) (p_log_uuid p) (p_log_uuid_length p) (p_quiet p) (p_use_history p) (p_batch p) a b c.

Definition log_uuid_short_length : Z := 8.

Definition ESL_SEQ_ESC : cstr := [27; 91].
Definition ESL_SEQ_DEFAULT_COLOR : cstr := ESL_SEQ_ESC ++ bytes_of "m".
Definition seq_color (n : String.string) : cstr := ESL_SEQ_ESC ++ bytes_of n ++ bytes_of "m".

Definition color_map : list (cstr * cstr) :=
  [(bytes_of "black", seq_color "30"); (bytes_of "bold-black", seq_color "40");
   (bytes_of "red", seq_color "31"); (bytes_of "bold-red", seq_color "41");
   (bytes_of "green", seq_color "32"); (bytes_of "bold-green", seq_color "42");
   (bytes_of "yellow", seq_color "33"); (bytes_of "bold-yellow", seq_color "43");
   (bytes_of "blue", seq_color "34"); (bytes_of "bold-blue", seq_color "44");
   (bytes_of "magenta", seq_color "35"); (bytes_of "bold-magenta", seq_color "45");
   (bytes_of "cyan", seq_color "36"); (bytes_of "bold-cyan", seq_color "46");
   (bytes_of "white", seq_color "37"); (bytes_of "bold-white", seq_color "47")].

Fixpoint match_color_in (map : list (cstr * cstr)) (s : cstr) : cstr :=
  match map with
  | [] => ESL_SEQ_DEFAULT_COLOR
  | (n, seq) :: map' => if same_nocase s n then seq else match_color_in map' s
  end.
Definition match_color : cstr -> cstr := match_color_in color_map.

(** [set_fn_keys] *)
Definition fn_keys : list (option cstr) :=
  Some <$> [bytes_of "help"; bytes_of "status"; bytes_of "show channels"; bytes_of "show calls"; bytes_of "sofia status"; bytes_of "reloadxml";
    bytes_of "/log console"; bytes_of "/log debug"; bytes_of "sofia status profile internal"; bytes_of "fsctl pause"; bytes_of "fsctl resume"; bytes_of "version"].

(** A profile as a new category makes it. *)
Definition new_profile (name : cstr) : cli_profile :=
  Profile name (bytes_of "127.0.0.1") 8021 [] (bytes_of "ClueCon") 0 fn_keys (replicate 12 None) [] false 0 false true false
    ESL_SEQ_DEFAULT_COLOR ESL_SEQ_DEFAULT_COLOR ESL_SEQ_DEFAULT_COLOR.

Definition internal_profile : cli_profile :=
  Profile (bytes_of "internal") (bytes_of "127.0.0.1") 6521 [] (bytes_of "Nouse") 0 fn_keys (replicate 12 None) [] false 0 false true false
    ESL_SEQ_DEFAULT_COLOR ESL_SEQ_DEFAULT_COLOR ESL_SEQ_DEFAULT_COLOR.

(** [console_fnkeys[i - 1] = strdup(val)] for a number of a key. *)
Definition set_key (keys : list (option cstr)) (key val : cstr) : list (option cstr) :=
  let i := atoi key in
  if (0 <? i) && (i <? 13) then <[Z.to_nat (i - 1) := Some val]> keys else keys.

(** The branches for a pair that sets something in the current profile;
    [None]: the pair concerns no profile. *)
Definition set_profile (var val : cstr) : option (cli_profile -> cli_profile) :=
  let named n := same_nocase var (bytes_of n) in
  if named "host" then Some (with_host (esl_copy_string val 128))
  else if named "user" then Some (with_user (esl_copy_string val 256))
  else if named "password" then Some (with_pass (esl_copy_string val 128))
  else if named "port" then Some (fun p => let pt := atoi val in if 0 <? pt then with_port (sext 16 pt) p else p)
  else if named "batchmode" then Some (with_batch (esl_true val))
  else if named "debug" then Some (fun p => let dt := atoi val in if (-1 <? dt) && (dt <? 8) then with_debug dt p else p)
  else if named "loglevel" then Some (fun p => with_loglevel (esl_copy_string val 128) (p_quiet p) p)
  else if named "log-uuid" then Some (fun p => with_log_uuid (esl_true val) (p_log_uuid_length p) p)
  else if named "log-uuid-short" then Some (with_log_uuid (esl_true val) (if esl_true val then log_uuid_short_length else 0))
  else if named "log-uuid-length" then
    Some (fun p => let i := atoi val in if -1 <? i then with_log_uuid (p_log_uuid p) i p else p)
  else if named "quiet" then Some (fun p => with_loglevel (p_loglevel p) (esl_true val) p)
  else if named "no-history-file" then Some (with_history (negb (esl_true val)))
  else if named "prompt-color" then Some (fun p => with_colors (esl_copy_string (match_color val) 12) (p_input_color p) (p_output_color p) p)
  else if named "input-text-color" then Some (fun p => with_colors (p_prompt_color p) (esl_copy_string (match_color val) 12) (p_output_color p) p)
  else if named "output-text-color" then Some (fun p => with_colors (p_prompt_color p) (p_input_color p) (esl_copy_string (match_color val) 12) p)
  else if Esl.has_prefix (bytes_of "key_F") var then Some (fun p => with_fnkeys (set_key (p_fnkeys p) (drop 5 var) val) p)
  else if Esl.has_prefix (bytes_of "key_toggle_F") var then Some (fun p => with_toggle (set_key (p_toggle p) (drop 12 var) val) p)
  else None.

(** The globals [read_config] sets: the profiles in use and the timeouts. *)
Record cli_config := CliConfig { profiles : list cli_profile; timeout : Z; connect_timeout : Z }.

Definition MAX_PROFILES : nat := 128.

(** A category that was not the current one starts a profile. *)
Definition new_category (cur_cat cat : cstr) (g : cli_config) : result (cstr * cli_config) :=
  if bool_decide (cur_cat = cat) then Ok (cur_cat, g)
  else
    let cur_cat := esl_copy_string cat 128 in
    if (MAX_PROFILES <=? length (profiles g))%nat then Fault OutOfBounds
    else Ok (cur_cat, CliConfig (profiles g ++ [new_profile cur_cat]) (timeout g) (connect_timeout g)).

(** A pair is put into [profiles[pcount-1]], whether there is one or not. *)
Definition apply_pair (var val : cstr) (g : cli_config) : result cli_config :=
  match set_profile var val with
  | Some f =>
      match reverse (profiles g) with
      | [] => Fault OutOfBounds
      | p :: r => Ok (CliConfig (reverse (f p :: r)) (timeout g) (connect_timeout g))
      end
  | None =>
      if same_nocase var (bytes_of "timeout") then Ok (CliConfig (profiles g) (atoi val) (connect_timeout g))
      else if same_nocase var (bytes_of "connect-timeout") then Ok (CliConfig (profiles g) (timeout g) (atoi val))
      else Ok g
  end.

(** The loop of [read_config]. *)
Fixpoint read_loop (fuel : nat) (cfg : esl_config) (cur_cat : cstr) (g : cli_config) : result cli_config :=
  match fuel with
  | O => OutOfFuel
  | S fuel' =>
      let! (cfg, ret, var, val) := esl_config_next_pair cfg in
      if ret =? 0 then Ok g
      else
        let! (cur_cat, g) := new_category cur_cat (category cfg) g in
        match var, val with
        | Some var, Some val => let! g := apply_pair var val g in read_loop fuel' cfg cur_cat g
        | Some var, None =>
            (* the end of the file is marked; its line sets nothing *)
            match set_profile var [] with
            | Some _ => Fault BadPointer
            | None => read_loop fuel' cfg cur_cat g
            end
        | None, _ => Fault BadPointer
        end
  end.

Definition read_config (fopen : cstr -> option cstr) (dft_cfile cfile : cstr) (g : cli_config) : result cli_config :=
  let! (cfg, ok) := esl_config_open_file fopen cfile in
  let! (cfg, ok) := (if ok : bool then Ok (cfg, true) else esl_config_open_file fopen dft_cfile) in
  if ok : bool then
    match file cfg with
    | Some text => read_loop (S (length text)) cfg [] g
    | None => Ok g
    end
  else Ok g.

(** [get_profile] *)
Definition get_profile (g : cli_config) (name : cstr) : option nat :=
  fst <$> list_find (fun p => p_name p = name) (profiles g).

(** ** The command line *)

(** What the options set. *)
Record cli_args := Args {
  a_host : option cstr;
  a_port : option Z;
  a_user : option cstr;
  a_pass : option cstr;
  a_log : Z;
  a_error : bool;
  a_exec : option cstr;
  a_loglevel : cstr;
  a_log_uuid : bool;
  a_log_uuid_short : bool;
  a_batch : bool;
  a_history : bool;
  a_ctl_c : bool;
  a_color : bool;
  a_loops : Z;
  a_reconnect : bool;
  a_timeout : Z;
  a_connect_timeout : Z;
  a_usage : bool }.

Definition no_args (color : bool) : cli_args :=
  Args None None None None (-1) false None [] false false false true false color 2 false 0 0 false.

(** An option as [getopt_long] reports it: its letter and [optarg]. *)
Definition option_step (a : cli_args) (o : Z * cstr) : cli_args :=
  let '(Args host port user pass log error exec level uuid uuids batch history ctl color loops reconnect tmo ctmo use) := a in
  let (opt, optarg) := o in
  if opt =? 72 then Args (Some (esl_copy_string optarg 128)) port user pass log error exec level uuid uuids batch history ctl color loops reconnect tmo ctmo use
  else if opt =? 80 then
    let pt := atoi optarg in
    if (0 <? pt) && (pt <? 65536) then Args host (Some pt) user pass log error exec level uuid uuids batch history ctl color loops reconnect tmo ctmo use
    else Args host (const pt <$> port) user pass log true exec level uuid uuids batch history ctl color loops reconnect tmo ctmo use
  else if opt =? 110 then Args host port user pass log error exec level uuid uuids batch history ctl false loops reconnect tmo ctmo use
  else if opt =? 117 then Args host port (Some (esl_copy_string optarg 256)) pass log error exec level uuid uuids batch history ctl color loops reconnect tmo ctmo use
  else if opt =? 112 then Args host port user (Some (esl_copy_string optarg 128)) log error exec level uuid uuids batch history ctl color loops reconnect tmo ctmo use
  else if opt =? 100 then
    let l := atoi optarg in
    Args host port user pass l (error || (l <? 0) || (7 <? l)) exec level uuid uuids batch history ctl color loops reconnect tmo ctmo use
  else if opt =? 120 then Args host port user pass log error (Some (esl_copy_string optarg 1024)) level uuid uuids batch history ctl color loops reconnect tmo ctmo use
  else if opt =? 108 then Args host port user pass log error exec (esl_copy_string optarg 128) uuid uuids batch history ctl color loops reconnect tmo ctmo use
  else if opt =? 85 then Args host port user pass log error exec level true uuids batch history ctl color loops reconnect tmo ctmo use
  else if opt =? 83 then Args host port user pass log error exec level uuid true batch history ctl color loops reconnect tmo ctmo use
  else if opt =? 98 then Args host port user pass log error exec level uuid uuids true history ctl color loops reconnect tmo ctmo use
  else if opt =? 81 then Args host port user pass log error exec level uuid uuids batch false ctl color loops reconnect tmo ctmo use
  else if opt =? 105 then Args host port user pass log error exec level uuid uuids batch history true color loops reconnect tmo ctmo use
  else if opt =? 114 then Args host port user pass log error exec level uuid uuids batch history ctl color (loops + 120) reconnect tmo ctmo use
  else if opt =? 82 then Args host port user pass log error exec level uuid uuids batch history ctl color loops true tmo ctmo use
  else if opt =? 116 then Args host port user pass log error exec level uuid uuids batch history ctl color loops reconnect (atoi optarg) ctmo use
  else if opt =? 84 then Args host port user pass log error exec level uuid uuids batch history ctl color loops reconnect tmo (atoi optarg) use
  else if (opt =? 104) || (opt =? 63) then Args host port user pass log error exec level uuid uuids batch history ctl color loops reconnect tmo ctmo true
  else a.

(** The loop over the options ends at the first that asks for help. *)
Fixpoint read_options (a : cli_args) (os : list (Z * cstr)) : cli_args :=
  match os with
  | [] => a
  | o :: os' => let a := option_step a o in if a_usage a then a else read_options a os'
  end.

(** The profile that is used: the one named, or ["default"], or the built-in. *)
Definition choose_profile (g : cli_config) (name : option cstr) : cli_profile :=
  match (match name with Some n => get_profile g n | None => None end) with
  | Some i => default internal_profile (profiles g !! i)
  | None =>
      match get_profile g (bytes_of "default") with
      | Some i => default internal_profile (profiles g !! i)
      | None => internal_profile
      end
  end.

(** What the command line overrides. *)
Definition apply_args (a : cli_args) (p : cli_profile) : cli_profile :=
  let p := match a_host a with Some h => with_host h p | None => p end in
  let p := match a_port a with Some pt => with_port (sext 16 pt) p | None => p end in
  let p := match a_user a with Some u => with_user u p | None => p end in
  let p := match a_pass a with Some w => with_pass w p | None => p end in
  let p := if a_batch a || p_batch p then with_batch true p else p in
  let p := match a_loglevel a with [] => p | l => with_loglevel l false p end in
  let p := if a_log_uuid a then with_log_uuid true (p_log_uuid_length p) p else p in
  if a_log_uuid_short a then with_log_uuid true log_uuid_short_length p else p.

(** The prompt; the port is printed as an unsigned number of 32 bits. *)
Definition bare_prompt (a : cli_args) (p : cli_profile) : cstr :=
  snprintf 512
    (match a_host a with
     | Some _ =>
         if (match a_port a with Some _ => negb (p_port p =? 8051) | None => false end)
         then bytes_of "agc@" ++ p_host p ++ [58] ++ print_uint (wrap 32 (p_port p)) ++ [64] ++ p_name p ++ bytes_of "> "
         else bytes_of "agc@" ++ p_host p ++ [64] ++ p_name p ++ bytes_of "> "
     | None => bytes_of "agc@" ++ p_name p ++ bytes_of "> "
     end).

(** The loop at [connect]: an attempt per element, until one succeeds or the
    last one fails; [None]: the program ends. *)
Fixpoint connect_loop (fuel : nat) (loops : Z) (tmo : Z) (ns : list network) : option (esl_handle * bool * Z) :=
  match fuel with
  | O => None
  | S fuel' =>
      let loops := loops - 1 in
      if 0 <? loops then
        match esl_connect_timeout zero_handle (hd (Network false false 0 false 0 0 0) ns) tmo with
        | (h, ESL_SUCCESS) => Some (h, true, loops)
        | (h, _) => if loops =? 1 then None else connect_loop fuel' loops tmo (tl ns)
        end
      else Some (zero_handle, false, loops)
  end.

(** ** Commands *)

Record cli := Cli {
  handle : esl_handle;
  profile : cli_profile;
  logfilter : option cstr;
  filter_uuid : option cstr;
  log_level : Z;
  running : Z;
  thread_running : bool;
  warn_stop : bool;
  out : cstr }.

Definition with_handle h s := Cli h (profile s) (logfilter s) (filter_uuid s) (log_level s) (running s) (thread_running s) (warn_stop s) (out s).
Definition with_logfilter f s := Cli (handle s) (profile s) f (filter_uuid s) (log_level s) (running s) (thread_running s) (warn_stop s) (out s).
Definition with_uuid f s := Cli (handle s) (profile s) (logfilter s) f (log_level s) (running s) (thread_running s) (warn_stop s) (out s).
Definition with_log_level v s := Cli (handle s) (profile s) (logfilter s) (filter_uuid s) v (running s) (thread_running s) (warn_stop s) (out s).
Definition with_running r t s := Cli (handle s) (profile s) (logfilter s) (filter_uuid s) (log_level s) r t (warn_stop s) (out s).
Definition with_warn w s := Cli (handle s) (profile s) (logfilter s) (filter_uuid s) (log_level s) (running s) (thread_running s) w (out s).
Definition print (t : cstr) s := Cli (handle s) (profile s) (logfilter s) (filter_uuid s) (log_level s) (running s) (thread_running s) (warn_stop s) (out s ++ t).

(** [output_printf] *)
Definition output_printf (t : cstr) (s : cli) : cli :=
  print ((if p_batch (profile s) then [] else p_output_color (profile s)) ++ t) s.

Definition cli_usage : cstr :=
  bytes_of "Command                    " ++ [9] ++ bytes_of "Description" ++ [10] ++
  bytes_of "-----------------------------------------------" ++ [10] ++
  bytes_of "/help                      " ++ [9] ++ bytes_of "Help" ++ [10] ++
  bytes_of "/exit, /quit, /bye, ...    " ++ [9] ++ bytes_of "Exit the program." ++ [10] ++
  bytes_of "/event, /noevents, /nixevent" ++ [9] ++ bytes_of "Event commands." ++ [10] ++ [10].

Section console.
Context `{Json.FloatOps} (junk : nat -> Z) (vasprintf : cstr -> option cstr).

(** A command that is sent as it is, and its reply. *)
Definition send_and_show (fuel : nat) (s : cli) (cmd : cstr) (ok1 ok2 : bool) (ws : list wake) : result (cli * list wake) :=
  let! (h, _, ws) := esl_send_recv junk vasprintf fuel (handle s) cmd ok1 ok2 ws in
  Ok (print (cstring (last_sr_reply h) ++ [10]) (with_handle h s), ws).

(** The commands of the console itself. *)
Definition local_command (fuel : nat) (s : cli) (cmd : cstr) (ok1 ok2 : bool) (ws : list wake) : result (cli * Z * list wake) :=
  let named n := same_nocase cmd (bytes_of n) in
  let starts n := Esl.has_prefix (bytes_of n) cmd in
  if named "help" then Ok (output_printf cli_usage s, 0, ws)
  else if named "exit" || named "quit" || named "..." || named "bye" then Ok (s, -1, ws)
  else if starts "logfilter" then
    let f := match Esl.skip_blank (drop 9 cmd) with [] => None | t => Some t end in
    Ok (output_printf (bytes_of "Logfilter " ++ bytes_of (match f with Some _ => "enabled" | None => "disabled" end) ++ [10]) (with_logfilter f s), 0, ws)
  else if starts "uuid" then
    let f := match Esl.skip_blank (drop 4 cmd) with [] => None | t => Some t end in
    Ok (output_printf (bytes_of "UUID filtering " ++ bytes_of (match f with Some _ => "enabled" | None => "disabled" end) ++ [10]) (with_uuid f s), 0, ws)
  else if starts "event" || starts "noevents" || starts "nixevent" || starts "log" || starts "nolog" || starts "filter" then
    let! (s, ws) := send_and_show fuel s cmd ok1 ok2 ws in Ok (s, 0, ws)
  else if starts "debug" then
    if (length cmd <? 6)%nat then Fault OutOfBounds
    else
      let tmp_debug := atoi (drop 6 cmd) in
      if (-1 <? tmp_debug) && (tmp_debug <? 8)
      then Ok (output_printf (bytes_of "fs_cli debug level set to " ++ print_int tmp_debug ++ [10]) (with_log_level tmp_debug s), 0, ws)
      else Ok (output_printf (bytes_of "fs_cli debug level must be 0 - 7" ++ [10]) s, 0, ws)
  else Ok (output_printf (bytes_of "Unknown command [" ++ cmd ++ bytes_of "]" ++ [10]) s, 0, ws).

(** The answer of a command of the server. *)
Definition show_answer (s : cli) : result cli :=
  match last_sr_event (handle s) with
  | None => Ok s
  | Some e =>
      match body e with
      | Some b => Ok (output_printf (b ++ [10]) s)
      | None =>
          match esl_event_get_header e (bytes_of "reply-text") with
          | Some err =>
              if Esl.has_prefix (bytes_of "-er") err then
                if (length err <? 4)%nat then Fault OutOfBounds
                else Ok (output_printf (bytes_of "Error: " ++ drop 4 err ++ bytes_of "!" ++ [10]) s)
              else Ok s
          | None => Ok s
          end
      end
  end.

Definition api_text (cmd : cstr) : cstr :=
  snprintf 1024 (bytes_of "api " ++ cmd ++ [10] ++ bytes_of "console_execute: true" ++ [10; 10]).

(** The commands that are run by the server. *)
Definition server_command (fuel : nat) (s : cli) (cmd : cstr) (ok1 ok2 : bool) (ws : list wake) : result (cli * Z * list wake) :=
  let! (s, ws) :=
    (if Esl.has_prefix (bytes_of "console loglevel ") cmd
     then send_and_show fuel s (snprintf 1024 (bytes_of "log " ++ drop 17 cmd)) ok1 ok2 ws else Ok (s, ws)) in
  let! (h, status, ws) := esl_send_recv junk vasprintf fuel (handle s) (api_text cmd) ok1 ok2 ws in
  let s := with_handle h s in
  if negb (bool_decide (status = ESL_SUCCESS)) then Ok (output_printf (bytes_of "Socket interrupted, bye!" ++ [10]) s, -1, ws)
  else let! s := show_answer s in Ok (s, 0, ws).

Definition process_command (fuel : nat) (s : cli) (cmd : cstr) (ok1 ok2 : bool) (ws : list wake) : result (cli * Z * list wake) :=
  let cmd := Esl.skip_blank cmd in
  if hd 0 cmd =? 47 then local_command fuel s (drop 1 cmd) ok1 ok2 ws
  else if Esl.has_prefix (bytes_of "...") cmd then local_command fuel s cmd ok1 ok2 ws
  else server_command fuel s cmd ok1 ok2 ws.

(** ** The main loop *)

(** [basic_gets]: the line, its length, and the input that is left. *)
Fixpoint basic_gets_loop (n : nat) (input : list Z) : cstr * list Z :=
  match n, input with
  | S n', c :: input' => if c =? 10 then ([], input') else let (l, r) := basic_gets_loop n' input' in (c :: l, r)
  | _, _ => ([], input)
  end.

Definition basic_gets (input : list Z) : cstr * nat * list Z :=
  let (l, r) := basic_gets_loop CMD_BUFLEN input in (cstring l, length l, r).

(** [*strrchr(s, c) = 0] *)
Definition cut_last (c : Z) (s : cstr) : option cstr :=
  match Api.strchr c (reverse s) with (_, Some r) => Some (reverse r) | (_, None) => None end.

(** A turn of the loop of [main]. *)
Definition main_turn (fuel : nat) (s : cli) (prompt_str : cstr) (input : list Z) (ws : list wake) : result (cli * list Z * list wake) :=
  let s := print prompt_str s in
  let '(line, count, input) := basic_gets input in
  if (1 <? count)%nat && negb (length line =? 0)%nat then
    let cmd := match cut_last 13 line with Some c => c | None => match cut_last 10 line with Some c => c | None => line end end in
    let! (s, r, ws) := process_command fuel s cmd true true ws in
    Ok (if r =? 0 then s else with_running r (thread_running s) s, input, ws)
  else Ok (s, input, ws).

Fixpoint main_loop (turns fuel : nat) (s : cli) (prompt_str : cstr) (input : list Z) (ws : list wake) : result (cli * list Z * list wake) :=
  match turns with
  | O => Ok (s, input, ws)
  | S turns' =>
      if 0 <? running s then
        let! (s, input, ws) := main_turn fuel s prompt_str input ws in
        main_loop turns' fuel s prompt_str input ws
      else Ok (s, input, ws)
  end.

(** The option [-x]: a command is run and the program ends with a number. *)
Definition execute_one (fuel : nat) (s : cli) (tmo : Z) (cmd : cstr) (polls : list (Z * Z)) (ws : list wake) : result (cli * Z) :=
  let! (h, status, _) := esl_send_recv_timed junk vasprintf fuel (handle s) (api_text cmd) tmo true true polls ws in
  if negb (tmo =? 0) && negb (bool_decide (status = ESL_SUCCESS))
  then Ok (print (bytes_of "Request timed out." ++ [10]) (with_handle (fst (esl_disconnect h)) s), -2)
  else
    let s := with_handle h s in
    let! t :=
      (match last_sr_event h with
       | None => Ok []
       | Some e =>
           match body e with
           | Some b => Ok (b ++ [10])
           | None =>
               match esl_event_get_header e (bytes_of "reply-text") with
               | Some err =>
                   if Esl.has_prefix (bytes_of "-er") err then
                     if (length err <? 4)%nat then Fault OutOfBounds else Ok (bytes_of "Error: " ++ drop 4 err ++ bytes_of "!" ++ [10])
                   else Ok []
               | None => Ok []
               end
           end
       end) in
    Ok (print t (with_handle (fst (esl_disconnect h)) s), 0).

(** ** The thread that shows what arrives *)

Definition colors : list cstr :=
  [ESL_SEQ_DEFAULT_COLOR; seq_color "31"; seq_color "31"; seq_color "31"; seq_color "35"; seq_color "36"; seq_color "32"; seq_color "33"].

(** [clear_line] *)
Definition clear_line (s : cli) : cli := if p_batch (profile s) then s else print ([13] ++ [27; 91; 75]) s.

(** A line of the server's log; [feature] is [feature_level]. *)
Definition show_log (feature : bool) (s : cli) (e : esl_event) : result cli :=
  let userdata := esl_event_get_header e (bytes_of "user-data") in
  let level := match esl_event_get_header e (bytes_of "log-level") with Some l => atoi l | None => 0 end in
  let s := if feature then clear_line s else s in
  let! s :=
    (if p_batch (profile s) then Ok s
     else if level <? 0 then Fault OutOfBounds
     else match colors !! Z.to_nat level with Some c => Ok (print c s) | None => Fault OutOfBounds end) in
  let s :=
    match userdata with
    | Some ((_ :: _) as u) =>
        if p_log_uuid (profile s) then
          print (if p_log_uuid_length (profile s) =? 0 then u ++ [32] else take (Z.to_nat (p_log_uuid_length (profile s))) u ++ [32]) s
        else s
    | _ => s
    end in
  match body e with
  | None => Fault BadPointer
  | Some b =>
      let s :=
        if bool_decide (b = [10]) then s
        else print (b ++ match reverse b with [] => [] | c :: _ => if c =? 10 then [] else [10] end) s in
      Ok (if negb (p_batch (profile s)) && negb feature then print ESL_SEQ_DEFAULT_COLOR s else s)
  end.

(** Whether a line of the log passes the filters. *)
Definition log_passes (s : cli) (e : esl_event) : result (option bool) :=
  let user_ok :=
    match esl_event_get_header e (bytes_of "user-data"), filter_uuid s with
    | Some ((_ :: _) as u), Some ((_ :: _) as f) => same_nocase f u
    | _, _ => true
    end in
  if negb user_ok then Ok (Some false)
  else match logfilter s with
       | None => Ok (Some true)
       | Some f => match body e with
                   | None => Fault BadPointer
                   | Some b => match EslText.strstr b f with Some _ => Ok (Some true) | None => Ok None end
                   end
       end.

(** What is done with the event [esl_recv_event] has kept; the result says
    whether the turn goes on to the warning. *)
Definition show_event (feature aok : bool) (s : cli) (e : esl_event) : result (cli * bool) :=
  let type := esl_event_get_header e (bytes_of "content-type") in
  let text e := esl_event_serialize junk e false in
  match type with
  | Some ((_ :: _) as t) =>
      if same_nocase t (bytes_of "log/data") then
        let! pass := log_passes s e in
        match pass with
        | None => Ok (s, false)
        | Some false => Ok (s, true)
        | Some true => if aok then let! s := show_log feature s e in Ok (s, true) else Ok (s, true)
        end
      else if same_nocase t (bytes_of "text/disconnect-notice") then Ok (with_running (-1) false s, true)
      else if same_nocase t (bytes_of "text/event-plain") then
        match last_ievent (handle s) with
        | None => Fault BadPointer
        | Some ie =>
            let! str := text ie in
            Ok (if aok then output_printf (bytes_of "RECV EVENT" ++ [10] ++ str ++ [10]) (clear_line s) else s, true)
        end
      else if aok then
        let s := output_printf (bytes_of "INCOMING DATA [" ++ t ++ bytes_of "]" ++ [10] ++ default [] (body e) ++ [10]) s in
        let! str := text e in
        Ok (output_printf (bytes_of "RECV EVENT" ++ [10] ++ str ++ [10]) s, true)
      else Ok (s, true)
  | _ => Ok (s, true)
  end.

(** A turn of [msg_thread_run]; [aok] is whether output can be written. *)
Definition msg_turn (feature aok : bool) (s : cli) (poll : Z * Z) (ws : list wake) : result (cli * list wake) :=
  let! (h, status, _, ws) := esl_recv_event_timed junk vasprintf (handle s) 10 true false poll ws in
  let s := with_handle h s in
  let! (s, aok, warns) :=
    (match status with
     | ESL_FAIL => Ok (with_running (-1) false s, true, true)
     | ESL_SUCCESS =>
         match last_event h with
         | Some e => let! (s, warns) := show_event feature aok s e in Ok (s, aok, warns)
         | None => Ok (s, aok, true)
         end
     | _ => Ok (s, true, true)
     end) in
  if warns && warn_stop s then
    let s := if aok then output_printf (bytes_of "Type control-D or /exit or /quit or /bye to exit." ++ [10; 10]) (clear_line s) else s in
    Ok (with_warn false s, ws)
  else Ok (s, ws).

End console.
End AgcCli.
