(* ===== verification/EslConfigProof.v ===== *)
(** * What is read from a configuration file

    Reading ends for every file, and a file made of categories, pairs, comments
    and empty lines is read back as its pairs, each under its category. *)

From stdpp Require Import base list strings.
From Stdlib Require Import ZArith Lia.
From S2P Require Import Prelude CString Api ApiProof EslText EslEvent EslEventProof EslConfig.

Module EslConfigProof.
Import EslConfig.

(** ** Reading ends *)

Lemma fgets_split n s : s = (fgets n s).1 ++ (fgets n s).2.
Proof.
  revert s. induction n as [|n IH]; intros [|c s]; cbn; try done. destruct (c =? 10); [done|].
  specialize (IH s). destruct (fgets n s) as [l r]. cbn in *. by rewrite IH at 1.
Qed.

Lemma fgets_some n c s : (0 < n)%nat -> (fgets n (c :: s)).1 <> [].
Proof. destruct n as [|n]; [lia|]. intros _. cbn. destruct (c =? 10); [done|]. by destruct (fgets n s). Qed.

Lemma fgets_shorter n c s : (0 < n)%nat -> (length (fgets n (c :: s)).2 < length (c :: s))%nat.
Proof.
  intros Hn. pose proof (fgets_some n c s Hn) as Hs. rewrite (fgets_split n (c :: s)) at 2. rewrite length_app.
  destruct (fgets n (c :: s)).1; [done|]. cbn. lia.
Qed.

Lemma next_pair_ends fuel : forall cfg text ret var val, (length text < fuel)%nat -> file cfg = Some text ->
  exists cfg' ret' var' val' text', next_pair_loop fuel cfg text ret var val = Ok (cfg', ret', var', val') /\
    file cfg' = Some text' /\ (ret' <> 0 -> (length text' < length text)%nat).
Proof.
  induction fuel as [|fuel IH]; intros cfg text ret var val Hf Hfile; [lia|]. cbn [next_pair_loop].
  destruct text as [|c text]; [by exists (next_lineno cfg), 0, var, val, []|].
  pose proof (fgets_shorter (BUFLEN - 1) c text ltac:(unfold BUFLEN; lia)) as Hs.
  destruct (fgets (BUFLEN - 1) (c :: text)) as [line rest]. cbn [snd] in Hs.
  assert (forall cfg' ret var val, file cfg' = Some rest -> exists cfg'' ret' var' val' text',
    next_pair_loop fuel cfg' rest ret var val = Ok (cfg'', ret', var', val') /\ file cfg'' = Some text' /\ (ret' <> 0 -> (length text' < length (c :: text))%nat)) as Hrec.
  { intros cfg' r0 v0 v1 E. destruct (IH cfg' rest r0 v0 v1 ltac:(lia) E) as (c' & r' & x & y & t' & -> & Ht & Hl). exists c', r', x, y, t'.
    split_and!; try done. intros Hr. specialize (Hl Hr). lia. }
  destruct (kind_of (cstring line)) as [n|n| | |].
  - destruct (_ && _); by eexists _, _, _, _, rest.
  - by apply Hrec.
  - by apply Hrec.
  - by eexists _, _, _, _, rest.
  - destruct (split_pair (cstring line)) as [v [[a b]|]]; [by eexists _, _, _, _, rest|by apply Hrec].
Qed.

Lemma next_pair_total cfg : exists cfg' ret var val, esl_config_next_pair cfg = Ok (cfg', ret, var, val) /\
  (ret <> 0 -> (length (default [] (file cfg')) < length (default [] (file cfg)))%nat).
Proof.
  unfold esl_config_next_pair. destruct (file cfg) as [text|] eqn:E; [|by exists cfg, 0, None, None].
  destruct (next_pair_ends (S (length text)) cfg text 0 None None ltac:(lia) E) as (c' & r & x & y & t & -> & Ht & Hl).
  exists c', r, x, y. rewrite Ht. split; [done|]. exact Hl.
Qed.

(** ** Files that are written *)

Inductive item := ICategory (name : cstr) | IPair (var val : cstr) | IComment (text : cstr) | IBlank.

Definition item_text (x : item) : cstr :=
  match x with
  | ICategory n => 91 :: n ++ [93]
  | IPair n v => n ++ [32; 61; 32] ++ v
  | IComment t => 35 :: t
  | IBlank => []
  end.
Definition file_text (xs : list item) : cstr := concat ((fun x => item_text x ++ [10]) <$> xs).

Definition chars_ok (s : cstr) : Prop := Forall (fun c => c <> 0 /\ c <> 10) s.

Definition item_ok (x : item) : Prop :=
  (length (item_text x) < 1023)%nat /\
  match x with
  | ICategory n => chars_ok n /\ Forall (fun c => c <> 93) n /\ hd 0 n <> 43 /\ (length n < 256)%nat
  | IPair n v =>
      chars_ok n /\ Forall (fun c => c <> 59 /\ c <> 61) n /\ n <> [] /\ is_blank (hd 0 n) = false /\ is_blank (default 0 (last n)) = false /\
      hd 0 n <> 35 /\ hd 0 n <> 91 /\ hd 0 n <> 13 /\ has_text (bytes_of "__END__") n = false /\
      chars_ok v /\ Forall (fun c => c <> 59) v /\ is_blank (hd 0 v) = false /\ last v <> Some 13
  | IComment t => chars_ok t
  | IBlank => True
  end.

Lemma fgets_line n t r : Forall (fun c => c <> 10) t -> (length t < n)%nat -> fgets n (t ++ 10 :: r) = (t ++ [10], r).
Proof.
  intros Ht. revert n. induction Ht as [|c t Hc Ht IH]; intros n Hn; (destruct n as [|n]; [cbn in Hn; lia|]); cbn; [done|].
  rewrite (proj2 (Z.eqb_neq _ _) Hc), IH by (cbn in Hn; lia). done.
Qed.

Lemma reverse_last (t : cstr) : reverse t = match last t with Some c => c :: reverse (removelast t) | None => [] end.
Proof. induction t as [|c t _] using rev_ind; [done|]. rewrite reverse_snoc, last_snoc, removelast_last. done. Qed.

Lemma newline_written t : Forall (fun c => c <> 10) t -> last t <> Some 13 -> newline_end (t ++ [10]) = (t, Some (length t)).
Proof.
  intros Ht Hl. unfold newline_end. rewrite ApiProof.strchr_found by done. rewrite reverse_last.
  destruct (last t) as [c|]; [|done]. rewrite (proj2 (Z.eqb_neq c 13)) by congruence. done.
Qed.

(** A line of a pair is split into its name and its value. *)
Lemma split_written n v : item_ok (IPair n v) -> split_pair (item_text (IPair n v) ++ [10]) = (n, Some (n, v)).
Proof.
  intros (_ & Hn & Hn' & Hne & Hb & Hbl & _ & _ & _ & _ & Hv & Hv' & Hvb & Hvl). cbn [item_text].
  set (t := n ++ [32; 61; 32] ++ v). unfold split_pair, line_end.
  assert (Forall (fun c => c <> 59) (t ++ [10])) as H59.
  { unfold t. rewrite !Forall_app. split_and!; [eapply Forall_impl; [exact Hn'|]; cbn; tauto|by repeat constructor|done|by repeat constructor]. }
  rewrite EslEvProof.strchr_absent by done.
  assert (Forall (fun c => c <> 10) t) as H10.
  { unfold t. rewrite !Forall_app. split_and!; [eapply Forall_impl; [exact Hn|]; cbn; tauto|by repeat constructor|eapply Forall_impl; [exact Hv|]; cbn; tauto]. }
  assert (last t <> Some 13) as H13.
  { unfold t. rewrite app_assoc, last_app. destruct (last v) as [d|] eqn:Ev; [done|]. by rewrite last_app. }
  rewrite newline_written by done. clear H59 H10 H13.
  assert (skip_upto (Some (length t)) 0 t = (0%nat, t)) as ->.
  { unfold t. destruct n as [|d n]; [done|]. cbn in Hb |- *. by rewrite Hb. }
  assert (t = (n ++ [32]) ++ 61 :: 32 :: v) as -> by (unfold t; by rewrite <- app_assoc).
  rewrite ApiProof.strchr_found by (apply Forall_app; split; [eapply Forall_impl; [exact Hn'|]; cbn; tauto|by repeat constructor]).
  change (32 =? 62) with false. cbv iota. rewrite !length_app. cbn [length snd skip_upto]. change (is_blank 32) with true. cbn [andb].
  rewrite bool_decide_false by (intros [= E]; lia). cbn [negb].
  assert (forall stop i, snd (skip_upto stop i v) = v) as -> by (intros; destruct v as [|c' v]; [done|]; cbn in Hvb |- *; by rewrite Hvb).
  assert (trim_name (n ++ [32]) = n) as ->; [|done].
  destruct n as [|d n]; [done|]. cbn [app trim_name]. f_equal. rewrite reverse_snoc. cbn [drop_blanks]. change (is_blank 32) with true. cbv iota.
  assert (drop_blanks (reverse n) = reverse n) as ->; [|apply reverse_involutive].
  rewrite last_cons in Hbl. rewrite reverse_last. destruct (last n) as [e|]; [|done]. cbn in Hbl |- *. by rewrite Hbl.
Qed.

(** The kind of each line. *)
Lemma kind_category n : item_ok (ICategory n) -> kind_of (item_text (ICategory n) ++ [10]) = LCategory n.
Proof.
  intros (_ & _ & Hn & Hp & _). cbn [item_text app kind_of]. change (91 =? 91) with true. cbv iota.
  rewrite <- app_assoc. cbn [app Api.strchr]. change (91 =? 93) with false. cbv iota. rewrite ApiProof.strchr_found by done.
  destruct n as [|c n]; [done|]. cbn in Hp. by rewrite (proj2 (Z.eqb_neq _ _) Hp).
Qed.

Lemma end_word n t : has_text (bytes_of "__END__") n = false -> hd 0 t <> 95 -> hd 0 t <> 69 -> hd 0 t <> 78 -> hd 0 t <> 68 ->
  has_text (bytes_of "__END__") (n ++ t) = false.
Proof.
  unfold has_text. rewrite !bool_decide_eq_false. intros Hn H1 H2 H3 H4 E. apply Hn. clear Hn.
  do 7 (destruct n as [|? n]; [cbn in E; simplify_eq/=; destruct t; simplify_eq/=; done|]). cbn in E |- *. exact E.
Qed.

Lemma kind_pair n v : item_ok (IPair n v) -> kind_of (item_text (IPair n v) ++ [10]) = LText.
Proof.
  intros (_ & Hc & Hn' & Hne & _ & _ & H35 & H91 & H13 & He & _). cbn [item_text].
  destruct n as [|c n]; [done|]. cbn [app kind_of hd] in *. rewrite (proj2 (Z.eqb_neq _ _) H91).
  apply Forall_cons in Hc as [[_ H10] _]. apply Forall_cons in Hn' as [[H59 _] _]. rewrite !(proj2 (Z.eqb_neq _ _)) by done. cbn [orb].
  change (c :: (n ++ 32 :: 61 :: 32 :: v) ++ [10]) with (((c :: n) ++ 32 :: 61 :: 32 :: v) ++ [10]). rewrite <- app_assoc. by rewrite end_word.
Qed.

Lemma item_chars x : item_ok x -> chars_ok (item_text x).
Proof.
  assert (forall s, chars_ok s -> forall t, chars_ok t -> chars_ok (s ++ t)) as Happ by (intros; by apply Forall_app).
  intros [_ Hx]. destruct x as [n|n v|t|]; cbn [item_text] in *.
  - constructor; [done|]. apply Happ; [apply Hx|by repeat constructor].
  - destruct Hx as (Hn & _ & _ & _ & _ & _ & _ & _ & _ & Hv & _). apply Happ; [done|]. apply (Happ [32; 61; 32]); [by repeat constructor|done].
  - by constructor.
  - constructor.
Qed.

(** One line at the front of the text that is left. *)
Lemma next_line fuel cfg x rest ret var val : item_ok x -> file cfg = Some (item_text x ++ 10 :: rest) ->
  next_pair_loop (S fuel) cfg (item_text x ++ 10 :: rest) ret var val =
  let cfg' := with_file (Some rest) (next_lineno cfg) in
  match x with
  | ICategory n => next_pair_loop fuel (with_category n cfg') rest ret (Some n) val
  | IPair n v => Ok (cfg', 1, Some n, Some v)
  | IComment _ | IBlank => next_pair_loop fuel cfg' rest ret (Some (item_text x ++ [10])) val
  end.
Proof.
  intros Hx _. pose proof (item_chars x Hx) as Hc. cbn [next_pair_loop].
  destruct (item_text x ++ 10 :: rest) as [|y z] eqn:E; [by destruct (item_text x)|]. rewrite <- E. clear E y z.
  rewrite fgets_line; [|eapply Forall_impl; [exact Hc|]; cbn; tauto|unfold BUFLEN; destruct Hx; lia].
  rewrite cstring_id by (apply Forall_app; split; [eapply Forall_impl; [exact Hc|]; cbn; tauto|by repeat constructor]).
  destruct x as [n|n v|t|].
  - rewrite kind_category by done. cbv zeta. do 3 f_equal. unfold esl_copy_string. apply take_ge. destruct Hx as (_ & _ & _ & _ & Hl). lia.
  - by rewrite kind_pair, split_written by done.
  - done.
  - done.
Qed.

(** ** What is read *)

(** The pairs of a file, each with its category. *)
Fixpoint pairs_of (cat : cstr) (xs : list item) : list (cstr * cstr * cstr) :=
  match xs with
  | [] => []
  | ICategory n :: xs => pairs_of n xs
  | IPair n v :: xs => (cat, n, v) :: pairs_of cat xs
  | _ :: xs => pairs_of cat xs
  end.

(** The pairs [esl_config_next_pair] gives until it returns zero. *)
Fixpoint read_pairs (fuel : nat) (cfg : esl_config) : result (list (cstr * cstr * cstr)) :=
  match fuel with
  | O => OutOfFuel
  | S fuel' =>
      let! (cfg, ret, var, val) := esl_config_next_pair cfg in
      if ret =? 0 then Ok []
      else let! l := read_pairs fuel' cfg in Ok ((category cfg, default [] var, default [] val) :: l)
  end.

Lemma file_text_cons x xs : file_text (x :: xs) = item_text x ++ 10 :: file_text xs.
Proof. unfold file_text. cbn. by rewrite <- app_assoc. Qed.

(** The next pair of a file that was written. *)
Lemma next_pair_written xs : Forall item_ok xs -> forall fuel cfg ret var val, file cfg = Some (file_text xs) -> (length xs < fuel)%nat ->
  exists cfg' var' val', match pairs_of (category cfg) xs with
  | [] => next_pair_loop fuel cfg (file_text xs) ret var val = Ok (cfg', 0, var', val')
  | (cat, n, v) :: l => exists ys, next_pair_loop fuel cfg (file_text xs) ret var val = Ok (cfg', 1, Some n, Some v) /\
      category cfg' = cat /\ file cfg' = Some (file_text ys) /\ pairs_of cat ys = l /\ Forall item_ok ys /\ (length ys < length xs)%nat
  end.
Proof.
  induction 1 as [|x xs Hx Hxs IH]; intros fuel cfg ret var val Hf Hl; (destruct fuel as [|fuel]; [cbn in Hl; lia|]).
  { by exists (next_lineno cfg), var, val. }
  rewrite file_text_cons in *. rewrite next_line by done. cbv zeta. cbn [length] in Hl.
  destruct x as [n|n v|t|]; cbn [pairs_of].
  - destruct (IH fuel (with_category n (with_file (Some (file_text xs)) (next_lineno cfg))) ret (Some n) val eq_refl ltac:(lia)) as (c' & v1 & v2 & H).
    exists c', v1, v2. cbn [category with_category] in H. destruct (pairs_of n xs) as [|[[a b] c] l]; [done|].
    destruct H as (ys & ? & ? & ? & ? & ? & ?). exists ys. split_and!; try done. cbn [length]. lia.
  - exists (with_file (Some (file_text xs)) (next_lineno cfg)), None, None. exists xs. split_and!; try done. cbn. lia.
  - destruct (IH fuel (with_file (Some (file_text xs)) (next_lineno cfg)) ret (Some (item_text (IComment t) ++ [10])) val eq_refl ltac:(lia)) as (c' & v1 & v2 & H).
    exists c', v1, v2. cbn [category with_file next_lineno] in H. destruct (pairs_of (category cfg) xs) as [|[[a b] c] l]; [done|].
    destruct H as (ys & ? & ? & ? & ? & ? & ?). exists ys. split_and!; try done. cbn [length]. lia.
  - destruct (IH fuel (with_file (Some (file_text xs)) (next_lineno cfg)) ret (Some (item_text IBlank ++ [10])) val eq_refl ltac:(lia)) as (c' & v1 & v2 & H).
    exists c', v1, v2. cbn [category with_file next_lineno] in H. destruct (pairs_of (category cfg) xs) as [|[[a b] c] l]; [done|].
    destruct H as (ys & ? & ? & ? & ? & ? & ?). exists ys. split_and!; try done. cbn [length]. lia.
Qed.

Lemma file_text_length xs : (length xs <= length (file_text xs))%nat.
Proof. induction xs as [|x xs IH]; [done|]. rewrite file_text_cons, length_app. cbn [length]. lia. Qed.

Lemma next_pair_file xs cfg : Forall item_ok xs -> file cfg = Some (file_text xs) ->
  match pairs_of (category cfg) xs with
  | [] => exists cfg' var' val', esl_config_next_pair cfg = Ok (cfg', 0, var', val')
  | (cat, n, v) :: l => exists cfg' ys, esl_config_next_pair cfg = Ok (cfg', 1, Some n, Some v) /\
      category cfg' = cat /\ file cfg' = Some (file_text ys) /\ pairs_of cat ys = l /\ Forall item_ok ys /\ (length ys < length xs)%nat
  end.
Proof.
  intros Hxs Hf. unfold esl_config_next_pair. rewrite Hf. pose proof (file_text_length xs).
  destruct (next_pair_written xs Hxs (S (length (file_text xs))) cfg 0 None None Hf ltac:(lia)) as (c' & v1 & v2 & H1).
  destruct (pairs_of (category cfg) xs) as [|[[a b] c] l]; [by exists c', v1, v2|]. destruct H1 as (ys & H1). by exists c', ys.
Qed.

Lemma read_pairs_file fuel : forall xs cfg, Forall item_ok xs -> file cfg = Some (file_text xs) -> (length xs < fuel)%nat ->
  read_pairs fuel cfg = Ok (pairs_of (category cfg) xs).
Proof.
  induction fuel as [|fuel IH]; intros xs cfg Hxs Hf Hl; [lia|]. cbn [read_pairs]. pose proof (next_pair_file xs cfg Hxs Hf) as H.
  destruct (pairs_of (category cfg) xs) as [|[[a b] c] l].
  - destruct H as (c' & v1 & v2 & ->). done.
  - destruct H as (c' & ys & -> & Hc & Hf' & Hp & Hys & Hlt). cbn [rbind]. change (1 =? 0) with false. cbv iota.
    rewrite (IH ys) by (done || lia). cbn [rbind]. by rewrite Hc, Hp.
Qed.

End EslConfigProof.

Import EslConfig EslConfigProof.

(** A configuration file is read as it was written: opened by its path, a file
    of categories, pairs, comments and empty lines gives its pairs in order,
    each with the category it stands under. *)
Theorem esl_config_roundtrip fopen path xs : hd 0 path = 47 -> fopen path = Some (file_text xs) -> Forall item_ok xs ->
  exists cfg, esl_config_open_file fopen path = Ok (cfg, true) /\ read_pairs (S (length xs)) cfg = Ok (pairs_of [] xs).
Proof.
  intros Hp Hf Hxs. unfold esl_config_open_file. rewrite Hp. change (47 =? 47) with true. cbv iota. rewrite Hf.
  eexists. split; [done|]. apply (read_pairs_file _ xs); [done|done|lia].
Qed.

Definition demo_items : list item :=
  [IComment (bytes_of " profiles"); ICategory (bytes_of "lab"); IPair (bytes_of "host") (bytes_of "10.0.0.7"); IBlank; IPair (bytes_of "port") (bytes_of "6521")].

Lemma esl_config_roundtrip_witness :
  exists cfg, esl_config_open_file (fun _ => Some (file_text demo_items)) (bytes_of "/etc/fs_cli.conf") = Ok (cfg, true) /\
    read_pairs 6 cfg = Ok [(bytes_of "lab", bytes_of "host", bytes_of "10.0.0.7"); (bytes_of "lab", bytes_of "port", bytes_of "6521")].
Proof.
  apply (esl_config_roundtrip (fun _ => Some (file_text demo_items)) (bytes_of "/etc/fs_cli.conf") demo_items); [reflexivity|reflexivity|].
  repeat (apply Forall_cons; split; [split; [cbn; lia|split_and?; first [exact I|discriminate|reflexivity|cbn; lia|apply (bool_decide_unpack _); vm_compute; exact I]]|]). constructor.
Defined.
