(* ===== verification/AgcCliProof.v ===== *)
(** * The profiles of the console

    The profiles of a configuration file are its categories with what is set
    under them; reading the configuration ends for every file; and a setting
    in front of the first category is written outside of the array. *)

From stdpp Require Import base list strings.
From Stdlib Require Import ZArith Lia.
From S2P Require Import Prelude CString Json JsonMain Api EventSocket EslConfig EslConfigProof EslClient AgcCli.

Module AgcCliProof.
Import EslConfig EslConfigProof AgcCli.

(** ** Reading ends *)

Lemma read_loop_ends fuel : forall cfg cur g, (length (default [] (file cfg)) < fuel)%nat -> read_loop fuel cfg cur g <> OutOfFuel.
Proof.
  induction fuel as [|fuel IH]; intros cfg cur g Hf; [lia|]. cbn [read_loop].
  destruct (next_pair_total cfg) as (cfg' & ret & var & val & -> & Hl). cbn [rbind]. destruct (Z.eqb_spec ret 0) as [|Hr]; [done|].
  specialize (Hl Hr). unfold new_category. destruct (bool_decide _); [|destruct (_ <=? _)%nat; [done|]]; cbn [rbind].
  all: destruct var as [var|]; [|done]; destruct val as [val|]; [|destruct (set_profile var []); [done|apply IH; lia]].
  all: unfold apply_pair; repeat case_match; cbn [rbind]; try done; apply IH; lia.
Qed.

Lemma find_section_ends fuel : forall cfg fp, (length (default [] (file cfg)) < fuel)%nat -> find_section fuel cfg fp <> OutOfFuel.
Proof.
  induction fuel as [|fuel IH]; intros cfg fp Hf; [lia|]. cbn [find_section].
  destruct (next_pair_total cfg) as (cfg' & ret & var & val & -> & Hl). cbn [rbind]. destruct (Z.eqb_spec ret 0) as [|Hr]; [done|].
  specialize (Hl Hr). destruct (_ && _); [done|]. apply IH. lia.
Qed.

Lemma open_file_ends fopen fp : esl_config_open_file fopen fp <> OutOfFuel.
Proof.
  unfold esl_config_open_file. destruct (fopen _); [done|]. destruct (_ =? _); [done|]. destruct (fopen _); [|done]. apply find_section_ends. cbn. lia.
Qed.

(** ** What is read *)

(** The settings of a file, one after the other. *)
Fixpoint run_settings (cur : cstr) (g : cli_config) (l : list (cstr * cstr * cstr)) : result cli_config :=
  match l with
  | [] => Ok g
  | (cat, n, v) :: l =>
      let! (cur, g) := new_category cur cat g in
      let! g := apply_pair n v g in
      run_settings cur g l
  end.

Lemma read_loop_file fuel : forall xs cfg cur g, Forall item_ok xs -> file cfg = Some (file_text xs) -> (length xs < fuel)%nat ->
  read_loop fuel cfg cur g = run_settings cur g (pairs_of (category cfg) xs).
Proof.
  induction fuel as [|fuel IH]; intros xs cfg cur g Hxs Hf Hl; [lia|]. cbn [read_loop]. pose proof (next_pair_file xs cfg Hxs Hf) as H.
  destruct (pairs_of (category cfg) xs) as [|[[cat n] v] l].
  - destruct H as (c' & v1 & v2 & ->). done.
  - destruct H as (c' & ys & -> & Hc & Hf' & Hp & Hys & Hlt). cbn [rbind run_settings]. change (1 =? 0) with false. cbv iota.
    rewrite Hc. destruct (new_category cur cat g) as [[cur' g']| |]; cbn [rbind]; try done.
    destruct (apply_pair n v g') as [g''| |]; cbn [rbind]; try done. rewrite (IH ys) by (done || lia). by rewrite Hc, Hp.
Qed.

(** ** Profiles *)

Definition psection := (cstr * list (cstr * cstr))%type.

Definition section_items (s : psection) : list item := ICategory s.1 :: ((fun nv => IPair nv.1 nv.2) <$> s.2).
Definition section_profile (s : psection) : cli_profile :=
  foldl (fun p nv => match set_profile nv.1 nv.2 with Some f => f p | None => p end) (new_profile s.1) s.2.

Record section_ok (s : psection) : Prop := SectionOk {
  so_name : s.1 <> [] /\ (length s.1 < 128)%nat;
  so_items : Forall item_ok (section_items s);
  so_some : s.2 <> [];
  so_known : Forall (fun nv => is_Some (set_profile nv.1 nv.2)) s.2 }.

(** Neighbours have different names. *)
Fixpoint alternating (prev : cstr) (ss : list psection) : Prop :=
  match ss with [] => True | s :: ss => s.1 <> prev /\ alternating s.1 ss end.

Lemma section_pairs cat l rest : pairs_of cat (((fun nv => IPair nv.1 nv.2) <$> l) ++ rest) = ((fun nv => (cat, nv.1, nv.2)) <$> l) ++ pairs_of cat rest.
Proof. induction l as [|nv l IH]; [done|]. cbn. by rewrite IH. Qed.

Lemma apply_last n v f ps p t ct : set_profile n v = Some f -> apply_pair n v (CliConfig (ps ++ [p]) t ct) = Ok (CliConfig (ps ++ [f p]) t ct).
Proof. intros E. unfold apply_pair. rewrite E. cbn [profiles]. rewrite reverse_snoc. cbv iota. by rewrite reverse_cons, reverse_involutive. Qed.

(** The settings under the current category. *)
Lemma run_same cat l : Forall (fun nv => is_Some (set_profile nv.1 nv.2)) l -> forall ps p t ct rest,
  run_settings cat (CliConfig (ps ++ [p]) t ct) (((fun nv => (cat, nv.1, nv.2)) <$> l) ++ rest) =
  run_settings cat (CliConfig (ps ++ [foldl (fun p nv => match set_profile nv.1 nv.2 with Some f => f p | None => p end) p l]) t ct) rest.
Proof.
  induction 1 as [|[n v] l [f Hf] Hl IH]; intros ps p t ct rest; [done|]. cbn [fmap list_fmap app run_settings fst snd] in *.
  unfold new_category. rewrite bool_decide_true by done. cbn [rbind]. rewrite (apply_last _ _ f) by done. cbn [rbind]. rewrite IH. cbn [foldl fst snd]. by rewrite Hf.
Qed.

Lemma run_section s ps t ct cur rest : section_ok s -> s.1 <> cur -> (length ps < MAX_PROFILES)%nat ->
  run_settings cur (CliConfig ps t ct) (((fun nv => (s.1, nv.1, nv.2)) <$> s.2) ++ rest) =
  run_settings s.1 (CliConfig (ps ++ [section_profile s]) t ct) rest.
Proof.
  intros [[Hn Hl] _ Hs Hk] Hc Hps. unfold section_profile. destruct s as [cat [|[n v] l]]; [done|]. cbn [fst snd] in *.
  apply Forall_cons in Hk as [[f Hf] Hk]. cbn [fmap list_fmap app run_settings fst snd] in *. unfold new_category at 1.
  rewrite bool_decide_false by congruence. cbn [profiles timeout connect_timeout]. rewrite (proj2 (Nat.leb_gt _ _)) by lia. cbn [rbind].
  assert (esl_copy_string cat 128 = cat) as -> by (apply take_ge; lia). rewrite (apply_last _ _ f) by done. cbn [rbind].
  rewrite run_same by done. cbn [foldl fst snd]. by rewrite Hf.
Qed.

Lemma run_sections ss : Forall section_ok ss -> forall ps t ct cur, alternating cur ss -> (length ps + length ss <= MAX_PROFILES)%nat ->
  run_settings cur (CliConfig ps t ct) (pairs_of cur (concat (section_items <$> ss))) = Ok (CliConfig (ps ++ (section_profile <$> ss)) t ct).
Proof.
  induction 1 as [|s ss Hs Hss IH]; intros ps t ct cur Ha Hl; [cbn; by rewrite app_nil_r|]. destruct Ha as [Hne Ha].
  cbn [fmap list_fmap concat section_items app pairs_of]. rewrite section_pairs, run_section by (done || cbn in Hl; lia).
  rewrite IH; [by rewrite <- app_assoc|done|]. rewrite length_app. cbn in Hl |- *. lia.
Qed.

End AgcCliProof.

Import EslConfig EslConfigProof AgcCli AgcCliProof.

(** Reading the configuration ends for every content of the files. *)
Theorem read_config_ends fopen dft_cfile cfile g : read_config fopen dft_cfile cfile g <> OutOfFuel.
Proof.
  unfold read_config. pose proof (open_file_ends fopen cfile). pose proof (open_file_ends fopen dft_cfile).
  destruct (esl_config_open_file fopen cfile) as [[cfg []]| |]; cbn [rbind]; try done.
  - destruct (file cfg) eqn:E; [|done]. apply read_loop_ends. rewrite E. cbn. lia.
  - destruct (esl_config_open_file fopen dft_cfile) as [[cfg' []]| |]; cbn [rbind]; try done.
    destruct (file cfg') eqn:E; [|done]. apply read_loop_ends. rewrite E. cbn. lia.
Qed.

(** A configuration file gives a profile for each of its sections, in order,
    with the defaults and then the settings of the section applied to it. *)
Theorem read_config_profiles fopen dft_cfile cfile ss t ct : hd 0 cfile = 47 -> fopen cfile = Some (file_text (concat (section_items <$> ss))) ->
  Forall section_ok ss -> alternating [] ss -> (length ss <= MAX_PROFILES)%nat ->
  read_config fopen dft_cfile cfile (CliConfig [] t ct) = Ok (CliConfig (section_profile <$> ss) t ct).
Proof.
  intros Hc Hf Hss Ha Hl. unfold read_config, esl_config_open_file. rewrite Hc. change (47 =? 47) with true. cbv iota. rewrite Hf. cbn [rbind file].
  set (xs := concat (section_items <$> ss)) in *. assert (Forall item_ok xs) as Hxs.
  { unfold xs. apply Forall_concat, Forall_fmap. eapply Forall_impl; [exact Hss|]. by intros s []. }
  rewrite (read_loop_file _ xs) by (try done; pose proof (file_text_length xs); lia). cbn [category].
  unfold xs. by rewrite run_sections.
Qed.

Definition demo_sections : list psection :=
  [(bytes_of "lab", [(bytes_of "host", bytes_of "10.0.0.7"); (bytes_of "Port", bytes_of "6521")]); (bytes_of "site", [(bytes_of "batchmode", bytes_of "yes")])].

Ltac decide_text := apply (bool_decide_unpack _); vm_compute; exact I.
Ltac demo_items_ok :=
  repeat (apply Forall_cons; split; [split; [cbn; lia|split_and?; first [exact I|discriminate|reflexivity|cbn; lia|decide_text]]|]); constructor.

Lemma read_config_profiles_witness :
  exists p q, read_config (fun _ => Some (file_text (concat (section_items <$> demo_sections)))) [] (bytes_of "/etc/fs_cli.conf") (CliConfig [] 0 0) =
    Ok (CliConfig [p; q] 0 0) /\ p_name p = bytes_of "lab" /\ p_host p = bytes_of "10.0.0.7" /\ p_port p = 6521 /\ p_batch q = true /\ p_port q = 8021.
Proof.
  eexists _, _. split.
  - apply (read_config_profiles _ [] (bytes_of "/etc/fs_cli.conf") demo_sections 0 0); [reflexivity|reflexivity| |split; [discriminate|split; [discriminate|exact I]]|cbn; unfold MAX_PROFILES; lia].
    apply Forall_cons. split; [|apply Forall_cons; split; [|constructor]].
    + split; [split; [discriminate|cbn; lia]|demo_items_ok|discriminate|repeat constructor; eexists; reflexivity].
    + split; [split; [discriminate|cbn; lia]|demo_items_ok|discriminate|repeat constructor; eexists; reflexivity].
  - split_and!; reflexivity.
Defined.

(** A setting in front of the first category is written outside of the array of
    profiles. *)
Theorem read_config_before_category fopen dft_cfile cfile n v xs t ct : hd 0 cfile = 47 ->
  fopen cfile = Some (file_text (IPair n v :: xs)) -> Forall item_ok (IPair n v :: xs) -> is_Some (set_profile n v) ->
  read_config fopen dft_cfile cfile (CliConfig [] t ct) = Fault OutOfBounds.
Proof.
  intros Hc Hf Hxs [f Hs]. unfold read_config, esl_config_open_file. rewrite Hc. change (47 =? 47) with true. cbv iota. rewrite Hf. cbn [rbind file].
  rewrite (read_loop_file _ (IPair n v :: xs)) by (try done; pose proof (file_text_length (IPair n v :: xs)); lia).
  cbn [category pairs_of run_settings]. unfold new_category. rewrite bool_decide_true by done. cbn [rbind]. unfold apply_pair. by rewrite Hs.
Qed.

Lemma read_config_before_category_witness :
  read_config (fun _ => Some (file_text [IPair (bytes_of "host") (bytes_of "10.0.0.7")])) [] (bytes_of "/etc/fs_cli.conf") (CliConfig [] 0 0) = Fault OutOfBounds.
Proof.
  apply (read_config_before_category _ [] (bytes_of "/etc/fs_cli.conf") (bytes_of "host") (bytes_of "10.0.0.7") [] 0 0); [reflexivity|reflexivity|demo_items_ok|].
  eexists. reflexivity.
Defined.

(** At the end of its input the console does not end: every turn of the main
    loop prints the prompt, finds no line, and goes on. *)
Theorem agc_cli_eof_spins `{Json.FloatOps} junk vasprintf turns fuel s prompt_str ws : 0 < running s ->
  exists s', main_loop junk vasprintf turns fuel s prompt_str [] ws = Ok (s', [], ws) /\ 0 < running s' /\
    out s' = out s ++ concat (replicate turns prompt_str).
Proof.
  revert s. induction turns as [|turns IH]; intros s Hr; [exists s; cbn; by rewrite app_nil_r|]. cbn [main_loop].
  rewrite (proj2 (Z.ltb_lt _ _) Hr). assert (main_turn junk vasprintf fuel s prompt_str [] ws = Ok (print prompt_str s, [], ws)) as -> by done. cbn [rbind].
  destruct (IH (print prompt_str s) Hr) as (s' & -> & Hr' & Ho). exists s'. split_and!; try done. rewrite Ho. cbn. by rewrite <- app_assoc.
Qed.

Definition idle_console : cli := Cli EslClient.zero_handle internal_profile None None 6 1 true false [].

Lemma agc_cli_eof_spins_witness :
  exists s', @main_loop JsonMain.exact_floats (fun _ => 0) (fun _ => None) 3 1 idle_console (bytes_of "agc> ") [] [] = Ok (s', [], []) /\ 0 < running s' /\
    out s' = bytes_of "agc> agc> agc> ".
Proof. apply (@agc_cli_eof_spins JsonMain.exact_floats (fun _ => 0) (fun _ => None) 3 1 idle_console (bytes_of "agc> ") []). reflexivity. Defined.

(** A port above 32767 is kept in 16 bits with a sign, and the prompt shows
    another number. *)
Theorem agc_cli_high_port_prompt a p h pt : a_host a = Some h -> a_port a = Some pt -> 32768 <= pt < 65536 ->
  p_port (apply_args a p) = pt - 65536 /\
  bare_prompt a (apply_args a p) = EslClient.snprintf 512 (bytes_of "agc@" ++ h ++ [58] ++ print_uint (pt - 65536 + 2 ^ 32) ++ [64] ++ p_name p ++ bytes_of "> ").
Proof.
  intros Hh Hp Hpt. assert (sext 16 pt = pt - 65536) as Hs.
  { unfold sext. rewrite wrap_small by lia. cbv zeta. destruct (Z.ltb_spec pt (2 ^ (16 - 1))); lia. }
  assert (p_port (apply_args a p) = pt - 65536) as Hport.
  { rewrite <- Hs. unfold apply_args. rewrite Hp. repeat case_match; done. }
  split; [done|]. unfold bare_prompt. rewrite Hh, Hp, Hport, (proj2 (Z.eqb_neq _ _)) by lia. cbn [negb].
  assert (p_host (apply_args a p) = h) as -> by (unfold apply_args; rewrite Hh; repeat case_match; done).
  assert (p_name (apply_args a p) = p_name p) as -> by (unfold apply_args; repeat case_match; done).
  assert (wrap 32 (pt - 65536) = pt - 65536 + 2 ^ 32) as ->; [|done].
  unfold wrap. rewrite <- (Z.mod_add _ 1), Z.mod_small by lia. lia.
Qed.

Lemma agc_cli_high_port_prompt_witness :
  let a := read_options (no_args true) [(72, bytes_of "lab"); (80, bytes_of "40000")] in
  p_port (apply_args a internal_profile) = -25536 /\ bare_prompt a (apply_args a internal_profile) = bytes_of "agc@lab:4294941760@internal> ".
Proof.
  intros a. destruct (agc_cli_high_port_prompt a internal_profile (bytes_of "lab") 40000) as [H1 H2]; [reflexivity|reflexivity|lia|].
  split; [exact H1|exact H2].
Defined.
