(* ===== verification/AgcCliSession.v ===== *)
(** * A command typed at the console

    From the keyboard to the screen: a line typed at the console is sent to the
    server as an [api] command, the server runs it, and the console prints what
    it answered. *)

From stdpp Require Import base gmap list fin_maps strings.
From Stdlib Require Import ZArith Lia.
From S2P Require Import Prelude CString Queue Event EventProof EventBus Json JsonProof JsonMain EventJson Utils Api ApiProof EventSocket EventSocketProof EventSocketMain.
From S2P Require Import EslBuffer EslBufferProof EslText EslEvent EslEventProof EslWire EslClient EslClientProof EslSession EslConfig AgcCli.

Module AgcCliSession.
Import Ev EvProof Bus EvJson ApiProof Esl EslProof EslMain EslClientProof EslSession.

(** ** The server *)

(** The request of the console for a command. *)
Definition api_request (cmd : cstr) : request :=
  Request [LF] (bytes_of "api " ++ cmd) [(bytes_of "console_execute", bytes_of "true")].

Record typed (cmd : cstr) : Prop := Typed {
  ty_plain : plain cmd;
  ty_some : cmd <> [];
  ty_short : (length cmd < 900)%nat;
  ty_start : hd 0 cmd <> 32 /\ hd 0 cmd <> 47;
  ty_dots : has_prefix (bytes_of "...") cmd = false;
  ty_level : has_prefix (bytes_of "console loglevel ") cmd = false }.

Lemma execute_header_ok : header_ok (bytes_of "console_execute", bytes_of "true").
Proof. split; cbn [fst snd]; [plain_text|by apply (bool_decide_unpack _); vm_compute|plain_text|discriminate]. Qed.

Lemma request_of_ok c : plain c -> c <> [] -> (length c < 1000)%nat -> request_ok (Request [LF] c [(bytes_of "console_execute", bytes_of "true")]).
Proof.
  intros Hp Hn Hl. split; cbn [r_eol r_cmd r_headers]; [by left|done|done|apply Forall_singleton, execute_header_ok|].
  unfold request_text, EslProof.head_text, EVTSKT_MAX_LEN. cbn [r_eol r_cmd r_headers]. rewrite !length_app. cbn. lia.
Qed.

Lemma plain_api cmd : plain cmd -> plain (bytes_of "api " ++ cmd).
Proof. intros Hc. apply Forall_app. split; [plain_text|done]. Qed.

(** The text behind [api ] is the command that was typed. *)
Lemma api_line cmd : typed cmd -> strip_cr (drop 4 (request_text (api_request cmd))) = cmd.
Proof.
  intros [Hp Hn Hl _ _ _]. change (drop 4 (request_text (api_request cmd))) with (request_text (Request [LF] cmd [(bytes_of "console_execute", bytes_of "true")])).
  apply request_line. by apply request_of_ok; [..|lia].
Qed.

(** The answer: what the command wrote, or that there is none such. *)
Definition api_reply (api_cmd : cstr) (st : Api.stream) (status : agc_status) : cstr :=
  let reply :=
    if bool_decide (status = AGC_STATUS_SUCCESS) then cstring (Api.data st)
    else bytes_of "-ERR " ++ api_cmd ++ bytes_of " Command not found!" ++ [LF] in
  if (length reply =? 0)%nat then bytes_of "-ERR no reply" ++ [LF] else reply.

Section server.
Context `{Json.FloatOps} (hf : nat) (junk : nat -> Z).
Context (run_func : Z -> option cstr -> Api.stream -> result (Api.stream * agc_status)) (APIS : list Api.agc_api_interface).

Lemma api_served fuel b c cmd input st status act : is_running c = true -> has_sock c = true -> quiet c -> store_ok (mem b) -> typed cmd -> (3 < hf)%nat ->
  arrives (request_text (api_request cmd)) input [] ->
  Api.agc_api_execute junk true run_func APIS (Some (Api.strchr 32 cmd).1) (Api.strchr 32 cmd).2 Api.agc_api_stand_stream = Ok (st, status, act) ->
  exists m, connection_run hf junk run_func APIS (S (S fuel)) b c input [] =
    Ok (with_mem m b, send (frame_text (notice_lines farewell)) (send (api_frame (api_reply (Api.strchr 32 cmd).1 st status)) c), [act]).
Proof.
  intros Hrun Hs Hq Hok Hty Hf Ha Hx. pose proof Hty as [Hp Hn Hl _ _ _]. cbn [connection_run]. rewrite Hrun. cbn [negb].
  assert (request_ok (api_request cmd)) as Hr by (apply request_of_ok; [by apply plain_api|done|rewrite length_app; cbn; lia]).
  destruct (read_packet_spec hf [] (api_request cmd) b c input [] None []) as (m & K & -> & HB & HK); try done.
  { repeat constructor. }
  { cbn. lia. }
  { change None with (if 0 <? announces (bytes_of "console_execute", bytes_of "true") then Some (cstring []) else @None cstr).
    eapply (bodies_cons _ _ _ _ [] _ []); [constructor|done|constructor]. }
  cbn [rbind negb].
  assert (length K < hf)%nat as HKf.
  { apply (f_equal length) in HK. rewrite length_fmap in HK. cbn in HK. lia. }
  unfold parse_command. fold COMMAND. cbn [mem with_mem]. rewrite (command_header hf _ (brk (mem b)) K (api_request cmd)) by (done || by apply HB). cbn [rbind].
  rewrite !(request_prefix _ _ Hr) by plain_text. cbn [api_request r_cmd]. rewrite !has_prefix_app by (cbn; lia).
  change (has_prefix (bytes_of "exit") (bytes_of "api ")) with false. change (has_prefix (bytes_of "...") (bytes_of "api ")) with false.
  change (has_prefix (bytes_of "api ") (bytes_of "api ")) with true. cbn [orb]. rewrite api_line by done.
  destruct (Api.strchr 32 cmd) as [api_cmd arg]. cbn [fst snd] in Hx |- *. unfold api_exec. rewrite Hrun. cbn [negb]. rewrite Hx. cbn [rbind].
  destruct (building_destroy hf _ _ _ _ _ _ HB Hok HKf) as (m' & Hde & Hun). cbn [mem with_mem]. rewrite Hde. cbn [rbind reply_frame].
  fold (api_reply api_cmd st status). set (c1 := send (api_frame (api_reply api_cmd st status)) c).
  assert (send [] c1 = c1) as -> by (unfold send; destruct c1; cbn; by rewrite app_nil_r).
  replace (is_running c1) with true by done. cbn [negb read_packet read_loop rbind]. exists m'. rewrite <- notice_text; [done|done|done|].
  cbn. lia.
Qed.

End server.

(** ** The console *)

Lemma api_text_request cmd : typed cmd -> AgcCli.api_text cmd = request_text (api_request cmd) /\ sent_text (AgcCli.api_text cmd) = request_text (api_request cmd).
Proof.
  intros [_ _ Hl _ _ _]. assert (AgcCli.api_text cmd = request_text (api_request cmd)) as E.
  { unfold AgcCli.api_text, EslClient.snprintf. rewrite take_ge by (rewrite !length_app; cbn; lia).
    unfold request_text, EslProof.head_text, api_request, LF. cbn [r_eol r_cmd r_headers]. by rewrite <- !app_assoc. }
  split; [done|]. rewrite E. unfold sent_text, ends_blank.
  assert (request_text (api_request cmd) = (bytes_of "api " ++ cmd ++ [10] ++ bytes_of "console_execute: true") ++ [10; 10]) as ->.
  { unfold request_text, EslProof.head_text, api_request, LF. cbn [r_eol r_cmd r_headers]. by rewrite <- !app_assoc. }
  by rewrite reverse_app.
Qed.

Lemma api_reply_text cmd st status : typed cmd -> Forall (fun c => c <> 0) (api_reply (Api.strchr 32 cmd).1 st status).
Proof.
  intros [Hp _ _ _ _ _]. unfold api_reply. destruct (bool_decide _).
  - destruct (length _ =? 0)%nat; [plain_text|]. apply cstring_nonzero.
  - rewrite (proj2 (Nat.eqb_neq _ _)) by (rewrite !length_app; cbn; lia). rewrite !Forall_app. split_and!; [plain_text| |plain_text|by repeat constructor].
    clear -Hp. induction Hp as [|c s [Hc _] Hs IH]; [constructor|]. cbn. destruct (c =? 32); [constructor|].
    destruct (Api.strchr 32 s). by constructor.
Qed.

Lemma api_lines_ok reply : Forall (fun c => c <> 0) reply -> Z.of_nat (length reply) < 2 ^ 31 ->
  frame_ok (api_lines reply) /\ EslClient.is_other (frame_event (api_lines reply)) = false.
Proof.
  intros Hz Hl. split.
  - apply (sized_frame_ok (bytes_of "api/response") reply); [discriminate|cbn; lia|reflexivity|done|done].
  - unfold EslClient.is_other. rewrite (EslEvProof.get_header_pairs _ (SOCKET_DATA :: decoded (f_lines (api_lines reply)))) by done.
    cbn [api_lines f_lines decoded fmap list_fmap fst snd]. rewrite (sent_decode (bytes_of "api/response")) by (by apply type_plain).
    compare_names. done.
Qed.

Section console.
Context `{Json.FloatOps} (junk : nat -> Z) (vasprintf : cstr -> option cstr).

Lemma console_prints fuel s cmd reply fs ws : typed cmd -> expects (AgcCli.handle s) ws (api_lines reply :: fs) ->
  EslClient.is_other (frame_event (api_lines reply)) = false ->
  exists s' ws', AgcCli.process_command junk vasprintf (S fuel) s cmd true true ws = Ok (s', 0, ws') /\
    AgcCli.out s' = AgcCli.out s ++ (if AgcCli.p_batch (AgcCli.profile s) then [] else AgcCli.p_output_color (AgcCli.profile s)) ++ reply ++ [10] /\
    EslClient.sent (AgcCli.handle s') = EslClient.sent (AgcCli.handle s) ++ request_text (api_request cmd) /\
    EslClient.race_event (AgcCli.handle s') = EslClient.race_event (AgcCli.handle s) /\ expects (AgcCli.handle s') ws' fs.
Proof.
  intros Hty He Hr. destruct (api_text_request cmd Hty) as [Ha Hst]. pose proof Hty as [Hp Hn Hl [H32 H47] Hd Hlv].
  unfold AgcCli.process_command. assert (skip_blank cmd = cmd) as ->.
  { destruct cmd as [|c cmd]; [done|]. cbn in H32 |- *. by rewrite (proj2 (Z.eqb_neq _ _) H32). }
  rewrite (proj2 (Z.eqb_neq _ _) H47), Hd. unfold AgcCli.server_command. rewrite Hlv. cbn [rbind].
  destruct (send_recv_spec junk vasprintf (api_lines reply) fs [] (S fuel) (AgcCli.handle s) ws (AgcCli.api_text cmd) He) as
    (h1 & ws1 & -> & He1 & Hq1 & Hr1 & Hs1 & _); [cbn; lia|..|done|].
  { by rewrite Ha. }
  { rewrite Ha. discriminate. }
  { constructor. }
  cbn [rbind]. rewrite bool_decide_true by done. cbn [negb]. unfold AgcCli.show_answer. cbn [AgcCli.handle AgcCli.with_handle]. rewrite Hr1.
  cbn [frame_event received_event EslEv.body f_body api_lines rbind].
  eexists _, ws1. split; [done|]. cbn [AgcCli.output_printf AgcCli.print AgcCli.with_handle AgcCli.handle AgcCli.out AgcCli.profile].
  split_and!; [done|by rewrite Hs1, Hst|by rewrite Hq1, app_nil_r|done].
Qed.

End console.
End AgcCliSession.

Import Ev EvProof Bus EvJson ApiProof Esl EslProof EslMain EslClientProof EslSession AgcCliSession.

(** C18: A command typed at the console is run by the server and its answer is
    printed: the console sends the line as an [api] request; the server, which
    gets these bytes in any pieces, calls the function registered for the first
    word with the rest of the line, and sends what it wrote; and the console,
    which gets the answer in any pieces, prints it followed by a line feed. *)
Theorem agc_cli_command_answered `{Json.FloatOps} hf junk run_func APIS fuel b c cmd input st status act cjunk vasprintf cfuel s :
  is_running c = true -> has_sock c = true -> sent c = [] -> quiet c -> store_ok (mem b) -> typed cmd -> (3 < hf)%nat ->
  connected_handle (AgcCli.handle s) -> arrives (request_text (api_request cmd)) input [] ->
  Api.agc_api_execute junk true run_func APIS (Some (Api.strchr 32 cmd).1) (Api.strchr 32 cmd).2 Api.agc_api_stand_stream = Ok (st, status, act) ->
  exists m c', connection_run hf junk run_func APIS (S (S fuel)) b c input [] = Ok (with_mem m b, c', [act]) /\
    forall ws, Forall wake_ok ws -> stream ws = sent c' -> Z.of_nat (length (sent c')) < EslClient.BUF_START ->
    exists s' ws', AgcCli.process_command cjunk vasprintf (S cfuel) s cmd true true ws = Ok (s', 0, ws') /\
      AgcCli.out s' = AgcCli.out s ++ (if AgcCli.p_batch (AgcCli.profile s) then [] else AgcCli.p_output_color (AgcCli.profile s)) ++
        api_reply (Api.strchr 32 cmd).1 st status ++ [10] /\
      EslClient.sent (AgcCli.handle s') = EslClient.sent (AgcCli.handle s) ++ request_text (api_request cmd).
Proof.
  intros Hrun Hs Hse Hq Hok Hty Hf Hh Ha Hx.
  destruct (api_served hf junk run_func APIS fuel b c cmd input st status act Hrun Hs Hq Hok Hty Hf Ha Hx) as (m & ->).
  exists m. eexists. split; [done|]. cbn [send sent]. rewrite Hse, app_nil_l. intros ws Hw Hst Hl.
  set (reply := api_reply (Api.strchr 32 cmd).1 st status) in *.
  assert (Forall (fun c => c <> 0) reply) as Hz by (by apply api_reply_text).
  assert (Z.of_nat (length reply) < 2 ^ 31) as Hrl.
  { unfold EslClient.BUF_START in Hl. unfold api_frame in Hl. rewrite !length_app in Hl. lia. }
  destruct (api_lines_ok reply Hz Hrl) as [Hfo Hio]. rewrite api_frame_text in Hst, Hl by done.
  destruct (console_prints cjunk vasprintf cfuel s cmd reply [notice_lines farewell] ws Hty) as (s' & ws' & Hpc & Ho & Hsent & _); [|done|by exists s', ws'].
  apply expects_new; [done|]. split; [|done|rewrite Hst; cbn; by rewrite app_nil_r|by rewrite Hst].
  apply Forall_cons. split; [done|]. apply Forall_cons. split; [exact farewell_ok|constructor].
Qed.


(** A command [load] whose function writes its argument. *)
Definition echo_apis : list Api.agc_api_interface := [Api.ApiInterface (bytes_of "load") None None 5].
Definition echo_func (fn : Z) (arg : option cstr) (st : Api.stream) : result (Api.stream * agc_status) :=
  Api.agc_api_stream_write (fun _ => 0) true st (Some (bytes_of "loaded " ++ default [] arg)).
Definition echo_cmd : cstr := bytes_of "load mod_redis".
Definition echo_console : AgcCli.cli := AgcCli.Cli demo_handle (AgcCli.with_batch true AgcCli.internal_profile) None None 6 1 true false [].

Lemma echo_typed : typed echo_cmd.
Proof. split; [demo_plain|discriminate|cbn; lia|split; discriminate|reflexivity|reflexivity]. Qed.

Lemma agc_cli_command_answered_witness :
  exists m c', @connection_run exact_floats 9 (fun _ => 0) echo_func echo_apis 2 demo_bus demo_conn
      (Data <$> request_text (api_request echo_cmd)) [] = Ok (with_mem m demo_bus, c', [Api.Called None 5 (Some (bytes_of "mod_redis"))]) /\
    forall ws, Forall wake_ok ws -> stream ws = sent c' -> Z.of_nat (length (sent c')) < EslClient.BUF_START ->
    exists s' ws', @AgcCli.process_command exact_floats (fun _ => 0) (fun _ => None) 1 echo_console echo_cmd true true ws = Ok (s', 0, ws') /\
      AgcCli.out s' = bytes_of "loaded mod_redis" ++ [10].
Proof.
  destruct (Api.agc_api_execute (fun _ => 0) true echo_func echo_apis (Some (bytes_of "load")) (Some (bytes_of "mod_redis")) Api.agc_api_stand_stream)
    as [[[st status] act]| |] eqn:E; [|vm_compute in E; discriminate E|vm_compute in E; discriminate E].
  destruct (@agc_cli_command_answered exact_floats 9 (fun _ => 0) echo_func echo_apis 0 demo_bus demo_conn echo_cmd
    (Data <$> request_text (api_request echo_cmd)) st status act (fun _ => 0) (fun _ => None) 0 echo_console) as (m & c' & Hr & Hc).
  - reflexivity.
  - reflexivity.
  - reflexivity.
  - exact demo_quiet.
  - exact demo_store_ok.
  - exact echo_typed.
  - lia.
  - exact demo_handle_ok.
  - rewrite <- (app_nil_r (Data <$> _)). apply arrives_whole.
  - exact E.
  - vm_compute in E. injection E as <- <- <-. exists m, c'. split; [exact Hr|]. intros ws Hw Hs Hl.
    destruct (Hc ws Hw Hs Hl) as (s' & ws' & H1 & H2 & _). exists s', ws'. split; [exact H1|exact H2].
Defined.
