(* ===== verification/Odbc.v ===== *)
(** * Database connections

    [src/src/agc_odbc.c]: a connection to a database over ODBC, its
    reconnecting, and the execution of statements.  The driver is a parameter,
    the class [OdbcDriver]: for a call of its interface it gives an answer.
    Which handles it has handed out is kept beside it, so that a use of a
    handle that was given back, or a second return of it, is a fault.  A null
    handle is refused with [SQL_INVALID_HANDLE], as the interface documents.
    What is logged and the pauses between attempts are left out. *)

From stdpp Require Import base gmap list strings.
From Stdlib Require Import ZArith Lia.
From S2P Require Import Prelude CString EslText.

Module Odbc.

(** ** The interface of the driver *)

Definition SQL_SUCCESS : Z := 0.
Definition SQL_SUCCESS_WITH_INFO : Z := 1.
Definition SQL_NEED_DATA : Z := 99.
Definition SQL_NO_DATA : Z := 100.
Definition SQL_ERROR : Z := -1.
Definition SQL_INVALID_HANDLE : Z := -2.
Definition SQL_NULL_HANDLE : Z := 0.

(** The calls the code makes; handles are numbers, zero is the null handle. *)
Inductive sqlcall :=
  | AllocEnv
  | AllocDbc (env : Z)
  | AllocStmt (con : Z)
  | SetEnvAttr (env : Z)
  | SetLoginTimeout (con : Z)
  | SetQueryTimeout (stmt : Z)
  | Connect (con : Z) (dsn : cstr) (username password : option cstr)
  | DriverConnect (con : Z) (dsn : cstr)
  | GetDiagRec (con : Z)
  | GetInfo (con : Z)
  | Disconnect (con : Z)
  | SetAutoCommit (con : Z) (on : bool)
  | EndTran (con : Z) (commit : bool)
  | Prepare (stmt : Z) (sql : cstr)
  | Execute (stmt : Z)
  | RowCount (stmt : Z)
  | NumResultCols (stmt : Z)
  | Fetch (stmt : Z)
  | DescribeCol (stmt x : Z)
  | GetData (stmt x : Z)
  | Error (env con stmt : Z).

(** An answer: the code returned, and the number and the texts it stores. *)
Record answer := Answer { code : Z; num : Z; text : cstr; sqlstate : cstr }.

Class OdbcDriver := {
  drv : Type;
  SQL : drv -> sqlcall -> drv * answer }.

Section odbc.
Context `{OdbcDriver}.

(** The driver and the handles it has handed out; a statement belongs to a
    connection. *)
Record world := World {
  driver : drv;
  envs : gset Z;
  dbcs : gset Z;
  stmts : gmap Z Z;
  next : Z }.

Definition with_driver d w := World d (envs w) (dbcs w) (stmts w) (next w).

(** The handle a call works on: null, or handed out and not returned. *)
Definition usable (x : Z) (out : bool) : result bool :=
  if x =? SQL_NULL_HANDLE then Ok false else if out then Ok true else Fault BadPointer.
Definition use_env w e := usable e (bool_decide (e ∈ envs w)).
Definition use_dbc w c := usable c (bool_decide (c ∈ dbcs w)).
Definition use_stmt w s := usable s (bool_decide (is_Some (stmts w !! s))).

Definition usable_call (w : world) (c : sqlcall) : result bool :=
  match c with
  | AllocEnv => Ok true
  | AllocDbc e | SetEnvAttr e => use_env w e
  | AllocStmt c | SetLoginTimeout c | Connect c _ _ _ | DriverConnect c _ | GetDiagRec c | GetInfo c
  | Disconnect c | SetAutoCommit c _ | EndTran c _ => use_dbc w c
  | SetQueryTimeout s | Prepare s _ | Execute s | RowCount s | NumResultCols s | Fetch s | DescribeCol s _ | GetData s _ => use_stmt w s
  | Error e c s =>
      if negb (s =? 0) then use_stmt w s else if negb (c =? 0) then use_dbc w c else use_env w e
  end.

Definition call (w : world) (c : sqlcall) : result (world * answer) :=
  let! ok := usable_call w c in
  if ok : bool then let (d, a) := SQL (driver w) c in Ok (with_driver d w, a)
  else Ok (w, Answer SQL_INVALID_HANDLE 0 [] []).

Definition succeeded (r : Z) : bool := (r =? SQL_SUCCESS) || (r =? SQL_SUCCESS_WITH_INFO).

(** [SQLAllocHandle]: the handle is null unless the call succeeds. *)
Definition alloc_env (w : world) : result (world * Z * Z) :=
  let! (w, a) := call w AllocEnv in
  if succeeded (code a) then Ok (World (driver w) ({[next w]} ∪ envs w) (dbcs w) (stmts w) (next w + 1), code a, next w)
  else Ok (w, code a, 0).
Definition alloc_dbc (w : world) (env : Z) : result (world * Z * Z) :=
  let! (w, a) := call w (AllocDbc env) in
  if succeeded (code a) then Ok (World (driver w) (envs w) ({[next w]} ∪ dbcs w) (stmts w) (next w + 1), code a, next w)
  else Ok (w, code a, 0).
Definition alloc_stmt (w : world) (con : Z) : result (world * Z * Z) :=
  let! (w, a) := call w (AllocStmt con) in
  if succeeded (code a) then Ok (World (driver w) (envs w) (dbcs w) (<[next w := con]> (stmts w)) (next w + 1), code a, next w)
  else Ok (w, code a, 0).

(** [SQLFreeHandle] *)
Definition free_env (w : world) (e : Z) : result world :=
  if e =? 0 then Ok w
  else if bool_decide (e ∈ envs w) then Ok (World (driver w) (envs w ∖ {[e]}) (dbcs w) (stmts w) (next w)) else Fault BadFree.
Definition free_dbc (w : world) (c : Z) : result world :=
  if c =? 0 then Ok w
  else if bool_decide (c ∈ dbcs w) then Ok (World (driver w) (envs w) (dbcs w ∖ {[c]}) (stmts w) (next w)) else Fault BadFree.
Definition free_stmt (w : world) (s : Z) : result world :=
  if s =? 0 then Ok w
  else match stmts w !! s with
       | Some _ => Ok (World (driver w) (envs w) (dbcs w) (delete s (stmts w)) (next w))
       | None => Fault BadFree
       end.

(** [SQLDisconnect] also gives back the statements of the connection. *)
Definition disconnect (w : world) (c : Z) : result (world * Z) :=
  let! (w, a) := call w (Disconnect c) in
  if succeeded (code a)
  then Ok (World (driver w) (envs w) (dbcs w) (filter (fun sc => sc.2 <> c) (stmts w)) (next w), code a)
  else Ok (w, code a).

(** ** Connections *)

Inductive odbc_state := STATE_INIT | STATE_DOWN | STATE_CONNECTED | STATE_ERROR.
Inductive odbc_status := ODBC_SUCCESS | ODBC_FAIL.

#[global] Instance odbc_state_eq_dec : EqDecision odbc_state.
Proof. solve_decision. Defined.
#[global] Instance odbc_status_eq_dec : EqDecision odbc_status.
Proof. solve_decision. Defined.

Definition DEFAULT_ODBC_RETRIES : Z := 120.

(** [struct agc_odbc_handle] *)
Record agc_odbc_handle := Handle {
  dsn : cstr;
  username : option cstr;
  password : option cstr;
  env : Z;
  con : Z;
  state : odbc_state;
  odbc_driver : cstr;
  is_firebird : bool;
  is_oracle : bool;
  affected_rows : Z;
  num_retries : Z }.

Definition with_env e h := Handle (dsn h) (username h) (password h) e (con h) (state h) (odbc_driver h) (is_firebird h) (is_oracle h) (affected_rows h) (num_retries h).
Definition with_con c h := Handle (dsn h) (username h) (password h) (env h) c (state h) (odbc_driver h) (is_firebird h) (is_oracle h) (affected_rows h) (num_retries h).
Definition with_state s h := Handle (dsn h) (username h) (password h) (env h) (con h) s (odbc_driver h) (is_firebird h) (is_oracle h) (affected_rows h) (num_retries h).
Definition with_kind d f o h := Handle (dsn h) (username h) (password h) (env h) (con h) (state h) d f o (affected_rows h) (num_retries h).
Definition with_rows n h := Handle (dsn h) (username h) (password h) (env h) (con h) (state h) (odbc_driver h) (is_firebird h) (is_oracle h) n (num_retries h).
Definition with_retries n h := Handle (dsn h) (username h) (password h) (env h) (con h) (state h) (odbc_driver h) (is_firebird h) (is_oracle h) (affected_rows h) n.

Definition agc_odbc_handle_new (dsn : cstr) (username password : option cstr) : agc_odbc_handle :=
  Handle dsn username password SQL_NULL_HANDLE 0 STATE_INIT [] false false 0 DEFAULT_ODBC_RETRIES.

Definition agc_odbc_set_num_retries (h : agc_odbc_handle) (num_retries : Z) : agc_odbc_handle := with_retries num_retries h.

(** [init_odbc_handles] *)
Definition init_odbc_handles (w : world) (h : agc_odbc_handle) (do_reinit : bool) : result (world * agc_odbc_handle * odbc_status) :=
  let! (w, h) :=
    (if do_reinit && negb (env h =? SQL_NULL_HANDLE) then
       let! w := free_dbc w (con h) in
       let! w := free_env w (env h) in
       Ok (w, with_env SQL_NULL_HANDLE h)
     else Ok (w, h)) in
  if env h =? SQL_NULL_HANDLE then
    let! (w, r, e) := alloc_env w in
    if negb (succeeded r) then Ok (w, with_env SQL_NULL_HANDLE h, ODBC_FAIL)
    else
      let h := with_env e h in
      let! (w, a) := call w (SetEnvAttr (env h)) in
      if negb (succeeded (code a)) then
        let! w := free_env w (env h) in Ok (w, with_env SQL_NULL_HANDLE h, ODBC_FAIL)
      else
        let! (w, r, c) := alloc_dbc w (env h) in
        let h := with_con c h in
        if negb (succeeded r) then
          let! w := free_env w (env h) in Ok (w, with_env SQL_NULL_HANDLE h, ODBC_FAIL)
        else
          let! (w, _) := call w (SetLoginTimeout (con h)) in
          Ok (w, h, ODBC_SUCCESS)
  else Ok (w, h, ODBC_SUCCESS).

Definition agc_odbc_handle_disconnect (w : world) (h : agc_odbc_handle) : result (world * agc_odbc_handle * odbc_status) :=
  let! w := (if bool_decide (state h = STATE_CONNECTED) then let! (w, _) := disconnect w (con h) in Ok w else Ok w) in
  Ok (w, with_state STATE_DOWN h, ODBC_SUCCESS).

(** [agc_odbc_handle_get_error]: the message, if there is one. *)
Definition agc_odbc_handle_get_error (w : world) (h : agc_odbc_handle) (stmt : Z) : result (world * option cstr) :=
  let! (w, a) := call w (Error (env h) (con h) stmt) in
  Ok (w, if code a =? SQL_SUCCESS
         then Some (bytes_of "STATE: " ++ sqlstate a ++ bytes_of " CODE " ++ print_int (num a) ++ bytes_of " ERROR: " ++ text a ++ [10])
         else None).

(** The name of the driver, in upper case; [valueLength] is the length the
    name has, not the length of what was stored. *)
Definition driver_name (a : answer) (old : cstr) : result cstr :=
  if succeeded (code a) then
    let name := take 254 (cstring (text a)) in
    let valueLength := sext 16 (num a) in
    if 256 <? valueLength then Fault OutOfBounds
    else Ok ((toupper <$> take (Z.to_nat valueLength) name) ++ drop (Z.to_nat valueLength) name)
  else Ok old.

Definition contains (s pat : cstr) : bool := match EslText.strstr s pat with Some _ => true | None => false end.
Definition oracle_driver (d : cstr) : bool := contains d (bytes_of "SQORA32.DLL") || contains d (bytes_of "SQORA64.DLL").
Definition firebird_driver (d : cstr) : bool :=
  contains d (bytes_of "FIREBIRD") || contains d (bytes_of "FB32") || contains d (bytes_of "FB64").

Definition agc_odbc_handle_connect (w : world) (h : agc_odbc_handle) : result (world * agc_odbc_handle * odbc_status) :=
  let! (w, h, _) := init_odbc_handles w h false in
  let! (w, h) :=
    (if bool_decide (state h = STATE_CONNECTED)
     then let! (w, h, _) := agc_odbc_handle_disconnect w h in Ok (w, h) else Ok (w, h)) in
  let! (w, a) :=
    (if contains (dsn h) (bytes_of "DRIVER") then call w (DriverConnect (con h) (dsn h))
     else call w (Connect (con h) (dsn h) (username h) (password h))) in
  if negb (succeeded (code a)) then
    let! (w, err_str) := agc_odbc_handle_get_error w h 0 in
    let! w := (match err_str with Some _ => Ok w | None => let! (w, _) := call w (GetDiagRec (con h)) in Ok w end) in
    let! (w, h, _) := init_odbc_handles w h true in
    Ok (w, h, ODBC_FAIL)
  else
    let! (w, a) := call w (GetInfo (con h)) in
    let! d := driver_name a (odbc_driver h) in
    let h := with_kind d (negb (oracle_driver d) && firebird_driver d) (oracle_driver d) h in
    Ok (w, with_state STATE_CONNECTED h, ODBC_SUCCESS).

(** [agc_odbc_handle_destroy] *)
Definition agc_odbc_handle_destroy (w : world) (h : agc_odbc_handle) : result world :=
  let! (w, h, _) := agc_odbc_handle_disconnect w h in
  if env h =? SQL_NULL_HANDLE then Ok w
  else let! w := free_dbc w (con h) in free_env w (env h).

Definition agc_odbc_SQLSetAutoCommitAttr (w : world) (h : agc_odbc_handle) (on : bool) : result (world * Z) :=
  let! (w, a) := call w (SetAutoCommit (con h) on) in Ok (w, code a).
Definition agc_odbc_SQLEndTran (w : world) (h : agc_odbc_handle) (commit : bool) : result (world * Z) :=
  let! (w, a) := call w (EndTran (con h) commit) in Ok (w, code a).

(** The functions that only read the connection, which may be null. *)
Definition agc_odbc_handle_get_state (h : option agc_odbc_handle) : odbc_state := match h with Some h => state h | None => STATE_INIT end.
Definition agc_odbc_handle_affected_rows (h : option agc_odbc_handle) : Z := match h with Some h => affected_rows h | None => 0 end.

(** ** Is the database up? *)

(** The statement the connection is tried with. *)
Definition probe_sql (h : agc_odbc_handle) : cstr :=
  if is_oracle h then bytes_of "select 1 from dual"
  else if is_firebird h then bytes_of "select first 1 * from RDB$RELATIONS" else bytes_of "select 1".

(** From [top] to [done] or to [error]: the statement, the value of [ret] and
    whether the attempt succeeded. *)
Definition probe (w : world) (h : agc_odbc_handle) (ret : Z) : result (world * Z * Z * bool) :=
  let! (w, r, stmt) := alloc_stmt w (con h) in
  if negb (r =? SQL_SUCCESS) then Ok (w, stmt, ret, false)
  else
    let! (w, _) := call w (SetQueryTimeout stmt) in
    let! (w, a) := call w (Prepare stmt (probe_sql h)) in
    if negb (code a =? SQL_SUCCESS) then Ok (w, stmt, ret, false)
    else
      let! (w, a) := call w (Execute stmt) in
      if negb (succeeded (code a)) then Ok (w, stmt, ret, false)
      else
        let! (w, _) := call w (RowCount stmt) in
        let! (w, a) := call w (NumResultCols stmt) in
        if negb (code a =? SQL_SUCCESS) then Ok (w, stmt, ret, false)
        else
          let ret := sext 16 (num a) in
          Ok (w, stmt, ret, 0 <? ret).

(** The attempts that are left; after a failed one the connection is made
    again. *)
Fixpoint up_loop (tries : nat) (w : world) (h : agc_odbc_handle) (ret : Z) : result (world * agc_odbc_handle * Z) :=
  let! (w, stmt, ret, up) := probe w h ret in
  if up : bool then let! w := free_stmt w stmt in Ok (w, h, ret)
  else
    let! (w, _) := agc_odbc_handle_get_error w h stmt in
    let! w := free_stmt w stmt in
    let! (w, h, _) := agc_odbc_handle_connect w h in
    match tries with
    | O | S O => Ok (w, h, ret)
    | S tries' => up_loop tries' w h ret
    end.

Definition db_is_up (w : world) (h : agc_odbc_handle) : result (world * agc_odbc_handle * Z) :=
  let max_tries := if num_retries h <? 1 then DEFAULT_ODBC_RETRIES else num_retries h in
  up_loop (Z.to_nat max_tries) w h 0.

(** ** Statements *)

(** The texts of the errors. *)
Definition exec_error (r : Z) : cstr :=
  if r =? SQL_ERROR then bytes_of "SQLExecute returned SQL_ERROR."
  else if r =? SQL_NEED_DATA then bytes_of "SQLExecute returned SQL_NEED_DATA."
  else bytes_of "SQLExecute returned unknown result code.".

Definition exec_ok (r : Z) : bool := succeeded r || (r =? SQL_NO_DATA).

(** What [SQLRowCount] leaves in a number that was zero. *)
Definition rows_of (a : answer) : Z := if succeeded (code a) then num a else 0.

(** The part before [error]: the statement and the text of the error, if there
    is one. *)
Definition exec_run (w : world) (h : agc_odbc_handle) (sql : cstr) : result (world * agc_odbc_handle * Z * option (option cstr)) :=
  let! (w, h, up) := db_is_up w h in
  if up =? 0 then Ok (w, h, 0, Some None)
  else
    let! (w, r, stmt) := alloc_stmt w (con h) in
    if negb (r =? SQL_SUCCESS) then Ok (w, h, stmt, Some (Some (bytes_of "SQLAllocHandle failed.")))
    else
      let! (w, a) := call w (Prepare stmt sql) in
      if negb (code a =? SQL_SUCCESS) then Ok (w, h, stmt, Some (Some (bytes_of "SQLPrepare failed.")))
      else
        let! (w, a) := call w (Execute stmt) in
        if negb (exec_ok (code a)) then Ok (w, h, stmt, Some (Some (exec_error (code a))))
        else
          let! (w, a) := call w (RowCount stmt) in
          Ok (w, with_rows (sext 32 (rows_of a)) h, stmt, None).

(** [agc_odbc_handle_exec]: with [keep] (a place for the statement) it is handed
    to the caller, who has to free it; the last result is the message. *)
Definition agc_odbc_handle_exec (w : world) (h : agc_odbc_handle) (sql : cstr) (keep : bool)
    : result (world * agc_odbc_handle * odbc_status * Z * option cstr) :=
  let! (w, h, stmt, failed) := exec_run w h sql in
  let! (w, status, err) :=
    (match failed with
     | None => Ok (w, ODBC_SUCCESS, None)
     | Some err2 =>
         let! (w, err_str) := (if stmt =? 0 then Ok (w, None) else agc_odbc_handle_get_error w h stmt) in
         let err_str :=
           match err_str with Some ((_ :: _) as t) => t | _ => match err2 with Some t => t | None => bytes_of "SQL ERROR!" end end in
         Ok (w, ODBC_FAIL, Some err_str)
     end) in
  if keep then Ok (w, h, status, stmt, err)
  else let! w := free_stmt w stmt in Ok (w, h, status, 0, err).

Definition agc_odbc_statement_handle_free (w : world) (stmt : Z) : result (world * odbc_status) :=
  if stmt =? 0 then Ok (w, ODBC_FAIL) else let! w := free_stmt w stmt in Ok (w, ODBC_SUCCESS).

(** What a call stores in a buffer of [n] bytes. *)
Definition stored (a : answer) (n : nat) : option cstr :=
  if succeeded (code a) then Some (take (n - 1) (cstring (text a))) else None.

(** [agc_odbc_handle_exec_string]: the third result is what is stored in
    [resbuf], if anything is. *)
Definition agc_odbc_handle_exec_string (w : world) (h : agc_odbc_handle) (sql : cstr) (len : nat)
    : result (world * agc_odbc_handle * odbc_status * option cstr * option cstr) :=
  let! (w, h, status, stmt, err) := agc_odbc_handle_exec w (with_rows 0 h) sql true in
  let! (w, h, status, res) :=
    (match status with
     | ODBC_FAIL => Ok (w, h, ODBC_FAIL, None)
     | ODBC_SUCCESS =>
         let! (w, a) := call w (RowCount stmt) in
         let h := with_rows (sext 32 (rows_of a)) h in
         if rows_of a =? 0 then Ok (w, h, ODBC_FAIL, None)
         else
           let! (w, a) := call w (Fetch stmt) in
           if negb (exec_ok (code a)) then Ok (w, h, ODBC_FAIL, None)
           else
             let! (w, _) := call w (DescribeCol stmt 1) in
             let! (w, a) := call w (GetData stmt 1) in
             Ok (w, h, ODBC_SUCCESS, stored a len)
     end) in
  let! (w, _) := agc_odbc_statement_handle_free w stmt in
  Ok (w, h, status, res, err).

(** ** Rows *)

Section rows.
(** The state of the caller and its callback: values and names. *)
Context {U : Type} (callback : U -> list cstr -> list cstr -> U * bool).

(** The loop over the columns; [x] is a [SQLSMALLINT], and [names] and [vals]
    have room for [c] texts. *)
Fixpoint columns (fuel : nat) (w : world) (stmt c x : Z) (vals names : list cstr) : result (world * list cstr * list cstr) :=
  match fuel with
  | O => OutOfFuel
  | S fuel' =>
      if x <=? c then
        if c <=? Z.of_nat (length vals) then Fault OutOfBounds
        else
          let! (w, a) := call w (DescribeCol stmt x) in
          let name := default [] (stored a 256) in
          let ColumnSize := if succeeded (code a) then wrap 64 (num a) else 0 in
          let ColumnSize := wrap 64 ((if ColumnSize =? 0 then 255 else ColumnSize) + 1) in
          let! (w, a) := call w (GetData stmt x) in
          columns fuel' w stmt c (sext 16 (x + 1)) (vals ++ [default [] (stored a (Z.to_nat ColumnSize))]) (names ++ [name])
      else Ok (w, vals, names)
  end.

(** The loop over the rows; the last result is [err_cnt]. *)
Fixpoint fetch_loop (fuel : nat) (w : world) (stmt c : Z) (u : U) : result (world * U * bool) :=
  match fuel with
  | O => OutOfFuel
  | S fuel' =>
      let! (w, a) := call w (Fetch stmt) in
      if negb (code a =? SQL_SUCCESS) then Ok (w, u, negb (code a =? SQL_NO_DATA))
      else
        let! (w, vals, names) := columns (S (Z.to_nat c)) w stmt c 1 [] [] in
        let (u, stop) := callback u vals names in
        if stop : bool then Ok (w, u, false) else fetch_loop fuel' w stmt c u
  end.

(** [_agc_odbc_handle_callback_exec]; the last result is the message. *)
Definition callback_failed (w : world) (h : agc_odbc_handle) (stmt : Z) (x_err : option cstr) (u : U)
    : result (world * agc_odbc_handle * U * odbc_status * option cstr) :=
  let! (w, err_str) := (if stmt =? 0 then Ok (w, None) else agc_odbc_handle_get_error w h stmt) in
  let err_str := match err_str with Some ((_ :: _) as t) => Some t | _ => x_err end in
  let! w := free_stmt w stmt in
  Ok (w, h, u, ODBC_FAIL, err_str).

Definition agc_odbc_handle_callback_exec (fuel : nat) (w : world) (h : agc_odbc_handle) (sql : cstr) (u : U)
    : result (world * agc_odbc_handle * U * odbc_status * option cstr) :=
  let! (w, h, up) := db_is_up w (with_rows 0 h) in
  if up =? 0 then callback_failed w h 0 (Some (bytes_of "DB is not up!")) u
  else
    let! (w, r, stmt) := alloc_stmt w (con h) in
    if negb (r =? SQL_SUCCESS) then callback_failed w h stmt (Some (bytes_of "Unable to SQL allocate handle!")) u
    else
      let! (w, a) := call w (Prepare stmt sql) in
      if negb (code a =? SQL_SUCCESS) then callback_failed w h stmt (Some (bytes_of "Unable to prepare SQL statement!")) u
      else
        let! (w, a) := call w (Execute stmt) in
        if negb (exec_ok (code a)) then callback_failed w h stmt (Some (bytes_of "execute error!")) u
        else
          let! (w, a) := call w (NumResultCols stmt) in
          let c := if succeeded (code a) then sext 16 (num a) else 0 in
          let! (w, a) := call w (RowCount stmt) in
          let h := with_rows (sext 32 (rows_of a)) h in
          let! (w, u, error) := fetch_loop fuel w stmt c u in
          let! w := free_stmt w stmt in
          if error : bool then callback_failed w h 0 None u else Ok (w, h, u, ODBC_SUCCESS, None).

(** [agc_sql_execute_sql_callback] and [agc_sql_execute_sql_callback_err], the
    error callback being given the message if there is one. *)
Definition agc_sql_execute_sql_callback := agc_odbc_handle_callback_exec.
Definition agc_sql_execute_sql_callback_err (err_callback : U -> cstr -> U) (fuel : nat) (w : world) (h : agc_odbc_handle) (sql : cstr) (u : U)
    : result (world * agc_odbc_handle * U * odbc_status * option cstr) :=
  let! (w, h, u, status, err) := agc_odbc_handle_callback_exec fuel w h sql u in
  Ok (w, h, match err with Some t => err_callback u t | None => u end, status, err).
End rows.

End odbc.
End Odbc.
