(* ===== verification/OdbcProof.v ===== *)
(** * Database connections: handles and rows

    Whatever the driver answers, a connection gives back every handle it was
    given, and each of them once, unless the driver refuses an environment after
    a failed attempt to connect: then a connection handle that was given back may
    be used, and that is the only fault.  The rows of a query reach the callback
    as the database has them. *)

From stdpp Require Import base gmap list strings.
From Stdlib Require Import ZArith Lia.
From S2P Require Import Prelude CString EslText Odbc.

Import Odbc.

Section handles.
Context `{OdbcDriver}.
Implicit Types (w : world) (h : agc_odbc_handle) (E D : gset Z) (S : gmap Z Z).

(** ** Calls *)

Lemma with_driver_same w : with_driver (driver w) w = w.
Proof. by destruct w. Qed.

(** A call changes nothing but the driver. *)
Lemma call_run w c b : usable_call w c = Ok b -> exists d a, call w c = Ok (with_driver d w, a).
Proof.
  intros Hu. unfold call. rewrite Hu. cbn [rbind]. destruct b; [destruct (SQL _ _); eauto|].
  exists (driver w). rewrite with_driver_same. eauto.
Qed.

Lemma usable_ok x b : x = 0 \/ b = true -> exists r, usable x b = Ok r.
Proof. unfold usable. intros [->| ->]; [by eexists|]. destruct (x =? _); by eexists. Qed.

(** The world behind calls and returned statements: the same handles are out. *)
Record frame w w' : Prop := Frame {
  fr_envs : envs w' = envs w;
  fr_dbcs : dbcs w' = dbcs w;
  fr_stmts : stmts w' = stmts w;
  fr_next : next w <= next w' }.

#[local] Instance frame_preorder : PreOrder frame.
Proof.
  split; [intros w; by split|]. intros a b c [] []. split; (congruence || lia).
Qed.

Lemma frame_driver d w : frame w (with_driver d w).
Proof. by split. Qed.

(** ** What a connection owns *)

(** Beside the handles [E], [D] and [S] of others, the connection has an
    environment and a connection handle, or neither of them. *)
Record owns w h E D S : Prop := Owns {
  ow_handles :
    (env h = 0 /\ con h = 0 /\ envs w = E /\ dbcs w = D) \/
    (env h ∉ E /\ con h ∉ D /\ env h <> 0 /\ con h <> 0 /\ envs w = {[env h]} ∪ E /\ dbcs w = {[con h]} ∪ D);
  ow_stmts : stmts w = S;
  ow_next : 0 < next w;
  ow_range : (forall x, x ∈ envs w -> 0 < x < next w) /\ (forall x, x ∈ dbcs w -> 0 < x < next w) /\
    (forall s c, S !! s = Some c -> 0 < s < next w /\ c ∈ D) }.

Lemma owns_frame w w' h E D S : owns w h E D S -> frame w w' -> owns w' h E D S.
Proof.
  intros [Hh Hs Hn (Re & Rd & Rs)] [Fe Fd Fs Fn]. split; rewrite ?Fe, ?Fd, ?Fs; [done|done|lia|].
  split_and!; [intros x Hx%Re; lia|intros x Hx%Rd; lia|].
  intros s c Hc. destruct (Rs _ _ Hc). split; [lia|done].
Qed.

Lemma owns_handle w h h' E D S : env h' = env h -> con h' = con h -> owns w h E D S -> owns w h' E D S.
Proof. intros He Hc [Hh Hs Hn Hr]. split; rewrite ?He, ?Hc; done. Qed.

Lemma owns_use_con w h E D S : owns w h E D S -> exists r, use_dbc w (con h) = Ok r.
Proof.
  intros [Hh _ _ _]. apply usable_ok. destruct Hh as [(_ & -> & _)|(_ & _ & _ & _ & _ & ->)]; [by left|].
  right. apply bool_decide_eq_true. set_solver.
Qed.

Lemma owns_use_env w h E D S : owns w h E D S -> exists r, use_env w (env h) = Ok r.
Proof.
  intros [Hh _ _ _]. apply usable_ok. destruct Hh as [(-> & _)|(_ & _ & _ & _ & -> & _)]; [by left|].
  right. apply bool_decide_eq_true. set_solver.
Qed.

(** A call on the handle of the connection. *)
Lemma owns_call w h E D S c : owns w h E D S ->
  (forall w', usable_call w' c = use_dbc w' (con h)) -> exists d a, call w c = Ok (with_driver d w, a).
Proof.
  intros Ho Hc. destruct (owns_use_con _ _ _ _ _ Ho) as [r Hr]. eapply call_run. rewrite Hc. exact Hr.
Qed.

(** ** Statements *)

(** A world in which the connection may have one statement more. *)
Definition in_stmt w c w' (s : Z) : Prop :=
  (s = 0 /\ exists d, w' = with_driver d w) \/
  (s = next w /\ exists d, w' = World d (envs w) (dbcs w) (<[s := c]> (stmts w)) (next w + 1)).

Lemma in_stmt_driver w c w' s d : in_stmt w c w' s -> in_stmt w c (with_driver d w') s.
Proof. intros [[-> [d' ->]]|[-> [d' ->]]]; [left|right]; by eauto. Qed.

Lemma in_stmt_alloc w h E D S : owns w h E D S ->
  exists w' r s, alloc_stmt w (con h) = Ok (w', r, s) /\ in_stmt w (con h) w' s /\ (succeeded r = true -> s <> 0).
Proof.
  intros Ho. unfold alloc_stmt.
  destruct (owns_call _ _ _ _ _ (AllocStmt (con h)) Ho (fun _ => eq_refl)) as (d & a & ->). cbn [rbind].
  pose proof (ow_next _ _ _ _ _ Ho) as Hn. destruct (succeeded (code a)) eqn:Ha; do 3 eexists.
  - split; [done|]. split; [right; split; [done|by eexists]|]. cbn. lia.
  - split; [done|]. split; [left; split; [done|by eexists]|]. congruence.
Qed.

Lemma in_stmt_alloc_ok w h E D S : owns w h E D S -> con h <> 0 -> code (SQL (driver w) (AllocStmt (con h))).2 = SQL_SUCCESS ->
  exists w' s, alloc_stmt w (con h) = Ok (w', SQL_SUCCESS, s) /\ in_stmt w (con h) w' s /\ s <> 0.
Proof.
  intros Ho Hc Ha. unfold alloc_stmt, call. cbn [usable_call].
  destruct (ow_handles _ _ _ _ _ Ho) as [(_ & ? & _)|(_ & _ & _ & _ & _ & Hd)]; [done|]. unfold use_dbc, usable.
  rewrite (proj2 (Z.eqb_neq (con h) SQL_NULL_HANDLE)), bool_decide_eq_true_2 by (done || (rewrite Hd; set_solver)). cbn [rbind].
  destruct (SQL (driver w) (AllocStmt (con h))) as [d a]. cbn in Ha. cbn [rbind]. rewrite Ha. change (succeeded SQL_SUCCESS) with true. cbv iota.
  do 2 eexists. split; [done|]. split; [right; split; [done|by eexists]|]. pose proof (ow_next _ _ _ _ _ Ho). cbn. lia.
Qed.

Lemma in_stmt_use w c w' s : in_stmt w c w' s -> exists r, use_stmt w' s = Ok r.
Proof.
  intros Hs. apply usable_ok. destruct Hs as [[-> _]|[-> [d ->]]]; [by left|right].
  apply bool_decide_eq_true. cbn. rewrite lookup_insert_eq. by eexists.
Qed.

(** A call on the statement. *)
Lemma in_stmt_call w c w' s k : in_stmt w c w' s -> (forall w1, usable_call w1 k = use_stmt w1 s) ->
  exists w1 a, call w' k = Ok (w1, a) /\ in_stmt w c w1 s.
Proof.
  intros Hs Hk. destruct (in_stmt_use _ _ _ _ Hs) as [r Hr].
  destruct (call_run w' k r) as (d & a & ->); [by rewrite Hk|]. eauto using in_stmt_driver.
Qed.

(** The message of an error is asked for on the statement or, without one, on
    the connection. *)
Lemma in_stmt_error w h E D S w' s : owns w h E D S -> in_stmt w (con h) w' s ->
  exists w1 t, agc_odbc_handle_get_error w' h s = Ok (w1, t) /\ in_stmt w (con h) w1 s.
Proof.
  intros Ho Hs. unfold agc_odbc_handle_get_error.
  assert (exists r, usable_call w' (Error (env h) (con h) s) = Ok r) as [r Hr].
  { cbn [usable_call]. destruct (s =? 0) eqn:E0; cbn [negb]; [|by eapply in_stmt_use].
    assert (frame w w') as Hf by (destruct Hs as [[_ [d ->]]|[-> _]]; [apply frame_driver|pose proof (ow_next _ _ _ _ _ Ho); lia]).
    apply (owns_frame _ _ _ _ _ _ Ho) in Hf. destruct (con h =? 0); cbn [negb]; [by eapply owns_use_env|by eapply owns_use_con]. }
  destruct (call_run _ _ _ Hr) as (d & a & ->). cbn [rbind]. eauto using in_stmt_driver.
Qed.

(** Returning the statement, if there is one. *)
Lemma in_stmt_free w h E D S w' s : owns w h E D S -> in_stmt w (con h) w' s ->
  exists w1, free_stmt w' s = Ok w1 /\ frame w w1.
Proof.
  intros Ho Hs. unfold free_stmt. pose proof (ow_next _ _ _ _ _ Ho) as Hn. destruct Hs as [[-> [d ->]]|[-> [d ->]]].
  - cbn [Z.eqb]. eauto using frame_driver.
  - rewrite (proj2 (Z.eqb_neq _ _)) by lia. cbn [stmts]. rewrite lookup_insert_eq. eexists. split; [done|].
    split; cbn; [done..| |lia]. rewrite delete_insert_id; [done|].
    destruct (stmts w !! next w) as [c|] eqn:Ec; [|done]. destruct Ho as [_ Hst _ (_ & _ & Rs)].
    rewrite Hst in Ec. apply Rs in Ec. lia.
Qed.

(** ** Connecting *)

(** The driver has refused an environment, or to set it up. *)
Definition refuses : Prop :=
  exists d, succeeded (code (SQL d AllocEnv).2) = false \/ exists e, succeeded (code (SQL d (SetEnvAttr e)).2) = false.

(** The connection has given its handles back, and still names that of the
    connection: it could not get an environment again. *)
Definition stale w h E D S : Prop :=
  env h = 0 /\ con h <> 0 /\ con h ∉ dbcs w /\ state h <> STATE_CONNECTED /\ refuses /\ owns w (with_con 0 h) E D S.
Definition held w h E D S : Prop := owns w h E D S \/ stale w h E D S.

(** A run with a result, or the use of a handle that was given back. *)
Definition runs {A} (r : result A) (P : A -> Prop) : Prop := (exists a, r = Ok a /\ P a) \/ (r = Fault BadPointer /\ refuses).

Lemma runs_ok {A} (a : A) (P : A -> Prop) : P a -> runs (Ok a) P.
Proof. left. eauto. Qed.
Lemma runs_bind {A B} (r : result A) (f : A -> result B) P Q : runs r P -> (forall a, P a -> runs (f a) Q) -> runs (rbind r f) Q.
Proof. intros [(a & -> & Ha)|[-> HR]] Hf; [by apply Hf|by right]. Qed.

Lemma held_handle w h h' E D S : env h' = env h -> con h' = con h -> state h' = state h -> held w h E D S -> held w h' E D S.
Proof.
  intros He Hc Hs [Ho|(H1 & H2 & H3 & H4 & H5 & H6)]; [left; by apply (owns_handle _ h)|right].
  split_and!; [congruence..|]. by apply (owns_handle _ (with_con 0 h)).
Qed.

(** The handle that was given back is refused. *)
Lemma stale_call w h E D S c : stale w h E D S -> (forall w', usable_call w' c = use_dbc w' (con h)) -> call w c = Fault BadPointer /\ refuses.
Proof.
  intros (H1 & H2 & H3 & H4 & H5 & H6) Hc. split; [|done]. unfold call. rewrite Hc. unfold use_dbc, usable.
  rewrite (proj2 (Z.eqb_neq _ _)) by done. by rewrite bool_decide_eq_false_2.
Qed.

(** What is asked of the driver: its name fits, there are fewer columns than the
    counter of the loop over them can count, and result sets are finite. *)
Class OdbcLaws := {
  short_name : forall d c, sext 16 (num (SQL d (GetInfo c)).2) <= 256;
  few_columns : forall d s, sext 16 (num (SQL d (NumResultCols s)).2) < 32767;
  rows_left : drv -> Z -> nat;
  fetch_consumes : forall d s, code (SQL d (Fetch s)).2 = SQL_SUCCESS -> (rows_left (SQL d (Fetch s)).1 s < rows_left d s)%nat;
  describe_keeps : forall d s x, (rows_left (SQL d (DescribeCol s x)).1 s <= rows_left d s)%nat;
  data_keeps : forall d s x, (rows_left (SQL d (GetData s x)).1 s <= rows_left d s)%nat }.

Context `{!OdbcLaws}.

Lemma call_usable w c : usable_call w c = Ok true -> call w c = Ok (with_driver (SQL (driver w) c).1 w, (SQL (driver w) c).2).
Proof. intros Hu. unfold call. rewrite Hu. cbn [rbind]. by destruct (SQL _ _). Qed.

Lemma usable_in x (b : bool) : x <> 0 -> b = true -> usable x b = Ok true.
Proof. intros Hx ->. unfold usable. by rewrite (proj2 (Z.eqb_neq x SQL_NULL_HANDLE)). Qed.

(** A connection that has no environment, none, an old or a null connection handle. *)
Definition bare w h E D S : Prop :=
  env h = 0 /\ envs w = E /\ dbcs w = D /\ owns w (with_con 0 h) E D S /\ (con h = 0 \/ con h ∉ D /\ state h <> STATE_CONNECTED).

(** What is left of it when the driver refuses an environment. *)
Lemma bare_refused w h h' w' E D S : bare w h E D S -> refuses -> frame w w' -> env h' = 0 -> con h' = con h -> state h' = state h -> held w' h' E D S.
Proof.
  intros (He & Ee & Ed & Ho & Hc) HR Hf He' Hc' Hs'. apply (owns_frame _ _ _ _ _ _ Ho) in Hf as Ho'.
  destruct (decide (con h = 0)) as [Hz|Hz].
  - left. apply (owns_handle _ (with_con 0 h)); cbn; [congruence|congruence|done].
  - right. destruct Hc as [?|[Hn Hs]]; [done|]. split_and!; [done|congruence| |congruence|done|].
    + rewrite Hc', (fr_dbcs _ _ Hf), Ed. done.
    + apply (owns_handle _ (with_con 0 h)); cbn; [congruence|done|done].
Qed.

(** Fresh handles for a connection that has none. *)
Lemma init_fresh w h E D S : bare w h E D S ->
  exists w' h' r, init_odbc_handles w h false = Ok (w', h', r) /\ held w' h' E D S /\ state h' = state h /\ dsn h' = dsn h.
Proof.
  intros Hb. pose proof Hb as (Hz & He & Hd & [_ Hs Hn (Re & Rd & Rs)] & Hc).
  unfold init_odbc_handles, alloc_env. cbn [andb rbind]. rewrite Hz. change (0 =? SQL_NULL_HANDLE) with true. cbv iota.
  rewrite (call_usable w AllocEnv eq_refl). cbn [rbind]. destruct (succeeded (code (SQL (driver w) AllocEnv).2)) eqn:E1; cbn [rbind negb]; rewrite E1; cbn [negb].
  2:{ do 3 eexists. split; [done|]. split; [|done]. apply (bare_refused w h); try done. exists (driver w). by left. }
  cbn [env with_env with_driver driver envs dbcs stmts next].
  rewrite (call_usable _ (SetEnvAttr (next w))).
  2:{ apply usable_in; [lia|]. apply bool_decide_eq_true. cbn. set_solver. }
  cbn [rbind with_driver driver envs dbcs stmts next]. set (d1 := (SQL _ AllocEnv).1). set (d2 := (SQL d1 _).1).
  assert (next w ∉ envs w) as Hfresh by (intros Hin%Re; lia).
  assert (forall d, free_env (World d ({[next w]} ∪ envs w) (dbcs w) (stmts w) (next w + 1)) (next w) =
    Ok (World d (envs w) (dbcs w) (stmts w) (next w + 1))) as Hfree.
  { intros d. unfold free_env. rewrite (proj2 (Z.eqb_neq _ _)) by lia. cbn [envs driver dbcs stmts next].
    rewrite bool_decide_eq_true_2 by set_solver. by replace (({[next w]} ∪ envs w) ∖ {[next w]}) with (envs w) by set_solver. }
  assert (forall d, frame w (World d (envs w) (dbcs w) (stmts w) (next w + 1))) as Hfr by (intros d; split; cbn; done || lia).
  destruct (succeeded (code (SQL d1 _).2)) eqn:E2; cbn [negb].
  2:{ unfold with_driver at 1. cbn [driver envs dbcs stmts next]. rewrite Hfree. cbn [rbind]. do 3 eexists. split; [done|]. split; [|done]. apply (bare_refused w h); try done. exists d1. right. by eexists. }
  unfold alloc_dbc. rewrite (call_usable _ (AllocDbc (next w))).
  2:{ apply usable_in; [lia|]. apply bool_decide_eq_true. cbn. set_solver. }
  cbn [rbind with_driver driver envs dbcs stmts next]. destruct (succeeded (code (SQL d2 _).2)) eqn:E3; cbn [rbind negb]; rewrite E3; cbn [negb env con with_con with_env].
  2:{ unfold with_driver at 1. cbn [with_driver driver envs dbcs stmts next]. rewrite Hfree. cbn [rbind]. do 3 eexists. split; [done|]. split; [|done]. left.
      apply (owns_handle _ (with_con 0 h)); cbn; [done|done|]. destruct Hb as (_ & _ & _ & Ho & _). by eapply owns_frame; [exact Ho|]. }
  cbn [con with_con with_driver driver envs dbcs stmts next].
  rewrite (call_usable _ (SetLoginTimeout _)).
  2:{ apply usable_in; [cbn; lia|]. apply bool_decide_eq_true. cbn. set_solver. }
  cbn [rbind]. do 3 eexists. split; [reflexivity|]. split; [left|done].
  split; cbn; [|done|lia|].
  - right. subst E D. split_and!; [| |lia|lia|done|done]; [intros Hin%Re|intros Hin%Rd]; lia.
  - split_and!.
    + intros x [->%elem_of_singleton|Hx%Re]%elem_of_union; lia.
    + intros x [->%elem_of_singleton|Hx%Rd]%elem_of_union; lia.
    + intros s c Hl. destruct (Rs _ _ Hl). split; [lia|done].
Qed.

(** Without handles, new ones are asked for. *)
Lemma init_handles_run w h E D S : held w h E D S ->
  exists w' h' r, init_odbc_handles w h false = Ok (w', h', r) /\ held w' h' E D S /\ state h' = state h /\ dsn h' = dsn h.
Proof.
  intros Hh. destruct (decide (env h = 0)) as [Hz|Hz].
  - apply init_fresh. destruct Hh as [Ho|(_ & Hc & Hn & Hs & _ & Ho)].
    + destruct (ow_handles _ _ _ _ _ Ho) as [(_ & Hc & He & Hd)|(_ & _ & Hne & _)]; [|done].
      split_and!; try done; [|by left]. by apply (owns_handle _ h).
    + destruct (ow_handles _ _ _ _ _ Ho) as [(_ & _ & He & Hd)|(_ & _ & _ & Hne & _)]; [|done].
      split_and!; try done. right. by rewrite Hd in Hn.
  - unfold init_odbc_handles. cbn [andb rbind]. rewrite (proj2 (Z.eqb_neq (env h) SQL_NULL_HANDLE)) by done. by exists w, h, ODBC_SUCCESS.
Qed.

(** After a failed attempt the handles are given back before. *)
Lemma reinit_run w h E D S : owns w h E D S -> state h <> STATE_CONNECTED ->
  exists w' h' r, init_odbc_handles w h true = Ok (w', h', r) /\ held w' h' E D S.
Proof.
  intros Ho Hst. destruct (decide (env h = 0)) as [Hz|Hz].
  - destruct (init_handles_run w h E D S (or_introl Ho)) as (w' & h' & r & Hi & ? & _). exists w', h', r. split; [|done].
    rewrite <- Hi. unfold init_odbc_handles. by rewrite Hz.
  - destruct (ow_handles _ _ _ _ _ Ho) as [(? & _)|(HE & HD & _ & Hc & He & Hd)]; [done|].
    set (w0 := World (driver w) E D (stmts w) (next w)).
    destruct (init_fresh w0 (with_env 0 h) E D S) as (w' & h' & r & Hi & ? & _).
    { split_and!; try done; [|by right]. pose proof Ho as [_ Hs Hn (Re & Rd & Rs)]. split; cbn; [by left|done|done|]. rewrite He in Re. rewrite Hd in Rd.
      split_and!; [intros x Hx; apply Re; set_solver|intros x Hx; apply Rd; set_solver|done]. }
    exists w', h', r. split; [|done]. rewrite <- Hi. unfold init_odbc_handles.
    rewrite (proj2 (Z.eqb_neq (env h) SQL_NULL_HANDLE)) by done. cbn [andb negb]. unfold free_dbc, free_env.
    rewrite (proj2 (Z.eqb_neq (con h) 0)), bool_decide_eq_true_2 by (done || rewrite Hd; set_solver). cbn [rbind envs dbcs stmts driver next].
    rewrite (proj2 (Z.eqb_neq (env h) 0)), bool_decide_eq_true_2 by (done || rewrite He; set_solver). cbn [rbind].
    rewrite He, Hd. replace (({[env h]} ∪ E) ∖ {[env h]}) with E by set_solver. replace (({[con h]} ∪ D) ∖ {[con h]}) with D by set_solver. done.
Qed.

Lemma disconnect_run w h E D S : owns w h E D S ->
  exists w', agc_odbc_handle_disconnect w h = Ok (w', with_state STATE_DOWN h, ODBC_SUCCESS) /\ frame w w'.
Proof.
  intros Ho. unfold agc_odbc_handle_disconnect. destruct (bool_decide _); [|by eexists; split; [done|]].
  unfold disconnect. destruct (owns_call _ _ _ _ _ (Disconnect (con h)) Ho (fun _ => eq_refl)) as (d & a & ->). cbn [rbind].
  destruct (succeeded (code a)); cbn [rbind]; eexists; (split; [done|]); [|apply frame_driver].
  split; cbn; [done..| |lia]. apply map_filter_id. intros s c Hc. cbn.
  pose proof Ho as [Hh Hs _ (_ & Rd & Rs)]. rewrite Hs in Hc. destruct (Rs _ _ Hc) as [_ HcD].
  intros ->. destruct Hh as [(_ & Hc0 & _ & Hd)|(_ & HD & _)]; [|done].
  rewrite Hc0, <- Hd in HcD. apply Rd in HcD. lia.
Qed.

Lemma disconnect_held w h E D S : held w h E D S ->
  exists w', agc_odbc_handle_disconnect w h = Ok (w', with_state STATE_DOWN h, ODBC_SUCCESS) /\ held w' (with_state STATE_DOWN h) E D S.
Proof.
  intros [Ho|Hst].
  - destruct (disconnect_run _ _ _ _ _ Ho) as (w' & -> & Hf). eexists. split; [done|]. left.
    apply (owns_handle _ h); [done|done|]. by eapply owns_frame.
  - pose proof Hst as (H1 & H2 & H3 & H4 & H5 & H6). unfold agc_odbc_handle_disconnect. rewrite bool_decide_eq_false_2 by done. cbn [rbind].
    eexists. split; [done|]. right. split_and!; try done. by apply (owns_handle _ (with_con 0 h)).
Qed.

(** The attempt to connect failed: the message, and new handles. *)
Lemma connect_failed w h E D S : owns w h E D S -> state h <> STATE_CONNECTED ->
  exists w' h', (let! (w, err_str) := agc_odbc_handle_get_error w h 0 in
    let! w := (match err_str with Some _ => Ok w | None => let! (w, _) := call w (GetDiagRec (con h)) in Ok w end) in
    let! (w, h, _) := init_odbc_handles w h true in
    Ok (w, h, ODBC_FAIL)) = Ok (w', h', ODBC_FAIL) /\ held w' h' E D S.
Proof.
  intros Ho Hst. destruct (in_stmt_error w h E D S w 0 Ho) as (w4 & t & -> & Hi); [left; split; [done|exists (driver w); by rewrite with_driver_same]|].
  cbn [rbind]. assert (frame w w4) as Hf4.
  { destruct Hi as [[_ [d' ->]]|[E0 _]]; [apply frame_driver|]. pose proof (ow_next _ _ _ _ _ Ho). lia. }
  apply (owns_frame _ _ _ _ _ _ Ho) in Hf4 as Ho4.
  assert (exists w5, match t with Some _ => Ok w4 | None => let! (w, _) := call w4 (GetDiagRec (con h)) in Ok w end = Ok w5 /\ frame w4 w5) as (w5 & -> & Hf5).
  { destruct t; [by eexists; split; [done|]|]. destruct (owns_call _ _ _ _ _ (GetDiagRec (con h)) Ho4 (fun _ => eq_refl)) as (d' & a' & ->).
    cbn [rbind]. eauto using frame_driver. }
  cbn [rbind]. apply (owns_frame _ _ _ _ _ _ Ho4) in Hf5 as Ho5.
  destruct (reinit_run _ _ _ _ _ Ho5 Hst) as (w6 & h6 & r6 & -> & Ho6). cbn [rbind]. by eauto.
Qed.

(** A call on the handle of a connection that succeeds was made on a handle. *)
Lemma owns_call_null w h E D S c : owns w h E D S -> (forall w', usable_call w' c = use_dbc w' (con h)) ->
  exists d a, call w c = Ok (with_driver d w, a) /\ (succeeded (code a) = true -> con h <> 0).
Proof.
  intros Ho Hc. destruct (owns_call _ _ _ _ _ _ Ho Hc) as (d & a & E1). exists d, a. split; [done|].
  intros Ha Hz. unfold call in E1. rewrite Hc, Hz in E1. cbn in E1. injection E1 as _ <-. done.
Qed.

Lemma connect_run w h E D S : held w h E D S -> runs (agc_odbc_handle_connect w h) (fun '(w', h', _) => held w' h' E D S).
Proof.
  intros Ho. unfold agc_odbc_handle_connect.
  destruct (init_handles_run w h E D S Ho) as (w1 & h1 & r1 & -> & Ho1 & _). cbn [rbind].
  assert (exists w2 h2, (if bool_decide (state h1 = STATE_CONNECTED) then let! (w, h, _) := agc_odbc_handle_disconnect w1 h1 in Ok (w, h) else Ok (w1, h1)) = Ok (w2, h2)
    /\ held w2 h2 E D S /\ state h2 <> STATE_CONNECTED) as (w2 & h2 & -> & Ho2 & Hs2).
  { case_bool_decide; [|by eauto]. destruct (disconnect_held _ _ _ _ _ Ho1) as (w2 & -> & Hf). cbn [rbind]. by eauto. }
  cbn [rbind]. clear w1 h1 r1 Ho1. destruct Ho2 as [Ho2|Hst].
  2:{ right. destruct (contains _ _); [destruct (stale_call _ _ _ _ _ (DriverConnect (con h2) (dsn h2)) Hst (fun _ => eq_refl)) as [-> ?]
      |destruct (stale_call _ _ _ _ _ (Connect (con h2) (dsn h2) (username h2) (password h2)) Hst (fun _ => eq_refl)) as [-> ?]]; done. }
  assert (exists d a, (if contains (dsn h2) (bytes_of "DRIVER") then call w2 (DriverConnect (con h2) (dsn h2))
     else call w2 (Connect (con h2) (dsn h2) (username h2) (password h2))) = Ok (with_driver d w2, a) /\ (succeeded (code a) = true -> con h2 <> 0)) as (d & a & -> & Hc).
  { destruct (contains _ _); by eapply owns_call_null. }
  cbn [rbind]. apply (owns_frame _ (with_driver d w2)) in Ho2; [|apply frame_driver]. set (w3 := with_driver d w2) in *. left.
  destruct (succeeded (code a)); cbn [negb].
  - specialize (Hc eq_refl). rewrite (call_usable w3 (GetInfo _)).
    2:{ destruct (ow_handles _ _ _ _ _ Ho2) as [(_ & ? & _)|(_ & _ & _ & _ & _ & Hd)]; [done|].
        apply usable_in; [done|]. apply bool_decide_eq_true. set_solver. }
    cbn [rbind]. unfold driver_name. pose proof (short_name (driver w3) (con h2)) as Hl.
    rewrite (proj2 (Z.ltb_ge 256 _)) by done.
    destruct (succeeded _); cbn [rbind]; eexists; (split; [done|]); left;
      (apply (owns_handle _ h2); [done|done|]); (eapply owns_frame; [exact Ho2|apply frame_driver]).
  - destruct (connect_failed w3 h2 E D S Ho2 Hs2) as (w' & h' & -> & Hh). by eexists.
Qed.

(** ** Statements of a connection *)

(** The next call on the statement. *)
Ltac stmt_call Hs :=
  match goal with
  | |- context [call ?w ?k] =>
      let w' := fresh "w" in let a := fresh "a" in let Hs' := fresh "Hs" in
      destruct (in_stmt_call _ _ w _ k Hs (fun _ => eq_refl)) as (w' & a & -> & Hs'); clear Hs; rename Hs' into Hs; cbn [rbind]
  end.

Lemma probe_run w h E D S ret : owns w h E D S ->
  exists w' s r up, probe w h ret = Ok (w', s, r, up) /\ in_stmt w (con h) w' s.
Proof.
  intros Ho. unfold probe. destruct (in_stmt_alloc _ _ _ _ _ Ho) as (w1 & r & s & -> & Hs & _). cbn [rbind].
  destruct (r =? SQL_SUCCESS); cbn [negb]; [|by eauto 8]. stmt_call Hs. stmt_call Hs.
  destruct (code _ =? SQL_SUCCESS); cbn [negb]; [|by eauto 8]. stmt_call Hs.
  destruct (succeeded _); cbn [negb]; [|by eauto 8]. stmt_call Hs. stmt_call Hs.
  destruct (code _ =? SQL_SUCCESS); cbn [negb]; by eauto 8.
Qed.

Lemma probe_stale w h E D S ret : stale w h E D S -> probe w h ret = Fault BadPointer /\ refuses.
Proof. intros Hst. unfold probe, alloc_stmt. by destruct (stale_call _ _ _ _ _ (AllocStmt (con h)) Hst (fun _ => eq_refl)) as [-> ?]. Qed.

(** The attempts end, and leave the handles of the connection. *)
Lemma up_loop_run tries w h E D S ret : held w h E D S -> runs (up_loop tries w h ret) (fun '(w', h', _) => held w' h' E D S).
Proof.
  revert w h ret. induction tries as [|tries IH]; intros w h ret Hh; cbn [up_loop].
  all: destruct Hh as [Ho|Hst]; [|by destruct (probe_stale w h E D S ret Hst) as [-> ?]; right].
  all: destruct (probe_run w h E D S ret Ho) as (w1 & s & r & up & -> & Hs); cbn [rbind]; destruct up.
  1,3: destruct (in_stmt_free _ _ _ _ _ _ _ Ho Hs) as (w2 & -> & Hf); cbn [rbind]; apply runs_ok; left; by eapply owns_frame.
  all: destruct (in_stmt_error _ _ _ _ _ _ _ Ho Hs) as (w2 & t & -> & Hs2); cbn [rbind].
  all: destruct (in_stmt_free _ _ _ _ _ _ _ Ho Hs2) as (w3 & -> & Hf); cbn [rbind].
  all: apply (runs_bind _ _ _ _ (connect_run w3 h E D S (or_introl (owns_frame _ _ _ _ _ _ Ho Hf)))); intros [[w4 h4] r4] Hh4.
  - by apply runs_ok.
  - destruct tries; [by apply runs_ok|]. by apply IH.
Qed.

Lemma db_is_up_run w h E D S : held w h E D S -> runs (db_is_up w h) (fun '(w', h', _) => held w' h' E D S).
Proof. apply up_loop_run. Qed.

Lemma owns_rows w h n E D S : owns w h E D S -> owns w (with_rows n h) E D S.
Proof. by apply owns_handle. Qed.
Lemma held_rows w h n E D S : held w h E D S -> held w (with_rows n h) E D S.
Proof. by apply held_handle. Qed.

(** The connection has its handles and perhaps a statement, or neither. *)
Definition in_held w h s E D S : Prop := (exists w0, owns w0 h E D S /\ in_stmt w0 (con h) w s) \/ (stale w h E D S /\ s = 0).

Lemma in_held_none w h E D S : held w h E D S -> in_held w h 0 E D S.
Proof.
  intros [Ho|Hst]; [left|by right]. exists w. split; [done|]. left. split; [done|]. exists (driver w). by rewrite with_driver_same.
Qed.

Lemma in_held_free w h s E D S : in_held w h s E D S -> exists w', free_stmt w s = Ok w' /\ held w' h E D S.
Proof.
  intros [(w0 & Ho & Hs)|[Hst ->]]; [|exists w; split; [done|by right]].
  destruct (in_stmt_free _ _ _ _ _ _ _ Ho Hs) as (w' & -> & Hf). eexists. split; [done|]. left. by eapply owns_frame.
Qed.

(** The error of a statement, if there is one. *)
Lemma in_held_error w h s E D S : in_held w h s E D S ->
  exists w' t, (if s =? 0 then Ok (w, None) else agc_odbc_handle_get_error w h s) = Ok (w', t) /\ in_held w' h s E D S.
Proof.
  intros Hi. destruct (Z.eqb_spec s 0) as [->|Hz]; [by eauto|]. destruct Hi as [(w0 & Ho & Hs)|[_ ?]]; [|done].
  destruct (in_stmt_error _ _ _ _ _ _ _ Ho Hs) as (w2 & t & -> & Hs2). do 2 eexists. split; [done|]. left. by eauto.
Qed.

(** A statement is executed on a connection that has its handles. *)
Lemma exec_run_run w h E D S sql : held w h E D S ->
  runs (exec_run w h sql) (fun '(w', h', s, f) => in_held w' h' s E D S /\ (f = None -> exists w0, owns w0 h' E D S /\ in_stmt w0 (con h') w' s)).
Proof.
  intros Hh. unfold exec_run. apply (runs_bind _ _ _ _ (db_is_up_run _ _ _ _ _ Hh)). intros [[w0 h0] up] Hh0.
  destruct (up =? 0); [apply runs_ok; split; [by apply in_held_none|done]|].
  destruct Hh0 as [Ho0|Hst].
  2:{ right. unfold alloc_stmt. by destruct (stale_call _ _ _ _ _ (AllocStmt (con h0)) Hst (fun _ => eq_refl)) as [-> ?]. }
  assert (forall w' s (e : cstr), in_stmt w0 (con h0) w' s ->
    runs (Ok (w', h0, s, Some (Some e))) (fun '(w', h', s, f) => in_held w' h' s E D S /\ (f = None -> exists w0, owns w0 h' E D S /\ in_stmt w0 (con h') w' s))) as Hfail.
  { intros w' s e Hs. apply runs_ok. split; [left; by eauto|done]. }
  destruct (in_stmt_alloc _ _ _ _ _ Ho0) as (w1 & r & s & -> & Hs & _). cbn [rbind].
  destruct (r =? SQL_SUCCESS); cbn [negb]; [|by apply Hfail]. stmt_call Hs.
  destruct (code _ =? SQL_SUCCESS); cbn [negb]; [|by apply Hfail]. stmt_call Hs.
  destruct (exec_ok _); cbn [negb]; [|by apply Hfail]. stmt_call Hs. apply (owns_rows _ _ (sext 32 (rows_of a1))) in Ho0.
  apply runs_ok. split; [left; by eauto|intros _; by eauto].
Qed.

(** A statement that is kept is out; one that is not has been returned. *)
Lemma exec_keep w h E D S sql : held w h E D S ->
  runs (agc_odbc_handle_exec w h sql true) (fun '(w', h', r, s, _) =>
    in_held w' h' s E D S /\ (r = ODBC_SUCCESS -> exists w0, owns w0 h' E D S /\ in_stmt w0 (con h') w' s)).
Proof.
  intros Hh. unfold agc_odbc_handle_exec. apply (runs_bind _ _ _ _ (exec_run_run _ _ _ _ _ sql Hh)). intros [[[w1 h1] s] f] [Hi Hf].
  destruct f as [err2|]; cbn [rbind]; [|apply runs_ok; split; [done|intros _; by apply Hf]].
  destruct (in_held_error _ _ _ _ _ _ Hi) as (w2 & t & -> & Hi2). cbn [rbind]. by apply runs_ok.
Qed.

Lemma exec_free w h E D S sql : held w h E D S ->
  runs (agc_odbc_handle_exec w h sql false) (fun '(w', h', _, s, _) => s = 0 /\ held w' h' E D S).
Proof.
  intros Hh. unfold agc_odbc_handle_exec. apply (runs_bind _ _ _ _ (exec_run_run _ _ _ _ _ sql Hh)). intros [[[w1 h1] s] f] [Hi _].
  destruct f as [err2|]; cbn [rbind].
  - destruct (in_held_error _ _ _ _ _ _ Hi) as (w2 & t & -> & Hi2). cbn [rbind].
    destruct (in_held_free _ _ _ _ _ _ Hi2) as (w3 & -> & Hh3). cbn [rbind]. by apply runs_ok.
  - destruct (in_held_free _ _ _ _ _ _ Hi) as (w3 & -> & Hh3). cbn [rbind]. by apply runs_ok.
Qed.

Lemma exec_string_run w h E D S sql len : held w h E D S ->
  runs (agc_odbc_handle_exec_string w h sql len) (fun '(w', h', _, _, _) => held w' h' E D S).
Proof.
  intros Hh. unfold agc_odbc_handle_exec_string.
  apply (runs_bind _ _ _ _ (exec_keep _ _ _ _ _ sql (held_rows _ _ 0 _ _ _ Hh))). intros [[[[w1 h1] r] s] t] [Hi Hok].
  assert (forall w2 h2 (st : odbc_status) (res : option cstr), in_held w2 h2 s E D S ->
    runs (let! (w, h, status, res) := Ok (w2, h2, st, res) in let! (w, _) := agc_odbc_statement_handle_free w s in Ok (w, h, status, res, t))
      (fun '(w', h', _, _, _) => held w' h' E D S)) as Hend.
  { intros w2 h2 st res Hi2. cbn [rbind]. unfold agc_odbc_statement_handle_free.
    destruct (in_held_free _ _ _ _ _ _ Hi2) as (w3 & Hfree & Hh3). destruct (s =? 0) eqn:E0.
    - unfold free_stmt in Hfree. rewrite E0 in Hfree. injection Hfree as <-. cbn [rbind]. by apply runs_ok.
    - rewrite Hfree. cbn [rbind]. by apply runs_ok. }
  destruct r; [|by apply Hend]. destruct (Hok eq_refl) as (w0 & Ho & Hs). stmt_call Hs. set (h2 := with_rows _ h1).
  assert (owns w0 h2 E D S) as Ho2 by by apply owns_rows.
  destruct (rows_of _ =? 0); [apply Hend; left; by eauto|]. stmt_call Hs. destruct (exec_ok _); cbn [negb]; [|apply Hend; left; by eauto].
  stmt_call Hs. stmt_call Hs. apply Hend. left. by eauto.
Qed.

(** ** Rows *)

Lemma in_stmt_usable w c w' s k : in_stmt w c w' s -> s <> 0 -> (forall w1, usable_call w1 k = use_stmt w1 s) ->
  call w' k = Ok (with_driver (SQL (driver w') k).1 w', (SQL (driver w') k).2).
Proof.
  intros Hs Hz Hk. apply call_usable. rewrite Hk. apply usable_in; [done|].
  destruct Hs as [[? _]|[-> [d ->]]]; [done|]. apply bool_decide_eq_true. cbn. rewrite lookup_insert_eq. by eexists.
Qed.

Ltac stmt_usable Hs Hz :=
  match goal with |- context [call ?w ?k] => rewrite (in_stmt_usable _ _ w _ k Hs Hz (fun _ => eq_refl)); cbn [rbind] end.

Lemma sext16_small x : 0 <= x < 32768 -> sext 16 x = x.
Proof. intros Hx. unfold sext. rewrite wrap_small by lia. by rewrite (proj2 (Z.ltb_lt _ _)) by lia. Qed.

Lemma columns_run w0 k fuel w s c vals names : in_stmt w0 k w s -> s <> 0 -> c < 32767 ->
  (Z.to_nat c < fuel + length vals)%nat -> (length vals = 0%nat \/ Z.of_nat (length vals) <= c) ->
  exists w' vals' names', columns fuel w s c (Z.of_nat (length vals) + 1) vals names = Ok (w', vals', names') /\
    in_stmt w0 k w' s /\ (rows_left (driver w') s <= rows_left (driver w) s)%nat.
Proof.
  intros Hs Hz Hc. revert w vals names Hs. induction fuel as [|fuel IH]; intros w vals names Hs Hf Hl; [lia|]. cbn [columns].
  destruct (Z.leb_spec (Z.of_nat (length vals) + 1) c); [|by eauto 8].
  rewrite (proj2 (Z.leb_gt c _)) by lia. stmt_usable Hs Hz.
  set (d1 := (SQL (driver w) _).1). apply (in_stmt_driver _ _ _ _ d1) in Hs as Hs1.
  stmt_usable Hs1 Hz.
  set (d2 := (SQL (driver (with_driver d1 w)) _).1). apply (in_stmt_driver _ _ _ _ d2) in Hs1 as Hs2.
  set (v := default [] _). set (n := default [] _).
  rewrite sext16_small by lia. replace (Z.of_nat (length vals) + 1 + 1) with (Z.of_nat (length (vals ++ [v])) + 1) by (rewrite length_app; cbn [length]; lia).
  destruct (IH _ (vals ++ [v]) (names ++ [n]) Hs2) as (w' & vals' & names' & -> & Hs' & Hr); [rewrite length_app; cbn [length]; lia..|].
  do 3 eexists. split; [done|]. split; [done|]. cbn in Hr. etrans; [exact Hr|].
  etrans; [apply data_keeps|]. cbn. apply describe_keeps.
Qed.

Section callback.
Context {U : Type} (callback : U -> list cstr -> list cstr -> U * bool).

Lemma fetch_loop_run w0 k fuel w s c u : in_stmt w0 k w s -> s <> 0 -> c < 32767 -> (rows_left (driver w) s < fuel)%nat ->
  exists w' u' e, fetch_loop callback fuel w s c u = Ok (w', u', e) /\ in_stmt w0 k w' s.
Proof.
  intros Hs Hz Hc. revert w u Hs. induction fuel as [|fuel IH]; intros w u Hs Hf; [lia|]. cbn [fetch_loop].
  stmt_usable Hs Hz.
  set (d1 := (SQL (driver w) _).1). apply (in_stmt_driver _ _ _ _ d1) in Hs as Hs1.
  destruct (Z.eqb_spec (code (SQL (driver w) (Fetch s)).2) SQL_SUCCESS) as [Ha|Ha]; cbn [negb]; [|by eauto 8].
  apply fetch_consumes in Ha.
  destruct (columns_run w0 k (Datatypes.S (Z.to_nat c)) (with_driver d1 w) s c [] [] Hs1 Hz Hc) as (w2 & vals & names & E2 & Hs2 & Hr); [cbn; lia..|].
  change (Z.of_nat (length []) + 1) with 1 in E2. rewrite E2. cbn [rbind].
  destruct (callback u vals names) as [u' [|]]; [by eauto 8|]. apply IH; [done|]. cbn in Hr. subst d1. lia.
Qed.

Lemma callback_failed_run w h E D S s x (u : U) : in_held w h s E D S ->
  exists w1 t, callback_failed w h s x u = Ok (w1, h, u, ODBC_FAIL, t) /\ held w1 h E D S.
Proof.
  intros Hi. unfold callback_failed. destruct (in_held_error _ _ _ _ _ _ Hi) as (w1 & t & -> & Hi1). cbn [rbind].
  destruct (in_held_free _ _ _ _ _ _ Hi1) as (w2 & -> & Hh). cbn [rbind]. by eauto.
Qed.

Lemma in_stmt_none w c : in_stmt w c w 0.
Proof. left. split; [done|]. exists (driver w). by rewrite with_driver_same. Qed.

Lemma callback_exec_run fuel w h E D S sql u : held w h E D S -> (forall d s, (rows_left d s < fuel)%nat) ->
  runs (agc_odbc_handle_callback_exec callback fuel w h sql u) (fun '(w', h', _, _, _) => held w' h' E D S).
Proof.
  intros Hh Hfuel. unfold agc_odbc_handle_callback_exec.
  apply (runs_bind _ _ _ _ (db_is_up_run _ _ _ _ _ (held_rows _ _ 0 _ _ _ Hh))). intros [[w0 h0] up] Hh0.
  assert (forall w1 s x, in_held w1 h0 s E D S -> runs (callback_failed w1 h0 s x u) (fun '(w', h', _, _, _) => held w' h' E D S)) as Hfail.
  { intros w1 s x Hi. destruct (callback_failed_run w1 h0 E D S s x u Hi) as (w2 & t & -> & ?). by apply runs_ok. }
  destruct (up =? 0); [by apply Hfail, in_held_none|].
  destruct Hh0 as [Ho0|Hst].
  2:{ right. unfold alloc_stmt. by destruct (stale_call _ _ _ _ _ (AllocStmt (con h0)) Hst (fun _ => eq_refl)) as [-> ?]. }
  destruct (in_stmt_alloc _ _ _ _ _ Ho0) as (w1 & r & s & -> & Hs & Hs0). cbn [rbind].
  destruct (Z.eqb_spec r SQL_SUCCESS) as [->|]; cbn [negb]; [|apply Hfail; left; by eauto]. specialize (Hs0 eq_refl). stmt_call Hs.
  destruct (code _ =? SQL_SUCCESS); cbn [negb]; [|apply Hfail; left; by eauto]. stmt_call Hs.
  destruct (exec_ok _); cbn [negb]; [|apply Hfail; left; by eauto].
  stmt_usable Hs Hs0.
  match goal with |- context [with_driver (SQL ?d ?k).1 ?w] => pose proof (few_columns d s) as Hc; apply (in_stmt_driver _ _ _ _ (SQL d k).1) in Hs end.
  set (c := if succeeded _ then _ else 0). assert (c < 32767) as Hc' by (unfold c; destruct (succeeded _); [exact Hc|lia]). clearbody c.
  stmt_call Hs. set (h1 := with_rows _ h0). assert (owns w0 h1 E D S) as Ho1 by by apply owns_rows.
  destruct (fetch_loop_run w0 (con h0) fuel _ s c u Hs Hs0 Hc' (Hfuel _ _)) as (w5 & u' & e & -> & Hs5). cbn [rbind].
  destruct (in_stmt_free w0 h1 E D S w5 s Ho1 Hs5) as (w6 & -> & Hf). cbn [rbind]. apply (owns_frame _ _ _ _ _ _ Ho1) in Hf.
  destruct e; [|apply runs_ok; by left].
  destruct (callback_failed_run w6 h1 E D S 0 None u') as (w7 & t & -> & ?); [by apply in_held_none; left|]. by apply runs_ok.
Qed.
End callback.

(** ** The life of a connection *)

Section life.
Context {U : Type} (callback : U -> list cstr -> list cstr -> U * bool) (fuel : nat).

(** What is done with a connection between its creation and its destruction. *)
Inductive op :=
  | OConnect | ODisconnect | ORetries (n : Z) | OExec (sql : cstr) | OExecString (sql : cstr) (len : nat)
  | OCallback (sql : cstr) | OAutoCommit (on : bool) | OEndTran (commit : bool).

Definition op_step w h (u : U) (o : op) : result (world * agc_odbc_handle * U) :=
  match o with
  | OConnect => let! (w, h, _) := agc_odbc_handle_connect w h in Ok (w, h, u)
  | ODisconnect => let! (w, h, _) := agc_odbc_handle_disconnect w h in Ok (w, h, u)
  | ORetries n => Ok (w, agc_odbc_set_num_retries h n, u)
  | OExec sql => let! (w, h, _, _, _) := agc_odbc_handle_exec w h sql false in Ok (w, h, u)
  | OExecString sql len => let! (w, h, _, _, _) := agc_odbc_handle_exec_string w h sql len in Ok (w, h, u)
  | OCallback sql => let! (w, h, u, _, _) := agc_odbc_handle_callback_exec callback fuel w h sql u in Ok (w, h, u)
  | OAutoCommit on => let! (w, _) := agc_odbc_SQLSetAutoCommitAttr w h on in Ok (w, h, u)
  | OEndTran commit => let! (w, _) := agc_odbc_SQLEndTran w h commit in Ok (w, h, u)
  end.

Fixpoint op_run w h (u : U) (os : list op) : result (world * agc_odbc_handle * U) :=
  match os with
  | [] => Ok (w, h, u)
  | o :: os' => let! (w, h, u) := op_step w h u o in op_run w h u os'
  end.

Lemma op_step_run w h u o E D S : held w h E D S -> (forall d s, (rows_left d s < fuel)%nat) ->
  runs (op_step w h u o) (fun '(w', h', _) => held w' h' E D S).
Proof.
  intros Hh Hfuel. destruct o; cbn [op_step].
  - apply (runs_bind _ _ _ _ (connect_run _ _ _ _ _ Hh)). intros [[w' h'] r] ?. by apply runs_ok.
  - destruct (disconnect_held _ _ _ _ _ Hh) as (w' & -> & ?). by apply runs_ok.
  - apply runs_ok. by apply (held_handle _ h).
  - apply (runs_bind _ _ _ _ (exec_free _ _ _ _ _ sql Hh)). intros [[[[w' h'] r] s] t] [_ ?]. by apply runs_ok.
  - apply (runs_bind _ _ _ _ (exec_string_run _ _ _ _ _ sql len Hh)). intros [[[[w' h'] r] v] t] ?. by apply runs_ok.
  - apply (runs_bind _ _ _ _ (callback_exec_run callback fuel _ _ _ _ _ sql u Hh Hfuel)). intros [[[[w' h'] u'] r] t] ?. by apply runs_ok.
  - unfold agc_odbc_SQLSetAutoCommitAttr. destruct Hh as [Ho|Hst]; [|right; by destruct (stale_call _ _ _ _ _ (SetAutoCommit (con h) on) Hst (fun _ => eq_refl)) as [-> ?]].
    destruct (owns_call _ _ _ _ _ (SetAutoCommit (con h) on) Ho (fun _ => eq_refl)) as (d & a & ->).
    apply runs_ok. left. eauto using owns_frame, frame_driver.
  - unfold agc_odbc_SQLEndTran. destruct Hh as [Ho|Hst]; [|right; by destruct (stale_call _ _ _ _ _ (EndTran (con h) commit) Hst (fun _ => eq_refl)) as [-> ?]].
    destruct (owns_call _ _ _ _ _ (EndTran (con h) commit) Ho (fun _ => eq_refl)) as (d & a & ->).
    apply runs_ok. left. eauto using owns_frame, frame_driver.
Qed.

Lemma op_run_run os w h u E D S : held w h E D S -> (forall d s, (rows_left d s < fuel)%nat) ->
  runs (op_run w h u os) (fun '(w', h', _) => held w' h' E D S).
Proof.
  intros Hh Hfuel. revert w h u Hh. induction os as [|o os IH]; intros w h u Hh; cbn [op_run]; [by apply runs_ok|].
  apply (runs_bind _ _ _ _ (op_step_run w h u o E D S Hh Hfuel)). intros [[w1 h1] u1] Hh1. by apply IH.
Qed.

Lemma destroy_run w h E D S : held w h E D S ->
  exists w', agc_odbc_handle_destroy w h = Ok w' /\ envs w' = E /\ dbcs w' = D /\ stmts w' = S.
Proof.
  intros Hh. unfold agc_odbc_handle_destroy. destruct (disconnect_held _ _ _ _ _ Hh) as (w1 & -> & Hh1). cbn [rbind].
  destruct Hh1 as [[Hh1 Hs _ _]|(He & _ & _ & _ & _ & [Hh1 Hs _ _])]; cbn [env con with_state with_con] in *.
  2:{ rewrite He. destruct Hh1 as [(_ & _ & ? & ?)|(_ & _ & ? & _)]; [by eauto|done]. }
  destruct Hh1 as [(He & _ & ? & ?)|(HE & HD & He & Hc & Ew & Dw)].
  - rewrite He. by eauto.
  - rewrite (proj2 (Z.eqb_neq _ _)) by done. unfold free_dbc, free_env.
    rewrite (proj2 (Z.eqb_neq (con h) 0)), bool_decide_eq_true_2 by (done || (rewrite Dw; set_solver)). cbn [rbind envs dbcs stmts driver next].
    rewrite (proj2 (Z.eqb_neq (env h) 0)), bool_decide_eq_true_2 by (done || (rewrite Ew; set_solver)).
    eexists. split; [done|]. cbn. rewrite Ew, Dw. split_and!; [set_solver..|done].
Qed.
End life.

(** A world in which every handle that is out was handed out once. *)
Record sound w : Prop := Sound {
  so_next : 0 < next w;
  so_envs : forall x, x ∈ envs w -> 0 < x < next w;
  so_dbcs : forall x, x ∈ dbcs w -> 0 < x < next w;
  so_stmts : forall s c, stmts w !! s = Some c -> 0 < s < next w /\ c ∈ dbcs w }.

Lemma owns_new w n u p : sound w -> owns w (agc_odbc_handle_new n u p) (envs w) (dbcs w) (stmts w).
Proof. intros [? ? ? ?]. split; [by left|done|done|done]. Qed.

End handles.
Arguments OdbcLaws : clear implicits.

(** ** Queries *)

(** What a data base is for the code that asks it: the columns (name and size)
    and the rows of every query.  The driver remembers the text of a statement,
    the rows that are still to be fetched, and the row that was fetched last. *)
Class OdbcQueries `{OdbcDriver} := {
  query : cstr -> list (cstr * Z) * list (list cstr);
  prepared : drv -> Z -> option cstr;
  pending : drv -> Z -> list (list cstr);
  current : drv -> Z -> list cstr;
  probe_columns : forall h, 0 < Z.of_nat (length (query (probe_sql h)).1) < 32768;
  alloc_answer : forall d c, code (SQL d (AllocStmt c)).2 = SQL_SUCCESS;
  prepare_answer : forall d s q, code (SQL d (Prepare s q)).2 = SQL_SUCCESS /\ prepared (SQL d (Prepare s q)).1 s = Some q;
  execute_answer : forall d s q, prepared d s = Some q ->
    code (SQL d (Execute s)).2 = SQL_SUCCESS /\ prepared (SQL d (Execute s)).1 s = Some q /\ pending (SQL d (Execute s)).1 s = (query q).2;
  columns_answer : forall d s q, prepared d s = Some q ->
    code (SQL d (NumResultCols s)).2 = SQL_SUCCESS /\ num (SQL d (NumResultCols s)).2 = Z.of_nat (length (query q).1) /\
    prepared (SQL d (NumResultCols s)).1 s = Some q /\ pending (SQL d (NumResultCols s)).1 s = pending d s;
  count_keeps : forall d s, prepared (SQL d (RowCount s)).1 s = prepared d s /\ pending (SQL d (RowCount s)).1 s = pending d s;
  fetch_last : forall d s, pending d s = [] -> code (SQL d (Fetch s)).2 = SQL_NO_DATA;
  fetch_answer : forall d s r rs, pending d s = r :: rs ->
    code (SQL d (Fetch s)).2 = SQL_SUCCESS /\ pending (SQL d (Fetch s)).1 s = rs /\ current (SQL d (Fetch s)).1 s = r /\
    prepared (SQL d (Fetch s)).1 s = prepared d s;
  describe_answer : forall d s q i n z, prepared d s = Some q -> (query q).1 !! i = Some (n, z) ->
    SQL d (DescribeCol s (Z.of_nat i + 1)) =
      ((SQL d (DescribeCol s (Z.of_nat i + 1))).1, Answer SQL_SUCCESS z n []);
  describe_state : forall d s x (d' := (SQL d (DescribeCol s x)).1),
    prepared d' s = prepared d s /\ pending d' s = pending d s /\ current d' s = current d s;
  data_answer : forall d s i v, current d s !! i = Some v ->
    SQL d (GetData s (Z.of_nat i + 1)) = ((SQL d (GetData s (Z.of_nat i + 1))).1, Answer SQL_SUCCESS (Z.of_nat (length v)) v []);
  data_state : forall d s x (d' := (SQL d (GetData s x)).1),
    prepared d' s = prepared d s /\ pending d' s = pending d s /\ current d' s = current d s }.

(** A query whose names and values fit the buffers that are made for them. *)
Definition fits_name (n : cstr) : Prop := Forall (fun c => c <> 0) n /\ (length n < 256)%nat.
Definition room (z : Z) : nat := Z.to_nat (if z =? 0 then 255 else z).
Definition fits_value (z : Z) (v : cstr) : Prop := Forall (fun c => c <> 0) v /\ (length v <= room z)%nat.
Record fits `{OdbcQueries} (q : cstr) : Prop := Fits {
  fit_columns : Z.of_nat (length (query q).1) < 32767;
  fit_names : Forall (fun nz => fits_name nz.1 /\ 0 <= nz.2 < 2 ^ 64 - 1) (query q).1;
  fit_rows : Forall (Forall2 (fun nz v => fits_value nz.2 v) (query q).1) (query q).2 }.

(** The rows given to the callback, until it asks for no more. *)
Fixpoint deliver {U} (callback : U -> list cstr -> list cstr -> U * bool) (names : list cstr) (u : U) (rows : list (list cstr)) : U :=
  match rows with
  | [] => u
  | r :: rows' => let (u, stop) := callback u r names in if stop : bool then u else deliver callback names u rows'
  end.

Section queries.
Context `{OdbcQueries}.
Implicit Types (w : world) (h : agc_odbc_handle).

Lemma stored_fits t n z : Forall (fun c => c <> 0) t -> (length t < n)%nat -> stored (Answer SQL_SUCCESS z t []) n = Some t.
Proof. intros Ht Hl. unfold stored. cbn. rewrite cstring_id by done. by rewrite take_ge by lia. Qed.

(** The columns of the current row. *)
Lemma columns_row w0 k w s q r fuel i :
  in_stmt w0 k w s -> s <> 0 -> fits q -> prepared (driver w) s = Some q -> current (driver w) s = r ->
  Forall2 (fun nz v => fits_value nz.2 v) (query q).1 r -> (i <= length r)%nat -> (length r < fuel + i)%nat ->
  exists w', columns fuel w s (Z.of_nat (length r)) (Z.of_nat i + 1) (take i r) (take i (fst <$> (query q).1)) = Ok (w', r, fst <$> (query q).1) /\
    in_stmt w0 k w' s /\ prepared (driver w') s = Some q /\ pending (driver w') s = pending (driver w) s.
Proof.
  intros Hs Hz Hq Hp Hc Hr. pose proof (Forall2_length _ _ _ Hr) as Hlen. pose proof (fit_columns _ Hq) as Hcols.
  revert w i Hs Hp Hc. induction fuel as [|fuel IH]; intros w i Hs Hp Hc Hi Hf; [lia|]. cbn [columns].
  destruct (Z.leb_spec (Z.of_nat i + 1) (Z.of_nat (length r))) as [Hlt|Hge].
  2:{ assert (i = length r) as -> by lia. rewrite firstn_all, (take_ge (fst <$> _)) by (rewrite length_fmap; lia). by eauto. }
  rewrite length_take, (proj2 (Z.leb_gt _ _)) by lia.
  destruct (lookup_lt_is_Some_2 r i) as [v Hv]; [lia|]. destruct (lookup_lt_is_Some_2 (query q).1 i) as [[n z] Hn]; [lia|].
  pose proof (Forall2_lookup_lr _ _ _ _ _ _ Hr Hn Hv) as [Hv0 Hvl]. pose proof (Forall_lookup_1 _ _ _ _ (fit_names _ Hq) Hn) as [[Hn0 Hnl] Hzr].
  cbn [fst snd] in *.
  rewrite (in_stmt_usable _ _ _ _ (DescribeCol _ _) Hs Hz (fun _ => eq_refl)). cbn [rbind].
  destruct (describe_state (driver w) s (Z.of_nat i + 1)) as (D1 & D2 & D3).
  rewrite (describe_answer _ _ _ _ _ _ Hp Hn) in *. cbn [fst snd] in *. set (d1 := (SQL (driver w) _).1) in *.
  rewrite stored_fits by done. cbn [from_option code num]. apply (in_stmt_driver _ _ _ _ d1) in Hs as Hs1.
  rewrite (in_stmt_usable _ _ _ _ (GetData _ _) Hs1 Hz (fun _ => eq_refl)). cbn [rbind driver with_driver].
  destruct (data_state d1 s (Z.of_nat i + 1)) as (E1 & E2 & E3).
  rewrite (data_answer d1 s i v) in * by (by rewrite D3, Hc). cbn [fst snd] in *. set (d2 := (SQL d1 _).1) in *.
  change (succeeded SQL_SUCCESS) with true. cbv iota.
  assert (Z.to_nat (wrap 64 ((if wrap 64 z =? 0 then 255 else wrap 64 z) + 1)) = S (room z)) as ->.
  { rewrite (wrap_small 64 z) by lia. unfold room. destruct (z =? 0) eqn:Ez; [done|]. rewrite wrap_small by lia. lia. }
  rewrite stored_fits by (done || lia). unfold default. cbn [from_option id].
  rewrite sext16_small by lia. replace (Z.of_nat i + 1 + 1) with (Z.of_nat (S i) + 1) by lia.
  rewrite <- (take_S_r r i v Hv), <- (take_S_r (fst <$> (query q).1) i n) by (by rewrite list_lookup_fmap, Hn).
  destruct (IH (with_driver d2 (with_driver d1 w)) (S i)) as (w' & -> & Hs' & Hp' & Hpe'); [..|lia|lia|].
  { by apply in_stmt_driver. } { cbn. congruence. } { cbn. congruence. }
  exists w'. split_and!; [done..|]. cbn in Hpe'. congruence.
Qed.

Section delivery.
Context {U : Type} (callback : U -> list cstr -> list cstr -> U * bool).

Lemma fetch_rows w0 k w s q fuel u rows :
  in_stmt w0 k w s -> s <> 0 -> fits q -> prepared (driver w) s = Some q -> pending (driver w) s = rows ->
  Forall (Forall2 (fun nz v => fits_value nz.2 v) (query q).1) rows -> (length rows < fuel)%nat ->
  exists w', fetch_loop callback fuel w s (Z.of_nat (length (query q).1)) u = Ok (w', deliver callback (fst <$> (query q).1) u rows, false) /\ in_stmt w0 k w' s.
Proof.
  intros Hs Hz Hq. revert w u rows Hs. induction fuel as [|fuel IH]; intros w u rows Hs Hp Hpe Hr Hf; [lia|]. cbn [fetch_loop].
  rewrite (in_stmt_usable _ _ _ _ (Fetch _) Hs Hz (fun _ => eq_refl)). cbn [rbind]. destruct rows as [|r rows].
  - rewrite fetch_last by done. cbn. eauto using in_stmt_driver.
  - destruct (fetch_answer _ _ _ _ Hpe) as (F1 & F2 & F3 & F4). rewrite F1. cbn [negb Z.eqb SQL_SUCCESS]. set (d1 := (SQL _ _).1) in *.
    inversion_clear Hr as [|? ? Hr1 Hrs]. pose proof (Forall2_length _ _ _ Hr1) as Hlen.
    destruct (columns_row w0 k (with_driver d1 w) s q r (S (length r)) 0) as (w2 & Ec & Hs2 & Hp2 & Hpe2);
      [by apply in_stmt_driver|done|done|cbn; congruence|done|done|lia|lia|].
    rewrite Hlen, Nat2Z.id. rewrite !take_0 in Ec. change (Z.of_nat 0 + 1) with 1 in Ec. rewrite Ec. cbn [rbind deliver].
    destruct (callback u r _) as [u' [|]]; [by eauto|]. cbn in Hpe2. rewrite <- Hlen.
    apply IH; [done|done|congruence|done|cbn in Hf; lia].
Qed.

(** The statement the connection is tried with is answered. *)
Lemma db_up w h E D S : owns w h E D S -> con h <> 0 ->
  exists w' n, db_is_up w h = Ok (w', h, n) /\ n <> 0 /\ frame w w'.
Proof.
  intros Ho Hcon. unfold db_is_up. set (tries := Z.to_nat _).
  assert (exists w1 s, probe w h 0 = Ok (w1, s, Z.of_nat (length (query (probe_sql h)).1), true) /\ in_stmt w (con h) w1 s) as (w1 & s & Hpr & Hs).
  2:{ destruct (in_stmt_free _ _ _ _ _ _ _ Ho Hs) as (w2 & Hfr & Hf). exists w2. eexists. split; [|split; [|done]].
      - destruct tries; cbn [up_loop]; rewrite Hpr; cbn [rbind]; rewrite Hfr; done.
      - pose proof (probe_columns h). lia. }
  unfold probe. destruct (in_stmt_alloc_ok w h E D S Ho Hcon (alloc_answer _ _)) as (w1 & s & -> & Hs & Hz). cbn [rbind negb Z.eqb SQL_SUCCESS].
  rewrite (in_stmt_usable _ _ _ _ (SetQueryTimeout _) Hs Hz (fun _ => eq_refl)). cbn [rbind].
  set (d1 := (SQL _ _).1). apply (in_stmt_driver _ _ _ _ d1) in Hs as Hs1.
  rewrite (in_stmt_usable _ _ _ _ (Prepare _ _) Hs1 Hz (fun _ => eq_refl)). cbn [rbind driver with_driver].
  destruct (prepare_answer d1 s (probe_sql h)) as [-> P2]. cbn [negb Z.eqb SQL_SUCCESS].
  set (d2 := (SQL d1 _).1) in *. apply (in_stmt_driver _ _ _ _ d2) in Hs1 as Hs2.
  rewrite (in_stmt_usable _ _ _ _ (Execute _) Hs2 Hz (fun _ => eq_refl)). cbn [rbind driver with_driver].
  destruct (execute_answer d2 s _ P2) as (-> & P3 & _). change (succeeded SQL_SUCCESS) with true. cbn [negb].
  set (d3 := (SQL d2 _).1) in *. apply (in_stmt_driver _ _ _ _ d3) in Hs2 as Hs3.
  rewrite (in_stmt_usable _ _ _ _ (RowCount _) Hs3 Hz (fun _ => eq_refl)). cbn [rbind driver with_driver].
  destruct (count_keeps d3 s) as [P4 _]. rewrite P3 in P4. set (d4 := (SQL d3 _).1) in *. apply (in_stmt_driver _ _ _ _ d4) in Hs3 as Hs4.
  rewrite (in_stmt_usable _ _ _ _ (NumResultCols _) Hs4 Hz (fun _ => eq_refl)). cbn [rbind driver with_driver].
  destruct (columns_answer d4 s _ P4) as (-> & -> & _ & _). cbn [negb Z.eqb SQL_SUCCESS].
  pose proof (probe_columns h) as Hc. rewrite sext16_small by lia. rewrite (proj2 (Z.ltb_lt 0 _)) by lia.
  eauto 8 using in_stmt_driver.
Qed.

End delivery.
End queries.

(** ** A small data base, to try the theorems on *)

Module MiniDb.
Record mini := Mini { m_text : gmap Z cstr; m_pos : gmap Z nat; m_turn : bool }.

Definition m_query (q : cstr) : list (cstr * Z) * list (list cstr) :=
  if bool_decide (q = bytes_of "select name from users") then ([(bytes_of "name", 8)], [[bytes_of "ann"]; [bytes_of "bob"]])
  else ([(bytes_of "x", 0)], [[bytes_of "1"]]).
Definition m_rows (d : mini) (s : Z) : list (list cstr) := match m_text d !! s with Some q => (m_query q).2 | None => [] end.
Definition m_cols (d : mini) (s : Z) : list (cstr * Z) := match m_text d !! s with Some q => (m_query q).1 | None => [] end.
Definition m_at (d : mini) (s : Z) : nat := default 0%nat (m_pos d !! s).
Definition m_pending (d : mini) (s : Z) : list (list cstr) := drop (m_at d s) (m_rows d s).
Definition m_current (d : mini) (s : Z) : list cstr := default [] (m_rows d s !! (m_at d s - 1)%nat).

Definition good : answer := Answer SQL_SUCCESS 0 [] [].
Definition bad : answer := Answer SQL_ERROR 7 (bytes_of "gone") (bytes_of "08S01").

(** With [flaky] every second statement is refused, and so is every connection. *)
Definition m_sql (flaky : bool) (d : mini) (c : sqlcall) : mini * answer :=
  match c with
  | AllocStmt _ => (Mini (m_text d) (m_pos d) (negb (m_turn d)), if flaky && m_turn d then bad else good)
  | Connect _ _ _ _ => (d, if flaky then bad else good)
  | Prepare s q => (Mini (<[s := q]> (m_text d)) (m_pos d) (m_turn d), good)
  | Execute s => (Mini (m_text d) (<[s := 0%nat]> (m_pos d)) (m_turn d), good)
  | NumResultCols s => (d, Answer SQL_SUCCESS (Z.of_nat (length (m_cols d s))) [] [])
  | Fetch s => match m_pending d s with
               | [] => (d, Answer SQL_NO_DATA 0 [] [])
               | _ :: _ => (Mini (m_text d) (<[s := S (m_at d s)]> (m_pos d)) (m_turn d), good)
               end
  | DescribeCol s x => (d, match m_cols d s !! Z.to_nat (x - 1) with Some (n, z) => Answer SQL_SUCCESS z n [] | None => bad end)
  | GetData s x => (d, match m_current d s !! Z.to_nat (x - 1) with Some v => Answer SQL_SUCCESS (Z.of_nat (length v)) v [] | None => bad end)
  | _ => (d, good)
  end.

#[local] Instance mini_driver flaky : OdbcDriver := {| drv := mini; SQL := m_sql flaky |}.

Lemma m_pending_small d s : (length (m_pending d s) < 3)%nat.
Proof.
  unfold m_pending, m_rows. rewrite length_drop. destruct (m_text d !! s) as [q|]; [|cbn; lia].
  unfold m_query. destruct (bool_decide _); cbn; lia.
Qed.

Lemma m_cols_small d s : (length (m_cols d s) < 2)%nat.
Proof.
  unfold m_cols. destruct (m_text d !! s) as [q|]; [|cbn; lia]. unfold m_query. destruct (bool_decide _); cbn; lia.
Qed.

(** The next row. *)
Lemma m_fetch d s r rs : m_pending d s = r :: rs ->
  m_rows d s !! m_at d s = Some r /\ drop (S (m_at d s)) (m_rows d s) = rs.
Proof.
  unfold m_pending. intros Hd. split.
  - rewrite <- (Nat.add_0_r (m_at d s)), <- lookup_drop, Hd. done.
  - replace (S (m_at d s)) with (m_at d s + 1)%nat by lia. by rewrite <- drop_drop, Hd.
Qed.

#[local] Instance mini_laws flaky : OdbcLaws (mini_driver flaky).
Proof.
  refine {| rows_left (d : @drv (mini_driver flaky)) s := length (m_pending d s) |}; cbn; try done.
  - intros d s. pose proof (m_cols_small d s). rewrite sext16_small by lia. lia.
  - intros d s. destruct (m_pending d s) as [|r rs] eqn:Hp; cbn; [done|]. intros _.
    apply m_fetch in Hp as [_ Hp]. unfold m_pending, m_at. cbn. rewrite lookup_insert_eq. cbn.
    change (m_rows _ s) with (m_rows d s). unfold m_at in Hp. rewrite Hp. lia.
Defined.

#[local] Instance mini_queries : @OdbcQueries (mini_driver false).
Proof.
  refine {| query := m_query; prepared (d : @drv (mini_driver false)) s := m_text d !! s; pending := m_pending; current := m_current |}; cbn.
  - intros h. unfold m_query. destruct (bool_decide _); cbn; lia.
  - done.
  - intros d s q. split; [done|]. apply lookup_insert_eq.
  - intros d s q Hq. split_and!; [done..|]. unfold m_pending, m_at, m_rows. cbn. by rewrite lookup_insert_eq, Hq.
  - intros d s q Hq. split_and!; [done| |done..]. unfold m_cols. by rewrite Hq.
  - done.
  - intros d s Hp. by rewrite Hp.
  - intros d s r rs Hp. apply m_fetch in Hp as Hf. destruct Hf as [Hr Hrs]. rewrite Hp. cbn. split_and!; [done| | |done].
    + unfold m_pending, m_at. cbn. rewrite lookup_insert_eq. cbn. change (m_rows _ s) with (m_rows d s). by unfold m_at in Hrs.
    + unfold m_current, m_at. cbn. rewrite lookup_insert_eq. cbn. change (m_rows _ s) with (m_rows d s).
      rewrite Nat.sub_0_r. unfold m_at in Hr. by rewrite Hr.
  - intros d s q i n z Hq Hi. unfold m_cols. rewrite Hq, Z.add_simpl_r, Nat2Z.id, Hi. done.
  - done.
  - intros d s i v Hv. by rewrite Z.add_simpl_r, Nat2Z.id, Hv.
  - done.
Defined.

(** The driver before anything was asked of it. *)
Definition start (flaky : bool) : @world (mini_driver flaky) := @World (mini_driver flaky) (Mini ∅ ∅ true) ∅ ∅ ∅ 1.

Lemma start_sound flaky : sound (start flaky).
Proof. split; cbn; [lia|set_solver|set_solver|]. intros s c. by rewrite lookup_empty. Qed.

(** A connection that is open. *)
Definition connection : agc_odbc_handle := Handle (bytes_of "db") None None 1 2 STATE_CONNECTED [] false false 0 120.
Definition opened : @world (mini_driver false) := @World (mini_driver false) (Mini ∅ ∅ true) {[1]} {[2]} ∅ 3.

Lemma opened_owns : owns opened connection ∅ ∅ ∅.
Proof.
  split; cbn; [right; set_solver by lia|done|lia|].
  split_and!; [intros x ->%elem_of_singleton; lia|intros x ->%elem_of_singleton; lia|]. intros s c. by rewrite lookup_empty.
Qed.
End MiniDb.

(** ** Main theorems *)


(** A callback that collects the first values, two at most. *)
Definition collect (u : list cstr) (vals names : list cstr) : list cstr * bool :=
  let u := u ++ take 1 vals in (u, (2 <=? length u)%nat).


(** A query is answered to the caller row by row: on an
    open connection the callback is given the rows of the query in the order
    the data base has them, with the names of the columns, until it asks for no
    more, and the call succeeds; the statement has been returned. *)
Theorem odbc_callback_rows `{OdbcQueries} {U} (callback : U -> list cstr -> list cstr -> U * bool) fuel w h E D S sql u :
  owns w h E D S -> con h <> 0 -> fits sql -> (length (query sql).2 < fuel)%nat ->
  exists w' n, agc_odbc_handle_callback_exec callback fuel w h sql u =
      Ok (w', with_rows n h, deliver callback (fst <$> (query sql).1) u (query sql).2, ODBC_SUCCESS, None) /\ owns w' h E D S.
Proof.
  intros Ho Hc Hq Hf. unfold agc_odbc_handle_callback_exec.
  destruct (db_up w (with_rows 0 h) E D S) as (w0 & up & -> & Hup & Hfr); [by apply owns_rows|done|]. cbn [rbind].
  rewrite (proj2 (Z.eqb_neq up 0)) by done. apply (owns_frame _ _ _ _ _ _ Ho) in Hfr as Ho0.
  destruct (in_stmt_alloc_ok w0 h E D S Ho0 Hc (alloc_answer _ _)) as (w1 & s & Ha & Hs & Hz). cbn [con with_rows]. rewrite Ha. cbn [rbind negb Z.eqb SQL_SUCCESS].
  rewrite (in_stmt_usable _ _ _ _ (Prepare _ _) Hs Hz (fun _ => eq_refl)). cbn [rbind driver with_driver].
  destruct (prepare_answer (driver w1) s sql) as [-> P2]. cbn [negb Z.eqb SQL_SUCCESS].
  set (d2 := (SQL _ _).1) in *. apply (in_stmt_driver _ _ _ _ d2) in Hs as Hs2.
  rewrite (in_stmt_usable _ _ _ _ (Execute _) Hs2 Hz (fun _ => eq_refl)). cbn [rbind driver with_driver].
  destruct (execute_answer d2 s _ P2) as (-> & P3 & Q3). change (exec_ok SQL_SUCCESS) with true. cbn [negb].
  set (d3 := (SQL d2 _).1) in *. apply (in_stmt_driver _ _ _ _ d3) in Hs2 as Hs3.
  rewrite (in_stmt_usable _ _ _ _ (NumResultCols _) Hs3 Hz (fun _ => eq_refl)). cbn [rbind driver with_driver].
  destruct (columns_answer d3 s _ P3) as (-> & -> & P4 & Q4). change (succeeded SQL_SUCCESS) with true. cbv iota.
  pose proof (fit_columns _ Hq). rewrite sext16_small by lia.
  set (d4 := (SQL d3 _).1) in *. apply (in_stmt_driver _ _ _ _ d4) in Hs3 as Hs4.
  rewrite (in_stmt_usable _ _ _ _ (RowCount _) Hs4 Hz (fun _ => eq_refl)). cbn [rbind driver with_driver].
  destruct (count_keeps d4 s) as [P5 Q5]. set (d5 := (SQL d4 _).1) in *. apply (in_stmt_driver _ _ _ _ d5) in Hs4 as Hs5.
  destruct (fetch_rows callback _ _ _ s sql fuel u (query sql).2 Hs5 Hz Hq) as (w6 & -> & Hs6);
    [cbn; congruence|cbn; congruence|apply (fit_rows _ Hq)|done|]. cbn [rbind].
  destruct (in_stmt_free _ _ _ _ _ _ _ Ho0 Hs6) as (w7 & -> & Hf7). cbn [rbind]. eauto using owns_frame.
Qed.

Lemma odbc_callback_rows_witness :
  exists w' n, agc_odbc_handle_callback_exec collect 5 MiniDb.opened MiniDb.connection (bytes_of "select name from users") [] =
      Ok (w', with_rows n MiniDb.connection, [bytes_of "ann"; bytes_of "bob"], ODBC_SUCCESS, None) /\ owns w' MiniDb.connection ∅ ∅ ∅.
Proof.
  apply (@odbc_callback_rows _ MiniDb.mini_queries _ collect 5 _ _ ∅ ∅ ∅ (bytes_of "select name from users") []).
  - exact MiniDb.opened_owns.
  - done.
  - split; [vm_compute; reflexivity|repeat constructor; try (vm_compute; discriminate); vm_compute; lia|repeat constructor; try (vm_compute; discriminate); vm_compute; lia].
  - vm_compute. lia.
Defined.

(** When a refused connection is followed by a lack of environments, the
    connection handle that was returned is used for the next attempt. *)
Theorem odbc_reconnect_after_free `{OdbcDriver} w h E D S :
  owns w h E D S -> env h <> 0 -> state h <> STATE_CONNECTED -> contains (dsn h) (bytes_of "DRIVER") = false ->
  (forall d c n u p, succeeded (code (SQL d (Connect c n u p)).2) = false) -> (forall d, succeeded (code (SQL d AllocEnv).2) = false) ->
  exists w' h', agc_odbc_handle_connect w h = Ok (w', h', ODBC_FAIL) /\ agc_odbc_handle_connect w' h' = Fault BadPointer.
Proof.
  intros Ho He Hst Hdsn Hcon Henv. destruct (ow_handles _ _ _ _ _ Ho) as [(? & _)|(HE & HD & _ & Hc & Ew & Dw)]; [done|].
  assert (forall h1, env h1 = 0 -> state h1 <> STATE_CONNECTED -> contains (dsn h1) (bytes_of "DRIVER") = false -> con h1 <> 0 ->
    forall w1, con h1 ∉ dbcs w1 -> agc_odbc_handle_connect w1 h1 = Fault BadPointer) as Hfault.
  { intros h1 H1 H2 H3 H4 w1 H5. unfold agc_odbc_handle_connect, init_odbc_handles, alloc_env. cbn [andb rbind]. rewrite H1.
    change (0 =? SQL_NULL_HANDLE) with true. cbv iota. rewrite (call_usable w1 AllocEnv eq_refl). cbn [rbind]. rewrite !Henv. cbn [rbind negb]. rewrite ?Henv. cbn [rbind negb].
    rewrite bool_decide_eq_false_2 by done. cbn [rbind dsn con with_env]. rewrite H3. unfold call. cbn [usable_call]. unfold use_dbc, usable.
    rewrite (proj2 (Z.eqb_neq _ _)) by done. rewrite bool_decide_eq_false_2 by done. done. }
  unfold agc_odbc_handle_connect at 1. unfold init_odbc_handles at 1. cbn [andb rbind].
  rewrite (proj2 (Z.eqb_neq (env h) SQL_NULL_HANDLE)) by done. cbn [rbind]. rewrite bool_decide_eq_false_2 by done. cbn [rbind]. rewrite Hdsn.
  rewrite (call_usable w (Connect _ _ _ _)) by (apply usable_in; [done|]; apply bool_decide_eq_true; set_solver). cbn [rbind]. rewrite Hcon. cbn [negb].
  set (w1 := with_driver _ w). assert (owns w1 h E D S) as Ho1 by (eapply owns_frame; [done|apply frame_driver]).
  destruct (in_stmt_error w1 h E D S w1 0 Ho1 (in_stmt_none _ _)) as (w2 & t & -> & Hi). cbn [rbind].
  assert (exists d, w2 = with_driver d w) as [d ->].
  { destruct Hi as [[_ [d ->]]|[E0 _]]; [by exists d|]. pose proof (ow_next _ _ _ _ _ Ho1). lia. }
  assert (exists d', match t with Some _ => Ok (with_driver d w) | None => let! (w, _) := call (with_driver d w) (GetDiagRec (con h)) in Ok w end = Ok (with_driver d' w)) as [d' ->].
  { destruct t; [by eexists|]. rewrite (call_usable (with_driver d w) (GetDiagRec _)) by (apply usable_in; [done|]; apply bool_decide_eq_true; cbn; set_solver). by eexists. }
  cbn [rbind]. unfold init_odbc_handles, alloc_env, free_dbc, free_env. rewrite (proj2 (Z.eqb_neq (env h) SQL_NULL_HANDLE)) by done. cbn [andb negb].
  rewrite (proj2 (Z.eqb_neq (con h) 0)), bool_decide_eq_true_2 by (done || (cbn; rewrite Dw; set_solver)). cbn [rbind envs dbcs stmts driver next].
  rewrite (proj2 (Z.eqb_neq (env h) 0)), bool_decide_eq_true_2 by (done || (cbn; rewrite Ew; set_solver)). cbn [rbind env with_env].
  change (SQL_NULL_HANDLE =? SQL_NULL_HANDLE) with true. cbv iota.
  rewrite (call_usable _ AllocEnv eq_refl). cbn [rbind driver]. rewrite !Henv. cbn [rbind negb]. rewrite ?Henv. cbn [rbind negb]. do 2 eexists. split; [done|].
  apply Hfault; [done..|]. cbn. set_solver.
Qed.

(** A driver that refuses everything. *)
Definition gone_driver : OdbcDriver := {| drv := unit; SQL d _ := (d, MiniDb.bad) |}.

Lemma odbc_reconnect_after_free_witness :
  let h := Handle (bytes_of "db") None None 1 2 STATE_DOWN [] false false 0 120 in
  let w := @World gone_driver tt {[1]} {[2]} ∅ 3 in
  exists w' h', @agc_odbc_handle_connect gone_driver w h = Ok (w', h', ODBC_FAIL) /\ @agc_odbc_handle_connect gone_driver w' h' = Fault BadPointer.
Proof.
  intros h w. apply (@odbc_reconnect_after_free gone_driver w h ∅ ∅ ∅); [|done|done|reflexivity|done|done].
  split; cbn; [right; set_solver by lia|done|lia|].
  split_and!; [intros x ->%elem_of_singleton; lia|intros x ->%elem_of_singleton; lia|]. intros s c. by rewrite lookup_empty.
Defined.
