(* ===== verification/Db.v ===== *)
(** * The embedded data base

    [src/src/agc_db.c], the front end of sqlite, which is a parameter (the class
    [Sqlite]): opening a file, executing with retries, and executing inside of
    a transaction.  The state of the class is that of the data base and of the
    caller's data together, since a statement may run a callback.  Functions
    that only pass their arguments on are not modelled. *)

From stdpp Require Import base list strings.
From Stdlib Require Import ZArith Lia.
From S2P Require Import Prelude CString Event EslText.

Module Db.
Import Ev.

Definition SQLITE_OK : Z := 0.
Definition SQLITE_BUSY : Z := 5.
Definition SQLITE_LOCKED : Z := 6.
Definition MAX_DB_RETRIES : nat := 5.

(** [sqlite3_open] and [sqlite3_exec]: the state, the code and the message. *)
Class Sqlite := {
  db : Type;
  sqlite3_open : cstr -> db * Z;
  sqlite3_exec : db -> cstr -> db * Z * option cstr }.

Section db.
Context `{Sqlite}.

Definition is_busy (ret : Z) : bool := (ret =? SQLITE_BUSY) || (ret =? SQLITE_LOCKED).

(** The loop of [agc_db_exec], [retries] being what [--retries] has made of it. *)
Fixpoint exec_loop (retries : nat) (d : db) (sql : cstr) (ret : Z) (err : option cstr) : db * Z * option cstr :=
  match retries with
  | O => (d, ret, err)
  | S retries' =>
      let '(d, ret, err) := sqlite3_exec d sql in
      if is_busy ret then
        (* the message of the last attempt is kept *)
        exec_loop retries' d sql ret (if (1 <? retries)%nat then None else err)
      else (d, ret, err)
  end.

(** [agc_db_exec]; the message is for a caller that asks for it. *)
Definition agc_db_exec (d : db) (sql : cstr) (errmsg : bool) : db * Z * option cstr :=
  let '(d, ret, err) := exec_loop 9 d sql 0 None in
  (d, ret, if errmsg then err else None).

(** [agc_db_open_file]: the statements every data base is opened with. *)
Definition pragmas : list cstr :=
  [bytes_of "PRAGMA synchronous=OFF;"; bytes_of "PRAGMA count_changes=OFF;"; bytes_of "PRAGMA cache_size=8000;"; bytes_of "PRAGMA temp_store=MEMORY;"].

Fixpoint run_pragmas (ps : list cstr) (d : db) (db_ret : Z) : db * Z :=
  match ps with
  | [] => (d, db_ret)
  | p :: ps' =>
      let '(d, ret, _) := agc_db_exec d p false in
      let db_ret := if ret =? SQLITE_OK then 0 else 1 in
      if db_ret =? 0 then run_pragmas ps' d db_ret else (d, db_ret)
  end.

(** The state, and whether a data base is returned; otherwise it was closed. *)
Definition agc_db_open_file (db_dir filename : cstr) : db * bool :=
  let path := take 1023 (db_dir ++ [47] ++ filename) in
  let (d, db_ret) := sqlite3_open path in
  let (d, db_ret) := (if db_ret =? SQLITE_OK then run_pragmas pragmas d db_ret else (d, db_ret)) in
  (d, db_ret =? SQLITE_OK).

Definition clamp_retries (retries : nat) : nat :=
  if (retries =? 0)%nat || (MAX_DB_RETRIES <? retries)%nat then MAX_DB_RETRIES else retries.

(** The loop of [agc_db_persistant_execute], which both functions share. *)
Fixpoint persist (retries : nat) (d : db) (sql : cstr) : db * agc_status :=
  match retries with
  | O => (d, AGC_STATUS_FALSE)
  | S retries' =>
      let '(d, _, errmsg) := agc_db_exec d sql true in
      match errmsg with
      | Some _ => persist retries' d sql
      | None => (d, AGC_STATUS_SUCCESS)
      end
  end.

Definition agc_db_persistant_execute (d : db) (sql : cstr) (retries : nat) : db * agc_status :=
  persist (clamp_retries retries) d sql.

Definition BEGIN : cstr := bytes_of "BEGIN".
Definition COMMIT : cstr := bytes_of "COMMIT".
Definition within : cstr := bytes_of "cannot start a transaction within a transaction".

(** The loop that starts a transaction: a transaction that is open already is
    committed first; the result says whether it was started. *)
Fixpoint begin_loop (begin_retries : nat) (d : db) : db * bool :=
  match begin_retries with
  | O => (d, false)
  | S begin_retries' =>
      let '(d, _, errmsg) := agc_db_exec d BEGIN true in
      match errmsg with
      | None => (d, true)
      | Some m =>
          let d := match EslText.strstr m within with Some _ => fst (fst (agc_db_exec d COMMIT false)) | None => d end in
          begin_loop begin_retries' d
      end
  end.

Definition agc_db_persistant_execute_trans (d : db) (sql : cstr) (retries : nat) : db * agc_status :=
  let retries := clamp_retries retries in
  let (d, started) := begin_loop MAX_DB_RETRIES d in
  if started : bool then
    let (d, status) := persist retries d sql in
    (fst (fst (agc_db_exec d COMMIT false)), status)
  else (fst (fst (agc_db_exec d COMMIT false)), AGC_STATUS_FALSE).

End db.
End Db.
Import Ev Db.

(** ** Retries *)

Section retries.
Context `{Sqlite}.

(** The data base after [k] attempts of a statement. *)
Fixpoint attempts (k : nat) (d : db) (sql : cstr) : db :=
  match k with
  | O => d
  | S k' => attempts k' (fst (fst (sqlite3_exec d sql))) sql
  end.

(** What the next attempt answers. *)
Definition answers_busy (d : db) (sql : cstr) : bool := is_busy (snd (fst (sqlite3_exec d sql))).

Lemma exec_loop_first k n d sql ret err : (k < n)%nat ->
  (forall i, (i < k)%nat -> answers_busy (attempts i d sql) sql = true) -> answers_busy (attempts k d sql) sql = false ->
  exec_loop n d sql ret err = sqlite3_exec (attempts k d sql) sql.
Proof.
  revert n d ret err. induction k as [|k IH]; intros [|n] d ret err Hn Hb Hk; try lia; cbn [exec_loop].
  - unfold answers_busy in Hk. cbn [attempts] in *. destruct (sqlite3_exec d sql) as [[d' r] e]. cbn in Hk. by rewrite Hk.
  - pose proof (Hb 0%nat ltac:(lia)) as H0. unfold answers_busy in H0. cbn [attempts] in *.
    destruct (sqlite3_exec d sql) as [[d' r] e] eqn:E. cbn in H0, Hk. rewrite H0. apply IH; [lia| |done].
    intros i Hi. specialize (Hb (S i) ltac:(lia)). cbn [attempts] in Hb. by rewrite E in Hb.
Qed.

Lemma exec_loop_busy n d sql ret err : (0 < n)%nat ->
  (forall i, (i < n)%nat -> answers_busy (attempts i d sql) sql = true) ->
  exec_loop n d sql ret err = sqlite3_exec (attempts (n - 1) d sql) sql.
Proof.
  revert d ret err. induction n as [|n IH]; intros d ret err Hn Hb; [lia|]. cbn [exec_loop].
  pose proof (Hb 0%nat ltac:(lia)) as H0. unfold answers_busy in H0. cbn [attempts] in H0.
  destruct n as [|n].
  - cbn. destruct (sqlite3_exec d sql) as [[d' r] e]. cbn in H0. by rewrite H0.
  - destruct (sqlite3_exec d sql) as [[d' r] e] eqn:E. cbn in H0. rewrite H0.
    rewrite IH; [|lia|]; [|intros i Hi; specialize (Hb (S i) ltac:(lia)); cbn [attempts] in Hb; by rewrite E in Hb].
    replace (S (S n) - 1)%nat with (S (S n - 1))%nat by lia. cbn [attempts]. by rewrite E.
Qed.

(** A statement is tried again while the data base is busy, nine
    times at most: the result, the message included, is that of the first
    attempt that was not refused, or of the ninth. *)
Theorem agc_db_exec_retries d sql (k : nat) :
  (forall i, (i < k)%nat -> answers_busy (attempts i d sql) sql = true) ->
  (answers_busy (attempts k d sql) sql = false \/ (8 <= k)%nat) ->
  agc_db_exec d sql true = sqlite3_exec (attempts (Nat.min k 8) d sql) sql.
Proof.
  intros Hb Hk. unfold agc_db_exec.
  assert (exec_loop 9 d sql 0 None = sqlite3_exec (attempts (Nat.min k 8) d sql) sql) as ->.
  { destruct (answers_busy (attempts (Nat.min k 8) d sql) sql) eqn:E8.
    - destruct Hk as [Hk|Hk].
      + destruct (Nat.le_gt_cases k 8); [rewrite Nat.min_l in E8 by lia; congruence|].
        rewrite Nat.min_r in * by lia. apply (exec_loop_busy 9); [lia|]. intros i Hi. apply Hb. lia.
      + rewrite Nat.min_r in * by lia. apply (exec_loop_busy 9); [lia|]. intros i Hi.
        destruct (decide (i = 8%nat)) as [->|]; [done|]. apply Hb. lia.
    - apply exec_loop_first; [lia| |done]. intros i Hi. apply Hb. lia. }
  by destruct (sqlite3_exec _ _) as [[? ?] ?].
Qed.

End retries.

(** ** Transactions *)

(** What a data base promises when no one else uses it: its committed content
    and the transaction that is open are lists of changes; a text is a script
    whose changes are made up to its first statement that fails. *)
Class SqliteTx `{Sqlite} (A : Type) := {
  committed : db -> list A;
  opened : db -> option (list A);
  effect : cstr -> list A * bool;
  begin_new : forall d, opened d = None -> exists d', sqlite3_exec d BEGIN = (d', SQLITE_OK, None) /\
    opened d' = Some [] /\ committed d' = committed d;
  begin_nested : forall d l, opened d = Some l -> exists d' r m, sqlite3_exec d BEGIN = (d', r, Some m) /\ is_busy r = false /\
    is_Some (EslText.strstr m within) /\ opened d' = Some l /\ committed d' = committed d;
  commit_opened : forall d l, opened d = Some l -> exists d', sqlite3_exec d COMMIT = (d', SQLITE_OK, None) /\
    opened d' = None /\ committed d' = committed d ++ l;
  run_script : forall d l sql, opened d = Some l -> sql <> BEGIN -> sql <> COMMIT ->
    exists d' r m, sqlite3_exec d sql = (d', r, m) /\ is_busy r = false /\ (m = None <-> (effect sql).2 = true) /\
      opened d' = Some (l ++ (effect sql).1) /\ committed d' = committed d }.

Section transactions.
Context `{SqliteTx A}.

Lemma exec_not_busy d sql d' r m b : sqlite3_exec d sql = (d', r, m) -> is_busy r = false -> agc_db_exec d sql b = (d', r, if b : bool then m else None).
Proof.
  intros He Hr. unfold agc_db_exec. rewrite (exec_loop_first 0 9) by (lia || (unfold answers_busy; cbn; by rewrite He)).
  cbn [attempts]. by rewrite He.
Qed.

(** A transaction is started; one that was open is committed before. *)
Lemma begin_started d : exists d', begin_loop MAX_DB_RETRIES d = (d', true) /\ opened d' = Some [] /\
  committed d' = committed d ++ default [] (opened d).
Proof.
  cbn [begin_loop MAX_DB_RETRIES]. destruct (opened d) as [l|] eqn:Ho; cbn [from_option].
  - destruct (begin_nested d l Ho) as (d1 & r & m & E1 & Hr & [x Hx] & O1 & C1). rewrite (exec_not_busy _ _ _ _ _ true E1 Hr), Hx.
    destruct (commit_opened d1 l O1) as (d2 & E2 & O2 & C2). rewrite (exec_not_busy _ _ _ _ _ false E2 eq_refl). cbn [fst].
    destruct (begin_new d2 O2) as (d3 & E3 & O3 & C3). rewrite (exec_not_busy _ _ _ _ _ true E3 eq_refl).
    exists d3. split_and!; [done|done|]. unfold default, id. cbn. congruence.
  - destruct (begin_new d Ho) as (d1 & E1 & O1 & C1). rewrite (exec_not_busy _ _ _ _ _ true E1 eq_refl).
    exists d1. split_and!; [done|done|]. unfold default. cbn. by rewrite app_nil_r.
Qed.

(** The changes of a script that is tried [n] times. *)
Definition tried (n : nat) (sql : cstr) : list A := if (effect sql).2 then (effect sql).1 else mjoin (replicate n (effect sql).1).

Lemma persist_effect n d l sql : (0 < n)%nat -> opened d = Some l -> sql <> BEGIN -> sql <> COMMIT ->
  exists d', persist n d sql = (d', if (effect sql).2 then AGC_STATUS_SUCCESS else AGC_STATUS_FALSE) /\
    opened d' = Some (l ++ tried n sql) /\ committed d' = committed d.
Proof.
  unfold tried. revert d l. induction n as [|n IH]; intros d l Hn Ho Hb Hc; [lia|]. cbn [persist].
  destruct (run_script d l sql Ho Hb Hc) as (d1 & r & m & E1 & Hr & Hm & O1 & C1). rewrite (exec_not_busy _ _ _ _ _ true E1 Hr).
  destruct (effect sql) as [e ok] eqn:Ee. cbn [fst snd] in *. destruct ok.
  - rewrite (proj2 Hm eq_refl). by exists d1.
  - destruct m as [m|]; [|discriminate (proj1 Hm eq_refl)]. destruct n as [|n].
    + exists d1. split_and!; [done| |done]. cbn. by rewrite app_nil_r.
    + destruct (IH d1 (l ++ e)) as (d2 & -> & O2 & C2); [lia|done|done|done|]. exists d2. split_and!; [done| |congruence].
      rewrite O2, <- app_assoc. done.
Qed.

(** C37: Executing inside of a transaction commits and leaves no
    transaction open.  A script that succeeds has been carried out once.  One
    of which a statement fails is reported as failed, but the statements before
    it are kept, once for every attempt.  A transaction that was open is
    committed before. *)
Theorem agc_db_persistant_execute_trans_effect d sql retries : sql <> BEGIN -> sql <> COMMIT ->
  exists d', agc_db_persistant_execute_trans d sql retries = (d', if (effect sql).2 then AGC_STATUS_SUCCESS else AGC_STATUS_FALSE) /\
    opened d' = None /\ committed d' = committed d ++ default [] (opened d) ++ tried (clamp_retries retries) sql.
Proof.
  intros Hb Hc. unfold agc_db_persistant_execute_trans. destruct (begin_started d) as (d1 & -> & O1 & C1).
  destruct (persist_effect (clamp_retries retries) d1 [] sql) as (d2 & -> & O2 & C2); [|done|done|done|].
  { unfold clamp_retries, MAX_DB_RETRIES. destruct (Nat.eqb_spec retries 0); cbn [orb]; [lia|]. destruct (5 <? retries)%nat; lia. }
  destruct (commit_opened d2 _ O2) as (d3 & E3 & O3 & C3). rewrite (exec_not_busy _ _ _ _ _ false E3 eq_refl). cbn [fst].
  exists d3. split_and!; [done|done|]. rewrite C3, C2, C1. by rewrite <- app_assoc.
Qed.

End transactions.

(** ** A small data base *)

Module MiniSqlite.
(** The changes are texts; the text ["bad"] fails after its first statement. *)
Record mini := Mini { m_done : list cstr; m_open : option (list cstr); m_busy : nat }.
Definition m_effect (sql : cstr) : list cstr * bool := if bool_decide (sql = bytes_of "bad") then ([bytes_of "first"], false) else ([sql], true).
Definition m_exec (d : mini) (sql : cstr) : mini * Z * option cstr :=
  match m_busy d with
  | S n => (Mini (m_done d) (m_open d) n, SQLITE_BUSY, Some (bytes_of "database is locked"))
  | O =>
      if bool_decide (sql = BEGIN) then
        match m_open d with Some _ => (d, 1, Some within) | None => (Mini (m_done d) (Some []) 0, SQLITE_OK, None) end
      else if bool_decide (sql = COMMIT) then
        match m_open d with Some l => (Mini (m_done d ++ l) None 0, SQLITE_OK, None) | None => (d, 1, Some (bytes_of "no transaction")) end
      else
        (Mini (m_done d) (Some (default [] (m_open d) ++ (m_effect sql).1)) 0, if (m_effect sql).2 then SQLITE_OK else 1, if (m_effect sql).2 then None else Some (bytes_of "syntax error"))
  end.
#[local] Instance mini_sqlite : Sqlite := {| db := mini; sqlite3_open _ := (Mini [] None 0, SQLITE_OK); sqlite3_exec := m_exec |}.

(** The data base when no one else uses it. *)
Record calm := Calm { c_done : list cstr; c_open : option (list cstr) }.
Definition c_exec (d : calm) (sql : cstr) : calm * Z * option cstr :=
  let '(m, r, e) := m_exec (Mini (c_done d) (c_open d) 0) sql in (Calm (m_done m) (m_open m), r, e).
#[local] Instance calm_sqlite : Sqlite := {| db := calm; sqlite3_open _ := (Calm [] None, SQLITE_OK); sqlite3_exec := c_exec |}.

#[local] Instance calm_tx : @SqliteTx calm_sqlite cstr.
Proof.
  refine {| committed (d : @db calm_sqlite) := c_done d; opened := c_open; effect := m_effect |}.
  - intros [l o]. cbn. intros ->. unfold c_exec, m_exec. cbn. by eexists.
  - intros [l o] l'. cbn. intros ->. do 3 eexists. split; [reflexivity|]. split_and!; [reflexivity|vm_compute; by eexists|done|done].
  - intros [l o] l'. cbn. intros ->. unfold c_exec, m_exec. cbn [m_busy c_done c_open].
    change (bool_decide (COMMIT = BEGIN)) with false. change (bool_decide (COMMIT = COMMIT)) with true. cbv iota. by eexists.
  - intros [l o] l' sql. cbn. intros -> Hb Hc. unfold c_exec, m_exec. cbn [m_busy c_done c_open].
    rewrite !bool_decide_eq_false_2 by done. cbn. do 3 eexists. split; [reflexivity|]. destruct (m_effect sql) as [e [|]]; cbn; by split_and!.
Defined.
End MiniSqlite.

Lemma agc_db_exec_retries_witness :
  let d := MiniSqlite.Mini [] None 2 in
  @agc_db_exec MiniSqlite.mini_sqlite d BEGIN true = (MiniSqlite.Mini [] (Some []) 0, SQLITE_OK, None).
Proof.
  intros d. apply (@agc_db_exec_retries MiniSqlite.mini_sqlite d BEGIN 2).
  - intros i Hi. destruct i as [|[|i]]; [reflexivity|reflexivity|lia].
  - left. reflexivity.
Defined.

Lemma agc_db_persistant_execute_trans_effect_witness :
  exists d', @agc_db_persistant_execute_trans MiniSqlite.calm_sqlite (MiniSqlite.Calm [] (Some [bytes_of "other"])) (bytes_of "bad") 2 = (d', AGC_STATUS_FALSE) /\
    MiniSqlite.c_open d' = None /\ MiniSqlite.c_done d' = [bytes_of "other"; bytes_of "first"; bytes_of "first"].
Proof.
  apply (@agc_db_persistant_execute_trans_effect MiniSqlite.calm_sqlite cstr MiniSqlite.calm_tx (MiniSqlite.Calm [] (Some [bytes_of "other"])) (bytes_of "bad") 2);
    vm_compute; discriminate.
Defined.
