(* ===== verification/Memory.v ===== *)
(** * Memory pools

    [src/src/agc_core_memory.c]: pools that are no longer used are handed to a
    thread that destroys them later.  A step is one critical section or one
    access of the shared flag, so a list of steps is an interleaving of the
    thread and of its clients.  The pools themselves are those of [AprPools];
    here a pool is its address, and destroying one that is not there is a
    fault. *)

From stdpp Require Import base gmap list fin_maps.
From Stdlib Require Import ZArith Lia.
From S2P Require Import Prelude Queue.

Module Memory.
Import Queue.

(** Where the thread is: at the top of its loop, with [x] pools to take (and
    perhaps waiting for one), in the last loop, or at its end. *)
Inductive pool_pc := Top | Popping (x : nat) | PopWaiting (x : nat) | Draining | Ended.

(** [memory_manager], the pools, and the calls of [agc_memory_destroy_pool] under
    way: those that have seen the thread running and are about to push, and
    those that wait for room.  [owned] are the pools clients hold. *)
Record manager := Manager {
  pool_queue : apr_queue_t;
  pool_thread_running : Z;
  thread : pool_pc;
  pools : gset Z;
  next_pool : Z;
  owned : list Z;
  pushing : list Z;
  waiting : list Z }.

Definition with_queue q m := Manager q (pool_thread_running m) (thread m) (pools m) (next_pool m) (owned m) (pushing m) (waiting m).
Definition with_thread t m := Manager (pool_queue m) (pool_thread_running m) t (pools m) (next_pool m) (owned m) (pushing m) (waiting m).
Definition with_running r m := Manager (pool_queue m) r (thread m) (pools m) (next_pool m) (owned m) (pushing m) (waiting m).
Definition with_calls ps ws m := Manager (pool_queue m) (pool_thread_running m) (thread m) (pools m) (next_pool m) (owned m) ps ws.
Definition with_owned os m := Manager (pool_queue m) (pool_thread_running m) (thread m) (pools m) (next_pool m) os (pushing m) (waiting m).

(** [agc_core_memory_init]: it returns when the thread runs. *)
Definition agc_core_memory_init : manager := Manager (apr_queue_create 50000) 1 Top ∅ 1 [] [] [].

Definition agc_memory_create_pool (m : manager) : manager :=
  Manager (pool_queue m) (pool_thread_running m) (thread m) ({[next_pool m]} ∪ pools m) (next_pool m + 1) (next_pool m :: owned m) (pushing m) (waiting m).

Definition apr_pool_destroy (p : Z) (m : manager) : result manager :=
  if bool_decide (p ∈ pools m)
  then Ok (Manager (pool_queue m) (pool_thread_running m) (thread m) (pools m ∖ {[p]}) (next_pool m) (owned m) (pushing m) (waiting m))
  else Fault BadFree.

(** [l] without [p]. *)
Definition without (p : Z) (l : list Z) : list Z := filter (fun x => x <> p) l.

(** [agc_memory_destroy_pool], up to its push. *)
Definition destroy_begin (p : Z) (m : manager) : result manager :=
  if bool_decide (p ∈ owned m) then
    let m := with_owned (without p (owned m)) m in
    if negb (pool_thread_running m =? 1) then apr_pool_destroy p m else Ok (with_calls (p :: pushing m) (waiting m) m)
  else Ok m.

(** Its push ([agc_queue_push] tries again when it was interrupted). *)
Definition pushed (p : Z) (o : outcome) (m : manager) : result manager :=
  match o with
  | Return APR_SUCCESS => Ok m
  | Return APR_EINTR => Ok (with_calls (p :: pushing m) (waiting m) m)
  | Return _ => apr_pool_destroy p m
  | Wait => Ok (with_calls (pushing m) (p :: waiting m) m)
  end.
Definition destroy_push (p : Z) (m : manager) : result manager :=
  if bool_decide (p ∈ pushing m) then
    let! (q, o) := apr_queue_push (pool_queue m) p in
    pushed p o (with_calls (without p (pushing m)) (waiting m) (with_queue q m))
  else Ok m.
Definition destroy_wake (p : Z) (m : manager) : result manager :=
  if bool_decide (p ∈ waiting m) then
    let! (q, o) := apr_queue_push_wake (pool_queue m) p in
    pushed p o (with_calls (pushing m) (without p (waiting m)) (with_queue q m))
  else Ok m.

(** The thread: one turn of a loop, or one pop. *)
Definition popped (x : nat) (o : outcome) (v : option Z) (m : manager) : result manager :=
  match o, v with
  | Wait, _ => Ok (with_thread (PopWaiting x) m)
  | Return APR_SUCCESS, Some v =>
      if v =? 0 then Ok (with_thread Draining m)
      else let! m := apr_pool_destroy v m in Ok (with_thread (match x with S (S x') => Popping (S x') | _ => Top end) m)
  | _, _ => Ok (with_thread Draining m)
  end.

Definition pool_thread_step (m : manager) : result manager :=
  match thread m with
  | Top =>
      if pool_thread_running m =? 1 then
        let len := apr_queue_size (pool_queue m) in
        Ok (if len =? 0 then m else with_thread (Popping (Z.to_nat len)) m)
      else Ok (with_thread Draining m)
  | Popping x => let! (q, o, v) := apr_queue_pop (pool_queue m) in popped x o v (with_queue q m)
  | PopWaiting x => let! (q, o, v) := apr_queue_pop_wake (pool_queue m) in popped x o v (with_queue q m)
  | Draining =>
      let! (q, s, v) := apr_queue_trypop (pool_queue m) in
      let m := with_queue q m in
      match s, v with
      | APR_SUCCESS, Some v => if v =? 0 then Ok (with_running 0 (with_thread Ended m)) else apr_pool_destroy v m
      | _, _ => Ok (with_running 0 (with_thread Ended m))
      end
  | Ended => Ok m
  end.

Inductive action := Create | DestroyBegin (p : Z) | DestroyPush (p : Z) | DestroyWake (p : Z) | Thread.

Definition step (m : manager) (a : action) : result manager :=
  match a with
  | Create => Ok (agc_memory_create_pool m)
  | DestroyBegin p => destroy_begin p m
  | DestroyPush p => destroy_push p m
  | DestroyWake p => destroy_wake p m
  | Thread => pool_thread_step m
  end.

Fixpoint run (m : manager) (acts : list action) : result manager :=
  match acts with
  | [] => Ok m
  | a :: acts' => let! m := step m a in run m acts'
  end.

(** ** The invariant *)

(** Every pool that is there is in exactly one place. *)
Definition places (m : manager) : list Z := owned m ++ pushing m ++ waiting m ++ contents (pool_queue m).

Record inv (m : manager) : Prop := Inv {
  in_queue : wf (pool_queue m) /\ terminated (pool_queue m) = false;
  in_running : pool_thread_running m = 1;
  in_thread : match thread m with Top => True | Popping x => (0 < x <= length (contents (pool_queue m)))%nat | _ => False end;
  in_once : NoDup (places m);
  in_pools : forall p, p ∈ pools m <-> p ∈ places m;
  in_range : 0 < next_pool m /\ forall p, p ∈ pools m -> 0 < p < next_pool m }.

Lemma without_perm p l : NoDup l -> p ∈ l -> l ≡ₚ p :: without p l.
Proof.
  intros Hl Hp. induction l as [|x l IH]; [set_solver|]. apply NoDup_cons in Hl as [Hx Hl]. unfold without in *.
  destruct (decide (x = p)) as [->|Hne].
  - rewrite filter_cons_False by (intros Hc; by apply Hc). rewrite list_filter_all; [done|].
    apply Forall_forall. intros y Hy ->. done.
  - rewrite filter_cons_True by done. apply elem_of_cons in Hp as [->|Hp]; [done|]. rewrite (IH Hl Hp) at 1. apply Permutation_swap.
Qed.

(** A step that moves pools from place to place. *)
Lemma inv_move m m' : inv m -> wf (pool_queue m') -> terminated (pool_queue m') = false -> pool_thread_running m' = 1 ->
  match thread m' with Top => True | Popping x => (0 < x <= length (contents (pool_queue m')))%nat | _ => False end ->
  pools m' = pools m -> next_pool m' = next_pool m -> places m' ≡ₚ places m -> inv m'.
Proof.
  intros [Hq Hr Ht Ho Hp Hn] Hwf Htm Hrun Hth Epools Enext Hperm. split; rewrite ?Epools, ?Enext; [done|done|done| |intros p|done].
  - by rewrite Hperm.
  - by rewrite Hperm.
Qed.

(** A step that destroys the pool [p]. *)
Lemma inv_destroy m m1 p : inv m -> places m ≡ₚ p :: places m1 -> wf (pool_queue m1) -> terminated (pool_queue m1) = false ->
  pool_thread_running m1 = 1 -> pools m1 = pools m -> next_pool m1 = next_pool m ->
  exists m', apr_pool_destroy p m1 = Ok m' /\ places m' = places m1 /\ pool_queue m' = pool_queue m1 /\ owned m' = owned m1 /\
    pushing m' = pushing m1 /\ waiting m' = waiting m1 /\ forall t,
    (match t with Top => True | Popping x => (0 < x <= length (contents (pool_queue m1)))%nat | _ => False end) -> inv (with_thread t m').
Proof.
  intros [Hq Hr Ht Ho Hp Hn] Hperm Hwf Htm Hrun Epools Enext. unfold apr_pool_destroy.
  rewrite Hperm in Ho. apply NoDup_cons in Ho as [Hnot Ho].
  rewrite bool_decide_eq_true_2 by (rewrite Epools; apply Hp; rewrite Hperm; left).
  eexists. split; [done|]. split_and!; [done..|]. intros t Hth. split; cbn; [done|done|done|done| |].
  - intros x. rewrite Epools, elem_of_difference, elem_of_singleton, Hp, Hperm, elem_of_cons. change (places (with_thread t _)) with (places m1).
    destruct (decide (x = p)) as [->|]; naive_solver.
  - rewrite Enext, Epools. split; [by destruct Hn|]. intros x [Hx _]%elem_of_difference. by apply Hn.
Qed.

Ltac norm_places := unfold places; cbn [owned pushing waiting pool_queue with_calls with_queue with_owned with_thread].

(** An element is pulled to the front of both lists. *)
Ltac pull := cbn [app]; repeat rewrite <- Permutation_middle; rewrite ?app_nil_r; reflexivity.

(** Taking a pool from the queue. *)
Lemma thread_pop m x : inv m -> thread m = Popping x ->
  exists v L m', pool_thread_step m = Ok m' /\ contents (pool_queue m) = v :: L /\ contents (pool_queue m') = L /\
    (thread m' = (match x with S (S x') => Popping (S x') | _ => Top end) /\ owned m' = owned m /\ pushing m' = pushing m /\ waiting m' = waiting m) /\ inv m'.
Proof.
  intros Hi Et. pose proof Hi as [[Hwf Htm] Hrun Hth Hone Hpools Hnext]. unfold pool_thread_step. rewrite Et in *.
  unfold apr_queue_pop. rewrite Htm. unfold apr_queue_empty. pose proof (full_length _ Hwf).
  rewrite (proj2 (Z.eqb_neq _ 0)) by lia.
  destruct (get_spec (pool_queue m) Hwf) as (q & v & L & -> & Hwf' & Hc & Hc' & _ & _ & Ht' & _); [lia|]. cbn [rbind popped].
  assert (places m ≡ₚ v :: places (with_queue q m)) as Hperm by (norm_places; rewrite Hc, Hc'; pull).
  assert (0 < v) as Hv by (apply Hnext, Hpools; rewrite Hperm; left). rewrite (proj2 (Z.eqb_neq v 0)) by lia.
  destruct (inv_destroy m (with_queue q m) v Hi Hperm Hwf') as (m' & -> & _ & Eq & Eo & Ep & Ew & Hinv); [cbn; congruence|done|done|done|]. cbn [rbind].
  exists v, L. eexists. split; [done|]. split; [done|]. split; [cbn; by rewrite Eq|]. split; [by split_and!|].
  apply Hinv. cbn. rewrite Hc'. rewrite Hc in Hth. cbn in Hth. destruct x as [|[|x]]; [done|done|lia].
Qed.

Lemma step_inv m a : inv m -> exists m', step m a = Ok m' /\ inv m'.
Proof.
  intros Hi. pose proof Hi as [[Hwf Htm] Hrun Hth Hone Hpools Hnext]. destruct a as [|p|p|p|]; cbn [step].
  - eexists. split; [done|]. unfold agc_memory_create_pool. destruct Hnext as [Hn0 Hn].
    assert (next_pool m ∉ places m) as Hnew by (intros Hin%Hpools%Hn; lia).
    split; cbn; [done|done|done| | |].
    + change (places _) with (next_pool m :: places m). by constructor.
    + intros p. change (places _) with (next_pool m :: places m). rewrite elem_of_union, elem_of_singleton, elem_of_cons, Hpools. done.
    + split; [lia|]. intros p [->%elem_of_singleton|Hp%Hn]%elem_of_union; lia.
  - unfold destroy_begin. destruct (bool_decide_reflect (p ∈ owned m)) as [Hp|]; [|by eauto].
    cbn [pool_thread_running with_owned]. rewrite Hrun. cbn [Z.eqb Pos.eqb negb]. eexists. split; [done|].
    apply (inv_move m); [done..|]. norm_places. unfold places in Hone. apply NoDup_app in Hone as (Hd & _ & _).
    pose proof (without_perm p (owned m) Hd Hp) as Hperm. revert Hperm. generalize (without p (owned m)). intros L Hperm. rewrite Hperm. pull.
  - unfold destroy_push. destruct (bool_decide_reflect (p ∈ pushing m)) as [Hp|]; [|by eauto].
    assert (pushing m ≡ₚ p :: without p (pushing m)) as Hperm0.
    { apply without_perm; [|done]. unfold places in Hone. apply NoDup_app in Hone as (_ & _ & Hone). by apply NoDup_app in Hone as (? & _). }
    revert Hperm0. generalize (without p (pushing m)). intros L0 Hperm.
    unfold apr_queue_push. rewrite Htm. unfold apr_queue_full. destruct (Z.eqb_spec (nelts (pool_queue m)) (bounds (pool_queue m))) as [Hfull|Hfull]; cbn [rbind pushed].
    + eexists. split; [done|]. apply (inv_move m); [done|by destruct Hwf|done|done|done|done|done|]. norm_places. rewrite Hperm. change (contents (with_full_waiters _ _)) with (contents (pool_queue m)). pull.
    + destruct (put_spec (pool_queue m) p Hwf) as (q & -> & Hwf' & Hc & _ & _ & Ht' & _); [pose proof (wf_nelts _ Hwf); lia|]. cbn [rbind pushed].
      eexists. split; [done|]. apply (inv_move m); [done|done|cbn; congruence|done| |done|done|].
      * cbn. destruct (thread m); [done| |done..]. rewrite Hc, length_app. lia.
      * norm_places. rewrite Hperm, Hc. pull.
  - unfold destroy_wake. destruct (bool_decide_reflect (p ∈ waiting m)) as [Hp|]; [|by eauto].
    assert (waiting m ≡ₚ p :: without p (waiting m)) as Hperm0.
    { apply without_perm; [|done]. unfold places in Hone. apply NoDup_app in Hone as (_ & _ & Hone).
      apply NoDup_app in Hone as (_ & _ & Hone). by apply NoDup_app in Hone as (? & _). }
    revert Hperm0. generalize (without p (waiting m)). intros L0 Hperm.
    unfold apr_queue_push_wake. set (q0 := with_full_waiters _ _).
    assert (wf q0) as Hwf0 by by destruct Hwf. assert (contents q0 = contents (pool_queue m)) as Hc0 by done.
    unfold apr_queue_full. destruct (Z.eqb_spec (nelts q0) (bounds q0)) as [Hfull|Hfull]; cbn [rbind].
    + change (terminated q0) with (terminated (pool_queue m)). rewrite Htm. cbn [pushed]. eexists. split; [done|].
      apply (inv_move m); [done..|]. norm_places. rewrite Hperm. change (contents q0) with (contents (pool_queue m)). pull.
    + destruct (put_spec q0 p Hwf0) as (q & -> & Hwf' & Hc & _ & _ & Ht' & _); [pose proof (wf_nelts _ Hwf0); lia|]. cbn [rbind pushed].
      eexists. split; [done|]. apply (inv_move m); [done|done|cbn; by rewrite Ht'|done| |done|done|].
      * cbn. rewrite Hc, Hc0, length_app. destruct (thread m); [done| |done..]. lia.
      * norm_places. rewrite Hperm, Hc, Hc0. pull.
  - unfold pool_thread_step. destruct (thread m) as [|x|x| |] eqn:Et; try done.
    + rewrite Hrun. cbn [Z.eqb Pos.eqb]. eexists. split; [done|]. unfold apr_queue_size. pose proof (full_length _ Hwf).
      destruct (Z.eqb_spec (nelts (pool_queue m)) 0); [done|]. pose proof (wf_nelts _ Hwf). apply (inv_move m); [done|done|done|done|cbn; lia|done|done|done].
    + destruct (thread_pop m x Hi Et) as (v & L & m' & Hs & _ & _ & _ & Hm'). unfold pool_thread_step in Hs. rewrite Et in Hs. by eauto.
Qed.

Lemma mem_run_app m a b : run m (a ++ b) = let! m := run m a in run m b.
Proof. revert m. induction a as [|x a IH]; intros m; cbn [run app]; [done|]. destruct (step m x); cbn [rbind]; [apply IH|done..]. Qed.

Lemma run_inv m acts : inv m -> exists m', run m acts = Ok m' /\ inv m'.
Proof.
  revert m. induction acts as [|a acts IH]; intros m Hm; cbn [run]; [by eauto|].
  destruct (step_inv m a Hm) as (m1 & -> & Hm1). cbn [rbind]. by apply IH.
Qed.

Lemma init_inv : inv agc_core_memory_init.
Proof.
  destruct (wf_create 50000) as [Hwf Hc]; [lia|]. split; [by split|done|done| | |].
  - unfold places, agc_core_memory_init. cbn [owned pushing waiting pool_queue]. rewrite Hc. constructor.
  - intros p. unfold places, agc_core_memory_init. cbn [owned pushing waiting pool_queue pools]. rewrite Hc. set_solver.
  - split; [done|]. set_solver.
Qed.

(** The places of the pools that the thread does not take. *)
Definition held (m : manager) : list Z := owned m ++ pushing m ++ waiting m.

(** The thread takes what it has counted. *)
Lemma pop_all x m : inv m -> thread m = Popping x ->
  exists m', run m (replicate x Thread) = Ok m' /\ inv m' /\ thread m' = Top /\ held m' = held m /\
    contents (pool_queue m') = drop x (contents (pool_queue m)).
Proof.
  revert m. induction x as [|x IH]; intros m Hm Ht.
  - pose proof (in_thread m Hm) as Hth. rewrite Ht in Hth. lia.
  - destruct (thread_pop m (S x) Hm Ht) as (v & L & m1 & Hs & Hc & Hc1 & (Ht1 & Eo & Ep & Ew) & Hm1). cbn [replicate run step]. rewrite Hs. cbn [rbind].
    assert (held m1 = held m) as Hh by (unfold held; congruence). rewrite Hc. cbn [drop].
    destruct x as [|x].
    + exists m1. rewrite drop_0. by split_and!.
    + destruct (IH m1 Hm1 Ht1) as (m2 & -> & Hm2 & Ht2 & Hh2 & Hc2). exists m2. rewrite Hc1 in Hc2. split_and!; [done..|congruence|done].
Qed.

(** The thread by itself empties the queue. *)
Lemma thread_empties m : inv m -> exists n m', run m (replicate n Thread) = Ok m' /\ inv m' /\ contents (pool_queue m') = [] /\ held m' = held m.
Proof.
  intros Hm.
  assert (exists n m', run m (replicate n Thread) = Ok m' /\ inv m' /\ thread m' = Top /\ held m' = held m) as (n & m1 & Hr & Hm1 & Ht1 & Hh1).
  { pose proof (in_thread m Hm) as Hth. destruct (thread m) as [|x|x| |] eqn:Et; try done; [by exists 0%nat, m|].
    destruct (pop_all x m Hm Et) as (m' & ? & ? & ? & ? & _). by exists x, m'. }
  pose proof (in_queue m1 Hm1) as [Hwf _]. pose proof (full_length _ Hwf) as Hl.
  destruct (Z.eqb_spec (nelts (pool_queue m1)) 0) as [H0|H0].
  { exists n, m1. split_and!; [done|done| |done]. destruct (contents (pool_queue m1)); [done|cbn in Hl; lia]. }
  set (x := Z.to_nat (nelts (pool_queue m1))).
  assert (step m1 Thread = Ok (with_thread (Popping x) m1)) as Hs.
  { cbn [step]. unfold pool_thread_step, apr_queue_size. rewrite Ht1, (in_running m1 Hm1). cbn [Z.eqb Pos.eqb]. by rewrite (proj2 (Z.eqb_neq _ 0)). }
  destruct (step_inv m1 Thread Hm1) as (m2 & Hs2 & Hm2). rewrite Hs in Hs2. injection Hs2 as <-.
  destruct (pop_all x _ Hm2 eq_refl) as (m3 & Hr3 & Hm3 & _ & Hh3 & Hc3).
  exists (n + S x)%nat, m3. rewrite replicate_add, mem_run_app, Hr. cbn [rbind replicate run]. rewrite Hs. cbn [rbind].
  split_and!; [done|done| |by rewrite Hh3]. rewrite Hc3. cbn. apply drop_ge. lia.
Qed.

End Memory.
Import Memory.

(** C8: Under every interleaving of threads that create pools and
    give them up with the thread that destroys them, no pool is destroyed
    twice, none that a client still holds is destroyed, and the thread does
    not end.  Once it gets to run by itself, it destroys every pool that was
    handed over: the pools that are left are those still held by clients. *)
Theorem memory_pools_destroyed_once acts :
  exists m, run agc_core_memory_init acts = Ok m /\ NoDup (places m) /\ (forall p, p ∈ pools m <-> p ∈ places m) /\
    exists n m', run m (replicate n Thread) = Ok m' /\ NoDup (held m) /\ (forall p, p ∈ pools m' <-> p ∈ held m).
Proof.
  destruct (run_inv _ acts init_inv) as (m & Hr & Hm). exists m. pose proof (in_once m Hm) as Hone.
  split_and!; [done|done|apply (in_pools m Hm)|]. destruct (thread_empties m Hm) as (n & m' & Hr' & Hm' & Hc & Hh).
  exists n, m'. split_and!; [done| |].
  - unfold held, places in *. rewrite !app_assoc in *. by apply NoDup_app in Hone as (? & _).
  - intros p. rewrite (in_pools m' Hm'), <- Hh. unfold places, held. by rewrite Hc, app_nil_r.
Qed.
