(* ===== verification/Runtime.v ===== *)
(** * The wrappers of the runtime library

    The functions of [src/src/agc_apr.c] that have logic of their own: hashing
    without case, the check of a time format, bounded copying (with
    [apr_cpystrn], which it calls), walking a directory, sending on a socket,
    waiting for a lock, and the text of a digest.  What the runtime library does
    with sockets and directories is a parameter. *)

From stdpp Require Import base list strings.
From Stdlib Require Import ZArith Lia.
From S2P Require Import Prelude CString.

Module Runtime.

(** The numbers of [agc_status_t] that matter here. *)
Definition STATUS_SUCCESS : Z := 0.
Definition STATUS_FALSE : Z := 1.
Definition STATUS_BREAK : Z := 11.
Definition STATUS_XBREAK : Z := 35.
Definition STATUS_WINBREAK : Z := 730035.

(** [agc_ci_hashfunc_default] on the bytes of a key. *)
Fixpoint ci_hash (hash : Z) (key : list Z) : Z :=
  match key with
  | [] => hash
  | c :: key' => ci_hash (wrap 32 (hash * 33 + tolower c)) key'
  end.
(** A key is a string when its length is not given. *)
Definition agc_ci_hashfunc_default (key : list Z) (klen : option nat) : result (Z * nat) :=
  match klen with
  | None => Ok (ci_hash 0 (cstring key), length (cstring key))
  | Some n => if (length key <? n)%nat then Fault OutOfBounds else Ok (ci_hash 0 (take n key), n)
  end.

(** The check of [agc_strftime]: the characters allowed behind a percent sign. *)
Definition time_letters : cstr := bytes_of "CDrRTeaAbBcdHIjmMpSUwWxXyYzZ%".
Fixpoint time_format_ok (p : cstr) : bool :=
  match p with
  | [] => true
  | c :: p' =>
      if c =? 37 then
        match p' with
        | d :: p'' => if bool_decide (d ∈ time_letters) then time_format_ok p'' else false
        | [] => false
        end
      else time_format_ok p'
  end.
Definition agc_strftime (apr_strftime : cstr -> Z) (format : option cstr) : Z :=
  match format with
  | None => STATUS_FALSE
  | Some p => if time_format_ok p then apr_strftime p else STATUS_FALSE
  end.

(** [apr_cpystrn] from the string [src] into the bytes [dst], [n] of which may be
    written; the result is the new content. *)
Fixpoint cpystrn_loop (dst : list Z) (src : cstr) (room : nat) : result (list Z) :=
  match dst with
  | [] => Fault OutOfBounds
  | d :: dst' =>
      match room, src with
      | O, _ | _, [] => Ok (0 :: dst')
      | S room', c :: src' => let! r := cpystrn_loop dst' src' room' in Ok (c :: r)
      end
  end.
Definition agc_copy_string (dst : list Z) (src : option cstr) (dst_size : nat) : result (list Z) :=
  match src with
  | None => blit dst 0 [0]
  | Some s => if (dst_size =? 0)%nat then Ok dst else cpystrn_loop dst s (dst_size - 1)
  end.

(** [agc_thread_rwlock_trywrlock_timeout]: what the lock answers at each attempt. *)
Fixpoint trywrlock_loop (fuel : nat) (sanity : Z) (locks : nat -> bool) (i : nat) : result (Z * nat) :=
  match fuel with
  | O => OutOfFuel
  | S fuel' =>
      if sanity =? 0 then Ok (STATUS_FALSE, i)
      else if locks i then Ok (STATUS_SUCCESS, S i)
      else trywrlock_loop fuel' (sext 32 (sanity - 1)) locks (S i)
  end.
Definition agc_thread_rwlock_trywrlock_timeout (fuel : nat) (timeout : Z) (locks : nat -> bool) : result (Z * nat) :=
  trywrlock_loop fuel (sext 32 (timeout * 2)) locks 0.

(** [agc_interval_time_from_timeval] *)
Definition agc_interval_time_from_timeval (tv_sec tv_usec : Z) : Z := tv_sec * 1000000 + Z.quot tv_usec 1000.

(** ** Directories *)

(** An entry as [apr_dir_read] gives it: whether it is a file or a link, and the
    two names it may have. *)
Record entry := Entry { is_file : bool; fname : option cstr; name : option cstr }.

Definition entry_name (e : entry) : option cstr :=
  if is_file e then match fname e with Some n => Some n | None => name e end else None.

Fixpoint count_loop (es : list entry) (count : Z) : Z :=
  match es with
  | [] => count
  | e :: es' => count_loop es' (match entry_name e with Some _ => wrap 32 (count + 1) | None => count end)
  end.
(** [agc_dir_count]: the whole directory is read; it is rewound before and after. *)
Definition agc_dir_count (all : list entry) : Z := count_loop all 0.

(** [agc_dir_next_file]: the entries that are left, and the name in [buf]. *)
Fixpoint agc_dir_next_file (es : list entry) (buf : list Z) (len : nat) : result (list entry * option (list Z)) :=
  match es with
  | [] => Ok ([], None)
  | e :: es' =>
      match entry_name e with
      | Some n => let! buf := agc_copy_string buf (Some n) len in Ok (es', Some buf)
      | None => agc_dir_next_file es' buf len
      end
  end.

(** ** Sockets *)

(** [apr_socket_send]: the socket, the status, and how many bytes were taken. *)
Class Socket := {
  sock : Type;
  apr_socket_send : sock -> list Z -> sock * Z * nat }.

Section send.
Context `{Socket}.

Definition again (status : Z) : bool := (status =? STATUS_BREAK) || (status =? STATUS_WINBREAK) || (status =? STATUS_XBREAK).

(** The loop of [agc_socket_send]. *)
Fixpoint send_loop (fuel : nat) (s : sock) (buf : list Z) (wrote need : nat) (status to_count : Z) : result (sock * Z * nat) :=
  match fuel with
  | O => OutOfFuel
  | S fuel' =>
      let req := length buf in
      if ((wrote <? req)%nat && (status =? STATUS_SUCCESS)) || ((need =? 0)%nat && (status =? STATUS_BREAK))
         || (status =? STATUS_WINBREAK) || (status =? STATUS_XBREAK) then
        let '(s, status, need) := apr_socket_send s (drop wrote buf) in
        if again status then
          let to_count := to_count + 1 in
          if 60000 <? to_count then Ok (s, STATUS_FALSE, wrote)
          else send_loop fuel' s buf (wrote + need) need status to_count
        else send_loop fuel' s buf (wrote + need) need status 0
      else Ok (s, status, wrote)
  end.

(** [agc_socket_send]: the status, and the number of bytes left in [*len]. *)
Definition agc_socket_send (fuel : nat) (s : sock) (buf : list Z) : result (sock * Z * nat) :=
  send_loop fuel s buf 0 (length buf) STATUS_SUCCESS 0.
End send.

(** [agc_socket_recv]: the statuses that mean try again are one. *)
Definition agc_socket_recv (r : Z) : Z := if (r =? 35) || (r =? 730035) then STATUS_BREAK else r.

(** ** Digests *)

Definition hex_digit (n : Z) : Z := if n <? 10 then 48 + n else 87 + n.
(** [%02x] of a byte. *)
Definition hex_byte (b : Z) : cstr := [hex_digit (b / 16); hex_digit (b mod 16)].

(** [agc_md5_string]: sixteen writes of three bytes, each ending in a zero. *)
Fixpoint md5_loop (digest_str : list Z) (x : nat) (digest : list Z) : result (list Z) :=
  match digest with
  | [] => Ok digest_str
  | b :: digest' => let! d := blit digest_str (x * 2) (hex_byte b ++ [0]) in md5_loop d (S x) digest'
  end.
Definition agc_md5_string (digest_str digest : list Z) : result (list Z) :=
  let! d := blit digest_str 32 [0] in md5_loop d 0 digest.

(** ** Properties *)

Lemma ci_hash_nocase h a b : tolower <$> a = tolower <$> b -> ci_hash h a = ci_hash h b.
Proof.
  revert h b. induction a as [|c a IH]; intros h [|d b] E; try discriminate; [done|].
  rewrite !fmap_cons in E. injection E as Ec Ea. cbn [ci_hash]. rewrite Ec. by apply IH.
Qed.

Section sending.
Context `{Socket}.

(** What is asked of the socket: it takes no more than it was given, nothing
    when it reports an error, and something when it reports success. *)
Class SocketLaws := {
  delivered : sock -> list Z;
  send_law : forall s b s' r n, b <> [] -> apr_socket_send s b = (s', r, n) ->
    (n <= length b)%nat /\ delivered s' = delivered s ++ take n b /\ (r <> STATUS_SUCCESS -> n = 0%nat) /\ (r = STATUS_SUCCESS -> (0 < n)%nat) }.

Context `{!SocketLaws}.

Lemma send_loop_ok (left : nat) : forall tries s buf wrote need status to_count,
  left = (length buf - wrote)%nat -> (wrote <= length buf)%nat -> 0 <= to_count -> Z.of_nat tries = 60001 - to_count ->
  (status = STATUS_SUCCESS \/ again status = true /\ need = 0%nat /\ (wrote < length buf)%nat) ->
  exists n, forall fuel, (n <= fuel)%nat -> exists s' r w, send_loop fuel s buf wrote need status to_count = Ok (s', r, w) /\
    (wrote <= w <= length buf)%nat /\ delivered s' = delivered s ++ take (w - wrote) (drop wrote buf) /\ (r = STATUS_SUCCESS -> w = length buf).
Proof.
  induction left as [left IHleft] using lt_wf_ind.
  induction tries as [tries IHtries] using lt_wf_ind. intros s buf wrote need status to_count Hl Hw Hc Ht Hst.
  assert (Hcond : ((wrote <? length buf)%nat && (status =? STATUS_SUCCESS)) || ((need =? 0)%nat && (status =? STATUS_BREAK))
         || (status =? STATUS_WINBREAK) || (status =? STATUS_XBREAK) = (wrote <? length buf)%nat).
  { destruct Hst as [->|(Ha & -> & Hlt)].
    - cbn. rewrite !orb_false_r, andb_true_r. rewrite andb_false_r. by rewrite orb_false_r.
    - rewrite (proj2 (Nat.ltb_lt _ _) Hlt). cbn [andb Nat.eqb]. unfold again in Ha. rewrite <- orb_assoc, <- (orb_assoc _ (status =? STATUS_BREAK)), orb_assoc in *.
      destruct (status =? STATUS_BREAK), (status =? STATUS_WINBREAK), (status =? STATUS_XBREAK), (status =? STATUS_SUCCESS); done. }
  destruct (Nat.lt_ge_cases wrote (length buf)) as [Hlt|Hge].
  2:{ pose proof (proj2 (Nat.ltb_ge _ _) Hge) as Hcmp; rewrite Hcmp in Hcond at 2. assert (wrote = length buf) as -> by lia. exists 1%nat. intros [|fuel] Hf; [lia|]. cbn [send_loop]. rewrite Hcond.
      do 3 eexists. split; [done|]. split; [lia|]. rewrite Nat.sub_diag, take_0, app_nil_r. done. }
  pose proof (proj2 (Nat.ltb_lt _ _) Hlt) as Hcmp; rewrite Hcmp in Hcond at 2.
  destruct (apr_socket_send s (drop wrote buf)) as [[s1 r1] n1] eqn:Es.
  destruct (send_law s (drop wrote buf) s1 r1 n1) as (Hn & Hd & He & Hok); [|done|].
  { intros E. apply (f_equal length) in E. rewrite length_drop in E. cbn in E. lia. }
  rewrite length_drop in Hn.
  assert (Hjoin : forall w, (wrote + n1 <= w)%nat -> take n1 (drop wrote buf) ++ take (w - (wrote + n1)) (drop (wrote + n1) buf) = take (w - wrote) (drop wrote buf)).
  { intros w Hw'. rewrite <- drop_drop. replace (w - wrote)%nat with (n1 + (w - (wrote + n1)))%nat by lia. by rewrite take_take_drop. }
  destruct (again r1) eqn:Ea.
  - assert (r1 <> STATUS_SUCCESS) as Hr by (intros ->; done). specialize (He Hr). subst n1. rewrite Nat.add_0_r in *.
    destruct (Z.ltb_spec 60000 (to_count + 1)) as [Hlast|Hmore].
    + exists 1%nat. intros [|fuel] Hf; [lia|]. cbn [send_loop]. rewrite Hcond, Es, Ea. cbv zeta. rewrite (proj2 (Z.ltb_lt _ _)) by lia.
      do 3 eexists. split; [done|]. split; [lia|]. rewrite Nat.sub_diag, take_0. rewrite take_0 in Hd. split; [done|]. done.
    + destruct (IHtries (tries - 1)%nat ltac:(lia) s1 buf wrote 0%nat r1 (to_count + 1)) as (n & IH); [done|lia|lia|lia|by right|].
      exists (S n). intros [|fuel] Hf; [lia|]. cbn [send_loop]. rewrite Hcond, Es, Ea. cbv zeta. rewrite (proj2 (Z.ltb_ge _ _)) by lia.
      rewrite Nat.add_0_r. destruct (IH fuel ltac:(lia)) as (s' & r & w & -> & Hb & Hdel & Hfull). do 3 eexists. split; [done|]. split; [done|].
      rewrite Hdel, Hd, take_0, app_nil_r. done.
  - destruct (Z.eqb_spec r1 STATUS_SUCCESS) as [->|Hr].
    + specialize (Hok eq_refl).
      destruct (IHleft (length buf - (wrote + n1))%nat ltac:(lia) (Z.to_nat 60001) s1 buf (wrote + n1)%nat n1 STATUS_SUCCESS 0) as (n & IH); [done|lia|lia|lia|by left|].
      exists (S n). intros [|fuel] Hf; [lia|]. cbn [send_loop]. rewrite Hcond, Es, Ea.
      destruct (IH fuel ltac:(lia)) as (s' & r & w & -> & Hb & Hdel & Hfull). do 3 eexists. split; [done|]. split; [lia|].
      rewrite Hdel, Hd, <- app_assoc, Hjoin by lia. done.
    + specialize (He Hr). subst n1. exists 2%nat. intros [|[|fuel]] Hf; [lia..|]. cbn [send_loop]. rewrite Hcond, Es, Ea.
      rewrite Nat.add_0_r. unfold again in Ea. apply orb_false_iff in Ea as [Ea E3]. apply orb_false_iff in Ea as [E1 E2].
      rewrite E1, E2, E3, (proj2 (Z.eqb_neq r1 STATUS_SUCCESS)), andb_false_r, andb_false_r by done. cbn [orb].
      do 3 eexists. split; [done|]. split; [lia|]. rewrite Nat.sub_diag, take_0. rewrite take_0 in Hd. split; [done|]. done.
Qed.
End sending.
End Runtime.
Import Runtime.

(** C30: Sending on a socket ends, whatever the socket takes at a time
    and however often it asks to try again; the bytes it was given are the
    first of the buffer, each once and in order, the number reported is the
    number taken, and success means that it is all of them. *)
Theorem agc_socket_send_correct `{SocketLaws} s buf :
  exists n, forall fuel, (n <= fuel)%nat -> exists s' r w, agc_socket_send fuel s buf = Ok (s', r, w) /\
    (w <= length buf)%nat /\ delivered s' = delivered s ++ take w buf /\ (r = STATUS_SUCCESS -> w = length buf).
Proof.
  destruct (send_loop_ok (length buf) (Z.to_nat 60001) s buf 0 (length buf) STATUS_SUCCESS 0) as (n & Hn); [lia|lia|lia|lia|by left|].
  exists n. intros fuel Hf. unfold agc_socket_send. destruct (Hn fuel Hf) as (s' & r & w & -> & Hb & Hd & Hr). rewrite drop_0, Nat.sub_0_r in Hd.
  do 3 eexists. split; [done|]. split; [lia|]. done.
Qed.

(** A socket that takes two bytes at a time, and asks to try again in between. *)
Module SlowSocket.
#[local] Instance slow : Socket := {| sock := list Z * bool;
  apr_socket_send s b := if snd s then ((fst s, false), STATUS_BREAK, 0%nat) else ((fst s ++ take 2 b, true), STATUS_SUCCESS, length (take 2 b)) |}.
#[local] Instance slow_laws : @SocketLaws slow.
Proof.
  refine {| delivered (s : @sock slow) := fst s |}. intros [d t] b s' r n Hb. cbn. destruct t; intros E; injection E as <- <- <-; cbn.
  - split_and!; [lia|by rewrite take_0, app_nil_r|done|done].
  - rewrite length_take. split_and!; [lia| |done|]; [|intros _; destruct b; [done|cbn; lia]].
    f_equal. destruct b as [|x [|y b]]; cbn; by rewrite ?take_0.
Defined.
End SlowSocket.

Lemma agc_socket_send_correct_witness :
  (exists n, forall fuel, (n <= fuel)%nat -> exists s' r w, @agc_socket_send SlowSocket.slow fuel ([], true) [1; 2; 3; 4; 5] = Ok (s', r, w) /\
    (w <= 5)%nat /\ fst s' = take w [1; 2; 3; 4; 5] /\ (r = STATUS_SUCCESS -> w = 5%nat)) /\
  @agc_socket_send SlowSocket.slow 10 ([], true) [1; 2; 3; 4; 5] = Ok (([1; 2; 3; 4; 5], true), STATUS_SUCCESS, 5%nat).
Proof.
  split; [|vm_compute; reflexivity].
  exact (@agc_socket_send_correct SlowSocket.slow SlowSocket.slow_laws ([], true) [1; 2; 3; 4; 5]).
Defined.

(** Keys that differ in case only have the same hash, so the tables that use
    this function find them in the same slot. *)
Theorem agc_ci_hashfunc_nocase a b : same_nocase (cstring a) (cstring b) = true ->
  agc_ci_hashfunc_default a None = agc_ci_hashfunc_default b None.
Proof.
  intros E%bool_decide_eq_true. unfold agc_ci_hashfunc_default. rewrite (ci_hash_nocase 0 _ _ E).
  apply (f_equal length) in E. rewrite !length_fmap in E. by rewrite E.
Qed.

Lemma agc_ci_hashfunc_nocase_witness : agc_ci_hashfunc_default (bytes_of "Content-Type") None = agc_ci_hashfunc_default (bytes_of "content-type") None.
Proof. apply agc_ci_hashfunc_nocase. vm_compute. reflexivity. Defined.

(** ** Copying *)

Lemma cpystrn_text dst src room : (room < length dst)%nat ->
  cpystrn_loop dst src room = Ok (take room src ++ 0 :: drop (S (length (take room src))) dst).
Proof.
  revert dst src. induction room as [|room IH]; intros [|d dst] src Hl; cbn in Hl; try lia; cbn [cpystrn_loop].
  - rewrite take_0. cbn. by rewrite drop_0.
  - destruct src as [|c src]; [cbn; by rewrite drop_0|]. rewrite IH by lia. done.
Qed.

(** A copied string is ended, cut to the size that was given, and nothing
    behind it is touched. *)
Theorem agc_copy_string_correct dst src n : (0 < n <= length dst)%nat -> Forall (fun c => c <> 0) src ->
  exists b, agc_copy_string dst (Some src) n = Ok b /\ length b = length dst /\ cstring b = take (n - 1) src /\ drop n b = drop n dst.
Proof.
  intros Hn Hs. unfold agc_copy_string. rewrite (proj2 (Nat.eqb_neq n 0)) by lia. rewrite cpystrn_text by lia.
  set (t := take (n - 1) src). assert (length t < n)%nat as Ht by (unfold t; rewrite length_take; lia).
  eexists. split; [done|]. split_and!.
  - rewrite length_app. cbn [length]. rewrite length_drop. lia.
  - apply cstring_text. unfold t. by apply Forall_take.
  - rewrite drop_app_ge by lia. replace (n - length t)%nat with (S (n - S (length t))) by lia. cbn [drop]. rewrite drop_drop. f_equal. lia.
Qed.

Lemma agc_copy_string_correct_witness :
  exists b, agc_copy_string [9; 9; 9; 9; 9; 9] (Some (bytes_of "hello")) 4 = Ok b /\ length b = 6%nat /\ cstring b = bytes_of "hel" /\ drop 4 b = [9; 9].
Proof. apply (agc_copy_string_correct [9; 9; 9; 9; 9; 9] (bytes_of "hello") 4); [cbn; lia|repeat constructor; vm_compute; discriminate]. Defined.

(** ** Directories *)

(** All files, one call after the other. *)
Fixpoint walk (fuel : nat) (es : list entry) (buf : list Z) (len : nat) : result (list cstr) :=
  match fuel with
  | O => OutOfFuel
  | S fuel' =>
      let! (es, r) := agc_dir_next_file es buf len in
      match r with
      | None => Ok []
      | Some buf => let! l := walk fuel' es buf len in Ok (cstring buf :: l)
      end
  end.

Lemma next_file_spec es buf len : (0 < len <= length buf)%nat -> Forall (fun e => Forall (fun c => c <> 0) (default [] (entry_name e))) es ->
  match omap entry_name es with
  | [] => agc_dir_next_file es buf len = Ok ([], None)
  | n :: ns => exists es' buf', agc_dir_next_file es buf len = Ok (es', Some buf') /\ length buf' = length buf /\ cstring buf' = take (len - 1) n /\
      omap entry_name es' = ns /\ (length es' < length es)%nat /\ Forall (fun e => Forall (fun c => c <> 0) (default [] (entry_name e))) es'
  end.
Proof.
  intros Hl. induction es as [|e es IH]; intros Hes; [done|]. inversion_clear Hes as [|? ? He Hes'].
  cbn [omap list_omap agc_dir_next_file]. destruct (entry_name e) as [n|] eqn:En; cbn [default from_option id length] in *.
  - destruct (agc_copy_string_correct buf n len Hl He) as (b & -> & Hb & Hc & _). cbn [rbind]. exists es, b. split_and!; [done|done|done|done|lia|done].
  - specialize (IH Hes'). destruct (omap entry_name es); [done|]. destruct IH as (es' & b & ? & ? & ? & ? & ? & ?). exists es', b. split_and!; [done..|lia|done].
Qed.

Lemma count_loop_spec es c : 0 <= c -> c + Z.of_nat (length es) < 2 ^ 32 -> count_loop es c = c + Z.of_nat (length (omap entry_name es)).
Proof.
  revert c. induction es as [|e es IH]; intros c Hc Hl; cbn in *; [lia|]. destruct (entry_name e); cbn.
  - rewrite wrap_small by lia. rewrite IH by lia. lia.
  - rewrite IH by lia. lia.
Qed.

(** Asking for the next file until there is none gives every file of the
    directory once and in order, and the number of them is the count. *)
Theorem agc_dir_walk_correct es buf len : (0 < len <= length buf)%nat ->
  Forall (fun e => Forall (fun c => c <> 0) (default [] (entry_name e))) es -> Z.of_nat (length es) < 2 ^ 32 ->
  exists l, walk (S (length es)) es buf len = Ok l /\ l = take (len - 1) <$> omap entry_name es /\ agc_dir_count es = Z.of_nat (length l).
Proof.
  intros Hl Hes Hn. exists (take (len - 1) <$> omap entry_name es). split_and!; [|done|].
  2:{ unfold agc_dir_count. rewrite count_loop_spec by lia. by rewrite length_fmap. }
  assert (forall fuel es buf, (0 < len <= length buf)%nat -> Forall (fun e => Forall (fun c => c <> 0) (default [] (entry_name e))) es -> (length es < fuel)%nat ->
    walk fuel es buf len = Ok (take (len - 1) <$> omap entry_name es)) as Hwalk; [|by apply Hwalk; [..|lia]].
  clear. induction fuel as [|fuel IH]; intros es buf Hl Hes Hf; [lia|]. cbn [walk]. pose proof (next_file_spec es buf len Hl Hes) as Hs.
  destruct (omap entry_name es) as [|n ns] eqn:En; [by rewrite Hs|]. destruct Hs as (es' & b & -> & Hb & Hc & Hns & Hle & Hes'). cbn [rbind].
  rewrite (IH es' b) by (done || lia). cbn [rbind]. by rewrite Hns, Hc.
Qed.

Lemma agc_dir_walk_correct_witness :
  let es := [Entry false None (Some (bytes_of ".")); Entry true None (Some (bytes_of "a.yml")); Entry true (Some (bytes_of "b")) None] in
  exists l, walk 4 es (replicate 16 0) 16 = Ok l /\ l = [bytes_of "a.yml"; bytes_of "b"] /\ agc_dir_count es = Z.of_nat (length l).
Proof. intros es. apply (agc_dir_walk_correct es (replicate 16 0) 16); [cbn; lia|repeat constructor; vm_compute; discriminate|cbn; lia]. Defined.

(** ** Digests *)

Lemma md5_loop_text digest : forall done_ rest x, length done_ = (x * 2)%nat -> (length digest * 2 < length rest)%nat ->
  exists rest', md5_loop (done_ ++ rest) x digest = Ok (done_ ++ (digest ≫= hex_byte) ++ rest') /\
    (digest <> [] -> exists r, rest' = 0 :: r) /\ (digest = [] -> rest' = rest).
Proof.
  induction digest as [|b digest IH]; intros done_ rest x Hd Hr; cbn [md5_loop mbind list_bind app].
  - exists rest. by split_and!.
  - destruct rest as [|r0 [|r1 [|r2 rest]]]; cbn in Hr; try lia. rewrite <- Hd.
    rewrite (blit_tail done_ (r0 :: r1 :: r2 :: rest) (hex_byte b ++ [0])) by (cbn; lia). cbn [rbind].
    change (drop (length (hex_byte b ++ [0])) (r0 :: r1 :: r2 :: rest)) with rest.
    replace (done_ ++ (hex_byte b ++ [0]) ++ rest) with ((done_ ++ hex_byte b) ++ 0 :: rest) by (rewrite <- !app_assoc; done).
    destruct (IH (done_ ++ hex_byte b) (0 :: rest) (S x)) as (rest' & -> & Hne & Hnil); [rewrite length_app; cbn; lia|cbn; lia|].
    exists rest'. split; [by rewrite <- !app_assoc|]. split; [|done]. intros _. destruct digest; [rewrite Hnil by done; by eexists|by apply Hne].
Qed.

Lemma hex_byte_nonzero b : 0 <= b < 256 -> Forall (fun c => c <> 0) (hex_byte b).
Proof.
  intros Hb. assert (forall n, 0 <= n < 16 -> hex_digit n <> 0) as Hh by (intros n Hn; unfold hex_digit; destruct (n <? 10); lia).
  repeat constructor; apply Hh; [split; [apply Z.div_pos; lia|apply Z.div_lt_upper_bound; lia]|apply Z.mod_pos_bound; lia].
Qed.

(** The text of a digest is two hexadecimal digits for each of its bytes. *)
Theorem agc_md5_string_correct buf digest : length buf = 33%nat -> length digest = 16%nat -> Forall (fun b => 0 <= b < 256) digest ->
  exists s, agc_md5_string buf digest = Ok s /\ cstring s = digest ≫= hex_byte.
Proof.
  intros Hb Hd Hr. unfold agc_md5_string, blit. rewrite Hb. cbn [length Nat.add Nat.leb]. cbn [rbind].
  set (d := take 32 buf ++ _).
  destruct (md5_loop_text digest [] d 0) as (rest & E & Hne & _); [done|unfold d; rewrite length_app, length_take; cbn [length app]; lia|].
  cbn [app] in E. rewrite E. eexists. split; [done|]. destruct Hne as [r ->]; [by destruct digest|]. apply cstring_text.
  clear - Hr. induction Hr as [|b l Hb _ IH]; cbn [mbind list_bind]; [constructor|]. apply Forall_app. split; [by apply hex_byte_nonzero|done].
Qed.

Lemma agc_md5_string_correct_witness :
  exists s, agc_md5_string (replicate 33 7) (replicate 16 171) = Ok s /\ cstring s = bytes_of "abababababababababababababababab".
Proof. apply (agc_md5_string_correct (replicate 33 7) (replicate 16 171)); [done|done|]. by apply Forall_replicate. Defined.

(** A time of a second and a half is taken for one of a second and half a
    millisecond. *)
Theorem agc_interval_time_wrong : agc_interval_time_from_timeval 1 500000 = 1000500.
Proof. reflexivity. Qed.
