(* ===== verification/Core.v ===== *)
(** * Start-up

    [src/src/agc.c] and [src/src/agc_core.c]: the command line, the directories,
    the configuration file of the core, and the order in which the parts are
    started and stopped.  Whether a part starts is a parameter. *)

From stdpp Require Import base list strings.
From Stdlib Require Import ZArith Lia.
From S2P Require Import Prelude CString Event EslText Yaml.

Module Core.
Import Ev Yaml.

(** ** The command line *)

(** [agc_directories_t] *)
Record directories := Dirs {
  base_dir : option cstr;
  mod_dir : option cstr;
  conf_dir : option cstr;
  log_dir : option cstr;
  run_dir : option cstr;
  certs_dir : option cstr;
  db_dir : option cstr }.
Definition no_dirs : directories := Dirs None None None None None None None.

Definition with_base v d := Dirs v (mod_dir d) (conf_dir d) (log_dir d) (run_dir d) (certs_dir d) (db_dir d).
Definition with_log v d := Dirs (base_dir d) (mod_dir d) (conf_dir d) v (run_dir d) (certs_dir d) (db_dir d).
Definition with_run v d := Dirs (base_dir d) (mod_dir d) (conf_dir d) (log_dir d) v (certs_dir d) (db_dir d).

(** The program ends with a number, or goes on with its directories and
    whether it has no console. *)
Inductive arguments := Exit (code : Z) | Go (d : directories) (nc : bool).

Definition MAX_ARGS : nat := Z.to_nat 1024.

(** The loop over the arguments; [full] says that [local_argv] has no zero
    behind them. *)
Fixpoint read_args (full : bool) (args : list cstr) (d : directories) (nc : bool) : result arguments :=
  match args with
  | [] => Ok (Go d nc)
  | a :: rest =>
      if bool_decide (a = []) then read_args full rest d nc
      else if bool_decide (a = bytes_of "-base") then
        match rest with
        | [] => if full then Fault OutOfBounds else Ok (Exit 255)
        | v :: rest' => if bool_decide (v = []) then Ok (Exit 255) else read_args full rest' (with_base (Some v) d) nc
        end
      else if bool_decide (a = bytes_of "-log") then
        match rest with
        | [] => if full then Fault OutOfBounds else Ok (Exit 255)
        | v :: rest' => if bool_decide (v = []) then Ok (Exit 255) else read_args full rest' (with_log (Some v) d) nc
        end
      else if bool_decide (a = bytes_of "-run") then
        match rest with
        | [] => if full then Fault OutOfBounds else Ok (Exit 255)
        | v :: rest' => if bool_decide (v = []) then Ok (Exit 255) else read_args full rest' (with_run (Some v) d) nc
        end
      else if bool_decide (a = bytes_of "-nc") || bool_decide (a = bytes_of "-ncwait") then read_args full rest d true
      else if bool_decide (a = bytes_of "-c") then read_args full rest d false
      else read_args full rest d nc
  end.

(** [argv], the name of the program first. *)
Definition main_args (argv : list cstr) : result arguments :=
  if (MAX_ARGS <? length argv)%nat then Fault OutOfBounds
  else
    let full := (length argv =? MAX_ARGS)%nat in
    match argv with
    | [] => Ok (Go no_dirs false)
    | prog :: args =>
        read_args full args no_dirs (match EslText.strstr prog (bytes_of "agcd") with Some _ => true | None => false end)
    end.

(** ** Directories *)

Definition AGC_MAX_PATHLEN : nat := Z.to_nat 1024.

(** What the build defines: the prefix, and each directory if it has one of its
    own. *)
Record build := Build { prefix_dir : cstr; b_mod : option cstr; b_conf : option cstr; b_log : option cstr; b_run : option cstr; b_certs : option cstr; b_db : option cstr }.

Definition default_dir (b : build) (base own old : option cstr) (sub : cstr) : option cstr :=
  match old with
  | Some _ => old
  | None =>
      Some (take (AGC_MAX_PATHLEN - 1)
        (match base with
         | Some d => d ++ [47] ++ sub
         | None => match own with Some o => o | None => prefix_dir b ++ [47] ++ sub end
         end))
  end.

Definition agc_core_set_globals (b : build) (d : directories) : directories :=
  Dirs (base_dir d)
    (default_dir b (base_dir d) (b_mod b) (mod_dir d) (bytes_of "mod"))
    (default_dir b (base_dir d) (b_conf b) (conf_dir d) (bytes_of "conf"))
    (default_dir b (base_dir d) (b_log b) (log_dir d) (bytes_of "log"))
    (default_dir b (base_dir d) (b_run b) (run_dir d) (bytes_of "run"))
    (default_dir b (base_dir d) (b_certs b) (certs_dir d) (bytes_of "certs"))
    (default_dir b (base_dir d) (b_db b) (db_dir d) (bytes_of "db")).

(** ** The configuration of the core *)

(** [iskey], whether [datap] points to [runtime.odbc_dsn], and the setting. *)
Record config := Config { iskey : bool; datap : bool; odbc_dsn : option cstr }.

Definition config_step (c : config) (t : yaml_token) : result config :=
  match t with
  | YAML_KEY_TOKEN => Ok (Config true (datap c) (odbc_dsn c))
  | YAML_VALUE_TOKEN => Ok (Config false (datap c) (odbc_dsn c))
  | YAML_SCALAR_TOKEN v =>
      if iskey c then Ok (Config true (bool_decide (v = bytes_of "odbc_dsn")) (odbc_dsn c))
      else Ok (Config false (datap c) (if datap c then Some v else odbc_dsn c))
  | _ => Ok c
  end.

(** [agc_load_config] on the tokens of the file; a file that cannot be opened
    stops the process. *)
Definition agc_load_config (file : option (list yaml_token)) (dsn : option cstr) : result (option cstr) :=
  match file with
  | None => Fault Assertion
  | Some tokens => let! (c, _) := scan config_step (Config false false dsn) tokens in Ok (odbc_dsn c)
  end.

(** ** Starting and stopping *)

Inductive part := PApr | PMemory | PLog | PEvent | PTimer | PSql | PConn | PDriver | PApi | PCache.

#[global] Instance part_eq_dec : EqDecision part.
Proof. solve_decision. Defined.

(** The parts in the order of [agc_core_init], with the status of a failure. *)
Definition init_order : list (part * agc_status) :=
  [(PApr, AGC_STATUS_MEMERR); (PMemory, AGC_STATUS_MEMERR); (PLog, AGC_STATUS_GENERR); (PEvent, AGC_STATUS_GENERR); (PTimer, AGC_STATUS_GENERR);
   (PSql, AGC_STATUS_GENERR); (PConn, AGC_STATUS_GENERR); (PDriver, AGC_STATUS_GENERR); (PApi, AGC_STATUS_GENERR); (PCache, AGC_STATUS_GENERR)].

Fixpoint start_parts (starts : part -> bool) (ps : list (part * agc_status)) : list part * agc_status :=
  match ps with
  | [] => ([], AGC_STATUS_SUCCESS)
  | (p, st) :: ps' => if starts p then let (l, r) := start_parts starts ps' in (p :: l, r) else ([], st)
  end.

(** [agc_core_init]: the parts that were started; the configuration is read
    between the memory pools and the log. *)
Definition agc_core_init (starts : part -> bool) (file : option (list yaml_token)) : result (list part * agc_status * option cstr) :=
  let (early, st) := start_parts starts (take 2 init_order) in
  match st with
  | AGC_STATUS_SUCCESS =>
      let! dsn := agc_load_config file None in
      let (late, st) := start_parts starts (drop 2 init_order) in
      Ok (early ++ late, st, dsn)
  | _ => Ok (early, st, None)
  end.

(** [agc_core_destroy]: the parts in the order in which they are stopped. *)
Definition agc_core_destroy : list part := [PDriver; PConn; PSql; PTimer; PEvent; PLog; PApi; PCache; PMemory; PApr].

(** [agc_core_modload]: the run level, and whether the modules are loaded. *)
Definition agc_core_modload (runlevel : Z) (loads : bool) : Z * option agc_status :=
  if 1 <? runlevel then (runlevel, None) else (runlevel + 1, Some (if loads then AGC_STATUS_SUCCESS else AGC_STATUS_GENERR)).

(** [main]: what is started and stopped, and the number it returns. *)
Inductive event := Started (ps : list part) | Modules | Stopped (ps : list part).
Definition main (argv : list cstr) (starts : part -> bool) (file : option (list yaml_token)) (loads : bool) : result (list event * Z) :=
  let! a := main_args argv in
  match a with
  | Exit c => Ok ([], c)
  | Go _ _ =>
      let! (ps, st, _) := agc_core_init starts file in
      match st with
      | AGC_STATUS_SUCCESS =>
          let (_, m) := agc_core_modload 0 loads in
          match m with
          | Some AGC_STATUS_SUCCESS => Ok ([Started ps; Modules; Stopped agc_core_destroy], 0)
          | _ => Ok ([Started ps], 1)
          end
      | _ => Ok ([Started ps], 1)
      end
  end.

End Core.
Import Ev Yaml Core.

(** ** Directories *)

(** What the command line says of a directory: the last value given. *)
Fixpoint last_value (opt : cstr) (args : list cstr) (old : option cstr) : option cstr :=
  match args with
  | [] => old
  | a :: rest =>
      if negb (bool_decide (a = [])) && (bool_decide (a = bytes_of "-base") || bool_decide (a = bytes_of "-log") || bool_decide (a = bytes_of "-run"))
      then match rest with [] => old | v :: rest' => last_value opt rest' (if bool_decide (a = opt) then Some v else old) end
      else last_value opt rest old
  end.

Lemma read_args_dirs full args : forall d nc d' nc', read_args full args d nc = Ok (Go d' nc') ->
  d' = Dirs (last_value (bytes_of "-base") args (base_dir d)) (mod_dir d) (conf_dir d) (last_value (bytes_of "-log") args (log_dir d))
    (last_value (bytes_of "-run") args (run_dir d)) (certs_dir d) (db_dir d).
Proof.
  induction args as [args IH] using (induction_ltof1 _ length). unfold ltof in IH. intros d nc d' nc'.
  destruct args as [|a rest]; cbn [read_args last_value]; [by destruct d; intros [= <- _]|].
  assert (forall e nc, read_args full rest e nc = Ok (Go d' nc') ->
    d' = Dirs (last_value (bytes_of "-base") rest (base_dir e)) (mod_dir e) (conf_dir e) (last_value (bytes_of "-log") rest (log_dir e))
      (last_value (bytes_of "-run") rest (run_dir e)) (certs_dir e) (db_dir e)) as IH1 by (intros e n; apply IH; cbn; lia).
  destruct (bool_decide_reflect (a = [])) as [->|Ha]; cbn [negb andb]; [apply IH1|].
  destruct (bool_decide_reflect (a = bytes_of "-base")) as [->|Hb]; cbn [orb];
    [|destruct (bool_decide_reflect (a = bytes_of "-log")) as [->|Hl]; cbn [orb];
    [|destruct (bool_decide_reflect (a = bytes_of "-run")) as [->|Hr]; cbn [orb];
    [|destruct (bool_decide _ || bool_decide _); [apply IH1|]; destruct (bool_decide _); apply IH1]]];
    (destruct rest as [|v rest]; [by destruct full|]; destruct (bool_decide (v = [])); [discriminate|];
     intros E; apply IH in E; [by subst d'|cbn; lia]).
Qed.

(** The directories the program works in: the log and the run directory of the
    command line, or else those below the base directory it names, or else the
    ones of the build. *)
Theorem core_directories prog args b d nc : (length (prog :: args) < MAX_ARGS)%nat -> main_args (prog :: args) = Ok (Go d nc) ->
  let g := agc_core_set_globals b d in
  let base := last_value (bytes_of "-base") args None in
  base_dir g = base /\
  mod_dir g = default_dir b base (b_mod b) None (bytes_of "mod") /\ conf_dir g = default_dir b base (b_conf b) None (bytes_of "conf") /\
  log_dir g = default_dir b base (b_log b) (last_value (bytes_of "-log") args None) (bytes_of "log") /\
  run_dir g = default_dir b base (b_run b) (last_value (bytes_of "-run") args None) (bytes_of "run") /\
  certs_dir g = default_dir b base (b_certs b) None (bytes_of "certs") /\ db_dir g = default_dir b base (b_db b) None (bytes_of "db").
Proof.
  intros Hl. unfold main_args. rewrite (proj2 (Nat.ltb_ge _ _)) by lia. intros E%read_args_dirs. subst d. done.
Qed.

Lemma core_directories_witness :
  let args := [bytes_of "-nc"; bytes_of "-base"; bytes_of "/opt/agc"; bytes_of "-run"; bytes_of "/run/agc"] in
  let b := Build (bytes_of "/usr/local") None None None None None None in
  exists d nc, main_args (bytes_of "agc" :: args) = Ok (Go d nc) /\
    log_dir (agc_core_set_globals b d) = Some (bytes_of "/opt/agc/log") /\ run_dir (agc_core_set_globals b d) = Some (bytes_of "/run/agc").
Proof.
  intros args b. eexists _, _. split; [vm_compute; reflexivity|].
  pose proof (core_directories (bytes_of "agc") args b _ _ ltac:(vm_compute; lia) eq_refl) as (_ & _ & _ & Hl & Hr & _).
  split; [exact Hl|exact Hr].
Defined.

(** ** Configuration *)

(** The data source is the last one the file gives. *)
Definition last_dsn (es : list (cstr * cstr)) (old : option cstr) : option cstr :=
  foldl (fun o kv => if bool_decide (kv.1 = bytes_of "odbc_dsn") then Some kv.2 else o) old es.

Theorem core_config_roundtrip es :
  agc_load_config (Some ((es ≫= fun kv => entry kv.1 kv.2) ++ [YAML_STREAM_END_TOKEN])) None = Ok (last_dsn es None).
Proof.
  unfold agc_load_config, last_dsn.
  assert (forall s c o, exists s' c', steps config_step (Config s c o) (es ≫= fun kv => entry kv.1 kv.2) =
    Ok (Config s' c' (foldl (fun o kv => if bool_decide (kv.1 = bytes_of "odbc_dsn") then Some kv.2 else o) o es))) as Hs.
  { induction es as [|[k v] es IH]; intros s c o; [by exists s, c|]. cbn [mbind list_bind foldl fst snd]. rewrite steps_app. cbn [steps entry config_step rbind iskey datap odbc_dsn].
    destruct (bool_decide (k = _)); apply IH. }
  rewrite scan_steps.
  - destruct (Hs false false None) as (s' & c' & ->). done.
  - clear Hs. induction es as [|[k v] es IH]; cbn [mbind list_bind]; [constructor|]. apply Forall_app. split; [by repeat constructor|done].
Qed.

(** ** Starting and stopping *)

(** What was started when a part refuses is what comes before it, and the
    modules are not loaded; when all parts start, every one of them is stopped
    again, once. *)
Theorem core_starts_and_stops argv starts file loads evs r : main argv starts (Some file) loads = Ok (evs, r) ->
  evs = [] /\ r = 255 \/
  (exists n, evs = [Started (take n (fst <$> init_order))] /\ r = 1 /\ Forall (fun p => starts p = true) (take n (fst <$> init_order))) \/
  (evs = [Started (fst <$> init_order); Modules; Stopped agc_core_destroy] /\ r = 0 /\ agc_core_destroy ≡ₚ (fst <$> init_order)).
Proof.
  unfold main. destruct (main_args argv) as [[c|d nc]| |] eqn:Ea; cbn [rbind]; try discriminate.
  { assert (c = 255) as ->; [|intros [= <- <-]; by left].
    revert Ea. unfold main_args. destruct (_ <? _)%nat; [discriminate|]. destruct argv as [|prog args]; [discriminate|].
    generalize no_dirs as d. match goal with |- context [read_args ?f args _ ?n] => generalize f as full; generalize n as nc end.
    intros nc full d. revert d nc. induction args as [args IH] using (induction_ltof1 _ length). unfold ltof in IH. intros d nc.
    destruct args as [|a rest]; cbn [read_args]; [discriminate|].
    repeat (case_bool_decide; cbn [orb]); try (apply IH; cbn; lia);
      (destruct rest as [|v rest]; [by destruct full; intros [=]|]; case_bool_decide; [by intros [=]|apply IH; cbn; lia]). }
  unfold agc_core_init. cbn [take drop init_order start_parts].
  assert (exists dsn, agc_load_config (Some file) None = Ok dsn) as [dsn Hdsn].
  { unfold agc_load_config. generalize (Config false false None). induction file as [|t file IH]; intros c; cbn [scan rbind]; [by eexists|].
    destruct t; cbn [config_step rbind]; try (destruct (iskey c)); cbn [rbind]; try apply IH; by eexists. }
  rewrite Hdsn.
  destruct (starts PApr) eqn:H1; [|cbn; intros [= <- <-]; right; left; exists 0%nat; by repeat constructor].
  destruct (starts PMemory) eqn:H2; [|cbn; intros [= <- <-]; right; left; exists 1%nat; by repeat constructor]. cbn [rbind].
  destruct (starts PLog) eqn:H3; [|cbn; intros [= <- <-]; right; left; exists 2%nat; by repeat constructor].
  destruct (starts PEvent) eqn:H4; [|cbn; intros [= <- <-]; right; left; exists 3%nat; by repeat constructor].
  destruct (starts PTimer) eqn:H5; [|cbn; intros [= <- <-]; right; left; exists 4%nat; by repeat constructor].
  destruct (starts PSql) eqn:H6; [|cbn; intros [= <- <-]; right; left; exists 5%nat; by repeat constructor].
  destruct (starts PConn) eqn:H7; [|cbn; intros [= <- <-]; right; left; exists 6%nat; by repeat constructor].
  destruct (starts PDriver) eqn:H8; [|cbn; intros [= <- <-]; right; left; exists 7%nat; by repeat constructor].
  destruct (starts PApi) eqn:H9; [|cbn; intros [= <- <-]; right; left; exists 8%nat; by repeat constructor].
  destruct (starts PCache) eqn:H10; [|cbn; intros [= <- <-]; right; left; exists 9%nat; by repeat constructor].
  cbn. destruct loads; intros [= <- <-]; right; [right|left; exists 10%nat; by repeat constructor].
  split_and!; [done|done|]. apply (bool_decide_unpack _). vm_compute. exact I.
Qed.

Lemma core_starts_and_stops_witness :
  main [bytes_of "agcd"] (fun p => negb (bool_decide (p = PSql))) (Some [YAML_STREAM_END_TOKEN]) true = Ok ([Started [PApr; PMemory; PLog; PEvent; PTimer]], 1) /\
  exists n, [PApr; PMemory; PLog; PEvent; PTimer] = take n (fst <$> init_order).
Proof.
  assert (main [bytes_of "agcd"] (fun p => negb (bool_decide (p = PSql))) (Some [YAML_STREAM_END_TOKEN]) true = Ok ([Started [PApr; PMemory; PLog; PEvent; PTimer]], 1)) as E by (vm_compute; reflexivity).
  split; [exact E|]. destruct (core_starts_and_stops _ _ _ _ _ _ E) as [[H _]|[(n & H & _)|[H _]]]; [discriminate H| |discriminate H].
  exists n. by injection H.
Defined.
