(* ===== verification/EventServer.v ===== *)
(** * The event socket as a server

    [src/src/mod/eventhandlers/mod_eventsocket/mod_eventsocket.c]: the
    configuration of the module, the thread that accepts connections, the
    threads of the connections, and the shutdown.  What a connection does while
    it lives is in [EventSocket.v]; here it is whether its loop goes on.

    A step is one critical section or one access of shared memory, and a list of
    steps is an interleaving.  A connection lives in a pool of its own and its
    thread in another one; both are named by the connection.  Pools that are
    given up go to the thread of [Memory.v], which destroys them later. *)

From stdpp Require Import base gmap list fin_maps fin_sets strings.
From Stdlib Require Import ZArith Lia.
From S2P Require Import Prelude CString Event Utils Yaml.

Module Srv.
Import Ev Yaml.

(** ** Configuration *)

Inductive cfg_key := EVENTSOCKET_KEY_IP | EVENTSOCKET_KEY_PORT | EVENTSOCKET_KEY_UNKOWN.

(** [eventsocket_profile_t], with the state of the reader. *)
Record profile_cfg := ProfileCfg { iskey : bool; keytype : cfg_key; ip : list Z; port : Z }.

Definition cfg_start : profile_cfg := ProfileCfg false EVENTSOCKET_KEY_UNKOWN (replicate (Z.to_nat 64) 0) 0.

Definition cfg_step (s : profile_cfg) (t : yaml_token) : result profile_cfg :=
  match t with
  | YAML_KEY_TOKEN => Ok (ProfileCfg true (keytype s) (ip s) (port s))
  | YAML_VALUE_TOKEN => Ok (ProfileCfg false (keytype s) (ip s) (port s))
  | YAML_SCALAR_TOKEN v =>
      if iskey s then
        Ok (ProfileCfg true
              (if bool_decide (v = bytes_of "ip") then EVENTSOCKET_KEY_IP
               else if bool_decide (v = bytes_of "port") then EVENTSOCKET_KEY_PORT else keytype s) (ip s) (port s))
      else
        match keytype s with
        | EVENTSOCKET_KEY_IP => let! buf := strcpy (ip s) 0 v in Ok (ProfileCfg false (keytype s) buf (port s))
        | EVENTSOCKET_KEY_PORT => Ok (ProfileCfg false (keytype s) (ip s) (wrap 16 (Utils.agc_atoui v)))
        | EVENTSOCKET_KEY_UNKOWN => Ok s
        end
  | _ => Ok s
  end.

(** [load_configuration]: the address and the port, and whether the scanner got
    to the end; no file stops the process. *)
Definition load_configuration (file : option (list yaml_token)) : result (list Z * Z * agc_status) :=
  match file with
  | None => Fault Assertion
  | Some tokens =>
      let! (s, ok) := scan cfg_step cfg_start tokens in
      Ok (ip s, port s, if ok : bool then AGC_STATUS_SUCCESS else AGC_STATUS_GENERR)
  end.

(** ** The state *)

(** Where the thread of a connection is: before it has counted itself, before it
    is in the list, in its loop, saying goodbye, leaving the list, closing its
    socket, giving up its pool, using the connection behind that (two accesses),
    counting itself off, at its end.  [CNone]: the thread was not created. *)
Inductive conn_pc := CNew | CAdd | CLoop | CBye | CRemove | CClose | CFree | CForget | CForget2 | CDec | CDone | CNone.

#[global] Instance conn_pc_eq_dec : EqDecision conn_pc.
Proof. solve_decision. Defined.

(** [event_connect_t]: whether [sock] is set, and [is_running]. *)
Record conn := Conn { c_sock : bool; c_running : bool; c_pc : conn_pc }.

(** The thread that accepts: at the test of its loop, about to read
    [listener.sock] or in [accept] (each with the pool for the connection),
    using a connection behind its release, closing, giving up its pool, at its
    end. *)
Inductive rt_pc := RTest | RLoad (p : Z) | RAccept (p : Z) | RForget (p : Z) | RClose | RFree | RDone.

#[global] Instance rt_pc_eq_dec : EqDecision rt_pc.
Proof. solve_decision. Defined.

Inductive stop_pc := SIdle | SKill | SClose | SWait (n : nat) | SEnd.

(** [pools] maps a pool to the descriptor of the socket in it ([None]: there is
    none, or it is closed); [tpools] are the pools of the threads; [opened] are
    the open descriptors; [recycled] and [trecycled] the pools that were given
    up. *)
Record world := World {
  pools : gmap Z (option Z);
  tpools : gset Z;
  opened : gset Z;
  recycled : gset Z;
  trecycled : gset Z;
  next_pool : Z;
  conns : gmap Z conn;
  connections : list Z;
  lsock : option Z;
  ready : bool;
  done : bool;
  threads : Z;
  runtime : rt_pc;
  stop : stop_pc }.

Definition with_pools v w := World v (tpools w) (opened w) (recycled w) (trecycled w) (next_pool w) (conns w) (connections w) (lsock w) (ready w) (done w) (threads w) (runtime w) (stop w).
Definition with_tpools v w := World (pools w) v (opened w) (recycled w) (trecycled w) (next_pool w) (conns w) (connections w) (lsock w) (ready w) (done w) (threads w) (runtime w) (stop w).
Definition with_opened v w := World (pools w) (tpools w) v (recycled w) (trecycled w) (next_pool w) (conns w) (connections w) (lsock w) (ready w) (done w) (threads w) (runtime w) (stop w).
Definition with_recycled v w := World (pools w) (tpools w) (opened w) v (trecycled w) (next_pool w) (conns w) (connections w) (lsock w) (ready w) (done w) (threads w) (runtime w) (stop w).
Definition with_trecycled v w := World (pools w) (tpools w) (opened w) (recycled w) v (next_pool w) (conns w) (connections w) (lsock w) (ready w) (done w) (threads w) (runtime w) (stop w).
Definition with_next v w := World (pools w) (tpools w) (opened w) (recycled w) (trecycled w) v (conns w) (connections w) (lsock w) (ready w) (done w) (threads w) (runtime w) (stop w).
Definition with_conns v w := World (pools w) (tpools w) (opened w) (recycled w) (trecycled w) (next_pool w) v (connections w) (lsock w) (ready w) (done w) (threads w) (runtime w) (stop w).
Definition with_connections v w := World (pools w) (tpools w) (opened w) (recycled w) (trecycled w) (next_pool w) (conns w) v (lsock w) (ready w) (done w) (threads w) (runtime w) (stop w).
Definition with_lsock v w := World (pools w) (tpools w) (opened w) (recycled w) (trecycled w) (next_pool w) (conns w) (connections w) v (ready w) (done w) (threads w) (runtime w) (stop w).
Definition with_done v w := World (pools w) (tpools w) (opened w) (recycled w) (trecycled w) (next_pool w) (conns w) (connections w) (lsock w) (ready w) v (threads w) (runtime w) (stop w).
Definition with_threads v w := World (pools w) (tpools w) (opened w) (recycled w) (trecycled w) (next_pool w) (conns w) (connections w) (lsock w) (ready w) (done w) v (runtime w) (stop w).
Definition with_runtime v w := World (pools w) (tpools w) (opened w) (recycled w) (trecycled w) (next_pool w) (conns w) (connections w) (lsock w) (ready w) (done w) (threads w) v (stop w).
Definition with_stop v w := World (pools w) (tpools w) (opened w) (recycled w) (trecycled w) (next_pool w) (conns w) (connections w) (lsock w) (ready w) (done w) (threads w) (runtime w) v.

(** ** Pools and sockets *)

(** Something in a pool is read or written. *)
Definition access (p : Z) (w : world) : result (option Z) :=
  match pools w !! p with Some d => Ok d | None => Fault BadPointer end.

(** [agc_memory_destroy_pool] hands the pool over. *)
Definition recycle (p : Z) (w : world) : world := with_recycled ({[p]} ∪ recycled w) w.

(** [agc_socket_shutdown] and [agc_socket_close] of the socket in a pool: the
    descriptor is closed once, and then it is [-1] ([socket_cleanup]). *)
Definition sock_close (p : Z) (w : world) : result world :=
  let! d := access p w in
  match d with
  | None => Ok w
  | Some fd =>
      if bool_decide (fd ∈ opened w) then Ok (with_pools (<[p := None]> (pools w)) (with_opened (opened w ∖ {[fd]}) w))
      else Fault BadFree
  end.

(** The pool thread destroys a pool; a socket in it that is open is closed. *)
Definition destroy (p : Z) (w : world) : result world :=
  let! w := sock_close p w in
  Ok (with_pools (delete p (pools w)) (with_recycled (recycled w ∖ {[p]}) w)).

(** ** Starting to listen *)

(** How far the first part of [mod_eventsocket_runtime] gets. *)
Inductive listen_outcome := NoAddress | NoSocket | NoOption (fd : Z) | NoBind (fd : Z) | NoListen (fd : Z) | Listening (fd : Z).

Definition start_listening (o : listen_outcome) : world :=
  let w := World {[1 := None]} ∅ ∅ ∅ ∅ 2 ∅ [] None false false 0 RTest SIdle in
  let failed w := with_runtime RDone (recycle 1 (with_done true w)) in
  let socket fd := with_lsock (Some 1) (with_opened {[fd]} (with_pools {[1 := Some fd]} w)) in
  match o with
  | NoAddress | NoSocket => failed w
  | NoOption fd | NoBind fd | NoListen fd => failed (socket fd)
  | Listening fd => World {[1 := Some fd]} ∅ {[fd]} ∅ ∅ 2 ∅ [] (Some 1) true false 0 RTest SIdle
  end.

(** ** The thread that accepts *)

(** What [accept] and the calls behind it give: a failure, or a descriptor, with
    whether the address of the peer is known and whether the thread of the
    connection is created. *)
Inductive accepted := Refused | Accepted (fd : Z) (named launched : bool).

(** [close_socket] of the listener. *)
Definition close_listener (w : world) : result world :=
  match lsock w with
  | None => Ok w
  | Some l => let! w := sock_close l w in Ok (with_lsock None w)
  end.

Definition accept_conn (p fd : Z) (named launched : bool) (w : world) : result world :=
  if bool_decide (fd ∈ opened w) then Ok w
  else
    let! _ := access p w in
    let w := with_pools (<[p := Some fd]> (pools w)) (with_opened ({[fd]} ∪ opened w) w) in
    if named then
      let c := Conn true false (if launched then CNew else CNone) in
      Ok (with_runtime RTest (with_tpools ({[p]} ∪ tpools w) (with_conns (<[p := c]> (conns w)) w)))
    else
      let! w := sock_close p w in
      Ok (with_runtime (RForget p) (recycle p w)).

Definition runtime_step (a : accepted) (w : world) : result world :=
  match runtime w with
  | RTest =>
      if done w then Ok (with_runtime RClose w)
      else
        let p := next_pool w in
        Ok (with_runtime (RLoad p) (with_next (p + 1) (with_pools (<[p := None]> (pools w)) w)))
  | RLoad p =>
      match lsock w with
      | None => Fault BadPointer
      | Some l => let! _ := access l w in Ok (with_runtime (RAccept p) w)
      end
  | RAccept p =>
      match a with
      | Refused => Ok (with_runtime RTest (recycle p w))
      | Accepted fd named launched => accept_conn p fd named launched w
      end
  | RForget p => let! _ := access p w in Ok (with_runtime RTest w)
  | RClose => let! w := close_listener w in Ok (with_runtime RFree w)
  | RFree => Ok (with_runtime RDone (recycle 1 w))
  | RDone => Ok w
  end.

(** ** The thread of a connection *)

Definition set_conn (p : Z) (c : conn) (w : world) : world := with_conns (<[p := c]> (conns w)) w.
Definition goto (p : Z) (c : conn) (pc : conn_pc) (w : world) : world := set_conn p (Conn (c_sock c) (c_running c) pc) w.

(** [remove_conn] *)
Fixpoint unlink (p : Z) (l : list Z) : list Z :=
  match l with [] => [] | x :: l' => if bool_decide (x = p) then l' else x :: unlink p l' end.

(** [close_socket] of a connection. *)
Definition close_conn (p : Z) (c : conn) (w : world) : result world :=
  let! _ := access p w in
  if c_sock c then let! w := sock_close p w in Ok (set_conn p (Conn false (c_running c) CFree) w) else Ok (goto p c CFree w).

(** [connection_run]; [go]: the packet was read and its command carried out. *)
Definition conn_step (p : Z) (go : bool) (w : world) : result world :=
  match conns w !! p with
  | None => Ok w
  | Some c =>
      match c_pc c with
      | CNew => let! _ := access p w in Ok (goto p c CAdd (with_threads (threads w + 1) w))
      | CAdd => let! _ := access p w in Ok (set_conn p (Conn (c_sock c) true CLoop) (with_connections (p :: connections w) w))
      | CLoop =>
          let! _ := access p w in
          if negb (done w) && ready w && c_running c && go then Ok w else Ok (goto p c CBye w)
      | CBye => let! _ := access p w in Ok (goto p c CRemove w)
      | CRemove => let! _ := access p w in Ok (goto p c CClose (with_connections (unlink p (connections w)) w))
      | CClose => close_conn p c w
      | CFree => let! _ := access p w in Ok (goto p c CForget (recycle p w))
      | CForget =>
          let! _ := access p w in
          Ok (goto p c CForget2 (with_trecycled ({[p]} ∪ trecycled w) w))
      | CForget2 => let! _ := access p w in Ok (goto p c CDec w)
      | CDec => Ok (goto p c CDone (with_threads (threads w - 1) w))
      | CDone | CNone => Ok w
      end
  end.

(** ** Events and shutdown *)

(** The connections of a list are visited one after the other. *)
Fixpoint visit (f : Z -> conn -> world -> result world) (l : list Z) (w : world) : result world :=
  match l with
  | [] => Ok w
  | p :: l' =>
      let! _ := access p w in
      match conns w !! p with
      | None => Fault BadPointer
      | Some c => let! w := f p c w in visit f l' w
      end
  end.

(** [handle_event] reads every connection of the list. *)
Definition handle_event (w : world) : result world :=
  if ready w then visit (fun _ _ w => Ok w) (connections w) w else Ok w.

(** One connection of [kill_connections]: the socket is closed, but the
    connection keeps its pointer. *)
Definition kill (p : Z) (c : conn) (w : world) : result world :=
  let w := set_conn p (Conn (c_sock c) false (c_pc c)) w in
  if c_sock c then sock_close p w else Ok w.
Definition kill_connections (w : world) : result world := visit kill (connections w) w.

(** [mod_eventsocket_shutdown] *)
Definition stop_step (w : world) : result world :=
  match stop w with
  | SIdle => Ok (with_stop SKill (with_done true w))
  | SKill => let! w := kill_connections w in Ok (with_stop SClose w)
  | SClose => let! w := close_listener w in Ok (with_stop (SWait 0) w)
  | SWait n =>
      if threads w =? 0 then Ok (with_stop SEnd w)
      else let! w := kill_connections w in Ok (with_stop (if (200 <=? S n)%nat then SEnd else SWait (S n)) w)
  | SEnd => Ok w
  end.

(** ** Interleavings *)

Inductive action := Runtime (a : accepted) | Connection (p : Z) (go : bool) | Event | Stop | Recycle (p : Z) | RecycleThread (p : Z).

(** A thread that has given up a pool and still uses what is in it. *)
Definition still_used (p : Z) (w : world) : bool :=
  match conns w !! p with Some c => bool_decide (c_pc c = CForget \/ c_pc c = CForget2) | None => false end
  || bool_decide (runtime w = RForget p).

(** The thread that accepts is between its test and the use of the listener. *)
Definition about_to_accept (w : world) : bool := match runtime w with RLoad _ => true | _ => false end.

(** When [calm] is set, the pool thread does not get between the two, and
    neither does the shutdown. *)
Definition step (calm : bool) (a : action) (w : world) : result world :=
  match a with
  | Runtime r => runtime_step r w
  | Connection p go => conn_step p go w
  | Event => handle_event w
  | Stop => match stop w with SClose => if calm && about_to_accept w then Ok w else stop_step w | _ => stop_step w end
  | Recycle p =>
      if bool_decide (p ∈ recycled w) then if calm && still_used p w then Ok w else destroy p w else Ok w
  | RecycleThread p =>
      if bool_decide (p ∈ trecycled w) then
        if bool_decide (p ∈ tpools w) then Ok (with_tpools (tpools w ∖ {[p]}) (with_trecycled (trecycled w ∖ {[p]}) w)) else Fault BadFree
      else Ok w
  end.

Fixpoint run (calm : bool) (acts : list action) (w : world) : result world :=
  match acts with [] => Ok w | a :: acts' => let! w := step calm a w in run calm acts' w end.

(** No thread is left, and no pool waits for its destruction. *)
Definition ended (w : world) : Prop :=
  runtime w = RDone /\ recycled w = ∅ /\ trecycled w = ∅ /\ forall p c, conns w !! p = Some c -> c_pc c = CDone \/ c_pc c = CNone.

(** The connections whose thread was not created. *)
Definition stranded (p : Z) (w : world) : Prop := exists c, conns w !! p = Some c /\ c_pc c = CNone.

End Srv.
