(* ===== verification/EventServerProof.v ===== *)
(** * The event socket as a server: proofs

    The invariant of the interleavings of [EventServer.v] and what follows from
    it: no descriptor is closed twice, the list of connections is sound, and
    when all threads have ended nothing is left open. *)

From stdpp Require Import base gmap list fin_maps fin_sets strings.
From Stdlib Require Import ZArith Lia.
From S2P Require Import Prelude CString Event Utils Yaml EventServer.
Import Ev Yaml Srv.

(** ** What a place in the program means *)

(** In the list; counted by [threads]; owner of the pool; user of a pool that
    was given up; owner of the pool of the thread. *)
Definition listed (pc : conn_pc) : Prop := match pc with CLoop | CBye | CRemove => True | _ => False end.
Definition holds (pc : conn_pc) : Prop := match pc with CForget | CForget2 | CDec | CDone => False | _ => True end.
Definition uses (pc : conn_pc) : Prop := match pc with CForget | CForget2 => True | _ => False end.
Definition tholds (pc : conn_pc) : Prop := match pc with CForget2 | CDec | CDone => False | _ => True end.
Definition cnt (pc : conn_pc) : Z := match pc with CNew | CDone | CNone => 0 | _ => 1 end.

(** A sum over the connections. *)
Definition sum_conns (f : conn_pc -> Z) (m : gmap Z conn) : Z := map_fold (fun _ c n => f (c_pc c) + n) 0 m.
Definition total : gmap Z conn -> Z := sum_conns cnt.

Lemma sum_fresh f m p c : m !! p = None -> sum_conns f (<[p := c]> m) = f (c_pc c) + sum_conns f m.
Proof. intros Hp. unfold sum_conns. rewrite map_fold_insert_L; [done|intros; lia|done]. Qed.

Lemma sum_insert f m p c c' : m !! p = Some c -> sum_conns f (<[p := c']> m) = sum_conns f m - f (c_pc c) + f (c_pc c').
Proof.
  intros Hp. pose proof (sum_fresh f (delete p m) p c (lookup_delete_eq m p)) as H1. rewrite insert_delete_id in H1 by done.
  pose proof (sum_fresh f (delete p m) p c' (lookup_delete_eq m p)) as H2. rewrite insert_delete_eq in H2. lia.
Qed.

(** ** The invariant *)

Record inv (w : world) : Prop := Inv {
  i_range : 2 <= next_pool w /\ (forall p, is_Some (pools w !! p) \/ is_Some (conns w !! p) -> p < next_pool w);
  i_fd : forall fd, fd ∈ opened w <-> exists p, pools w !! p = Some (Some fd);
  i_inj : forall p q fd, pools w !! p = Some (Some fd) -> pools w !! q = Some (Some fd) -> p = q;
  i_rec : forall p, p ∈ recycled w -> is_Some (pools w !! p);
  i_trec : trecycled w ⊆ tpools w;
  i_conn : forall p c, conns w !! p = Some c ->
    p <> 1 /\ (holds (c_pc c) -> is_Some (pools w !! p) /\ p ∉ recycled w) /\ (uses (c_pc c) -> is_Some (pools w !! p)) /\
    (tholds (c_pc c) -> (p ∈ tpools w) /\ (p ∉ trecycled w));
  i_list : NoDup (connections w) /\ forall p, p ∈ connections w <-> exists c, conns w !! p = Some c /\ listed (c_pc c);
  i_threads : threads w = total (conns w);
  i_rt : match runtime w with
    | RLoad p => pools w !! p = Some None /\ p ∉ recycled w /\ conns w !! p = None /\ p <> 1 /\ lsock w <> None
    | RAccept p => pools w !! p = Some None /\ p ∉ recycled w /\ conns w !! p = None /\ p <> 1
    | RForget p => is_Some (pools w !! p) /\ conns w !! p = None
    | RTest => True
    | _ => done w = true
    end;
  i_first : runtime w <> RDone -> is_Some (pools w !! 1) /\ 1 ∉ recycled w;
  i_lsock : match lsock w with Some l => l = 1 /\ runtime w <> RFree /\ runtime w <> RDone | None => done w = true end;
  i_stop : match stop w with SIdle => True | _ => done w = true end;
  i_owner : forall p, is_Some (pools w !! p) ->
    p ∈ recycled w \/ (p = 1 /\ runtime w <> RDone) \/ runtime w = RLoad p \/ runtime w = RAccept p \/ exists c, conns w !! p = Some c /\ holds (c_pc c);
  i_towner : forall p, p ∈ tpools w -> p ∈ trecycled w \/ exists c, conns w !! p = Some c /\ tholds (c_pc c);
  i_tconn : forall p, p ∈ tpools w -> is_Some (conns w !! p) }.

Ltac open_inv H := pose proof H as [Hrange Hfd Hinj Hrec Htrec Hconn Hlist Hthreads Hrt Hfirst Hlsock Hstop Howner Htowner Htconn].
Ltac fields := cbn [pools tpools opened recycled trecycled next_pool conns connections lsock ready done threads runtime stop
  with_pools with_tpools with_opened with_recycled with_trecycled with_next with_conns with_connections with_lsock with_done with_threads with_runtime with_stop
  set_conn goto recycle c_sock c_running c_pc].

Lemma start_inv fd : inv (start_listening (Listening fd)).
Proof.
  assert (forall p d, ({[1 := Some fd]} : gmap Z (option Z)) !! p = Some d <-> p = 1 /\ d = Some fd) as Hl.
  { intros p d. rewrite lookup_singleton_Some. naive_solver. }
  split; cbn -[lookup insert singletonM]; rewrite ?lookup_empty; try done.
  - split; [lia|]. intros p [[d [-> _]%Hl]|[? H]]; [lia|]. by rewrite lookup_empty in H.
  - intros d. setoid_rewrite Hl. set_solver.
  - intros p q d [-> _]%Hl [-> _]%Hl. done.
  - split; [constructor|]. intros p. setoid_rewrite lookup_empty. set_solver.
  - intros p [d [-> _]%Hl]. right. by left.
Qed.

(** ** Closing and destroying *)

(** Closing the socket of a pool that is there. *)
Lemma sock_close_inv w p : inv w -> is_Some (pools w !! p) ->
  exists ps os, sock_close p w = Ok (with_pools ps (with_opened os w)) /\ inv (with_pools ps (with_opened os w)) /\
    ps !! p = Some None /\ (forall q, is_Some (ps !! q) <-> is_Some (pools w !! q)) /\ (forall q fd, ps !! q = Some (Some fd) -> pools w !! q = Some (Some fd)).
Proof.
  intros Hi [d Hd]. open_inv Hi. unfold sock_close, access. rewrite Hd. cbn [rbind]. destruct d as [fd|].
  - rewrite bool_decide_eq_true_2 by (apply Hfd; by exists p). eexists _, _. split; [done|].
    assert (forall q, is_Some (<[p := None]> (pools w) !! q) <-> is_Some (pools w !! q)) as Hdom.
    { intros q. destruct (decide (q = p)) as [->|]; [rewrite lookup_insert_eq, Hd|rewrite lookup_insert_ne by done]; [|done]. split; by eexists. }
    assert (forall q fd', <[p := None]> (pools w) !! q = Some (Some fd') <-> q <> p /\ pools w !! q = Some (Some fd')) as Hval.
    { intros q fd'. destruct (decide (q = p)) as [->|]; [rewrite lookup_insert_eq|rewrite lookup_insert_ne by done]; naive_solver. }
    split; [|split; [by rewrite lookup_insert_eq|split; [done|naive_solver]]].
    split; fields; try done; try (setoid_rewrite Hdom; done).
    + intros fd'. setoid_rewrite Hval. rewrite elem_of_difference, elem_of_singleton, Hfd. split.
      * intros [(q & Hq) Hne]. exists q. split; [|done]. intros ->. naive_solver.
      * intros (q & Hne & Hq). split; [by exists q|]. intros ->. by apply Hne, (Hinj q p fd).
    + intros q r fd' [_ Hq]%Hval [_ Hr]%Hval. by apply (Hinj q r fd').
    + destruct (runtime w) as [|q|q|q| | |]; rewrite ?Hdom; try done.
      * destruct (decide (q = p)) as [->|]; [naive_solver|by rewrite lookup_insert_ne].
      * destruct (decide (q = p)) as [->|]; [naive_solver|by rewrite lookup_insert_ne].
  - exists (pools w), (opened w). destruct w. cbn in *. split_and!; done.
Qed.

(** The pool thread destroys a pool that nobody uses. *)
Lemma destroy_inv w p : inv w -> p ∈ recycled w -> still_used p w = false -> exists w', destroy p w = Ok w' /\ inv w'.
Proof.
  intros Hi Hp Hu. pose proof (i_rec w Hi p Hp) as Hlive. unfold destroy.
  destruct (sock_close_inv w p Hi Hlive) as (ps & os & -> & Hi' & Hpp & _ & _). cbn [rbind]. eexists. split; [done|].
  open_inv Hi'. fields. cbn in *. unfold still_used in Hu. apply orb_false_iff in Hu as [Hu Hrf%bool_decide_eq_false].
  assert (forall c, conns w !! p = Some c -> ~ holds (c_pc c) /\ ~ uses (c_pc c)) as Hnot.
  { intros c Hc. rewrite Hc in Hu. apply bool_decide_eq_false in Hu. split; [|by destruct (c_pc c); intros H; try apply H; apply Hu; auto]. intros Hh. destruct (Hconn p c Hc) as (_ & Hh' & _). by destruct (Hh' Hh). }
  split; fields; rewrite ?lookup_delete_Some; try done.
  - split; [lia|]. intros q [Hq|Hq]; apply Hrange; [left|by right]. destruct Hq as [d [_ Hq]%lookup_delete_Some]. by eexists.
  - intros fd. rewrite Hfd. setoid_rewrite lookup_delete_Some. split; [|naive_solver]. intros [q Hq]. exists q. split; [|done]. intros ->. by rewrite Hpp in Hq.
  - intros q r fd [_ Hq]%lookup_delete_Some [_ Hr]%lookup_delete_Some. by apply (Hinj q r fd).
  - intros q [Hq Hne]%elem_of_difference. rewrite lookup_delete_ne by set_solver. by apply Hrec.
  - intros q c Hc. destruct (Hconn q c Hc) as (H1 & Hh & Hus & Ht). destruct (decide (q = p)) as [->|Hne].
    + destruct (Hnot c Hc). by split_and!.
    + rewrite lookup_delete_ne by done. split_and!; [done|intros H; split; [by apply Hh|]; set_solver|done|done].
  - destruct (runtime w) as [|q|q|q| | |] eqn:Er; try done;
      (assert (q <> p) as Hne by (intros ->; first [tauto|done])); rewrite lookup_delete_ne by done; set_solver.
  - intros H. destruct (Hfirst H) as [H1 H2]. assert (p <> 1) by (intros ->; done). rewrite lookup_delete_ne by done. set_solver.
  - intros q [d [Hne Hq]%lookup_delete_Some]. destruct (Howner q) as [H|H]; [by eexists| |by right]. left. set_solver.
Qed.

(** ** Connections *)

(** A step of the thread of a connection that moves it from [c] to [c']. *)
Lemma conn_move w p c c' th cl rc trc : inv w -> conns w !! p = Some c ->
  th = threads w - cnt (c_pc c) + cnt (c_pc c') ->
  (NoDup cl /\ (p ∈ cl <-> listed (c_pc c')) /\ forall q, q <> p -> q ∈ cl <-> q ∈ connections w) ->
  (rc = recycled w \/ rc = {[p]} ∪ recycled w /\ holds (c_pc c) /\ ~ holds (c_pc c')) -> (holds (c_pc c) -> holds (c_pc c') \/ p ∈ rc) ->
  (trc = trecycled w \/ trc = {[p]} ∪ trecycled w /\ tholds (c_pc c) /\ ~ tholds (c_pc c')) -> (tholds (c_pc c) -> tholds (c_pc c') \/ p ∈ trc) ->
  (holds (c_pc c') -> holds (c_pc c)) -> (uses (c_pc c') -> holds (c_pc c) \/ uses (c_pc c)) -> (tholds (c_pc c') -> tholds (c_pc c)) ->
  inv (with_conns (<[p := c']> (conns w)) (with_threads th (with_connections cl (with_recycled rc (with_trecycled trc w))))).
Proof.
  intros Hi Hc Hth (Hnd & Hcl & Hcl') Hrc Hrc' Htrc Htrc' Hh Hu Ht. open_inv Hi. destruct (Hconn p c Hc) as (Hp1 & Hch & Hcu & Hct).
  assert (forall q, q <> p -> q ∈ rc <-> q ∈ recycled w) as Hrq by (intros q; set_solver).
  assert (forall q, q <> p -> q ∈ trc <-> q ∈ trecycled w) as Htq by (intros q; set_solver).
  assert (forall q, is_Some (<[p := c']> (conns w) !! q) <-> is_Some (conns w !! q)) as Hdom.
  { intros q. destruct (decide (q = p)) as [->|]; [rewrite lookup_insert_eq, Hc|by rewrite lookup_insert_ne]. split; by eexists. }
  assert (forall q, conns w !! q = None -> <[p := c']> (conns w) !! q = None /\ q <> p) as Hnone.
  { intros q Hq. assert (q <> p) by (intros ->; congruence). by rewrite lookup_insert_ne. }
  split; fields; try done.
  - split; [lia|]. intros q. rewrite Hdom. apply Hrange.
  - intros q Hq. destruct (decide (q = p)) as [->|]; [|by apply Hrec, Hrq]. destruct Hrc as [->|(-> & H & _)]; [by apply Hrec|by apply Hch].
  - intros q Hq. destruct (decide (q = p)) as [->|]; [|by apply Htrec, Htq]. destruct Htrc as [->|(-> & H & _)]; [by apply Htrec|by apply Hct].
  - intros q cq. destruct (decide (q = p)) as [->|Hne].
    + rewrite lookup_insert_eq. intros [= <-]. split; [done|]. split; [|split; [naive_solver|]].
      * intros H. destruct (Hch (Hh H)) as [Hs Hr]. split; [done|]. destruct Hrc as [->|(_ & _ & Hn)]; tauto.
      * intros H. destruct (Hct (Ht H)) as [Hs Hr]. split; [done|]. destruct Htrc as [->|(_ & _ & Hn)]; tauto.
    + rewrite lookup_insert_ne by done. intros Hq. rewrite Hrq, Htq by done. by apply Hconn.
  - split; [done|]. intros q. destruct (decide (q = p)) as [->|Hne].
    + rewrite lookup_insert_eq, Hcl. split; [intros H; by exists c'|by intros (? & [= <-] & ?)].
    + rewrite lookup_insert_ne by done. rewrite Hcl' by done. apply Hlist.
  - unfold total in *. rewrite (sum_insert _ _ _ _ _ Hc), <- Hthreads. done.
  - destruct (runtime w) as [|q|q|q| | |]; try done.
    + destruct Hrt as (Ha & Hb & [Hd Hne]%Hnone & He & Hf). rewrite Hrq by done. done.
    + destruct Hrt as (Ha & Hb & [Hd Hne]%Hnone & He). rewrite Hrq by done. done.
    + destruct Hrt as (Ha & [Hd Hne]%Hnone). done.
  - intros H. rewrite Hrq by done. by apply Hfirst.
  - intros q Hq. destruct (Howner q Hq) as [H|[H|[H|[H|(cq & Hcq & H)]]]]; try tauto.
    + left. destruct (decide (q = p)) as [->|]; [destruct Hrc as [->|[-> _]]; set_solver|by apply Hrq].
    + destruct (decide (q = p)) as [->|Hne]; [|right; right; right; right; rewrite lookup_insert_ne by done; by exists cq].
      rewrite Hc in Hcq. injection Hcq as <-. destruct (Hrc' H); [|tauto]. right; right; right; right. rewrite lookup_insert_eq. by exists c'.
  - intros q Hq. destruct (Htowner q Hq) as [H|(cq & Hcq & H)].
    + left. destruct (decide (q = p)) as [->|]; [destruct Htrc as [->|[-> _]]; set_solver|by apply Htq].
    + destruct (decide (q = p)) as [->|Hne]; [|right; rewrite lookup_insert_ne by done; by exists cq].
      rewrite Hc in Hcq. injection Hcq as <-. destruct (Htrc' H); [|tauto]. right. rewrite lookup_insert_eq. by exists c'.
  - intros q Hq. rewrite Hdom. by apply Htconn.
Qed.

Lemma unlink_elem p q l : NoDup l -> q ∈ unlink p l <-> q ∈ l /\ q <> p.
Proof.
  intros Hl. induction l as [|x l IH]; cbn [unlink]; [set_solver|]. apply NoDup_cons in Hl as [Hx Hl].
  case_bool_decide as E; [subst; set_solver|]. rewrite !elem_of_cons, (IH Hl). naive_solver.
Qed.

Lemma unlink_nodup p l : NoDup l -> NoDup (unlink p l).
Proof.
  intros Hl. induction l as [|x l IH]; cbn [unlink]; [done|]. apply NoDup_cons in Hl as [Hx Hl].
  case_bool_decide; [done|]. apply NoDup_cons. split; [|by apply IH]. rewrite unlink_elem by done. tauto.
Qed.

(** What a connection that is somewhere in the program may touch. *)
Lemma conn_access w p c : inv w -> conns w !! p = Some c -> holds (c_pc c) \/ uses (c_pc c) -> exists d, access p w = Ok d.
Proof. intros Hi Hc H. unfold access. destruct (i_conn w Hi p c Hc) as (_ & Hh & Hu & _). assert (is_Some (pools w !! p)) as [d ->] by tauto. by eexists. Qed.

(** The list does not change. *)
Lemma same_list w p c c' : inv w -> conns w !! p = Some c -> (listed (c_pc c) <-> listed (c_pc c')) ->
  NoDup (connections w) /\ (p ∈ connections w <-> listed (c_pc c')) /\ forall q, q <> p -> q ∈ connections w <-> q ∈ connections w.
Proof.
  intros Hi Hc H. destruct (i_list w Hi) as [Hnd Hin]. split; [done|]. split; [|done]. rewrite Hin, <- H. naive_solver.
Qed.

Ltac places := cbn; repeat match goal with H : c_pc _ = _ |- _ => rewrite H end; cbn; first [lia | tauto | set_solver].

(** A step inside of the thread that changes neither the list nor the pools. *)
Lemma conn_goto w p c c' th : inv w -> conns w !! p = Some c -> th = threads w - cnt (c_pc c) + cnt (c_pc c') ->
  (listed (c_pc c) <-> listed (c_pc c')) -> (holds (c_pc c) <-> holds (c_pc c')) -> (uses (c_pc c') -> uses (c_pc c)) -> (tholds (c_pc c) <-> tholds (c_pc c')) ->
  inv (set_conn p c' (with_threads th w)).
Proof.
  intros Hi Hc Hth Hl Hh Hu Ht. pose proof (conn_move w p c c' th (connections w) (recycled w) (trecycled w) Hi Hc Hth (same_list w p c c' Hi Hc Hl)) as H.
  destruct w; cbn in *. apply H; tauto.
Qed.

Lemma close_conn_inv w p c : inv w -> conns w !! p = Some c -> c_pc c = CClose -> exists w', close_conn p c w = Ok w' /\ inv w'.
Proof.
  intros Hi Hc Hpc. unfold close_conn. destruct (conn_access w p c Hi Hc) as [d Hd]; [places|]. rewrite Hd. cbn [rbind].
  destruct (c_sock c).
  - destruct (sock_close_inv w p Hi) as (ps & os & -> & Hi' & _); [unfold access in Hd; destruct (pools w !! p); [by eexists|done]|]. cbn [rbind].
    eexists. split; [done|]. pose proof (conn_goto _ p c (Conn false (c_running c) CFree) (threads w) Hi' Hc) as H. destruct w. apply H; clear H; places.
  - eexists. split; [done|]. pose proof (conn_goto _ p c (Conn (c_sock c) (c_running c) CFree) (threads w) Hi Hc) as H. destruct w. apply H; clear H; places.
Qed.

Lemma conn_step_inv w p go : inv w -> exists w', conn_step p go w = Ok w' /\ inv w'.
Proof.
  intros Hi. unfold conn_step. destruct (conns w !! p) as [c|] eqn:Hc; [|by eauto].
  destruct (c_pc c) eqn:Hpc; try (by eauto);
    try (destruct (conn_access w p c Hi Hc) as [d ->]; [places|]; cbn [rbind]).
  - eexists. split; [done|]. pose proof (conn_goto w p c (Conn (c_sock c) (c_running c) CAdd) (threads w + 1) Hi Hc) as H.
    destruct w. apply H; clear H; places.
  - eexists. split; [done|]. destruct (i_list w Hi) as [Hnd Hin].
    assert (p ∉ connections w) as Hp by (rewrite Hin; intros (c' & Hc' & Hl); rewrite Hc in Hc'; injection Hc' as <-; by rewrite Hpc in Hl).
    pose proof (conn_move w p c (Conn (c_sock c) true CLoop) (threads w) (p :: connections w) (recycled w) (trecycled w) Hi Hc) as H.
    destruct w. apply H; clear H; cbn [connections] in *; [places| |places..].
    split; [by constructor|]. split; [|intros q Hq; rewrite elem_of_cons; tauto]. split; [places|left].
  - destruct (_ && go); [by eauto|]. eexists. split; [done|]. pose proof (conn_goto w p c (Conn (c_sock c) (c_running c) CBye) (threads w) Hi Hc) as H.
    destruct w. apply H; clear H; places.
  - eexists. split; [done|]. pose proof (conn_goto w p c (Conn (c_sock c) (c_running c) CRemove) (threads w) Hi Hc) as H.
    destruct w. apply H; clear H; places.
  - eexists. split; [done|]. destruct (i_list w Hi) as [Hnd Hin].
    pose proof (conn_move w p c (Conn (c_sock c) (c_running c) CClose) (threads w) (unlink p (connections w)) (recycled w) (trecycled w) Hi Hc) as H.
    destruct w. apply H; clear H; cbn [connections] in *; [places| |places..].
    split; [by apply unlink_nodup|]. setoid_rewrite unlink_elem; [|done..]. split; [places|tauto].
  - by apply close_conn_inv.
  - eexists. split; [done|]. pose proof (conn_move w p c (Conn (c_sock c) (c_running c) CForget) (threads w) (connections w) ({[p]} ∪ recycled w) (trecycled w) Hi Hc) as H.
    pose proof (same_list w p c (Conn (c_sock c) (c_running c) CForget) Hi Hc) as Hs.
    destruct w. apply H; clear H; cbn [connections] in *; [places|apply Hs; places|places..].
  - eexists. split; [done|]. pose proof (conn_move w p c (Conn (c_sock c) (c_running c) CForget2) (threads w) (connections w) (recycled w) ({[p]} ∪ trecycled w) Hi Hc) as H.
    pose proof (same_list w p c (Conn (c_sock c) (c_running c) CForget2) Hi Hc) as Hs.
    destruct w. apply H; clear H; cbn [connections] in *; [places|apply Hs; places|places..].
  - eexists. split; [done|]. pose proof (conn_goto w p c (Conn (c_sock c) (c_running c) CDec) (threads w) Hi Hc) as H.
    destruct w. apply H; clear H; places.
  - eexists. split; [done|]. pose proof (conn_goto w p c (Conn (c_sock c) (c_running c) CDone) (threads w - 1) Hi Hc) as H.
    destruct w. apply H; clear H; places.
Qed.

(** ** The thread that accepts *)

(** The shared variables of the two loops change. *)
Lemma listener_move w l d r s : inv w -> (done w = true -> d = true) ->
  match r with
  | RLoad p => pools w !! p = Some None /\ p ∉ recycled w /\ conns w !! p = None /\ p <> 1 /\ l <> None
  | RAccept p => pools w !! p = Some None /\ p ∉ recycled w /\ conns w !! p = None /\ p <> 1
  | RForget p => is_Some (pools w !! p) /\ conns w !! p = None
  | RTest => True
  | _ => d = true
  end ->
  (r = RDone <-> runtime w = RDone) -> match l with Some l => l = 1 /\ r <> RFree /\ r <> RDone | None => d = true end ->
  match s with SIdle => True | _ => d = true end ->
  (forall p, (runtime w = RLoad p \/ runtime w = RAccept p) -> r = RLoad p \/ r = RAccept p \/ p ∈ recycled w \/ exists c, conns w !! p = Some c /\ holds (c_pc c)) ->
  inv (with_lsock l (with_done d (with_runtime r (with_stop s w)))).
Proof.
  intros Hi Hd Hr Hrd Hl Hs Ho. open_inv Hi. split; fields; try done.
  - intros H. apply Hfirst. tauto.
  - intros p Hp. destruct (Howner p Hp) as [H|[H|[H|[H|H]]]]; [tauto|tauto| | |tauto].
    + destruct (Ho p (or_introl H)); tauto.
    + destruct (Ho p (or_intror H)); tauto.
Qed.

Lemma close_listener_inv w : inv w -> (runtime w = RDone -> lsock w = None) -> (forall p, runtime w <> RLoad p) -> done w = true ->
  exists ps os, close_listener w = Ok (with_lsock None (with_pools ps (with_opened os w))) /\ inv (with_lsock None (with_pools ps (with_opened os w))).
Proof.
  intros Hi Hrd Hrl Hd. pose proof (i_lsock w Hi) as Hl. unfold close_listener. destruct (lsock w) as [l|] eqn:El.
  - destruct Hl as (-> & Hf & Hdn). destruct (sock_close_inv w 1 Hi) as (ps & os & -> & Hi' & _); [by apply (i_first w Hi)|]. cbn [rbind].
    exists ps, os. split; [done|]. pose proof (listener_move _ None (done w) (runtime w) (stop w) Hi') as H. destruct w. apply H; clear H; cbn in *; try done.
    + open_inv Hi'. cbn in *. destruct runtime0; try done. by destruct (Hrl p).
    + open_inv Hi'. cbn in *. by destruct stop0.
    + tauto.
  - exists (pools w), (opened w). destruct w. cbn in *. by subst.
Qed.

Lemma recycle_first w : inv w -> runtime w = RFree -> lsock w = None -> inv (with_runtime RDone (recycle 1 w)).
Proof.
  intros Hi Hr Hl. open_inv Hi. destruct (Hfirst) as [H1 H2]; [by rewrite Hr|]. split; fields; try done.
  - intros p [->%elem_of_singleton|Hp]%elem_of_union; [done|by apply Hrec].
  - intros p c Hc. destruct (Hconn p c Hc) as (Hne & Hh & Hu & Ht). split_and!; [done| |done|done]. intros H. split; [by apply Hh|].
    destruct (Hh H) as [_ Hp]. rewrite not_elem_of_union, not_elem_of_singleton. done.
  - by rewrite Hr in Hrt.
  - by rewrite Hl in *.
  - intros p Hp. destruct (Howner p Hp) as [H|[[-> _]|[H|[H|H]]]]; [left|left|congruence|congruence|tauto]; apply elem_of_union; [by right|left; by apply elem_of_singleton].
Qed.

Lemma recycle_accept w p r : inv w -> runtime w = RAccept p -> (r = RTest \/ r = RForget p) -> inv (with_runtime r (recycle p w)).
Proof.
  intros Hi Hr Hr'. open_inv Hi. rewrite Hr in *. destruct Hrt as (Hp & Hnr & Hnc & Hp1). split; fields; try done.
  - intros q [->%elem_of_singleton|Hq]%elem_of_union; [done|by apply Hrec].
  - intros q c Hc. assert (q <> p) by (intros ->; congruence). destruct (Hconn q c Hc) as (Hne & Hh & Hu & Ht). split_and!; [done| |done|done]. intros H'.
    destruct (Hh H') as [? Hq]. split; [done|]. by rewrite not_elem_of_union, not_elem_of_singleton.
  - destruct Hr' as [->| ->]; done.
  - intros H. destruct Hfirst as [H1 H2]; [done|]. split; [done|]. rewrite not_elem_of_union, not_elem_of_singleton. by split.
  - destruct (lsock w); [|done]. destruct Hr' as [->| ->]; naive_solver.
  - intros q Hq. destruct (Howner q Hq) as [H|[[-> _]|[H|[[= ->]|H]]]]; [left; apply elem_of_union; by right| |done|left; apply elem_of_union; left; by apply elem_of_singleton|tauto].
    right; left. split; [done|]. by destruct Hr' as [->| ->].
Qed.

(** A socket is made in a pool that has none. *)
Lemma accept_socket w p fd : inv w -> runtime w <> RLoad p -> runtime w <> RAccept p -> fd ∉ opened w -> pools w !! p = Some None ->
  inv (with_pools (<[p := Some fd]> (pools w)) (with_opened ({[fd]} ∪ opened w) w)).
Proof.
  intros Hi Hr1 Hr2 Hn Hp. open_inv Hi.
  assert (forall q, is_Some (<[p := Some fd]> (pools w) !! q) <-> is_Some (pools w !! q)) as Hdom.
  { intros q. destruct (decide (q = p)) as [->|]; [rewrite lookup_insert_eq, Hp|by rewrite lookup_insert_ne]. split; by eexists. }
  assert (forall q fd', <[p := Some fd]> (pools w) !! q = Some (Some fd') <-> (q = p /\ fd' = fd) \/ pools w !! q = Some (Some fd')) as Hval.
  { intros q fd'. destruct (decide (q = p)) as [->|]; [rewrite lookup_insert_eq|rewrite lookup_insert_ne by done]; naive_solver. }
  assert (forall q, pools w !! q <> Some (Some fd)) as Hfresh by (intros q Hq; apply Hn, Hfd; by exists q).
  split; fields; try done; try (setoid_rewrite Hdom; done).
  - intros fd'. setoid_rewrite Hval. rewrite elem_of_union, elem_of_singleton, Hfd. naive_solver.
  - intros q r fd' Hq%Hval Hr'%Hval. destruct Hq as [[-> ->]|Hq], Hr' as [[-> ?]|Hr']; try done; [by destruct (Hfresh r)|subst; by destruct (Hfresh q)|by apply (Hinj q r fd')].
  - destruct (runtime w) as [|q|q|q| | |]; try done; [rewrite lookup_insert_ne by congruence; done..|by rewrite Hdom].
Qed.

(** The new connection. *)
Lemma accept_connection w p (launched : bool) : inv w -> runtime w = RAccept p ->
  inv (with_runtime RTest (with_tpools ({[p]} ∪ tpools w) (with_conns (<[p := Conn true false (if launched then CNew else CNone)]> (conns w)) w))).
Proof.
  intros Hi Hr. open_inv Hi. rewrite Hr in *. destruct Hrt as (Hp & Hnr & Hnc & Hp1). set (c := Conn _ _ _).
  assert (p ∉ tpools w) as Ht0 by (intros H%Htconn; rewrite Hnc in H; by destruct H).
  assert (~ listed (c_pc c) /\ holds (c_pc c) /\ tholds (c_pc c) /\ ~ uses (c_pc c) /\ cnt (c_pc c) = 0) as (Hl & Hh & Ht & Hu & Hz) by (subst c; destruct launched; cbn; tauto).
  assert (p ∉ trecycled w) as Htr by (intros H; by apply Ht0, Htrec).
  split; fields; try done.
  - split; [lia|]. intros q [Hq|Hq]; apply Hrange; [by left|]. destruct (decide (q = p)) as [->|]; [left; by rewrite Hp|]. right. by rewrite lookup_insert_ne in Hq.
  - intros q Hq. apply elem_of_union. right. by apply Htrec.
  - intros q cq. destruct (decide (q = p)) as [->|Hne].
    + rewrite lookup_insert_eq. intros [= <-]. split_and!; [done|done|done|]. intros _. split; [|done]. apply elem_of_union. left. by apply elem_of_singleton.
    + rewrite lookup_insert_ne by done. intros Hc. destruct (Hconn q cq Hc) as (Ha & Hb & Hd & He). split_and!; [done..|]. intros H. destruct (He H). split; [|done]. apply elem_of_union. by right.
  - destruct Hlist as [Hnd Hin]. split; [done|]. intros q. rewrite Hin. destruct (decide (q = p)) as [->|Hne]; [|by rewrite lookup_insert_ne].
    rewrite lookup_insert_eq, Hnc. naive_solver.
  - unfold total in *. rewrite sum_fresh by done. lia.
  - intros _. by apply Hfirst.
  - destruct (lsock w); naive_solver.
  - intros q Hq. destruct (Howner q Hq) as [H|[[-> _]|[H|[[= ->]|(cq & Hcq & H)]]]]; [tauto|right; left; done|done| |].
    + right; right; right; right. rewrite lookup_insert_eq. by exists c.
    + right; right; right; right. rewrite lookup_insert_ne by (intros ->; congruence). by exists cq.
  - intros q [->%elem_of_singleton|Hq]%elem_of_union; [right; rewrite lookup_insert_eq; by exists c|].
    destruct (Htowner q Hq) as [H|(cq & Hcq & H)]; [by left|right]. rewrite lookup_insert_ne by (intros ->; congruence). by exists cq.
  - intros q [->%elem_of_singleton|Hq]%elem_of_union; [by rewrite lookup_insert_eq|]. destruct (decide (q = p)) as [->|]; [by rewrite lookup_insert_eq|]. rewrite lookup_insert_ne by done. by apply Htconn.
Qed.

Lemma create_pool_inv w : inv w -> runtime w = RTest -> done w = false ->
  inv (with_runtime (RLoad (next_pool w)) (with_next (next_pool w + 1) (with_pools (<[next_pool w := None]> (pools w)) w))).
Proof.
  intros Hi Hr Hd. open_inv Hi. rewrite Hr in *. destruct Hrange as [Hr2 Hlt].
  assert (pools w !! next_pool w = None) as Hn.
  { destruct (pools w !! next_pool w) eqn:E; [|done]. assert (next_pool w < next_pool w) by (apply Hlt; left; by rewrite E). lia. }
  assert (conns w !! next_pool w = None) as Hnc.
  { destruct (conns w !! next_pool w) eqn:E; [|done]. assert (next_pool w < next_pool w) by (apply Hlt; right; by rewrite E). lia. }
  assert (forall q, is_Some (pools w !! q) -> is_Some (<[next_pool w := None]> (pools w) !! q)) as Hdom.
  { intros q Hq. destruct (decide (q = next_pool w)) as [->|]; [by rewrite lookup_insert_eq|by rewrite lookup_insert_ne]. }
  assert (forall q fd, <[next_pool w := None]> (pools w) !! q = Some (Some fd) <-> pools w !! q = Some (Some fd)) as Hval.
  { intros q fd. destruct (decide (q = next_pool w)) as [->|]; [rewrite lookup_insert_eq, Hn; done|by rewrite lookup_insert_ne]. }
  assert (next_pool w ∉ recycled w) as Hnr by (intros H%Hrec; rewrite Hn in H; by destruct H).
  split; fields; try done.
  - split; [lia|]. intros q Hq. destruct (decide (q = next_pool w)) as [->|]; [lia|]. assert (q < next_pool w); [|lia]. apply Hlt. by rewrite lookup_insert_ne in Hq.
  - intros fd. setoid_rewrite Hval. apply Hfd.
  - intros q r fd Hq%Hval Hr'%Hval. by apply (Hinj q r fd).
  - intros q Hq. by apply Hdom, Hrec.
  - intros q c Hc. destruct (Hconn q c Hc) as (Ha & Hb & Hc' & He). split_and!; [done| |by intros H; apply Hdom, Hc'|done].
    intros H. split; [by apply Hdom, Hb|by apply Hb].
  - rewrite lookup_insert_eq. split_and!; [done|done|done|lia|]. destruct (lsock w); [done|congruence].
  - intros _. destruct Hfirst as [H1 H2]; [done|]. split; [by apply Hdom|done].
  - destruct (lsock w); [naive_solver|done].
  - intros q Hq. destruct (decide (q = next_pool w)) as [->|]; [tauto|]. rewrite lookup_insert_ne in Hq by done.
    destruct (Howner q Hq) as [H|[[-> _]|[H|[H|H]]]]; [tauto|right; left; done|done|done|tauto].
Qed.

Lemma sock_close_moved w p r q : sock_close p (with_runtime r (recycle q w)) = let! w := sock_close p w in Ok (with_runtime r (recycle q w)).
Proof. unfold sock_close, access. fields. destruct (pools w !! p) as [[fd|]|]; cbn [rbind]; [|done..]. by destruct (bool_decide _). Qed.

Lemma accept_conn_inv w p fd named launched : inv w -> runtime w = RAccept p -> exists w', accept_conn p fd named launched w = Ok w' /\ inv w'.
Proof.
  intros Hi Hr. unfold accept_conn. destruct (bool_decide_reflect (fd ∈ opened w)) as [|Hn]; [by eauto|].
  pose proof (i_rt w Hi) as Hrt. rewrite Hr in Hrt. destruct Hrt as (Hp & _ & Hnc & _). unfold access. rewrite Hp. cbn [rbind]. destruct named.
  - eexists. split; [done|]. pose proof (accept_connection w p launched Hi Hr) as H1.
    pose proof (accept_socket _ p fd H1) as H2. destruct w. by apply H2.
  - pose proof (recycle_accept w p (RForget p) Hi Hr (or_intror eq_refl)) as H1.
    assert (inv (with_runtime (RForget p) (recycle p (with_pools (<[p := Some fd]> (pools w)) (with_opened ({[fd]} ∪ opened w) w))))) as H2.
    { pose proof (accept_socket _ p fd H1) as H2. destruct w. by apply H2. }
    destruct (sock_close_inv _ p H2) as (ps & os & Hs & H3 & _); [fields; by rewrite lookup_insert_eq|].
    rewrite sock_close_moved in Hs. rewrite Hs. by eauto.
Qed.

Lemma runtime_step_inv w a : inv w -> exists w', runtime_step a w = Ok w' /\ inv w'.
Proof.
  intros Hi. unfold runtime_step. destruct (runtime w) as [|p|p|p| | |] eqn:Hr.
  - destruct (done w) eqn:Hd; eexists; (split; [done|]); [|by apply create_pool_inv].
    pose proof (listener_move w (lsock w) (done w) RClose (stop w) Hi) as H. open_inv Hi. rewrite Hr in *. destruct w; cbn in *. subst. apply H; clear H; try done.
    + destruct lsock0; naive_solver.
    + naive_solver.
  - pose proof (i_rt w Hi) as Hrt. rewrite Hr in Hrt. destruct Hrt as (Hp & Hnr & Hnc & Hp1 & Hl).
    pose proof (i_lsock w Hi) as Hls. destruct (lsock w) as [l|] eqn:El; [|done]. destruct Hls as (-> & _ & _).
    destruct (i_first w Hi) as [[d Hd] _]; [congruence|]. unfold access. rewrite Hd. cbn [rbind]. eexists. split; [done|].
    pose proof (listener_move w (lsock w) (done w) (RAccept p) (stop w) Hi) as H. open_inv Hi. rewrite Hr in *. destruct w; cbn in *. subst. apply H; clear H; try done.
    naive_solver.
  - destruct a as [|fd named launched]; [|by apply accept_conn_inv]. eexists. split; [done|]. apply recycle_accept; auto.
  - pose proof (i_rt w Hi) as Hrt. rewrite Hr in Hrt. destruct Hrt as ([d Hp] & Hnc). unfold access. rewrite Hp. cbn [rbind]. eexists. split; [done|].
    pose proof (listener_move w (lsock w) (done w) RTest (stop w) Hi) as H. open_inv Hi. rewrite Hr in *. destruct w; cbn in *. subst. apply H; clear H; try done.
    + destruct lsock0; naive_solver.
    + naive_solver.
  - assert (done w = true) as Hd by (pose proof (i_rt w Hi) as H; by rewrite Hr in H).
    destruct (close_listener_inv w Hi) as (ps & os & -> & Hi'); [congruence|congruence|done|]. cbn [rbind]. eexists. split; [done|].
    pose proof (listener_move _ None (done w) RFree (stop w) Hi') as H. open_inv Hi. rewrite Hr in *. destruct w; cbn in *. subst. apply H; clear H; try done.
    naive_solver.
  - eexists. split; [done|]. apply recycle_first; [done..|]. pose proof (i_lsock w Hi) as H. destruct (lsock w); [|done]. naive_solver.
  - by eauto.
Qed.

(** ** Events and shutdown *)

(** Only whether connections run and whether their sockets are open changes. *)
Definition same_places (w w' : world) : Prop :=
  connections w' = connections w /\ runtime w' = runtime w /\ lsock w' = lsock w /\ done w' = done w /\ stop w' = stop w /\
  forall q c, conns w !! q = Some c -> exists c', conns w' !! q = Some c' /\ c_pc c' = c_pc c.

Lemma kill_inv w p c : inv w -> conns w !! p = Some c -> is_Some (pools w !! p) ->
  exists w', kill p c w = Ok w' /\ inv w' /\ same_places w w'.
Proof.
  intros Hi Hc Hp. unfold kill.
  assert (inv (set_conn p (Conn (c_sock c) false (c_pc c)) w)) as H1.
  { pose proof (conn_goto w p c (Conn (c_sock c) false (c_pc c)) (threads w) Hi Hc) as H. destruct w. apply H; clear H; cbn; [lia|done..]. }
  assert (forall q c0, conns w !! q = Some c0 -> exists c', <[p := Conn (c_sock c) false (c_pc c)]> (conns w) !! q = Some c' /\ c_pc c' = c_pc c0) as Hpc.
  { intros q c0 Hq. destruct (decide (q = p)) as [->|]; [rewrite lookup_insert_eq|rewrite lookup_insert_ne by done; by eauto].
    eexists. split; [done|]. cbn. congruence. }
  destruct (c_sock c).
  - destruct (sock_close_inv _ p H1) as (ps & os & -> & H2 & _); [done|]. eexists. split; [done|]. split; [done|]. by split_and!.
  - eexists. split; [done|]. split; [done|]. by split_and!.
Qed.

Lemma visit_kill l : forall w, inv w -> (forall p, p ∈ l -> exists c, conns w !! p = Some c /\ listed (c_pc c)) ->
  exists w', visit kill l w = Ok w' /\ inv w' /\ same_places w w'.
Proof.
  induction l as [|p l IH]; intros w Hi Hl; cbn [visit].
  - exists w. split; [done|]. split; [done|]. split_and!; [done..|]. intros q c Hq. by exists c.
  - destruct (Hl p) as (c & Hc & Hlc); [left|]. destruct (conn_access w p c Hi Hc) as [d Hd]; [left; by destruct (c_pc c)|]. rewrite Hd, Hc. cbn [rbind].
    destruct (kill_inv w p c Hi Hc) as (w1 & -> & Hi1 & Hs1); [unfold access in Hd; by destruct (pools w !! p)|]. cbn [rbind].
    destruct Hs1 as (E1 & E2 & E3 & E4 & E5 & Hpc).
    destruct (IH w1 Hi1) as (w2 & -> & Hi2 & F1 & F2 & F3 & F4 & F5 & Hpc2).
    { intros q Hq. destruct (Hl q) as (cq & Hcq & Hlq); [by right|]. destruct (Hpc q cq Hcq) as (c' & ? & E). exists c'. by rewrite E. }
    exists w2. split; [done|]. split; [done|]. unfold same_places. split_and!; [congruence..|]. intros q cq Hq.
    destruct (Hpc q cq Hq) as (c1 & H1 & E). destruct (Hpc2 q c1 H1) as (c2 & H2 & E'). exists c2. split; [done|congruence].
Qed.

Lemma handle_event_inv w : inv w -> handle_event w = Ok w.
Proof.
  intros Hi. unfold handle_event. destruct (ready w); [|done]. destruct (i_list w Hi) as [_ Hin].
  assert (forall p, p ∈ connections w -> exists c, conns w !! p = Some c /\ listed (c_pc c)) as Hl by (intros p; apply Hin). clear Hin. revert Hl.
  generalize (connections w) as l. induction l as [|p l IH]; intros Hl; cbn [visit]; [done|].
  destruct (Hl p) as (c & Hc & Hlc); [left|]. destruct (conn_access w p c Hi Hc) as [d Hd]; [left; by destruct (c_pc c)|]. rewrite Hd, Hc. cbn [rbind].
  apply IH. intros q Hq. apply Hl. by right.
Qed.

Lemma stop_step_inv w : inv w -> (stop w = SClose -> about_to_accept w = false) -> exists w', stop_step w = Ok w' /\ inv w'.
Proof.
  intros Hi Hcalm. pose proof (i_stop w Hi) as Hs. unfold stop_step.
  assert (forall s w1, inv w1 -> done w1 = true -> inv (with_stop s w1)) as Hgo.
  { intros s w1 H1 Hd. pose proof (listener_move w1 (lsock w1) (done w1) (runtime w1) s H1) as H. open_inv H1. destruct w1; cbn in *. apply H; clear H; try done.
    - by destruct s.
    - tauto. }
  destruct (i_list w Hi) as [_ Hin].
  destruct (stop w) as [| | |n|] eqn:Es.
  - eexists. split; [done|]. apply Hgo; [|done].
    pose proof (listener_move w (lsock w) true (runtime w) (stop w) Hi) as H. open_inv Hi. destruct w; cbn in *. apply H; clear H; try done.
    + by destruct runtime0.
    + by destruct lsock0.
    + by destruct stop0.
    + tauto.
  - destruct (visit_kill (connections w) w Hi) as (w1 & E & H1 & _ & _ & _ & Ed & _); [intros p; apply Hin|].
    unfold kill_connections. rewrite E. cbn [rbind]. eexists. split; [done|]. apply Hgo; [done|congruence].
  - destruct (close_listener_inv w Hi) as (ps & os & -> & H1); [| |done|].
    + intros Hr. pose proof (i_lsock w Hi) as H. rewrite Hr in H. destruct (lsock w); naive_solver.
    + intros p Hr. specialize (Hcalm eq_refl). unfold about_to_accept in Hcalm. by rewrite Hr in Hcalm.
    + cbn [rbind]. eexists. split; [done|]. by apply Hgo.
  - destruct (_ =? 0); [eexists; split; [done|]; by apply Hgo|].
    destruct (visit_kill (connections w) w Hi) as (w1 & E & H1 & _ & _ & _ & Ed & _); [intros p; apply Hin|].
    unfold kill_connections. rewrite E. cbn [rbind]. eexists. split; [done|]. apply Hgo; [done|congruence].
  - by eauto.
Qed.

(** ** Interleavings *)

Lemma recycle_thread_inv w p : inv w -> p ∈ trecycled w -> inv (with_tpools (tpools w ∖ {[p]}) (with_trecycled (trecycled w ∖ {[p]}) w)).
Proof.
  intros Hi Hp. open_inv Hi. split; fields; try done.
  - intros q. rewrite !elem_of_difference. intros [Hq ?]. split; [by apply Htrec|done].
  - intros q c Hc. destruct (Hconn q c Hc) as (Ha & Hb & Hd & He). split_and!; [done..|]. intros H. destruct (He H) as [Hin Hnot].
    rewrite !elem_of_difference, elem_of_singleton. split; [|tauto]. split; [done|]. by intros ->.
  - intros q. rewrite !elem_of_difference. intros [Hq Hne]. destruct (Htowner q Hq); [by left|by right].
  - intros q [Hq _]%elem_of_difference. by apply Htconn.
Qed.

Lemma server_step_inv w a : inv w -> exists w', step true a w = Ok w' /\ inv w'.
Proof.
  intros Hi. destruct a as [r|p go| | |p|p]; cbn [step andb].
  - by apply runtime_step_inv.
  - by apply conn_step_inv.
  - rewrite handle_event_inv by done. by eauto.
  - destruct (stop w) eqn:Es; try (apply stop_step_inv; [done|congruence]).
    destruct (about_to_accept w) eqn:Ea; [by eauto|by apply stop_step_inv].
  - case_bool_decide as Hp; [|by eauto]. destruct (still_used p w) eqn:Eu; [by eauto|by apply destroy_inv].
  - case_bool_decide as Hp; [|by eauto]. rewrite bool_decide_eq_true_2 by by apply (i_trec w Hi). eexists. split; [done|]. by apply recycle_thread_inv.
Qed.

Lemma server_run_inv acts : forall w, inv w -> exists w', run true acts w = Ok w' /\ inv w'.
Proof.
  induction acts as [|a acts IH]; intros w Hi; cbn [run]; [by eauto|].
  destruct (server_step_inv w a Hi) as (w1 & -> & Hi1). cbn [rbind]. by apply IH.
Qed.

(** Nothing is left but the connections whose thread was not created. *)
Lemma ended_clean w : inv w -> ended w ->
  connections w = [] /\ threads w = 0 /\ (forall p, is_Some (pools w !! p) <-> stranded p w) /\ (forall p, p ∈ tpools w <-> stranded p w).
Proof.
  intros Hi (Hr & Hrec0 & Htrec0 & Hend). open_inv Hi. split_and!.
  - destruct (connections w) as [|p l] eqn:E; [done|]. destruct (proj1 (proj2 Hlist p)) as (c & Hc & Hl); [left|]. by destruct (Hend p c Hc) as [H|H]; rewrite H in Hl.
  - rewrite Hthreads. clear -Hend. revert Hend. induction (conns w) as [|p c m Hm IH] using map_ind; intros Hend; [done|].
    unfold total in *. rewrite sum_fresh by done. rewrite IH.
    + by destruct (Hend p c) as [->| ->]; [apply lookup_insert_eq|..].
    + intros q cq Hq. apply (Hend q). rewrite lookup_insert_ne; [done|]. intros ->. congruence.
  - intros p. split.
    + intros Hp. destruct (Howner p Hp) as [H|[[_ H]|[H|[H|(c & Hc & Hh)]]]]; [set_solver|congruence..|]. exists c. split; [done|]. by destruct (Hend p c Hc) as [E|E]; rewrite E in Hh.
    + intros (c & Hc & E). destruct (Hconn p c Hc) as (_ & Hh & _). apply Hh. by rewrite E.
  - intros p. split.
    + intros Hp. destruct (Htowner p Hp) as [H|(c & Hc & Hh)]; [set_solver|]. exists c. split; [done|]. by destruct (Hend p c Hc) as [E|E]; rewrite E in Hh.
    + intros (c & Hc & E). destruct (Hconn p c Hc) as (_ & _ & _ & Hh). apply Hh. by rewrite E.
Qed.

(** C16: However the thread that accepts, the threads of the connections, the
    delivery of events, the shutdown and the destruction of pools interleave, as
    long as they do not get between giving up a pool and the last use of what is
    in it, nor between the test of the accept loop and its use of the listening
    socket: nothing is used after it was freed, no descriptor is closed twice,
    every open descriptor belongs to exactly one socket, the list holds each
    connection whose thread is between its entry and its exit once, and
    [threads] counts them.  When all threads have ended and the pools are
    destroyed, the only descriptors left open are those of connections whose
    thread could not be created. *)
Theorem event_server_sound fd acts :
  exists w, run true acts (start_listening (Listening fd)) = Ok w /\
    (forall d, d ∈ opened w <-> exists p, pools w !! p = Some (Some d)) /\
    (forall p q d, pools w !! p = Some (Some d) -> pools w !! q = Some (Some d) -> p = q) /\
    NoDup (connections w) /\ (forall p, p ∈ connections w <-> exists c, conns w !! p = Some c /\ listed (c_pc c)) /\
    threads w = total (conns w) /\
    (ended w -> connections w = [] /\ threads w = 0 /\ forall d, d ∈ opened w -> exists p, stranded p w /\ pools w !! p = Some (Some d)).
Proof.
  destruct (server_run_inv acts _ (start_inv fd)) as (w & Hr & Hi). exists w. open_inv Hi. destruct Hlist as [Hnd Hin].
  split_and!; [done..|]. intros He. destruct (ended_clean w Hi He) as (H1 & H2 & H3 & _). split_and!; [done..|].
  intros d (p & Hp)%Hfd. exists p. split; [|done]. apply H3. by rewrite Hp.
Qed.
