(* ===== verification/EventServerMain.v ===== *)
(** * The event socket as a server: shutdown, faults and configuration

    Once the shutdown has begun every thread of the module comes to its end;
    what goes wrong when threads get into the windows that [EventServer.v]
    names; and how the configuration is read. *)

From stdpp Require Import base gmap list fin_maps fin_sets relations strings.
From Stdlib Require Import ZArith Lia.
From S2P Require Import Prelude CString Event Utils Yaml EventServer EventServerProof.
Import Ev Yaml Srv.

(** ** The shutdown ends *)

(** How far the threads are from their ends. *)
Definition conn_rank (pc : conn_pc) : Z :=
  match pc with
  | CNew => 12 | CAdd => 11 | CLoop => 10 | CBye => 9 | CRemove => 8 | CClose => 7 | CFree => 6 | CForget => 4 | CForget2 => 2 | CDec => 1
  | CDone | CNone => 0
  end.
Definition rt_rank (r : rt_pc) : Z :=
  match r with RLoad _ => 18 | RAccept _ => 17 | RForget _ => 5 | RTest => 4 | RClose => 3 | RFree => 2 | RDone => 0 end.
Definition stop_rank (s : stop_pc) : Z :=
  match s with SIdle => 204 | SKill => 203 | SClose => 202 | SWait n => 1 + Z.of_nat (200 - n) | SEnd => 0 end.

Definition measure (w : world) : Z :=
  rt_rank (runtime w) + stop_rank (stop w) + sum_conns conn_rank (conns w) + Z.of_nat (size (recycled w)) + Z.of_nat (size (trecycled w)).

Lemma sum_nonneg m : 0 <= sum_conns conn_rank m.
Proof.
  induction m as [|p c m Hm IH] using map_ind; [done|]. rewrite sum_fresh by done. assert (0 <= conn_rank (c_pc c)) by (by destruct (c_pc c)). lia.
Qed.
Lemma measure_nonneg w : 0 <= measure w.
Proof.
  unfold measure. pose proof (sum_nonneg (conns w)). assert (0 <= rt_rank (runtime w)) by (by destruct (runtime w)).
  assert (0 <= stop_rank (stop w)) by (destruct (stop w); cbn; lia). lia.
Qed.

Lemma size_add (p : Z) (X : gset Z) : (size ({[p]} ∪ X) <= 1 + size X)%nat.
Proof. rewrite size_union_alt, size_singleton. assert (size (X ∖ {[p]}) <= size X)%nat by (apply subseteq_size; set_solver). lia. Qed.
Lemma size_remove (p : Z) (X : gset Z) : p ∈ X -> (size (X ∖ {[p]}) < size X)%nat.
Proof. intros Hp. apply subset_size. set_solver. Qed.

(** What closing a socket leaves alone. *)
Lemma sock_close_keeps p w w' : sock_close p w = Ok w' -> measure w' = measure w /\ done w' = done w /\ conns w' = conns w /\ recycled w' = recycled w /\
  runtime w' = runtime w /\ stop w' = stop w /\ trecycled w' = trecycled w.
Proof.
  unfold sock_close, access. destruct (pools w !! p) as [[fd|]|]; cbn [rbind]; [|by intros [= <-]|done].
  destruct (bool_decide _); [|done]. by intros [= <-].
Qed.

Lemma close_listener_keeps w w' : close_listener w = Ok w' -> measure w' = measure w /\ done w' = done w /\ runtime w' = runtime w /\ stop w' = stop w.
Proof.
  unfold close_listener. destruct (lsock w) as [l|]; [|by intros [= <-]]. unfold sock_close, access.
  destruct (pools w !! l) as [[fd|]|]; cbn [rbind]; [|by intros [= <-]|done]. destruct (bool_decide _); [|done]. by intros [= <-].
Qed.

Lemma visit_kill_keeps l : forall w w', visit kill l w = Ok w' -> measure w' = measure w /\ done w' = done w /\ stop w' = stop w.
Proof.
  induction l as [|p l IH]; intros w w'; cbn [visit]; [by intros [= <-]|].
  unfold access. destruct (pools w !! p) as [d|]; [|done]. cbn [rbind]. destruct (conns w !! p) as [c|] eqn:Hc; [|done].
  intros (w1 & H1 & H2)%rbind_inv. destruct (IH _ _ H2) as (E1 & E2 & E3). rewrite E1, E2, E3. clear IH H2 E1 E2 E3. unfold kill in H1.
  assert (measure (set_conn p (Conn (c_sock c) false (c_pc c)) w) = measure w) as Em.
  { unfold measure. fields. rewrite (sum_insert _ _ _ _ _ Hc). cbn. lia. }
  destruct (c_sock c).
  - unfold sock_close, access in H1. cbn [pools set_conn with_conns] in H1. destruct (pools w !! p) as [[fd|]|]; cbn [rbind] in H1; [|injection H1 as <-; done|done].
    destruct (bool_decide _); [|done]. injection H1 as <-. done.
  - injection H1 as <-. done.
Qed.

(** One step of the system that changes something. *)
Definition changes (w w' : world) : Prop := exists a, step true a w = Ok w' /\ w' <> w.

Lemma goto_measure w p c c' w1 : conns w !! p = Some c -> conns w1 = <[p := c']> (conns w) -> runtime w1 = runtime w -> stop w1 = stop w ->
  measure w1 = measure w - conn_rank (c_pc c) + conn_rank (c_pc c') + (Z.of_nat (size (recycled w1)) - Z.of_nat (size (recycled w)))
    + (Z.of_nat (size (trecycled w1)) - Z.of_nat (size (trecycled w))).
Proof. intros Hc E1 E2 E3. unfold measure. rewrite E1, E2, E3, (sum_insert _ _ _ _ _ Hc). lia. Qed.

Ltac moved p w Hc Hpc := erewrite goto_measure; [|exact Hc|fields; reflexivity|done|done]; fields; rewrite Hpc; cbn [conn_rank];
  try pose proof (size_add p (recycled w)); try pose proof (size_add p (trecycled w)); lia.

Lemma close_conn_measure w p c w' : done w = true -> conns w !! p = Some c -> c_pc c = CClose -> close_conn p c w = Ok w' -> done w' = true /\ (w' = w \/ measure w' < measure w).
Proof.
  intros Hd Hc Hpc. unfold close_conn. intros (d & _ & H)%rbind_inv. destruct (c_sock c).
  - apply rbind_inv in H as (w1 & H1 & [= <-]). destruct (sock_close_keeps _ _ _ H1) as (E1 & E2 & E3 & E4 & F1 & F2 & F3). split; [fields; congruence|]. right.
    rewrite <- E1. rewrite <- E3 in Hc. moved p w1 Hc Hpc.
  - injection H as <-. split; [done|]. right. moved p w Hc Hpc.
Qed.

Lemma conn_step_measure w p go w' : done w = true -> conn_step p go w = Ok w' -> done w' = true /\ (w' = w \/ measure w' < measure w).
Proof.
  intros Hd. unfold conn_step. destruct (conns w !! p) as [c|] eqn:Hc; [|intros [= <-]; auto].
  destruct (c_pc c) eqn:Hpc; try (intros [= <-]; by auto); try (apply close_conn_measure; done);
    try (unfold access; destruct (pools w !! p); [cbn [rbind]|done]); try (rewrite Hd; cbn [negb andb]); intros [= <-]; (split; [done|]); right; moved p w Hc Hpc.
Qed.

Lemma accept_conn_measure w p fd named launched w' : inv w -> runtime w = RAccept p -> done w = true ->
  accept_conn p fd named launched w = Ok w' -> done w' = true /\ (w' = w \/ measure w' < measure w).
Proof.
  intros Hi Hr Hd. pose proof (i_rt w Hi) as Hrt. rewrite Hr in Hrt. destruct Hrt as (Hp & _ & Hnc & _). unfold accept_conn.
  destruct (bool_decide (fd ∈ opened w)); [intros [= <-]; auto|]. unfold access. rewrite Hp. cbn [rbind]. destruct named.
  - intros [= <-]. split; [done|]. right. unfold measure. fields. rewrite Hr, sum_fresh by done. cbn [rt_rank c_pc].
    assert (conn_rank (if launched then CNew else CNone) <= 12) by (destruct launched; cbn; lia). lia.
  - intros (w1 & H1 & [= <-])%rbind_inv. destruct (sock_close_keeps _ _ _ H1) as (E1 & E2 & E3 & E4 & F1 & F2 & F3). split; [fields; by rewrite E2|]. right.
    unfold measure. fields. rewrite F2, F3, E3, E4. fields. rewrite Hr. cbn [rt_rank]. pose proof (size_add p (recycled w)). lia.
Qed.

Lemma runtime_step_measure w a w' : inv w -> done w = true -> runtime_step a w = Ok w' -> done w' = true /\ (w' = w \/ measure w' < measure w).
Proof.
  intros Hi Hd. unfold runtime_step. destruct (runtime w) as [|p|p|p| | |] eqn:Hr.
  - rewrite Hd. intros [= <-]. split; [done|]. right. unfold measure. fields. rewrite Hr. cbn [rt_rank]. lia.
  - destruct (lsock w); [|done]. intros (d & _ & [= <-])%rbind_inv. split; [done|]. right. unfold measure. fields. rewrite Hr. cbn [rt_rank]. lia.
  - destruct a as [|fd named launched]; [|by apply accept_conn_measure]. intros [= <-]. split; [done|]. right. unfold measure. fields. rewrite Hr. cbn [rt_rank].
    pose proof (size_add p (recycled w)). lia.
  - intros (d & _ & [= <-])%rbind_inv. split; [done|]. right. unfold measure. fields. rewrite Hr. cbn [rt_rank]. lia.
  - intros (w1 & H1 & [= <-])%rbind_inv. destruct (close_listener_keeps _ _ H1) as (E1 & E2 & E3 & _). split; [fields; congruence|]. right.
    rewrite <- E1. unfold measure. fields. rewrite E3, Hr. cbn [rt_rank]. lia.
  - intros [= <-]. split; [done|]. right. unfold measure. fields. rewrite Hr. cbn [rt_rank]. pose proof (size_add 1 (recycled w)). lia.
  - intros [= <-]. auto.
Qed.

Lemma stop_step_measure w w' : done w = true -> stop_step w = Ok w' -> done w' = true /\ (w' = w \/ measure w' < measure w).
Proof.
  intros Hd. unfold stop_step. destruct (stop w) as [| | |n|] eqn:Es.
  - intros [= <-]. split; [done|]. right. unfold measure. fields. rewrite Es. cbn [stop_rank]. lia.
  - intros (w1 & H1 & [= <-])%rbind_inv. destruct (visit_kill_keeps _ _ _ H1) as (E1 & E2 & E3). split; [fields; congruence|]. right.
    rewrite <- E1. unfold measure. fields. rewrite E3, Es. cbn [stop_rank]. lia.
  - intros (w1 & H1 & [= <-])%rbind_inv. destruct (close_listener_keeps _ _ H1) as (E1 & E2 & _ & E3). split; [fields; congruence|]. right.
    rewrite <- E1. unfold measure. fields. rewrite E3, Es. cbn [stop_rank]. lia.
  - destruct (_ =? 0).
    + intros [= <-]. split; [done|]. right. unfold measure. fields. rewrite Es. cbn [stop_rank]. lia.
    + intros (w1 & H1 & H2)%rbind_inv. assert (w' = with_stop (if (200 <=? S n)%nat then SEnd else SWait (S n)) w1) as -> by congruence. clear H2.
      destruct (visit_kill_keeps _ _ _ H1) as (E1 & E2 & E3). split; [cbn [done with_stop]; congruence|]. right.
      assert (stop_rank (if (200 <=? S n)%nat then SEnd else SWait (S n)) < stop_rank (SWait n)) as Hs by (destruct (Nat.leb_spec 200 (S n)); cbn [stop_rank]; lia).
      revert Hs. generalize (if (200 <=? S n)%nat then SEnd else SWait (S n)) as s'. intros s' Hs. rewrite <- E1. unfold measure. fields. rewrite E3, Es. lia.
  - intros [= <-]. auto.
Qed.

Lemma step_measure w a w' : inv w -> done w = true -> step true a w = Ok w' -> done w' = true /\ (w' = w \/ measure w' < measure w).
Proof.
  intros Hi Hd. destruct a as [r|p go| | |p|p]; cbn [step andb].
  - by apply runtime_step_measure.
  - by apply conn_step_measure.
  - rewrite handle_event_inv by done. intros [= <-]. auto.
  - destruct (stop w); try by apply stop_step_measure. destruct (about_to_accept w); [intros [= <-]; auto|by apply stop_step_measure].
  - case_bool_decide as Hp; [|intros [= <-]; auto]. destruct (still_used p w); [intros [= <-]; auto|]. unfold destroy.
    intros (w1 & H1 & [= <-])%rbind_inv. destruct (sock_close_keeps _ _ _ H1) as (E1 & E2 & E3 & E4 & F1 & F2 & F3). split; [fields; congruence|]. right.
    rewrite <- E1. unfold measure. fields. rewrite E4. pose proof (size_remove p (recycled w) Hp). lia.
  - case_bool_decide as Hp; [|intros [= <-]; auto]. destruct (bool_decide _); [|done]. intros [= <-]. split; [done|]. right.
    unfold measure. fields. pose proof (size_remove p (trecycled w) Hp). lia.
Qed.

Lemma ok_field {A B} (f : A -> B) a b : Ok a = Ok b -> f a = f b.
Proof. by intros [= ->]. Qed.

(** A state in which not everything has ended has a step that changes it. *)
Lemma unless_ended w : inv w -> done w = true -> ended w \/ exists w', changes w w'.
Proof.
  intros Hi Hd.
  assert (forall a, (forall w', step true a w = Ok w' -> w' <> w) -> exists w', changes w w') as Hact.
  { intros a Ha. destruct (server_step_inv w a Hi) as (w' & H & _). exists w', a. auto. }
  destruct (decide (runtime w = RDone)) as [Hr|Hr].
  2:{ right. apply (Hact (Runtime Refused)). cbn [step]. unfold runtime_step. rewrite Hd.
      intros w' Hw ->. revert Hw. destruct (runtime w) as [|p|p|p| | |] eqn:E; try done.
      - intros H%(ok_field runtime). cbn in H. congruence.
      - destruct (lsock w); [|done]. intros (d & _ & H)%rbind_inv. apply (ok_field runtime) in H. cbn in H. congruence.
      - intros H%(ok_field runtime). cbn in H. congruence.
      - intros (d & _ & H)%rbind_inv. apply (ok_field runtime) in H. cbn in H. congruence.
      - intros (d & _ & H)%rbind_inv. apply (ok_field runtime) in H. cbn in H. congruence.
      - intros H%(ok_field runtime). cbn in H. congruence. }
  destruct (decide (map_Forall (fun _ c => c_pc c = CDone \/ c_pc c = CNone) (conns w))) as [Hc|Hc].
  2:{ right. apply map_not_Forall in Hc as (p & c & Hc & Hn); [|apply _]. apply (Hact (Connection p false)). cbn [step]. intros w' Hw ->.
      unfold conn_step in Hw. rewrite Hc in Hw. revert Hw. destruct (c_pc c) eqn:Hpc; try tauto; rewrite ?andb_false_r; unfold close_conn.
      all: try (intros (d & _ & H)%rbind_inv; revert H).
      all: try (destruct (c_sock c); [intros (w1 & _ & H)%rbind_inv; revert H|]).
      all: intros H%(ok_field (fun w => conns w !! p)); cbn [conns goto set_conn with_conns] in H; rewrite lookup_insert_eq, Hc in H; injection H as H; rewrite <- H in Hpc; done. }
  destruct (decide (recycled w = ∅)) as [Hrec|[p Hp]%set_choose_L].
  2:{ right. apply (Hact (Recycle p)). cbn [step andb]. rewrite bool_decide_eq_true_2 by done.
      assert (still_used p w = false) as ->.
      { unfold still_used. rewrite Hr. rewrite (bool_decide_eq_false_2 (RDone = RForget p)), orb_false_r by done.
        destruct (conns w !! p) as [c|] eqn:E; [|done]. apply bool_decide_eq_false. destruct (Hc p c E) as [->| ->]; intros [?|?]; done. }
      intros w' (w1 & H1 & [= <-])%rbind_inv H%(f_equal recycled). cbn in H. set_solver. }
  destruct (decide (trecycled w = ∅)) as [Htrec|[p Hp]%set_choose_L].
  2:{ right. apply (Hact (RecycleThread p)). cbn [step]. rewrite bool_decide_eq_true_2 by done. intros w'. destruct (bool_decide _); [|done].
      intros [= <-] H%(f_equal trecycled). cbn in H. set_solver. }
  left. split_and!; [done..|]. intros p c E. by apply (Hc p).
Qed.

Lemma changes_inv w w' : inv w -> done w = true -> changes w w' -> inv w' /\ done w' = true /\ measure w' < measure w.
Proof.
  intros Hi Hd (a & Ha & Hne). destruct (step_measure w a w' Hi Hd Ha) as (Hd' & [->|Hm]); [done|].
  destruct (server_step_inv w a Hi) as (w1 & H1 & Hi1). rewrite Ha in H1. injection H1 as <-. done.
Qed.



(** ** Faults *)

(** The windows.  The pool thread destroys the pool of a connection before
    [release_connection] has cleared the pointer to it, which lies in the pool;
    the shutdown closes the listener between the test of the accept loop and
    the call of [accept]; and, without any race, when the address cannot be
    bound the listener keeps its socket although the pool is destroyed, and the
    shutdown closes it. *)
Theorem event_server_faults :
  run false (Runtime Refused :: Runtime Refused :: Runtime (Accepted 7 true true) :: replicate 7 (Connection 2 false) ++ [Recycle 2; Connection 2 false])
    (start_listening (Listening 3)) = Fault BadPointer /\
  run false [Runtime Refused; Stop; Stop; Stop; Runtime Refused] (start_listening (Listening 3)) = Fault BadPointer /\
  run true [Recycle 1; Stop; Stop; Stop] (start_listening (NoBind 3)) = Fault BadPointer.
Proof. split_and!; vm_compute; reflexivity. Qed.

(** ** Configuration *)

(** Which setting a key stands for: one that is not known stands for the
    setting of the key before it. *)
Definition key_of (k : cstr) (old : cfg_key) : cfg_key :=
  if bool_decide (k = bytes_of "ip") then EVENTSOCKET_KEY_IP else if bool_decide (k = bytes_of "port") then EVENTSOCKET_KEY_PORT else old.

(** The address and the port a list of entries gives. *)
Fixpoint settings (es : list (cstr * cstr)) (key : cfg_key) (a : cstr) (n : Z) : cstr * Z :=
  match es with
  | [] => (a, n)
  | (k, v) :: es' =>
      match key_of k key with
      | EVENTSOCKET_KEY_IP => settings es' EVENTSOCKET_KEY_IP v n
      | EVENTSOCKET_KEY_PORT => settings es' EVENTSOCKET_KEY_PORT a (wrap 16 (Utils.agc_atoui v))
      | EVENTSOCKET_KEY_UNKOWN => settings es' EVENTSOCKET_KEY_UNKOWN a n
      end
  end.

Lemma cfg_steps es : forall key a rest n b, length (a ++ 0 :: rest) = Z.to_nat 64 -> Forall (fun kv => (length kv.2 < Z.to_nat 64)%nat) es ->
  exists b' key' rest', steps cfg_step (ProfileCfg b key (a ++ 0 :: rest) n) (es ≫= fun kv => entry kv.1 kv.2) =
    Ok (ProfileCfg b' key' ((settings es key a n).1 ++ 0 :: rest') (settings es key a n).2).
Proof.
  induction es as [|[k v] es IH]; intros key a rest n b Hl Hes; [by eexists _, _, _|]. apply Forall_cons in Hes as [Hv Hes]. cbn [snd] in Hv.
  cbn [mbind list_bind fst snd]. rewrite steps_app. cbn [entry steps cfg_step rbind iskey keytype ip port settings]. fold (key_of k key). destruct (key_of k key); cbn [rbind].
  - change 0%nat with (length (@nil Z)). pose proof (strcpy_fits [] (a ++ 0 :: rest) v ltac:(lia)) as Hs. cbn [app] in Hs. rewrite Hs. cbn [rbind]. apply IH; [|done].
    rewrite length_app. cbn [length]. rewrite length_drop. lia.
  - by apply IH.
  - by apply IH.
Qed.

(** The configuration of the event socket: the address and the port the file
    gives, the port modulo 65536. *)
Theorem event_socket_config es : Forall (fun kv => (length kv.2 < Z.to_nat 64)%nat) es ->
  exists rest, load_configuration (Some ((es ≫= fun kv => entry kv.1 kv.2) ++ [YAML_STREAM_END_TOKEN])) =
    Ok ((settings es EVENTSOCKET_KEY_UNKOWN [] 0).1 ++ 0 :: rest, (settings es EVENTSOCKET_KEY_UNKOWN [] 0).2, AGC_STATUS_SUCCESS).
Proof.
  intros Hes. unfold load_configuration. rewrite scan_steps.
  - destruct (cfg_steps es EVENTSOCKET_KEY_UNKOWN [] (replicate (Z.to_nat 63) 0) 0 false) as (b & key & rest & Hs); [done|done|].
    change (cfg_start) with (ProfileCfg false EVENTSOCKET_KEY_UNKOWN ([] ++ 0 :: replicate (Z.to_nat 63) 0) 0). rewrite Hs. cbn [rbind scan cfg_step ip port]. by exists rest.
  - clear Hes. induction es as [|[k v] es IH]; cbn [mbind list_bind]; [constructor|]. apply Forall_app. split; [by repeat constructor|done].
Qed.

(** The value of a key that is not known replaces the address before it. *)
Lemma event_socket_config_witness :
  exists rest, load_configuration (Some (([(bytes_of "ip", bytes_of "127.0.0.1"); (bytes_of "comment", bytes_of "local")] ≫= fun kv => entry kv.1 kv.2) ++ [YAML_STREAM_END_TOKEN])) =
    Ok (bytes_of "local" ++ 0 :: rest, 0, AGC_STATUS_SUCCESS).
Proof. apply (event_socket_config [(bytes_of "ip", bytes_of "127.0.0.1"); (bytes_of "comment", bytes_of "local")]). repeat constructor; vm_compute; lia. Defined.
