(* ===== verification/Hash.v ===== *)
(** * Hash tables

    [src/libs/apr/tables/apr_hash.c], which [agc_hash_*] of [src/src/agc_apr.c]
    stands for: an array of chains, whose size is a power of two and is doubled
    when there are more entries than chains.  A key is the bytes it points to
    ([APR_HASH_KEY_STRING] means those before the terminator), which the owner of
    the table does not change; a value is an address, and 0 is the null
    pointer.  A chain is the list of the entries that hang off one element of
    the array, and a pointer into it is its position. *)

From stdpp Require Import base gmap list fin_maps.
From Stdlib Require Import ZArith Lia.
From S2P Require Import Prelude CString.

Module Hash.

(** [apr_hash_entry_t] *)
Record entry := Entry { e_hash : Z; e_key : list Z; e_val : Z }.

(** [apr_hash_t]; [hash_func] is the function of [apr_hash_make_custom]. *)
Record apr_hash_t := HashT {
  array : list (list entry);
  count : Z;
  max : Z;
  seed : Z;
  hash_func : option (list Z -> Z);
  free : list entry }.

Definition with_array a h := HashT a (count h) (max h) (seed h) (hash_func h) (free h).
Definition with_count n h := HashT (array h) n (max h) (seed h) (hash_func h) (free h).
Definition with_free f h := HashT (array h) (count h) (max h) (seed h) (hash_func h) f.

Definition INITIAL_MAX : Z := 15.

Definition alloc_array (max : Z) : list (list entry) := replicate (Z.to_nat (wrap 32 (max + 1))) [].

Definition apr_hash_make (seed : Z) : apr_hash_t := HashT (alloc_array INITIAL_MAX) 0 INITIAL_MAX (wrap 32 seed) None [].
Definition apr_hash_make_custom (seed : Z) (f : list Z -> Z) : apr_hash_t := HashT (alloc_array INITIAL_MAX) 0 INITIAL_MAX (wrap 32 seed) (Some f) [].

(** ** Hash functions *)

Definition hashfunc_default (key : list Z) (hash : Z) : Z := foldl (fun h c => wrap 32 (h * 33 + c)) hash key.

Definition hash_of (h : apr_hash_t) (key : list Z) : Z :=
  match hash_func h with Some f => f key | None => hashfunc_default key (seed h) end.

(** ** Iteration *)

(** [apr_hash_index_t]: [this], the chain that [next] points to, and [index]. *)
Record apr_hash_index_t := Index { this : option entry; next : list entry; index : nat }.

(** The loop of [apr_hash_next]; [bs] are the chains from [index] on. *)
Fixpoint next_loop (max : Z) (bs : list (list entry)) (i : nat) : result (option apr_hash_index_t) :=
  if max <? Z.of_nat i then Ok None
  else
    match bs with
    | [] => Fault OutOfBounds
    | [] :: bs' => next_loop max bs' (S i)
    | (e :: l) :: _ => Ok (Some (Index (Some e) l (S i)))
    end.

Definition apr_hash_next (h : apr_hash_t) (hi : apr_hash_index_t) : result (option apr_hash_index_t) :=
  match next hi with
  | e :: l => Ok (Some (Index (Some e) l (index hi)))
  | [] => next_loop (max h) (drop (index hi) (array h)) (index hi)
  end.

Definition apr_hash_first (h : apr_hash_t) : result (option apr_hash_index_t) := apr_hash_next h (Index None [] 0).

(** ** Expanding *)

(** [array[i]], and an assignment to it. *)
Definition chain (a : list (list entry)) (i : Z) : result (list entry) :=
  match (if 0 <=? i then a !! Z.to_nat i else None) with Some l => Ok l | None => Fault OutOfBounds end.
Definition set_chain (a : list (list entry)) (i : Z) (l : list entry) : list (list entry) := <[Z.to_nat i := l]> a.

(** An entry becomes the first of its chain. *)
Definition push_entry (max : Z) (a : list (list entry)) (e : entry) : result (list (list entry)) :=
  let i := Z.land (e_hash e) max in
  let! l := chain a i in Ok (set_chain a i (e :: l)).

(** The loop of [expand_array]: the old array is not changed by it, and the next
    entry is known before the link of this one is overwritten. *)
Fixpoint expand_loop (fuel : nat) (h : apr_hash_t) (new_max : Z) (hi : option apr_hash_index_t) (a : list (list entry)) : result (list (list entry)) :=
  match hi with
  | None => Ok a
  | Some hi =>
      match this hi, fuel with
      | _, O => OutOfFuel
      | None, _ => Fault BadPointer
      | Some e, S fuel =>
          let! a := push_entry new_max a e in
          let! hi := apr_hash_next h hi in
          expand_loop fuel h new_max hi a
      end
  end.

Definition expand_array (fuel : nat) (h : apr_hash_t) : result apr_hash_t :=
  let new_max := wrap 32 (max h * 2 + 1) in
  let! hi := apr_hash_first h in
  let! a := expand_loop fuel h new_max hi (alloc_array new_max) in
  Ok (HashT a (count h) new_max (seed h) (hash_func h) (free h)).

(** ** Entries *)

(** The position of the entry of a key in its chain, or behind its end. *)
Fixpoint find_pos (hash : Z) (key : list Z) (l : list entry) : nat :=
  match l with
  | [] => 0
  | e :: l' => if (e_hash e =? hash) && bool_decide (e_key e = key) then 0 else S (find_pos hash key l')
  end.

(** [find_entry]: the table, the chain and the position in it. *)
Definition find_entry (h : apr_hash_t) (key : list Z) (val : Z) : result (apr_hash_t * Z * nat) :=
  let hash := hash_of h key in
  let i := Z.land hash (max h) in
  let! l := chain (array h) i in
  let pos := find_pos hash key l in
  match l !! pos with
  | Some _ => Ok (h, i, pos)
  | None =>
      if val =? 0 then Ok (h, i, pos)
      else Ok (HashT (set_chain (array h) i (l ++ [Entry hash key val])) (wrap 32 (count h + 1)) (max h) (seed h) (hash_func h) (tail (free h)), i, pos)
  end.

Definition apr_hash_get (h : apr_hash_t) (key : list Z) : result Z :=
  let! (h, i, pos) := find_entry h key 0 in
  let! l := chain (array h) i in
  Ok (match l !! pos with Some e => e_val e | None => 0 end).

Definition apr_hash_set (fuel : nat) (h : apr_hash_t) (key : list Z) (val : Z) : result apr_hash_t :=
  let! (h, i, pos) := find_entry h key val in
  let! l := chain (array h) i in
  match l !! pos with
  | None => Ok h
  | Some e =>
      if val =? 0 then
        Ok (with_count (wrap 32 (count h - 1)) (with_free (e :: free h) (with_array (set_chain (array h) i (take pos l ++ drop (S pos) l)) h)))
      else
        let h := with_array (set_chain (array h) i (<[pos := Entry (e_hash e) (e_key e) val]> l)) h in
        if max h <? count h then expand_array fuel h else Ok h
  end.

Definition apr_hash_count (h : apr_hash_t) : Z := count h.

(** The loop of [apr_hash_clear]. *)
Fixpoint clear_loop (fuel : nat) (h : apr_hash_t) (hi : option apr_hash_index_t) : result apr_hash_t :=
  match hi with
  | None => Ok h
  | Some hi =>
      match this hi, fuel with
      | _, O => OutOfFuel
      | None, _ => Fault BadPointer
      | Some e, S fuel =>
          let! h := apr_hash_set fuel h (e_key e) 0 in
          let! hi := apr_hash_next h hi in
          clear_loop fuel h hi
      end
  end.
Definition apr_hash_clear (fuel : nat) (h : apr_hash_t) : result apr_hash_t :=
  let! hi := apr_hash_first h in clear_loop fuel h hi.

(** [apr_hash_do]: the callback gets an accumulator, and says whether to go on. *)
Fixpoint do_loop {A} (comp : A -> list Z -> Z -> A * bool) (fuel : nat) (h : apr_hash_t) (hi : option apr_hash_index_t) (rec : A) : result (A * bool) :=
  match hi with
  | None => Ok (rec, true)
  | Some hi =>
      match this hi, fuel with
      | _, O => OutOfFuel
      | None, _ => Fault BadPointer
      | Some e, S fuel =>
          let (rec, rv) := comp rec (e_key e) (e_val e) in
          if rv then let! hi := apr_hash_next h hi in do_loop comp fuel h hi rec else Ok (rec, false)
      end
  end.
Definition apr_hash_do {A} (comp : A -> list Z -> Z -> A * bool) (fuel : nat) (h : apr_hash_t) (rec : A) : result (A * bool) :=
  let! hi := apr_hash_first h in do_loop comp fuel h hi rec.

(** ** Copying and merging *)

(** The entries are copied to new ones, chain by chain. *)
Definition apr_hash_copy (h : apr_hash_t) : apr_hash_t := HashT (array h) (count h) (max h) (seed h) (hash_func h) [].

(** The loop over the entries of [base]. *)
Fixpoint merge_base (es : list entry) (max : Z) (a : list (list entry)) : result (list (list entry)) :=
  match es with [] => Ok a | e :: es' => let! a := push_entry max a e in merge_base es' max a end.

(** The search of the merge, which compares the keys only. *)
Fixpoint merge_pos (key : list Z) (l : list entry) : nat :=
  match l with [] => 0 | e :: l' => if bool_decide (e_key e = key) then 0 else S (merge_pos key l') end.

(** One entry of [overlay]; [merger] gets the key and both values. *)
Definition merge_entry (merger : option (list Z -> Z -> Z -> Z)) (res : apr_hash_t) (e : entry) : result apr_hash_t :=
  let hash := hash_of res (e_key e) in
  let i := Z.land hash (max res) in
  let! l := chain (array res) i in
  let pos := merge_pos (e_key e) l in
  match l !! pos with
  | Some ent =>
      let v := match merger with Some f => f (e_key e) (e_val e) (e_val ent) | None => e_val e end in
      Ok (with_array (set_chain (array res) i (<[pos := Entry (e_hash ent) (e_key ent) v]> l)) res)
  | None => Ok (with_count (wrap 32 (count res + 1)) (with_array (set_chain (array res) i (Entry hash (e_key e) (e_val e) :: l)) res))
  end.

Fixpoint merge_overlay (merger : option (list Z -> Z -> Z -> Z)) (es : list entry) (res : apr_hash_t) : result apr_hash_t :=
  match es with [] => Ok res | e :: es' => let! res := merge_entry merger res e in merge_overlay merger es' res end.

Definition apr_hash_merge (merger : option (list Z -> Z -> Z -> Z)) (overlay base : apr_hash_t) : result apr_hash_t :=
  let m := if max base <? max overlay then max overlay else max base in
  let m := if m <? wrap 32 (count base + count overlay) then wrap 32 (m * 2 + 1) else m in
  let! a := merge_base (concat (array base)) m (alloc_array m) in
  merge_overlay merger (concat (array overlay)) (HashT a (count base) m (seed base) (hash_func base) []).

Definition apr_hash_overlay (overlay base : apr_hash_t) : result apr_hash_t := apr_hash_merge None overlay base.

End Hash.
