(* ===== verification/HashProof.v ===== *)
(** * Hash tables: proofs

    A table of [Hash.v] is a finite map from keys to values: every sequence of
    operations gives the results of the map, iteration visits every entry once,
    and no chain array is ever more than full. *)

From stdpp Require Import base gmap list fin_maps strings.
From Stdlib Require Import ZArith Lia.
From S2P Require Import Prelude CString Hash.
Import Hash.

(** ** What a table holds *)

Definition entries (h : apr_hash_t) : list entry := concat (array h).
Definition pair_of (e : entry) : list Z * Z := (e_key e, e_val e).
Definition map_of (es : list entry) : gmap (list Z) Z := list_to_map (pair_of <$> es).
Definition abs (h : apr_hash_t) : gmap (list Z) Z := map_of (entries h).

(** Every entry is in the chain of its hash. *)
Definition placed (m : Z) (a : list (list entry)) : Prop :=
  forall i l e, a !! i = Some l -> e ∈ l -> Z.land (e_hash e) m = Z.of_nat i.

(** The size is a power of two. *)
Definition sized (m : Z) (a : list (list entry)) : Prop :=
  (exists k, 4 <= k <= 31 /\ m = 2 ^ k - 1) /\ length a = Z.to_nat (m + 1).

Record wf (h : apr_hash_t) : Prop := Wf {
  wf_sized : sized (max h) (array h);
  wf_placed : placed (max h) (array h);
  wf_entries : Forall (fun e => e_hash e = hash_of h (e_key e) /\ e_val e <> 0) (entries h);
  wf_keys : NoDup (e_key <$> entries h);
  wf_count : count h = Z.of_nat (length (entries h));
  wf_func : (forall f, hash_func h = Some f -> forall k, 0 <= f k < 2 ^ 32) /\ 0 <= seed h < 2 ^ 32 }.

Lemma hash_of_range h key : wf h -> 0 <= hash_of h key < 2 ^ 32.
Proof.
  intros [_ _ _ _ _ [Hf Hs]]. unfold hash_of. destruct (hash_func h); [by apply Hf|]. unfold hashfunc_default. revert Hs. generalize (seed h).
  induction key as [|c key IH]; intros s Hs; cbn [foldl]; [done|]. apply IH. unfold wrap. apply Z.mod_pos_bound. lia.
Qed.

Lemma land_mask m a h : sized m a -> 0 <= h -> 0 <= Z.land h m <= m.
Proof.
  intros [(k & Hk & ->) _] Hh. rewrite Z.sub_1_r, <- Z.ones_equiv, Z.land_ones by lia.
  pose proof (Z.mod_pos_bound h (2 ^ k) ltac:(apply Z.pow_pos_nonneg; lia)). rewrite Z.ones_equiv. lia.
Qed.

(** The chain of a hash is there. *)
Lemma chain_there m a h : sized m a -> 0 <= h -> exists a1 l a2, a = a1 ++ l :: a2 /\ chain a (Z.land h m) = Ok l /\ Z.of_nat (length a1) = Z.land h m /\
  forall l', set_chain a (Z.land h m) l' = a1 ++ l' :: a2.
Proof.
  intros Hs Hh. pose proof (land_mask m a h Hs Hh) as Hb. destruct Hs as [_ Hl].
  destruct (lookup_lt_is_Some_2 a (Z.to_nat (Z.land h m))) as [l El]; [lia|].
  exists (take (Z.to_nat (Z.land h m)) a), l, (drop (S (Z.to_nat (Z.land h m))) a).
  pose proof (take_drop_middle _ _ _ El) as Ea. split; [done|]. unfold chain. rewrite (proj2 (Z.leb_le _ _)) by lia. rewrite El. split; [done|].
  assert (length (take (Z.to_nat (Z.land h m)) a) = Z.to_nat (Z.land h m)) as Et by (rewrite length_take; lia).
  split; [lia|]. intros l'. unfold set_chain. rewrite <- Ea at 1. rewrite insert_app_r_alt by lia. by rewrite Et, Nat.sub_diag.
Qed.

Lemma placed_set m a1 l a2 l' : placed m (a1 ++ l :: a2) -> (forall e, e ∈ l' -> e ∈ l \/ Z.land (e_hash e) m = Z.of_nat (length a1)) -> placed m (a1 ++ l' :: a2).
Proof.
  intros Hp Hl i x e Hi He. destruct (decide (i = length a1)) as [->|Hne].
  - rewrite list_lookup_middle in Hi by done. injection Hi as <-. destruct (Hl e He) as [H|H]; [|done]. apply (Hp _ l); [|done]. by rewrite list_lookup_middle.
  - apply (Hp i x); [|done]. rewrite lookup_app in Hi |- *. destruct (a1 !! i) eqn:E; [done|]. apply lookup_ge_None in E.
    destruct (i - length a1)%nat as [|n] eqn:En; [lia|done].
Qed.

Lemma sized_set m a1 l a2 l' : sized m (a1 ++ l :: a2) -> sized m (a1 ++ l' :: a2).
Proof. unfold sized. rewrite !length_app. cbn. tauto. Qed.

Lemma concat_middle (a1 : list (list entry)) l a2 : concat (a1 ++ l :: a2) ≡ₚ l ++ concat a1 ++ concat a2.
Proof. rewrite concat_app. cbn. by rewrite !app_assoc, (Permutation_app_comm l). Qed.

Lemma map_perm es1 es2 : NoDup (e_key <$> es1) -> es1 ≡ₚ es2 -> map_of es1 = map_of es2.
Proof.
  intros Hn Hp. unfold map_of. apply list_to_map_proper; [|by rewrite Hp]. rewrite <- list_fmap_compose. done.
Qed.

Lemma map_none es key : key ∉ (e_key <$> es) -> map_of es !! key = None.
Proof. intros H. apply not_elem_of_list_to_map_1. rewrite <- list_fmap_compose. done. Qed.

(** ** Finding *)

Lemma find_pos_spec f key l : Forall (fun e => e_hash e = f (e_key e)) l ->
  (exists l1 e l2, l = l1 ++ e :: l2 /\ find_pos (f key) key l = length l1 /\ e_key e = key /\ key ∉ (e_key <$> l1)) \/
  (find_pos (f key) key l = length l /\ key ∉ (e_key <$> l)).
Proof.
  induction l as [|e l IH]; intros Hl; cbn [find_pos]; [right; split; [done|set_solver]|]. apply Forall_cons in Hl as [He Hl].
  destruct (bool_decide_reflect (e_key e = key)) as [Hk|Hk].
  - left. exists [], e, l. rewrite He, Hk, Z.eqb_refl. split_and!; [done..|set_solver].
  - rewrite andb_false_r. destruct (IH Hl) as [(l1 & x & l2 & -> & E & Hx & Hn)|[E Hn]].
    + left. exists (e :: l1), x, l2. rewrite E. split_and!; [done..|]. cbn. set_solver.
    + right. rewrite E. split; [done|]. cbn. set_solver.
Qed.

(** An entry of a key is in the chain of the key and nowhere else. *)
Lemma key_in_chain h key a1 l a2 : wf h -> array h = a1 ++ l :: a2 -> Z.of_nat (length a1) = Z.land (hash_of h key) (max h) ->
  forall e, e ∈ entries h -> e_key e = key -> e ∈ l.
Proof.
  intros [_ Hp He _ _ _] Ea Hi e Hin Hk. unfold entries in *. rewrite Forall_forall in He. destruct (He e Hin) as [Hh _].
  apply list_elem_of_In, in_concat in Hin as (x & Hx & Hin). apply list_elem_of_In in Hx, Hin. apply list_elem_of_lookup in Hx as [i Hi'].
  pose proof (Hp i x e Hi' Hin) as E. rewrite Hh, Hk in E. assert (i = length a1) as -> by lia. rewrite Ea, list_lookup_middle in Hi' by done. by injection Hi' as <-.
Qed.

(** The state of [find_entry]: the chain of a key, and where the key is. *)
Lemma lookup_spec h key : wf h -> exists a1 l a2, array h = a1 ++ l :: a2 /\ chain (array h) (Z.land (hash_of h key) (max h)) = Ok l /\
  Z.of_nat (length a1) = Z.land (hash_of h key) (max h) /\ (forall l', set_chain (array h) (Z.land (hash_of h key) (max h)) l' = a1 ++ l' :: a2) /\
  Forall (fun e => e_hash e = hash_of h (e_key e)) l /\
  ((exists l1 e l2, l = l1 ++ e :: l2 /\ find_pos (hash_of h key) key l = length l1 /\ e_key e = key /\ abs h !! key = Some (e_val e)) \/
   (find_pos (hash_of h key) key l = length l /\ key ∉ (e_key <$> entries h) /\ abs h !! key = None)).
Proof.
  intros Hw. pose proof (hash_of_range h key Hw) as Hr. destruct (chain_there (max h) (array h) (hash_of h key) (wf_sized h Hw)) as (a1 & l & a2 & Ea & Ec & Ei & Es); [lia|].
  assert (Forall (fun e => e_hash e = hash_of h (e_key e)) l) as Hl.
  { pose proof (wf_entries h Hw) as He. unfold entries in He. rewrite Ea, concat_middle in He. apply Forall_app in He as [He _].
    eapply Forall_impl; [exact He|]. by intros e []. }
  exists a1, l, a2. split_and!; [done..|].
  destruct (find_pos_spec (hash_of h) key l Hl) as [(l1 & e & l2 & -> & E & Hk & _)|[E Hn]]; [left|right].
  - exists l1, e, l2. split_and!; [done..|]. unfold abs, map_of. apply elem_of_list_to_map_1.
    + rewrite <- list_fmap_compose. apply (wf_keys h Hw).
    + apply list_elem_of_fmap. exists e. split; [by unfold pair_of; rewrite Hk|]. unfold entries. rewrite Ea, concat_middle. set_solver.
  - assert (key ∉ (e_key <$> entries h)) as Hno.
    { intros (e & Hke & Hin)%list_elem_of_fmap. apply Hn. apply list_elem_of_fmap. exists e. split; [done|]. by apply (key_in_chain h key a1 l a2 Hw Ea Ei). }
    split_and!; [done..|]. by apply map_none.
Qed.

Lemma apr_hash_get_spec h key : wf h -> apr_hash_get h key = Ok (default 0 (abs h !! key)).
Proof.
  intros Hw. destruct (lookup_spec h key Hw) as (a1 & l & a2 & Ea & Ec & Ei & Es & _ & Hcase). unfold apr_hash_get, find_entry. rewrite Ec. cbn [rbind].
  destruct Hcase as [(l1 & e & l2 & -> & -> & Hk & ->)|(-> & Hn & ->)].
  - rewrite list_lookup_middle by done. cbn [rbind]. rewrite Ec. cbn [rbind]. by rewrite list_lookup_middle by done.
  - rewrite (lookup_ge_None_2 l) by done. cbn [Z.eqb rbind]. rewrite Ec. cbn [rbind]. by rewrite (lookup_ge_None_2 l).
Qed.

(** ** Iteration *)

(** What an iterator still visits, its own entry included. *)
Definition rest_of (h : apr_hash_t) (hi : option apr_hash_index_t) : list entry :=
  match hi with
  | None => []
  | Some hi => (match this hi with Some e => [e] | None => [] end) ++ next hi ++ concat (drop (index hi) (array h))
  end.

Definition on_entry (hi : option apr_hash_index_t) : Prop := match hi with Some hi => is_Some (this hi) | None => True end.

Lemma hash_next_loop_spec m bs : forall i, m + 1 = Z.of_nat (i + length bs) ->
  exists r, next_loop m bs i = Ok r /\ on_entry r /\
    match r with None => concat bs = [] | Some hi => exists e l n, hi = Index (Some e) l (S (i + n)) /\ concat bs = e :: l ++ concat (drop (S n) bs) /\ (n < length bs)%nat end.
Proof.
  induction bs as [|b bs IH]; intros i Hm; cbn [next_loop length] in *.
  - rewrite (proj2 (Z.ltb_lt _ _)) by lia. by exists None.
  - rewrite (proj2 (Z.ltb_ge _ _)) by lia. destruct b as [|e l].
    + destruct (IH (S i) ltac:(lia)) as (r & -> & Ho & Hr). exists r. split_and!; [done..|]. destruct r as [hi|]; [|done].
      destruct Hr as (e & l & n & -> & Hc & Hn). exists e, l, (S n). cbn [concat app drop length]. split_and!; [f_equal; lia|done|lia].
    + eexists. split_and!; [done|by eexists|]. exists e, l, 0%nat. split_and!; [f_equal; lia|done|cbn; lia].
Qed.

Lemma hash_next_spec h hi : length (array h) = Z.to_nat (max h + 1) -> 0 <= max h -> (index hi <= length (array h))%nat ->
  exists r, apr_hash_next h hi = Ok r /\ on_entry r /\ rest_of h r = next hi ++ concat (drop (index hi) (array h)) /\
    match r with Some hi' => (index hi' <= length (array h))%nat | None => True end.
Proof.
  intros Hl Hm Hi. unfold apr_hash_next. destruct (next hi) as [|e l] eqn:En.
  - destruct (hash_next_loop_spec (max h) (drop (index hi) (array h)) (index hi)) as (r & -> & Ho & Hr); [rewrite length_drop; lia|].
    exists r. split_and!; [done..| |]; destruct r as [hi'|]; try done.
    + destruct Hr as (e & l & n & -> & Hc & Hn). rewrite Hc, drop_drop. cbn [rest_of this next index app]. do 4 f_equal. lia.
    + destruct Hr as (e & l & n & -> & Hc & Hn). rewrite length_drop in Hn. cbn [index]. lia.
  - eexists. split_and!; [done|by eexists|done|done].
Qed.

Lemma first_spec h : sized (max h) (array h) -> exists r, apr_hash_first h = Ok r /\ on_entry r /\ rest_of h r = entries h /\
  match r with Some hi' => (index hi' <= length (array h))%nat | None => True end.
Proof.
  intros [(k & Hk & Hm) Hl]. assert (0 < 2 ^ k) by (apply Z.pow_pos_nonneg; lia).
  destruct (hash_next_spec h (Index None [] 0)) as (r & H1 & H2 & H3 & H4); [done|lia|cbn; lia|]. by exists r.
Qed.

(** ** Placing entries *)

Lemma push_entry_spec m a e : sized m a -> placed m a -> 0 <= e_hash e ->
  exists a', push_entry m a e = Ok a' /\ sized m a' /\ placed m a' /\ concat a' ≡ₚ e :: concat a.
Proof.
  intros Hs Hp He. destruct (chain_there m a (e_hash e) Hs He) as (a1 & l & a2 & Ea & Ec & Ei & Es). unfold push_entry. rewrite Ec. cbn [rbind]. rewrite Es.
  exists (a1 ++ (e :: l) :: a2). rewrite Ea in Hs, Hp. split_and!; [done|by eapply sized_set| |].
  - eapply placed_set; [exact Hp|]. intros x [->|Hx]%elem_of_cons; [by right|by left].
  - by rewrite Ea, !concat_middle.
Qed.

Lemma merge_base_spec es m : forall a, sized m a -> placed m a -> Forall (fun e => 0 <= e_hash e) es ->
  exists a', merge_base es m a = Ok a' /\ sized m a' /\ placed m a' /\ concat a' ≡ₚ es ++ concat a.
Proof.
  induction es as [|e es IH]; intros a Hs Hp He; cbn [merge_base]; [by exists a|]. apply Forall_cons in He as [He Hes].
  destruct (push_entry_spec m a e Hs Hp He) as (a1 & -> & Hs1 & Hp1 & Hc1). cbn [rbind]. destruct (IH a1 Hs1 Hp1 Hes) as (a2 & -> & Hs2 & Hp2 & Hc2).
  exists a2. split_and!; [done..|]. rewrite Hc2, Hc1. by rewrite <- Permutation_middle.
Qed.

Lemma alloc_spec k : 4 <= k <= 31 -> sized (2 ^ k - 1) (alloc_array (2 ^ k - 1)) /\ placed (2 ^ k - 1) (alloc_array (2 ^ k - 1)) /\ concat (alloc_array (2 ^ k - 1)) = [].
Proof.
  intros Hk. unfold alloc_array. assert (0 < 2 ^ k <= 2 ^ 31) by (split; [apply Z.pow_pos_nonneg; lia|apply Z.pow_le_mono_r; lia]).
  rewrite wrap_small by lia. split_and!.
  - split; [by exists k|]. by rewrite length_replicate.
  - intros i l e [-> _]%lookup_replicate_1 He. set_solver.
  - induction (Z.to_nat _) as [|n IH]; [done|]. cbn. done.
Qed.

(** Expanding moves the entries in the order of the iteration. *)
Lemma expand_loop_spec h m fuel : length (array h) = Z.to_nat (max h + 1) -> 0 <= max h -> forall hi a, on_entry hi ->
  match hi with Some hi' => (index hi' <= length (array h))%nat | None => True end -> (length (rest_of h hi) <= fuel)%nat ->
  expand_loop fuel h m hi a = merge_base (rest_of h hi) m a.
Proof.
  intros Hl Hm. induction fuel as [|fuel IH]; intros hi a Ho Hi Hf; (destruct hi as [[t n i]|]; [|done]); destruct Ho as [e He]; cbn in He; subst t; cbn [rest_of this next index] in *.
  - cbn in Hf. lia.
  - cbn [expand_loop this app merge_base]. destruct (push_entry m a e) as [a1| |]; [|done..]. cbn [rbind].
    destruct (hash_next_spec h (Index (Some e) n i) Hl Hm Hi) as (r & -> & Ho' & Hr & Hi'). cbn [rbind next index] in *. rewrite IH; [by rewrite Hr|done|done|]. rewrite Hr. cbn in Hf. lia.
Qed.

(** The table after the array was doubled. *)
Lemma expand_array_spec fuel h : wf h -> max h < count h < 2 ^ 31 -> (length (entries h) <= fuel)%nat ->
  exists h', expand_array fuel h = Ok h' /\ wf h' /\ entries h' ≡ₚ entries h /\ max h' = 2 * max h + 1 /\ count h' = count h.
Proof.
  intros Hw Hc Hf. pose proof (wf_sized h Hw) as Hs. destruct (first_spec h Hs) as (r & Hr & Ho & Hrest & Hi).
  pose proof (wf_count h Hw) as Hcount. unfold expand_array.
  destruct Hs as [(k & Hk & Hm) Hl]. assert (k < 31) as Hk' by (destruct (Z.lt_ge_cases k 31); [done|]; assert (2 ^ 31 <= 2 ^ k) by (apply Z.pow_le_mono_r; lia); lia).
  assert (wrap 32 (max h * 2 + 1) = 2 ^ (k + 1) - 1) as Em.
  { rewrite Hm. rewrite Z.pow_add_r by lia. assert (0 < 2 ^ k <= 2 ^ 30) by (split; [apply Z.pow_pos_nonneg; lia|apply Z.pow_le_mono_r; lia]). rewrite wrap_small; lia. }
  rewrite Hr, Em. cbn [rbind]. assert (0 < 2 ^ k) by (apply Z.pow_pos_nonneg; lia).
  rewrite (expand_loop_spec h _ fuel Hl) by first [done|lia|rewrite Hrest; lia]. rewrite Hrest.
  destruct (alloc_spec (k + 1) ltac:(lia)) as (Hs0 & Hp0 & Hc0).
  destruct (merge_base_spec (entries h) _ _ Hs0 Hp0) as (a' & -> & Hs' & Hp' & Hc').
  { pose proof (wf_entries h Hw) as He. eapply Forall_impl; [exact He|]. intros e [-> _]. by apply hash_of_range. }
  cbn [rbind]. rewrite Hc0, app_nil_r in Hc'. eexists. split; [done|].
  assert (2 ^ (k + 1) = 2 * 2 ^ k) as Epow by (rewrite Z.pow_add_r by lia; lia).
  split_and!; [|done|cbn; lia|done]. destruct Hw as [_ _ He Hn Hct Hfn]. split; unfold entries in *; cbn [array max count seed hash_func]; try done.
  - rewrite Hc'. eapply Forall_impl; [exact He|]. done.
  - by rewrite Hc'.
  - by rewrite Hc'.
Qed.

(** ** Setting *)

(** A table in which one chain was replaced. *)
Lemma wf_change h a1 l a2 l' cnt' fr : wf h -> array h = a1 ++ l :: a2 ->
  (forall e, e ∈ l' -> e ∈ l \/ Z.land (e_hash e) (max h) = Z.of_nat (length a1)) ->
  Forall (fun e => e_hash e = hash_of h (e_key e) /\ e_val e <> 0) l' -> NoDup (e_key <$> l' ++ concat a1 ++ concat a2) ->
  cnt' = Z.of_nat (length (l' ++ concat a1 ++ concat a2)) ->
  let h' := HashT (a1 ++ l' :: a2) cnt' (max h) (seed h) (hash_func h) fr in wf h' /\ abs h' = map_of (l' ++ concat a1 ++ concat a2).
Proof.
  intros [Hs Hp He Hn Hc Hf] Ea Hl' Hl Hnd Hcnt h'. rewrite Ea in Hs, Hp. split; [split|]; unfold abs, entries, h'; cbn [array max count seed hash_func].
  - by eapply sized_set.
  - by eapply placed_set.
  - rewrite concat_middle. apply Forall_app. split; [exact Hl|]. unfold entries in He. rewrite Ea, concat_middle in He. apply Forall_app in He as [_ He]. exact He.
  - by rewrite concat_middle.
  - by rewrite concat_middle.
  - done.
  - apply map_perm; by rewrite concat_middle.
Qed.

(** What is known of the entries of a table one chain of which is singled out. *)
Lemma wf_split h a1 l a2 : wf h -> array h = a1 ++ l :: a2 ->
  Forall (fun e => e_hash e = hash_of h (e_key e) /\ e_val e <> 0) l /\ NoDup (e_key <$> l ++ concat a1 ++ concat a2) /\
  count h = Z.of_nat (length (l ++ concat a1 ++ concat a2)) /\ abs h = map_of (l ++ concat a1 ++ concat a2).
Proof.
  intros [Hs Hp He Hn Hc Hf] Ea. unfold abs, entries in *. rewrite Ea in *. rewrite concat_middle in He. apply Forall_app in He as [He _].
  assert (NoDup (e_key <$> l ++ concat a1 ++ concat a2)) as Hn' by by rewrite concat_middle in Hn.
  split_and!; [done|done|by rewrite concat_middle in Hc|]. by apply map_perm; [|rewrite concat_middle].
Qed.

Lemma map_cons e es : map_of (e :: es) = <[e_key e := e_val e]> (map_of es).
Proof. done. Qed.

(** The end of a chain that was found for a key. *)
Definition key_chain (h : apr_hash_t) (key : list Z) (a1 : list (list entry)) : Prop := Z.of_nat (length a1) = Z.land (hash_of h key) (max h).

Lemma remove_spec h key a1 l1 e l2 a2 fr : wf h -> array h = a1 ++ (l1 ++ e :: l2) :: a2 -> e_key e = key ->
  let h' := HashT (a1 ++ (l1 ++ l2) :: a2) (count h - 1) (max h) (seed h) (hash_func h) fr in wf h' /\ abs h' = delete key (abs h) /\ 1 <= count h.
Proof.
  intros Hw Ea Hk h'. destruct (wf_split h _ _ _ Hw Ea) as (He & Hn & Hc & Hab). rewrite Hab.
  assert ((l1 ++ e :: l2) ++ concat a1 ++ concat a2 ≡ₚ e :: (l1 ++ l2) ++ concat a1 ++ concat a2) as Hperm by by rewrite <- Permutation_middle.
  rewrite (map_perm _ _ Hn Hperm), map_cons, Hk. rewrite Hperm in Hn, Hc. cbn [fmap list_fmap length] in Hn, Hc. apply NoDup_cons in Hn as [Hnot Hn]. rewrite Hk in Hnot.
  apply Forall_app in He as [He1 [_ He2]%Forall_cons].
  destruct (wf_change h a1 (l1 ++ e :: l2) a2 (l1 ++ l2) (count h - 1) fr Hw Ea) as [Hw' Hab']; [set_solver|by apply Forall_app|done|lia|].
  split_and!; [exact Hw'| |lia]. etrans; [exact Hab'|]. by rewrite delete_insert_id by by apply map_none.
Qed.

Lemma replace_spec h key val a1 l1 e l2 a2 : wf h -> array h = a1 ++ (l1 ++ e :: l2) :: a2 -> key_chain h key a1 -> e_key e = key -> val <> 0 ->
  let h' := HashT (a1 ++ (l1 ++ Entry (e_hash e) (e_key e) val :: l2) :: a2) (count h) (max h) (seed h) (hash_func h) (free h) in wf h' /\ abs h' = <[key := val]> (abs h).
Proof.
  intros Hw Ea Hkc Hk Hv h'. destruct (wf_split h _ _ _ Hw Ea) as (He & Hn & Hc & Hab). rewrite Hab.
  assert (forall x, (l1 ++ x :: l2) ++ concat a1 ++ concat a2 ≡ₚ x :: (l1 ++ l2) ++ concat a1 ++ concat a2) as Hperm by (intros x; by rewrite <- Permutation_middle).
  rewrite (map_perm _ _ Hn (Hperm e)), map_cons, Hk, insert_insert_eq. rewrite Hperm in Hn, Hc. cbn [fmap list_fmap length] in Hn, Hc.
  apply Forall_app in He as [He1 [[Hh _] He2]%Forall_cons].
  destruct (wf_change h a1 (l1 ++ e :: l2) a2 (l1 ++ Entry (e_hash e) (e_key e) val :: l2) (count h) (free h) Hw Ea) as [Hw' Hab'].
  - intros x [Hx|[->|Hx]%elem_of_cons]%elem_of_app; [left; set_solver|right|left; set_solver]. cbn [e_hash]. by rewrite Hkc, Hh, Hk.
  - apply Forall_app. split; [done|]. by constructor.
  - by rewrite Hperm.
  - rewrite Hperm. cbn [length]. done.
  - split; [exact Hw'|]. etrans; [exact Hab'|]. rewrite (map_perm _ (Entry (e_hash e) (e_key e) val :: (l1 ++ l2) ++ concat a1 ++ concat a2)); [by rewrite map_cons; cbn; rewrite Hk|by rewrite Hperm|apply Hperm].
Qed.

Lemma add_spec h key val a1 l l' a2 fr : wf h -> array h = a1 ++ l :: a2 -> key_chain h key a1 -> key ∉ (e_key <$> entries h) -> val <> 0 ->
  l' ≡ₚ Entry (hash_of h key) key val :: l ->
  let h' := HashT (a1 ++ l' :: a2) (count h + 1) (max h) (seed h) (hash_func h) fr in wf h' /\ abs h' = <[key := val]> (abs h).
Proof.
  intros Hw Ea Hkc Hno Hv Hl' h'. destruct (wf_split h _ _ _ Hw Ea) as (He & Hn & Hc & Hab). rewrite Hab. unfold entries in Hno. rewrite Ea, concat_middle in Hno.
  assert (NoDup (e_key <$> (Entry (hash_of h key) key val :: l) ++ concat a1 ++ concat a2)) as Hn' by (cbn; by constructor).
  destruct (wf_change h a1 l a2 l' (count h + 1) fr Hw Ea) as [Hw' Hab'].
  - intros x Hx. rewrite Hl' in Hx. apply elem_of_cons in Hx as [->|Hx]; [right|by left]. cbn [e_hash]. by rewrite Hkc.
  - rewrite Hl'. by constructor.
  - by rewrite Hl'.
  - rewrite Hl'. cbn [app length]. lia.
  - split; [exact Hw'|]. etrans; [exact Hab'|]. rewrite (map_perm _ ((Entry (hash_of h key) key val :: l) ++ concat a1 ++ concat a2)); [done|by rewrite Hl'|by rewrite Hl'].
Qed.

(** The array is doubled when there are more entries than chains. *)
Lemma maybe_expand fuel h : wf h -> count h < 2 ^ 31 -> count h <= max h + 2 -> (length (entries h) <= fuel)%nat ->
  exists h', (if max h <? count h then expand_array fuel h else Ok h) = Ok h' /\ wf h' /\ abs h' = abs h /\ count h' <= max h' + 1 /\ count h' = count h.
Proof.
  intros Hw Hc Hload Hf. destruct (Z.ltb_spec (max h) (count h)) as [Hx|Hx]; [|exists h; split_and!; (done || lia)].
  destruct (expand_array_spec fuel h Hw) as (h2 & -> & Hw2 & Hp2 & Hm2 & Hc2); [lia|lia|].
  destruct (wf_sized h Hw) as [(k & Hk & Hm) _]. assert (2 ^ 4 <= 2 ^ k) by (apply Z.pow_le_mono_r; lia).
  exists h2. split_and!; [done..| |lia|done]. symmetry. apply map_perm; [apply (wf_keys h Hw)|by rewrite Hp2].
Qed.

(** The effect of [apr_hash_set] on the map. *)
Definition set_map (key : list Z) (val : Z) (m : gmap (list Z) Z) : gmap (list Z) Z := if val =? 0 then delete key m else <[key := val]> m.

Lemma apr_hash_set_spec fuel h key val : wf h -> count h < 2 ^ 31 - 1 -> count h <= max h + 1 -> (length (entries h) < fuel)%nat ->
  exists h', apr_hash_set fuel h key val = Ok h' /\ wf h' /\ abs h' = set_map key val (abs h) /\ count h' <= max h' + 1 /\ count h' <= count h + 1.
Proof.
  intros Hw Hc Hload Hf. destruct (lookup_spec h key Hw) as (a1 & l & a2 & Ea & Ec & Ei & Es & Hhl & Hcase). pose proof (wf_count h Hw) as Hct.
  unfold apr_hash_set, find_entry, set_map. rewrite Ec. cbn [rbind]. destruct Hcase as [(l1 & e & l2 & -> & -> & Hk & Hab)|(-> & Hno & Hab)].
  - rewrite list_lookup_middle by done. cbn [rbind]. rewrite Ec. cbn [rbind]. rewrite list_lookup_middle by done. destruct (Z.eqb_spec val 0) as [->|Hval].
    + rewrite take_app_length, drop_app, (drop_ge l1), (Nat.sub_succ_l (length l1)), Nat.sub_diag by lia. cbn [drop app]. rewrite drop_0, Es.
      destruct (remove_spec h key a1 l1 e l2 a2 (e :: free h) Hw Ea Hk) as (Hw' & Hab' & H1). rewrite wrap_small by lia.
      eexists. split; [done|]. split_and!; [exact Hw'|exact Hab'|cbn; lia|cbn; lia].
    + rewrite insert_app_r_alt, Nat.sub_diag by lia. cbn [insert list_insert]. rewrite Es.
      destruct (replace_spec h key val a1 l1 e l2 a2 Hw Ea Ei Hk Hval) as [Hw1 Hab1].
      destruct (maybe_expand fuel _ Hw1) as (h' & He & Hw' & Hab' & Hl' & Hc'); [cbn; lia|cbn; lia| |].
      { apply Nat2Z.inj_le. rewrite <- (wf_count _ Hw1). cbn [count]. lia. }
      exists h'. split_and!; [exact He|done|congruence|done|rewrite Hc'; cbn; lia].
  - rewrite (lookup_ge_None_2 l) by done. destruct (Z.eqb_spec val 0) as [->|Hval].
    + cbn [rbind]. rewrite Ec. cbn [rbind]. rewrite (lookup_ge_None_2 l) by done. exists h. split_and!; [done..| |lia|lia]. by rewrite delete_id.
    + cbn [rbind array max]. set (e := Entry (hash_of h key) key val). rewrite Es, wrap_small by lia.
      assert (chain (a1 ++ (l ++ [e]) :: a2) (Z.land (hash_of h key) (max h)) = Ok (l ++ [e])) as Ec'.
      { unfold chain. rewrite (proj2 (Z.leb_le _ _)) by lia. rewrite <- Ei, Nat2Z.id. by rewrite list_lookup_middle. }
      rewrite Ec'. cbn [rbind]. rewrite lookup_app_r, Nat.sub_diag by lia. cbn [lookup list_lookup].
      rewrite insert_app_r_alt, Nat.sub_diag by lia. cbn [insert list_insert e_hash e_key e]. fold e.
      assert (set_chain (a1 ++ (l ++ [e]) :: a2) (Z.land (hash_of h key) (max h)) (l ++ [e]) = a1 ++ (l ++ [e]) :: a2) as E0.
      { unfold set_chain. rewrite <- Ei, Nat2Z.id. by rewrite insert_app_r_alt, Nat.sub_diag by lia. }
      rewrite E0. destruct (add_spec h key val a1 l (l ++ [e]) a2 (tail (free h)) Hw Ea Ei Hno Hval) as [Hw1 Hab1]; [by rewrite Permutation_app_comm|].
      destruct (maybe_expand fuel _ Hw1) as (h' & He & Hw' & Hab' & Hl' & Hc'); [cbn; lia|cbn; lia| |].
      { apply Nat2Z.inj_le. rewrite <- (wf_count _ Hw1). cbn [count]. lia. }
      exists h'. split_and!; [exact He|done|congruence|done|rewrite Hc'; cbn; lia].
Qed.

(** ** Clearing *)

Lemma next_loop_first m bs : forall i, m + 1 = Z.of_nat (i + length bs) ->
  (next_loop m bs i = Ok None /\ concat bs = []) \/
  exists n e l bs', next_loop m bs i = Ok (Some (Index (Some e) l (S (i + n)))) /\ bs = replicate n [] ++ (e :: l) :: bs'.
Proof.
  induction bs as [|b bs IH]; intros i Hm; cbn [next_loop length] in *.
  - left. by rewrite (proj2 (Z.ltb_lt _ _)) by lia.
  - rewrite (proj2 (Z.ltb_ge _ _)) by lia. destruct b as [|e l].
    + destruct (IH (S i) ltac:(lia)) as [[-> Hc]|(n & e & l & bs' & -> & ->)]; [by left|]. right. exists (S n), e, l, bs'. split; [do 3 f_equal; lia|done].
    + right. exists 0%nat, e, l, bs. split; [do 3 f_equal; lia|done].
Qed.

(** Where an iterator stands when all entries before it are gone. *)
Definition at_front (h : apr_hash_t) (hi : option apr_hash_index_t) : Prop :=
  match hi with
  | None => entries h = []
  | Some hi => exists j e l rest, hi = Index (Some e) l (S j) /\ array h = replicate j [] ++ (e :: l) :: rest
  end.

Lemma next_at_front h j l rest e0 : sized (max h) (array h) -> array h = replicate j [] ++ l :: rest ->
  exists r, apr_hash_next h (Index e0 l (S j)) = Ok r /\ at_front h r.
Proof.
  intros [(k & Hk & Hm) Hl] Ea. unfold apr_hash_next. cbn [next index]. destruct l as [|e l].
  - assert (drop (S j) (array h) = rest) as Ed by (rewrite Ea, cons_middle, app_assoc; apply drop_app_length'; rewrite length_app, length_replicate; cbn; lia).
    rewrite Ed. assert (0 < 2 ^ k) by (apply Z.pow_pos_nonneg; lia).
    destruct (next_loop_first (max h) rest (S j)) as [[-> Hc]|(n & e & l & bs' & -> & Er)].
    + rewrite Ea, length_app, length_replicate in Hl. cbn in Hl. lia.
    + exists None. split; [done|]. cbn. unfold entries. rewrite Ea, concat_app. cbn. rewrite Hc, app_nil_r. clear. by induction j.
    + eexists. split; [done|]. exists (S j + n)%nat, e, l, bs'. split; [f_equal; lia|]. rewrite Ea, Er, cons_middle, app_assoc, app_assoc.
      f_equal. rewrite (replicate_add (S j)). f_equal. by rewrite replicate_S_end.
  - eexists. split; [done|]. by exists j, e, l, rest.
Qed.

Lemma delete_first fuel h a1 e l a2 : wf h -> array h = a1 ++ (e :: l) :: a2 -> count h < 2 ^ 32 ->
  apr_hash_set fuel h (e_key e) 0 = Ok (HashT (a1 ++ l :: a2) (count h - 1) (max h) (seed h) (hash_func h) (e :: free h)).
Proof.
  intros Hw Ea Hc. destruct (remove_spec h (e_key e) a1 [] e l a2 (e :: free h) Hw Ea eq_refl) as (_ & _ & H1).
  destruct (wf_split h a1 (e :: l) a2 Hw Ea) as ([[Hh Hv] _]%Forall_cons & _).
  assert (Z.land (hash_of h (e_key e)) (max h) = Z.of_nat (length a1)) as Ei.
  { rewrite <- Hh. apply (wf_placed h Hw (length a1) (e :: l)); [rewrite Ea; by apply list_lookup_middle|left]. }
  assert (chain (array h) (Z.of_nat (length a1)) = Ok (e :: l)) as Ec.
  { unfold chain. rewrite (proj2 (Z.leb_le _ _)) by lia. rewrite Nat2Z.id, Ea. by rewrite list_lookup_middle. }
  unfold apr_hash_set, find_entry. rewrite Ei, Ec. cbn [rbind find_pos]. rewrite <- Hh, Z.eqb_refl, bool_decide_eq_true_2 by done.
  cbn [andb lookup list_lookup rbind]. rewrite Ec. cbn [rbind lookup list_lookup Z.eqb take drop app].
  rewrite drop_0, wrap_small by lia. unfold set_chain. rewrite Nat2Z.id, Ea, insert_app_r_alt, Nat.sub_diag by lia. cbn [insert list_insert]. done.
Qed.

Lemma clear_loop_spec fuel : forall h hi, wf h -> count h < 2 ^ 32 -> at_front h hi -> (length (entries h) <= fuel)%nat ->
  exists h', clear_loop fuel h hi = Ok h' /\ wf h' /\ entries h' = [] /\ max h' = max h.
Proof.
  induction fuel as [|fuel IH]; intros h hi Hw Hc Ha Hf; (destruct hi as [hi|]; [|by exists h]); destruct Ha as (j & e & l & rest & -> & Ea).
  - unfold entries in Hf. rewrite Ea, concat_middle in Hf. cbn in Hf. lia.
  - cbn [clear_loop this]. rewrite (delete_first fuel h _ _ _ _ Hw Ea Hc). cbn [rbind].
    destruct (remove_spec h (e_key e) (replicate j []) [] e l rest (e :: free h) Hw Ea eq_refl) as (Hw' & _ & H1). cbn [app] in Hw'.
    set (h1 := HashT _ _ _ _ _ _) in *. destruct (next_at_front h1 j l rest (Some e) (wf_sized h1 Hw') eq_refl) as (r & -> & Hr). cbn [rbind].
    destruct (IH h1 r Hw') as (h' & -> & Hw2 & He & Hm); [cbn; lia|done| |by exists h'].
    apply Nat2Z.inj_le. rewrite <- (wf_count h1 Hw'). cbn [count h1]. rewrite (wf_count h Hw). lia.
Qed.

Lemma apr_hash_clear_spec fuel h : wf h -> count h < 2 ^ 32 -> (length (entries h) <= fuel)%nat ->
  exists h', apr_hash_clear fuel h = Ok h' /\ wf h' /\ abs h' = ∅ /\ count h' = 0 /\ max h' = max h.
Proof.
  intros Hw Hc Hf. unfold apr_hash_clear, apr_hash_first. destruct (wf_sized h Hw) as [(k & Hk & Hm) Hl]. assert (0 < 2 ^ k) by (apply Z.pow_pos_nonneg; lia).
  assert (exists r, apr_hash_next h (Index None [] 0) = Ok r /\ at_front h r) as (r & -> & Hr).
  { unfold apr_hash_next. cbn [next index]. rewrite drop_0. destruct (next_loop_first (max h) (array h) 0) as [[-> Hcc]|(n & e & l & bs' & -> & Er)]; [lia|by exists None|].
    eexists. split; [done|]. by exists n, e, l, bs'. }
  cbn [rbind]. destruct (clear_loop_spec fuel h r Hw Hc Hr Hf) as (h' & -> & Hw' & He & Hm'). exists h'. split_and!; [done..| |by rewrite (wf_count h' Hw'), He|done].
  unfold abs. by rewrite He.
Qed.

(** ** Iteration *)

Lemma do_loop_spec {A} (f : A -> list Z -> Z -> A) h fuel : length (array h) = Z.to_nat (max h + 1) -> 0 <= max h -> forall hi rec, on_entry hi ->
  match hi with Some hi' => (index hi' <= length (array h))%nat | None => True end -> (length (rest_of h hi) <= fuel)%nat ->
  do_loop (fun a k v => (f a k v, true)) fuel h hi rec = Ok (foldl (fun a e => f a (e_key e) (e_val e)) rec (rest_of h hi), true).
Proof.
  intros Hl Hm. induction fuel as [|fuel IH]; intros hi rec Ho Hi Hf; (destruct hi as [[t n i]|]; [|done]); destruct Ho as [e He]; cbn in He; subst t; cbn [rest_of this next index] in *.
  - cbn in Hf. lia.
  - cbn [do_loop this app foldl]. destruct (hash_next_spec h (Index (Some e) n i) Hl Hm Hi) as (r & -> & Ho' & Hr & Hi'). cbn [rbind next index] in *.
    rewrite IH; [by rewrite Hr|done|done|]. rewrite Hr. cbn in Hf. lia.
Qed.

(** All entries, as [apr_hash_do] gives them to a callback. *)
Definition collect (fuel : nat) (h : apr_hash_t) : result (list (list Z * Z) * bool) :=
  apr_hash_do (fun acc k v => (acc ++ [(k, v)], true)) fuel h [].

Lemma collect_spec fuel h : wf h -> (length (entries h) <= fuel)%nat ->
  exists kvs, collect fuel h = Ok (kvs, true) /\ kvs ≡ₚ map_to_list (abs h).
Proof.
  intros Hw Hf. pose proof (wf_sized h Hw) as Hs. destruct (first_spec h Hs) as (r & Hr & Ho & Hrest & Hi). unfold collect, apr_hash_do. rewrite Hr. cbn [rbind].
  destruct Hs as [(k & Hk & Hm) Hl]. assert (0 < 2 ^ k) by (apply Z.pow_pos_nonneg; lia).
  rewrite (do_loop_spec (fun acc k v => acc ++ [(k, v)]) h fuel Hl) by first [done|lia|rewrite Hrest; done]. rewrite Hrest. eexists. split; [done|].
  assert (forall es acc, foldl (fun a e => a ++ [(e_key e, e_val e)]) acc es = acc ++ (pair_of <$> es)) as ->.
  { induction es as [|e es IH]; intros acc; cbn; [by rewrite app_nil_r|]. by rewrite IH, <- app_assoc. }
  cbn [app]. unfold abs, map_of. rewrite map_to_list_to_map; [done|]. rewrite <- list_fmap_compose. apply (wf_keys h Hw).
Qed.

(** ** Refinement *)

Inductive op := OSet (key : list Z) (val : Z) | OGet (key : list Z) | OCount | OClear | OAll.
Inductive answer := ANone | AVal (v : Z) | AAll (kvs : list (list Z * Z)).

Definition run_op (fuel : nat) (o : op) (h : apr_hash_t) : result (apr_hash_t * answer) :=
  match o with
  | OSet k v => let! h := apr_hash_set fuel h k v in Ok (h, ANone)
  | OGet k => let! v := apr_hash_get h k in Ok (h, AVal v)
  | OCount => Ok (h, AVal (apr_hash_count h))
  | OClear => let! h := apr_hash_clear fuel h in Ok (h, ANone)
  | OAll => let! (kvs, _) := collect fuel h in Ok (h, AAll kvs)
  end.

Fixpoint run_ops (fuel : nat) (os : list op) (h : apr_hash_t) : result (apr_hash_t * list answer) :=
  match os with
  | [] => Ok (h, [])
  | o :: os' => let! (h, a) := run_op fuel o h in let! (h, l) := run_ops fuel os' h in Ok (h, a :: l)
  end.

(** The same on a finite map; the order of an iteration is not fixed. *)
Definition map_op (o : op) (m : gmap (list Z) Z) : gmap (list Z) Z :=
  match o with OSet k v => set_map k v m | OClear => ∅ | _ => m end.
Definition answers (o : op) (m : gmap (list Z) Z) (a : answer) : Prop :=
  match o, a with
  | OSet _ _, ANone | OClear, ANone => True
  | OGet k, AVal v => v = default 0 (m !! k)
  | OCount, AVal v => v = Z.of_nat (size m)
  | OAll, AAll kvs => kvs ≡ₚ map_to_list m
  | _, _ => False
  end.
Fixpoint all_answers (os : list op) (m : gmap (list Z) Z) (l : list answer) : Prop :=
  match os, l with
  | [], [] => True
  | o :: os', a :: l' => answers o m a /\ all_answers os' (map_op o m) l'
  | _, _ => False
  end.

Lemma wf_size h : wf h -> count h = Z.of_nat (size (abs h)).
Proof.
  intros Hw. rewrite (wf_count h Hw). f_equal. rewrite <- length_map_to_list. unfold abs, map_of. rewrite map_to_list_to_map; [by rewrite length_fmap|].
  rewrite <- list_fmap_compose. apply (wf_keys h Hw).
Qed.

Lemma run_op_spec fuel o h : wf h -> count h < 2 ^ 31 - 1 -> count h <= max h + 1 -> (Z.to_nat (count h) < fuel)%nat ->
  exists h' a, run_op fuel o h = Ok (h', a) /\ wf h' /\ abs h' = map_op o (abs h) /\ answers o (abs h) a /\ count h' <= max h' + 1 /\ count h' <= count h + 1.
Proof.
  intros Hw Hc Hl Hf. pose proof (wf_count h Hw) as Hn. assert (length (entries h) < fuel)%nat as Hf' by lia. destruct o as [k v|k| | |]; cbn [run_op].
  - destruct (apr_hash_set_spec fuel h k v Hw Hc Hl Hf') as (h' & -> & Hw' & Hab & Hl' & Hc'). by exists h', ANone.
  - rewrite apr_hash_get_spec by done. exists h. eexists. split_and!; (done || lia).
  - exists h. eexists. split_and!; try done; [by apply wf_size|lia].
  - destruct (apr_hash_clear_spec fuel h Hw) as (h' & -> & Hw' & Hab & Hc' & Hm'); [lia|lia|]. exists h', ANone. split_and!; (done || lia).
  - destruct (collect_spec fuel h Hw) as (kvs & -> & Hp); [lia|]. exists h. eexists. split_and!; (done || lia).
Qed.

Lemma make_wf sd f : (forall g, f = Some g -> forall k, 0 <= g k < 2 ^ 32) -> let h := HashT (alloc_array INITIAL_MAX) 0 INITIAL_MAX (wrap 32 sd) f [] in wf h /\ abs h = ∅.
Proof.
  intros Hf h. destruct (alloc_spec 4 ltac:(lia)) as (Hs & Hp & Hc). change (2 ^ 4 - 1) with INITIAL_MAX in *.
  split; [split|]; unfold abs, entries; cbn [array max count seed hash_func h]; rewrite ?Hc; try done; [constructor|]. split; [done|]. unfold wrap. apply Z.mod_pos_bound. lia.
Qed.

Lemma run_ops_spec fuel os : forall h, wf h -> count h + Z.of_nat (length os) < 2 ^ 31 - 1 -> count h <= max h + 1 -> (Z.to_nat (count h) + length os < fuel)%nat ->
  exists h' l, run_ops fuel os h = Ok (h', l) /\ wf h' /\ all_answers os (abs h) l /\ abs h' = foldl (fun m o => map_op o m) (abs h) os /\
    count h' <= max h' + 1 /\ count h' <= count h + Z.of_nat (length os).
Proof.
  induction os as [|o os IH]; intros h Hw Hb Hl Hf; cbn [run_ops length] in *.
  - exists h, []. split_and!; (done || lia).
  - pose proof (wf_count h Hw). destruct (run_op_spec fuel o h Hw) as (h1 & a & -> & Hw1 & Hab1 & Ha & Hl1 & Hc1); [lia|lia|lia|]. cbn [rbind].
    pose proof (wf_count h1 Hw1). destruct (IH h1 Hw1) as (h2 & l & -> & Hw2 & Hall & Hab2 & Hl2 & Hc2); [lia|lia|lia|]. cbn [rbind]. exists h2, (a :: l).
    split_and!; [done|done|cbn [all_answers]; by rewrite <- Hab1|cbn [foldl]; by rewrite <- Hab1|done|lia].
Qed.

(** C6: A hash table is a finite map: any sequence of settings, lookups,
    countings, clearings and iterations runs without an invalid access and
    gives the answers of the map, whatever the hash function; an iteration
    visits every key once, the number kept is the number of keys, and there are
    never more entries than chains. *)
Theorem apr_hash_refines sd f os : (forall g, f = Some g -> forall k, 0 <= g k < 2 ^ 32) -> Z.of_nat (length os) < 2 ^ 31 - 1 ->
  let h0 := match f with Some g => apr_hash_make_custom sd g | None => apr_hash_make sd end in
  exists h l, run_ops (S (length os)) os h0 = Ok (h, l) /\ all_answers os ∅ l /\ abs h = foldl (fun m o => map_op o m) ∅ os /\ count h <= max h + 1.
Proof.
  intros Hf Hlen h0. assert (wf h0 /\ abs h0 = ∅ /\ count h0 = 0 /\ max h0 = 15) as (Hw & Hab & Hc & Hm).
  { destruct (make_wf sd f Hf) as [H1 H2]. subst h0. by destruct f. }
  destruct (run_ops_spec (S (length os)) os h0 Hw) as (h & l & H1 & _ & H2 & H3 & H4 & _); [lia|lia|lia|]. rewrite Hab in H2, H3. by exists h, l.
Qed.

(** Seventeen keys with one hash, so that the array is doubled. *)
Lemma apr_hash_refines_witness :
  let keys := (fun n => [Z.of_nat n]) <$> seq 0 17 in
  let os := ((fun k => OSet k 7) <$> keys) ++ [OCount; OSet [3] 9; OSet [4] 0; OGet [3]; OGet [4]; OCount] in
  exists h l, run_ops (S (length os)) os (apr_hash_make_custom 5 (fun _ => 11)) = Ok (h, l) /\
    drop 17 l = [AVal 17; ANone; ANone; AVal 9; AVal 0; AVal 16] /\ max h = 31 /\ abs h = foldl (fun m o => map_op o m) ∅ os.
Proof.
  intros keys os.
  destruct (apr_hash_refines 5 (Some (fun _ => 11)) os) as (h & l & H1 & _ & H2 & _); [intros g [= <-] k; lia|vm_compute; reflexivity|].
  exists h, l. split; [exact H1|].
  assert (run_ops (S (length os)) os (apr_hash_make_custom 5 (fun _ => 11)) = Ok (h, l)) as H3 by exact H1. vm_compute in H3.
  injection H3 as <- <-. split; [reflexivity|]. split; [reflexivity|]. exact H2.
Defined.

(** ** Merging *)

Lemma merge_pos_find f key l : Forall (fun e => e_hash e = f (e_key e)) l -> merge_pos key l = find_pos (f key) key l.
Proof.
  induction l as [|e l IH]; intros Hl; cbn [merge_pos find_pos]; [done|]. apply Forall_cons in Hl as [He Hl]. rewrite (IH Hl).
  case_bool_decide as Hk; [|by rewrite andb_false_r]. by rewrite He, Hk, Z.eqb_refl.
Qed.

(** The value of a key that is in both tables. *)
Definition merged (merger : option (list Z -> Z -> Z -> Z)) (key : list Z) (v u : Z) : Z := match merger with Some g => g key v u | None => v end.

Lemma merge_entry_spec merger res e : wf res -> count res < 2 ^ 32 - 1 -> e_val e <> 0 -> (forall g k v u, merger = Some g -> g k v u <> 0) ->
  exists res', merge_entry merger res e = Ok res' /\ wf res' /\ max res' = max res /\ count res' <= count res + 1 /\
    abs res' = <[e_key e := match abs res !! e_key e with Some u => merged merger (e_key e) (e_val e) u | None => e_val e end]> (abs res).
Proof.
  intros Hw Hc Hv Hm. destruct (lookup_spec res (e_key e) Hw) as (a1 & l & a2 & Ea & Ec & Ei & Es & Hhl & Hcase). unfold merge_entry. rewrite Ec. cbn [rbind].
  rewrite (merge_pos_find (hash_of res)) by done. destruct Hcase as [(l1 & x & l2 & -> & -> & Hk & ->)|(-> & Hno & ->)].
  - rewrite list_lookup_middle by done. rewrite insert_app_r_alt, Nat.sub_diag by lia. cbn [insert list_insert]. rewrite Es. fold (merged merger (e_key e) (e_val e) (e_val x)).
    assert (merged merger (e_key e) (e_val e) (e_val x) <> 0) as Hv' by (unfold merged; destruct merger; [by apply Hm|done]).
    destruct (replace_spec res (e_key e) _ a1 l1 x l2 a2 Hw Ea Ei Hk Hv') as [Hw' Hab']. eexists. split_and!; [done|exact Hw'|done|cbn; lia|exact Hab'].
  - rewrite (lookup_ge_None_2 l) by done. pose proof (wf_count res Hw). rewrite wrap_small, Es by lia.
    destruct (add_spec res (e_key e) (e_val e) a1 l (Entry (hash_of res (e_key e)) (e_key e) (e_val e) :: l) a2 (free res) Hw Ea Ei Hno Hv) as [Hw' Hab']; [done|].
    eexists. split_and!; [done|exact Hw'|done|cbn; lia|exact Hab'].
Qed.

(** The map of a merge, key by key. *)
Definition merge_at (merger : option (list Z -> Z -> Z -> Z)) (key : list Z) (o b : option Z) : option Z :=
  match o, b with Some v, Some u => Some (merged merger key v u) | Some v, None => Some v | None, _ => b end.

Lemma merge_overlay_spec merger es : (forall g k v u, merger = Some g -> g k v u <> 0) -> forall res, wf res -> count res + Z.of_nat (length es) < 2 ^ 32 ->
  Forall (fun e => e_val e <> 0) es -> NoDup (e_key <$> es) ->
  exists res', merge_overlay merger es res = Ok res' /\ wf res' /\ max res' = max res /\ count res' <= count res + Z.of_nat (length es) /\
    forall key, abs res' !! key = merge_at merger key (map_of es !! key) (abs res !! key).
Proof.
  intros Hm. induction es as [|e es IH]; intros res Hw Hc Hv Hn; cbn [merge_overlay length] in *.
  - exists res. split_and!; [done..|lia|]. intros key. unfold map_of. cbn. by rewrite lookup_empty.
  - apply Forall_cons in Hv as [Hv Hvs]. cbn [fmap list_fmap] in Hn. apply NoDup_cons in Hn as [Hno Hn].
    destruct (merge_entry_spec merger res e Hw) as (r1 & -> & Hw1 & Hm1 & Hc1 & Hab1); [lia|done|done|]. cbn [rbind].
    destruct (IH r1 Hw1) as (r2 & -> & Hw2 & Hm2 & Hc2 & Hab2); [lia|done|done|]. exists r2. split_and!; [done|done|congruence|lia|].
    intros key. rewrite Hab2, Hab1, map_cons. destruct (decide (key = e_key e)) as [->|Hne].
    + rewrite !lookup_insert_eq, map_none by done. cbn. by destruct (abs res !! e_key e).
    + by rewrite !lookup_insert_ne by done.
Qed.

(** Merging two tables, whatever their hash functions and seeds, gives a
    table whose map has the keys of both: the values of the overlay, and for a
    key that both have what the merge function makes of the two values.  The
    result has no more entries than chains. *)
Theorem apr_hash_merge_correct merger overlay base : wf overlay -> wf base -> count overlay <= max overlay + 1 -> count base <= max base + 1 ->
  count overlay + count base < 2 ^ 31 -> (forall g k v u, merger = Some g -> g k v u <> 0) ->
  exists res, apr_hash_merge merger overlay base = Ok res /\ wf res /\ count res <= max res + 1 /\
    forall key, abs res !! key = merge_at merger key (abs overlay !! key) (abs base !! key).
Proof.
  intros Hwo Hwb Hlo Hlb Hc Hm. unfold apr_hash_merge. pose proof (wf_count overlay Hwo) as Ho. pose proof (wf_count base Hwb) as Hb.
  rewrite (wrap_small 32 (count base + count overlay)) by lia. set (m0 := if max base <? max overlay then max overlay else max base).
  assert (exists k, 4 <= k <= 31 /\ m0 = 2 ^ k - 1 /\ count overlay <= m0 + 1 /\ count base <= m0 + 1) as (k0 & Hk0 & Em0 & Hm1 & Hm2).
  { destruct (wf_sized overlay Hwo) as [(ko & Hko & Eo) _], (wf_sized base Hwb) as [(kb & Hkb & Eb) _]. subst m0.
    destruct (Z.ltb_spec (max base) (max overlay)); [exists ko|exists kb]; split_and!; (done || lia). }
  set (m := if m0 <? _ then _ else m0).
  assert (exists k, 4 <= k <= 31 /\ m = 2 ^ k - 1 /\ count base + count overlay <= m + 1) as (k & Hk & Em & Hload).
  { assert (0 < 2 ^ k0) by (apply Z.pow_pos_nonneg; lia). subst m. destruct (Z.ltb_spec m0 (count base + count overlay)) as [Hx|Hx]; [|exists k0; split_and!; (done || lia)].
    assert (k0 < 31) by (destruct (Z.lt_ge_cases k0 31); [done|]; assert (2 ^ 31 <= 2 ^ k0) by (apply Z.pow_le_mono_r; lia); lia).
    assert (2 ^ (k0 + 1) = 2 * 2 ^ k0) as Epow by (rewrite Z.pow_add_r by lia; lia). assert (2 ^ k0 <= 2 ^ 30) by (apply Z.pow_le_mono_r; lia).
    exists (k0 + 1). rewrite wrap_small by lia. split_and!; lia. }
  destruct (alloc_spec k Hk) as (Hs0 & Hp0 & Hc0). rewrite <- Em in Hs0, Hp0, Hc0.
  destruct (merge_base_spec (concat (array base)) m _ Hs0 Hp0) as (a & -> & Hs & Hp & Hca).
  { pose proof (wf_entries base Hwb) as He. eapply Forall_impl; [exact He|]. intros e [-> _]. by apply hash_of_range. }
  rewrite Hc0, app_nil_r in Hca. cbn [rbind]. set (res0 := HashT _ _ _ _ _ _).
  assert (wf res0) as Hw0.
  { destruct Hwb as [_ _ He Hn Hct Hfn]. split; unfold entries in *; cbn [array max count seed hash_func res0]; rewrite ?Hca; done. }
  destruct (merge_overlay_spec merger (concat (array overlay)) Hm res0 Hw0) as (res & -> & Hw & Hmx & Hcnt & Hab).
  - cbn [count res0]. unfold entries in Ho. lia.
  - pose proof (wf_entries overlay Hwo) as He. eapply Forall_impl; [exact He|]. by intros e [].
  - apply (wf_keys overlay Hwo).
  - exists res. split_and!; [done|done| |].
    + rewrite Hmx. cbn [count res0 max] in *. unfold entries in Ho. lia.
    + intros key. rewrite Hab. do 2 f_equal. apply map_perm; [apply (wf_keys res0 Hw0)|done].
Qed.

Lemma apr_hash_merge_correct_witness :
  exists o b res, run_ops 9 [OSet [1] 5; OSet [2] 6] (apr_hash_make 3) = Ok (o, [ANone; ANone]) /\ run_ops 9 [OSet [2] 7; OSet [4] 8] (apr_hash_make 77) = Ok (b, [ANone; ANone]) /\
    apr_hash_merge None o b = Ok res /\ (forall key, abs res !! key = merge_at None key (abs o !! key) (abs b !! key)) /\ apr_hash_get res [2] = Ok 6.
Proof.
  destruct (run_ops_spec 9 [OSet [1] 5; OSet [2] 6] (apr_hash_make 3)) as (o & l1 & Ho & Hwo & _ & _ & Hlo & Hco); [apply (make_wf 3 None); done|vm_compute; reflexivity|vm_compute; discriminate|vm_compute; lia|].
  destruct (run_ops_spec 9 [OSet [2] 7; OSet [4] 8] (apr_hash_make 77)) as (b & l2 & Hb & Hwb & _ & _ & Hlb & Hcb); [apply (make_wf 77 None); done|vm_compute; reflexivity|vm_compute; discriminate|vm_compute; lia|].
  change (count (apr_hash_make 3)) with 0 in Hco. change (count (apr_hash_make 77)) with 0 in Hcb. cbn [length] in Hco, Hcb.
  destruct (apr_hash_merge_correct None o b Hwo Hwb Hlo Hlb) as (res & Hr & _ & _ & Hab); [lia|done|].
  exists o, b, res. clear Hwo Hwb Hlo Hlb Hco Hcb. vm_compute in Ho, Hb. injection Ho as <- <-. injection Hb as <- <-.
  split; [vm_compute; reflexivity|]. split; [vm_compute; reflexivity|]. split; [exact Hr|]. split; [exact Hab|]. clear Hab. vm_compute in Hr. injection Hr as <-. reflexivity.
Defined.
