(* ===== verification/AprPools.v ===== *)
(** * Pools of memory

    [src/libs/apr/memory/unix/apr_pools.c], as it is built without
    [APR_POOL_DEBUG], [mmap] and Valgrind: allocators that keep nodes of memory for reuse, pools that
    hand out pieces of their nodes, cleanups, and the tree of pools.  The pools
    of [src/src/agc_core_memory.c] are these.

    A list of nodes linked by [next] is the list of the nodes; the ring of the
    nodes of a pool is the list that begins with [active].  The pools are a
    tree with the links [child] and [sibling]; [parent] and [ref] say where in
    it a pool is.  [malloc] is the class [Malloc]: whatever it returns, each time
    it is called, does not overlap what it has given out.  The functions called
    by pools (cleanups, [abort_fn]) are recorded and do not use the pools
    themselves.  Not modelled are the mutex of an allocator (a pool is used by
    one thread at a time), processes, tags, [apr_psprintf], and the user data,
    which is a hash table. *)

From stdpp Require Import base gmap list fin_maps sorting.
From Stdlib Require Import ZArith Lia.
From S2P Require Import Prelude.

Module AprPools.

(** ** The heap *)

Definition disj (x y : Z * Z) : Prop := x.1 + x.2 <= y.1 \/ y.1 + y.2 <= x.1.

#[global] Instance disj_dec x y : Decision (disj x y).
Proof. unfold disj. apply _. Defined.

(** [malloc] of the C library, the [k]-th time it is called and with the blocks
    that are in use. *)
Class Malloc := {
  malloc : nat -> gmap Z Z -> Z -> Z;
  malloc_law : forall k heap n, 0 < n ->
    malloc k heap n = 0 \/
    0 < malloc k heap n /\ malloc k heap n mod 16 = 0 /\ malloc k heap n + n < 2 ^ 64 /\
    map_Forall (fun b m => disj (malloc k heap n, n) (b, m)) heap }.

(** ** Nodes and allocators *)

(** [apr_memnode_t] *)
Record memnode := Node {
  n_addr : Z;
  n_index : Z;
  n_free_index : Z;
  n_first_avail : Z;
  n_endp : Z }.

Definition with_free_index i n := Node (n_addr n) (n_index n) i (n_first_avail n) (n_endp n).
Definition with_first_avail a n := Node (n_addr n) (n_index n) (n_free_index n) a (n_endp n).

Definition BOUNDARY_INDEX : Z := 12.
Definition BOUNDARY_SIZE : Z := Z.shiftl 1 BOUNDARY_INDEX.
Definition MIN_ALLOC : Z := 2 * BOUNDARY_SIZE.
Definition MAX_INDEX : nat := 20.
Definition APR_UINT32_MAX : Z := 4294967295.
Definition APR_ALLOCATOR_MAX_FREE_UNLIMITED : Z := 0.
Definition APR_MEMNODE_T_SIZE : Z := 40.
Definition SIZEOF_ALLOCATOR_T : Z := 200.
Definition SIZEOF_POOL_T : Z := 120.
Definition SIZEOF_CLEANUP_T : Z := 32.

Definition APR_ALIGN (size boundary : Z) : Z := Z.land (wrap 64 (size + (boundary - 1))) (Z.lnot (boundary - 1)).
Definition APR_ALIGN_DEFAULT (size : Z) : Z := APR_ALIGN size 8.

(** [apr_allocator_t] without its mutex. *)
Record allocator := Allocator {
  a_max_index : nat;
  a_max_free_index : Z;
  a_current_free_index : Z;
  a_owner : Z;
  a_free : list (list memnode) }.

(** What the allocators stand on: the blocks [malloc] has given out, with their
    sizes, the number of its calls, and the allocators by their address. *)
Record mem := Mem {
  heap : gmap Z Z;
  mallocs : nat;
  allocators : gmap Z allocator }.

Definition with_allocators als m := Mem (heap m) (mallocs m) als.

Definition get_allocator (a : Z) (m : mem) : result allocator :=
  match allocators m !! a with Some al => Ok al | None => Fault BadPointer end.
Definition set_allocator (a : Z) (al : allocator) (m : mem) : mem := with_allocators (<[a := al]> (allocators m)) m.

Definition c_free (a : Z) (m : mem) : result mem :=
  match heap m !! a with
  | Some _ => Ok (Mem (delete a (heap m)) (mallocs m) (allocators m))
  | None => Fault BadFree
  end.

Fixpoint c_free_all (l : list memnode) (m : mem) : result mem :=
  match l with
  | [] => Ok m
  | n :: l => let! m := c_free (n_addr n) m in c_free_all l m
  end.

(** [free[i]] *)
Definition bucket (free : list (list memnode)) (i : nat) : result (list memnode) :=
  match free !! i with Some l => Ok l | None => Fault OutOfBounds end.

Definition allocator_align (in_size : Z) : Z :=
  let size := APR_ALIGN (wrap 64 (in_size + APR_MEMNODE_T_SIZE)) BOUNDARY_SIZE in
  if size <? in_size then 0
  else if size <? MIN_ALLOC then MIN_ALLOC
  else size.

(** The walk up to the first slot with a node; [k] is [max_index - i]. *)
Fixpoint scan_up (free : list (list memnode)) (k i : nat) : result nat :=
  match k with
  | O => Ok i
  | S k =>
      let! l := bucket free i in
      match l with [] => scan_up free k (S i) | _ => Ok i end
  end.

(** The walk down to the new [max_index]. *)
Fixpoint scan_down (free : list (list memnode)) (max_index : nat) : result nat :=
  match max_index with
  | O => Fault OutOfBounds
  | S i =>
      let! l := bucket free i in
      match l with
      | [] => if (i =? 0)%nat then Ok i else scan_down free i
      | _ => Ok i
      end
  end.

(** The walk through the sink. *)
Fixpoint scan_sink (index : Z) (l : list memnode) : option (memnode * list memnode) :=
  match l with
  | [] => None
  | n :: l =>
      if n_index n <? index then
        match scan_sink index l with Some (n', l') => Some (n', n :: l') | None => None end
      else Some (n, l)
  end.

(** A node leaves the free lists. *)
Definition taken (al : allocator) (n : memnode) (max_index : nat) (free : list (list memnode)) : allocator :=
  let current := wrap 64 (a_current_free_index al + wrap 32 (n_index n + 1)) in
  Allocator max_index (a_max_free_index al)
    (if a_max_free_index al <? current then a_max_free_index al else current) (a_owner al) free.

(** The search in the free lists. *)
Definition take_free (index : Z) (al : allocator) : result (option (memnode * allocator)) :=
  if index <=? Z.of_nat (a_max_index al) then
    let! i := scan_up (a_free al) (a_max_index al - Z.to_nat index) (Z.to_nat index) in
    let! l := bucket (a_free al) i in
    match l with
    | [] => Ok None
    | n :: l' =>
        let free := <[i := l']> (a_free al) in
        let! max_index :=
          (match l' with
           | [] => if (a_max_index al <=? i)%nat then scan_down free (a_max_index al) else Ok (a_max_index al)
           | _ => Ok (a_max_index al)
           end) in
        Ok (Some (n, taken al n max_index free))
    end
  else
    let! l := bucket (a_free al) 0 in
    match scan_sink index l with
    | None => Ok None
    | Some (n, l') => Ok (Some (n, taken al n (a_max_index al) (<[0%nat := l']> (a_free al))))
    end.

Definition have_node (n : memnode) : memnode := with_first_avail (n_addr n + APR_MEMNODE_T_SIZE) n.

Section Functions.
Context `{Malloc}.

Definition c_malloc (size : Z) (m : mem) : Z * mem :=
  let a := malloc (mallocs m) (heap m) size in
  (a, Mem (if a =? 0 then heap m else <[a := size]> (heap m)) (S (mallocs m)) (allocators m)).

Definition apr_allocator_create (m : mem) : Z * mem :=
  let (a, m) := c_malloc SIZEOF_ALLOCATOR_T m in
  (a, if a =? 0 then m
      else set_allocator a (Allocator 0 APR_ALLOCATOR_MAX_FREE_UNLIMITED 0 0 (replicate MAX_INDEX [])) m).

(** [allocator_alloc] of the allocator at [a] *)
Definition allocator_alloc (a : Z) (in_size : Z) (m : mem) : result (option memnode * mem) :=
  let size := allocator_align in_size in
  if size =? 0 then Ok (None, m)
  else
    let index := Z.shiftr size BOUNDARY_INDEX - 1 in
    if APR_UINT32_MAX <? index then Ok (None, m)
    else
      let! al := get_allocator a m in
      let! found := take_free index al in
      match found with
      | Some (n, al) => Ok (Some (have_node n), set_allocator a al m)
      | None =>
          let (p, m) := c_malloc size m in
          if p =? 0 then Ok (None, m)
          else Ok (Some (have_node (Node p index 0 0 (p + size))), m)
      end.

(** The loop of [allocator_free]: the free lists, [max_index],
    [current_free_index] and the nodes to be given back. *)
Fixpoint free_loop (max_free : Z) (nodes : list memnode) (free : list (list memnode)) (max_index : nat) (current : Z) (freelist : list memnode)
  : result (list (list memnode) * nat * Z * list memnode) :=
  match nodes with
  | [] => Ok (free, max_index, current, freelist)
  | n :: nodes =>
      let index := n_index n in
      let less := if index + 1 <=? current then current - (index + 1) else 0 in
      if negb (max_free =? APR_ALLOCATOR_MAX_FREE_UNLIMITED) && (current <? index + 1) then
        free_loop max_free nodes free max_index current (n :: freelist)
      else if index <? Z.of_nat MAX_INDEX then
        let! l := bucket free (Z.to_nat index) in
        let max_index := match l with [] => Nat.max max_index (Z.to_nat index) | _ => max_index end in
        free_loop max_free nodes (<[Z.to_nat index := n :: l]> free) max_index less freelist
      else
        let! l := bucket free 0 in
        free_loop max_free nodes (<[0%nat := n :: l]> free) max_index less freelist
  end.

Definition allocator_free (a : Z) (nodes : list memnode) (m : mem) : result mem :=
  let! al := get_allocator a m in
  match nodes with
  | [] => Fault BadPointer
  | _ =>
      let! (free, max_index, current, freelist) := free_loop (a_max_free_index al) nodes (a_free al) (a_max_index al) (a_current_free_index al) [] in
      c_free_all freelist (set_allocator a (Allocator max_index (a_max_free_index al) current (a_owner al) free) m)
  end.

Definition apr_allocator_destroy (a : Z) (m : mem) : result mem :=
  let! al := get_allocator a m in
  let! m := c_free_all (concat (a_free al)) m in
  let! m := c_free a m in
  Ok (with_allocators (delete a (allocators m)) m).

Definition apr_allocator_max_free_set (a : Z) (in_size : Z) (m : mem) : result mem :=
  let! al := get_allocator a m in
  let max_free_index := Z.shiftr (APR_ALIGN in_size BOUNDARY_SIZE) BOUNDARY_INDEX in
  let current := wrap 64 (wrap 64 (a_current_free_index al + max_free_index) - a_max_free_index al) in
  Ok (set_allocator a (Allocator (a_max_index al) max_free_index
        (if max_free_index <? current then max_free_index else current) (a_owner al) (a_free al)) m).

Definition apr_allocator_owner_set (a pool : Z) (m : mem) : result mem :=
  let! al := get_allocator a m in
  Ok (set_allocator a (Allocator (a_max_index al) (a_max_free_index al) (a_current_free_index al) pool (a_free al)) m).

End Functions.

(** ** Pools *)

(** [cleanup_t] *)
Record cleanup := Cleanup { c_addr : Z; c_data : Z; c_plain : Z; c_child : Z }.

(** [apr_pool_t]; [p_ring] are the nodes from [active] on. *)
Record pool := Pool {
  p_addr : Z;
  p_allocator : Z;
  p_abort_fn : Z;
  p_ring : list memnode;
  p_self : Z;
  p_self_first_avail : Z;
  p_cleanups : list cleanup;
  p_free_cleanups : list Z;
  p_pre_cleanups : list cleanup }.

Definition with_ring r p := Pool (p_addr p) (p_allocator p) (p_abort_fn p) r (p_self p) (p_self_first_avail p) (p_cleanups p) (p_free_cleanups p) (p_pre_cleanups p).
Definition with_cleanups cs fs ps p := Pool (p_addr p) (p_allocator p) (p_abort_fn p) (p_ring p) (p_self p) (p_self_first_avail p) cs fs ps.

(** The calls a pool makes: a cleanup, the one for a child process, and
    [abort_fn]. *)
Inductive call := CallPlain (fn data : Z) | CallChild (fn data : Z) | CallAbort (fn : Z).

Definition abort_calls (fn : Z) : list call := if fn =? 0 then [] else [CallAbort fn].
Definition run_cleanups (cs : list cleanup) : list call := (fun c => CallPlain (c_plain c) (c_data c)) <$> cs.
Definition run_child_cleanups (cs : list cleanup) : list call := (fun c => CallChild (c_child c) (c_data c)) <$> cs.

Definition node_free_space (n : memnode) : Z := wrap 64 (n_endp n - n_first_avail n).

(** The walk along the ring for the place of the node that was active: it is
    put in front of the first node that has no more space.  The walk comes
    round to the new active node, and would not end if it passed that one. *)
Fixpoint walk (free_index : Z) (active new : memnode) (l : list memnode) : result (list memnode) :=
  match l with
  | [] => if free_index <? n_free_index new then OutOfFuel else Ok [active]
  | n :: l' =>
      if free_index <? n_free_index n
      then let! r := walk free_index active new l' in Ok (n :: r)
      else Ok (active :: l)
  end.

(** The end of [apr_palloc]: [new] becomes the active node of the ring of
    [active] and [rest]. *)
Definition activate (new active : memnode) (rest : list memnode) : result (list memnode) :=
  let free_index := Z.shiftr (wrap 64 (APR_ALIGN (wrap 64 (n_endp active - n_first_avail active + 1)) BOUNDARY_SIZE - BOUNDARY_SIZE)) BOUNDARY_INDEX in
  let! rest := walk free_index (with_free_index (wrap 32 free_index) active) new rest in
  Ok (new :: rest).

Section PoolFunctions.
Context `{Malloc}.

(** [apr_palloc]: the address, the calls, the pool and the memory. *)
Definition apr_palloc (in_size : Z) (p : pool) (m : mem) : result (Z * list call * pool * mem) :=
  let size := APR_ALIGN_DEFAULT in_size in
  if size <? in_size then Ok (0, abort_calls (p_abort_fn p), p, m)
  else
    match p_ring p with
    | [] => Fault BadPointer
    | active :: rest =>
        if size <=? node_free_space active then
          Ok (n_first_avail active, [], with_ring (with_first_avail (n_first_avail active + size) active :: rest) p, m)
        else
          let use (n : memnode) (rest : list memnode) (m : mem) :=
            let n := with_free_index 0 n in
            let! ring := activate (with_first_avail (n_first_avail n + size) n) active rest in
            Ok (n_first_avail n, [], with_ring ring p, m) in
          match rest with
          | n :: rest' =>
              if size <=? node_free_space n then use n rest' m
              else
                let! (r, m) := allocator_alloc (p_allocator p) size m in
                match r with
                | None => Ok (0, abort_calls (p_abort_fn p), p, m)
                | Some n => use n rest m
                end
          | [] =>
              let! (r, m) := allocator_alloc (p_allocator p) size m in
              match r with
              | None => Ok (0, abort_calls (p_abort_fn p), p, m)
              | Some n => use n rest m
              end
          end
    end.

(** A structure for a cleanup: one that was given up, or a new one. *)
Definition cleanup_struct (p : pool) (m : mem) : result (Z * list call * pool * mem) :=
  match p_free_cleanups p with
  | c :: cs => Ok (c, [], with_cleanups (p_cleanups p) cs (p_pre_cleanups p) p, m)
  | [] => apr_palloc SIZEOF_CLEANUP_T p m
  end.

Definition apr_pool_cleanup_register (data plain child : Z) (p : pool) (m : mem) : result (list call * pool * mem) :=
  let! (c, k, p, m) := cleanup_struct p m in
  if c =? 0 then Fault BadPointer
  else Ok (k, with_cleanups (Cleanup c data plain child :: p_cleanups p) (p_free_cleanups p) (p_pre_cleanups p) p, m).

(** The field [child_cleanup_fn] is not written, and not read. *)
Definition apr_pool_pre_cleanup_register (data plain : Z) (p : pool) (m : mem) : result (list call * pool * mem) :=
  let! (c, k, p, m) := cleanup_struct p m in
  if c =? 0 then Fault BadPointer
  else Ok (k, with_cleanups (p_cleanups p) (p_free_cleanups p) (Cleanup c data plain 0 :: p_pre_cleanups p) p, m).

Definition is_cleanup (data plain : Z) (c : cleanup) : bool := (c_data c =? data) && (c_plain c =? plain).

(** The first cleanup of the list for the data leaves it. *)
Fixpoint unlink (data plain : Z) (cs : list cleanup) : option Z * list cleanup :=
  match cs with
  | [] => (None, [])
  | c :: cs' =>
      if is_cleanup data plain c then (Some (c_addr c), cs')
      else let (r, l) := unlink data plain cs' in (r, c :: l)
  end.

Definition opt_cons (o : option Z) (l : list Z) : list Z := match o with Some a => a :: l | None => l end.

Definition apr_pool_cleanup_kill (data plain : Z) (p : pool) : pool :=
  let (o1, cs) := unlink data plain (p_cleanups p) in
  let (o2, ps) := unlink data plain (p_pre_cleanups p) in
  with_cleanups cs (opt_cons o2 (opt_cons o1 (p_free_cleanups p))) ps p.

Definition apr_pool_cleanup_run (data plain : Z) (p : pool) : list call * pool :=
  ([CallPlain plain data], apr_pool_cleanup_kill data plain p).

Fixpoint set_child (data plain child : Z) (cs : list cleanup) : list cleanup :=
  match cs with
  | [] => []
  | c :: cs' =>
      if is_cleanup data plain c then Cleanup (c_addr c) (c_data c) (c_plain c) child :: cs'
      else c :: set_child data plain child cs'
  end.

Definition apr_pool_child_cleanup_set (data plain child : Z) (p : pool) : pool :=
  with_cleanups (set_child data plain child (p_cleanups p)) (p_free_cleanups p) (p_pre_cleanups p) p.

(** ** The tree of pools *)

(** The ring from the node at [a] on: that node, and those behind it. *)
Fixpoint ring_from (a : Z) (passed l : list memnode) : result (memnode * list memnode) :=
  match l with
  | [] => Fault BadPointer
  | n :: l => if n_addr n =? a then Ok (n, l ++ passed) else ring_from a (passed ++ [n]) l
  end.

(** The end of [apr_pool_destroy]: the nodes, and the allocator the pool owns. *)
Definition release (p : pool) (m : mem) : result mem :=
  let! (self, others) := ring_from (p_self p) [] (p_ring p) in
  let! m := allocator_free (p_allocator p) (self :: others) m in
  let! al := get_allocator (p_allocator p) m in
  if a_owner al =? p_addr p then apr_allocator_destroy (p_allocator p) m else Ok m.

(** [apr_pool_destroy], given the destruction of the pools below. *)
Definition destroy_with (children : mem -> result (list call * mem)) (p : pool) (m : mem) : result (list call * mem) :=
  let! (k, m) := children m in
  let! m := release p m in
  Ok (run_cleanups (p_pre_cleanups p) ++ k ++ run_cleanups (p_cleanups p), m).

End PoolFunctions.

(** [child] and [sibling] *)
Inductive tree (A : Type) := Null | Link (a : A) (child sibling : tree A).
Arguments Null {A}.
Arguments Link {A} _ _ _.

Section Trees.
Context {A : Type} (key : A -> Z).

(** The element at an address, with what is below it. *)
Fixpoint find (p : Z) (t : tree A) : option (A * tree A) :=
  match t with
  | Null => None
  | Link a c s =>
      if key a =? p then Some (a, c)
      else match find p c with Some r => Some r | None => find p s end
  end.

Fixpoint update (p : Z) (a' : A) (c' : tree A) (t : tree A) : tree A :=
  match t with
  | Null => Null
  | Link a c s => if key a =? p then Link a' c' s else Link a (update p a' c' c) (update p a' c' s)
  end.

(** [*pool->ref = pool->sibling] *)
Fixpoint remove (p : Z) (t : tree A) : tree A :=
  match t with
  | Null => Null
  | Link a c s => if key a =? p then s else Link a (remove p c) (remove p s)
  end.

(** The elements, each before those below it. *)
Fixpoint elems (t : tree A) : list A :=
  match t with Null => [] | Link a c s => a :: elems c ++ elems s end.

End Trees.

Section TreeFunctions.
Context `{Malloc}.

(** The loop that destroys the children. *)
Fixpoint destroy_children (t : tree pool) (m : mem) : result (list call * mem) :=
  match t with
  | Null => Ok ([], m)
  | Link p c s =>
      let! (k, m) := destroy_with (destroy_children c) p m in
      let! (k', m) := destroy_children s m in
      Ok (k ++ k', m)
  end.

Record state := State { memory : mem; pools : tree pool; global_pool : Z }.

Definition lookup_pool (p : Z) (st : state) : result (pool * tree pool) :=
  match find p_addr p (pools st) with Some r => Ok r | None => Fault BadPointer end.

(** An operation on one pool. *)
Definition on_pool {A} (p : Z) (f : pool -> mem -> result (A * pool * mem)) (st : state) : result (A * state) :=
  let! (d, c) := lookup_pool p st in
  let! (r, d, m) := f d (memory st) in
  Ok (r, State m (update p_addr p d c (pools st)) (global_pool st)).

Definition apr_pool_clear (p : Z) (st : state) : result (list call * state) :=
  let! (d, c) := lookup_pool p st in
  let! (k, m) := destroy_children c (memory st) in
  let! (self, others) := ring_from (p_self d) [] (p_ring d) in
  let! m := match others with [] => Ok m | _ => allocator_free (p_allocator d) others m end in
  let d' := with_cleanups [] [] [] (with_ring [with_first_avail (p_self_first_avail d) self] d) in
  Ok (run_cleanups (p_pre_cleanups d) ++ k ++ run_cleanups (p_cleanups d),
      State m (update p_addr p d' Null (pools st)) (global_pool st)).

Definition apr_pool_destroy (p : Z) (st : state) : result (list call * state) :=
  let! (d, c) := lookup_pool p st in
  let! (k, m) := destroy_with (destroy_children c) d (memory st) in
  Ok (k, State m (remove p_addr p (pools st)) (global_pool st)).

(** The new pool in its node. *)
Definition new_pool (n : memnode) (allocator abort_fn : Z) : pool :=
  let pool := n_first_avail n in
  Pool pool allocator abort_fn [with_first_avail (pool + SIZEOF_POOL_T) n] (n_addr n) (pool + SIZEOF_POOL_T) [] [] [].

(** [apr_pool_create_ex] when there is a parent; null pointers are 0. *)
Definition apr_pool_create_ex (parent abort_fn allocator : Z) (st : state) : result (Z * list call * state) :=
  let parent := if parent =? 0 then global_pool st else parent in
  let! (d, c) := lookup_pool parent st in
  let abort_fn := if abort_fn =? 0 then p_abort_fn d else abort_fn in
  let allocator := if allocator =? 0 then p_allocator d else allocator in
  let! (r, m) := allocator_alloc allocator (MIN_ALLOC - APR_MEMNODE_T_SIZE) (memory st) in
  match r with
  | None => Ok (0, abort_calls abort_fn, State m (pools st) (global_pool st))
  | Some n =>
      let new := new_pool n allocator abort_fn in
      Ok (p_addr new, [], State m (update p_addr parent d (Link new Null c) (pools st)) (global_pool st))
  end.

(** A pool with an allocator of its own, as [agc_core_memory_init] makes it;
    without memory that function stops the program. *)
Definition create_with_allocator (parent : Z) (st : state) : result (Z * list call * state) :=
  let (a, m) := apr_allocator_create (memory st) in
  if a =? 0 then Ok (0, [], State m (pools st) (global_pool st))
  else
    let! (p, k, st) := apr_pool_create_ex parent 0 a (State m (pools st) (global_pool st)) in
    if p =? 0 then
      let! m := apr_allocator_destroy a (memory st) in Ok (0, k, State m (pools st) (global_pool st))
    else
      let! m := apr_allocator_owner_set a p (memory st) in Ok (p, k, State m (pools st) (global_pool st)).

(** [apr_pool_initialize], the first time; [None] is [APR_ENOMEM]. *)
Definition apr_pool_initialize (m : mem) : result (option state * mem) :=
  let (a, m) := apr_allocator_create m in
  if a =? 0 then Ok (None, m)
  else
    let! (r, m) := allocator_alloc a (MIN_ALLOC - APR_MEMNODE_T_SIZE) m in
    match r with
    | None => let! m := apr_allocator_destroy a m in Ok (None, m)
    | Some n =>
        let new := new_pool n a 0 in
        let! m := apr_allocator_owner_set a (p_addr new) m in
        Ok (Some (State m (Link new Null Null) (p_addr new)), m)
    end.

(** [apr_pool_create_unmanaged_ex]: a pool without a parent; [None] is
    [APR_ENOMEM]. *)
Definition apr_pool_create_unmanaged_ex (abort_fn allocator : Z) (m : mem) : result (option pool * list call * mem) :=
  let (a, m) := if allocator =? 0 then apr_allocator_create m else (allocator, m) in
  if a =? 0 then Ok (None, abort_calls abort_fn, m)
  else
    let! (r, m) := allocator_alloc a (MIN_ALLOC - APR_MEMNODE_T_SIZE) m in
    match r with
    | None => Ok (None, abort_calls abort_fn, m)
    | Some n =>
        let new := new_pool n a abort_fn in
        let! m := if allocator =? 0 then apr_allocator_owner_set a (p_addr new) m else Ok m in
        Ok (Some new, [], m)
    end.

Definition apr_pool_terminate (st : state) : result (list call * mem) :=
  let! (k, st) := apr_pool_destroy (global_pool st) st in Ok (k, memory st).

(** [cleanup_pool_for_exec], for a pool and its siblings. *)
Fixpoint cleanup_pool_for_exec (t : tree pool) : list call * tree pool :=
  match t with
  | Null => ([], Null)
  | Link p c s =>
      let (k1, c) := cleanup_pool_for_exec c in
      let (k2, s) := cleanup_pool_for_exec s in
      (run_child_cleanups (p_cleanups p) ++ k1 ++ k2, Link (with_cleanups [] (p_free_cleanups p) (p_pre_cleanups p) p) c s)
  end.

Definition apr_pool_cleanup_for_exec (st : state) : list call * state :=
  let (k, t) := cleanup_pool_for_exec (pools st) in (k, State (memory st) t (global_pool st)).

(** ** Sequences of operations *)

Inductive op :=
  | Create (parent abort_fn : Z)
  | CreateOwn (parent : Z)
  | Alloc (p size : Z)
  | Register (p data plain child : Z)
  | PreRegister (p data plain : Z)
  | Kill (p data plain : Z)
  | Run (p data plain : Z)
  | ChildSet (p data plain child : Z)
  | Clear (p : Z)
  | Destroy (p : Z)
  | ForExec
  | MaxFree (p size : Z).

(** What an operation returns: an address, or the null pointer, and the calls
    made.  For a cleanup it is the structure that was allocated. *)
Definition out : Type := Z * list call.

Definition struct_of (p : pool) (m : mem) : result Z :=
  match p_free_cleanups p with
  | _ :: _ => Ok 0
  | [] => let! (a, _, _, _) := apr_palloc SIZEOF_CLEANUP_T p m in Ok a
  end.

Definition step (o : op) (st : state) : result (out * state) :=
  match o with
  | Create parent fn => apr_pool_create_ex parent fn 0 st
  | CreateOwn parent => create_with_allocator parent st
  | Alloc p size => on_pool p (apr_palloc size) st
  | Register p data plain child =>
      on_pool p (fun d m => let! a := struct_of d m in let! (k, d, m) := apr_pool_cleanup_register data plain child d m in Ok (a, k, d, m)) st
  | PreRegister p data plain =>
      on_pool p (fun d m => let! a := struct_of d m in let! (k, d, m) := apr_pool_pre_cleanup_register data plain d m in Ok (a, k, d, m)) st
  | Kill p data plain => on_pool p (fun d m => Ok (0, [], apr_pool_cleanup_kill data plain d, m)) st
  | Run p data plain => on_pool p (fun d m => let (k, d) := apr_pool_cleanup_run data plain d in Ok (0, k, d, m)) st
  | ChildSet p data plain child => on_pool p (fun d m => Ok (0, [], apr_pool_child_cleanup_set data plain child d, m)) st
  | Clear p => let! (k, st) := apr_pool_clear p st in Ok (0, k, st)
  | Destroy p => let! (k, st) := apr_pool_destroy p st in Ok (0, k, st)
  | ForExec => let (k, st) := apr_pool_cleanup_for_exec st in Ok (0, k, st)
  | MaxFree p size => on_pool p (fun d m => let! m := apr_allocator_max_free_set (p_allocator d) size m in Ok (0, [], d, m)) st
  end.

Fixpoint run (ops : list op) (st : state) : result (list out * state) :=
  match ops with
  | [] => Ok ([], st)
  | o :: ops =>
      let! (r, st) := step o st in
      let! (rs, st) := run ops st in
      Ok (r :: rs, st)
  end.

End TreeFunctions.

(** ** What is promised

    A region is what the user of a pool sees of it: the blocks that are his until
    the pool is cleared or destroyed (with the structure of the pool itself and
    those of its cleanups), and the cleanups, latest first. *)

Record region := Region {
  r_addr : Z;
  r_abort_fn : Z;
  r_blocks : list (Z * Z);
  r_cleanups : list (Z * Z * Z);
  r_pre_cleanups : list (Z * Z) }.

Definition with_blocks bs r := Region (r_addr r) (r_abort_fn r) bs (r_cleanups r) (r_pre_cleanups r).
Definition with_registered cs ps r := Region (r_addr r) (r_abort_fn r) (r_blocks r) cs ps.

Definition all_blocks (rt : tree region) : list (Z * Z) := elems rt ≫= r_blocks.

(** A block may be added: it is aligned and does not overlap any other. *)
Definition fits (b : Z * Z) (rt : tree region) : bool :=
  (0 <? b.1) && (b.1 mod 8 =? 0) && bool_decide (Forall (disj b) (all_blocks rt)).

Definition plain_calls (r : region) : list call := (fun '(data, plain, _) => CallPlain plain data) <$> r_cleanups r.
Definition child_calls (r : region) : list call := (fun '(data, _, child) => CallChild child data) <$> r_cleanups r.
Definition pre_calls (r : region) : list call := (fun '(data, plain) => CallPlain plain data) <$> r_pre_cleanups r.

(** The calls of destroying a list of pools. *)
Fixpoint destroy_calls (rt : tree region) : list call :=
  match rt with
  | Null => []
  | Link r c s => (pre_calls r ++ destroy_calls c ++ plain_calls r) ++ destroy_calls s
  end.

Fixpoint exec_calls (rt : tree region) : list call :=
  match rt with Null => [] | Link r c s => child_calls r ++ exec_calls c ++ exec_calls s end.

Fixpoint exec_regions (rt : tree region) : tree region :=
  match rt with
  | Null => Null
  | Link r c s => Link (with_registered [] (r_pre_cleanups r) r) (exec_regions c) (exec_regions s)
  end.

(** The first element with a property is removed, or changed. *)
Fixpoint drop_first {A} (f : A -> bool) (l : list A) : list A :=
  match l with [] => [] | x :: l => if f x then l else x :: drop_first f l end.
Fixpoint change_first {A} (f : A -> bool) (g : A -> A) (l : list A) : list A :=
  match l with [] => [] | x :: l => if f x then g x :: l else x :: change_first f g l end.

Definition same3 (data plain : Z) (c : Z * Z * Z) : bool := (c.1.1 =? data) && (c.1.2 =? plain).
Definition same2 (data plain : Z) (c : Z * Z) : bool := (c.1 =? data) && (c.2 =? plain).

Definition killed (data plain : Z) (r : region) : region :=
  with_registered (drop_first (same3 data plain) (r_cleanups r)) (drop_first (same2 data plain) (r_pre_cleanups r)) r.

#[global] Instance call_eq_dec : EqDecision call.
Proof. solve_decision. Defined.

Definition guard (b : bool) {A} (a : A) : option A := if b then Some a else None.

(** The operation on the regions, given what it returned: [None] if that is not
    allowed.  [refused] says that there was no memory. *)
Definition region_step (g : Z) (refused : bool) (rt : tree region) (o : op) (r : out) : option (tree region) :=
  let (a, k) := r in
  let on p (f : region -> option region) :=
    match find r_addr p rt with
    | Some (r, c) => match f r with Some r' => Some (update r_addr p r' c rt) | None => None end
    | None => None
    end in
  let quiet := bool_decide (k = []) in
  let created parent fn (silent : bool) :=
    let parent := if parent =? 0 then g else parent in
    match find r_addr parent rt with
    | Some (r, c) =>
        let fn := if fn =? 0 then r_abort_fn r else fn in
        if a =? 0 then guard (refused && (bool_decide (k = abort_calls fn) || silent && quiet)) rt
        else guard (quiet && fits (a, SIZEOF_POOL_T) rt)
               (update r_addr parent r (Link (Region a fn [(a, SIZEOF_POOL_T)] [] []) Null c) rt)
    | None => None
    end in
  let registered (r : region) := if a =? 0 then r else with_blocks ((a, SIZEOF_CLEANUP_T) :: r_blocks r) r in
  let struct_ok := quiet && ((a =? 0) || fits (a, SIZEOF_CLEANUP_T) rt) in
  match o with
  | Create parent fn => created parent fn false
  | CreateOwn parent => created parent 0 true
  | Alloc p size =>
      on p (fun r =>
        if a =? 0 then guard (refused && bool_decide (k = abort_calls (r_abort_fn r))) r
        else guard (quiet && fits (a, size) rt) (with_blocks ((a, size) :: r_blocks r) r))
  | Register p data plain child =>
      on p (fun r => guard struct_ok (with_registered ((data, plain, child) :: r_cleanups r) (r_pre_cleanups r) (registered r)))
  | PreRegister p data plain =>
      on p (fun r => guard struct_ok (with_registered (r_cleanups r) ((data, plain) :: r_pre_cleanups r) (registered r)))
  | Kill p data plain => on p (fun r => guard quiet (killed data plain r))
  | Run p data plain => on p (fun r => guard (bool_decide (k = [CallPlain plain data])) (killed data plain r))
  | ChildSet p data plain child =>
      on p (fun r => guard quiet (with_registered (change_first (same3 data plain) (fun c => (c.1, child)) (r_cleanups r)) (r_pre_cleanups r) r))
  | Clear p =>
      match find r_addr p rt with
      | Some (r, c) =>
          guard (bool_decide (k = pre_calls r ++ destroy_calls c ++ plain_calls r))
            (update r_addr p (Region p (r_abort_fn r) [(p, SIZEOF_POOL_T)] [] []) Null rt)
      | None => None
      end
  | Destroy p =>
      match find r_addr p rt with
      | Some (r, c) => guard (bool_decide (k = pre_calls r ++ destroy_calls c ++ plain_calls r)) (remove r_addr p rt)
      | None => None
      end
  | ForExec => guard (bool_decide (k = exec_calls rt)) (exec_regions rt)
  | MaxFree p _ => on p (fun r => guard quiet r)
  end.

(** The regions after [apr_pool_initialize]. *)
Definition first_region (g : Z) : tree region := Link (Region g 0 [(g, SIZEOF_POOL_T)] [] []) Null Null.

Section Follow.
Context `{Malloc}.

(** [malloc] gives no node, or so much was asked for that it is not called. *)
Definition refused (o : op) (st : state) : bool :=
  let no_node size m := malloc (mallocs m) (heap m) size =? 0 in
  match o with
  | Create _ _ => no_node MIN_ALLOC (memory st)
  | CreateOwn _ => let (a, m) := apr_allocator_create (memory st) in (a =? 0) || no_node MIN_ALLOC m
  | Alloc _ size => (2 ^ 43 <=? size) || no_node (allocator_align (APR_ALIGN_DEFAULT size)) (memory st)
  | Register _ _ _ _ | PreRegister _ _ _ => no_node (allocator_align (APR_ALIGN_DEFAULT SIZEOF_CLEANUP_T)) (memory st)
  | _ => false
  end.

(** A cleanup is registered when the pool has no structure left over for it and
    [malloc] gives no node. *)
Definition no_struct (o : op) (st : state) : bool :=
  match o with
  | Register p _ _ _ | PreRegister p _ _ =>
      match find p_addr p (pools st) with
      | Some (d, _) => bool_decide (p_free_cleanups d = []) && refused o st
      | None => false
      end
  | _ => false
  end.

(** The use of pools that is allowed: the pool is there, and the global pool is
    not destroyed. *)
Definition enabled (rt : tree region) (o : op) (st : state) : bool :=
  let live p := match find r_addr p rt with Some _ => true | None => false end in
  let word n := (0 <=? n) && (n <? 2 ^ 64) in
  match o with
  | Create parent _ | CreateOwn parent => (parent =? 0) || live parent
  | Alloc p size | MaxFree p size => live p && word size
  | Register p _ _ _ | PreRegister p _ _ | Kill p _ _ | Run p _ _ | ChildSet p _ _ _ | Clear p => live p
  | Destroy p => live p && negb (p =? global_pool st)
  | ForExec => true
  end.

(** Pools and regions side by side; [None] if an operation faults or returns
    what the regions do not allow. *)
Fixpoint follow (ops : list op) (st : state) (rt : tree region) : option (state * tree region) :=
  match ops with
  | [] => Some (st, rt)
  | o :: ops =>
      match step o st with
      | Ok (r, st') =>
          match region_step (global_pool st) (refused o st) rt o r with
          | Some rt' => follow ops st' rt'
          | None => None
          end
      | _ => None
      end
  end.

(** Every operation is allowed when it is called. *)
Fixpoint legal (ops : list op) (st : state) (rt : tree region) : bool :=
  match ops with
  | [] => true
  | o :: ops =>
      enabled rt o st &&
      match step o st with
      | Ok (r, st') =>
          match region_step (global_pool st) (refused o st) rt o r with
          | Some rt' => legal ops st' rt'
          | None => true
          end
      | _ => true
      end
  end.

End Follow.

(** ** An allocator on its own *)

(** A node is taken, or those of the nodes held that have the given addresses
    are given back, as one list in that order. *)
Inductive node_op := TakeNode (size : Z) | GiveNodes (addrs : list Z).

(** The node at an address, taken out of those held. *)
Fixpoint pick_node (x : Z) (held : list memnode) : option memnode * list memnode :=
  match held with
  | [] => (None, [])
  | n :: held => if n_addr n =? x then (Some n, held) else let (r, held) := pick_node x held in (r, n :: held)
  end.

Fixpoint pick_nodes (addrs : list Z) (held : list memnode) : list memnode * list memnode :=
  match addrs with
  | [] => ([], held)
  | x :: addrs =>
      let (r, held) := pick_node x held in
      let (l, held) := pick_nodes addrs held in
      (match r with Some n => n :: l | None => l end, held)
  end.

Fixpoint use_allocator `{Malloc} (a : Z) (ops : list node_op) (held : list memnode) (m : mem) : result (list memnode * mem) :=
  match ops with
  | [] => Ok (held, m)
  | TakeNode size :: ops =>
      let! (r, m) := allocator_alloc a size m in
      use_allocator a ops (match r with Some n => n :: held | None => held end) m
  | GiveNodes addrs :: ops =>
      match pick_nodes addrs held with
      | ([], held) => use_allocator a ops held m
      | (l, held) => let! m := allocator_free a l m in use_allocator a ops held m
      end
  end.

(** The pages an allocator keeps. *)
Definition pages (l : list memnode) : Z := foldr (fun n s => n_index n + 1 + s) 0 l.
Definition kept (al : allocator) : Z := pages (concat (a_free al)).

(** A [malloc] that gives out the memory behind everything in use. *)
Definition heap_end (heap : gmap Z Z) : Z := map_fold (fun b n e => Z.max (b + n) e) 4096 heap.

Definition bump (k : nat) (heap : gmap Z Z) (n : Z) : Z :=
  let a := 16 * (heap_end heap / 16 + 1) in if a + n <? 2 ^ 64 then a else 0.

Lemma heap_end_le heap : 0 < heap_end heap /\ map_Forall (fun b n => b + n <= heap_end heap) heap.
Proof.
  unfold heap_end. apply (map_fold_weak_ind (fun e h => 0 < e /\ map_Forall (fun b n => b + n <= e) h)).
  - split; [lia|]. apply map_Forall_empty.
  - intros b n h e Hb [He Hh]. split; [lia|]. apply map_Forall_insert_2; [lia|].
    intros b' n' Hb'. specialize (Hh b' n' Hb'). simpl in *. lia.
Qed.

#[global] Program Instance bump_malloc : Malloc := {| malloc := bump |}.
Next Obligation.
  intros k h n Hn. unfold bump. destruct (heap_end_le h) as [He Hh].
  destruct (Z.ltb_spec (16 * (heap_end h / 16 + 1) + n) (2 ^ 64)); [right|by left].
  pose proof (Z.mul_succ_div_gt (heap_end h) 16 ltac:(lia)).
  split_and!; [lia| |lia|].
  - rewrite Z.mul_comm. apply Z_mod_mult.
  - intros b m Hb. specialize (Hh b m Hb). unfold disj. simpl in *. lia.
Qed.

Definition first_state : state :=
  match apr_pool_initialize (Mem ∅ 0 ∅) with Ok (Some st, _) => st | _ => State (Mem ∅ 0 ∅) Null 0 end.

Definition sample (g : Z) : list op :=
  [Create 0 7; Alloc g 100; CreateOwn g; Alloc g 9000; Alloc g 20; Register g 1 2 3; Alloc g 4000; Alloc g 70000; Kill g 1 2; PreRegister g 4 5; Register g 8 8 8; ForExec;
   Run g 4 5; MaxFree g 100000; Clear g; Alloc g (2 ^ 63); Alloc g 90000; Create g 0].

End AprPools.
