(* ===== verification/AprPoolsProof.v ===== *)
(** * Pools of memory: correctness

    What [malloc] has given out is, in [hold], a list of blocks; the functions on
    allocators are shown to move nodes between the free lists and a frame, as
    in a separation logic.  Then come rings, the tree of pools, and the
    theorems on sequences of operations. *)

From stdpp Require Import base gmap list fin_maps.
From Stdlib Require Import ZArith Lia Sorted.
From S2P Require Import Prelude AprPools.

Module AprPoolsProof.
Import AprPools.

(** ** Permutations

    Two lists are permutations when they have the same number of each element,
    which is a matter of arithmetic. *)

Definition cnt (x : Z * Z) (l : list (Z * Z)) : nat := length (filter (fun y => y = x) l).

Lemma cnt_app x l1 l2 : cnt x (l1 ++ l2) = (cnt x l1 + cnt x l2)%nat.
Proof. unfold cnt. by rewrite filter_app, length_app. Qed.

Lemma cnt_cons x y l : cnt x (y :: l) = (cnt x [y] + cnt x l)%nat.
Proof. apply (cnt_app x [y] l). Qed.

Lemma cnt_perm l1 l2 : l1 ≡ₚ l2 <-> forall x, cnt x l1 = cnt x l2.
Proof.
  split.
  - intros Hp x. unfold cnt. by rewrite Hp.
  - revert l2. induction l1 as [|y l1 IH]; intros l2 Hc.
    + destruct l2 as [|z l2]; [done|]. specialize (Hc z). rewrite (cnt_cons z z) in Hc.
      unfold cnt in Hc at 2. rewrite filter_cons_True in Hc by done. done.
    + assert (y ∈ l2) as (a & b & ->)%list_elem_of_split.
      { specialize (Hc y). rewrite cnt_cons in Hc. unfold cnt in Hc at 1. rewrite filter_cons_True in Hc by done.
        destruct (filter (fun z => z = y) l2) as [|z ?] eqn:E; unfold cnt in Hc; rewrite E in Hc; [done|].
        assert (z ∈ filter (fun z => z = y) l2) as [-> ?]%list_elem_of_filter by (rewrite E; left). done. }
      rewrite <- Permutation_middle. f_equiv. apply IH. intros x. specialize (Hc x).
      rewrite cnt_cons, cnt_app, (cnt_cons x y b) in Hc. rewrite cnt_app. lia.
Qed.

Ltac perm :=
  repeat match goal with H : _ ≡ₚ _ |- _ => rewrite cnt_perm in H end;
  apply cnt_perm; let x := fresh "x" in intros x;
  repeat match goal with H : forall _, cnt _ _ = cnt _ _ |- _ => specialize (H x) end;
  repeat (rewrite !cnt_app in * || rewrite fmap_app in * || rewrite bind_app in *);
  repeat match goal with
  | H : context [cnt x (?a :: ?b :: ?l)] |- _ => rewrite (cnt_cons x a (b :: l)) in H
  | |- context [cnt x (?a :: ?b :: ?l)] => rewrite (cnt_cons x a (b :: l))
  | H : context [cnt x (?a :: ?l)] |- _ => lazymatch l with [] => fail | _ => rewrite (cnt_cons x a l) in H end
  | |- context [cnt x (?a :: ?l)] => lazymatch l with [] => fail | _ => rewrite (cnt_cons x a l) end
  end;
  rewrite ?cnt_app in *; cbn [cnt] in *; try lia.

(** ** The heap *)

Definition hold (h : gmap Z Z) (l : list (Z * Z)) : Prop := l ≡ₚ map_to_list h.

Definition heap_ok (h : gmap Z Z) : Prop :=
  map_Forall (fun a n => 0 < a /\ a mod 16 = 0 /\ 0 < n /\ a + n < 2 ^ 64) h /\
  forall a n b m, h !! a = Some n -> h !! b = Some m -> a <> b -> disj (a, n) (b, m).

#[global] Instance hold_proper h : Proper ((≡ₚ) ==> iff) (hold h).
Proof. intros l1 l2 Hl. unfold hold. by rewrite Hl. Qed.

Lemma hold_lookup h a n l : hold h ((a, n) :: l) -> h !! a = Some n.
Proof. unfold hold. intros Hh. apply elem_of_map_to_list. rewrite <- Hh. left. Qed.

Lemma hold_two h a n b m l : hold h ((a, n) :: (b, m) :: l) -> heap_ok h -> disj (a, n) (b, m).
Proof.
  intros Hh [_ Hd]. apply Hd.
  - by eapply hold_lookup.
  - eapply hold_lookup. unfold hold in *. rewrite <- Hh. apply Permutation_swap.
  - pose proof (NoDup_fst_map_to_list h) as Hn. unfold hold in Hh. rewrite <- Hh in Hn. simpl in Hn.
    apply NoDup_cons in Hn as [Hn _]. intros ->. apply Hn. left.
Qed.

Lemma hold_insert h a n l : h !! a = None -> hold h l -> hold (<[a := n]> h) ((a, n) :: l).
Proof. intros Ha Hh. unfold hold in *. rewrite map_to_list_insert by done. by rewrite Hh. Qed.

Lemma hold_delete h a n l : hold h ((a, n) :: l) -> hold (delete a h) l.
Proof.
  intros Hh. pose proof (hold_lookup _ _ _ _ Hh) as Ha. unfold hold in *.
  rewrite <- (map_to_list_delete h a n Ha) in Hh. by eapply Permutation.Permutation_cons_inv.
Qed.

Lemma heap_ok_delete h a : heap_ok h -> heap_ok (delete a h).
Proof.
  intros [H1 H2]. split; [by apply map_Forall_delete|].
  intros x n y m Hx%lookup_delete_Some Hy%lookup_delete_Some. naive_solver.
Qed.

Lemma overlap_sym x y : disj x y -> disj y x.
Proof. unfold disj. lia. Qed.

(** ** Alignment *)

Lemma APR_ALIGN_eq size k : 0 <= k -> APR_ALIGN size (2 ^ k) = 2 ^ k * (wrap 64 (size + (2 ^ k - 1)) / 2 ^ k).
Proof.
  intros Hk. unfold APR_ALIGN. rewrite <- Z.ldiff_land. replace (2 ^ k - 1) with (Z.ones k) at 2 by (rewrite Z.ones_equiv; lia).
  rewrite Z.ldiff_ones_r, Z.shiftl_mul_pow2, Z.shiftr_div_pow2 by lia. lia.
Qed.

Lemma APR_ALIGN_bounds size k :
  0 <= k -> 0 <= size < 2 ^ 64 -> size <= APR_ALIGN size (2 ^ k) ->
  APR_ALIGN size (2 ^ k) mod 2 ^ k = 0 /\ 0 <= APR_ALIGN size (2 ^ k) < size + 2 ^ k /\ APR_ALIGN size (2 ^ k) < 2 ^ 64.
Proof.
  intros Hk Hs. rewrite APR_ALIGN_eq by done. unfold wrap.
  pose proof (Z.mod_pos_bound (size + (2 ^ k - 1)) (2 ^ 64) ltac:(lia)) as Hm.
  pose proof (Z.mod_le (size + (2 ^ k - 1)) (2 ^ 64)).
  pose proof (Z.pow_pos_nonneg 2 k ltac:(lia) Hk) as Hp.
  set (w := (size + (2 ^ k - 1)) mod 2 ^ 64) in *.
  pose proof (Z.mul_div_le w (2 ^ k) Hp). pose proof (Z.div_pos w (2 ^ k) ltac:(lia) Hp).
  intros Hle. split_and!; [|nia|nia|lia].
  rewrite Z.mul_comm. apply Z_mod_mult.
Qed.

Lemma APR_ALIGN_ge size k :
  0 <= k -> 0 <= size -> size + (2 ^ k - 1) < 2 ^ 64 -> size <= APR_ALIGN size (2 ^ k).
Proof.
  intros Hk Hs Hb. pose proof (Z.pow_pos_nonneg 2 k ltac:(lia) Hk) as Hp.
  rewrite APR_ALIGN_eq, wrap_small by lia.
  pose proof (Z.mul_succ_div_gt (size + (2 ^ k - 1)) (2 ^ k) Hp). nia.
Qed.

Lemma BOUNDARY_SIZE_eq : BOUNDARY_SIZE = 2 ^ 12.
Proof. reflexivity. Qed.

(** The number of pages of a node, less one, and why there is none. *)
Lemma allocator_align_ok s :
  0 <= s < 2 ^ 64 ->
  let size := allocator_align s in let index := Z.shiftr size BOUNDARY_INDEX - 1 in
  size = 0 /\ 2 ^ 63 <= s \/
  1 <= index /\ size = 4096 * (index + 1) /\ s + APR_MEMNODE_T_SIZE <= size < 2 ^ 64 /\ (s < 2 ^ 43 + 8 -> index <= APR_UINT32_MAX).
Proof.
  intros Hs size index. unfold index, size, allocator_align, MIN_ALLOC, APR_MEMNODE_T_SIZE, APR_UINT32_MAX, BOUNDARY_INDEX.
  rewrite BOUNDARY_SIZE_eq, Z.shiftr_div_pow2 by lia.
  set (x := wrap 64 (s + 40)). assert (0 <= x < 2 ^ 64) by (apply Z.mod_pos_bound; lia).
  pose proof (APR_ALIGN_bounds x 12 ltac:(lia) H) as Hb. pose proof (APR_ALIGN_ge x 12 ltac:(lia)) as Hg.
  assert (s + 40 + 4095 < 2 ^ 64 -> x = s + 40) by (intros; apply wrap_small; lia).
  assert (2 ^ 64 <= s + 40 -> x = s + 40 - 2 ^ 64) by (intros; unfold x, wrap; symmetry; apply (Z.mod_unique _ _ 1); lia).
  assert (s + 40 < 2 ^ 64 -> x = s + 40) by (intros; apply wrap_small; lia).
  assert (2 ^ 64 <= x + 4095 -> APR_ALIGN x (2 ^ 12) = 0) as Ho.
  { intros. rewrite APR_ALIGN_eq by lia. unfold wrap.
    rewrite <- (Z.mod_unique (x + (2 ^ 12 - 1)) (2 ^ 64) 1 (x + (2 ^ 12 - 1) - 2 ^ 64)) by lia. rewrite Z.div_small by lia. lia. }
  assert (APR_ALIGN x (2 ^ 12) = 4096 * (APR_ALIGN x (2 ^ 12) / 4096)) as Hd.
  { rewrite APR_ALIGN_eq by lia. rewrite (Z.mul_comm (2 ^ 12)), Z.div_mul by lia. lia. }
  destruct (Z.ltb_spec (APR_ALIGN x (2 ^ 12)) s) as [Hlt|Hge].
  { left. split; [done|]. destruct (Z_lt_le_dec (x + 4095) (2 ^ 64)); [|lia]. destruct (Z_lt_le_dec (s + 40) (2 ^ 64)); lia. }
  right. assert (s + 40 < 2 ^ 64).
  { destruct (Z_lt_le_dec (s + 40) (2 ^ 64)); [done|]. lia. }
  assert (x + 4095 < 2 ^ 64) by (destruct (Z_lt_le_dec (x + 4095) (2 ^ 64)); lia).
  destruct (Z.ltb_spec (APR_ALIGN x (2 ^ 12)) (2 * 2 ^ 12)).
  - change (2 * 2 ^ 12 / 2 ^ 12) with 2. lia.
  - change (2 ^ 12) with 4096 in *. lia.
Qed.

(** ** Nodes and free lists *)

Definition blk (n : memnode) : Z * Z := (n_addr n, n_endp n - n_addr n).

Record node_ok (n : memnode) : Prop := {
  node_addr : 0 < n_addr n /\ n_addr n mod 8 = 0;
  node_index : 1 <= n_index n <= APR_UINT32_MAX;
  node_endp : n_endp n = n_addr n + 4096 * (n_index n + 1);
  node_end : n_endp n < 2 ^ 64 }.

Definition bucket_ok (i : nat) (n : memnode) : Prop :=
  node_ok n /\ (if (i =? 0)%nat then Z.of_nat MAX_INDEX <= n_index n else n_index n = Z.of_nat i).

Record allocator_ok (al : allocator) : Prop := {
  al_length : length (a_free al) = MAX_INDEX;
  al_buckets : forall i l, a_free al !! i = Some l -> Forall (bucket_ok i) l;
  al_max : (a_max_index al < MAX_INDEX)%nat;
  al_above : forall i l, (a_max_index al < i)%nat -> a_free al !! i = Some l -> l = [];
  al_current : 0 <= a_current_free_index al <= a_max_free_index al }.

Lemma bucket_Ok free i : (i < length free)%nat -> exists l, free !! i = Some l /\ bucket free i = Ok l.
Proof. intros [l Hl]%lookup_lt_is_Some. exists l. unfold bucket. by rewrite Hl. Qed.

Lemma bucket_lookup free i l : free !! i = Some l -> bucket free i = Ok l.
Proof. unfold bucket. by intros ->. Qed.

Lemma concat_insert {A} (ls : list (list A)) i l l' :
  ls !! i = Some l -> exists r, concat ls ≡ₚ l ++ r /\ concat (<[i := l']> ls) ≡ₚ l' ++ r.
Proof.
  intros Hi. exists (concat (take i ls) ++ concat (drop (S i) ls)).
  rewrite insert_take_drop by (by eapply lookup_lt_Some). rewrite <- (take_drop_middle ls i l Hi) at 1.
  rewrite !concat_app, !concat_cons. split; solve_Permutation || (rewrite !(Permutation_app_comm (concat (take i ls))), <- !app_assoc; f_equiv; apply Permutation_app_comm).
Qed.

(** ** Taking a node from the free lists *)

Lemma scan_up_ok free k i :
  (i + k < length free)%nat -> exists j, scan_up free k i = Ok j /\ (i <= j <= i + k)%nat.
Proof.
  revert i. induction k as [|k IH]; intros i Hl; simpl; [exists i; split; [done|lia]|].
  destruct (bucket_Ok free i ltac:(lia)) as (l & _ & ->). simpl. destruct l as [|n l].
  - destruct (IH (S i) ltac:(lia)) as (j & -> & Hj). exists j. split; [done|lia].
  - exists i. split; [done|lia].
Qed.

Lemma scan_down_ok free m :
  (0 < m <= length free)%nat ->
  exists j, scan_down free m = Ok j /\ (j < m)%nat /\ forall i l, (j < i < m)%nat -> free !! i = Some l -> l = [].
Proof.
  induction m as [|i IH]; intros Hm; [lia|]. simpl.
  destruct (bucket_Ok free i ltac:(lia)) as (l & Hl & ->). simpl. destruct l as [|n l].
  - destruct (Nat.eqb_spec i 0) as [->|Hi]; [exists 0%nat; split_and!; [done|lia|]; intros; lia|].
    destruct (IH ltac:(lia)) as (j & -> & Hj & Ha). exists j. split_and!; [done|lia|].
    intros i' l' Hi' Hl'. destruct (decide (i' = i)) as [->|]; [congruence|]. apply (Ha i' l'); [lia|done].
  - exists i. split_and!; [done|lia|]. intros; lia.
Qed.

Lemma scan_sink_ok index l n l' :
  scan_sink index l = Some (n, l') -> l ≡ₚ n :: l' /\ index <= n_index n.
Proof.
  revert l'. induction l as [|x l IH]; intros l' Hs; simplify_eq/=.
  destruct (Z.ltb_spec (n_index x) index); [|by simplify_eq].
  destruct (scan_sink index l) as [[n0 l0]|]; simplify_eq. destruct (IH l0 eq_refl) as [-> ?]. split; [|done]. apply Permutation_swap.
Qed.

(** A node leaves its slot. *)
Lemma taken_ok al i n l l' max_index :
  allocator_ok al -> a_free al !! i = Some l -> l ≡ₚ n :: l' -> (max_index <= a_max_index al)%nat ->
  (forall j x, (max_index < j <= a_max_index al)%nat -> <[i := l']> (a_free al) !! j = Some x -> x = []) ->
  let al' := taken al n max_index (<[i := l']> (a_free al)) in
  allocator_ok al' /\ a_owner al' = a_owner al /\ concat (a_free al) ≡ₚ n :: concat (a_free al') /\ bucket_ok i n.
Proof.
  intros [Hlen Hb Hm Ha Hc] Hi Hl Hle Habove al'.
  pose proof (Hb i l Hi) as Hbi. rewrite Hl in Hbi. apply Forall_cons in Hbi as [Hn Hl'].
  assert (i < length (a_free al))%nat by (by eapply lookup_lt_Some).
  split_and!; [|done| |done].
  - constructor; unfold al', taken; cbn [a_free a_max_index a_current_free_index a_max_free_index].
    + by rewrite length_insert.
    + intros j x [(<- & <- & _)|[_ Hx]]%list_lookup_insert_Some; [done|by apply Hb].
    + lia.
    + intros j x Hj Hx. destruct (decide (j <= a_max_index al)%nat); [apply (Habove j); [lia|done]|].
      apply list_lookup_insert_Some in Hx as [(<- & <- & _)|[_ Hx]]; [|apply (Ha j); [lia|done]].
      assert (l = []) as -> by (apply (Ha i); [lia|done]). by apply Permutation_nil_l in Hl.
    + assert (0 <= wrap 64 (a_current_free_index al + wrap 32 (n_index n + 1))) by (apply Z.mod_pos_bound; lia).
      destruct (Z.ltb_spec (a_max_free_index al) (wrap 64 (a_current_free_index al + wrap 32 (n_index n + 1)))); lia.
  - destruct (concat_insert (a_free al) i l l' Hi) as (r & H1 & H2). cbn [a_free al' taken]. rewrite H1, H2, Hl. done.
Qed.

Lemma take_free_ok index al :
  allocator_ok al -> 1 <= index ->
  exists r, take_free index al = Ok r /\
    match r with
    | None => True
    | Some (n, al') =>
        allocator_ok al' /\ a_owner al' = a_owner al /\ concat (a_free al) ≡ₚ n :: concat (a_free al') /\ node_ok n /\ index <= n_index n
    end.
Proof.
  intros Hok Hi. pose proof Hok as [Hlen Hb Hm Ha Hc]. unfold take_free, MAX_INDEX in *.
  destruct (Z.leb_spec index (Z.of_nat (a_max_index al))) as [Hx|Hx].
  - destruct (scan_up_ok (a_free al) (a_max_index al - Z.to_nat index) (Z.to_nat index) ltac:(lia)) as (i & -> & Hj). simpl.
    destruct (bucket_Ok (a_free al) i ltac:(lia)) as (l & Hl & ->). simpl.
    destruct l as [|n l']; [by eexists|].
    assert (exists mi, (match l' with [] => if (a_max_index al <=? i)%nat then scan_down (<[i := l']> (a_free al)) (a_max_index al) else Ok (a_max_index al) | _ => Ok (a_max_index al) end) = Ok mi
      /\ (mi <= a_max_index al)%nat /\ forall j x, (mi < j <= a_max_index al)%nat -> <[i := l']> (a_free al) !! j = Some x -> x = []) as (mi & E & Hmi & Hab).
    { destruct l'; [|eexists; split_and!; [done|lia|]; intros; lia].
      destruct (Nat.leb_spec (a_max_index al) i); [|eexists; split_and!; [done|lia|]; intros; lia].
      destruct (scan_down_ok (<[i := []]> (a_free al)) (a_max_index al)) as (mi & E & Hmi & Hab); [rewrite length_insert; lia|].
      exists mi. split_and!; [done|lia|]. intros j x Hj' Hx'. destruct (decide (j = a_max_index al)) as [->|]; [|apply (Hab j); [lia|done]].
      replace (a_max_index al) with i in Hx' by lia. rewrite list_lookup_insert_eq in Hx' by lia. congruence. }
    rewrite E. simpl. eexists. split; [done|].
    destruct (taken_ok al i n (n :: l') l' mi Hok Hl ltac:(done) Hmi Hab) as (? & ? & ? & [? Hidx]). split_and!; try done.
    destruct (Nat.eqb_spec i 0); lia.
  - destruct (bucket_Ok (a_free al) 0 ltac:(lia)) as (l & Hl & ->). simpl.
    destruct (scan_sink index l) as [[n l']|] eqn:E; [|by eexists].
    apply scan_sink_ok in E as [Hp Hidx]. eexists. split; [done|].
    destruct (taken_ok al 0 n l l' (a_max_index al) Hok Hl Hp ltac:(lia) ltac:(intros; lia)) as (? & ? & ? & [? _]). done.
Qed.

(** ** Allocators in memory *)

Definition foot_allocator (x : Z * allocator) : list (Z * Z) := (x.1, SIZEOF_ALLOCATOR_T) :: (blk <$> concat (a_free x.2)).
Definition foot_allocators (als : gmap Z allocator) : list (Z * Z) := map_to_list als ≫= foot_allocator.

(** The blocks in use are the allocators, their free nodes, and [F]. *)
Record mem_ok (m : mem) (F : list (Z * Z)) : Prop := {
  mem_hold : hold (heap m) (foot_allocators (allocators m) ++ F);
  mem_heap : heap_ok (heap m);
  mem_allocators : map_Forall (fun _ => allocator_ok) (allocators m) }.

#[global] Instance mem_ok_proper m : Proper ((≡ₚ) ==> iff) (mem_ok m).
Proof. intros l1 l2 Hl. split; intros []; constructor; try done; [by rewrite <- Hl|by rewrite Hl]. Qed.

Definition owners (m : mem) : gmap Z Z := a_owner <$> allocators m.

Lemma foot_lookup als a al : als !! a = Some al -> foot_allocators als ≡ₚ foot_allocator (a, al) ++ foot_allocators (delete a als).
Proof. intros Ha. unfold foot_allocators. by rewrite <- (map_to_list_delete als a al Ha). Qed.

Lemma foot_insert als a al : als !! a = None -> foot_allocators (<[a := al]> als) ≡ₚ foot_allocator (a, al) ++ foot_allocators als.
Proof. intros Ha. unfold foot_allocators. by rewrite map_to_list_insert. Qed.

Lemma foot_set als a al : foot_allocators (<[a := al]> als) ≡ₚ foot_allocator (a, al) ++ foot_allocators (delete a als).
Proof. rewrite <- insert_delete_eq. apply foot_insert, lookup_delete_eq. Qed.

(** An allocator changes, and gives nodes to the frame or takes them from it. *)
Lemma mem_ok_set m F F' a al al' :
  mem_ok m F -> allocators m !! a = Some al -> allocator_ok al' ->
  (blk <$> concat (a_free al)) ++ F ≡ₚ (blk <$> concat (a_free al')) ++ F' ->
  mem_ok (set_allocator a al' m) F'.
Proof.
  intros [Hh Hk Hf] Ha Hal' Hp. constructor; [|done|by apply map_Forall_insert_2].
  simpl. unfold hold in *. rewrite <- Hh, foot_set, (foot_lookup _ _ _ Ha). unfold foot_allocator. cbn [fst snd]. perm.
Qed.

Lemma owners_set m a al al' :
  allocators m !! a = Some al -> a_owner al' = a_owner al -> owners (set_allocator a al' m) = owners m.
Proof.
  intros Ha Ho. unfold owners. simpl. rewrite fmap_insert, Ho. apply insert_id. by rewrite lookup_fmap, Ha.
Qed.

Lemma owners_lookup m a o : owners m !! a = Some o -> exists al, allocators m !! a = Some al /\ a_owner al = o.
Proof. unfold owners. rewrite lookup_fmap. destruct (allocators m !! a) eqn:E; naive_solver. Qed.

Lemma get_allocator_Ok a m al : allocators m !! a = Some al -> get_allocator a m = Ok al.
Proof. unfold get_allocator. by intros ->. Qed.

Lemma c_free_ok m F a n :
  mem_ok m ((a, n) :: F) -> exists m', c_free a m = Ok m' /\ mem_ok m' F /\ allocators m' = allocators m.
Proof.
  intros [Hh Hk Hf]. assert (hold (heap m) ((a, n) :: foot_allocators (allocators m) ++ F)) as Hh'.
  { by rewrite Permutation_middle. }
  unfold c_free. rewrite (hold_lookup _ _ _ _ Hh'). eexists. split; [done|]. split; [|done].
  constructor; [by eapply hold_delete|by apply heap_ok_delete|done].
Qed.

Lemma c_free_all_ok l m F :
  mem_ok m ((blk <$> l) ++ F) -> exists m', c_free_all l m = Ok m' /\ mem_ok m' F /\ allocators m' = allocators m.
Proof.
  revert m. induction l as [|n l IH]; intros m Hm; simpl in *; [by exists m|].
  destruct (c_free_ok m _ _ _ Hm) as (m1 & -> & H1 & E1). simpl.
  destruct (IH m1 H1) as (m2 & -> & H2 & E2). exists m2. split_and!; [done|done|congruence].
Qed.

(** Freeing does not look at the allocators. *)
Lemma c_free_frame a m als m' : c_free a (with_allocators als m) = Ok m' -> c_free a m = Ok (with_allocators (allocators m) m').
Proof. unfold c_free. simpl. destruct (heap m !! a); [|done]. intros. by simplify_eq. Qed.

Lemma c_free_all_frame l m als m' : c_free_all l (with_allocators als m) = Ok m' -> c_free_all l m = Ok (with_allocators (allocators m) m').
Proof.
  revert m m'. induction l as [|n l IH]; intros m m' Hm; cbn [c_free_all] in *; [simplify_eq; by destruct m|].
  apply rbind_inv in Hm as (m1 & H1 & Hm). rewrite (c_free_frame _ _ _ _ H1). cbn [rbind].
  assert (allocators m1 = als) as E by (unfold c_free in H1; simpl in H1; destruct (heap m !! n_addr n); by simplify_eq).
  replace m1 with (with_allocators als (with_allocators (allocators m) m1)) in Hm by (destruct m1; simpl in *; by subst).
  by rewrite (IH _ _ Hm).
Qed.

Section Proofs.
Context `{Malloc}.

Lemma c_malloc_ok size m F :
  mem_ok m F -> 0 < size ->
  exists p m', c_malloc size m = (p, m') /\ p = malloc (mallocs m) (heap m) size /\ allocators m' = allocators m /\
    (p = 0 /\ mem_ok m' F \/ 0 < p /\ p mod 16 = 0 /\ p + size < 2 ^ 64 /\ heap m !! p = None /\ mem_ok m' ((p, size) :: F)).
Proof.
  intros [Hh [Hk Hd] Hf] Hs. unfold c_malloc. eexists _, _. split; [done|]. split; [done|]. split; [done|].
  set (p := malloc (mallocs m) (heap m) size).
  destruct (malloc_law (mallocs m) (heap m) size Hs) as [E|(H0 & H16 & H64 & Hdis)].
  - left. unfold p. rewrite E. done.
  - right. fold p in H0, H16, H64, Hdis. rewrite (proj2 (Z.eqb_neq p 0)) by lia.
    assert (heap m !! p = None) as Hp.
    { destruct (heap m !! p) as [x|] eqn:E; [|done]. pose proof (Hk _ _ E). pose proof (Hdis _ _ E) as Hx. unfold disj in Hx. simpl in *. lia. }
    split_and!; try done. constructor; simpl; [| |done].
    + unfold hold in *. rewrite map_to_list_insert by done. rewrite <- Hh. perm.
    + split; [apply map_Forall_insert_2; [lia|done]|].
      intros a n b k [[<- <-]|[_ Ha]]%lookup_insert_Some [[<- <-]|[_ Hb]]%lookup_insert_Some Hne; [done| | |by apply Hd].
      * by apply Hdis.
      * by apply overlap_sym, Hdis.
Qed.

Lemma have_node_ok n : node_ok n -> node_ok (have_node n).
Proof. intros []. by constructor. Qed.

(** A node that was just handed out, of at least [s] bytes. *)
Definition fresh_node (s : Z) (n : memnode) : Prop :=
  node_ok n /\ n_first_avail n = n_addr n + APR_MEMNODE_T_SIZE /\ n_first_avail n + s <= n_endp n.

Lemma allocator_alloc_ok a s m F :
  mem_ok m F -> is_Some (owners m !! a) -> 0 <= s < 2 ^ 64 ->
  exists r m', allocator_alloc a s m = Ok (r, m') /\ owners m' = owners m /\
    match r with
    | None => mem_ok m' F /\ (2 ^ 43 + 8 <= s \/ malloc (mallocs m) (heap m) (allocator_align s) = 0)
    | Some n => mem_ok m' (blk n :: F) /\ fresh_node s n
    end.
Proof.
  intros Hm [o (al & Ha & Ho)%owners_lookup] Hs. unfold allocator_alloc.
  destruct (allocator_align_ok s Hs) as [[-> Hbig]|(Hi & Hsz & Hb & H43)].
  { simpl. eexists _, _. split; [done|]. split; [done|]. split; [done|]. left. lia. }
  set (size := allocator_align s) in *. set (index := Z.shiftr size BOUNDARY_INDEX - 1) in *.
  unfold APR_MEMNODE_T_SIZE in *. rewrite (proj2 (Z.eqb_neq size 0)) by lia.
  destruct (Z.ltb_spec APR_UINT32_MAX index) as [Hu|Hu].
  { eexists _, _. split; [done|]. split; [done|]. split; [done|]. left. lia. }
  rewrite (get_allocator_Ok _ _ _ Ha). cbn [rbind].
  destruct (take_free_ok index al (mem_allocators _ _ Hm _ _ Ha) Hi) as (r & -> & Hr). cbn [rbind].
  destruct r as [[n al']|].
  - destruct Hr as (Hal' & Hown & Hp & Hn & Hidx). eexists _, _. split; [done|]. split; [by eapply owners_set|].
    split; [|split_and!; [by apply have_node_ok|done|]].
    + eapply mem_ok_set; [done..|]. rewrite Hp. cbn [fmap list_fmap]. change (blk (have_node n)) with (blk n). perm.
    + destruct Hn. cbn [n_first_avail n_endp have_node with_first_avail]. unfold APR_MEMNODE_T_SIZE. lia.
  - destruct (c_malloc_ok size m F Hm ltac:(lia)) as (p & m' & -> & Ep & Eal & Hp).
    assert (owners m' = owners m) as Hown by (unfold owners; congruence).
    destruct Hp as [[Hp0 Hm']|(Hp0 & H16 & H64 & _ & Hm')].
    + rewrite Hp0. simpl. eexists _, _. split; [done|]. split; [done|]. split; [done|]. right. congruence.
    + rewrite (proj2 (Z.eqb_neq p 0)) by lia. eexists _, _. split; [done|]. split; [done|].
      unfold blk, have_node, with_first_avail, fresh_node. cbn [n_addr n_index n_endp n_first_avail n_free_index]. split; [by replace (p + size - p) with size by lia|].
      split_and!; [|done|unfold APR_MEMNODE_T_SIZE; lia].
      constructor; cbn [n_addr n_index n_endp n_first_avail n_free_index]; [split; [lia|]|lia..].
      rewrite (Z.div_mod p 16), H16 by lia. replace (16 * (p / 16) + 0) with (2 * (p / 16) * 8) by lia. apply Z_mod_mult.
Qed.

(** ** Giving nodes back *)

(** A node goes to its slot. *)
Lemma free_slot_ok al n i l max_index current :
  allocator_ok al -> bucket_ok i n -> a_free al !! i = Some l -> (a_max_index al <= max_index < MAX_INDEX)%nat -> (i <= max_index)%nat ->
  0 <= current <= a_max_free_index al ->
  let al' := Allocator max_index (a_max_free_index al) current (a_owner al) (<[i := n :: l]> (a_free al)) in
  allocator_ok al' /\ concat (a_free al') ≡ₚ n :: concat (a_free al).
Proof.
  intros [Hlen Hb Hm Ha Hc] Hn Hi Hmi Hle Hcur al'. split.
  - constructor; simpl; [by rewrite length_insert| |lia| |done].
    + intros j x [(<- & <- & _)|[_ Hx]]%list_lookup_insert_Some; [constructor; [done|by apply Hb]|by apply Hb].
    + intros j x Hj Hx. rewrite list_lookup_insert_ne in Hx by lia. apply (Ha j); [lia|done].
  - destruct (concat_insert (a_free al) i l (n :: l) Hi) as (r & H1 & H2). cbn [a_free al']. by rewrite H1, H2.
Qed.

Lemma free_loop_ok nodes al fl :
  allocator_ok al -> Forall node_ok nodes ->
  exists free mi current fl', free_loop (a_max_free_index al) nodes (a_free al) (a_max_index al) (a_current_free_index al) fl = Ok (free, mi, current, fl') /\
    allocator_ok (Allocator mi (a_max_free_index al) current (a_owner al) free) /\
    concat free ++ fl' ≡ₚ concat (a_free al) ++ nodes ++ fl.
Proof.
  revert al fl. induction nodes as [|n nodes IH]; intros al fl Hal Hns.
  { simpl. eexists _, _, _, _. split; [done|]. by destruct al. }
  apply Forall_cons in Hns as [Hn Hns]. pose proof Hal as [Hlen Hb Hm Ha Hc]. pose proof (node_index _ Hn) as Hidx. cbn [free_loop]. cbv zeta.
  destruct (negb _ && _) eqn:E.
  { destruct (IH al (n :: fl) Hal Hns) as (free & mi & cur & fl' & -> & Hok & Hp). eexists _, _, _, _. split; [done|]. split; [done|].
    rewrite Hp. f_equiv. cbn [app]. by rewrite Permutation_middle. }
  set (less := if n_index n + 1 <=? a_current_free_index al then a_current_free_index al - (n_index n + 1) else 0).
  assert (0 <= less <= a_max_free_index al) by (unfold less; destruct (Z.leb_spec (n_index n + 1) (a_current_free_index al)); lia).
  match goal with |- context [if n_index n <? ?x then ?A else ?B] =>
    assert (exists i l mi, a_free al !! i = Some l /\ bucket_ok i n /\ (a_max_index al <= mi < MAX_INDEX)%nat /\ (i <= mi)%nat /\
      (if n_index n <? x then A else B) = free_loop (a_max_free_index al) nodes (<[i := n :: l]> (a_free al)) mi less fl)
      as (i & l & mi & Hi & Hbi & Hmi & Hle & ->)
  end.
  { unfold MAX_INDEX in *. destruct (Z.ltb_spec (n_index n) (Z.of_nat 20)).
    - destruct (bucket_Ok (a_free al) (Z.to_nat (n_index n)) ltac:(lia)) as (l & Hl & ->). simpl.
      assert (bucket_ok (Z.to_nat (n_index n)) n). { split; [done|]. destruct (Nat.eqb_spec (Z.to_nat (n_index n)) 0); lia. }
      eexists _, l, _. split; [exact Hl|]. split; [done|]. split; [|split; [|reflexivity]].
      + destruct l; lia.
      + destruct l as [|x l]; [lia|]. destruct (decide (a_max_index al < Z.to_nat (n_index n))%nat); [|lia].
        discriminate (Ha _ _ ltac:(eassumption) Hl).
    - destruct (bucket_Ok (a_free al) 0 ltac:(lia)) as (l & Hl & ->). simpl.
      eexists _, l, _. split; [exact Hl|]. split; [by split|]. split; [|split; [|reflexivity]]; lia. }
  destruct (free_slot_ok al n i l mi less Hal Hbi Hi Hmi Hle ltac:(done)) as [Hal' Hcat].
  destruct (IH _ fl Hal' Hns) as (free & mi' & cur & fl' & E' & Hok & Hp). simpl in E', Hok, Hp, Hcat.
  eexists _, _, _, _. split; [exact E'|]. split; [done|]. rewrite Hp, Hcat. cbn [app]. by rewrite Permutation_middle.
Qed.

Lemma allocator_free_ok a nodes m F :
  mem_ok m ((blk <$> nodes) ++ F) -> is_Some (owners m !! a) -> Forall node_ok nodes -> nodes <> [] ->
  exists m', allocator_free a nodes m = Ok m' /\ mem_ok m' F /\ owners m' = owners m.
Proof.
  intros Hm [o (al & Ha & Ho)%owners_lookup] Hn Hne. unfold allocator_free. rewrite (get_allocator_Ok _ _ _ Ha). cbn [rbind].
  destruct (free_loop_ok nodes al [] (mem_allocators _ _ Hm _ _ Ha) Hn) as (free & mi & cur & fl & E & Hok & Hp).
  destruct nodes as [|n0 nodes]; [done|]. rewrite E. cbn [rbind].
  set (al' := Allocator mi (a_max_free_index al) cur (a_owner al) free) in *.
  destruct (c_free_all_ok fl (set_allocator a al' m) F) as (m' & -> & Hm' & Eal).
  { eapply mem_ok_set; [done..|]. cbn [a_free al']. rewrite !app_assoc, <- !fmap_app. rewrite app_nil_r in Hp. by rewrite <- Hp. }
  exists m'. split_and!; [done|done|]. unfold owners. rewrite Eal. by eapply owners_set.
Qed.

Lemma apr_allocator_destroy_ok a m F :
  mem_ok m F -> is_Some (owners m !! a) ->
  exists m', apr_allocator_destroy a m = Ok m' /\ mem_ok m' F /\ owners m' = delete a (owners m).
Proof.
  intros Hm [o (al & Ha & Ho)%owners_lookup]. unfold apr_allocator_destroy. rewrite (get_allocator_Ok _ _ _ Ha). simpl.
  destruct Hm as [Hh Hk Hf].
  set (m0 := with_allocators (delete a (allocators m)) m).
  assert (mem_ok m0 ((blk <$> concat (a_free al)) ++ (a, SIZEOF_ALLOCATOR_T) :: F)) as Hm0.
  { constructor; simpl; [|done|by apply map_Forall_delete]. unfold hold in *. rewrite <- Hh, (foot_lookup _ _ _ Ha). unfold foot_allocator. cbn [fst snd]. perm. }
  destruct (c_free_all_ok _ m0 _ Hm0) as (m1 & E1 & H1 & A1). rewrite (c_free_all_frame _ _ _ _ E1). simpl.
  destruct (c_free_ok m1 F a _ H1) as (m2 & E2 & H2 & A2).
  replace m1 with (with_allocators (allocators m1) (with_allocators (allocators m) m1)) in E2 by (by destruct m1).
  rewrite (c_free_frame _ _ _ _ E2). simpl. eexists. split; [done|]. rewrite A1 in A2.
  replace (with_allocators _ _) with m2; [split; [done|]|destruct m2; simpl in *; by subst].
  unfold owners. rewrite A2. simpl. apply fmap_delete.
Qed.

End Proofs.

(** ** Rings *)

Definition space (n : memnode) : Z := n_endp n - n_first_avail n.

Record ring_node (n : memnode) : Prop := {
  rn_node : node_ok n;
  rn_first : n_addr n + APR_MEMNODE_T_SIZE <= n_first_avail n <= n_endp n;
  rn_align : n_first_avail n mod 8 = 0 }.

(** A node that is not the active one: it says how many pages it has left. *)
Definition ranked (n : memnode) : Prop := n_free_index n = space n / 4096.
Definition by_space (n1 n2 : memnode) : Prop := n_free_index n2 <= n_free_index n1.

(** The nodes behind the active one come with the most space first. *)
Definition ring_ok (l : list memnode) : Prop :=
  exists active rest, l = active :: rest /\ Forall ring_node l /\ StronglySorted by_space rest /\ Forall ranked rest.

(** A block in the part of a node that was handed out. *)
Definition in_node (n : memnode) (b : Z * Z) : Prop :=
  n_addr n + APR_MEMNODE_T_SIZE <= b.1 /\ 0 <= b.2 /\ b.1 + b.2 <= n_first_avail n.
Definition in_ring (l : list memnode) (b : Z * Z) : Prop := exists n, n ∈ l /\ in_node n b.

(** The nodes are still there, and more of them is handed out. *)
Definition grown (l l' : list memnode) : Prop :=
  forall n, n ∈ l -> exists n', n' ∈ l' /\ n_addr n' = n_addr n /\ n_first_avail n <= n_first_avail n'.

Lemma in_ring_grown l l' b : grown l l' -> in_ring l b -> in_ring l' b.
Proof. intros Hg (n & Hn & Hb). destruct (Hg n Hn) as (n' & ? & ? & ?). exists n'. split; [done|]. unfold in_node in *. lia. Qed.

Lemma space_bound n : ring_node n -> 0 <= space n < 2 ^ 44 /\ node_free_space n = space n.
Proof.
  intros [[[Ha _] Hi He H64] Hf _]. unfold space, node_free_space, APR_MEMNODE_T_SIZE, APR_UINT32_MAX in *.
  split; [lia|]. apply wrap_small. lia.
Qed.

Lemma walk_ok fi active new l :
  n_free_index active = fi -> n_free_index new = 0 -> 0 <= fi -> StronglySorted by_space l ->
  exists l', walk fi active new l = Ok l' /\ l' ≡ₚ active :: l /\ StronglySorted by_space l'.
Proof.
  intros Hfi Hnew H0. induction l as [|n l IH]; intros Hs; simpl.
  - rewrite Hnew. rewrite (proj2 (Z.ltb_ge fi 0)) by done. eexists. split; [done|]. split; [done|]. by repeat constructor.
  - apply StronglySorted_inv in Hs as [Hs Hf]. destruct (Z.ltb_spec fi (n_free_index n)) as [Hlt|Hge].
    + destruct (IH Hs) as (l' & -> & Hp & Hs'). simpl. eexists. split; [done|]. split; [rewrite Hp; apply Permutation_swap|].
      constructor; [done|]. rewrite Hp. constructor; [unfold by_space; lia|done].
    + eexists. split; [done|]. split; [done|]. constructor; [by constructor|].
      constructor; [unfold by_space; lia|]. eapply Forall_impl; [done|]. unfold by_space. simpl. lia.
Qed.

Lemma free_index_eq n :
  ring_node n ->
  Z.shiftr (wrap 64 (APR_ALIGN (wrap 64 (n_endp n - n_first_avail n + 1)) BOUNDARY_SIZE - BOUNDARY_SIZE)) BOUNDARY_INDEX = space n / 4096 /\
  0 <= space n / 4096 < 2 ^ 32.
Proof.
  intros Hn. destruct (space_bound n Hn) as [Hs _]. unfold BOUNDARY_INDEX. rewrite BOUNDARY_SIZE_eq. fold (space n).
  assert (0 <= space n / 4096 < 2 ^ 32) by (split; [apply Z.div_pos; lia|apply Z.div_lt_upper_bound; lia]).
  rewrite (wrap_small 64 (space n + 1)), APR_ALIGN_eq, (wrap_small 64 (space n + 1 + _)) by lia.
  replace (space n + 1 + (2 ^ 12 - 1)) with (space n + 1 * 2 ^ 12) by lia. rewrite Z.div_add by lia. change (2 ^ 12) with 4096.
  rewrite wrap_small, Z.shiftr_div_pow2 by lia. split; [|done]. change (2 ^ 12) with 4096.
  replace (4096 * (space n / 4096 + 1) - 4096) with (space n / 4096 * 4096) by lia. by apply Z.div_mul.
Qed.

Lemma ring_node_free_index i n : ring_node n -> ring_node (with_free_index i n).
Proof. intros [[] ? ?]. constructor; [constructor|..]; done. Qed.

Lemma activate_ok new active rest :
  ring_node new -> ring_node active -> Forall ring_node rest -> n_free_index new = 0 -> StronglySorted by_space rest -> Forall ranked rest ->
  exists l active', activate new active rest = Ok (new :: l) /\ l ≡ₚ active' :: rest /\ ring_ok (new :: l) /\
    n_addr active' = n_addr active /\ n_first_avail active' = n_first_avail active /\ n_endp active' = n_endp active.
Proof.
  intros Hnew Hact Hrest H0 Hs Hr. unfold activate. destruct (free_index_eq active Hact) as [-> Hb].
  set (active' := with_free_index (wrap 32 (space active / 4096)) active).
  assert (n_free_index active' = space active / 4096) as Efi by (apply wrap_small; lia).
  destruct (walk_ok (space active / 4096) active' new rest Efi H0 ltac:(lia) Hs) as (l & -> & Hp & Hs'). simpl.
  exists l, active'. split_and!; try done. exists new, l. split; [done|].
  assert (ring_node active') by (by apply ring_node_free_index).
  split_and!; [|done|].
  - constructor; [done|]. rewrite Hp. by constructor.
  - rewrite Hp. constructor; [exact Efi|done].
Qed.

(** ** Handing out memory *)

Record pool_ok (d : pool) : Prop := {
  pool_ring : ring_ok (p_ring d);
  pool_addr : p_addr d = p_self d + APR_MEMNODE_T_SIZE;
  pool_first : p_self_first_avail d = p_addr d + SIZEOF_POOL_T;
  pool_self : exists n, n ∈ p_ring d /\ n_addr n = p_self d /\ p_self_first_avail d <= n_first_avail n }.

Lemma pool_ok_ring d l : pool_ok d -> ring_ok l -> grown (p_ring d) l -> pool_ok (with_ring l d).
Proof.
  intros [_ H1 H2 (n & Hn & Ha & Hf)] Hl Hg. constructor; [done..|]. destruct (Hg n Hn) as (n' & ? & ? & ?). exists n'. split_and!; [done|simpl in *; lia..].
Qed.

Lemma mem_ok_lookup m F b : mem_ok m F -> b ∈ F -> heap m !! b.1 = Some b.2.
Proof.
  intros [Hh _ _] Hb. apply elem_of_map_to_list. unfold hold in Hh. rewrite <- Hh. apply elem_of_app. right. by destruct b.
Qed.

Lemma mem_ok_disj m F x y : mem_ok m F -> x ∈ F -> y ∈ F -> x.1 <> y.1 -> disj x y.
Proof.
  intros Hm Hx Hy Hne. destruct (mem_heap _ _ Hm) as [_ Hd].
  rewrite (surjective_pairing x), (surjective_pairing y). apply Hd; [by eapply mem_ok_lookup..|done].
Qed.

Lemma mem_ok_NoDup m F : mem_ok m F -> NoDup F.*1.
Proof.
  intros [Hh _ _]. pose proof (NoDup_fst_map_to_list (heap m)) as Hn. unfold hold in Hh. rewrite <- Hh, fmap_app in Hn.
  by apply NoDup_app in Hn as (_ & _ & Hn).
Qed.

(** The blocks of two nodes do not overlap. *)
Lemma in_node_disj n1 n2 b1 b2 :
  ring_node n1 -> ring_node n2 -> in_node n1 b1 -> in_node n2 b2 -> disj (blk n1) (blk n2) -> disj b1 b2.
Proof.
  intros [_ ? _] [_ ? _] Hb1 Hb2. unfold disj, blk, in_node, APR_MEMNODE_T_SIZE in *. simpl. lia.
Qed.

Definition used (size : Z) (n : memnode) : memnode := with_first_avail (n_first_avail n + size) n.

Lemma used_ok size n : ring_node n -> 0 <= size <= space n -> size mod 8 = 0 -> ring_node (used size n).
Proof.
  intros [[] Hf Ha] Hs H8. unfold space in Hs. constructor; [by constructor|simpl; lia|]. simpl. by rewrite Zplus_mod, Ha, H8.
Qed.

(** What is handed out of a node. *)
Lemma used_block s size n x : ring_node n -> 0 <= s <= size -> in_node (with_free_index x (used size n)) (n_first_avail n, s) /\ in_node (used size n) (n_first_avail n, s).
Proof. intros [_ Hf _] Hs. unfold in_node. simpl. lia. Qed.

Lemma take_node_ok size n active rest :
  ring_node n -> 0 <= size <= space n -> size mod 8 = 0 -> ring_node active -> Forall ring_node rest -> StronglySorted by_space rest -> Forall ranked rest ->
  let n' := with_first_avail (n_first_avail n + size) (with_free_index 0 n) in
  exists l, activate n' active rest = Ok l /\ ring_ok l /\ n' ∈ l /\ (blk <$> l) ≡ₚ blk n :: blk active :: (blk <$> rest) /\ grown (n :: active :: rest) l.
Proof.
  intros Hn Hs H8 Hact Hrest Hsort Hrank n'.
  assert (ring_node n') by (by apply (ring_node_free_index 0 (used size n)), used_ok).
  destruct (activate_ok n' active rest) as (l & active' & -> & Hp & Hok & Ea & Ef & Ee); [done..|].
  exists (n' :: l). split_and!; [done|done|left| |].
  - rewrite Hp. simpl. unfold blk at 2. rewrite Ea, Ee. done.
  - intros x Hx. rewrite elem_of_cons, elem_of_cons in Hx. destruct Hx as [->|[->|Hx]].
    + exists n'. split; [left|]. simpl. lia.
    + exists active'. split; [right; rewrite Hp; left|]. lia.
    + exists x. split; [right; rewrite Hp; by right|]. lia.
Qed.

Section Palloc.
Context `{Malloc}.

(** [a] is a new block of [s] bytes in the ring [l] that has come from [d]. *)
Definition new_block (ring l : list memnode) (a s : Z) : Prop :=
  0 < a /\ a mod 8 = 0 /\ exists n, n ∈ l /\ in_node n (a, s) /\ forall x, x ∈ ring -> n_addr x = n_addr n -> n_first_avail x <= a.

Lemma new_block_disj ring l a s m F b :
  new_block ring l a s -> grown ring l -> mem_ok m ((blk <$> l) ++ F) -> ring_ok l -> in_ring ring b -> disj (a, s) b.
Proof.
  intros (_ & _ & n & Hn & Hb & Hx) Hg Hm (a0 & r0 & -> & Hr & _) (x & Hx' & Hbx). rewrite Forall_forall in Hr.
  destruct (decide (n_addr x = n_addr n)) as [E|E].
  - specialize (Hx x Hx' E). unfold in_node, disj in *. simpl in *. lia.
  - destruct (Hg x Hx') as (x' & Hin & Ea & Ef). apply (in_node_disj n x'); [by apply Hr..|done| |].
    + unfold in_node in *. lia.
    + apply (mem_ok_disj _ _ _ _ Hm); [apply elem_of_app; left; by apply list_elem_of_fmap_2..|]. simpl. congruence.
Qed.

Lemma addr_inj m l F x y : mem_ok m ((blk <$> l) ++ F) -> x ∈ l -> y ∈ l -> n_addr x = n_addr y -> x = y.
Proof.
  intros Hm Hx Hy E. apply mem_ok_NoDup in Hm. rewrite fmap_app in Hm. apply NoDup_app in Hm as (Hm & _ & _).
  apply list_elem_of_lookup in Hx as [i Hi], Hy as [j Hj].
  assert (i = j) as ->; [|congruence]. eapply (NoDup_lookup _ i j (n_addr x) Hm).
  - by rewrite !list_lookup_fmap, Hi.
  - rewrite !list_lookup_fmap, Hj. simpl. by rewrite E.
Qed.

Lemma first_avail_pos n : ring_node n -> 0 < n_first_avail n /\ n_first_avail n mod 8 = 0.
Proof. intros [[] ? ?]. unfold APR_MEMNODE_T_SIZE in *. lia. Qed.

Lemma grown_refl l : grown l l.
Proof. intros x Hx. exists x. split; [done|lia]. Qed.

Lemma APR_ALIGN_DEFAULT_ok s :
  0 <= s < 2 ^ 64 -> s <= APR_ALIGN_DEFAULT s -> APR_ALIGN_DEFAULT s mod 8 = 0 /\ 0 <= APR_ALIGN_DEFAULT s < s + 8 /\ APR_ALIGN_DEFAULT s < 2 ^ 64.
Proof. apply (APR_ALIGN_bounds s 3). lia. Qed.

(** What [apr_palloc] does: a new block, or there is no memory. *)
Definition palloc_post (s : Z) (d : pool) (m : mem) (F : list (Z * Z)) (x : Z * list call * pool * mem) : Prop :=
  exists a k l m', x = (a, k, with_ring l d, m') /\ owners m' = owners m /\
    mem_ok m' ((blk <$> l) ++ F) /\ ring_ok l /\ grown (p_ring d) l /\
    (a = 0 /\ k = abort_calls (p_abort_fn d) /\ l = p_ring d /\ (2 ^ 43 <= s \/ malloc (mallocs m) (heap m) (allocator_align (APR_ALIGN_DEFAULT s)) = 0) \/
     k = [] /\ new_block (p_ring d) l a s).

Section One.
Context (s : Z) (d : pool) (m : mem) (F : list (Z * Z)) (active : memnode) (rest : list memnode).
Context (Er : p_ring d = active :: rest) (Hm : mem_ok m ((blk <$> active :: rest) ++ F)).
Context (Hact : ring_node active) (Hs : 0 <= s < 2 ^ 64) (Hle : s <= APR_ALIGN_DEFAULT s).

(** A node with room becomes the active one. *)
Lemma use_node_ok n m1 rest1 :
  ring_node n -> APR_ALIGN_DEFAULT s <= space n -> Forall ring_node rest1 -> StronglySorted by_space rest1 -> Forall ranked rest1 ->
  mem_ok m1 (blk n :: blk active :: (blk <$> rest1) ++ F) -> owners m1 = owners m -> grown (active :: rest) (n :: active :: rest1) ->
  (forall x, x ∈ active :: rest -> n_addr x = n_addr n -> x = n) ->
  exists r, (let! ring := activate (with_first_avail (n_first_avail (with_free_index 0 n) + APR_ALIGN_DEFAULT s) (with_free_index 0 n)) active rest1 in
      Ok (n_first_avail (with_free_index 0 n), [], with_ring ring d, m1)) = Ok r /\ palloc_post s d m F r.
Proof.
  intros Hn Hsn Hr1 Hs1 Hk1 Hm1 Ho Hg Heq. destruct (APR_ALIGN_DEFAULT_ok s Hs Hle) as (H8 & Hb & H64).
  destruct (take_node_ok (APR_ALIGN_DEFAULT s) n active rest1) as (l & E & Hok & Hin & Hp & Hg'); [done|lia|done..|].
  cbn [n_first_avail with_free_index] in *. rewrite E. cbn [rbind]. eexists. split; [done|].
  eexists _, _, l, m1. split; [done|]. split; [done|]. split; [by rewrite Hp|]. split; [done|]. rewrite Er. split.
  - intros x Hx. destruct (Hg x Hx) as (x1 & Hx1 & ? & ?). destruct (Hg' x1 Hx1) as (x2 & ? & ? & ?). exists x2. split; [done|lia].
  - right. split; [done|]. destruct (first_avail_pos n Hn). split_and!; [done..|]. eexists. split; [exact Hin|].
    split; [apply (used_block s (APR_ALIGN_DEFAULT s) n 0); [done|lia]|]. intros x Hx Ex. by rewrite (Heq x Hx Ex).
Qed.

(** The active node has room. *)
Lemma use_active_ok :
  APR_ALIGN_DEFAULT s <= space active -> ring_ok (active :: rest) ->
  palloc_post s d m F (n_first_avail active, [], with_ring (used (APR_ALIGN_DEFAULT s) active :: rest) d, m).
Proof.
  intros Hfit (a0 & r0 & E & Hnodes & Hsort & Hrank). injection E as <- <-. destruct (APR_ALIGN_DEFAULT_ok s Hs Hle) as (H8 & Hb & H64).
  apply Forall_cons in Hnodes as [_ Hrest].
  eexists _, _, _, m. split; [done|]. split; [done|]. split; [done|]. rewrite Er. split_and!.
  - eexists _, _. split_and!; [done| |done..]. constructor; [apply used_ok; [done|lia|done]|done].
  - intros x [->|Hx]%elem_of_cons; [eexists; split; [left|]; simpl; lia|exists x; split; [by right|lia]].
  - right. split; [done|]. destruct (first_avail_pos active Hact). split_and!; [done..|]. eexists. split; [left|].
    split; [apply (used_block s (APR_ALIGN_DEFAULT s) active 0); [done|lia]|].
    intros x Hx Ex. rewrite (addr_inj m (active :: rest) F x active Hm Hx) by (done || left). done.
Qed.

(** The allocator is asked for a node. *)
Lemma use_new_ok :
  ring_ok (active :: rest) -> is_Some (owners m !! p_allocator d) ->
  exists r, (let! (r, m0) := allocator_alloc (p_allocator d) (APR_ALIGN_DEFAULT s) m in
      match r with
      | None => Ok (0, abort_calls (p_abort_fn d), d, m0)
      | Some n => let! ring := activate (with_first_avail (n_first_avail (with_free_index 0 n) + APR_ALIGN_DEFAULT s) (with_free_index 0 n)) active rest in
          Ok (n_first_avail (with_free_index 0 n), [], with_ring ring d, m0)
      end) = Ok r /\ palloc_post s d m F r.
Proof.
  intros Hring Hown. destruct (APR_ALIGN_DEFAULT_ok s Hs Hle) as (H8 & Hb & H64).
  destruct (allocator_alloc_ok (p_allocator d) (APR_ALIGN_DEFAULT s) m _ Hm Hown ltac:(lia)) as (r & m' & -> & Ho & Hr). cbn [rbind].
  destruct r as [n|].
  - destruct Hr as (Hm' & Hnok & Hfa & Hfit). unfold APR_MEMNODE_T_SIZE in *.
    destruct Hring as (a0 & r0 & E & Hnodes & Hsort & Hrank). injection E as <- <-. apply Forall_cons in Hnodes as [_ Hrest].
    apply use_node_ok; try done.
    + constructor; [done|unfold APR_MEMNODE_T_SIZE; lia|]. rewrite Hfa, Zplus_mod. destruct (node_addr _ Hnok) as [_ ->]. done.
    + unfold space. lia.
    + intros x Hx. exists x. split; [by right|lia].
    + intros x Hx Ex. apply (addr_inj m' (n :: active :: rest) F); [done|by right|left|done].
  - destruct Hr as [Hm' Hwhy]. eexists. split; [done|]. eexists _, _, (active :: rest), m'.
    split; [rewrite <- Er; by destruct d|]. rewrite Er. split_and!; [done|done|done|apply grown_refl|].
    left. split_and!; [done..|]. destruct Hwhy; [left; lia|by right].
Qed.

End One.

Lemma apr_palloc_ok s d m F :
  pool_ok d -> mem_ok m ((blk <$> p_ring d) ++ F) -> is_Some (owners m !! p_allocator d) -> 0 <= s < 2 ^ 64 ->
  exists r, apr_palloc s d m = Ok r /\ palloc_post s d m F r.
Proof.
  intros Hd Hm Hown Hs. pose proof (pool_ring _ Hd) as Hring. unfold apr_palloc. cbv zeta.
  destruct (Z.ltb_spec (APR_ALIGN_DEFAULT s) s) as [Hlt|Hle].
  { eexists. split; [done|]. exists 0, (abort_calls (p_abort_fn d)), (p_ring d), m. split; [by destruct d|].
    split_and!; [done..|apply grown_refl|]. left. split_and!; [done..|]. left.
    destruct (Z_lt_le_dec s (2 ^ 43)); [|done]. pose proof (APR_ALIGN_ge s 3 ltac:(lia) ltac:(lia) ltac:(lia)).
    change (APR_ALIGN s (2 ^ 3)) with (APR_ALIGN_DEFAULT s) in *. lia. }
  pose proof Hring as (active & rest & Er & Hnodes & Hsort & Hrank). rewrite Er in *. pose proof Hnodes as [Hact Hrest]%Forall_cons.
  destruct (space_bound active Hact) as [Hsp ->].
  destruct (Z.leb_spec (APR_ALIGN_DEFAULT s) (space active)) as [Hfit|Hno].
  { eexists. split; [done|]. by apply use_active_ok. }
  destruct rest as [|n rest']; [by apply use_new_ok|].
  pose proof Hrest as [Hn Hrest']%Forall_cons. destruct (space_bound n Hn) as [_ ->].
  destruct (Z.leb_spec (APR_ALIGN_DEFAULT s) (space n)) as [Hfit|]; [|by apply use_new_ok].
  apply StronglySorted_inv in Hsort as [Hsort _]. apply Forall_cons in Hrank as [_ Hrank].
  eapply use_node_ok; try done.
  - cbn [fmap list_fmap app] in Hm. by rewrite Permutation_swap in Hm.
  - intros x Hx. exists x. split; [|lia]. set_solver.
  - intros x Hx Ex. apply (addr_inj m (active :: n :: rest') F); [done|done|right; left|done].
Qed.

End Palloc.

(** ** Trees *)

Section Labels.
Context {A : Type} (lab : A -> Z).

(** The elements, each with the label of the one above it. *)
Fixpoint entries (pa : Z) (t : tree A) : list (Z * A) :=
  match t with Null => [] | Link a c s => (pa, a) :: entries (lab a) c ++ entries pa s end.

(** The labels that are not those of the element above. *)
Definition own (E : list (Z * A)) : list Z := (fun x => lab x.2) <$> filter (fun x => lab x.2 <> x.1) E.

#[global] Instance own_proper : Proper ((≡ₚ) ==> (≡ₚ)) own.
Proof. intros E1 E2 HE. unfold own. by rewrite HE. Qed.

Lemma own_app E1 E2 : own (E1 ++ E2) = own E1 ++ own E2.
Proof. unfold own. by rewrite filter_app, fmap_app. Qed.

Lemma own_cons pa a E : own ((pa, a) :: E) = (if decide (lab a = pa) then [] else [lab a]) ++ own E.
Proof.
  unfold own. destruct (decide (lab a = pa)); [rewrite filter_cons_False by (simpl; tauto)|rewrite filter_cons_True by done]; done.
Qed.

Lemma entries_elems pa t : (entries pa t).*2 = elems t.
Proof. revert pa. induction t as [|a c IHc s IHs]; intros pa; simpl; [done|]. by rewrite fmap_app, IHc, IHs. Qed.

(** Every label is that of the root or one that is owned. *)
Lemma entries_used pa t : Forall (fun x => lab x.2 ∈ pa :: own (entries pa t)) (entries pa t).
Proof.
  revert pa. induction t as [|a c IHc s IHs]; intros pa; cbn [entries]; [constructor|].
  rewrite own_cons, own_app. constructor; [simpl; case_decide; set_solver|]. apply Forall_app. split.
  - eapply Forall_impl; [apply IHc|]. intros [pb b]; simpl. case_decide; set_solver.
  - eapply Forall_impl; [apply IHs|]. intros [pb b]; simpl. case_decide; set_solver.
Qed.

End Labels.

Section Trees.
Context {A : Type} (key lab : A -> Z).
Local Abbreviation entries := (entries lab).
Local Abbreviation own := (own lab).

Lemma find_None p t : find key p t = None <-> p ∉ key <$> elems t.
Proof.
  induction t as [|a c IHc s IHs]; simpl; [split; [set_solver|done]|]. rewrite fmap_app.
  destruct (Z.eqb_spec (key a) p) as [->|Hne]; [set_solver|]. destruct (find key p c); set_solver.
Qed.

Lemma update_None p a' c' t : find key p t = None -> update key p a' c' t = t /\ remove key p t = t.
Proof.
  induction t as [|a c IHc s IHs]; simpl; [done|]. destruct (key a =? p); [done|]. destruct (find key p c); [done|]. intros Hs.
  destruct IHc as [-> ->]; [done|]. by destruct IHs as [-> ->].
Qed.

Lemma find_key p t a c : find key p t = Some (a, c) -> key a = p.
Proof.
  induction t as [|b c0 IHc s IHs]; simpl; [done|]. destruct (Z.eqb_spec (key b) p); [naive_solver|]. destruct (find key p c0); naive_solver.
Qed.

(** The tree around the element at [p]: [pa'] is the label above it, and [rest]
    are the elements that are not below it. *)
Record around (p pa : Z) (t : tree A) (a : A) (c : tree A) (pa' : Z) (rest : list (Z * A)) : Prop := {
  ar_entries : entries pa t ≡ₚ (pa', a) :: entries (lab a) c ++ rest;
  ar_update : forall a' c', lab a' = lab a -> entries pa (update key p a' c' t) ≡ₚ (pa', a') :: entries (lab a) c' ++ rest;
  ar_remove : entries pa (remove key p t) ≡ₚ rest;
  ar_above : pa' ∈ pa :: own rest;
  ar_used : Forall (fun x => lab x.2 ∈ pa :: own rest) rest }.

Lemma find_around p pa t a c :
  NoDup (key <$> elems t) -> find key p t = Some (a, c) -> exists pa' rest, around p pa t a c pa' rest.
Proof.
  revert pa. induction t as [|b tc IHc s IHs]; intros pa Hnd Hf; [done|].
  cbn [elems fmap list_fmap find] in *. rewrite fmap_app in Hnd. apply NoDup_cons in Hnd as [Hb Hnd]. apply NoDup_app in Hnd as (Hc & Hcs & Hs).
  destruct (Z.eqb_spec (key b) p) as [<-|Hne].
  { simplify_eq. exists pa, (entries pa s). constructor; simpl; rewrite ?Z.eqb_refl; [done| |done|set_solver|apply entries_used]. intros a' c' E. simpl. by rewrite E. }
  destruct (find key p tc) as [[a0 c0]|] eqn:E.
  - simplify_eq. destruct (IHc (lab b) Hc eq_refl) as (pa' & rest & [H1 H2 H3 H4 H5]).
    assert (find key p s = None) as En.
    { apply find_None. apply Hcs. assert (find key p tc <> None) as Hn by (by rewrite E). rewrite find_None in Hn. by apply dec_stable. }
    exists pa', ((pa, b) :: rest ++ entries pa s).
    constructor; simpl; rewrite ?(proj2 (Z.eqb_neq (key b) p) Hne).
    + rewrite H1. simpl. rewrite <- !Permutation_middle, <- app_assoc. by rewrite Permutation_swap.
    + intros a' c' El. simpl. destruct (update_None p a' c' s En) as [-> _]. rewrite (H2 a' c' El). simpl. rewrite <- !Permutation_middle, <- app_assoc. by rewrite Permutation_swap.
    + simpl. destruct (update_None p a c s En) as [_ ->]. by rewrite H3.
    + rewrite own_cons, own_app. case_decide; set_solver.
    + rewrite own_cons, own_app. constructor; [simpl; case_decide; set_solver|]. apply Forall_app. split.
      * eapply Forall_impl; [exact H5|]. intros [pb x]; simpl. case_decide; set_solver.
      * eapply Forall_impl; [apply entries_used|]. intros [pb x]; simpl. case_decide; set_solver.
  - destruct (IHs pa Hs Hf) as (pa' & rest & [H1 H2 H3 H4 H5]).
    exists pa', ((pa, b) :: entries (lab b) tc ++ rest).
    constructor; simpl; rewrite ?(proj2 (Z.eqb_neq (key b) p) Hne).
    + rewrite H1. rewrite <- !Permutation_middle. rewrite Permutation_swap. do 2 f_equiv. rewrite !app_assoc. f_equiv. apply Permutation_app_comm.
    + intros a' c' El. simpl. destruct (update_None p a' c' tc E) as [-> _]. rewrite (H2 a' c' El). rewrite <- !Permutation_middle. rewrite Permutation_swap. do 2 f_equiv. rewrite !app_assoc. f_equiv. apply Permutation_app_comm.
    + simpl. destruct (update_None p a c tc E) as [_ ->]. by rewrite H3.
    + rewrite own_cons, own_app. case_decide; set_solver.
    + rewrite own_cons, own_app. constructor; [simpl; case_decide; set_solver|]. apply Forall_app. split.
      * eapply Forall_impl; [apply entries_used|]. intros [pb x]; simpl. case_decide; set_solver.
      * eapply Forall_impl; [exact H5|]. intros [pb x]; simpl. case_decide; set_solver.
Qed.

End Trees.

(** Two trees of the same shape. *)
Inductive tree_rel {A B} (R : A -> B -> Prop) : tree A -> tree B -> Prop :=
  | rel_Null : tree_rel R Null Null
  | rel_Link a b c c' s s' : R a b -> tree_rel R c c' -> tree_rel R s s' -> tree_rel R (Link a c s) (Link b c' s').

Section Related.
Context {A B : Type} (R : A -> B -> Prop) (keyA : A -> Z) (keyB : B -> Z).
Context (Hkey : forall a b, R a b -> keyB b = keyA a).

Lemma rel_find p t t' :
  tree_rel R t t' ->
  match find keyA p t, find keyB p t' with
  | None, None => True
  | Some (a, c), Some (b, c') => R a b /\ tree_rel R c c'
  | _, _ => False
  end.
Proof.
  induction 1 as [|a b c c' s s' HR Hc IHc Hs IHs]; simpl; [done|]. rewrite (Hkey _ _ HR).
  destruct (keyA a =? p); [done|]. destruct (find keyA p c) as [[]|], (find keyB p c') as [[]|]; done.
Qed.

Lemma rel_update p t t' a b c c' :
  tree_rel R t t' -> R a b -> tree_rel R c c' -> tree_rel R (update keyA p a c t) (update keyB p b c' t').
Proof.
  intros Ht Hab Hc. induction Ht as [|x y u u' s s' HR Hu IHu Hs IHs]; simpl; [constructor|]. rewrite (Hkey _ _ HR).
  destruct (keyA x =? p); by constructor.
Qed.

Lemma rel_remove p t t' : tree_rel R t t' -> tree_rel R (remove keyA p t) (remove keyB p t').
Proof.
  induction 1 as [|x y u u' s s' HR Hu IHu Hs IHs]; simpl; [constructor|]. rewrite (Hkey _ _ HR). destruct (keyA x =? p); [done|by constructor].
Qed.

Lemma rel_elems t t' : tree_rel R t t' -> Forall2 R (elems t) (elems t').
Proof. induction 1; simpl; [constructor|]. constructor; [done|]. by apply Forall2_app. Qed.

Lemma rel_keys t t' : tree_rel R t t' -> keyB <$> elems t' = keyA <$> elems t.
Proof. intros Ht%rel_elems. induction Ht; [done|]. cbn [fmap list_fmap]. f_equal; [by apply Hkey|done]. Qed.

End Related.

(** ** Pools and regions *)

Definition structs (d : pool) : list Z := (c_addr <$> p_cleanups d) ++ (c_addr <$> p_pre_cleanups d) ++ p_free_cleanups d.

(** A pool shows its user the region [r]; the structures of cleanups are blocks
    that are not used for anything else. *)
Record shows (d : pool) (r : region) : Prop := {
  sh_addr : r_addr r = p_addr d;
  sh_abort : r_abort_fn r = p_abort_fn d;
  sh_blocks : Forall (in_ring (p_ring d)) (r_blocks r);
  sh_cleanups : r_cleanups r = (fun c => (c_data c, c_plain c, c_child c)) <$> p_cleanups d;
  sh_pre : r_pre_cleanups r = (fun c => (c_data c, c_plain c)) <$> p_pre_cleanups d;
  sh_structs : (p_addr d, SIZEOF_POOL_T) :: ((fun a => (a, SIZEOF_CLEANUP_T)) <$> structs d) ⊆+ r_blocks r }.

Lemma shows_calls d r :
  shows d r -> run_cleanups (p_cleanups d) = plain_calls r /\ run_cleanups (p_pre_cleanups d) = pre_calls r /\ run_child_cleanups (p_cleanups d) = child_calls r.
Proof.
  intros [_ _ _ Hc Hp _]. unfold run_cleanups, run_child_cleanups, plain_calls, pre_calls, child_calls. by rewrite Hc, Hp, <- !list_fmap_compose.
Qed.

Definition pool_entries := entries p_allocator.
Definition pool_own := own p_allocator.
Definition foot_pools (E : list (Z * pool)) : list (Z * Z) := E ≫= fun x => blk <$> p_ring x.2.

#[global] Instance foot_pools_proper : Proper ((≡ₚ) ==> (≡ₚ)) foot_pools.
Proof. intros E1 E2 HE. unfold foot_pools. by rewrite HE. Qed.

(** The allocator of a pool is there, and its owner is the pool unless the pool
    uses that of its parent. *)
Definition entry_ok (ow : gmap Z Z) (x : Z * pool) : Prop :=
  pool_ok x.2 /\ exists o, ow !! p_allocator x.2 = Some o /\ (o = p_addr x.2 <-> p_allocator x.2 <> x.1).

(** A part of the tree, below a pool with the allocator [pa]. *)
Record forest_ok (m : mem) (pa : Z) (E : list (Z * pool)) (F : list (Z * Z)) : Prop := {
  fo_mem : mem_ok m (foot_pools E ++ F);
  fo_entries : Forall (entry_ok (owners m)) E;
  fo_own : NoDup (pa :: pool_own E) }.

(** The allocators [l] are gone. *)
Definition without (l : list Z) (ow ow' : gmap Z Z) : Prop :=
  forall a, ow' !! a = if decide (a ∈ l) then None else ow !! a.

Lemma entries_without l ow ow' E :
  without l ow ow' -> Forall (entry_ok ow) E -> Forall (fun x => p_allocator x.2 ∉ l) E -> Forall (entry_ok ow') E.
Proof.
  intros Hw HE Hl. rewrite Forall_forall in *. intros x Hx. destruct (HE x Hx) as [Hp (o & Ho & Hiff)]. split; [done|]. exists o. split; [|done].
  rewrite (Hw (p_allocator x.2)), decide_False by (by apply Hl). done.
Qed.

Lemma ring_from_ok a passed l :
  (exists n, n ∈ l /\ n_addr n = a) -> exists n others, ring_from a passed l = Ok (n, others) /\ n :: others ≡ₚ passed ++ l /\ n_addr n = a.
Proof.
  revert passed. induction l as [|x l IH]; intros passed (n & Hn & Ha); [set_solver|]. simpl.
  destruct (Z.eqb_spec (n_addr x) a) as [E|E].
  - eexists _, _. split; [done|]. split; [|done]. rewrite <- Permutation_middle. by rewrite (Permutation_app_comm l).
  - apply elem_of_cons in Hn as [->|Hn]; [done|]. destruct (IH (passed ++ [x])) as (n' & others & -> & Hp & Ha'); [by exists n|].
    eexists _, _. split; [done|]. split; [|done]. by rewrite Hp, <- app_assoc.
Qed.

Lemma pool_nodes_ok d l : pool_ok d -> l ≡ₚ p_ring d -> Forall node_ok l.
Proof.
  intros [(a & r & E & Hn & _) _ _ _] Hl. rewrite Hl. eapply Forall_impl; [done|]. by intros n [].
Qed.

Section Destroy.
Context `{Malloc}.

Lemma release_ok d m F pa :
  mem_ok m ((blk <$> p_ring d) ++ F) -> entry_ok (owners m) (pa, d) ->
  exists m', release d m = Ok m' /\ mem_ok m' F /\ without (if decide (p_allocator d = pa) then [] else [p_allocator d]) (owners m) (owners m').
Proof.
  intros Hm [Hd (o & Ho & Hiff)]. simpl in *. unfold release.
  destruct (ring_from_ok (p_self d) [] (p_ring d)) as (n & others & -> & Hp & Ha).
  { destruct (pool_self _ Hd) as (n & ? & ? & _). by exists n. }
  simpl in Hp. cbn [rbind].
  destruct (allocator_free_ok (p_allocator d) (n :: others) m F) as (m1 & -> & Hm1 & Ho1); [by rewrite Hp|by exists o|by eapply pool_nodes_ok|done|].
  cbn [rbind]. rewrite <- Ho1 in Ho. destruct (owners_lookup _ _ _ Ho) as (al & Hal & Eo). rewrite (get_allocator_Ok _ _ _ Hal). cbn [rbind].
  rewrite Eo. destruct (decide (p_allocator d = pa)) as [E|E].
  - rewrite (proj2 (Z.eqb_neq o (p_addr d))) by tauto. exists m1. split_and!; [done..|]. intros a. by rewrite Ho1.
  - rewrite (proj2 (Z.eqb_eq o (p_addr d))) by tauto.
    destruct (apr_allocator_destroy_ok (p_allocator d) m1 F Hm1) as (m2 & -> & Hm2 & Ho2); [by exists o|].
    exists m2. split_and!; [done..|]. intros a. rewrite Ho2, Ho1. destruct (decide (a = p_allocator d)) as [->|Hne].
    + rewrite lookup_delete_eq. by rewrite decide_True by set_solver.
    + rewrite lookup_delete_ne by done. by rewrite decide_False by set_solver.
Qed.

(** A list of pools is destroyed. *)
Definition destroys (t : tree pool) (rt : tree region) : Prop :=
  forall pa m F, forest_ok m pa (pool_entries pa t) F ->
    exists m', destroy_children t m = Ok (destroy_calls rt, m') /\ mem_ok m' F /\ without (pool_own (pool_entries pa t)) (owners m) (owners m').

(** One pool is destroyed, with those below it. *)
Lemma destroy_with_ok d r c rc pa m F :
  shows d r -> destroys c rc -> forest_ok m pa ((pa, d) :: pool_entries (p_allocator d) c) F -> p_allocator d ∉ pool_own (pool_entries (p_allocator d) c) ->
  exists m', destroy_with (destroy_children c) d m = Ok (pre_calls r ++ destroy_calls rc ++ plain_calls r, m') /\ mem_ok m' F /\
    without (pool_own ((pa, d) :: pool_entries (p_allocator d) c)) (owners m) (owners m').
Proof.
  intros Hsh Hc [Hm HE Hnd] Hal. apply Forall_cons in HE as [Hd HE]. unfold pool_own in *. rewrite own_cons in Hnd. rewrite own_cons. unfold destroy_with.
  destruct (shows_calls _ _ Hsh) as (-> & -> & _).
  destruct (Hc (p_allocator d) m ((blk <$> p_ring d) ++ F)) as (m1 & -> & Hm1 & Hw1).
  { constructor; [|done|].
    - unfold foot_pools in *. cbn [mbind list_bind] in Hm. rewrite <- app_assoc in Hm. by rewrite !app_assoc, (Permutation_app_comm (_ ≫= _)), <- app_assoc.
    - apply NoDup_cons. split; [done|]. apply NoDup_cons in Hnd as [_ Hnd]. by apply NoDup_app in Hnd as (_ & _ & ?). }
  cbn [rbind]. destruct (release_ok d m1 F pa Hm1) as (m2 & -> & Hm2 & Hw2).
  { assert (Forall (entry_ok (owners m1)) [(pa, d)]) as [? _]%Forall_cons; [|done].
    eapply entries_without; [exact Hw1|by constructor|by repeat constructor]. }
  exists m2. split_and!; [done..|]. intros a. rewrite Hw2. destruct (decide (a ∈ _)) as [Ha|Ha].
  - by rewrite decide_True by set_solver.
  - rewrite Hw1. unfold pool_own. repeat case_decide; set_solver.
Qed.

Lemma destroy_children_ok t rt : tree_rel shows t rt -> destroys t rt.
Proof.
  induction 1 as [|d r c rc s rs Hsh Hc IHc Hs IHs]; intros pa m F Hf.
  { destruct Hf as [Hm _ _]. exists m. split_and!; [done..|]. intros a. by rewrite decide_False by set_solver. }
  cbn [pool_entries entries] in *. unfold pool_entries in *. cbn [entries] in *. destruct Hf as [Hm HE Hnd].
  rewrite app_comm_cons in Hm, HE. apply Forall_app in HE as [HE1 HE2].
  pose proof Hnd as Hnd0. unfold pool_own in Hnd. rewrite app_comm_cons, own_app in Hnd.
  destruct (destroy_with_ok d r c rc pa m (foot_pools (entries p_allocator pa s) ++ F) Hsh IHc) as (m1 & E1 & Hm1 & Hw1).
  { constructor; [|done|].
    - unfold foot_pools in *. by rewrite bind_app, <- app_assoc in Hm.
    - rewrite app_comm_cons in Hnd. by apply NoDup_app in Hnd as (? & _ & _). }
  { unfold pool_own. rewrite own_cons in Hnd. destruct (decide (p_allocator d = pa)) as [->|]; apply NoDup_cons in Hnd as [Hn Hnd]; [set_solver|].
    simpl in Hnd. apply NoDup_cons in Hnd as [Hn' _]. set_solver. }
  cbn [destroy_children]. rewrite E1. cbn [rbind].
  destruct (IHs pa m1 F) as (m2 & -> & Hm2 & Hw2).
  { constructor; [done| |].
    - eapply entries_without; [exact Hw1|done|]. eapply Forall_impl; [apply entries_used|]. intros [pb x] Hx. simpl in *.
      apply NoDup_cons in Hnd as [Hn Hnd]. apply NoDup_app in Hnd as (_ & Hdis & _). intros Hx'. unfold pool_own in Hx'.
      apply elem_of_cons in Hx as [Hx|Hx]; [|by apply (Hdis _ Hx')]. rewrite Hx in Hx'. set_solver.
    - unfold pool_own. apply NoDup_cons in Hnd as [Hn Hnd]. apply NoDup_app in Hnd as (_ & _ & ?). apply NoDup_cons. split; [set_solver|done]. }
  exists m2. split_and!; [done..|]. intros a. rewrite Hw2, Hw1. unfold pool_own. rewrite app_comm_cons, own_app. repeat case_decide; set_solver.
Qed.

End Destroy.

(** ** States *)

(** No two of the blocks overlap. *)
Definition apart (l : list (Z * Z)) : Prop := forall x y l', l ≡ₚ x :: y :: l' -> disj x y.

#[global] Instance apart_proper : Proper ((≡ₚ) ==> iff) apart.
Proof. intros l1 l2 Hl. split; intros Ha x y l' Hp; apply (Ha x y l'); by rewrite <- Hp. Qed.

Lemma apart_cons b l : Forall (disj b) l -> apart l -> apart (b :: l).
Proof.
  intros Hb Ha x y l' Hp. rewrite Forall_forall in Hb.
  assert (b ∈ x :: y :: l') as [->|[->|Hin]%elem_of_cons]%elem_of_cons by (rewrite <- Hp; left).
  - apply Permutation.Permutation_cons_inv in Hp. apply Hb. rewrite Hp. left.
  - rewrite Permutation_swap in Hp. apply Permutation.Permutation_cons_inv in Hp. apply overlap_sym, Hb. rewrite Hp. left.
  - apply list_elem_of_split in Hin as (l1 & l2 & ->). rewrite <- Permutation_middle in Hp. apply (Ha x y (l1 ++ l2)).
    apply (Permutation.Permutation_cons_inv (a := b)). rewrite Hp. by rewrite (Permutation_swap _ y), (Permutation_swap _ x).
Qed.

Lemma apart_submseteq l1 l2 : l1 ⊆+ l2 -> apart l2 -> apart l1.
Proof. intros [k Hk]%submseteq_Permutation Ha x y l' Hp. apply (Ha x y (l' ++ k)). by rewrite Hk, Hp. Qed.

Definition st_entries (st : state) : list (Z * pool) := pool_entries 0 (pools st).

Record st_ok (st : state) (rt : tree region) : Prop := {
  so_forest : forest_ok (memory st) 0 (st_entries st) [];
  so_dom : forall a, is_Some (owners (memory st) !! a) -> a ∈ pool_own (st_entries st);
  so_rel : tree_rel shows (pools st) rt;
  so_apart : apart (all_blocks rt);
  so_root : exists d c, pools st = Link d c Null /\ p_addr d = global_pool st }.

Lemma shows_key d r : shows d r -> r_addr r = p_addr d.
Proof. apply sh_addr. Qed.

Lemma self_in_foot d : pool_ok d -> exists b, b ∈ blk <$> p_ring d /\ b.1 = p_addr d - APR_MEMNODE_T_SIZE.
Proof.
  intros [_ Ha _ (n & Hn & Hs & _)]. exists (blk n). split; [by apply list_elem_of_fmap_2|]. simpl. lia.
Qed.

Lemma entries_NoDup m E F : mem_ok m (foot_pools E ++ F) -> Forall (fun x => pool_ok x.2) E -> NoDup ((fun x => p_addr x.2) <$> E).
Proof.
  intros Hm%mem_ok_NoDup HE. rewrite fmap_app in Hm. apply NoDup_app in Hm as (Hm & _ & _).
  induction E as [|x E IH]; [constructor|]. apply Forall_cons in HE as [Hx HE].
  unfold foot_pools in Hm. cbn [mbind list_bind] in Hm. rewrite fmap_app in Hm. apply NoDup_app in Hm as (_ & Hdis & Hm).
  apply NoDup_cons. split; [|by apply IH]. intros (y & Ey & Hy)%list_elem_of_fmap.
  destruct (self_in_foot _ Hx) as (b & Hb & Eb). rewrite Forall_forall in HE. destruct (self_in_foot _ (HE y Hy)) as (b' & Hb' & Eb').
  apply (Hdis b.1); [by apply list_elem_of_fmap_2|]. rewrite Eb, Ey, <- Eb'. apply list_elem_of_fmap_2. apply list_elem_of_bind. by exists y.
Qed.

Lemma forest_pools m pa E F : forest_ok m pa E F -> Forall (fun x => pool_ok x.2) E.
Proof. intros [_ HE _]. eapply Forall_impl; [done|]. by intros x [? _]. Qed.

Lemma st_NoDup st rt : st_ok st rt -> NoDup (p_addr <$> elems (pools st)).
Proof.
  intros [Hf _ _ _ _]. pose proof (entries_NoDup _ _ _ (fo_mem _ _ _ _ Hf) (forest_pools _ _ _ _ Hf)) as Hn.
  unfold st_entries, pool_entries in Hn. by rewrite <- (entries_elems p_allocator 0), <- list_fmap_compose.
Qed.

(** The blocks around those of a region. *)
Lemma region_around p rt r rc :
  NoDup (r_addr <$> elems rt) -> find r_addr p rt = Some (r, rc) ->
  exists O, all_blocks rt ≡ₚ r_blocks r ++ all_blocks rc ++ O /\
    (forall r' c', all_blocks (update r_addr p r' c' rt) ≡ₚ r_blocks r' ++ all_blocks c' ++ O) /\ all_blocks (remove r_addr p rt) ≡ₚ O.
Proof.
  intros Hn Hf. destruct (find_around r_addr (fun _ => 0) p 0 rt r rc Hn Hf) as (pa & rest & [H1 H2 H3 _ _]).
  exists (rest.*2 ≫= r_blocks). unfold all_blocks.
  assert (forall c0 : tree region, elems c0 = (entries (fun _ => 0) 0 c0).*2) as He by (intros; by rewrite entries_elems).
  split_and!.
  - by rewrite (He rt), H1, fmap_cons, fmap_app, <- He, bind_cons, bind_app.
  - intros r' c'. by rewrite (He (update _ _ _ _ _)), H2, fmap_cons, fmap_app, <- He, bind_cons, bind_app.
  - by rewrite (He (remove _ _ _)), H3.
Qed.

(** What is known of a pool that is used. *)
Record focus (st : state) (rt : tree region) (p : Z) (d : pool) (c : tree pool) (r : region) (rc : tree region) (pa : Z) (rest : list (Z * pool)) : Prop := {
  fc_find : find p_addr p (pools st) = Some (d, c);
  fc_rfind : find r_addr p rt = Some (r, rc);
  fc_shows : shows d r;
  fc_rel : tree_rel shows c rc;
  fc_addr : p_addr d = p;
  fc_around : around p_addr p_allocator p 0 (pools st) d c pa rest }.

Lemma st_focus st rt p :
  st_ok st rt -> find r_addr p rt <> None -> exists d c r rc pa rest, focus st rt p d c r rc pa rest.
Proof.
  intros Hst Hf. pose proof (rel_find shows p_addr r_addr shows_key p _ _ (so_rel _ _ Hst)) as Hr.
  destruct (find r_addr p rt) as [[r rc]|] eqn:E; [|done]. destruct (find p_addr p (pools st)) as [[d c]|] eqn:E'; [|done].
  destruct Hr as [Hsh Hrel]. destruct (find_around p_addr p_allocator p 0 _ d c (st_NoDup _ _ Hst) E') as (pa & rest & Har).
  exists d, c, r, rc, pa, rest. constructor; try done. by eapply find_key.
Qed.

Section Steps.
Context `{Malloc}.

(** The block that was handed out does not overlap any other. *)
Lemma new_block_fits rt X ring l a s m :
  new_block ring l a s -> grown ring l -> ring_ok l -> mem_ok m ((blk <$> l) ++ foot_pools X) ->
  Forall (fun b => in_ring ring b \/ exists x, x ∈ X /\ pool_ok x.2 /\ in_ring (p_ring x.2) b) (all_blocks rt) ->
  fits (a, s) rt = true /\ Forall (disj (a, s)) (all_blocks rt).
Proof.
  intros Hn Hg Hl Hm Hall. unfold fits. pose proof Hn as (H0 & H8 & n & Hin & Hb & _). simpl.
  rewrite (proj2 (Z.ltb_lt 0 a) H0), (proj2 (Z.eqb_eq _ _) H8). simpl. rewrite bool_decide_eq_true. cut (Forall (disj (a, s)) (all_blocks rt)); [done|].
  eapply Forall_impl; [exact Hall|]. intros b [Hb1|(x & Hx & Hp & n' & Hn' & Hb')].
  - by eapply new_block_disj.
  - destruct Hl as (a0 & r0 & -> & Hr & _). rewrite Forall_forall in Hr. destruct (pool_ring _ Hp) as (a1 & r1 & E1 & Hr1 & _). rewrite Forall_forall in Hr1.
    assert (blk n' ∈ foot_pools X) as Hfoot.
    { unfold foot_pools. apply list_elem_of_bind. exists x. split; [by apply list_elem_of_fmap_2|done]. }
    apply (in_node_disj n n'); [by apply Hr|by apply Hr1|done..|].
    apply (mem_ok_disj _ _ _ _ Hm); [apply elem_of_app; left; by apply list_elem_of_fmap_2|apply elem_of_app; by right|].
    apply mem_ok_NoDup in Hm. rewrite fmap_app in Hm. apply NoDup_app in Hm as (_ & Hdis & _). intros E.
    apply (Hdis (blk n).1); [by apply list_elem_of_fmap_2, list_elem_of_fmap_2|]. rewrite E. by apply list_elem_of_fmap_2.
Qed.

Section Focus.
Context (st : state) (rt : tree region) (p : Z) (d : pool) (c : tree pool) (r : region) (rc : tree region) (pa : Z) (rest : list (Z * pool)).
Context (Hst : st_ok st rt) (Hf : focus st rt p d c r rc pa rest).

Local Abbreviation others := (pool_entries (p_allocator d) c ++ rest).

Lemma focus_entries : st_entries st ≡ₚ (pa, d) :: others.
Proof. apply (ar_entries _ _ _ _ _ _ _ _ _ (fc_around _ _ _ _ _ _ _ _ _ Hf)). Qed.

Lemma focus_mem : mem_ok (memory st) ((blk <$> p_ring d) ++ foot_pools others).
Proof. pose proof (fo_mem _ _ _ _ (so_forest _ _ Hst)) as Hm. by rewrite app_nil_r, focus_entries in Hm. Qed.

Lemma focus_entry : Forall (entry_ok (owners (memory st))) ((pa, d) :: others).
Proof. rewrite <- focus_entries. apply (fo_entries _ _ _ _ (so_forest _ _ Hst)). Qed.

Lemma focus_pool : pool_ok d.
Proof. pose proof focus_entry as [[? _] _]%Forall_cons. done. Qed.

Lemma focus_allocator : is_Some (owners (memory st) !! p_allocator d).
Proof. pose proof focus_entry as [[_ (o & Ho & _)] _]%Forall_cons. by exists o. Qed.

Lemma focus_own : NoDup (0 :: pool_own ((pa, d) :: others)).
Proof. pose proof (fo_own _ _ _ _ (so_forest _ _ Hst)) as Hn. unfold pool_own in *. by rewrite focus_entries in Hn. Qed.

Lemma focus_lookup : lookup_pool p st = Ok (d, c).
Proof. unfold lookup_pool. by rewrite (fc_find _ _ _ _ _ _ _ _ _ Hf). Qed.

Lemma region_keys : NoDup (r_addr <$> elems rt).
Proof. rewrite (rel_keys shows p_addr r_addr shows_key _ _ (so_rel _ _ Hst)). by eapply st_NoDup. Qed.

(** Every block is in a node of its pool. *)
Lemma focus_blocks : Forall (fun b => in_ring (p_ring d) b \/ exists x, x ∈ others /\ pool_ok x.2 /\ in_ring (p_ring x.2) b) (all_blocks rt).
Proof.
  apply Forall_forall. intros b (r0 & Hr0 & Hb)%list_elem_of_bind. apply list_elem_of_lookup in Hb as [i Hi].
  destruct (Forall2_lookup_r _ _ _ _ _ (rel_elems _ _ _ (so_rel _ _ Hst)) Hi) as (d0 & Hd0 & Hsh).
  assert (in_ring (p_ring d0) b) as Hin by (pose proof (sh_blocks _ _ Hsh) as Hbs; rewrite Forall_forall in Hbs; by apply Hbs).
  apply list_elem_of_lookup_2 in Hd0. rewrite <- (entries_elems p_allocator 0) in Hd0. apply list_elem_of_fmap in Hd0 as (x & -> & Hx).
  change (x ∈ st_entries st) in Hx. rewrite focus_entries in Hx. apply elem_of_cons in Hx as [->|Hx]; [by left|right].
  exists x. split_and!; [done| |done]. pose proof focus_entry as HE. apply Forall_cons in HE as [_ HE]. rewrite Forall_forall in HE. by destruct (HE x Hx).
Qed.

(** The pool, or what is below it, is replaced. *)
Lemma st_ok_update m' d' c' r' rc' :
  p_addr d' = p_addr d -> p_allocator d' = p_allocator d -> shows d' r' -> tree_rel shows c' rc' ->
  mem_ok m' (foot_pools ((pa, d') :: pool_entries (p_allocator d) c' ++ rest)) ->
  Forall (entry_ok (owners m')) ((pa, d') :: pool_entries (p_allocator d) c' ++ rest) ->
  NoDup (0 :: pool_own ((pa, d') :: pool_entries (p_allocator d) c' ++ rest)) ->
  (forall a, is_Some (owners m' !! a) -> a ∈ pool_own ((pa, d') :: pool_entries (p_allocator d) c' ++ rest)) ->
  apart (all_blocks (update r_addr p r' rc' rt)) ->
  st_ok (State m' (update p_addr p d' c' (pools st)) (global_pool st)) (update r_addr p r' rc' rt).
Proof.
  intros Ea El Hsh Hrel Hm HE Hn Hdom Hap.
  pose proof (ar_update _ _ _ _ _ _ _ _ _ (fc_around _ _ _ _ _ _ _ _ _ Hf) d' c' El) as Hp.
  constructor; simpl; [constructor| | |done|]; unfold st_entries, pool_entries, pool_own in *; cbn [pools memory] in *; rewrite ?Hp; try done.
  - by rewrite app_nil_r.
  - intros a Ha. rewrite Hp. by apply Hdom.
  - apply rel_update; [apply shows_key|apply (so_rel _ _ Hst)|done..].
  - destruct (so_root _ _ Hst) as (d0 & c0 & E & Eg). rewrite E. simpl. destruct (Z.eqb_spec (p_addr d0) p) as [Ep|]; [|by eexists _, _].
    eexists _, _. split; [done|]. rewrite Ea, (fc_addr _ _ _ _ _ _ _ _ _ Hf). congruence.
Qed.

Lemma all_blocks_update r' rc' :
  apart (all_blocks rt) -> r_blocks r' ++ all_blocks rc' ⊆+ r_blocks r ++ all_blocks rc -> apart (all_blocks (update r_addr p r' rc' rt)).
Proof.
  intros Ha Hs. destruct (region_around p rt r rc region_keys (fc_rfind _ _ _ _ _ _ _ _ _ Hf)) as (O & H1 & H2 & _).
  rewrite H2. eapply apart_submseteq; [|exact Ha]. rewrite H1, !app_assoc. by apply submseteq_skips_r.
Qed.

Lemma all_blocks_same r' : r_blocks r' = r_blocks r -> apart (all_blocks (update r_addr p r' rc rt)).
Proof. intros E. apply all_blocks_update; [apply (so_apart _ _ Hst)|by rewrite E]. Qed.

Lemma all_blocks_add b r' :
  r_blocks r' = b :: r_blocks r -> Forall (disj b) (all_blocks rt) -> apart (all_blocks (update r_addr p r' rc rt)).
Proof.
  intros E Hb. destruct (region_around p rt r rc region_keys (fc_rfind _ _ _ _ _ _ _ _ _ Hf)) as (O & H1 & H2 & _).
  rewrite H2, E. cbn [app]. rewrite <- H1. apply apart_cons; [done|apply (so_apart _ _ Hst)].
Qed.

(** Only the pool itself changes. *)
Lemma st_ok_change m' d' r' :
  p_addr d' = p_addr d -> p_allocator d' = p_allocator d -> pool_ok d' -> shows d' r' -> owners m' = owners (memory st) ->
  mem_ok m' ((blk <$> p_ring d') ++ foot_pools others) -> apart (all_blocks (update r_addr p r' rc rt)) ->
  st_ok (State m' (update p_addr p d' c (pools st)) (global_pool st)) (update r_addr p r' rc rt).
Proof.
  intros Ea El Hd' Hsh Ho Hm Hap. pose proof focus_entry as HE. apply Forall_cons in HE as [[_ (o & Hoo & Hiff)] HE].
  assert (pool_own ((pa, d') :: others) = pool_own ((pa, d) :: others)) as Eown by (unfold pool_own; rewrite !own_cons, El; done).
  apply st_ok_update; try done; rewrite ?Ho, ?Eown; [apply (fc_rel _ _ _ _ _ _ _ _ _ Hf)| |apply focus_own|].
  - constructor; [|done]. split; [done|]. exists o. simpl in *. by rewrite El, Ea.
  - intros a Ha. pose proof (so_dom _ _ Hst a Ha) as Hd. unfold pool_own in *. by rewrite focus_entries in Hd.
Qed.

Lemma focus_all_blocks : Forall (fun b => in_ring [] b \/ exists x, x ∈ (pa, d) :: others /\ pool_ok x.2 /\ in_ring (p_ring x.2) b) (all_blocks rt).
Proof.
  eapply Forall_impl; [apply focus_blocks|]. intros b [?|(x & ? & ? & ?)]; right; [exists (pa, d)|exists x]; split_and!; try done; [left|apply focus_pool|by right].
Qed.

Lemma focus_own_split : NoDup (0 :: (if decide (p_allocator d = pa) then [] else [p_allocator d]) ++ pool_own (pool_entries (p_allocator d) c) ++ pool_own rest).
Proof. pose proof focus_own as Hn. unfold pool_own in *. by rewrite own_cons, own_app in Hn. Qed.

(** The allocator of the pool is not owned below it. *)
Lemma focus_below : p_allocator d ∉ pool_own (pool_entries (p_allocator d) c).
Proof.
  pose proof focus_own_split as Hn. pose proof (ar_above _ _ _ _ _ _ _ _ _ (fc_around _ _ _ _ _ _ _ _ _ Hf)) as Ha. fold (pool_own rest) in Ha.
  apply NoDup_cons in Hn as [H0 Hn]. destruct (decide (p_allocator d = pa)) as [->|Hne].
  - simpl in *. apply NoDup_app in Hn as (_ & Hdis & _). intros Hin. apply elem_of_cons in Ha as [->|Ha]; [set_solver|by apply (Hdis pa)].
  - apply NoDup_app in Hn as (_ & Hdis & _). intros Hin. apply (Hdis (p_allocator d)); set_solver.
Qed.

(** The other pools do not use the allocators that are owned by the pool, or
    below it. *)
Lemma focus_rest : Forall (fun x => p_allocator x.2 ∉ pool_own ((pa, d) :: pool_entries (p_allocator d) c)) rest.
Proof.
  pose proof focus_own_split as Hn. eapply Forall_impl; [apply (ar_used _ _ _ _ _ _ _ _ _ (fc_around _ _ _ _ _ _ _ _ _ Hf))|].
  intros [pb x] Hx Hin. cbn [fst snd] in *. fold (pool_own rest) in Hx. unfold pool_own at 1 in Hin. rewrite own_cons in Hin. fold (pool_own (pool_entries (p_allocator d) c)) in Hin.
  apply NoDup_cons in Hn as [H0 Hn]. rewrite app_assoc in Hn, H0. apply NoDup_app in Hn as (_ & Hdis & _).
  apply elem_of_cons in Hx as [Hx|Hx]; [rewrite Hx in Hin; set_solver|by apply (Hdis _ Hin)].
Qed.

Lemma focus_dom a : is_Some (owners (memory st) !! a) -> a ∈ (if decide (p_allocator d = pa) then [] else [p_allocator d]) ++ pool_own (pool_entries (p_allocator d) c) ++ pool_own rest.
Proof. intros Ha. pose proof (so_dom _ _ Hst a Ha) as Hd. unfold pool_own in *. by rewrite focus_entries, own_cons, own_app in Hd. Qed.

End Focus.
(** ** One operation *)

Definition good_step (o : op) (st : state) (rt : tree region) : Prop :=
  exists r st' rt', step o st = Ok (r, st') /\ region_step (global_pool st) (refused o st) rt o r = Some rt' /\
    st_ok st' rt' /\ global_pool st' = global_pool st.

(** A step that keeps the invariant, or the write through the null pointer of a
    registration for which there is no memory. *)
Definition step_or_null (o : op) (st : state) (rt : tree region) : Prop :=
  good_step o st rt \/ no_struct o st = true /\ step o st = Fault BadPointer.

Lemma shows_grown l d r : grown (p_ring d) l -> shows d r -> shows (with_ring l d) r.
Proof.
  intros Hg []. constructor; try done. eapply Forall_impl; [done|]. intros b Hb. by eapply in_ring_grown.
Qed.

Lemma shows_add b d r : in_ring (p_ring d) b -> shows d r -> shows d (with_blocks (b :: r_blocks r) r).
Proof. intros Hb []. constructor; try done; [by constructor|]. by apply submseteq_cons. Qed.

Lemma live_find p rt : (match find r_addr p rt with Some _ => true | None => false end) = true -> find r_addr p rt <> None.
Proof. by destruct (find r_addr p rt). Qed.

Lemma in_ring_pos l b : ring_ok l -> in_ring l b -> 0 < b.1.
Proof.
  intros (a & r & -> & Hl & _) (n & Hn & Hb). rewrite Forall_forall in Hl. destruct (rn_node _ (Hl n Hn)) as [[Ha _] _ _ _].
  unfold in_node, APR_MEMNODE_T_SIZE in Hb. lia.
Qed.

Ltac focus_on Hst Hl :=
  destruct (st_focus _ _ _ Hst Hl) as (d & c & r & rc & pa & rest & Hf).

(** The operation finds its pool, and the specification the region. *)
Ltac open_step Hf :=
  unfold good_step; cbn [step]; unfold on_pool; rewrite (focus_lookup _ _ _ _ _ _ _ _ _ Hf); cbn [rbind].
Ltac regions Hf :=
  unfold region_step; cbv beta iota zeta; rewrite (fc_rfind _ _ _ _ _ _ _ _ _ Hf).

Lemma alloc_step p size st rt : st_ok st rt -> enabled rt (Alloc p size) st = true -> good_step (Alloc p size) st rt.
Proof.
  intros Hst [Hl%live_find Hw]%andb_prop. focus_on Hst Hl.
  destruct (apr_palloc_ok size d (memory st) _ (focus_pool _ _ _ _ _ _ _ _ _ Hst Hf) (focus_mem _ _ _ _ _ _ _ _ _ Hst Hf) (focus_allocator _ _ _ _ _ _ _ _ _ Hst Hf) ltac:(lia))
    as (x & E & a & k & l & m' & -> & Ho & Hm & Hok & Hg & Hres).
  open_step Hf. rewrite E. cbn [rbind].
  pose proof (fc_shows _ _ _ _ _ _ _ _ _ Hf) as Hsh.
  pose proof (shows_grown _ _ _ Hg Hsh) as Hsh'. pose proof (pool_ok_ring _ _ (focus_pool _ _ _ _ _ _ _ _ _ Hst Hf) Hok Hg) as Hp'.
  destruct Hres as [(-> & -> & El & Hwhy)|[-> Hnew]].
  - eexists _, _, (update r_addr p r rc rt). split; [done|]. split; [|split; [by eapply st_ok_change, all_blocks_same|done]].
    regions Hf. rewrite Z.eqb_refl, (sh_abort _ _ Hsh), bool_decide_true by done. cbn [refused guard].
    replace (_ || _) with true; [done|]. destruct Hwhy as [?| ->]; [|by rewrite orb_true_r]. by rewrite (proj2 (Z.leb_le (2 ^ 43) size)).
  - destruct (new_block_fits rt _ _ _ _ _ _ Hnew Hg Hok Hm (focus_blocks _ _ _ _ _ _ _ _ _ Hst Hf)) as [Hfit Hdis].
    pose proof Hnew as (H0 & _ & n & Hin & Hn & _).
    eexists _, _, _. split; [done|]. regions Hf. rewrite (proj2 (Z.eqb_neq a 0)) by lia. rewrite bool_decide_true, Hfit by done. split; [done|].
    split; [|done]. eapply st_ok_change; try done; [by apply shows_add; [exists n|]|by eapply all_blocks_add].
Qed.

(** A cleanup is registered in a structure that could not be allocated. *)
Lemma apr_pool_cleanup_register_no_memory data plain child p m k p' m' :
  p_free_cleanups p = [] -> apr_palloc SIZEOF_CLEANUP_T p m = Ok (0, k, p', m') ->
  apr_pool_cleanup_register data plain child p m = Fault BadPointer /\ apr_pool_pre_cleanup_register data plain p m = Fault BadPointer.
Proof. intros Hf E. unfold apr_pool_cleanup_register, apr_pool_pre_cleanup_register, cleanup_struct. by rewrite Hf, E. Qed.

(** The structures left over are blocks of the pool. *)
Lemma free_struct_ok d r x xs : pool_ok d -> shows d r -> p_free_cleanups d = x :: xs -> (x, SIZEOF_CLEANUP_T) ∈ r_blocks r /\ 0 < x.
Proof.
  intros Hd Hsh Efree. pose proof (sh_structs _ _ Hsh) as Hss. unfold structs in Hss. rewrite Efree in Hss.
  assert ((x, SIZEOF_CLEANUP_T) ∈ r_blocks r) as Hx.
  { eapply elem_of_submseteq; [|exact Hss]. right. apply (list_elem_of_fmap_2 (fun a => (a, SIZEOF_CLEANUP_T))). set_solver. }
  split; [done|]. pose proof (sh_blocks _ _ Hsh) as Hbs. rewrite Forall_forall in Hbs. apply (in_ring_pos _ _ (pool_ring _ Hd) (Hbs _ Hx)).
Qed.

(** There is a structure for the next cleanup of a pool. *)
Definition has_struct (d : pool) (m : mem) : bool := match cleanup_struct d m with Ok (a, _, _, _) => negb (a =? 0) | _ => true end.

Lemma has_struct_false st rt p d c r rc pa rest : st_ok st rt -> focus st rt p d c r rc pa rest -> has_struct d (memory st) = false ->
  p_free_cleanups d = [] /\ malloc (mallocs (memory st)) (heap (memory st)) (allocator_align (APR_ALIGN_DEFAULT SIZEOF_CLEANUP_T)) = 0 /\
  exists k d' m', apr_palloc SIZEOF_CLEANUP_T d (memory st) = Ok (0, k, d', m').
Proof.
  intros Hst Hf. pose proof (fc_shows _ _ _ _ _ _ _ _ _ Hf) as Hsh. pose proof (focus_pool _ _ _ _ _ _ _ _ _ Hst Hf) as Hd.
  unfold has_struct, cleanup_struct. destruct (p_free_cleanups d) as [|x xs] eqn:Efree.
  - destruct (apr_palloc_ok SIZEOF_CLEANUP_T d (memory st) _ Hd (focus_mem _ _ _ _ _ _ _ _ _ Hst Hf) (focus_allocator _ _ _ _ _ _ _ _ _ Hst Hf) ltac:(done))
      as (y & E & a & k & l & m' & -> & Ho & Hm' & Hok & Hg & Hres). rewrite E. cbn [rbind]. intros Ha.
    destruct Hres as [(-> & -> & _ & Hwhy)|[-> Hnew]]; [|destruct Hnew as (H0 & _); lia].
    split; [done|]. split; [destruct Hwhy as [Hw|Hw]; [by vm_compute in Hw|lia]|by eexists _, _, _].
  - destruct (free_struct_ok d r x xs Hd Hsh Efree) as [_ Hpos]. lia.
Qed.

(** The structure of a cleanup: [a] is new, or 0, and [x] is the structure. *)
Lemma cleanup_struct_ok st rt p d c r rc pa rest :
  st_ok st rt -> focus st rt p d c r rc pa rest ->
  has_struct d (memory st) = true ->
  exists a x d' m', struct_of d (memory st) = Ok a /\ cleanup_struct d (memory st) = Ok (x, [], d', m') /\ x <> 0 /\
    let r' := if a =? 0 then r else with_blocks ((a, SIZEOF_CLEANUP_T) :: r_blocks r) r in
    (a =? 0) || fits (a, SIZEOF_CLEANUP_T) rt = true /\ p_addr d' = p_addr d /\ p_allocator d' = p_allocator d /\ pool_ok d' /\ shows d' r' /\
    (p_addr d', SIZEOF_POOL_T) :: (x, SIZEOF_CLEANUP_T) :: ((fun a => (a, SIZEOF_CLEANUP_T)) <$> structs d') ⊆+ r_blocks r' /\
    owners m' = owners (memory st) /\ mem_ok m' ((blk <$> p_ring d') ++ foot_pools (pool_entries (p_allocator d) c ++ rest)) /\
    forall r'', r_blocks r'' = r_blocks r' -> apart (all_blocks (update r_addr p r'' rc rt)).
Proof.
  intros Hst Hf. pose proof (fc_shows _ _ _ _ _ _ _ _ _ Hf) as Hsh. pose proof (focus_pool _ _ _ _ _ _ _ _ _ Hst Hf) as Hd.
  pose proof (focus_mem _ _ _ _ _ _ _ _ _ Hst Hf) as Hm. unfold has_struct, struct_of, cleanup_struct.
  destruct (p_free_cleanups d) as [|x xs] eqn:Efree.
  - destruct (apr_palloc_ok SIZEOF_CLEANUP_T d (memory st) _ Hd Hm (focus_allocator _ _ _ _ _ _ _ _ _ Hst Hf) ltac:(done))
      as (y & E & a & k & l & m' & -> & Ho & Hm' & Hok & Hg & Hres). rewrite E. cbn [rbind]. intros Ha.
    destruct Hres as [(-> & _)|[-> Hnew]]; [done|].
    destruct (new_block_fits rt _ _ _ _ _ _ Hnew Hg Hok Hm' (focus_blocks _ _ _ _ _ _ _ _ _ Hst Hf)) as [Hfit Hdis].
    pose proof Hnew as (H0 & _ & n & Hin & Hn & _). pose proof (shows_grown _ _ _ Hg Hsh) as Hsh'.
    eexists _, _, _, _. split; [done|]. split; [done|]. split; [lia|]. rewrite (proj2 (Z.eqb_neq a 0)) by lia. simpl. split_and!; try done.
    + by apply pool_ok_ring.
    + apply shows_add; [by exists n|done].
    + rewrite Permutation_swap. apply submseteq_skip. apply (sh_structs _ _ Hsh').
    + intros r'' E''. by eapply all_blocks_add.
  - intros _. pose proof (sh_structs _ _ Hsh) as Hss. unfold structs in Hss. rewrite Efree in Hss.
    destruct (free_struct_ok d r x xs Hd Hsh Efree) as [Hx Hpos].
    assert ((p_addr d, SIZEOF_POOL_T) :: (x, SIZEOF_CLEANUP_T) :: ((fun a => (a, SIZEOF_CLEANUP_T)) <$> structs (with_cleanups (p_cleanups d) xs (p_pre_cleanups d) d)) ⊆+ r_blocks r) as Hss'.
    { etrans; [|exact Hss]. apply submseteq_skip. unfold structs. simpl. rewrite !fmap_app, fmap_cons. by rewrite !Permutation_middle. }
    exists 0, x. eexists _, _. split; [done|]. split; [done|]. split; [lia|]. simpl. split_and!; try done.
    + destruct Hd. by constructor.
    + destruct Hsh. constructor; try done. etrans; [|exact Hss']. apply submseteq_skip. by apply submseteq_cons.
    + intros r'' E''. by eapply all_blocks_same.
Qed.

Lemma register_step p data plain child st rt :
  st_ok st rt -> enabled rt (Register p data plain child) st = true -> step_or_null (Register p data plain child) st rt.
Proof.
  intros Hst Hl%live_find. focus_on Hst Hl. destruct (has_struct d (memory st)) eqn:Hs.
  2:{ destruct (has_struct_false _ _ _ _ _ _ _ _ _ Hst Hf Hs) as (Efree & Hnull & k & d' & m' & E). right. cbn [no_struct refused step].
      unfold on_pool, struct_of. rewrite (fc_find _ _ _ _ _ _ _ _ _ Hf), (focus_lookup _ _ _ _ _ _ _ _ _ Hf), Hnull, Efree. cbn [rbind]. rewrite E. cbn [rbind].
      split; [done|]. rewrite Efree. cbn [rbind]. by rewrite (proj1 (apr_pool_cleanup_register_no_memory data plain child d _ _ _ _ Efree E)). }
  left.
  destruct (cleanup_struct_ok _ _ _ _ _ _ _ _ _ Hst Hf Hs) as (a & x & d' & m' & E1 & E2 & Hx & Hfit & Ea & El & Hp & Hsh & Hss & Ho & Hm & Hap).
  open_step Hf. rewrite E1. cbn [rbind].
  unfold apr_pool_cleanup_register. rewrite E2. cbn [rbind]. rewrite (proj2 (Z.eqb_neq x 0) Hx). cbn [rbind].
  eexists _, _, _. split; [done|]. regions Hf. rewrite bool_decide_true, Hfit by done. split; [done|]. split; [|done].
  eapply st_ok_change; try done; [by destruct Hp| |by apply Hap; destruct (a =? 0)].
  destruct Hsh as [H1 H2 H3 H4 H5 H6]. assert (r_cleanups r = r_cleanups (if a =? 0 then r else with_blocks ((a, SIZEOF_CLEANUP_T) :: r_blocks r) r)) as -> by (by destruct (a =? 0)).
  assert (r_pre_cleanups r = r_pre_cleanups (if a =? 0 then r else with_blocks ((a, SIZEOF_CLEANUP_T) :: r_blocks r) r)) as -> by (by destruct (a =? 0)).
  constructor; try done. simpl. by rewrite H4.
Qed.

Lemma pre_register_step p data plain st rt :
  st_ok st rt -> enabled rt (PreRegister p data plain) st = true -> step_or_null (PreRegister p data plain) st rt.
Proof.
  intros Hst Hl%live_find. focus_on Hst Hl. destruct (has_struct d (memory st)) eqn:Hs.
  2:{ destruct (has_struct_false _ _ _ _ _ _ _ _ _ Hst Hf Hs) as (Efree & Hnull & k & d' & m' & E). right. cbn [no_struct refused step].
      unfold on_pool, struct_of. rewrite (fc_find _ _ _ _ _ _ _ _ _ Hf), (focus_lookup _ _ _ _ _ _ _ _ _ Hf), Hnull, Efree. cbn [rbind]. rewrite E. cbn [rbind].
      split; [done|]. rewrite Efree. cbn [rbind]. by rewrite (proj2 (apr_pool_cleanup_register_no_memory data plain 0 d _ _ _ _ Efree E)). }
  left.
  destruct (cleanup_struct_ok _ _ _ _ _ _ _ _ _ Hst Hf Hs) as (a & x & d' & m' & E1 & E2 & Hx & Hfit & Ea & El & Hp & Hsh & Hss & Ho & Hm & Hap).
  open_step Hf. rewrite E1. cbn [rbind].
  unfold apr_pool_pre_cleanup_register. rewrite E2. cbn [rbind]. rewrite (proj2 (Z.eqb_neq x 0) Hx). cbn [rbind].
  eexists _, _, _. split; [done|]. regions Hf. rewrite bool_decide_true, Hfit by done. split; [done|]. split; [|done].
  eapply st_ok_change; try done; [by destruct Hp| |by apply Hap; destruct (a =? 0)].
  destruct Hsh as [H1 H2 H3 H4 H5 H6]. assert (r_cleanups r = r_cleanups (if a =? 0 then r else with_blocks ((a, SIZEOF_CLEANUP_T) :: r_blocks r) r)) as -> by (by destruct (a =? 0)).
  assert (r_pre_cleanups r = r_pre_cleanups (if a =? 0 then r else with_blocks ((a, SIZEOF_CLEANUP_T) :: r_blocks r) r)) as -> by (by destruct (a =? 0)).
  constructor; try done; simpl; [by rewrite H5|].
  etrans; [|exact Hss]. apply submseteq_skip, Permutation_submseteq.
  apply (fmap_Permutation (fun a => (a, SIZEOF_CLEANUP_T)) _ (x :: structs d')).
  symmetry. apply Permutation_middle.
Qed.

(** *** Cleanups that are removed or changed *)

Lemma unlink_ok {B} (f : cleanup -> B) (same : B -> bool) data plain cs o cs' :
  (forall x, same (f x) = is_cleanup data plain x) -> unlink data plain cs = (o, cs') ->
  f <$> cs' = drop_first same (f <$> cs) /\ opt_cons o (c_addr <$> cs') ≡ₚ c_addr <$> cs.
Proof.
  intros Hsame. revert o cs'. induction cs as [|x cs IH]; intros o cs' E; simpl in *; [by simplify_eq|]. rewrite Hsame.
  destruct (is_cleanup data plain x); [by simplify_eq|]. destruct (unlink data plain cs) as [o1 l]. simplify_eq. destruct (IH _ _ eq_refl) as [E1 E2].
  split; [cbn; by f_equal|]. rewrite !fmap_cons. rewrite <- E2. destruct o; simpl; [|done]. apply Permutation_swap.
Qed.

Lemma kill_shows data plain d r : shows d r -> shows (apr_pool_cleanup_kill data plain d) (killed data plain r).
Proof.
  intros [H1 H2 H3 H4 H5 H6]. unfold apr_pool_cleanup_kill, killed.
  destruct (unlink data plain (p_cleanups d)) as [o1 cs] eqn:E1. destruct (unlink data plain (p_pre_cleanups d)) as [o2 ps] eqn:E2.
  destruct (unlink_ok (fun c => (c_data c, c_plain c, c_child c)) (same3 data plain) _ _ _ _ _ (fun x => eq_refl) E1) as [F1 G1].
  destruct (unlink_ok (fun c => (c_data c, c_plain c)) (same2 data plain) _ _ _ _ _ (fun x => eq_refl) E2) as [F2 G2].
  constructor; try done; [by rewrite H4, <- F1|by rewrite H5, <- F2|]. simpl.
  etrans; [|exact H6]. apply submseteq_skip, Permutation_submseteq, fmap_Permutation. unfold structs. simpl. rewrite <- G1, <- G2.
  destruct o1, o2; cbn [opt_cons app]; rewrite <- ?Permutation_middle; try done. apply Permutation_swap.
Qed.

Lemma kill_pool data plain d :
  p_addr (apr_pool_cleanup_kill data plain d) = p_addr d /\ p_allocator (apr_pool_cleanup_kill data plain d) = p_allocator d /\
  p_ring (apr_pool_cleanup_kill data plain d) = p_ring d /\ (pool_ok d -> pool_ok (apr_pool_cleanup_kill data plain d)).
Proof.
  unfold apr_pool_cleanup_kill. destruct (unlink data plain (p_cleanups d)), (unlink data plain (p_pre_cleanups d)). split_and!; try done. intros []. by constructor.
Qed.

Lemma kill_step p data plain st rt : st_ok st rt -> enabled rt (Kill p data plain) st = true -> good_step (Kill p data plain) st rt.
Proof.
  intros Hst Hl%live_find. focus_on Hst Hl. open_step Hf. destruct (kill_pool data plain d) as (Ea & El & Er & Hp).
  eexists _, _, _. split; [done|]. regions Hf. rewrite bool_decide_true by done. split; [done|]. split; [|done].
  eapply st_ok_change; try done; [apply Hp; by eapply focus_pool|apply kill_shows, (fc_shows _ _ _ _ _ _ _ _ _ Hf)|rewrite Er; by eapply focus_mem|by eapply all_blocks_same].
Qed.

Lemma run_step p data plain st rt : st_ok st rt -> enabled rt (Run p data plain) st = true -> good_step (Run p data plain) st rt.
Proof.
  intros Hst Hl%live_find. focus_on Hst Hl. open_step Hf. destruct (kill_pool data plain d) as (Ea & El & Er & Hp).
  eexists _, _, _. split; [done|]. regions Hf. rewrite bool_decide_true by done. split; [done|]. split; [|done].
  eapply st_ok_change; try done; [apply Hp; by eapply focus_pool|apply kill_shows, (fc_shows _ _ _ _ _ _ _ _ _ Hf)|rewrite Er; by eapply focus_mem|by eapply all_blocks_same].
Qed.

Lemma set_child_ok data plain child cs :
  (fun c => (c_data c, c_plain c, c_child c)) <$> set_child data plain child cs =
    change_first (same3 data plain) (fun c => (c.1, child)) ((fun c => (c_data c, c_plain c, c_child c)) <$> cs) /\
  c_addr <$> set_child data plain child cs = c_addr <$> cs.
Proof.
  induction cs as [|x cs [IH1 IH2]]; simpl; [done|]. unfold same3 at 1. cbn [fst snd]. fold (is_cleanup data plain x).
  destruct (is_cleanup data plain x); [done|]. split; cbn; by f_equal.
Qed.

Lemma child_set_step p data plain child st rt :
  st_ok st rt -> enabled rt (ChildSet p data plain child) st = true -> good_step (ChildSet p data plain child) st rt.
Proof.
  intros Hst Hl%live_find. focus_on Hst Hl. open_step Hf. destruct (set_child_ok data plain child (p_cleanups d)) as [E1 E2].
  eexists _, _, _. split; [done|]. regions Hf. rewrite bool_decide_true by done. split; [done|]. split; [|done].
  eapply st_ok_change; try done; [by destruct (focus_pool _ _ _ _ _ _ _ _ _ Hst Hf)| |exact (focus_mem _ _ _ _ _ _ _ _ _ Hst Hf)|by eapply all_blocks_same].
  destruct (fc_shows _ _ _ _ _ _ _ _ _ Hf) as [H1 H2 H3 H4 H5 H6]. constructor; try done; simpl; [by rewrite H4, <- E1|]. unfold structs in *. simpl. by rewrite E2.
Qed.

(** *** The limit of an allocator *)

Lemma max_free_set_ok a size m F :
  mem_ok m F -> is_Some (owners m !! a) -> 0 <= size < 2 ^ 64 ->
  exists m', apr_allocator_max_free_set a size m = Ok m' /\ mem_ok m' F /\ owners m' = owners m.
Proof.
  intros Hm [o (al & Ha & Ho)%owners_lookup] Hs. unfold apr_allocator_max_free_set. rewrite (get_allocator_Ok _ _ _ Ha). cbn [rbind]. cbv zeta.
  eexists. split; [done|]. split; [|by eapply owners_set]. eapply mem_ok_set; [done..| |done].
  destruct (mem_allocators _ _ Hm _ _ Ha). constructor; simpl; try done.
  set (mf := Z.shiftr (APR_ALIGN size BOUNDARY_SIZE) BOUNDARY_INDEX).
  assert (0 <= mf). { apply Z.shiftr_nonneg. rewrite BOUNDARY_SIZE_eq, APR_ALIGN_eq by lia. pose proof (Z.mod_pos_bound (size + (2 ^ 12 - 1)) (2 ^ 64) ltac:(lia)).
    pose proof (Z.div_pos (wrap 64 (size + (2 ^ 12 - 1))) (2 ^ 12)). unfold wrap in *. lia. }
  set (cur := wrap 64 (wrap 64 (a_current_free_index al + mf) - a_max_free_index al)). assert (0 <= cur) by (apply Z.mod_pos_bound; lia).
  destruct (Z.ltb_spec mf cur); lia.
Qed.

Lemma max_free_step p size st rt : st_ok st rt -> enabled rt (MaxFree p size) st = true -> good_step (MaxFree p size) st rt.
Proof.
  intros Hst [Hl%live_find Hw]%andb_prop. focus_on Hst Hl. open_step Hf.
  destruct (max_free_set_ok (p_allocator d) size _ _ (focus_mem _ _ _ _ _ _ _ _ _ Hst Hf) (focus_allocator _ _ _ _ _ _ _ _ _ Hst Hf) ltac:(lia)) as (m' & -> & Hm & Ho).
  cbn [rbind]. eexists _, _, _. split; [done|]. regions Hf. rewrite bool_decide_true by done. split; [done|]. split; [|done].
  eapply st_ok_change; try done; [by eapply focus_pool|apply (fc_shows _ _ _ _ _ _ _ _ _ Hf)|by eapply all_blocks_same].
Qed.

(** *** Before [exec] *)

Definition exec_pool (d : pool) : pool := with_cleanups [] (p_free_cleanups d) (p_pre_cleanups d) d.

Lemma for_exec_ok t rt :
  tree_rel shows t rt ->
  exists t', cleanup_pool_for_exec t = (exec_calls rt, t') /\ tree_rel shows t' (exec_regions rt) /\
    (forall pa, pool_entries pa t' = (fun x => (x.1, exec_pool x.2)) <$> pool_entries pa t) /\ all_blocks (exec_regions rt) = all_blocks rt.
Proof.
  induction 1 as [|d r c rc s rs Hsh Hc (c' & Ec & Hc' & Pc & Bc) Hs (s' & Es & Hs' & Ps & Bs)]; simpl; [eexists; split_and!; [done|constructor|done..]|].
  rewrite Ec, Es. destruct (shows_calls _ _ Hsh) as (_ & _ & ->). eexists. split_and!; [done| | |].
  - constructor; [|done..]. destruct Hsh as [H1 H2 H3 H4 H5 H6]. constructor; try done. simpl. etrans; [|exact H6]. apply submseteq_skip, fmap_submseteq.
    unfold structs. simpl. by apply submseteq_inserts_l.
  - intros pa. unfold pool_entries in *. simpl. by rewrite Pc, Ps, fmap_app.
  - unfold all_blocks in *. simpl. by rewrite !bind_app, Bc, Bs.
Qed.

Lemma for_exec_step st rt : st_ok st rt -> good_step ForExec st rt.
Proof.
  intros [[Hm HE Hn] Hdom Hrel Hap Hroot]. destruct (for_exec_ok _ _ Hrel) as (t' & E & Hrel' & Hent & Hb).
  unfold good_step. cbn [step]. unfold apr_pool_cleanup_for_exec. rewrite E. eexists _, _, _. split; [done|].
  unfold region_step. rewrite bool_decide_true by done. split; [done|]. split; [|done].
  assert (pool_own (st_entries (State (memory st) t' (global_pool st))) = pool_own (st_entries st)) as Eown.
  { unfold st_entries. simpl. rewrite Hent. unfold pool_own. induction (pool_entries 0 (pools st)) as [|[pa x] l IH]; [done|]. rewrite fmap_cons. cbn [fst snd]. by rewrite !own_cons, IH. }
  constructor; simpl; [constructor; [| |by rewrite Eown]|by rewrite Eown|done|by rewrite Hb|].
  - unfold st_entries, foot_pools in *. simpl. rewrite Hent. by rewrite list_fmap_bind.
  - unfold st_entries in *. simpl. rewrite Hent. apply Forall_fmap. eapply Forall_impl; [exact HE|]. intros x [[] ?]. split; [by constructor|done].
  - destruct Hroot as (d & c & Er & Eg). rewrite Er in E. simpl in E. destruct (cleanup_pool_for_exec c). simplify_eq. by eexists _, _.
Qed.

(** *** Clearing and destroying *)

(** The node of the pool itself, when only the pool is left in it. *)
Definition self_node (d : pool) (n : memnode) : memnode := with_first_avail (p_self_first_avail d) n.
Definition cleared (d : pool) (n : memnode) : pool := with_cleanups [] [] [] (with_ring [self_node d n] d).

Lemma cleared_ok d n others :
  pool_ok d -> n :: others ≡ₚ p_ring d -> n_addr n = p_self d -> (forall x, x ∈ p_ring d -> n_addr x = p_self d -> x = n) ->
  pool_ok (cleared d n) /\ shows (cleared d n) (Region (p_addr d) (p_abort_fn d) [(p_addr d, SIZEOF_POOL_T)] [] []).
Proof.
  intros [Hr Ha Hf (x & Hx & Hs & Hfa)] Hp Hn Huniq. rewrite (Huniq x Hx Hs) in Hfa.
  assert (ring_node n) as Hrn.
  { destruct Hr as (a0 & r0 & E & Hnodes & _). rewrite <- Hp in Hnodes. by apply Forall_cons in Hnodes as [? _]. }
  assert (ring_node (self_node d n)) as Hrs.
  { destruct Hrn as [[Hna ? ? ?] ? ?]. pose proof Hna as [? H8]. unfold APR_MEMNODE_T_SIZE, SIZEOF_POOL_T in *. constructor; [by constructor|unfold APR_MEMNODE_T_SIZE; simpl; lia|].
    simpl. rewrite Hf, Ha, <- Hn. replace (n_addr n + 40 + 120) with (n_addr n + 20 * 8) by lia. by rewrite Z_mod_plus_full. }
  split; constructor; try done.
  - exists (self_node d n), []. split_and!; [done|by constructor|constructor|constructor].
  - exists (self_node d n). split_and!; [left|done|simpl; lia].
  - constructor; [|done]. exists (self_node d n). split; [left|]. unfold in_node, SIZEOF_POOL_T, APR_MEMNODE_T_SIZE in *. simpl. lia.
Qed.

Lemma clear_step p st rt : st_ok st rt -> enabled rt (Clear p) st = true -> good_step (Clear p) st rt.
Proof.
  intros Hst Hl%live_find. focus_on Hst Hl. pose proof (focus_pool _ _ _ _ _ _ _ _ _ Hst Hf) as Hd.
  pose proof (focus_mem _ _ _ _ _ _ _ _ _ Hst Hf) as Hm. pose proof (fc_shows _ _ _ _ _ _ _ _ _ Hf) as Hsh.
  pose proof (focus_entry _ _ _ _ _ _ _ _ _ Hst Hf) as HE. apply Forall_cons in HE as [Hde HE]. apply Forall_app in HE as [HEc HEr].
  pose proof (focus_own_split _ _ _ _ _ _ _ _ _ Hst Hf) as Hown. pose proof (focus_below _ _ _ _ _ _ _ _ _ Hst Hf) as Hbelow.
  destruct (destroy_children_ok c rc (fc_rel _ _ _ _ _ _ _ _ _ Hf) (p_allocator d) (memory st) ((blk <$> p_ring d) ++ foot_pools rest)) as (m1 & E1 & Hm1 & Hw1).
  { constructor; [|done|].
    - unfold foot_pools in *. rewrite bind_app in Hm. by rewrite !app_assoc, (Permutation_app_comm (_ ≫= _)), <- app_assoc.
    - apply NoDup_cons. split; [done|]. apply NoDup_cons in Hown as [_ Hown]. apply NoDup_app in Hown as (_ & _ & Hown). by apply NoDup_app in Hown as (? & _ & _). }
  destruct (ring_from_ok (p_self d) [] (p_ring d)) as (n & oth & E2 & Hp & Ha).
  { destruct (pool_self _ Hd) as (n & ? & ? & _). by exists n. }
  simpl in Hp. destruct (cleared_ok d n oth Hd Hp Ha) as [Hcl Hshc].
  { intros x Hx Ex. apply (addr_inj m1 (p_ring d) (foot_pools rest)); [done|done|rewrite <- Hp; left|congruence]. }
  assert (is_Some (owners m1 !! p_allocator d)) as Hal.
  { rewrite Hw1, decide_False by done. by eapply focus_allocator. }
  assert (exists m2, match oth with [] => Ok m1 | _ => allocator_free (p_allocator d) oth m1 end = Ok m2 /\ mem_ok m2 (blk n :: foot_pools rest) /\ owners m2 = owners m1) as (m2 & E3 & Hm2 & Ho2).
  { rewrite <- Hp in Hm1. destruct oth as [|y oth]; [by exists m1|]. apply allocator_free_ok; [|done| |done].
    - rewrite fmap_cons in Hm1. by rewrite <- Permutation_middle.
    - assert (Forall node_ok (n :: y :: oth)) as [_ ?]%Forall_cons by (apply (pool_nodes_ok d); [done|by rewrite Hp]). done. }
  unfold good_step. cbn [step]. unfold apr_pool_clear. rewrite (focus_lookup _ _ _ _ _ _ _ _ _ Hf). cbn [rbind]. rewrite E1. cbn [rbind]. rewrite E2. cbn [rbind]. rewrite E3. cbn [rbind].
  eexists _, _, _. split; [done|]. regions Hf. destruct (shows_calls _ _ Hsh) as (-> & -> & _). rewrite bool_decide_true by done. split; [done|]. split; [|done].
  rewrite <- (fc_addr _ _ _ _ _ _ _ _ _ Hf) at 3 4. rewrite (sh_abort _ _ Hsh).
  apply (st_ok_update _ _ _ _ _ _ _ _ _ Hst Hf m2 (cleared d n) Null (Region (p_addr d) (p_abort_fn d) [(p_addr d, SIZEOF_POOL_T)] [] []) Null); try done.
  - constructor.
  - rewrite Ho2. constructor.
    + destruct Hde as [_ (o & Ho & Hiff)]. split; [done|]. exists o. split; [|done]. simpl in *. rewrite Hw1, decide_False by done. done.
    + eapply entries_without; [exact Hw1|done|]. eapply Forall_impl; [exact (focus_rest _ _ _ _ _ _ _ _ _ Hst Hf)|]. intros [pb x] Hx Hin. apply Hx. unfold pool_own in *. rewrite own_cons. set_solver.
  - unfold pool_own in *. rewrite own_cons. simpl. change (p_allocator (cleared d n)) with (p_allocator d).
    apply NoDup_cons in Hown as [H0 Hown]. apply NoDup_cons. split; [set_solver|]. apply NoDup_app in Hown as (? & Hdis & Hown). apply NoDup_app in Hown as (_ & _ & ?).
    apply NoDup_app. split_and!; [done| |done]. intros x Hx Hx'. apply (Hdis x Hx). set_solver.
  - intros a. rewrite Ho2, Hw1. destruct (decide (a ∈ pool_own (pool_entries (p_allocator d) c))) as [Hin|Hin]. { intros [? Hx]. discriminate Hx. } intros Hx%(focus_dom _ _ _ _ _ _ _ _ _ Hst Hf). unfold pool_own in *. rewrite own_cons. simpl. set_solver.
  - eapply all_blocks_update; [done|done|apply (so_apart _ _ Hst)|]. simpl. change ([(p_addr d, SIZEOF_POOL_T)] ++ []) with [(p_addr d, SIZEOF_POOL_T)].
    etrans; [|apply submseteq_inserts_r; reflexivity]. etrans; [|apply (sh_structs _ _ Hsh)]. apply submseteq_skip, submseteq_nil_l.
Qed.

(** Destroying a pool, whether or not it is the root. *)
Lemma destroy_pool_ok p st rt d c r rc pa rest :
  st_ok st rt -> focus st rt p d c r rc pa rest ->
  exists m', apr_pool_destroy p st = Ok (pre_calls r ++ destroy_calls rc ++ plain_calls r, State m' (remove p_addr p (pools st)) (global_pool st)) /\
    mem_ok m' (foot_pools rest) /\ without (pool_own ((pa, d) :: pool_entries (p_allocator d) c)) (owners (memory st)) (owners m').
Proof.
  intros Hst Hf. pose proof (focus_entry _ _ _ _ _ _ _ _ _ Hst Hf) as HE. rewrite app_comm_cons in HE. apply Forall_app in HE as [HE _].
  destruct (destroy_with_ok d r c rc pa (memory st) (foot_pools rest)) as (m' & E & Hm' & Hw).
  { apply (fc_shows _ _ _ _ _ _ _ _ _ Hf). }
  { by apply destroy_children_ok, (fc_rel _ _ _ _ _ _ _ _ _ Hf). }
  { constructor; [|done|].
    - pose proof (focus_mem _ _ _ _ _ _ _ _ _ Hst Hf) as Hm. unfold foot_pools in *. rewrite bind_app in Hm. by rewrite bind_cons, <- app_assoc.
    - pose proof (focus_own_split _ _ _ _ _ _ _ _ _ Hst Hf) as Hn. unfold pool_own in *. rewrite own_cons. rewrite app_assoc, app_comm_cons in Hn.
      apply NoDup_cons in Hn as [H0 Hn]. apply NoDup_app in Hn as (Hn & _ & _).
      apply NoDup_cons. split; [|done]. pose proof (ar_above _ _ _ _ _ _ _ _ _ (fc_around _ _ _ _ _ _ _ _ _ Hf)) as Ha.
      pose proof (focus_own_split _ _ _ _ _ _ _ _ _ Hst Hf) as Hn2. unfold pool_own in *. apply NoDup_cons in Hn2 as [H02 Hn2]. rewrite app_assoc in Hn2, H02. apply NoDup_app in Hn2 as (_ & Hdis & _).
      intros Hin. apply elem_of_cons in Ha as [->|Ha]; [set_solver|by apply (Hdis pa Hin)]. }
  { by eapply focus_below. }
  exists m'. split_and!; [|done..]. unfold apr_pool_destroy. rewrite (focus_lookup _ _ _ _ _ _ _ _ _ Hf). cbn [rbind]. by rewrite E.
Qed.

Lemma destroy_step p st rt : st_ok st rt -> enabled rt (Destroy p) st = true -> good_step (Destroy p) st rt.
Proof.
  intros Hst [Hl%live_find Hg]%andb_prop. focus_on Hst Hl. destruct (destroy_pool_ok _ _ _ _ _ _ _ _ _ Hst Hf) as (m' & E & Hm' & Hw).
  unfold good_step. cbn [step]. rewrite E. cbn [rbind]. eexists _, _, _. split; [done|]. regions Hf. rewrite bool_decide_true by done. split; [done|]. split; [|done].
  pose proof (ar_remove _ _ _ _ _ _ _ _ _ (fc_around _ _ _ _ _ _ _ _ _ Hf)) as Hrem.
  pose proof (focus_own_split _ _ _ _ _ _ _ _ _ Hst Hf) as Hn. apply NoDup_cons in Hn as [H0 Hn]. rewrite app_assoc in Hn, H0. apply NoDup_app in Hn as (_ & _ & Hn).
  pose proof (focus_entry _ _ _ _ _ _ _ _ _ Hst Hf) as HE. rewrite app_comm_cons in HE. apply Forall_app in HE as [_ HE].
  constructor; cbn [memory pools global_pool]; [constructor| | | |]; unfold st_entries, pool_entries, pool_own in *; cbn [pools memory] in *; rewrite ?Hrem.
  - by rewrite app_nil_r.
  - eapply entries_without; [exact Hw|done|exact (focus_rest _ _ _ _ _ _ _ _ _ Hst Hf)].
  - apply NoDup_cons. split; [set_solver|done].
  - intros a Ha. rewrite Hrem. rewrite Hw in Ha. unfold pool_own in *. destruct (decide (a ∈ own p_allocator ((pa, d) :: entries p_allocator (p_allocator d) c))) as [Hin|Hin].
    { destruct Ha as [? Ha]. discriminate Ha. }
    pose proof (focus_dom _ _ _ _ _ _ _ _ _ Hst Hf a Ha) as Hd. unfold pool_own, pool_entries in *. rewrite own_cons in Hin. set_solver.
  - apply rel_remove; [apply shows_key|apply (so_rel _ _ Hst)].
  - destruct (region_around p rt r rc (region_keys _ _ Hst) (fc_rfind _ _ _ _ _ _ _ _ _ Hf)) as (O & H1 & _ & ->).
    eapply apart_submseteq; [|apply (so_apart _ _ Hst)]. rewrite H1, app_assoc. by apply submseteq_inserts_l.
  - destruct (so_root _ _ Hst) as (d0 & c0 & Er & Eg). rewrite Er. simpl. destruct (Z.eqb_spec (p_addr d0) p) as [Ep|]; [|by eexists _, _].
    apply negb_true_iff, Z.eqb_neq in Hg. congruence.
Qed.

(** *** New pools *)

Lemma new_pool_ok n allocator abort_fn :
  fresh_node (MIN_ALLOC - APR_MEMNODE_T_SIZE) n ->
  let new := new_pool n allocator abort_fn in
  pool_ok new /\ shows new (Region (p_addr new) abort_fn [(p_addr new, SIZEOF_POOL_T)] [] []) /\ (blk <$> p_ring new) = [blk n] /\ new_block [] (p_ring new) (p_addr new) SIZEOF_POOL_T.
Proof.
  intros (Hn & Hfa & Hfit) new. set (n' := with_first_avail (n_first_avail n + SIZEOF_POOL_T) n).
  pose proof (node_addr _ Hn) as [Ha H8]. unfold MIN_ALLOC, APR_MEMNODE_T_SIZE in *. rewrite BOUNDARY_SIZE_eq in Hfit.
  assert (ring_node n') as Hr.
  { constructor; [by destruct Hn|unfold n', APR_MEMNODE_T_SIZE, SIZEOF_POOL_T; simpl; lia|].
    unfold n', SIZEOF_POOL_T. simpl. rewrite Hfa. replace (n_addr n + 40 + 120) with (n_addr n + 20 * 8) by lia. by rewrite Z_mod_plus_full. }
  assert (in_node n' (n_first_avail n, SIZEOF_POOL_T)) as Hin.
  { unfold in_node, n', APR_MEMNODE_T_SIZE, SIZEOF_POOL_T. simpl. lia. }
  split_and!; [constructor|constructor| |]; try done.
  - exists n', []. split_and!; [done|by constructor|constructor|constructor].
  - exists n'. split_and!; [left|done|unfold n'; simpl; lia].
  - constructor; [|done]. exists n'. split; [left|done].
  - split; [simpl; lia|]. split; [|exists n'; split_and!; [left|done|]; intros x Hx; by apply elem_of_nil in Hx].
    simpl. rewrite Hfa. replace (n_addr n + 40) with (n_addr n + 5 * 8) by lia. by rewrite Z_mod_plus_full.
Qed.

(** A pool is added below [d]. *)
Lemma add_pool_ok st rt p d c r rc pa rest m' new rnew :
  st_ok st rt -> focus st rt p d c r rc pa rest ->
  mem_ok m' ((blk <$> p_ring new) ++ foot_pools (st_entries st)) ->
  shows new rnew -> r_blocks rnew = [(p_addr new, SIZEOF_POOL_T)] -> Forall (disj (p_addr new, SIZEOF_POOL_T)) (all_blocks rt) ->
  Forall (entry_ok (owners m')) ((p_allocator d, new) :: st_entries st) ->
  NoDup (0 :: pool_own ((p_allocator d, new) :: st_entries st)) ->
  (forall a, is_Some (owners m' !! a) -> a ∈ pool_own ((p_allocator d, new) :: st_entries st)) ->
  st_ok (State m' (update p_addr p d (Link new Null c) (pools st)) (global_pool st)) (update r_addr p r (Link rnew Null rc) rt).
Proof.
  intros Hst Hf Hm Hsh Hb Hdis HE Hn Hdom. pose proof (focus_entries _ _ _ _ _ _ _ _ _ Hf) as Hent.
  assert ((pa, d) :: pool_entries (p_allocator d) (Link new Null c) ++ rest ≡ₚ (p_allocator d, new) :: st_entries st) as Hp.
  { rewrite Hent. unfold pool_entries. simpl. apply Permutation_swap. }
  eapply st_ok_update; [done|done|done|done|apply (fc_shows _ _ _ _ _ _ _ _ _ Hf)|constructor; [done|constructor|apply (fc_rel _ _ _ _ _ _ _ _ _ Hf)]|..].
  - rewrite Hp. done.
  - by rewrite Hp.
  - unfold pool_own in *. by rewrite Hp.
  - intros a Ha. unfold pool_own in *. rewrite Hp. by apply Hdom.
  - destruct (region_around p rt r rc (region_keys _ _ Hst) (fc_rfind _ _ _ _ _ _ _ _ _ Hf)) as (O & H1 & H2 & _).
    rewrite H2. unfold all_blocks at 1. cbn [elems app]. rewrite bind_cons, Hb. cbn [app]. rewrite <- Permutation_middle. change (elems rc ≫= r_blocks) with (all_blocks rc). rewrite <- H1.
    apply apart_cons; [done|apply (so_apart _ _ Hst)].
Qed.

(** The owner of an allocator is a pool. *)
Lemma owner_is_pool st rt a o : st_ok st rt -> owners (memory st) !! a = Some o -> exists x, x ∈ st_entries st /\ pool_ok x.2 /\ o = p_addr x.2.
Proof.
  intros Hst Ha. pose proof (so_dom _ _ Hst a ltac:(by exists o)) as Hd. unfold pool_own, own in Hd. apply list_elem_of_fmap in Hd as (x & -> & [Hne Hx]%list_elem_of_filter).
  pose proof (fo_entries _ _ _ _ (so_forest _ _ Hst)) as HE. rewrite Forall_forall in HE. destruct (HE x Hx) as [Hp (o' & Ho' & Hiff)].
  exists x. split_and!; [done..|]. rewrite Ha in Ho'. simplify_eq. tauto.
Qed.

(** The address of a new pool is not that of another one. *)
Lemma new_addr_fresh m new E x :
  mem_ok m ((blk <$> p_ring new) ++ foot_pools E) -> pool_ok new -> x ∈ E -> pool_ok x.2 -> p_addr x.2 <> p_addr new.
Proof.
  intros Hm Hn Hx Hp Eq. apply mem_ok_NoDup in Hm. rewrite fmap_app in Hm. apply NoDup_app in Hm as (_ & Hdis & _).
  destruct (self_in_foot _ Hn) as (b & Hb & Eb). destruct (self_in_foot _ Hp) as (b' & Hb' & Eb').
  apply (Hdis b.1); [by apply list_elem_of_fmap_2|]. rewrite Eb, <- Eq, <- Eb'. apply list_elem_of_fmap_2, list_elem_of_bind. by exists x.
Qed.

Lemma MIN_ALLOC_align : allocator_align (MIN_ALLOC - APR_MEMNODE_T_SIZE) = MIN_ALLOC.
Proof. reflexivity. Qed.

Lemma parent_focus st rt parent :
  st_ok st rt -> (parent =? 0) || (match find r_addr parent rt with Some _ => true | None => false end) = true ->
  exists d c r rc pa rest, focus st rt (if parent =? 0 then global_pool st else parent) d c r rc pa rest.
Proof.
  intros Hst Hl. apply st_focus; [done|]. destruct (parent =? 0); [|by apply live_find].
  destruct (so_root _ _ Hst) as (d & c & E & Eg). pose proof (so_rel _ _ Hst) as Hr. rewrite E in Hr. inversion Hr as [|? b ? c' ? s' Hsh]; subst. simpl.
  by rewrite (sh_addr _ _ Hsh), Eg, Z.eqb_refl.
Qed.

Lemma create_step parent fn st rt : st_ok st rt -> enabled rt (Create parent fn) st = true -> good_step (Create parent fn) st rt.
Proof.
  intros Hst Hl. destruct (parent_focus _ _ _ Hst Hl) as (d & c & r & rc & pa & rest & Hf). set (p := if parent =? 0 then global_pool st else parent) in *.
  pose proof (fc_shows _ _ _ _ _ _ _ _ _ Hf) as Hsh. pose proof (fo_mem _ _ _ _ (so_forest _ _ Hst)) as Hm. rewrite app_nil_r in Hm.
  destruct (allocator_alloc_ok (p_allocator d) (MIN_ALLOC - APR_MEMNODE_T_SIZE) _ _ Hm (focus_allocator _ _ _ _ _ _ _ _ _ Hst Hf) ltac:(done)) as (res & m' & E & Ho & Hres).
  unfold good_step. cbn [step]. unfold apr_pool_create_ex. fold p. rewrite (focus_lookup _ _ _ _ _ _ _ _ _ Hf). cbn [rbind]. change (0 =? 0) with true. cbv iota. rewrite E. cbn [rbind].
  set (fn' := if fn =? 0 then p_abort_fn d else fn). assert ((if fn =? 0 then r_abort_fn r else fn) = fn') as Efn by (by rewrite (sh_abort _ _ Hsh)).
  destruct res as [n|].
  - destruct Hres as [Hm' Hfresh]. destruct (new_pool_ok n (p_allocator d) fn' Hfresh) as (Hpn & Hshn & Eblk & Hnb). set (new := new_pool n (p_allocator d) fn') in *.
    assert (mem_ok m' ((blk <$> p_ring new) ++ foot_pools (st_entries st))) as Hm2 by (by rewrite Eblk).
    destruct (new_block_fits rt _ _ _ _ _ m' Hnb ltac:(intros ? []%elem_of_nil) (pool_ring _ Hpn) Hm2) as [Hfit Hdis].
    { pose proof (focus_all_blocks _ _ _ _ _ _ _ _ _ Hst Hf) as Hall. eapply Forall_impl; [exact Hall|]. intros b. by setoid_rewrite (focus_entries _ _ _ _ _ _ _ _ _ Hf). }
    eexists _, _, _. split; [done|]. unfold region_step. cbv beta iota zeta. fold p. rewrite (fc_rfind _ _ _ _ _ _ _ _ _ Hf). fold new. rewrite (proj2 (Z.eqb_neq (p_addr new) 0)) by (destruct Hnb; lia).
    rewrite bool_decide_true, Hfit, Efn by done. split; [done|]. split; [|done].
    pose proof (focus_entry _ _ _ _ _ _ _ _ _ Hst Hf) as [[_ (o & Hoo & _)] _]%Forall_cons.
    destruct (owner_is_pool _ _ _ _ Hst Hoo) as (x & Hx & Hxp & Eo).
    assert (pool_own ((p_allocator d, new) :: st_entries st) = pool_own (st_entries st)) as Eown.
    { unfold pool_own. rewrite own_cons, decide_True by done. done. }
    eapply add_pool_ok; try done; rewrite ?Eown, ?Ho.
    + constructor; [|apply (fo_entries _ _ _ _ (so_forest _ _ Hst))]. split; [done|]. exists o. split; [done|]. cbn [fst snd]. pose proof (new_addr_fresh _ _ _ _ Hm2 Hpn Hx Hxp). split; [congruence|done].
    + apply (fo_own _ _ _ _ (so_forest _ _ Hst)).
    + apply (so_dom _ _ Hst).
  - destruct Hres as [Hm' [Hbig|Hwhy]]; [done|]. rewrite MIN_ALLOC_align in Hwhy.
    eexists _, _, rt. split; [done|]. unfold region_step. cbv beta iota zeta. fold p. rewrite (fc_rfind _ _ _ _ _ _ _ _ _ Hf), Efn. rewrite Z.eqb_refl, bool_decide_true by done.
    cbn [refused]. rewrite Hwhy. split; [done|]. split; [|done]. destruct Hst as [[? ? ?] ? ? ? ?]. constructor; simpl; try done; [|by rewrite Ho]. constructor; try done; simpl; [by rewrite app_nil_r|by rewrite Ho].
Qed.

Lemma allocator_create_ok m F :
  mem_ok m F -> exists a m', apr_allocator_create m = (a, m') /\ mem_ok m' F /\
    (a = 0 /\ owners m' = owners m \/ 0 < a /\ owners m !! a = None /\ owners m' = <[a := 0]> (owners m)).
Proof.
  intros Hm. unfold apr_allocator_create. destruct (c_malloc_ok SIZEOF_ALLOCATOR_T m F Hm ltac:(done)) as (a & m1 & -> & _ & Eal & Hres).
  destruct Hres as [[-> Hm1]|(H0 & _ & _ & Hnone & Hm1)].
  - rewrite Z.eqb_refl. eexists _, _. split; [done|]. split; [done|]. left. split; [done|]. unfold owners. by rewrite Eal.
  - rewrite (proj2 (Z.eqb_neq a 0)) by lia. set (al := Allocator _ _ _ _ _).
    assert (allocators m !! a = None) as Hal.
    { destruct (allocators m !! a) as [x|] eqn:E; [|done]. destruct Hm as [Hh _ _]. unfold hold in Hh.
      assert (heap m !! a = Some SIZEOF_ALLOCATOR_T); [|congruence]. apply elem_of_map_to_list. rewrite <- Hh, (foot_lookup _ _ _ E). left. }
    eexists _, _. split; [done|]. split.
    + destruct Hm1 as [Hh Hk Hf]. constructor; simpl; [|done|].
      * rewrite Eal. rewrite Eal in Hh. unfold hold in *. rewrite <- Hh, foot_insert by done. unfold foot_allocator, al. cbn [fst snd a_free].
        replace (concat (replicate MAX_INDEX [])) with (@nil memnode) by reflexivity. cbn [fmap list_fmap app]. by rewrite Permutation_middle.
      * apply map_Forall_insert_2; [|done]. constructor; [done| |unfold MAX_INDEX; simpl; lia| |done].
        -- intros i l Hi. apply (lookup_replicate_1 MAX_INDEX) in Hi as [-> _]. constructor.
        -- intros i l _ Hi. by apply (lookup_replicate_1 MAX_INDEX) in Hi as [-> _].
    + right. split; [done|]. unfold owners. simpl. rewrite lookup_fmap, Hal, fmap_insert, Eal. done.
Qed.

Lemma owner_set_ok a o m F :
  mem_ok m F -> is_Some (owners m !! a) -> exists m', apr_allocator_owner_set a o m = Ok m' /\ mem_ok m' F /\ owners m' = <[a := o]> (owners m).
Proof.
  intros Hm [o' (al & Ha & Ho)%owners_lookup]. unfold apr_allocator_owner_set. rewrite (get_allocator_Ok _ _ _ Ha). cbn [rbind].
  eexists. split; [done|]. split.
  - eapply mem_ok_set; [done..| |done]. by destruct (mem_allocators _ _ Hm _ _ Ha).
  - unfold owners. simpl. by rewrite fmap_insert.
Qed.

(** The same pools on other memory. *)
Lemma st_ok_memory st rt m' :
  st_ok st rt -> mem_ok m' (foot_pools (st_entries st)) -> owners m' = owners (memory st) -> st_ok (State m' (pools st) (global_pool st)) rt.
Proof.
  intros [[? ? ?] ? ? ? ?] Hm Ho. constructor; simpl; try done; [|by rewrite Ho]. constructor; try done; simpl; [by rewrite app_nil_r|by rewrite Ho].
Qed.

Lemma create_own_step parent st rt : st_ok st rt -> enabled rt (CreateOwn parent) st = true -> good_step (CreateOwn parent) st rt.
Proof.
  intros Hst Hl. destruct (parent_focus _ _ _ Hst Hl) as (d & c & r & rc & pa & rest & Hf). set (p := if parent =? 0 then global_pool st else parent) in *.
  pose proof (fc_shows _ _ _ _ _ _ _ _ _ Hf) as Hsh. pose proof (fo_mem _ _ _ _ (so_forest _ _ Hst)) as Hm. rewrite app_nil_r in Hm.
  destruct (allocator_create_ok _ _ Hm) as (a & m1 & E1 & Hm1 & Ha).
  unfold good_step, refused. cbn [step]. unfold create_with_allocator. rewrite E1. cbv zeta.
  assert (forall k st', st_ok st' rt -> global_pool st' = global_pool st -> (k = [] \/ k = abort_calls (p_abort_fn d)) -> forall b, b = true ->
    exists r0 st'' rt', Ok (0, k, st') = Ok (r0, st'') /\ region_step (global_pool st) b rt (CreateOwn parent) r0 = Some rt' /\ st_ok st'' rt' /\ global_pool st'' = global_pool st) as Hfail.
  { intros k st' Hst' Hg Hk b ->. eexists _, _, rt. split; [done|]. unfold region_step. cbv beta iota zeta. fold p. rewrite (fc_rfind _ _ _ _ _ _ _ _ _ Hf). rewrite !Z.eqb_refl, (sh_abort _ _ Hsh).
    split; [|done]. destruct Hk as [->| ->]; [by rewrite (bool_decide_true ([] = [])), !orb_true_r by done|by rewrite bool_decide_true by done]. }
  destruct Ha as [[-> Ho1]|(Ha0 & Hnone & Ho1)].
  { apply Hfail; [by apply st_ok_memory|done|by left|done]. }
  rewrite (proj2 (Z.eqb_neq a 0)) by lia. unfold apr_pool_create_ex. cbn [pools global_pool]. fold p.
  unfold lookup_pool. cbn [pools]. rewrite (fc_find _ _ _ _ _ _ _ _ _ Hf). cbn [rbind]. rewrite (proj2 (Z.eqb_neq a 0)) by lia. change (0 =? 0) with true. cbv iota. cbn [memory].
  assert (is_Some (owners m1 !! a)) as Hsome by (rewrite Ho1, lookup_insert_eq; by eexists).
  destruct (allocator_alloc_ok a (MIN_ALLOC - APR_MEMNODE_T_SIZE) _ _ Hm1 Hsome ltac:(done)) as (res & m2 & E & Ho2 & Hres). rewrite E. cbn [rbind].
  destruct res as [n|].
  2: { destruct Hres as [Hm2 [Hbig|Hwhy]]; [done|]. rewrite MIN_ALLOC_align in Hwhy. cbn [rbind]. change (0 =? 0) with true. cbv iota. cbn [memory].
    rewrite <- Ho2 in Hsome. destruct (apr_allocator_destroy_ok a m2 _ Hm2 Hsome) as (m3 & -> & Hm3 & Ho3). cbn [rbind]. apply Hfail; [|done|by right|by rewrite Hwhy].
    apply (st_ok_memory st); [done..|]. rewrite Ho3, Ho2, Ho1. by apply delete_insert_id. }
  destruct Hres as [Hm2 Hfresh]. destruct (new_pool_ok n a (p_abort_fn d) Hfresh) as (Hpn & Hshn & Eblk & Hnb). set (new := new_pool n a (p_abort_fn d)) in *.
  cbn [rbind]. rewrite (proj2 (Z.eqb_neq (p_addr new) 0)) by (destruct Hnb; lia). cbn [memory pools global_pool].
  destruct (owner_set_ok a (p_addr new) m2 _ Hm2) as (m3 & -> & Hm3 & Ho3); [by rewrite Ho2|]. cbn [rbind].
  assert (mem_ok m3 ((blk <$> p_ring new) ++ foot_pools (st_entries st))) as Hm4 by (by rewrite Eblk).
  destruct (new_block_fits rt _ _ _ _ _ m3 Hnb ltac:(intros ? []%elem_of_nil) (pool_ring _ Hpn) Hm4) as [Hfit Hdis].
  { pose proof (focus_all_blocks _ _ _ _ _ _ _ _ _ Hst Hf) as Hall. eapply Forall_impl; [exact Hall|]. intros b. by setoid_rewrite (focus_entries _ _ _ _ _ _ _ _ _ Hf). }
  assert (owners m3 = <[a := p_addr new]> (owners (memory st))) as Ho by (rewrite Ho3, Ho2, Ho1; apply insert_insert_eq).
  assert (p_allocator d <> a) as Hda. { pose proof (focus_allocator _ _ _ _ _ _ _ _ _ Hst Hf) as [? Hx]. congruence. }
  assert (pool_own ((p_allocator d, new) :: st_entries st) = a :: pool_own (st_entries st)) as Eown.
  { unfold pool_own. rewrite own_cons, decide_False by done. done. }
  pose proof (fo_entries _ _ _ _ (so_forest _ _ Hst)) as HE. pose proof (fo_own _ _ _ _ (so_forest _ _ Hst)) as Hown.
  eexists _, _, _. split; [done|]. unfold region_step. cbv beta iota zeta. fold p. rewrite (fc_rfind _ _ _ _ _ _ _ _ _ Hf). fold new. rewrite (proj2 (Z.eqb_neq (p_addr new) 0)) by (destruct Hnb; lia).
  rewrite bool_decide_true, Hfit by done. change (0 =? 0) with true. cbv iota. rewrite (sh_abort _ _ Hsh). split; [done|]. split; [|done].
  eapply add_pool_ok; try done; rewrite ?Eown, ?Ho.
  - constructor.
    + split; [done|]. exists (p_addr new). cbn [fst snd]. split; [apply lookup_insert_eq|]. split; done.
    + rewrite Forall_forall in HE |- *. intros x Hx. destruct (HE x Hx) as [Hp (o & Hoo & Hiff)]. split; [done|]. exists o. split; [|done]. rewrite lookup_insert_ne; [done|congruence].
  - apply NoDup_cons in Hown as [H0 Hown]. apply NoDup_cons. split; [set_solver by lia|]. apply NoDup_cons. split; [|done].
    unfold pool_own, own. intros (x & Ex & [_ Hx]%list_elem_of_filter)%list_elem_of_fmap. rewrite Forall_forall in HE. destruct (HE x Hx) as [_ (o & Hoo & _)]. congruence.
  - intros b [<-|[_ Hb]]%lookup_insert_is_Some; [left|]. right. by apply (so_dom _ _ Hst).
Qed.

Lemma region_step_ok o st rt : st_ok st rt -> enabled rt o st = true -> step_or_null o st rt.
Proof.
  destruct o; intros Hst He.
  - by left; apply create_step.
  - by left; apply create_own_step.
  - by left; apply alloc_step.
  - by apply register_step.
  - by apply pre_register_step.
  - by left; apply kill_step.
  - by left; apply run_step.
  - by left; apply child_set_step.
  - by left; apply clear_step.
  - by left; apply destroy_step.
  - by left; apply for_exec_step.
  - by left; apply max_free_step.
Qed.

(** ** The first pool, and the last *)

Lemma mem_ok_empty : mem_ok (Mem ∅ 0 ∅) [].
Proof. constructor; [unfold hold, foot_allocators; simpl; by rewrite !map_to_list_empty| |apply map_Forall_empty]. split; [apply map_Forall_empty|]. intros a n b k Ha. simpl in Ha. by rewrite lookup_empty in Ha. Qed.

Lemma mem_ok_nothing m : mem_ok m [] -> (forall a, owners m !! a = None) -> heap m = ∅ /\ allocators m = ∅.
Proof.
  intros [Hh _ _] Ho. assert (allocators m = ∅) as E.
  { apply map_empty. intros a. specialize (Ho a). unfold owners in Ho. rewrite lookup_fmap in Ho. by destruct (allocators m !! a). }
  split; [|done]. rewrite E in Hh. unfold hold in Hh. symmetry in Hh. apply Permutation_nil_r in Hh. by apply map_to_list_empty_iff.
Qed.

Lemma initialize_ok :
  exists r m, apr_pool_initialize (Mem ∅ 0 ∅) = Ok (r, m) /\
    match r with None => heap m = ∅ | Some st => st_ok st (first_region (global_pool st)) /\ memory st = m end.
Proof.
  unfold apr_pool_initialize. destruct (allocator_create_ok _ _ mem_ok_empty) as (a & m1 & -> & Hm1 & Ha).
  destruct Ha as [[-> Ho1]|(Ha0 & _ & Ho1)].
  { eexists _, _. split; [done|]. apply mem_ok_nothing; [done|]. intros a. by rewrite Ho1. }
  rewrite (proj2 (Z.eqb_neq a 0)) by lia. assert (is_Some (owners m1 !! a)) as Hsome by (rewrite Ho1, lookup_insert_eq; by eexists).
  destruct (allocator_alloc_ok a (MIN_ALLOC - APR_MEMNODE_T_SIZE) _ _ Hm1 Hsome ltac:(done)) as (res & m2 & E & Ho2 & Hres). rewrite E. cbn [rbind].
  rewrite <- Ho2 in Hsome. destruct res as [n|].
  - destruct Hres as [Hm2 Hfresh]. destruct (new_pool_ok n a 0 Hfresh) as (Hpn & Hshn & Eblk & Hnb). set (new := new_pool n a 0) in *.
    destruct (owner_set_ok a (p_addr new) m2 _ Hm2 Hsome) as (m3 & -> & Hm3 & Ho3). cbn [rbind]. eexists _, _. split; [done|]. split; [|done].
    assert (pool_own [(0, new)] = [a]) as Eown by (unfold pool_own; rewrite own_cons, decide_False by (simpl; lia); done).
    constructor; cbn [memory pools global_pool]; [constructor| | | |by eexists _, _]; unfold st_entries; cbn [pools pool_entries entries app]; change (pool_entries 0 (Link new Null Null)) with [(0, new)]; rewrite ?Eown.
    + change (mem_ok m3 (((blk <$> p_ring new) ++ []) ++ [])). by rewrite Eblk.
    + constructor; [|done]. split; [done|]. exists (p_addr new). cbn [fst snd]. split; [rewrite Ho3; apply lookup_insert_eq|]. split; [intros _; simpl; lia|done].
    + apply NoDup_cons. split; [set_solver by lia|apply NoDup_singleton].
    + intros b. rewrite Ho3, Ho2, Ho1. intros [<-|[_ [<-|[_ Hb]]%lookup_insert_is_Some]]%lookup_insert_is_Some; [left|left|]. destruct Hb as [? Hb]. discriminate Hb.
    + constructor; [exact Hshn|constructor..].
    + intros x y l Hp. apply Permutation_length in Hp. discriminate Hp.
  - destruct Hres as [Hm2 _]. destruct (apr_allocator_destroy_ok a m2 _ Hm2 Hsome) as (m3 & -> & Hm3 & Ho3). eexists _, _. split; [done|].
    apply mem_ok_nothing; [done|]. intros b. rewrite Ho3, Ho2, Ho1. destruct (decide (a = b)) as [->|Hne]; [apply lookup_delete_eq|]. by rewrite lookup_delete_ne, lookup_insert_ne.
Qed.

Lemma terminate_ok st rt : st_ok st rt -> exists m, apr_pool_terminate st = Ok (destroy_calls rt, m) /\ heap m = ∅ /\ allocators m = ∅.
Proof.
  intros Hst. destruct (so_root _ _ Hst) as (d0 & c0 & Er & Eg).
  pose proof (so_rel _ _ Hst) as Hrel. rewrite Er in Hrel. inversion Hrel as [|? r0 ? rc0 ? s0 Hsh Hc Hs]; subst. inversion Hs; subst.
  destruct (st_focus st _ (global_pool st) Hst) as (d & c & r & rc & pa & rest & Hf). { simpl. by rewrite (sh_addr _ _ Hsh), Eg, Z.eqb_refl. }
  destruct (destroy_pool_ok _ _ _ _ _ _ _ _ _ Hst Hf) as (m' & E & Hm' & Hw). unfold apr_pool_terminate. rewrite E. cbn [rbind]. exists m'.
  pose proof (fc_rfind _ _ _ _ _ _ _ _ _ Hf) as Hfr. simpl in Hfr. rewrite (sh_addr _ _ Hsh), Eg, Z.eqb_refl in Hfr. simplify_eq.
  pose proof (ar_remove _ _ _ _ _ _ _ _ _ (fc_around _ _ _ _ _ _ _ _ _ Hf)) as Hrem. rewrite Er in Hrem. simpl in Hrem. rewrite Eg, Z.eqb_refl in Hrem. simpl in Hrem. apply Permutation_nil_l in Hrem. subst rest.
  split; [cbn [destroy_calls]; by rewrite app_nil_r|]. apply mem_ok_nothing; [done|]. intros a. rewrite Hw. destruct (decide _) as [|Hin]; [done|].
  destruct (owners (memory st) !! a) eqn:Ea; [|done]. pose proof (focus_dom _ _ _ _ _ _ _ _ _ Hst Hf a ltac:(by eexists)) as Hd.
  unfold pool_own in *. rewrite own_cons in Hin. set_solver.
Qed.

(** ** Sequences of operations *)

Lemma follow_ok ops st rt : st_ok st rt -> legal ops st rt = true ->
  exists ops1 st' rt', follow ops1 st rt = Some (st', rt') /\ st_ok st' rt' /\
    (ops1 = ops \/ exists o ops2, ops = ops1 ++ o :: ops2 /\ no_struct o st' = true /\ step o st' = Fault BadPointer).
Proof.
  revert st rt. induction ops as [|o ops IH]; intros st rt Hst Hl; cbn [legal] in Hl.
  { exists [], st, rt. split_and!; [done..|by left]. }
  apply andb_prop in Hl as [He Hl]. destruct (region_step_ok o st rt Hst He) as [(r & st1 & rt1 & E & Er & Hst1 & _)|[Hn E]].
  - rewrite E, Er in Hl. destruct (IH st1 rt1 Hst1 Hl) as (ops1 & st' & rt' & Ef & Hst' & Hend).
    exists (o :: ops1), st', rt'. cbn [follow]. rewrite E, Er. split_and!; [done..|].
    destruct Hend as [->|(o' & ops2 & -> & Hn & Ew)]; [by left|]. right. by exists o', ops2.
  - exists [], st, rt. split_and!; [done..|]. right. by exists o, ops.
Qed.

(** Every block lies in memory that is in use, behind the header of its node. *)
Definition in_use (m : mem) (b : Z * Z) : Prop :=
  exists a n, heap m !! a = Some n /\ a + APR_MEMNODE_T_SIZE <= b.1 /\ b.1 + b.2 <= a + n.

Lemma blocks_in_use st rt : st_ok st rt -> Forall (in_use (memory st)) (all_blocks rt).
Proof.
  intros Hst. apply Forall_forall. intros b (r0 & Hr0 & Hb)%list_elem_of_bind. apply list_elem_of_lookup in Hb as [i Hi].
  destruct (Forall2_lookup_r _ _ _ _ _ (rel_elems _ _ _ (so_rel _ _ Hst)) Hi) as (d0 & Hd0 & Hsh).
  pose proof (sh_blocks _ _ Hsh) as Hbs. rewrite Forall_forall in Hbs. destruct (Hbs b Hr0) as (n & Hn & Hin).
  apply list_elem_of_lookup_2 in Hd0. rewrite <- (entries_elems p_allocator 0) in Hd0. apply list_elem_of_fmap in Hd0 as (x & -> & Hx).
  pose proof (so_forest _ _ Hst) as Hfo. pose proof (fo_mem _ _ _ _ Hfo) as Hm.
  assert (blk n ∈ foot_pools (st_entries st) ++ []) as Hblk.
  { rewrite app_nil_r. apply list_elem_of_bind. exists x. split; [by apply list_elem_of_fmap_2|done]. }
  exists (n_addr n), (n_endp n - n_addr n). split; [apply (mem_ok_lookup _ _ _ Hm Hblk)|].
  pose proof (forest_pools _ _ _ _ Hfo) as Hp. rewrite Forall_forall in Hp. destruct (pool_ring _ (Hp x Hx)) as (a0 & rr & E0 & Hr & _). rewrite Forall_forall in Hr.
  destruct (rn_first _ (Hr n Hn)) as [_ ?]. destruct Hin as (? & ? & ?). lia.
Qed.

(** C7: Pools of memory keep their promise.  For every [malloc] that gives out
    blocks that do not overlap (it may fail whenever it likes) and every sequence of creating,
    clearing and destroying pools, allocating, and registering, removing and
    running cleanups, in which only pools that exist are used: either the whole
    sequence [ops1 = ops] runs without a fault, or all that comes before a
    registration of a cleanup for which the pool has no structure left over and
    [malloc] gives no memory, at which the code writes through the null pointer.
    Up to there, every allocation returns an aligned block that overlaps no other
    block, pool or cleanup in use, and lies behind the header of a node that is
    still allocated, or returns the null pointer because [malloc] did; the
    cleanups called are exactly those registered, latest first, those of the
    pools below in between; and if the last pool is terminated then, everything
    [malloc] has given out has been freed, once. *)
Theorem apr_pools_sound st m ops :
  apr_pool_initialize (Mem ∅ 0 ∅) = Ok (Some st, m) ->
  legal ops st (first_region (global_pool st)) = true ->
  exists ops1 st' rt, follow ops1 st (first_region (global_pool st)) = Some (st', rt) /\
    (ops1 = ops \/ exists o ops2, ops = ops1 ++ o :: ops2 /\ no_struct o st' = true /\ step o st' = Fault BadPointer) /\
    apart (all_blocks rt) /\ Forall (in_use (memory st')) (all_blocks rt) /\
    exists m', apr_pool_terminate st' = Ok (destroy_calls rt, m') /\ heap m' = ∅ /\ allocators m' = ∅.
Proof.
  intros Hi Hl. destruct initialize_ok as (r & m0 & E & Hr). rewrite Hi in E. simplify_eq. destruct Hr as [Hst _].
  destruct (follow_ok ops st _ Hst Hl) as (ops1 & st' & rt & E & Hst' & Hend). exists ops1, st', rt.
  split_and!; [done|done|apply (so_apart _ _ Hst')|by apply blocks_in_use|by apply terminate_ok].
Qed.

End Steps.

(** ** The limit of an allocator *)

Lemma pages_app l1 l2 : pages (l1 ++ l2) = pages l1 + pages l2.
Proof. induction l1 as [|n l1 IH]; simpl; [done|]. rewrite IH. lia. Qed.

#[global] Instance pages_proper : Proper ((≡ₚ) ==> (=)) pages.
Proof. induction 1; simpl; lia. Qed.

Lemma take_free_shape index al n al' : take_free index al = Ok (Some (n, al')) -> exists mi free, al' = taken al n mi free.
Proof.
  unfold take_free. destruct (index <=? _); intros E.
  - apply rbind_inv in E as (i & _ & E). apply rbind_inv in E as (l & _ & E). destruct l; [done|]. apply rbind_inv in E as (mi & _ & E). simplify_eq. by eexists _, _.
  - apply rbind_inv in E as (l & _ & E). destruct (scan_sink index l) as [[]|]; simplify_eq. by eexists _, _.
Qed.

Section Limit.
Context `{Malloc}.

(** What is kept and what may still be kept do not exceed the limit. *)
Definition within (a limit : Z) (m : mem) : Prop :=
  exists al, allocators m !! a = Some al /\ a_max_free_index al = limit /\ kept al + a_current_free_index al <= limit.

Lemma alloc_within a limit s m F r m' :
  mem_ok m F -> 0 <= s < 2 ^ 64 -> within a limit m -> allocator_alloc a s m = Ok (r, m') -> within a limit m'.
Proof.
  intros Hm Hs (al & Ha & Hl & Hk). unfold allocator_alloc. destruct (allocator_align_ok s Hs) as [[-> _]|(Hi & _)].
  { intros E. simplify_eq/=. by exists al. }
  destruct (allocator_align s =? 0); [intros; simplify_eq; by exists al|].
  destruct (APR_UINT32_MAX <? _); [intros; simplify_eq; by exists al|]. rewrite (get_allocator_Ok _ _ _ Ha). cbn [rbind].
  pose proof (mem_allocators _ _ Hm _ _ Ha) as Hal. destruct (take_free_ok _ al Hal Hi) as (res & E & Hres). rewrite E. cbn [rbind].
  destruct res as [[n al']|].
  - destruct Hres as (_ & _ & Hp & Hn & _). apply take_free_shape in E as (mi & free & ->). intros E. simplify_eq.
    eexists. split; [apply lookup_insert_eq|]. split; [done|]. unfold kept in *. rewrite Hp in Hk. simpl in *.
    pose proof (node_index _ Hn). destruct Hal as [_ _ _ _ Hc].
    pose proof (Z.mod_le (n_index n + 1) (2 ^ 32) ltac:(lia) ltac:(lia)). pose proof (Z.mod_pos_bound (n_index n + 1) (2 ^ 32) ltac:(lia)).
    pose proof (Z.mod_le (a_current_free_index al + wrap 32 (n_index n + 1)) (2 ^ 64)). unfold wrap in *.
    destruct (Z.ltb_spec (a_max_free_index al) ((a_current_free_index al + (n_index n + 1) mod 2 ^ 32) mod 2 ^ 64)); lia.
  - unfold c_malloc. cbv zeta. destruct (malloc _ _ _ =? 0); intros; simplify_eq; by exists al.
Qed.

Lemma free_loop_within max_free nodes free mi cur fl free' mi' cur' fl' :
  max_free <> 0 -> free_loop max_free nodes free mi cur fl = Ok (free', mi', cur', fl') -> pages (concat free') + cur' = pages (concat free) + cur.
Proof.
  intros Hmf. revert free mi cur fl. induction nodes as [|n nodes IH]; intros free mi cur fl; cbn [free_loop]; [intros; by simplify_eq|]. cbv zeta.
  rewrite (proj2 (Z.eqb_neq max_free APR_ALLOCATOR_MAX_FREE_UNLIMITED)) by done. cbn [negb andb].
  destruct (Z.ltb_spec cur (n_index n + 1)) as [|Hc]; [apply IH|]. rewrite (proj2 (Z.leb_le (n_index n + 1) cur)) by done.
  assert (forall i l mi2, free !! i = Some l -> free_loop max_free nodes (<[i := n :: l]> free) mi2 (cur - (n_index n + 1)) fl = Ok (free', mi', cur', fl') -> pages (concat free') + cur' = pages (concat free) + cur) as Hslot.
  { intros i l mi2 Hl E. rewrite (IH _ _ _ _ E). destruct (concat_insert free i l (n :: l) Hl) as (r & H1 & H2). rewrite H1, H2, !pages_app. simpl. lia. }
  destruct (n_index n <? Z.of_nat MAX_INDEX); intros (l & Hl & E)%rbind_inv.
  - eapply (Hslot (Z.to_nat (n_index n)) l); [|exact E]. unfold bucket in Hl. destruct (free !! Z.to_nat (n_index n)); by simplify_eq.
  - eapply (Hslot 0%nat l); [|exact E]. unfold bucket in Hl. destruct (free !! 0%nat); by simplify_eq.
Qed.

Lemma c_free_all_allocators l m m' : c_free_all l m = Ok m' -> allocators m' = allocators m.
Proof.
  revert m. induction l as [|n l IH]; intros m; simpl; [intros; by simplify_eq|]. intros (m1 & E1 & E)%rbind_inv. rewrite (IH _ E).
  unfold c_free in E1. destruct (heap m !! n_addr n); by simplify_eq.
Qed.

Lemma free_within a limit nodes m m' : limit <> 0 -> within a limit m -> allocator_free a nodes m = Ok m' -> within a limit m'.
Proof.
  intros H0 (al & Ha & Hl & Hk). unfold allocator_free. rewrite (get_allocator_Ok _ _ _ Ha). cbn [rbind]. destruct nodes as [|n nodes]; [done|].
  intros ([[[free mi] cur] fl] & E1 & E)%rbind_inv. apply c_free_all_allocators in E. eexists. split; [rewrite E; apply lookup_insert_eq|].
  split; [done|]. apply free_loop_within in E1; [|congruence]. unfold kept in *. simpl. lia.
Qed.

Lemma pick_node_ok x held r held' : pick_node x held = (r, held') -> held ≡ₚ match r with Some n => n :: held' | None => held' end.
Proof.
  revert r held'. induction held as [|n held IH]; intros r held'; simpl; [intros; by simplify_eq|].
  destruct (n_addr n =? x); [intros; by simplify_eq|]. destruct (pick_node x held) as [r1 h1]. intros E. simplify_eq.
  specialize (IH _ _ eq_refl). destruct r as [n'|]; rewrite IH; [apply Permutation_swap|done].
Qed.

Lemma pick_nodes_ok addrs held l held' : pick_nodes addrs held = (l, held') -> held ≡ₚ l ++ held'.
Proof.
  revert held l held'. induction addrs as [|x addrs IH]; intros held l held'; simpl; [intros; by simplify_eq|].
  destruct (pick_node x held) as [r h1] eqn:E1. destruct (pick_nodes addrs h1) as [l1 h2] eqn:E2. intros E. simplify_eq.
  apply pick_node_ok in E1. rewrite E1. destruct r as [n|]; rewrite (IH _ _ _ E2); done.
Qed.

Lemma use_allocator_ok a limit ops held m :
  limit <> 0 -> Forall (fun o => match o with TakeNode s => 0 <= s < 2 ^ 64 | _ => True end) ops ->
  mem_ok m (blk <$> held) -> Forall node_ok held -> is_Some (owners m !! a) -> within a limit m ->
  exists held' m', use_allocator a ops held m = Ok (held', m') /\ mem_ok m' (blk <$> held') /\ within a limit m'.
Proof.
  intros H0 Hops. revert held m. induction ops as [|o ops IH]; intros held m Hm Hh Ho Hw; [by eexists _, _|]. apply Forall_cons in Hops as [Hs Hops]. specialize (IH Hops).
  destruct o as [s|addrs]; cbn [use_allocator].
  - destruct (allocator_alloc_ok a s m _ Hm Ho Hs) as (r & m' & E & Ho' & Hr). rewrite E. cbn [rbind].
    pose proof (alloc_within a limit s m _ r m' Hm Hs Hw E) as Hw'. rewrite <- Ho' in Ho. destruct r as [n|]; destruct Hr as [Hm' Hn].
    + apply IH; [done|constructor; [by destruct Hn|done]|done|done].
    + by apply IH.
  - destruct (pick_nodes addrs held) as [l held1] eqn:E1. apply pick_nodes_ok in E1. rewrite E1 in Hm, Hh. destruct l as [|n l]; [by apply IH|].
    rewrite fmap_app in Hm. apply Forall_app in Hh as [Hh1 Hh2].
    destruct (allocator_free_ok a (n :: l) m _ Hm Ho Hh1 ltac:(done)) as (m' & E & Hm' & Ho'). rewrite E. cbn [rbind].
    apply IH; [done|done|by rewrite Ho'|by eapply free_within].
Qed.

(** C12: An allocator that is given a limit before it is used never keeps more
    unused memory than that limit, rounded up to whole pages, whatever nodes are
    taken from it and whichever of those held are given back, one or several at
    a time and in any order, and none of these operations faults. *)
Theorem apr_allocator_keeps_limit size a m m' ops :
  0 < size < 2 ^ 63 -> Forall (fun o => match o with TakeNode s => 0 <= s < 2 ^ 64 | _ => True end) ops ->
  apr_allocator_create (Mem ∅ 0 ∅) = (a, m) -> a <> 0 -> apr_allocator_max_free_set a size m = Ok m' ->
  exists held m'' al, use_allocator a ops [] m' = Ok (held, m'') /\ allocators m'' !! a = Some al /\ BOUNDARY_SIZE * kept al < size + BOUNDARY_SIZE.
Proof.
  intros Hs Hops Ec Ha Es. destruct (allocator_create_ok _ _ mem_ok_empty) as (a' & m1 & Ec' & Hm1 & Hres). rewrite Ec in Ec'. simplify_eq.
  destruct Hres as [[-> _]|(_ & _ & Ho1)]; [done|]. assert (is_Some (owners m1 !! a')) as Hsome by (rewrite Ho1, lookup_insert_eq; by eexists).
  destruct (max_free_set_ok a' size m1 [] Hm1 Hsome ltac:(lia)) as (m2 & Es' & Hm2 & Ho2). rewrite Es in Es'. simplify_eq.
  set (limit := Z.shiftr (APR_ALIGN size BOUNDARY_SIZE) BOUNDARY_INDEX).
  assert (limit <> 0 /\ 4096 * limit < size + 4096) as [Hl0 Hlim].
  { unfold limit, BOUNDARY_INDEX. rewrite BOUNDARY_SIZE_eq, Z.shiftr_div_pow2, APR_ALIGN_eq, (wrap_small 64) by lia. rewrite (Z.mul_comm (2 ^ 12)), Z.div_mul by lia.
    change (2 ^ 12) with 4096. pose proof (Z.mul_div_le (size + (4096 - 1)) 4096 ltac:(lia)). pose proof (Z.mul_succ_div_gt (size + (4096 - 1)) 4096 ltac:(lia)). lia. }
  assert (within a' limit m2) as Hw.
  { unfold apr_allocator_create, c_malloc in Ec. cbv zeta in Ec. injection Ec as Ea Em. rewrite Ea in Em. rewrite (proj2 (Z.eqb_neq a' 0) Ha) in Em.
    unfold apr_allocator_max_free_set in Es. rewrite <- Em in Es. unfold get_allocator in Es. cbn [set_allocator with_allocators allocators] in Es. rewrite lookup_insert_eq in Es. cbn [rbind] in Es. cbv zeta in Es.
    injection Es as Es. rewrite <- Es. eexists. split; [apply lookup_insert_eq|]. split; [done|]. cbn [a_current_free_index a_max_free_index kept a_free]. fold limit.
    unfold kept. cbn [a_free]. change (pages (concat _)) with 0. unfold APR_ALLOCATOR_MAX_FREE_UNLIMITED.
    destruct (Z.ltb_spec limit (wrap 64 (wrap 64 (0 + limit) - 0))); lia. }
  destruct (use_allocator_ok a' limit ops [] m2 Hl0 Hops Hm2 (Forall_nil_2 _)) as (held & m3 & E & Hm3 & al & Hal & Hmf & Hk); [by rewrite Ho2|done|].
  exists held, m3, al. split_and!; [done..|]. rewrite BOUNDARY_SIZE_eq. change (2 ^ 12) with 4096.
  pose proof (al_current _ (mem_allocators _ _ Hm3 _ _ Hal)). lia.
Qed.

End Limit.

(** The first node behind the active one has the most space, up to one page: a
    request that it cannot meet is beyond the others, or close to what they have. *)
Lemma ring_first_is_best active n rest size x :
  ring_ok (active :: n :: rest) -> space n < size -> x ∈ rest -> space x < size + 4096.
Proof.
  intros (a & r & E & _ & Hs & Hr) Hn Hx. injection E as <- <-. apply StronglySorted_inv in Hs as [_ Hs]. apply Forall_cons in Hr as [Hrn Hr].
  rewrite Forall_forall in Hs, Hr. pose proof (Hs x Hx) as Hle. pose proof (Hr x Hx) as Hrx. unfold by_space, ranked in *. rewrite Hrx, Hrn in Hle.
  pose proof (Z.mul_div_le (space n) 4096 ltac:(lia)). pose proof (Z.mul_succ_div_gt (space x) 4096 ltac:(lia)). lia.
Qed.

(** ** Memory that is not there, and limits that are lowered *)

(** A pool without a parent begins as the global pool does. *)
Lemma apr_pool_create_unmanaged_ex_ok `{Malloc} d m :
  apr_pool_create_unmanaged_ex 0 0 (Mem ∅ 0 ∅) = Ok (Some d, [], m) ->
  apr_pool_initialize (Mem ∅ 0 ∅) = Ok (Some (State m (Link d Null Null) (p_addr d)), m).
Proof.
  unfold apr_pool_create_unmanaged_ex, apr_pool_initialize. change (0 =? 0) with true. cbv iota.
  destruct (apr_allocator_create (Mem ∅ 0 ∅)) as [a m0]. destruct (a =? 0); [done|].
  destruct (allocator_alloc a (MIN_ALLOC - APR_MEMNODE_T_SIZE) m0) as [[[n|] m1]| |]; cbn [rbind]; try done.
  destruct (apr_allocator_owner_set a _ m1) as [m2| |]; cbn [rbind]; try done. intros E. by simplify_eq.
Qed.

(** When there is memory for the allocator of such a pool, but not for the pool,
    the allocator is not freed. *)
Definition one_block (k : nat) (heap : gmap Z Z) (n : Z) : Z := match k with O => bump k heap n | _ => 0 end.

Program Definition one_block_malloc : Malloc := {| malloc := one_block |}.
Next Obligation. intros [|k] heap n Hn; [by apply (@malloc_law bump_malloc 0 heap n)|by left]. Qed.

Example apr_pool_create_unmanaged_ex_leaks :
  match @apr_pool_create_unmanaged_ex one_block_malloc 0 0 (Mem ∅ 0 ∅) with
  | Ok (None, _, m) => snd <$> map_to_list (heap m)
  | _ => []
  end = [SIZEOF_ALLOCATOR_T] /\
  match @apr_pool_initialize one_block_malloc (Mem ∅ 0 ∅) with Ok (None, m) => map_to_list (heap m) = [] | _ => False end.
Proof. vm_compute. done. Qed.

(** An allocator keeps ten pages, and its limit is lowered from ten pages to two.
    The subtraction in [apr_allocator_max_free_set] passes below 0, and the
    allocator goes on as if it kept nothing: it keeps two pages more. *)
Definition lowered : result (list memnode * mem) :=
  let (a, m) := @apr_allocator_create bump_malloc (Mem ∅ 0 ∅) in
  let! m := apr_allocator_max_free_set a 40960 m in
  let! (held, m) := @use_allocator bump_malloc a (replicate 6 (TakeNode 8152)) [] m in
  let! (held, m) := @use_allocator bump_malloc a [GiveNodes (n_addr <$> take 5 held)] held m in
  let! m := apr_allocator_max_free_set a 8192 m in
  @use_allocator bump_malloc a [GiveNodes (n_addr <$> held)] held m.

Example max_free_lowered :
  match lowered with
  | Ok ([], m) => (fun x => (kept x.2, a_max_free_index x.2)) <$> map_to_list (allocators m)
  | _ => []
  end = [(12, 2)].
Proof. vm_compute. reflexivity. Qed.

(** ** Instances *)

Lemma apr_pools_sound_witness :
  legal (sample (global_pool first_state)) first_state (first_region (global_pool first_state)) = true /\
  is_Some (follow (sample (global_pool first_state)) first_state (first_region (global_pool first_state))) /\
  exists ops1 st' rt, follow ops1 first_state (first_region (global_pool first_state)) = Some (st', rt) /\
    (ops1 = sample (global_pool first_state) \/
     exists o ops2, sample (global_pool first_state) = ops1 ++ o :: ops2 /\ no_struct o st' = true /\ step o st' = Fault BadPointer) /\
    apart (all_blocks rt) /\ Forall (in_use (memory st')) (all_blocks rt) /\
    exists m', apr_pool_terminate st' = Ok (destroy_calls rt, m') /\ heap m' = ∅ /\ allocators m' = ∅.
Proof.
  split; [vm_compute; reflexivity|]. split; [eexists; vm_compute; reflexivity|].
  apply (@apr_pools_sound bump_malloc first_state (memory first_state) (sample (global_pool first_state))); vm_compute; reflexivity.
Defined.

(** The registration without memory does happen: memory for the first pool only,
    all of it used, and then a cleanup. *)
Definition two_blocks (k : nat) (heap : gmap Z Z) (n : Z) : Z := match k with O | 1%nat => bump k heap n | _ => 0 end.
Program Definition two_blocks_malloc : Malloc := {| malloc := two_blocks |}.
Next Obligation. intros [|[|k]] heap n Hn; [by apply (@malloc_law bump_malloc 0 heap n)|by apply (@malloc_law bump_malloc 1 heap n)|by left]. Qed.

Example register_without_memory :
  match @apr_pool_initialize two_blocks_malloc (Mem ∅ 0 ∅) with
  | Ok (Some st, _) =>
      let g := global_pool st in
      @legal two_blocks_malloc [Alloc g 7900; Alloc g 100; Register g 1 2 3] st (first_region g) = true /\
      match @follow two_blocks_malloc [Alloc g 7900; Alloc g 100] st (first_region g) with
      | Some (st', _) => @no_struct two_blocks_malloc (Register g 1 2 3) st' = true /\ @step two_blocks_malloc (Register g 1 2 3) st' = Fault BadPointer
      | None => False
      end
  | _ => False
  end.
Proof. vm_compute. done. Qed.

(** The middle one of three nodes is given back and taken again, then the first and
    the last, and the other one stays. *)
Definition limit_ops : list node_op :=
  [TakeNode 8152; TakeNode 20000; TakeNode 100000; GiveNodes [12528]; TakeNode 9000; TakeNode 9000; GiveNodes [33024; 4320; 77]].

Lemma apr_allocator_keeps_limit_witness :
  exists a m m', apr_allocator_create (Mem ∅ 0 ∅) = (a, m) /\ apr_allocator_max_free_set a 50000 m = Ok m' /\
  exists held m'' al, use_allocator a limit_ops [] m' = Ok (held, m'') /\ allocators m'' !! a = Some al /\ BOUNDARY_SIZE * kept al < 50000 + BOUNDARY_SIZE.
Proof.
  set (a := fst (apr_allocator_create (Mem ∅ 0 ∅))). set (m := snd (apr_allocator_create (Mem ∅ 0 ∅))).
  set (m' := match apr_allocator_max_free_set a 50000 m with Ok m' => m' | _ => m end).
  exists a, m, m'. split; [reflexivity|]. split; [vm_compute; reflexivity|].
  apply (apr_allocator_keeps_limit 50000 a m m' limit_ops); [lia|repeat constructor; vm_compute; congruence|reflexivity|vm_compute; congruence|vm_compute; reflexivity].
Defined.

End AprPoolsProof.
