(* ===== verification/EventPool.v ===== *)
(** * Pools of fast events, and the end of the event system

    [src/src/agc_event.c]: [agc_event_fast_initial] builds the events of a pool;
    [agc_event_fast_alloc] and [agc_event_fast_release] ([EventBus.v]) take them
    from it and bring them back; [agc_event_shutdown] waits for the threads that
    dispatch events. *)

From stdpp Require Import base gmap list fin_maps.
From Stdlib Require Import ZArith Lia.
From S2P Require Import Prelude CString Queue Event EventBus EventFast.

Module Pool.
Import Ev Bus.

(** The blocks of the fast events, by address. *)
Definition blocks := gmap Z Fast.fast_event.

(** [fast_event_create] in the store: the event, and its block behind it.  The
    headers and the body are in the block. *)
Definition fast_new (b : bus) (fs : blocks) (ty event_id : Z) (hs : list (cstr * nat)) (bodylength : nat) : result (bus * blocks * Z) :=
  let! f := Fast.fast_event_create ty hs bodylength in
  let p := brk (mem b) in
  let hp := match hs with [] => NULL | _ => p + 1 end in
  let e := Event event_id 0 0 hp hp NULL (p + 1) None NULL in
  let m := Store (hdrs (mem b)) (<[p := e]> (evts (mem b))) (p + 2) in
  Ok (BusState (SYSTEM_RUNNING b) (MAX_DISPATCHER b) (EVENT_SOURCE_ID b) (event_templates b) (EVENT_NODES b) (EVENT_DISPATCH_QUEUES b)
        (FAST_EVENT_QUEUES b) (<[p + 1 := ty]> (fast_type b)) m, <[p + 1 := f]> fs, p).

(** The loop of [agc_event_fast_initial]. *)
Fixpoint fill (n : nat) (b : bus) (fs : blocks) (ty event_id : Z) (hs : list (cstr * nat)) (bodylength : nat) : result (bus * blocks * agc_status) :=
  match n with
  | O => Ok (b, fs, AGC_STATUS_SUCCESS)
  | S n' =>
      let! (b, fs, ev) := fast_new b fs ty event_id hs bodylength in
      match FAST_EVENT_QUEUES b !! ty with
      | None => Fault BadPointer
      | Some q =>
          let! (q, st) := Queue.apr_queue_trypush q ev in
          let b := with_fast (<[ty := q]> (FAST_EVENT_QUEUES b)) b in
          match st with
          | Queue.APR_SUCCESS => fill n' b fs ty event_id hs bodylength
          | _ => Ok (b, fs, AGC_STATUS_GENERR)
          end
      end
  end.

Definition agc_event_fast_initial (b : bus) (fs : blocks) (ty event_id capacity : Z) (hs : list (cstr * nat)) (bodylength : nat)
    : result (bus * blocks * agc_status) :=
  if EVENT_FAST_TYPE_Invalid <=? ty then Ok (b, fs, AGC_STATUS_GENERR)
  else if ty <? 0 then Fault OutOfBounds
  else
    match FAST_EVENT_QUEUES b !! ty with
    | Some _ => Ok (b, fs, AGC_STATUS_GENERR)
    | None =>
        fill (Z.to_nat capacity) (with_fast (<[ty := Queue.apr_queue_create (wrap 32 (capacity + 10))]> (FAST_EVENT_QUEUES b)) b) fs ty event_id hs bodylength
    end.

(** ** Clients of a pool *)

(** A client takes an event, or gives back one that is held. *)
Inductive pool_action := Take | Give (ev : Z).

Definition pool_step (ty : Z) (a : pool_action) (s : bus * list Z) : result (bus * list Z * agc_status) :=
  let (b, held) := s in
  match a with
  | Take =>
      let! (b, st, ev) := agc_event_fast_alloc b ty in
      Ok (b, match ev with Some p => p :: held | None => held end, st)
  | Give ev =>
      if bool_decide (ev ∈ held) then let! (b, st) := agc_event_fast_release b ev in Ok (b, filter (fun x => x <> ev) held, st)
      else Ok (b, held, AGC_STATUS_FALSE)
  end.

Fixpoint pool_run (ty : Z) (acts : list pool_action) (s : bus * list Z) : result (bus * list Z) :=
  match acts with
  | [] => Ok s
  | a :: acts' => let! (b, held, _) := pool_step ty a s in pool_run ty acts' (b, held)
  end.

(** ** Shutdown *)

(** The loop of [agc_event_shutdown]: [reads t] is what the [t]-th read of
    [DISPATCH_THREAD_COUNT] gives.  The result is the number of the read that
    ended it, and [x]. *)
Fixpoint shutdown_loop (fuel : nat) (reads : nat -> Z) (t : nat) (x last : Z) : option (nat * Z) :=
  match fuel with
  | O => None
  | S fuel =>
      if (x <? 100) && negb (reads t =? 0)
      then shutdown_loop fuel reads (t + 3) (if reads (t + 1)%nat =? last then x + 1 else x) (reads (t + 2)%nat)
      else Some (t, x)
  end.
Definition agc_event_shutdown (fuel : nat) (b : bus) (reads : nat -> Z) : bus * option (nat * Z) :=
  (with_running false b, shutdown_loop fuel reads 0 0 0).

End Pool.
Import Ev Bus Pool.

(** ** Filling a pool *)

(** What a block of a new fast event is made from. *)
Definition good_templates (ty : Z) (hs : list (cstr * nat)) (bl : nat) : Prop := exists f, Fast.fast_event_create ty hs bl = Ok f.

(** The pool of a type: its queue holds the events [es] and has room for [n]
    more, and each of them is an event of this type. *)
Record pool_of (b : bus) (ty : Z) (es : list Z) (n : nat) : Prop := PoolOf {
  po_queue : exists q, FAST_EVENT_QUEUES b !! ty = Some q /\ Queue.wf q /\ Queue.terminated q = false /\ Queue.contents q = es /\
    Z.of_nat (length es + n) <= Queue.bounds q }.

Record fast_ok (b : bus) (ty : Z) (ev : Z) : Prop := FastOk {
  fo_event : exists e, evts (mem b) !! ev = Some e /\ fast e <> NULL /\ fast_type b !! fast e = Some ty;
  fo_addr : 0 < ev < brk (mem b) }.

Lemma fast_new_spec b fs ty id hs bl : good_templates ty hs bl -> 0 < brk (mem b) ->
  (forall e p, evts (mem b) !! p = Some e -> fast e < brk (mem b)) ->
  exists b' fs' p, fast_new b fs ty id hs bl = Ok (b', fs', p) /\ p = brk (mem b) /\ brk (mem b') = p + 2 /\ FAST_EVENT_QUEUES b' = FAST_EVENT_QUEUES b /\
    fast_ok b' ty p /\ (forall ev, fast_ok b ty ev -> fast_ok b' ty ev) /\ (forall e p', evts (mem b') !! p' = Some e -> fast e < brk (mem b')).
Proof.
  intros [f Hf] Hb Hfast. unfold fast_new. rewrite Hf. cbn [rbind]. eexists _, _, _. split_and!; [done..| | |]; cbn [mem brk evts].
  - split; cbn [mem evts brk fast_type]; [|lia]. rewrite lookup_insert_eq. eexists. split; [done|]. cbn [fast]. split; [unfold NULL; lia|by rewrite lookup_insert_eq].
  - intros ev [(e & He & Hn & Ht) Ha]. split; cbn [mem evts brk fast_type]; [|lia]. rewrite lookup_insert_ne by lia. exists e. split_and!; [done|done|].
    rewrite lookup_insert_ne; [done|]. pose proof (Hfast e ev He). lia.
  - intros e p'. destruct (decide (p' = brk (mem b))) as [->|Hne].
    + rewrite lookup_insert_eq. intros [= <-]. cbn [fast]. lia.
    + rewrite lookup_insert_ne by done. intros He%Hfast. lia.
Qed.

Lemma fill_spec n : forall b fs ty id hs bl es, good_templates ty hs bl -> 0 < brk (mem b) ->
  (forall e p, evts (mem b) !! p = Some e -> fast e < brk (mem b)) -> pool_of b ty es n -> NoDup es -> Forall (fast_ok b ty) es ->
  exists b' fs' new, fill n b fs ty id hs bl = Ok (b', fs', AGC_STATUS_SUCCESS) /\ pool_of b' ty (es ++ new) 0 /\ NoDup (es ++ new) /\ Forall (fast_ok b' ty) (es ++ new) /\ length new = n.
Proof.
  induction n as [|n IH]; intros b fs ty id hs bl es Hg Hb Hfast [Hq] Hn Hes; cbn [fill].
  - exists b, fs, []. rewrite app_nil_r. by split_and!.
  - destruct (fast_new_spec b fs ty id hs bl Hg Hb Hfast) as (b1 & fs1 & p & -> & Ep & Eb & Eq & Hok & Hkeep & Hfast1). cbn [rbind]. rewrite Eq.
    destruct Hq as (q & -> & Hwf & Ht & Hc & Hroom). unfold Queue.apr_queue_trypush. rewrite Ht. unfold Queue.apr_queue_full.
    pose proof (Queue.full_length q Hwf) as Hlen. rewrite Hc in Hlen. rewrite (proj2 (Z.eqb_neq _ _)) by lia.
    destruct (Queue.put_spec q p Hwf) as (q' & -> & Hwf' & Hc' & _ & _ & Ht' & Hbd); [lia|]. cbn [rbind].
    assert (p ∉ es) as Hp by (intros Hin; rewrite Forall_forall in Hes; destruct (Hes p Hin) as [_ Ha]; lia).
    destruct (IH (with_fast (<[ty := q']> (FAST_EVENT_QUEUES b)) b1) fs1 ty id hs bl (es ++ [p])) as (b2 & fs2 & new & E & Hpo & Hnd & Hall & Hlen2); cbn [mem with_fast].
    + done.
    + lia.
    + done.
    + split. exists q'. cbn [FAST_EVENT_QUEUES with_fast]. rewrite lookup_insert_eq. split_and!; [done|done|congruence|by rewrite Hc', Hc|]. rewrite Hbd, length_app. cbn [length]. lia.
    + apply NoDup_app. split_and!; [done| |apply NoDup_singleton]. intros x Hx ->%list_elem_of_singleton. done.
    + apply Forall_app. split; [|apply Forall_singleton; by destruct Hok]. eapply Forall_impl; [exact Hes|]. intros x Hx%Hkeep. by destruct Hx.
    + rewrite E. exists b2, fs2, (p :: new). rewrite <- app_assoc in *. split_and!; try done. cbn. lia.
Qed.

(** ** Clients *)

Record pool_inv (ty : Z) (all : list Z) (s : bus * list Z) : Prop := PoolInv {
  pi_type : 0 <= ty < EVENT_FAST_TYPE_Invalid;
  pi_pool : exists es, pool_of s.1 ty es (length s.2) /\ es ++ s.2 ≡ₚ all;
  pi_all : NoDup all /\ Forall (fast_ok s.1 ty) all }.

Lemma pool_take ty all b held : pool_inv ty all (b, held) ->
  exists b' held' st, pool_step ty Take (b, held) = Ok (b', held', st) /\ pool_inv ty all (b', held') /\
    ((st = AGC_STATUS_SUCCESS /\ exists ev, held' = ev :: held /\ ev ∉ held) \/ (st = AGC_STATUS_GENERR /\ held' = held /\ held ≡ₚ all)).
Proof.
  intros [Hty (es & [(q & Hq & Hwf & Ht & Hc & Hroom)] & Hperm) [Hnd Hall]]. cbn [fst snd] in *. cbn [pool_step]. unfold agc_event_fast_alloc.
  rewrite (proj2 (Z.leb_gt _ _)), (proj2 (Z.ltb_ge _ _)) by lia. rewrite Hq. unfold Queue.apr_queue_trypop. rewrite Ht. unfold Queue.apr_queue_empty.
  pose proof (Queue.full_length q Hwf) as Hlen. rewrite Hc in Hlen. destruct (Z.eqb_spec (Queue.nelts q) 0) as [H0|H0].
  - cbn [rbind]. eexists _, _, _. split; [done|]. assert (es = []) as -> by (destruct es; [done|cbn in Hlen; lia]). split; [|right; by split_and!].
    split; [done| |split; [done|]; eapply Forall_impl; [exact Hall|]; intros x []; done]. exists []. split; [|done]. split. exists q. cbn [fst FAST_EVENT_QUEUES with_fast]. rewrite lookup_insert_eq. by split_and!.
  - destruct (Queue.get_spec q Hwf) as (q' & v & L & -> & Hwf' & Hc0 & Hc' & _ & _ & Ht' & Hb'); [pose proof (Queue.wf_nelts q Hwf); lia|]. cbn [rbind].
    rewrite Hc in Hc0. clear Hc. subst es. eexists _, _, _. split; [done|]. assert (v ∉ held) as Hv.
    { rewrite <- Hperm in Hnd. cbn [app] in Hnd. apply NoDup_cons in Hnd as [Hnot _]. set_solver. }
    split; [|left; split; [done|]; by exists v]. split; [done| |split; [done|]; eapply Forall_impl; [exact Hall|]; intros x []; done].
    exists L. cbn [fst snd]. split; [|by rewrite <- Hperm, <- Permutation_middle].
    split. exists q'. cbn [FAST_EVENT_QUEUES with_fast length]. rewrite lookup_insert_eq. split_and!; [done|done|congruence|done|]. cbn [length] in Hroom. lia.
Qed.

Lemma remove_perm (v : Z) l : NoDup l -> v ∈ l -> l ≡ₚ v :: filter (fun x => x <> v) l.
Proof.
  intros Hl Hv. induction l as [|x l IH]; [set_solver|]. apply NoDup_cons in Hl as [Hx Hl]. destruct (decide (x = v)) as [->|Hne].
  - rewrite filter_cons_False by (intros Hc; by apply Hc). rewrite list_filter_all; [done|]. apply Forall_forall. intros y Hy ->. done.
  - rewrite filter_cons_True by done. apply elem_of_cons in Hv as [->|Hv]; [done|]. rewrite (IH Hl Hv) at 1. apply Permutation_swap.
Qed.

Lemma pool_give ty all b held ev : pool_inv ty all (b, held) ->
  exists b' held' st, pool_step ty (Give ev) (b, held) = Ok (b', held', st) /\ pool_inv ty all (b', held').
Proof.
  intros Hi. pose proof Hi as [Hty (es & [(q & Hq & Hwf & Ht & Hc & Hroom)] & Hperm) [Hnd Hall]]. cbn [fst snd] in *. cbn [pool_step].
  destruct (bool_decide_reflect (ev ∈ held)) as [Hin|]; [|by eauto]. assert (fast_ok b ty ev) as [(e & He & Hn & Hf) Ha].
  { rewrite Forall_forall in Hall. apply Hall. rewrite <- Hperm. apply elem_of_app. by right. }
  unfold agc_event_fast_release. rewrite (proj2 (Z.eqb_neq ev NULL)) by (unfold NULL; lia). unfold eget. rewrite He. cbn [rbind].
  rewrite (proj2 (Z.eqb_neq _ _)) by done. rewrite Hf, Hq. unfold Queue.apr_queue_trypush. rewrite Ht. unfold Queue.apr_queue_full.
  assert (NoDup held) as Hnh by (rewrite <- Hperm in Hnd; by apply NoDup_app in Hnd as (_ & _ & ?)). pose proof (remove_perm ev held Hnh Hin) as Hrem.
  pose proof (Permutation_length Hrem) as Hlr. cbn [length] in Hlr. pose proof (Queue.full_length q Hwf) as Hlen. rewrite Hc in Hlen.
  rewrite (proj2 (Z.eqb_neq _ _)) by lia. destruct (Queue.put_spec q ev Hwf) as (q' & -> & Hwf' & Hc' & _ & _ & Ht' & Hb'); [lia|]. cbn [rbind].
  eexists _, _, _. split; [done|]. split; [done| |split; [done|]; eapply Forall_impl; [exact Hall|]; intros x []; done].
  exists (es ++ [ev]). cbn [fst snd]. split; [|rewrite <- Hperm, <- app_assoc; by rewrite Hrem at 2].
  split. exists q'. cbn [FAST_EVENT_QUEUES with_fast]. rewrite lookup_insert_eq. split_and!; [done|done|congruence|congruence|]. rewrite Hb', length_app. cbn [length]. lia.
Qed.

Lemma pool_run_inv ty all acts : forall s, pool_inv ty all s -> exists s', pool_run ty acts s = Ok s' /\ pool_inv ty all s'.
Proof.
  induction acts as [|a acts IH]; intros [b held] Hi; cbn [pool_run]; [by eauto|].
  assert (exists b' held' st, pool_step ty a (b, held) = Ok (b', held', st) /\ pool_inv ty all (b', held')) as (b' & held' & st & -> & Hi').
  { destruct a as [|ev]; [|by apply pool_give]. destruct (pool_take ty all b held Hi) as (b' & held' & st & H & Hi' & _). by eauto. }
  cbn [rbind]. by apply IH.
Qed.

(** C29: A pool of fast events made with room for [capacity] of them: whatever
    clients do, every event is in the pool or held by one client, never both and
    never twice; taking one fails exactly when all of them are held, and giving
    one back always succeeds. *)
Theorem fast_pool_exclusive b fs ty id capacity hs bl acts : 0 <= ty < EVENT_FAST_TYPE_Invalid -> FAST_EVENT_QUEUES b !! ty = None -> 0 <= capacity < 2 ^ 31 ->
  good_templates ty hs bl -> 0 < brk (mem b) -> (forall e p, evts (mem b) !! p = Some e -> fast e < brk (mem b)) ->
  exists b0 fs0 all, agc_event_fast_initial b fs ty id capacity hs bl = Ok (b0, fs0, AGC_STATUS_SUCCESS) /\ NoDup all /\ Z.of_nat (length all) = capacity /\
    exists b' held, pool_run ty acts (b0, []) = Ok (b', held) /\ (exists q, FAST_EVENT_QUEUES b' !! ty = Some q /\ Queue.contents q ++ held ≡ₚ all) /\
      exists b2 held2 st, pool_step ty Take (b', held) = Ok (b2, held2, st) /\
        ((st = AGC_STATUS_SUCCESS /\ exists ev, held2 = ev :: held /\ ev ∉ held) \/ (st = AGC_STATUS_GENERR /\ held ≡ₚ all)).
Proof.
  intros Hty Hq Hcap Hg Hb Hfast. unfold agc_event_fast_initial. rewrite (proj2 (Z.leb_gt _ _)), (proj2 (Z.ltb_ge _ _)), Hq, wrap_small by lia.
  destruct (Queue.wf_create (capacity + 10)) as [Hwf Hc]; [lia|].
  destruct (fill_spec (Z.to_nat capacity) (with_fast (<[ty := Queue.apr_queue_create (capacity + 10)]> (FAST_EVENT_QUEUES b)) b) fs ty id hs bl [] Hg)
    as (b0 & fs0 & all & E & [(q & Hq0 & Hwf0 & Ht0 & Hc0 & Hroom)] & Hnd & Hall & Hlen); [done|done| |constructor|constructor|].
  { split. eexists. cbn [FAST_EVENT_QUEUES with_fast]. rewrite lookup_insert_eq. split_and!; [done|done|done|done|]. cbn. lia. }
  exists b0, fs0, all. rewrite E. cbn [app] in *. split_and!; [done|done|lia|].
  destruct (pool_run_inv ty all acts (b0, [])) as ([b' held] & Hrun & Hi).
  { split; [done| |done]. exists all. rewrite app_nil_r. split; [|done]. split. by exists q. }
  exists b', held. split; [done|]. split.
  - destruct Hi as [_ (es & [(q' & Hq' & _ & _ & <- & _)] & Hperm) _]. by exists q'.
  - destruct (pool_take ty all b' held Hi) as (b2 & held2 & st & Hs & _ & Hcase). exists b2, held2, st. split; [done|]. tauto.
Qed.

Lemma fast_pool_exclusive_witness :
  let b := BusState true 3 0 ∅ ∅ [] ∅ ∅ (Store ∅ ∅ 1) in
  let acts := [Take; Take; Give 1; Take] in
  exists b0 fs0, agc_event_fast_initial b ∅ EVENT_FAST_TYPE_CallBack 0 2 [] 0 = Ok (b0, fs0, AGC_STATUS_SUCCESS) /\
    exists b' held, pool_run EVENT_FAST_TYPE_CallBack acts (b0, []) = Ok (b', held) /\ held = [1; 3] /\
      exists b2 held2, pool_step EVENT_FAST_TYPE_CallBack Take (b', held) = Ok (b2, held2, AGC_STATUS_GENERR).
Proof.
  intros b acts. destruct (fast_pool_exclusive b ∅ EVENT_FAST_TYPE_CallBack 0 2 [] 0 acts) as (b0 & fs0 & all & H1 & _ & Hl & b' & held & H2 & _ & b2 & held2 & st & H3 & Hcase).
  - vm_compute. split; [discriminate|reflexivity].
  - reflexivity.
  - lia.
  - by eexists.
  - reflexivity.
  - intros e p He. cbn in He. by rewrite lookup_empty in He.
  - exists b0, fs0. split; [exact H1|]. vm_compute in H1. injection H1 as <- <-. exists b', held. split; [exact H2|].
    vm_compute in H2. injection H2 as <- <-. split; [reflexivity|]. exists b2, held2. vm_compute in H3. by injection H3 as <- <- <-.
Defined.

(** ** Shutdown *)

Lemma shutdown_loop_ends reads : (forall t, 0 <= reads (S t) <= reads t) -> forall fuel t x last, 0 <= x <= 100 -> reads t <= last -> (Z.to_nat (100 - x + last) < fuel)%nat ->
  exists t' x', shutdown_loop fuel reads t x last = Some (t', x') /\ (reads t' = 0 \/ x' = 100) /\ (t' <= t + 3 * Z.to_nat (100 - x + last))%nat /\ x' <= 100.
Proof.
  intros Hmono. induction fuel as [|fuel IH]; intros t x last Hx Hl Hf; [lia|]. cbn [shutdown_loop].
  destruct (Z.ltb_spec x 100) as [Hlt|Hge]; cbn [andb]; [|exists t, x; split_and!; (done || lia)].
  destruct (Z.eqb_spec (reads t) 0) as [H0|H0]; cbn [negb]; [exists t, x; split_and!; [done|by left|lia|lia]|].
  pose proof (Hmono t) as H1. pose proof (Hmono (S t)) as H2. pose proof (Hmono (S (S t))) as H3.
  rewrite (Nat.add_1_r t), (Nat.add_comm t 2), (Nat.add_comm t 3). cbn [Nat.add].
  destruct (IH (S (S (S t))) (if reads (S t) =? last then x + 1 else x) (reads (S (S t)))) as (t' & x' & E & Hend & Ht & Hx').
  - destruct (_ =? _); lia.
  - lia.
  - destruct (Z.eqb_spec (reads (S t)) last); lia.
  - exists t', x'. rewrite E. split_and!; [done|done| |done]. destruct (Z.eqb_spec (reads (S t)) last); lia.
Qed.

(** The end of the event system: the threads only ever end, so the wait is over
    after a number of turns that depends on how many there are, and then either
    no thread is left or a hundred turns have passed without a change. *)
Theorem agc_event_shutdown_ends b reads : (forall t, 0 <= reads (S t) <= reads t) ->
  exists t x, agc_event_shutdown (Z.to_nat (103 + reads 0%nat)) b reads = (with_running false b, Some (t, x)) /\ (reads t = 0 \/ x = 100) /\
    (t <= 3 * Z.to_nat (102 + reads 0%nat))%nat.
Proof.
  intros Hmono. unfold agc_event_shutdown. pose proof (Hmono 0%nat) as H0. pose proof (Hmono 1%nat) as H1. pose proof (Hmono 2%nat) as H2.
  replace (Z.to_nat (103 + reads 0%nat)) with (S (Z.to_nat (102 + reads 0%nat))) by lia. cbn [shutdown_loop]. change (0 <? 100) with true. cbn [andb].
  destruct (Z.eqb_spec (reads 0%nat) 0) as [Hz|Hz]; cbn [negb]; [exists 0%nat, 0; split_and!; [done|by left|lia]|].
  destruct (shutdown_loop_ends reads Hmono (Z.to_nat (102 + reads 0%nat)) 3 (if reads 1%nat =? 0 then 1 else 0) (reads 2%nat)) as (t & x & E & He & Ht & Hx).
  - destruct (_ =? _); lia.
  - lia.
  - destruct (_ =? _); lia.
  - exists t, x. change (0 + 3)%nat with 3%nat. change (0 + 1)%nat with 1%nat. change (0 + 2)%nat with 2%nat. change (0 + 1) with 1. rewrite E. split_and!; [done|done|]. destruct (_ =? _); lia.
Qed.

Lemma agc_event_shutdown_ends_witness :
  let reads t := if (t <? 5)%nat then 2 else if (t <? 9)%nat then 1 else 0 in
  exists t x, agc_event_shutdown 105 (BusState true 3 0 ∅ ∅ [] ∅ ∅ (Store ∅ ∅ 1)) reads = (BusState false 3 0 ∅ ∅ [] ∅ ∅ (Store ∅ ∅ 1), Some (t, x)) /\ (reads t = 0 \/ x = 100).
Proof.
  intros reads. destruct (agc_event_shutdown_ends (BusState true 3 0 ∅ ∅ [] ∅ ∅ (Store ∅ ∅ 1)) reads) as (t & x & E & H & _).
  - intros t. unfold reads. destruct (Nat.ltb_spec t 5), (Nat.ltb_spec (S t) 5), (Nat.ltb_spec t 9), (Nat.ltb_spec (S t) 9); lia.
  - exists t, x. split; [exact E|exact H].
Defined.
