(* ===== verification/Sctp.v ===== *)
(** * SCTP sockets

    [src/src/agc_sctp.c].  The calls of the operating system and what they
    return are the input; a run is the list of the calls made.  The structures
    of notifications are those of the system, so reading one from the buffer is a
    parameter. *)

From stdpp Require Import base gmap list fin_sets.
From Stdlib Require Import ZArith Lia.
From S2P Require Import Prelude CString Event.

Module Sctp.
Import Ev.

(** [agc_sctp_config_t] *)
Record agc_sctp_config := SctpConfig {
  outbound_stream_num : Z;
  hbinvertal : Z;
  path_max_retrans : Z;
  init_max_retrans : Z;
  rto_initial : Z;
  rto_min : Z;
  rto_max : Z }.

(** Options of a socket, with the fields that are set: [sinit_*] and
    [spp_pathmaxrxt] have 16 bits, the others 32. *)
Inductive sockopt :=
  | SCTP_EVENTS (data_io association send_failure shutdown address peer_error : bool)
  | SCTP_RTOINFO (srto_initial srto_min srto_max : Z)
  | SCTP_INITMSG (sinit_num_ostreams sinit_max_instreams sinit_max_attempts : Z)
  | SCTP_PEER_ADDR_PARAMS (spp_hbinterval spp_pathmaxrxt : Z)
  | SCTP_NODELAY
  | SO_REUSEADDR
  | SO_RCVBUF (size : Z).

Inductive syscall :=
  | SetSockOpt (fd : Z) (o : sockopt)
  | SctpBindx (fd : Z)
  | Listen (fd backlog : Z)
  | Close (fd : Z)
  | ShutDown (fd : Z).

(** What the calls return. *)
Record system := System {
  ret_socket : Z;
  ret_opt : sockopt -> Z;
  ret_bindx : Z;
  ret_listen : Z }.

Definition AGC_MAX_SCTP_RECV_SIZE : Z := 10000000.

(** ** Options *)

Definition agc_sctp_subscribe_to_events (s : system) (fd : Z) : list syscall * agc_status :=
  let o := SCTP_EVENTS true true false true false true in
  ([SetSockOpt fd o], if negb (ret_opt s o =? 0) then AGC_STATUS_FALSE else AGC_STATUS_SUCCESS).

Definition agc_sctp_set_rtoinfo (s : system) (fd : Z) (cfg : agc_sctp_config) : list syscall * agc_status :=
  let o := SCTP_RTOINFO (wrap 32 (rto_initial cfg)) (wrap 32 (rto_min cfg)) (wrap 32 (rto_max cfg)) in
  ([SetSockOpt fd o], if negb (ret_opt s o =? 0) then AGC_STATUS_FALSE else AGC_STATUS_SUCCESS).

Definition agc_sctp_set_init_msg (s : system) (fd : Z) (cfg : agc_sctp_config) : list syscall * agc_status :=
  let o := SCTP_INITMSG (wrap 16 (outbound_stream_num cfg)) 65535 (wrap 16 (init_max_retrans cfg)) in
  ([SetSockOpt fd o], if negb (ret_opt s o =? 0) then AGC_STATUS_FALSE else AGC_STATUS_SUCCESS).

Definition agc_sctp_set_paddrparams (s : system) (fd : Z) (cfg : agc_sctp_config) : list syscall * agc_status :=
  let o := SCTP_PEER_ADDR_PARAMS (wrap 32 (hbinvertal cfg)) (wrap 16 (path_max_retrans cfg)) in
  if negb (ret_opt s o =? 0) then ([SetSockOpt fd o], AGC_STATUS_FALSE)
  else ([SetSockOpt fd o; SetSockOpt fd SCTP_NODELAY], AGC_STATUS_SUCCESS).

(** ** Making sockets *)

(** The calls, the status, and what is stored in [*sock]. *)
Definition agc_sctp_server (s : system) (cfg : agc_sctp_config) : list syscall * agc_status * option Z :=
  let fd := ret_socket s in
  if fd <=? 0 then ([], AGC_STATUS_FALSE, None)
  else
    let calls := (agc_sctp_subscribe_to_events s fd).1 ++ (agc_sctp_set_paddrparams s fd cfg).1 ++ (agc_sctp_set_rtoinfo s fd cfg).1 ++
      (agc_sctp_set_init_msg s fd cfg).1 ++ [SetSockOpt fd SO_REUSEADDR; SetSockOpt fd SCTP_NODELAY; SctpBindx fd] in
    if ret_bindx s =? -1 then (calls ++ [Close fd], AGC_STATUS_FALSE, None)
    else if ret_listen s <? 0 then (calls ++ [Listen fd 1024; Close fd], AGC_STATUS_FALSE, None)
    else (calls ++ [Listen fd 1024], AGC_STATUS_SUCCESS, Some fd).

Definition agc_sctp_client (s : system) (cfg : agc_sctp_config) : list syscall * agc_status * option Z :=
  let fd := ret_socket s in
  if fd <=? 0 then ([], AGC_STATUS_FALSE, None)
  else
    let calls := [SetSockOpt fd SO_REUSEADDR; SetSockOpt fd (SO_RCVBUF AGC_MAX_SCTP_RECV_SIZE); SetSockOpt fd SCTP_NODELAY] ++
      (agc_sctp_subscribe_to_events s fd).1 ++ (agc_sctp_set_paddrparams s fd cfg).1 ++ (agc_sctp_set_rtoinfo s fd cfg).1 ++
      (agc_sctp_set_init_msg s fd cfg).1 ++ [SctpBindx fd] in
    if ret_bindx s =? -1 then (calls ++ [Close fd], AGC_STATUS_FALSE, None) else (calls, AGC_STATUS_SUCCESS, Some fd).

Definition agc_sctp_connect (ret : Z) : agc_status := if negb (ret =? 0) then AGC_STATUS_FALSE else AGC_STATUS_SUCCESS.

(** [agc_sctp_accept]: [ret] is the result of [accept]; [*client_sock] is left as
    it was. *)
Definition agc_sctp_accept (ret : Z) (client_sock : option Z) : agc_status * option Z :=
  (if negb (ret =? 0) then AGC_STATUS_FALSE else AGC_STATUS_SUCCESS, client_sock).

Definition agc_sctp_close (fd : Z) : list syscall * agc_status := ([ShutDown fd; Close fd], AGC_STATUS_SUCCESS).

(** ** Messages *)

(** [htonl] and [ntohl] on a little-endian machine. *)
Definition byte_of (x : Z) (i : Z) : Z := Z.land (Z.shiftr x (8 * i)) 255.
Definition htonl (x : Z) : Z :=
  Z.lor (Z.lor (Z.shiftl (byte_of x 0) 24) (Z.shiftl (byte_of x 1) 16)) (Z.lor (Z.shiftl (byte_of x 2) 8) (byte_of x 3)).

(** [agc_sctp_stream_t], without the address of the peer. *)
Record agc_sctp_stream := SctpStream { associate : Z; stream_no : Z; ppid : Z; msg_flags : Z; max_stream_no : Z }.

(** What [sctp_sendmsg] is given: the bytes, the payload identifier as it goes
    over the wire, and the stream. *)
Definition agc_sctp_send (st : agc_sctp_stream) (buf : list Z) (ret : Z) : (list Z * Z * Z) * agc_status :=
  ((buf, htonl (ppid st), stream_no st), if ret <? 0 then AGC_STATUS_FALSE else AGC_STATUS_SUCCESS).

Definition AGC_SCTP_MAX_BUFFER : Z := 4096.
Definition MSG_NOTIFICATION : Z := 32768.

Inductive assoc_state := SCTP_COMM_UP | SCTP_COMM_LOST | SCTP_RESTART | SCTP_SHUTDOWN_COMP | SCTP_CANT_STR_ASSOC.
Inductive notification :=
  | SCTP_ASSOC_CHANGE (sac_state : assoc_state) (sac_outbound_streams : Z)
  | SCTP_SHUTDOWN_EVENT
  | SCTP_PEER_ADDR_CHANGE
  | SCTP_REMOTE_ERROR
  | SCTP_SEND_FAILED
  | SCTP_OTHER.

(** What [sctp_recvmsg] gives: an error, or the bytes, [sinfo_assoc_id],
    [sinfo_ppid], [sinfo_stream] and the flags. *)
Inductive received := RecvError | Received (buf : list Z) (assoc_id ppid stream flags : Z).

Definition agc_sctp_recv (sn : list Z -> notification) (st : agc_sctp_stream) (r : received) : agc_sctp_stream * Z * agc_status :=
  match r with
  | RecvError => (st, -1, AGC_STATUS_FALSE)
  | Received buf assoc_id pp str flags =>
      let len := Z.of_nat (length buf) in
      let st := SctpStream assoc_id str (htonl pp) flags (max_stream_no st) in
      if Z.land flags MSG_NOTIFICATION =? 0 then (st, len, AGC_STATUS_SUCCESS)
      else
        match sn buf with
        | SCTP_ASSOC_CHANGE state out =>
            let st := SctpStream (associate st) (stream_no st) (ppid st) (msg_flags st) out in
            (st, match state with SCTP_COMM_UP => 0 | SCTP_SHUTDOWN_COMP | SCTP_COMM_LOST => -1 | _ => len end, AGC_STATUS_SUCCESS)
        | SCTP_SHUTDOWN_EVENT | SCTP_REMOTE_ERROR | SCTP_SEND_FAILED => (st, -1, AGC_STATUS_SUCCESS)
        | SCTP_PEER_ADDR_CHANGE | SCTP_OTHER => (st, len, AGC_STATUS_SUCCESS)
        end
  end.

End Sctp.
Import Ev Sctp.

(** ** Sockets *)

(** The descriptors that calls close. *)
Definition closed (calls : list syscall) : list Z := calls ≫= fun c => match c with Close fd => [fd] | _ => [] end.
Definition options (calls : list syscall) : list sockopt := calls ≫= fun c => match c with SetSockOpt _ o => [o] | _ => [] end.

Lemma closed_app a b : closed (a ++ b) = closed a ++ closed b.
Proof. unfold closed. by rewrite bind_app. Qed.
Lemma options_app a b : options (a ++ b) = options a ++ options b.
Proof. unfold options. by rewrite bind_app. Qed.

Lemma paddr_calls s fd cfg : closed (agc_sctp_set_paddrparams s fd cfg).1 = [] /\
  SCTP_PEER_ADDR_PARAMS (wrap 32 (hbinvertal cfg)) (wrap 16 (path_max_retrans cfg)) ∈ options (agc_sctp_set_paddrparams s fd cfg).1.
Proof. unfold agc_sctp_set_paddrparams. destruct (negb _); cbn; split; (done || set_solver). Qed.

(** The options every socket gets, the counts cut to 16 bits. *)
Definition wanted (cfg : agc_sctp_config) : list sockopt :=
  [SCTP_EVENTS true true false true false true; SCTP_PEER_ADDR_PARAMS (wrap 32 (hbinvertal cfg)) (wrap 16 (path_max_retrans cfg));
   SCTP_RTOINFO (wrap 32 (rto_initial cfg)) (wrap 32 (rto_min cfg)) (wrap 32 (rto_max cfg));
   SCTP_INITMSG (wrap 16 (outbound_stream_num cfg)) 65535 (wrap 16 (init_max_retrans cfg)); SO_REUSEADDR; SCTP_NODELAY].

(** A listening socket: it is handed out exactly when the system has made, bound
    and set it listening; then it is open and was given every option, whatever
    became of the options; otherwise a descriptor that was made is closed, once. *)
Theorem agc_sctp_server_correct s cfg :
  let '(calls, st, sock) := agc_sctp_server s cfg in
  (st = AGC_STATUS_SUCCESS /\ sock = Some (ret_socket s) /\ 0 < ret_socket s /\ ret_bindx s <> -1 /\ 0 <= ret_listen s /\ closed calls = [] /\ (forall o, o ∈ wanted cfg -> o ∈ options calls)) \/
  (st = AGC_STATUS_FALSE /\ sock = None /\ closed calls = (if ret_socket s <=? 0 then [] else [ret_socket s]) /\ (ret_socket s <= 0 \/ ret_bindx s = -1 \/ ret_listen s < 0)).
Proof.
  unfold agc_sctp_server. destruct (paddr_calls s (ret_socket s) cfg) as [Hc Ho]. destruct (Z.leb_spec (ret_socket s) 0); [right; split_and!; try done; by left|].
  destruct (Z.eqb_spec (ret_bindx s) (-1)); [right|destruct (Z.ltb_spec (ret_listen s) 0); [right|left]]; (split_and!; try (done || lia)); rewrite ?closed_app, ?Hc; try done; try tauto.
  intros o Hin. rewrite !options_app. cbn. unfold wanted in Hin. set_solver.
Qed.

(** The check of [accept] takes the descriptor of every new connection for an
    error, and none is ever stored. *)
Theorem agc_sctp_accept_loses fd old : 0 < fd -> agc_sctp_accept fd old = (AGC_STATUS_FALSE, old).
Proof. intros H. unfold agc_sctp_accept. by rewrite (proj2 (Z.eqb_neq _ _)) by lia. Qed.

Lemma agc_sctp_accept_loses_witness : agc_sctp_accept 9 None = (AGC_STATUS_FALSE, None).
Proof. apply (agc_sctp_accept_loses 9 None). lia. Defined.

(** ** Messages *)

Lemma byte_bits x i n : 0 <= i -> 0 <= n -> Z.testbit (byte_of x i) n = (n <? 8) && Z.testbit x (n + 8 * i).
Proof.
  intros Hi Hn. unfold byte_of. rewrite Z.land_spec, Z.shiftr_spec by done. change 255 with (Z.ones 8).
  destruct (Z.ltb_spec n 8); [rewrite Z.ones_spec_low by lia; by rewrite andb_true_r|rewrite Z.ones_spec_high by lia; by rewrite andb_false_r].
Qed.

Lemma htonl_bits x n : 0 <= n -> Z.testbit (htonl x) n = (n <? 32) && Z.testbit x (n mod 8 + 8 * (3 - n / 8)).
Proof.
  intros Hn. unfold htonl. rewrite !Z.lor_spec, !Z.shiftl_spec by done.
  assert (forall k i, 0 <= k -> 0 <= i -> Z.testbit (byte_of x i) (n - 8 * k) = (n / 8 =? k) && Z.testbit x (n mod 8 + 8 * i)) as Hb.
  { intros k i Hk Hi. pose proof (Z.div_mod n 8 ltac:(lia)) as Hdm. pose proof (Z.mod_pos_bound n 8 ltac:(lia)) as Hm.
    destruct (Z.ltb_spec (n - 8 * k) 0) as [Hneg|Hpos].
    - rewrite Z.testbit_neg_r by done. rewrite (proj2 (Z.eqb_neq _ _)); [done|]. intros E. lia.
    - rewrite byte_bits by lia. destruct (Z.eqb_spec (n / 8) k) as [E|E].
      + rewrite (proj2 (Z.ltb_lt _ _)) by lia. cbn [andb]. f_equal. lia.
      + rewrite (proj2 (Z.ltb_ge _ _)); [done|]. destruct (Z.lt_ge_cases (n / 8) k); [lia|]. lia. }
  pose proof (Hb 3 0 ltac:(lia) ltac:(lia)) as E3. pose proof (Hb 2 1 ltac:(lia) ltac:(lia)) as E2. pose proof (Hb 1 2 ltac:(lia) ltac:(lia)) as E1. pose proof (Hb 0 3 ltac:(lia) ltac:(lia)) as E0.
  change (n - 8 * 3) with (n - 24) in E3. change (n - 8 * 2) with (n - 16) in E2. change (n - 8 * 1) with (n - 8) in E1. replace (n - 8 * 0) with n in E0 by lia. rewrite E3, E2, E1, E0.
  pose proof (Z.div_pos n 8 Hn ltac:(lia)) as Hp.
  destruct (Z.ltb_spec n 32) as [Hlt|Hge].
  - assert (n / 8 < 4) by (apply Z.div_lt_upper_bound; lia). assert (n / 8 = 0 \/ n / 8 = 1 \/ n / 8 = 2 \/ n / 8 = 3) as [E|[E|[E|E]]] by lia; rewrite E; cbn; rewrite ?orb_false_r; done.
  - assert (4 <= n / 8) by (apply Z.div_le_lower_bound; lia). by rewrite !(proj2 (Z.eqb_neq _ _)) by lia.
Qed.

Lemma htonl_roundtrip x : 0 <= x < 2 ^ 32 -> htonl (htonl x) = x.
Proof.
  intros Hx. apply Z.bits_inj'. intros n Hn. rewrite htonl_bits by done. pose proof (Z.mod_pos_bound n 8 ltac:(lia)) as Hm. pose proof (Z.div_pos n 8 Hn ltac:(lia)) as Hp.
  destruct (Z.ltb_spec n 32) as [Hlt|Hge]; cbn [andb].
  - assert (n / 8 < 4) by (apply Z.div_lt_upper_bound; lia). rewrite htonl_bits by lia.
    replace ((n mod 8 + 8 * (3 - n / 8)) / 8) with (3 - n / 8) by (rewrite (Z.mul_comm 8), Z.div_add, (Z.div_small (n mod 8)) by lia; lia).
    replace ((n mod 8 + 8 * (3 - n / 8)) mod 8) with (n mod 8) by (rewrite (Z.mul_comm 8), Z.mod_add, Z.mod_mod by lia; lia).
    rewrite (proj2 (Z.ltb_lt _ _)) by lia. cbn [andb]. f_equal. pose proof (Z.div_mod n 8 ltac:(lia)). lia.
  - symmetry. destruct (decide (x = 0)) as [->|]; [apply Z.testbit_0_l|]. apply Z.bits_above_log2; [lia|]. assert (Z.log2 x < 32) by (apply Z.log2_lt_pow2; lia). lia.
Qed.

(** A message that is sent is received with the stream and the payload
    identifier it was sent with, and its length. *)
Theorem agc_sctp_message_roundtrip sn out st buf ret assoc flags : 0 <= ppid out < 2 ^ 32 -> 0 <= ret -> Z.land flags MSG_NOTIFICATION = 0 ->
  let '((bytes, pp, str), sent) := agc_sctp_send out buf ret in
  let '(st', len, got) := agc_sctp_recv sn st (Received bytes assoc pp str flags) in
  sent = AGC_STATUS_SUCCESS /\ got = AGC_STATUS_SUCCESS /\ len = Z.of_nat (length buf) /\ ppid st' = ppid out /\ stream_no st' = stream_no out /\ associate st' = assoc.
Proof.
  intros Hp Hr Hf. cbn. rewrite (proj2 (Z.ltb_ge _ _)) by lia. rewrite Hf. cbn. rewrite htonl_roundtrip by done. by split_and!.
Qed.

Lemma agc_sctp_message_roundtrip_witness :
  let out := SctpStream 0 3 60 0 0 in
  agc_sctp_send out [1; 2] 2 = (([1; 2], 1006632960, 3), AGC_STATUS_SUCCESS) /\
  ppid (agc_sctp_recv (fun _ => SCTP_OTHER) out (Received [1; 2] 7 1006632960 3 0)).1.1 = 60.
Proof.
  intros out. split; [reflexivity|].
  pose proof (agc_sctp_message_roundtrip (fun _ => SCTP_OTHER) out out [1; 2] 2 7 0 ltac:(cbn; lia) ltac:(lia) eq_refl) as H. apply H.
Defined.
